(* ===== verification/_CoqProject ===== *)
-Q . S2P
Prelude.v
Fcntl.v
Format.v
Riscv.v
Mem.v
CString.v
Kalloc.v
Vm.v
VmTree.v
VmOps.v
VmFree.v
Cow.v
KvmSpec.v
Asm.v
AsmSpec.v
Boot.v
Spinlock.v
Sleeplock.v
Proc.v
ProcSpec.v
ProcTable.v
Run.v
Space.v
ProcMem.v
Syscall.v
Usys.v
Trap.v
TrapSpec.v
Bio.v
Virtio.v
VirtioSpec.v
BioSpec.v
Log.v
LogSpec.v
Fs.v
FsSpec.v
FsFile.v
Mkfs.v
MkfsSpec.v
FsBoot.v
Pipe.v
PipeSpec.v
File.v
FsLocks.v
FileSpec.v
UserInit.v
ForkSpec.v
WaitSpec.v
GrowSpec.v
Uart.v
Printf.v
Console.v
ConsoleSpec.v
Exec.v
Sysfile.v
FirstProc.v
Main.v
MainSpec.v
Ulib.v
Uprintf.v
Sh.v
ShSpec.v
Grep.v
Programs.v
ProgramsSpec.v
Umalloc.v
UmallocSpec.v
