(* ===== verification/Prelude.v ===== *)
(** * A verification of the xv6 kernel with copy-on-write fork

    The program under [src/] is xv6 for RISC-V, a small Unix, in the version of
    the copy-on-write lab: [fork] shares the pages of the parent, read-only and
    counted by [page_refcnt], and a store to a shared page takes a private copy
    in [usertrap] or in [copyout].  The development covers the kernel, the user
    library, the programs and the builder of the disk image.

    ** The parts and how they fit together

    A hart starts in [kernel/entry.S] and [start.c], and [main.c] initializes
    everything once and makes the first process.  User code enters the kernel
    through [trampoline.S] and [usertrap] ([trap.c]), which serves page faults
    ([vm.c]), system calls ([syscall.c], [sysproc.c], [sysfile.c]) and
    interrupts.  Processes ([proc.c]) have address spaces ([vm.c]) of pages from
    [kalloc.c]; their open files ([file.c]) are pipes ([pipe.c]), devices
    ([console.c], [uart.c]) and inodes ([fs.c]), whose blocks go through the log
    ([log.c]), the buffer cache ([bio.c]) and the driver ([virtio_disk.c]).

    ** The files of the development

    Foundations.
    - [Prelude] (this file): outcomes, the monad of kernel code with [wp], its
      total-correctness reading, machine integers, bytes, lists.
    - [Fcntl], [Riscv], [Format]: [fcntl.h], the macros of [riscv.h],
      [memlayout.h] and [param.h], and the conversions that both [printf]s share.
    - [Mem], [CString]: the byte memory; [kernel/string.c].

    Memory.
    - [Kalloc]: [kalloc.c].  State [kst]: memory, head of the free list, reference
      counts.  Module [KfreeRace] runs [kfree] interleaved on several CPUs.
    - [Vm]: [vm.c], but for [kvminit] and [kvminithart], which are in [Main].
      [VmTree] reads the page tables in memory as finite maps, [VmOps] and
      [VmFree] specify mapping, unmapping, growing and freeing, [Cow] the
      copy-on-write operations, [KvmSpec] the kernel's table.

    Harts, locks, processes.
    - [Asm], [AsmSpec]: [entry.S], [kernelvec.S], [swtch.S], [trampoline.S].
    - [Boot]: [start.c] and [plic.c].
    - [Spinlock], [Sleeplock] (Modules [Spin], [Sleep]): [spinlock.c] and
      [sleeplock.c] as interleaved atomic steps.
    - [Proc]: [proc.c].  State [pst]: process table, pids, locks held, CPU, kernel
      memory, and the files, behind the class [FileSys].  [ProcSpec] has the locks,
      [ProcTable] the table, [Run] the rules for code with both table and memory,
      [Space] and [ProcMem] the address spaces of all processes, and [UserInit],
      [ForkSpec], [WaitSpec], [GrowSpec] the operations with all of it.
    - [Syscall], [Trap], [TrapSpec]: [syscall.c], [sysproc.c], [trap.c].
    - [Usys], [FirstProc]: the stubs of [user/usys.pl] and [user/initcode.S].

    Storage.
    - [Virtio], [VirtioSpec]: [virtio_disk.c].
    - [Bio], [BioSpec]: [bio.c].  [Log], [LogSpec]: [log.c].
    - [Fs], [FsSpec], [FsFile]: [fs.c].  [FsLocks]: the spin locks of these layers.
    - [Mkfs], [MkfsSpec]: [mkfs/mkfs.c]; [FsBoot]: the kernel on such an image.

    Files and devices.
    - [Pipe], [PipeSpec]: [pipe.c].  [File], [FileSpec]: [file.c], and the instance
      of [FileSys] with its laws.  [Sysfile]: [sysfile.c].  [Exec]: [exec.c].
    - [Uart], [Printf], [Console], [ConsoleSpec]: [uart.c], [printf.c], [console.c].
    - [Main], [MainSpec]: [main.c], with the parts of the initializers that other
      files leave out (their locks, [kvminit], [kvminithart], [iinit]).

    User space.
    - [Ulib], [Uprintf], [Umalloc], [UmallocSpec]: [ulib.c], [printf.c], [umalloc.c].
    - [Sh], [ShSpec]: [sh.c].  [Grep]: [grep.c].  [Programs], [ProgramsSpec]: cat,
      echo, kill, ln, mkdir, rm, wc, ls, init, zombie.

    ** How code is modelled

    A function is a computation [M S A := S → outcome S A] on the state of its
    component: it returns, panics, faults, goes to sleep, or is out of fuel.
    Components compose by [zoom]ing into parts of a larger state, so that a
    theorem about [usertrap] is about the code of [vm.c] and [kalloc.c] that it
    calls.  Kernel memory is bytes at addresses, and page tables, free pages,
    pipes and trap frames are in it; tables of structures ([proc], [file],
    [inode], [buf]) are lists, and pointers into them are indices.  Integers have
    their C width wherever they can wrap.  A run is that of one kernel thread
    between two switches: what a function does after [sleep] is a definition of
    its own ([..._resume]).  Where interleaving is the point, the model is a
    transition system: the locks, the race of [kfree], the disk driver with its
    device and interrupt handler, and the harts in [main].

    ** What is shown

    - Copy-on-write: a forked address space reads as the parent's and shares its
      pages, writes by [copyout] or after a store fault never show in another
      process, the counts are the numbers of mappings, freeing returns exactly
      what is no longer used ([fork_isolation], [copyout_correct],
      [usertrap_cow], [uvmfree_correct], [kfree_correct]).
    - Processes, with all of memory: [fork], [wait] and [growproc] in a kernel
      whose processes have each an address space of their own ([pm_inv]) do what
      they should to the caller and the child and nothing to anyone else, and
      fail only for lack of slots or pages ([fork_correct], [wait_correct],
      [growproc_correct]); the process table stays consistent, in every state in
      which a thread gives up the CPU ([proc_table_inv], [exit_correct]).
    - Booting: however the harts are interleaved, each comes to the scheduler of
      an initialized kernel ([main_boots], with [boot_timer] for machine mode);
      the first process runs [initcode] up to [exec] ([first_program]).
    - Assembly: [swtch], the trampoline and [kernelvec] keep registers
      ([swtch_resumes], [trampoline_roundtrip], [kernelvec_transparent]).
    - Locks: mutual exclusion, no lost wakeup ([spinlock_mutex],
      [sleeplock_mutex], [sleeplock_progress]).
    - Storage: the driver refines an atomic disk and makes progress
      ([virtio_refines], [virtio_driver_safe], [virtio_progress]); a transaction
      is atomic under crashes ([commit_atomic]); files and directories are
      sequences of bytes and of names ([readi_correct], [writei_correct],
      [dirlink_correct]); the image of [mkfs] is a file system and the kernel
      boots on it ([mkfs_image], [mkfs_boots]).
    - Pipes and console: a bounded queue and a line editor ([pipewrite_correct],
      [piperead_correct], [consoleintr_correct], [consoleread_correct]), and the
      file layer obeys the laws that processes rely on ([file_layer_discipline]).
    - Programs: the shell's parser and runner ([parsecmd_print],
      [parsecmd_total], [runcmd_wiring]), [grep] ([grep_correct]), [malloc]
      ([allocator_correct]), the conversion of numbers ([printint_correct]).
    - Where the code does not do what it means to, a lemma shows it:
      [usertrap_null_pte], [usertrap_no_memory], [kfree_race],
      [kill_zero_poisons], [malloc_beyond_break], [log_reservation_gap].

    ** Interfaces and bounds

    What is not in [src/] is a class whose laws are hypotheses, and witnesses
    have instances of it: the linker's addresses ([KernelImage], [KernelText]),
    the serial chip ([UartHw]), the disk ([VirtioHw], [virtio_device]), address
    translation in [Asm], the system calls that programs see ([Sys], [SysLaws]).
    Loops that are not structural have fuel: the number of pages for loops over
    address ranges, the length of the input for parsers and copies, the size of
    the table for scans, the number of reads for programs.  The theorems that a
    function returns show that it suffices.  [spins] is the number of looks at
    the serial line before the model gives up, an argument.  Theorems on [fork]
    ask that pids do not overflow an [int], those on address spaces that they
    end below [TRAPFRAME]; [main_boots] counts the pages that booting takes.

    ** Not modelled

    Weak memory: steps are sequentially consistent.  The test programs
    ([usertests.c], [cowtest.c], [forktest.c], [grind.c], [stressfs.c]), which
    exercise the kernel; [ramdisk.c], which is not compiled; prototypes and
    linker scripts; in [sh.c] the allocation of tree nodes, and [_main] of
    [ulib.c]; in [mkfs.c] failures of [lseek] and [write] on the image.  The disk
    completes every request with status 0.  A [context] has [ra] and [sp] only in
    [Proc] (all of it in [Asm]), where [sched] does not save [intena], as the
    thread that it switches to is not run; [page_refcnt] does not overflow. *)

From Stdlib Require Export ZArith Lia Strings.Byte.
From Stdlib Require String.
From stdpp Require Export base tactics list gmap strings fin_maps numbers.

#[global] Open Scope Z_scope.
#[global] Set Default Proof Using "Type".

(** ** Outcomes of kernel code

    A kernel function either returns, calls [panic()] (which never returns),
    touches an address the kernel page table does not map (a trap taken in
    supervisor mode, which [kerneltrap] turns into a panic), or gives up the
    processor in [sleep()] on a channel, leaving the state as it was then.
    [NoFuel] marks a loop that the model stopped: a theorem that a function
    returns also shows that its fuel is enough. *)

Inductive outcome (S A : Type) : Type :=
| Ok (a : A) (s : S)
| Panic (msg : string)
| Fault (addr : Z)
| Sleep (chan : Z) (s : S)
| NoFuel.

Arguments Ok {S A} a s.
Arguments Panic {S A} msg.
Arguments Fault {S A} addr.
Arguments Sleep {S A} chan s.
Arguments NoFuel {S A}.

(** State-passing computations over a state type, with stdpp's monad notation. *)
Definition M (S A : Type) : Type := S → outcome S A.

#[global] Instance M_ret {S} : MRet (M S) := λ A a s, Ok a s.

#[global] Instance M_bind {S} : MBind (M S) := λ A B f c s,
  match c s with
  | Ok a s' => f a s'
  | Panic m => Panic m
  | Fault a => Fault a
  | Sleep ch s' => Sleep ch s'
  | NoFuel => NoFuel
  end.

Definition panic {S A} (msg : string) : M S A := λ _, Panic msg.
Definition fault {S A} (addr : Z) : M S A := λ _, Fault addr.
Definition sleep_on {S A} (chan : Z) : M S A := λ s, Sleep chan s.
Definition no_fuel {S A} : M S A := λ _, NoFuel.
Definition gets {S A} (f : S → A) : M S A := λ s, Ok (f s) s.
Definition modify {S} (f : S → S) : M S unit := λ s, Ok tt (f s).

(** Running a computation on a component of the state. *)
Definition zoom {S T A} (get : S → T) (set : T → S → S) (c : M T A) : M S A := λ s,
  match c (get s) with
  | Ok a t => Ok a (set t s)
  | Panic m => Panic m
  | Fault a => Fault a
  | Sleep ch t => Sleep ch (set t s)
  | NoFuel => NoFuel
  end.

(** [wp c s Q]: run from [s], [c] returns, and the result and the final state
    satisfy [Q].  It excludes panics, faults and sleeping. *)
Definition wp {S A} (c : M S A) (s : S) (Q : A → S → Prop) : Prop :=
  match c s with
  | Ok a s' => Q a s'
  | _ => False
  end.

Section wp_rules.
  Context {S : Type}.
  Implicit Types s : S.

Lemma wp_ret {A} (a : A) s (Q : A → S → Prop) : Q a s → wp (mret a) s Q.
Proof. exact id. Qed.

Lemma wp_bind {A B} (c : M S A) (f : A → M S B) s (Q : B → S → Prop) :
  wp c s (λ a s', wp (f a) s' Q) → wp (c ≫= f) s Q.
Proof. unfold wp, mbind, M_bind. by destruct (c s). Qed.

Lemma wp_bind_inv {A B} (c : M S A) (f : A → M S B) s (Q : B → S → Prop) :
  wp (c ≫= f) s Q → wp c s (λ a s', wp (f a) s' Q).
Proof. unfold wp, mbind, M_bind. by destruct (c s). Qed.

Lemma wp_mono {A} (c : M S A) s (Q Q' : A → S → Prop) :
  wp c s Q → (∀ a s', Q a s' → Q' a s') → wp c s Q'.
Proof. unfold wp. destruct (c s); naive_solver. Qed.

Lemma wp_gets {A} (f : S → A) s (Q : A → S → Prop) : Q (f s) s → wp (gets f) s Q.
Proof. exact id. Qed.

Lemma wp_modify (f : S → S) s (Q : unit → S → Prop) : Q tt (f s) → wp (modify f) s Q.
Proof. exact id. Qed.

Lemma wp_Ok {A} (c : M S A) s (Q : A → S → Prop) a s' :
  c s = Ok a s' → Q a s' → wp c s Q.
Proof. unfold wp. by intros ->. Qed.

Lemma wp_elim {A} (c : M S A) s (Q : A → S → Prop) :
  wp c s Q → ∃ a s', c s = Ok a s' ∧ Q a s'.
Proof. unfold wp. destruct (c s); naive_solver. Qed.

End wp_rules.

Lemma wp_zoom {S T A} (get : S → T) (set : T → S → S) (c : M T A) s (Q : A → S → Prop) :
  wp c (get s) (λ a t, Q a (set t s)) → wp (zoom get set c) s Q.
Proof. unfold wp, zoom. by destruct (c (get s)). Qed.

(** [wp_step] runs the head of a computation; [wp_use H] discharges the head
    with a specification [H] and introduces its post-condition. *)
Ltac wp_step :=
  lazymatch goal with
  | |- wp (_ ≫= _) _ _ => apply wp_bind
  | |- wp (mret _) _ _ => apply wp_ret
  | |- wp (gets _) _ _ => apply wp_gets
  | |- wp (modify _) _ _ => apply wp_modify
  end; cbv beta.

Ltac wp_steps := repeat wp_step.

Tactic Notation "wp_use" uconstr(H) := eapply wp_mono; [eapply H|cbv beta].

(** ** C integers

    An unsigned value of width [w] is a [Z] in [0, 2^w); arithmetic that can
    wrap is written with the wrap. Signed values are two's complement. *)

Definition u8 (z : Z) : Z := z mod 2 ^ 8.
Definition u16 (z : Z) : Z := z mod 2 ^ 16.
Definition u32 (z : Z) : Z := z mod 2 ^ 32.
Definition u64 (z : Z) : Z := z mod 2 ^ 64.

Definition signed (w z : Z) : Z :=
  let x := z mod 2 ^ w in if x <? 2 ^ (w - 1) then x else x - 2 ^ w.
Definition i16 (z : Z) : Z := signed 16 z.
Definition i32 (z : Z) : Z := signed 32 z.
Definition i64 (z : Z) : Z := signed 64 z.

Lemma Z_geb_spec0 x y : BoolSpec (y ≤ x) (x < y) (x >=? y).
Proof. rewrite Z.geb_leb. destruct (Z.leb_spec y x); constructor; lia. Qed.

(** [case_z] splits on an integer comparison of the goal, [z_decide] resolves
    the comparisons that [lia] can decide from the context. *)
Ltac case_z_on b k :=
  lazymatch b with
  | ?x =? ?y => destruct (Z.eqb_spec x y); k
  | ?x <? ?y => destruct (Z.ltb_spec x y); k
  | ?x <=? ?y => destruct (Z.leb_spec x y); k
  | ?x >? ?y => destruct (Z.gtb_spec x y); k
  | ?x >=? ?y => destruct (Z_geb_spec0 x y); k
  end.

Ltac find_z k :=
  match goal with
  | |- context [?x =? ?y] => k (x =? y)
  | |- context [?x <? ?y] => k (x <? y)
  | |- context [?x <=? ?y] => k (x <=? y)
  | |- context [?x >? ?y] => k (x >? y)
  | |- context [?x >=? ?y] => k (x >=? y)
  end.

Ltac case_z := find_z ltac:(fun b => case_z_on b idtac); simpl.
Ltac z_decide :=
  repeat (find_z ltac:(fun b =>
    first [case_z_on b idtac; [lia|] | case_z_on b idtac; [|lia]]); simpl).

(** The C test [x & m]. *)
Definition band (x m : Z) : bool := negb (Z.land x m =? 0).

Lemma bitop_bound (op : Z → Z → Z) (f : bool → bool → bool) n x y :
  (∀ a b k, 0 ≤ k → Z.testbit (op a b) k = f (Z.testbit a k) (Z.testbit b k)) → f false false = false →
  (∀ a b, 0 ≤ a → 0 ≤ b → 0 ≤ op a b) →
  0 ≤ n → 0 ≤ x < 2 ^ n → 0 ≤ y < 2 ^ n → 0 ≤ op x y < 2 ^ n.
Proof.
  intros Hop Hf Hpos Hn [Hx Hx'] [Hy Hy']. split; [by apply Hpos|].
  apply Z.bounded_iff_bits_nonneg; [done|by apply Hpos|]. intros l Hl.
  rewrite Hop by lia. apply Z.bounded_iff_bits_nonneg with (l := l) in Hx', Hy'; [|done..].
  by rewrite Hx', Hy'.
Qed.

Lemma lor_bound n x y : 0 ≤ n → 0 ≤ x < 2 ^ n → 0 ≤ y < 2 ^ n → 0 ≤ Z.lor x y < 2 ^ n.
Proof. apply (bitop_bound _ orb); [intros; apply Z.lor_spec|done|intros; by apply Z.lor_nonneg]. Qed.

Lemma lxor_bound n x y : 0 ≤ n → 0 ≤ x < 2 ^ n → 0 ≤ y < 2 ^ n → 0 ≤ Z.lxor x y < 2 ^ n.
Proof. apply (bitop_bound _ xorb); [intros; apply Z.lxor_spec|done|intros; by apply Z.lxor_nonneg]. Qed.

Lemma u32_small z : 0 ≤ z < 2 ^ 32 → u32 z = z.
Proof. apply Z.mod_small. Qed.

Lemma u64_small z : 0 ≤ z < 2 ^ 64 → u64 z = z.
Proof. apply Z.mod_small. Qed.

Lemma u32_range z : 0 ≤ u32 z < 2 ^ 32.
Proof. apply Z.mod_pos_bound. lia. Qed.

Lemma u64_range z : 0 ≤ u64 z < 2 ^ 64.
Proof. apply Z.mod_pos_bound. lia. Qed.

Lemma signed_small w z : 0 < w → - 2 ^ (w - 1) ≤ z < 2 ^ (w - 1) → signed w z = z.
Proof.
  intros Hw Hz. unfold signed.
  assert (2 ^ w = 2 * 2 ^ (w - 1)) as Hp by (rewrite <- Z.pow_succ_r by lia; f_equal; lia).
  destruct (decide (0 ≤ z)).
  - rewrite Z.mod_small by lia. by case_match; lia.
  - rewrite <- (Z.mod_add z 1), Z.mod_small by lia. case_match; lia.
Qed.

Lemma i32_small z : - 2 ^ 31 ≤ z < 2 ^ 31 → i32 z = z.
Proof. intros. by apply signed_small. Qed.

(** ** Bytes *)

Definition Z_of_byte (b : byte) : Z := Z.of_N (Byte.to_N b).

Definition byte_of_Z (z : Z) : byte :=
  match Byte.of_N (Z.to_N (z mod 256)) with
  | Some b => b
  | None => x00
  end.

#[global] Instance byte_eq_dec : EqDecision byte := Byte.byte_eq_dec.

Lemma Z_of_byte_range b : 0 ≤ Z_of_byte b < 256.
Proof. unfold Z_of_byte. pose proof (Byte.to_N_bounded b). lia. Qed.

Lemma Z_of_byte_of_Z z : Z_of_byte (byte_of_Z z) = z mod 256.
Proof.
  unfold Z_of_byte, byte_of_Z.
  pose proof (Z.mod_pos_bound z 256 ltac:(lia)) as Hb.
  destruct (Byte.of_N _) as [b|] eqn:E.
  - apply Byte.to_of_N in E. rewrite E. lia.
  - pose proof (Byte.to_of_N_option_map (Z.to_N (z mod 256))) as H. rewrite E in H.
    simpl in H. destruct (N.leb_spec (Z.to_N (z mod 256)) 255); [done|lia].
Qed.

Lemma byte_of_Z_of_byte b : byte_of_Z (Z_of_byte b) = b.
Proof.
  unfold byte_of_Z. rewrite Z.mod_small by apply Z_of_byte_range.
  unfold Z_of_byte. by rewrite N2Z.id, Byte.of_to_N.
Qed.

Lemma Z_of_byte_inj b1 b2 : Z_of_byte b1 = Z_of_byte b2 → b1 = b2.
Proof. intros H. by rewrite <- (byte_of_Z_of_byte b1), H, byte_of_Z_of_byte. Qed.

Lemma byte_of_Z_mod z : byte_of_Z (z mod 256) = byte_of_Z z.
Proof. unfold byte_of_Z. by rewrite Z.mod_mod by lia. Qed.

(** The bytes of a C string literal, without its terminating NUL. *)
Definition bytes (s : string) : list byte := String.list_byte_of_string s.

(** ** Little-endian integers in byte lists *)

Fixpoint le_encode (n : nat) (z : Z) : list byte :=
  match n with
  | O => []
  | S n => byte_of_Z z :: le_encode n (z / 256)
  end.

Fixpoint le_decode (l : list byte) : Z :=
  match l with
  | [] => 0
  | b :: l => Z_of_byte b + 256 * le_decode l
  end.

Lemma length_le_encode n z : length (le_encode n z) = n.
Proof. revert z. induction n; intros; simpl; auto. Qed.

Lemma le_decode_range l : 0 ≤ le_decode l < 256 ^ Z.of_nat (length l).
Proof.
  induction l as [|b l IH]; cbn [length le_decode]; [simpl; lia|].
  pose proof (Z_of_byte_range b). rewrite Nat2Z.inj_succ, Z.pow_succ_r by lia. lia.
Qed.

Lemma le_decode_encode n z : le_decode (le_encode n z) = z mod 256 ^ Z.of_nat n.
Proof.
  revert z. induction n as [|n IH]; intros z; cbn [le_encode le_decode]; [by rewrite Z.mod_1_r|].
  rewrite IH, Z_of_byte_of_Z, Nat2Z.inj_succ, Z.pow_succ_r by lia.
  assert (0 < 256 ^ Z.of_nat n) by (apply Z.pow_pos_nonneg; lia).
  rewrite Z.rem_mul_r by lia. lia.
Qed.

Lemma le_encode_decode l : le_encode (length l) (le_decode l) = l.
Proof.
  induction l as [|b l IH]; simpl; [done|].
  pose proof (Z_of_byte_range b).
  assert ((Z_of_byte b + 256 * le_decode l) / 256 = le_decode l) as ->.
  { rewrite Z.mul_comm, Z.div_add by lia. rewrite Z.div_small by lia. lia. }
  rewrite IH. f_equal.
  rewrite <- byte_of_Z_mod, (Z.mul_comm 256), Z.mod_add, byte_of_Z_mod by lia.
  apply byte_of_Z_of_byte.
Qed.

(** ** Updates of a list at an index *)

Section alter.
Context {A : Type}.
Implicit Types (f g : A → A) (l : list A).

Lemma alter_insert f i l x : l !! i = Some x → alter f i l = <[i := f x]> l.
Proof.
  intros Hx. apply list_eq. intros j. destruct (decide (i = j)) as [<-|].
  - rewrite list_lookup_alter_eq, Hx, list_lookup_insert_eq by (by eapply lookup_lt_Some). done.
  - by rewrite list_lookup_alter_ne, list_lookup_insert_ne.
Qed.

Lemma alter_alter f g i l : alter f i (alter g i l) = alter (f ∘ g) i l.
Proof.
  apply list_eq. intros j. destruct (decide (i = j)) as [<-|].
  - rewrite !list_lookup_alter_eq. by destruct (l !! i).
  - by rewrite !list_lookup_alter_ne.
Qed.

Lemma alter_ext_at f g i l x : l !! i = Some x → f x = g x → alter f i l = alter g i l.
Proof. intros Hx E. erewrite !alter_insert by done. by rewrite E. Qed.

Lemma alter_const f i l x : l !! i = Some x → alter f i l = alter (λ _, f x) i l.
Proof. intros Hx. by eapply alter_ext_at. Qed.

End alter.
