(* ===== verification/Format.v ===== *)
(** * The conversion of integers to characters

    [printint] and [printptr] of [kernel/printf.c] and of [user/printf.c], which
    are the same but for the digits and for where the characters go.  The
    arguments of [va_arg] are a list of integers and pointers to strings. *)

From S2P Require Import Prelude.

Inductive arg := AInt (z : Z) | AStr (s : option (list byte)).

(** ** Integers *)

Section conversion.
Context (digits : list byte).

Definition digit (d : Z) : byte := nth (Z.to_nat d) digits x00.

(** The [do] loop, least significant digit first; [fuel] is what is left of
    [buf[16]]. *)
Fixpoint digit_loop (fuel : nat) (x base : Z) : option (list byte) :=
  match fuel with
  | O => None
  | S fuel =>
      let d := digit (x mod base) in
      let x := x / base in
      if x =? 0 then Some [d] else cons d <$> digit_loop fuel x base
  end.

(** The characters [printint] prints, none if they overran the buffer. *)
Definition printint_chars (xx base : Z) (sign : bool) : option (list byte) :=
  let neg := sign && (xx <? 0) in
  let x := if neg then u32 (- xx) else u32 xx in
  l ← digit_loop 16 x base;
  let l := if neg then l ++ [x2d] else l in
  if (length l <=? 16)%nat then Some (rev l) else None.

Fixpoint ptr_loop (n : nat) (x : Z) : list byte :=
  match n with
  | O => []
  | S n => digit (Z.shiftr x 60) :: ptr_loop n (u64 (Z.shiftl x 4))
  end.
Definition printptr_chars (x : Z) : list byte := x30 :: x78 :: ptr_loop 16 x.

End conversion.

Section output.
Context {S : Type} (put : byte → M S unit).

Fixpoint puts (l : list byte) : M S unit :=
  match l with
  | [] => mret ()
  | c :: l => put c;; puts l
  end.
Definition put_opt (o : option (list byte)) : M S unit := match o with Some l => puts l | None => fault 0 end.

End output.
