(* ===== verification/Riscv.v ===== *)
(** * Machine constants and address arithmetic

    The macros of [kernel/riscv.h], [kernel/memlayout.h] and [kernel/param.h]
    that the kernel computes with: page rounding, Sv39 page-table indices,
    page-table entries and their flag bits, the memory layout.  The lemmas give
    each macro its arithmetic meaning, so that proofs about the kernel never
    look at bits again. *)

From S2P Require Import Prelude.

(** ** param.h *)

Definition NPROC : Z := 64.
Definition NCPU : Z := 8.
Definition NOFILE : Z := 16.
Definition NFILE : Z := 100.
Definition NINODE : Z := 50.
Definition NDEV : Z := 10.
Definition ROOTDEV : Z := 1.
Definition MAXARG : Z := 32.
Definition MAXOPBLOCKS : Z := 10.
Definition LOGSIZE : Z := MAXOPBLOCKS * 3.
Definition NBUF : Z := MAXOPBLOCKS * 3.
Definition FSSIZE : Z := 2000.
Definition MAXPATH : Z := 128.

(** ** riscv.h: pages and page-table entries *)

Definition PGSIZE : Z := 4096.
Definition PGSHIFT : Z := 12.

Definition PGROUNDUP (sz : Z) : Z := Z.land (u64 (sz + PGSIZE - 1)) (u64 (Z.lnot (PGSIZE - 1))).
Definition PGROUNDDOWN (a : Z) : Z := Z.land a (u64 (Z.lnot (PGSIZE - 1))).

Definition PTE_V : Z := Z.shiftl 1 0.
Definition PTE_R : Z := Z.shiftl 1 1.
Definition PTE_W : Z := Z.shiftl 1 2.
Definition PTE_X : Z := Z.shiftl 1 3.
Definition PTE_U : Z := Z.shiftl 1 4.
Definition PTE_COW : Z := Z.shiftl 1 8.

Definition PA2PTE (pa : Z) : Z := u64 (Z.shiftl (Z.shiftr pa 12) 10).
Definition PTE2PA (pte : Z) : Z := u64 (Z.shiftl (Z.shiftr pte 10) 12).
Definition PTE_FLAGS (pte : Z) : Z := Z.land pte 0x3FF.

Definition PXMASK : Z := 0x1FF.
Definition PXSHIFT (level : Z) : Z := PGSHIFT + 9 * level.
Definition PX (level va : Z) : Z := Z.land (Z.shiftr va (PXSHIFT level)) PXMASK.

Definition MAXVA : Z := Z.shiftl 1 (9 + 9 + 9 + 12 - 1).

Definition SATP_SV39 : Z := Z.shiftl 8 60.
Definition MAKE_SATP (pagetable : Z) : Z := Z.lor SATP_SV39 (Z.shiftr pagetable 12).

(** ** memlayout.h *)

Definition UART0 : Z := 0x10000000.
Definition UART0_IRQ : Z := 10.
Definition VIRTIO0 : Z := 0x10001000.
Definition VIRTIO0_IRQ : Z := 1.
Definition CLINT : Z := 0x2000000.
Definition CLINT_MTIMECMP (hartid : Z) : Z := CLINT + 0x4000 + 8 * hartid.
Definition CLINT_MTIME : Z := CLINT + 0xBFF8.
Definition PLIC : Z := 0x0c000000.
Definition PLIC_SENABLE (hart : Z) : Z := PLIC + 0x2080 + hart * 0x100.
Definition PLIC_SPRIORITY (hart : Z) : Z := PLIC + 0x201000 + hart * 0x2000.
Definition PLIC_SCLAIM (hart : Z) : Z := PLIC + 0x201004 + hart * 0x2000.
Definition KERNBASE : Z := 0x80000000.
Definition PHYSTOP : Z := KERNBASE + 128 * 1024 * 1024.
Definition TRAMPOLINE : Z := MAXVA - PGSIZE.
Definition KSTACK (p : Z) : Z := TRAMPOLINE - (p + 1) * 2 * PGSIZE.
Definition TRAPFRAME : Z := TRAMPOLINE - PGSIZE.

(** ** Arithmetic meaning of the macros *)

Lemma PGROUNDDOWN_alt a : 0 ≤ a < 2 ^ 64 → PGROUNDDOWN a = a / 4096 * 4096.
Proof.
  intros Ha. unfold PGROUNDDOWN.
  assert (a / 4096 * 4096 = Z.ldiff a (Z.ones 12)) as ->.
  { rewrite Z.ldiff_ones_r by lia.
    by rewrite Z.shiftl_mul_pow2, Z.shiftr_div_pow2 by lia. }
  change (u64 (Z.lnot (PGSIZE - 1))) with (Z.shiftl (Z.ones 52) 12).
  apply Z.bits_inj'. intros i Hi. rewrite Z.land_spec, Z.ldiff_spec.
  destruct (decide (i < 12)).
  - rewrite Z.shiftl_spec_low, Z.ones_spec_low by lia. by rewrite !andb_false_r.
  - rewrite Z.shiftl_spec by lia. rewrite (Z.ones_spec_high 12) by lia.
    destruct (decide (i < 64)).
    + by rewrite Z.ones_spec_low by lia.
    + rewrite Z.ones_spec_high by lia. rewrite andb_false_r, andb_true_r. symmetry.
      destruct (decide (a = 0)) as [->|]; [apply Z.testbit_0_l|].
      apply Z.bits_above_log2; [lia|].
      apply Z.log2_lt_pow2; [lia|].
      apply Z.lt_le_trans with (2 ^ 64); [lia|apply Z.pow_le_mono_r; lia].
Qed.

Lemma PGROUNDUP_alt sz :
  0 ≤ sz ≤ 2 ^ 64 - 4096 → PGROUNDUP sz = (sz + 4095) / 4096 * 4096.
Proof.
  intros Hsz. unfold PGROUNDUP. fold (PGROUNDDOWN (u64 (sz + PGSIZE - 1))).
  rewrite PGROUNDDOWN_alt by apply u64_range. unfold PGSIZE.
  rewrite u64_small by lia. do 2 f_equal. lia.
Qed.

Lemma PGROUNDUP_aligned sz : 0 ≤ sz → sz mod 4096 = 0 → sz ≤ 2 ^ 64 - 4096 → PGROUNDUP sz = sz.
Proof. intros. rewrite PGROUNDUP_alt by lia. Z.div_mod_to_equations. lia. Qed.

Lemma PX_alt level va : 0 ≤ level → 0 ≤ va → PX level va = va / 2 ^ (12 + 9 * level) mod 512.
Proof.
  intros. unfold PX, PXSHIFT, PGSHIFT, PXMASK.
  change 0x1FF with (Z.ones 9). rewrite Z.land_ones, Z.shiftr_div_pow2 by lia. done.
Qed.

Lemma PX_range level va : 0 ≤ level → 0 ≤ va → 0 ≤ PX level va < 512.
Proof. intros. rewrite PX_alt by done. apply Z.mod_pos_bound. lia. Qed.

(** A page-aligned address below [MAXVA] is determined by its three indices. *)
Lemma PX_decompose va :
  0 ≤ va < MAXVA →
  va = PX 2 va * 2 ^ 30 + PX 1 va * 2 ^ 21 + PX 0 va * 2 ^ 12 + va mod 4096.
Proof.
  intros Hva. rewrite !PX_alt by lia. unfold MAXVA in Hva.
  change (Z.shiftl 1 (9 + 9 + 9 + 12 - 1)) with (2 ^ 38) in Hva.
  change (12 + 9 * 0) with 12. change (12 + 9 * 1) with 21. change (12 + 9 * 2) with 30.
  Z.div_mod_to_equations. lia.
Qed.

Lemma PX_inj va1 va2 :
  0 ≤ va1 < MAXVA → 0 ≤ va2 < MAXVA → va1 mod 4096 = 0 → va2 mod 4096 = 0 →
  PX 2 va1 = PX 2 va2 → PX 1 va1 = PX 1 va2 → PX 0 va1 = PX 0 va2 → va1 = va2.
Proof.
  intros H1 H2 A1 A2 E2 E1 E0.
  rewrite (PX_decompose va1), (PX_decompose va2) by done. lia.
Qed.

Lemma band_testbit x k : 0 ≤ k → band x (Z.shiftl 1 k) = Z.testbit x k.
Proof.
  intros Hk. unfold band. rewrite Z.shiftl_1_l, Z.land_comm.
  destruct (Z.testbit x k) eqn:E.
  - destruct (Z.eqb_spec (Z.land (2 ^ k) x) 0) as [H|]; [|done].
    assert (Z.testbit (Z.land (2 ^ k) x) k = true) as Ht.
    { by rewrite Z.land_spec, Z.pow2_bits_true, E by lia. }
    by rewrite H, Z.testbit_0_l in Ht.
  - destruct (Z.eqb_spec (Z.land (2 ^ k) x) 0) as [|H]; [done|]. exfalso. apply H.
    apply Z.bits_inj'. intros i Hi. rewrite Z.land_spec, Z.testbit_0_l.
    destruct (decide (i = k)) as [->|]; [by rewrite E, andb_false_r|].
    by rewrite Z.pow2_bits_false by lia.
Qed.

(** A physical page number fits a PTE: page-aligned, below [2^54]. *)
Definition pa_ok (pa : Z) : Prop := 0 ≤ pa < 2 ^ 54 ∧ pa mod 4096 = 0.

Lemma PA2PTE_alt pa : pa_ok pa → PA2PTE pa = pa / 4.
Proof.
  intros [Hr Ha]. unfold PA2PTE.
  rewrite Z.shiftl_mul_pow2, Z.shiftr_div_pow2 by lia.
  rewrite u64_small; Z.div_mod_to_equations; lia.
Qed.

Lemma lor_disjoint_add a f n : 0 ≤ n → 0 ≤ f < 2 ^ n → Z.lor (a * 2 ^ n) f = a * 2 ^ n + f.
Proof.
  intros Hn Hf. rewrite <- Z.add_lor_land.
  assert (Z.land (a * 2 ^ n) f = 0) as ->; [|lia].
  apply Z.bits_inj'. intros i Hi. rewrite Z.land_spec, Z.testbit_0_l.
  destruct (decide (i < n)).
  - by rewrite Z.mul_pow2_bits_low by lia.
  - rewrite andb_comm. destruct (decide (f = 0)) as [->|]; [by rewrite Z.testbit_0_l|].
    rewrite (Z.bits_above_log2 f); [done|lia|].
    apply Z.log2_lt_pow2; [lia|]. apply Z.lt_le_trans with (2 ^ n); [lia|].
    apply Z.pow_le_mono_r; lia.
Qed.

(** The PTE that maps [pa] with flags [f]. *)
Lemma mk_pte_alt pa f : pa_ok pa → 0 ≤ f < 1024 → Z.lor (PA2PTE pa) f = pa / 4 + f.
Proof.
  intros Hpa Hf. rewrite PA2PTE_alt by done. destruct Hpa as [Hr Ha].
  assert (pa / 4 = pa / 4096 * 2 ^ 10) as -> by (Z.div_mod_to_equations; lia).
  by apply lor_disjoint_add.
Qed.

Lemma mk_pte_range pa f : pa_ok pa → 0 ≤ f < 1024 → 0 ≤ Z.lor (PA2PTE pa) f < 2 ^ 64.
Proof.
  intros Hpa Hf. rewrite mk_pte_alt by done. destruct Hpa. Z.div_mod_to_equations. lia.
Qed.

Lemma PTE2PA_mk pa f : pa_ok pa → 0 ≤ f < 1024 → PTE2PA (Z.lor (PA2PTE pa) f) = pa.
Proof.
  intros Hpa Hf. rewrite mk_pte_alt by done. destruct Hpa as [Hr Ha]. unfold PTE2PA.
  rewrite Z.shiftl_mul_pow2, Z.shiftr_div_pow2 by lia.
  rewrite u64_small; Z.div_mod_to_equations; lia.
Qed.

Lemma PTE_FLAGS_alt pte : PTE_FLAGS pte = pte mod 1024.
Proof. unfold PTE_FLAGS. change 0x3FF with (Z.ones 10). by rewrite Z.land_ones by lia. Qed.

Lemma PTE_FLAGS_mk pa f : pa_ok pa → 0 ≤ f < 1024 → PTE_FLAGS (Z.lor (PA2PTE pa) f) = f.
Proof.
  intros Hpa Hf. rewrite PTE_FLAGS_alt, mk_pte_alt by done. destruct Hpa as [Hr Ha].
  Z.div_mod_to_equations. lia.
Qed.

Lemma PTE_FLAGS_range pte : 0 ≤ PTE_FLAGS pte < 1024.
Proof. rewrite PTE_FLAGS_alt. apply Z.mod_pos_bound. lia. Qed.

(** A flag test on a PTE is the test on its flag field. *)
Lemma band_flags pte k : 0 ≤ k < 10 → band pte (Z.shiftl 1 k) = Z.testbit (PTE_FLAGS pte) k.
Proof.
  intros Hk. rewrite band_testbit by lia. unfold PTE_FLAGS.
  rewrite Z.land_spec. change 0x3FF with (Z.ones 10).
  rewrite Z.ones_spec_low by lia. by rewrite andb_true_r.
Qed.

(** ** The linked kernel image

    Symbols that [kernel/kernel.ld] defines, with what the linker script
    guarantees of them: the trampoline is one page-aligned page at the end of
    the text, [etext] follows it, and [end] is the first address after the
    kernel, inside RAM. *)
Class KernelImage := {
  trampoline : Z;
  etext : Z;
  kend : Z;
  trampoline_aligned : trampoline mod 4096 = 0;
  trampoline_base : KERNBASE ≤ trampoline;
  etext_trampoline : etext = trampoline + 4096;
  kend_etext : etext ≤ kend;
  kend_phystop : kend ≤ PHYSTOP;
}.

(** Page-aligned addresses of the RAM that the page allocator manages. *)
Definition page_ok `{KernelImage} (p : Z) : Prop :=
  p mod 4096 = 0 ∧ kend ≤ p ∧ p < PHYSTOP.

Lemma kend_range `{KernelImage} : 0x80001000 ≤ kend ≤ 0x88000000.
Proof.
  destruct (_ : KernelImage) as [t e k ? Hb ? Hk Hp]; simpl in *.
  unfold KERNBASE, PHYSTOP in *. unfold KERNBASE in *. lia.
Qed.

Lemma page_ok_range `{KernelImage} p :
  page_ok p → 0x80001000 ≤ p ∧ p + 4096 ≤ 0x88000000 ∧ p mod 4096 = 0.
Proof.
  intros (Ha & Hk & Hp). pose proof kend_range. unfold PHYSTOP, KERNBASE in Hp.
  split_and!; [lia| |done]. Z.div_mod_to_equations. lia.
Qed.

Lemma page_ok_pa_ok `{KernelImage} p : page_ok p → pa_ok p.
Proof. intros (?&?&?)%page_ok_range. split; [lia|done]. Qed.

(** Two distinct aligned pages do not overlap. *)
Lemma aligned_disjoint p q :
  p mod 4096 = 0 → q mod 4096 = 0 → p ≠ q → p + 4096 ≤ q ∨ q + 4096 ≤ p.
Proof. intros. Z.div_mod_to_equations. lia. Qed.

(** A concrete image, used to run the model on: a small kernel that leaves the
    last eight pages of RAM to the allocator. *)
Program Definition demo_image : KernelImage := {|
  trampoline := 0x80007000;
  etext := 0x80008000;
  kend := 0x87ff8000;
|}.
Solve Obligations with done.
