(* ===== verification/Mem.v ===== *)
(** * Physical memory

    Memory is a total map from addresses to bytes.  Block operations (write a
    list of bytes, fill, copy) update a range at once; 64-bit loads and stores
    are little-endian over eight bytes, as on RISC-V.  The lemmas say which
    loads an update changes. *)

From S2P Require Import Prelude.

Definition memory : Type := Z → byte.

Definition in_range (x a n : Z) : bool := (a <=? x) && (x <? a + n).

Definition mread (m : memory) (a : Z) (n : nat) : list byte :=
  (λ i, m (a + Z.of_nat i)) <$> seq 0 n.

Definition mwrite (m : memory) (a : Z) (l : list byte) : memory :=
  λ x, if in_range x a (Z.of_nat (length l)) then nth (Z.to_nat (x - a)) l x00 else m x.

(** [memset(dst, c, n)]. *)
Definition mfill (m : memory) (a : Z) (c : byte) (n : Z) : memory :=
  λ x, if in_range x a n then c else m x.

(** [memmove(dst, src, n)]: the source is read before anything is written. *)
Definition mcopy (m : memory) (d s n : Z) : memory :=
  λ x, if in_range x d n then m (s + (x - d)) else m x.

Definition load64 (m : memory) (a : Z) : Z := le_decode (mread m a 8).
Definition store64 (m : memory) (a v : Z) : memory := mwrite m a (le_encode 8 v).
Definition load32 (m : memory) (a : Z) : Z := le_decode (mread m a 4).
Definition store32 (m : memory) (a v : Z) : memory := mwrite m a (le_encode 4 v).

Lemma in_range_spec x a n : in_range x a n = true ↔ a ≤ x < a + n.
Proof. unfold in_range. rewrite andb_true_iff, Z.leb_le, Z.ltb_lt. done. Qed.

Lemma in_range_true x a n : a ≤ x < a + n → in_range x a n = true.
Proof. apply in_range_spec. Qed.

Lemma in_range_false x a n : ¬ (a ≤ x < a + n) → in_range x a n = false.
Proof. intros H. apply not_true_iff_false. by rewrite in_range_spec. Qed.

Ltac case_range :=
  match goal with
  | |- context [in_range ?x ?a ?n] =>
      let H := fresh "Hr" in
      destruct (in_range x a n) eqn:H;
      [apply in_range_spec in H | apply not_true_iff_false in H; rewrite in_range_spec in H]
  end.

Lemma length_mread m a n : length (mread m a n) = n.
Proof. unfold mread. by rewrite length_fmap, length_seq. Qed.

Lemma lookup_mread m a n i : (i < n)%nat → mread m a n !! i = Some (m (a + Z.of_nat i)).
Proof.
  intros Hi. unfold mread. rewrite list_lookup_fmap, lookup_seq_lt by lia. done.
Qed.

Lemma mread_ext m1 m2 a n :
  (∀ x, a ≤ x < a + Z.of_nat n → m1 x = m2 x) → mread m1 a n = mread m2 a n.
Proof.
  intros H. unfold mread. apply list_fmap_ext. intros i x [-> Hi]%lookup_seq. apply H. lia.
Qed.

Lemma mwrite_in m a l x d :
  a ≤ x < a + Z.of_nat (length l) → mwrite m a l x = nth (Z.to_nat (x - a)) l d.
Proof. intros H. unfold mwrite. rewrite in_range_true by done. apply nth_indep. lia. Qed.

Lemma mwrite_out m a l x : ¬ (a ≤ x < a + Z.of_nat (length l)) → mwrite m a l x = m x.
Proof. intros H. unfold mwrite. by rewrite in_range_false. Qed.

Lemma mread_mwrite_same m a l : mread (mwrite m a l) a (length l) = l.
Proof.
  apply list_eq_same_length with (length l); [done|by rewrite length_mread|].
  intros i x y Hi. rewrite lookup_mread by done. intros [= <-] Hy.
  rewrite mwrite_in with (d := y) by lia.
  replace (Z.to_nat (a + Z.of_nat i - a)) with i by lia.
  by apply nth_lookup_Some with (d := y) in Hy.
Qed.

Lemma load64_ext m1 m2 a :
  (∀ x, a ≤ x < a + 8 → m1 x = m2 x) → load64 m1 a = load64 m2 a.
Proof. intros H. unfold load64. f_equal. apply mread_ext. done. Qed.

Lemma load64_range m a : 0 ≤ load64 m a < 2 ^ 64.
Proof.
  unfold load64. pose proof (le_decode_range (mread m a 8)) as H.
  rewrite length_mread in H. exact H.
Qed.

Lemma store64_out m a v x : ¬ (a ≤ x < a + 8) → store64 m a v x = m x.
Proof. intros H. unfold store64. apply mwrite_out. rewrite length_le_encode. lia. Qed.

Lemma load64_store64_eq m a v : 0 ≤ v < 2 ^ 64 → load64 (store64 m a v) a = v.
Proof.
  intros Hv. unfold load64, store64.
  rewrite <- (length_le_encode 8 v) at 2. rewrite mread_mwrite_same.
  rewrite le_decode_encode. by apply Z.mod_small.
Qed.

Lemma load64_store64_ne m a b v : a + 8 ≤ b ∨ b + 8 ≤ a → load64 (store64 m a v) b = load64 m b.
Proof. intros H. apply load64_ext. intros x Hx. apply store64_out. lia. Qed.

Lemma mfill_in m a c n x : a ≤ x < a + n → mfill m a c n x = c.
Proof. intros H. unfold mfill. by rewrite in_range_true. Qed.

Lemma mfill_out m a c n x : ¬ (a ≤ x < a + n) → mfill m a c n x = m x.
Proof. intros H. unfold mfill. by rewrite in_range_false. Qed.

Lemma load64_mfill_zero m a n b : a ≤ b → b + 8 ≤ a + n → load64 (mfill m a x00 n) b = 0.
Proof.
  intros H1 H2. rewrite (load64_ext _ (λ _, x00)); [done|].
  intros x Hx. apply mfill_in. lia.
Qed.

Lemma load64_mfill_out m a c n b :
  b + 8 ≤ a ∨ a + n ≤ b → load64 (mfill m a c n) b = load64 m b.
Proof. intros H. apply load64_ext. intros x Hx. apply mfill_out. lia. Qed.

Lemma mcopy_in m d s n x : d ≤ x < d + n → mcopy m d s n x = m (s + (x - d)).
Proof. intros H. unfold mcopy. by rewrite in_range_true. Qed.

Lemma mcopy_out m d s n x : ¬ (d ≤ x < d + n) → mcopy m d s n x = m x.
Proof. intros H. unfold mcopy. by rewrite in_range_false. Qed.

Lemma load64_mcopy_out m d s n b :
  b + 8 ≤ d ∨ d + n ≤ b → load64 (mcopy m d s n) b = load64 m b.
Proof. intros H. apply load64_ext. intros x Hx. apply mcopy_out. lia. Qed.

Lemma load32_ext m1 m2 a : (∀ x, a ≤ x < a + 4 → m1 x = m2 x) → load32 m1 a = load32 m2 a.
Proof. intros H. unfold load32. by rewrite (mread_ext m1 m2). Qed.
Lemma store32_out m a v x : ¬ (a ≤ x < a + 4) → store32 m a v x = m x.
Proof. intros H. unfold store32. apply mwrite_out. rewrite length_le_encode. lia. Qed.
Lemma load32_store32_eq m a v : 0 ≤ v < 2 ^ 32 → load32 (store32 m a v) a = v.
Proof.
  intros Hv. unfold load32, store32. rewrite <- (length_le_encode 4 v) at 2. rewrite mread_mwrite_same.
  rewrite le_decode_encode. by apply Z.mod_small.
Qed.
Lemma load32_store32_ne m a b v : a + 4 ≤ b ∨ b + 4 ≤ a → load32 (store32 m a v) b = load32 m b.
Proof. intros H. apply load32_ext. intros x Hx. apply store32_out. lia. Qed.
Lemma load32_mwrite_ne m a b l : a + Z.of_nat (length l) ≤ b ∨ b + 4 ≤ a → load32 (mwrite m a l) b = load32 m b.
Proof. intros H. apply load32_ext. intros x Hx. apply mwrite_out. lia. Qed.

Create Rewrite HintDb mem.
#[export] Hint Rewrite load64_store64_eq load64_store64_ne load64_mfill_zero load64_mfill_out
  load64_mcopy_out using lia : mem.
