(* ===== verification/CString.v ===== *)
(** * The kernel's string library, [kernel/string.c]

    [memset] and [memmove] are modelled as the byte loops of the source, over
    physical memory, and proved equal to the block updates of [Mem]; the rest
    of the kernel model uses the block updates.  The [str*] functions read
    their arguments through a view [nat → byte] of a C pointer ([p i] is
    [p[i]]) and return the bytes they write. *)

From S2P Require Import Prelude Mem.

Definition upd (m : memory) (a : Z) (b : byte) : memory :=
  λ x, if x =? a then b else m x.

(** ** memset *)

Fixpoint memset_loop (k : nat) (i : Z) (dst : Z) (c : byte) (m : memory) : memory :=
  match k with
  | O => m
  | S k => memset_loop k (i + 1) dst c (upd m (dst + i) c)
  end.

Definition memset (m : memory) (dst : Z) (c : Z) (n : nat) : memory :=
  memset_loop n 0 dst (byte_of_Z c) m.

(** ** memcmp *)

Fixpoint memcmp (n : nat) (s1 s2 : nat → byte) : Z :=
  match n with
  | O => 0
  | S n =>
      if decide (s1 0%nat = s2 0%nat)
      then memcmp n (λ i, s1 (S i)) (λ i, s2 (S i))
      else Z_of_byte (s1 0%nat) - Z_of_byte (s2 0%nat)
  end.

(** ** memmove *)

Fixpoint move_backward (k : nat) (d s : Z) (m : memory) : memory :=
  match k with
  | O => m
  | S k => move_backward k (d - 1) (s - 1) (upd m (d - 1) (m (s - 1)))
  end.

Fixpoint move_forward (k : nat) (d s : Z) (m : memory) : memory :=
  match k with
  | O => m
  | S k => move_forward k (d + 1) (s + 1) (upd m d (m s))
  end.

Definition memmove (m : memory) (dst src : Z) (n : nat) : memory :=
  if (n =? 0)%nat then m
  else if (src <? dst) && (src + Z.of_nat n >? dst)
  then move_backward n (dst + Z.of_nat n) (src + Z.of_nat n) m
  else move_forward n dst src m.

(** ** strncmp, strncpy, safestrcpy, strlen *)

Fixpoint strncmp (n : nat) (p q : nat → byte) : Z :=
  match n with
  | O => 0
  | S n =>
      if bool_decide (p 0%nat ≠ x00) && bool_decide (p 0%nat = q 0%nat)
      then strncmp n (λ i, p (S i)) (λ i, q (S i))
      else Z_of_byte (p 0%nat) - Z_of_byte (q 0%nat)
  end.

Fixpoint strncpy (n : nat) (t : nat → byte) : list byte :=
  match n with
  | O => []
  | S n =>
      let b := t 0%nat in
      if decide (b = x00) then x00 :: replicate n x00
      else b :: strncpy n (λ i, t (S i))
  end.

(** The copying loop of [safestrcpy], with [n] bytes of room
    left for characters before the final terminator.  A NUL in [t] is copied
    too, so that two zero bytes end a string that fits. *)
Fixpoint safestrcpy_loop (n : nat) (t : nat → byte) : list byte :=
  match n with
  | O => [x00]
  | S n =>
      let b := t 0%nat in
      if decide (b = x00) then [x00; x00]
      else b :: safestrcpy_loop n (λ i, t (S i))
  end.

Definition safestrcpy (t : nat → byte) (n : Z) : list byte :=
  if n <=? 0 then [] else safestrcpy_loop (Z.to_nat (n - 1)) t.

(** [strlen] looks at no more than [fuel] characters; [None] is a string that
    has no NUL among them. *)
Fixpoint strlen (fuel : nat) (s : nat → byte) : option nat :=
  match fuel with
  | O => None
  | S fuel => if decide (s 0%nat = x00) then Some 0%nat else S <$> strlen fuel (λ i, s (S i))
  end.

(** The C string held by a buffer of [n] bytes: up to the first NUL, or all
    of the buffer. *)
Fixpoint cstr (n : nat) (p : nat → byte) : list byte :=
  match n with
  | O => []
  | S n => if decide (p 0%nat = x00) then [] else p 0%nat :: cstr n (λ i, p (S i))
  end.

(** A list seen through a C pointer to its first byte; the bytes after its end
    read as NUL. *)
Definition ptr (l : list byte) : nat → byte := λ i, nth i l x00.

(** ** The loops compute the block updates *)

Lemma memset_loop_spec k i dst c m x :
  memset_loop k i dst c m x = mfill m (dst + i) c (Z.of_nat k) x.
Proof.
  revert i m. induction k as [|k IH]; intros i m; simpl memset_loop.
  - unfold mfill. case_range; [lia|done].
  - rewrite IH. unfold mfill, upd. repeat case_range; try lia; try done;
      destruct (Z.eqb_spec x (dst + i)); try lia; done.
Qed.

Lemma move_forward_spec k d s m x :
  (d ≤ s ∨ s + Z.of_nat k ≤ d) → move_forward k d s m x = mcopy m d s (Z.of_nat k) x.
Proof.
  revert d s m. induction k as [|k IH]; intros d s m Hds; simpl move_forward.
  - unfold mcopy. case_range; [lia|done].
  - rewrite IH by lia. unfold mcopy, upd.
    repeat case_range; try lia.
    + rewrite (proj2 (Z.eqb_neq _ d)) by lia. f_equal. lia.
    + destruct (Z.eqb_spec x d); [|lia]. f_equal. lia.
    + destruct (Z.eqb_spec x d); [lia|done].
Qed.

Lemma move_backward_spec k d s m x :
  s ≤ d → move_backward k d s m x = mcopy m (d - Z.of_nat k) (s - Z.of_nat k) (Z.of_nat k) x.
Proof.
  revert d s m. induction k as [|k IH]; intros d s m Hds; simpl move_backward.
  - unfold mcopy. case_range; [lia|done].
  - rewrite IH by lia. unfold mcopy, upd.
    repeat case_range; try lia.
    + rewrite (proj2 (Z.eqb_neq _ (d - 1))) by lia. f_equal. lia.
    + destruct (Z.eqb_spec x (d - 1)); [|lia]. f_equal. lia.
    + destruct (Z.eqb_spec x (d - 1)); [lia|done].
Qed.

(** [memset] writes [c & 0xff] to the [n] bytes at [dst] and nothing else. *)
Lemma memset_spec m dst c n x :
  memset m dst c n x = mfill m dst (byte_of_Z c) (Z.of_nat n) x.
Proof. unfold memset. by rewrite memset_loop_spec, Z.add_0_r. Qed.

(** [memmove] copies correctly for every overlap of source and destination. *)
Lemma memmove_spec m dst src n x :
  memmove m dst src n x = mcopy m dst src (Z.of_nat n) x.
Proof.
  unfold memmove. destruct (Nat.eqb_spec n 0) as [->|Hn].
  { unfold mcopy. case_range; [lia|done]. }
  destruct (Z.ltb_spec src dst), (Z.gtb_spec (src + Z.of_nat n) dst); simpl;
    try (rewrite move_forward_spec by lia; done).
  rewrite move_backward_spec by lia. f_equal; lia.
Qed.

(** ** String functions *)

Lemma strncmp_zero n p q : strncmp n p q = 0 ↔ cstr n p = cstr n q.
Proof.
  revert p q. induction n as [|n IH]; intros p q; simpl; [done|].
  pose proof (Z_of_byte_inj (p 0%nat) (q 0%nat)) as Hinj.
  destruct (decide (p 0%nat = q 0%nat)) as [E|E].
  - rewrite (bool_decide_eq_true_2 (p 0%nat = q 0%nat)), andb_true_r by done.
    rewrite <- E. case_bool_decide as Hz; case_decide; try done.
    + rewrite IH. split; [intros Ht; by rewrite Ht|by intros [= Ht]].
    + by split; [|lia].
  - rewrite (bool_decide_eq_false_2 (p 0%nat = q 0%nat)), andb_false_r by done.
    split; [intros Hz; destruct E; apply Hinj; lia|].
    repeat case_decide; congruence.
Qed.

Lemma length_strncpy n t : length (strncpy n t) = n.
Proof.
  revert t. induction n as [|n IH]; intros t; simpl; [done|].
  case_decide; simpl; [by rewrite length_replicate|by rewrite IH].
Qed.

Lemma cstr_replicate k n : cstr k (ptr (replicate n x00)) = [].
Proof. destruct k; simpl; [done|]. by rewrite decide_True by by destruct n. Qed.

(** A copied name reads back as the original, cut to the buffer. *)
Lemma cstr_strncpy n t : cstr n (ptr (strncpy n t)) = cstr n t.
Proof.
  revert t. induction n as [|n IH]; intros t; [done|]. cbn [strncpy cstr].
  case_decide; unfold ptr; cbn [nth]; case_decide; try done. f_equal. apply IH.
Qed.

Lemma cstr_nul n p : Forall (λ b, b ≠ x00) (cstr n p).
Proof.
  revert p. induction n as [|n IH]; intros p; simpl; [constructor|].
  case_decide; constructor; auto.
Qed.

Lemma length_cstr n p : (length (cstr n p) ≤ n)%nat.
Proof.
  revert p. induction n as [|n IH]; intros p; simpl; [lia|].
  case_decide; simpl; [lia|]. specialize (IH (λ i, p (S i))). lia.
Qed.

(** [safestrcpy] writes at most [n] bytes, always leaves a NUL-terminated
    string, and that string is the source cut to [n-1] characters. *)
Lemma safestrcpy_loop_spec n t :
  (length (safestrcpy_loop n t) ≤ S n)%nat ∧
  (∀ k, (length (safestrcpy_loop n t) ≤ k)%nat →
    cstr k (ptr (safestrcpy_loop n t)) = cstr n t).
Proof.
  revert t. induction n as [|n IH]; intros t; cbn [safestrcpy_loop cstr].
  - split; [simpl; lia|]. intros [|k] Hk; [simpl in Hk; lia|]. done.
  - destruct (IH (λ i, t (S i))) as [IH1 IH2]. case_decide.
    + split; [simpl; lia|]. intros [|k] Hk; [simpl in Hk; lia|]. done.
    + cbn [length]. split; [lia|]. intros [|k] Hk; [lia|].
      cbn [cstr]. unfold ptr at 1 2. cbn [nth]. rewrite decide_False by done.
      f_equal. apply IH2. lia.
Qed.

Lemma safestrcpy_spec t n :
  0 < n →
  Z.of_nat (length (safestrcpy t n)) ≤ n ∧
  (∀ k, (length (safestrcpy t n) ≤ k)%nat →
    cstr k (ptr (safestrcpy t n)) = cstr (Z.to_nat (n - 1)) t).
Proof.
  intros Hn. unfold safestrcpy. rewrite (proj2 (Z.leb_gt n 0)) by lia.
  destruct (safestrcpy_loop_spec (Z.to_nat (n - 1)) t) as [H1 H2]. split; [lia|done].
Qed.

Lemma strlen_spec fuel s k :
  strlen fuel s = Some k → length (cstr fuel s) = k ∧ (k < fuel)%nat ∧ s k = x00.
Proof.
  revert s k. induction fuel as [|f IH]; intros s k; simpl; [done|].
  case_decide as Hz; [intros [= <-]; simpl; auto with lia|].
  destruct (strlen f _) as [j|] eqn:E; simpl; [|done]. intros [= <-].
  destruct (IH _ _ E) as (?&?&?). simpl. auto with lia.
Qed.

(** With enough fuel, [strlen] finds the terminator of any string. *)
Lemma strlen_total fuel s k :
  (k < fuel)%nat → s k = x00 → ∃ j, strlen fuel s = Some j ∧ (j ≤ k)%nat.
Proof.
  revert s k. induction fuel as [|f IH]; intros s k Hk Hs; [lia|]. simpl.
  case_decide as Hz; [exists 0%nat; auto with lia|].
  destruct k as [|k]; [done|].
  destruct (IH (λ i, s (S i)) k ltac:(lia) Hs) as (j&->&Hj). exists (S j). simpl. auto with lia.
Qed.

Lemma memcmp_zero n s1 s2 : memcmp n s1 s2 = 0 ↔ ∀ i, (i < n)%nat → s1 i = s2 i.
Proof.
  revert s1 s2. induction n as [|n IH]; intros s1 s2; simpl; [split; [lia|done]|].
  case_decide as He.
  - rewrite IH. split; intros H.
    + intros [|i] Hi; [done|]. apply H. lia.
    + intros i Hi. apply (H (S i)). lia.
  - split; intros H; [|by destruct He; apply H; lia].
    destruct He. apply Z_of_byte_inj. lia.
Qed.
