(* ===== verification/Kalloc.v ===== *)
(** * The physical page allocator, [kernel/kalloc.c]

    A free page holds, in its first eight bytes, the address of the next free
    page ([struct run]); [freelist] is the head.  [page_refcnt] is the array
    this version of xv6 adds for copy-on-write: the number of page tables that
    map a page.  Locking is left to [Spinlock]: an operation here is one
    critical section.  [KfreeRace] below takes the reference count of [kfree]
    apart, because the source updates it outside [kmem.lock]. *)

From S2P Require Import Prelude Riscv Mem CString.

Record kst := mk_kst {
  mem : memory;
  freelist : Z;
  page_refcnt : Z → Z;
}.

Definition fupd (f : Z → Z) (i v : Z) : Z → Z := λ j, if j =? i then v else f j.

Definition set_mem (f : memory → memory) (s : kst) : kst :=
  mk_kst (f (mem s)) (freelist s) (page_refcnt s).
Definition set_freelist (p : Z) (s : kst) : kst := mk_kst (mem s) p (page_refcnt s).
Definition set_refcnt (i v : Z) (s : kst) : kst :=
  mk_kst (mem s) (freelist s) (fupd (page_refcnt s) i v).

(** ** Kernel accesses to memory

    The kernel page table maps RAM from [KERNBASE] to [PHYSTOP]; an access
    anywhere else traps. *)
Definition mapped (a n : Z) : bool := (KERNBASE <=? a) && (a + n <=? PHYSTOP).

Definition ld (a : Z) : M kst Z :=
  if mapped a 8 then gets (λ s, load64 (mem s) a) else fault a.
Definition st (a v : Z) : M kst unit :=
  if mapped a 8 then modify (set_mem (λ m, store64 m a v)) else fault a.
Definition memset_ (a c n : Z) : M kst unit :=
  if mapped a n then modify (set_mem (λ m, mfill m a (byte_of_Z c) n)) else fault a.
Definition memmove_ (d s n : Z) : M kst unit :=
  if mapped s n then
    if mapped d n then modify (set_mem (λ m, mcopy m d s n)) else fault d
  else fault s.

(** The array [page_refcnt[PHYSTOP / PGSIZE]]; an index out of its bounds is
    an access the model does not allow. *)
Definition refcnt_ok (i : Z) : bool := (0 <=? i) && (i <? PHYSTOP / PGSIZE).
Definition get_ref (i : Z) : M kst Z :=
  if refcnt_ok i then gets (λ s, page_refcnt s i) else fault i.
Definition set_ref (i v : Z) : M kst unit :=
  if refcnt_ok i then modify (set_refcnt i v) else fault i.

Section kalloc.
Context `{KernelImage}.

Definition kfree (pa : Z) : M kst unit :=
  c ← get_ref (pa / PGSIZE);
  (if c >? 0 then set_ref (pa / PGSIZE) (c - 1) else mret ());;
  c ← get_ref (pa / PGSIZE);
  if c >? 0 then mret ()
  else if negb (pa mod PGSIZE =? 0) || (pa <? kend) || (pa >=? PHYSTOP) then panic "kfree"
  else
    memset_ pa 1 PGSIZE;;
    fl ← gets freelist;
    st pa fl;;
    modify (set_freelist pa).

Definition kalloc : M kst Z :=
  r ← gets freelist;
  (if r =? 0 then mret ()
   else next ← ld r; modify (set_freelist next));;
  (if r =? 0 then mret () else memset_ r 5 PGSIZE);;
  set_ref (r / PGSIZE) 1;;
  mret r.

(** One iteration per page; [freerange] gives it one more than the number of
    pages that fit, so that it always leaves through the loop's own test. *)
Fixpoint freerange_loop (fuel : nat) (p pa_end : Z) : M kst unit :=
  match fuel with
  | O => no_fuel
  | S fuel =>
      if p + PGSIZE <=? pa_end then kfree p;; freerange_loop fuel (p + PGSIZE) pa_end
      else mret ()
  end.

Definition freerange (pa_start pa_end : Z) : M kst unit :=
  let p := PGROUNDUP pa_start in
  freerange_loop (S (Z.to_nat ((pa_end - p) / PGSIZE))) p pa_end.

Definition kinit : M kst unit := freerange kend PHYSTOP.

(** ** The free list in memory *)

Fixpoint fl_rep (m : memory) (p : Z) (l : list Z) : Prop :=
  match l with
  | [] => p = 0
  | x :: l => p = x ∧ fl_rep m (load64 m x) l
  end.

(** [fl] is the free list of [s]: its pages are distinct, and among the pages
    the allocator manages they are exactly those with reference count zero.
    While [kinit] runs it manages only the pages below [lim]. *)
Record kalloc_upto (lim : Z) (s : kst) (fl : list Z) : Prop := {
  ki_rep : fl_rep (mem s) (freelist s) fl;
  ki_nodup : NoDup fl;
  ki_ok : Forall (λ p, page_ok p ∧ p < lim) fl;
  ki_zero : ∀ p, page_ok p → p < lim → p ∈ fl ↔ page_refcnt s (p / PGSIZE) = 0;
  ki_pos : ∀ p, page_ok p → 0 ≤ page_refcnt s (p / PGSIZE);
}.

Definition kalloc_inv (s : kst) (fl : list Z) : Prop := kalloc_upto PHYSTOP s fl.

(** ** Memory accesses to pages *)

Lemma mapped_true a n : KERNBASE ≤ a → a + n ≤ PHYSTOP → mapped a n = true.
Proof. intros. unfold mapped. rewrite andb_true_iff, !Z.leb_le. done. Qed.

Lemma mapped_page p a n : page_ok p → p ≤ a → a + n ≤ p + 4096 → mapped a n = true.
Proof.
  intros (?&?&?)%page_ok_range ??. apply mapped_true; unfold PHYSTOP, KERNBASE; lia.
Qed.

Lemma refcnt_ok_page p : page_ok p → refcnt_ok (p / PGSIZE) = true.
Proof.
  intros (?&?&?)%page_ok_range. unfold refcnt_ok, PGSIZE, PHYSTOP, KERNBASE.
  rewrite andb_true_iff, Z.leb_le, Z.ltb_lt. Z.div_mod_to_equations. lia.
Qed.

Lemma page_index_inj p q : page_ok p → page_ok q → p / PGSIZE = q / PGSIZE → p = q.
Proof.
  intros (?&?&?)%page_ok_range (?&?&?)%page_ok_range. unfold PGSIZE.
  Z.div_mod_to_equations. lia.
Qed.

Lemma page_ok_ne_0 p : page_ok p → p ≠ 0.
Proof. intros (?&?&?)%page_ok_range. lia. Qed.

Lemma fupd_eq f i v : fupd f i v i = v.
Proof. unfold fupd. by rewrite Z.eqb_refl. Qed.

Lemma fupd_ne f i j v : i ≠ j → fupd f i v j = f j.
Proof. intros. unfold fupd. by rewrite (proj2 (Z.eqb_neq j i)) by done. Qed.

Lemma fl_rep_frame m m' p l :
  (∀ x, x ∈ l → load64 m' x = load64 m x) → fl_rep m p l → fl_rep m' p l.
Proof.
  revert p. induction l as [|x l IH]; intros p Hf; simpl; [done|].
  intros [-> Hl]. split; [done|]. rewrite Hf by left. apply IH; [|done].
  intros y Hy. apply Hf. by right.
Qed.

(** ** What the operations do *)

Lemma kfree_shared s pa :
  page_ok pa → 1 < page_refcnt s (pa / PGSIZE) →
  kfree pa s = Ok tt (set_refcnt (pa / PGSIZE) (page_refcnt s (pa / PGSIZE) - 1) s).
Proof.
  intros Hp Hc. unfold kfree, get_ref, set_ref. rewrite refcnt_ok_page by done.
  unfold mbind, M_bind, gets, modify, mret, M_ret.
  rewrite (proj2 (Z.gtb_lt (page_refcnt s (pa / PGSIZE)) 0)) by lia. simpl.
  rewrite fupd_eq. by rewrite (proj2 (Z.gtb_lt _ 0)) by lia.
Qed.

Lemma kfree_last s pa :
  page_ok pa → 0 ≤ page_refcnt s (pa / PGSIZE) ≤ 1 →
  ∃ s', kfree pa s = Ok tt s' ∧
    mem s' = store64 (mfill (mem s) pa (byte_of_Z 1) PGSIZE) pa (freelist s) ∧
    freelist s' = pa ∧
    (∀ i, page_refcnt s' i = if i =? pa / PGSIZE then 0 else page_refcnt s i).
Proof.
  intros Hp Hc.
  unfold kfree, get_ref, set_ref, st, memset_. rewrite refcnt_ok_page by done.
  rewrite (mapped_page pa pa 8), (mapped_page pa pa PGSIZE) by (done || unfold PGSIZE; lia).
  destruct Hp as (Ha & Hk & Hs).
  assert (negb (pa mod PGSIZE =? 0) || (pa <? kend) || (pa >=? PHYSTOP) = false) as Hg.
  { unfold PGSIZE. rewrite Ha. simpl.
    by z_decide. }
  unfold mbind, M_bind, gets, modify, mret, M_ret.
  destruct (Z.gtb_spec (page_refcnt s (pa / PGSIZE)) 0) as [Hpos|Hpos]; simpl.
  - rewrite fupd_eq. destruct (Z.gtb_spec (page_refcnt s (pa / PGSIZE) - 1) 0); [lia|].
    rewrite Hg. eexists. split_and!; try done.
    intros i. simpl. unfold fupd. case_match; [lia|done].
  - destruct (Z.gtb_spec (page_refcnt s (pa / PGSIZE)) 0); [lia|].
    rewrite Hg. eexists. split_and!; try done.
    intros i. simpl. destruct (Z.eqb_spec i (pa / PGSIZE)) as [->|]; [lia|done].
Qed.

Lemma kalloc_empty s :
  freelist s = 0 → kalloc s = Ok 0 (set_refcnt 0 1 s).
Proof. intros Hf. unfold kalloc, mbind, M_bind, gets. rewrite Hf. done. Qed.

Lemma kalloc_cons s p :
  freelist s = p → page_ok p →
  kalloc s = Ok p (mk_kst (mfill (mem s) p (byte_of_Z 5) PGSIZE) (load64 (mem s) p)
                          (fupd (page_refcnt s) (p / PGSIZE) 1)).
Proof.
  intros Hf Hp. unfold kalloc, mbind, M_bind, gets, ld, memset_, set_ref. rewrite Hf.
  rewrite (proj2 (Z.eqb_neq p 0)) by by apply page_ok_ne_0.
  rewrite (mapped_page p p 8), (mapped_page p p PGSIZE), refcnt_ok_page
    by (done || unfold PGSIZE; lia).
  done.
Qed.

(** ** The invariant *)

Lemma kalloc_upto_alloc lim s p fl :
  kalloc_upto lim s (p :: fl) →
  ∃ s', kalloc s = Ok p s' ∧ kalloc_upto lim s' fl ∧
    mem s' = mfill (mem s) p (byte_of_Z 5) PGSIZE ∧
    page_refcnt s' = fupd (page_refcnt s) (p / PGSIZE) 1.
Proof.
  intros [[Hf Hrep] Hnd Hok Hz Hpos]. inversion Hnd as [|?? Hni Hnd']; subst.
  inversion Hok as [|?? [Hp Hl] Hok']; subst.
  eexists. split_and!; [by apply kalloc_cons| |done|done]. split; simpl; try done.
  - revert Hrep. apply fl_rep_frame. intros x Hx. apply load64_mfill_out.
    rewrite list.Forall_forall in Hok'. destruct (Hok' x Hx) as [Hpx _].
    assert (freelist s ≠ x) by (intros <-; done).
    destruct (page_ok_range _ Hp) as (?&?&?), (page_ok_range _ Hpx) as (?&?&?). unfold PGSIZE.
    destruct (aligned_disjoint (freelist s) x); lia.
  - intros q Hq Hql. unfold fupd. destruct (Z.eqb_spec (q / PGSIZE) (freelist s / PGSIZE)) as [E|E].
    + apply page_index_inj in E; [subst|done..]. split; [done|lia].
    + rewrite <- Hz, elem_of_cons by done. split; [auto|]. intros [->|]; done.
  - intros q Hq. unfold fupd. case_z; [lia|auto].
Qed.

Lemma kalloc_upto_free lim lim' s fl pa :
  kalloc_upto lim s fl → page_ok pa → pa ∉ fl → pa < lim' → page_refcnt s (pa / PGSIZE) ≤ 1 →
  lim ≤ lim' → (∀ q, page_ok q → lim ≤ q < lim' → q = pa) →
  ∃ s', kfree pa s = Ok tt s' ∧ kalloc_upto lim' s' (pa :: fl) ∧
    (∀ x, ¬ (pa ≤ x < pa + PGSIZE) → mem s' x = mem s x) ∧
    (∀ i, page_refcnt s' i = if i =? pa / PGSIZE then 0 else page_refcnt s i).
Proof.
  intros [Hrep Hnd Hok Hz Hpos] Hp Hni Hl Hc Hlim Hbetween. specialize (Hpos pa Hp) as Hpos'.
  destruct (kfree_last s pa Hp ltac:(lia)) as (s' & Hs' & Hm & Hf & Hr).
  assert (∀ x, ¬ (pa ≤ x < pa + PGSIZE) → mem s' x = mem s x) as Hframe.
  { intros x Hx. rewrite Hm. unfold PGSIZE in *. rewrite store64_out, mfill_out by lia. done. }
  exists s'. split_and!; try done. split; simpl.
  - split; [done|]. rewrite Hm.
    rewrite load64_store64_eq.
    + revert Hrep. apply fl_rep_frame. intros x Hx. rewrite <- Hm. apply load64_ext.
      rewrite list.Forall_forall in Hok. destruct (Hok x Hx) as [Hpx _].
      assert (pa ≠ x) by (intros ->; done).
      destruct (page_ok_range _ Hp) as (?&?&?), (page_ok_range _ Hpx) as (?&?&?).
      intros y Hy. apply Hframe. unfold PGSIZE. destruct (aligned_disjoint pa x); lia.
    + destruct fl as [|x fl]; simpl in Hrep; [rewrite Hrep; lia|].
      destruct Hrep as [-> _]. inversion Hok as [|?? [Hx _] _]; subst.
      apply page_ok_range in Hx. lia.
  - by constructor.
  - constructor; [done|]. eapply Forall_impl; [|done]. intros x [??]; split; [done|lia].
  - intros q Hq Hql. rewrite Hr, elem_of_cons.
    destruct (Z.eqb_spec (q / PGSIZE) (pa / PGSIZE)) as [E|E].
    + apply page_index_inj in E; [subst|done..]. split; [done|by left].
    + assert (q ≠ pa) by (by intros ->). rewrite Hz; [tauto|done|].
      destruct (decide (q < lim)); [done|]. destruct (Hbetween q); [done|lia|done].
  - intros q Hq. rewrite Hr. case_z; [lia|auto].
Qed.

Lemma kalloc_upto_shared lim s fl pa :
  kalloc_upto lim s fl → page_ok pa → 1 < page_refcnt s (pa / PGSIZE) →
  ∃ s', kfree pa s = Ok tt s' ∧ kalloc_upto lim s' fl ∧ mem s' = mem s ∧
    (∀ i, page_refcnt s' i =
       if i =? pa / PGSIZE then page_refcnt s i - 1 else page_refcnt s i).
Proof.
  intros [Hrep Hnd Hok Hz Hpos] Hp Hc. eexists. split; [by apply kfree_shared|].
  assert (∀ i, page_refcnt (set_refcnt (pa / PGSIZE) (page_refcnt s (pa / PGSIZE) - 1) s) i =
    if i =? pa / PGSIZE then page_refcnt s i - 1 else page_refcnt s i) as Hr.
  { intros i. simpl. unfold fupd. destruct (Z.eqb_spec i (pa / PGSIZE)) as [->|]; done. }
  split_and!; [|done|done]. split; try done.
  - intros q Hq Hql. rewrite Hr. case_z; [|by apply Hz].
    rewrite Hz by done. replace (q / PGSIZE) with (pa / PGSIZE) by done. lia.
  - intros q Hq. rewrite Hr. case_z; [|auto]. replace (q / PGSIZE) with (pa / PGSIZE) by done. lia.
Qed.

Lemma kfree_inv s fl pa :
  kalloc_inv s fl → page_ok pa → 1 ≤ page_refcnt s (pa / PGSIZE) →
  ∃ s' fl', kfree pa s = Ok tt s' ∧ kalloc_inv s' fl' ∧
    fl' = (if page_refcnt s (pa / PGSIZE) =? 1 then pa :: fl else fl) ∧
    (∀ x, page_refcnt s (pa / PGSIZE) ≠ 1 ∨ ¬ (pa ≤ x < pa + PGSIZE) → mem s' x = mem s x) ∧
    (∀ i, page_refcnt s' i = if i =? pa / PGSIZE then page_refcnt s i - 1 else page_refcnt s i).
Proof.
  intros Hinv Hp Hc. destruct (Z.eqb_spec (page_refcnt s (pa / PGSIZE)) 1) as [E|E].
  - destruct (kalloc_upto_free PHYSTOP PHYSTOP s fl pa) as (s' & Hk & Hi & Hm & Hr);
      try done; try lia.
    + rewrite (ki_zero _ _ _ Hinv) by (done || apply Hp). lia.
    + apply Hp.
    + exists s', (pa :: fl). split_and!; try done; [naive_solver|].
      intros i. rewrite Hr. case_z; [subst; lia|done].
  - destruct (kalloc_upto_shared PHYSTOP s fl pa) as (s' & Hk & Hi & Hm & Hr); try done; [lia|].
    exists s', fl. split_and!; try done. intros. by rewrite Hm.
Qed.

(** ** Boot: [kinit] frees every page from [end] to [PHYSTOP] *)

(** The pages of [p, p + n * PGSIZE), last first, as [freerange] leaves them. *)
Fixpoint pages_from (n : nat) (p : Z) : list Z :=
  match n with
  | O => []
  | S n => pages_from n (p + PGSIZE) ++ [p]
  end.

Lemma freerange_loop_spec n p s fl :
  kalloc_upto p s fl → p mod 4096 = 0 → kend ≤ p → p + Z.of_nat n * PGSIZE = PHYSTOP →
  (∀ q, page_ok q → p ≤ q → page_refcnt s (q / PGSIZE) = 0) →
  ∃ s', freerange_loop (S n) p PHYSTOP s = Ok tt s' ∧ kalloc_inv s' (pages_from n p ++ fl).
Proof.
  revert p s fl. induction n as [|n IH]; intros p s fl Hinv Ha Hk He Hz;
    cbn [freerange_loop pages_from].
  - unfold PGSIZE in *. destruct (Z.leb_spec (p + 4096) PHYSTOP); [lia|].
    exists s. split; [done|]. simpl. unfold kalloc_inv. by replace PHYSTOP with p by lia.
  - assert (PGSIZE = 4096) as Hpg by done.
    rewrite (proj2 (Z.leb_le _ _)) by lia.
    assert (page_ok p) as Hp by (split_and!; [done..|lia]).
    destruct (kalloc_upto_free p (p + PGSIZE) s fl p) as (s' & Hs' & Hi & Hm & Hr);
      try done; try lia.
    + intros Hin. destruct Hinv as [_ _ Hok _ _]. rewrite list.Forall_forall in Hok.
      destruct (Hok p Hin). lia.
    + rewrite Hz by (done || lia). lia.
    + intros q (?&?&?) Hq. Z.div_mod_to_equations. lia.
    + unfold mbind, M_bind. rewrite Hs'.
      destruct (IH (p + PGSIZE) s' (p :: fl)) as (s'' & Hs'' & Hi'').
      * done.
      * Z.div_mod_to_equations. lia.
      * lia.
      * lia.
      * intros q Hq Hle. rewrite Hr. case_z; [done|]. apply Hz; [done|lia].
      * exists s''. split; [done|]. by rewrite <- app_assoc.
Qed.

Definition boot_state (m : memory) : kst := mk_kst m 0 (λ _, 0).

Lemma kinit_inv m :
  ∃ s', kinit (boot_state m) = Ok tt s' ∧
    kalloc_inv s' (pages_from (Z.to_nat ((PHYSTOP - PGROUNDUP kend) / PGSIZE)) (PGROUNDUP kend)).
Proof.
  pose proof kend_range as Hk.
  assert (PGROUNDUP kend = (kend + 4095) / 4096 * 4096) as HP by (apply PGROUNDUP_alt; lia).
  assert (PHYSTOP = 0x88000000) as HS by done. assert (PGSIZE = 4096) as HG by done.
  set (n := Z.to_nat ((PHYSTOP - PGROUNDUP kend) / PGSIZE)).
  destruct (freerange_loop_spec n (PGROUNDUP kend) (boot_state m) []) as (s' & Hs' & Hi).
  - split; simpl; try done; [constructor|].
    intros p (?&?&?) Hl. split; [by intros ?%elem_of_nil|]. intros _.
    exfalso. Z.div_mod_to_equations. lia.
  - Z.div_mod_to_equations. lia.
  - Z.div_mod_to_equations. lia.
  - unfold n. rewrite HS, HG in *. Z.div_mod_to_equations. lia.
  - done.
  - exists s'. rewrite app_nil_r in Hi. done.
Qed.

Lemma elem_of_pages_from n p q :
  q ∈ pages_from n p ↔ ∃ k, 0 ≤ k < Z.of_nat n ∧ q = p + k * PGSIZE.
Proof.
  revert p. induction n as [|n IH]; intros p; simpl.
  - rewrite elem_of_nil. split; [done|]. intros (?&?&?). lia.
  - rewrite elem_of_app, list_elem_of_singleton, IH. unfold PGSIZE. split.
    + intros [(k&?&->)| ->]; [exists (k + 1); lia|exists 0; lia].
    + intros (k&?&->). destruct (decide (k = 0)) as [->|]; [right; lia|left; exists (k - 1); lia].
Qed.

Lemma length_pages_from n p : length (pages_from n p) = n.
Proof. revert p. induction n; intros p; simpl; [done|]. rewrite length_app, IHn. simpl. lia. Qed.

End kalloc.

(** ** The allocator's contract *)

Section contract.
Context `{KernelImage}.

Lemma kalloc_inv_null s fl : kalloc_inv s fl → kalloc_inv (set_refcnt 0 1 s) fl.
Proof.
  intros [Hrep Hnd Hok Hz Hpos]. 
  assert (∀ p, page_ok p → page_refcnt (set_refcnt 0 1 s) (p / PGSIZE) = page_refcnt s (p / PGSIZE)) as E.
  { intros p (?&?&?)%page_ok_range. simpl. apply fupd_ne. unfold PGSIZE. Z.div_mod_to_equations. lia. }
  split; try done; intros p Hp; rewrite E by done; auto.
Qed.

(** [kalloc] either reports exhaustion (null, exactly when the free list is
    empty, changing no memory), or hands out the page at the head of the free
    list: a managed page, no longer free, with reference count one.  No other
    page's count and no byte outside the page changes, and the allocator's
    invariant is preserved. *)
Theorem kalloc_correct s fl :
  kalloc_inv s fl →
  wp kalloc s (λ r s',
    (fl = [] ∧ r = 0 ∧ mem s' = mem s ∧ kalloc_inv s' []) ∨
    (∃ fl', fl = (r :: fl') ∧ page_ok r ∧ (r ∉ fl') ∧ kalloc_inv s' fl' ∧
       page_refcnt s' (r / PGSIZE) = 1 ∧
       (∀ i, i ≠ r / PGSIZE → page_refcnt s' i = page_refcnt s i) ∧
       (∀ x, ¬ (r ≤ x < r + PGSIZE) → mem s' x = mem s x))).
Proof.
  intros Hinv. destruct fl as [|p fl].
  - eapply wp_Ok; [apply kalloc_empty, (ki_rep _ _ _ Hinv)|]. left.
    split_and!; try done. by apply kalloc_inv_null.
  - destruct (kalloc_upto_alloc _ _ _ _ Hinv) as (s' & Hs' & Hinv' & Hm & Hr).
    eapply wp_Ok; [done|]. right. exists fl. rewrite Hr, Hm.
    pose proof (ki_nodup _ _ _ Hinv) as [??]%list.NoDup_cons.
    pose proof (ki_ok _ _ _ Hinv) as [[??] ?]%list.Forall_cons.
    split_and!; try done; [apply fupd_eq|intros; by apply fupd_ne|intros; by apply mfill_out].
Qed.

(** C18: [kfree] on a page that is in use drops exactly one reference.  The page
    goes back on the free list, once, exactly when that was the last reference;
    while other references remain its contents are untouched, and no byte
    outside it ever changes. *)
Theorem kfree_correct s fl pa :
  kalloc_inv s fl → page_ok pa → 1 ≤ page_refcnt s (pa / PGSIZE) →
  wp (kfree pa) s (λ _ s',
    kalloc_inv s' (if page_refcnt s (pa / PGSIZE) =? 1 then pa :: fl else fl) ∧
    (∀ x, page_refcnt s (pa / PGSIZE) ≠ 1 ∨ ¬ (pa ≤ x < pa + PGSIZE) → mem s' x = mem s x) ∧
    (∀ i, page_refcnt s' i = if i =? pa / PGSIZE then page_refcnt s i - 1 else page_refcnt s i)).
Proof.
  intros Hinv Hp Hc. destruct (kfree_inv s fl pa) as (s' & fl' & Hs' & Hi & -> & ?); try done.
  eapply wp_Ok; done.
Qed.

(** Booting, [kinit] returns with every page frame between [end] (rounded
    up) and [PHYSTOP] on the free list exactly once, and the allocator's
    invariant established. *)
Theorem kinit_correct m :
  wp kinit (boot_state m) (λ _ s', ∃ fl,
    kalloc_inv s' fl ∧ (∀ p, p ∈ fl ↔ page_ok p) ∧
    Z.of_nat (length fl) * PGSIZE = PHYSTOP - PGROUNDUP kend).
Proof.
  destruct (kinit_inv m) as (s' & Hs' & Hi). eapply wp_Ok; [done|]. eexists. split; [done|].
  pose proof kend_range as Hk.
  assert (PGROUNDUP kend = (kend + 4095) / 4096 * 4096) as HP by (apply PGROUNDUP_alt; lia).
  assert (PHYSTOP = 0x88000000) as HS by done. assert (PGSIZE = 4096) as HG by done.
  split.
  - intros p. split.
    + intros Hin. pose proof (ki_ok _ _ _ Hi) as Hok. rewrite list.Forall_forall in Hok. by apply Hok.
    + intros Hp. rewrite elem_of_pages_from. destruct Hp as (Ha & ? & ?).
      exists ((p - PGROUNDUP kend) / 4096). rewrite HS, HG in *. Z.div_mod_to_equations. lia.
  - rewrite length_pages_from. rewrite HS, HG in *. Z.div_mod_to_equations. lia.
Qed.

End contract.

Lemma kalloc_correct_witness :
  ∃ s fl, @kalloc_inv demo_image s fl ∧ length fl = 8%nat ∧
    wp (@kalloc) s (λ r s', (fl = [] ∧ r = 0 ∧ mem s' = mem s ∧ @kalloc_inv demo_image s' []) ∨
    (∃ fl', fl = (r :: fl') ∧ @page_ok demo_image r ∧ (r ∉ fl') ∧ @kalloc_inv demo_image s' fl' ∧
       page_refcnt s' (r / PGSIZE) = 1 ∧
       (∀ i, i ≠ r / PGSIZE → page_refcnt s' i = page_refcnt s i) ∧
       (∀ x, ¬ (r ≤ x < r + PGSIZE) → mem s' x = mem s x))).
Proof.
  destruct (@kinit_inv demo_image (λ _, x00)) as (s & _ & Hi).
  eexists s, _. split; [exact Hi|]. split; [by rewrite length_pages_from|].
  exact (@kalloc_correct demo_image s _ Hi).
Defined.

Lemma kfree_correct_witness :
  ∃ s fl pa, @kalloc_inv demo_image s fl ∧ page_refcnt s (pa / PGSIZE) = 1 ∧
    wp (@kfree demo_image pa) s (λ _ s',
      @kalloc_inv demo_image s' (if page_refcnt s (pa / PGSIZE) =? 1 then pa :: fl else fl) ∧
      (∀ x, page_refcnt s (pa / PGSIZE) ≠ 1 ∨ ¬ (pa ≤ x < pa + PGSIZE) → mem s' x = mem s x) ∧
      (∀ i, page_refcnt s' i = if i =? pa / PGSIZE then page_refcnt s i - 1 else page_refcnt s i)).
Proof.
  destruct (@kinit_inv demo_image (λ _, x00)) as (s0 & _ & Hi0).
  destruct (@kalloc_upto_alloc demo_image _ _ _ _ Hi0) as (s & _ & Hi & _ & Hr).
  assert (page_refcnt s (0x87fff000 / PGSIZE) = 1) as H1 by (rewrite Hr; reflexivity).
  exists s. eexists. exists 0x87fff000. split; [exact Hi|]. split; [exact H1|].
  apply (@kfree_correct demo_image); [exact Hi|vm_compute; intuition congruence|lia].
Defined.

(** ** [kfree] on several CPUs

    [kfree] reads and writes [page_refcnt[pa / PGSIZE]] before it takes
    [kmem.lock].  Here each CPU runs [kfree] on one shared page, one memory
    access at a time: the test of line 51, the load and the store of the
    decrement of line 53, the test of line 56, and the locked push of lines
    69-72. *)
Module KfreeRace.

Inductive pc :=
| TestFirst          (* line 51 *)
| LoadCount          (* line 53, load *)
| StoreCount (t : Z) (* line 53, store of [t - 1] *)
| TestAgain          (* line 56 *)
| Push               (* lines 69-72 *)
| Done.

(** The shared count, the free list (entries for this page only are of
    interest) and the program counter of each CPU. *)
Record state := mk_state { refcnt : Z; flist : list Z; pcs : list pc }.

Definition micro (pa : Z) (p : pc) (s : state) : pc * state :=
  match p with
  | TestFirst => (if refcnt s >? 0 then LoadCount else TestAgain, s)
  | LoadCount => (StoreCount (refcnt s), s)
  | StoreCount t => (TestAgain, mk_state (t - 1) (flist s) (pcs s))
  | TestAgain => (if refcnt s >? 0 then Done else Push, s)
  | Push => (Done, mk_state (refcnt s) (pa :: flist s) (pcs s))
  | Done => (Done, s)
  end.

Definition step_cpu (pa : Z) (i : nat) (s : state) : state :=
  match pcs s !! i with
  | None => s
  | Some p => let '(p', s') := micro pa p s in mk_state (refcnt s') (flist s') (<[i:=p']> (pcs s'))
  end.

Definition run (pa : Z) (sched : list nat) (s : state) : state :=
  foldl (λ s i, step_cpu pa i s) s sched.

(** [n] CPUs about to drop one reference each. *)
Definition start (n : nat) (c : Z) : state := mk_state c [] (replicate n TestFirst).

(** One CPU after the other: five micro-steps complete any call. *)
Definition serial (n : nat) : list nat := concat ((λ i, replicate 5 i) <$> seq 0 n).

Lemma run_app pa l1 l2 s : run pa (l1 ++ l2) s = run pa l2 (run pa l1 s).
Proof. unfold run. apply foldl_app. Qed.

Lemma serial_one pa s i :
  pcs s !! i = Some TestFirst → 0 < refcnt s →
  run pa (replicate 5 i) s =
    mk_state (refcnt s - 1) (if refcnt s =? 1 then pa :: flist s else flist s)
             (<[i:=Done]> (pcs s)).
Proof.
  intros Hi Hc. assert (i < length (pcs s))%nat as Hlt by by eapply lookup_lt_Some.
  unfold run, step_cpu. simpl. rewrite Hi. simpl. z_decide.
  rewrite list_lookup_insert_eq by done. simpl.
  rewrite list_lookup_insert_eq by by rewrite length_insert. simpl.
  rewrite list_lookup_insert_eq by by rewrite !length_insert. simpl.
  destruct (Z.gtb_spec (refcnt s - 1) 0), (Z.eqb_spec (refcnt s) 1); try lia; simpl;
    (rewrite list_lookup_insert_eq; [|by rewrite !length_insert]); simpl;
    by rewrite !list_insert_insert_eq.
Qed.

(** Calls that run one after the other put the page on the free list exactly
    once, at the last reference. *)
Lemma serial_frees pa n m c :
  0 < c → Z.of_nat n ≤ c → (n ≤ m)%nat →
  let s := run pa (concat ((λ i, replicate 5 i) <$> seq 0 n)) (start m c) in
  refcnt s = c - Z.of_nat n ∧ flist s = (if Z.of_nat n =? c then [pa] else []) ∧
  (∀ i, (n ≤ i < m)%nat → pcs s !! i = Some TestFirst).
Proof.
  intros Hc. induction n as [|n IH]; intros Hn Hm; cbn zeta.
  - rewrite (proj2 (Z.eqb_neq (Z.of_nat 0) c)) by lia. split_and!; [simpl; lia|done|].
    intros i Hi. apply lookup_replicate_2. lia.
  - destruct IH as (Hr & Hf & Hp); [lia..|].
    rewrite seq_S, fmap_app, concat_app, run_app.
    change (concat ((λ i, replicate 5 i) <$> [(0 + n)%nat])) with (replicate 5 n).
    rewrite (serial_one pa _ n) by (try apply Hp; rewrite ?Hr; lia).
    cbn [refcnt flist pcs]. rewrite Hr, Hf. split_and!; [lia| |].
    + replace (c - Z.of_nat n =? 1) with (Z.of_nat (S n) =? c)
        by (repeat case_z; lia).
      case_z; [by z_decide|]. by z_decide.
    + intros i Hi. rewrite list_lookup_insert_ne by lia. apply Hp. lia.
Qed.

(** A finding about [kfree].  Two CPUs drop the last two references to a
    page; run one after the other they free it once, but there is an
    interleaving of the unlocked reference-count accesses after which both
    have pushed the page, so that the free list holds it twice, and another
    after which neither has, so that the page is lost. *)
Theorem kfree_race :
  let pa := 0x87fff000 in
  flist (run pa (serial 2) (start 2 2)) = [pa] ∧
  (∃ sched, let s := run pa sched (start 2 2) in pcs s = [Done; Done] ∧ flist s = [pa; pa]) ∧
  (∃ sched, let s := run pa sched (start 2 2) in pcs s = [Done; Done] ∧ flist s = []).
Proof.
  split_and!; [reflexivity| |].
  - by exists [0; 0; 0; 1; 1; 1; 0; 0; 1; 1]%nat.
  - by exists [0; 0; 1; 1; 0; 1; 0; 1]%nat.
Qed.

(** Calls of [kfree] on a page with [c] references that do not overlap in
    time put it on the free list exactly once, when the last of the [c] calls
    completes, and not before. *)
Lemma kfree_serial pa n c :
  0 < c → Z.of_nat n ≤ c →
  let s := run pa (serial n) (start n c) in
  refcnt s = c - Z.of_nat n ∧ flist s = (if Z.of_nat n =? c then [pa] else []).
Proof. intros Hc Hn. destruct (serial_frees pa n n c) as (?&?&?); [lia..|]. done. Qed.

End KfreeRace.
