(* ===== verification/Vm.v ===== *)
(** * Virtual memory, [kernel/vm.c]

    Page tables are pages of physical memory holding 512 little-endian 64-bit
    entries, walked exactly as the source does.  A C pointer to a PTE is its
    address, and null is 0.  Kernel buffers that [copyout] reads or [copyin]
    fills are byte lists; everything user-visible is in physical memory.  The
    theory of these definitions is in [VmTree], [VmOps] and [Cow]. *)

From S2P Require Import Prelude Riscv Mem CString Kalloc.

Definition write_bytes (a : Z) (l : list byte) : M kst unit :=
  if mapped a (Z.of_nat (length l)) then modify (set_mem (λ m, mwrite m a l)) else fault a.
Definition read_bytes (a : Z) (n : nat) : M kst (list byte) :=
  if mapped a (Z.of_nat n) then gets (λ s, mread (mem s) a n) else fault a.

Section vm.
Context `{KernelImage}.

(** ** Walking and mapping *)

(** The loop of [walk] with [level] levels still to go. *)
Fixpoint walk_loop (level : nat) (pagetable va : Z) (alloc : bool) : M kst Z :=
  match level with
  | O => mret (pagetable + 8 * PX 0 va)
  | S level' =>
      let pte := pagetable + 8 * PX (Z.of_nat level) va in
      v ← ld pte;
      if band v PTE_V then walk_loop level' (PTE2PA v) va alloc
      else if negb alloc then mret 0
      else
        pagetable ← kalloc;
        if pagetable =? 0 then mret 0
        else
          memset_ pagetable 0 PGSIZE;;
          st pte (Z.lor (PA2PTE pagetable) PTE_V);;
          walk_loop level' pagetable va alloc
  end.

Definition walk (pagetable va : Z) (alloc : bool) : M kst Z :=
  if va >=? MAXVA then panic "walk" else walk_loop 2 pagetable va alloc.

Definition walkaddr (pagetable va : Z) : M kst Z :=
  if va >=? MAXVA then mret 0
  else
    pte ← walk pagetable va false;
    if pte =? 0 then mret 0
    else
      v ← ld pte;
      if negb (band v PTE_V) then mret 0
      else if negb (band v PTE_U) then mret 0
      else mret (PTE2PA v).

Fixpoint mappages_loop (fuel : nat) (pagetable a last pa perm : Z) : M kst Z :=
  match fuel with
  | O => no_fuel
  | S fuel =>
      pte ← walk pagetable a true;
      if pte =? 0 then mret (-1)
      else
        v ← ld pte;
        if band v PTE_V then panic "mappages: remap"
        else
          st pte (Z.lor (Z.lor (PA2PTE pa) perm) PTE_V);;
          if a =? last then mret 0
          else mappages_loop fuel pagetable (u64 (a + PGSIZE)) last (u64 (pa + PGSIZE)) perm
  end.

Definition mappages (pagetable va size pa perm : Z) : M kst Z :=
  if negb (va mod PGSIZE =? 0) then panic "mappages: va not aligned"
  else if negb (size mod PGSIZE =? 0) then panic "mappages: size not aligned"
  else if size =? 0 then panic "mappages: size"
  else mappages_loop (Z.to_nat (size / PGSIZE)) pagetable va (u64 (va + size - PGSIZE)) pa perm.

(** [npages] iterations of the loop of [uvmunmap]. *)
Fixpoint uvmunmap_loop (npages : nat) (pagetable a : Z) (do_free : bool) : M kst unit :=
  match npages with
  | O => mret ()
  | S npages =>
      pte ← walk pagetable a false;
      if pte =? 0 then panic "uvmunmap: walk"
      else
        v ← ld pte;
        if negb (band v PTE_V) then panic "uvmunmap: not mapped"
        else if PTE_FLAGS v =? PTE_V then panic "uvmunmap: not a leaf"
        else
          (if do_free then kfree (PTE2PA v) else mret ());;
          st pte 0;;
          uvmunmap_loop npages pagetable (a + PGSIZE) do_free
  end.

Definition uvmunmap (pagetable va npages : Z) (do_free : bool) : M kst unit :=
  if negb (va mod PGSIZE =? 0) then panic "uvmunmap: not aligned"
  else uvmunmap_loop (Z.to_nat npages) pagetable va do_free.

(** ** Creating, growing and freeing address spaces *)

Definition uvmcreate : M kst Z :=
  pagetable ← kalloc;
  if pagetable =? 0 then mret 0
  else memset_ pagetable 0 PGSIZE;; mret pagetable.

Definition uvmfirst (pagetable : Z) (src : list byte) : M kst unit :=
  if Z.of_nat (length src) >=? PGSIZE then panic "uvmfirst: more than a page"
  else
    m ← kalloc;
    memset_ m 0 PGSIZE;;
    _ ← mappages pagetable 0 PGSIZE m (Z.lor (Z.lor (Z.lor PTE_W PTE_R) PTE_X) PTE_U);
    write_bytes m src.

Definition uvmdealloc (pagetable oldsz newsz : Z) : M kst Z :=
  if newsz >=? oldsz then mret oldsz
  else
    (if PGROUNDUP newsz <? PGROUNDUP oldsz then
       let npages := (PGROUNDUP oldsz - PGROUNDUP newsz) / PGSIZE in
       uvmunmap pagetable (PGROUNDUP newsz) npages true
     else mret ());;
    mret newsz.

Fixpoint uvmalloc_loop (fuel : nat) (pagetable a oldsz newsz xperm : Z) : M kst Z :=
  match fuel with
  | O => no_fuel
  | S fuel =>
      if a <? newsz then
        m ← kalloc;
        if m =? 0 then uvmdealloc pagetable a oldsz;; mret 0
        else
          memset_ m 0 PGSIZE;;
          r ← mappages pagetable a PGSIZE m (Z.lor (Z.lor PTE_R PTE_U) xperm);
          if negb (r =? 0) then kfree m;; uvmdealloc pagetable a oldsz;; mret 0
          else uvmalloc_loop fuel pagetable (a + PGSIZE) oldsz newsz xperm
      else mret newsz
  end.

Definition uvmalloc (pagetable oldsz newsz xperm : Z) : M kst Z :=
  if newsz <? oldsz then mret oldsz
  else
    let oldsz := PGROUNDUP oldsz in
    uvmalloc_loop (S (Z.to_nat ((newsz - oldsz + PGSIZE - 1) / PGSIZE)))
      pagetable oldsz oldsz newsz xperm.

(** The loop of [freewalk], with [n] entries to go; [rec] frees a lower table. *)
Fixpoint freewalk_loop (rec : Z → M kst unit) (pagetable : Z) (n : nat) (i : Z) : M kst unit :=
  match n with
  | O => kfree pagetable
  | S n =>
      pte ← ld (pagetable + 8 * i);
      if band pte PTE_V && negb (band pte (Z.lor (Z.lor PTE_R PTE_W) PTE_X)) then
        rec (PTE2PA pte);;
        st (pagetable + 8 * i) 0;;
        freewalk_loop rec pagetable n (i + 1)
      else if band pte PTE_V then panic "freewalk: leaf"
      else freewalk_loop rec pagetable n (i + 1)
  end.

(** [freewalk] recurses once per level of the tree; [depth] counts the levels
    it may still enter. *)
Fixpoint freewalk (depth : nat) (pagetable : Z) : M kst unit :=
  match depth with
  | O => no_fuel
  | S depth => freewalk_loop (freewalk depth) pagetable 512 0
  end.

Definition uvmfree (pagetable sz : Z) : M kst unit :=
  (if sz >? 0 then uvmunmap pagetable 0 (PGROUNDUP sz / PGSIZE) true else mret ());;
  freewalk 3 pagetable.

(** ** Copy-on-write fork *)

Fixpoint uvmcopy_loop (fuel : nat) (old new i sz : Z) : M kst Z :=
  match fuel with
  | O => no_fuel
  | S fuel =>
      if i <? sz then
        pte ← walk old i false;
        if pte =? 0 then panic "uvmcopy: pte should exist"
        else
          v ← ld pte;
          if negb (band v PTE_V) then panic "uvmcopy: page not present"
          else
            let pa := PTE2PA v in
            (if band v PTE_W then st pte (Z.lor (Z.lxor v PTE_W) PTE_COW) else mret ());;
            v ← ld pte;
            r ← mappages new i PGSIZE pa (PTE_FLAGS v);
            if negb (r =? 0) then uvmunmap new 0 (i / PGSIZE) true;; mret (-1)
            else
              c ← get_ref (pa / PGSIZE);
              set_ref (pa / PGSIZE) (c + 1);;
              uvmcopy_loop fuel old new (i + PGSIZE) sz
      else mret 0
  end.

Definition uvmcopy (old new sz : Z) : M kst Z :=
  uvmcopy_loop (S (Z.to_nat ((sz + PGSIZE - 1) / PGSIZE))) old new 0 sz.

Definition uvmclear (pagetable va : Z) : M kst unit :=
  pte ← walk pagetable va false;
  if pte =? 0 then panic "uvmclear"
  else v ← ld pte; st pte (Z.land v (u64 (Z.lnot PTE_U))).

(** ** Copying between kernel and user *)

(** Lines 401-427 of [copyout]: give the page its own writable copy.  Returns
    -1 when there is no memory. *)
Definition copyout_cow (pagetable pte va0 : Z) : M kst Z :=
  m ← kalloc;
  if m =? 0 then mret (-1)
  else
    v ← ld pte;
    memmove_ m (PTE2PA v) PGSIZE;;
    v ← ld pte;
    let flags := Z.lor (Z.land (PTE_FLAGS v) (Z.lnot PTE_COW)) PTE_W in
    uvmunmap pagetable va0 1 true;;
    r ← mappages pagetable va0 PGSIZE m flags;
    if negb (r =? 0) then kfree m;; mret (-1)
    else mret 0.

Fixpoint copyout_loop (fuel : nat) (pagetable dstva : Z) (src : list byte) : M kst Z :=
  match fuel with
  | O => no_fuel
  | S fuel =>
      if (0 <? length src)%nat then
        let va0 := PGROUNDDOWN dstva in
        if va0 >=? MAXVA then mret (-1)
        else
          pte ← walk pagetable va0 false;
          if pte =? 0 then mret (-1)
          else
            v ← ld pte;
            if negb (band v PTE_V) || negb (band v PTE_U)
               || (negb (band v PTE_W) && negb (band v PTE_COW)) then mret (-1)
            else
              r ← (if negb (band v PTE_W) && band v PTE_COW
                   then copyout_cow pagetable pte va0 else mret 0);
              if negb (r =? 0) then mret (-1)
              else
                v ← ld pte;
                let pa0 := PTE2PA v in
                let n := Z.min (PGSIZE - (dstva - va0)) (Z.of_nat (length src)) in
                write_bytes (pa0 + (dstva - va0)) (take (Z.to_nat n) src);;
                copyout_loop fuel pagetable (u64 (va0 + PGSIZE)) (drop (Z.to_nat n) src)
      else mret 0
  end.

Definition copyout (pagetable dstva : Z) (src : list byte) : M kst Z :=
  copyout_loop (S (length src)) pagetable dstva src.

(** Returns the status and the bytes stored in [dst]. *)
Fixpoint copyin_loop (fuel : nat) (pagetable srcva len : Z) : M kst (Z * list byte) :=
  match fuel with
  | O => no_fuel
  | S fuel =>
      if len >? 0 then
        let va0 := PGROUNDDOWN srcva in
        pa0 ← walkaddr pagetable va0;
        if pa0 =? 0 then mret (-1, [])
        else
          let n := Z.min (PGSIZE - (srcva - va0)) len in
          bs ← read_bytes (pa0 + (srcva - va0)) (Z.to_nat n);
          '(r, rest) ← copyin_loop fuel pagetable (u64 (va0 + PGSIZE)) (len - n);
          mret (r, bs ++ rest)
      else mret (0, [])
  end.

Definition copyin (pagetable srcva len : Z) : M kst (Z * list byte) :=
  copyin_loop (S (Z.to_nat len)) pagetable srcva len.

(** The inner loop of [copyinstr]: the bytes up to and including the first NUL
    of a chunk, and whether there was one. *)
Fixpoint scan_nul (l : list byte) : list byte * bool :=
  match l with
  | [] => ([], false)
  | b :: l =>
      if decide (b = x00) then ([x00], true)
      else let '(r, g) := scan_nul l in (b :: r, g)
  end.

Fixpoint copyinstr_loop (fuel : nat) (pagetable srcva max : Z) : M kst (Z * list byte) :=
  match fuel with
  | O => no_fuel
  | S fuel =>
      if max >? 0 then
        let va0 := PGROUNDDOWN srcva in
        pa0 ← walkaddr pagetable va0;
        if pa0 =? 0 then mret (-1, [])
        else
          let n := Z.min (PGSIZE - (srcva - va0)) max in
          chunk ← read_bytes (pa0 + (srcva - va0)) (Z.to_nat n);
          let '(bs, got_null) := scan_nul chunk in
          if (got_null : bool) then mret (0, bs)
          else
            '(r, rest) ← copyinstr_loop fuel pagetable (u64 (va0 + PGSIZE)) (max - n);
            mret (r, bs ++ rest)
      else mret (-1, [])
  end.

Definition copyinstr (pagetable srcva max : Z) : M kst (Z * list byte) :=
  copyinstr_loop (S (Z.to_nat max)) pagetable srcva max.

(** ** The kernel page table *)

Definition kvmmap (kpgtbl va pa sz perm : Z) : M kst unit :=
  r ← mappages kpgtbl va sz pa perm;
  if negb (r =? 0) then panic "kvmmap" else mret ().

(** [proc_mapstacks] of [kernel/proc.c]. *)
Fixpoint proc_mapstacks_loop (n : nat) (p kpgtbl : Z) : M kst unit :=
  match n with
  | O => mret ()
  | S n =>
      pa ← kalloc;
      if pa =? 0 then panic "kalloc"
      else
        kvmmap kpgtbl (KSTACK p) pa PGSIZE (Z.lor PTE_R PTE_W);;
        proc_mapstacks_loop n (p + 1) kpgtbl
  end.

Definition proc_mapstacks (kpgtbl : Z) : M kst unit :=
  proc_mapstacks_loop (Z.to_nat NPROC) 0 kpgtbl.

Definition kvmmake : M kst Z :=
  kpgtbl ← kalloc;
  memset_ kpgtbl 0 PGSIZE;;
  kvmmap kpgtbl UART0 UART0 PGSIZE (Z.lor PTE_R PTE_W);;
  kvmmap kpgtbl VIRTIO0 VIRTIO0 PGSIZE (Z.lor PTE_R PTE_W);;
  kvmmap kpgtbl PLIC PLIC 0x400000 (Z.lor PTE_R PTE_W);;
  kvmmap kpgtbl KERNBASE KERNBASE (etext - KERNBASE) (Z.lor PTE_R PTE_X);;
  kvmmap kpgtbl etext etext (PHYSTOP - etext) (Z.lor PTE_R PTE_W);;
  kvmmap kpgtbl TRAMPOLINE trampoline PGSIZE (Z.lor PTE_R PTE_X);;
  proc_mapstacks kpgtbl;;
  mret kpgtbl.

End vm.
