(* ===== verification/VmTree.v ===== *)
(** * Page tables as finite maps

    A logical view of the page tables in memory and the proof that the walk of
    [kernel/vm.c] implements it.  [T] maps a node of a tree, a root and the
    path of indices from it, to the page that holds the node; [L] maps a root
    and a page-aligned virtual address to the leaf PTE there.  [pt_rep] says
    that memory holds exactly these trees. *)

From S2P Require Import Prelude Riscv Mem CString Kalloc Vm.

Abbreviation tables := (gmap (Z * list Z) Z).
Abbreviation leaves := (gmap (Z * Z) Z).

(** The page that contains an address. *)
Definition pg (x : Z) : Z := x / 4096 * 4096.

Lemma pg_eq p x : p mod 4096 = 0 → p ≤ x < p + 4096 → pg x = p.
Proof. intros. unfold pg. Z.div_mod_to_equations. lia. Qed.

Lemma pg_range x : pg x ≤ x < pg x + 4096.
Proof. unfold pg. Z.div_mod_to_equations. lia. Qed.

Lemma pg_aligned x : pg x mod 4096 = 0.
Proof. unfold pg. apply Z.mod_mul. lia. Qed.

Definition va_ok (va : Z) : Prop := 0 ≤ va < MAXVA ∧ va mod 4096 = 0.

Section tree.
Context `{KernelImage}.

Record pt_rep (m : memory) (T : tables) (L : leaves) : Prop := {
  pr_root : ∀ r path p, T !! (r, path) = Some p → T !! (r, []) = Some r;
  pr_path : ∀ r path p, T !! (r, path) = Some p →
    path = [] ∨ (∃ va, 0 ≤ va < MAXVA ∧ path = [PX 2 va]) ∨
    (∃ va, 0 ≤ va < MAXVA ∧ path = [PX 2 va; PX 1 va]);
  pr_parent : ∀ r i j p, T !! (r, [i; j]) = Some p → is_Some (T !! (r, [i]));
  pr_inj : ∀ k1 k2 p, T !! k1 = Some p → T !! k2 = Some p → k1 = k2;
  pr_ok : ∀ k p, T !! k = Some p → page_ok p;
  pr_node : ∀ r path p i, T !! (r, path) = Some p → (length path < 2)%nat → 0 ≤ i < 512 →
    load64 m (p + 8 * i) =
      match T !! (r, path ++ [i]) with
      | Some q => Z.lor (PA2PTE q) PTE_V
      | None => 0
      end;
  pr_leaf : ∀ r va p, va_ok va → T !! (r, [PX 2 va; PX 1 va]) = Some p →
    load64 m (p + 8 * PX 0 va) = default 0 (L !! (r, va));
  pr_dom : ∀ r va pte, L !! (r, va) = Some pte →
    va_ok va ∧ is_Some (T !! (r, [PX 2 va; PX 1 va])) ∧ band pte PTE_V = true ∧ 0 ≤ pte < 2 ^ 64;
}.

(** The allocator's invariant, the trees, and that a table page is in use. *)
Record pt_inv (s : kst) (fl : list Z) (T : tables) (L : leaves) : Prop := {
  pi_alloc : kalloc_inv s fl;
  pi_rep : pt_rep (mem s) T L;
  pi_ref : ∀ k p, T !! k = Some p → page_refcnt s (p / PGSIZE) = 1;
}.

Lemma pi_not_free s fl T L k p : pt_inv s fl T L → T !! k = Some p → p ∉ fl.
Proof.
  intros [Ha Hr Hc] HT. pose proof (pr_ok _ _ _ Hr _ _ HT) as Hp.
  rewrite (ki_zero _ _ _ Ha) by (done || apply Hp). rewrite (Hc _ _ HT). lia.
Qed.

(** ** Slots *)

Lemma slot_in_page p i : page_ok p → 0 ≤ i < 512 → p ≤ p + 8 * i ∧ p + 8 * i + 8 ≤ p + 4096.
Proof. lia. Qed.

Lemma slot_mapped p i : page_ok p → 0 ≤ i < 512 → mapped (p + 8 * i) 8 = true.
Proof. intros Hp Hi. apply (mapped_page p); [done|lia..]. Qed.

Lemma ld_slot p i s : page_ok p → 0 ≤ i < 512 →
  ld (p + 8 * i) s = Ok (load64 (mem s) (p + 8 * i)) s.
Proof. intros. unfold ld. by rewrite slot_mapped. Qed.

Lemma st_slot p i v s : page_ok p → 0 ≤ i < 512 →
  st (p + 8 * i) v s = Ok tt (set_mem (λ m, store64 m (p + 8 * i) v) s).
Proof. intros. unfold st. by rewrite slot_mapped. Qed.

Lemma slot_ne_0 p i : page_ok p → 0 ≤ i → p + 8 * i ≠ 0.
Proof. intros (?&?&?)%page_ok_range ?. lia. Qed.

(** A store to one slot leaves every other slot alone. *)
Lemma slot_store_ne m p i v q j :
  page_ok p → page_ok q → 0 ≤ i < 512 → 0 ≤ j < 512 → (p, i) ≠ (q, j) →
  load64 (store64 m (p + 8 * i) v) (q + 8 * j) = load64 m (q + 8 * j).
Proof.
  intros (?&?&?)%page_ok_range (?&?&?)%page_ok_range Hi Hj Hne. apply load64_store64_ne.
  destruct (decide (p = q)) as [<-|]; [|destruct (aligned_disjoint p q); lia].
  assert (i ≠ j) by congruence. lia.
Qed.

Lemma PX_idx level va : 0 ≤ level → 0 ≤ va < MAXVA → 0 ≤ PX level va < 512.
Proof. intros. apply PX_range; lia. Qed.

Lemma band_V_mk q : pa_ok q → band (Z.lor (PA2PTE q) PTE_V) PTE_V = true.
Proof.
  intros Hq. unfold PTE_V at 2. rewrite band_flags by lia.
  by rewrite PTE_FLAGS_mk by (done || vm_compute; split; congruence).
Qed.

Lemma PTE2PA_table q : pa_ok q → PTE2PA (Z.lor (PA2PTE q) PTE_V) = q.
Proof. intros. apply PTE2PA_mk; [done|]. vm_compute; split; congruence. Qed.

(** ** Walking without allocation *)

Lemma walk_noalloc s fl T L r va :
  pt_inv s fl T L → T !! (r, []) = Some r → 0 ≤ va < MAXVA →
  walk r va false s =
    Ok (match T !! (r, [PX 2 va; PX 1 va]) with Some p => p + 8 * PX 0 va | None => 0 end) s.
Proof.
  intros [_ Hr _] HT Hva. unfold walk. destruct (Z_geb_spec0 va MAXVA); [lia|].
  pose proof (PX_idx 2 va ltac:(lia) Hva) as H2. pose proof (PX_idx 1 va ltac:(lia) Hva) as H1.
  cbn [walk_loop]. change (Z.of_nat 2) with 2. change (Z.of_nat 1) with 1.
  unfold mbind at 1, M_bind at 1.
  rewrite (ld_slot r) by (done || by eapply pr_ok).
  rewrite (pr_node _ _ _ Hr r [] r) by (done || simpl; lia). cbn [app].
  destruct (T !! (r, [PX 2 va])) as [p|] eqn:E1; cbv iota beta.
  - pose proof (pr_ok _ _ _ Hr _ _ E1) as Hp. pose proof (page_ok_pa_ok _ Hp) as Hpa.
    rewrite band_V_mk, PTE2PA_table by done. unfold mbind, M_bind.
    rewrite (ld_slot p) by done.
    rewrite (pr_node _ _ _ Hr r [PX 2 va] p) by (done || simpl; lia). cbn [app].
    destruct (T !! (r, [PX 2 va; PX 1 va])) as [q|] eqn:E0; [cbv iota beta|done].
    pose proof (pr_ok _ _ _ Hr _ _ E0) as Hq. pose proof (page_ok_pa_ok _ Hq) as Hqa.
    by rewrite band_V_mk, PTE2PA_table by done.
  - destruct (T !! (r, [PX 2 va; PX 1 va])) eqn:E0; [|done].
    destruct (pr_parent _ _ _ Hr _ _ _ _ E0). congruence.
Qed.

(** ** Frames *)

Lemma load64_page m m' p i :
  page_ok p → 0 ≤ i < 512 → (∀ x, pg x = p → m' x = m x) →
  load64 m' (p + 8 * i) = load64 m (p + 8 * i).
Proof.
  intros (?&?&?)%page_ok_range Hi Hm. apply load64_ext. intros x Hx. apply Hm.
  apply pg_eq; [done|lia].
Qed.

Lemma kalloc_inv_frame s s' fl :
  kalloc_inv s fl → freelist s' = freelist s → (∀ p, page_ok p →
    page_refcnt s' (p / PGSIZE) = page_refcnt s (p / PGSIZE)) →
  (∀ x, pg x ∈ fl → mem s' x = mem s x) → kalloc_inv s' fl.
Proof.
  intros [Hrep Hnd Hok Hz Hpos] Hf Hr Hm. split; try done.
  - rewrite Hf. revert Hrep. apply fl_rep_frame. intros y Hy.
    rewrite list.Forall_forall in Hok. destruct (Hok y Hy) as [Hp _].
    replace y with (y + 8 * 0) by lia. apply load64_page; [done|lia|].
    intros x <-. by apply Hm.
  - intros p Hp Hl. rewrite Hr by done. by apply Hz.
  - intros p Hp. rewrite Hr by done. by apply Hpos.
Qed.

Lemma pt_rep_frame m m' T L :
  pt_rep m T L → (∀ x k, T !! k = Some (pg x) → m' x = m x) → pt_rep m' T L.
Proof.
  intros Hr Hm. pose proof (pr_ok _ _ _ Hr) as Hok. split; try apply Hr.
  - intros r path p i HT Hl Hi. rewrite (load64_page m m' p i); [by apply Hr|by eauto|done|].
    intros x Hx. eapply Hm. by rewrite Hx.
  - intros r va p Hva HT.
    rewrite (load64_page m m' p); [by apply Hr|by eauto|apply PX_idx; [lia|apply Hva]|].
    intros x Hx. eapply Hm. by rewrite Hx.
Qed.

(** ** Adding an empty table *)

(** [path ++ [i]] is a proper prefix of the path of [va]. *)
Definition path_step (va : Z) (path : list Z) (i : Z) : Prop :=
  (path = [] ∧ i = PX 2 va) ∨ (path = [PX 2 va] ∧ i = PX 1 va).

Lemma path_step_idx va path i : 0 ≤ va < MAXVA → path_step va path i → 0 ≤ i < 512 ∧ (length path < 2)%nat.
Proof. intros Hva [[-> ->]|[-> ->]]; (split; [apply PX_idx; lia|simpl; lia]). Qed.

Lemma snoc_inj {A} (l l' : list A) x y : l ++ [x] = l' ++ [y] → l = l' ∧ x = y.
Proof. apply app_inj_tail. Qed.

Lemma pt_rep_no_child m T L r path i va path' :
  pt_rep m T L → path_step va path i → T !! (r, path ++ [i]) = None →
  T !! (r, path ++ [i] ++ path') = None.
Proof.
  intros Hr Hstep Hnone. destruct (T !! (r, path ++ [i] ++ path')) as [x|] eqn:E; [|done]. exfalso.
  destruct path' as [|j path']; [by rewrite app_nil_r in E; congruence|].
  destruct Hstep as [[-> ->]|[-> ->]]; simpl in *.
  - destruct (pr_path _ _ _ Hr _ _ _ E) as [?|[(?&?&?)|(va'&?&?)]]; [done..|]. simplify_eq.
    destruct (pr_parent _ _ _ Hr _ _ _ _ E). congruence.
  - by destruct (pr_path _ _ _ Hr _ _ _ E) as [?|[(?&?&?)|(va'&?&?)]].
Qed.

Lemma pt_rep_add m T L r path p i q va :
  pt_rep m T L → 0 ≤ va < MAXVA → path_step va path i →
  T !! (r, path) = Some p → T !! (r, path ++ [i]) = None →
  page_ok q → (∀ k, T !! k ≠ Some q) → (∀ j, 0 ≤ j < 512 → load64 m (q + 8 * j) = 0) →
  pt_rep (store64 m (p + 8 * i) (Z.lor (PA2PTE q) PTE_V)) (<[(r, path ++ [i]) := q]> T) L.
Proof.
  intros Hr Hva Hstep HT Hnone Hq Hnq Hz.
  destruct (path_step_idx _ _ _ Hva Hstep) as [Hi Hlen].
  pose proof (pr_ok _ _ _ Hr _ _ HT) as Hp. assert (p ≠ q) as Hpq by (intros ->; by eapply Hnq).
  assert (∀ j, 0 ≤ j < 512 → ∀ v, load64 (store64 m (p + 8 * i) v) (q + 8 * j) = 0) as Hz'.
  { intros j Hj v. rewrite slot_store_ne; [by apply Hz|done..|congruence]. }
  pose proof (λ path', pt_rep_no_child _ _ _ _ _ _ _ path' Hr Hstep Hnone) as Hchild.
  split.
  - intros r' path' p'. rewrite !lookup_insert. repeat case_decide; simplify_eq; intros.
    + by destruct path.
    + by eapply pr_root.
    + by destruct path.
    + by eapply pr_root.
  - intros r' path' p'. rewrite lookup_insert. case_decide as E; [|by apply Hr]. simplify_eq. intros _.
    destruct Hstep as [[-> ->]|[-> ->]]; simpl; [right; left|right; right]; eauto.
  - intros r' i' j' p'. rewrite !lookup_insert. repeat case_decide; simplify_eq; [by eauto|..].
    + destruct Hstep as [[-> ->]|[-> ->]]; simplify_eq/=. by eauto.
    + by eauto.
    + by apply Hr.
  - intros k1 k2 p'. rewrite !lookup_insert. repeat case_decide; simplify_eq; try done.
    + intros ? ?; simplify_eq. by destruct (Hnq k2).
    + intros ? ?; simplify_eq. by destruct (Hnq k1).
    + by apply Hr.
  - intros k p'. rewrite lookup_insert. case_decide; [by intros [= <-]|by apply Hr].
  - intros r' path' p' j. rewrite lookup_insert. case_decide as E.
    + injection E as <- <-. intros [= <-] Hl Hj. rewrite Hz' by done.
      rewrite lookup_insert_ne by (intros E; simplify_eq; apply (f_equal length) in E;
        rewrite !length_app in E; simpl in E; lia).
      by rewrite <- app_assoc, Hchild.
    + intros HT' Hl Hj. pose proof (pr_ok _ _ _ Hr _ _ HT') as Hp'.
      destruct (decide ((p', j) = (p, i))) as [E'|E'].
      * simplify_eq. rewrite load64_store64_eq by (apply mk_pte_range; [by apply page_ok_pa_ok|vm_compute; split; congruence]).
        assert ((r', path') = (r, path)) as [= -> ->] by (by eapply pr_inj).
        by rewrite lookup_insert_eq.
      * rewrite slot_store_ne by (done || congruence).
        rewrite lookup_insert_ne; [by apply Hr|].
        intros E''. injection E'' as <- [-> ->]%snoc_inj. congruence.
  - intros r' va' p' Hva'. rewrite lookup_insert. case_decide as E.
    + injection E as <- E. intros [= <-]. rewrite Hz' by (apply PX_idx; [lia|apply Hva']).
      destruct (L !! (r, va')) as [pte|] eqn:EL; [|done]. exfalso.
      destruct (pr_dom _ _ _ Hr _ _ _ EL) as (_ & [x Hx] & _). rewrite <- E in Hx. congruence.
    + intros HT'. pose proof (pr_ok _ _ _ Hr _ _ HT') as Hp'.
      rewrite slot_store_ne; [by apply Hr|done|done|done|apply PX_idx; [lia|apply Hva']|].
      intros E'; simplify_eq.
      assert ((r', [PX 2 va'; PX 1 va']) = (r, path)) as [= -> <-] by (by eapply pr_inj).
      simpl in Hlen; lia.
  - intros r' va' pte EL. destruct (pr_dom _ _ _ Hr _ _ _ EL) as (? & [x Hx] & ? & ?).
    split; [done|split; [|done]]. rewrite lookup_insert. case_decide; eauto.
Qed.

(** ** Storing a leaf *)

Lemma pt_inv_frame s s' fl T L :
  pt_inv s fl T L → freelist s' = freelist s →
  (∀ p, page_ok p → page_refcnt s' (p / PGSIZE) = page_refcnt s (p / PGSIZE)) →
  (∀ x, pg x ∈ fl ∨ (∃ k, T !! k = Some (pg x)) → mem s' x = mem s x) → pt_inv s' fl T L.
Proof.
  intros [Ha Hr Hc] Hf Hrc Hm. split.
  - eapply kalloc_inv_frame; eauto.
  - eapply pt_rep_frame; eauto.
  - intros k p HT. rewrite Hrc; [by eauto|by eapply pr_ok].
Qed.

Lemma store64_page m p i v x :
  page_ok p → 0 ≤ i < 512 → pg x ≠ p → store64 m (p + 8 * i) v x = m x.
Proof.
  intros (?&?&?)%page_ok_range ? Hx. apply store64_out.
  intros Hin. apply Hx. apply pg_eq; lia.
Qed.

Definition leaf_ok (o : option Z) : Prop := ∀ pte, o = Some pte → band pte PTE_V = true ∧ 0 ≤ pte < 2 ^ 64.

Lemma pt_rep_leaf m T L r va p o :
  pt_rep m T L → va_ok va → T !! (r, [PX 2 va; PX 1 va]) = Some p → leaf_ok o →
  pt_rep (store64 m (p + 8 * PX 0 va) (default 0 o)) T (partial_alter (λ _, o) (r, va) L).
Proof.
  intros Hr Hva HT Ho. pose proof (pr_ok _ _ _ Hr _ _ HT) as Hp.
  pose proof (PX_idx 0 va ltac:(lia) (proj1 Hva)) as Hi. split; try apply Hr.
  - intros r' path' p' j HT' Hl Hj. pose proof (pr_ok _ _ _ Hr _ _ HT') as Hp'.
    rewrite slot_store_ne; [by apply Hr|done..|]. intros [= -> _].
    pose proof (pr_inj _ _ _ Hr _ _ _ HT HT') as E. injection E as -> <-. simpl in Hl; lia.
  - intros r' va' p' Hva' HT'. pose proof (pr_ok _ _ _ Hr _ _ HT') as Hp'.
    pose proof (PX_idx 0 va' ltac:(lia) (proj1 Hva')) as Hi'.
    destruct (decide ((r', va') = (r, va))) as [[= -> ->]|Hne].
    + rewrite lookup_partial_alter_eq. simplify_eq. apply load64_store64_eq.
      destruct o as [pte|]; [|simpl; lia]. by apply Ho.
    + rewrite lookup_partial_alter_ne by done. rewrite slot_store_ne; [by apply Hr|done..|].
      intros [= -> E]. pose proof (pr_inj _ _ _ Hr _ _ _ HT HT') as E'. injection E' as -> E2 E1.
      apply Hne. f_equal. apply PX_inj; [apply Hva'|apply Hva|apply Hva'|apply Hva|done..].
  - intros r' va' pte. destruct (decide ((r', va') = (r, va))) as [[= -> ->]|Hne].
    + rewrite lookup_partial_alter_eq. intros ->. destruct (Ho _ eq_refl). eauto.
    + rewrite lookup_partial_alter_ne by done. by apply Hr.
Qed.

Lemma pt_leaf_store s fl T L r va p o :
  pt_inv s fl T L → va_ok va → T !! (r, [PX 2 va; PX 1 va]) = Some p → leaf_ok o →
  ∃ s', st (p + 8 * PX 0 va) (default 0 o) s = Ok tt s' ∧
    pt_inv s' fl T (partial_alter (λ _, o) (r, va) L) ∧
    freelist s' = freelist s ∧ page_refcnt s' = page_refcnt s ∧
    (∀ x, pg x ≠ p → mem s' x = mem s x).
Proof.
  intros Hi Hva HT Ho. pose proof (pi_not_free _ _ _ _ _ _ Hi HT) as Hnf. destruct Hi as [Ha Hr Hc].
  pose proof (pr_ok _ _ _ Hr _ _ HT) as Hp. pose proof (PX_idx 0 va ltac:(lia) (proj1 Hva)) as Hx.
  eexists. split; [by apply st_slot|]. split; [|split_and!; [done..|]].
  - split; [|by apply pt_rep_leaf|done]. eapply kalloc_inv_frame; try done.
    intros x Hin. apply store64_page; [done..|]. by intros <-.
  - intros x Hne. by apply store64_page.
Qed.

(** ** Walking with allocation *)

(** [grow r s fl T s' fl' T']: the tree of [r] took the pages [new] off the free
    list and uses each of them as a table; nothing but tables and [new] was
    written, and no other reference count changed. *)
Record grow (r : Z) (s : kst) (fl : list Z) (T : tables) (s' : kst) (fl' : list Z) (T' : tables)
    (new : list Z) : Prop := {
  gr_fl : fl = new ++ fl';
  gr_sub : T ⊆ T';
  gr_new : ∀ k p, T' !! k = Some p → T !! k = Some p ∨ (T !! k = None ∧ k.1 = r ∧ k.2 ≠ [] ∧ p ∈ new);
  gr_used : ∀ p, p ∈ new → ∃ k, T' !! k = Some p;
  gr_ref : ∀ p, page_ok p → p ∉ new → page_refcnt s' (p / PGSIZE) = page_refcnt s (p / PGSIZE);
  gr_mem : ∀ x, pg x ∉ new → (∀ k, T !! k ≠ Some (pg x)) → mem s' x = mem s x;
}.

Lemma grow_refl r s fl T : grow r s fl T s fl T [].
Proof. split; try done; try set_solver. Qed.

Lemma grow_trans r s0 fl0 T0 n1 s1 fl1 T1 s2 fl2 T2 n2 :
  grow r s0 fl0 T0 s1 fl1 T1 n1 → grow r s1 fl1 T1 s2 fl2 T2 n2 →
  grow r s0 fl0 T0 s2 fl2 T2 (n1 ++ n2).
Proof.
  intros [Hf1 Hs1 Hn1 Hu1 Hr1 Hm1] [Hf2 Hs2 Hn2 Hu2 Hr2 Hm2]. split.
  - by rewrite Hf1, Hf2, app_assoc.
  - by etrans.
  - intros k p HT. destruct (Hn2 _ _ HT) as [HT1|(HT1&?&?&?)].
    + destruct (Hn1 _ _ HT1) as [?|(?&?&?&?)]; [by left|]. right. rewrite elem_of_app. auto.
    + right. split_and!; [by eapply lookup_weaken_None|done|done|set_solver].
  - intros p [Hp|Hp]%elem_of_app; [|by eauto]. destruct (Hu1 _ Hp) as [k Hk].
    exists k. by eapply lookup_weaken.
  - intros p Hp Hni. rewrite Hr2, Hr1; set_solver.
  - intros x Hx HT. rewrite Hm2, Hm1; [done|set_solver|done|set_solver|].
    intros k Hk. destruct (Hn1 _ _ Hk) as [?|(?&?&?&?)]; [naive_solver|set_solver].
Qed.

(** One more level: [kalloc], [memset] and the store of the new PTE. *)
Lemma pt_add_table s q fl T L r path p i va :
  pt_inv s (q :: fl) T L → 0 ≤ va < MAXVA → path_step va path i →
  T !! (r, path) = Some p → T !! (r, path ++ [i]) = None →
  ∃ s', (q ← kalloc; if q =? 0 then mret 0 else memset_ q 0 PGSIZE;;
          st (p + 8 * i) (Z.lor (PA2PTE q) PTE_V);; mret q) s = Ok q s' ∧
    let T' := <[(r, path ++ [i]) := q]> T in
    pt_inv s' fl T' L ∧ grow r s (q :: fl) T s' fl T' [q].
Proof.
  intros Hi Hva Hstep HT Hnone. pose proof Hi as [Ha Hr Hc].
  pose proof (pr_ok _ _ _ Hr _ _ HT) as Hp.
  destruct (path_step_idx _ _ _ Hva Hstep) as [Hidx _].
  destruct (kalloc_upto_alloc _ _ _ _ Ha) as (s1 & Hk & Ha1 & Hm1 & Hc1).
  assert (page_ok q) as Hq by (pose proof (ki_ok _ _ _ Ha) as Hok; by inversion Hok as [|?? []]).
  assert (∀ k, T !! k ≠ Some q) as HqT.
  { intros k Hk'. apply (pi_not_free _ _ _ _ _ _ Hi Hk'). by left. }
  assert (q ∉ fl) as Hqf by (pose proof (ki_nodup _ _ _ Ha) as Hnd; by inversion Hnd).
  pose proof (page_ok_range _ Hq) as (Hqa&Hq1&Hq2).
  set (s2 := set_mem (λ m, mfill m q (byte_of_Z 0) PGSIZE) s1).
  set (s3 := set_mem (λ m, store64 m (p + 8 * i) (Z.lor (PA2PTE q) PTE_V)) s2).
  assert (∀ x, pg x ≠ q → mem s2 x = mem s x) as Hm2.
  { intros x Hx. simpl. rewrite Hm1.
    rewrite !mfill_out; [done|..]; unfold PGSIZE; intros ?; apply Hx, pg_eq; lia. }
  exists s3. split.
  { unfold mbind, M_bind, memset_. rewrite Hk. rewrite (proj2 (Z.eqb_neq q 0)) by by apply page_ok_ne_0.
    rewrite (mapped_page q q PGSIZE) by (done || unfold PGSIZE; lia). unfold modify.
    fold s2. by rewrite st_slot. }
  assert (pt_rep (mem s2) T L) as Hr2.
  { eapply pt_rep_frame; [done|]. intros x k Hk'. apply Hm2. intros E. rewrite E in Hk'. by eapply HqT. }
  split; split.
  - eapply kalloc_inv_frame; [done..|]. intros x Hx.
    simpl. rewrite store64_page; [|done|done|].
    + rewrite mfill_out; [done|]. unfold PGSIZE. intros ?. apply Hqf. by rewrite <- (pg_eq q x) by lia.
    + intros E. apply (pi_not_free _ _ _ _ _ _ Hi HT). rewrite <- E. by right.
  - eapply pt_rep_add; try done. intros j Hj. apply load64_mfill_zero; unfold PGSIZE; lia.
  - intros k p'. rewrite lookup_insert. simpl. rewrite Hc1. case_decide.
    + intros [= <-]. apply fupd_eq.
    + intros HT'. rewrite fupd_ne; [by eauto|]. intros ->%page_index_inj; [by eapply HqT|done|by eapply pr_ok].
  - done.
  - by apply insert_subseteq.
  - intros k p'. rewrite lookup_insert. case_decide; [|by auto].
    subst. intros [= <-]. right. simpl. split_and!; [done..| |by left]. by destruct path.
  - intros p' ->%list_elem_of_singleton. exists (r, path ++ [i]). by rewrite lookup_insert_eq.
  - intros p' Hp' Hne. simpl. rewrite Hc1, fupd_ne; [done|].
    intros ->%page_index_inj; [set_solver|done..].
  - intros x Hx HxT. simpl. rewrite store64_page; [|done..|naive_solver]. apply Hm2. set_solver.
Qed.

(** [kalloc] with no memory left writes only [page_refcnt[0]], which belongs to
    no page. *)
Lemma pt_alloc_empty s T L r :
  pt_inv s [] T L → ∃ s', kalloc s = Ok 0 s' ∧ pt_inv s' [] T L ∧ grow r s [] T s' [] T [].
Proof.
  intros Hi. pose proof (ki_rep _ _ _ (pi_alloc _ _ _ _ Hi)) as Hf. simpl in Hf.
  eexists. split; [by apply kalloc_empty|].
  assert (∀ p, page_ok p → fupd (page_refcnt s) 0 1 (p / PGSIZE) = page_refcnt s (p / PGSIZE)).
  { intros p (?&?&?)%page_ok_range. apply fupd_ne. unfold PGSIZE. Z.div_mod_to_equations. lia. }
  split; [by eapply pt_inv_frame|]. split; try done; set_solver.
Qed.

(** The tables on the way to [va]. *)
Definition on_path (r va : Z) (k : Z * list Z) : Prop := k = (r, [PX 2 va]) ∨ k = (r, [PX 2 va; PX 1 va]).
(** Every table of [T'] is one of [T] or in [P]. *)
Definition adds (P : Z * list Z → Prop) (T T' : tables) : Prop := ∀ k, is_Some (T' !! k) → is_Some (T !! k) ∨ P k.

Lemma adds_refl P T : adds P T T.
Proof. intros k. by left. Qed.
Lemma adds_trans (P Q : Z * list Z → Prop) T1 T2 T3 : adds P T1 T2 → adds Q T2 T3 → adds (λ k, P k ∨ Q k) T1 T3.
Proof. intros H1 H2 k [Hk|?]%H2; [|by right; right]. destruct (H1 k Hk); [by left|by right; left]. Qed.
Lemma adds_mono (P Q : Z * list Z → Prop) T T' : (∀ k, P k → Q k) → adds P T T' → adds Q T T'.
Proof. intros HPQ H1 k [|]%H1; [by left|right; auto]. Qed.

Lemma walk_level_alloc l s fl T L r path p va :
  pt_inv s fl T L → 0 ≤ va < MAXVA → path_step va path (PX (Z.of_nat (S l)) va) →
  T !! (r, path) = Some p →
  (∃ q s' fl' T' new, walk_loop (S l) p va true s = walk_loop l q va true s' ∧
     pt_inv s' fl' T' L ∧ grow r s fl T s' fl' T' new ∧
     T' !! (r, path ++ [PX (Z.of_nat (S l)) va]) = Some q ∧
     adds (λ k, k = (r, path ++ [PX (Z.of_nat (S l)) va])) T T') ∨
  (∃ s', walk_loop (S l) p va true s = Ok 0 s' ∧ pt_inv s' [] T L ∧ grow r s fl T s' [] T [] ∧
     T !! (r, path ++ [PX (Z.of_nat (S l)) va]) = None).
Proof.
  intros Hi Hva Hstep HT. pose proof (pi_rep _ _ _ _ Hi) as Hr.
  destruct (path_step_idx _ _ _ Hva Hstep) as [Hidx Hlen].
  pose proof (pr_ok _ _ _ Hr _ _ HT) as Hp.
  remember (walk_loop (S l) p va true s) as W eqn:EW.
  cbn [walk_loop] in EW. set (i := PX (Z.of_nat (S l)) va) in *.
  unfold mbind, M_bind in EW. rewrite (ld_slot p) in EW by done.
  rewrite (pr_node _ _ _ Hr r path p) in EW by done.
  destruct (T !! (r, path ++ [i])) as [q|] eqn:E.
  { left. assert (pa_ok q) by (apply page_ok_pa_ok; by eapply pr_ok).
    rewrite band_V_mk, PTE2PA_table in EW by done.
    exists q, s, fl, T, []. split_and!; [done..|apply grow_refl|done|apply adds_refl]. }
  change (band 0 PTE_V) with false in EW. cbv iota beta in EW. cbn [negb] in EW.
  destruct fl as [|q fl].
  { right. destruct (pt_alloc_empty s T L r Hi) as (s' & Hk & Hi' & Hg).
    exists s'. split_and!; try done. by rewrite EW, Hk. }
  left. destruct (pt_add_table s q fl T L r path p i va) as (s' & Hs & Hi' & Hg); [done..|].
  exists q, s', fl, (<[(r, path ++ [i]) := q]> T), [q].
  assert (adds (λ k, k = (r, path ++ [i])) T (<[(r, path ++ [i]) := q]> T)) as Hadd.
  { intros k. rewrite lookup_insert. case_decide; [by right|by left]. }
  split; [|split; [done|split; [done|split; [apply lookup_insert_eq|done]]]].
  revert Hs EW. unfold mbind, M_bind. destruct (kalloc s) as [x sx| | | |]; try done.
  destruct (x =? 0) eqn:Ex.
  - intros [= <- <-]. assert (page_ok 0) as []%page_ok_ne_0; [|done].
    eapply (pr_ok _ _ _ (pi_rep _ _ _ _ Hi')). apply lookup_insert_eq.
  - destruct (memset_ x 0 PGSIZE sx) as [? sy| | | |]; try done.
    destruct (st _ _ sy) as [? sz| | | |]; try done. by intros [= <- <-] ->.
Qed.

Lemma walk_alloc s fl T L r va :
  pt_inv s fl T L → T !! (r, []) = Some r → 0 ≤ va < MAXVA →
  ∃ a s' fl' T' new, walk r va true s = Ok a s' ∧ pt_inv s' fl' T' L ∧ grow r s fl T s' fl' T' new ∧
    match T' !! (r, [PX 2 va; PX 1 va]) with
    | Some p => a = p + 8 * PX 0 va
    | None => a = 0 ∧ fl' = []
    end ∧ adds (on_path r va) T T'.
Proof.
  intros Hi HT Hva. unfold walk. destruct (Z_geb_spec0 va MAXVA); [lia|].
  destruct (walk_level_alloc 1 s fl T L r [] r va) as
    [(q1 & s1 & fl1 & T1 & n1 & -> & Hi1 & Hg1 & HT1 & Hk1)|(s1 & -> & Hi1 & Hg1 & HT1)];
    [done|done|by left|done|..]; cbn [app] in HT1; change (Z.of_nat 2) with 2 in HT1.
  2:{ exists 0, s1, [], T, []. split_and!; [done..| |apply adds_refl]. case_match eqn:E; [|done].
      destruct (pr_parent _ _ _ (pi_rep _ _ _ _ Hi) _ _ _ _ E). congruence. }
  destruct (walk_level_alloc 0 s1 fl1 T1 L r [PX 2 va] q1 va) as
    [(q2 & s2 & fl2 & T2 & n2 & -> & Hi2 & Hg2 & HT2 & Hk2)|(s2 & -> & Hi2 & Hg2 & HT2)];
    [done|done|by right|done|..]; cbn [app] in HT2; change (Z.of_nat 1) with 1 in HT2.
  - exists (q2 + 8 * PX 0 va), s2, fl2, T2, (n1 ++ n2).
    split_and!; [done|done|by eapply grow_trans|by rewrite HT2|exact (adds_trans _ _ _ _ _ Hk1 Hk2)].
  - exists 0, s2, [], T1, (n1 ++ []).
    split_and!; [done|done|by eapply grow_trans|by rewrite HT2|]. eapply adds_mono, Hk1. by left.
Qed.

(** A walk that finds its tables changes nothing, allocating or not. *)
Lemma walk_hit alloc s fl T L r va p :
  pt_inv s fl T L → 0 ≤ va < MAXVA → T !! (r, [PX 2 va; PX 1 va]) = Some p →
  walk r va alloc s = Ok (p + 8 * PX 0 va) s.
Proof.
  intros Hi Hva HT. pose proof (pr_root _ _ _ (pi_rep _ _ _ _ Hi) _ _ _ HT) as Hroot.
  pose proof (walk_noalloc _ _ _ _ _ _ Hi Hroot Hva) as Hw. rewrite HT in Hw.
  assert (p + 8 * PX 0 va ≠ 0) as Hnz.
  { apply slot_ne_0; [|apply PX_idx; lia]. by eapply (pr_ok _ _ _ (pi_rep _ _ _ _ Hi)). }
  destruct alloc; [|done]. revert Hw. unfold walk. case_match; [done|].
  generalize 2%nat. intros n; clear -Hnz. revert r. induction n as [|n IH]; intros r; [done|].
  cbn [walk_loop]. unfold mbind, M_bind. destruct (ld _ s) as [v s'| | | |] eqn:E; try done.
  assert (s' = s) as ->. { revert E. unfold ld. case_match; [by intros [= _ ->]|done]. }
  destruct (band v PTE_V); [apply IH|]. simpl. intros [= E']. by destruct Hnz.
Qed.

End tree.
