(* ===== verification/VmOps.v ===== *)
(** * Mapping, unmapping, growing and freeing address spaces

    Specifications of the operations of [kernel/vm.c] on the logical view of
    [VmTree].  [vm_inv] adds to it what copy-on-write relies on: the reference
    count of a user page is the number of user mappings of it, and a page that
    is mapped writable is mapped once. *)

From S2P Require Import Prelude Riscv Mem CString Kalloc Vm VmTree.

(** The PTE [mappages] stores. *)
Definition mk_pte (pa perm : Z) : Z := Z.lor (Z.lor (PA2PTE pa) perm) PTE_V.

(** ** Counting user mappings *)

(** The leaves of process memory: everything below the trapframe page. *)
Definition is_ref (p : Z) (kv : (Z * Z) * Z) : Prop :=
  kv.1.2 < TRAPFRAME ∧ PTE2PA kv.2 = p.
#[global] Instance is_ref_dec p kv : Decision (is_ref p kv).
Proof. unfold is_ref. apply _. Defined.

(** How many user leaves map page [p]. *)
Definition urefs (L : leaves) (p : Z) : Z := Z.of_nat (size (filter (is_ref p) L)).

Definition ref1 (p va pte : Z) : Z := if decide (is_ref p ((0, va), pte)) then 1 else 0.

Lemma ref1_range p va pte : 0 ≤ ref1 p va pte ≤ 1.
Proof. unfold ref1. case_decide; lia. Qed.

Lemma urefs_nonneg L p : 0 ≤ urefs L p.
Proof. unfold urefs. lia. Qed.

Lemma urefs_insert L r va pte p :
  L !! (r, va) = None → urefs (<[(r, va) := pte]> L) p = urefs L p + ref1 p va pte.
Proof.
  intros HL. unfold urefs, ref1. rewrite map_filter_insert.
  destruct (decide (is_ref p ((r, va), pte))) as [Hr|Hr];
    destruct (decide (is_ref p ((0, va), pte))) as [Hr'|Hr']; try done.
  - rewrite map_size_insert_None; [lia|]. rewrite map_lookup_filter_None. by left.
  - rewrite delete_id by done. lia.
Qed.

Lemma urefs_delete L r va pte p :
  L !! (r, va) = Some pte → urefs (delete (r, va) L) p = urefs L p - ref1 p va pte.
Proof.
  intros HL. rewrite <- (insert_delete_id L (r, va) pte) at 2 by done.
  rewrite urefs_insert by apply lookup_delete_eq. lia.
Qed.

Lemma urefs_update L r va pte pte' p :
  L !! (r, va) = Some pte →
  urefs (<[(r, va) := pte']> L) p = urefs L p - ref1 p va pte + ref1 p va pte'.
Proof.
  intros HL. rewrite <- insert_delete_eq, urefs_insert by apply lookup_delete_eq.
  by rewrite (urefs_delete _ _ _ pte).
Qed.

Lemma urefs_pos L r va pte :
  L !! (r, va) = Some pte → va < TRAPFRAME → 1 ≤ urefs L (PTE2PA pte).
Proof.
  intros HL Hva. pose proof (urefs_delete L r va pte (PTE2PA pte) HL) as Hd.
  pose proof (urefs_nonneg (delete (r, va) L) (PTE2PA pte)). revert Hd. unfold ref1.
  rewrite decide_True by done. lia.
Qed.

Lemma urefs_two L r va pte r' va' pte' :
  L !! (r, va) = Some pte → L !! (r', va') = Some pte' → (r, va) ≠ (r', va') →
  va < TRAPFRAME → va' < TRAPFRAME → PTE2PA pte = PTE2PA pte' → 2 ≤ urefs L (PTE2PA pte).
Proof.
  intros HL HL' Hne Hva Hva' HE.
  assert (delete (r, va) L !! (r', va') = Some pte') as Hd by by rewrite lookup_delete_ne.
  apply urefs_pos in Hd; [|done]. rewrite (urefs_delete _ _ _ pte), <- HE in Hd by done.
  revert Hd. unfold ref1. rewrite decide_True by done. lia.
Qed.

Lemma urefs_inv L p : 0 < urefs L p → ∃ r va pte, L !! (r, va) = Some pte ∧ va < TRAPFRAME ∧ PTE2PA pte = p.
Proof.
  unfold urefs. intros Hs. destruct (map_choose (filter (is_ref p) L)) as ([r va] & pte & [HL [??]]%map_lookup_filter_Some).
  { intros E. rewrite E, map_size_empty in Hs. lia. }
  by exists r, va, pte.
Qed.

(** ** PTE arithmetic *)

Lemma flags_lor f g : 0 ≤ f < 1024 → 0 ≤ g < 1024 → 0 ≤ Z.lor f g < 1024.
Proof. by apply (lor_bound 10). Qed.

Lemma mk_pte_assoc pa perm : mk_pte pa perm = Z.lor (PA2PTE pa) (Z.lor perm PTE_V).
Proof. unfold mk_pte. by rewrite Z.lor_assoc. Qed.

Lemma perm_V perm : 0 ≤ perm < 1024 → 0 ≤ Z.lor perm PTE_V < 1024.
Proof. intros. apply flags_lor; [done|]. vm_compute. split; congruence. Qed.

Lemma mk_pte_PA pa perm : pa_ok pa → 0 ≤ perm < 1024 → PTE2PA (mk_pte pa perm) = pa.
Proof. intros. rewrite mk_pte_assoc. apply PTE2PA_mk; [done|by apply perm_V]. Qed.

Lemma mk_pte_FLAGS pa perm :
  pa_ok pa → 0 ≤ perm < 1024 → PTE_FLAGS (mk_pte pa perm) = Z.lor perm PTE_V.
Proof. intros. rewrite mk_pte_assoc. apply PTE_FLAGS_mk; [done|by apply perm_V]. Qed.

Lemma band_lor x y m : band (Z.lor x y) m = band x m || band y m.
Proof.
  unfold band. rewrite Z.land_lor_distr_l.
  destruct (Z.eqb_spec (Z.lor (Z.land x m) (Z.land y m)) 0) as [E|E].
  - apply Z.lor_eq_0_iff in E as [-> ->]. done.
  - destruct (Z.eqb_spec (Z.land x m) 0) as [E1|]; [|done].
    destruct (Z.eqb_spec (Z.land y m) 0) as [E2|]; [|done]. by rewrite E1, E2 in E.
Qed.

Lemma band_FLAGS pte m : 0 ≤ m < 1024 → band pte m = band (PTE_FLAGS pte) m.
Proof.
  intros Hm. unfold band, PTE_FLAGS. rewrite <- Z.land_assoc.
  change 0x3FF with (Z.ones 10). by rewrite (Z.land_comm (Z.ones 10)), (Z.land_ones m), Z.mod_small by lia.
Qed.

Lemma mk_pte_band pa perm m :
  pa_ok pa → 0 ≤ perm < 1024 → 0 ≤ m < 1024 → band (mk_pte pa perm) m = band perm m || band PTE_V m.
Proof. intros. by rewrite band_FLAGS, mk_pte_FLAGS, band_lor by done. Qed.

Lemma mk_pte_ok pa perm : pa_ok pa → 0 ≤ perm < 1024 → leaf_ok (Some (mk_pte pa perm)).
Proof.
  intros Hpa Hperm pte [= <-]. split.
  - rewrite mk_pte_band by (done || vm_compute; split; congruence). by rewrite orb_true_r.
  - rewrite mk_pte_assoc. apply mk_pte_range; [done|by apply perm_V].
Qed.

Section ops.
Context `{KernelImage}.

(** ** mappages *)

(** [n] consecutive pages from [va] mapped to [pa] onwards. *)
Fixpoint map_range (n : nat) (r va pa perm : Z) (L : leaves) : leaves :=
  match n with
  | O => L
  | S n => map_range n r (va + PGSIZE) (pa + PGSIZE) perm (<[(r, va) := mk_pte pa perm]> L)
  end.

Lemma va_ok_next va n :
  va_ok va → va + Z.of_nat (S n) * PGSIZE ≤ MAXVA → (0 < n)%nat → va_ok (va + PGSIZE).
Proof.
  intros [Hva Ha] Hn Hpos. unfold PGSIZE in *. split; [lia|]. Z.div_mod_to_equations. lia.
Qed.

(** The stores [walk] and [mappages] make extend a [grow] step. *)
Lemma grow_store r s fl T s1 fl1 T1 new p s2 :
  grow r s fl T s1 fl1 T1 new → (∃ k, T1 !! k = Some p) → page_refcnt s2 = page_refcnt s1 →
  (∀ x, pg x ≠ p → mem s2 x = mem s1 x) → grow r s fl T s2 fl1 T1 new.
Proof.
  intros [Hf Hs Hn Hu Hr Hm] [k Hk] Hr2 Hm2. split; try done.
  - intros q Hq Hnew. rewrite Hr2. by apply Hr.
  - intros x Hx HT. rewrite Hm2; [by apply Hm|]. intros E. rewrite <- E in Hk.
    destruct (Hn _ _ Hk) as [?|(?&?&?&?)]; [naive_solver|done].
Qed.

Lemma map_one_inv s fl T L r va pa perm :
  pt_inv s fl T L → T !! (r, []) = Some r → va_ok va → pa_ok pa → 0 ≤ perm < 1024 →
  L !! (r, va) = None →
  ∃ a s1 fl1 T1 new, walk r va true s = Ok a s1 ∧ adds (on_path r va) T T1 ∧
   ((a = 0 ∧ pt_inv s1 [] T1 L ∧ grow r s fl T s1 [] T1 new ∧ fl1 = []) ∨
    (a ≠ 0 ∧ ld a s1 = Ok 0 s1 ∧ ∃ s2, st a (mk_pte pa perm) s1 = Ok tt s2 ∧
      pt_inv s2 fl1 T1 (<[(r, va) := mk_pte pa perm]> L) ∧ grow r s fl T s2 fl1 T1 new ∧
      is_Some (T1 !! (r, [PX 2 va; PX 1 va])))).
Proof.
  intros Hi HT Hva Hpa Hperm HL.
  destruct (walk_alloc s fl T L r va Hi HT (proj1 Hva)) as (a & s1 & fl1 & T1 & new & Hw & Hi1 & Hg & Ha & Hadd).
  exists a, s1, fl1, T1, new. split; [done|]. split; [done|].
  destruct (T1 !! (r, [PX 2 va; PX 1 va])) as [p|] eqn:E.
  - right. pose proof (pi_rep _ _ _ _ Hi1) as Hr1. pose proof (pr_ok _ _ _ Hr1 _ _ E) as Hp.
    pose proof (PX_idx 0 va ltac:(lia) (proj1 Hva)) as Hx. subst a.
    split; [by apply slot_ne_0; [|lia]|]. split.
    { rewrite ld_slot by done. by rewrite (pr_leaf _ _ _ Hr1 r va p), HL by done. }
    destruct (pt_leaf_store s1 fl1 T1 L r va p (Some (mk_pte pa perm)))
      as (s2 & Hs2 & Hi2 & Hf2 & Hr2 & Hm2); [done..|by apply mk_pte_ok|].
    exists s2. split_and!; [done|done|eapply grow_store; eauto|done].
  - destruct Ha as [-> ->]. left. done.
Qed.

Lemma mappages_loop_S fuel r a last pa perm :
  mappages_loop (S fuel) r a last pa perm =
    (pte ← walk r a true;
     if pte =? 0 then mret (-1)
     else
       v ← ld pte;
       if band v PTE_V then panic "mappages: remap"
       else
         st pte (mk_pte pa perm);;
         if a =? last then mret 0
         else mappages_loop fuel r (u64 (a + PGSIZE)) last (u64 (pa + PGSIZE)) perm).
Proof. done. Qed.

Lemma mappages_loop_spec n s fl T L r va pa perm :
  pt_inv s fl T L → T !! (r, []) = Some r → va_ok va → va + Z.of_nat (S n) * PGSIZE ≤ MAXVA →
  pa_ok pa → pa + Z.of_nat (S n) * PGSIZE ≤ 2 ^ 54 → 0 ≤ perm < 1024 →
  (∀ i, 0 ≤ i ≤ Z.of_nat n → L !! (r, va + i * PGSIZE) = None) →
  ∃ res s' fl' T' new k,
    mappages_loop (S n) r va (va + Z.of_nat n * PGSIZE) pa perm s = Ok res s' ∧
    pt_inv s' fl' T' (map_range k r va pa perm L) ∧ grow r s fl T s' fl' T' new ∧
    ((res = 0 ∧ k = S n) ∨ (res = -1 ∧ (k < S n)%nat ∧ fl' = [])) ∧
    adds (λ k, ∃ i, 0 ≤ i ≤ Z.of_nat n ∧ on_path r (va + i * PGSIZE) k) T T'.
Proof.
  revert s fl T L va pa. induction n as [|n IH]; intros s fl T L va pa Hi HT Hva Hn Hpa Hpn Hperm HL;
    remember (mappages_loop _ _ _ _ _ _ s) as W eqn:EW; rewrite mappages_loop_S in EW;
    (destruct (map_one_inv s fl T L r va pa perm) as (a & s1 & fl1 & T1 & new & Hw & Hadd & Hcase);
      [done..|by rewrite <- (Z.add_0_r va); apply (HL 0); lia|]);
    unfold mbind, M_bind in EW; rewrite Hw in EW;
    (destruct Hcase as [(-> & Hi1 & Hg & ->)|(Ha & Hld & s2 & Hst & Hi2 & Hg & _)];
     [exists (-1), s1, [], T1, new, O; split_and!; [done..|right; split_and!; [done|lia|done]|]|]);
    try (eapply adds_mono, Hadd; intros k Hk; exists 0; rewrite Z.add_0_r; split; [lia|done]);
    rewrite (proj2 (Z.eqb_neq a 0)), Hld in EW by done;
    change (band 0 PTE_V) with false in EW; cbv iota beta in EW;
    rewrite Hst in EW.
  - rewrite (proj2 (Z.eqb_eq va _)) in EW by lia.
    exists 0, s2, fl1, T1, new, 1%nat. split_and!; [done..|by left|].
    eapply adds_mono, Hadd. intros k Hk. exists 0. rewrite Z.add_0_r. split; [lia|done].
  - unfold PGSIZE in *. rewrite (proj2 (Z.eqb_neq va _)) in EW by lia.
    assert (MAXVA = 0x4000000000) as HM by done.
    rewrite !u64_small in EW by (destruct Hva, Hpa; lia).
    destruct (IH s2 fl1 T1 (<[(r, va) := mk_pte pa perm]> L) (va + 4096) (pa + 4096))
      as (res & s' & fl' & T' & new' & k & Hs' & Hi' & Hg' & Hres & Hadd'); try done.
    + eapply lookup_weaken; [done|apply Hg].
    + eapply va_ok_next; [done|unfold PGSIZE; done|lia].
    + lia.
    + destruct Hpa as [??]. split; [lia|]. Z.div_mod_to_equations. lia.
    + lia.
    + intros i Hi'. rewrite lookup_insert_ne by (intros [=]; lia).
      replace (va + 4096 + i * 4096) with (va + (i + 1) * 4096) by lia. apply HL. lia.
    + exists res, s', fl', T', (new ++ new'), (S k). split_and!; [|done|by eapply grow_trans|naive_solver lia|].
      * rewrite EW, <- Hs'. by replace (va + 4096 + Z.of_nat n * 4096) with (va + Z.of_nat (S n) * 4096) by lia.
      * eapply adds_mono; [|by eapply adds_trans]. intros k' [Hk'|(i & Hi2' & Hk')]; [exists 0; rewrite Z.add_0_r; split; [lia|done]|].
        exists (i + 1). split; [lia|]. by replace (va + (i + 1) * 4096) with (va + 4096 + i * 4096) by lia.
Qed.

Lemma mappages_spec s fl T L r va size pa perm :
  pt_inv s fl T L → T !! (r, []) = Some r → va_ok va → 0 < size → size mod PGSIZE = 0 →
  va + size ≤ MAXVA → pa_ok pa → pa + size ≤ 2 ^ 54 → 0 ≤ perm < 1024 →
  (∀ va', va ≤ va' < va + size → L !! (r, va') = None) →
  ∃ res s' fl' T' new k,
    mappages r va size pa perm s = Ok res s' ∧
    pt_inv s' fl' T' (map_range k r va pa perm L) ∧ grow r s fl T s' fl' T' new ∧
    ((res = 0 ∧ k = Z.to_nat (size / PGSIZE)) ∨
     (res = -1 ∧ (k < Z.to_nat (size / PGSIZE))%nat ∧ fl' = [])) ∧
    adds (λ k, ∃ i, 0 ≤ i < size / PGSIZE ∧ on_path r (va + i * PGSIZE) k) T T'.
Proof.
  intros Hi HT Hva Hsz Hsa Hmax Hpa Hpm Hperm HL. pose proof Hva as [Hva0 Ha].
  unfold mappages. unfold PGSIZE in *. rewrite Ha, Hsa. simpl.
  rewrite (proj2 (Z.eqb_neq size 0)) by lia.
  assert (MAXVA = 0x4000000000) as HM by done.
  assert (∃ n, size = Z.of_nat (S n) * 4096) as [n ->].
  { exists (Z.to_nat (size / 4096 - 1)). Z.div_mod_to_equations. lia. }
  rewrite u64_small by lia.
  rewrite Z.div_mul, Nat2Z.id by lia.
  replace (va + Z.of_nat (S n) * 4096 - 4096) with (va + Z.of_nat n * PGSIZE) by (unfold PGSIZE; lia).
  destruct (mappages_loop_spec n s fl T L r va pa perm) as (res & s' & fl' & T' & new & k & Hm & Hi' & Hg & Hres & Hadd);
    try done; unfold PGSIZE; try lia; [intros i Hi'; apply HL; lia|].
  exists res, s', fl', T', new, k. split_and!; [done..|]. eapply adds_mono, Hadd. intros k' (i & Hi2 & Hk'). exists i. split; [lia|done].
Qed.

(** New pages are new tables. *)
Lemma grow_size r s fl T L s' fl' T' new : pt_inv s fl T L → grow r s fl T s' fl' T' new → (size T + length new ≤ size T')%nat.
Proof.
  intros Hi [Hf Hsub Hn Hu _ _]. pose proof (ki_nodup _ _ _ (pi_alloc _ _ _ _ Hi)) as Hnd. rewrite Hf in Hnd. apply list.NoDup_app in Hnd as (Hnd & _ & _).
  assert (∃ ks, Forall2 (λ p k, T' !! k = Some p) new ks) as [ks Hks].
  { clear Hf Hnd Hn. induction new as [|p new IH]; [by exists []|]. destruct (Hu p) as [k Hk]; [by left|].
    destruct IH as [ks Hks]; [intros q Hq; apply Hu; by right|]. exists (k :: ks). by constructor. }
  assert (NoDup ks) as Hndk.
  { clear Hf Hn Hu. induction Hks as [|p k new ks Hk Hks IH]; [constructor|]. apply list.NoDup_cons in Hnd as [Hp Hnd]. constructor; [|auto].
    intros Hin. apply list_elem_of_lookup in Hin as [i Hi2]. destruct (Forall2_lookup_r _ _ _ _ _ Hks Hi2) as (p' & Hp' & E). apply Hp.
    rewrite Hk in E. simplify_eq. by eapply list_elem_of_lookup_2. }
  assert (dom T ## list_to_set ks) as Hdj.
  { intros k Hk Hin. apply elem_of_dom in Hk as [p0 Hp0]. apply elem_of_list_to_set, list_elem_of_lookup in Hin as [i Hi2].
    destruct (Forall2_lookup_r _ _ _ _ _ Hks Hi2) as (p & Hp & E). pose proof (lookup_weaken _ _ _ _ Hp0 Hsub) as E0. rewrite E in E0. injection E0 as ->.
    apply (pi_not_free _ _ _ _ _ _ Hi Hp0). rewrite Hf. apply elem_of_app. left. by eapply list_elem_of_lookup_2. }
  rewrite (Forall2_length Hks), <- !size_dom, <- (size_list_to_set (C := gset (Z * list Z)) ks) by done.
  rewrite <- size_union by done. apply subseteq_size. intros k [Hk|Hk]%elem_of_union.
  - apply elem_of_dom in Hk as [p Hp]. apply elem_of_dom. exists p. by eapply lookup_weaken.
  - apply elem_of_list_to_set, list_elem_of_lookup in Hk as [i Hi2]. destruct (Forall2_lookup_r _ _ _ _ _ Hks Hi2) as (p & _ & E). by apply elem_of_dom.
Qed.

Lemma size_list_le (l : list (Z * list Z)) : (size (list_to_set l : gset (Z * list Z)) ≤ length l)%nat.
Proof.
  induction l as [|x l IH]; [done|]. cbn [list_to_set length]. rewrite size_union_alt, size_singleton.
  assert (size ((list_to_set l : gset (Z * list Z)) ∖ {[x]}) ≤ size (list_to_set l : gset (Z * list Z)))%nat by (apply subseteq_size; set_solver). lia.
Qed.
(** A page needs at most two new tables. *)
Lemma grow_page r s fl T L s' fl' T' new va : pt_inv s fl T L → grow r s fl T s' fl' T' new → adds (on_path r va) T T' → (length new ≤ 2)%nat.
Proof.
  intros Hi Hg Ha. pose proof (grow_size _ _ _ _ _ _ _ _ _ Hi Hg) as Hs. rewrite <- !size_dom in Hs.
  assert (dom T' ⊆ dom T ∪ list_to_set [(r, [PX 2 va]); (r, [PX 2 va; PX 1 va])]) as Hsub.
  { intros k [Hk|Hk]%elem_of_dom%Ha; [by apply elem_of_union_l, elem_of_dom|]. apply elem_of_union_r. destruct Hk as [-> | ->]; set_solver. }
  apply subseteq_size in Hsub. pose proof (size_list_le [(r, [PX 2 va]); (r, [PX 2 va; PX 1 va])]) as Hl. cbn [length] in Hl.
  rewrite size_union_alt in Hsub. match type of Hsub with (_ ≤ _ + size (?X ∖ ?Y))%nat => assert (size (X ∖ Y) ≤ size X)%nat by (apply subseteq_size; set_solver) end. lia.
Qed.

(** One page: on success the leaf is there, otherwise memory ran out and
    only tables were added. *)
Lemma mappages_page s fl T L r va pa perm :
  pt_inv s fl T L → T !! (r, []) = Some r → va_ok va → pa_ok pa → 0 ≤ perm < 1024 →
  L !! (r, va) = None →
  ∃ res s' fl' T' new, mappages r va PGSIZE pa perm s = Ok res s' ∧ grow r s fl T s' fl' T' new ∧ (length new ≤ 2)%nat ∧
    ((res = 0 ∧ pt_inv s' fl' T' (<[(r, va) := mk_pte pa perm]> L)) ∨
     (res = -1 ∧ pt_inv s' fl' T' L ∧ fl' = [])).
Proof.
  intros Hi HT Hva Hpa Hperm HL. destruct Hva as [Hva0 Ha]. assert (MAXVA = 0x4000000000) as HM by done.
  destruct (mappages_spec s fl T L r va PGSIZE pa perm) as (res & s' & fl' & T' & new & k & Hm & Hi' & Hg & Hres & Hadd);
    unfold PGSIZE in *; try done; try lia.
  - Z.div_mod_to_equations. lia.
  - destruct Hpa as [??]. Z.div_mod_to_equations. lia.
  - intros va' Hva'. destruct (decide (va' = va)) as [->|]; [done|].
    destruct (L !! (r, va')) eqn:E; [|done].
    destruct (pr_dom _ _ _ (pi_rep _ _ _ _ Hi) _ _ _ E) as ([_ ?]&_). Z.div_mod_to_equations. lia.
  - exists res, s', fl', T', new. split_and!; [done..| |].
    + eapply (grow_page r s fl T L s' fl' T' new va); [done..|]. eapply adds_mono, Hadd. intros k0 (i & Hi2 & Hk0). change (4096 / 4096) with 1 in Hi2.
      assert (i = 0) as -> by lia. by rewrite Z.mul_0_l, Z.add_0_r in Hk0.
    + change (Z.to_nat (4096 / 4096)) with 1%nat in Hres.
      destruct Hres as [[-> ->]|(-> & ? & ->)]; [by left|]. right.
      destruct k; [done|lia].
Qed.

Lemma mappages_one s fl T L r va pa perm :
  pt_inv s fl T L → T !! (r, []) = Some r → va_ok va → pa_ok pa → 0 ≤ perm < 1024 →
  L !! (r, va) = None →
  ∃ res s' fl' T' new, mappages r va PGSIZE pa perm s = Ok res s' ∧ grow r s fl T s' fl' T' new ∧
    ((res = 0 ∧ pt_inv s' fl' T' (<[(r, va) := mk_pte pa perm]> L)) ∨
     (res = -1 ∧ pt_inv s' fl' T' L ∧ fl' = [])).
Proof.
  intros Hi HT Hva Hpa Hperm HL. destruct (mappages_page s fl T L r va pa perm) as (res & s' & fl' & T' & new & Hm & Hg & _ & Hres); [done..|].
  by exists res, s', fl', T', new.
Qed.

(** When the tables for [va] exist, [mappages] cannot fail and allocates nothing. *)
Lemma mappages_hit s fl T L r va p pa perm :
  pt_inv s fl T L → va_ok va → T !! (r, [PX 2 va; PX 1 va]) = Some p → pa_ok pa → 0 ≤ perm < 1024 →
  L !! (r, va) = None →
  ∃ s', mappages r va PGSIZE pa perm s = Ok 0 s' ∧ pt_inv s' fl T (<[(r, va) := mk_pte pa perm]> L) ∧
    freelist s' = freelist s ∧ page_refcnt s' = page_refcnt s ∧
    (∀ x, pg x ≠ p → mem s' x = mem s x).
Proof.
  intros Hi Hva HT Hpa Hperm HL. pose proof (pi_rep _ _ _ _ Hi) as Hr.
  pose proof (pr_ok _ _ _ Hr _ _ HT) as Hp. pose proof (PX_idx 0 va ltac:(lia) (proj1 Hva)) as Hx.
  destruct (pt_leaf_store s fl T L r va p (Some (mk_pte pa perm))) as (s' & Hs & Hrest);
    [done..|by apply mk_pte_ok|]. exists s'. split; [|done].
  unfold mappages. destruct Hva as [Hva0 Ha]. unfold PGSIZE at 1. rewrite Ha.
  change (PGSIZE mod PGSIZE) with 0. change (PGSIZE =? 0) with false.
  change (Z.to_nat (PGSIZE / PGSIZE)) with 1%nat. cbn [negb Z.eqb]. rewrite mappages_loop_S.
  unfold mbind, M_bind. rewrite (walk_hit true _ _ _ _ _ _ _ Hi Hva0 HT).
  rewrite (proj2 (Z.eqb_neq _ 0)) by (apply slot_ne_0; [done|lia]).
  rewrite ld_slot, (pr_leaf _ _ _ Hr r va p), HL by done.
  change (band (default 0 None) PTE_V) with false. cbv iota beta. simpl in Hs. rewrite Hs.
  assert (MAXVA = 0x4000000000) as HM by done. unfold PGSIZE. rewrite u64_small by lia.
  by rewrite (proj2 (Z.eqb_eq va _)) by lia.
Qed.

(** ** User mappings and reference counts *)

(** [rc] counts the user mappings of every mapped page, a writable page is
    mapped once, and the trapframe and trampoline are not accessible to users. *)
Record leaf_inv (rc : Z → Z) (T : tables) (L : leaves) : Prop := {
  li_ok : ∀ r va pte, L !! (r, va) = Some pte → va < TRAPFRAME →
    page_ok (PTE2PA pte) ∧ (∀ k, T !! k ≠ Some (PTE2PA pte)) ∧ PTE_FLAGS pte ≠ PTE_V;
  li_ref : ∀ r va pte, L !! (r, va) = Some pte → va < TRAPFRAME →
    rc (PTE2PA pte / PGSIZE) = urefs L (PTE2PA pte);
  li_excl : ∀ r va pte, L !! (r, va) = Some pte → va < TRAPFRAME →
    band pte PTE_W = true → urefs L (PTE2PA pte) = 1;
  li_high : ∀ r va pte, L !! (r, va) = Some pte → TRAPFRAME ≤ va → band pte PTE_U = false;
}.

Record vm_inv (s : kst) (fl : list Z) (T : tables) (L : leaves) : Prop := {
  vi_pt : pt_inv s fl T L;
  vi_leaf : leaf_inv (page_refcnt s) T L;
}.

Lemma leaf_inv_mono rc rc' T T' L :
  leaf_inv rc T L →
  (∀ r va pte, L !! (r, va) = Some pte → va < TRAPFRAME →
     rc' (PTE2PA pte / PGSIZE) = rc (PTE2PA pte / PGSIZE) ∧ ∀ k, T' !! k ≠ Some (PTE2PA pte)) →
  leaf_inv rc' T' L.
Proof.
  intros [Hok Href Hex Hhi] Hm. split; try done.
  - intros r va pte HL Hva. destruct (Hok r va pte HL Hva) as (?&_&?), (Hm r va pte HL Hva). done.
  - intros r va pte HL Hva. rewrite (proj1 (Hm r va pte HL Hva)). eauto.
Qed.

Lemma leaf_used s fl T L r va pte :
  vm_inv s fl T L → L !! (r, va) = Some pte → va < TRAPFRAME →
  page_ok (PTE2PA pte) ∧ (∀ k, T !! k ≠ Some (PTE2PA pte)) ∧
  1 ≤ page_refcnt s (PTE2PA pte / PGSIZE) ∧ PTE2PA pte ∉ fl.
Proof.
  intros [Hp Hl] HL Hva. destruct (li_ok _ _ _ Hl _ _ _ HL Hva) as (Hok & Hnt & _).
  pose proof (urefs_pos _ _ _ _ HL Hva) as Hpos. rewrite <- (li_ref _ _ _ Hl _ _ _ HL Hva) in Hpos.
  split_and!; try done. rewrite (ki_zero _ _ _ (pi_alloc _ _ _ _ Hp)) by (done || apply Hok). lia.
Qed.

Lemma leaf_inv_grow r s fl T L s' fl' T' new :
  vm_inv s fl T L → grow r s fl T s' fl' T' new → leaf_inv (page_refcnt s') T' L.
Proof.
  intros Hv Hg. eapply leaf_inv_mono; [apply Hv|].
  intros r' va pte HL Hva. destruct (leaf_used _ _ _ _ _ _ _ Hv HL Hva) as (Hok & Hnt & _ & Hnf).
  rewrite (gr_fl _ _ _ _ _ _ _ _ Hg), elem_of_app in Hnf.
  split; [eapply gr_ref; [done|done|tauto]|]. intros k Hk.
  destruct (gr_new _ _ _ _ _ _ _ _ Hg _ _ Hk) as [?|(?&?&?&?)]; [by eapply Hnt|tauto].
Qed.

Lemma vm_inv_grow r s fl T L s' fl' T' new :
  vm_inv s fl T L → pt_inv s' fl' T' L → grow r s fl T s' fl' T' new → vm_inv s' fl' T' L.
Proof. intros Hv Hi' Hg. split; [done|]. by eapply leaf_inv_grow. Qed.

Lemma leaf_inv_insert rc rc' T L r va pte :
  leaf_inv rc T L → L !! (r, va) = None → va < TRAPFRAME →
  page_ok (PTE2PA pte) → (∀ k, T !! k ≠ Some (PTE2PA pte)) → PTE_FLAGS pte ≠ PTE_V →
  rc' (PTE2PA pte / PGSIZE) = urefs L (PTE2PA pte) + 1 →
  (∀ q, page_ok q → q ≠ PTE2PA pte → rc' (q / PGSIZE) = rc (q / PGSIZE)) →
  (0 < urefs L (PTE2PA pte) → band pte PTE_W = false ∧
     ∀ r' va' pte', L !! (r', va') = Some pte' → va' < TRAPFRAME → PTE2PA pte' = PTE2PA pte →
       band pte' PTE_W = false) →
  leaf_inv rc' T (<[(r, va) := pte]> L).
Proof.
  intros [Hok Href Hex Hhi] Hnone Hva Hpok HnT Hfl Hrc Hoth Hshare.
  pose proof (urefs_nonneg L (PTE2PA pte)) as Hnn.
  assert (∀ q, urefs (<[(r, va):=pte]> L) q = if decide (q = PTE2PA pte) then urefs L q + 1 else urefs L q) as Hur.
  { intros q. rewrite urefs_insert by done. unfold ref1. destruct (decide (q = PTE2PA pte)) as [->|Hne].
    - by rewrite decide_True.
    - rewrite decide_False; [lia|]. intros [_ ?]; simpl in *; congruence. }
  split; intros r' va' pte'; rewrite lookup_insert; case_decide as E.
  - intros [= <-] _. done.
  - by apply Hok.
  - intros [= <-] _. rewrite Hur, decide_True by done. lia.
  - intros HL Hva'. destruct (Hok _ _ _ HL Hva') as (?&_&_). rewrite Hur.
    case_decide as E'; [by rewrite E'; lia|]. rewrite Hoth by done. eauto.
  - intros [= <-] _ HW. rewrite Hur, decide_True by done.
    destruct (decide (0 < urefs L (PTE2PA pte))) as [Hs|]; [|lia]. destruct (Hshare Hs); congruence.
  - intros HL Hva' HW. rewrite Hur. case_decide as E'; [|by eauto].
    pose proof (urefs_pos _ _ _ _ HL Hva'). rewrite E' in *.
    destruct Hshare as [_ Hs]; [lia|]. by rewrite (Hs _ _ _ HL Hva' E') in HW.
  - simplify_eq. lia.
  - by apply Hhi.
Qed.

Lemma leaf_inv_insert_high rc T L r va pte :
  leaf_inv rc T L → L !! (r, va) = None → TRAPFRAME ≤ va → band pte PTE_U = false →
  leaf_inv rc T (<[(r, va) := pte]> L).
Proof.
  intros [Hok Href Hex Hhi] Hnone Hva HU.
  assert (∀ q, urefs (<[(r, va):=pte]> L) q = urefs L q) as Hur.
  { intros q. rewrite urefs_insert by done. unfold ref1. rewrite decide_False; [lia|]. intros [? _]; simpl in *; lia. }
  split; intros r' va' pte'; rewrite lookup_insert; case_decide as E;
    try (simplify_eq; intros; lia); try rewrite Hur; eauto. by intros [= <-].
Qed.

Lemma leaf_inv_delete rc rc' T L r va pte :
  leaf_inv rc T L → L !! (r, va) = Some pte → va < TRAPFRAME →
  rc' (PTE2PA pte / PGSIZE) = rc (PTE2PA pte / PGSIZE) - 1 →
  (∀ q, page_ok q → q ≠ PTE2PA pte → rc' (q / PGSIZE) = rc (q / PGSIZE)) →
  leaf_inv rc' T (delete (r, va) L).
Proof.
  intros [Hok Href Hex Hhi] HL Hva Hrc Hoth.
  assert (∀ q, urefs (delete (r, va) L) q = if decide (q = PTE2PA pte) then urefs L q - 1 else urefs L q) as Hur.
  { intros q. rewrite (urefs_delete _ _ _ pte) by done. unfold ref1. destruct (decide (q = PTE2PA pte)) as [->|Hne].
    - by rewrite decide_True.
    - rewrite decide_False; [lia|]. intros [_ ?]; simpl in *; congruence. }
  split; intros r' va' pte' [Hne HL']%lookup_delete_Some Hva'.
  - by apply (Hok r' va').
  - destruct (Hok _ _ _ HL' Hva') as (?&_&_). rewrite Hur. case_decide as E'.
    + rewrite E', Hrc, <- E'. by rewrite (Href _ _ _ HL' Hva').
    + rewrite Hoth by done. eauto.
  - intros HW. rewrite Hur. case_decide as E'; [|by eauto]. exfalso.
    pose proof (urefs_two _ _ _ _ _ _ _ HL' HL (not_eq_sym Hne) Hva' Hva E').
    rewrite (Hex _ _ _ HL' Hva' HW) in *. lia.
  - by apply (Hhi r' va').
Qed.

(** Changing the flags of a leaf without making it writable. *)
Lemma leaf_inv_update rc T L r va pte pte' :
  leaf_inv rc T L → L !! (r, va) = Some pte → va < TRAPFRAME → PTE2PA pte' = PTE2PA pte → PTE_FLAGS pte' ≠ PTE_V →
  (band pte' PTE_W = true → band pte PTE_W = true) → leaf_inv rc T (<[(r, va) := pte']> L).
Proof.
  intros [Hok Href Hex Hhi] HL Hva0 HE Hfl HW.
  assert (∀ q, urefs (<[(r, va):=pte']> L) q = urefs L q) as Hur.
  { intros q. rewrite (urefs_update _ _ _ pte) by done. unfold ref1.
    assert (is_ref q (0, va, pte') ↔ is_ref q (0, va, pte)) as Hiff by (unfold is_ref; simpl; by rewrite HE).
    rewrite (decide_ext _ _ _ _ Hiff). lia. }
  split; intros r' va' pte''; rewrite lookup_insert; case_decide as E; try rewrite Hur; try by eauto.
  - intros [= <-] Hva. simplify_eq. rewrite HE. destruct (Hok _ _ _ HL Hva) as (?&?&?). done.
  - intros [= <-] Hva. simplify_eq. rewrite HE. eauto.
  - intros [= <-] Hva HW'. simplify_eq. rewrite HE. eauto.
  - simplify_eq. lia.
Qed.

(** ** uvmunmap *)

(** Freeing a page that is no table. *)
Lemma kfree_pt s fl T L p :
  pt_inv s fl T L → page_ok p → (∀ k, T !! k ≠ Some p) → 1 ≤ page_refcnt s (p / PGSIZE) →
  ∃ s', kfree p s = Ok tt s' ∧
    pt_inv s' (if page_refcnt s (p / PGSIZE) =? 1 then p :: fl else fl) T L ∧
    (∀ x, page_refcnt s (p / PGSIZE) ≠ 1 ∨ pg x ≠ p → mem s' x = mem s x) ∧
    (∀ i, page_refcnt s' i = if i =? p / PGSIZE then page_refcnt s i - 1 else page_refcnt s i).
Proof.
  intros [Ha Hr Hc] Hp HT Hc1. pose proof (page_ok_range _ Hp) as (?&?&?).
  destruct (kfree_inv s fl p Ha Hp Hc1) as (s' & fl' & Hk & Ha' & -> & Hm & Hrc).
  assert (∀ x, page_refcnt s (p / PGSIZE) ≠ 1 ∨ pg x ≠ p → mem s' x = mem s x) as Hm'.
  { intros x [?|Hx]; apply Hm; [by left|right]. unfold PGSIZE. intros ?. by apply Hx, pg_eq. }
  exists s'. split_and!; try done. split; [done|..].
  - eapply pt_rep_frame; [done|]. intros x k Hk'. apply Hm'. right. intros <-. by eapply HT.
  - intros k q Hq. rewrite Hrc. case_z; [|by eauto].
    assert (q = p) as -> by (apply page_index_inj; [by eapply pr_ok|done..]). by destruct (HT k).
Qed.

(** The leaves without those of [r] in [lo, hi). *)
Definition in_span (r lo hi : Z) (kv : (Z * Z) * Z) : Prop := kv.1.1 = r ∧ lo ≤ kv.1.2 < hi.
#[global] Instance in_span_dec r lo hi kv : Decision (in_span r lo hi kv).
Proof. unfold in_span. apply _. Defined.

Definition unmap_range (r lo hi : Z) (L : leaves) : leaves := filter (λ kv, ¬ in_span r lo hi kv) L.

Lemma lookup_unmap_range r lo hi L r' va pte :
  unmap_range r lo hi L !! (r', va) = Some pte ↔
    L !! (r', va) = Some pte ∧ ¬ (r' = r ∧ lo ≤ va < hi).
Proof. unfold unmap_range. by rewrite map_lookup_filter_Some. Qed.

Lemma lookup_unmap_range_eq r lo hi L r' va :
  unmap_range r lo hi L !! (r', va) = if decide (r' = r ∧ lo ≤ va < hi) then None else L !! (r', va).
Proof.
  apply option_eq. intros pte. rewrite lookup_unmap_range. case_decide; naive_solver.
Qed.

Lemma unmap_range_nil r lo hi L : hi ≤ lo → unmap_range r lo hi L = L.
Proof. intros. apply map_filter_id. intros [? ?] ? _ [_ ?]. simpl in *. lia. Qed.

Lemma unmap_range_delete r lo hi L :
  (∀ r' va pte, L !! (r', va) = Some pte → va mod 4096 = 0) → lo mod 4096 = 0 → lo + 4096 ≤ hi →
  unmap_range r (lo + 4096) hi (delete (r, lo) L) = unmap_range r lo hi L.
Proof.
  intros Hal Hlo Hhi. apply map_eq. intros [r' va]. apply option_eq. intros pte.
  rewrite !lookup_unmap_range, lookup_delete_Some. split.
  - intros [[Hne HL] Hn]. split; [done|]. intros [-> ?]. apply Hn. split; [done|].
    assert (va ≠ lo) by congruence. specialize (Hal _ _ _ HL). Z.div_mod_to_equations. lia.
  - intros [HL Hn]. split; [split; [|done]|].
    + intros [= -> ->]. apply Hn. lia.
    + intros [-> ?]. apply Hn. lia.
Qed.

(** [p] is the target of a leaf of [r] in [lo, hi). *)
Definition targets (L : leaves) (r lo hi p : Z) : Prop :=
  ∃ va pte, lo ≤ va < hi ∧ L !! (r, va) = Some pte ∧ PTE2PA pte = p.

(** What unmapping and freeing the pages of a range does to everything else. *)
Record shrink (P : Z → Prop) (s : kst) (fl : list Z) (T : tables) (s' : kst) (freed : list Z) : Prop := {
  sh_freed : ∀ p, p ∈ freed → P p;
  sh_ref : ∀ q, page_ok q → ¬ P q → page_refcnt s' (q / PGSIZE) = page_refcnt s (q / PGSIZE);
  sh_mem : ∀ x, pg x ∉ freed → (∀ k, T !! k ≠ Some (pg x)) → mem s' x = mem s x;
}.

(** Every reference count moved by as much as the number of user mappings. *)
Definition balanced (s : kst) (L : leaves) (s' : kst) (L' : leaves) : Prop :=
  ∀ p, page_ok p → page_refcnt s' (p / PGSIZE) - page_refcnt s (p / PGSIZE) = urefs L' p - urefs L p.

Lemma balanced_delete s s' L r va pte :
  L !! (r, va) = Some pte → va < TRAPFRAME →
  page_refcnt s' (PTE2PA pte / PGSIZE) = page_refcnt s (PTE2PA pte / PGSIZE) - 1 →
  (∀ q, page_ok q → q ≠ PTE2PA pte → page_refcnt s' (q / PGSIZE) = page_refcnt s (q / PGSIZE)) →
  balanced s L s' (delete (r, va) L).
Proof.
  intros HL Hva Hself Hoth p Hp. rewrite (urefs_delete _ _ _ pte) by done. unfold ref1.
  destruct (decide (p = PTE2PA pte)) as [->|Hne].
  - rewrite decide_True by done. lia.
  - rewrite decide_False by (intros [_ ?]; simpl in *; congruence). rewrite Hoth by done. lia.
Qed.

Lemma leaf_aligned s fl T L : pt_inv s fl T L → ∀ r va pte, L !! (r, va) = Some pte → va mod 4096 = 0.
Proof. intros Hi r va pte HL. by destruct (pr_dom _ _ _ (pi_rep _ _ _ _ Hi) _ _ _ HL) as ([_ ?] & _). Qed.

Lemma uvmunmap_loop_S n r a do_free :
  uvmunmap_loop (S n) r a do_free =
    (pte ← walk r a false;
     if pte =? 0 then panic "uvmunmap: walk"
     else
       v ← ld pte;
       if negb (band v PTE_V) then panic "uvmunmap: not mapped"
       else if PTE_FLAGS v =? PTE_V then panic "uvmunmap: not a leaf"
       else
         (if do_free then kfree (PTE2PA v) else mret ());;
         st pte 0;;
         uvmunmap_loop n r (a + PGSIZE) do_free).
Proof. done. Qed.

(** The head of an iteration: the walk finds the leaf. *)
Lemma unmap_walk s fl T L r va pte :
  pt_inv s fl T L → L !! (r, va) = Some pte →
  ∃ p, T !! (r, [PX 2 va; PX 1 va]) = Some p ∧ walk r va false s = Ok (p + 8 * PX 0 va) s ∧
    (p + 8 * PX 0 va =? 0) = false ∧ ld (p + 8 * PX 0 va) s = Ok pte s ∧
    va_ok va ∧ band pte PTE_V = true.
Proof.
  intros Hi HL. pose proof (pi_rep _ _ _ _ Hi) as Hr.
  destruct (pr_dom _ _ _ Hr _ _ _ HL) as (Hva & [p HT] & HV & _).
  pose proof (pr_ok _ _ _ Hr _ _ HT) as Hp. pose proof (PX_idx 0 va ltac:(lia) (proj1 Hva)) as Hx.
  exists p. split_and!; try done.
  - eapply walk_hit; try done. apply Hva.
  - apply Z.eqb_neq, slot_ne_0; [done|lia].
  - rewrite ld_slot by done. by rewrite (pr_leaf _ _ _ Hr r va p), HL by done.
Qed.

Lemma unmap_one s fl T L r va pte :
  vm_inv s fl T L → L !! (r, va) = Some pte → va < TRAPFRAME →
  ∃ s' freed, (∀ n, uvmunmap_loop (S n) r va true s = uvmunmap_loop n r (va + PGSIZE) true s') ∧
    vm_inv s' (freed ++ fl) T (delete (r, va) L) ∧ shrink (eq (PTE2PA pte)) s fl T s' freed ∧
    balanced s L s' (delete (r, va) L).
Proof.
  intros Hv HL Hva. pose proof Hv as [Hi Hl].
  destruct (leaf_used _ _ _ _ _ _ _ Hv HL Hva) as (Hpok & HnT & Hc1 & _).
  destruct (li_ok _ _ _ Hl _ _ _ HL Hva) as (_ & _ & Hfl).
  destruct (unmap_walk _ _ _ _ _ _ _ Hi HL) as (p & HT & Hw & Hnz & Hld & Hvao & HV).
  destruct (kfree_pt s fl T L (PTE2PA pte)) as (s1 & Hk & Hi1 & Hm1 & Hrc1); [done..|].
  destruct (pt_leaf_store s1 (if page_refcnt s (PTE2PA pte / PGSIZE) =? 1 then PTE2PA pte :: fl else fl)
    T L r va p None) as (s2 & Hst & Hi2 & Hf2 & Hrc2 & Hm2); [done..|].
  exists s2, (if page_refcnt s (PTE2PA pte / PGSIZE) =? 1 then [PTE2PA pte] else []).
  assert (∀ q, page_ok q → q ≠ PTE2PA pte → page_refcnt s2 (q / PGSIZE) = page_refcnt s (q / PGSIZE)) as Hoth.
  { intros q Hq Hne. rewrite Hrc2, Hrc1. case_z; [|done]. by apply page_index_inj in e. }
  assert (page_refcnt s2 (PTE2PA pte / PGSIZE) = page_refcnt s (PTE2PA pte / PGSIZE) - 1) as Hself.
  { by rewrite Hrc2, Hrc1, Z.eqb_refl. }
  split; [|split; [|split; [|by eapply balanced_delete]]].
  - intros n. rewrite uvmunmap_loop_S. unfold mbind, M_bind. rewrite Hw, Hnz, Hld, HV. cbn [negb].
    rewrite (proj2 (Z.eqb_neq _ _)) by done. rewrite Hk. simpl default in Hst. by rewrite Hst.
  - split; [by case_match|]. eapply leaf_inv_delete; eauto.
  - split.
    + intros q. case_match; [by intros ->%list_elem_of_singleton|by intros ?%elem_of_nil].
    + intros q Hq Hne. apply Hoth; [done|congruence].
    + intros x Hx HxT. rewrite Hm2 by (intros <-; by eapply HxT). apply Hm1.
      destruct (Z.eqb_spec (page_refcnt s (PTE2PA pte / PGSIZE)) 1); [right|by left].
      intros E. apply Hx. rewrite E. by left.
Qed.

Lemma shrink_trans (P P1 P2 : Z → Prop) s fl T s1 f1 s2 f2 :
  shrink P1 s fl T s1 f1 → shrink P2 s1 (f1 ++ fl) T s2 f2 →
  (∀ p, P1 p → P p) → (∀ p, P2 p → P p) → shrink P s fl T s2 (f2 ++ f1).
Proof.
  intros [Hf1 Hr1 Hm1] [Hf2 Hr2 Hm2] HP1 HP2. split.
  - intros p [?|?]%elem_of_app; auto.
  - intros q Hq HP. rewrite Hr2, Hr1; auto.
  - intros x Hx HT. rewrite elem_of_app in Hx. rewrite Hm2, Hm1; tauto.
Qed.

Lemma uvmunmap_loop_spec n s fl T L r va :
  vm_inv s fl T L → va mod 4096 = 0 → va + Z.of_nat n * PGSIZE ≤ TRAPFRAME →
  (∀ i, 0 ≤ i < Z.of_nat n → is_Some (L !! (r, va + i * PGSIZE))) →
  ∃ s' freed, uvmunmap_loop n r va true s = Ok tt s' ∧
    vm_inv s' (freed ++ fl) T (unmap_range r va (va + Z.of_nat n * PGSIZE) L) ∧
    shrink (targets L r va (va + Z.of_nat n * PGSIZE)) s fl T s' freed ∧
    balanced s L s' (unmap_range r va (va + Z.of_nat n * PGSIZE) L).
Proof.
  revert s fl L va. induction n as [|n IH]; intros s fl L va Hv Ha Hn Hmap.
  { exists s, []. split; [done|]. rewrite unmap_range_nil by lia. split; [done|].
    split; [split; [by intros ? ?%elem_of_nil|done|done]|]. intros p _. lia. }
  unfold PGSIZE in *. destruct (Hmap 0 ltac:(lia)) as [pte HL]. rewrite Z.mul_0_l, Z.add_0_r in HL.
  destruct (unmap_one s fl T L r va pte) as (s1 & f1 & Hs1 & Hv1 & Hsh1 & Hb1); [done|done|lia|].
  rewrite Hs1. destruct (IH s1 (f1 ++ fl) (delete (r, va) L) (va + 4096)) as (s' & f2 & Hs' & Hv' & Hsh' & Hb').
  - done.
  - Z.div_mod_to_equations. lia.
  - lia.
  - intros i Hi. rewrite lookup_delete_ne by (intros [=]; lia).
    replace (va + 4096 + i * 4096) with (va + (i + 1) * 4096) by lia. apply Hmap. lia.
  - replace (va + 4096 + Z.of_nat n * 4096) with (va + Z.of_nat (S n) * 4096) in * by lia.
    exists s', (f2 ++ f1). split; [done|]. rewrite <- app_assoc.
    rewrite <- (unmap_range_delete r va); [|apply (leaf_aligned _ _ _ _ (vi_pt _ _ _ _ Hv))|done|lia].
    split; [done|]. split.
    + eapply shrink_trans; [done|done|..].
      * intros p <-. exists va, pte. split_and!; [lia|lia|done|done].
      * intros p (va' & pte' & ? & [_ ?]%lookup_delete_Some & ?). exists va', pte'. split_and!; [lia|lia|done|done].
    + intros p Hp. specialize (Hb1 p Hp). specialize (Hb' p Hp). lia.
Qed.

Lemma uvmunmap_spec s fl T L r va npages :
  vm_inv s fl T L → va mod 4096 = 0 → 0 ≤ npages → va + npages * PGSIZE ≤ TRAPFRAME →
  (∀ i, 0 ≤ i < npages → is_Some (L !! (r, va + i * PGSIZE))) →
  ∃ s' freed, uvmunmap r va npages true s = Ok tt s' ∧
    vm_inv s' (freed ++ fl) T (unmap_range r va (va + npages * PGSIZE) L) ∧
    shrink (targets L r va (va + npages * PGSIZE)) s fl T s' freed ∧
    balanced s L s' (unmap_range r va (va + npages * PGSIZE) L).
Proof.
  intros Hv Ha Hn Hmax Hmap. unfold uvmunmap, PGSIZE at 1. rewrite Ha. simpl.
  replace (npages * PGSIZE) with (Z.of_nat (Z.to_nat npages) * PGSIZE) by (rewrite Z2Nat.id by done; done).
  apply uvmunmap_loop_spec; [done|done|by rewrite Z2Nat.id|by rewrite Z2Nat.id].
Qed.

(** ** uvmdealloc *)

(** Every page of [r] in [lo, hi) is mapped. *)
Definition mapped_range (L : leaves) (r lo hi : Z) : Prop :=
  ∀ va, lo ≤ va < hi → va mod 4096 = 0 → is_Some (L !! (r, va)).

Lemma PGROUNDUP_le sz : 0 ≤ sz ≤ TRAPFRAME →
  sz ≤ PGROUNDUP sz < sz + 4096 ∧ PGROUNDUP sz mod 4096 = 0 ∧ PGROUNDUP sz ≤ TRAPFRAME.
Proof.
  intros Hsz. assert (TRAPFRAME = 0x3fffffe000) as HT by done.
  rewrite PGROUNDUP_alt by lia. Z.div_mod_to_equations. lia.
Qed.

Lemma uvmunmap_range s fl T L r lo hi :
  vm_inv s fl T L → lo mod 4096 = 0 → hi mod 4096 = 0 → lo ≤ hi ≤ TRAPFRAME → mapped_range L r lo hi →
  ∃ s' freed, uvmunmap r lo ((hi - lo) / PGSIZE) true s = Ok tt s' ∧
    vm_inv s' (freed ++ fl) T (unmap_range r lo hi L) ∧
    shrink (targets L r lo hi) s fl T s' freed ∧
    balanced s L s' (unmap_range r lo hi L).
Proof.
  intros Hv Hlo Hhi Hle Hm. assert (∃ n, hi = lo + n * PGSIZE ∧ 0 ≤ n) as (n & -> & Hn).
  { exists ((hi - lo) / PGSIZE). unfold PGSIZE. Z.div_mod_to_equations. lia. }
  replace ((lo + n * PGSIZE - lo) / PGSIZE) with n by (unfold PGSIZE; Z.div_mod_to_equations; lia).
  apply uvmunmap_spec; [done|done|done|lia|]. intros i Hi. unfold PGSIZE in *. apply Hm; [lia|].
  Z.div_mod_to_equations. lia.
Qed.

Lemma uvmdealloc_spec s fl T L r oldsz newsz :
  vm_inv s fl T L → 0 ≤ newsz → oldsz ≤ TRAPFRAME →
  mapped_range L r (PGROUNDUP newsz) (PGROUNDUP oldsz) →
  ∃ s' freed, uvmdealloc r oldsz newsz s = Ok (Z.min oldsz newsz) s' ∧
    vm_inv s' (freed ++ fl) T (if newsz <? oldsz
      then unmap_range r (PGROUNDUP newsz) (PGROUNDUP oldsz) L else L) ∧
    shrink (λ p, newsz < oldsz ∧ targets L r (PGROUNDUP newsz) (PGROUNDUP oldsz) p) s fl T s' freed.
Proof.
  intros Hv Hnew Hold Hm. unfold uvmdealloc.
  destruct (Z_geb_spec0 newsz oldsz) as [Hge|Hlt].
  { exists s, []. rewrite Z.min_l by lia. destruct (Z.ltb_spec newsz oldsz); [lia|].
    split_and!; try done. split; [by intros ? ?%elem_of_nil|done|done]. }
  destruct (PGROUNDUP_le newsz) as (H1 & Ha1 & _); [lia|].
  destruct (PGROUNDUP_le oldsz) as (H2 & Ha2 & H3); [lia|].
  destruct (Z.ltb_spec newsz oldsz); [|lia]. rewrite Z.min_r by lia.
  destruct (Z.ltb_spec (PGROUNDUP newsz) (PGROUNDUP oldsz)).
  - destruct (uvmunmap_range s fl T L r (PGROUNDUP newsz) (PGROUNDUP oldsz)) as (s' & freed & Hs & Hv' & Hsh & _);
      [done..|lia|done|]. exists s', freed. unfold mbind, M_bind. rewrite Hs. split_and!; [done..|].
    destruct Hsh as [Hf Hr Hmm]. split; [|naive_solver|done]. intros p Hp. split; [done|by apply Hf].
  - exists s, []. rewrite unmap_range_nil by lia. split_and!; try done.
    split; [by intros ? ?%elem_of_nil|done|done].
Qed.

(** ** Pages that are allocated and not mapped yet *)

Record owned (s : kst) (fl : list Z) (T : tables) (L : leaves) (p : Z) : Prop := {
  ow_ok : page_ok p;
  ow_nfree : p ∉ fl;
  ow_ntable : ∀ k, T !! k ≠ Some p;
  ow_nref : urefs L p = 0;
  ow_ref : page_refcnt s (p / PGSIZE) = 1;
}.

(** A frame for code that touches only page [p] besides the allocator's data. *)
Definition only_page (p : Z) (s s' : kst) : Prop :=
  (∀ q, page_ok q → q ≠ p → page_refcnt s' (q / PGSIZE) = page_refcnt s (q / PGSIZE)) ∧
  (∀ x, pg x ≠ p → mem s' x = mem s x).

Lemma leaf_inv_only rc rc' T L p :
  leaf_inv rc T L → urefs L p = 0 →
  (∀ q, page_ok q → q ≠ p → rc' (q / PGSIZE) = rc (q / PGSIZE)) → leaf_inv rc' T L.
Proof.
  intros Hl Hp Hrc. eapply leaf_inv_mono; [done|]. intros r va pte HL Hva.
  destruct (li_ok _ _ _ Hl _ _ _ HL Hva) as (Hok & HnT & _). split; [|done].
  apply Hrc; [done|]. intros E. pose proof (urefs_pos _ _ _ _ HL Hva). rewrite E in *. lia.
Qed.

Lemma free_unref s fl T L p : vm_inv s fl T L → p ∈ fl → urefs L p = 0.
Proof.
  intros Hv Hp. pose proof (urefs_nonneg L p). destruct (decide (0 < urefs L p)) as [Hpos|]; [|lia].
  apply urefs_inv in Hpos as (r & va & pte & HL & Hva & <-).
  by destruct (leaf_used _ _ _ _ _ _ _ Hv HL Hva) as (_ & _ & _ & ?).
Qed.

(** A page taken from the free list, whatever the page tables. *)
Lemma kalloc_pt s p fl T L :
  pt_inv s (p :: fl) T L →
  ∃ s', kalloc s = Ok p s' ∧ pt_inv s' fl T L ∧ page_ok p ∧ (p ∉ fl) ∧ (∀ k, T !! k ≠ Some p) ∧
    page_refcnt s' (p / PGSIZE) = 1 ∧ only_page p s s'.
Proof.
  intros Hi. pose proof (pi_alloc _ _ _ _ Hi) as Ha.
  destruct (kalloc_upto_alloc _ _ _ _ Ha) as (s' & Hk & Ha' & Hm & Hc).
  assert (page_ok p) as Hp by (pose proof (ki_ok _ _ _ Ha) as Hok; by inversion Hok as [|?? []]).
  assert (p ∉ fl) as Hpf by (pose proof (ki_nodup _ _ _ Ha) as Hnd; by inversion Hnd).
  assert (∀ k, T !! k ≠ Some p) as HpT.
  { intros k Hk'. apply (pi_not_free _ _ _ _ _ _ Hi Hk'). by left. }
  assert (only_page p s s') as Ho.
  { split.
    - intros q Hq Hne. rewrite Hc. apply fupd_ne. intros E%page_index_inj; done.
    - intros x Hx. rewrite Hm. apply mfill_out. pose proof (page_ok_range _ Hp) as (?&?&?).
      unfold PGSIZE. intros ?. by apply Hx, pg_eq. }
  exists s'. split_and!; try done; [|by rewrite Hc, fupd_eq]. destruct Ho as [Hrc' Hm'].
  split; [done|..].
  - eapply pt_rep_frame; [apply Hi|]. intros x k Hk'. apply Hm'. intros E. rewrite E in Hk'. by eapply HpT.
  - intros k q Hq. rewrite Hrc'; [by eapply pi_ref| |].
    + by eapply (pr_ok _ _ _ (pi_rep _ _ _ _ Hi)).
    + intros ->. by eapply HpT.
Qed.

Lemma kalloc_vm s p fl T L :
  vm_inv s (p :: fl) T L →
  ∃ s', kalloc s = Ok p s' ∧ vm_inv s' fl T L ∧ owned s' fl T L p ∧ only_page p s s'.
Proof.
  intros Hv. pose proof Hv as [Hi Hl].
  destruct (kalloc_pt s p fl T L Hi) as (s' & Hk & Hi' & Hp & Hpf & HpT & Hr & Ho).
  assert (urefs L p = 0) as Hur by (eapply free_unref; [done|by left]).
  pose proof Ho as [Hrc' _]. exists s'. split; [done|]. split; [split; [done|by eapply leaf_inv_only]|by split].
Qed.

Lemma vm_frame_page s s' fl T L p :
  vm_inv s fl T L → owned s fl T L p → freelist s' = freelist s → page_refcnt s' = page_refcnt s →
  (∀ x, pg x ≠ p → mem s' x = mem s x) → vm_inv s' fl T L ∧ owned s' fl T L p.
Proof.
  intros [Hi Hl] [Hok Hnf HnT Hnr Hr] Hf Hrc Hm. split.
  - split; [|by rewrite Hrc]. eapply pt_inv_frame; [done|done|by rewrite Hrc|].
    intros x Hx. apply Hm. intros E. rewrite E in Hx. destruct Hx as [?|[k Hk]]; [done|by eapply HnT].
  - split; try done. by rewrite Hrc.
Qed.

(** [kalloc] followed by [memset(p, 0, PGSIZE)]. *)
Lemma zalloc_vm s p fl T L :
  vm_inv s (p :: fl) T L →
  ∃ s1 s', kalloc s = Ok p s1 ∧ memset_ p 0 PGSIZE s1 = Ok tt s' ∧ p ≠ 0 ∧
    vm_inv s' fl T L ∧ owned s' fl T L p ∧ only_page p s s' ∧ (∀ x, pg x = p → mem s' x = x00).
Proof.
  intros Hv. destruct (kalloc_vm _ _ _ _ _ Hv) as (s1 & Hk & Hv1 & Ho1 & Hrc1 & Hm1).
  pose proof (ow_ok _ _ _ _ _ Ho1) as Hp. pose proof (page_ok_range _ Hp) as (?&?&?).
  set (s' := set_mem (λ m, mfill m p x00 PGSIZE) s1).
  assert (∀ x, pg x ≠ p → mem s' x = mem s1 x) as Hm'.
  { intros x Hx. apply mfill_out. unfold PGSIZE. intros ?. by apply Hx, pg_eq. }
  destruct (vm_frame_page s1 s' fl T L p) as [Hv' Ho']; [done..|].
  exists s1, s'. split_and!; try done.
  - unfold memset_. by rewrite (mapped_page p p PGSIZE) by (done || unfold PGSIZE; lia).
  - lia.
  - split; [done|]. intros x Hx. by rewrite Hm', Hm1.
  - intros x Hx. apply mfill_in. pose proof (pg_range x). unfold PGSIZE. lia.
Qed.

Lemma owned_grow r s fl T L p s' fl' T' new :
  owned s fl T L p → grow r s fl T s' fl' T' new → owned s' fl' T' L p.
Proof.
  intros [Hok Hnf HnT Hnr Hr] [Hf Hs Hn Hu Hrc Hm].
  assert ((p ∉ new) ∧ (p ∉ fl')) as [??]. { rewrite Hf, elem_of_app in Hnf. tauto. }
  split; try done.
  - intros k Hk. destruct (Hn _ _ Hk) as [?|(?&?&?&?)]; [by eapply HnT|done].
  - by rewrite Hrc.
Qed.

Lemma kfree_owned s fl T L p :
  vm_inv s fl T L → owned s fl T L p →
  ∃ s', kfree p s = Ok tt s' ∧ vm_inv s' (p :: fl) T L ∧ only_page p s s'.
Proof.
  intros [Hi Hl] [Hok Hnf HnT Hnr Hr].
  destruct (kfree_pt s fl T L p) as (s' & Hk & Hi' & Hm & Hrc); [done..|lia|].
  rewrite Hr in *. simpl in Hi'. exists s'.
  assert (∀ q, page_ok q → q ≠ p → page_refcnt s' (q / PGSIZE) = page_refcnt s (q / PGSIZE)).
  { intros q Hq Hne. rewrite Hrc. case_z; [|done]. by apply page_index_inj in e. }
  split_and!; [done|split; [done|by eapply leaf_inv_only]|]. split; [done|]. intros x Hx. apply Hm. by right.
Qed.

(** Mapping an owned page: its mapping is its one reference. *)
Lemma map_owned_page s fl T L r va p perm :
  vm_inv s fl T L → owned s fl T L p → T !! (r, []) = Some r → va_ok va → va < TRAPFRAME →
  0 ≤ perm < 1024 → Z.lor perm PTE_V ≠ PTE_V → L !! (r, va) = None →
  ∃ res s' fl' T' new, mappages r va PGSIZE p perm s = Ok res s' ∧ grow r s fl T s' fl' T' new ∧ (length new ≤ 2)%nat ∧
    ((res = 0 ∧ vm_inv s' fl' T' (<[(r, va) := mk_pte p perm]> L)) ∨
     (res = -1 ∧ vm_inv s' fl' T' L ∧ owned s' fl' T' L p ∧ fl' = [])).
Proof.
  intros Hv Ho HT Hva Hlow Hperm Hnl HL. pose proof (page_ok_pa_ok _ (ow_ok _ _ _ _ _ Ho)) as Hpa.
  destruct (mappages_page s fl T L r va p perm) as (res & s' & fl' & T' & new & Hs & Hg & Hlen & Hres);
    [apply Hv|done..|]. pose proof (owned_grow _ _ _ _ _ _ _ _ _ _ Ho Hg) as [Hok Hnf HnT Hnr Hr].
  exists res, s', fl', T', new. split_and!; [done..|].
  destruct Hres as [[-> Hi']|(-> & Hi' & ->)].
  - left. split; [done|]. split; [done|].
    eapply leaf_inv_insert; [by eapply leaf_inv_grow|..]; rewrite ?mk_pte_PA, ?mk_pte_FLAGS by done; try done; lia.
  - right. split; [done|]. split; [by eapply vm_inv_grow|done].
Qed.
Lemma map_owned s fl T L r va p perm :
  vm_inv s fl T L → owned s fl T L p → T !! (r, []) = Some r → va_ok va → va < TRAPFRAME →
  0 ≤ perm < 1024 → Z.lor perm PTE_V ≠ PTE_V → L !! (r, va) = None →
  ∃ res s' fl' T' new, mappages r va PGSIZE p perm s = Ok res s' ∧ grow r s fl T s' fl' T' new ∧
    ((res = 0 ∧ vm_inv s' fl' T' (<[(r, va) := mk_pte p perm]> L)) ∨
     (res = -1 ∧ vm_inv s' fl' T' L ∧ owned s' fl' T' L p ∧ fl' = [])).
Proof.
  intros Hv Ho HT Hva Hlow Hperm Hnl HL. destruct (map_owned_page s fl T L r va p perm) as (res & s' & fl' & T' & new & Hs & Hg & _ & Hres); [done..|].
  by exists res, s', fl', T', new.
Qed.

(** ** uvmalloc *)

(** The tree of [r] gained the zeroed pages [lo, hi), taken from [fl] together
    with the tables that hold them; everything else is as before. *)
Record alloced (r lo hi perm : Z) (s : kst) (fl : list Z) (T : tables) (L : leaves)
    (s' : kst) (fl' : list Z) (T' : tables) (L' : leaves) : Prop := {
  al_fl : ∀ p, p ∈ fl' → p ∈ fl;
  al_sub : T ⊆ T';
  al_new : ∀ k p, T' !! k = Some p → T !! k = Some p ∨ (T !! k = None ∧ k.1 = r ∧ k.2 ≠ [] ∧ p ∈ fl);
  al_out : unmap_range r lo hi L' = L;
  al_in : ∀ va, lo ≤ va < hi → va mod 4096 = 0 →
    ∃ p, page_ok p ∧ p ∈ fl ∧ (p ∉ fl') ∧ L' !! (r, va) = Some (mk_pte p perm) ∧ ∀ x, pg x = p → mem s' x = x00;
  al_ref : ∀ q, page_ok q → q ∉ fl → page_refcnt s' (q / PGSIZE) = page_refcnt s (q / PGSIZE);
  al_mem : ∀ x, pg x ∉ fl → (∀ k, T !! k ≠ Some (pg x)) → mem s' x = mem s x;
}.

Lemma alloced_nil r lo perm s fl T L : alloced r lo lo perm s fl T L s fl T L.
Proof.
  split; try done; [by auto|by apply unmap_range_nil|]. intros va ?. lia.
Qed.

(** Tables added, and pages outside the new span taken or returned. *)
Lemma alloced_step r lo hi perm s fl T L s1 fl1 T1 L1 s2 fl2 T2 :
  alloced r lo hi perm s fl T L s1 fl1 T1 L1 → vm_inv s1 fl1 T1 L1 →
  (∀ p, p ∈ fl2 → p ∈ fl1) → T1 ⊆ T2 →
  (∀ k p, T2 !! k = Some p → T1 !! k = Some p ∨ (T1 !! k = None ∧ k.1 = r ∧ k.2 ≠ [] ∧ p ∈ fl1)) →
  (∀ q, page_ok q → q ∉ fl1 → page_refcnt s2 (q / PGSIZE) = page_refcnt s1 (q / PGSIZE)) →
  (∀ x, pg x ∉ fl1 → (∀ k, T1 !! k ≠ Some (pg x)) → mem s2 x = mem s1 x) →
  hi ≤ TRAPFRAME → 0 ≤ perm < 1024 → alloced r lo hi perm s fl T L s2 fl2 T2 L1.
Proof.
  intros [Hfl Hsub Hnew Hout Hin Href Hmem] Hv Hfl2 Hsub2 Hnew2 Href2 Hmem2 Hhi Hperm. split; try done.
  - auto.
  - by etrans.
  - intros k p Hk. destruct (Hnew2 _ _ Hk) as [?|(?&?&?&?)]; [by auto|].
    right. split_and!; [by eapply lookup_weaken_None|auto..].
  - intros va Hva Ha. destruct (Hin va Hva Ha) as (p & Hok & Hp & Hnp & HL & Hz).
    destruct (leaf_used _ _ _ _ _ _ _ Hv HL) as (_ & HnT & _ & _); [lia|].
    rewrite mk_pte_PA in HnT by (done || by apply page_ok_pa_ok).
    exists p. split_and!; auto. intros x Hx. rewrite Hmem2, Hz; rewrite ?Hx; done.
  - intros q Hq Hn. rewrite Href2, Href; auto.
  - intros x Hx HT. rewrite Hmem2, Hmem; auto. intros k Hk.
    destruct (Hnew _ _ Hk) as [?|(?&?&?&?)]; [by eapply HT|done].
Qed.

Lemma alloced_extend r lo a perm s fl T L L1 p s2 fl2 T2 :
  alloced r lo a perm s fl T L s2 fl2 T2 L1 →
  lo ≤ a → lo mod 4096 = 0 → a mod 4096 = 0 → a + 4096 ≤ TRAPFRAME →
  page_ok p → p ∈ fl → (p ∉ fl2) → (∀ x, pg x = p → mem s2 x = x00) → L1 !! (r, a) = None →
  vm_inv s2 fl2 T2 (<[(r, a) := mk_pte p perm]> L1) →
  alloced r lo (a + 4096) perm s fl T L s2 fl2 T2 (<[(r, a) := mk_pte p perm]> L1).
Proof.
  intros [Hfl Hsub Hnew Hout Hin Href Hmem] Hle Hlo Ha Hmax Hok Hp Hnp Hz Hnone Hv2. split; try done.
  - rewrite <- Hout. apply map_eq. intros [r' va]. apply option_eq. intros pte.
    pose proof (leaf_aligned _ _ _ _ (vi_pt _ _ _ _ Hv2)) as Hal.
    rewrite !lookup_unmap_range, lookup_insert. case_decide as E.
    + simplify_eq. split; [intros [_ Hn]; destruct Hn; lia|]. intros [? _]. congruence.
    + split; intros [HL Hn]; (split; [done|]); intros [-> ?]; apply Hn; (split; [done|]); [lia|].
      assert (<[(r, a):=mk_pte p perm]> L1 !! (r, va) = Some pte) as HL2 by by rewrite lookup_insert_ne.
      specialize (Hal _ _ _ HL2). assert (va ≠ a) by congruence. Z.div_mod_to_equations. lia.
  - intros va Hva Hal. rewrite lookup_insert. case_decide as E.
    + simplify_eq. exists p. done.
    + apply Hin; [|done]. assert (va ≠ a) by congruence. Z.div_mod_to_equations. lia.
Qed.

Lemma alloced_undo r lo a perm s fl T L s1 fl1 T1 L1 :
  alloced r lo a perm s fl T L s1 fl1 T1 L1 → vm_inv s1 fl1 T1 L1 → 0 ≤ perm < 1024 → 0 ≤ lo ≤ a → a ≤ TRAPFRAME →
  lo mod 4096 = 0 → a mod 4096 = 0 →
  ∃ x s2 fl2, uvmdealloc r a lo s1 = Ok x s2 ∧ vm_inv s2 fl2 T1 L ∧ alloced r lo lo perm s fl T L s2 fl2 T1 L.
Proof.
  intros [Hfl Hsub Hnew Hout Hin Href Hmem] Hv Hperm Hle Hmax Hlo Ha.
  assert (PGROUNDUP lo = lo ∧ PGROUNDUP a = a) as [El Ea].
  { assert (TRAPFRAME = 0x3fffffe000) by done. split; apply PGROUNDUP_aligned; lia. }
  destruct (uvmdealloc_spec s1 fl1 T1 L1 r a lo) as (s2 & freed & Hs & Hv2 & Hsh); [done|lia|done|..].
  { rewrite El, Ea. intros va Hva Hal. destruct (Hin va Hva Hal) as (p & _ & _ & _ & -> & _). done. }
  rewrite El, Ea in *.
  assert (∀ p, targets L1 r lo a p → p ∈ fl) as Htgt.
  { intros p (va & pte & Hva & HL & <-).
    destruct (Hin va Hva (leaf_aligned _ _ _ _ (vi_pt _ _ _ _ Hv) _ _ _ HL)) as (p & Hok & Hp & _ & HL' & _).
    simplify_eq. by rewrite mk_pte_PA by (done || by apply page_ok_pa_ok). }
  assert ((if lo <? a then unmap_range r lo a L1 else L1) = L) as E.
  { case_z; [done|]. rewrite <- Hout. rewrite unmap_range_nil by lia. done. }
  rewrite E in Hv2. destruct Hsh as [Hf2 Hr2 Hm2].
  exists (Z.min a lo), s2, (freed ++ fl1). split; [done|]. split; [done|]. split; try done.
  - intros p [Hp|?]%elem_of_app; [|auto]. apply Htgt. by apply Hf2.
  - by apply unmap_range_nil.
  - intros va ?. lia.
  - intros q Hq Hn. rewrite Hr2, Href; [done..|]. intros [_ ?]. by apply Hn, Htgt.
  - intros x Hx HT. rewrite Hm2, Hmem; [done..| |].
    + intros Hp. apply Hx, Htgt. by apply Hf2.
    + intros k Hk. destruct (Hnew _ _ Hk) as [?|(?&?&?&?)]; [by eapply HT|done].
Qed.

Lemma uvmalloc_loop_S fuel r a oldsz newsz xperm :
  uvmalloc_loop (S fuel) r a oldsz newsz xperm =
    (if a <? newsz then
       m ← kalloc;
       if m =? 0 then uvmdealloc r a oldsz;; mret 0
       else
         memset_ m 0 PGSIZE;;
         res ← mappages r a PGSIZE m (Z.lor (Z.lor PTE_R PTE_U) xperm);
         if negb (res =? 0) then kfree m;; uvmdealloc r a oldsz;; mret 0
         else uvmalloc_loop fuel r (a + PGSIZE) oldsz newsz xperm
     else mret newsz).
Proof. done. Qed.

(** One iteration: the page is added, or the loop's failure path starts from a
    state that still only has the pages before [a]. *)
Lemma uvmalloc_iter r lo a perm s fl T L s1 fl1 T1 L1 :
  alloced r lo a perm s fl T L s1 fl1 T1 L1 → vm_inv s1 fl1 T1 L1 → T !! (r, []) = Some r →
  0 ≤ perm < 1024 → Z.lor perm PTE_V ≠ PTE_V →
  0 ≤ lo ≤ a → a + 4096 ≤ TRAPFRAME → lo mod 4096 = 0 → a mod 4096 = 0 → L !! (r, a) = None →
  (∃ s2, kalloc s1 = Ok 0 s2 ∧
     fl1 = [] ∧ ∃ fl2 T2, vm_inv s2 fl2 T2 L1 ∧ alloced r lo a perm s fl T L s2 fl2 T2 L1) ∨
  (∃ m s2 s3 res s4, kalloc s1 = Ok m s2 ∧ m ≠ 0 ∧ memset_ m 0 PGSIZE s2 = Ok tt s3 ∧
    mappages r a PGSIZE m perm s3 = Ok res s4 ∧
    ((res = 0 ∧ ∃ fl4 T4 L4, vm_inv s4 fl4 T4 L4 ∧ alloced r lo (a + 4096) perm s fl T L s4 fl4 T4 L4 ∧ (length fl1 ≤ length fl4 + 3)%nat) ∨
     (res = -1 ∧ (length fl1 ≤ 3)%nat ∧ ∃ s5, kfree m s4 = Ok tt s5 ∧
        ∃ fl5 T5, vm_inv s5 fl5 T5 L1 ∧ alloced r lo a perm s fl T L s5 fl5 T5 L1))).
Proof.
  intros Hal Hv1 HTr Hperm Hnl Hle Hmax Hlo Ha HLa.
  assert (T1 !! (r, []) = Some r) as HTr1 by (eapply lookup_weaken; [done|apply Hal]).
  assert (L1 !! (r, a) = None) as HLa1.
  { destruct (L1 !! (r, a)) as [pte|] eqn:E; [|done]. rewrite <- (al_out _ _ _ _ _ _ _ _ _ _ _ _ Hal) in HLa.
    assert (unmap_range r lo a L1 !! (r, a) = Some pte); [|congruence].
    apply lookup_unmap_range. split; [done|lia]. }
  destruct fl1 as [|p fl1].
  { left. destruct (pt_alloc_empty s1 T1 L1 r (vi_pt _ _ _ _ Hv1)) as (s2 & Hk & Hi2 & Hg).
    exists s2. split; [done|]. split; [done|]. exists [], T1. split; [by eapply vm_inv_grow|].
    eapply alloced_step; try done; [auto|..].
    - intros q Hq _. by eapply gr_ref; [| |apply not_elem_of_nil].
    - intros x _ ?. by eapply gr_mem; [|apply not_elem_of_nil|].
    - lia. }
  right. destruct (zalloc_vm s1 p fl1 T1 L1 Hv1) as (s2 & s3 & Hk & Hms & Hnz & Hv3 & Ho3 & [Hrc3 Hm3] & Hz3).
  assert (MAXVA = 0x4000000000 ∧ TRAPFRAME = 0x3fffffe000) as [HM HTF] by done.
  destruct (map_owned_page s3 fl1 T1 L1 r a p perm) as (res & s4 & fl4 & T4 & new & Hmp & Hg & Hnew & Hres);
    [done..|split; [lia|done]|lia|done|done|done|].
  exists p, s2, s3, res, s4. split_and!; [done..|].
  pose proof (owned_grow _ _ _ _ _ _ _ _ _ _ Ho3 Hg) as Ho4. pose proof Hg as [Hgf Hgs Hgn Hgu Hgr Hgm].
  pose proof (ow_ok _ _ _ _ _ Ho3) as Hpok.
  assert (∀ k q, T4 !! k = Some q → T1 !! k = Some q ∨ (T1 !! k = None ∧ k.1 = r ∧ k.2 ≠ [] ∧ q ∈ p :: fl1)) as Hn4.
  { intros k q Hk'. destruct (Hgn _ _ Hk') as [?|(?&?&?&?)]; [by left|right].
    split_and!; [done..|]. right. rewrite Hgf, elem_of_app. by left. }
  assert (∀ q, page_ok q → q ∉ p :: fl1 → page_refcnt s4 (q / PGSIZE) = page_refcnt s1 (q / PGSIZE)) as Hrc4.
  { intros q Hq Hn. rewrite elem_of_cons in Hn. rewrite Hgr, Hrc3; [done|done|tauto|done|].
    rewrite Hgf, elem_of_app in Hn. tauto. }
  assert (∀ x, pg x ∉ p :: fl1 → (∀ k, T1 !! k ≠ Some (pg x)) → mem s4 x = mem s1 x) as Hm4.
  { intros x Hn HT. rewrite elem_of_cons in Hn. rewrite Hgm, Hm3; [done|tauto| |done].
    rewrite Hgf, elem_of_app in Hn. tauto. }
  destruct Hres as [[-> Hv4]|(-> & Hv4 & _ & ->)]; [left|right]; (split; [done|]).
  - exists fl4, T4, (<[(r, a):=mk_pte p perm]> L1). split; [done|]. split; [|rewrite Hgf; simpl; rewrite length_app; lia]. eapply alloced_extend; try done; try lia.
    + eapply alloced_step; try done; try lia. intros q Hq. right. rewrite Hgf, elem_of_app. by right.
    + eapply al_fl; [exact Hal|]. by left.
    + apply Ho4.
    + intros x Hx. rewrite Hgm; [by apply Hz3|..]; rewrite Hx; [|apply Ho3].
      intros ?. apply (ow_nfree _ _ _ _ _ Ho3). rewrite Hgf, elem_of_app. by left.
  - split; [rewrite Hgf, app_nil_r; simpl; lia|]. destruct (kfree_owned s4 [] T4 L1 p) as (s5 & Hk5 & Hv5 & Hrc5 & Hm5); [done..|].
    exists s5. split; [done|]. exists [p], T4. split; [done|].
    eapply alloced_step; try done; try lia.
    + intros q ->%list_elem_of_singleton. by left.
    + intros q Hq Hn. rewrite Hrc5, Hrc4; [done..|]. intros ->. apply Hn. by left.
    + intros x Hx HT. rewrite Hm5, Hm4; [done..|]. intros E. apply Hx. rewrite E. by left.
Qed.

Lemma perm_leaf xperm f k : 0 < k → Z.testbit f k = true → Z.lor (Z.lor f xperm) PTE_V ≠ PTE_V.
Proof.
  intros Hk Hf E. apply (f_equal (λ z, Z.testbit z k)) in E. rewrite !Z.lor_spec, Hf in E. simpl in E.
  change PTE_V with (2 ^ 0) in E. by rewrite Z.pow2_bits_false in E by lia.
Qed.

Lemma uvmalloc_loop_spec fuel r lo a newsz xperm s fl T L s1 fl1 T1 L1 :
  let perm := Z.lor (Z.lor PTE_R PTE_U) xperm in
  alloced r lo a perm s fl T L s1 fl1 T1 L1 → vm_inv s1 fl1 T1 L1 → T !! (r, []) = Some r →
  0 ≤ xperm < 1024 → 0 ≤ lo ≤ a → 0 ≤ newsz ≤ TRAPFRAME → lo mod 4096 = 0 → a mod 4096 = 0 →
  a ≤ Z.max lo (PGROUNDUP newsz) → lo ≤ TRAPFRAME → newsz ≤ a + 4096 * Z.of_nat fuel →
  (∀ va, lo ≤ va < newsz → L !! (r, va) = None) → Z.of_nat (length fl) ≤ Z.of_nat (length fl1) + 3 * ((a - lo) / 4096) →
  ∃ res s' fl' T' L', uvmalloc_loop (S fuel) r a lo newsz xperm s1 = Ok res s' ∧ vm_inv s' fl' T' L' ∧
    ((res = newsz ∧ alloced r lo (Z.max lo (PGROUNDUP newsz)) perm s fl T L s' fl' T' L') ∨
     (res = 0 ∧ L' = L ∧ alloced r lo lo perm s fl T L s' fl' T' L ∧ Z.of_nat (length fl) ≤ 3 * ((Z.max lo (PGROUNDUP newsz) - lo) / 4096))).
Proof.
  intros perm. revert a s1 fl1 T1 L1.
  induction fuel as [|fuel IH]; intros a s1 fl1 T1 L1 Hal Hv1 HTr Hx Hle Hnew Hlo Ha Hmax Hlom Hfuel HL Hlen;
    (destruct (PGROUNDUP_le newsz) as (Hr1 & Hr2 & Hr3); [lia|]);
    rewrite uvmalloc_loop_S; (destruct (Z.ltb_spec a newsz) as [Hlt|Hge];
     [try lia|exists newsz, s1, fl1, T1, L1; split; [done|]; split; [done|]; left; split; [done|];
      (replace (Z.max lo (PGROUNDUP newsz)) with a; [done|]); Z.div_mod_to_equations; lia]).
  assert (0 ≤ perm < 1024) as Hperm by (apply flags_lor; [vm_compute; split; congruence|done]).
  assert (a + 4096 ≤ PGROUNDUP newsz) as Hnext by (Z.div_mod_to_equations; lia).
  assert (∀ s2 fl2 T2, vm_inv s2 fl2 T2 L1 → alloced r lo a perm s fl T L s2 fl2 T2 L1 →
    ∃ x s3 fl3, uvmdealloc r a lo s2 = Ok x s3 ∧ vm_inv s3 fl3 T2 L ∧ alloced r lo lo perm s fl T L s3 fl3 T2 L) as Hundo.
  { intros. eapply alloced_undo; try done; lia. }
  unfold mbind, M_bind. fold perm.
  destruct (uvmalloc_iter r lo a perm s fl T L s1 fl1 T1 L1) as
    [(s2 & -> & -> & fl2 & T2 & Hv2 & Hal2)|(m & s2 & s3 & res & s4 & -> & Hnz & Hms & Hmp & Hres)];
    [done|done|done|done|by apply (perm_leaf _ _ 1)|lia|lia|done|done|apply HL; lia|..].
  - destruct (Hundo _ _ _ Hv2 Hal2) as (x & s3 & fl3 & Hs3 & Hv3 & Hal3). simpl. rewrite Hs3.
    exists 0, s3, fl3, T2, L. split; [done|]. split; [done|]. right. split_and!; [done..|]. simpl in Hlen. Z.div_mod_to_equations. lia.
  - rewrite (proj2 (Z.eqb_neq m 0)), Hms, Hmp by done.
    destruct Hres as [(-> & fl4 & T4 & L4 & Hv4 & Hal4 & Hlen4)|(-> & Hlen4 & s5 & Hs5 & fl5 & T5 & Hv5 & Hal5)].
    + simpl negb. unfold PGSIZE. eapply IH; try done; try lia; Z.div_mod_to_equations; lia.
    + change (negb (-1 =? 0)) with true. cbv iota beta. rewrite Hs5. destruct (Hundo _ _ _ Hv5 Hal5) as (x & s6 & fl6 & Hs6 & Hv6 & Hal6).
      rewrite Hs6. exists 0, s6, fl6, T5, L. split; [done|]. split; [done|]. right. split_and!; [done..|]. Z.div_mod_to_equations. lia.
Qed.

(** [uvmalloc] grows the address space by zeroed pages of the process's own, or
    returns 0 and leaves every mapping as it was; then there were not three free
    pages for each of them. *)
Lemma uvmalloc_spec s fl T L r oldsz newsz xperm :
  vm_inv s fl T L → T !! (r, []) = Some r → 0 ≤ xperm < 1024 →
  0 ≤ oldsz ≤ newsz → newsz ≤ TRAPFRAME → (∀ va, PGROUNDUP oldsz ≤ va < newsz → L !! (r, va) = None) →
  ∃ res s' fl' T' L', uvmalloc r oldsz newsz xperm s = Ok res s' ∧ vm_inv s' fl' T' L' ∧
    let perm := Z.lor (Z.lor PTE_R PTE_U) xperm in
    ((res = newsz ∧ alloced r (PGROUNDUP oldsz) (PGROUNDUP newsz) perm s fl T L s' fl' T' L') ∨
     (res = 0 ∧ L' = L ∧ alloced r (PGROUNDUP oldsz) (PGROUNDUP oldsz) perm s fl T L s' fl' T' L ∧
        Z.of_nat (length fl) ≤ 3 * ((PGROUNDUP newsz - PGROUNDUP oldsz) / 4096))).
Proof.
  intros Hv HTr Hx Hold Hnew HL. unfold uvmalloc. destruct (Z.ltb_spec newsz oldsz); [lia|].
  destruct (PGROUNDUP_le oldsz) as (H1 & H2 & H3); [lia|].
  destruct (PGROUNDUP_le newsz) as (H4 & H5 & H6); [lia|].
  assert (PGROUNDUP oldsz ≤ PGROUNDUP newsz) by (Z.div_mod_to_equations; lia).
  rewrite <- (Z.max_r (PGROUNDUP oldsz) (PGROUNDUP newsz)) by lia. cbv zeta.
  eapply uvmalloc_loop_spec; try done; try lia; [apply alloced_nil| |rewrite Z.sub_diag, Zdiv_0_l; lia].
  unfold PGSIZE. Z.div_mod_to_equations. lia.
Qed.

(** ** uvmcreate *)

Lemma vm_inv_empty s fl : kalloc_inv s fl → vm_inv s fl ∅ ∅.
Proof. intros Ha. split; [split; [done|split|]|split]; by intros; simplify_map_eq. Qed.

Lemma pt_rep_root m T L q :
  pt_rep m T L → page_ok q → (∀ k, T !! k ≠ Some q) → (∀ j, 0 ≤ j < 512 → load64 m (q + 8 * j) = 0) →
  pt_rep m (<[(q, []) := q]> T) L.
Proof.
  intros Hr Hq HqT Hz.
  assert (∀ path, T !! (q, path) = None) as Hnone.
  { intros path. destruct (T !! (q, path)) as [p|] eqn:E; [|done].
    destruct (HqT (q, [])). by eapply pr_root. }
  assert (∀ k p, <[(q, []) := q]> T !! k = Some p → (k = (q, []) ∧ p = q) ∨ (k.1 ≠ q ∧ T !! k = Some p)) as Hcase.
  { intros [r path] p. rewrite lookup_insert. case_decide as E; [intros [= <-]; by left|].
    intros HT. right. split; [|done]. simpl. intros ->. by rewrite Hnone in HT. }
  assert (∀ r path, r ≠ q → <[(q, []) := q]> T !! (r, path) = T !! (r, path)) as Hother.
  { intros r path Hne. apply lookup_insert_ne. congruence. }
  split.
  - intros r path p [[[= -> ->] ->]|[Hne HT]]%Hcase; [apply lookup_insert_eq|].
    rewrite Hother by done. by eapply pr_root.
  - intros r path p [[[= -> ->] ->]|[Hne HT]]%Hcase; [by left|]. by eapply pr_path.
  - intros r i j p [[[=]]|[Hne HT]]%Hcase. rewrite Hother by done. by eapply pr_parent.
  - intros k1 k2 p [[-> ->]|[_ HT1]]%Hcase [[-> E]|[_ HT2]]%Hcase; subst; try done.
    + by destruct (HqT k2).
    + by destruct (HqT k1).
    + by eapply pr_inj.
  - intros k p [[-> ->]|[_ HT]]%Hcase; [done|by eapply pr_ok].
  - intros r path p i [[[= -> ->] ->]|[Hne HT]]%Hcase Hl Hi.
    + rewrite Hz by done. rewrite lookup_insert_ne by done. by rewrite Hnone.
    + rewrite Hother by done. by eapply pr_node.
  - intros r va p Hva [[[=]]|[Hne HT]]%Hcase. by eapply pr_leaf.
  - intros r va pte HL. destruct (pr_dom _ _ _ Hr _ _ _ HL) as (? & [x Hx] & ?). split; [done|split; [|done]].
    rewrite Hother; [by eexists|]. intros ->. by rewrite Hnone in Hx.
Qed.

(** A new root: a page taken and cleared. *)
Lemma root_alloc s q fl T L :
  vm_inv s (q :: fl) T L →
  ∃ s1 s', kalloc s = Ok q s1 ∧ memset_ q 0 PGSIZE s1 = Ok tt s' ∧ q ≠ 0 ∧ page_ok q ∧ (∀ k, T !! k ≠ Some q) ∧
    vm_inv s' fl (<[(q, []) := q]> T) L ∧ only_page q s s'.
Proof.
  intros Hv. destruct (zalloc_vm s q fl T L Hv) as (s1 & s' & Hk & Hms & Hnz & [Hi Hl] & Ho & Hof & Hz).
  exists s1, s'. destruct Ho as [Hok Hnf HnT Hnr Hr].
  split_and!; try done. split; [destruct Hi as [Ha Hrep Hc]; split; [done|..]|].
  - apply pt_rep_root; try done. intros j Hj. pose proof (page_ok_range _ Hok) as (?&?&?).
    rewrite (load64_ext _ (λ _, x00)); [done|]. intros x Hx. apply Hz, pg_eq; lia.
  - intros k p. rewrite lookup_insert. case_decide; [by intros [= <-]|by eauto].
  - eapply leaf_inv_mono; [done|]. intros r va pte HL Hva. split; [done|]. intros k.
    destruct (li_ok _ _ _ Hl _ _ _ HL Hva) as (_ & HnT' & _). rewrite lookup_insert. case_decide; [|by eauto].
    intros [= E]. pose proof (urefs_pos _ _ _ _ HL Hva). rewrite <- E in *. lia.
Qed.

Lemma uvmcreate_spec s fl T L :
  vm_inv s fl T L →
  (fl = [] ∧ ∃ s', uvmcreate s = Ok 0 s' ∧ vm_inv s' [] T L) ∨
  (∃ q fl' s', fl = q :: fl' ∧ uvmcreate s = Ok q s' ∧ page_ok q ∧ (∀ k, T !! k ≠ Some q) ∧
     vm_inv s' fl' (<[(q, []) := q]> T) L ∧ only_page q s s').
Proof.
  intros Hv. unfold uvmcreate, mbind, M_bind. destruct fl as [|q fl].
  { left. destruct (pt_alloc_empty s T L 0 (vi_pt _ _ _ _ Hv)) as (s' & -> & Hi & Hg). split; [done|].
    exists s'. split; [done|]. by eapply vm_inv_grow. }
  right. destruct (root_alloc s q fl T L Hv) as (s1 & s' & -> & Hms & Hnz & Hrest).
  rewrite (proj2 (Z.eqb_neq q 0)), Hms by done. exists q, fl, s'. by split_and!; try apply Hrest.
Qed.

(** Boot, a process with two pages, and an empty address space. *)
Definition demo_fork : M kst (Z * Z * Z) :=
  kinit;;
  p ← uvmcreate;
  r ← uvmalloc p 0 8192 PTE_W;
  c ← uvmcreate;
  mret (p, r, c).

End ops.

(** ** A concrete state *)

Definition demo_p : Z := 0x87fff000.
Definition demo_c : Z := 0x87ffa000.

Lemma demo_fork_ok :
  ∃ s fl T L, @demo_fork demo_image (boot_state (λ _, x00)) = Ok (demo_p, 8192, demo_c) s ∧
    @vm_inv demo_image s fl T L ∧ T !! (demo_p, []) = Some demo_p ∧ T !! (demo_c, []) = Some demo_c ∧
    (∀ va, is_Some (L !! (demo_p, va)) ↔ 0 ≤ va < 8192 ∧ va mod 4096 = 0) ∧ (∀ va, L !! (demo_c, va) = None) ∧
    (∀ va, 0 ≤ va < 8192 → va mod 4096 = 0 →
       ∃ p, @page_ok demo_image p ∧ L !! (demo_p, va) = Some (mk_pte p (Z.lor (Z.lor PTE_R PTE_U) PTE_W))).
Proof.
  assert (∃ s, @demo_fork demo_image (boot_state (λ _, x00)) = Ok (demo_p, 8192, demo_c) s) as [s Hrun].
  { assert (match @demo_fork demo_image (boot_state (λ _, x00)) with
      | Ok v _ => v = (demo_p, 8192, demo_c) | _ => False end) as Hv by (vm_compute; reflexivity).
    destruct (@demo_fork demo_image (boot_state (λ _, x00))) as [v s| | | |]; try done. subst. by exists s. }
  exists s. revert Hrun. unfold demo_fork, mbind, M_bind, mret, M_ret.
  destruct (@kinit_inv demo_image (λ _, x00)) as (s0 & Hs0 & Ha0). rewrite Hs0.
  pose proof (vm_inv_empty _ _ Ha0) as Hv0.
  destruct (@uvmcreate_spec demo_image _ _ _ _ Hv0) as [(Hnil & _)|(q & fl1 & s1 & Hfl & Hs1 & Hq & HqT & Hv1 & _)].
  { by apply (f_equal length) in Hnil. }
  rewrite Hs1. assert (TRAPFRAME = 0x3fffffe000) as HTF by done.
  destruct (@uvmalloc_spec demo_image s1 fl1 (<[(q, []) := q]> ∅) ∅ q 0 8192 PTE_W)
    as (res & s2 & fl2 & T2 & L2 & Hs2 & Hv2 & Hal);
    [done|apply lookup_insert_eq|vm_compute; split; congruence|lia|lia|done|].
  rewrite Hs2.
  destruct (@uvmcreate_spec demo_image _ _ _ _ Hv2) as [(-> & s3 & Hs3 & Hv3)|(c & fl3 & s3 & Hfl3 & Hs3 & Hc & HcT & Hv3 & _)];
    rewrite Hs3; intros Heq; injection Heq; [intros _ [=]|intros -> -> -> ->].
  destruct Hal as [[_ Hal]|[? _]]; [|done]. change (PGROUNDUP 0) with 0 in Hal. change (PGROUNDUP 8192) with 8192 in Hal.
  exists fl3, (<[(demo_c, []) := demo_c]> T2), L2.
  pose proof (lookup_insert_eq (∅ : tables) (demo_p, []) demo_p) as HTp.
  split; [done|]. split; [done|]. split; [|split; [apply lookup_insert_eq|]].
  - rewrite lookup_insert_ne by (intros [=]). eapply lookup_weaken; [exact HTp|apply Hal].
  - split; [|split].
    + intros va. split.
      * intros [pte HL]. split; [|by eapply (leaf_aligned _ _ _ _ (vi_pt _ _ _ _ Hv2))].
        destruct (decide (0 ≤ va < 8192)) as [|Hn]; [done|exfalso].
        assert (unmap_range demo_p 0 8192 L2 !! (demo_p, va) = Some pte) as Hx.
        { apply lookup_unmap_range. split; [done|tauto]. }
        by rewrite (al_out _ _ _ _ _ _ _ _ _ _ _ _ Hal) in Hx.
      * intros [Hva Ha]. destruct (al_in _ _ _ _ _ _ _ _ _ _ _ _ Hal va Hva Ha) as (p & _ & _ & _ & -> & _). by eexists.
    + intros va. destruct (L2 !! (demo_c, va)) as [pte|] eqn:E; [|done].
      assert (unmap_range demo_p 0 8192 L2 !! (demo_c, va) = Some pte) as Hx.
      { apply lookup_unmap_range. split; [done|]. intros [[=] _]. }
      by rewrite (al_out _ _ _ _ _ _ _ _ _ _ _ _ Hal) in Hx.
    + intros va Hva Ha. destruct (al_in _ _ _ _ _ _ _ _ _ _ _ _ Hal va Hva Ha) as (p & Hp & _ & _ & HL & _). by exists p.
Qed.
