(* ===== verification/VmFree.v ===== *)
(** * Freeing an address space

    [freewalk] and [uvmfree] of [kernel/vm.c]: the tables and the user pages of
    a process all go back to the allocator, and no other tree is touched. *)

From S2P Require Import Prelude Riscv Mem CString Kalloc Vm VmTree VmOps.

Section free.
Context `{KernelImage}.

(** ** Removing an empty table *)

Lemma pt_rep_remove m m' T L r path i p q :
  pt_rep m T L → T !! (r, path) = Some p → T !! (r, path ++ [i]) = Some q → (length path < 2)%nat →
  0 ≤ i < 512 → (∀ rest, rest ≠ [] → T !! (r, path ++ [i] ++ rest) = None) →
  (∀ va, L !! (r, va) = None) →
  (∀ x, pg x ≠ q → m' x = store64 m (p + 8 * i) 0 x) →
  pt_rep m' (delete (r, path ++ [i]) T) L.
Proof.
  intros Hr HT HTq Hlen Hi Hch HL Hm. pose proof (pr_ok _ _ _ Hr _ _ HT) as Hp.
  assert (∀ k p', delete (r, path ++ [i]) T !! k = Some p' → k ≠ (r, path ++ [i]) ∧ T !! k = Some p' ∧ page_ok p' ∧ p' ≠ q) as Hk.
  { intros k p' [Hne HT']%lookup_delete_Some. split_and!; [done..|by eapply pr_ok|].
    intros ->. apply Hne. by eapply pr_inj. }
  assert (∀ p' j, page_ok p' → p' ≠ q → 0 ≤ j < 512 →
    load64 m' (p' + 8 * j) = load64 (store64 m (p + 8 * i) 0) (p' + 8 * j)) as Hld.
  { intros p' j Hp' Hne Hj. apply load64_page; [done|done|]. intros x Hx. apply Hm. congruence. }
  split.
  - intros r' path' p' (_ & HT' & _)%Hk. apply lookup_delete_Some. split; [by destruct path|by eapply pr_root].
  - intros r' path' p' (_ & HT' & _)%Hk. by eapply pr_path.
  - intros r' a b p' (_ & HT' & _)%Hk. destruct (pr_parent _ _ _ Hr _ _ _ _ HT') as [x Hx]. exists x.
    apply lookup_delete_Some. split; [|done]. intros E. injection E as <- E.
    assert (T !! (r, path ++ [i] ++ [b]) = None) as Hn by by apply Hch.
    rewrite app_assoc, E in Hn. simpl in Hn. congruence.
  - intros k1 k2 p' (_ & HT1 & _)%Hk (_ & HT2 & _)%Hk. by eapply pr_inj.
  - intros k p' (_ & _ & ? & _)%Hk. done.
  - intros r' path' p' j (Hne & HT' & Hp' & Hpq)%Hk Hl Hj. rewrite Hld by done.
    destruct (decide ((p', j) = (p, i))) as [E|E].
    + simplify_eq. rewrite load64_store64_eq by lia.
      assert ((r', path') = (r, path)) as [= -> ->] by (by eapply pr_inj).
      by rewrite lookup_delete_eq.
    + rewrite slot_store_ne by (done || congruence). rewrite lookup_delete_ne; [by eapply pr_node|].
      intros E'. injection E' as <- [-> ->]%snoc_inj. congruence.
  - intros r' va p' Hva (Hne & HT' & Hp' & Hpq)%Hk.
    pose proof (PX_idx 0 va ltac:(lia) (proj1 Hva)) as Hx. rewrite Hld by done.
    rewrite slot_store_ne; [by eapply pr_leaf|done..|]. intros [= -> _].
    pose proof (pr_inj _ _ _ Hr _ _ _ HT HT') as E. injection E as _ ->. simpl in Hlen. lia.
  - intros r' va pte HL'. destruct (pr_dom _ _ _ Hr _ _ _ HL') as (? & [x Hx] & ?). split; [done|split; [|done]].
    exists x. apply lookup_delete_Some. split; [|done]. intros E. injection E as <- _. by rewrite HL in HL'.
Qed.

(** Freeing a table page and clearing the slot that pointed to it. *)
Lemma free_table s fl T L r path i p q :
  vm_inv s fl T L → T !! (r, path) = Some p → T !! (r, path ++ [i]) = Some q → (length path < 2)%nat →
  0 ≤ i < 512 → (∀ rest, rest ≠ [] → T !! (r, path ++ [i] ++ rest) = None) → (∀ va, L !! (r, va) = None) →
  ∃ s1 s2, kfree q s = Ok tt s1 ∧ st (p + 8 * i) 0 s1 = Ok tt s2 ∧
    vm_inv s2 (q :: fl) (delete (r, path ++ [i]) T) L ∧
    (∀ x, pg x ≠ q → pg x ≠ p → mem s2 x = mem s x) ∧
    (∀ x, page_ok x → x ≠ q → page_refcnt s2 (x / PGSIZE) = page_refcnt s (x / PGSIZE)).
Proof.
  intros Hv HT HTq Hlen Hi Hch HL. pose proof Hv as [[Ha Hr Hc] Hl].
  pose proof (pr_ok _ _ _ Hr _ _ HT) as Hp. pose proof (pr_ok _ _ _ Hr _ _ HTq) as Hq.
  pose proof (page_ok_range _ Hq) as (?&?&?).
  assert (p ≠ q) as Hpq.
  { intros ->. pose proof (pr_inj _ _ _ Hr _ _ _ HT HTq) as E. injection E as E. apply (f_equal length) in E.
    rewrite length_app in E. simpl in E. lia. }
  destruct (kfree_inv s fl q Ha Hq) as (s1 & fl1 & Hk & Ha1 & -> & Hm1 & Hrc1); [by rewrite (Hc _ _ HTq)|].
  rewrite (Hc _ _ HTq) in *. simpl in Ha1.
  assert (∀ x, pg x ≠ q → mem s1 x = mem s x) as Hm1'.
  { intros x Hx. apply Hm1. right. unfold PGSIZE. intros ?. by apply Hx, pg_eq. }
  assert (∀ x, page_ok x → x ≠ q → page_refcnt s1 (x / PGSIZE) = page_refcnt s (x / PGSIZE)) as Hrc1'.
  { intros x Hx Hne. rewrite Hrc1. case_z; [|done]. by apply page_index_inj in e. }
  exists s1, (set_mem (λ m, store64 m (p + 8 * i) 0) s1). split_and!; [done|by apply st_slot| |..].
  - split; [split|].
    + eapply kalloc_inv_frame; [done..|]. intros x Hx. apply store64_page; [done..|]. intros E. rewrite E in Hx.
      apply elem_of_cons in Hx as [|Hx]; [done|]. by apply (pi_not_free _ _ _ _ _ _ (vi_pt _ _ _ _ Hv) HT).
    + eapply pt_rep_remove; try done. intros x Hx. simpl. unfold store64, mwrite.
      case_match; [done|]. by apply Hm1'.
    + intros k x [Hne Hk']%lookup_delete_Some. simpl. rewrite Hrc1'; [by eauto|by eapply pr_ok|].
      intros ->. apply Hne. by eapply pr_inj.
    + eapply leaf_inv_mono; [done|]. intros r' va pte HL' Hva.
      destruct (li_ok _ _ _ Hl _ _ _ HL' Hva) as (Hok & HnT & _). split.
      * simpl. apply Hrc1'; [done|]. intros E. apply (HnT (r, path ++ [i])). congruence.
      * intros k [_ Hk']%lookup_delete_Some. by eapply HnT.
  - intros x Hx1 Hx2. simpl. rewrite store64_page by done. by apply Hm1'.
  - done.
Qed.

(** ** Freeing a subtree *)

(** [T'] is [T] without the nodes strictly below [path] whose next index is
    less than [i], and the pages of those are in [fl']. *)
Record pruned (r : Z) (path : list Z) (i : Z) (s : kst) (fl : list Z) (T : tables)
    (s' : kst) (fl' : list Z) (T' : tables) : Prop := {
  pn_sub : T' ⊆ T;
  pn_keep : ∀ k p, T !! k = Some p →
    ¬ (k.1 = r ∧ ∃ j rest, k.2 = path ++ j :: rest) → T' !! k = Some p;
  pn_gone : ∀ j rest, j < i → T' !! (r, path ++ j :: rest) = None;
  pn_later : ∀ j rest, i ≤ j → T' !! (r, path ++ j :: rest) = T !! (r, path ++ j :: rest);
  pn_fl : ∀ p, p ∈ fl' ↔ p ∈ fl ∨ ∃ k, T !! k = Some p ∧ T' !! k = None;
  pn_mem : ∀ x, (∀ k, T !! k ≠ Some (pg x)) → mem s' x = mem s x;
  pn_ref : ∀ x, page_ok x → (∀ k, T !! k ≠ Some x) → page_refcnt s' (x / PGSIZE) = page_refcnt s (x / PGSIZE);
}.

Lemma freewalk_S d p : freewalk (S d) p = freewalk_loop (freewalk d) p 512 0.
Proof. reflexivity. Qed.

Lemma freewalk_loop_S rec p n i :
  freewalk_loop rec p (S n) i =
    (pte ← ld (p + 8 * i);
     if band pte PTE_V && negb (band pte (Z.lor (Z.lor PTE_R PTE_W) PTE_X)) then
       rec (PTE2PA pte);; st (p + 8 * i) 0;; freewalk_loop rec p n (i + 1)
     else if band pte PTE_V then panic "freewalk: leaf"
     else freewalk_loop rec p n (i + 1)).
Proof. reflexivity. Qed.

Lemma table_pte q : page_ok q →
  let v := Z.lor (PA2PTE q) PTE_V in
  band v PTE_V && negb (band v (Z.lor (Z.lor PTE_R PTE_W) PTE_X)) = true ∧ PTE2PA v = q.
Proof.
  intros Hq%page_ok_pa_ok. cbv zeta. rewrite PTE2PA_table, band_V_mk by done. split; [|done]. simpl.
  rewrite band_FLAGS by (vm_compute; split; congruence).
  by rewrite PTE_FLAGS_mk by (done || vm_compute; split; congruence).
Qed.

Lemma pruned_refl r path s fl T : 
  (∀ j rest, j < 0 → T !! (r, path ++ j :: rest) = None) → pruned r path 0 s fl T s fl T.
Proof.
  intros Hneg. split; try done. intros p. split; [by left|]. intros [?|(k & ? & ?)]; [done|congruence].
Qed.

Lemma slot_path_range s fl T L r path j rest p :
  pt_inv s fl T L → T !! (r, path ++ j :: rest) = Some p → 0 ≤ j < 512.
Proof.
  intros Hi E.
  assert (∃ va lv, 0 ≤ va < MAXVA ∧ 0 ≤ lv ∧ j = PX lv va) as (va & lv & Hva & Hlv & ->).
  { destruct (pr_path _ _ _ (pi_rep _ _ _ _ Hi) _ _ _ E) as [Hn|[(va & Hva & Hp)|(va & Hva & Hp)]].
    - by destruct path.
    - destruct path as [|a [|]]; simplify_eq/=. by exists va, 2.
    - destruct path as [|a [|b [|]]]; simplify_eq/=; [by exists va, 2|by exists va, 1]. }
  by apply PX_idx.
Qed.

Lemma no_negative s fl T L r path j rest : pt_inv s fl T L → j < 0 → T !! (r, path ++ j :: rest) = None.
Proof.
  intros Hi Hj. destruct (T !! (r, path ++ j :: rest)) as [p|] eqn:E; [|done]. exfalso.
  pose proof (slot_path_range _ _ _ _ _ _ _ _ _ Hi E). lia.
Qed.

(** One more child gone: the subtree below it, then the child itself. *)
Lemma pruned_child r path i s fl T s1 fl1 T1 q s2 fl2 T2 s3 L p :
  pruned r path i s fl T s1 fl1 T1 → T1 !! (r, path ++ [i]) = Some q →
  pruned r (path ++ [i]) 512 s1 fl1 T1 s2 fl2 T2 →
  (∀ rest, rest ≠ [] → T2 !! (r, path ++ [i] ++ rest) = None) →
  T1 !! (r, path) = Some p →
  (∀ x, pg x ≠ q → pg x ≠ p → mem s3 x = mem s2 x) →
  (∀ x, page_ok x → x ≠ q → page_refcnt s3 (x / PGSIZE) = page_refcnt s2 (x / PGSIZE)) →
  vm_inv s3 (q :: fl2) (delete (r, path ++ [i]) T2) L →
  pruned r path (i + 1) s fl T s3 (q :: fl2) (delete (r, path ++ [i]) T2).
Proof.
  intros [Hsub Hkeep Hgone Hlater Hfl Hmem Href] HTq [Hsub2 Hkeep2 Hgone2 Hlater2 Hfl2 Hmem2 Href2] Hch HTp Hm3 Hr3 Hv.
  assert (T2 !! (r, path ++ [i]) = Some q) as HTq2.
  { apply Hkeep2; [done|]. intros (_ & j & rest & E). simpl in E. apply (f_equal length) in E.
    rewrite !length_app in E. simpl in E. lia. }
  assert (∀ k x, T1 !! k = Some x → T !! k = Some x) as Hw by (intros; by eapply lookup_weaken).
  split.
  - etrans; [apply delete_subseteq|]. by etrans.
  - intros k x Hk Hn. apply lookup_delete_Some. split.
    + intros <-. apply Hn. simpl. eauto.
    + apply Hkeep2; [by apply Hkeep|]. intros (E & j & rest & E'). apply Hn. split; [done|].
      rewrite <- app_assoc in E'. simpl in E'. eauto.
  - intros j rest Hj. apply lookup_delete_None. destruct (decide (j = i)) as [->|].
    + destruct rest as [|b rest]; [by left|right]. by apply (Hch (b :: rest)).
    + right. eapply lookup_weaken_None; [|exact Hsub2]. apply Hgone. lia.
  - intros j rest Hj. rewrite lookup_delete_ne.
    + rewrite <- Hlater by lia. destruct (T1 !! (r, path ++ j :: rest)) as [x|] eqn:E.
      * apply Hkeep2; [done|]. intros (_ & j' & rest' & E'). simpl in E'. rewrite <- app_assoc in E'.
        apply app_inv_head in E'. simplify_eq/=. lia.
      * by eapply lookup_weaken_None.
    + intros [= E]. apply app_inv_head in E. simplify_eq. lia.
  - intros x. rewrite elem_of_cons, Hfl2, Hfl. split.
    + intros [->|[[?|(k & Hk & Hk')]|(k & Hk & Hk')]].
      * right. exists (r, path ++ [i]). split; [by apply Hw|apply lookup_delete_eq].
      * by left.
      * right. exists k. split; [done|]. apply lookup_delete_None. right. by eapply lookup_weaken_None.
      * right. exists k. split; [by apply Hw|]. apply lookup_delete_None. by right.
    + intros [?|(k & Hk & Hk')]; [by auto|]. apply lookup_delete_None in Hk' as [<-|Hk'].
      * left. pose proof (Hw _ _ HTq). congruence.
      * right. destruct (T1 !! k) as [y|] eqn:E1.
        -- right. exists k. split; [|done]. pose proof (Hw _ _ E1). congruence.
        -- left. right. eauto.
  - intros x HxT. rewrite Hm3, Hmem2, Hmem; [done|done|..].
    + intros k Hk. apply (HxT k). by apply Hw.
    + intros E. apply (HxT (r, path ++ [i])). rewrite E. by apply Hw.
    + intros E. apply (HxT (r, path)). rewrite E. by apply Hw.
  - intros x Hx HxT. rewrite Hr3, Href2, Href; [done|done|done|done| |done|].
    + intros k Hk. apply (HxT k). by apply Hw.
    + intros E. apply (HxT (r, path ++ [i])). rewrite E. by apply Hw.
Qed.

Lemma node_none m T L r path i rest :
  pt_rep m T L → (path ++ [i] = [] ∨ (2 ≤ length path)%nat ∨ T !! (r, path ++ [i]) = None) →
  T !! (r, path ++ i :: rest) = None.
Proof.
  intros Hr Hcase. destruct (T !! (r, path ++ i :: rest)) as [p|] eqn:E; [|done]. exfalso.
  assert (length (path ++ i :: rest) ≤ 2)%nat as Hlen.
  { by destruct (pr_path _ _ _ Hr _ _ _ E) as [->|[(va & _ & ->)|(va & _ & ->)]]; simpl; lia. }
  rewrite length_app in Hlen. simpl in Hlen.
  destruct Hcase as [Hnil|[?|Hnone]]; [by destruct path|lia|].
  destruct rest as [|b [|]]; simpl in *; [congruence| |lia].
  destruct path as [|a path]; [|simpl in *; lia]. simpl in *.
  destruct (pr_parent _ _ _ Hr _ _ _ _ E). congruence.
Qed.

Lemma pruned_skip r path i s fl T s1 fl1 T1 :
  pruned r path i s fl T s1 fl1 T1 → (∀ rest, T1 !! (r, path ++ i :: rest) = None) →
  pruned r path (i + 1) s fl T s1 fl1 T1.
Proof.
  intros [Hsub Hkeep Hgone Hlater Hfl Hmem Href] Hnone. split; try done.
  - intros j rest Hj. destruct (decide (j = i)) as [->|]; [done|]. apply Hgone. lia.
  - intros j rest Hj. apply Hlater. lia.
Qed.

(** An address with given indices. *)
Lemma PX_build va0 i : 0 ≤ va0 < MAXVA → 0 ≤ i < 512 →
  ∃ va, va_ok va ∧ PX 2 va = PX 2 va0 ∧ PX 1 va = PX 1 va0 ∧ PX 0 va = i.
Proof.
  assert (MAXVA = 0x4000000000) as HM by done. intros Hva Hi. exists (va0 / 2 ^ 21 * 2 ^ 21 + i * 4096).
  rewrite !PX_alt by (Z.div_mod_to_equations; lia). unfold va_ok.
  change (2 ^ (12 + 9 * 2)) with (2 ^ 21 * 512). change (2 ^ (12 + 9 * 1)) with (2 ^ 21).
  change (2 ^ (12 + 9 * 0)) with 4096.
  assert ((va0 / 2 ^ 21 * 2 ^ 21 + i * 4096) / 2 ^ 21 = va0 / 2 ^ 21) as E.
  { rewrite Z.div_add_l by lia. rewrite (Z.div_small (i * 4096)) by lia. lia. }
  split_and!.
  - Z.div_mod_to_equations. lia.
  - Z.div_mod_to_equations. lia.
  - Z.div_mod_to_equations. lia.
  - rewrite <- !Z.div_div by lia. by rewrite E.
  - by rewrite E.
  - change (2 ^ 21) with (512 * 4096). rewrite Z.mul_assoc, <- Z.mul_add_distr_r, Z.div_mul by lia.
    rewrite Z.add_comm, Z.mod_add, Z.mod_small by lia. done.
Qed.

(** In a table without leaves every slot is empty or points to a table. *)
Lemma slot_free s fl T L r path p i :
  vm_inv s fl T L → (∀ va, L !! (r, va) = None) → T !! (r, path) = Some p → 0 ≤ i < 512 →
  ld (p + 8 * i) s = Ok (match T !! (r, path ++ [i]) with Some q => Z.lor (PA2PTE q) PTE_V | None => 0 end) s ∧
  (T !! (r, path ++ [i]) = None → ∀ rest, T !! (r, path ++ i :: rest) = None) ∧
  (is_Some (T !! (r, path ++ [i])) → (length path < 2)%nat).
Proof.
  intros Hv HL HT Hi. pose proof (pi_rep _ _ _ _ (vi_pt _ _ _ _ Hv)) as Hr. pose proof (pr_ok _ _ _ Hr _ _ HT) as Hp.
  rewrite ld_slot by done. split_and!.
  - destruct (decide (length path < 2)%nat) as [Hl|Hl]; [by rewrite (pr_node _ _ _ Hr r path p i)|].
    rewrite (node_none _ _ _ r path i [] Hr) by (right; left; lia).
    destruct (pr_path _ _ _ Hr _ _ _ HT) as [->|[(va & _ & ->)|(va0 & Hva0 & ->)]]; simpl in Hl; try lia.
    destruct (PX_build va0 i Hva0 Hi) as (va & Hva & E2 & E1 & E0).
    rewrite <- E2, <- E1 in HT. pose proof (pr_leaf _ _ _ Hr r va p Hva HT) as Hlf. rewrite HL, E0 in Hlf.
    by rewrite Hlf.
  - intros Hn rest. eapply node_none; eauto.
  - intros [q Hq]. destruct (pr_path _ _ _ Hr _ _ _ Hq) as [E|[(va & _ & E)|(va & _ & E)]];
      apply (f_equal length) in E; rewrite length_app in E; simpl in E; lia.
Qed.

Section loop.
  Context (L : leaves) (r : Z) (HL : ∀ va, L !! (r, va) = None).

(** [freewalk d] empties the subtree of a node at depth [3 - d] and then frees
    the node's own page. *)
Definition frees (d : nat) : Prop := ∀ s fl T path q,
  vm_inv s fl T L → T !! (r, path) = Some q → (length path + d = 3)%nat →
  ∃ s1 fl1 T1, freewalk d q s = kfree q s1 ∧ vm_inv s1 fl1 T1 L ∧ pruned r path 512 s fl T s1 fl1 T1.

Lemma freewalk_loop_spec d n i s fl T path p s1 fl1 T1 :
  frees d → (length path + S d = 3)%nat → T !! (r, path) = Some p → 0 ≤ i → i + Z.of_nat n = 512 →
  vm_inv s1 fl1 T1 L → pruned r path i s fl T s1 fl1 T1 →
  ∃ s' fl' T', freewalk_loop (freewalk d) p n i s1 = kfree p s' ∧ vm_inv s' fl' T' L ∧
    pruned r path 512 s fl T s' fl' T'.
Proof using HL.
  intros Hrec Hlen HT. revert i s1 fl1 T1. induction n as [|n IH]; intros i s1 fl1 T1 Hi Hn Hv Hpr.
  { exists s1, fl1, T1. split_and!; [done..|]. by replace 512 with i by lia. }
  assert (T1 !! (r, path) = Some p) as HT1.
  { eapply pn_keep; [done..|]. intros (_ & j & rest & E). simpl in E. apply (f_equal length) in E.
    rewrite length_app in E. simpl in E. lia. }
  destruct (slot_free s1 fl1 T1 L r path p i) as (Hld & Hnone & Hshort); [done..|lia|].
  rewrite freewalk_loop_S. unfold mbind, M_bind. rewrite Hld.
  destruct (T1 !! (r, path ++ [i])) as [q|] eqn:Eq.
  - pose proof (pr_ok _ _ _ (pi_rep _ _ _ _ (vi_pt _ _ _ _ Hv)) _ _ Eq) as Hq.
    destruct (table_pte q Hq) as [-> ->].
    destruct (Hrec s1 fl1 T1 (path ++ [i]) q) as (s2 & fl2 & T2 & -> & Hv2 & Hpr2);
      [done..|rewrite length_app; simpl; lia|].
    assert (∀ rest, rest ≠ [] → T2 !! (r, path ++ [i] ++ rest) = None) as Hch.
    { intros [|b rest] Hne; [done|]. rewrite app_assoc. destruct (decide (b < 512)); [by eapply pn_gone|].
      destruct (T2 !! (r, (path ++ [i]) ++ b :: rest)) as [x|] eqn:E; [|done]. exfalso.
      pose proof (slot_path_range _ _ _ _ _ _ _ _ _ (vi_pt _ _ _ _ Hv2) E). lia. }
    destruct (free_table s2 fl2 T2 L r path i p q) as (s2' & s3 & Hk & Hst & Hv3 & Hm3 & Hr3); try done.
    + eapply pn_keep; [done..|]. intros (_ & j & rest & E). simpl in E. apply (f_equal length) in E.
      rewrite !length_app in E. simpl in E. lia.
    + eapply pn_keep; [done..|]. intros (_ & j & rest & E). simpl in E. apply (f_equal length) in E.
      rewrite !length_app in E. simpl in E. lia.
    + apply Hshort. by eexists.
    + lia.
    + rewrite Hk, Hst. eapply IH; [lia|lia|done|]. by eapply pruned_child.
  - change (band 0 PTE_V) with false. cbn [andb]. eapply IH; [lia|lia|done|]. apply pruned_skip; [done|]. by apply Hnone.
Qed.

Lemma frees_0 : frees 0.
Proof.
  intros s fl T path q Hv HT Hl. destruct (pr_path _ _ _ (pi_rep _ _ _ _ (vi_pt _ _ _ _ Hv)) _ _ _ HT)
    as [->|[(va & _ & ->)|(va & _ & ->)]]; simpl in Hl; lia.
Qed.

Lemma frees_S d : frees d → frees (S d).
Proof using HL.
  intros Hrec s fl T path q Hv HT Hl. rewrite freewalk_S.
  eapply freewalk_loop_spec; [done|done|done|lia|lia|done|]. apply pruned_refl.
  intros j rest Hj. eapply no_negative; [apply Hv|done].
Qed.

End loop.

(** ** The whole tree *)

(** Freeing a root that has no children left. *)
Lemma free_root s fl T L r :
  vm_inv s fl T L → T !! (r, []) = Some r → (∀ path, path ≠ [] → T !! (r, path) = None) →
  (∀ va, L !! (r, va) = None) →
  ∃ s', kfree r s = Ok tt s' ∧ vm_inv s' (r :: fl) (delete (r, []) T) L ∧
    (∀ x, pg x ≠ r → mem s' x = mem s x) ∧
    (∀ x, page_ok x → x ≠ r → page_refcnt s' (x / PGSIZE) = page_refcnt s (x / PGSIZE)).
Proof.
  intros Hv HT Hch HL. pose proof Hv as [[Ha Hr Hc] Hl]. pose proof (pr_ok _ _ _ Hr _ _ HT) as Hp.
  pose proof (page_ok_range _ Hp) as (?&?&?).
  destruct (kfree_inv s fl r Ha Hp) as (s1 & fl1 & Hk & Ha1 & -> & Hm1 & Hrc1); [by rewrite (Hc _ _ HT)|].
  rewrite (Hc _ _ HT) in *. simpl in Ha1.
  assert (∀ x, pg x ≠ r → mem s1 x = mem s x) as Hm1'.
  { intros x Hx. apply Hm1. right. unfold PGSIZE. intros ?. by apply Hx, pg_eq. }
  assert (∀ x, page_ok x → x ≠ r → page_refcnt s1 (x / PGSIZE) = page_refcnt s (x / PGSIZE)) as Hrc1'.
  { intros x Hx Hne. rewrite Hrc1. case_z; [|done]. by apply page_index_inj in e. }
  assert (∀ r' path, r' ≠ r → delete (r, []) T !! (r', path) = T !! (r', path)) as Hoth.
  { intros r' path Hne. apply lookup_delete_ne. congruence. }
  assert (∀ k p, delete (r, []) T !! k = Some p → T !! k = Some p ∧ k.1 ≠ r ∧ p ≠ r) as Hk'.
  { intros [r' path] p [Hne HT']%lookup_delete_Some. split; [done|]. simpl. split.
    - intros ->. destruct path; [done|]. by rewrite Hch in HT'.
    - intros ->. apply Hne. by eapply pr_inj. }
  exists s1. split; [done|]. split; [|done]. split; [split; [done| |]|].
  - split.
    + intros r' path p (HT' & Hne & _)%Hk'. rewrite Hoth by done. by eapply pr_root.
    + intros r' path p (HT' & Hne & _)%Hk'. by eapply pr_path.
    + intros r' i j p (HT' & Hne & _)%Hk'. rewrite Hoth by done. by eapply pr_parent.
    + intros k1 k2 p (HT1 & _)%Hk' (HT2 & _)%Hk'. by eapply pr_inj.
    + intros k p (HT' & _)%Hk'. by eapply pr_ok.
    + intros r' path p i (HT' & Hne & Hpr)%Hk' Hlen Hi. rewrite Hoth by done.
      rewrite <- (pr_node _ _ _ Hr r' path p i) by done.
      apply load64_page; [by eapply pr_ok|done|]. intros x Hx. apply Hm1'. congruence.
    + intros r' va p Hva (HT' & Hne & Hpr)%Hk'. rewrite <- (pr_leaf _ _ _ Hr r' va p) by done.
      apply load64_page; [by eapply pr_ok|apply PX_idx; [lia|apply Hva]|]. intros x Hx. apply Hm1'. congruence.
    + intros r' va pte HL'. destruct (pr_dom _ _ _ Hr _ _ _ HL') as (? & ? & ?). split; [done|split; [|done]].
      rewrite Hoth; [done|]. intros ->. by rewrite HL in HL'.
  - intros k p (HT' & _ & Hpr)%Hk'. rewrite Hrc1'; [by eauto|by eapply pr_ok|done].
  - eapply leaf_inv_mono; [done|]. intros r' va pte HL' Hva.
    destruct (li_ok _ _ _ Hl _ _ _ HL' Hva) as (Hok & HnT & _). split.
    + apply Hrc1'; [done|]. intros E. apply (HnT (r, [])). congruence.
    + intros k (HT' & _)%Hk'. by eapply HnT.
Qed.

(** The tree of [r] is gone, its tables are free, and every other tree, page and
    reference count is as before. *)
Record tree_freed (r : Z) (s : kst) (fl : list Z) (T : tables) (s' : kst) (fl' : list Z) (T' : tables) : Prop := {
  tf_gone : ∀ path, T' !! (r, path) = None;
  tf_keep : ∀ r' path, r' ≠ r → T' !! (r', path) = T !! (r', path);
  tf_fl : ∀ p, p ∈ fl' ↔ p ∈ fl ∨ ∃ path, T !! (r, path) = Some p;
  tf_mem : ∀ x, (∀ k, T !! k ≠ Some (pg x)) → mem s' x = mem s x;
  tf_ref : ∀ x, page_ok x → (∀ k, T !! k ≠ Some x) → page_refcnt s' (x / PGSIZE) = page_refcnt s (x / PGSIZE);
}.

Lemma freewalk_spec s fl T L r :
  vm_inv s fl T L → T !! (r, []) = Some r → (∀ va, L !! (r, va) = None) →
  ∃ s' fl' T', freewalk 3 r s = Ok tt s' ∧ vm_inv s' fl' T' L ∧ tree_freed r s fl T s' fl' T'.
Proof.
  intros Hv HT HL. assert (frees L r 3) as Hf by (do 3 (apply frees_S; [done|]); apply frees_0).
  destruct (Hf s fl T [] r) as (s1 & fl1 & T1 & -> & Hv1 & Hpr); [done..|].
  pose proof Hpr as [Hsub Hkeep Hgone _ Hfl Hmem Href]. simpl in *.
  assert (T1 !! (r, []) = Some r) as HT1 by (apply Hkeep; [done|]; intros (_ & j & rest & E); done).
  assert (∀ path, path ≠ [] → T1 !! (r, path) = None) as Hall.
  { intros [|j rest] Hne; [done|]. destruct (decide (j < 512)); [by apply Hgone|].
    destruct (T1 !! (r, j :: rest)) as [x|] eqn:E; [|done]. exfalso.
    pose proof (slot_path_range _ _ _ _ _ [] _ _ _ (vi_pt _ _ _ _ Hv1) E). lia. }
  destruct (free_root s1 fl1 T1 L r) as (s' & Hk & Hv' & Hm & Hr); [done..|].
  exists s', (r :: fl1), (delete (r, []) T1). split; [done|]. split; [done|]. split.
  - intros path. apply lookup_delete_None. destruct path; [by left|right; by apply Hall].
  - intros r' path Hne. rewrite lookup_delete_ne by congruence. destruct (T !! (r', path)) as [x|] eqn:E.
    + apply Hkeep; [done|]. by intros [? _].
    + by eapply lookup_weaken_None.
  - intros p. rewrite elem_of_cons, Hfl. split.
    + intros [->|[?|([r' path] & Hk1 & Hk2)]]; [by right; exists []|by left|]. right.
      destruct (decide (r' = r)) as [->|Hne]; [by exists path|].
      rewrite (Hkeep (r', path) p Hk1) in Hk2; [done|]. by intros [? _].
    + intros [?|[path Hp]]; [by auto|]. destruct path as [|j rest]; [left; congruence|].
      right. right. exists (r, j :: rest). split; [done|]. by apply Hall.
  - intros x HxT. rewrite Hm; [by apply Hmem|]. intros E. apply (HxT (r, [])). congruence.
  - intros x Hx HxT. rewrite Hr; [by apply Href|done|]. intros ->. by apply (HxT (r, [])).
Qed.

Lemma urefs_0 L p : (∀ r va pte, L !! (r, va) = Some pte → va < TRAPFRAME → PTE2PA pte ≠ p) → urefs L p = 0.
Proof.
  intros Hno. destruct (decide (0 < urefs L p)) as [(r & va & pte & HL & Hva & E)%urefs_inv|]; [by destruct (Hno _ _ _ HL Hva)|].
  pose proof (urefs_nonneg L p). lia.
Qed.

Lemma uvmfree_spec s fl T L r sz :
  vm_inv s fl T L → T !! (r, []) = Some r → 0 ≤ sz ≤ TRAPFRAME →
  (∀ va, is_Some (L !! (r, va)) ↔ 0 ≤ va < PGROUNDUP sz ∧ va mod 4096 = 0) →
  wp (uvmfree r sz) s (λ _ s', ∃ fl' T' L', vm_inv s' fl' T' L' ∧
    (∀ r' va, L' !! (r', va) = if decide (r' = r) then None else L !! (r', va)) ∧
    (∀ r' path, T' !! (r', path) = if decide (r' = r) then None else T !! (r', path)) ∧
    (∀ path p, T !! (r, path) = Some p → p ∈ fl') ∧
    (∀ va pte, L !! (r, va) = Some pte → urefs L' (PTE2PA pte) = 0 → PTE2PA pte ∈ fl') ∧
    (∀ p, p ∈ fl → p ∈ fl') ∧
    (∀ x, pg x ∉ fl' → (∀ k, T !! k ≠ Some (pg x)) → mem s' x = mem s x) ∧
    (∀ q, owned s fl T L q → owned s' fl' T' L' q)).
Proof.
  intros Hv HT Hsz Hdom. destruct (PGROUNDUP_le sz Hsz) as (Hr1 & Hr2 & Hr3).
  set (hi := PGROUNDUP sz) in *. set (L1 := unmap_range r 0 hi L).
  assert (∃ s1 freed, (if sz >? 0 then uvmunmap r 0 (hi / PGSIZE) true else mret ()) s = Ok tt s1 ∧
    vm_inv s1 (freed ++ fl) T L1 ∧ shrink (targets L r 0 hi) s fl T s1 freed ∧ balanced s L s1 L1)
    as (s1 & freed & Hs1 & Hv1 & [Hf1 _ Hm1] & Hb1).
  { destruct (Z.gtb_spec sz 0) as [Hp|Hp].
    - destruct (uvmunmap_range s fl T L r 0 hi) as (s1 & freed & Hs1 & Hrest); [done|done|done|lia| |].
      + intros va Hva Ha. by apply Hdom.
      + rewrite Z.sub_0_r in Hs1. exists s1, freed. done.
    - exists s, []. assert (hi = 0) as E by (assert (sz = 0) as E by lia; unfold hi; by rewrite E).
      unfold L1. rewrite unmap_range_nil by lia. split; [done|]. split; [done|].
      split; [split; [by intros ? ?%elem_of_nil|done|done]|]. intros p _. lia. }
  assert (∀ r' va, L1 !! (r', va) = if decide (r' = r) then None else L !! (r', va)) as HL1.
  { intros r' va. unfold L1. rewrite lookup_unmap_range_eq. destruct (decide (r' = r)) as [->|Hne].
    - case_decide as E; [done|]. destruct (L !! (r, va)) as [pte|] eqn:EL; [|done].
      destruct (Hdom va) as [[??] _]; [by eexists|]. exfalso. by apply E.
    - by rewrite decide_False by naive_solver. }
  destruct (freewalk_spec s1 (freed ++ fl) T L1 r) as (s2 & fl2 & T2 & Hs2 & Hv2 & Htf); [done|done|..].
  { intros va. by rewrite HL1, decide_True. }
  pose proof Htf as [Hgone Hkeep Hfl Hmem Href].
  unfold wp, uvmfree, mbind, M_bind. fold hi. rewrite Hs1, Hs2. exists fl2, T2, L1. split_and!; [done|done|..].
  - intros r' path. case_decide as E; [by rewrite E|by apply Hkeep].
  - intros path p Hp. apply Hfl. right. by exists path.
  - intros va pte HL Hur. apply Hfl. left.
    assert (va < TRAPFRAME) as Hva by (destruct (Hdom va) as [[??] _]; [by eexists|lia]).
    destruct (leaf_used _ _ _ _ _ _ _ Hv HL Hva) as (Hok & _).
    apply (ki_zero _ _ _ (pi_alloc _ _ _ _ (vi_pt _ _ _ _ Hv1))); [done|apply Hok|].
    specialize (Hb1 _ Hok). rewrite (li_ref _ _ _ (vi_leaf _ _ _ _ Hv) _ _ _ HL Hva) in Hb1. lia.
  - intros p Hp. apply Hfl. left. apply elem_of_app. by right.
  - intros x Hx HxT. rewrite Hmem, Hm1; [done| |done|done].
    intros Hin. apply Hx, Hfl. left. apply elem_of_app. by left.
  - intros q [Hok Hnf HnT Hnr Hrc].
    assert (urefs L1 q = 0) as Hnr1.
    { apply urefs_0. intros r' va pte HL Hva E. rewrite HL1 in HL. case_decide; [done|]. pose proof (urefs_pos _ _ _ _ HL Hva). subst q. lia. }
    assert (page_refcnt s2 (q / PGSIZE) = 1) as Hrc2 by (rewrite Href by done; specialize (Hb1 _ Hok); lia).
    split; [done| | |done|done].
    + rewrite (ki_zero _ _ _ (pi_alloc _ _ _ _ (vi_pt _ _ _ _ Hv2))) by (done || apply Hok). lia.
    + intros [r' path]. destruct (decide (r' = r)) as [->|]; [by rewrite Hgone|]. by rewrite Hkeep.
Qed.

(** C17: [uvmfree] frees an address space.  For a process that maps exactly
    [0, sz), it returns, unmaps every page, removes the whole tree, and puts on
    the free list every page-table page and every user page that no other
    process maps; pages another process still maps keep their contents, and no
    other tree or mapping changes. *)
Theorem uvmfree_correct s fl T L r sz :
  vm_inv s fl T L → T !! (r, []) = Some r → 0 ≤ sz ≤ TRAPFRAME →
  (∀ va, is_Some (L !! (r, va)) ↔ 0 ≤ va < PGROUNDUP sz ∧ va mod 4096 = 0) →
  wp (uvmfree r sz) s (λ _ s', ∃ fl' T' L', vm_inv s' fl' T' L' ∧
    (∀ r' va, L' !! (r', va) = if decide (r' = r) then None else L !! (r', va)) ∧
    (∀ r' path, T' !! (r', path) = if decide (r' = r) then None else T !! (r', path)) ∧
    (∀ path p, T !! (r, path) = Some p → p ∈ fl') ∧
    (∀ va pte, L !! (r, va) = Some pte → urefs L' (PTE2PA pte) = 0 → PTE2PA pte ∈ fl') ∧
    (∀ p, p ∈ fl → p ∈ fl') ∧
    (∀ x, pg x ∉ fl' → (∀ k, T !! k ≠ Some (pg x)) → mem s' x = mem s x)).
Proof.
  intros. eapply wp_mono; [by apply (uvmfree_spec s fl T L)|]. intros _ s' (fl' & T' & L' & Hf1 & Hf2 & Hf3 & Hf4 & Hf5 & Hf6 & Hf7 & _). by exists fl', T', L'.
Qed.

End free.

Lemma uvmfree_correct_witness :
  ∃ s fl T L, @vm_inv demo_image s fl T L ∧ is_Some (L !! (demo_p, 4096)) ∧
  wp (@uvmfree demo_image demo_p 8192) s (λ _ s', ∃ fl' T' L', @vm_inv demo_image s' fl' T' L' ∧
    (∀ r' va, L' !! (r', va) = if decide (r' = demo_p) then None else L !! (r', va)) ∧
    (∀ r' path, T' !! (r', path) = if decide (r' = demo_p) then None else T !! (r', path)) ∧
    (∀ path p, T !! (demo_p, path) = Some p → p ∈ fl') ∧
    (∀ va pte, L !! (demo_p, va) = Some pte → urefs L' (PTE2PA pte) = 0 → PTE2PA pte ∈ fl') ∧
    (∀ p, p ∈ fl → p ∈ fl') ∧
    (∀ x, pg x ∉ fl' → (∀ k, T !! k ≠ Some (pg x)) → mem s' x = mem s x)).
Proof.
  destruct demo_fork_ok as (s & fl & T & L & _ & Hv & HTp & _ & Hdom & _).
  exists s, fl, T, L. split; [exact Hv|]. split; [apply Hdom; split; [lia|reflexivity]|].
  apply (@uvmfree_correct demo_image s fl T L demo_p 8192);
    [exact Hv|exact HTp|vm_compute; split; congruence|exact Hdom].
Defined.
