(* ===== verification/Cow.v ===== *)
(** * Copy-on-write fork

    [uvmcopy], [copyout], [copyin] and [copyinstr] of [kernel/vm.c] against the
    contents of address spaces: [view] is the byte a process reads at a user
    address.  After a fork, parent and child have the same view, share every
    page, and a write to either through [copyout] leaves the other alone. *)

From S2P Require Import Prelude Riscv Mem CString Kalloc Vm VmTree VmOps.

(** ** The PTE updates *)

(** What [uvmcopy] makes of a parent's PTE. *)
Definition cow_pte (pte : Z) : Z :=
  if band pte PTE_W then Z.lor (Z.lxor pte PTE_W) PTE_COW else pte.

(** The child's PTE for a page of the parent. *)
Definition child_pte (pte : Z) : Z := mk_pte (PTE2PA pte) (PTE_FLAGS (cow_pte pte)).

Lemma small_shiftr f : 0 ≤ f < 1024 → Z.shiftr f 10 = 0.
Proof. intros. rewrite Z.shiftr_div_pow2 by lia. apply Z.div_small. lia. Qed.

Lemma PTE2PA_lor pte f : 0 ≤ f < 1024 → PTE2PA (Z.lor pte f) = PTE2PA pte.
Proof. intros. unfold PTE2PA. by rewrite Z.shiftr_lor, (small_shiftr f), Z.lor_0_r. Qed.

Lemma PTE2PA_lxor pte f : 0 ≤ f < 1024 → PTE2PA (Z.lxor pte f) = PTE2PA pte.
Proof. intros. unfold PTE2PA. by rewrite Z.shiftr_lxor, (small_shiftr f), Z.lxor_0_r. Qed.

Lemma flag_range k : 0 ≤ k < 10 → 0 ≤ Z.shiftl 1 k < 1024.
Proof.
  intros. rewrite Z.shiftl_1_l. split; [lia|]. change 1024 with (2 ^ 10). apply Z.pow_lt_mono_r; lia.
Qed.

(** Flag facts by enumerating the 1024 flag fields. *)
Lemma flags_enum (P : Z → bool) :
  forallb (λ n, P (Z.of_nat n)) (seq 0 1024) = true → ∀ f, 0 ≤ f < 1024 → P f = true.
Proof.
  intros HP f Hf. rewrite forallb_forall in HP. rewrite <- (Z2Nat.id f) by lia. apply HP.
  apply in_seq. lia.
Qed.

Lemma PTE_FLAGS_lor pte f : 0 ≤ f < 1024 → PTE_FLAGS (Z.lor pte f) = Z.lor (PTE_FLAGS pte) f.
Proof.
  intros. unfold PTE_FLAGS. rewrite Z.land_lor_distr_l. f_equal. change 0x3FF with (Z.ones 10).
  rewrite Z.land_ones by lia. apply Z.mod_small. lia.
Qed.

Lemma land_lxor_distr_r x y m : Z.land (Z.lxor x y) m = Z.lxor (Z.land x m) (Z.land y m).
Proof.
  apply Z.bits_inj'. intros n Hn. rewrite !Z.land_spec, !Z.lxor_spec, !Z.land_spec.
  by destruct (Z.testbit x n), (Z.testbit y n), (Z.testbit m n).
Qed.

Lemma PTE_FLAGS_lxor pte f : 0 ≤ f < 1024 → PTE_FLAGS (Z.lxor pte f) = Z.lxor (PTE_FLAGS pte) f.
Proof.
  intros. unfold PTE_FLAGS. rewrite land_lxor_distr_r. f_equal. change 0x3FF with (Z.ones 10).
  rewrite Z.land_ones by lia. apply Z.mod_small. lia.
Qed.

Ltac flag_bounds := unfold PTE_V, PTE_R, PTE_W, PTE_X, PTE_U, PTE_COW; apply flag_range; lia.

Lemma cow_pte_flags pte : PTE_FLAGS (cow_pte pte) = cow_pte (PTE_FLAGS pte).
Proof.
  unfold cow_pte. rewrite (band_FLAGS pte) by flag_bounds. case_match; [|done].
  by rewrite PTE_FLAGS_lor, PTE_FLAGS_lxor by flag_bounds.
Qed.

Lemma cow_pte_PA pte : PTE2PA (cow_pte pte) = PTE2PA pte.
Proof. unfold cow_pte. case_match; [|done]. by rewrite PTE2PA_lor, PTE2PA_lxor by flag_bounds. Qed.

(** A flag-level statement about [cow_pte] transfers to PTEs. *)
Lemma cow_pte_enum (P : Z → Z → bool) pte :
  forallb (λ n, P (Z.of_nat n) (cow_pte (Z.of_nat n))) (seq 0 1024) = true →
  P (PTE_FLAGS pte) (PTE_FLAGS (cow_pte pte)) = true.
Proof.
  intros HP. rewrite cow_pte_flags. apply (flags_enum (λ f, P f (cow_pte f))); [done|apply PTE_FLAGS_range].
Qed.

Lemma cow_pte_noW pte : band (cow_pte pte) PTE_W = false.
Proof.
  rewrite band_FLAGS by flag_bounds. apply negb_true_iff.
  apply (cow_pte_enum (λ _ g, negb (band g PTE_W))). by vm_compute.
Qed.

Lemma cow_pte_keep pte m : m ∈ [PTE_V; PTE_R; PTE_X; PTE_U] → band (cow_pte pte) m = band pte m.
Proof.
  intros Hm. assert (0 ≤ m < 1024) by (set_unfold in Hm; naive_solver flag_bounds).
  rewrite (band_FLAGS pte), (band_FLAGS (cow_pte pte)) by done. apply eqb_prop.
  apply (cow_pte_enum (λ f g, Bool.eqb (band g m) (band f m))).
  set_unfold in Hm. destruct_or!; subst; by vm_compute.
Qed.

Lemma cow_pte_COW pte : band (cow_pte pte) PTE_COW = band pte PTE_W || band pte PTE_COW.
Proof.
  rewrite !(band_FLAGS pte), (band_FLAGS (cow_pte pte)) by flag_bounds. apply eqb_prop.
  apply (cow_pte_enum (λ f g, Bool.eqb (band g PTE_COW) (band f PTE_W || band f PTE_COW))). by vm_compute.
Qed.

Lemma cow_pte_leaf pte : PTE_FLAGS pte ≠ PTE_V → PTE_FLAGS (cow_pte pte) ≠ PTE_V.
Proof.
  intros Hf Hc. apply Hf, Z.eqb_eq.
  pose proof (cow_pte_enum (λ f g, implb (g =? PTE_V) (f =? PTE_V)) pte ltac:(by vm_compute)) as Hi.
  cbv beta in Hi. by rewrite (proj2 (Z.eqb_eq _ _) Hc) in Hi.
Qed.

Lemma cow_pte_ok pte : leaf_ok (Some pte) → leaf_ok (Some (cow_pte pte)).
Proof.
  intros Hok p [= <-]. destruct (Hok pte eq_refl) as [HV Hr]. split.
  - rewrite cow_pte_keep; [done|]. set_solver.
  - unfold cow_pte. case_match; [|done].
    assert (∀ k, 0 ≤ k < 10 → 0 ≤ Z.shiftl 1 k < 2 ^ 64) as Hf by (intros k Hk; pose proof (flag_range k Hk); lia).
    apply lor_bound; [lia|apply lxor_bound; [lia|done|]|]; apply Hf; lia.
Qed.

Lemma flags_lor_V pte : band pte PTE_V = true → Z.lor (PTE_FLAGS pte) PTE_V = PTE_FLAGS pte.
Proof.
  rewrite band_FLAGS by flag_bounds. intros HV.
  assert (implb (band (PTE_FLAGS pte) PTE_V) (Z.lor (PTE_FLAGS pte) PTE_V =? PTE_FLAGS pte) = true) as Hi.
  { apply (flags_enum (λ f, implb (band f PTE_V) (Z.lor f PTE_V =? f))); [by vm_compute|apply PTE_FLAGS_range]. }
  rewrite HV in Hi. by apply Z.eqb_eq in Hi.
Qed.

Section cow.
Context `{KernelImage}.

Lemma child_pte_PA pte : page_ok (PTE2PA pte) → PTE2PA (child_pte pte) = PTE2PA pte.
Proof. intros. unfold child_pte. rewrite mk_pte_PA; [done|by apply page_ok_pa_ok|apply PTE_FLAGS_range]. Qed.

Lemma child_pte_band pte m :
  page_ok (PTE2PA pte) → 0 ≤ m < 1024 → band pte PTE_V = true →
  band (child_pte pte) m = band (cow_pte pte) m.
Proof.
  intros Hp Hm HV. unfold child_pte.
  rewrite mk_pte_band by (done || by apply page_ok_pa_ok || apply PTE_FLAGS_range).
  rewrite <- band_FLAGS by done. destruct (band (cow_pte pte) m) eqn:E; [done|].
  destruct (band PTE_V m) eqn:EV; [|done]. exfalso.
  assert (Z.testbit m 0 = true) as Hm0.
  { revert EV. unfold band, PTE_V. rewrite Z.shiftl_1_l. change (2 ^ 0) with 1. intros Hb.
    destruct (Z.testbit m 0) eqn:Eb; [done|]. apply negb_true_iff, Z.eqb_neq in Hb. destruct Hb.
    apply Z.bits_inj'. intros n Hn. rewrite Z.land_spec, Z.testbit_0_l.
    destruct (decide (n = 0)) as [->|]; [by rewrite Eb, andb_false_r|].
    change 1 with (2 ^ 0). by rewrite Z.pow2_bits_false by lia. }
  assert (Z.testbit (cow_pte pte) 0 = true) as Hc0.
  { rewrite <- (cow_pte_keep pte PTE_V) in HV by set_solver. unfold PTE_V in HV. rewrite band_flags in HV by lia.
    rewrite PTE_FLAGS_alt in HV. change 1024 with (2 ^ 10) in HV. by rewrite Z.mod_pow2_bits_low in HV by lia. }
  revert E. unfold band. intros E%negb_false_iff%Z.eqb_eq.
  apply (f_equal (λ z, Z.testbit z 0)) in E. by rewrite Z.land_spec, Hm0, Hc0 in E.
Qed.

(** ** uvmcopy *)

(** The tree of [r] may have new tables, taken from [fl]; no other page that was
    in use has been written. *)
Record tree_ext (r : Z) (s : kst) (fl : list Z) (T : tables) (s' : kst) (fl' : list Z) (T' : tables) : Prop := {
  te_fl : ∀ p, p ∈ fl' → p ∈ fl;
  te_sub : T ⊆ T';
  te_new : ∀ k p, T' !! k = Some p → T !! k = Some p ∨ (T !! k = None ∧ k.1 = r ∧ k.2 ≠ [] ∧ p ∈ fl);
  te_mem : ∀ x, pg x ∉ fl → (∀ k, T !! k ≠ Some (pg x)) → mem s' x = mem s x;
}.

Lemma tree_ext_trans r s fl T s1 fl1 T1 s2 fl2 T2 :
  tree_ext r s fl T s1 fl1 T1 → tree_ext r s1 fl1 T1 s2 fl2 T2 → tree_ext r s fl T s2 fl2 T2.
Proof.
  intros [Hf1 Hs1 Hn1 Hm1] [Hf2 Hs2 Hn2 Hm2]. split; [by auto|by etrans|..].
  - intros k p Hk. destruct (Hn2 _ _ Hk) as [?|(?&?&?&?)]; [by auto|].
    right. split_and!; [by eapply lookup_weaken_None|auto..].
  - intros x Hx HT. rewrite Hm2, Hm1; auto. intros k Hk.
    destruct (Hn1 _ _ Hk) as [?|(?&?&?&?)]; [by eapply HT|done].
Qed.

Lemma grow_tree_ext r s fl T s' fl' T' new : grow r s fl T s' fl' T' new → tree_ext r s fl T s' fl' T'.
Proof.
  intros [Hf Hs Hn Hu Hr Hm]. split; [|done|..].
  - intros p Hp. rewrite Hf, elem_of_app. by right.
  - intros k p Hk. destruct (Hn _ _ Hk) as [?|(?&?&?&?)]; [by left|right]. rewrite Hf, elem_of_app. auto.
  - intros x Hx. rewrite Hf, elem_of_app in Hx. apply Hm. tauto.
Qed.

(** A state that differs only in table pages. *)
Lemma tree_ext_tables r s fl T s' : (∀ x, (∀ k, T !! k ≠ Some (pg x)) → mem s' x = mem s x) → tree_ext r s fl T s' fl T.
Proof. intros Hm. split; auto. Qed.

(** The leaves after [uvmcopy] has done the pages of [old] below [hi]; [child] is
    false on the failure path, once the child's mappings are gone again. *)
Record forked (child : bool) (old new hi : Z) (L L' : leaves) : Prop := {
  fk_old : ∀ va, L' !! (old, va) = (λ pte, if va <? hi then cow_pte pte else pte) <$> L !! (old, va);
  fk_child : ∀ va, L' !! (new, va) =
    if child && (va <? hi) then child_pte <$> L !! (old, va) else L !! (new, va);
  fk_rest : ∀ r va, r ≠ old → r ≠ new → L' !! (r, va) = L !! (r, va);
}.

Lemma forked_half old new i L L1 pte :
  forked true old new i L L1 → old ≠ new → i mod 4096 = 0 →
  (∀ va pte, L !! (old, va) = Some pte → va mod 4096 = 0) → (∀ va, va < i + 4096 → L !! (new, va) = None) →
  (∀ va pte, L !! (old, va) = Some pte → 0 ≤ va) → L !! (old, i) = Some pte →
  forked true old new (i + 4096) L (<[(new, i) := child_pte pte]> (<[(old, i) := cow_pte pte]> L1)) ∧
  forked false old new (i + 4096) L (unmap_range new 0 i (<[(old, i) := cow_pte pte]> L1)).
Proof.
  intros [Ho Hc Hr] Hne Hi Hal Hnew Hpos Hpte.
  assert (∀ va, <[(old, i) := cow_pte pte]> L1 !! (old, va) =
    (λ pte, if va <? i + 4096 then cow_pte pte else pte) <$> L !! (old, va)) as Hold'.
  { intros va. rewrite lookup_insert. case_decide as E.
    - simplify_eq. rewrite Hpte. simpl. by z_decide.
    - rewrite Ho. destruct (L !! (old, va)) as [pte'|] eqn:E'; [|done]. simpl.
      specialize (Hal _ _ E'). assert (va ≠ i) by congruence.
      destruct (Z.ltb_spec va i), (Z.ltb_spec va (i + 4096)); try done; [lia|].
      exfalso. Z.div_mod_to_equations. lia. }
  split; split.
  - intros va. by rewrite lookup_insert_ne by congruence.
  - intros va. rewrite lookup_insert. case_decide as E.
    + simplify_eq. rewrite Hpte. simpl. by z_decide.
    + rewrite lookup_insert_ne by congruence. rewrite Hc. simpl.
      destruct (Z.ltb_spec va i), (Z.ltb_spec va (i + 4096)); try done; [lia|].
      rewrite Hnew by lia. destruct (L !! (old, va)) as [pte'|] eqn:E'; [|done]. exfalso.
      specialize (Hal _ _ E'). assert (va ≠ i) by congruence. Z.div_mod_to_equations. lia.
  - intros r va H1 H2. rewrite !lookup_insert_ne by congruence. by apply Hr.
  - intros va. rewrite lookup_unmap_range_eq, decide_False by (intros [? _]; congruence). apply Hold'.
  - intros va. rewrite lookup_unmap_range_eq. case_decide as E.
    + simpl. by rewrite Hnew by lia.
    + rewrite lookup_insert_ne by congruence. rewrite Hc. simpl.
      destruct (Z.ltb_spec va i); [|done]. rewrite Hnew by lia.
      destruct (L !! (old, va)) as [pte'|] eqn:E'; [|done]. exfalso. apply E. split; [done|].
      specialize (Hpos _ _ E'). lia.
  - intros r va H1 H2. rewrite lookup_unmap_range_eq, decide_False by (intros [? _]; congruence).
    rewrite lookup_insert_ne by congruence. by apply Hr.
Qed.

(** References and mappings of a page that was in use change together. *)
Definition counted (fl : list Z) (s : kst) (L : leaves) (s' : kst) (L' : leaves) : Prop := ∀ q, page_ok q → q ∉ fl →
  page_refcnt s' (q / PGSIZE) - urefs L' q = page_refcnt s (q / PGSIZE) - urefs L q.

Lemma ref1_PA p va pte pte' : PTE2PA pte' = PTE2PA pte → ref1 p va pte' = ref1 p va pte.
Proof. intros E. unfold ref1, is_ref. simpl. by destruct (decide _) as [[? ?]|], (decide _) as [[? ?]|]; [|naive_solver congruence..|]. Qed.
Lemma counted_trans fl fl1 s L s1 L1 s2 L2 : counted fl s L s1 L1 → counted fl1 s1 L1 s2 L2 → (∀ q, q ∈ fl1 → q ∈ fl) → counted fl s L s2 L2.
Proof. intros H1 H2 Hfl q Hq Hn. rewrite H2, H1; [done|done|done|done|]. by intros ?%Hfl. Qed.

(** Making the parent's PTE copy-on-write. *)
Lemma cow_store s fl T L r va pte :
  vm_inv s fl T L → L !! (r, va) = Some pte → va < TRAPFRAME →
  ∃ p s', T !! (r, [PX 2 va; PX 1 va]) = Some p ∧ walk r va false s = Ok (p + 8 * PX 0 va) s ∧
    (p + 8 * PX 0 va =? 0) = false ∧ ld (p + 8 * PX 0 va) s = Ok pte s ∧ band pte PTE_V = true ∧
    (if band pte PTE_W then st (p + 8 * PX 0 va) (Z.lor (Z.lxor pte PTE_W) PTE_COW) else mret ()) s = Ok tt s' ∧
    ld (p + 8 * PX 0 va) s' = Ok (cow_pte pte) s' ∧
    vm_inv s' fl T (<[(r, va) := cow_pte pte]> L) ∧
    freelist s' = freelist s ∧ page_refcnt s' = page_refcnt s ∧ (∀ x, pg x ≠ p → mem s' x = mem s x).
Proof.
  intros Hv HL Hva. pose proof Hv as [Hi Hl].
  destruct (unmap_walk _ _ _ _ _ _ _ Hi HL) as (p & HT & Hw & Hnz & Hld & Hvao & HV).
  destruct (pr_dom _ _ _ (pi_rep _ _ _ _ Hi) _ _ _ HL) as (_ & _ & _ & Hrange).
  destruct (li_ok _ _ _ Hl _ _ _ HL Hva) as (Hpok & _ & Hfl).
  assert (∀ s', pt_inv s' fl T (<[(r, va) := cow_pte pte]> L) → page_refcnt s' = page_refcnt s →
    ld (p + 8 * PX 0 va) s' = Ok (cow_pte pte) s' ∧ vm_inv s' fl T (<[(r, va) := cow_pte pte]> L)) as Hpost.
  { intros s' Hi' Hrc. destruct (unmap_walk s' fl T (<[(r, va) := cow_pte pte]> L) r va (cow_pte pte))
      as (p' & HT' & _ & _ & Hld' & _ & _); [done|by rewrite lookup_insert_eq|].
    simplify_eq. split; [done|]. split; [done|]. rewrite Hrc.
    eapply leaf_inv_update; [done|done|done|apply cow_pte_PA|by apply cow_pte_leaf|]. by rewrite cow_pte_noW. }
  exists p. unfold cow_pte in *. destruct (band pte PTE_W) eqn:EW.
  - destruct (pt_leaf_store s fl T L r va p (Some (cow_pte pte))) as (s' & Hs' & Hi' & Hf & Hrc & Hm);
      [done..|by apply cow_pte_ok; intros ? [= <-]|].
    unfold cow_pte in *; rewrite EW in *. destruct (Hpost s' Hi' Hrc) as [??].
    exists s'. split_and!; done.
  - rewrite insert_id in * by done. destruct (Hpost s Hi eq_refl) as [??].
    exists s. split_and!; done.
Qed.

(** Mapping one more time a page that no leaf maps writable, then counting the
    mapping in [page_refcnt]. *)
Lemma map_shared s fl T L r va pa perm r0 va0 pte0 :
  vm_inv s fl T L → T !! (r, []) = Some r → va_ok va → va < TRAPFRAME → L !! (r, va) = None →
  0 ≤ perm < 1024 → Z.lor perm PTE_V ≠ PTE_V → band perm PTE_W = false →
  L !! (r0, va0) = Some pte0 → va0 < TRAPFRAME → PTE2PA pte0 = pa → band pte0 PTE_W = false →
  ∃ res s1 fl1 T1 new, mappages r va PGSIZE pa perm s = Ok res s1 ∧ grow r s fl T s1 fl1 T1 new ∧ (length new ≤ 2)%nat ∧
    ((res = -1 ∧ fl1 = [] ∧ vm_inv s1 fl1 T1 L) ∨
     (res = 0 ∧ ∃ c s2, get_ref (pa / PGSIZE) s1 = Ok c s1 ∧ set_ref (pa / PGSIZE) (c + 1) s1 = Ok tt s2 ∧
        vm_inv s2 fl1 T1 (<[(r, va) := mk_pte pa perm]> L) ∧ mem s2 = mem s1 ∧
        counted fl s L s2 (<[(r, va) := mk_pte pa perm]> L))).
Proof.
  intros Hv HT Hva Hlow HL Hperm Hnl HnW HL0 Hva0 <- HnW0.
  destruct (leaf_used _ _ _ _ _ _ _ Hv HL0 Hva0) as (Hok & HnT & Hc1 & Hnf).
  pose proof (page_ok_pa_ok _ Hok) as Hpa.
  destruct (mappages_page s fl T L r va (PTE2PA pte0) perm) as (res & s1 & fl1 & T1 & new & Hm & Hg & Hnew & Hres);
    [apply Hv|done..|].
  exists res, s1, fl1, T1, new. split_and!; [done..|].
  destruct Hres as [[-> Hi]|(-> & Hi & ->)]; [right|left].
  2:{ split_and!; [done..|]. by eapply vm_inv_grow. }
  split; [done|]. set (p := PTE2PA pte0) in *.
  assert (leaf_inv (page_refcnt s1) T1 L) as Hl1 by by eapply leaf_inv_grow.
  exists (page_refcnt s1 (p / PGSIZE)), (set_refcnt (p / PGSIZE) (page_refcnt s1 (p / PGSIZE) + 1) s1).
  unfold get_ref, set_ref. rewrite refcnt_ok_page by done. split_and!; [done..| |done|].
  2:{ intros q Hq Hn. rewrite (gr_fl _ _ _ _ _ _ _ _ Hg), elem_of_app in Hn. rewrite <- (gr_ref _ _ _ _ _ _ _ _ Hg q) by tauto.
      rewrite urefs_insert by done. unfold ref1. simpl. destruct (decide (q = p)) as [->|Hqp].
      - rewrite fupd_eq, decide_True by (split; [done|by apply mk_pte_PA]). lia.
      - rewrite fupd_ne by (intros E%page_index_inj; done). rewrite decide_False; [lia|]. intros [_ E]. simpl in E. rewrite mk_pte_PA in E by done. done. }
  assert (∀ q, page_ok q → q ≠ p → page_refcnt (set_refcnt (p / PGSIZE) (page_refcnt s1 (p / PGSIZE) + 1) s1) (q / PGSIZE)
    = page_refcnt s1 (q / PGSIZE)) as Hoth.
  { intros q Hq Hne. simpl. apply fupd_ne. intros E%page_index_inj; done. }
  assert (page_refcnt s1 (p / PGSIZE) = urefs L p) as Hrc by by apply (li_ref _ _ _ Hl1 r0 va0).
  pose proof (urefs_pos _ _ _ _ HL0 Hva0) as Hpos.
  split.
  - destruct Hi as [Ha Hr Hc]. split; [|done|].
    + split; try apply Ha; simpl.
      * intros q Hq Hl. destruct (decide (q = p)) as [->|Hne].
        -- rewrite fupd_eq. rewrite (ki_zero _ _ _ Ha p) by done. fold p in Hpos. rewrite Hrc. lia.
        -- rewrite fupd_ne by (intros E%page_index_inj; done). by apply Ha.
      * intros q Hq. unfold fupd. case_z; [pose proof (urefs_nonneg L p); lia|]. by apply (ki_pos _ _ _ Ha).
    + intros k q Hk. simpl. rewrite fupd_ne; [by eauto|]. intros E%page_index_inj; [|done|by eapply pr_ok].
      subst q. destruct (li_ok _ _ _ Hl1 _ _ _ HL0 Hva0) as (_ & HnT1 & _). by apply (HnT1 k).
  - eapply leaf_inv_insert; [done|done|done|..]; rewrite ?mk_pte_PA, ?mk_pte_FLAGS by done; try done.
    + by destruct (li_ok _ _ _ Hl1 _ _ _ HL0 Hva0) as (_ & HnT1 & _).
    + simpl. rewrite fupd_eq. by rewrite Hrc.
    + intros _. split; [by rewrite mk_pte_band, HnW by (done || flag_bounds)|].
      intros r' va' pte' HL' Hva' HE. destruct (band pte' PTE_W) eqn:EW; [|done].
      destruct (decide ((r', va') = (r0, va0))) as [E|Hne]; [congruence|].
      pose proof (urefs_two _ _ _ _ _ _ _ HL' HL0 Hne Hva' Hva0 HE).
      rewrite (li_excl _ _ _ Hl1 _ _ _ HL' Hva' EW) in *. lia.
Qed.

Lemma uvmcopy_loop_S fuel old new i sz :
  uvmcopy_loop (S fuel) old new i sz =
    (if i <? sz then
       pte ← walk old i false;
       if pte =? 0 then panic "uvmcopy: pte should exist"
       else
         v ← ld pte;
         if negb (band v PTE_V) then panic "uvmcopy: page not present"
         else
           (if band v PTE_W then st pte (Z.lor (Z.lxor v PTE_W) PTE_COW) else mret ());;
           v' ← ld pte;
           r ← mappages new i PGSIZE (PTE2PA v) (PTE_FLAGS v');
           if negb (r =? 0) then uvmunmap new 0 (i / PGSIZE) true;; mret (-1)
           else
             c ← get_ref (PTE2PA v / PGSIZE);
             set_ref (PTE2PA v / PGSIZE) (c + 1);;
             uvmcopy_loop fuel old new (i + PGSIZE) sz
     else mret 0).
Proof. done. Qed.

(** Undoing the child's mappings frees no page: the parent still maps them all. *)
Lemma uvmcopy_undo old new i L s1 fl1 T1 L1 L2 :
  vm_inv s1 fl1 T1 L2 → old ≠ new → forked true old new i L L1 → i mod 4096 = 0 → 0 ≤ i ≤ TRAPFRAME →
  mapped_range L old 0 i → (∀ va, L2 !! (new, va) = L1 !! (new, va)) →
  (∀ va pte, L1 !! (old, va) = Some pte → ∃ pte', L2 !! (old, va) = Some pte' ∧ PTE2PA pte' = PTE2PA pte) →
  (∀ va pte, L !! (old, va) = Some pte → va < TRAPFRAME → page_ok (PTE2PA pte)) →
  ∃ s2, uvmunmap new 0 (i / PGSIZE) true s1 = Ok tt s2 ∧ vm_inv s2 fl1 T1 (unmap_range new 0 i L2) ∧
    tree_ext new s1 fl1 T1 s2 fl1 T1 ∧ balanced s1 L2 s2 (unmap_range new 0 i L2).
Proof.
  intros Hv Hne [Ho Hc Hr] Hi Hi0 Hmap Hnew Hold Hok.
  destruct (uvmunmap_range s1 fl1 T1 L2 new 0 i) as (s2 & freed & Hs2 & Hv2 & [Hf _ Hm] & Hbal); [done|done|done|done| |].
  { intros va Hva Ha. rewrite Hnew, Hc. simpl. destruct (Z.ltb_spec va i); [|lia].
    destruct (Hmap va Hva Ha) as [pte ->]. done. }
  assert (freed = []) as ->.
  { destruct freed as [|p freed]; [done|exfalso]. destruct (Hf p) as (va & pte & Hva & HL & HE); [by left|].
    rewrite Hnew, Hc in HL. simpl in HL. destruct (Z.ltb_spec va i); [|lia].
    destruct (L !! (old, va)) as [pte0|] eqn:E0; [|done]. simpl in HL. injection HL as <-.
    rewrite child_pte_PA in HE by (eapply Hok; [done|lia]).
    destruct (Hold va (cow_pte pte0)) as (pte' & HL2 & HE2).
    { rewrite Ho, E0. simpl. by z_decide. }
    rewrite cow_pte_PA in HE2.
    assert (unmap_range new 0 i L2 !! (old, va) = Some pte') as HL3.
    { apply lookup_unmap_range. split; [done|]. intros [? _]; congruence. }
    destruct (leaf_used _ _ _ _ _ _ _ Hv2 HL3) as (_ & _ & _ & Hnf); [lia|].
    apply Hnf. rewrite HE2, HE. by left. }
  rewrite Z.sub_0_r in Hs2. exists s2. split_and!; [done..| |done].
  apply tree_ext_tables. intros x Hx. apply Hm; [apply not_elem_of_nil|done].
Qed.

Section fork.
  Context (old new sz : Z) (s : kst) (fl : list Z) (T : tables) (L : leaves).
  Context (Hne : old ≠ new) (Hroot : T !! (new, []) = Some new) (Hsz : 0 ≤ sz ≤ TRAPFRAME).
  Context (Hmap : mapped_range L old 0 (PGROUNDUP sz)).
  Context (Hempty : ∀ va, va < PGROUNDUP sz → L !! (new, va) = None).
  Context (Hinv : vm_inv s fl T L).

Lemma fork_old_ok va pte : L !! (old, va) = Some pte →
  va mod 4096 = 0 ∧ 0 ≤ va ∧ (va < TRAPFRAME → page_ok (PTE2PA pte)).
Proof using Hinv.
  intros HL. destruct (pr_dom _ _ _ (pi_rep _ _ _ _ (vi_pt _ _ _ _ Hinv)) _ _ _ HL) as ([[??] ?] & _).
  split_and!; [done..|]. intros Hva. by destruct (leaf_used _ _ _ _ _ _ _ Hinv HL Hva).
Qed.

(** The post-condition of [uvmcopy]'s loop. *)
Definition fork_post (res : Z) (s' : kst) : Prop :=
  ∃ fl' T' L' hi, vm_inv s' fl' T' L' ∧ tree_ext new s fl T s' fl' T' ∧ counted fl s L s' L' ∧
    ((res = 0 ∧ hi = PGROUNDUP sz ∧ forked true old new hi L L') ∨
     (res = -1 ∧ hi ≤ PGROUNDUP sz ∧ forked false old new hi L L' ∧ Z.of_nat (length fl) ≤ 2 * (PGROUNDUP sz / 4096))).

Lemma uvmcopy_loop_spec fuel i s1 fl1 T1 L1 :
  vm_inv s1 fl1 T1 L1 → tree_ext new s fl T s1 fl1 T1 → counted fl s L s1 L1 → forked true old new i L L1 →
  0 ≤ i ≤ PGROUNDUP sz → i mod 4096 = 0 → sz ≤ i + 4096 * Z.of_nat fuel → Z.of_nat (length fl) ≤ Z.of_nat (length fl1) + 2 * (i / 4096) →
  wp (uvmcopy_loop (S fuel) old new i sz) s1 fork_post.
Proof using All.
  revert i s1 fl1 T1 L1. induction fuel as [|fuel IH]; intros i s1 fl1 T1 L1 Hv Hte Hct Hfk Hi Hia Hfuel Hlen;
    (destruct (PGROUNDUP_le sz) as (Hr1 & Hr2 & Hr3); [lia|]);
    rewrite uvmcopy_loop_S; (destruct (Z.ltb_spec i sz) as [Hlt|Hge];
      [try lia|apply wp_ret; exists fl1, T1, L1, i; split_and!; [done..|]; left;
       assert (i = PGROUNDUP sz) as <- by (Z.div_mod_to_equations; lia); done]).
  assert (i + 4096 ≤ PGROUNDUP sz) as Hnext by (Z.div_mod_to_equations; lia).
  destruct (Hmap i) as [pte HL]; [lia|done|]. destruct (fork_old_ok _ _ HL) as (_ & _ & Hpok).
  assert (L1 !! (old, i) = Some pte) as HL1. { rewrite (fk_old _ _ _ _ _ _ Hfk), HL. simpl. by z_decide. }
  destruct (cow_store s1 fl1 T1 L1 old i pte) as (p & s2 & HT & Hw & Hnz & Hld & HV & Hst & Hld2 & Hv2 & Hf2 & Hrc2 & Hm2);
    [done..|lia|].
  set (L2 := <[(old, i) := cow_pte pte]> L1) in *.
  assert (tree_ext new s fl T s2 fl1 T1) as Hte2.
  { eapply tree_ext_trans; [done|]. apply tree_ext_tables. intros x Hx. apply Hm2. intros <-. by eapply Hx. }
  assert (counted fl s L s2 L2) as Hct2.
  { intros q Hq Hn. rewrite Hrc2. unfold L2. rewrite (urefs_update _ _ _ pte) by done. assert (ref1 q i (cow_pte pte) = ref1 q i pte) as -> by (apply ref1_PA, cow_pte_PA). specialize (Hct q Hq Hn). lia. }
  destruct (forked_half old new i L L1 pte) as [Hfk1 Hfk2]; [done..| | | |done|];
    [intros va pte' E; by apply (fork_old_ok va pte')|intros va Hva; apply Hempty; lia
    |intros va pte' E; by apply (fork_old_ok va pte')|].
  assert (MAXVA = 0x4000000000 ∧ TRAPFRAME = 0x3fffffe000) as [HM HTF] by done.
  destruct (map_shared s2 fl1 T1 L2 new i (PTE2PA pte) (PTE_FLAGS (cow_pte pte)) old i (cow_pte pte))
    as (res & s3 & fl3 & T3 & nw & Hmp & Hg & Hnw2 & Hres); try done; try lia.
  { eapply lookup_weaken; [done|apply Hte]. }
  { split; [lia|done]. }
  { unfold L2. rewrite lookup_insert_ne by congruence. rewrite (fk_child _ _ _ _ _ _ Hfk). simpl.
    destruct (Z.ltb_spec i i); [lia|]. apply Hempty. lia. }
  { apply PTE_FLAGS_range. }
  { destruct (li_ok _ _ _ (vi_leaf _ _ _ _ Hv2) old i (cow_pte pte)) as (_ & _ & Hfl); [apply lookup_insert_eq|lia|].
    by rewrite flags_lor_V by (rewrite cow_pte_keep; [done|set_solver]). }
  { rewrite <- band_FLAGS by flag_bounds. apply cow_pte_noW. }
  { apply lookup_insert_eq. }
  { apply cow_pte_PA. }
  { apply cow_pte_noW. }
  pose proof (grow_tree_ext _ _ _ _ _ _ _ _ Hg) as Hte3.
  assert (tree_ext new s fl T s3 fl3 T3) as Hte03 by by eapply tree_ext_trans.
  assert (length fl1 = length nw + length fl3)%nat as Hlen3 by by rewrite (gr_fl _ _ _ _ _ _ _ _ Hg), length_app.
  unfold wp, mbind, M_bind. rewrite Hw, Hnz, Hld, HV. cbn [negb]. rewrite Hst, Hld2, Hmp.
  destruct Hres as [(-> & -> & Hv3)|(-> & c & s4 & Hgr & Hsr & Hv4 & Hm4 & Hct4)].
  - destruct (uvmcopy_undo old new i L s3 [] T3 L1 L2) as (s4 & Hs4 & Hv4 & Hte4 & Hb4); try done; try lia.
    + intros va Hva Ha. apply Hmap; [lia|done].
    + intros va. unfold L2. by rewrite lookup_insert_ne by congruence.
    + intros va pte' HL'. unfold L2. rewrite lookup_insert. case_decide as E; [|by eauto].
      simplify_eq. exists (cow_pte pte). by rewrite cow_pte_PA.
    + intros va pte' HL' Hva. by apply (fork_old_ok va pte').
    + change (negb (-1 =? 0)) with true. cbv iota beta. rewrite Hs4. simpl. exists [], T3, (unmap_range new 0 i L2), (i + 4096).
      split_and!; [done|by eapply tree_ext_trans| |right; split_and!; [done..|simpl in Hlen3; Z.div_mod_to_equations; lia]].
      intros q Hq Hn. specialize (Hb4 q Hq). specialize (Hct2 q Hq Hn). assert (q ∉ nw) as Hnw.
      { intros Hin. apply Hn, (te_fl _ _ _ _ _ _ _ Hte). rewrite (gr_fl _ _ _ _ _ _ _ _ Hg). set_solver. }
      pose proof (gr_ref _ _ _ _ _ _ _ _ Hg q Hq Hnw). lia.
  - change (negb (0 =? 0)) with false. cbv iota beta. rewrite Hgr, Hsr. unfold PGSIZE. eapply IH; [done| |eapply counted_trans; [exact Hct2|exact Hct4|apply Hte]|done|lia| |lia|].
    + eapply tree_ext_trans; [done|]. apply tree_ext_tables. intros x _. by rewrite Hm4.
    + Z.div_mod_to_equations. lia.
    + Z.div_mod_to_equations. lia.
Qed.

Lemma uvmcopy_fork : wp (uvmcopy old new sz) s fork_post.
Proof using All.
  destruct (PGROUNDUP_le sz Hsz) as (Hr1 & Hr2 & Hr3).
  unfold uvmcopy. eapply uvmcopy_loop_spec; [done|by apply tree_ext_tables|done| |lia|done| |rewrite Zdiv_0_l; lia].
  - split; [|intros va; simpl|done].
    + intros va. destruct (L !! (old, va)) as [pte|] eqn:E; [|done]. simpl.
      destruct (fork_old_ok _ _ E) as (_ & ? & _). by z_decide.
    + destruct (Z.ltb_spec va 0); [|done]. rewrite Hempty by lia.
      destruct (L !! (old, va)) as [pte|] eqn:E; [|done]. destruct (fork_old_ok _ _ E) as (_ & ? & _). lia.
  - unfold PGSIZE. Z.div_mod_to_equations. lia.
Qed.

End fork.

(** ** Views *)

(** The byte that user code of [r] reads at [va], if it may. *)
Definition view (s : kst) (L : leaves) (r va : Z) : option byte :=
  pte ← L !! (r, pg va);
  if band pte PTE_U then Some (mem s (PTE2PA pte + va mod 4096)) else None.

Lemma pg_add p o : p mod 4096 = 0 → 0 ≤ o < 4096 → pg (p + o) = p.
Proof. intros. apply pg_eq; lia. Qed.

(** User pages are below the trapframe. *)
Lemma leaf_user s fl T L r va pte :
  vm_inv s fl T L → L !! (r, va) = Some pte → band pte PTE_U = true → va < TRAPFRAME.
Proof.
  intros Hv HL HU. destruct (decide (va < TRAPFRAME)); [done|].
  rewrite (li_high _ _ _ (vi_leaf _ _ _ _ Hv) _ _ _ HL) in HU by lia. done.
Qed.

(** A user leaf's bytes live in its page. *)
Lemma view_page s fl T L r va pte :
  vm_inv s fl T L → L !! (r, pg va) = Some pte → band pte PTE_U = true →
  pg (PTE2PA pte + va mod 4096) = PTE2PA pte ∧ (PTE2PA pte ∉ fl) ∧ (∀ k, T !! k ≠ Some (PTE2PA pte)).
Proof.
  intros Hv HL HU. destruct (leaf_used _ _ _ _ _ _ _ Hv HL) as (Hok & HnT & _ & Hnf).
  { by eapply leaf_user. }
  split_and!; [|done..]. apply pg_add; [apply Hok|apply Z.mod_pos_bound; lia].
Qed.

(** What a view depends on: the leaf's target and whether user code may use it. *)
Definition utarget (pte : Z) : option Z := if band pte PTE_U then Some (PTE2PA pte) else None.

Lemma view_ext s fl T L s' L' r r' va :
  vm_inv s fl T L →
  (∀ x, pg x ∉ fl → (∀ k, T !! k ≠ Some (pg x)) → mem s' x = mem s x) →
  L' !! (r', pg va) ≫= utarget = L !! (r, pg va) ≫= utarget → view s' L' r' va = view s L r va.
Proof.
  intros Hv Hm HL. unfold view, utarget in *.
  destruct (L !! (r, pg va)) as [pte|] eqn:E, (L' !! (r', pg va)) as [pte'|]; simpl in *; try done.
  - destruct (band pte PTE_U) eqn:EU, (band pte' PTE_U); try done. injection HL as ->.
    destruct (view_page _ _ _ _ _ _ _ Hv E EU) as (Hpg & Hnf & HnT). f_equal. apply Hm; by rewrite Hpg.
  - by case_match.
  - by case_match.
Qed.

(** ** Breaking a share *)

(** The PTE [copyout] and [usertrap] install for the private copy. *)
Definition private_flags (pte : Z) : Z := Z.lor (Z.land (PTE_FLAGS pte) (Z.lnot PTE_COW)) PTE_W.

Lemma private_flags_enum (P : Z → Z → bool) pte :
  forallb (λ n, P (Z.of_nat n) (private_flags (Z.of_nat n))) (seq 0 1024) = true →
  P (PTE_FLAGS pte) (private_flags pte) = true.
Proof.
  intros HP. pose proof (flags_enum (λ f, P f (private_flags f)) HP (PTE_FLAGS pte) (PTE_FLAGS_range pte)) as Hf. cbv beta in Hf.
  revert Hf. unfold private_flags. rewrite (PTE_FLAGS_alt (PTE_FLAGS pte)), Z.mod_small by apply PTE_FLAGS_range.
  done.
Qed.

Lemma private_flags_range pte : 0 ≤ private_flags pte < 1024.
Proof.
  pose proof (private_flags_enum (λ _ g, (0 <=? g) && (g <? 1024)) pte ltac:(by vm_compute)) as Hb.
  apply andb_true_iff in Hb. rewrite Z.leb_le, Z.ltb_lt in Hb. done.
Qed.

(** The private copy is writable, not copy-on-write, and otherwise as before. *)
Lemma private_flags_spec pte :
  band (private_flags pte) PTE_W = true ∧ band (private_flags pte) PTE_COW = false ∧
  band (private_flags pte) PTE_U = band pte PTE_U ∧ band (private_flags pte) PTE_V = band pte PTE_V.
Proof.
  rewrite (band_FLAGS pte PTE_U), (band_FLAGS pte PTE_V) by flag_bounds.
  pose proof (private_flags_enum (λ f g, band g PTE_W && negb (band g PTE_COW) &&
    Bool.eqb (band g PTE_U) (band f PTE_U) && Bool.eqb (band g PTE_V) (band f PTE_V)) pte ltac:(by vm_compute)) as Hb.
  rewrite !andb_true_iff, !eqb_true_iff, negb_true_iff in Hb. naive_solver.
Qed.

Lemma owned_unref s fl T L p r va pte :
  owned s fl T L p → L !! (r, va) = Some pte → va < TRAPFRAME → PTE2PA pte ≠ p.
Proof. intros Ho HL Hva <-. pose proof (urefs_pos _ _ _ _ HL Hva). pose proof (ow_nref _ _ _ _ _ Ho). lia. Qed.

Lemma owned_delete s fl T L p s' freed r va pte :
  owned s fl T L p → L !! (r, va) = Some pte → va < TRAPFRAME →
  shrink (eq (PTE2PA pte)) s fl T s' freed → owned s' (freed ++ fl) T (delete (r, va) L) p.
Proof.
  intros Ho HL Hva [Hf Hr Hm]. pose proof (owned_unref _ _ _ _ _ _ _ _ Ho HL Hva) as Hne.
  destruct Ho as [Hok Hnf HnT Hnr Href]. split; try done.
  - intros [Hp|?]%elem_of_app; [|done]. by destruct Hne; apply Hf.
  - rewrite (urefs_delete _ _ _ pte) by done. unfold ref1. rewrite decide_False; [lia|].
    intros [_ ?]. done.
  - by rewrite Hr.
Qed.

(** Lines 406-424 of [copyout], lines 90-106 of [usertrap]. *)
Lemma cow_break s m fl T L r va pte :
  vm_inv s (m :: fl) T L → L !! (r, va) = Some pte → va < TRAPFRAME →
  ∃ p s1 s2 s3 s4 freed, T !! (r, [PX 2 va; PX 1 va]) = Some p ∧
    kalloc s = Ok m s1 ∧ m ≠ 0 ∧ ld (p + 8 * PX 0 va) s1 = Ok pte s1 ∧
    memmove_ m (PTE2PA pte) PGSIZE s1 = Ok tt s2 ∧ ld (p + 8 * PX 0 va) s2 = Ok pte s2 ∧
    uvmunmap r va 1 true s2 = Ok tt s3 ∧
    mappages r va PGSIZE m (private_flags pte) s3 = Ok 0 s4 ∧
    let pte' := mk_pte m (private_flags pte) in
    vm_inv s4 (freed ++ fl) T (<[(r, va) := pte']> L) ∧ page_ok m ∧
    (∀ q, q ∈ freed → q = PTE2PA pte) ∧
    (∀ o, 0 ≤ o < 4096 → mem s4 (m + o) = mem s (PTE2PA pte + o)) ∧
    (∀ x, pg x ∉ m :: fl → pg x ∉ freed → (∀ k, T !! k ≠ Some (pg x)) → mem s4 x = mem s x) ∧
    (∀ q, page_ok q → q ≠ m → q ≠ PTE2PA pte → page_refcnt s4 (q / PGSIZE) = page_refcnt s (q / PGSIZE)).
Proof.
  intros Hv HL Hva.
  destruct (kalloc_vm _ _ _ _ _ Hv) as (s1 & Hk & Hv1 & Ho1 & Hrc1 & Hm1).
  destruct (unmap_walk _ _ _ _ _ _ _ (vi_pt _ _ _ _ Hv1) HL) as (p & HT & _ & _ & Hld1 & Hvao & _).
  pose proof (ow_ok _ _ _ _ _ Ho1) as Hmok. pose proof (page_ok_range _ Hmok) as (?&?&?).
  destruct (leaf_used _ _ _ _ _ _ _ Hv1 HL Hva) as (Hpok & HnT & _ & Hnf).
  pose proof (owned_unref _ _ _ _ _ _ _ _ Ho1 HL Hva) as Hne. pose proof (page_ok_range _ Hpok) as (?&?&?).
  set (s2 := set_mem (λ mm, mcopy mm m (PTE2PA pte) PGSIZE) s1).
  assert (∀ x, pg x ≠ m → mem s2 x = mem s1 x) as Hm2.
  { intros x Hx. apply mcopy_out. unfold PGSIZE. intros ?. by apply Hx, pg_eq. }
  destruct (vm_frame_page s1 s2 fl T L m) as [Hv2 Ho2]; [done..|].
  destruct (unmap_walk _ _ _ _ _ _ _ (vi_pt _ _ _ _ Hv2) HL) as (p' & HT' & _ & _ & Hld2 & _ & _).
  simplify_eq. destruct (unmap_one s2 fl T L r va pte) as (s3 & freed & Hun & Hv3 & Hsh & _); [done..|].
  pose proof (owned_delete _ _ _ _ _ _ _ _ _ _ Ho2 HL Hva Hsh) as Ho3.
  destruct (mappages_hit s3 (freed ++ fl) T (delete (r, va) L) r va p m (private_flags pte))
    as (s4 & Hmp & Hi4 & Hf4 & Hrc4 & Hm4);
    [apply Hv3|done..|by apply page_ok_pa_ok|apply private_flags_range|apply lookup_delete_eq|].
  rewrite insert_delete_eq in Hi4.
  destruct Hsh as [Hfr Hrs Hms]. pose proof Ho3 as [_ Hnf3 HnT3 Hnr3 Hr3].
  assert (∀ o, 0 ≤ o < 4096 → mem s4 (m + o) = mem s (PTE2PA pte + o)) as Hcopy.
  { intros o Ho. assert (pg (m + o) = m) as Hpg by (apply pg_add; lia).
    rewrite Hm4, Hms; rewrite ?Hpg; [|set_solver|done|].
    - simpl. rewrite mcopy_in by (unfold PGSIZE; lia). rewrite Hm1; [f_equal; lia|].
      intros E. apply Hne. rewrite <- E. symmetry. replace (PTE2PA pte + (m + o - m)) with (PTE2PA pte + o) by lia.
      apply pg_add; lia.
    - intros E. apply (HnT3 (r, [PX 2 va; PX 1 va])). congruence. }
  assert (∀ x, pg x ∉ m :: fl → pg x ∉ freed → (∀ k, T !! k ≠ Some (pg x)) → mem s4 x = mem s x) as Hframe.
  { intros x Hx Hf HxT. rewrite elem_of_cons in Hx. rewrite Hm4, Hms, Hm2, Hm1; try done; try tauto.
    intros E. apply (HxT (r, [PX 2 va; PX 1 va])). congruence. }
  exists p, s1, s2, s3, s4, freed. split_and!; try done.
  - lia.
  - unfold memmove_. by rewrite (mapped_page m m PGSIZE), (mapped_page (PTE2PA pte) (PTE2PA pte) PGSIZE)
      by (done || unfold PGSIZE; lia).
  - unfold uvmunmap, PGSIZE at 1. rewrite (proj2 Hvao). change (Z.to_nat 1) with 1%nat. cbn [Z.eqb negb]. by rewrite Hun.
  - cbv zeta. split; [split; [done|]|split_and!; try done]. rewrite <- (insert_delete_eq L (r, va)), Hrc4. eapply leaf_inv_insert; [apply Hv3|apply lookup_delete_eq|done|..];
      rewrite ?mk_pte_PA, ?mk_pte_FLAGS by (by apply page_ok_pa_ok || apply private_flags_range); try done.
    + unfold private_flags. rewrite (Z.lor_comm (Z.land _ _)). by apply (perm_leaf _ _ 2).
    + lia.
    + lia.
    + intros q Hq. symmetry. by apply Hfr.
    + intros q Hq Hqm Hqp. rewrite Hrc4, Hrs by auto. by apply Hrc1.
Qed.

(** The private copy is invisible: every process sees what it saw. *)
Lemma cow_break_view s m fl T L r va pte s4 freed :
  vm_inv s (m :: fl) T L → L !! (r, va) = Some pte → va < TRAPFRAME → page_ok m →
  band pte PTE_V = true → vm_inv s4 (freed ++ fl) T (<[(r, va) := mk_pte m (private_flags pte)]> L) →
  (∀ o, 0 ≤ o < 4096 → mem s4 (m + o) = mem s (PTE2PA pte + o)) →
  (∀ x, pg x ∉ m :: fl → pg x ∉ freed → (∀ k, T !! k ≠ Some (pg x)) → mem s4 x = mem s x) →
  ∀ r' va', view s4 (<[(r, va) := mk_pte m (private_flags pte)]> L) r' va' = view s L r' va'.
Proof.
  intros Hv HL Hva Hmok HV Hv4 Hcopy Hframe r' va'. unfold view. rewrite lookup_insert. case_decide as E.
  - simplify_eq. rewrite HL. simpl.
    pose proof (page_ok_pa_ok _ Hmok). pose proof (private_flags_range pte).
    rewrite mk_pte_PA, mk_pte_band by (done || flag_bounds).
    destruct (private_flags_spec pte) as (_ & _ & -> & _). change (band PTE_V PTE_U) with false. rewrite orb_false_r.
    rewrite Hcopy by (apply Z.mod_pos_bound; lia). done.
  - destruct (L !! (r', pg va')) as [pte'|] eqn:E'; [|done]. simpl. destruct (band pte' PTE_U) eqn:EU; [|done]. f_equal.
    destruct (view_page _ _ _ _ _ _ _ Hv E' EU) as (Hpg & Hnf & HnT).
    destruct (view_page s4 (freed ++ fl) T (<[(r, va):=mk_pte m (private_flags pte)]> L) r' va' pte')
      as (_ & Hnf4 & _); [done|by rewrite lookup_insert_ne|done|].
    apply Hframe; rewrite Hpg; [done| |done]. rewrite elem_of_app in Hnf4. tauto.
Qed.

(** ** Pages out of the way *)

(** An allocated page that no user mapping shows and no table uses, as the page
    of a trap frame or of a pipe is. *)
Record aside (fl : list Z) (T : tables) (L : leaves) (p : Z) : Prop := {
  as_ok : page_ok p;
  as_nfree : p ∉ fl;
  as_ntable : ∀ k, T !! k ≠ Some p;
  as_nref : urefs L p = 0;
}.

(** Such a page is out of the way of the page replacement. *)
Lemma aside_remap k m fl T L r va pte freed tf pte' :
  vm_inv k (m :: fl) T L → L !! (r, va) = Some pte → va < TRAPFRAME → aside (m :: fl) T L tf →
  (∀ q, q ∈ freed → q = PTE2PA pte) → PTE2PA pte' = m →
  aside (freed ++ fl) T (<[(r, va) := pte']> L) tf ∧ tf ∉ freed.
Proof.
  intros Hv HL Hva [Hok Hnf HnT Hnr] Hfr Hm.
  assert (tf ∉ freed) as Hnfr.
  { intros ?%Hfr. pose proof (urefs_pos _ _ _ _ HL Hva). subst tf. lia. }
  split; [|done]. split; [done| |done|].
  - rewrite elem_of_cons in Hnf. rewrite elem_of_app. tauto.
  - pose proof (urefs_nonneg (<[(r, va) := pte']> L) tf). pose proof (urefs_update L r va pte pte' tf HL) as Hu.
    pose proof (ref1_range tf va pte). assert (ref1 tf va pte' = 0) as E0; [|lia].
    unfold ref1. rewrite decide_False; [done|]. intros [_ E]. apply Hnf. simpl in E. rewrite <- E, Hm. by left.
Qed.

(** Stores in such a page change nothing else. *)
Lemma vm_frame_aside k k' fl T L p :
  vm_inv k fl T L → aside fl T L p → freelist k' = freelist k → page_refcnt k' = page_refcnt k →
  (∀ x, pg x ≠ p → mem k' x = mem k x) →
  vm_inv k' fl T L ∧ ∀ r va, view k' L r va = view k L r va.
Proof.
  intros Hv [Hok Hnf HnT Hnr] Hf Hrc Hm. split.
  - destruct Hv as [Hi Hl]. split; [|by rewrite Hrc]. eapply pt_inv_frame; [done|done|by rewrite Hrc|].
    intros x Hx. apply Hm. intros E. rewrite E in Hx. destruct Hx as [?|[j Hj]]; [done|by eapply HnT].
  - intros r va. unfold view. destruct (L !! (r, pg va)) as [pte|] eqn:EL; [|done]. simpl.
    destruct (band pte PTE_U) eqn:EU; [|done]. f_equal. apply Hm.
    destruct (view_page _ _ _ _ _ _ _ Hv EL EU) as (-> & _). intros E.
    pose proof (urefs_pos _ _ _ _ EL (leaf_user _ _ _ _ _ _ _ Hv EL EU)). rewrite E in *. lia.
Qed.

(** What happened left all such pages alone, and the shape of the address
    spaces. *)
Record spares (T : tables) (s : kst) (fl : list Z) (L : leaves) (s' : kst) (fl' : list Z) (L' : leaves) : Prop := {
  sr_page q : aside fl T L q → aside fl' T L' q ∧ page_refcnt s' (q / PGSIZE) = page_refcnt s (q / PGSIZE) ∧ ∀ x, pg x = q → mem s' x = mem s x;
  sr_leaf k : is_Some (L' !! k) ↔ is_Some (L !! k);
  sr_high r va : TRAPFRAME ≤ va → L' !! (r, va) = L !! (r, va);
}.

Lemma spares_refl T s fl L : spares T s fl L s fl L.
Proof. by split. Qed.
Lemma spares_trans T s fl L s1 fl1 L1 s2 fl2 L2 :
  spares T s fl L s1 fl1 L1 → spares T s1 fl1 L1 s2 fl2 L2 → spares T s fl L s2 fl2 L2.
Proof.
  intros [P1 D1 E1] [P2 D2 E2]. split; [|intros k; by rewrite D2|intros r va Hva; by rewrite E2, E1].
  intros q Hq. destruct (P1 q Hq) as (Hq1 & R1 & M1), (P2 q Hq1) as (Hq2 & R2 & M2). split; [done|]. split; [congruence|]. intros x Hx. rewrite M2, M1; done.
Qed.

Lemma cow_break_spares s m fl T L r va pte s4 freed :
  vm_inv s (m :: fl) T L → L !! (r, va) = Some pte → va < TRAPFRAME → page_ok m → (∀ q, q ∈ freed → q = PTE2PA pte) →
  (∀ x, pg x ∉ m :: fl → pg x ∉ freed → (∀ k, T !! k ≠ Some (pg x)) → mem s4 x = mem s x) →
  (∀ q, page_ok q → q ≠ m → q ≠ PTE2PA pte → page_refcnt s4 (q / PGSIZE) = page_refcnt s (q / PGSIZE)) →
  spares T s (m :: fl) L s4 (freed ++ fl) (<[(r, va) := mk_pte m (private_flags pte)]> L).
Proof.
  intros Hv HL Hva Hm Hfr Hframe Hrc. split; cycle 1.
  { intros k. rewrite lookup_insert. case_decide; [|done]. subst k. rewrite HL. by split; eexists. }
  { intros r' va' Hva'. rewrite lookup_insert_ne; [done|]. intros [= _ ->]. lia. }
  intros q Hq.
  destruct (aside_remap s m fl T L r va pte freed q (mk_pte m (private_flags pte)) Hv HL Hva Hq Hfr) as [Hq' Hnf].
  { apply mk_pte_PA; [by apply page_ok_pa_ok|apply private_flags_range]. }
  split; [done|]. split; [|intros x Hx; apply Hframe; rewrite Hx; [apply Hq|done|apply Hq]]. destruct Hq as [Hok Hnf0 _ Hnr]. apply Hrc; [done|set_solver|].
  intros ->. pose proof (urefs_pos _ _ _ _ HL Hva). lia.
Qed.

(** ** Writing user memory *)

(** The views after [bs] is stored at address [a] of [r]. *)
Definition view_write (v : Z → Z → option byte) (r a : Z) (bs : list byte) (r' va : Z) : option byte :=
  if decide (r' = r ∧ a ≤ va < a + Z.of_nat (length bs)) then bs !! Z.to_nat (va - a) else v r' va.

Lemma view_write_nil v r a r' va : view_write v r a [] r' va = v r' va.
Proof. unfold view_write. rewrite decide_False; [done|]. simpl. lia. Qed.

Lemma view_write_app v r a bs1 bs2 r' va :
  view_write v r a (bs1 ++ bs2) r' va =
  view_write (view_write v r a bs1) r (a + Z.of_nat (length bs1)) bs2 r' va.
Proof.
  unfold view_write. rewrite length_app.
  destruct (decide (r' = r ∧ a + Z.of_nat (length bs1) ≤ va < a + Z.of_nat (length bs1) + Z.of_nat (length bs2)))
    as [(?&?&?)|]; [|destruct (decide (r' = r ∧ a ≤ va < a + Z.of_nat (length bs1))) as [(?&?&?)|]].
  - rewrite decide_True by lia. rewrite lookup_app_r by lia. f_equal. lia.
  - rewrite decide_True by lia. apply lookup_app_l. lia.
  - rewrite decide_False; [done|]. lia.
Qed.

(** A store into a user page that is mapped writable: nobody else sees it. *)
Lemma write_page s fl T L r va pte o bs :
  vm_inv s fl T L → L !! (r, va) = Some pte → band pte PTE_U = true → band pte PTE_W = true →
  0 ≤ o → o + Z.of_nat (length bs) ≤ 4096 →
  ∃ s', write_bytes (PTE2PA pte + o) bs s = Ok tt s' ∧ vm_inv s' fl T L ∧
    (∀ r' va', view s' L r' va' = view_write (view s L) r (va + o) bs r' va') ∧ spares T s fl L s' fl L.
Proof.
  intros Hv HL HU HW Ho Hlen. pose proof (leaf_user _ _ _ _ _ _ _ Hv HL HU) as Hva.
  destruct (leaf_used _ _ _ _ _ _ _ Hv HL Hva) as (Hok & HnT & _ & Hnf).
  pose proof (page_ok_range _ Hok) as (?&?&?). pose proof (leaf_aligned _ _ _ _ (vi_pt _ _ _ _ Hv) _ _ _ HL) as Hal.
  eexists. split; [|split; [|split]].
  - unfold write_bytes. rewrite (mapped_page (PTE2PA pte)) by (done || lia). done.
  - destruct Hv as [Hi Hl]. split; [|done]. eapply pt_inv_frame; [done..|]. simpl.
    intros x Hx. apply mwrite_out. intros ?. assert (pg x = PTE2PA pte) as E by (apply pg_eq; lia).
    rewrite E in Hx. destruct Hx as [?|[k Hk]]; [done|by eapply HnT].
  - intros r' va'. unfold view, view_write. simpl.
    pose proof (pg_range va') as Hpr. pose proof (pg_aligned va') as Hpa.
    assert (va' mod 4096 = va' - pg va') as Hmod by (unfold pg; Z.div_mod_to_equations; lia).
    destruct (decide (r' = r ∧ va + o ≤ va' < va + o + Z.of_nat (length bs))) as [[-> Hin]|Hout].
    + assert (pg va' = va) as Hpg by (apply pg_eq; lia). rewrite Hpg, HL. simpl. rewrite HU, Hmod, Hpg.
      rewrite (mwrite_in _ _ _ _ x00) by lia. replace (PTE2PA pte + (va' - va) - (PTE2PA pte + o)) with (va' - (va + o)) by lia.
      destruct (lookup_lt_is_Some_2 bs (Z.to_nat (va' - (va + o)))) as [b Hb]; [lia|].
      rewrite Hb. f_equal. by apply nth_lookup_Some.
    + destruct (L !! (r', pg va')) as [pte'|] eqn:E'; [|done]. simpl. destruct (band pte' PTE_U) eqn:EU; [|done].
      f_equal. apply mwrite_out. intros Hin.
      destruct (decide ((r', pg va') = (r, va))) as [[= -> Hpg]|Hne].
      * simplify_eq. apply Hout. split; [done|]. lia.
      * destruct (view_page _ _ _ _ _ _ _ Hv E' EU) as (Hpg & _).
        assert (PTE2PA pte' = PTE2PA pte) as HE. { rewrite <- Hpg. apply pg_eq; lia. }
        pose proof (leaf_user _ _ _ _ _ _ _ Hv E' EU) as Hlt.
        pose proof (urefs_two _ _ _ _ _ _ _ E' HL Hne Hlt Hva HE) as Htwo.
        rewrite HE, (li_excl _ _ _ (vi_leaf _ _ _ _ Hv) _ _ _ HL Hva HW) in Htwo. lia.
  - split; [|done|done]. intros q Hq. split; [done|]. split; [done|]. intros x <-. simpl. apply mwrite_out. intros ?. assert (pg x = PTE2PA pte) as E by (apply pg_eq; lia).
    pose proof (urefs_pos _ _ _ _ HL Hva) as Hpos. rewrite <- E, (as_nref _ _ _ _ Hq) in Hpos. lia.
Qed.

Lemma copyout_loop_S fuel pagetable dstva src :
  copyout_loop (S fuel) pagetable dstva src =
    (if (0 <? length src)%nat then
       let va0 := PGROUNDDOWN dstva in
       if va0 >=? MAXVA then mret (-1)
       else
         pte ← walk pagetable va0 false;
         if pte =? 0 then mret (-1)
         else
           v ← ld pte;
           if negb (band v PTE_V) || negb (band v PTE_U)
              || (negb (band v PTE_W) && negb (band v PTE_COW)) then mret (-1)
           else
             r ← (if negb (band v PTE_W) && band v PTE_COW
                  then copyout_cow pagetable pte va0 else mret 0);
             if negb (r =? 0) then mret (-1)
             else
               v ← ld pte;
               let n := Z.min (PGSIZE - (dstva - va0)) (Z.of_nat (length src)) in
               write_bytes (PTE2PA v + (dstva - va0)) (take (Z.to_nat n) src);;
               copyout_loop fuel pagetable (u64 (va0 + PGSIZE)) (drop (Z.to_nat n) src)
     else mret 0).
Proof. done. Qed.

(** Can user code, after a copy-on-write fault, write to [va]? *)
Definition writable (L : leaves) (r va : Z) : bool :=
  match L !! (r, pg va) with
  | Some pte => band pte PTE_U && (band pte PTE_W || band pte PTE_COW)
  | None => false
  end.

(** The walk of [copyout] and [copyin], on any address below [MAXVA]. *)
Lemma walk_lookup s fl T L r va :
  pt_inv s fl T L → T !! (r, []) = Some r → va_ok va →
  ∃ a, walk r va false s = Ok a s ∧
    ((a = 0 ∧ L !! (r, va) = None) ∨
     (a ≠ 0 ∧ ∃ p, T !! (r, [PX 2 va; PX 1 va]) = Some p ∧ a = p + 8 * PX 0 va ∧
        ld a s = Ok (default 0 (L !! (r, va))) s)).
Proof.
  intros Hi HT Hva. pose proof (pi_rep _ _ _ _ Hi) as Hr.
  eexists. split; [by eapply walk_noalloc; [| |apply Hva]|].
  destruct (T !! (r, [PX 2 va; PX 1 va])) as [p|] eqn:E.
  - right. pose proof (pr_ok _ _ _ Hr _ _ E) as Hp. pose proof (PX_idx 0 va ltac:(lia) (proj1 Hva)) as Hx.
    split; [apply slot_ne_0; [done|lia]|]. exists p. split_and!; [done..|].
    rewrite ld_slot by done. by rewrite (pr_leaf _ _ _ Hr r va p).
  - left. split; [done|]. destruct (L !! (r, va)) eqn:EL; [|done].
    destruct (pr_dom _ _ _ Hr _ _ _ EL) as (_ & [??] & _). congruence.
Qed.

(** The check and the copy-on-write part of an iteration: afterwards the page is
    mapped writable and every view is as before. *)
Lemma copyout_prepare s fl T L r va p pte :
  vm_inv s fl T L → L !! (r, va) = Some pte → va < TRAPFRAME → T !! (r, [PX 2 va; PX 1 va]) = Some p →
  band pte PTE_W || band pte PTE_COW = true →
  ∃ res s' fl' L', (if negb (band pte PTE_W) && band pte PTE_COW
      then copyout_cow r (p + 8 * PX 0 va) va else mret 0) s = Ok res s' ∧
    vm_inv s' fl' T L' ∧ (∀ r' va', view s' L' r' va' = view s L r' va') ∧ spares T s fl L s' fl' L' ∧
    ((res = 0 ∧ ∃ pte', L' !! (r, va) = Some pte' ∧ band pte' PTE_W = true ∧ band pte' PTE_U = band pte PTE_U ∧
        ld (p + 8 * PX 0 va) s' = Ok pte' s') ∨
     (res = -1 ∧ fl' = [])).
Proof.
  intros Hv HL Hva HT Hw. destruct (band pte PTE_W) eqn:EW; simpl.
  { exists 0, s, fl, L. split_and!; try done. left. split; [done|]. exists pte. split_and!; try done.
    destruct (unmap_walk _ _ _ _ _ _ _ (vi_pt _ _ _ _ Hv) HL) as (p' & HT' & _ & _ & Hld & _). by simplify_eq. }
  simpl in Hw. rewrite Hw. unfold copyout_cow. destruct fl as [|m fl].
  { destruct (pt_alloc_empty s T L r (vi_pt _ _ _ _ Hv)) as (s1 & Hk & Hi1 & Hg).
    exists (-1), s1, [], L. unfold mbind, M_bind. rewrite Hk. split; [done|].
    split; [by eapply vm_inv_grow|]. assert (∀ x, (∀ k, T !! k ≠ Some (pg x)) → mem s1 x = mem s x) as Hsame.
    { intros x HxT. eapply gr_mem; [done|apply not_elem_of_nil|done]. }
    split; [|split; [|by right]]; [intros r' va'; eapply (view_ext _ [] T); [done|by auto|done]|].
    split; [|done|done]. intros q Hq. split; [done|]. split; [|intros x <-; apply Hsame, Hq]. eapply gr_ref; [done|apply Hq|apply not_elem_of_nil]. }
  destruct (cow_break s m fl T L r va pte) as
    (p' & s1 & s2 & s3 & s4 & freed & HT' & Hk & Hnz & Hld1 & Hmv & Hld2 & Hun & Hmp & Hv4 & Hmok & Hfr & Hcopy & Hframe & Hrc);
    [done..|]. simplify_eq.
  exists 0, s4, (freed ++ fl), (<[(r, va):=mk_pte m (private_flags pte)]> L).
  unfold mbind, M_bind. rewrite Hk, (proj2 (Z.eqb_neq m 0)), Hld1, Hmv, Hld2, Hun by done.
  fold (private_flags pte). rewrite Hmp. destruct (unmap_walk _ _ _ _ _ _ _ (vi_pt _ _ _ _ Hv) HL) as (_ & _ & _ & _ & _ & _ & HV).
  split_and!; [done|done|by eapply cow_break_view|by eapply cow_break_spares|].
  left. split; [done|]. exists (mk_pte m (private_flags pte)). rewrite lookup_insert_eq. split_and!; [done|..].
  - rewrite mk_pte_band; [|by apply page_ok_pa_ok|apply private_flags_range|flag_bounds].
    by rewrite (proj1 (private_flags_spec pte)).
  - rewrite mk_pte_band; [|by apply page_ok_pa_ok|apply private_flags_range|flag_bounds].
    destruct (private_flags_spec pte) as (_ & _ & -> & _). apply orb_false_r.
  - destruct (unmap_walk s4 (freed ++ fl) T (<[(r, va):=mk_pte m (private_flags pte)]> L) r va
      (mk_pte m (private_flags pte))) as (p'' & HT'' & _ & _ & Hld & _); [apply Hv4|apply lookup_insert_eq|].
    by simplify_eq.
Qed.

(** What [copyout] leaves behind: the first [k] bytes are stored at [dstva] of
    [r] and no view changed elsewhere; [k] is everything on success, and a
    failure means the next page cannot be written or memory ran out. *)
Definition copyout_post (s : kst) (fl : list Z) (T : tables) (L : leaves) (r dstva : Z) (src : list byte)
    (res : Z) (s' : kst) : Prop :=
  ∃ fl' L' k, vm_inv s' fl' T L' ∧ spares T s fl L s' fl' L' ∧
    (∀ r' va, view s' L' r' va = view_write (view s L) r dstva (take k src) r' va) ∧
    ((res = 0 ∧ k = length src) ∨
     (res = -1 ∧ (k < length src)%nat ∧ (writable L' r (dstva + Z.of_nat k) = false ∨ fl' = []))).

Lemma copyout_post_step s fl T L s1 fl1 L1 r dstva n src res s' :
  (n ≤ length src)%nat → spares T s fl L s1 fl1 L1 →
  (∀ r' va, view s1 L1 r' va = view_write (view s L) r dstva (take n src) r' va) →
  copyout_post s1 fl1 T L1 r (dstva + Z.of_nat n) (drop n src) res s' → copyout_post s fl T L r dstva src res s'.
Proof.
  intros Hn Hsp Hv (fl' & L' & k & Hinv & Hsp' & Hview & Hres). exists fl', L', (n + k)%nat. split; [done|].
  split; [by eapply spares_trans|].
  rewrite length_drop in Hres. split.
  - intros r' va. rewrite Hview.
    assert (take (n + k) src = take n src ++ take k (drop n src)) as ->.
    { by rewrite <- (take_drop n src) at 1; rewrite take_app_ge; rewrite length_take_le by done; [|lia];
        f_equal; f_equal; lia. }
    rewrite view_write_app, length_take_le by done. unfold view_write at 1 2.
    case_decide; [done|]. by apply Hv.
  - destruct Hres as [[-> ->]|(-> & ? & ?)]; [left|right]; (split; [done|]); [lia|]. split; [lia|].
    by rewrite Nat2Z.inj_add, Z.add_assoc.
Qed.

Lemma copyout_post_nil s fl T L r a a' res s' :
  copyout_post s fl T L r a [] res s' → copyout_post s fl T L r a' [] res s'.
Proof.
  intros (fl' & L' & k & Hinv & Hsp & Hview & Hres). exists fl', L', O. split_and!; [done|done|..].
  - intros r' va. rewrite Hview, take_nil. by rewrite !view_write_nil.
  - left. destruct Hres as [[-> _]|(_ & ? & _)]; [done|simpl in *; lia].
Qed.

Lemma copyout_stop s fl T L r dstva src :
  vm_inv s fl T L → (0 < length src)%nat → writable L r dstva = false →
  copyout_post s fl T L r dstva src (-1) s.
Proof.
  intros Hv Hlen Hw. exists fl, L, O. split_and!; [done|apply spares_refl| |].
  - intros r' va. by rewrite view_write_nil.
  - right. split_and!; [done..|]. left. by rewrite Z.add_0_r.
Qed.

Lemma copyout_loop_spec fuel s fl T L r dstva src :
  vm_inv s fl T L → T !! (r, []) = Some r → 0 ≤ dstva < 2 ^ 64 → (length src ≤ fuel)%nat →
  wp (copyout_loop (S fuel) r dstva src) s (copyout_post s fl T L r dstva src).
Proof.
  revert s fl L dstva src. induction fuel as [|fuel IH]; intros s fl L dstva src Hv HT Hd Hfuel;
    rewrite copyout_loop_S; (destruct (Nat.ltb_spec 0 (length src)) as [Hlen|Hlen];
      [try lia|apply wp_ret; exists fl, L, O; split_and!; [done|apply spares_refl|intros; by rewrite view_write_nil|left; split; [done|lia]]]).
  cbv zeta. rewrite PGROUNDDOWN_alt by done. fold (pg dstva).
  pose proof (pg_range dstva) as Hpr. pose proof (pg_aligned dstva) as Hpa. pose proof (vi_pt _ _ _ _ Hv) as Hi.
  assert (0 ≤ pg dstva) as Hpos by (unfold pg; Z.div_mod_to_equations; lia).
  destruct (Z_geb_spec0 (pg dstva) MAXVA) as [Hge|Hlt].
  { apply wp_ret. eapply copyout_stop; [done|done|]. unfold writable.
    destruct (L !! (r, pg dstva)) eqn:E; [|done].
    destruct (pr_dom _ _ _ (pi_rep _ _ _ _ Hi) _ _ _ E) as ([[_ ?] _] & _). lia. }
  destruct (walk_lookup s fl T L r (pg dstva)) as (a & Hw & Ha); [done..|].
  unfold wp, mbind, M_bind. rewrite Hw.
  destruct Ha as [[-> HL]|(Ha & p & HTp & -> & Hld)].
  { eapply copyout_stop; [done|done|]. unfold writable. by rewrite HL. }
  rewrite (proj2 (Z.eqb_neq _ _) Ha), Hld.
  destruct (L !! (r, pg dstva)) as [pte|] eqn:HL.
  2:{ eapply copyout_stop; [done|done|]. unfold writable. by rewrite HL. }
  destruct (pr_dom _ _ _ (pi_rep _ _ _ _ Hi) _ _ _ HL) as (_ & _ & HV & _).
  change (default 0 (Some pte)) with pte. rewrite HV.
  destruct (negb true || negb (band pte PTE_U) || negb (band pte PTE_W) && negb (band pte PTE_COW)) eqn:Echk.
  { eapply copyout_stop; [done|done|]. unfold writable. rewrite HL.
    destruct (band pte PTE_U), (band pte PTE_W), (band pte PTE_COW); done. }
  assert (band pte PTE_U = true ∧ band pte PTE_W || band pte PTE_COW = true) as [HU HWC].
  { by destruct (band pte PTE_U), (band pte PTE_W), (band pte PTE_COW). }
  pose proof (leaf_user _ _ _ _ _ _ _ Hv HL HU) as Hlow.
  destruct (copyout_prepare s fl T L r (pg dstva) p pte) as (res & s1 & fl1 & L1 & Hprep & Hv1 & Hview1 & Hsp1 & Hres);
    [done..|]. unfold mbind, M_bind in Hprep. rewrite Hprep.
  destruct Hres as [(-> & pte' & HL1 & HW1 & HU1 & Hld1)|(-> & ->)].
  2:{ exists [], L1, O. split_and!; [done|done| |right; split_and!; [done..|by right]].
      intros r' va. rewrite view_write_nil. by apply Hview1. }
  change (negb (0 =? 0)) with false. cbv iota beta. rewrite Hld1.
  set (n := Z.to_nat (Z.min (PGSIZE - (dstva - pg dstva)) (Z.of_nat (length src)))).
  assert ((n ≤ length src)%nat ∧ (0 < n)%nat ∧ dstva - pg dstva + Z.of_nat n ≤ 4096) as (Hn & Hn0 & Hn4)
    by (unfold n, PGSIZE; lia).
  destruct (write_page s1 fl1 T L1 r (pg dstva) pte' (dstva - pg dstva) (take n src))
    as (s2 & Hwr & Hv2 & Hview2 & Hsp2); [done|done|by rewrite HU1|done|lia|rewrite length_take_le by lia; lia|].
  rewrite Hwr. replace (pg dstva + (dstva - pg dstva)) with dstva in Hview2 by lia.
  assert (MAXVA = 0x4000000000) as HM by done. rewrite u64_small by (unfold PGSIZE; lia).
  pose proof (IH s2 fl1 L1 (pg dstva + PGSIZE) (drop n src)) as Hrec.
  eapply wp_mono; [apply Hrec; [done|done|unfold PGSIZE; lia|rewrite length_drop; lia]|]. cbv beta.
  intros res s3 Hpost. eapply (copyout_post_step s fl T L s2 fl1 L1 _ _ n); [done|by eapply spares_trans| |].
  - intros r' va. rewrite Hview2. unfold view_write. case_decide; [done|by apply Hview1].
  - destruct (decide (n = length src)) as [->|Hne].
    + rewrite drop_ge in * by lia. by eapply copyout_post_nil.
    + by replace (dstva + Z.of_nat n) with (pg dstva + PGSIZE) by (unfold n, PGSIZE in *; lia).
Qed.

Lemma copyout_spec s fl T L r dstva src :
  vm_inv s fl T L → T !! (r, []) = Some r → 0 ≤ dstva < 2 ^ 64 →
  wp (copyout r dstva src) s (copyout_post s fl T L r dstva src).
Proof. intros. eapply copyout_loop_spec; eauto. Qed.

(** ** Reading user memory *)

(** May user code read the page of [va]? *)
Definition readable (L : leaves) (r va : Z) : bool :=
  match L !! (r, pg va) with
  | Some pte => band pte PTE_U
  | None => false
  end.

Lemma walkaddr_spec s fl T L r va :
  vm_inv s fl T L → T !! (r, []) = Some r → 0 ≤ va → va mod 4096 = 0 →
  walkaddr r va s = Ok (default 0 (L !! (r, va) ≫= utarget)) s.
Proof.
  intros Hv HT Hva Hal. pose proof (vi_pt _ _ _ _ Hv) as Hi. unfold walkaddr.
  destruct (Z_geb_spec0 va MAXVA) as [Hge|Hlt].
  { destruct (L !! (r, va)) eqn:E; [|done].
    destruct (pr_dom _ _ _ (pi_rep _ _ _ _ Hi) _ _ _ E) as ([[_ ?] _] & _). lia. }
  destruct (walk_lookup s fl T L r va) as (a & Hw & Ha); [done..|]. unfold mbind, M_bind. rewrite Hw.
  destruct Ha as [[-> ->]|(Ha & p & HTp & -> & Hld)]; [done|].
  rewrite (proj2 (Z.eqb_neq _ _) Ha), Hld. destruct (L !! (r, va)) as [pte|] eqn:HL; [|done].
  destruct (pr_dom _ _ _ (pi_rep _ _ _ _ Hi) _ _ _ HL) as (_ & _ & HV & _).
  change (default 0 (Some pte)) with pte. rewrite HV. simpl. unfold utarget. by destruct (band pte PTE_U).
Qed.

(** One chunk of [copyin] or [copyinstr]: the page is not readable and
    [walkaddr] returns 0, or the bytes of the chunk are those of the view. *)
Lemma read_chunk s fl T L r srcva :
  vm_inv s fl T L → T !! (r, []) = Some r → 0 ≤ srcva < 2 ^ 64 →
  (readable L r srcva = false ∧ walkaddr r (pg srcva) s = Ok 0 s) ∨
  (∃ pa, walkaddr r (pg srcva) s = Ok pa s ∧ pa ≠ 0 ∧ pg srcva < MAXVA ∧
     ∀ n, srcva - pg srcva + Z.of_nat n ≤ 4096 →
       ∃ bs, read_bytes (pa + (srcva - pg srcva)) n s = Ok bs s ∧ length bs = n ∧
         ∀ i, (i < n)%nat → view s L r (srcva + Z.of_nat i) = bs !! i).
Proof.
  intros Hv HT Hs. pose proof (pg_range srcva) as Hpr. pose proof (pg_aligned srcva) as Hpa.
  assert (0 ≤ pg srcva) as Hpos by (unfold pg; Z.div_mod_to_equations; lia).
  rewrite (walkaddr_spec s fl T L) by done. unfold readable, utarget.
  destruct (L !! (r, pg srcva)) as [pte|] eqn:HL; [|by left]. simpl.
  destruct (band pte PTE_U) eqn:HU; [right|by left]. simpl. exists (PTE2PA pte).
  destruct (leaf_used _ _ _ _ _ _ _ Hv HL (leaf_user _ _ _ _ _ _ _ Hv HL HU)) as (Hok & _).
  pose proof (page_ok_range _ Hok) as (?&?&?).
  destruct (pr_dom _ _ _ (pi_rep _ _ _ _ (vi_pt _ _ _ _ Hv)) _ _ _ HL) as ([[_ ?] _] & _).
  split_and!; [done|lia|done|]. intros n' Hn. eexists. split; [|split].
  - unfold read_bytes. by rewrite (mapped_page (PTE2PA pte)) by (done || lia).
  - apply length_mread.
  - intros i Hi. rewrite lookup_mread by done. unfold view.
    assert (pg (srcva + Z.of_nat i) = pg srcva) as E by (apply pg_eq; lia). rewrite E, HL. simpl. rewrite HU.
    do 2 f_equal. revert E. unfold pg. Z.div_mod_to_equations. lia.
Qed.

(** The bytes [copyin] stores are the user's, in order; it fails only at a page
    the user cannot read. *)
Definition copyin_post (s : kst) (L : leaves) (r srcva len : Z) (res : Z) (bs : list byte) : Prop :=
  (∀ i, (i < length bs)%nat → view s L r (srcva + Z.of_nat i) = bs !! i) ∧
  ((res = 0 ∧ Z.of_nat (length bs) = len) ∨
   (res = -1 ∧ Z.of_nat (length bs) < len ∧ readable L r (srcva + Z.of_nat (length bs)) = false)).

Lemma copyin_loop_S fuel pagetable srcva len :
  copyin_loop (S fuel) pagetable srcva len =
    (if len >? 0 then
       let va0 := PGROUNDDOWN srcva in
       pa0 ← walkaddr pagetable va0;
       if pa0 =? 0 then mret (-1, [])
       else
         let n := Z.min (PGSIZE - (srcva - va0)) len in
         bs ← read_bytes (pa0 + (srcva - va0)) (Z.to_nat n);
         '(r, rest) ← copyin_loop fuel pagetable (u64 (va0 + PGSIZE)) (len - n);
         mret (r, bs ++ rest)
     else mret (0, [])).
Proof. done. Qed.

Lemma copyin_loop_spec fuel s fl T L r srcva len :
  vm_inv s fl T L → T !! (r, []) = Some r → 0 ≤ srcva < 2 ^ 64 → 0 ≤ len ≤ Z.of_nat fuel →
  ∃ res bs, copyin_loop (S fuel) r srcva len s = Ok (res, bs) s ∧ copyin_post s L r srcva len res bs.
Proof.
  intros Hv HT. revert srcva len. induction fuel as [|fuel IH]; intros srcva len Hs Hlen;
    remember (copyin_loop _ r srcva len s) as W eqn:EW; rewrite copyin_loop_S in EW;
    (destruct (Z.gtb_spec len 0) as [Hpos|Hpos]; [try lia|exists 0, []; split; [done|]; split;
      [intros i Hi; simpl in Hi; lia|left; simpl; lia]]).
  cbv zeta in EW. rewrite PGROUNDDOWN_alt in EW by done. fold (pg srcva) in EW.
  pose proof (pg_range srcva) as Hpr.
  destruct (read_chunk s fl T L r srcva Hv HT Hs) as [[Hr Hw]|(pa & Hw & Hnz & Hmax & Hrd)];
    unfold mbind, M_bind in EW; rewrite Hw in EW.
  { exists (-1), []. split; [done|]. split; [intros i Hi; simpl in Hi; lia|].
    right. simpl. by rewrite Z.add_0_r. }
  rewrite (proj2 (Z.eqb_neq pa 0)) in EW by done.
  set (n := Z.min (PGSIZE - (srcva - pg srcva)) len) in *. unfold PGSIZE in n.
  destruct (Hrd (Z.to_nat n)) as (bs & Hbs & Hlb & Hview); [unfold n; lia|]. rewrite Hbs in EW.
  assert (MAXVA = 0x4000000000) as HM by done. rewrite u64_small in EW by (unfold PGSIZE; lia).
  destruct (IH (pg srcva + PGSIZE) (len - n)) as (res & rest & Hrec & Hv' & Hres); [unfold PGSIZE; lia|unfold n; lia|].
  rewrite Hrec in EW. exists res, (bs ++ rest). split; [done|]. split.
  - intros i Hi. rewrite length_app in Hi. destruct (decide (i < length bs)%nat).
    + rewrite lookup_app_l by done. apply Hview. lia.
    + rewrite lookup_app_r by lia. rewrite <- Hv' by lia. f_equal.
      assert (0 < length rest)%nat by lia. unfold PGSIZE, n in *. lia.
  - rewrite length_app, Nat2Z.inj_add. destruct Hres as [[-> ?]|(-> & ? & Hr)]; [left; split; [done|]; lia|right].
    split_and!; [done|lia|]. rewrite <- Hr. f_equal. unfold PGSIZE, n in *. lia.
Qed.

(** One byte at a time, as pipes and the console copy. *)
Lemma copyin_byte K fl T L r a : vm_inv K fl T L → T !! (r, []) = Some r → 0 ≤ a < 2 ^ 64 →
  match view K L r a with
  | Some c => copyin r a 1 K = Ok (0, [c]) K
  | None => ∃ bs, copyin r a 1 K = Ok (-1, bs) K
  end.
Proof.
  intros Hv HT Ha. destruct (copyin_loop_spec 1 K fl T L r a 1) as (res & bs & E & Hbs & Hres); [done..|].
  unfold copyin. change (S (Z.to_nat 1)) with 2%nat. rewrite E. clear E.
  destruct Hres as [[-> Hlen]|(-> & Hlen & Hr)].
  - destruct bs as [|c [|]]; simpl in Hlen; try lia. specialize (Hbs 0%nat ltac:(simpl; lia)).
    rewrite Z.add_0_r in Hbs. by rewrite Hbs.
  - destruct bs; simpl in Hlen; [|lia]. rewrite Z.add_0_r in Hr. unfold readable in Hr. unfold view.
    destruct (L !! (r, pg a)) as [pte|]; simpl; [|by eexists]. rewrite Hr. by eexists.
Qed.

Lemma copyout_byte K fl T L r a c : vm_inv K fl T L → T !! (r, []) = Some r → 0 ≤ a < 2 ^ 64 →
  wp (copyout r a [c]) K (λ res K', ∃ fl' L', vm_inv K' fl' T L' ∧ spares T K fl L K' fl' L' ∧
    ((res = 0 ∧ ∀ r' va, view K' L' r' va = view_write (view K L) r a [c] r' va) ∨
     (res = -1 ∧ (∀ r' va, view K' L' r' va = view K L r' va) ∧ (writable L' r a = false ∨ fl' = [])))).
Proof.
  intros Hv HT Ha. eapply wp_mono; [by eapply copyout_spec|].
  intros res K' (fl' & L' & k & Hv' & Hsp & Hview & Hk). exists fl', L'. split; [done|]. split; [done|].
  destruct Hk as [[-> ->]|(-> & Hlt & Hw)]; [by left|right]. simpl in Hlt. assert (k = 0%nat) as -> by lia.
  split; [done|]. rewrite Z.add_0_r in Hw. split; [|done]. intros r' va. by rewrite Hview, take_0, view_write_nil.
Qed.

Lemma scan_nul_spec l bs g :
  scan_nul l = (bs, g) →
  bs `prefix_of` l ∧ if g then ∃ body, bs = body ++ [x00] ∧ (x00 ∉ body) else bs = l ∧ (x00 ∉ l).
Proof.
  revert bs g. induction l as [|b l IH]; intros bs g; simpl.
  { intros [= <- <-]. split; [done|]. split; [done|apply not_elem_of_nil]. }
  case_decide as E.
  - intros [= <- <-]. subst b. split; [by exists l|]. exists []. split; [done|apply not_elem_of_nil].
  - destruct (scan_nul l) as [bs' g'] eqn:Es. intros [= <- <-]. destruct (IH _ _ eq_refl) as [Hp Hg].
    split; [by apply prefix_cons|]. destruct g'.
    + destruct Hg as (body & -> & Hb). exists (b :: body). split; [done|]. rewrite elem_of_cons. naive_solver.
    + destruct Hg as [-> Hb]. split; [done|]. rewrite elem_of_cons. naive_solver.
Qed.

(** [copyinstr] returns 0 with the user's string up to and including its NUL, or
    -1 when there is none in the [max] bytes it may read. *)
Definition copyinstr_post (s : kst) (L : leaves) (r srcva max : Z) (res : Z) (bs : list byte) : Prop :=
  (∀ i, (i < length bs)%nat → view s L r (srcva + Z.of_nat i) = bs !! i) ∧ Z.of_nat (length bs) ≤ max ∧
  ((res = 0 ∧ ∃ body, bs = body ++ [x00] ∧ (x00 ∉ body)) ∨
   (res = -1 ∧ (x00 ∉ bs) ∧
      (Z.of_nat (length bs) = max ∨ readable L r (srcva + Z.of_nat (length bs)) = false))).

Lemma copyinstr_loop_S fuel pagetable srcva max :
  copyinstr_loop (S fuel) pagetable srcva max =
    (if max >? 0 then
       let va0 := PGROUNDDOWN srcva in
       pa0 ← walkaddr pagetable va0;
       if pa0 =? 0 then mret (-1, [])
       else
         let n := Z.min (PGSIZE - (srcva - va0)) max in
         chunk ← read_bytes (pa0 + (srcva - va0)) (Z.to_nat n);
         let '(bs, got_null) := scan_nul chunk in
         if (got_null : bool) then mret (0, bs)
         else
           '(r, rest) ← copyinstr_loop fuel pagetable (u64 (va0 + PGSIZE)) (max - n);
           mret (r, bs ++ rest)
     else mret (-1, [])).
Proof. done. Qed.

Lemma copyinstr_loop_spec fuel s fl T L r srcva max :
  vm_inv s fl T L → T !! (r, []) = Some r → 0 ≤ srcva < 2 ^ 64 → 0 ≤ max ≤ Z.of_nat fuel →
  ∃ res bs, copyinstr_loop (S fuel) r srcva max s = Ok (res, bs) s ∧ copyinstr_post s L r srcva max res bs.
Proof.
  intros Hv HT. revert srcva max. induction fuel as [|fuel IH]; intros srcva max Hs Hmx;
    remember (copyinstr_loop _ r srcva max s) as W eqn:EW; rewrite copyinstr_loop_S in EW;
    (destruct (Z.gtb_spec max 0) as [Hpos|Hpos]; [try lia|exists (-1), []; split; [done|]; split_and!;
      [intros i Hi; simpl in Hi; lia|simpl; lia|right; split_and!; [done|apply not_elem_of_nil|left; simpl; lia]]]).
  cbv zeta in EW. rewrite PGROUNDDOWN_alt in EW by done. fold (pg srcva) in EW.
  pose proof (pg_range srcva) as Hpr.
  destruct (read_chunk s fl T L r srcva Hv HT Hs) as [[Hr Hw]|(pa & Hw & Hnz & Hmax & Hrd)];
    unfold mbind, M_bind in EW; rewrite Hw in EW.
  { exists (-1), []. split; [done|]. split_and!; [intros i Hi; simpl in Hi; lia|simpl; lia|].
    right. split_and!; [done|apply not_elem_of_nil|]. right. simpl. by rewrite Z.add_0_r. }
  rewrite (proj2 (Z.eqb_neq pa 0)) in EW by done.
  set (n := Z.min (PGSIZE - (srcva - pg srcva)) max) in *. unfold PGSIZE in n.
  destruct (Hrd (Z.to_nat n)) as (chunk & Hbs & Hlb & Hview); [unfold n; lia|]. rewrite Hbs in EW.
  destruct (scan_nul chunk) as [bs g] eqn:Es. apply scan_nul_spec in Es as [[tl Hpre] Hg]. destruct g.
  { exists 0, bs. split; [done|]. split_and!; [|subst chunk; rewrite length_app in Hlb; unfold n in *; lia|by left].
    intros i Hi. rewrite Hview by (subst chunk; rewrite length_app in Hlb; lia). subst chunk. by rewrite lookup_app_l. }
  destruct Hg as [-> Hno].
  assert (MAXVA = 0x4000000000) as HM by done. rewrite u64_small in EW by (unfold PGSIZE; lia).
  destruct (IH (pg srcva + PGSIZE) (max - n)) as (res & rest & Hrec & Hv' & Hlr & Hres); [unfold PGSIZE; lia|unfold n; lia|].
  rewrite Hrec in EW. exists res, (chunk ++ rest). split; [done|]. unfold copyinstr_post. rewrite length_app. split_and!.
  - intros i Hi. destruct (decide (i < length chunk)%nat).
    + rewrite lookup_app_l by done. apply Hview. lia.
    + rewrite lookup_app_r by lia. rewrite <- Hv' by lia. f_equal. unfold PGSIZE, n in *. lia.
  - lia.
  - destruct Hres as [(-> & body & -> & Hb)|(-> & Hnr & Hr)]; [left|right]; (split; [done|]).
    + exists (chunk ++ body). rewrite app_assoc, elem_of_app. tauto.
    + rewrite elem_of_app. split; [tauto|]. destruct Hr as [Hr|Hr]; [left; lia|].
      destruct (decide (Z.of_nat (length chunk + length rest) = max)); [by left|right].
      rewrite <- Hr. f_equal. unfold PGSIZE, n in *. lia.
Qed.

(** A fork and the bytes the processes read. *)
Section forked_view.
Context (s s' : kst) (fl : list Z) (T : tables) (L L' : leaves) (old new hi : Z).
Context (Hv : vm_inv s fl T L) (Hmem : ∀ x, pg x ∉ fl → (∀ k, T !! k ≠ Some (pg x)) → mem s' x = mem s x).

Lemma forked_view c r va : forked c old new hi L L' → r ≠ new → view s' L' r va = view s L r va.
Proof using Hv Hmem.
  intros [Ho _ Hr] Hrn. eapply view_ext; [done..|]. destruct (decide (r = old)) as [->|]; [|by rewrite Hr].
  rewrite Ho. destruct (L !! (old, pg va)) as [pte|]; [|done]. simpl. case_match; [|done].
  unfold utarget. rewrite cow_pte_PA, cow_pte_keep by set_solver. done.
Qed.

Lemma forked_leaf va pte : L !! (old, va) = Some pte → va < TRAPFRAME → page_ok (PTE2PA pte) ∧ band pte PTE_V = true.
Proof using Hv.
  intros E Hva. destruct (leaf_used _ _ _ _ _ _ _ Hv E Hva) as (Hok & _). split; [done|].
  by destruct (pr_dom _ _ _ (pi_rep _ _ _ _ (vi_pt _ _ _ _ Hv)) _ _ _ E) as (_ & _ & ? & _).
Qed.

Lemma forked_child_view va : forked true old new hi L L' → hi ≤ TRAPFRAME → pg va < hi → view s' L' new va = view s L old va.
Proof using Hv Hmem.
  intros [_ Hc _] Hhi Hva. eapply view_ext; [done..|]. rewrite Hc. simpl. z_decide.
  destruct (L !! (old, pg va)) as [pte|] eqn:E; [|done]. simpl. destruct (forked_leaf _ _ E) as [Hok HV]; [lia|]. unfold utarget.
  rewrite child_pte_PA, child_pte_band, cow_pte_keep by (done || flag_bounds || set_solver). done.
Qed.

Lemma forked_noW r va pte : forked true old new hi L L' → hi ≤ TRAPFRAME → va < hi → r = old ∨ r = new → L' !! (r, va) = Some pte → band pte PTE_W = false.
Proof using Hv.
  intros [Ho Hc _] Hhi Hva [-> | ->].
  - rewrite Ho. destruct (L !! (old, va)) as [pte0|]; [|done]. simpl. z_decide. intros [= <-]. apply cow_pte_noW.
  - rewrite Hc. simpl. z_decide. destruct (L !! (old, va)) as [pte0|] eqn:E; [|done]. intros [= <-].
    destruct (forked_leaf _ _ E) as [Hok HV]; [lia|]. rewrite child_pte_band by (done || flag_bounds). apply cow_pte_noW.
Qed.
End forked_view.

Lemma uvmcopy_spec old new sz s fl T L :
  vm_inv s fl T L → old ≠ new → T !! (new, []) = Some new → 0 ≤ sz ≤ TRAPFRAME →
  mapped_range L old 0 (PGROUNDUP sz) → (∀ va, va < PGROUNDUP sz → L !! (new, va) = None) →
  wp (uvmcopy old new sz) s (λ res s', ∃ fl' T' L', vm_inv s' fl' T' L' ∧ T ⊆ T' ∧
    (∀ r va, r ≠ new → view s' L' r va = view s L r va) ∧
    ((res = 0 ∧ ∀ va, va < PGROUNDUP sz → view s' L' new va = view s L old va ∧
        (∀ r pte, r = old ∨ r = new → L' !! (r, va) = Some pte → band pte PTE_W = false)) ∨
     (res = -1 ∧ ∀ va, view s' L' new va = view s L new va))).
Proof.
  intros Hv Hne HT Hsz Hmap Hemp. destruct (PGROUNDUP_le sz Hsz) as (Hr1 & Hr2 & Hr3).
  eapply wp_mono; [by eapply (uvmcopy_fork old new sz s fl T L)|].
  intros res s' (fl' & T' & L' & hi & Hv' & Hte & _ & Hres). exists fl', T', L'. split; [done|].
  split; [apply Hte|]. pose proof (te_mem _ _ _ _ _ _ _ Hte) as Hmem.
  destruct Hres as [(-> & -> & Hfk)|(-> & Hle & Hfk & _)]; (split; [intros r va; by eapply forked_view|]); [left|right]; (split; [done|]).
  - intros va Hva. assert (pg va < PGROUNDUP sz) as Hpg by (unfold pg; Z.div_mod_to_equations; lia).
    split; [by eapply forked_child_view|]. intros r pte Hr. eapply (forked_noW s fl T L L' old new (PGROUNDUP sz)); try done; lia.
  - intros va. eapply view_ext; [done..|]. by rewrite (fk_child _ _ _ _ _ _ Hfk).
Qed.

(** ** Properties *)

(** [uvmcopy] forks an address space copy-on-write.  Given that [old] maps
    all of [0, sz) and the new tree maps none of it, it returns 0 or -1 and
    keeps the allocator, page-table and reference-count invariant; on success
    the child reads exactly the parent's bytes and no page of the fork is
    mapped writable any more; on failure the child maps nothing new; and in
    both cases no other process, the parent included, sees any byte change. *)
Theorem uvmcopy_correct old new sz s fl T L :
  vm_inv s fl T L → old ≠ new → T !! (new, []) = Some new → 0 ≤ sz ≤ TRAPFRAME →
  mapped_range L old 0 (PGROUNDUP sz) → (∀ va, va < PGROUNDUP sz → L !! (new, va) = None) →
  wp (uvmcopy old new sz) s (λ res s', ∃ fl' T' L', vm_inv s' fl' T' L' ∧ T ⊆ T' ∧
    (∀ r va, r ≠ new → view s' L' r va = view s L r va) ∧
    ((res = 0 ∧ ∀ va, va < PGROUNDUP sz → view s' L' new va = view s L old va ∧
        (∀ r pte, r = old ∨ r = new → L' !! (r, va) = Some pte → band pte PTE_W = false)) ∨
     (res = -1 ∧ ∀ va, view s' L' new va = view s L new va))).
Proof. apply uvmcopy_spec. Qed.

(** C8: [copyout] writes user memory and nothing else.  It returns 0 with all of
    [src] at [dstva] of [r], or -1 with a prefix of it written, and then the
    next page is not writable for the user or physical memory is exhausted.
    Bytes outside the range, and all bytes of every other process, including
    those that share pages with [r] copy-on-write, read as before. *)
Theorem copyout_correct s fl T L r dstva src :
  vm_inv s fl T L → T !! (r, []) = Some r → 0 ≤ dstva < 2 ^ 64 →
  wp (copyout r dstva src) s (λ res s', ∃ fl' L' k, vm_inv s' fl' T L' ∧
    (∀ r' va, view s' L' r' va = view_write (view s L) r dstva (take k src) r' va) ∧
    ((res = 0 ∧ k = length src) ∨
     (res = -1 ∧ (k < length src)%nat ∧ (writable L' r (dstva + Z.of_nat k) = false ∨ fl' = [])))).
Proof.
  intros. eapply wp_mono; [by eapply copyout_spec|]. intros res s' (fl' & L' & k & ? & _ & ? & ?). by exists fl', L', k.
Qed.


(** A [copyin] of what a successful [copyout] wrote returns the same bytes,
    without changing the state. *)
Theorem copyout_copyin s fl T L r dstva src :
  vm_inv s fl T L → T !! (r, []) = Some r → 0 ≤ dstva < 2 ^ 64 →
  wp (copyout r dstva src) s (λ res s', res = 0 →
    copyin r dstva (Z.of_nat (length src)) s' = Ok (0, src) s').
Proof.
  intros Hv HT Hd. eapply wp_mono; [by eapply copyout_spec|].
  intros res s' (fl' & L' & k & Hv' & _ & Hview & Hk) ->. destruct Hk as [[_ ->]|[? _]]; [|done].
  rewrite take_ge in Hview by lia.
  destruct (copyin_loop_spec (length src) s' fl' T L' r dstva (Z.of_nat (length src)))
    as (res & bs & Hc & Hb & Hres); [done..|lia|]. unfold copyin. rewrite Nat2Z.id, Hc.
  assert (∀ i, (i < length src)%nat → view s' L' r (dstva + Z.of_nat i) = src !! i) as Hsrc.
  { intros i Hi. rewrite Hview. unfold view_write. rewrite decide_True by lia. f_equal. lia. }
  assert (length bs = length src ∧ res = 0) as [Hl ->].
  { destruct Hres as [[-> ?]|(_ & Hlt & Hr)]; [split; [lia|done]|]. exfalso.
    specialize (Hsrc (length bs) ltac:(lia)). revert Hr Hsrc. unfold readable, view.
    destruct (L' !! (r, _)) as [pte|]; simpl; [intros ->|intros _];
      (intros E; destruct (lookup_lt_is_Some_2 src (length bs)) as [? ?]; [lia|congruence]). }
  do 3 f_equal. apply list_eq. intros i. destruct (decide (i < length src)%nat).
  - rewrite <- Hb, Hsrc by lia. done.
  - rewrite !lookup_ge_None_2 by lia. done.
Qed.

(** [copyinstr] returns 0 with exactly the user's NUL-terminated string, and
    -1 when the first [max] bytes have no NUL or an unreadable page comes first;
    it changes nothing. *)
Theorem copyinstr_correct s fl T L r srcva max :
  vm_inv s fl T L → T !! (r, []) = Some r → 0 ≤ srcva < 2 ^ 64 → 0 ≤ max →
  ∃ res bs, copyinstr r srcva max s = Ok (res, bs) s ∧ copyinstr_post s L r srcva max res bs.
Proof. intros. eapply copyinstr_loop_spec; try done. lia. Qed.

End cow.

(** ** Witnesses *)

Lemma uvmcopy_correct_witness :
  ∃ s fl T L, @vm_inv demo_image s fl T L ∧ mapped_range L demo_p 0 (PGROUNDUP 8192) ∧
    wp (@uvmcopy demo_image demo_p demo_c 8192) s (λ res s', ∃ fl' T' L', @vm_inv demo_image s' fl' T' L' ∧ T ⊆ T' ∧
    (∀ r va, r ≠ demo_c → view s' L' r va = view s L r va) ∧
    ((res = 0 ∧ ∀ va, va < PGROUNDUP 8192 → view s' L' demo_c va = view s L demo_p va ∧
        (∀ r pte, r = demo_p ∨ r = demo_c → L' !! (r, va) = Some pte → band pte PTE_W = false)) ∨
     (res = -1 ∧ ∀ va, view s' L' demo_c va = view s L demo_c va))).
Proof.
  destruct demo_fork_ok as (s & fl & T & L & _ & Hv & _ & HTc & Hdom & Hemp & _).
  assert (mapped_range L demo_p 0 (PGROUNDUP 8192)) as Hmap by (intros va Hva Ha; by apply Hdom).
  exists s, fl, T, L. split; [exact Hv|]. split; [exact Hmap|].
  apply (@uvmcopy_correct demo_image demo_p demo_c 8192 s fl T L);
    [exact Hv|done|exact HTc|vm_compute; split; congruence|exact Hmap|intros; apply Hemp].
Defined.

Definition demo_src : list byte := bytes "abc".

Lemma copyout_correct_witness :
  ∃ s fl T L, @vm_inv demo_image s fl T L ∧ writable L demo_p 4096 = true ∧
    wp (@copyout demo_image demo_p 4095 demo_src) s (λ res s', ∃ fl' L' k, @vm_inv demo_image s' fl' T L' ∧
    (∀ r' va, view s' L' r' va = view_write (view s L) demo_p 4095 (take k demo_src) r' va) ∧
    ((res = 0 ∧ k = length demo_src) ∨
     (res = -1 ∧ (k < length demo_src)%nat ∧
        (writable L' demo_p (4095 + Z.of_nat k) = false ∨ fl' = [])))).
Proof.
  destruct demo_fork_ok as (s & fl & T & L & _ & Hv & HTp & _ & _ & _ & Hw).
  exists s, fl, T, L. split; [exact Hv|]. split.
  { destruct (Hw 4096) as (p & Hp & HL); [lia|reflexivity|]. pose proof (@page_ok_pa_ok demo_image _ Hp).
    unfold writable. change (pg 4096) with 4096. rewrite HL.
    by rewrite !mk_pte_band by (done || flag_bounds || vm_compute; split; congruence). }
  apply (@copyout_correct demo_image s fl T L); [exact Hv|exact HTp|lia].
Defined.


Lemma copyout_copyin_witness :
  ∃ s, wp (@copyout demo_image demo_p 4095 demo_src) s (λ res s', res = 0 →
    copyin demo_p 4095 (Z.of_nat (length demo_src)) s' = Ok (0, demo_src) s').
Proof.
  destruct demo_fork_ok as (s & fl & T & L & _ & Hv & HTp & _).
  exists s. apply (@copyout_copyin demo_image s fl T L); [exact Hv|exact HTp|lia].
Defined.

Lemma copyinstr_correct_witness :
  ∃ s L res bs, copyinstr demo_p 4095 128 s = Ok (res, bs) s ∧ copyinstr_post s L demo_p 4095 128 res bs.
Proof.
  destruct demo_fork_ok as (s & fl & T & L & _ & Hv & HTp & _).
  exists s, L. apply (@copyinstr_correct demo_image s fl T L); [exact Hv|exact HTp|lia|lia].
Defined.
