(* ===== verification/KvmSpec.v ===== *)
(** * The kernel's page table

    What [kvmmake] of [kernel/vm.c] and [proc_mapstacks] of [kernel/proc.c]
    build: a page table under which the devices and all of RAM are at their
    physical addresses, the text read-only and executable, the rest writable,
    with the trampoline at the top and a stack for each process below it, each
    above a page that is not mapped.  The tables that the mappings need are
    counted, so that the memory they take is known and the code cannot fail. *)

From S2P Require Import Prelude Riscv Mem CString Kalloc Vm VmTree VmOps.

(** ** What is mapped *)

(** [g_size] bytes from [g_va] on, mapped to [g_pa] on. *)
Record region := mk_region { g_va : Z; g_pa : Z; g_size : Z; g_perm : Z }.
Definition in_region (g : region) (va : Z) : Prop := g_va g ≤ va < g_va g + g_size g ∧ va mod 4096 = 0.
#[export] Instance in_region_dec g va : Decision (in_region g va).
Proof. unfold in_region. apply _. Defined.
Fixpoint kleaf (gs : list region) (va : Z) : option Z :=
  match gs with
  | [] => None
  | g :: gs => if decide (in_region g va) then Some (mk_pte (g_pa g + (va - g_va g)) (g_perm g)) else kleaf gs va
  end.

Lemma kleaf_None gs va : (∀ g, g ∈ gs → ¬ in_region g va) → kleaf gs va = None.
Proof.
  induction gs as [|g gs IH]; intros Hno; [done|]. cbn [kleaf]. rewrite decide_False by (apply Hno; by left).
  apply IH. intros g' Hg'. apply Hno. by right.
Qed.

Lemma aligned_gap a b : a mod 4096 = 0 → b mod 4096 = 0 → a < b → a + 4096 ≤ b.
Proof. intros Ha Hb Hlt. Z.div_mod_to_equations. lia. Qed.

(** The page-table pages that the mappings of the kernel need: the paths of
    their tables from the root. *)
Definition kernel_paths : list (list Z) :=
  [] :: [0] :: [2] :: [255] :: [0; 96] :: [0; 97] :: [0; 128] :: [255; 511] :: map (λ j, [2; j]) (seqZ 0 64).

Section kvm.
Context `{KernelImage}.

Record region_ok (g : region) : Prop := {
  go_va : va_ok (g_va g);
  go_size : 0 < g_size g ∧ g_size g mod PGSIZE = 0;
  go_max : g_va g + g_size g ≤ MAXVA;
  go_pa : pa_ok (g_pa g) ∧ g_pa g + g_size g ≤ 2 ^ 54;
  go_perm : 0 ≤ g_perm g < 1024;
  go_path va : in_region g va → [PX 2 va] ∈ kernel_paths ∧ [PX 2 va; PX 1 va] ∈ kernel_paths;
}.
Definition apart (g g' : region) : Prop := g_va g + g_size g ≤ g_va g' ∨ g_va g' + g_size g' ≤ g_va g.

Lemma lookup_map_range n r va pa perm L r' va' : va mod 4096 = 0 →
  map_range n r va pa perm L !! (r', va') =
    if decide (r' = r ∧ in_region (mk_region va pa (Z.of_nat n * PGSIZE) perm) va') then Some (mk_pte (pa + (va' - va)) perm) else L !! (r', va').
Proof.
  unfold in_region. cbn [g_va g_pa g_size g_perm]. revert va pa L. induction n as [|n IH]; intros va pa L Ha; cbn [map_range].
  - rewrite decide_False by lia. done.
  - assert ((va + PGSIZE) mod 4096 = 0) as Ha' by (unfold PGSIZE; rewrite <- Z.add_mod_idemp_l, Ha by done; done).
    rewrite IH, lookup_insert by done. unfold PGSIZE in *. destruct (decide (r' = r)) as [->|Hr]; [|by rewrite !decide_False by (naive_solver congruence)].
    destruct (decide (va' = va)) as [->|Hv].
    + rewrite decide_False by lia. rewrite decide_True, decide_True by (done || lia). do 2 f_equal. lia.
    + rewrite (decide_False (P := (r, va) = (r, va'))) by congruence.
      destruct (decide (va + 4096 ≤ va' < va + 4096 + Z.of_nat n * 4096 ∧ va' mod 4096 = 0)) as [Hin|Hout].
      * rewrite !decide_True by lia. do 2 f_equal. lia.
      * rewrite !decide_False; [done| |tauto]. intros [_ Hin]. apply Hout. pose proof (aligned_gap va va'). lia.
Qed.

(** ** Counting *)

(** The kernel table under construction: root [r], the mappings [gs], and
    [stacks] taken for stacks, out of the free list [fl0]. *)
Record kv (r : Z) (stacks fl0 : list Z) (gs : list region) (s : kst) : Prop := {
  kv_inv : ∃ fl T L, pt_inv s fl T L ∧ T !! (r, []) = Some r ∧ (∀ k, is_Some (T !! k) → k.1 = r ∧ k.2 ∈ kernel_paths) ∧
    (length fl0 ≤ length fl + size T + length stacks)%nat ∧ (∃ used, fl0 = used ++ fl) ∧
    (∀ r' va, L !! (r', va) = if decide (r' = r) then kleaf gs va else None) ∧
    NoDup stacks ∧ (∀ p, p ∈ stacks → page_ok p ∧ (p ∉ fl) ∧ (∀ k, T !! k ≠ Some p) ∧ page_refcnt s (p / PGSIZE) = 1);
}.

Lemma few_tables (r : Z) (T : tables) : (∀ k : Z * list Z, is_Some (T !! k) → k.1 = r ∧ k.2 ∈ kernel_paths) → (size T ≤ 72)%nat.
Proof.
  intros HT. rewrite <- size_dom. assert (length (map (pair r) kernel_paths) = 72%nat) as Hl by (by rewrite length_map).
  rewrite <- Hl, <- size_list_le. apply subseteq_size. intros [r' path] [Hr Hp]%elem_of_dom%HT. cbn [fst snd] in *. subst r'.
  apply elem_of_list_to_set, list_elem_of_fmap. by exists path.
Qed.

(** ** Building the table *)

Lemma kvmmap_wp r stacks fl0 gs s g (Q : unit → kst → Prop) : kv r stacks fl0 gs s → region_ok g → (∀ g', g' ∈ gs → apart g g') →
  (72 + length stacks < length fl0)%nat → (∀ s', kv r stacks fl0 (g :: gs) s' → Q tt s') →
  wp (kvmmap r (g_va g) (g_pa g) (g_size g) (g_perm g)) s Q.
Proof.
  intros [(fl & T & L & Hi & Hr & Hk & Hc & Hu & HL & Hnd & Hst)] [Gva [Gs Gm] Gx [Gp Gpx] Gf Gk] Hap Hroom HQ.
  destruct (mappages_spec s fl T L r (g_va g) (g_size g) (g_pa g) (g_perm g)) as (res & s' & fl' & T' & new & k & Hmp & Hi' & Hg & Hres & Hadd); try done.
  { intros va Hva. rewrite HL, decide_True by done. apply kleaf_None. intros g' Hg' [? _]. destruct (Hap g' Hg'); lia. }
  pose proof Hg as [Gfl Gsub Gnew _ Gref _].
  assert (∀ k, is_Some (T' !! k) → k.1 = r ∧ k.2 ∈ kernel_paths) as Hk'.
  { intros k' [Hk0|(i & Hi0 & Hp)]%Hadd; [by apply Hk|]. destruct (Gk (g_va g + i * PGSIZE)) as [P1 P2]; [|by destruct Hp as [-> | ->]].
    unfold PGSIZE in *. destruct Gva as [_ Ga]. split; [Z.div_mod_to_equations; lia|]. by rewrite Z.mod_add. }
  pose proof (grow_size _ _ _ _ _ _ _ _ _ Hi Hg) as Hsz. pose proof (few_tables r T' Hk') as Hfew. assert (length fl = length new + length fl')%nat as Hlen by (by rewrite Gfl, length_app).
  unfold kvmmap. apply wp_bind. eapply wp_Ok; [exact Hmp|].
  destruct Hres as [[-> ->]|(-> & _ & ->)]; [|simpl in *; lia]. apply wp_ret, HQ. split. exists fl', T', (map_range (Z.to_nat (g_size g / PGSIZE)) r (g_va g) (g_pa g) (g_perm g) L).
  split_and!; [done|by eapply lookup_weaken|done|lia|destruct Hu as [used ->]; exists (used ++ new); by rewrite Gfl, app_assoc| |done|].
  - intros r' va. rewrite lookup_map_range by apply Gva. rewrite Z2Nat.id by (unfold PGSIZE in *; Z.div_mod_to_equations; lia).
    replace (g_size g / PGSIZE * PGSIZE) with (g_size g) by (unfold PGSIZE in *; Z.div_mod_to_equations; lia).
    rewrite HL. destruct g as [gva gpa gs' gp]. cbn [kleaf g_va g_pa g_size g_perm]. destruct (decide (r' = r)) as [->|]; [|by rewrite decide_False by tauto].
    destruct (decide (in_region _ va)); [by rewrite decide_True|by rewrite decide_False by tauto].
  - intros p Hp. destruct (Hst p Hp) as (P1 & P2 & P3 & P4). rewrite Gfl in P2. apply not_elem_of_app in P2 as [P2 P2']. split_and!; [done|done| |by rewrite Gref].
    intros k' Hk2. destruct (Gnew k' p Hk2) as [?|(_ & _ & _ & ?)]; [by eapply P3|done].
Qed.

(** The paths of the tables for RAM. *)
Lemma path_ram j : 0 ≤ j < 64 → [2; j] ∈ kernel_paths.
Proof. intros Hj. unfold kernel_paths. do 8 right. apply list_elem_of_fmap. exists j. split; [done|]. apply elem_of_seqZ. lia. Qed.

Lemma PX_2 va : 0 ≤ va → PX 2 va = va / 0x40000000 mod 512.
Proof. intros Hva. by rewrite PX_alt by lia. Qed.
Lemma PX_1 va : 0 ≤ va → PX 1 va = va / 0x200000 mod 512.
Proof. intros Hva. by rewrite PX_alt by lia. Qed.

(** What [kvmmake] maps, besides the stacks. *)
Definition RW : Z := Z.lor PTE_R PTE_W.
Definition RX : Z := Z.lor PTE_R PTE_X.
Definition uart_region : region := mk_region UART0 UART0 PGSIZE RW.
Definition virtio_region : region := mk_region VIRTIO0 VIRTIO0 PGSIZE RW.
Definition plic_region : region := mk_region PLIC PLIC 0x400000 RW.
Definition text_region : region := mk_region KERNBASE KERNBASE (etext - KERNBASE) RX.
Definition data_region : region := mk_region etext etext (PHYSTOP - etext) RW.
Definition tramp_region : region := mk_region TRAMPOLINE trampoline PGSIZE RX.
Definition stack_region (p pa : Z) : region := mk_region (KSTACK p) pa PGSIZE RW.

Lemma low_region_ok va size : 0 ≤ va → va mod 4096 = 0 → 0 < size → size mod 4096 = 0 → (∀ a, va ≤ a < va + size → 0 ≤ a < 0x10200000 ∧ a / 0x200000 ∈ [96; 97; 128]) →
  region_ok (mk_region va va size RW).
Proof.
  intros Hva Ha Hs Hsm Hr. pose proof (Hr va ltac:(lia)) as [? _]. pose proof (Hr (va + size - 1) ltac:(lia)) as [? _].
  assert (MAXVA = 0x4000000000) as HM by done. split; cbn [g_va g_pa g_size g_perm]; [split; [lia|done]|by split|lia|split; [split; [lia|done]|lia]|done|].
  intros a [Hin _]. destruct (Hr a Hin) as [Hb Hp]. cbn [g_va g_size] in Hin. rewrite PX_2, PX_1 by lia.
  rewrite (Z.div_small a 0x40000000) by lia. set_unfold in Hp. destruct Hp as [-> |[-> |[-> |[]]]]; split; apply (bool_decide_unpack _); by vm_compute.
Qed.

Lemma ram_region_ok va size perm : KERNBASE ≤ va → va mod 4096 = 0 → 0 < size → size mod 4096 = 0 → va + size ≤ PHYSTOP → 0 ≤ perm < 1024 →
  region_ok (mk_region va va size perm).
Proof.
  intros Hva Ha Hs Hsm Hr Hp. assert (MAXVA = 0x4000000000 ∧ KERNBASE = 0x80000000 ∧ PHYSTOP = 0x88000000) as (HM & HK & HP) by done.
  split; cbn [g_va g_pa g_size g_perm]; [split; [lia|done]|by split|lia|split; [split; [lia|done]|lia]|done|].
  intros a [Hin _]. cbn [g_va g_size] in Hin. rewrite PX_2, PX_1 by lia.
  assert (a / 0x40000000 mod 512 = 2) as -> by (Z.div_mod_to_equations; lia). split; [apply (bool_decide_unpack _); by vm_compute|]. apply path_ram.
  Z.div_mod_to_equations. lia.
Qed.

Lemma top_region_ok va pa perm : TRAMPOLINE - 128 * PGSIZE ≤ va ≤ TRAMPOLINE → va mod 4096 = 0 → pa_ok pa → 0 ≤ perm < 1024 →
  region_ok (mk_region va pa PGSIZE perm).
Proof.
  intros Hva Ha Hpa Hp. assert (TRAMPOLINE = 0x3ffffff000 ∧ MAXVA = 0x4000000000 ∧ PGSIZE = 4096) as (HT & HM & HG) by done.
  split; cbn [g_va g_pa g_size g_perm]; [split; [lia|done]|by rewrite HG|lia| |done|].
  - split; [done|]. destruct Hpa as [Hpa Hpm]. rewrite HG. Z.div_mod_to_equations. lia.
  - intros a [Hin _]. cbn [g_va g_size] in Hin. rewrite PX_2, PX_1 by lia.
    assert (a / 0x40000000 mod 512 = 255) as -> by (Z.div_mod_to_equations; lia). assert (a / 0x200000 mod 512 = 511) as -> by (Z.div_mod_to_equations; lia).
    split; apply (bool_decide_unpack _); by vm_compute.
Qed.

Definition base_regions : list region := [tramp_region; data_region; text_region; plic_region; virtio_region; uart_region].
Definition kregions (stacks : list Z) : list region := reverse (imap (λ k pa, stack_region (Z.of_nat k) pa) stacks) ++ base_regions.

Lemma kregions_snoc stacks pa : kregions (stacks ++ [pa]) = stack_region (Z.of_nat (length stacks)) pa :: kregions stacks.
Proof. unfold kregions. rewrite imap_app, reverse_app. simpl. by rewrite Nat.add_0_r. Qed.
Lemma elem_of_kregions stacks g : g ∈ kregions stacks → (∃ k pa, stacks !! k = Some pa ∧ g = stack_region (Z.of_nat k) pa) ∨ g ∈ base_regions.
Proof.
  unfold kregions. rewrite elem_of_app, elem_of_reverse. intros [Hg|]; [left|by right]. apply list_elem_of_lookup in Hg as [k Hk].
  rewrite list_lookup_imap in Hk. destruct (stacks !! k) as [pa|] eqn:E; [|done]. simpl in Hk. simplify_eq. eauto.
Qed.

(** RAM between the text and its end. *)
Hypothesis room : etext < PHYSTOP.

Lemma base_low g : g ∈ base_regions → g = tramp_region ∨ g_va g + g_size g ≤ PHYSTOP.
Proof using room.
  pose proof etext_trampoline. pose proof trampoline_base. intros Hg. unfold base_regions in Hg. set_unfold in Hg.
  destruct Hg as [-> |[-> |[-> |[-> |[-> |[-> |[]]]]]]]; [by left|right..]; [simpl; lia|simpl; lia|done|done|done].
Qed.

Lemma kalloc_stack r stacks fl0 s (Q : Z → kst → Prop) : kv r stacks fl0 (kregions stacks) s → (72 + length stacks < length fl0)%nat →
  (∀ pa s', pa ≠ 0 → page_ok pa → kv r (stacks ++ [pa]) fl0 (kregions stacks) s' → Q pa s') → wp kalloc s Q.
Proof using Type.
  intros [(fl & T & L & Hi & Hr & Hk & Hc & Hu & HL & Hnd & Hst)] Hroom HQ. pose proof (few_tables r T Hk) as Hfew.
  destruct fl as [|pa fl]; [simpl in Hc; lia|]. destruct (kalloc_pt s pa fl T L Hi) as (s' & Hka & Hi' & Hpa & Hnf & HnT & Hrc & Ho1 & Ho2).
  eapply wp_Ok; [exact Hka|]. apply HQ; [by apply page_ok_ne_0|done|]. split. exists fl, T, L.
  assert (pa ∉ stacks) as Hns by (intros Hin; destruct (Hst pa Hin) as (_ & Hni & _); apply Hni; by left).
  split_and!; [done|done|done|rewrite length_app; simpl in *; lia|destruct Hu as [used ->]; exists (used ++ [pa]); by rewrite <- app_assoc|done| |].
  - apply list.NoDup_app. split_and!; [done| |apply NoDup_singleton]. intros x Hx ->%list_elem_of_singleton. done.
  - intros p [Hp| ->%list_elem_of_singleton]%elem_of_app; [|done]. destruct (Hst p Hp) as (P1 & P2 & P3 & P4). apply not_elem_of_cons in P2 as [P2 P2'].
    split_and!; [done|done|done|]. by rewrite Ho1.
Qed.

Lemma stack_apart stacks pa g : (length stacks < 64)%nat → g ∈ kregions stacks → apart (stack_region (Z.of_nat (length stacks)) pa) g.
Proof using room.
  intros Hlen Hg. assert (TRAMPOLINE = 0x3ffffff000 ∧ PGSIZE = 4096 ∧ PHYSTOP = 0x88000000) as (HT & HG & HP) by done. unfold apart, stack_region, KSTACK. cbn [g_va g_size].
  destruct (elem_of_kregions _ _ Hg) as [(k & pa' & Hk & ->)|Hb].
  - apply lookup_lt_Some in Hk. simpl. unfold KSTACK. lia.
  - destruct (base_low g Hb) as [-> |]; [simpl; lia|lia].
Qed.

Lemma proc_mapstacks_wp r fl0 n : ∀ stacks s (Q : unit → kst → Prop), kv r stacks fl0 (kregions stacks) s → (length stacks + n = 64)%nat → (136 < length fl0)%nat →
  (∀ stacks' s', length stacks' = 64%nat → kv r stacks' fl0 (kregions stacks') s' → Q tt s') →
  wp (proc_mapstacks_loop n (Z.of_nat (length stacks)) r) s Q.
Proof using room.
  induction n as [|n IH]; intros stacks s Q Hkv Hn Hroom HQ; cbn [proc_mapstacks_loop]; [apply wp_ret, (HQ stacks); [lia|done]|].
  apply wp_bind. eapply kalloc_stack; [done|lia|]. intros pa s1 Hnz Hpa Hkv1. rewrite (proj2 (Z.eqb_neq pa 0)) by done.
  assert (TRAMPOLINE = 0x3ffffff000 ∧ PGSIZE = 4096) as (HT & HG) by done.
  apply wp_bind. apply (kvmmap_wp r (stacks ++ [pa]) fl0 (kregions stacks) s1 (stack_region (Z.of_nat (length stacks)) pa)); [done| | |rewrite length_app; simpl; lia|].
  - apply top_region_ok; [unfold KSTACK; lia| |by apply page_ok_pa_ok|done]. unfold KSTACK. rewrite HT, HG. Z.div_mod_to_equations. lia.
  - intros g Hg. apply stack_apart; [lia|done].
  - rewrite <- kregions_snoc. intros s2 Hkv2. replace (Z.of_nat (length stacks) + 1) with (Z.of_nat (length (stacks ++ [pa]))) by (rewrite length_app; simpl; lia).
    apply IH; [done|rewrite length_app; simpl; lia|done|done].
Qed.

(** The finished table: what each address is mapped to. *)
Record kernel_table (r : Z) (stacks : list Z) (L : leaves) : Prop := {
  kt_dev va : va mod 4096 = 0 → va = UART0 ∨ va = VIRTIO0 ∨ PLIC ≤ va < PLIC + 0x400000 → L !! (r, va) = Some (mk_pte va RW);
  kt_ram va : va mod 4096 = 0 → KERNBASE ≤ va < PHYSTOP → L !! (r, va) = Some (mk_pte va (if decide (va < etext) then RX else RW));
  kt_tramp : L !! (r, TRAMPOLINE) = Some (mk_pte trampoline RX);
  kt_stack (k : nat) pa : stacks !! k = Some pa → L !! (r, KSTACK (Z.of_nat k)) = Some (mk_pte pa RW);
  kt_guard k : 0 ≤ k < NPROC → L !! (r, KSTACK k - PGSIZE) = None;
  kt_only va pte : L !! (r, va) = Some pte → va mod 4096 = 0 ∧
    (va = UART0 ∨ va = VIRTIO0 ∨ PLIC ≤ va < PLIC + 0x400000 ∨ KERNBASE ≤ va < PHYSTOP ∨ va = TRAMPOLINE ∨
     ∃ k, 0 ≤ k < NPROC ∧ va = KSTACK k);
}.

Lemma KSTACK_aligned k : KSTACK k mod 4096 = 0.
Proof using Type.
  unfold KSTACK, PGSIZE. change TRAMPOLINE with (0x3ffffff * 4096).
  replace (0x3ffffff * 4096 - (k + 1) * 2 * 4096) with ((0x3ffffff - (k + 1) * 2) * 4096) by lia. by apply Z.mod_mul.
Qed.
Lemma in_stack k pa va : in_region (stack_region k pa) va ↔ va = KSTACK k.
Proof using Type.
  unfold in_region, stack_region. cbn [g_va g_size]. assert (PGSIZE = 4096) as HG by done. pose proof (KSTACK_aligned k) as Hk.
  split; [|intros ->; lia]. intros [Hr Ha]. destruct (decide (va = KSTACK k)); [done|]. pose proof (aligned_gap (KSTACK k) va Hk Ha). lia.
Qed.

Lemma kleaf_at stacks k pa : stacks !! k = Some pa → kleaf (kregions stacks) (KSTACK (Z.of_nat k)) = Some (mk_pte pa RW).
Proof using Type.
  induction stacks as [|pa' stacks IH] using rev_ind; [done|]. intros Hk. rewrite kregions_snoc. cbn [kleaf].
  destruct (decide (in_region _ _)) as [Hin%in_stack|Hout].
  - assert (k = length stacks) as -> by (unfold KSTACK, PGSIZE in Hin; lia). rewrite list_lookup_middle in Hk by done. simplify_eq. cbn [g_pa g_va g_perm stack_region].
    do 2 f_equal. lia.
  - apply IH. rewrite lookup_app_l in Hk; [done|]. pose proof (lookup_lt_Some _ _ _ Hk) as Hlt. rewrite length_app in Hlt. simpl in Hlt.
    destruct (decide (k = length stacks)) as [->|]; [|lia]. destruct Hout. by apply in_stack.
Qed.
Lemma kleaf_other stacks va : (∀ k, 0 ≤ k < Z.of_nat (length stacks) → va ≠ KSTACK k) → kleaf (kregions stacks) va = kleaf base_regions va.
Proof using Type.
  induction stacks as [|pa' stacks IH] using rev_ind; [done|]. rewrite length_app. simpl. intros Hno. rewrite kregions_snoc. cbn [kleaf].
  rewrite decide_False by (rewrite in_stack; apply Hno; lia). apply IH. intros k Hk. apply Hno. lia.
Qed.

(** The regions of the table, by the address. *)
Lemma base_at g va : g ∈ base_regions → in_region g va → kleaf base_regions va = Some (mk_pte (g_pa g + (va - g_va g)) (g_perm g)).
Proof using room.
  pose proof etext_trampoline as H1. pose proof trampoline_base as H2. assert (KERNBASE = 0x80000000 ∧ PHYSTOP = 0x88000000 ∧ TRAMPOLINE = 0x3ffffff000 ∧ PLIC = 0xc000000 ∧
    VIRTIO0 = 0x10001000 ∧ UART0 = 0x10000000 ∧ PGSIZE = 4096) as (HK & HP & HT & HL & HV & HU & HG) by done.
  intros Hg Hin. unfold base_regions in *. set_unfold in Hg.
  destruct Hg as [-> |[-> |[-> |[-> |[-> |[-> |[]]]]]]]; cbn [kleaf];
    repeat first [rewrite (decide_True (P := in_region _ va)) by exact Hin; done | rewrite decide_False by (unfold in_region in *; simpl in *; lia)].
Qed.
Lemma base_only va pte : kleaf base_regions va = Some pte → ∃ g, g ∈ base_regions ∧ in_region g va.
Proof using Type.
  assert (∀ gs, kleaf gs va = Some pte → ∃ g, g ∈ gs ∧ in_region g va) as Hgen; [|apply Hgen].
  induction gs as [|g gs IH]; [done|]. cbn [kleaf]. case_decide; [intros _; exists g; split; [by left|done]|]. intros (g' & ? & ?)%IH. exists g'. split; [by right|done].
Qed.

Lemma table_ready r stacks L : length stacks = 64%nat → (∀ va, L !! (r, va) = kleaf (kregions stacks) va) → kernel_table r stacks L.
Proof using room.
  intros Hlen HL. pose proof etext_trampoline as H1. pose proof trampoline_base as H2. assert (KERNBASE = 0x80000000 ∧ PHYSTOP = 0x88000000 ∧ TRAMPOLINE = 0x3ffffff000 ∧
    PLIC = 0xc000000 ∧ VIRTIO0 = 0x10001000 ∧ UART0 = 0x10000000 ∧ PGSIZE = 4096 ∧ NPROC = 64) as (HK & HP & HT & HPL & HV & HU & HG & HN) by done.
  assert (∀ g va, g ∈ base_regions → in_region g va → (∀ k, 0 ≤ k < 64 → va ≠ KSTACK k) → L !! (r, va) = Some (mk_pte (g_pa g + (va - g_va g)) (g_perm g))) as Hbase.
  { intros g va Hg Hin Hno. rewrite HL, kleaf_other by (rewrite Hlen; exact Hno). by apply base_at. }
  assert (∀ va k, 0 ≤ k < 64 → va < PHYSTOP → va ≠ KSTACK k) as Hlow by (unfold KSTACK; intros; lia).
  split.
  - intros va Ha Hva. assert (∃ g, g ∈ base_regions ∧ in_region g va ∧ g_pa g = g_va g ∧ g_perm g = RW) as (g & Hg & Hin & Hpa & Hp).
    { unfold in_region. destruct Hva as [-> |[-> |Hva]]; [exists uart_region|exists virtio_region|exists plic_region]; (split; [unfold base_regions; set_solver|]); simpl; (split; [lia|done]). }
    rewrite (Hbase g) by (done || intros; apply Hlow; lia). rewrite Hpa, Hp. do 2 f_equal. lia.
  - intros va Ha Hva. assert (∃ g, g ∈ base_regions ∧ in_region g va ∧ g_pa g = g_va g ∧ g_perm g = if decide (va < etext) then RX else RW) as (g & Hg & Hin & Hpa & Hp).
    { unfold in_region. case_decide; [exists text_region|exists data_region]; (split; [unfold base_regions; set_solver|]); simpl; (split; [lia|done]). }
    rewrite (Hbase g) by (done || intros; apply Hlow; lia). rewrite Hpa, Hp. do 2 f_equal. lia.
  - rewrite (Hbase tramp_region); [simpl; do 2 f_equal; lia|unfold base_regions; set_solver|by unfold in_region; simpl; rewrite HT|unfold KSTACK; intros; lia].
  - intros k pa Hk. rewrite HL. by apply kleaf_at.
  - intros k Hk. rewrite HL, kleaf_other by (unfold KSTACK; intros; lia). destruct (kleaf base_regions _) as [pte|] eqn:E; [|done].
    destruct (base_only _ _ E) as (g & Hg & [Hin _]). destruct (base_low g Hg) as [-> |Hb]; unfold KSTACK in Hin; [simpl in Hin|]; lia.
  - intros va pte Hva. rewrite HL in Hva. destruct (decide (va mod 4096 = 0 ∧ (TRAMPOLINE - va) mod 8192 = 0 ∧ 0 ≤ (TRAMPOLINE - va) / 8192 - 1 < 64)) as [(Ha & Hm & Hr)|Hno].
    + split; [done|]. do 5 right. exists ((TRAMPOLINE - va) / 8192 - 1). split; [lia|]. unfold KSTACK. rewrite HG. Z.div_mod_to_equations. lia.
    + rewrite kleaf_other in Hva. 2:{ intros k Hk ->. apply Hno. split; [apply KSTACK_aligned|]. unfold KSTACK. rewrite HG. replace (TRAMPOLINE - (TRAMPOLINE - (k + 1) * 2 * 4096)) with ((k + 1) * 8192) by lia.
        rewrite Z.mod_mul, Z.div_mul by done. split; [done|]. rewrite Hlen in Hk. lia. }
      destruct (base_only _ _ Hva) as (g & Hg & [Hin Ha]). split; [done|]. unfold base_regions in Hg. set_unfold in Hg.
      pose proof (aligned_gap UART0 va eq_refl Ha). pose proof (aligned_gap VIRTIO0 va eq_refl Ha). pose proof (aligned_gap TRAMPOLINE va eq_refl Ha).
      destruct Hg as [-> |[-> |[-> |[-> |[-> |[-> |[]]]]]]]; simpl in Hin;
        [do 4 right; left|do 3 right; left|do 3 right; left|do 2 right; left|right; left|left]; lia.
Qed.

Lemma kvmmake_wp s fl : kalloc_inv s fl → (136 < length fl)%nat →
  wp kvmmake s (λ r s', ∃ stacks, length stacks = 64%nat ∧ kv r stacks fl (kregions stacks) s').
Proof using room.
  intros Ha Hlen. pose proof etext_trampoline as H1. pose proof trampoline_base as H2. pose proof trampoline_aligned as H3.
  assert (KERNBASE = 0x80000000 ∧ PHYSTOP = 0x88000000 ∧ TRAMPOLINE = 0x3ffffff000 ∧ PGSIZE = 4096) as (HK & HP & HT & HG) by done.
  assert (etext mod 4096 = 0) as He by (rewrite H1, <- Z.add_mod_idemp_l, H3 by done; done).
  destruct fl as [|q fl]; [simpl in Hlen; lia|]. destruct (root_alloc s q fl ∅ ∅ (vm_inv_empty _ _ Ha)) as (s1 & s2 & Hk & Hms & Hnz & Hq & _ & [Hi _] & _).
  unfold kvmmake. apply wp_bind. eapply wp_Ok; [exact Hk|]. apply wp_bind. eapply wp_Ok; [exact Hms|].
  assert (kv q [] (q :: fl) [] s2) as Hkv.
  { split. exists fl, (<[(q, []) := q]> ∅), ∅. split_and!; [done|by rewrite lookup_insert_eq| | |by exists [q]| |constructor|by intros p ?%not_elem_of_nil].
    - intros k. rewrite lookup_insert. case_decide; [intros _; subst; split; [done|by left]|]. rewrite lookup_empty. by intros [].
    - rewrite map_size_insert_None, map_size_empty by done. simpl. lia.
    - intros r' va. rewrite lookup_empty. by case_decide. }
  apply wp_bind, (kvmmap_wp q [] (q :: fl) [] s2 uart_region _ Hkv); [apply low_region_ok; [done..|]|by intros g ?%not_elem_of_nil|simpl in *; lia|].
  { intros a Hr. change UART0 with 0x10000000 in Hr. rewrite HG in Hr. split; [lia|]. assert (a / 0x200000 = 128) as -> by (Z.div_mod_to_equations; lia). set_solver. }
  intros s3 Hkv3. apply wp_bind, (kvmmap_wp q [] (q :: fl) _ s3 virtio_region _ Hkv3); [apply low_region_ok; [done..|]| |simpl in *; lia|].
  { intros a Hr. change VIRTIO0 with 0x10001000 in Hr. rewrite HG in Hr. split; [lia|]. assert (a / 0x200000 = 128) as -> by (Z.div_mod_to_equations; lia). set_solver. }
  { intros g Hg. set_unfold in Hg. destruct Hg as [-> |[]]. by right. }
  intros s4 Hkv4. apply wp_bind, (kvmmap_wp q [] (q :: fl) _ s4 plic_region _ Hkv4); [apply low_region_ok; [done..|]| |simpl in *; lia|].
  { intros a Hr. change PLIC with 0xc000000 in Hr. split; [lia|]. assert (a / 0x200000 = 96 ∨ a / 0x200000 = 97) as [-> | ->] by (Z.div_mod_to_equations; lia); set_solver. }
  { intros g Hg. set_unfold in Hg. destruct Hg as [-> |[-> |[]]]; by left. }
  intros s5 Hkv5. apply wp_bind, (kvmmap_wp q [] (q :: fl) _ s5 text_region _ Hkv5); [apply ram_region_ok; [done|done|lia| |lia|done]| |simpl in *; lia|].
  { rewrite Zminus_mod, He. by rewrite HK. }
  { intros g Hg. set_unfold in Hg. destruct Hg as [-> |[-> |[-> |[]]]]; by right. }
  intros s6 Hkv6. apply wp_bind, (kvmmap_wp q [] (q :: fl) _ s6 data_region _ Hkv6); [apply ram_region_ok; [lia|done|lia| |lia|done]| |simpl in *; lia|].
  { rewrite Zminus_mod, He. by rewrite HP. }
  { intros g Hg. set_unfold in Hg. unfold apart. destruct Hg as [-> |[-> |[-> |[-> |[]]]]]; right; simpl; [lia|change PLIC with 0xc000000|change VIRTIO0 with 0x10001000|change UART0 with 0x10000000]; lia. }
  intros s7 Hkv7. apply wp_bind, (kvmmap_wp q [] (q :: fl) _ s7 tramp_region _ Hkv7); [apply top_region_ok; [lia|done| |done]| |simpl in *; lia|].
  { split; [lia|done]. }
  { intros g Hg. right. destruct (base_low g) as [-> |]; [by right|..].
    - exfalso. set_unfold in Hg. naive_solver.
    - simpl. lia. }
  intros s8 Hkv8. apply wp_bind. apply (proc_mapstacks_wp q (q :: fl) 64 []); [done|done|done|]. intros stacks s9 Hst Hkv9. apply wp_ret. by exists stacks.
Qed.
End kvm.

Section boot.
Context `{KernelImage}.

(** The kernel's address space.  With at least 137 free pages [kvmmake]
    returns a well-formed page table, out of at most 136 of them.  In it, the
    devices and all of RAM are mapped at their own addresses, the text for
    reading and executing and everything else for reading and writing, the
    trampoline page is at the top, and each process has a stack page of its own,
    not used for anything else, with the page below it left out; nothing else is
    mapped. *)
Theorem kvmmake_correct s fl : kalloc_inv s fl → (136 < length fl)%nat →
  wp kvmmake s (λ r s', ∃ fl' T L stacks, pt_inv s' fl' T L ∧ T !! (r, []) = Some r ∧ kernel_table r stacks L ∧
    length stacks = Z.to_nat NPROC ∧ NoDup stacks ∧ (∀ p, p ∈ stacks → page_ok p ∧ (p ∉ fl') ∧ (∀ k, T !! k ≠ Some p) ∧ page_refcnt s' (p / PGSIZE) = 1) ∧
    ∃ used, fl = used ++ fl' ∧ (length used ≤ 136)%nat).
Proof.
  intros Ha Hlen. assert (etext < PHYSTOP) as Hroom.
  { destruct fl as [|q fl]; [simpl in Hlen; lia|]. pose proof (ki_ok _ _ _ Ha) as Hok. apply list.Forall_cons in Hok as [((_ & Hq1 & Hq2) & _) _]. pose proof kend_etext. lia. }
  eapply wp_mono; [by apply kvmmake_wp|]. intros r s' (stacks & Hst & [(fl' & T & L & Hi & Hr & Hk & Hc & [used Hu] & HL & Hnd & Hs)]).
  exists fl', T, L, stacks. split_and!; [done|done| |done|done|done|].
  - apply table_ready; [done|done|]. intros va. by rewrite HL, decide_True.
  - exists used. split; [done|]. pose proof (few_tables r T Hk). rewrite Hu, length_app in Hc. lia.
Qed.
End boot.

(** A kernel that leaves a megabyte of RAM. *)
Program Definition demo_kernel : KernelImage := {|
  trampoline := 0x80007000;
  etext := 0x80008000;
  kend := 0x87f00000;
|}.
Solve Obligations with done.

Lemma kvmmake_correct_witness : ∃ r s' (L : leaves), (@kinit demo_kernel;; @kvmmake demo_kernel) (boot_state (λ _, x00)) = Ok r s' ∧
  L !! (r, UART0) = Some (mk_pte UART0 RW) ∧ L !! (r, KSTACK 0 - PGSIZE) = None.
Proof.
  destruct (@kinit_inv demo_kernel (λ _, x00)) as (s0 & Hs0 & Ha0). unfold mbind, M_bind. rewrite Hs0.
  destruct (wp_elim _ _ _ (@kvmmake_correct demo_kernel s0 _ Ha0 ltac:(vm_compute; lia))) as (r & s' & E & fl' & T & L & stacks & _ & _ & K & _).
  exists r, s', L. split; [exact E|]. split; [apply (kt_dev _ _ _ K); [reflexivity|by left]|apply (kt_guard _ _ _ K); split; [reflexivity|reflexivity]].
Defined.
