(* ===== verification/Asm.v ===== *)
(** * The assembly code of the kernel

    [entry.S], [kernelvec.S], [swtch.S] and [trampoline.S] as programs for a
    RISC-V hart: the integer registers, the control and status registers the
    code touches, the privilege mode and physical memory.  The translation of
    addresses by [satp] is hardware, an interface; what the code relies on is
    that a few pages are mapped.  Each program is the source's instruction
    sequence, word for word. *)

From S2P Require Import Prelude Riscv Mem.

(** ** The hart *)

Inductive reg :=
| ra | sp | gp | tp | t0 | t1 | t2 | s0 | s1 | a0 | a1 | a2 | a3 | a4 | a5 | a6 | a7
| s2 | s3 | s4 | s5 | s6 | s7 | s8 | s9 | s10 | s11 | t3 | t4 | t5 | t6.

Inductive csr :=
| mhartid | mstatus | mepc | mtvec | mscratch | mie | medeleg | mideleg | pmpaddr0 | pmpcfg0
| satp | sepc | sscratch | sie | sip.

#[global] Instance reg_eq_dec : EqDecision reg.
Proof. solve_decision. Defined.
#[global] Instance csr_eq_dec : EqDecision csr.
Proof. solve_decision. Defined.

Inductive privilege := Machine | Supervisor | User.

Record hart := mk_hart {
  regs : reg → Z;
  csrs : csr → Z;
  mode : privilege;
  pc : Z;
  pmem : memory;
}.

(** The address translation of the hardware: the physical address the page
    table in [satp] gives a virtual address, if any. *)
Class Mmu := { translate : Z → Z → option Z }.

Definition upd {A} `{!EqDecision A} (f : A → Z) (a : A) (v : Z) : A → Z :=
  λ x, if decide (x = a) then v else f x.

Definition set_reg (r : reg) (v : Z) (h : hart) : hart :=
  mk_hart (upd (regs h) r v) (csrs h) (mode h) (pc h) (pmem h).
Definition set_regs (f : reg → Z) (h : hart) : hart :=
  mk_hart f (csrs h) (mode h) (pc h) (pmem h).
Definition set_csr (c : csr) (v : Z) (h : hart) : hart :=
  mk_hart (regs h) (upd (csrs h) c v) (mode h) (pc h) (pmem h).
Definition set_pmem (m : memory) (h : hart) : hart :=
  mk_hart (regs h) (csrs h) (mode h) (pc h) m.
Definition set_pc (v : Z) (h : hart) : hart :=
  mk_hart (regs h) (csrs h) (mode h) v (pmem h).

(** ** Instructions *)

Inductive instr :=
| Sd (rs : reg) (off : Z) (base : reg)
| Ld (rd : reg) (off : Z) (base : reg)
| Li (rd : reg) (imm : Z)
| Addi (rd rs : reg) (imm : Z)
| Add (rd rs1 rs2 : reg)
| Mul (rd rs1 rs2 : reg)
| Csrr (rd : reg) (c : csr)
| Csrw (c : csr) (rs : reg)
| Csrrw (rd : reg) (c : csr) (rs : reg)
| SfenceVma
| Jr (rs : reg)
| Sret
| Mret.

Definition set_bit (x k : Z) (b : bool) : Z :=
  if b then Z.lor x (Z.shiftl 1 k) else Z.ldiff x (Z.shiftl 1 k).

Section exec.
Context {mmu : Mmu}.

(** Machine mode uses physical addresses. *)
Definition phys (h : hart) (va : Z) : option Z :=
  match mode h with Machine => Some va | _ => translate (csrs h satp) va end.

(** The physical address of an aligned doubleword. *)
Definition address (off : Z) (base : reg) : M hart Z :=
  h ← gets (λ h, h);
  let va := u64 (regs h base + off) in
  if negb (va mod 8 =? 0) then fault va
  else match phys h va with Some pa => mret pa | None => fault va end.

(** [mret] and [sret] take the privilege, and the interrupt enable of it, from
    the status register. *)
Definition exec_mret : M hart unit :=
  modify (λ h,
    let x := csrs h mstatus in
    let m := match Z.land (Z.shiftr x 11) 3 with 0 => User | 1 => Supervisor | _ => Machine end in
    let x := set_bit (set_bit (Z.ldiff x (Z.shiftl 3 11)) 3 (Z.testbit x 7)) 7 true in
    mk_hart (regs h) (upd (csrs h) mstatus x) m (csrs h mepc) (pmem h)).
Definition exec_sret : M hart unit :=
  modify (λ h,
    let x := csrs h mstatus in
    let m := if Z.testbit x 8 then Supervisor else User in
    let x := set_bit (set_bit (set_bit x 1 (Z.testbit x 5)) 5 true) 8 false in
    mk_hart (regs h) (upd (csrs h) mstatus x) m (csrs h sepc) (pmem h)).

Definition exec1 (i : instr) : M hart unit :=
  match i with
  | Sd rs off base =>
      pa ← address off base; modify (λ h, set_pmem (store64 (pmem h) pa (regs h rs)) h)
  | Ld rd off base =>
      pa ← address off base; modify (λ h, set_reg rd (load64 (pmem h) pa) h)
  | Li rd imm => modify (set_reg rd (u64 imm))
  | Addi rd rs imm => modify (λ h, set_reg rd (u64 (regs h rs + imm)) h)
  | Add rd rs1 rs2 => modify (λ h, set_reg rd (u64 (regs h rs1 + regs h rs2)) h)
  | Mul rd rs1 rs2 => modify (λ h, set_reg rd (u64 (regs h rs1 * regs h rs2)) h)
  | Csrr rd c => modify (λ h, set_reg rd (csrs h c) h)
  | Csrw c rs => modify (λ h, set_csr c (regs h rs) h)
  | Csrrw rd c rs => modify (λ h, set_reg rd (csrs h c) (set_csr c (regs h rs) h))
  | SfenceVma => mret ()
  | Jr rs => modify (λ h, set_pc (regs h rs) h)
  | Sret => exec_sret
  | Mret => exec_mret
  end.

Fixpoint exec (l : list instr) : M hart unit :=
  match l with
  | [] => mret ()
  | i :: l => exec1 i;; exec l
  end.

End exec.

(** ** The programs *)

(** entry.S; [stack0] is the address of the array, and [call start] follows. *)
Definition entry (stack0 : Z) : list instr :=
  [ Li sp stack0; Li a0 (1024 * 4); Csrr a1 mhartid; Addi a1 a1 1; Mul a0 a0 a1; Add sp sp a0 ].

(** kernelvec.S, before and after [call kerneltrap]. *)
Definition kernelvec_save : list instr :=
  [ Addi sp sp (-256);
    Sd ra 0 sp; Sd sp 8 sp; Sd gp 16 sp; Sd tp 24 sp; Sd t0 32 sp;
    Sd t1 40 sp; Sd t2 48 sp; Sd s0 56 sp; Sd s1 64 sp; Sd a0 72 sp; Sd a1 80 sp; Sd a2 88 sp;
    Sd a3 96 sp; Sd a4 104 sp; Sd a5 112 sp; Sd a6 120 sp; Sd a7 128 sp; Sd s2 136 sp; Sd s3 144 sp;
    Sd s4 152 sp; Sd s5 160 sp; Sd s6 168 sp; Sd s7 176 sp; Sd s8 184 sp; Sd s9 192 sp;
    Sd s10 200 sp; Sd s11 208 sp; Sd t3 216 sp; Sd t4 224 sp; Sd t5 232 sp; Sd t6 240 sp ].
Definition kernelvec_restore : list instr :=
  [ Ld ra 0 sp; Ld sp 8 sp; Ld gp 16 sp; Ld t0 32 sp; Ld t1 40 sp; Ld t2 48 sp;
    Ld s0 56 sp; Ld s1 64 sp; Ld a0 72 sp; Ld a1 80 sp; Ld a2 88 sp; Ld a3 96 sp; Ld a4 104 sp;
    Ld a5 112 sp; Ld a6 120 sp; Ld a7 128 sp; Ld s2 136 sp; Ld s3 144 sp; Ld s4 152 sp;
    Ld s5 160 sp; Ld s6 168 sp; Ld s7 176 sp; Ld s8 184 sp; Ld s9 192 sp; Ld s10 200 sp;
    Ld s11 208 sp; Ld t3 216 sp; Ld t4 224 sp; Ld t5 232 sp; Ld t6 240 sp;
    Addi sp sp 256; Sret ].
Definition kernelvec `{!Mmu} (kerneltrap : M hart unit) : M hart unit :=
  exec kernelvec_save;; kerneltrap;; exec kernelvec_restore.

Definition timervec : list instr :=
  [ Csrrw a0 mscratch a0; Sd a1 0 a0; Sd a2 8 a0; Sd a3 16 a0; Ld a1 24 a0; Ld a2 32 a0;
    Ld a3 0 a1; Add a3 a3 a2; Sd a3 0 a1; Li a1 2; Csrw sip a1; Ld a3 16 a0;
    Ld a2 8 a0; Ld a1 0 a0; Csrrw a0 mscratch a0; Mret ].

(** swtch.S; [ret] is [jr ra]. *)
Definition swtch : list instr :=
  [ Sd ra 0 a0; Sd sp 8 a0; Sd s0 16 a0; Sd s1 24 a0; Sd s2 32 a0; Sd s3 40 a0; Sd s4 48 a0;
    Sd s5 56 a0; Sd s6 64 a0; Sd s7 72 a0; Sd s8 80 a0; Sd s9 88 a0; Sd s10 96 a0; Sd s11 104 a0;
    Ld ra 0 a1; Ld sp 8 a1; Ld s0 16 a1; Ld s1 24 a1; Ld s2 32 a1; Ld s3 40 a1; Ld s4 48 a1;
    Ld s5 56 a1; Ld s6 64 a1; Ld s7 72 a1; Ld s8 80 a1; Ld s9 88 a1; Ld s10 96 a1; Ld s11 104 a1;
    Jr ra ].

(** trampoline.S *)
Definition uservec : list instr :=
  [ Csrw sscratch a0; Li a0 TRAPFRAME; Sd ra 40 a0; Sd sp 48 a0; Sd gp 56 a0; Sd tp 64 a0;
    Sd t0 72 a0; Sd t1 80 a0; Sd t2 88 a0; Sd s0 96 a0; Sd s1 104 a0; Sd a1 120 a0; Sd a2 128 a0;
    Sd a3 136 a0; Sd a4 144 a0; Sd a5 152 a0; Sd a6 160 a0; Sd a7 168 a0; Sd s2 176 a0;
    Sd s3 184 a0; Sd s4 192 a0; Sd s5 200 a0; Sd s6 208 a0; Sd s7 216 a0; Sd s8 224 a0;
    Sd s9 232 a0; Sd s10 240 a0; Sd s11 248 a0; Sd t3 256 a0; Sd t4 264 a0; Sd t5 272 a0;
    Sd t6 280 a0; Csrr t0 sscratch; Sd t0 112 a0; Ld sp 8 a0; Ld tp 32 a0; Ld t0 16 a0;
    Ld t1 0 a0; SfenceVma; Csrw satp t1; SfenceVma; Jr t0 ].
Definition userret : list instr :=
  [ SfenceVma; Csrw satp a0; SfenceVma; Li a0 TRAPFRAME;
    Ld ra 40 a0; Ld sp 48 a0; Ld gp 56 a0; Ld tp 64 a0; Ld t0 72 a0; Ld t1 80 a0; Ld t2 88 a0;
    Ld s0 96 a0; Ld s1 104 a0; Ld a1 120 a0; Ld a2 128 a0; Ld a3 136 a0; Ld a4 144 a0; Ld a5 152 a0;
    Ld a6 160 a0; Ld a7 168 a0; Ld s2 176 a0; Ld s3 184 a0; Ld s4 192 a0; Ld s5 200 a0;
    Ld s6 208 a0; Ld s7 216 a0; Ld s8 224 a0; Ld s9 232 a0; Ld s10 240 a0; Ld s11 248 a0;
    Ld t3 256 a0; Ld t4 264 a0; Ld t5 272 a0; Ld t6 280 a0; Ld a0 112 a0; Sret ].
