(* ===== verification/AsmSpec.v ===== *)
(** * What the assembly code guarantees

    Saving and restoring blocks of registers, once for all the programs of
    [Asm], and on top of it: a switch away from a thread and back to it leaves
    its registers as a call would, a trap from user space and the return from
    it leave every user register as it was, and an interrupt of kernel code is
    invisible to it. *)

From S2P Require Import Prelude Riscv Mem Asm.

(** Closed decidable facts by evaluation, and the fields of an updated hart. *)
Ltac by_decision := apply (bool_decide_unpack _); vm_compute; exact I.
Ltac hsimpl := cbn [regs set_reg set_csr set_pmem set_pc set_regs csrs mode pc pmem].

(** A hart whose registers hold 64-bit values. *)
Record hart_ok (h : hart) : Prop := {
  ok_reg r : 0 ≤ regs h r < 2 ^ 64;
  ok_csr c : 0 ≤ csrs h c < 2 ^ 64;
}.

Section spec.
Context {mmu : Mmu}.
Implicit Types (h : hart) (m : memory).

(** [n] bytes at virtual address [va] are at physical address [pa]. *)
Definition mapped h (va pa n : Z) : Prop := ∀ i, 0 ≤ i < n → phys h (va + i) = Some (pa + i).

Lemma wp_exec_app l1 l2 h Q :
  wp (exec l1) h (λ _ h', wp (exec l2) h' Q) → wp (exec (l1 ++ l2)) h Q.
Proof.
  revert h. induction l1 as [|i l1 IH]; intros h H; [exact H|].
  simpl in *. apply wp_bind. apply wp_bind_inv in H. eapply wp_mono; [exact H|].
  intros [] h'. apply IH.
Qed.

Lemma upd_same {A} `{!EqDecision A} (f : A → Z) a v : upd f a v a = v.
Proof. unfold upd. by rewrite decide_True. Qed.
Lemma upd_other {A} `{!EqDecision A} (f : A → Z) a b v : b ≠ a → upd f a v b = f b.
Proof. intros. unfold upd. by rewrite decide_False. Qed.

(** Instructions keep every register a 64-bit value. *)
Lemma upd_range {A} `{!EqDecision A} (f : A → Z) a v :
  (∀ x, 0 ≤ f x < 2 ^ 64) → 0 ≤ v < 2 ^ 64 → ∀ x, 0 ≤ upd f a v x < 2 ^ 64.
Proof. intros Hf Hv x. unfold upd. by case_decide. Qed.

Lemma set_reg_ok r v h : hart_ok h → 0 ≤ v < 2 ^ 64 → hart_ok (set_reg r v h).
Proof. intros [Hr Hc] Hv. split; [by apply upd_range|exact Hc]. Qed.

Lemma set_csr_ok c v h : hart_ok h → 0 ≤ v < 2 ^ 64 → hart_ok (set_csr c v h).
Proof. intros [Hr Hc] Hv. split; [exact Hr|by apply upd_range]. Qed.

Lemma set_pmem_ok m h : hart_ok h → hart_ok (set_pmem m h).
Proof. by intros [Hr Hc]. Qed.

(** ** Blocks of registers *)

Definition slots : Type := list (reg * Z).
Definition save (base : reg) (tbl : slots) : list instr := (λ x, Sd x.1 x.2 base) <$> tbl.
Definition restore (base : reg) (tbl : slots) : list instr := (λ x, Ld x.1 x.2 base) <$> tbl.

(** Aligned, disjoint slots of a block of [n] bytes, for distinct registers. *)
Definition slot_ok (n : Z) (x : reg * Z) : Prop := 0 ≤ x.2 ∧ x.2 + 8 ≤ n ∧ x.2 mod 8 = 0.
Definition slots_ok (n : Z) (tbl : slots) : Prop :=
  Forall (slot_ok n) tbl ∧ NoDup tbl.*2 ∧ NoDup tbl.*1.
#[global] Instance slots_ok_dec n tbl : Decision (slots_ok n tbl).
Proof. unfold slots_ok, slot_ok. apply _. Defined.

(** A block at an aligned address. *)
Record block_at h (base : reg) (va pa n : Z) : Prop := {
  bl_base : regs h base = va;
  bl_range : 0 ≤ va ∧ va + n ≤ 2 ^ 64;
  bl_align : va mod 8 = 0;
  bl_map : mapped h va pa n;
}.

Lemma address_wp h base va pa n o Q :
  block_at h base va pa n → 0 ≤ o → o + 8 ≤ n → o mod 8 = 0 →
  Q (pa + o) h → wp (address o base) h Q.
Proof.
  intros [Hb Hr Ha Hm] Ho Hn Hal HQ. unfold address. wp_steps. rewrite Hb, u64_small by lia.
  destruct (Z.eqb_spec ((va + o) mod 8) 0) as [_|Hc].
  - simpl. rewrite Hm by lia. exact HQ.
  - exfalso. apply Hc. rewrite Z.add_mod, Ha, Hal by lia. done.
Qed.

Lemma block_at_pmem h base va pa n m :
  block_at h base va pa n → block_at (set_pmem m h) base va pa n.
Proof. intros [Hb Hr Ha Hm]. by split. Qed.

Lemma block_at_reg h base va pa n r v :
  block_at h base va pa n → (r = base → v = va) → block_at (set_reg r v h) base va pa n.
Proof.
  intros [Hb Hr Ha Hm] Hv. split; [|done..]. cbn [regs set_reg]. unfold upd.
  case_decide as Hd; [|done]. symmetry in Hd. auto.
Qed.

(** The stores of a block, as one update of memory. *)
Definition saved (f : reg → Z) (tbl : slots) (pa : Z) m : memory :=
  foldl (λ m x, store64 m (pa + x.2) (f x.1)) m tbl.

Lemma save_wp n base tbl va pa h Q :
  block_at h base va pa n → Forall (slot_ok n) tbl →
  Q tt (set_pmem (saved (regs h) tbl pa (pmem h)) h) → wp (exec (save base tbl)) h Q.
Proof.
  revert h. induction tbl as [|[r o] tbl IH]; intros h Hb Hs HQ.
  - destruct h. exact HQ.
  - apply list.Forall_cons in Hs as [(? & ? & ?) Hs].
    cbn [save fmap list_fmap exec exec1 fst snd]. wp_step. wp_step.
    eapply address_wp; [done..|]. wp_step. apply IH; [by apply block_at_pmem|done|].
    exact HQ.
Qed.

Lemma saved_out f tbl pa m x :
  (∀ r o, (r, o) ∈ tbl → ¬ (pa + o ≤ x < pa + o + 8)) → saved f tbl pa m x = m x.
Proof.
  revert m. induction tbl as [|[r o] tbl IH]; intros m H; [done|]. cbn [saved foldl fst snd].
  unfold saved in IH. rewrite IH by (intros; eapply H; by right).
  apply store64_out. eapply H. by left.
Qed.

Lemma slots_apart (tbl : slots) n r o r' o' :
  Forall (slot_ok n) tbl → slot_ok n (r, o) → o ∉ tbl.*2 → (r', o') ∈ tbl → o' + 8 ≤ o ∨ o + 8 ≤ o'.
Proof.
  intros Hs (H1 & H2 & H3) Hno Hin. cbn [snd] in *.
  rewrite list.Forall_forall in Hs. destruct (Hs _ Hin) as (H4 & H5 & H6). cbn [snd] in *.
  assert (o' ≠ o) by (intros ->; apply Hno, list_elem_of_fmap; by exists (r', o)).
  Z.div_mod_to_equations. lia.
Qed.

Lemma saved_in f n tbl pa m r o :
  (∀ r, 0 ≤ f r < 2 ^ 64) → Forall (slot_ok n) tbl → NoDup tbl.*2 →
  (r, o) ∈ tbl → load64 (saved f tbl pa m) (pa + o) = f r.
Proof.
  intros Hf. revert m. induction tbl as [|[r1 o1] tbl IH]; intros m Hs Hnd Hin.
  - by apply elem_of_nil in Hin.
  - apply list.Forall_cons in Hs as [H1 Hs]. cbn [fmap list_fmap snd] in Hnd.
    apply list.NoDup_cons in Hnd as [Hno Hnd].
    cbn [saved foldl fst snd]. apply elem_of_cons in Hin as [[= -> ->]|Hin]; [|by apply IH].
    transitivity (load64 (store64 m (pa + o1) (f r1)) (pa + o1)); [|by apply load64_store64_eq].
    apply load64_ext. intros x Hx. apply saved_out. intros r' o' Hin.
    pose proof (slots_apart _ _ _ _ _ _ Hs H1 Hno Hin). lia.
Qed.

(** The loads of a block, as one update of the registers. *)
Definition loaded (f : reg → Z) (tbl : slots) (pa : Z) m : reg → Z :=
  foldl (λ f x, upd f x.1 (load64 m (pa + x.2))) f tbl.

(** The base may be one of the registers, when its slot holds its value. *)
Lemma restore_wp n base tbl va pa h Q :
  block_at h base va pa n → Forall (slot_ok n) tbl →
  (∀ o, (base, o) ∈ tbl → load64 (pmem h) (pa + o) = va) →
  Q tt (set_regs (loaded (regs h) tbl pa (pmem h)) h) → wp (exec (restore base tbl)) h Q.
Proof.
  revert h. induction tbl as [|[r o] tbl IH]; intros h Hb Hs Hbase HQ.
  - destruct h. exact HQ.
  - apply list.Forall_cons in Hs as [(? & ? & ?) Hs].
    cbn [restore fmap list_fmap exec exec1 fst snd]. wp_step. wp_step.
    eapply address_wp; [done..|]. wp_step. apply IH; [|done| |].
    + apply block_at_reg; [done|]. intros ->. apply Hbase. by left.
    + intros o' Ho'. apply Hbase. by right.
    + exact HQ.
Qed.

Lemma loaded_out f tbl pa m r : r ∉ tbl.*1 → loaded f tbl pa m r = f r.
Proof.
  revert f. induction tbl as [|[r1 o1] tbl IH]; intros f H; [done|].
  cbn [fmap list_fmap fst] in H. apply not_elem_of_cons in H as [? H].
  cbn [loaded foldl fst snd]. unfold loaded in IH. rewrite IH by done. by apply upd_other.
Qed.

Lemma loaded_in f tbl pa m r o :
  NoDup tbl.*1 → (r, o) ∈ tbl → loaded f tbl pa m r = load64 m (pa + o).
Proof.
  revert f. induction tbl as [|[r1 o1] tbl IH]; intros f Hnd Hin.
  - by apply elem_of_nil in Hin.
  - cbn [fmap list_fmap fst] in Hnd. apply list.NoDup_cons in Hnd as [Hno Hnd].
    cbn [loaded foldl fst snd]. apply elem_of_cons in Hin as [[= -> ->]|Hin]; [|by apply IH].
    unfold loaded in *. pose proof (loaded_out (upd f r1 (load64 m (pa + o1))) tbl pa m r1 Hno) as E.
    unfold loaded in E. rewrite E. apply upd_same.
Qed.

(** Registers saved and restored from the same memory. *)
Lemma loaded_saved n f g tbl pa m m' r :
  (∀ r, 0 ≤ f r < 2 ^ 64) → slots_ok n tbl →
  (∀ r o x, (r, o) ∈ tbl → pa + o ≤ x < pa + o + 8 → m' x = saved f tbl pa m x) →
  r ∈ tbl.*1 → loaded g tbl pa m' r = f r.
Proof.
  intros Hf (Hs & Hno & Hnr) Hm ([r' o] & -> & Hin)%list_elem_of_fmap. cbn [fst].
  erewrite loaded_in by done. rewrite (load64_ext _ (saved f tbl pa m)); [by eapply saved_in|].
  intros x Hx. by eapply Hm.
Qed.

(** ** Context switches *)

(** [struct context] *)
Definition context_slots : slots :=
  [(ra, 0); (sp, 8); (s0, 16); (s1, 24); (s2, 32); (s3, 40); (s4, 48); (s5, 56); (s6, 64);
   (s7, 72); (s8, 80); (s9, 88); (s10, 96); (s11, 104)].
Definition sizeof_context : Z := 112.

Lemma context_slots_ok : slots_ok sizeof_context context_slots.
Proof. by_decision. Qed.

Lemma swtch_eq : swtch = save a0 context_slots ++ restore a1 context_slots ++ [Jr ra].
Proof. reflexivity. Qed.

(** What a switch from the context at [pa] to the one at [pb] leaves. *)
Definition switched (pa pb : Z) h : hart :=
  let m := saved (regs h) context_slots pa (pmem h) in
  let f := loaded (regs h) context_slots pb m in
  mk_hart f (csrs h) (mode h) (f ra) m.

Lemma swtch_wp va pa vb pb h Q :
  block_at h a0 va pa sizeof_context → block_at h a1 vb pb sizeof_context →
  Q tt (switched pa pb h) → wp (exec swtch) h Q.
Proof.
  intros Ha Hb HQ. destruct context_slots_ok as (Hs & _ & _). rewrite swtch_eq.
  apply wp_exec_app. eapply save_wp; [done..|].
  apply wp_exec_app. eapply restore_wp; [by apply block_at_pmem|done| |exact HQ].
  intros o Hin. exfalso.
  assert (a1 ∈ context_slots.*1) as Hin' by (apply list_elem_of_fmap; by exists (a1, o)).
  revert Hin'. by_decision.
Qed.

(** C25: a thread that switches away and is switched back to goes on as if
    [swtch] had been an ordinary call.  A thread that calls [swtch(old, new)]
    saves its registers in [old].  Whatever runs then, on this hart or on
    another one, a later [swtch(c, old)] that finds the context [old] in memory
    as it was left returns to the thread's return address with its stack
    pointer and its callee-saved registers back.  Neither call changes memory
    outside the context it saves, the thread pointer or the control registers. *)
Theorem swtch_resumes h va pa vb pb :
  hart_ok h →
  block_at h a0 va pa sizeof_context → block_at h a1 vb pb sizeof_context →
  wp (exec swtch) h (λ _ h1,
    csrs h1 = csrs h ∧ regs h1 tp = regs h tp ∧
    (∀ x, ¬ (pa ≤ x < pa + sizeof_context) → pmem h1 x = pmem h x) ∧
    ∀ h2 vc pc' v,
      block_at h2 a0 vc pc' sizeof_context → block_at h2 a1 v pa sizeof_context →
      (pc' + sizeof_context ≤ pa ∨ pa + sizeof_context ≤ pc') →
      (∀ x, pa ≤ x < pa + sizeof_context → pmem h2 x = pmem h1 x) →
      wp (exec swtch) h2 (λ _ h3,
        (∀ r, r ∈ context_slots.*1 → regs h3 r = regs h r) ∧ pc h3 = regs h ra ∧
        csrs h3 = csrs h2 ∧ regs h3 tp = regs h2 tp)).
Proof.
  intros Hok Ha Hb. eapply swtch_wp; [done..|]. pose proof context_slots_ok as Hs.
  assert (tp ∉ context_slots.*1) as Htp by (by_decision).
  split_and!; [done|by apply loaded_out| |].
  - intros x Hx. apply saved_out. intros r o Hin. destruct Hs as (Hs & _).
    rewrite list.Forall_forall in Hs. destruct (Hs _ Hin) as (? & ? & _). cbn [snd] in *. lia.
  - intros h2 vc pc' v Hc Hv Hdis Hm. eapply swtch_wp; [done..|].
    assert (∀ r, r ∈ context_slots.*1 → regs (switched pc' pa h2) r = regs h r) as Hr.
    { intros r Hr. eapply loaded_saved; [apply Hok|exact Hs| |done].
      intros r' o x Hin Hx. destruct Hs as (Hs & _). rewrite list.Forall_forall in Hs.
      destruct (Hs _ Hin) as (? & ? & _). cbn [snd] in *.
      rewrite saved_out; [apply Hm; lia|]. intros r2 o2 Hin2.
      destruct (Hs _ Hin2) as (? & ? & _). cbn [snd] in *. lia. }
    split_and!; [exact Hr| |done|by apply loaded_out].
    apply (Hr ra). by left.
Qed.

(** ** Traps from user space *)

(** The registers [uservec] saves and [userret] restores with the trap frame's
    address in [a0]; [a0] itself is at offset 112. *)
Definition user_slots : slots :=
  [(ra, 40); (sp, 48); (gp, 56); (tp, 64); (t0, 72); (t1, 80); (t2, 88); (s0, 96); (s1, 104);
   (a1, 120); (a2, 128); (a3, 136); (a4, 144); (a5, 152); (a6, 160); (a7, 168); (s2, 176);
   (s3, 184); (s4, 192); (s5, 200); (s6, 208); (s7, 216); (s8, 224); (s9, 232); (s10, 240);
   (s11, 248); (t3, 256); (t4, 264); (t5, 272); (t6, 280)].
(** What [uservec] loads for the kernel. *)
Definition kernel_slots : slots := [(sp, 8); (tp, 32); (t0, 16); (t1, 0)].
Definition sizeof_trapframe : Z := 288.

Lemma user_slots_ok : slots_ok sizeof_trapframe user_slots.
Proof. by_decision. Qed.
Lemma kernel_slots_ok : slots_ok sizeof_trapframe kernel_slots.
Proof. by_decision. Qed.

Lemma user_slots_all r : r ≠ a0 → r ∈ user_slots.*1.
Proof. intros Hr. destruct r; try done; by_decision. Qed.

Lemma user_slots_bounds r o : (r, o) ∈ user_slots → 40 ≤ o ∧ o + 8 ≤ 288 ∧ (o + 8 ≤ 112 ∨ 120 ≤ o).
Proof.
  assert (Forall (λ x : reg * Z, 40 ≤ x.2 ∧ x.2 + 8 ≤ 288 ∧ (x.2 + 8 ≤ 112 ∨ 120 ≤ x.2)) user_slots) as H
    by (by_decision).
  rewrite list.Forall_forall in H. apply (H (r, o)).
Qed.

Lemma uservec_eq :
  uservec = [Csrw sscratch a0; Li a0 TRAPFRAME] ++ save a0 user_slots ++
            [Csrr t0 sscratch; Sd t0 112 a0] ++ restore a0 kernel_slots ++
            [SfenceVma; Csrw satp t1; SfenceVma; Jr t0].
Proof. reflexivity. Qed.
Lemma userret_eq :
  userret = [SfenceVma; Csrw satp a0; SfenceVma; Li a0 TRAPFRAME] ++ restore a0 user_slots ++
            [Ld a0 112 a0; Sret].
Proof. reflexivity. Qed.

(** The trap frame of a process: the page table in [sat] maps it at TRAPFRAME,
    and its physical address is [tf]. *)
Definition frame_mapped (sat tf : Z) : Prop :=
  ∀ i, 0 ≤ i < sizeof_trapframe → translate sat (TRAPFRAME + i) = Some (tf + i).

Lemma frame_block h tf :
  mode h = Supervisor → frame_mapped (csrs h satp) tf → regs h a0 = TRAPFRAME →
  block_at h a0 TRAPFRAME tf sizeof_trapframe.
Proof.
  intros Hm Hf Ha. split; [done|by vm_compute|by vm_compute|].
  intros i Hi. unfold phys. rewrite Hm. by apply Hf.
Qed.

(** What [uservec] stores in the trap frame. *)
Definition frame_saved (tf : Z) h : memory :=
  store64 (saved (upd (regs h) a0 TRAPFRAME) user_slots tf (pmem h)) (tf + 112) (regs h a0).

(** The hart in the kernel: its stack, its number, its page table, and the
    address of [usertrap]. *)
Definition entered (tf : Z) h h1 : Prop :=
  mode h1 = Supervisor ∧ pmem h1 = frame_saved tf h ∧
  csrs h1 satp = load64 (pmem h) tf ∧ regs h1 sp = load64 (pmem h) (tf + 8) ∧
  pc h1 = load64 (pmem h) (tf + 16) ∧ regs h1 tp = load64 (pmem h) (tf + 32).

(** Below offset 40 the trap frame is the kernel's. *)
Lemma frame_saved_kernel tf h o :
  0 ≤ o → o + 8 ≤ 40 → load64 (frame_saved tf h) (tf + o) = load64 (pmem h) (tf + o).
Proof.
  intros. unfold frame_saved. rewrite load64_store64_ne by lia. apply load64_ext.
  intros x Hx. apply saved_out. intros r' o' Hin%user_slots_bounds. lia.
Qed.

Lemma uservec_wp h tf :
  mode h = Supervisor → frame_mapped (csrs h satp) tf →
  wp (exec uservec) h (λ _ h1, entered tf h h1).
Proof.
  intros Hm Hf. destruct user_slots_ok as (Hu & _), kernel_slots_ok as (Hk & Hk2 & Hk1).
  rewrite uservec_eq. apply wp_exec_app. cbn [exec exec1]. wp_steps.
  apply wp_exec_app. eapply save_wp; [|exact Hu|].
  { apply (frame_block _ tf); [done| |apply upd_same]. exact Hf. }
  apply wp_exec_app. cbn [exec exec1]. wp_step. wp_step. wp_step. wp_step.
  eapply (address_wp _ _ TRAPFRAME tf sizeof_trapframe); [|done..|].
  { apply (frame_block _ tf); [done|exact Hf|]. hsimpl. by rewrite upd_other, upd_same. }
  wp_steps. apply wp_exec_app. eapply (restore_wp sizeof_trapframe _ _ TRAPFRAME tf); [|exact Hk| |].
  { apply (frame_block _ tf); [done|exact Hf|].
    hsimpl. by rewrite upd_other, upd_same. }
  { intros o Hin. exfalso. revert Hin. unfold kernel_slots.
    rewrite !elem_of_cons, elem_of_nil. intros Hin. by destruct_or! Hin. }
  cbn [exec exec1]. wp_steps. hsimpl.
  rewrite !upd_same.
  assert (∀ g r o, (r, o) ∈ kernel_slots →
            loaded g kernel_slots tf (frame_saved tf h) r = load64 (pmem h) (tf + o)) as Hl.
  { intros g r o Hin. erewrite loaded_in by done. apply frame_saved_kernel;
      revert Hin; unfold kernel_slots; rewrite !elem_of_cons, elem_of_nil; intros; destruct_or?; naive_solver lia. }
  change (u64 TRAPFRAME) with TRAPFRAME.
  unfold entered. hsimpl. rewrite upd_same.
  fold (frame_saved tf h). rewrite (Hl _ t1 0), Z.add_0_r by by_decision.
  split_and!; [done..| | |]; apply Hl; by_decision.
Qed.

Lemma userret_wp h tf :
  mode h = Supervisor → frame_mapped (regs h a0) tf →
  wp (exec userret) h (λ _ h',
    regs h' = upd (loaded (upd (regs h) a0 TRAPFRAME) user_slots tf (pmem h)) a0
                (load64 (pmem h) (tf + 112)) ∧
    csrs h' satp = regs h a0 ∧ pc h' = csrs h sepc ∧ pmem h' = pmem h ∧
    mode h' = if Z.testbit (csrs h mstatus) 8 then Supervisor else User).
Proof.
  intros Hm Hf. destruct user_slots_ok as (Hu & _). rewrite userret_eq.
  apply wp_exec_app. cbn [exec exec1]. wp_steps. change (u64 TRAPFRAME) with TRAPFRAME.
  apply wp_exec_app. eapply (restore_wp sizeof_trapframe _ _ TRAPFRAME tf); [|exact Hu| |].
  { apply (frame_block _ tf); hsimpl; [done|by rewrite upd_same|apply upd_same]. }
  { intros o Hin. exfalso. assert (a0 ∈ user_slots.*1) as Hin'
      by (apply list_elem_of_fmap; by exists (a0, o)). revert Hin'. by_decision. }
  cbn [exec exec1]. wp_step. wp_step.
  eapply (address_wp _ _ TRAPFRAME tf sizeof_trapframe); [|done..|].
  { apply (frame_block _ tf); hsimpl; [done|by rewrite upd_same|].
    rewrite loaded_out by by_decision. apply upd_same. }
  wp_steps. unfold exec_sret. wp_steps. hsimpl.
  rewrite (upd_other _ mstatus satp), upd_same by done.
  rewrite !(upd_other _ satp) by done. done.
Qed.

(** C14: a trap from user space and the return from it leave the user's
    registers alone.  [uservec], entered with the user page table, saves all 31
    registers in the process's trap frame, touches nothing else, and jumps to
    [usertrap] on the process's kernel stack, with the kernel page table and the
    hart number that [usertrapret] left in the trap frame.  When the kernel,
    which may have run on any hart and written the frame's [a0], enters
    [userret] with that page table, user code resumes in user mode at [sepc]
    with every register but [a0] as it was, and [a0] from the frame. *)
Theorem trampoline_roundtrip h tf :
  hart_ok h → mode h = Supervisor → frame_mapped (csrs h satp) tf →
  wp (exec uservec) h (λ _ h1,
    mode h1 = Supervisor ∧ pc h1 = load64 (pmem h) (tf + 16) ∧
    regs h1 sp = load64 (pmem h) (tf + 8) ∧ regs h1 tp = load64 (pmem h) (tf + 32) ∧
    csrs h1 satp = load64 (pmem h) tf ∧
    load64 (pmem h1) (tf + 112) = regs h a0 ∧
    (∀ x, ¬ (tf + 40 ≤ x < tf + sizeof_trapframe) → pmem h1 x = pmem h x) ∧
    ∀ h2, mode h2 = Supervisor → Z.testbit (csrs h2 mstatus) 8 = false →
      regs h2 a0 = csrs h satp →
      (∀ x, tf + 40 ≤ x < tf + sizeof_trapframe → ¬ (tf + 112 ≤ x < tf + 120) →
            pmem h2 x = pmem h1 x) →
      wp (exec userret) h2 (λ _ h3,
        (∀ r, r ≠ a0 → regs h3 r = regs h r) ∧
        regs h3 a0 = load64 (pmem h2) (tf + 112) ∧
        csrs h3 satp = csrs h satp ∧ pc h3 = csrs h2 sepc ∧ mode h3 = User ∧
        pmem h3 = pmem h2)).
Proof.
  intros Hok Hm Hf. eapply wp_mono; [by eapply uservec_wp|].
  intros [] h1 (H1 & Hmem & Hsat & Hsp & Hpc & Htp). rewrite Hmem.
  split_and!; [done..| | |].
  - unfold frame_saved. by apply load64_store64_eq, Hok.
  - intros x Hx. unfold frame_saved, sizeof_trapframe in *. rewrite store64_out by lia.
    apply saved_out. intros r o Hin%user_slots_bounds. lia.
  - intros h2 Hm2 Hspp Ha Hfr. eapply wp_mono; [apply userret_wp; [done|by rewrite Ha]|].
    intros [] h3 (Hr & Hs & Hp & Hpm & Hmo). rewrite Hr, Hspp in *.
    split_and!; [|by rewrite upd_same|by rewrite Hs|done..].
    intros r Hra. rewrite upd_other by done.
    transitivity (upd (regs h) a0 TRAPFRAME r); [|by apply upd_other].
    eapply loaded_saved; [apply upd_range; [apply Hok|by vm_compute]|apply user_slots_ok| |by apply user_slots_all].
    intros r' o x Hin%user_slots_bounds Hx. unfold sizeof_trapframe in *.
    rewrite Hfr by lia. unfold frame_saved. by rewrite store64_out by lia.
Qed.

(** ** Interrupts of kernel code *)

Definition kernelvec_slots : slots :=
  [(ra, 0); (sp, 8); (gp, 16); (t0, 32); (t1, 40); (t2, 48); (s0, 56); (s1, 64); (a0, 72);
   (a1, 80); (a2, 88); (a3, 96); (a4, 104); (a5, 112); (a6, 120); (a7, 128); (s2, 136); (s3, 144);
   (s4, 152); (s5, 160); (s6, 168); (s7, 176); (s8, 184); (s9, 192); (s10, 200); (s11, 208);
   (t3, 216); (t4, 224); (t5, 232); (t6, 240)].
(** [tp] is saved too, fourth, and never restored. *)
Definition kernelvec_saved : slots := take 3 kernelvec_slots ++ (tp, 24) :: drop 3 kernelvec_slots.
Definition kernelvec_frame : Z := 256.

Lemma kernelvec_slots_ok : slots_ok kernelvec_frame kernelvec_slots.
Proof. by_decision. Qed.
Lemma kernelvec_saved_ok : slots_ok kernelvec_frame kernelvec_saved.
Proof. by_decision. Qed.
Lemma kernelvec_slots_sub : kernelvec_slots ⊆ kernelvec_saved.
Proof.
  intros x. assert (Forall (.∈ kernelvec_saved) kernelvec_slots) as H by by_decision.
  rewrite list.Forall_forall in H. apply H.
Qed.
Lemma kernelvec_slots_all r : r ≠ tp → r ∈ kernelvec_slots.*1.
Proof. intros Hr. destruct r; try done; by_decision. Qed.

Lemma kernelvec_save_eq : kernelvec_save = [Addi sp sp (-256)] ++ save sp kernelvec_saved.
Proof. reflexivity. Qed.
Lemma kernelvec_restore_eq :
  kernelvec_restore = restore sp kernelvec_slots ++ [Addi sp sp 256; Sret].
Proof. reflexivity. Qed.

(** A block of registers saved, and found unchanged by the restore of some of
    them, for a table and the part of it that is restored. *)
Lemma loaded_saved_sub n f g tbl tbl' pa m m' r :
  (∀ r, 0 ≤ f r < 2 ^ 64) → slots_ok n tbl → NoDup tbl'.*1 → tbl' ⊆ tbl →
  (∀ x, pa ≤ x < pa + n → m' x = saved f tbl pa m x) →
  r ∈ tbl'.*1 → loaded g tbl' pa m' r = f r.
Proof.
  intros Hf (Hs & Hno & _) Hnr Hsub Hm ([r' o] & -> & Hin)%list_elem_of_fmap. cbn [fst].
  erewrite loaded_in by done. apply Hsub in Hin.
  rewrite (load64_ext _ (saved f tbl pa m)); [by eapply saved_in|].
  intros x Hx. apply Hm. rewrite list.Forall_forall in Hs.
  destruct (Hs _ Hin) as (? & ? & _). cbn [snd] in *. lia.
Qed.

(** What the calling convention promises of the compiled [kerneltrap], entered
    with the stack pointer at the frame at [pa]: it returns with the stack
    pointer and the frame as they were; and what its source does: the page table
    and the saved status and program counter are those of the interrupted code. *)
Definition returns_to_frame (kerneltrap : M hart unit) (v pa : Z) : Prop :=
  ∀ h, hart_ok h → mode h = Supervisor → regs h sp = v →
    wp kerneltrap h (λ _ h', regs h' sp = v ∧ mode h' = Supervisor ∧
      csrs h' satp = csrs h satp ∧ csrs h' sepc = csrs h sepc ∧ csrs h' mstatus = csrs h mstatus ∧
      ∀ x, pa ≤ x < pa + kernelvec_frame → pmem h' x = pmem h x).

(** C33: an interrupt or exception taken in the kernel is invisible to the code
    it interrupts.  [kernelvec] makes room below the stack pointer, saves every
    register, calls [kerneltrap] and restores them; the interrupted code
    resumes in supervisor mode at the saved program counter with every
    register as it was, the stack pointer included, but for the thread pointer.
    [kerneltrap] is entered with the thread pointer of the interrupted code, and
    the code resumes with the one [kerneltrap] leaves, since the thread may have
    moved to another hart; nor is memory changed but for the 256 bytes below the
    stack and what [kerneltrap] changes. *)
Theorem kernelvec_transparent kerneltrap h pa :
  hart_ok h → mode h = Supervisor → kernelvec_frame ≤ regs h sp → regs h sp mod 8 = 0 →
  mapped h (regs h sp - kernelvec_frame) pa kernelvec_frame →
  Z.testbit (csrs h mstatus) 8 = true →
  returns_to_frame kerneltrap (regs h sp - kernelvec_frame) pa →
  wp (kernelvec kerneltrap) h (λ _ h',
    (∀ r, r ≠ tp → regs h' r = regs h r) ∧ pc h' = csrs h sepc ∧ mode h' = Supervisor ∧
    ∃ h1 h2, kerneltrap h1 = Ok tt h2 ∧
      regs h1 tp = regs h tp ∧ csrs h1 = csrs h ∧ (∀ x, ¬ (pa ≤ x < pa + kernelvec_frame) → pmem h1 x = pmem h x) ∧
      regs h' tp = regs h2 tp ∧ pmem h' = pmem h2).
Proof.
  intros Hok Hm Hsp Hal Hmap Hspp Hkt. unfold kernelvec_frame in *.
  pose proof (ok_reg _ Hok sp) as Hr. pose proof kernelvec_saved_ok as Hs.
  set (v := regs h sp - 256) in *.
  assert (∀ h', regs h' sp = v → mode h' = Supervisor → csrs h' satp = csrs h satp →
                block_at h' sp v pa 256) as Hblk.
  { intros h' H1 H2 H3. split; [done|lia|subst v; Z.div_mod_to_equations; lia|].
    intros i Hi. specialize (Hmap i Hi). unfold phys in *. by rewrite H2, H3, Hm in *. }
  unfold kernelvec. rewrite kernelvec_save_eq, kernelvec_restore_eq.
  wp_step. apply wp_exec_app. cbn [exec exec1]. wp_steps.
  replace (u64 (regs h sp + -256)) with v by (rewrite u64_small by lia; lia).
  assert (0 ≤ v < 2 ^ 64) as Hv by lia.
  eapply save_wp; [apply Hblk; [apply upd_same|done..]|apply Hs|].
  wp_step. set (h1 := set_pmem _ _).
  destruct (wp_elim _ _ _ (Hkt h1 ltac:(apply set_pmem_ok, set_reg_ok; [done|lia]) Hm ltac:(apply upd_same)))
    as ([] & h2 & E & Hsp2 & Hm2 & Hsat & Hepc & Hst & Hmem).
  unfold wp at 1. rewrite E.
  - unfold h1 in Hmem, Hsat, Hepc, Hst. cbn [pmem csrs set_pmem set_reg] in Hmem, Hsat, Hepc, Hst.
    assert (∀ g r, r ∈ kernelvec_slots.*1 →
              loaded g kernelvec_slots pa (pmem h2) r = upd (regs h) sp v r) as Hl.
    { intros g r Hin. eapply loaded_saved_sub; [by apply upd_range; [apply Hok|]|exact Hs|
        apply kernelvec_slots_ok| |exact Hmem|done]. apply kernelvec_slots_sub. }
    apply wp_exec_app. eapply restore_wp; [by apply Hblk|apply kernelvec_slots_ok| |].
    + intros o Hin. erewrite <- (loaded_in (regs h)); [|apply kernelvec_slots_ok|done].
      rewrite Hl by by_decision. apply upd_same.
    + cbn [exec exec1]. wp_steps. unfold exec_sret. wp_steps. hsimpl.
      rewrite Hst, Hspp, Hepc. split_and!; [|done..|].
      * intros r Hne. destruct (decide (r = sp)) as [->|Hne']; [|by rewrite upd_other, Hl, upd_other by eauto using kernelvec_slots_all].
        rewrite upd_same, Hl, upd_same by by_decision. subst v. rewrite u64_small by lia. lia.
      * exists h1, h2. split_and!; [done|done|done| |by rewrite upd_other, loaded_out by by_decision|done].
        intros x Hx. subst h1. apply saved_out. intros r o Hin. destruct Hs as [Hs _]. rewrite list.Forall_forall in Hs.
        destruct (Hs _ Hin) as (? & ? & _). unfold kernelvec_frame in *. cbn [snd] in *. lia.
Qed.
End spec.

(** ** Sample harts, with virtual addresses equal to physical ones *)

#[global] Instance demo_mmu : Mmu := { translate := λ _ va, Some va }.
Definition demo_hart (id : Z) (m : privilege) (f : reg → Z) : hart :=
  mk_hart f (λ c, if decide (c = mhartid) then id else if decide (c = mstatus) then 256 else 0)
    m 0x80000000 (λ _, x00).

Lemma demo_hart_ok id m f : 0 ≤ id < 2 ^ 64 → (∀ r, 0 ≤ f r < 2 ^ 64) → hart_ok (demo_hart id m f).
Proof. intros. split; [done|]. intros c. simpl. by repeat case_decide. Qed.

Definition demo_regs (r : reg) : Z :=
  match r with a0 => 0x1000 | a1 => 0x2000 | sp => 0x3000 | ra => 0x80001234 | s0 => 7 | _ => 0 end.

Lemma demo_regs_ok r : 0 ≤ demo_regs r < 2 ^ 64.
Proof. by destruct r. Qed.

Lemma demo_block id m f r n :
  0 ≤ f r → f r + n ≤ 2 ^ 64 → f r mod 8 = 0 → block_at (demo_hart id m f) r (f r) (f r) n.
Proof. intros. split; [done..|]. intros i Hi. by destruct m. Qed.

Lemma swtch_resumes_witness :
  wp (exec swtch) (demo_hart 0 Supervisor demo_regs) (λ _ h1, regs h1 tp = 0 ∧ csrs h1 mhartid = 0).
Proof.
  refine (wp_mono _ _ _ _ (swtch_resumes (demo_hart 0 Supervisor demo_regs) 0x1000 0x1000 0x2000 0x2000
    (demo_hart_ok 0 Supervisor demo_regs _ demo_regs_ok)
    (demo_block 0 Supervisor demo_regs a0 _ _ _ _) (demo_block 0 Supervisor demo_regs a1 _ _ _ _)) _);
    [by vm_compute..|]. cbv beta.
  intros [] h1 (Hc & Ht & _). rewrite Hc, Ht. by split.
Defined.

Lemma trampoline_roundtrip_witness :
  wp (exec uservec) (demo_hart 0 Supervisor demo_regs) (λ _ h1, load64 (pmem h1) (TRAPFRAME + 112) = 0x1000).
Proof.
  refine (wp_mono _ _ _ _ (trampoline_roundtrip (demo_hart 0 Supervisor demo_regs) TRAPFRAME
    (demo_hart_ok 0 Supervisor demo_regs _ demo_regs_ok) eq_refl _) _);
    [by vm_compute|by intros i Hi|]. cbv beta.
  intros [] h1 (_ & _ & _ & _ & _ & Ha & _). exact Ha.
Defined.

Lemma kernelvec_transparent_witness :
  wp (kernelvec (mret ())) (demo_hart 0 Supervisor demo_regs) (λ _ h1, regs h1 sp = 0x3000 ∧ regs h1 s0 = 7).
Proof.
  refine (wp_mono _ _ _ _ (kernelvec_transparent (mret ()) (demo_hart 0 Supervisor demo_regs) 0x2f00
    (demo_hart_ok 0 Supervisor demo_regs _ demo_regs_ok) eq_refl _ eq_refl _ eq_refl _) _);
    [by vm_compute|by vm_compute|by intros i Hi|intros h Hok Hm Hs; by apply wp_ret|]. cbv beta.
  intros [] h1 (Hr & _). by rewrite !Hr.
Defined.
