(* ===== verification/Boot.v ===== *)
(** * From reset to [main]: [kernel/start.c], [kernel/plic.c]

    What each hart runs in machine mode after [entry.S], the timer interrupts
    it arranges for, and the set-up of the interrupt controller.  The registers
    of the CLINT and of the PLIC are memory at their addresses. *)

From S2P Require Import Prelude Riscv Mem Asm AsmSpec.

(** Where the linker puts what the boot code refers to. *)
Class BootImage := {
  stack0 : Z;
  timer_scratch : Z;
  main_addr : Z;
  timervec_addr : Z;
}.

(** ** riscv.h: access to the control and status registers *)

Definition MSTATUS_MPP_MASK : Z := Z.shiftl 3 11.
Definition MSTATUS_MPP_S : Z := Z.shiftl 1 11.
Definition MSTATUS_MIE : Z := Z.shiftl 1 3.
Definition SIE_SEIE : Z := Z.shiftl 1 9.
Definition SIE_STIE : Z := Z.shiftl 1 5.
Definition SIE_SSIE : Z := Z.shiftl 1 1.
Definition MIE_MTIE : Z := Z.shiftl 1 7.

Definition r_csr (c : csr) : M hart Z := gets (λ h, csrs h c).
Definition w_csr (c : csr) (x : Z) : M hart unit := modify (set_csr c (u64 x)).

Definition r_mhartid : M hart Z := r_csr mhartid.
Definition r_mstatus : M hart Z := r_csr mstatus.
Definition w_mstatus : Z → M hart unit := w_csr mstatus.
Definition w_mepc : Z → M hart unit := w_csr mepc.
Definition r_sie : M hart Z := r_csr sie.
Definition w_sie : Z → M hart unit := w_csr sie.
Definition r_mie : M hart Z := r_csr mie.
Definition w_mie : Z → M hart unit := w_csr mie.
Definition w_medeleg : Z → M hart unit := w_csr medeleg.
Definition w_mideleg : Z → M hart unit := w_csr mideleg.
Definition w_mtvec : Z → M hart unit := w_csr mtvec.
Definition w_pmpcfg0 : Z → M hart unit := w_csr pmpcfg0.
Definition w_pmpaddr0 : Z → M hart unit := w_csr pmpaddr0.
Definition w_satp : Z → M hart unit := w_csr satp.
Definition w_mscratch : Z → M hart unit := w_csr mscratch.
Definition r_tp : M hart Z := gets (λ h, regs h tp).
Definition w_tp (x : Z) : M hart unit := modify (set_reg tp (u64 x)).

(** Loads and stores of C code at a physical address. *)
Definition read64 (a : Z) : M hart Z := gets (λ h, load64 (pmem h) a).
Definition write64 (a v : Z) : M hart unit := modify (λ h, set_pmem (store64 (pmem h) a v) h).
Definition read32 (a : Z) : M hart Z := gets (λ h, load32 (pmem h) a).
Definition write32 (a v : Z) : M hart unit := modify (λ h, set_pmem (store32 (pmem h) a v) h).

Section start.
Context {mmu : Mmu} {image : BootImage}.

(** ** start.c *)

(** [&timer_scratch[id][0]], five 64-bit words for each hart. *)
Definition scratch_of (id : Z) : Z := timer_scratch + id * (5 * 8).

Definition timerinit : M hart unit :=
  id ← r_mhartid;
  let id := i32 id in
  let interval := 1000000 in
  t ← read64 CLINT_MTIME;
  write64 (CLINT_MTIMECMP id) (u64 (t + interval));;
  let scratch := scratch_of id in
  write64 (scratch + 8 * 3) (CLINT_MTIMECMP id);;
  write64 (scratch + 8 * 4) interval;;
  w_mscratch scratch;;
  w_mtvec timervec_addr;;
  x ← r_mstatus;
  w_mstatus (Z.lor x MSTATUS_MIE);;
  x ← r_mie;
  w_mie (Z.lor x MIE_MTIE).

Definition start : M hart unit :=
  x ← r_mstatus;
  let x := Z.land x (u64 (Z.lnot MSTATUS_MPP_MASK)) in
  let x := Z.lor x MSTATUS_MPP_S in
  w_mstatus x;;
  w_mepc main_addr;;
  w_satp 0;;
  w_medeleg 0xffff;;
  w_mideleg 0xffff;;
  x ← r_sie;
  w_sie (Z.lor (Z.lor (Z.lor x SIE_SEIE) SIE_STIE) SIE_SSIE);;
  w_pmpaddr0 0x3fffffffffffff;;
  w_pmpcfg0 0xf;;
  timerinit;;
  id ← r_mhartid;
  w_tp (i32 id);;
  exec_mret.

(** A hart from reset to [main]. *)
Definition boot : M hart unit := exec (entry stack0);; start.

(** ** plic.c *)

Definition cpuid : M hart Z := x ← r_tp; mret (i32 x).

Definition plicinit : M hart unit :=
  write32 (PLIC + UART0_IRQ * 4) 1;;
  write32 (PLIC + VIRTIO0_IRQ * 4) 1.

Definition plicinithart : M hart unit :=
  hart ← cpuid;
  write32 (PLIC_SENABLE hart) (Z.lor (Z.shiftl 1 UART0_IRQ) (Z.shiftl 1 VIRTIO0_IRQ));;
  write32 (PLIC_SPRIORITY hart) 0.

(** A read of the claim register is answered by the controller: [claim] is what
    it says to each hart. *)
Definition plic_claim (claim : Z → Z) : M hart Z :=
  hart ← cpuid; mret (i32 (u32 (claim hart))).

Definition plic_complete (irq : Z) : M hart unit :=
  hart ← cpuid; write32 (PLIC_SCLAIM hart) irq.

End start.
(** ** What the boot code establishes *)

(** The kernel is linked into RAM, with aligned data. *)
Class BootLaws {image : BootImage} : Prop := {
  stack0_ok : KERNBASE ≤ stack0 ∧ stack0 + 4096 * NCPU ≤ PHYSTOP;
  timer_scratch_ok : KERNBASE ≤ timer_scratch ∧ timer_scratch + 40 * NCPU ≤ PHYSTOP ∧
                     timer_scratch mod 8 = 0;
  text_ok : 0 ≤ main_addr < 2 ^ 64 ∧ 0 ≤ timervec_addr < 2 ^ 64;
}.

Section timer.
Context {mmu : Mmu} {image : BootImage} {laws : BootLaws}.
Implicit Types h : hart.

(** The hart [id] is set up for [timervec]. *)
Record timer_ready (id : Z) (h : hart) : Prop := {
  tr_scratch : csrs h mscratch = scratch_of id;
  tr_cmp : load64 (pmem h) (scratch_of id + 24) = CLINT_MTIMECMP id;
  tr_interval : load64 (pmem h) (scratch_of id + 32) = 1000000;
}.

Lemma address_machine h off base Q :
  mode h = Machine → 0 ≤ regs h base + off < 2 ^ 64 → (regs h base + off) mod 8 = 0 →
  Q (regs h base + off) h → wp (address off base) h Q.
Proof.
  intros Hm Hr Ha HQ. unfold address. wp_steps. rewrite u64_small, Ha by done. simpl.
  unfold phys. rewrite Hm. exact HQ.
Qed.

Lemma scratch_range id :
  0 ≤ id < NCPU →
  KERNBASE ≤ scratch_of id ∧ scratch_of id + 40 ≤ PHYSTOP ∧ scratch_of id mod 8 = 0.
Proof using laws.
  intros Hid. destruct timer_scratch_ok as (H1 & H2 & H3). unfold scratch_of, NCPU in *.
  split_and!; [lia..|]. Z.div_mod_to_equations. lia.
Qed.

Lemma mtimecmp_range id :
  0 ≤ id < NCPU → 0 ≤ CLINT_MTIMECMP id ∧ CLINT_MTIMECMP id + 8 ≤ CLINT_MTIME ∧
                  CLINT_MTIMECMP id mod 8 = 0.
Proof.
  intros Hid. unfold CLINT_MTIMECMP, CLINT_MTIME, CLINT, NCPU in *.
  split_and!; [lia..|]. Z.div_mod_to_equations. lia.
Qed.

(** One instruction of a machine-mode program, with the registers of the new
    state looked up. *)
Ltac usimpl := hsimpl; repeat (rewrite upd_same || rewrite upd_other by done).
Ltac m_step tac :=
  wp_step; cbn [exec1];
  lazymatch goal with
  | |- wp (_ ≫= _) _ _ =>
      wp_step; apply address_machine; [done|usimpl; tac|usimpl; tac|wp_step]
  | _ => wp_step
  end; usimpl.

(** What [timervec] does to memory. *)
Definition ticked (id : Z) (h : hart) : memory :=
  let S := scratch_of id in
  let m := store64 (store64 (store64 (pmem h) S (regs h a1)) (S + 8) (regs h a2)) (S + 16) (regs h a3) in
  store64 m (CLINT_MTIMECMP id) (u64 (load64 (pmem h) (CLINT_MTIMECMP id) + 1000000)).

Lemma ticked_load id h a :
  0 ≤ id < NCPU → a + 8 ≤ scratch_of id ∨ scratch_of id + 24 ≤ a →
  a + 8 ≤ CLINT_MTIMECMP id ∨ CLINT_MTIMECMP id + 8 ≤ a →
  load64 (ticked id h) a = load64 (pmem h) a.
Proof. intros. unfold ticked. by rewrite !load64_store64_ne by lia. Qed.

Lemma timervec_wp id h :
  hart_ok h → 0 ≤ id < NCPU → mode h = Machine → timer_ready id h →
  wp (exec timervec) h (λ _ h',
    (∀ r, regs h' r = regs h r) ∧ csrs h' mscratch = csrs h mscratch ∧ csrs h' sip = 2 ∧
    pc h' = csrs h mepc ∧ pmem h' = ticked id h).
Proof using laws.
  intros Hok Hid Hm [H1 H2 H3].
  destruct (scratch_range id Hid) as (Hs1 & Hs2 & Hs3), (mtimecmp_range id Hid) as (Hc1 & Hc2 & Hc3).
  unfold PHYSTOP, KERNBASE, CLINT_MTIME, CLINT in *.
  set (S := scratch_of id) in *. set (C := CLINT_MTIMECMP id) in *.
  unfold timervec. cbn [exec]. usimpl.
  assert (∀ o, o mod 8 = 0 → (S + o) mod 8 = 0) as Hal by (intros; Z.div_mod_to_equations; lia).
  assert (∀ o, o mod 8 = 0 → (C + o) mod 8 = 0) as HalC by (intros; Z.div_mod_to_equations; lia).
  do 6 m_step ltac:(rewrite ?H1; first [lia | by apply Hal]).
  rewrite H1, !load64_store64_ne, H2, H3 by lia.
  do 9 m_step ltac:(first [lia | by apply Hal | by apply HalC]).
  wp_step. unfold exec_mret. wp_steps. usimpl.
  rewrite !Z.add_0_r, !(load64_store64_ne _ _ C) by lia. fold S.
  rewrite !(load64_store64_ne _ C) by lia.
  rewrite (load64_store64_eq _ (S + 16)) by apply Hok.
  rewrite (load64_store64_ne _ (S + 16) (S + 8)), (load64_store64_eq _ (S + 8)) by (apply Hok || lia).
  rewrite (load64_store64_ne _ (S + 16) S), (load64_store64_ne _ (S + 8) S) by lia.
  rewrite (load64_store64_eq _ S) by apply Hok.
  split_and!; [|done..]. intros r. unfold upd. repeat case_decide; congruence.
Qed.

Lemma ticked_ready id h h' :
  hart_ok h → 0 ≤ id < NCPU → timer_ready id h → csrs h' mscratch = csrs h mscratch →
  pmem h' = ticked id h → timer_ready id h'.
Proof using laws.
  intros Hok Hid [H1 H2 H3] Hc Hm.
  destruct (scratch_range id Hid) as (Hs1 & Hs2 & Hs3), (mtimecmp_range id Hid) as (Hc1 & Hc2 & Hc3).
  unfold PHYSTOP, KERNBASE, CLINT_MTIME, CLINT in *.
  split; [by rewrite Hc| |]; by rewrite Hm, ticked_load by lia.
Qed.

(** ** From reset *)

(** What [start] leaves in mstatus, before and after the [mret]. *)
Definition start_mstatus (x : Z) : Z :=
  Z.lor (Z.lor (Z.land x (u64 (Z.lnot MSTATUS_MPP_MASK))) MSTATUS_MPP_S) MSTATUS_MIE.

Lemma start_mstatus_mpp x : Z.land (Z.shiftr (start_mstatus x) 11) 3 = 1.
Proof.
  apply Z.bits_inj'. intros i Hi. unfold start_mstatus.
  rewrite Z.land_spec, Z.shiftr_spec, !Z.lor_spec, Z.land_spec by lia.
  destruct (decide (i = 0)) as [->|].
  { change (Z.testbit MSTATUS_MPP_S (0 + 11)) with true. by rewrite orb_true_r. }
  destruct (decide (i = 1)) as [->|].
  - change (1 + 11) with 12.
    change (Z.testbit (u64 (Z.lnot MSTATUS_MPP_MASK)) 12) with false.
    change (Z.testbit MSTATUS_MPP_S 12) with false. change (Z.testbit MSTATUS_MIE 12) with false.
    by rewrite andb_false_r.
  - rewrite (Z.bits_above_log2 3), (Z.bits_above_log2 1) by (simpl; lia). apply andb_false_r.
Qed.


Lemma start_mstatus_u64 x :
  0 ≤ x < 2 ^ 64 →
  u64 (Z.lor (u64 (Z.lor (Z.land x (u64 (Z.lnot MSTATUS_MPP_MASK))) MSTATUS_MPP_S)) MSTATUS_MIE) =
  start_mstatus x.
Proof.
  intros Hx. assert (0 ≤ Z.lor (Z.land x (u64 (Z.lnot MSTATUS_MPP_MASK))) MSTATUS_MPP_S < 2 ^ 64) as Hy.
  { apply lor_bound; [lia| |by vm_compute]. apply (bitop_bound _ andb); [intros; apply Z.land_spec|done| | |done|].
    - intros; apply Z.land_nonneg; by left.
    - lia.
    - apply u64_range. }
  rewrite (u64_small (Z.lor (Z.land _ _) _)) by done. apply u64_small.
  apply lor_bound; [lia|done|by vm_compute].
Qed.

Lemma band_u64 x k : 0 ≤ k < 64 → Z.testbit x k = true → band (u64 x) (Z.shiftl 1 k) = true.
Proof. intros Hk Hx. rewrite band_testbit by lia. unfold u64. by rewrite Z.mod_pow2_bits_low by lia. Qed.

(** Delegation, interrupt enables and physical memory protection at [main]. *)
Record supervisor_ready (h : hart) : Prop := {
  sr_satp : csrs h satp = 0;
  sr_medeleg : csrs h medeleg = 0xffff;
  sr_mideleg : csrs h mideleg = 0xffff;
  sr_sie : band (csrs h sie) SIE_SEIE = true ∧ band (csrs h sie) SIE_STIE = true ∧
           band (csrs h sie) SIE_SSIE = true;
  sr_mie : band (csrs h mie) MIE_MTIE = true;
  sr_pmp : csrs h pmpaddr0 = 0x3fffffffffffff ∧ csrs h pmpcfg0 = 0xf;
  sr_mtvec : csrs h mtvec = timervec_addr;
}.

Lemma entry_wp id h Q :
  csrs h mhartid = id → 0 ≤ id < NCPU →
  (∀ h', regs h' sp = stack0 + 4096 * (id + 1) → csrs h' = csrs h → mode h' = mode h →
         pmem h' = pmem h → hart_ok h' → Q tt h') →
  hart_ok h → wp (exec (entry stack0)) h Q.
Proof using laws.
  intros Hh Hid HQ Hok. destruct stack0_ok as [H1 H2]. unfold KERNBASE, PHYSTOP, KERNBASE, NCPU in *.
  cbn [exec entry exec1]. wp_steps.
  apply HQ; [|done..|repeat (apply set_reg_ok; [|apply u64_range || apply Hok]); done]. usimpl. rewrite Hh.
  rewrite !(u64_small stack0), (u64_small (id + 1)), (u64_small (1024 * 4)) by lia.
  rewrite (u64_small (1024 * 4 * (id + 1))) by lia. rewrite u64_small by lia. lia.
Qed.

Lemma start_wp id h :
  hart_ok h → csrs h mhartid = id → 0 ≤ id < NCPU →
  wp start h (λ _ h',
    mode h' = Supervisor ∧ pc h' = main_addr ∧ regs h' tp = id ∧ regs h' sp = regs h sp ∧
    supervisor_ready h' ∧ timer_ready id h' ∧
    load64 (pmem h') (CLINT_MTIMECMP id) = u64 (load64 (pmem h) CLINT_MTIME + 1000000)).
Proof using laws.
  intros Hok Hh Hid. unfold start, timerinit, r_mstatus, w_mstatus, w_mepc, w_satp, w_medeleg,
    w_mideleg, r_sie, w_sie, w_pmpaddr0, w_pmpcfg0, r_mhartid, r_mie, w_mie, w_mscratch, w_mtvec,
    w_tp, r_csr, w_csr, read64, write64, exec_mret. wp_steps. usimpl. rewrite Hh.
  rewrite i32_small by (unfold NCPU in *; lia). rewrite start_mstatus_u64, start_mstatus_mpp by apply Hok.
  destruct text_ok as [Hma Htv]. rewrite !(u64_small main_addr), !(u64_small id) by (unfold NCPU in *; lia).
  destruct (scratch_range id Hid) as (Hs1 & Hs2 & Hs3), (mtimecmp_range id Hid) as (Hc1 & Hc2 & Hc3).
  unfold PHYSTOP, KERNBASE, CLINT_MTIME, CLINT in *.
  split_and!; [done..| | |].
  - split; usimpl; try done.
    + split_and!; apply band_u64; [lia| |lia| |lia|]; rewrite !Z.lor_spec.
      * change (Z.testbit SIE_SEIE 9) with true. by rewrite !orb_true_r.
      * change (Z.testbit SIE_STIE 5) with true. by rewrite !orb_true_r.
      * change (Z.testbit SIE_SSIE 1) with true. by rewrite !orb_true_r.
    + apply band_u64; [lia|]. rewrite Z.lor_spec. change (Z.testbit MIE_MTIE 7) with true.
      apply orb_true_r.
    + by apply u64_small.
  - split; usimpl; [by rewrite u64_small by lia| |];
      change (8 * 3) with 24; change (8 * 4) with 32.
    + rewrite load64_store64_ne by lia. apply load64_store64_eq. lia.
    + apply load64_store64_eq. lia.
  - rewrite !load64_store64_ne by lia. apply load64_store64_eq, u64_range.
Qed.

(** C34: boot and the clock.  A hart that comes out of reset in machine mode
    reaches [main] in supervisor mode, on a stack of its own, its number in
    [tp], paging off, traps delegated, and its timer armed one interval ahead.
    From then on, whenever its timer fires and the words [start] prepared for it
    are untouched, [timervec] returns to the interrupted code with every register
    as it was, raises a supervisor software interrupt, moves the deadline by
    exactly one interval, writes nothing but its three save slots and the
    deadline, and leaves the hart ready for the next one. *)
Theorem boot_timer id h :
  hart_ok h → mode h = Machine → csrs h mhartid = id → 0 ≤ id < NCPU →
  wp boot h (λ _ h',
    mode h' = Supervisor ∧ pc h' = main_addr ∧ regs h' tp = id ∧
    regs h' sp = stack0 + 4096 * (id + 1) ∧ supervisor_ready h' ∧ timer_ready id h' ∧
    load64 (pmem h') (CLINT_MTIMECMP id) = u64 (load64 (pmem h) CLINT_MTIME + 1000000)) ∧
  ∀ h1, hart_ok h1 → mode h1 = Machine → timer_ready id h1 →
    wp (exec timervec) h1 (λ _ h2,
      (∀ r, regs h2 r = regs h1 r) ∧ pc h2 = csrs h1 mepc ∧ csrs h2 sip = 2 ∧
      timer_ready id h2 ∧
      load64 (pmem h2) (CLINT_MTIMECMP id) = u64 (load64 (pmem h1) (CLINT_MTIMECMP id) + 1000000) ∧
      ∀ x, ¬ (scratch_of id ≤ x < scratch_of id + 24) →
           ¬ (CLINT_MTIMECMP id ≤ x < CLINT_MTIMECMP id + 8) → pmem h2 x = pmem h1 x).
Proof using laws.
  intros Hok Hm Hh Hid. split.
  - unfold boot. wp_step. eapply entry_wp; [done..| |done].
    intros h1 Hsp Hc Hm1 Hp Hok1. rewrite <- Hsp, <- Hp. apply start_wp; [done|by rewrite Hc|done].
  - intros h1 Hok1 Hm1 Hr. eapply wp_mono; [by apply (timervec_wp id)|].
    intros [] h2 (H1 & H2 & H3 & H4 & H5).
    split_and!; [done..|by eapply (ticked_ready id h1)| |]; rewrite H5; unfold ticked.
    + apply load64_store64_eq, u64_range.
    + intros x Hx Hx'. by rewrite !store64_out by lia.
Qed.

(** ** The interrupt controller *)

(** By the PLIC's documentation, interrupt [irq] is delivered to a hart when the
    hart enables it and its priority is above the hart's threshold. *)
Definition delivered (h : hart) (hart irq : Z) : bool :=
  Z.testbit (load32 (pmem h) (PLIC_SENABLE hart)) irq &&
  (load32 (pmem h) (PLIC_SPRIORITY hart) <? load32 (pmem h) (PLIC + irq * 4)).

Lemma plic_ready id h :
  0 ≤ id < NCPU → regs h tp = id →
  wp (plicinit;; plicinithart) h (λ _ h',
    delivered h' id UART0_IRQ = true ∧ delivered h' id VIRTIO0_IRQ = true ∧
    ∀ irq, irq ≠ UART0_IRQ → irq ≠ VIRTIO0_IRQ → 0 ≤ irq → delivered h' id irq = false).
Proof.
  intros Hid Htp. unfold plicinit, plicinithart, cpuid, r_tp, write32. wp_steps. usimpl.
  rewrite Htp, i32_small by (unfold NCPU in *; lia). unfold delivered. hsimpl.
  unfold PLIC_SENABLE, PLIC_SPRIORITY, PLIC, UART0_IRQ, VIRTIO0_IRQ, NCPU in *.
  set (m := store32 (store32 (pmem h) _ 1) _ 1).
  rewrite (load32_store32_ne _ _ (_ + 0x2080 + _)) by lia.
  rewrite (load32_store32_eq m) by (by vm_compute).
  rewrite load32_store32_eq by lia. subst m.
  split_and!.
  - rewrite (load32_store32_ne _ _ (0x0c000000 + 10 * 4)), (load32_store32_ne _ _ (0x0c000000 + 10 * 4)) by lia.
    rewrite (load32_store32_ne _ _ (0x0c000000 + 10 * 4)), load32_store32_eq by lia. done.
  - rewrite (load32_store32_ne _ _ (0x0c000000 + 1 * 4)), (load32_store32_ne _ _ (0x0c000000 + 1 * 4)) by lia.
    rewrite load32_store32_eq by lia. done.
  - intros irq H1 H2 Hp. rewrite Z.lor_spec, !Z.shiftl_spec by lia.
    change 1 with (2 ^ 0). rewrite !Z.pow2_bits_false by lia. done.
Qed.

End timer.

(** A kernel image, and a hart out of reset. *)
#[global] Instance demo_image : BootImage :=
  { stack0 := 0x80010000; timer_scratch := 0x80020000; main_addr := 0x80001000; timervec_addr := 0x80002000 }.
#[global] Instance demo_boot_laws : BootLaws.
Proof. split; by vm_compute. Qed.

Lemma boot_timer_witness : wp boot (demo_hart 3 Machine (λ _, 0)) (λ _ h', regs h' sp = 0x80014000 ∧ timer_ready 3 h').
Proof.
  refine (wp_mono _ _ _ _ (proj1 (boot_timer 3 (demo_hart 3 Machine (λ _, 0)) (demo_hart_ok 3 Machine (λ _, 0) _ _) eq_refl eq_refl _)) _);
    [by vm_compute|done|by vm_compute|]. cbv beta.
  intros [] h' (_ & _ & _ & Hsp & _ & Ht & _). split; [exact Hsp|exact Ht].
Defined.
