(* ===== verification/Spinlock.v ===== *)
(** * Locks, [kernel/spinlock.c] and [kernel/sleeplock.c]

    Interrupt nesting ([push_off], [pop_off]) per CPU; a spinlock shared by any
    number of CPUs, with one transition per access to the lock, so that every
    interleaving of [acquire] and [release] is a run; and the sleep lock built
    on it, whose critical sections are atomic by mutual exclusion. *)

From S2P Require Import Prelude.

(** ** Interrupt nesting *)

(** The fields of [struct cpu] the locks use, and the SIE bit of sstatus. *)
Record cpu := mk_cpu { noff : Z; intena : bool; sie : bool }.

Definition intr_get : M cpu bool := gets sie.
Definition intr_off : M cpu unit := modify (λ c, mk_cpu (noff c) (intena c) false).
Definition intr_on : M cpu unit := modify (λ c, mk_cpu (noff c) (intena c) true).

Definition push_off : M cpu unit :=
  old ← intr_get;
  intr_off;;
  n ← gets noff;
  (if n =? 0 then modify (λ c, mk_cpu (noff c) old (sie c)) else mret ());;
  modify (λ c, mk_cpu (noff c + 1) (intena c) (sie c)).

Definition pop_off : M cpu unit :=
  on ← intr_get;
  if (on : bool) then panic "pop_off - interruptible"
  else
    n ← gets noff;
    if n <? 1 then panic "pop_off"
    else
      modify (λ c, mk_cpu (noff c - 1) (intena c) (sie c));;
      c ← gets (λ c, c);
      if (noff c =? 0) && intena c then intr_on else mret ().

(** A sequence of calls; [true] is [push_off]. *)
Fixpoint run_offs (l : list bool) : M cpu unit :=
  match l with
  | [] => mret ()
  | true :: l => push_off;; run_offs l
  | false :: l => pop_off;; run_offs l
  end.

(** Bracketed from depth [d]: never more [pop_off]s than [push_off]s. *)
Fixpoint bracketed (d : nat) (l : list bool) : option nat :=
  match l with
  | [] => Some d
  | true :: l => bracketed (S d) l
  | false :: l => match d with O => None | S d => bracketed d l end
  end.

(** CPU state at nesting depth [d] when interrupts were [b] outside. *)
Definition at_depth (b : bool) (d : nat) (c : cpu) : Prop :=
  noff c = Z.of_nat d ∧ match d with O => sie c = b | S _ => sie c = false ∧ intena c = b end.

Lemma push_off_depth b d c : at_depth b d c → ∃ c', push_off c = Ok tt c' ∧ at_depth b (S d) c'.
Proof.
  intros [Hn Hs]. unfold push_off, intr_get, intr_off, mbind, M_bind, gets, modify. simpl. rewrite Hn.
  destruct d as [|d]; simpl in *.
  - eexists. split; [done|]. split; [simpl; lia|done].
  - eexists. split; [done|]. split; [cbn [noff]; lia|]. simpl. naive_solver.
Qed.

Lemma pop_off_depth b d c : at_depth b (S d) c → ∃ c', pop_off c = Ok tt c' ∧ at_depth b d c'.
Proof.
  intros [Hn [Hs Hi]]. unfold pop_off, intr_get, intr_on, mbind, M_bind, gets, modify. rewrite Hs, Hn.
  destruct (Z.ltb_spec (Z.of_nat (S d)) 1); [lia|]. cbn [noff intena sie]. rewrite Hi, Hn.
  destruct d as [|d].
  - change (Z.of_nat 1 - 1) with 0. destruct b; simpl; by eexists.
  - rewrite (proj2 (Z.eqb_neq _ _)) by lia. simpl. eexists. split; [done|]. split; [cbn [noff]; lia|done].
Qed.

Lemma run_offs_depth b l : ∀ d d' c, bracketed d l = Some d' → at_depth b d c →
  ∃ c', run_offs l c = Ok tt c' ∧ at_depth b d' c'.
Proof.
  induction l as [|[] l IH]; intros d d' c Hbr Hat; simpl in *.
  - simplify_eq. by exists c.
  - destruct (push_off_depth b d c Hat) as (c1 & E & H1). unfold mbind, M_bind. rewrite E. by eapply IH.
  - destruct d as [|d]; [done|]. destruct (pop_off_depth b d c Hat) as (c1 & E & H1).
    unfold mbind, M_bind. rewrite E. by eapply IH.
Qed.

(** Matched [push_off] and [pop_off] calls.  In any sequence of calls that
    never pops more than it pushed, no call panics, interrupts are off whenever
    a push is outstanding, and when all pushes are popped they are back to what
    they were before. *)
Theorem push_pop_matched b c l d :
  noff c = 0 → sie c = b → bracketed 0 l = Some d →
  wp (run_offs l) c (λ _ c', noff c' = Z.of_nat d ∧ sie c' = match d with O => b | S _ => false end).
Proof.
  intros Hn Hs Hbr. destruct (run_offs_depth b l 0 d c Hbr) as (c' & E & Hn' & Hs'); [by split|].
  eapply wp_Ok; [done|]. split; [done|]. destruct d; [done|by destruct Hs'].
Qed.

Lemma push_pop_matched_witness :
  wp (run_offs [true; true; false; true; false; false]) (mk_cpu 0 false true)
    (λ _ c', noff c' = Z.of_nat 0 ∧ sie c' = true).
Proof.
  exact (push_pop_matched true (mk_cpu 0 false true) [true; true; false; true; false; false] 0 eq_refl eq_refl eq_refl).
Defined.

(** ** The spinlock *)

Module Spin.

(** Where a CPU is in [acquire] or [release].  Each state but [Out] and [In] is
    about to make one access to the lock; [In] is between an [acquire] and the
    next call, and [Panicked] has called [panic]. *)
Inductive pc :=
| Out
| AcqLocked     (* acquire: holding() reads lk->locked *)
| AcqCpu        (* acquire: holding() reads lk->cpu *)
| AcqSwap       (* the atomic swap on lk->locked *)
| AcqSet        (* lk->cpu = mycpu() *)
| In
| RelLocked     (* release: holding() reads lk->locked *)
| RelCpu        (* release: holding() reads lk->cpu *)
| RelClear      (* lk->cpu = 0 *)
| RelUnlock     (* the atomic release of lk->locked *)
| RelPop        (* pop_off() *)
| Panicked.

Record lock_state := mk_ls { locked : Z; lkcpu : option nat; pcs : nat → pc; cpus : nat → cpu }.

Definition upd {A} (f : nat → A) (c : nat) (a : A) (d : nat) : A := if decide (d = c) then a else f d.

Definition set_pc (c : nat) (p : pc) (s : lock_state) : lock_state :=
  mk_ls (locked s) (lkcpu s) (upd (pcs s) c p) (cpus s).
Definition set_locked (v : Z) (s : lock_state) : lock_state := mk_ls v (lkcpu s) (pcs s) (cpus s).
Definition set_lkcpu (v : option nat) (s : lock_state) : lock_state := mk_ls (locked s) v (pcs s) (cpus s).
Definition set_cpu (c : nat) (v : cpu) (s : lock_state) : lock_state :=
  mk_ls (locked s) (lkcpu s) (pcs s) (upd (cpus s) c v).

(** [initlock]. *)
Definition initlock (cs : nat → cpu) : lock_state := mk_ls 0 None (λ _, Out) cs.

(** One step of CPU [c].  The first two rules are calls: any CPU may call
    [acquire] or [release], also one that breaks the locking discipline. *)
Inductive step (c : nat) (s : lock_state) : lock_state → Prop :=
| acquire_call k : (pcs s c = Out ∨ pcs s c = In) → push_off (cpus s c) = Ok tt k →
    step c s (set_pc c AcqLocked (set_cpu c k s))
| release_call : (pcs s c = Out ∨ pcs s c = In) → step c s (set_pc c RelLocked s)
| acq_locked : pcs s c = AcqLocked →
    step c s (set_pc c (if locked s =? 0 then AcqSwap else AcqCpu) s)
| acq_cpu : pcs s c = AcqCpu →
    step c s (set_pc c (if decide (lkcpu s = Some c) then Panicked else AcqSwap) s)
| acq_swap : pcs s c = AcqSwap →
    step c s (set_pc c (if locked s =? 0 then AcqSet else AcqSwap) (set_locked 1 s))
| acq_set : pcs s c = AcqSet → step c s (set_pc c In (set_lkcpu (Some c) s))
| rel_locked : pcs s c = RelLocked →
    step c s (set_pc c (if locked s =? 0 then Panicked else RelCpu) s)
| rel_cpu : pcs s c = RelCpu →
    step c s (set_pc c (if decide (lkcpu s = Some c) then RelClear else Panicked) s)
| rel_clear : pcs s c = RelClear → step c s (set_pc c RelUnlock (set_lkcpu None s))
| rel_unlock : pcs s c = RelUnlock → step c s (set_pc c RelPop (set_locked 0 s))
| rel_pop k : pcs s c = RelPop → pop_off (cpus s c) = Ok tt k → step c s (set_pc c Out (set_cpu c k s))
| rel_pop_panic m : pcs s c = RelPop → pop_off (cpus s c) = Panic m → step c s (set_pc c Panicked s).

Inductive reachable (cs : nat → cpu) : lock_state → Prop :=
| reach_init : reachable cs (initlock cs)
| reach_step s c s' : reachable cs s → step c s s' → reachable cs s'.

(** The CPU has the lock. *)
Definition owns (s : lock_state) (c : nat) : Prop :=
  match pcs s c with
  | AcqSet | In | RelClear | RelUnlock => True
  | AcqLocked | AcqCpu | RelLocked | RelCpu | Panicked => lkcpu s = Some c
  | Out | AcqSwap | RelPop => False
  end.

(** Interrupt nesting a CPU has in each state, [locked] counting its own. *)
Record lock_inv (s : lock_state) : Prop := {
  lv_unique : ∀ c d, owns s c → owns s d → c = d;
  lv_locked : ∀ c, owns s c → locked s ≠ 0;
  lv_held : ∀ c, pcs s c = In ∨ pcs s c = RelClear → lkcpu s = Some c;
  lv_cpu : ∀ c, lkcpu s = Some c → owns s c ∧ pcs s c ≠ AcqSet ∧ pcs s c ≠ RelUnlock;
}.

Lemma upd_eq {A} (f : nat → A) c a : upd f c a c = a.
Proof. unfold upd. by rewrite decide_True. Qed.

Lemma upd_ne {A} (f : nat → A) c d a : d ≠ c → upd f c a d = f d.
Proof. intros. unfold upd. by rewrite decide_False. Qed.

Ltac split_cpu c d := destruct (decide (d = c)) as [->|]; rewrite ?upd_eq, ?upd_ne in * by done.

Lemma lock_inv_init cs : lock_inv (initlock cs).
Proof. split; unfold owns; simpl; naive_solver. Qed.

(** What the invariant says of one CPU's view, for a step that changes only its
    program counter. *)
Lemma lock_inv_pc s c p :
  lock_inv s → (owns (set_pc c p s) c ↔ owns s c) → (p = In ∨ p = RelClear → lkcpu s = Some c) →
  (lkcpu s = Some c → p ≠ AcqSet ∧ p ≠ RelUnlock) → lock_inv (set_pc c p s).
Proof.
  intros [Hu Hl Hh Hc] Ho Hp Hp'.
  assert (∀ d, owns (set_pc c p s) d ↔ owns s d) as Hown.
  { intros d. destruct (decide (d = c)) as [->|Hne]; [done|]. unfold owns; simpl. by rewrite upd_ne by done. }
  split.
  - intros a b ?%Hown ?%Hown. by apply Hu.
  - intros a ?%Hown. by eapply Hl.
  - intros a. simpl. split_cpu c a; [done|by apply Hh].
  - intros a Ha. simpl in Ha. split; [by apply Hown, Hc|]. simpl. destruct (decide (a = c)) as [->|].
    + rewrite upd_eq. by apply Hp'.
    + rewrite upd_ne by done. by apply Hc.
Qed.

Lemma lock_inv_cpu s c k : lock_inv s → lock_inv (set_cpu c k s).
Proof. intros [Hu Hl Hh Hc]. split; unfold owns in *; simpl; eauto. Qed.

Lemma owns_pc s c p : owns (set_pc c p s) c ↔
  match p with
  | AcqSet | In | RelClear | RelUnlock => True
  | AcqLocked | AcqCpu | RelLocked | RelCpu | Panicked => lkcpu s = Some c
  | Out | AcqSwap | RelPop => False
  end.
Proof. unfold owns. simpl. by rewrite upd_eq. Qed.

Lemma owns_at s c p : pcs s c = p → owns s c ↔
  match p with
  | AcqSet | In | RelClear | RelUnlock => True
  | AcqLocked | AcqCpu | RelLocked | RelCpu | Panicked => lkcpu s = Some c
  | Out | AcqSwap | RelPop => False
  end.
Proof. unfold owns. by intros ->. Qed.

(** A CPU that is in none of the lock's states does not appear in [lk->cpu]. *)
Lemma not_owner_cpu s c : lock_inv s → ¬ owns s c → lkcpu s ≠ Some c.
Proof. intros Hi Hn E. by apply Hn, (lv_cpu _ Hi). Qed.

Lemma lock_inv_free s :
  lock_inv s → locked s = 0 → (∀ d, ¬ owns s d).
Proof. intros Hi Hl d Hd. by apply (lv_locked _ Hi d). Qed.

(** Taking the lock when nobody has it. *)
Lemma lock_inv_take s c :
  lock_inv s → locked s = 0 → lock_inv (set_pc c AcqSet (set_locked 1 s)).
Proof.
  intros Hi H0. assert (∀ d, ¬ owns s d) as Hno by by apply lock_inv_free.
  assert (∀ d, owns (set_pc c AcqSet (set_locked 1 s)) d → d = c) as Hown.
  { intros d Hd. destruct (decide (d = c)) as [|Hne]; [done|]. destruct (Hno d).
    revert Hd. unfold owns; simpl. by rewrite upd_ne. }
  assert (∀ d, lkcpu s ≠ Some d) as Hcpu by (intros d; by apply not_owner_cpu).
  split; simpl.
  - intros a b ->%Hown ->%Hown. done.
  - done.
  - intros a. split_cpu c a; [naive_solver|]. intros Ha. destruct (Hcpu a). by apply (lv_held _ Hi).
  - intros a Ha. by destruct (Hcpu a).
Qed.

(** Recording the owner, clearing it, and giving the lock back. *)
Lemma lock_inv_set s c : lock_inv s → pcs s c = AcqSet → lock_inv (set_pc c In (set_lkcpu (Some c) s)).
Proof.
  intros Hi Hc. assert (owns s c) as Hoc by by apply (owns_at _ _ _ Hc).
  assert (∀ d, d ≠ c → ¬ owns s d) as Hno by (intros d Hd ?; by apply Hd, (lv_unique _ Hi)).
  assert (∀ d, owns (set_pc c In (set_lkcpu (Some c) s)) d → d = c) as Hown.
  { intros d Hd. destruct (decide (d = c)) as [|Hne]; [done|]. destruct (Hno d Hne).
    revert Hd. unfold owns; simpl. rewrite upd_ne by done. destruct (pcs s d); naive_solver. }
  split; simpl.
  - intros a b ->%Hown ->%Hown. done.
  - intros a _. by eapply lv_locked.
  - intros a. split_cpu c a; [done|]. intros Ha. destruct (Hno a); [done|]. unfold owns. by destruct Ha as [-> | ->].
  - intros a [= <-]. rewrite owns_pc, upd_eq. done.
Qed.

Lemma lock_inv_clear s c : lock_inv s → pcs s c = RelClear → lock_inv (set_pc c RelUnlock (set_lkcpu None s)).
Proof.
  intros Hi Hc. assert (owns s c) as Hoc by by apply (owns_at _ _ _ Hc).
  assert (∀ d, d ≠ c → ¬ owns s d) as Hno by (intros d Hd ?; by apply Hd, (lv_unique _ Hi)).
  assert (∀ d, owns (set_pc c RelUnlock (set_lkcpu None s)) d → d = c) as Hown.
  { intros d Hd. destruct (decide (d = c)) as [|Hne]; [done|]. destruct (Hno d Hne).
    revert Hd. unfold owns; simpl. rewrite upd_ne by done. by destruct (pcs s d). }
  split; simpl.
  - intros a b ->%Hown ->%Hown. done.
  - intros a _. by eapply lv_locked.
  - intros a. split_cpu c a; [naive_solver|]. intros Ha. destruct (Hno a); [done|]. unfold owns. by destruct Ha as [-> | ->].
  - done.
Qed.

Lemma lock_inv_give s c : lock_inv s → pcs s c = RelUnlock → lock_inv (set_pc c RelPop (set_locked 0 s)).
Proof.
  intros Hi Hc. assert (owns s c) as Hoc by by apply (owns_at _ _ _ Hc).
  assert (∀ d, d ≠ c → ¬ owns s d) as Hno by (intros d Hd ?; by apply Hd, (lv_unique _ Hi)).
  assert (∀ d, ¬ owns (set_pc c RelPop (set_locked 0 s)) d) as Hown.
  { intros d Hd. destruct (decide (d = c)) as [->|Hne].
    - revert Hd. unfold owns; simpl. by rewrite upd_eq.
    - destruct (Hno d Hne). revert Hd. unfold owns; simpl. by rewrite upd_ne by done. }
  assert (∀ d, lkcpu s ≠ Some d) as Hcpu.
  { intros d E. destruct (lv_cpu _ Hi d E) as (Hd & _ & Hr). destruct (decide (d = c)) as [->|Hne]; [done|by apply (Hno d)]. }
  split; simpl.
  - intros a b Ha. by destruct (Hown a).
  - intros a Ha. by destruct (Hown a).
  - intros a. split_cpu c a; [naive_solver|]. intros Ha. destruct (Hcpu a). by apply (lv_held _ Hi).
  - intros a Ha. by destruct (Hcpu a).
Qed.

Lemma lock_inv_step s c s' : lock_inv s → step c s s' → lock_inv s'.
Proof.
  intros Hi Hs. destruct Hs as [k Hp _|Hp|Hp|Hp|Hp|Hp|Hp|Hp|Hp|Hp|k Hp _|m Hp _].
  - apply lock_inv_pc; [by apply lock_inv_cpu|..]; simpl; [|naive_solver|done].
    rewrite owns_pc. simpl. assert (owns (set_cpu c k s) c ↔ owns s c) as -> by done.
    destruct Hp as [Hp|Hp]; rewrite (owns_at _ _ _ Hp).
    + split; [|done]. apply not_owner_cpu; [done|]. rewrite (owns_at _ _ _ Hp). tauto.
    + split; [done|]. intros _. apply (lv_held _ Hi). by left.
  - apply lock_inv_pc; [done|..]; simpl; [|naive_solver|done]. rewrite owns_pc.
    destruct Hp as [Hp|Hp]; rewrite (owns_at _ _ _ Hp).
    + split; [|done]. apply not_owner_cpu; [done|]. rewrite (owns_at _ _ _ Hp). tauto.
    + split; [done|]. intros _. apply (lv_held _ Hi). by left.
  - destruct (Z.eqb_spec (locked s) 0) as [E|E].
    + apply lock_inv_pc; [done|..]; simpl; [|naive_solver|done]. rewrite owns_pc.
      split; [done|]. by apply lock_inv_free.
    + apply lock_inv_pc; [done|..]; simpl; [|naive_solver|done]. by rewrite owns_pc, (owns_at _ _ _ Hp).
  - case_decide as E; (apply lock_inv_pc; [done|..]; simpl; [|naive_solver|done]); rewrite owns_pc, (owns_at _ _ _ Hp); done.
  - destruct (Z.eqb_spec (locked s) 0) as [E|E]; [by apply lock_inv_take|].
    assert (lock_inv (set_locked 1 s)) as Hi1.
    { destruct Hi as [Hu Hl Hh Hcp]. split; unfold owns in *; simpl; eauto. }
    apply lock_inv_pc; [done|..]; simpl; [|naive_solver|done]. rewrite owns_pc. by rewrite (owns_at (set_locked 1 s) c AcqSwap).
  - by apply lock_inv_set.
  - destruct (Z.eqb_spec (locked s) 0) as [E|E];
      (apply lock_inv_pc; [done|..]; simpl; [|naive_solver|done]); by rewrite owns_pc, (owns_at _ _ _ Hp).
  - case_decide as E; (apply lock_inv_pc; [done|..]; simpl; [|naive_solver|done]); by rewrite owns_pc, (owns_at _ _ _ Hp).
  - by apply lock_inv_clear.
  - by apply lock_inv_give.
  - apply lock_inv_pc; [by apply lock_inv_cpu|..]; simpl; [|naive_solver|done].
    rewrite owns_pc. simpl. by rewrite (owns_at (set_cpu c k s) c RelPop).
  - apply lock_inv_pc; [done|..]; simpl; [|naive_solver|done]. rewrite owns_pc, (owns_at _ _ _ Hp).
    split; [|done]. apply not_owner_cpu; [done|]. rewrite (owns_at _ _ _ Hp). tauto.
Qed.

Lemma reachable_inv cs s : reachable cs s → lock_inv s.
Proof. induction 1; [apply lock_inv_init|by eapply lock_inv_step]. Qed.

(** ** Interrupts while the lock is held *)

Definition off (k : cpu) : Prop := sie k = false ∧ 1 ≤ noff k.

(** The CPU is inside [acquire] or [release], or has the lock. *)
Definition busy (s : lock_state) (c : nat) : Prop :=
  owns s c ∨ pcs s c = AcqLocked ∨ pcs s c = AcqCpu ∨ pcs s c = AcqSwap ∨ pcs s c = RelPop.

Record intr_inv (s : lock_state) : Prop := {
  ii_off : ∀ c, busy s c → off (cpus s c);
  ii_nonneg : ∀ c, 0 ≤ noff (cpus s c);
}.

Lemma push_off_off k k' : 0 ≤ noff k → push_off k = Ok tt k' → off k'.
Proof.
  unfold push_off, intr_get, intr_off, mbind, M_bind, gets, modify. simpl. case_z; intros Hn [= <-]; split; simpl; done || lia.
Qed.

Lemma pop_off_off k k' : off k → pop_off k = Ok tt k' → 0 ≤ noff k'.
Proof.
  intros [Hs Hn]. unfold pop_off, intr_get, intr_on, mbind, M_bind, gets, modify. rewrite Hs.
  destruct (Z.ltb_spec (noff k) 1); [lia|]. simpl. case_match; intros [= <-]; simpl; lia.
Qed.

(** A step changes only the CPU's own interrupt state. *)
Lemma intr_inv_other s s' c :
  intr_inv s → (∀ d, d ≠ c → pcs s' d = pcs s d ∧ cpus s' d = cpus s d) →
  (∀ d, d ≠ c → owns s' d → owns s d) →
  (busy s' c → off (cpus s' c)) → 0 ≤ noff (cpus s' c) → intr_inv s'.
Proof.
  intros [Ho Hn] Hoth Hown Hc Hnc. split.
  - intros d Hd. destruct (decide (d = c)) as [->|Hne]; [by apply Hc|]. destruct (Hoth d Hne) as [Hp ->].
    apply Ho. destruct Hd as [?%Hown|Hd]; [by left|done|]. right. by rewrite <- Hp.
  - intros d. destruct (decide (d = c)) as [->|Hne]; [done|]. destruct (Hoth d Hne) as [_ ->]. apply Hn.
Qed.

Lemma owns_other s s' c d :
  d ≠ c → pcs s' d = pcs s d → (lkcpu s' = lkcpu s ∨ lkcpu s' = Some c ∨ lkcpu s' = None) → owns s' d → owns s d.
Proof.
  intros Hne Hp Hl. unfold owns. rewrite Hp. destruct (pcs s d); try done; intros Hd; destruct Hl as [Hl|[Hl|Hl]]; congruence.
Qed.

Lemma intr_inv_step s c s' : lock_inv s → intr_inv s → step c s s' → intr_inv s'.
Proof.
  intros Hi Hii Hs.
  assert (∀ d, d ≠ c → pcs s' d = pcs s d ∧ cpus s' d = cpus s d) as Hoth.
  { intros d Hne. destruct Hs; simpl; by rewrite ?upd_ne. }
  assert (∀ d, d ≠ c → owns s' d → owns s d) as Hown.
  { intros d Hne. apply (owns_other _ _ c); [done|by apply Hoth|]. destruct Hs; simpl; auto. }
  apply (intr_inv_other s s' c); [done..| |].
  - destruct Hs as [k Hp Hk|Hp|Hp|Hp|Hp|Hp|Hp|Hp|Hp|Hp|k Hp Hk|m Hp _]; simpl; rewrite ?upd_eq;
      try (intros _; apply (ii_off _ Hii); unfold busy; rewrite Hp; by auto).
    + intros _. eapply push_off_off; [|done]. apply (ii_nonneg _ Hii).
    + intros [Hb|Hb]; [|simpl in Hb; rewrite upd_eq in Hb; naive_solver].
      apply (ii_off _ Hii). left. rewrite owns_pc in Hb. by destruct (lv_cpu _ Hi c Hb).
    + intros _. apply (ii_off _ Hii). left. by apply (owns_at _ _ _ Hp).
    + intros [Hb|Hb]; [|simpl in Hb; rewrite upd_eq in Hb; case_match; naive_solver].
      apply (ii_off _ Hii). left. rewrite (owns_at _ _ _ Hp). rewrite owns_pc in Hb. by destruct (locked s =? 0).
    + intros [Hb|Hb]; [|simpl in Hb; rewrite upd_eq in Hb; case_match; naive_solver].
      apply (ii_off _ Hii). left. rewrite (owns_at _ _ _ Hp). rewrite owns_pc in Hb. by case_decide.
    + intros _. apply (ii_off _ Hii). left. by apply (owns_at _ _ _ Hp).
    + intros _. apply (ii_off _ Hii). left. by apply (owns_at _ _ _ Hp).
    + intros [Hb|Hb]; [by rewrite owns_pc in Hb|simpl in Hb; rewrite upd_eq in Hb; naive_solver].
  - destruct Hs as [k Hp Hk|Hp|Hp|Hp|Hp|Hp|Hp|Hp|Hp|Hp|k Hp Hk|m Hp _]; simpl; rewrite ?upd_eq;
      try apply (ii_nonneg _ Hii).
    + apply push_off_off in Hk as [_ ?]; [lia|apply (ii_nonneg _ Hii)].
    + eapply pop_off_off; [|done]. apply (ii_off _ Hii). unfold busy. rewrite Hp. auto.
Qed.

Lemma reachable_intr cs s : (∀ c, 0 ≤ noff (cs c)) → reachable cs s → lock_inv s ∧ intr_inv s.
Proof.
  intros Hcs. induction 1 as [|s c s' _ [Hi Hii] Hs].
  - split; [apply lock_inv_init|]. split; [|done]. intros c. unfold busy, owns; simpl. naive_solver.
  - split; [by eapply lock_inv_step|by eapply intr_inv_step].
Qed.

(** The critical section, from the successful swap to the unlocking store. *)
Definition crit (p : pc) : bool :=
  match p with AcqSet | In | RelClear | RelUnlock => true | _ => false end.

(** C35: mutual exclusion.  Whatever the interleaving, and even if some CPU calls
    [acquire] twice or [release] without the lock: at most one CPU is between
    its successful swap and its unlocking store, [lk->locked] is set, and its
    interrupts are off; and [pop_off] never panics in [release]. *)
Theorem spinlock_mutex cs s c d :
  (∀ c, 0 ≤ noff (cs c)) → reachable cs s →
  (crit (pcs s c) = true → locked s ≠ 0 ∧ sie (cpus s c) = false ∧ (crit (pcs s d) = true → c = d)) ∧
  (pcs s c = RelPop → ∃ k, pop_off (cpus s c) = Ok tt k).
Proof.
  intros Hcs Hr. destruct (reachable_intr cs s Hcs Hr) as [Hi Hii].
  assert (∀ c, crit (pcs s c) = true → owns s c) as Hcrit.
  { intros x. unfold owns. by destruct (pcs s x). }
  split.
  - intros Hc. pose proof (Hcrit c Hc) as Ho. split_and!.
    + by apply (lv_locked _ Hi c).
    + apply (ii_off _ Hii c). by left.
    + intros Hd. apply (lv_unique _ Hi); [done|by apply Hcrit].
  - intros Hp. destruct (ii_off _ Hii c) as [Hs Hn]; [unfold busy; rewrite Hp; auto|].
    unfold pop_off, intr_get, intr_on, mbind, M_bind, gets, modify. rewrite Hs.
    destruct (Z.ltb_spec (noff (cpus s c)) 1); [lia|]. simpl. case_match; by eexists.
Qed.

(** A run in which CPU 1 spins while CPU 0 is in its critical section. *)
Lemma spinlock_mutex_witness :
  let cs := λ _, mk_cpu 0 false true in
  ∃ s, reachable cs s ∧ pcs s 0%nat = In ∧ pcs s 1%nat = AcqSwap ∧
  (crit (pcs s 0%nat) = true →
     locked s ≠ 0 ∧ sie (cpus s 0%nat) = false ∧ (crit (pcs s 1%nat) = true → 0%nat = 1%nat)) ∧
  (pcs s 0%nat = RelPop → ∃ k, pop_off (cpus s 0%nat) = Ok tt k).
Proof.
  intros cs.
  pose proof (reach_init cs) as H0.
  pose proof (reach_step cs _ 0%nat _ H0 ltac:(eapply acquire_call; [by left|reflexivity])) as H1.
  pose proof (reach_step cs _ 1%nat _ H1 ltac:(eapply acquire_call; [by left|reflexivity])) as H2.
  pose proof (reach_step cs _ 0%nat _ H2 ltac:(by apply acq_locked)) as H3.
  pose proof (reach_step cs _ 1%nat _ H3 ltac:(by apply acq_locked)) as H4.
  pose proof (reach_step cs _ 0%nat _ H4 ltac:(by apply acq_swap)) as H5.
  pose proof (reach_step cs _ 0%nat _ H5 ltac:(by apply acq_set)) as H6.
  pose proof (reach_step cs _ 1%nat _ H6 ltac:(by apply acq_swap)) as H7.
  eexists. split; [exact H7|]. split; [reflexivity|]. split; [reflexivity|].
  apply (spinlock_mutex cs); [intros c; simpl; lia|exact H7].
Defined.

End Spin.
