(* ===== verification/Sleeplock.v ===== *)
(** * Sleep locks and [sleep]/[wakeup], [kernel/sleeplock.c] and [kernel/proc.c]

    Threads that call [acquiresleep] and [releasesleep] on one sleep lock, with
    the bodies of [sleep] and [wakeup] down to the individual lock operations:
    [lk->lk], the [p->lock] of every process, and the switch to the scheduler.
    Shown for every interleaving: mutual exclusion, that no wakeup is lost
    between the test of [lk->locked] and the switch, and that the threads
    cannot all be stuck. *)

From S2P Require Import Prelude Riscv Spinlock.

Module Sleep.
Import Spin.

(** Where a thread is.  [Wake k] is about to look at process [k]. *)
Inductive pc :=
  | Idle            (* outside *)
  | AcqLk           (* acquiresleep: acquire(&lk->lk) *)
  | AcqTest         (* while (lk->locked) *)
  | SleepLock       (* sleep: acquire(&p->lock) *)
  | SleepRel        (* sleep: release(lk) *)
  | SleepSet        (* sleep: p->chan = chan; p->state = SLEEPING *)
  | Switch          (* sched; the scheduler then releases p->lock *)
  | Away            (* switched away, p->lock released *)
  | Resumed         (* back with p->lock: p->chan = 0; release(&p->lock) *)
  | Reacq           (* sleep: acquire(lk) *)
  | Take            (* lk->locked = 1; lk->pid = myproc()->pid *)
  | AcqDone         (* release(&lk->lk) *)
  | Crit            (* the caller has the sleep lock *)
  | RelLk           (* releasesleep: acquire(&lk->lk) *)
  | Clear           (* lk->locked = 0; lk->pid = 0 *)
  | Wake (k : nat)      (* wakeup: p = &proc[k]; p != myproc(), acquire(&p->lock) *)
  | WakeTest (k : nat)  (* if (p->state == SLEEPING && p->chan == chan) p->state = RUNNABLE *)
  | WakeRel (k : nat)   (* release(&p->lock) *)
  | RelDone.        (* release(&lk->lk) *)
#[global] Instance pc_eq_dec : EqDecision pc.
Proof. solve_decision. Defined.

(** [asleep i]: process [i] has [state == SLEEPING] and this lock as channel. *)
Record state := mk_state {
  lk : option nat;             (* the holder of lk->lk *)
  locked : bool;
  pid : option nat;
  plock : nat → option nat;    (* the holder of proc[i].lock *)
  asleep : nat → bool;
  pcs : nat → pc;
}.

Definition initsleeplock : state := mk_state None false None (λ _, None) (λ _, false) (λ _, Idle).

Definition goto (i : nat) (p : pc) (s : state) := mk_state (lk s) (locked s) (pid s) (plock s) (asleep s) (upd (pcs s) i p).
Definition set_lk v (s : state) := mk_state v (locked s) (pid s) (plock s) (asleep s) (pcs s).
Definition set_locked v w (s : state) := mk_state (lk s) v w (plock s) (asleep s) (pcs s).
Definition set_plock k v (s : state) := mk_state (lk s) (locked s) (pid s) (upd (plock s) k v) (asleep s) (pcs s).
Definition set_asleep k v (s : state) := mk_state (lk s) (locked s) (pid s) (plock s) (upd (asleep s) k v) (pcs s).

(** Taking a spin lock: possible when it is free. *)
Definition take_lk (i : nat) (p : pc) (s : state) : option state :=
  match lk s with None => Some (goto i p (set_lk (Some i) s)) | Some _ => None end.
Definition take_p (i k : nat) (p : pc) (s : state) : option state :=
  match plock s k with None => Some (goto i p (set_plock k (Some i) s)) | Some _ => None end.

Definition nproc : nat := Z.to_nat NPROC.

(** One step of thread [i], if it is not blocked. *)
Definition step (i : nat) (s : state) : option state :=
  if negb (i <? nproc)%nat then None else
  match pcs s i with
  | Idle => Some (goto i AcqLk s)
  | AcqLk => take_lk i AcqTest s
  | AcqTest => Some (goto i (if locked s then SleepLock else Take) s)
  | SleepLock => take_p i i SleepRel s
  | SleepRel => Some (goto i SleepSet (set_lk None s))
  | SleepSet => Some (goto i Switch (set_asleep i true s))
  | Switch => Some (goto i Away (set_plock i None s))
  | Away => if asleep s i then None else take_p i i Resumed s
  | Resumed => Some (goto i Reacq (set_plock i None s))
  | Reacq => take_lk i AcqTest s
  | Take => Some (goto i AcqDone (set_locked true (Some i) s))
  | AcqDone => Some (goto i Crit (set_lk None s))
  | Crit => Some (goto i RelLk s)
  | RelLk => take_lk i Clear s
  | Clear => Some (goto i (Wake 0) (set_locked false None s))
  | Wake k =>
      if (nproc <=? k)%nat then Some (goto i RelDone s)
      else if (k =? i)%nat then Some (goto i (Wake (S k)) s)
      else take_p i k (WakeTest k) s
  | WakeTest k => Some (goto i (WakeRel k) (if asleep s k then set_asleep k false s else s))
  | WakeRel k => Some (goto i (Wake (S k)) (set_plock k None s))
  | RelDone => Some (goto i Idle (set_lk None s))
  end.

Inductive reachable : state → Prop :=
  | reach_init : reachable initsleeplock
  | reach_step s i s' : reachable s → step i s = Some s' → reachable s'.

(** [holdingsleep]. *)
Definition holdingsleep (i : nat) (s : state) : bool := locked s && bool_decide (pid s = Some i).

#[local] Opaque nproc.
#[local] Arguments Nat.leb : simpl never.
#[local] Arguments Nat.ltb : simpl never.

(** ** The invariant *)

Definition has_lk (p : pc) : bool :=
  match p with
  | AcqTest | SleepLock | SleepRel | Take | AcqDone | Clear | Wake _ | WakeTest _ | WakeRel _ | RelDone => true
  | _ => false
  end.

(** The process lock that thread [i] holds. *)
Definition has_p (i : nat) (p : pc) : option nat :=
  match p with
  | SleepRel | SleepSet | Switch | Resumed => Some i
  | WakeTest k | WakeRel k => Some k
  | _ => None
  end.

Definition has_sleeplock (p : pc) : bool :=
  match p with AcqDone | Crit | RelLk | Clear => true | _ => false end.

(** Thread [j] is in [wakeup] and has yet to wake process [i]. *)
Definition will_wake (i : nat) (p : pc) : bool :=
  match p with
  | Wake k | WakeTest k => (k <=? i)%nat
  | WakeRel k => (k <? i)%nat
  | _ => false
  end.

Record inv (s : state) : Prop := {
  iv_lk : ∀ i, has_lk (pcs s i) = true ↔ lk s = Some i;
  iv_p : ∀ i k, has_p i (pcs s i) = Some k ↔ plock s k = Some i;
  iv_own : ∀ i, has_sleeplock (pcs s i) = true ↔ locked s = true ∧ pid s = Some i;
  iv_none : locked s = true → is_Some (pid s);
  iv_bound : ∀ i, (i < nproc)%nat ∨ pcs s i = Idle;
  iv_asleep : ∀ i, asleep s i = true → pcs s i = Switch ∨ pcs s i = Away;
  iv_switch : ∀ i, pcs s i = Switch → asleep s i = true;
  iv_tested : ∀ i, pcs s i = SleepLock ∨ pcs s i = SleepRel → locked s = true;
  iv_take : ∀ i, pcs s i = Take → locked s = false;
  iv_wake : ∀ i, asleep s i = true ∨ pcs s i = SleepSet → locked s = false →
    ∃ j, will_wake i (pcs s j) = true;
}.

Lemma inv_init : inv initsleeplock.
Proof. split; simpl; naive_solver. Qed.

(** The cases of [step], with the thread's program counter as [E]. *)
Ltac step_cases Hs E :=
  unfold step in Hs;
  match type of Hs with context [(?i <? nproc)%nat] => destruct (i <? nproc)%nat eqn:Hi; [|discriminate Hs] end;
  cbn [negb] in Hs;
  match type of Hs with context [pcs ?s ?i] => destruct (pcs s i) eqn:E end;
  unfold take_lk, take_p in Hs; repeat case_match; try discriminate Hs; injection Hs as <-.

(** Looks at thread [j], either the one that moved, [i], or another. *)
Ltac at_thread i j :=
  destruct (decide (j = i)) as [->|]; simpl; rewrite ?upd_eq, ?upd_ne by done.

Section preserve.
Context (s s' : state) (i : nat) (Hinv : inv s) (Hs : step i s = Some s').

Lemma step_lk j : has_lk (pcs s' j) = true ↔ lk s' = Some j.
Proof using All.
  pose proof (iv_lk _ Hinv i) as Hi'. pose proof (iv_lk _ Hinv j) as Hj.
  step_cases Hs E; at_thread i j; rewrite ?E in *; simpl in *; intuition congruence.
Qed.

Lemma step_p j k : has_p j (pcs s' j) = Some k ↔ plock s' k = Some j.
Proof using All.
  pose proof (iv_p _ Hinv i) as Hi'. pose proof (iv_p _ Hinv j k) as Hj.
  step_cases Hs E; at_thread i j; try rewrite E in Hi'; try rewrite E in Hj; simpl in *; try done;
    match goal with
    | |- context [upd (plock s) ?m _ k] =>
        pose proof (Hi' m); pose proof (Hi' k); destruct (decide (k = m)) as [->|]; rewrite ?upd_eq, ?upd_ne by done
    end; intuition congruence.
Qed.

Lemma step_own j : has_sleeplock (pcs s' j) = true ↔ locked s' = true ∧ pid s' = Some j.
Proof using All.
  pose proof (iv_own _ Hinv i) as Hi'. pose proof (iv_own _ Hinv j) as Hj. pose proof (iv_take _ Hinv i) as Ht.
  step_cases Hs E; at_thread i j; rewrite ?E in *; simpl in *; intuition congruence.
Qed.

Lemma step_none : locked s' = true → is_Some (pid s').
Proof using All. pose proof (iv_none _ Hinv). step_cases Hs E; simpl; intros; eauto. done.
Qed.

Lemma step_bound j : (j < nproc)%nat ∨ pcs s' j = Idle.
Proof using All.
  pose proof (iv_bound _ Hinv j). step_cases Hs E; apply Nat.ltb_lt in Hi; at_thread i j; auto.
Qed.

(** What a waker changes: [asleep] of a process whose lock it holds. *)
Lemma step_asleep j : asleep s' j = true → pcs s' j = Switch ∨ pcs s' j = Away.
Proof using All.
  pose proof (iv_asleep _ Hinv j) as Hj. pose proof (iv_asleep _ Hinv i) as Hi'.
  step_cases Hs E; at_thread i j; rewrite ?E in *; simpl in *; try (intuition congruence);
    match goal with |- context [upd _ ?k false ?x] => destruct (decide (x = k)) as [->|]; rewrite ?upd_eq, ?upd_ne by done end;
    intuition congruence.
Qed.

Lemma step_switch j : pcs s' j = Switch → asleep s' j = true.
Proof using All.
  pose proof (iv_switch _ Hinv j) as Hj. pose proof (iv_p _ Hinv j j) as Hp. pose proof (iv_p _ Hinv i j) as Hpi.
  step_cases Hs E; at_thread i j; rewrite ?E in *; simpl in *; try done;
    destruct (decide (j = k)) as [->|]; rewrite ?upd_eq, ?upd_ne by done; try done.
  intros Hsw. rewrite Hsw in Hp. simpl in Hp. intuition congruence.
Qed.

Lemma step_tested j : pcs s' j = SleepLock ∨ pcs s' j = SleepRel → locked s' = true.
Proof using All.
  pose proof (iv_tested _ Hinv j) as Hj. pose proof (iv_lk _ Hinv j) as Hlj. pose proof (iv_lk _ Hinv i) as Hli.
  step_cases Hs E; at_thread i j; rewrite ?E in *; simpl in *; try (intuition congruence).
  intros [Hc|Hc]; rewrite Hc in Hlj; simpl in Hlj; intuition congruence.
Qed.

Lemma step_take j : pcs s' j = Take → locked s' = false.
Proof using All.
  pose proof (iv_take _ Hinv j) as Hj. pose proof (iv_lk _ Hinv j) as Hlj. pose proof (iv_lk _ Hinv i) as Hli.
  step_cases Hs E; at_thread i j; rewrite ?E in *; simpl in *; try (intuition congruence).
  intros Hc; rewrite Hc in Hlj; simpl in Hlj; intuition congruence.
Qed.

(** The process that is asleep or about to be was so before the step. *)
Lemma step_waiting j : asleep s' j = true ∨ pcs s' j = SleepSet → locked s = false → asleep s j = true ∨ pcs s j = SleepSet.
Proof using All.
  pose proof (iv_tested _ Hinv i) as Ht.
  step_cases Hs E; at_thread i j; rewrite ?E in *; simpl in *; try (intuition congruence);
    match goal with |- context [upd _ ?k false ?x] => destruct (decide (x = k)) as [->|]; rewrite ?upd_eq, ?upd_ne by done end;
    intuition congruence.
Qed.

Lemma step_wake j : asleep s' j = true ∨ pcs s' j = SleepSet → locked s' = false → ∃ m, will_wake j (pcs s' m) = true.
Proof using All.
  intros Hj Hl. destruct (locked s) eqn:El.
  { exists i. step_cases Hs E; simpl in *; try congruence. by rewrite upd_eq. }
  pose proof (step_waiting j Hj El) as Hj0. destruct (iv_wake _ Hinv j Hj0 El) as [m Hm]. exists m.
  assert (pcs s j ≠ Idle ∧ will_wake j (pcs s j) = false) as [Hidle Hself].
  { destruct Hj0 as [Ha|Ha]; [|by rewrite Ha]. by destruct (iv_asleep _ Hinv j Ha) as [-> | ->]. }
  assert (j < nproc)%nat as Hb by (by destruct (iv_bound _ Hinv j)).
  assert (∀ k, has_p i (pcs s i) = Some k → j = k → j ≠ i → pcs s j ≠ SleepSet) as Hexcl.
  { intros k Hk <- Hne Hc. apply (iv_p _ Hinv) in Hk. assert (plock s j = Some j) by (apply (iv_p _ Hinv); by rewrite Hc). congruence. }
  assert (j ≠ i ∨ m ≠ i) as Hji by (destruct (decide (m = i)) as [->|]; [left; intros ->; congruence|by right]).
  step_cases Hs E; at_thread i m; rewrite ?E in *; simpl in *; try done;
    rewrite ?Nat.leb_le, ?Nat.ltb_lt, ?Nat.eqb_eq in *; try lia.
  - destruct (decide (j = k)) as [->|]; [|lia]. rewrite upd_eq, upd_ne in Hj by (destruct Hji; done).
    destruct Hj as [?|Hj]; [done|]. by destruct (Hexcl k eq_refl eq_refl); [destruct Hji|].
  - destruct (decide (j = k)) as [->|]; [|lia]. rewrite upd_ne in Hj by (destruct Hji; done).
    destruct Hj as [?|Hj]; [congruence|]. by destruct (Hexcl k eq_refl eq_refl); [destruct Hji|].
Qed.

Lemma inv_step : inv s'.
Proof using All.
  split; [apply step_lk|apply step_p|apply step_own|apply step_none|apply step_bound|apply step_asleep|
    apply step_switch|apply step_tested|apply step_take|apply step_wake].
Qed.

End preserve.

Lemma sleep_reachable_inv s : reachable s → inv s.
Proof. induction 1; [apply inv_init|by eapply inv_step]. Qed.

(** ** Mutual exclusion and wakeups *)

(** C36: sleep locks exclude.  In every interleaving, at most one process is
    between the end of its [acquiresleep] and its [releasesleep]; it is the one
    for which [holdingsleep] is true. *)
Theorem sleeplock_mutex s i j :
  reachable s → pcs s i = Crit → holdingsleep i s = true ∧ (pcs s j = Crit ∨ holdingsleep j s = true → i = j).
Proof.
  intros Hinv%sleep_reachable_inv Hi. assert (locked s = true ∧ pid s = Some i) as [Hl Hp] by (apply (iv_own _ Hinv); by rewrite Hi).
  unfold holdingsleep. rewrite Hl, Hp. split; [by apply bool_decide_eq_true|]. intros [Hj|Hj].
  - assert (locked s = true ∧ pid s = Some j) as [_ Hp'] by (apply (iv_own _ Hinv); by rewrite Hj). congruence.
  - apply bool_decide_eq_true in Hj. congruence.
Qed.

(** No wakeup is lost.  A process asleep in [acquiresleep], or one that has
    released [lk->lk] in [sleep] and is about to be, while the sleep lock is
    free: some process is in [releasesleep]'s [wakeup], holds [lk->lk], and has
    not passed it yet. *)
Theorem no_lost_wakeup s i :
  reachable s → asleep s i = true ∨ pcs s i = SleepSet → locked s = false →
  ∃ j, j ≠ i ∧ will_wake i (pcs s j) = true ∧ lk s = Some j.
Proof.
  intros Hinv%sleep_reachable_inv Hi Hl. destruct (iv_wake _ Hinv i Hi Hl) as [j Hj]. exists j. split_and!; [|done|].
  - intros ->. destruct Hi as [Ha|Ha]; [|by rewrite Ha in Hj].
    by destruct (iv_asleep _ Hinv i Ha) as [E|E]; rewrite E in Hj.
  - apply (iv_lk _ Hinv). by destruct (pcs s j).
Qed.

Definition can_step (s : state) (j : nat) : Prop := pcs s j ≠ Idle ∧ is_Some (step j s).

Lemma can_step_intro s j : inv s → pcs s j ≠ Idle →
  is_Some (match pcs s j with
           | AcqLk => take_lk j AcqTest s
           | SleepLock => take_p j j SleepRel s
           | Away => if asleep s j then None else take_p j j Resumed s
           | Reacq => take_lk j AcqTest s
           | RelLk => take_lk j Clear s
           | Wake k => if (nproc <=? k)%nat then Some s else if (k =? j)%nat then Some s else take_p j k (WakeTest k) s
           | _ => Some s
           end) → can_step s j.
Proof.
  intros Hinv Hne Hs. split; [done|]. unfold step. destruct (iv_bound _ Hinv j) as [Hb%Nat.ltb_lt|]; [|done].
  rewrite Hb. cbn [negb]. destruct (pcs s j); try done; repeat case_match; (done || by eexists).
Qed.

(** Whoever holds a process lock can move. *)
Lemma plock_holder_steps s k x : inv s → plock s k = Some x → can_step s x.
Proof.
  intros Hinv Hx%(iv_p _ Hinv). apply can_step_intro; [done|..]; destruct (pcs s x); try done; by eexists.
Qed.

Lemma take_p_or_steps s i k p : inv s → is_Some (take_p i k p s) ∨ ∃ x, can_step s x.
Proof.
  intros Hinv. unfold take_p. destruct (plock s k) as [x|] eqn:E; [right; exists x; by eapply plock_holder_steps|by left; eexists].
Qed.

Lemma lk_holder_steps s h : inv s → lk s = Some h → ∃ x, can_step s x.
Proof.
  intros Hinv Hh%(iv_lk _ Hinv).
  destruct (pcs s h) eqn:E; try done; try (exists h; apply can_step_intro; rewrite ?E; [done|done|by eexists]).
  - destruct (take_p_or_steps s h h SleepRel Hinv) as [Hs|Hs]; [|done].
    exists h. apply can_step_intro; rewrite ?E; done.
  - destruct (take_p_or_steps s h k (WakeTest k) Hinv) as [Hs|Hs]; [|done].
    exists h. apply can_step_intro; rewrite ?E; [done|done|]. repeat case_match; try done; by eexists.
Qed.

(** C37: no deadlock.  While some process is inside [acquiresleep] or
    [releasesleep] and none is in its critical section, some such process can
    take a step: the spin lock, the process locks and the sleeping processes
    are never all waiting for each other. *)
Theorem sleeplock_progress s i :
  reachable s → pcs s i ≠ Idle → (∀ j, pcs s j ≠ Crit) → ∃ j s', pcs s j ≠ Idle ∧ step j s = Some s'.
Proof.
  intros Hinv%sleep_reachable_inv Hi Hcrit. enough (∃ j, can_step s j) as (j & Hj & s' & Hs') by by exists j, s'.
  destruct (lk s) as [h|] eqn:El; [by eapply lk_holder_steps|].
  assert (∀ j, has_lk (pcs s j) = false) as Hno.
  { intros j. destruct (has_lk (pcs s j)) eqn:E; [|done]. apply (iv_lk _ Hinv) in E. congruence. }
  assert (∀ j, pcs s j = AcqLk ∨ pcs s j = Reacq ∨ pcs s j = RelLk → can_step s j) as Htake.
  { intros j Hj. apply can_step_intro; [done|by destruct Hj as [-> |[-> | ->]]|]. unfold take_lk. rewrite El.
    destruct Hj as [-> |[-> | ->]]; by eexists. }
  specialize (Hno i) as Hi'. destruct (pcs s i) eqn:E; try done; try (exists i; by apply Htake; auto);
    try (exists i; apply can_step_intro; rewrite ?E; [done|done|by eexists]).
  destruct (asleep s i) eqn:Ea.
  - destruct (locked s) eqn:Elk.
    + destruct (iv_none _ Hinv Elk) as [x Hx]. assert (has_sleeplock (pcs s x) = true) as Hs by (by apply (iv_own _ Hinv)).
      exists x. apply Htake. specialize (Hno x). specialize (Hcrit x). destruct (pcs s x); try done. auto.
    + destruct (iv_wake _ Hinv i (or_introl Ea) Elk) as [j Hj]. specialize (Hno j). by destruct (pcs s j).
  - destruct (take_p_or_steps s i i Resumed Hinv) as [Hs|Hs]; [|done]. exists i. apply can_step_intro; rewrite ?E, ?Ea; done.
Qed.

(** A run of several threads, for concrete schedules. *)
Fixpoint run (l : list nat) (s : state) : option state :=
  match l with
  | [] => Some s
  | i :: l => match step i s with Some s' => run l s' | None => None end
  end.

Lemma run_reachable l s s' : reachable s → run l s = Some s' → reachable s'.
Proof.
  revert s. induction l as [|i l IH]; intros s Hr; simpl; [by intros [= <-]|].
  destruct (step i s) as [s1|] eqn:E; [|done]. apply IH. by eapply reach_step.
Qed.

(** Thread 0 takes the lock, thread 1 goes to sleep on it. *)
Definition demo_schedule : list nat := [0; 0; 0; 0; 0; 1; 1; 1; 1; 1; 1]%nat.
(** Thread 0 has then released the lock and is about to wake process 0. *)
Definition demo_schedule' : list nat := (demo_schedule ++ [0; 0; 0])%nat.

#[local] Transparent nproc.

Lemma demo_run : ∃ s, reachable s ∧ pcs s 0%nat = Crit ∧ asleep s 1%nat = true ∧ pcs s 1%nat = Switch.
Proof.
  assert (match run demo_schedule initsleeplock with
          | Some s => pcs s 0%nat = Crit ∧ asleep s 1%nat = true ∧ pcs s 1%nat = Switch | None => False end) as Hs
    by (vm_compute; by repeat split).
  destruct (run demo_schedule initsleeplock) as [s|] eqn:E; [|done]. exists s. split; [|done].
  by apply (run_reachable _ _ _ reach_init E).
Qed.

Lemma demo_run' : ∃ s, reachable s ∧ asleep s 1%nat = true ∧ locked s = false.
Proof.
  assert (match run demo_schedule' initsleeplock with
          | Some s => asleep s 1%nat = true ∧ locked s = false | None => False end) as Hs by (vm_compute; by repeat split).
  destruct (run demo_schedule' initsleeplock) as [s|] eqn:E; [|done]. exists s. split; [|done].
  by apply (run_reachable _ _ _ reach_init E).
Qed.

Lemma sleeplock_mutex_witness : ∃ s, reachable s ∧ pcs s 0%nat = Crit ∧ holdingsleep 0 s = true ∧
  (pcs s 1%nat = Crit ∨ holdingsleep 1 s = true → 0%nat = 1%nat).
Proof.
  destruct demo_run as (s & Hr & Hc & _). exists s. split; [exact Hr|]. split; [exact Hc|].
  exact (sleeplock_mutex s 0 1 Hr Hc).
Defined.

Lemma no_lost_wakeup_witness : ∃ s, reachable s ∧ asleep s 1%nat = true ∧ locked s = false ∧
  ∃ j, j ≠ 1%nat ∧ will_wake 1 (pcs s j) = true ∧ lk s = Some j.
Proof.
  destruct demo_run' as (s & Hr & Ha & Hl). exists s. split; [exact Hr|]. split; [exact Ha|]. split; [exact Hl|].
  exact (no_lost_wakeup s 1 Hr (or_introl Ha) Hl).
Defined.

Lemma sleeplock_progress_witness : ∃ s, reachable s ∧ ∃ j s', pcs s j ≠ Idle ∧ step j s = Some s'.
Proof.
  assert (reachable (goto 0 AcqLk initsleeplock)) as Hr by (apply (reach_step _ 0 _ reach_init); vm_compute; reflexivity).
  eexists. split; [exact Hr|]. apply (sleeplock_progress _ 0 Hr); [discriminate|]. intros [|j]; discriminate.
Defined.

End Sleep.
