(* ===== verification/Proc.v ===== *)
(** * Processes, [kernel/proc.c]

    The process table and the operations on it, as one kernel thread runs them
    on one CPU: the locks it holds and its interrupt nesting are part of the
    state, so that a lock taken twice, released without being held or leaked on
    an error path shows.  A pointer to [proc[i]] is the index [i].  A function
    that switches to the scheduler ends in [Sleep]; what it does after it is
    resumed is a definition of its own.  Files and inodes are an interface,
    [FileSys], that [File] implements. *)

From S2P Require Import Prelude Riscv Mem CString Kalloc Vm Spinlock.

(** ** Data *)

Inductive procstate := UNUSED | USED | SLEEPING | RUNNABLE | RUNNING | ZOMBIE.
#[global] Instance procstate_eq_dec : EqDecision procstate.
Proof. solve_decision. Defined.

(** The registers of [struct context] that the kernel initializes. *)
Record context := mk_context { c_ra : Z; c_sp : Z }.

(** [struct proc]; a null pointer is 0, or [None] for [parent]. *)
Record proc := mk_proc {
  state : procstate;
  chan : Z;
  killed_ : Z;
  xstate : Z;
  pid : Z;
  parent : option nat;
  kstack : Z;
  sz : Z;
  pagetable : Z;
  trapframe : Z;
  context_ : context;
  ofile : list Z;
  cwd : Z;
  name : list byte;
}.

(** Offsets of the fields of [struct trapframe] the kernel uses. *)
Definition tf_kernel_satp : Z := 0.
Definition tf_kernel_sp : Z := 8.
Definition tf_kernel_trap : Z := 16.
Definition tf_epc : Z := 24.
Definition tf_kernel_hartid : Z := 32.
Definition tf_sp : Z := 48.
Definition tf_a0 : Z := 112.
Definition tf_a1 : Z := 120.
Definition tf_a7 : Z := 168.
Definition sizeof_trapframe : Z := 288.

(** The locks of this file; [LOther] stands for any other lock. *)
Inductive lockid := LProc (i : nat) | LWait | LPid | LOther (a : Z).
#[global] Instance lockid_eq_dec : EqDecision lockid.
Proof. solve_decision. Defined.

(** Addresses of kernel functions that the code stores in registers. *)
Class KernelText := {
  forkret_addr : Z;
  usertrap_addr : Z;
  kernelvec_addr : Z;
  uservec_addr : Z;
  userret_addr : Z;
}.

Record pst (F : Type) := mk_pst {
  kern : kst;
  procs : list proc;
  nextpid : Z;
  initproc : option nat;
  first : bool;
  files : F;
  mycpu : cpu;
  held : list lockid;
}.
Arguments mk_pst {F}.
Arguments kern {F}.
Arguments procs {F}.
Arguments nextpid {F}.
Arguments initproc {F}.
Arguments first {F}.
Arguments files {F}.
Arguments mycpu {F}.
Arguments held {F}.

(** What [proc.c] uses of files and inodes; [cur] is the process that calls. *)
Class FileSys (F : Type) := {
  filedup : Z → M (pst F) Z;
  fileclose : nat → Z → M (pst F) unit;
  idup : Z → M (pst F) Z;
  begin_op : nat → M (pst F) unit;
  iput : nat → Z → M (pst F) unit;
  end_op : nat → M (pst F) unit;
  namei_root : M (pst F) Z;
  fsinit : nat → Z → M (pst F) unit;
}.

Section proc_ops.
Context {F : Type} `{!FileSys F} `{!KernelImage} `{!KernelText}.
Implicit Types s : pst F.

Definition set_kern (k : kst) s := mk_pst k (procs s) (nextpid s) (initproc s) (first s) (files s) (mycpu s) (held s).
Definition set_procs (l : list proc) s := mk_pst (kern s) l (nextpid s) (initproc s) (first s) (files s) (mycpu s) (held s).
Definition set_nextpid (n : Z) s := mk_pst (kern s) (procs s) n (initproc s) (first s) (files s) (mycpu s) (held s).
Definition set_initproc (i : option nat) s := mk_pst (kern s) (procs s) (nextpid s) i (first s) (files s) (mycpu s) (held s).
Definition set_first (b : bool) s := mk_pst (kern s) (procs s) (nextpid s) (initproc s) b (files s) (mycpu s) (held s).
Definition set_files (f : F) s := mk_pst (kern s) (procs s) (nextpid s) (initproc s) (first s) f (mycpu s) (held s).
Definition set_mycpu (c : cpu) s := mk_pst (kern s) (procs s) (nextpid s) (initproc s) (first s) (files s) c (held s).
Definition set_held (l : list lockid) s := mk_pst (kern s) (procs s) (nextpid s) (initproc s) (first s) (files s) (mycpu s) l.

(** Running a computation on a part of the state. *)
Definition lift {S A} (get : pst F → S) (set : S → pst F → pst F) (c : M S A) : M (pst F) A := zoom get set c.
Definition vm {A} (c : M kst A) : M (pst F) A := lift kern set_kern c.
Definition fsys {A} (c : M F A) : M (pst F) A := lift files set_files c.
Definition oncpu {A} (c : M cpu A) : M (pst F) A := lift mycpu set_mycpu c.

(** [&proc[i]] is always valid here: the loops stay below [NPROC]. *)
Definition get_proc (i : nat) : M (pst F) proc := λ s,
  match procs s !! i with
  | Some p => Ok p s
  | None => Fault (Z.of_nat i)
  end.
Definition upd_proc (i : nat) (f : proc → proc) : M (pst F) unit :=
  modify (λ s, set_procs (alter f i (procs s)) s).

Definition set_state (v : procstate) (p : proc) := mk_proc v (chan p) (killed_ p) (xstate p) (pid p) (parent p) (kstack p) (sz p) (pagetable p) (trapframe p) (context_ p) (ofile p) (cwd p) (name p).
Definition set_chan (v : Z) (p : proc) := mk_proc (state p) v (killed_ p) (xstate p) (pid p) (parent p) (kstack p) (sz p) (pagetable p) (trapframe p) (context_ p) (ofile p) (cwd p) (name p).
Definition set_killed (v : Z) (p : proc) := mk_proc (state p) (chan p) v (xstate p) (pid p) (parent p) (kstack p) (sz p) (pagetable p) (trapframe p) (context_ p) (ofile p) (cwd p) (name p).
Definition set_xstate (v : Z) (p : proc) := mk_proc (state p) (chan p) (killed_ p) v (pid p) (parent p) (kstack p) (sz p) (pagetable p) (trapframe p) (context_ p) (ofile p) (cwd p) (name p).
Definition set_pid (v : Z) (p : proc) := mk_proc (state p) (chan p) (killed_ p) (xstate p) v (parent p) (kstack p) (sz p) (pagetable p) (trapframe p) (context_ p) (ofile p) (cwd p) (name p).
Definition set_parent (v : option nat) (p : proc) := mk_proc (state p) (chan p) (killed_ p) (xstate p) (pid p) v (kstack p) (sz p) (pagetable p) (trapframe p) (context_ p) (ofile p) (cwd p) (name p).
Definition set_kstack (v : Z) (p : proc) := mk_proc (state p) (chan p) (killed_ p) (xstate p) (pid p) (parent p) v (sz p) (pagetable p) (trapframe p) (context_ p) (ofile p) (cwd p) (name p).
Definition set_sz (v : Z) (p : proc) := mk_proc (state p) (chan p) (killed_ p) (xstate p) (pid p) (parent p) (kstack p) v (pagetable p) (trapframe p) (context_ p) (ofile p) (cwd p) (name p).
Definition set_pagetable (v : Z) (p : proc) := mk_proc (state p) (chan p) (killed_ p) (xstate p) (pid p) (parent p) (kstack p) (sz p) v (trapframe p) (context_ p) (ofile p) (cwd p) (name p).
Definition set_trapframe (v : Z) (p : proc) := mk_proc (state p) (chan p) (killed_ p) (xstate p) (pid p) (parent p) (kstack p) (sz p) (pagetable p) v (context_ p) (ofile p) (cwd p) (name p).
Definition set_context (v : context) (p : proc) := mk_proc (state p) (chan p) (killed_ p) (xstate p) (pid p) (parent p) (kstack p) (sz p) (pagetable p) (trapframe p) v (ofile p) (cwd p) (name p).
Definition set_ofile (v : list Z) (p : proc) := mk_proc (state p) (chan p) (killed_ p) (xstate p) (pid p) (parent p) (kstack p) (sz p) (pagetable p) (trapframe p) (context_ p) v (cwd p) (name p).
Definition set_cwd (v : Z) (p : proc) := mk_proc (state p) (chan p) (killed_ p) (xstate p) (pid p) (parent p) (kstack p) (sz p) (pagetable p) (trapframe p) (context_ p) (ofile p) v (name p).
Definition set_name (v : list byte) (p : proc) := mk_proc (state p) (chan p) (killed_ p) (xstate p) (pid p) (parent p) (kstack p) (sz p) (pagetable p) (trapframe p) (context_ p) (ofile p) (cwd p) v.

(** ** Locks *)

(** [acquire] and [release] as the thread sees them: mutual exclusion between
    threads is [Spinlock.Spin], and here a spinning wait is over. *)
Definition acquire (l : lockid) : M (pst F) unit :=
  oncpu push_off;;
  h ← gets held;
  if decide (l ∈ h) then panic "acquire"
  else modify (λ s, set_held (l :: held s) s).

Definition release (l : lockid) : M (pst F) unit :=
  h ← gets held;
  if decide (l ∈ h) then
    modify (λ s, set_held (filter (λ x, x ≠ l) (held s)) s);;
    oncpu pop_off
  else panic "release".

(** [initlock]: nobody holds the lock. *)
Definition initlock (l : lockid) : M (pst F) unit := modify (λ s, set_held (filter (λ x, x ≠ l) (held s)) s).

(** ** The process table *)

Definition sizeof_name : Z := 16.

(** Storing a string in [p->name] leaves the bytes after it alone. *)
Definition write_name (bs : list byte) (p : proc) : proc :=
  set_name (bs ++ drop (length bs) (name p)) p.

Fixpoint procinit_loop (n : nat) (i : nat) : M (pst F) unit :=
  match n with
  | O => mret ()
  | S n =>
      initlock (LProc i);;
      upd_proc i (λ p, set_kstack (KSTACK (Z.of_nat i)) (set_state UNUSED p));;
      procinit_loop n (S i)
  end.

Definition procinit : M (pst F) unit :=
  initlock LPid;;
  initlock LWait;;
  procinit_loop (Z.to_nat NPROC) 0.

Definition allocpid : M (pst F) Z :=
  acquire LPid;;
  p ← gets nextpid;
  modify (λ s, set_nextpid (i32 (nextpid s + 1)) s);;
  release LPid;;
  mret p.

Definition proc_pagetable (tf : Z) : M kst Z :=
  pt ← uvmcreate;
  if pt =? 0 then mret 0
  else
    r ← mappages pt TRAMPOLINE PGSIZE trampoline (Z.lor PTE_R PTE_X);
    if r <? 0 then uvmfree pt 0;; mret 0
    else
      r ← mappages pt TRAPFRAME PGSIZE tf (Z.lor PTE_R PTE_W);
      if r <? 0 then uvmunmap pt TRAMPOLINE 1 false;; uvmfree pt 0;; mret 0
      else mret pt.

Definition proc_freepagetable (pt size : Z) : M kst unit :=
  uvmunmap pt TRAMPOLINE 1 false;;
  uvmunmap pt TRAPFRAME 1 false;;
  uvmfree pt size.

Definition freeproc (i : nat) : M (pst F) unit :=
  p ← get_proc i;
  (if trapframe p =? 0 then mret () else vm (kfree (trapframe p)));;
  upd_proc i (set_trapframe 0);;
  (if pagetable p =? 0 then mret () else vm (proc_freepagetable (pagetable p) (sz p)));;
  upd_proc i (λ p, set_state UNUSED (set_xstate 0 (set_killed 0 (set_chan 0
    (write_name [x00] (set_parent None (set_pid 0 (set_sz 0 (set_pagetable 0 p))))))))).

(** The [found] part of [allocproc], for a slot whose lock is held. *)
Definition allocproc_found (i : nat) : M (pst F) (option nat) :=
  n ← allocpid;
  upd_proc i (set_pid n);;
  upd_proc i (set_state USED);;
  tf ← vm kalloc;
  upd_proc i (set_trapframe tf);;
  if tf =? 0 then freeproc i;; release (LProc i);; mret None
  else
    pt ← vm (proc_pagetable tf);
    upd_proc i (set_pagetable pt);;
    if pt =? 0 then freeproc i;; release (LProc i);; mret None
    else
      upd_proc i (λ p, set_context (mk_context forkret_addr (kstack p + PGSIZE)) p);;
      mret (Some i).

Fixpoint allocproc_loop (n : nat) (i : nat) : M (pst F) (option nat) :=
  match n with
  | O => mret None
  | S n =>
      acquire (LProc i);;
      p ← get_proc i;
      if decide (state p = UNUSED) then allocproc_found i
      else release (LProc i);; allocproc_loop n (S i)
  end.

Definition allocproc : M (pst F) (option nat) := allocproc_loop (Z.to_nat NPROC) 0.

(** ** The first process, growing, forking *)

(** [initcode], the program of the first process. *)
Definition initcode : list byte := map byte_of_Z [
  0x17; 0x05; 0x00; 0x00; 0x13; 0x05; 0x45; 0x02;
  0x97; 0x05; 0x00; 0x00; 0x93; 0x85; 0x35; 0x02;
  0x93; 0x08; 0x70; 0x00; 0x73; 0x00; 0x00; 0x00;
  0x93; 0x08; 0x20; 0x00; 0x73; 0x00; 0x00; 0x00;
  0xef; 0xf0; 0x9f; 0xff; 0x2f; 0x69; 0x6e; 0x69;
  0x74; 0x00; 0x00; 0x24; 0x00; 0x00; 0x00; 0x00;
  0x00; 0x00; 0x00; 0x00].

(** A failed [allocproc] makes [userinit] dereference null. *)
Definition userinit : M (pst F) unit :=
  op ← allocproc;
  modify (set_initproc op);;
  match op with
  | None => fault 0
  | Some i =>
      p ← get_proc i;
      vm (uvmfirst (pagetable p) initcode);;
      upd_proc i (set_sz PGSIZE);;
      vm (st (trapframe p + tf_epc) 0);;
      vm (st (trapframe p + tf_sp) PGSIZE);;
      upd_proc i (write_name (safestrcpy (ptr (bytes "initcode")) sizeof_name));;
      d ← namei_root;
      upd_proc i (set_cwd d);;
      upd_proc i (set_state RUNNABLE);;
      release (LProc i)
  end.

(** [n] is an [int]; [sz + n] is computed in 64 bits. *)
Definition growproc (cur : nat) (n : Z) : M (pst F) Z :=
  p ← get_proc cur;
  if n >? 0 then
    size ← vm (uvmalloc (pagetable p) (sz p) (u64 (sz p + n)) PTE_W);
    if size =? 0 then mret (-1)
    else upd_proc cur (set_sz size);; mret 0
  else if n <? 0 then
    size ← vm (uvmdealloc (pagetable p) (sz p) (u64 (sz p + n)));
    upd_proc cur (set_sz size);; mret 0
  else mret 0.

(** [filedup] on every open descriptor, filling the child's table. *)
Fixpoint fork_files (l : list Z) (np : nat) (i : nat) : M (pst F) unit :=
  match l with
  | [] => mret ()
  | f :: l =>
      (if f =? 0 then mret ()
       else
         f' ← filedup f;
         upd_proc np (λ p, set_ofile (<[i := f']> (ofile p)) p));;
      fork_files l np (S i)
  end.

Definition fork (cur : nat) : M (pst F) Z :=
  op ← allocproc;
  match op with
  | None => mret (-1)
  | Some np =>
      p ← get_proc cur;
      q ← get_proc np;
      r ← vm (uvmcopy (pagetable p) (pagetable q) (sz p));
      if r <? 0 then freeproc np;; release (LProc np);; mret (-1)
      else
        upd_proc np (set_sz (sz p));;
        vm (memmove_ (trapframe q) (trapframe p) sizeof_trapframe);;
        vm (st (trapframe q + tf_a0) 0);;
        fork_files (ofile p) np 0;;
        d ← idup (cwd p);
        upd_proc np (set_cwd d);;
        upd_proc np (write_name (safestrcpy (ptr (name p)) sizeof_name));;
        q ← get_proc np;
        release (LProc np);;
        acquire LWait;;
        upd_proc np (set_parent (Some cur));;
        release LWait;;
        acquire (LProc np);;
        upd_proc np (set_state RUNNABLE);;
        release (LProc np);;
        mret (pid q)
  end.

(** ** Sleeping and waking *)

(** The address of a [struct proc], as a channel. *)
Definition chan_of (i : nat) : Z := Z.of_nat i + 1.

(** [sched] up to the switch; [Sleep] is the switch. *)
Definition sched (cur : nat) (ch : Z) : M (pst F) unit :=
  p ← get_proc cur;
  h ← gets held;
  if negb (bool_decide (LProc cur ∈ h)) then panic "sched p->lock"
  else
    c ← gets mycpu;
    if negb (noff c =? 1) then panic "sched locks"
    else if decide (state p = RUNNING) then panic "sched running"
    else if sie c then panic "sched interruptible"
    else sleep_on ch.

Definition yield (cur : nat) : M (pst F) unit :=
  acquire (LProc cur);;
  upd_proc cur (set_state RUNNABLE);;
  sched cur 0.

Definition yield_resume (cur : nat) : M (pst F) unit := release (LProc cur).

Definition sleep (cur : nat) (ch : Z) (lk : lockid) : M (pst F) unit :=
  acquire (LProc cur);;
  release lk;;
  upd_proc cur (set_chan ch);;
  upd_proc cur (set_state SLEEPING);;
  sched cur ch.

Definition sleep_resume (cur : nat) (lk : lockid) : M (pst F) unit :=
  upd_proc cur (set_chan 0);;
  release (LProc cur);;
  acquire lk.

Fixpoint wakeup_loop (n : nat) (i : nat) (cur : option nat) (ch : Z) : M (pst F) unit :=
  match n with
  | O => mret ()
  | S n =>
      (if decide (cur = Some i) then mret ()
       else
         acquire (LProc i);;
         p ← get_proc i;
         (if decide (state p = SLEEPING ∧ chan p = ch)
          then upd_proc i (set_state RUNNABLE) else mret ());;
         release (LProc i));;
      wakeup_loop n (S i) cur ch
  end.

(** [cur] is the running process, none in an interrupt taken while idle. *)
Definition wakeup (cur : option nat) (ch : Z) : M (pst F) unit :=
  wakeup_loop (Z.to_nat NPROC) 0 cur ch.

(** One turn of the loop of [scheduler] on process [i]: whether it switches to
    it, which it does with the lock held; [scheduler_resume] is the way back. *)
Definition scheduler_try (i : nat) : M (pst F) bool :=
  acquire (LProc i);;
  p ← get_proc i;
  if decide (state p = RUNNABLE) then upd_proc i (set_state RUNNING);; mret true
  else release (LProc i);; mret false.

Definition scheduler_resume (i : nat) : M (pst F) unit := release (LProc i).

(** The first thing a new process runs. *)
Definition forkret (cur : nat) : M (pst F) unit :=
  release (LProc cur);;
  f ← gets first;
  if (f : bool) then fsinit cur ROOTDEV;; modify (set_first false) else mret ().

(** ** Killing *)

Fixpoint kill_loop (n : nat) (i : nat) (target : Z) : M (pst F) Z :=
  match n with
  | O => mret (-1)
  | S n =>
      acquire (LProc i);;
      p ← get_proc i;
      if pid p =? target then
        upd_proc i (set_killed 1);;
        (if decide (state p = SLEEPING) then upd_proc i (set_state RUNNABLE) else mret ());;
        release (LProc i);;
        mret 0
      else release (LProc i);; kill_loop n (S i) target
  end.

Definition kill (target : Z) : M (pst F) Z := kill_loop (Z.to_nat NPROC) 0 target.

Definition setkilled (i : nat) : M (pst F) unit :=
  acquire (LProc i);;
  upd_proc i (set_killed 1);;
  release (LProc i).

Definition killed (i : nat) : M (pst F) Z :=
  acquire (LProc i);;
  p ← get_proc i;
  release (LProc i);;
  mret (killed_ p).

(** ** Exiting and waiting *)

(** [wakeup(initproc)]; a null [initproc] is no process's channel. *)
Definition chan_opt (o : option nat) : Z := match o with Some i => chan_of i | None => 0 end.

Fixpoint reparent_loop (n : nat) (i : nat) (cur : nat) : M (pst F) unit :=
  match n with
  | O => mret ()
  | S n =>
      p ← get_proc i;
      (if decide (parent p = Some cur) then
         ip ← gets initproc;
         upd_proc i (set_parent ip);;
         wakeup (Some cur) (chan_opt ip)
       else mret ());;
      reparent_loop n (S i) cur
  end.

Definition reparent (cur : nat) : M (pst F) unit := reparent_loop (Z.to_nat NPROC) 0 cur.

(** The loop of [exit] over the open files, from descriptor [fd]. *)
Fixpoint close_files (l : list Z) (cur : nat) (fd : nat) : M (pst F) unit :=
  match l with
  | [] => mret ()
  | f :: l =>
      (if f =? 0 then mret ()
       else
         fileclose cur f;;
         upd_proc cur (λ p, set_ofile (<[fd := 0]> (ofile p)) p));;
      close_files l cur (S fd)
  end.

Definition exit (cur : nat) (status : Z) : M (pst F) unit :=
  ip ← gets initproc;
  if decide (ip = Some cur) then panic "init exiting"
  else
    p ← get_proc cur;
    close_files (ofile p) cur 0;;
    begin_op cur;;
    iput cur (cwd p);;
    end_op cur;;
    upd_proc cur (set_cwd 0);;
    acquire LWait;;
    reparent cur;;
    p ← get_proc cur;
    wakeup (Some cur) (chan_opt (parent p));;
    acquire (LProc cur);;
    upd_proc cur (set_xstate status);;
    upd_proc cur (set_state ZOMBIE);;
    release LWait;;
    sched cur 0;;
    panic "zombie exit".

(** A scan of the table by [wait]: the value to return, if there is one, and
    whether [cur] has children. *)
Fixpoint wait_scan (n : nat) (i : nat) (cur : nat) (addr : Z) (havekids : bool) : M (pst F) (option Z * bool) :=
  match n with
  | O => mret (None, havekids)
  | S n =>
      p ← get_proc i;
      if decide (parent p = Some cur) then
        acquire (LProc i);;
        if decide (state p = ZOMBIE) then
          me ← get_proc cur;
          r ← (if addr =? 0 then mret 0
               else vm (copyout (pagetable me) addr (le_encode 4 (u32 (xstate p)))));
          if r <? 0 then release (LProc i);; release LWait;; mret (Some (-1), true)
          else freeproc i;; release (LProc i);; release LWait;; mret (Some (pid p), true)
        else release (LProc i);; wait_scan n (S i) cur addr true
      else wait_scan n (S i) cur addr havekids
  end.

(** The body of the loop of [wait], with [wait_lock] held.  It returns, or
    sleeps on the process itself; woken, [wait] runs the body again. *)
Definition wait_body (cur : nat) (addr : Z) : M (pst F) Z :=
  '(r, havekids) ← wait_scan (Z.to_nat NPROC) 0 cur addr false;
  match r with
  | Some v => mret v
  | None =>
      k ← (if (havekids : bool) then killed cur else mret 0);
      if negb havekids || negb (k =? 0) then release LWait;; mret (-1)
      else sleep cur (chan_of cur) LWait;; mret 0
  end.

Definition wait (cur : nat) (addr : Z) : M (pst F) Z := acquire LWait;; wait_body cur addr.
Definition wait_resume (cur : nat) (addr : Z) : M (pst F) Z := sleep_resume cur LWait;; wait_body cur addr.

(** ** Copying, and the process listing *)

(** The kernel side of a copy is a byte list, as in [copyout]; a kernel
    destination is written with [memmove]. *)
Definition either_copyout (cur : nat) (user_dst : bool) (dst : Z) (src : list byte) : M (pst F) Z :=
  if user_dst then
    p ← get_proc cur;
    vm (copyout (pagetable p) dst src)
  else vm (write_bytes dst src);; mret 0.

Definition either_copyin (cur : nat) (user_src : bool) (src len : Z) : M (pst F) (Z * list byte) :=
  if user_src then
    p ← get_proc cur;
    vm (copyin (pagetable p) src len)
  else bs ← vm (read_bytes src (Z.to_nat len)); mret (0, bs).

Definition state_name (st : procstate) : string :=
  match st with
  | UNUSED => "unused"
  | USED => "used"
  | SLEEPING => "sleep "
  | RUNNABLE => "runble"
  | RUNNING => "run   "
  | ZOMBIE => "zombie"
  end.

(** The lines [procdump] prints, as pid, state and name. *)
Definition procdump (l : list proc) : list (Z * string * list byte) :=
  omap (λ p, if decide (state p = UNUSED) then None
             else Some (pid p, state_name (state p), cstr 16 (ptr (name p)))) l.

End proc_ops.
