(* ===== verification/ProcSpec.v ===== *)
(** * Properties of the process table

    Lock discipline of the operations of [kernel/proc.c] on every path, errors
    included. *)

From S2P Require Import Prelude Riscv Mem CString Kalloc Vm Spinlock Proc.

(** ** Code that takes none of these locks *)

Definition lock_panics : list string := ["acquire"; "release"; "pop_off"; "pop_off - interruptible"].

(** No lock mistake in [c]; and, if [b], no switch to the scheduler. *)
Definition quiet {S A} (b : bool) (c : M S A) : Prop :=
  ∀ s, match c s with
       | Panic m => m ∉ lock_panics
       | Sleep _ _ => b = false
       | _ => True
       end.

Section quiet_rules.
  Context {S : Type} (b : bool).

Lemma quiet_ret {A} (a : A) : quiet b (mret a : M S A).
Proof. done. Qed.

Lemma quiet_bind {A B} (c : M S A) (f : A → M S B) :
  quiet b c → (∀ a, quiet b (f a)) → quiet b (c ≫= f).
Proof.
  intros Hc Hf s. specialize (Hc s). unfold mbind, M_bind. destruct (c s) as [a s'| | | |]; try done.
  apply (Hf a s').
Qed.

Lemma quiet_gets {A} (f : S → A) : quiet b (gets f).
Proof. done. Qed.

Lemma quiet_modify (f : S → S) : quiet b (modify f).
Proof. done. Qed.

Lemma quiet_fault {A} a : quiet b (fault a : M S A).
Proof. done. Qed.

Lemma quiet_no_fuel {A} : quiet b (no_fuel : M S A).
Proof. done. Qed.

Lemma quiet_panic {A} m : m ∉ lock_panics → quiet b (panic m : M S A).
Proof. intros Hm s. exact Hm. Qed.

End quiet_rules.

Create HintDb quiet.
#[export] Hint Resolve quiet_ret quiet_gets quiet_modify quiet_fault quiet_no_fuel : quiet.

(** Walks through a computation, solving its primitive steps and its calls to
    code already known to be quiet. *)
Ltac quiet_step :=
  intros;
  lazymatch goal with
  | |- quiet _ (_ ≫= _) => apply quiet_bind
  | |- quiet _ (panic _) => apply quiet_panic; vm_compute; set_solver
  | |- quiet _ (if ?c then _ else _) => destruct c
  | |- quiet _ (match ?c with _ => _ end) => destruct c
  | |- quiet _ (let '_ := ?c in _) => destruct c
  | |- quiet _ _ => solve [auto with quiet nocore]
  end.
Ltac solve_quiet := repeat quiet_step.

Section quiet_vm.
Context `{KernelImage}.

Lemma quiet_ld a : quiet true (ld a).
Proof. unfold ld. solve_quiet. Qed.
Lemma quiet_st a v : quiet true (st a v).
Proof. unfold st. solve_quiet. Qed.
Lemma quiet_memset a c n : quiet true (memset_ a c n).
Proof. unfold memset_. solve_quiet. Qed.
Lemma quiet_memmove a c n : quiet true (memmove_ a c n).
Proof. unfold memmove_. solve_quiet. Qed.
Lemma quiet_get_ref i : quiet true (get_ref i).
Proof. unfold get_ref. solve_quiet. Qed.
Lemma quiet_set_ref i v : quiet true (set_ref i v).
Proof. unfold set_ref. solve_quiet. Qed.
Lemma quiet_write_bytes a l : quiet true (write_bytes a l).
Proof. unfold write_bytes. solve_quiet. Qed.
Hint Resolve quiet_ld quiet_st quiet_memset quiet_memmove quiet_get_ref quiet_set_ref quiet_write_bytes : quiet.

Lemma quiet_kalloc : quiet true kalloc.
Proof. unfold kalloc. solve_quiet. Qed.
Lemma quiet_kfree pa : quiet true (kfree pa).
Proof. unfold kfree. solve_quiet. Qed.
Hint Resolve quiet_kalloc quiet_kfree : quiet.

Lemma quiet_walk_loop l p va al : quiet true (walk_loop l p va al).
Proof. revert p. induction l; intros p; cbn [walk_loop]; solve_quiet. Qed.
Hint Resolve quiet_walk_loop : quiet.
Lemma quiet_walk p va al : quiet true (walk p va al).
Proof. unfold walk. solve_quiet. Qed.
Hint Resolve quiet_walk : quiet.

Lemma quiet_mappages p va size pa perm : quiet true (mappages p va size pa perm).
Proof.
  assert (∀ n a last pa, quiet true (mappages_loop n p a last pa perm)).
  { induction n; intros; cbn [mappages_loop]; solve_quiet. }
  unfold mappages. solve_quiet.
Qed.
Lemma quiet_uvmunmap p va n f : quiet true (uvmunmap p va n f).
Proof.
  assert (∀ n a, quiet true (uvmunmap_loop n p a f)).
  { induction n0; intros; cbn [uvmunmap_loop]; solve_quiet. }
  unfold uvmunmap. solve_quiet.
Qed.
Hint Resolve quiet_mappages quiet_uvmunmap : quiet.
Lemma quiet_uvmcreate : quiet true uvmcreate.
Proof. unfold uvmcreate. solve_quiet. Qed.
Lemma quiet_freewalk d p : quiet true (freewalk d p).
Proof.
  revert p. induction d as [|d IH]; intros p; cbn [freewalk]; [solve_quiet|].
  generalize 0. generalize 512%nat. induction n; intros; cbn [freewalk_loop]; solve_quiet.
Qed.
Hint Resolve quiet_uvmcreate quiet_freewalk : quiet.
Lemma quiet_uvmfree p n : quiet true (uvmfree p n).
Proof. unfold uvmfree. solve_quiet. Qed.
Hint Resolve quiet_uvmfree : quiet.
Lemma quiet_uvmcopy old new n : quiet true (uvmcopy old new n).
Proof.
  unfold uvmcopy. generalize 0. generalize (S (Z.to_nat ((n + PGSIZE - 1) / PGSIZE))).
  induction n0; intros; cbn [uvmcopy_loop]; solve_quiet.
Qed.
Lemma quiet_copyout p a src : quiet true (copyout p a src).
Proof.
  unfold copyout. generalize (S (length src)). intros n. revert a src.
  induction n; intros; cbn [copyout_loop]; unfold copyout_cow; solve_quiet.
Qed.
Lemma quiet_proc_pagetable tf : quiet true (proc_pagetable tf).
Proof. unfold proc_pagetable. solve_quiet. Qed.
Lemma quiet_proc_freepagetable p n : quiet true (proc_freepagetable p n).
Proof. unfold proc_freepagetable. solve_quiet. Qed.

End quiet_vm.
#[export] Hint Resolve quiet_st quiet_memmove quiet_kalloc quiet_kfree quiet_uvmcopy quiet_copyout
  quiet_proc_pagetable quiet_proc_freepagetable : quiet.

Section spec.
Context {F : Type} `{!FileSys F} `{!KernelImage} `{!KernelText}.
Implicit Types s : pst F.

(** ** Lock discipline *)

(** The thread holds the locks [h], [d] deep, with interrupts [b] outside. *)
Definition thr (b : bool) (d : nat) (h : list lockid) s : Prop :=
  at_depth b d (mycpu s) ∧ held s = h.

(** From [thr b d h], [c] makes no lock mistake; what it holds when it returns
    satisfies [Q], and when it switches away, [R]. *)
Definition locks {A} (d : nat) (h : list lockid) (c : M (pst F) A)
    (Q : A → nat → list lockid → Prop) (R : nat → list lockid → Prop) : Prop :=
  ∀ b s, thr b d h s →
    match c s with
    | Ok a s' => ∃ d' h', thr b d' h' s' ∧ Q a d' h'
    | Sleep _ s' => ∃ d' h', thr b d' h' s' ∧ R d' h'
    | Panic m => m ∉ lock_panics
    | _ => True
    end.

(** The computation never touches the locks. *)
Definition lockless {A} (c : M (pst F) A) : Prop :=
  ∀ s, match c s with
       | Ok _ s' => mycpu s' = mycpu s ∧ held s' = held s
       | Sleep _ _ => False
       | Panic m => m ∉ lock_panics
       | _ => True
       end.

Lemma locks_bind {A B} d h (c : M (pst F) A) (f : A → M (pst F) B) P Q R :
  locks d h c P R → (∀ a d' h', P a d' h' → locks d' h' (f a) Q R) → locks d h (c ≫= f) Q R.
Proof.
  intros Hc Hf b s Hs. specialize (Hc b s Hs). unfold mbind, M_bind.
  destruct (c s) as [a s'| | | |]; try done. destruct Hc as (d' & h' & Hs' & HP). by apply (Hf a d' h').
Qed.

Lemma locks_ret {A} d h (a : A) (Q : A → nat → list lockid → Prop) R : Q a d h → locks d h (mret a) Q R.
Proof. intros HQ b s Hs. exists d, h. done. Qed.

Lemma locks_lockless {A} d h (c : M (pst F) A) (Q : A → nat → list lockid → Prop) R :
  lockless c → (∀ a, Q a d h) → locks d h c Q R.
Proof.
  intros Hc HQ b s [Hd Hh]. specialize (Hc s). destruct (c s) as [a s'| | | |]; try done.
  destruct Hc as [E1 E2]. exists d, h. split; [|done]. split; [by rewrite E1|by rewrite E2].
Qed.

Lemma locks_mono {A} d h (c : M (pst F) A) (Q Q' : A → nat → list lockid → Prop) R :
  locks d h c Q R → (∀ a d' h', Q a d' h' → Q' a d' h') → locks d h c Q' R.
Proof.
  intros Hc HQ b s Hs. specialize (Hc b s Hs). destruct (c s) as [a s'| | | |]; try done.
  destruct Hc as (d' & h' & ? & ?). eauto.
Qed.

Lemma locks_acquire d h l (Q : unit → nat → list lockid → Prop) R :
  l ∉ h → Q tt (S d) (l :: h) → locks d h (acquire l) Q R.
Proof.
  intros Hl HQ b s [Hd Hh]. unfold acquire, oncpu, lift, zoom, mbind, M_bind.
  destruct (push_off_depth b d (mycpu s) Hd) as (c & -> & Hc). simpl. rewrite Hh. rewrite decide_False by done.
  exists (S d), (l :: h). split; [|done]. split; [done|]. simpl. by rewrite Hh.
Qed.

Lemma locks_release d h l (Q : unit → nat → list lockid → Prop) R :
  l ∈ h → Q tt d (filter (λ x, x ≠ l) h) → locks (S d) h (release l) Q R.
Proof.
  intros Hl HQ b s [Hd Hh]. unfold release, oncpu, lift, zoom, mbind, M_bind, gets, modify. rewrite Hh, decide_True by done.
  destruct (pop_off_depth b d (mycpu s) Hd) as (c & E & Hc). simpl. rewrite E.
  exists d, (filter (λ x, x ≠ l) h). split; [|done]. split; [done|]. simpl. by rewrite Hh.
Qed.

Lemma lockless_ret {A} (a : A) : lockless (mret a).
Proof. done. Qed.

Lemma lockless_gets {A} (f : pst F → A) : lockless (gets f).
Proof. done. Qed.

Lemma lockless_bind {A B} (c : M (pst F) A) (f : A → M (pst F) B) :
  lockless c → (∀ a, lockless (f a)) → lockless (c ≫= f).
Proof.
  intros Hc Hf s. specialize (Hc s). unfold mbind, M_bind. destruct (c s) as [a s'| | | |]; try done.
  specialize (Hf a s'). destruct (f a s'); try done. destruct Hc as [<- <-]. done.
Qed.

Lemma lockless_get_proc i : lockless (get_proc i).
Proof. intros s. unfold get_proc. by destruct (procs s !! i). Qed.

Lemma lockless_upd_proc i f : lockless (upd_proc i f).
Proof. done. Qed.

Lemma lockless_vm {A} (c : M kst A) : quiet true c → lockless (vm c : M (pst F) A).
Proof.
  intros Hc s. specialize (Hc (kern s)). unfold vm, lift, zoom. destruct (c (kern s)); try done.
Qed.

Lemma filter_head (l : lockid) h : l ∉ h → filter (λ x, x ≠ l) (l :: h) = h.
Proof.
  intros Hl. rewrite filter_cons_False by auto. induction h as [|x h IH]; [done|].
  rewrite elem_of_cons in Hl. rewrite filter_cons_True by naive_solver. f_equal. apply IH. naive_solver.
Qed.

Lemma filter_second (l l' : lockid) h : l' ≠ l → l ∉ h → filter (λ x, x ≠ l) (l' :: l :: h) = l' :: h.
Proof. intros Hne Hl. rewrite filter_cons_True by done. f_equal. by apply filter_head. Qed.

Section rules.
  Context {B : Type} (d : nat) (h : list lockid) (Q : B → nat → list lockid → Prop) (R : nat → list lockid → Prop).

Lemma bind_acquire l (f : unit → M (pst F) B) :
  l ∉ h → locks (S d) (l :: h) (f tt) Q R → locks d h (acquire l ≫= f) Q R.
Proof.
  intros Hl Hf. eapply (locks_bind _ _ _ _ (λ _ d' h', d' = S d ∧ h' = l :: h)).
  - by apply locks_acquire.
  - by intros [] d' h' [-> ->].
Qed.

Lemma bind_release l (f : unit → M (pst F) B) :
  l ∉ h → locks d h (f tt) Q R → locks (S d) (l :: h) (release l ≫= f) Q R.
Proof.
  intros Hl Hf. eapply (locks_bind _ _ _ _ (λ _ d' h', d' = d ∧ h' = h)).
  - apply locks_release; [by left|]. by rewrite filter_head.
  - by intros [] d' h' [-> ->].
Qed.

Lemma bind_release2 l l' (f : unit → M (pst F) B) :
  l' ≠ l → l ∉ h → locks (S d) (l' :: h) (f tt) Q R → locks (S (S d)) (l' :: l :: h) (release l ≫= f) Q R.
Proof.
  intros Hne Hl Hf. eapply (locks_bind _ _ _ _ (λ _ d' h', d' = S d ∧ h' = l' :: h)).
  - apply locks_release; [by right; left|]. by rewrite filter_second.
  - by intros [] d' h' [-> ->].
Qed.

Lemma bind_lockless {A} (c : M (pst F) A) (f : A → M (pst F) B) :
  lockless c → (∀ a, locks d h (f a) Q R) → locks d h (c ≫= f) Q R.
Proof.
  intros Hc Hf. eapply (locks_bind _ _ _ _ (λ _ d' h', d' = d ∧ h' = h)).
  - by apply locks_lockless.
  - intros a d' h' [-> ->]. apply Hf.
Qed.

(** A call that gives back every lock it takes. *)
Lemma bind_same {A} (c : M (pst F) A) (f : A → M (pst F) B) :
  locks d h c (λ _ d' h', d' = d ∧ h' = h) R → (∀ a, locks d h (f a) Q R) → locks d h (c ≫= f) Q R.
Proof. intros Hc Hf. eapply locks_bind; [done|]. intros a d' h' [-> ->]. apply Hf. Qed.

End rules.

Lemma lockless_modify_procs f : lockless (modify (λ s, set_procs (f (procs s)) s)).
Proof. done. Qed.

(** No lock of this file and none of the file layer. *)
Definition none_held (h : list lockid) : Prop := (∀ i, LProc i ∉ h) ∧ (LWait ∉ h) ∧ (LPid ∉ h) ∧ ∀ a, LOther a ∉ h.

Definition same (d : nat) (h : list lockid) {A} (_ : A) (d' : nat) (h' : list lockid) : Prop := d' = d ∧ h' = h.

Lemma wakeup_locks d h cur ch R : (∀ i, LProc i ∉ h) → locks d h (wakeup cur ch) (same d h) R.
Proof.
  intros Hh. unfold wakeup. generalize 0%nat. induction (Z.to_nat NPROC) as [|n IH]; intros i; simpl; [by apply locks_ret|].
  apply bind_same; [|by intros _; apply IH]. case_decide; [by apply locks_ret|].
  apply bind_acquire; [done|]. apply bind_lockless; [apply lockless_get_proc|]. intros p.
  apply bind_lockless; [by case_decide|]. intros _. apply locks_release; [by left|]. by rewrite filter_head.
Qed.

Lemma kill_locks d h target R : (∀ i, LProc i ∉ h) → locks d h (kill target) (same d h) R.
Proof.
  intros Hh. unfold kill. generalize 0%nat. induction (Z.to_nat NPROC) as [|n IH]; intros i; simpl; [by apply locks_ret|].
  apply bind_acquire; [done|]. apply bind_lockless; [apply lockless_get_proc|]. intros p. case_match.
  - apply bind_lockless; [done|]. intros _. apply bind_lockless; [by case_decide|]. intros _.
    apply bind_release; [done|]. by apply locks_ret.
  - apply bind_release; [done|]. apply IH.
Qed.

Lemma killed_locks d h i R : (∀ i, LProc i ∉ h) → locks d h (killed i) (same d h) R.
Proof.
  intros Hh. apply bind_acquire; [done|]. apply bind_lockless; [apply lockless_get_proc|]. intros p.
  apply bind_release; [done|]. by apply locks_ret.
Qed.

Lemma freeproc_lockless i : lockless (freeproc i).
Proof.
  apply lockless_bind; [apply lockless_get_proc|]. intros p.
  apply lockless_bind; [case_match; [done|apply lockless_vm; auto with quiet]|]. intros _.
  apply lockless_bind; [done|]. intros _.
  apply lockless_bind; [case_match; [done|apply lockless_vm; auto with quiet]|]. done.
Qed.

(** [allocproc] returns with the lock of the process it found, or with none. *)
Definition alloc_held (d : nat) (h : list lockid) (o : option nat) (d' : nat) (h' : list lockid) : Prop :=
  match o with
  | Some i => d' = S d ∧ h' = LProc i :: h
  | None => d' = d ∧ h' = h
  end.

Lemma allocproc_locks d h R : none_held h → locks d h allocproc (alloc_held d h) R.
Proof.
  intros (Hh & _ & Hpid & _). unfold allocproc. generalize 0%nat. induction (Z.to_nat NPROC) as [|n IH]; intros i; simpl;
    [by apply locks_ret|].
  apply bind_acquire; [done|]. apply bind_lockless; [apply lockless_get_proc|]. intros p. case_decide.
  2:{ apply bind_release; [done|]. apply IH. }
  assert (LPid ∉ LProc i :: h) by (rewrite elem_of_cons; naive_solver).
  apply bind_same.
  { apply bind_acquire; [done|]. apply bind_lockless; [done|]. intros n0. apply bind_lockless; [done|]. intros _.
    apply bind_release; [done|]. by apply locks_ret. }
  intros n0. apply bind_lockless; [done|]. intros _. apply bind_lockless; [done|]. intros _.
  apply bind_lockless; [apply lockless_vm; auto with quiet|]. intros tf. apply bind_lockless; [done|]. intros _.
  assert (locks (S d) (LProc i :: h) (freeproc i;; release (LProc i);; mret None) (alloc_held d h) R) as Hfail.
  { apply bind_lockless; [apply freeproc_lockless|]. intros _. apply bind_release; [done|]. by apply locks_ret. }
  case_match; [done|]. apply bind_lockless; [apply lockless_vm; auto with quiet|]. intros pt.
  apply bind_lockless; [done|]. intros _. case_match; [done|]. apply bind_lockless; [done|]. intros _. by apply locks_ret.
Qed.

Ltac plain := apply bind_lockless; [first [done|apply lockless_get_proc|apply lockless_vm; auto with quiet]|intros ?].

(** Switching away holds the process's own lock and nothing else. *)
Definition own_lock (cur : nat) (d : nat) (h : list lockid) : Prop := d = 1%nat ∧ h = [LProc cur].

Lemma sched_locks cur ch (Q : unit → nat → list lockid → Prop) : locks 1 [LProc cur] (sched cur ch) Q (own_lock cur).
Proof.
  apply bind_lockless; [apply lockless_get_proc|]. intros p b s [Hd Hh]. unfold mbind, M_bind, gets. rewrite Hh.
  rewrite bool_decide_true by by left. simpl. pose proof Hd as [Hn [Hs _]]. rewrite Hn. simpl.
  case_decide; [vm_compute; set_solver|]. rewrite Hs. simpl.
  exists 1%nat, [LProc cur]. split; [by split|by split].
Qed.

Lemma sleep_locks cur ch lk (Q : unit → nat → list lockid → Prop) :
  lk ≠ LProc cur → locks 1 [lk] (sleep cur ch lk) Q (own_lock cur).
Proof.
  intros Hlk. apply bind_acquire; [set_solver|]. apply bind_release2; [done|apply not_elem_of_nil|].
  do 2 plain. apply sched_locks.
Qed.

Lemma wait_locks cur addr : locks 0 [] (wait cur addr) (same 0 []) (own_lock cur).
Proof.
  apply bind_acquire; [apply not_elem_of_nil|]. unfold wait_body.
  eapply (locks_bind _ _ _ _ (λ r d h, match r.1 with Some _ => same 0 [] r d h | None => same 1 [LWait] r d h end)).
  - generalize false. generalize 0%nat at 2. induction (Z.to_nat NPROC) as [|n IH]; intros i hk; simpl; [by apply locks_ret|].
    plain. case_decide; [|apply IH]. apply bind_acquire; [set_solver|]. case_decide.
    2:{ apply bind_release; [set_solver|]. apply IH. }
    plain. apply bind_lockless; [case_match; [done|apply lockless_vm; auto with quiet]|]. intros r. case_match.
    + apply bind_release; [set_solver|]. apply bind_release; [apply not_elem_of_nil|]. by apply locks_ret.
    + apply bind_lockless; [apply freeproc_lockless|]. intros _.
      apply bind_release; [set_solver|]. apply bind_release; [apply not_elem_of_nil|]. by apply locks_ret.
  - intros [[v|] hk] d h [-> ->]; [by apply locks_ret|].
    apply bind_same. { destruct hk; [apply killed_locks; set_solver|by apply locks_ret]. }
    intros k. case_match.
    + apply bind_release; [apply not_elem_of_nil|]. by apply locks_ret.
    + eapply (locks_bind _ _ _ _ (λ _ _ _, False)); [by apply sleep_locks|done].
Qed.

Lemma reparent_locks d h cur R : (∀ i, LProc i ∉ h) → locks d h (reparent cur) (same d h) R.
Proof.
  intros Hh. unfold reparent. generalize 0%nat. induction (Z.to_nat NPROC) as [|n IH]; intros i; simpl; [by apply locks_ret|].
  plain. apply bind_same; [|by intros _; apply IH]. case_decide; [|by apply locks_ret].
  do 2 plain. by apply wakeup_locks.
Qed.

(** ** The file layer *)

(** [wakeup] may have made the process runnable. *)
Definition woken1 (p q : proc) : Prop := q = p ∨ (state p = SLEEPING ∧ q = set_state RUNNABLE p).
Definition woken : list proc → list proc → Prop := Forall2 woken1.

(** A call that neither touches processes nor sleeps, made with no lock of the
    file layer held; it gives back its own. *)
Definition calm {A} (c : M (pst F) A) : Prop :=
  ∀ b d h s, thr b d h s → (∀ a, LOther a ∉ h) →
    match c s with
    | Ok _ s' => thr b d h s' ∧ procs s' = procs s ∧ nextpid s' = nextpid s ∧ initproc s' = initproc s
    | Sleep _ _ => False
    | Panic m => m ∉ lock_panics
    | _ => True
    end.

(** A call by [cur], made with no lock held, that gives back its locks, may wake
    processes, and if it sleeps does so through [sleep]. *)
Definition tidy {A} (cur : nat) (c : M (pst F) A) : Prop :=
  ∀ b s, thr b 0 [] s →
    match c s with
    | Ok _ s' => thr b 0 [] s' ∧ woken (procs s) (procs s') ∧ nextpid s' = nextpid s ∧ initproc s' = initproc s
    | Sleep _ s' => thr b 1 [LProc cur] s' ∧ nextpid s' = nextpid s ∧ initproc s' = initproc s ∧
        ∃ l ch, woken (procs s) l ∧ procs s' = alter (set_state SLEEPING ∘ set_chan ch) cur l
    | Panic m => m ∉ lock_panics
    | _ => True
    end.

(** What [proc.c] relies on in the file layer. *)
Class FileSysLaws := {
  filedup_calm f : calm (filedup f);
  idup_calm i : calm (idup i);
  fileclose_tidy cur f : tidy cur (fileclose cur f);
  begin_op_tidy cur : tidy cur (begin_op cur);
  iput_tidy cur i : tidy cur (iput cur i);
  end_op_tidy cur : tidy cur (end_op cur);
}.

Lemma locks_calm {A} d h (c : M (pst F) A) R : calm c → (∀ a, LOther a ∉ h) → locks d h c (same d h) R.
Proof. intros Hc Hh b s Hs. specialize (Hc b d h s Hs Hh). destruct (c s); try done. exists d, h. by destruct Hc. Qed.

Lemma locks_tidy {A} cur (c : M (pst F) A) : tidy cur c → locks 0 [] c (same 0 []) (own_lock cur).
Proof.
  intros Hc b s Hs. specialize (Hc b s Hs). destruct (c s) as [a s'| | |ch s'|]; try done.
  - exists 0%nat, []. by destruct Hc.
  - exists 1%nat, [LProc cur]. by destruct Hc.
Qed.

Context {FQ : FileSysLaws}.

Lemma fork_files_locks d h l np i R : (∀ a, LOther a ∉ h) → locks d h (fork_files l np i) (same d h) R.
Proof using FQ.
  intros Hh. revert i. induction l as [|f l IH]; intros i; simpl; [by apply locks_ret|].
  apply bind_same; [|by intros _; apply IH]. case_match; [by apply locks_ret|].
  apply bind_same; [apply locks_calm; [apply filedup_calm|done]|]. intros fd. by apply locks_lockless.
Qed.

Lemma fork_locks d h cur R : none_held h → locks d h (fork cur) (same d h) R.
Proof using FQ.
  intros Hn. pose proof Hn as (Hh & Hw & _ & Ho).
  eapply locks_bind; [by apply allocproc_locks|]. intros [np|] d' h' [-> ->]; [|by apply locks_ret].
  assert (∀ a, LOther a ∉ LProc np :: h) as Ho' by (intros a; rewrite elem_of_cons; naive_solver).
  do 3 plain. case_match.
  { apply bind_lockless; [apply freeproc_lockless|]. intros _. apply bind_release; [done|]. by apply locks_ret. }
  do 3 plain. apply bind_same; [by apply fork_files_locks|]. intros _.
  apply bind_same; [apply locks_calm; [apply idup_calm|done]|]. intros dd. do 3 plain.
  apply bind_release; [done|]. apply bind_acquire; [done|]. plain. apply bind_release; [done|].
  apply bind_acquire; [done|]. plain. apply bind_release; [done|]. by apply locks_ret.
Qed.

Lemma exit_locks cur status : locks 0 [] (exit cur status) (λ _ _ _, False) (own_lock cur).
Proof using FQ.
  plain. case_decide.
  { intros b s _. vm_compute. set_solver. }
  plain.
  assert (∀ l fd, locks 0 [] (close_files l cur fd) (same 0 []) (own_lock cur)) as Hclose.
  { induction l as [|f l IH]; intros fd; simpl; [by apply locks_ret|].
    apply bind_same; [|by intros _; apply IH]. case_match; [by apply locks_ret|].
    apply bind_same; [apply locks_tidy, fileclose_tidy|]. intros _. by apply locks_lockless. }
  apply bind_same; [apply Hclose|]. intros _.
  apply bind_same; [apply locks_tidy, begin_op_tidy|]. intros _.
  apply bind_same; [apply locks_tidy, iput_tidy|]. intros _.
  apply bind_same; [apply locks_tidy, end_op_tidy|]. intros _.
  plain. apply bind_acquire; [apply not_elem_of_nil|].
  apply bind_same; [apply reparent_locks; set_solver|]. intros _. plain.
  apply bind_same; [apply wakeup_locks; set_solver|]. intros _.
  apply bind_acquire; [set_solver|]. do 2 plain. apply bind_release2; [done|apply not_elem_of_nil|].
  eapply (locks_bind _ _ _ _ (λ _ _ _, False)); [apply sched_locks|done].
Qed.

(** Lock discipline of [fork], [wait], [kill] and [exit].  Called with no
    lock held, on every path, errors included: no lock is taken twice or
    released without being held; a call that returns holds no lock and has
    interrupts as before; and a call that switches to the scheduler holds
    exactly the lock of its own process, one level deep, as [sched] requires. *)
Theorem proc_lock_discipline cur addr status target :
  locks 0 [] (fork cur) (same 0 []) (λ _ _, False) ∧
  locks 0 [] (wait cur addr) (same 0 []) (own_lock cur) ∧
  locks 0 [] (kill target) (same 0 []) (λ _ _, False) ∧
  locks 0 [] (exit cur status) (λ _ _ _, False) (own_lock cur).
Proof using FQ.
  split_and!; [apply fork_locks|apply wait_locks|apply kill_locks|apply exit_locks]; try set_solver.
  split_and!; set_solver.
Qed.

End spec.
