(* ===== verification/ProcTable.v ===== *)
(** * The process table invariant

    Process ids are unique and unused slots are clean, and a parent pointer
    always leads to a process that is alive; every operation of [proc.c]
    preserves this, in every state it can leave the CPU in. *)

From S2P Require Import Prelude Riscv Mem CString Kalloc Vm Spinlock Proc ProcSpec.

Definition alive (p : proc) : Prop := state p ≠ UNUSED ∧ state p ≠ ZOMBIE.

(** The invariant of the table [l] with [next] the next pid and [ip] init. *)
Record tbl_inv (l : list proc) (next : Z) (ip : option nat) : Prop := {
  ti_pid : ∀ i p, l !! i = Some p → state p ≠ UNUSED → 0 < pid p < next;
  ti_uniq : ∀ i j p q, l !! i = Some p → l !! j = Some q → state p ≠ UNUSED → pid p = pid q → i = j;
  ti_unused : ∀ i p, l !! i = Some p → state p = UNUSED →
    pid p = 0 ∧ parent p = None ∧ pagetable p = 0 ∧ trapframe p = 0 ∧ sz p = 0 ∧ chan p = 0;
  ti_parent : ∀ i p j, l !! i = Some p → parent p = Some j → ∃ q, l !! j = Some q ∧ alive q;
  ti_init : ∀ i, ip = Some i → ∃ q, l !! i = Some q ∧ alive q;
}.

(** Changing a slot that stays in use, keeping its pid. *)
Lemma tbl_inv_alter l next ip i p f :
  tbl_inv l next ip → l !! i = Some p → state p ≠ UNUSED → state (f p) ≠ UNUSED → pid (f p) = pid p →
  (∀ j, parent (f p) = Some j → parent p = Some j ∨ (j ≠ i ∧ ∃ q, l !! j = Some q ∧ alive q)) →
  (alive p → alive (f p) ∨ (ip ≠ Some i ∧ ∀ j q, l !! j = Some q → parent q ≠ Some i)) →
  tbl_inv (alter f i l) next ip.
Proof.
  intros [Hpid Hu Hun Hpar Hini] Hi Hs Hs' Hp Hpr Hal.
  assert (∀ j q, alter f i l !! j = Some q → (j = i ∧ q = f p) ∨ (j ≠ i ∧ l !! j = Some q)) as Hcase.
  { intros j q. rewrite list_lookup_alter. case_decide as E; [|by auto]. subst. rewrite Hi. intros [= <-]. by left. }
  assert (∀ j q, l !! j = Some q → alive q → (j ≠ i ∨ alive (f p)) → ∃ q', alter f i l !! j = Some q' ∧ alive q') as Hlive.
  { intros j q Hj Hq Hor. rewrite list_lookup_alter. case_decide as E; [|by eauto]. subst. rewrite Hi. simpl.
    eexists. split; [done|]. naive_solver. }
  split.
  - intros j q [[-> ->]|[? Hj]]%Hcase Hq; [rewrite Hp; by eapply Hpid|by eapply Hpid].
  - intros j k q q' [[-> ->]|[? Hj]]%Hcase [[-> ->]|[? Hk]]%Hcase Hq HE; try done.
    + rewrite Hp in HE. by eapply Hu.
    + rewrite Hp in HE. symmetry in HE. symmetry. eapply (Hu i j); done.
    + by eapply Hu.
  - intros j q [[-> ->]|[? Hj]]%Hcase Hq; [done|by eapply Hun].
  - assert (∀ j q k, l !! j = Some q → parent q = Some k → ∃ q', alter f i l !! k = Some q' ∧ alive q') as Hold.
    { intros j q k Hj Hk. destruct (Hpar _ _ _ Hj Hk) as (q' & Hq' & Ha). eapply Hlive; [done|done|].
      destruct (decide (k = i)) as [->|]; [|by left]. simplify_eq. destruct (Hal Ha) as [?|[_ Hn]]; [by right|].
      by destruct (Hn _ _ Hj). }
    intros j q k [[-> ->]|[? Hj]]%Hcase Hk; [|by eauto].
    destruct (Hpr k Hk) as [?|(Hki & q & Hq & Ha)]; [by eauto|]. eapply Hlive; [done|done|by left].
  - intros k Hk. destruct (Hini k Hk) as (q & Hq & Ha). eapply Hlive; [done|done|].
    destruct (decide (k = i)) as [->|]; [|by left]. simplify_eq. destruct (Hal Ha) as [?|[? _]]; [by right|done].
Qed.

Lemma tbl_inv_next l next next' ip : tbl_inv l next ip → next ≤ next' → tbl_inv l next' ip.
Proof.
  intros [Hpid Hu Hun Hpar Hini] Hle. split; try done. intros i p Hi Hp. specialize (Hpid i p Hi Hp). lia.
Qed.

(** Changing nothing the invariant mentions. *)
Definition same_core (p q : proc) : Prop :=
  state q = state p ∧ pid q = pid p ∧ parent q = parent p ∧ pagetable q = pagetable p ∧
  trapframe q = trapframe p ∧ sz q = sz p ∧ chan q = chan p.

Lemma tbl_inv_core l l' next ip :
  tbl_inv l next ip → (∀ i, option_Forall2 same_core (l !! i) (l' !! i)) → tbl_inv l' next ip.
Proof.
  intros [Hpid Hu Hun Hpar Hini] Hc.
  assert (∀ i q, l' !! i = Some q → ∃ p, l !! i = Some p ∧ same_core p q) as Hb.
  { intros i q Hq. specialize (Hc i). rewrite Hq in Hc. inversion Hc; subst. eauto. }
  assert (∀ i p, l !! i = Some p → ∃ q, l' !! i = Some q ∧ same_core p q) as Hf.
  { intros i p Hp. specialize (Hc i). rewrite Hp in Hc. inversion Hc; subst. eauto. }
  split.
  - intros i q (p & Hp & E1 & E2 & _)%Hb Hs. rewrite E2. eapply Hpid; [done|congruence].
  - intros i j q q' (p & Hp & E1 & E2 & _)%Hb (p' & Hp' & _ & E2' & _)%Hb Hs HE.
    eapply Hu; [done..|congruence|congruence].
  - intros i q (p & Hp & E1 & E2 & E3 & E4 & E5 & E6 & E7)%Hb Hs.
    rewrite E2, E3, E4, E5, E6, E7. eapply Hun; [done|congruence].
  - intros i q j (p & Hp & E1 & E2 & E3 & _)%Hb Hj. rewrite E3 in Hj.
    destruct (Hpar _ _ _ Hp Hj) as (x & Hx & Ha). destruct (Hf _ _ Hx) as (y & Hy & E & _). exists y.
    split; [done|]. unfold alive in *. by rewrite E.
  - intros i Hi. destruct (Hini _ Hi) as (x & Hx & Ha). destruct (Hf _ _ Hx) as (y & Hy & E & _). exists y.
    split; [done|]. unfold alive in *. by rewrite E.
Qed.

(** A slot taken by [allocproc]. *)
Lemma tbl_inv_alloc l next ip i p f :
  tbl_inv l next ip → l !! i = Some p → state p = UNUSED → 0 < next →
  state (f p) = USED → pid (f p) = next → parent (f p) = None → tbl_inv (alter f i l) (next + 1) ip.
Proof.
  intros [Hpid Hu Hun Hpar Hini] Hi Hs Hn Hs' Hp' Hpar'.
  assert (∀ j q, alter f i l !! j = Some q → (j = i ∧ q = f p) ∨ (j ≠ i ∧ l !! j = Some q)) as Hcase.
  { intros j q. rewrite list_lookup_alter. case_decide as E; [|by auto]. subst. rewrite Hi. intros [= <-]. by left. }
  assert (∀ j q, l !! j = Some q → alive q → ∃ q', alter f i l !! j = Some q' ∧ alive q') as Hlive.
  { intros j q Hj Hq. rewrite list_lookup_alter. case_decide as E; [|by eauto]. subst. simplify_eq. by destruct Hq. }
  assert (∀ j q, l !! j = Some q → pid q ≠ next) as Hfresh.
  { intros j q Hj E. destruct (decide (state q = UNUSED)) as [Hq|Hq]; [by destruct (Hun _ _ Hj Hq); lia|].
    specialize (Hpid _ _ Hj Hq). lia. }
  split.
  - intros j q [[-> ->]|[? Hj]]%Hcase Hq; [lia|]. specialize (Hpid _ _ Hj Hq). lia.
  - intros j k q q' [[-> ->]|[? Hj]]%Hcase [[-> ->]|[? Hk]]%Hcase Hq HE; try done.
    + rewrite Hp' in HE. by destruct (Hfresh _ _ Hk).
    + rewrite Hp' in HE. by destruct (Hfresh _ _ Hj).
    + by eapply Hu.
  - intros j q [[-> ->]|[? Hj]]%Hcase Hq; [congruence|by eapply Hun].
  - intros j q k [[-> ->]|[? Hj]]%Hcase Hk; [congruence|].
    destruct (Hpar _ _ _ Hj Hk) as (x & Hx & Ha). by eapply Hlive.
  - intros k Hk. destruct (Hini _ Hk) as (x & Hx & Ha). by eapply Hlive.
Qed.

(** A slot freed by [freeproc]. *)
Lemma tbl_inv_free l next ip i p f :
  tbl_inv l next ip → l !! i = Some p → ¬ alive p ∨ (ip ≠ Some i ∧ ∀ j q, l !! j = Some q → parent q ≠ Some i) →
  (state (f p) = UNUSED ∧ pid (f p) = 0 ∧ parent (f p) = None ∧ pagetable (f p) = 0 ∧ trapframe (f p) = 0 ∧
   sz (f p) = 0 ∧ chan (f p) = 0) → tbl_inv (alter f i l) next ip.
Proof.
  intros [Hpid Hu Hun Hpar Hini] Hi Hn (Hs & Hrest). pose proof Hrest as (Hp0 & Hpar0 & _).
  assert (∀ j q, alter f i l !! j = Some q → (j = i ∧ q = f p) ∨ (j ≠ i ∧ l !! j = Some q)) as Hcase.
  { intros j q. rewrite list_lookup_alter. case_decide as E; [|by auto]. subst. rewrite Hi. intros [= <-]. by left. }
  split.
  - intros j q [[-> ->]|[? Hj]]%Hcase Hq; [congruence|by eapply Hpid].
  - intros j k q q' [[-> ->]|[? Hj]]%Hcase [[-> ->]|[? Hk]]%Hcase Hq HE; try done.
    + specialize (Hpid _ _ Hj Hq). lia.
    + by eapply Hu.
  - intros j q [[-> ->]|[? Hj]]%Hcase Hq; [done|by eapply Hun].
  - intros j q k [[-> ->]|[? Hj]]%Hcase Hk; [congruence|].
    destruct (Hpar _ _ _ Hj Hk) as (x & Hx & Ha). exists x. split; [|done].
    rewrite list_lookup_alter. rewrite decide_False; [done|]. intros ->. simplify_eq.
    destruct Hn as [?|[_ Hn]]; [done|by destruct (Hn _ _ Hj)].
  - intros k Hk. destruct (Hini _ Hk) as (x & Hx & Ha). exists x. split; [|done].
    rewrite list_lookup_alter. rewrite decide_False; [done|]. intros ->. simplify_eq.
    destruct Hn as [?|[? _]]; done.
Qed.

(** ** Runs seen through the locks and the table *)

(** The part of the state the theorems below follow. *)
Record cfg := Cfg { c_depth : nat; c_held : list lockid; c_tab : list proc; c_next : Z; c_init : option nat }.

Section table.
Context {F : Type} `{!FileSys F} `{!KernelImage} `{!KernelText}.
Implicit Types s : pst F.

Definition at_cfg (b : bool) (k : cfg) s : Prop :=
  thr b (c_depth k) (c_held k) s ∧ procs s = c_tab k ∧ nextpid s = c_next k ∧ initproc s = c_init k.

(** From [k], [c] returns as [Q] says or switches away as [R] says; it fails
    only if [lax], so that [tr False] is total correctness. *)
Definition tr {A} (lax : Prop) (k : cfg) (c : M (pst F) A) (Q : A → cfg → Prop) (R : cfg → Prop) : Prop :=
  ∀ b s, at_cfg b k s →
    match c s with
    | Ok a s' => ∃ k', at_cfg b k' s' ∧ Q a k'
    | Sleep _ s' => ∃ k', at_cfg b k' s' ∧ R k'
    | _ => lax
    end.

Section rules.
Context {lax : Prop} {B : Type} {Q : B → cfg → Prop} {R : cfg → Prop}.

Lemma tr_ret k (a : B) : Q a k → tr lax k (mret a) Q R.
Proof. intros HQ b s Hs. by exists k. Qed.

Lemma tr_bind {A} k (c : M (pst F) A) (f : A → M (pst F) B) (P : A → cfg → Prop) :
  tr lax k c P R → (∀ a k', P a k' → tr lax k' (f a) Q R) → tr lax k (c ≫= f) Q R.
Proof.
  intros Hc Hf b s Hs. specialize (Hc b s Hs). unfold mbind, M_bind.
  destruct (c s) as [a s'| | | |]; try done. destruct Hc as (k' & Hk' & HP). by apply (Hf a k').
Qed.

Lemma tr_skip {A} k (a : A) (f : A → M (pst F) B) : tr lax k (f a) Q R → tr lax k (mret a ≫= f) Q R.
Proof. done. Qed.

Lemma tr_mono {A} k (c : M (pst F) A) (P P' : A → cfg → Prop) (R' : cfg → Prop) :
  tr lax k c P R' → (∀ a k', P a k' → P' a k') → (∀ k', R' k' → R k') → tr lax k c P' R.
Proof.
  intros Hc HP HR b s Hs. specialize (Hc b s Hs). destruct (c s) as [a s'| | | |]; try done;
    destruct Hc as (k' & ? & ?); eauto.
Qed.

Lemma tr_acquire d h l n ip lk (f : unit → M (pst F) B) :
  lk ∉ h → tr lax (Cfg (S d) (lk :: h) l n ip) (f tt) Q R → tr lax (Cfg d h l n ip) (acquire lk ≫= f) Q R.
Proof.
  intros Hl Hf b s [[Hd Hh] Ht]. unfold acquire, oncpu, lift, zoom, mbind, M_bind.
  destruct (push_off_depth b d (mycpu s) Hd) as (c & -> & Hc). simpl in *. rewrite Hh. rewrite decide_False by done.
  apply (Hf b). split; [|done]. split; [done|]. simpl. by rewrite Hh.
Qed.

Lemma tr_release d h l n ip lk (f : unit → M (pst F) B) :
  lk ∈ h → tr lax (Cfg d (filter (λ x, x ≠ lk) h) l n ip) (f tt) Q R →
  tr lax (Cfg (S d) h l n ip) (release lk ≫= f) Q R.
Proof.
  intros Hl Hf b s [[Hd Hh] Ht]. unfold release, oncpu, lift, zoom, mbind, M_bind, gets, modify. simpl in *.
  rewrite Hh, decide_True by done. destruct (pop_off_depth b d (mycpu s) Hd) as (c & E & Hc). simpl. rewrite E.
  apply (Hf b). split; [|done]. split; [done|]. simpl. by rewrite Hh.
Qed.

Lemma tr_release_head d h l n ip lk (f : unit → M (pst F) B) :
  lk ∉ h → tr lax (Cfg d h l n ip) (f tt) Q R → tr lax (Cfg (S d) (lk :: h) l n ip) (release lk ≫= f) Q R.
Proof. intros Hl Hf. apply tr_release; [by left|]. by rewrite filter_head. Qed.

Lemma tr_get_proc d h l n ip i (f : proc → M (pst F) B) :
  (l !! i = None → lax) → (∀ p, l !! i = Some p → tr lax (Cfg d h l n ip) (f p) Q R) →
  tr lax (Cfg d h l n ip) (get_proc i ≫= f) Q R.
Proof.
  intros Hn Hf b s Hs. pose proof Hs as (_ & Ht & _). simpl in Ht. unfold get_proc, mbind, M_bind. rewrite Ht.
  destruct (l !! i) as [p|] eqn:E; [by apply (Hf p)|auto].
Qed.

Lemma tr_upd d h l n ip i g (f : unit → M (pst F) B) :
  tr lax (Cfg d h (alter g i l) n ip) (f tt) Q R → tr lax (Cfg d h l n ip) (upd_proc i g ≫= f) Q R.
Proof.
  intros Hf b s (Ht & Hl & Hn & Hi). apply (Hf b). split; [done|]. simpl in *. by rewrite Hl.
Qed.

Lemma tr_init d h l n ip (f : option nat → M (pst F) B) :
  tr lax (Cfg d h l n ip) (f ip) Q R → tr lax (Cfg d h l n ip) (gets initproc ≫= f) Q R.
Proof. intros Hf b s Hs. pose proof Hs as (_ & _ & _ & Hi). unfold mbind, M_bind, gets. rewrite Hi. by apply Hf. Qed.

Lemma tr_vm {A} k (c : M kst A) (f : A → M (pst F) B) :
  lax → quiet true c → (∀ a, tr lax k (f a) Q R) → tr lax k (vm c ≫= f) Q R.
Proof.
  intros Hlax Hc Hf b s Hs. specialize (Hc (kern s)). unfold vm, lift, zoom, mbind, M_bind.
  destruct (c (kern s)) as [a t| | | |]; try done. by apply (Hf a).
Qed.

Lemma tr_calm {A} k (c : M (pst F) A) (f : A → M (pst F) B) :
  lax → calm c → (∀ a, LOther a ∉ c_held k) → (∀ a, tr lax k (f a) Q R) → tr lax k (c ≫= f) Q R.
Proof.
  intros Hlax Hc Hh Hf b s (Ht & Hl & Hn & Hi). specialize (Hc b _ _ s Ht Hh). unfold mbind, M_bind.
  destruct (c s) as [a s'| | | |]; try done. apply (Hf a b s'). destruct Hc as (E1 & E2 & E3 & E4).
  unfold at_cfg. by rewrite E2, E3, E4.
Qed.

(** A call into the file layer. *)
Lemma tr_tidy {A} l n ip cur (c : M (pst F) A) (f : A → M (pst F) B) :
  lax → tidy cur c → (∀ a l', woken l l' → tr lax (Cfg 0 [] l' n ip) (f a) Q R) →
  (∀ l' ch, woken l l' → R (Cfg 1 [LProc cur] (alter (set_state SLEEPING ∘ set_chan ch) cur l') n ip)) →
  tr lax (Cfg 0 [] l n ip) (c ≫= f) Q R.
Proof.
  intros Hlax Hc Hf HR b s (Ht & Hl & Hn & Hi). simpl in *. specialize (Hc b s Ht). unfold mbind, M_bind.
  destruct (c s) as [a s'| | |ch s'|]; try done.
  - destruct Hc as (Ht' & Hw & En & Ei). apply (Hf a (procs s')); [by rewrite <- Hl|]. unfold at_cfg. simpl.
    by rewrite En, Ei.
  - destruct Hc as (Ht' & En & Ei & l' & ch' & Hw & El). eexists. split; [|apply (HR l' ch'); by rewrite <- Hl].
    unfold at_cfg. simpl. by rewrite En, Ei, El.
Qed.

End rules.

(** Total runs that return, or that switch away. *)
Lemma tr_returns {A} k (c : M (pst F) A) Q b s : tr False k c Q (λ _, False) → at_cfg b k s →
  ∃ a s' k', c s = Ok a s' ∧ at_cfg b k' s' ∧ Q a k'.
Proof. intros Hc Hk. specialize (Hc b s Hk). destruct (c s) as [a s'| | | |]; try done; naive_solver. Qed.

Lemma tr_switches {A} k (c : M (pst F) A) R b s : tr False k c (λ _ _, False) R → at_cfg b k s →
  ∃ ch s' k', c s = Sleep ch s' ∧ at_cfg b k' s' ∧ R k'.
Proof. intros Hc Hk. specialize (Hc b s Hk). destruct (c s) as [a s'| | | |]; try done; naive_solver. Qed.

(** The last call of a sequence. *)
Lemma bind_mret_r {A} (c : M (pst F) A) s : (c ≫= mret) s = c s.
Proof. unfold mbind, M_bind. by destruct (c s). Qed.

Lemma tr_last {A} lax k (c : M (pst F) A) Q R : tr lax k (c ≫= mret) Q R → tr lax k c Q R.
Proof. intros Hc b s Hs. specialize (Hc b s Hs). by rewrite bind_mret_r in Hc. Qed.

Lemma acquire_tr lax d h l n ip lk R : lk ∉ h →
  tr lax (Cfg d h l n ip) (acquire lk : M (pst F) _) (λ _ k, k = Cfg (S d) (lk :: h) l n ip) R.
Proof. intros. apply tr_last, tr_acquire; [done|]. by apply tr_ret. Qed.
Lemma release_tr lax d h l n ip lk R : lk ∉ h →
  tr lax (Cfg (S d) (lk :: h) l n ip) (release lk : M (pst F) _) (λ _ k, k = Cfg d h l n ip) R.
Proof. intros. apply tr_last, tr_release_head; [done|]. by apply tr_ret. Qed.
Lemma killed_tr lax d h l n ip i p R : LProc i ∉ h → l !! i = Some p →
  tr lax (Cfg d h l n ip) (killed i : M (pst F) _) (λ v k, v = killed_ p ∧ k = Cfg d h l n ip) R.
Proof.
  intros Hh Hp. apply tr_acquire; [done|]. apply tr_get_proc; [by rewrite Hp|]. intros q Hq. simplify_eq.
  apply tr_release_head; [done|]. by apply tr_ret.
Qed.

Lemma upd_tr lax d h l n ip i g R :
  tr lax (Cfg d h l n ip) (upd_proc i g : M (pst F) _) (λ _ k, k = Cfg d h (alter g i l) n ip) R.
Proof. by apply tr_last, tr_upd, tr_ret. Qed.

(** ** [wakeup] *)

Definition wake_one (cur : option nat) (ch : Z) (i : nat) (p : proc) : proc :=
  if decide (cur ≠ Some i ∧ state p = SLEEPING ∧ chan p = ch) then set_state RUNNABLE p else p.

(** Every other process asleep on [ch] made runnable. *)
Definition wake (cur : option nat) (ch : Z) (l : list proc) : list proc := imap (wake_one cur ch) l.

Lemma imap_from (f : nat → proc → proc) l i p :
  l !! i = Some p → imap (λ j q, if decide (i ≤ j)%nat then f j q else q) l =
  imap (λ j q, if decide (S i ≤ j)%nat then f j q else q) (<[i := f i p]> l).
Proof.
  intros Hp. apply list_eq. intros j. rewrite !list_lookup_imap.
  destruct (decide (i = j)) as [->|Hne].
  - rewrite list_lookup_insert_eq by (by eapply lookup_lt_Some). rewrite Hp. simpl. by rewrite decide_True, decide_False by lia.
  - rewrite list_lookup_insert_ne by done. destruct (l !! j) as [q|]; [|done]. simpl.
    destruct (decide (i ≤ j)%nat), (decide (S i ≤ j)%nat); (done || lia).
Qed.

Lemma imap_stop (f : nat → proc → proc) l i :
  (length l ≤ i)%nat → imap (λ j q, if decide (i ≤ j)%nat then f j q else q) l = l.
Proof.
  intros Hi. apply list_eq. intros j. rewrite list_lookup_imap. destruct (l !! j) as [q|] eqn:E; [|done].
  apply lookup_lt_Some in E. simpl. by rewrite decide_False by lia.
Qed.

Lemma imap_start (f : nat → proc → proc) l : imap (λ j q, if decide (0 ≤ j)%nat then f j q else q) l = imap f l.
Proof. apply imap_ext. intros j q _. by rewrite decide_True by lia. Qed.

Lemma wakeup_tr lax d h l n ip cur ch R :
  (∀ i, LProc i ∉ h) → length l = Z.to_nat NPROC →
  tr lax (Cfg d h l n ip) (wakeup cur ch) (λ _ k, k = Cfg d h (wake cur ch l) n ip) R.
Proof.
  intros Hh Hlen. unfold wake. rewrite <- imap_start. unfold wakeup.
  enough (∀ m l i, length l = (i + m)%nat →
    tr lax (Cfg d h l n ip) (wakeup_loop m i cur ch)
      (λ _ k, k = Cfg d h (imap (λ j q, if decide (i ≤ j)%nat then wake_one cur ch j q else q) l) n ip) R) as Hw by by apply Hw.
  clear l Hlen.
  induction m as [|m IH]; intros l i Hl.
  { apply tr_ret. rewrite imap_stop by lia. done. }
  destruct (lookup_lt_is_Some_2 l i) as [p Hp]; [lia|]. cbn [wakeup_loop]. erewrite imap_from by done.
  eapply (tr_bind _ _ _ (λ _ k, k = Cfg d h (<[i := wake_one cur ch i p]> l) n ip)).
  2:{ intros [] k ->. apply IH. rewrite length_insert. lia. }
  unfold wake_one. case_decide as Hc.
  { rewrite decide_False by naive_solver. apply tr_ret. by rewrite list_insert_id. }
  apply tr_acquire; [done|]. apply tr_get_proc; [congruence|]. intros q Hq. simplify_eq.
  case_decide as Hs.
  - rewrite decide_True by done. apply tr_upd, tr_last, tr_release_head; [done|]. apply tr_ret. by erewrite alter_insert.
  - rewrite decide_False by naive_solver. apply tr_skip, tr_last, tr_release_head; [done|]. apply tr_ret. by rewrite list_insert_id.
Qed.

(** ** [reparent] *)

Definition is_child (cur : nat) (p : proc) : bool := bool_decide (parent p = Some cur).
Definition adopt (cur : nat) (ip : option nat) (p : proc) : proc :=
  if is_child cur p then set_parent ip p else p.

(** The children of [cur] given to init, which is woken if there are any. *)
Definition reparented (cur : nat) (ip : option nat) (l : list proc) : list proc :=
  let l' := adopt cur ip <$> l in
  if existsb (is_child cur) l then wake (Some cur) (chan_opt ip) l' else l'.

Lemma wake_one_parent cur ch i p : parent (wake_one cur ch i p) = parent p.
Proof. unfold wake_one. by case_decide. Qed.

Lemma wake_one_twice cur ch i p : wake_one cur ch i (wake_one cur ch i p) = wake_one cur ch i p.
Proof.
  unfold wake_one at 2 3. case_decide as E; unfold wake_one.
  - rewrite decide_False; [done|]. intros (_ & Hs & _). done.
  - by rewrite decide_False.
Qed.

Lemma wake_one_adopt cur ch i c ip p : wake_one cur ch i (adopt c ip p) = adopt c ip (wake_one cur ch i p).
Proof. unfold adopt, is_child. rewrite wake_one_parent. case_bool_decide; [|done]. unfold wake_one. by repeat case_decide. Qed.

(** One turn of [reparent]'s loop, on a table seen slot by slot. *)
Definition reparent_from (cur : nat) (ip : option nat) (i : nat) (l : list proc) : list proc :=
  imap (λ j p, let p' := if decide (i ≤ j)%nat then adopt cur ip p else p in
               if existsb (is_child cur) (drop i l) then wake_one (Some cur) (chan_opt ip) j p' else p') l.

Lemma existsb_child_imap cur f l : (∀ i p, parent (f i p) = parent p) →
  existsb (is_child cur) (imap f l) = existsb (is_child cur) l.
Proof.
  revert f. induction l as [|p l IH]; intros f Hf; [done|]. simpl. rewrite IH by (intros; apply Hf).
  unfold is_child. by rewrite Hf.
Qed.

Lemma drop_imap (f : nat → proc → proc) n l : drop n (imap f l) = imap (λ i, f (n + i)%nat) (drop n l).
Proof.
  revert f l. induction n as [|n IH]; intros f [|p l]; try done. simpl. by rewrite IH.
Qed.

Lemma reparent_from_child cur ip i l p : l !! i = Some p → is_child cur p = true →
  reparent_from cur ip (S i) (wake (Some cur) (chan_opt ip) (alter (set_parent ip) i l)) = reparent_from cur ip i l.
Proof.
  intros Hp Hc. unfold reparent_from. rewrite (drop_S l p i Hp). simpl. rewrite Hc. simpl.
  apply list_eq. intros j. rewrite !list_lookup_imap. unfold wake. rewrite list_lookup_imap.
  destruct (decide (i = j)) as [<-|Hne].
  - rewrite list_lookup_alter_eq, Hp. simpl. rewrite decide_False, decide_True by lia. unfold adopt. rewrite Hc.
    f_equal. case_match; [apply wake_one_twice|done].
  - rewrite list_lookup_alter_ne by done. destruct (l !! j) as [q|]; [|done]. simpl. f_equal.
    destruct (decide (i ≤ j)%nat), (decide (S i ≤ j)%nat); try lia; case_match;
      rewrite <- ?wake_one_adopt, ?wake_one_twice; done.
Qed.

Lemma reparent_from_other cur ip i l p : l !! i = Some p → is_child cur p = false →
  reparent_from cur ip (S i) l = reparent_from cur ip i l.
Proof.
  intros Hp Hc. unfold reparent_from. rewrite (drop_S l p i Hp). simpl. rewrite Hc. simpl.
  apply imap_ext. intros j q Hq. destruct (decide (i = j)) as [<-|Hne].
  - simplify_eq. rewrite decide_False, decide_True by lia. unfold adopt. by rewrite Hc.
  - destruct (decide (i ≤ j)%nat), (decide (S i ≤ j)%nat); (done || lia).
Qed.

Lemma reparent_tr lax d h l n ip cur R :
  (∀ i, LProc i ∉ h) → length l = Z.to_nat NPROC →
  tr lax (Cfg d h l n ip) (reparent cur) (λ _ k, k = Cfg d h (reparented cur ip l) n ip) R.
Proof.
  intros Hh Hlen. replace (reparented cur ip l) with (reparent_from cur ip 0 l).
  2:{ unfold reparent_from, reparented, wake. rewrite drop_0. case_match.
      - apply list_eq. intros j. rewrite !list_lookup_imap, list_lookup_fmap. by destruct (l !! j).
      - apply list_eq. intros j. rewrite !list_lookup_imap, list_lookup_fmap. by destruct (l !! j). }
  unfold reparent.
  enough (∀ m l i, length l = (i + m)%nat → length l = Z.to_nat NPROC →
    tr lax (Cfg d h l n ip) (reparent_loop m i cur) (λ _ k, k = Cfg d h (reparent_from cur ip i l) n ip) R) as Hw by by apply Hw.
  clear l Hlen. induction m as [|m IH]; intros l i Hl Hlen.
  { apply tr_ret. unfold reparent_from. rewrite drop_ge by lia. simpl. by rewrite imap_stop by lia. }
  destruct (lookup_lt_is_Some_2 l i) as [p Hp]; [lia|]. cbn [reparent_loop].
  apply tr_get_proc; [congruence|]. intros q Hq. simplify_eq. case_decide as Hc.
  - eapply (tr_bind _ _ _ (λ _ k, k = _)).
    + apply tr_init, tr_upd. apply wakeup_tr; [done|]. by rewrite length_alter.
    + intros [] k ->. rewrite <- (reparent_from_child cur ip i l p) by (done || by apply bool_decide_eq_true).
      unfold wake. apply IH; rewrite length_imap, length_alter; lia.
  - apply tr_skip. rewrite <- (reparent_from_other cur ip i l p) by (done || by apply bool_decide_eq_false). apply IH; lia.
Qed.

(** ** [exit] *)

(** [wakeup] leaves a process that is not asleep alone. *)
Lemma woken_awake l l' i p : woken l l' → l !! i = Some p → state p ≠ SLEEPING → l' !! i = Some p.
Proof.
  intros Hw Hp Hs. destruct (Forall2_lookup_l _ _ _ _ _ Hw Hp) as (q & Hq & [->|[? _]]); [done|done].
Qed.

Lemma woken_refl l : woken l l.
Proof. apply Forall_Forall2_diag, list.Forall_forall. intros p _. by left. Qed.

Lemma woken_trans l1 l2 l3 : woken l1 l2 → woken l2 l3 → woken l1 l3.
Proof.
  intros H12. revert l3. induction H12 as [|p q l1 l2 Hpq _ IH]; intros l3 H23; inversion H23 as [|? r ? l4 Hqr]; subst;
    constructor; [|by apply IH].
  destruct Hpq as [->|[Hs ->]], Hqr as [->|[Hs' ->]]; [by left|by right|by right|]. by simpl in Hs'.
Qed.

(** Waking others and changing a process that is awake commute. *)
Lemma woken_alter l l2 i p (f : proc → proc) :
  l !! i = Some p → state p ≠ SLEEPING → state (f p) ≠ SLEEPING → woken (alter f i l) l2 →
  ∃ l', woken l l' ∧ l' !! i = Some p ∧ l2 = alter f i l'.
Proof.
  intros Hp Hs Hfs Hw. pose proof (list.Forall2_length _ _ _ Hw) as Hlen. rewrite length_alter in Hlen.
  assert (l2 !! i = Some (f p)) as H2.
  { eapply woken_awake; [done|by rewrite list_lookup_alter_eq, Hp|done]. }
  assert (i < length l)%nat as Hi by (by eapply lookup_lt_Some).
  exists (<[i := p]> l2). split; [|split].
  - apply Forall2_same_length_lookup. rewrite length_insert. split; [done|]. intros j x y Hx Hy.
    destruct (decide (j = i)) as [->|Hne].
    + rewrite list_lookup_insert_eq in Hy by lia. simplify_eq. by left.
    + rewrite list_lookup_insert_ne in Hy by done.
      eapply (Forall2_lookup_lr _ _ _ j); [exact Hw|by rewrite list_lookup_alter_ne|done].
  - apply list_lookup_insert_eq. lia.
  - apply list_eq. intros j. destruct (decide (i = j)) as [<-|Hne].
    + by rewrite list_lookup_alter_eq, list_lookup_insert_eq by lia.
    + by rewrite list_lookup_alter_ne, list_lookup_insert_ne by done.
Qed.

Section file_layer.
Context {FQ : FileSysLaws}.

(** The state of [exit] asleep in the file layer. *)
Definition closing (cur : nat) (l : list proc) (n : Z) (ip : option nat) (k : cfg) : Prop :=
  ∃ o l' ch, woken l l' ∧ k = Cfg 1 [LProc cur] (alter (set_state SLEEPING ∘ set_chan ch ∘ set_ofile o) cur l') n ip.

(** A call of the file layer while [exit] closes files. *)
Lemma tr_closing {A B} lax l l1 n ip cur p o (c : M (pst F) A) (f : A → M (pst F) B) Q (R : cfg → Prop) :
  lax → tidy cur c → (∀ k, closing cur l n ip k → R k) →
  woken l l1 → l1 !! cur = Some p → state p ≠ SLEEPING →
  (∀ a l2, woken l l2 → l2 !! cur = Some p → tr lax (Cfg 0 [] (alter (set_ofile o) cur l2) n ip) (f a) Q R) →
  tr lax (Cfg 0 [] (alter (set_ofile o) cur l1) n ip) (c ≫= f) Q R.
Proof.
  intros Hlax Hc HR Hw Hp Hs Hf. apply (tr_tidy _ _ _ cur); [done|done|..].
  - intros a l2 Hw2. destruct (woken_alter _ _ _ _ (set_ofile o) Hp Hs Hs Hw2) as (l3 & Hw3 & Hp3 & ->).
    apply Hf; [by eapply woken_trans|done].
  - intros l2 ch Hw2. apply HR. destruct (woken_alter _ _ _ _ (set_ofile o) Hp Hs Hs Hw2) as (l3 & Hw3 & Hp3 & ->).
    exists o, l3, ch. split; [by eapply woken_trans|]. by rewrite alter_alter.
Qed.

Lemma close_files_tr lax l n ip cur p R :
  lax → (∀ k, closing cur l n ip k → R k) → l !! cur = Some p → state p ≠ SLEEPING →
  tr lax (Cfg 0 [] l n ip) (close_files (ofile p) cur 0)
    (λ _ k, ∃ l', woken l l' ∧ l' !! cur = Some p ∧
       k = Cfg 0 [] (alter (set_ofile (replicate (length (ofile p)) 0)) cur l') n ip) R.
Proof using FQ.
  intros Hlax HR Hp Hs.
  enough (∀ done rest l1, woken l l1 → l1 !! cur = Some p →
    tr lax (Cfg 0 [] (alter (set_ofile (replicate done 0 ++ rest)) cur l1) n ip) (close_files rest cur done)
    (λ _ k, ∃ l', woken l l' ∧ l' !! cur = Some p ∧
       k = Cfg 0 [] (alter (set_ofile (replicate (done + length rest) 0)) cur l') n ip) R) as Hl.
  { specialize (Hl 0%nat (ofile p) l (woken_refl l) Hp). simpl in Hl.
    rewrite (alter_ext_at _ id _ _ p) in Hl by (done || by destruct p). by rewrite list_alter_id in Hl by done. }
  intros m rest. revert m. induction rest as [|f rest IH]; intros m l1 Hw Hp1.
  { apply tr_ret. exists l1. by rewrite app_nil_r, Nat.add_0_r. }
  simpl. replace (m + S (length rest))%nat with (S m + length rest)%nat by lia.
  assert (replicate m 0 ++ 0 :: rest = replicate (S m) 0 ++ rest) as E
    by (by rewrite (replicate_S_end m), <- (assoc_L (++))).
  destruct (f =? 0) eqn:Ef.
  { apply tr_skip. replace f with 0 by lia. rewrite E. by apply IH. }
  eapply (tr_bind _ _ _ (λ _ k, ∃ l2, woken l l2 ∧ l2 !! cur = Some p ∧
    k = Cfg 0 [] (alter (set_ofile (replicate m 0 ++ 0 :: rest)) cur l2) n ip)).
  - eapply (tr_closing lax l); [done|apply fileclose_tidy|done|exact Hw|done|done|].
    intros _ l2 Hw2 Hp2. apply tr_last, tr_upd, tr_ret. exists l2. split; [done|]. split; [done|]. f_equal.
    rewrite alter_alter. eapply alter_ext_at; [done|]. unfold compose. simpl. unfold set_ofile. simpl. f_equal.
    rewrite <- (Nat.add_0_r m) at 1. rewrite <- (length_replicate m 0) at 1. by rewrite insert_app_r.
  - intros [] k (l2 & Hw2 & Hp2 & ->). rewrite E. by apply IH.
Qed.

(** The exiting process as it leaves, and its effect on another one. *)
Definition zombie (status : Z) (p : proc) : proc :=
  set_state ZOMBIE (set_xstate status (set_cwd 0 (set_ofile (replicate (length (ofile p)) 0) p))).
Definition exit_other (cur : nat) (ip : option nat) (par : option nat) (kids : bool) (i : nat) (q : proc) : proc :=
  let q' := adopt cur ip q in
  wake_one (Some cur) (chan_opt par) i (if kids then wake_one (Some cur) (chan_opt ip) i q' else q').
Definition exited (cur : nat) (status : Z) (p : proc) (ip : option nat) (l : list proc) : list proc :=
  imap (λ i q, if decide (i = cur) then zombie status p
               else exit_other cur ip (parent p) (existsb (is_child cur) l) i q) l.

Lemma wake_one_self cur ch p : wake_one (Some cur) ch cur p = p.
Proof. unfold wake_one. by rewrite decide_False by naive_solver. Qed.

Lemma existsb_child_alter cur f i l : (∀ p, parent (f p) = parent p) →
  existsb (is_child cur) (alter f i l) = existsb (is_child cur) l.
Proof.
  intros Hf. revert i. induction l as [|p l IH]; intros [|i]; try done; simpl.
  - unfold is_child. by rewrite Hf.
  - f_equal. apply IH.
Qed.

Lemma exited_eq cur status p ip l f :
  l !! cur = Some p → parent p ≠ Some cur → f = set_cwd 0 ∘ set_ofile (replicate (length (ofile p)) 0) →
  alter (set_state ZOMBIE) cur (alter (set_xstate status) cur
    (wake (Some cur) (chan_opt (parent p)) (reparented cur ip (alter f cur l)))) = exited cur status p ip l.
Proof.
  intros Hp Hpar Ef. apply list_eq. intros i. unfold exited. rewrite alter_alter, list_lookup_imap.
  unfold reparented. rewrite existsb_child_alter by (by subst f).
  assert (adopt cur ip (f p) = f p) as Hself.
  { unfold adopt, is_child. rewrite bool_decide_false; [done|]. by subst f. }
  destruct (decide (cur = i)) as [<-|Hne].
  - rewrite list_lookup_alter_eq, Hp. unfold wake. rewrite list_lookup_imap. simpl. rewrite decide_True by done.
    case_match; rewrite ?list_lookup_imap, list_lookup_fmap, list_lookup_alter_eq, Hp; simpl;
      rewrite Hself, ?wake_one_self; by subst f.
  - rewrite list_lookup_alter_ne by done. unfold wake. rewrite list_lookup_imap. unfold exit_other.
    case_match; rewrite ?list_lookup_imap, list_lookup_fmap, list_lookup_alter_ne by done;
      destruct (l !! i); simpl; by rewrite ?decide_False by done.
Qed.

Lemma reparented_length cur ip l : length (reparented cur ip l) = length l.
Proof. unfold reparented, wake. case_match; by rewrite ?length_imap, length_fmap. Qed.

Lemma reparented_self cur ip l p : l !! cur = Some p → parent p ≠ Some cur → reparented cur ip l !! cur = Some p.
Proof.
  intros Hp Hpar. assert (adopt cur ip p = p) as E by (unfold adopt, is_child; by rewrite bool_decide_false).
  unfold reparented, wake. case_match; rewrite ?list_lookup_imap, list_lookup_fmap, Hp; simpl; by rewrite E, ?wake_one_self.
Qed.

Lemma sched_tr lax l n ip cur ch p {B} (f : unit → M (pst F) B) Q (R : cfg → Prop) :
  l !! cur = Some p → state p ≠ RUNNING → R (Cfg 1 [LProc cur] l n ip) →
  tr lax (Cfg 1 [LProc cur] l n ip) (sched cur ch ≫= f) Q R.
Proof.
  intros Hp Hs HR b s Hk. pose proof Hk as ([Hd Hh] & Hl & _). simpl in *.
  unfold sched, get_proc, mbind, M_bind, gets. rewrite Hl, Hp, Hh. rewrite bool_decide_true by by left. simpl.
  pose proof Hd as [Hn [Hi _]]. rewrite Hn. simpl. rewrite decide_False by done. rewrite Hi. by eexists.
Qed.

(** [exit] is what it does in the file layer, and the rest. *)
Definition exit_files (cur : nat) (p : proc) : M (pst F) unit :=
  close_files (ofile p) cur 0;; begin_op cur;; iput cur (cwd p);; end_op cur.
Definition exit_rest (cur : nat) (status : Z) : M (pst F) unit :=
  upd_proc cur (set_cwd 0);;
  acquire LWait;;
  reparent cur;;
  p ← get_proc cur;
  wakeup (Some cur) (chan_opt (parent p));;
  acquire (LProc cur);;
  upd_proc cur (set_xstate status);;
  upd_proc cur (set_state ZOMBIE);;
  release LWait;;
  sched cur 0;;
  panic "zombie exit".

Lemma exit_split cur p status s : initproc s ≠ Some cur → procs s !! cur = Some p →
  exit cur status s = (exit_files cur p;; exit_rest cur status) s.
Proof.
  intros Hi Hp. unfold exit, exit_files, mbind, M_bind, gets. rewrite decide_False by done. unfold get_proc at 1. rewrite Hp.
  destruct (close_files (ofile p) cur 0 s) as [? s1| | | |]; try done.
  destruct (begin_op cur s1) as [? s2| | | |]; try done. destruct (iput cur (cwd p) s2) as [? s3| | | |]; try done.
Qed.

Lemma exit_files_tr lax l n ip cur p (R : cfg → Prop) :
  lax → (∀ k, closing cur l n ip k → R k) → l !! cur = Some p → state p ≠ SLEEPING →
  tr lax (Cfg 0 [] l n ip) (exit_files cur p)
    (λ _ k, ∃ l', woken l l' ∧ l' !! cur = Some p ∧
       k = Cfg 0 [] (alter (set_ofile (replicate (length (ofile p)) 0)) cur l') n ip) R.
Proof using FQ.
  intros Hlax HR Hp Hs. unfold exit_files.
  eapply tr_bind; [by apply close_files_tr|]. intros [] k (l1 & Hw1 & Hp1 & ->).
  eapply (tr_closing lax l); [done|apply begin_op_tidy|done|exact Hw1|done|done|]. clear l1 Hw1 Hp1. intros _ l1 Hw1 Hp1.
  eapply (tr_closing lax l); [done|apply iput_tidy|done|exact Hw1|done|done|]. clear l1 Hw1 Hp1. intros _ l1 Hw1 Hp1.
  apply tr_last.
  eapply (tr_closing lax l); [done|apply end_op_tidy|done|exact Hw1|done|done|]. clear l1 Hw1 Hp1. intros [] l1 Hw1 Hp1.
  apply tr_ret. by exists l1.
Qed.

Lemma exit_rest_tr lax l1 n ip cur p status (R : cfg → Prop) :
  length l1 = Z.to_nat NPROC → l1 !! cur = Some p → parent p ≠ Some cur →
  R (Cfg 1 [LProc cur] (exited cur status p ip l1) n ip) →
  tr lax (Cfg 0 [] (alter (set_ofile (replicate (length (ofile p)) 0)) cur l1) n ip) (exit_rest cur status) (λ _ _, False) R.
Proof using FQ.
  intros Hlen1 Hp1 Hpar HR.
  apply tr_upd, tr_acquire; [apply not_elem_of_nil|]. rewrite alter_alter.
  eapply tr_bind. { apply reparent_tr; [set_solver|by rewrite length_alter]. }
  intros [] k ->. set (f := set_cwd 0 ∘ set_ofile _). set (l2 := reparented cur ip (alter f cur l1)).
  assert (∃ q, l2 !! cur = Some q ∧ parent q = parent p) as (q & Hq & Eq).
  { exists (f p). split; [|done]. apply reparented_self; [by rewrite list_lookup_alter_eq, Hp1|done]. }
  apply tr_get_proc; [congruence|]. intros q' Hq'. simplify_eq. rewrite Eq.
  eapply tr_bind. { apply wakeup_tr; [set_solver|]. unfold l2. by rewrite reparented_length, length_alter. }
  intros [] k ->. apply tr_acquire; [set_solver|]. do 2 apply tr_upd.
  apply tr_release; [set_solver|]. rewrite filter_second by (done || apply not_elem_of_nil).
  unfold l2. rewrite (exited_eq cur status p ip l1 f) by done.
  apply (sched_tr _ _ _ _ _ _ (zombie status p)); [|done|done].
  unfold exited. rewrite list_lookup_imap, Hp1. simpl. by rewrite decide_True.
Qed.

Lemma woken_length l l' : woken l l' → length l' = length l.
Proof. intros Hw. symmetry. by apply (list.Forall2_length woken1). Qed.

Lemma exit_tr lax l n ip cur p status :
  lax → length l = Z.to_nat NPROC → l !! cur = Some p → state p ≠ SLEEPING → parent p ≠ Some cur →
  tr lax (Cfg 0 [] l n ip) (exit cur status) (λ _ _, False)
    (λ k, closing cur l n ip k ∨
          ∃ l', woken l l' ∧ l' !! cur = Some p ∧ k = Cfg 1 [LProc cur] (exited cur status p ip l') n ip).
Proof using FQ.
  intros Hlax Hlen Hp Hs Hpar b s Hat. pose proof Hat as (_ & Hl & _ & Hi). simpl in Hl, Hi.
  destruct (decide (ip = Some cur)) as [->|Hip].
  { unfold exit, mbind, M_bind, gets. rewrite Hi. by rewrite decide_True. }
  rewrite (exit_split cur p) by congruence. revert b s Hat Hl Hi.
  enough (tr lax (Cfg 0 [] l n ip) (exit_files cur p;; exit_rest cur status) (λ _ _, False)
    (λ k, closing cur l n ip k ∨
          ∃ l', woken l l' ∧ l' !! cur = Some p ∧ k = Cfg 1 [LProc cur] (exited cur status p ip l') n ip)) as Hx
    by (intros b s Hat _ _; by apply Hx).
  eapply tr_bind; [apply (exit_files_tr lax l); [done|by left|done|done]|]. intros [] k (l1 & Hw1 & Hp1 & ->).
  apply exit_rest_tr; [by rewrite (woken_length l)|done|done|]. right. by exists l1.
Qed.

End file_layer.

(** ** [kill] *)

Definition kill_one (p : proc) : proc :=
  let p := set_killed 1 p in if decide (state p = SLEEPING) then set_state RUNNABLE p else p.

Lemma kill_tr lax d h l n ip target R :
  (∀ i, LProc i ∉ h) → length l = Z.to_nat NPROC →
  tr lax (Cfg d h l n ip) (kill target)
    (λ v k, (v = 0 ∧ ∃ i p, l !! i = Some p ∧ pid p = target ∧ (∀ j q, l !! j = Some q → pid q = target → (i ≤ j)%nat) ∧
                            k = Cfg d h (alter kill_one i l) n ip) ∨
            (v = -1 ∧ (∀ j q, l !! j = Some q → pid q ≠ target) ∧ k = Cfg d h l n ip)) R.
Proof.
  intros Hh Hlen. unfold kill.
  enough (∀ m i, length l = (i + m)%nat → (∀ j q, (j < i)%nat → l !! j = Some q → pid q ≠ target) →
    tr lax (Cfg d h l n ip) (kill_loop m i target) _ R) as Hw by (apply Hw; [lia|intros; lia]).
  induction m as [|m IH]; intros i Hl Hbefore.
  { apply tr_ret. right. split; [done|]. split; [|done]. intros j q Hj. apply lookup_lt_Some in Hj as Hlt.
    apply (Hbefore j); [lia|done]. }
  destruct (lookup_lt_is_Some_2 l i) as [p Hp]; [lia|]. cbn [kill_loop].
  apply tr_acquire; [done|]. apply tr_get_proc; [congruence|]. intros p' Hp'. simplify_eq.
  destruct (pid p =? target) eqn:E.
  - apply tr_upd. assert (∀ g, alter g i (alter (set_killed 1) i l) = alter (g ∘ set_killed 1) i l) as Ea by (intros; apply alter_alter).
    eapply (tr_bind _ _ _ (λ _ k, k = Cfg (S d) (LProc i :: h) (alter kill_one i l) n ip)).
    + case_decide as Hs; [apply tr_last, tr_upd|]; apply tr_ret; f_equal; rewrite ?Ea; eapply alter_ext_at;
        try done; unfold kill_one, compose; simpl; by case_decide.
    + intros [] k ->. apply tr_release_head; [done|]. apply tr_ret. left. split; [done|]. exists i, p.
      split; [done|]. split; [lia|]. split; [|done]. intros j q Hj Hq. destruct (decide (j < i)%nat); [|lia].
      by destruct (Hbefore j q).
  - apply tr_release_head; [done|]. apply IH; [lia|]. intros j q Hj Hq. destruct (decide (j = i)) as [->|]; [simplify_eq; lia|].
    apply (Hbefore j); [lia|done].
Qed.

(** ** [wait] *)

(** A slot after [freeproc]. *)
Definition freed (p : proc) : proc :=
  set_state UNUSED (set_xstate 0 (set_killed 0 (set_chan 0
    (write_name [x00] (set_parent None (set_pid 0 (set_sz 0 (set_pagetable 0 (set_trapframe 0 p))))))))).

Lemma freeproc_tr (lax : Prop) d h l n ip i {B} (f : unit → M (pst F) B) Q R :
  lax → tr lax (Cfg d h (alter freed i l) n ip) (f tt) Q R → tr lax (Cfg d h l n ip) (freeproc i ≫= f) Q R.
Proof.
  intros Hlax Hf. eapply (tr_bind _ _ _ (λ _ k, k = Cfg d h (alter freed i l) n ip)); [|by intros [] k ->].
  apply tr_get_proc; [done|]. intros p Hp.
  assert (∀ (c : M kst unit) (b : bool) k (g : unit → M (pst F) unit) Q' R', quiet true c → tr lax k (g tt) Q' R' →
    tr lax k ((if b then mret () else vm c) ≫= g) Q' R') as Hopt.
  { intros c [] k g Q' R' Hc Hg; [by apply tr_skip|]. apply tr_vm; [done|done|]. by intros []. }
  apply Hopt; [auto with quiet|]. apply tr_upd. apply Hopt; [auto with quiet|]. apply tr_last, tr_upd, tr_ret.
  by rewrite alter_alter.
Qed.

Definition zombie_child (cur : nat) (p : proc) : Prop := parent p = Some cur ∧ state p = ZOMBIE.

(** The outcomes of [wait] that do not wait: there is no child, or the caller is
    killed; the status cannot be copied out; a zombie child is freed. *)
Inductive wait_result (l : list proc) (n : Z) (ip : option nat) (cur : nat) (addr : Z) : Z → cfg → Prop :=
  | wait_nothing me : l !! cur = Some me → (∀ i p, l !! i = Some p → ¬ zombie_child cur p) →
      existsb (is_child cur) l = false ∨ killed_ me ≠ 0 → wait_result l n ip cur addr (-1) (Cfg 0 [] l n ip)
  | wait_nocopy i p : l !! i = Some p → zombie_child cur p → addr ≠ 0 → wait_result l n ip cur addr (-1) (Cfg 0 [] l n ip)
  | wait_reap i p : l !! i = Some p → zombie_child cur p →
      (∀ j q, l !! j = Some q → zombie_child cur q → (i ≤ j)%nat) →
      wait_result l n ip cur addr (pid p) (Cfg 0 [] (alter freed i l) n ip).

Lemma wait_scan_tr (lax : Prop) l n ip cur addr R :
  is_Some (l !! cur) → length l = Z.to_nat NPROC → (∀ i p, l !! i = Some p → zombie_child cur p → lax) →
  tr lax (Cfg 1 [LWait] l n ip) (wait_scan (Z.to_nat NPROC) 0 cur addr false)
    (λ r k, match r.1 with
            | Some v => wait_result l n ip cur addr v k
            | None => k = Cfg 1 [LWait] l n ip ∧ r.2 = existsb (is_child cur) l ∧
                      (∀ i p, l !! i = Some p → ¬ zombie_child cur p)
            end) R.
Proof.
  intros Hcur Hlen Hz. match goal with |- tr _ _ _ ?P _ => set (Post := P) end.
  enough (∀ m i, length l = (i + m)%nat → (∀ j q, (j < i)%nat → l !! j = Some q → ¬ zombie_child cur q) →
    tr lax (Cfg 1 [LWait] l n ip) (wait_scan m i cur addr (existsb (is_child cur) (take i l))) Post R) as Hw
    by (apply (Hw _ 0%nat); [lia|intros; lia]).
  induction m as [|m IH]; intros i Hl Hbefore.
  { apply tr_ret. simpl. split; [done|]. rewrite take_ge by lia. split; [done|].
    intros j q Hq. apply (Hbefore j); [|done]. apply lookup_lt_Some in Hq. lia. }
  destruct (lookup_lt_is_Some_2 l i) as [p Hp]; [lia|]. cbn [wait_scan].
  apply tr_get_proc; [congruence|]. intros p' Hp'. simplify_eq.
  assert (¬ zombie_child cur p → ∀ j q, (j < S i)%nat → l !! j = Some q → ¬ zombie_child cur q) as Hnext.
  { intros Hn j q Hj Hq. destruct (decide (j = i)) as [->|]; [by simplify_eq|]. apply (Hbefore j); [lia|done]. }
  assert (existsb (is_child cur) (take (S i) l) = existsb (is_child cur) (take i l) || is_child cur p) as Ek.
  { erewrite take_S_r by done. rewrite existsb_app. simpl. by rewrite orb_false_r. }
  case_decide as Hc.
  2:{ replace (existsb (is_child cur) (take i l)) with (existsb (is_child cur) (take (S i) l)).
      - apply IH; [lia|]. apply Hnext. by intros [].
      - rewrite Ek. unfold is_child at 2. by rewrite bool_decide_false, orb_false_r. }
  apply tr_acquire; [set_solver|]. case_decide as Hs.
  2:{ apply tr_release_head; [set_solver|].
      replace true with (existsb (is_child cur) (take (S i) l)).
      - apply IH; [lia|]. apply Hnext. by intros [].
      - rewrite Ek. unfold is_child at 2. by rewrite bool_decide_true, orb_true_r. }
  assert (zombie_child cur p) as Hzc by done. pose proof (Hz _ _ Hp Hzc) as Hlax.
  apply tr_get_proc; [done|]. intros me Hme.
  assert (∀ r, (r < 0 → addr ≠ 0) → tr lax (Cfg 2 [LProc i; LWait] l n ip)
    (if r <? 0 then release (LProc i);; release LWait;; mret (Some (-1), true)
     else freeproc i;; release (LProc i);; release LWait;; mret (Some (pid p), true))
    Post R) as Hend.
  { intros r Hr. destruct (r <? 0) eqn:Er.
    - do 2 (apply tr_release_head; [set_solver|]). apply tr_ret. simpl. apply (wait_nocopy _ _ _ _ _ i p); [done..|]. apply Hr. lia.
    - apply freeproc_tr; [done|]. do 2 (apply tr_release_head; [set_solver|]). apply tr_ret. simpl.
      apply (wait_reap _ _ _ _ _ i p); [done..|]. intros j q Hq Hzq. destruct (decide (j < i)%nat); [|lia]. by destruct (Hbefore j q). }
  destruct (addr =? 0) eqn:Ea.
  - apply tr_skip. apply Hend. lia.
  - apply tr_vm; [done|auto with quiet|]. intros r. apply Hend. lia.
Qed.

Lemma wait_tr (lax : Prop) l n ip cur me addr :
  l !! cur = Some me → length l = Z.to_nat NPROC → (∀ i p, l !! i = Some p → zombie_child cur p → lax) →
  tr lax (Cfg 0 [] l n ip) (wait cur addr) (wait_result l n ip cur addr)
    (λ k, existsb (is_child cur) l = true ∧ (∀ i p, l !! i = Some p → ¬ zombie_child cur p) ∧ killed_ me = 0 ∧
          k = Cfg 1 [LProc cur] (alter (set_state SLEEPING ∘ set_chan (chan_of cur)) cur l) n ip).
Proof.
  intros Hme Hlen Hz. apply tr_acquire; [apply not_elem_of_nil|]. unfold wait_body.
  eapply tr_bind; [by apply wait_scan_tr|]. intros [[v|] hk] k; simpl; [by intros ?; apply tr_ret|].
  intros (-> & -> & Hno). eapply (tr_bind _ _ _ (λ v k, k = Cfg 1 [LWait] l n ip ∧
    (existsb (is_child cur) l = true → v = killed_ me))).
  { case_match; [|by apply tr_ret]. apply tr_acquire; [set_solver|]. apply tr_get_proc; [congruence|]. intros q Hq.
    simplify_eq. apply tr_release_head; [set_solver|]. by apply tr_ret. }
  intros v k [-> Hv]. case_match eqn:E.
  - apply tr_release_head; [apply not_elem_of_nil|]. apply tr_ret. eapply wait_nothing; [done..|].
    destruct (existsb (is_child cur) l); [|by left]. right. rewrite <- Hv by done. simpl in E. lia.
  - destruct (existsb (is_child cur) l); [|done]. simpl in E.
    eapply (tr_bind _ _ _ (λ _ _, False)); [|done]. apply tr_acquire; [set_solver|]. apply tr_release; [set_solver|].
    rewrite filter_second by (done || apply not_elem_of_nil). do 2 apply tr_upd. rewrite alter_alter. apply tr_last.
    eapply sched_tr; [by rewrite list_lookup_alter_eq, Hme|done|]. split; [done|]. split; [done|].
    split; [|done]. rewrite <- Hv by done. lia.
Qed.

(** ** [allocproc] and [fork] *)

Definition good (k : cfg) : Prop :=
  tbl_inv (c_tab k) (c_next k) (c_init k) ∧ length (c_tab k) = Z.to_nat NPROC.

(** A new process: slot [i], taken from the unused ones, of pid [n]. *)
Definition newborn (l : list proc) (n : Z) (i : nat) (k : cfg) (d : nat) (h : list lockid) (ip : option nat) : Prop :=
  ∃ p p', l !! i = Some p ∧ state p = UNUSED ∧ state p' = USED ∧ pid p' = n ∧ parent p' = None ∧
    killed_ p' = killed_ p ∧ (∀ j q, (j < i)%nat → l !! j = Some q → state q ≠ UNUSED) ∧
    k = Cfg (S d) (LProc i :: h) (alter (λ _, p') i l) (n + 1) ip.

Lemma freed_inv l n ip i p : tbl_inv l n ip → l !! i = Some p →
  ¬ alive p ∨ (ip ≠ Some i ∧ ∀ j q, l !! j = Some q → parent q ≠ Some i) → tbl_inv (alter freed i l) n ip.
Proof. intros Hinv Hp Hn. by eapply tbl_inv_free. Qed.

(** No parent pointer and no [initproc] leads to an unused slot. *)
Lemma unused_orphan l n ip i p : tbl_inv l n ip → l !! i = Some p → state p = UNUSED →
  ip ≠ Some i ∧ ∀ j q, l !! j = Some q → parent q ≠ Some i.
Proof.
  intros Hinv Hp Hs. split.
  - intros ->. destruct (ti_init _ _ _ Hinv i eq_refl) as (q & Hq & Hal). simplify_eq. by destruct Hal.
  - intros j q Hj Hq. destruct (ti_parent _ _ _ Hinv _ _ _ Hj Hq) as (x & Hx & Hal). simplify_eq. by destruct Hal.
Qed.

Lemma newborn_inv l n i k d h ip : tbl_inv l n ip → 0 < n → newborn l n i k d h ip →
  tbl_inv (c_tab k) (c_next k) (c_init k) ∧ (ip ≠ Some i ∧ ∀ j q, c_tab k !! j = Some q → parent q ≠ Some i).
Proof.
  intros Hinv Hn (p & p' & Hp & Hs & Hs' & Hpid & Hpar & _ & _ & ->). simpl. split; [by eapply tbl_inv_alloc|].
  destruct (unused_orphan _ _ _ _ _ Hinv Hp Hs) as [Ho1 Ho2]. split; [done|]. intros j q.
  destruct (decide (i = j)) as [<-|]; [rewrite list_lookup_alter_eq, Hp; intros [= <-]; congruence|].
  rewrite list_lookup_alter_ne by done. apply Ho2.
Qed.

Lemma allocpid_tr (lax : Prop) d h l n ip R : LPid ∉ h → 0 < n < 2 ^ 31 - 1 →
  tr lax (Cfg d h l n ip) (allocpid : M (pst F) Z) (λ v k, v = n ∧ k = Cfg d h l (n + 1) ip) R.
Proof.
  intros Hh Hn. apply tr_acquire; [done|]. intros b s Hk. pose proof Hk as (Hthr & Hl & Hnn & Hip). simpl in *.
  unfold mbind at 1, M_bind at 1, gets at 1. unfold mbind at 1, M_bind at 1, modify at 1. rewrite Hnn.
  apply (tr_release_head (lax := lax) (Q := λ v k, v = n ∧ k = Cfg d h l (n + 1) ip) (R := R) d h l (n + 1) ip LPid (λ _, mret n)); [done|by apply tr_ret|].
  split; [done|]. split; [done|]. split; [|done]. simpl. by rewrite i32_small by lia.
Qed.

Lemma allocproc_found_tr (lax : Prop) d h l n ip i p R :
  lax → none_held h → l !! i = Some p → state p = UNUSED → (∀ j q, (j < i)%nat → l !! j = Some q → state q ≠ UNUSED) → tbl_inv l n ip → length l = Z.to_nat NPROC → 0 < n < 2 ^ 31 - 1 →
  tr lax (Cfg (S d) (LProc i :: h) l n ip) (allocproc_found i)
    (λ o k, match o with Some j => newborn l n j k d h ip | None => good k ∧ c_depth k = d ∧ c_held k = h end) R.
Proof.
  intros Hlax (Hh & Hw & Hpid) Hp Hs Hbefore Hinv Hlen Hn. unfold allocproc_found.
  assert (LPid ∉ LProc i :: h) by set_solver.
  eapply tr_bind; [by apply allocpid_tr|].
  intros v k [-> ->]. do 2 apply tr_upd. rewrite alter_alter.
  assert (∀ f, tr lax (Cfg (S d) (LProc i :: h) (alter f i l) (n + 1) ip)
    (freeproc i;; release (LProc i);; mret None)
    (λ o k, match o with Some j => newborn l n j k d h ip | None => good k ∧ c_depth k = d ∧ c_held k = h end) R) as Hfail.
  { intros f. apply freeproc_tr; [done|]. apply tr_release_head; [done|]. apply tr_ret. split; [|done].
    split; simpl; [|by rewrite !length_alter]. rewrite alter_alter. apply (tbl_inv_next _ n); [|lia].
    eapply (tbl_inv_free l n ip i p (freed ∘ f)); [done..| |by repeat split]. right. by eapply unused_orphan. }
  pose proof (ti_unused _ _ _ Hinv _ _ Hp Hs) as (_ & Hpar & _).
  apply tr_vm; [done|auto with quiet|]. intros tf. apply tr_upd. rewrite alter_alter. case_match; [apply Hfail|].
  apply tr_vm; [done|auto with quiet|]. intros pt. apply tr_upd. rewrite alter_alter. case_match; [apply Hfail|].
  apply tr_upd, tr_ret. rewrite alter_alter. eexists p, _. split_and!; [done|done| | | | |done|]; cycle 4.
  { f_equal. by apply alter_const. }
  all: done.
Qed.

Lemma allocproc_tr (lax : Prop) d h l n ip R :
  lax → none_held h → tbl_inv l n ip → length l = Z.to_nat NPROC → 0 < n < 2 ^ 31 - 1 →
  tr lax (Cfg d h l n ip) allocproc
    (λ o k, match o with Some j => newborn l n j k d h ip | None => good k ∧ c_depth k = d ∧ c_held k = h end) R.
Proof.
  intros Hlax Hh Hinv Hlen Hn. pose proof Hh as (Hproc & _). match goal with |- tr _ _ _ ?P _ => set (Post := P) end.
  enough (∀ m i, (∀ j q, (j < i)%nat → l !! j = Some q → state q ≠ UNUSED) →
    tr lax (Cfg d h l n ip) (allocproc_loop m i) Post R) as Hw by (apply Hw; lia).
  induction m as [|m IH]; intros i Hbefore; simpl; [by apply tr_ret|].
  apply tr_acquire; [done|]. apply tr_get_proc; [done|]. intros p Hp. case_decide as Hs.
  - by apply (allocproc_found_tr _ _ _ _ _ _ _ p).
  - apply tr_release_head; [done|]. apply IH. intros j q Hj Hq.
    destruct (decide (j = i)) as [->|]; [by simplify_eq|]. apply (Hbefore j); [lia|done].
Qed.

Context {FQ : FileSysLaws}.

Lemma fork_files_tr (lax : Prop) d h l n ip np rest i R : lax → (∀ a, LOther a ∉ h) →
  tr lax (Cfg d h l n ip) (fork_files rest np i)
    (λ _ k, ∃ f, (∀ p, ∃ o, f p = set_ofile o p) ∧ k = Cfg d h (alter f np l) n ip) R.
Proof using FQ.
  intros Hlax Hh. revert l i. induction rest as [|f rest IH]; intros l i.
  { apply tr_ret. exists id. split; [intros p; exists (ofile p); by destruct p|]. by rewrite list_alter_id. }
  simpl. eapply (tr_bind _ _ _ (λ _ k, ∃ f, (∀ p, ∃ o, f p = set_ofile o p) ∧ k = Cfg d h (alter f np l) n ip)).
  - case_match.
    + apply tr_ret. exists id. split; [intros p; exists (ofile p); by destruct p|]. by rewrite list_alter_id.
    + apply tr_calm; [done|apply filedup_calm|done|]. intros f'. apply tr_last, tr_upd, tr_ret. eexists. split; [|done]. by eexists.
  - intros [] k (g & Hg & ->). eapply tr_mono; [apply IH|simpl|done].
    intros [] k (g' & Hg' & ->). exists (g' ∘ g). rewrite alter_alter. split; [|done]. intros p. unfold compose.
    destruct (Hg p) as [o ->]. destruct (Hg' (set_ofile o p)) as [o' ->]. by exists o'.
Qed.

Lemma fork_tr (lax : Prop) l n ip cur p :
  lax → tbl_inv l n ip → length l = Z.to_nat NPROC → 0 < n < 2 ^ 31 - 1 → l !! cur = Some p → alive p →
  tr lax (Cfg 0 [] l n ip) (fork cur)
    (λ v k, good k ∧ (0 ≤ v → v = n ∧ ∃ np q, c_tab k !! np = Some q ∧ pid q = n ∧ parent q = Some cur ∧ state q = RUNNABLE))
    (λ _, False).
Proof using FQ.
  intros Hlax Hinv Hlen Hn Hp Hal. eapply tr_bind; [apply allocproc_tr; try done; split_and!; set_solver|].
  intros [np|] k; [|intros [Hg _]; apply tr_ret; split; [done|lia]].
  intros Hnew. destruct (newborn_inv _ _ _ _ _ _ _ Hinv ltac:(lia) Hnew) as [Hinv1 Horph].
  destruct Hnew as (p0 & p' & Hp0 & Hs0 & Hs' & Hpid & Hpar & _ & _ & ->). simpl in *.
  assert (np ≠ cur) as Hne by (intros ->; simplify_eq; by destruct Hal).
  remember (alter (λ _, p') np l) as l1 eqn:El1.
  assert (l1 !! np = Some p') as Hnp by (subst l1; by rewrite list_lookup_alter_eq, Hp0).
  assert (l1 !! cur = Some p) as Hcur by (subst l1; by rewrite list_lookup_alter_ne).
  assert (length l1 = Z.to_nat NPROC) as Hlen1 by (subst l1; by rewrite length_alter). clear El1 Hp0 Hinv Hlen.
  apply tr_get_proc; [done|]. intros q Hq. simplify_eq. apply tr_get_proc; [done|]. intros q' Hq'. simplify_eq.
  apply tr_vm; [done|auto with quiet|]. intros r. case_match.
  { apply freeproc_tr; [done|]. apply tr_release_head; [apply not_elem_of_nil|]. apply tr_ret. split; [|lia].
    split; simpl; [|by rewrite length_alter]. eapply freed_inv; [done..|]. by right. }
  apply tr_upd. do 2 (apply tr_vm; [done|auto with quiet|]; intros _).
  eapply tr_bind; [apply fork_files_tr; [done|set_solver]|]. intros [] k (f & Hf & ->).
  apply tr_calm; [done|apply idup_calm|simpl; set_solver|]. intros dd. do 2 apply tr_upd.
  apply tr_get_proc; [done|]. intros q Hq. apply tr_release_head; [apply not_elem_of_nil|].
  apply tr_acquire; [apply not_elem_of_nil|]. apply tr_upd, tr_release_head; [apply not_elem_of_nil|].
  apply tr_acquire; [apply not_elem_of_nil|]. apply tr_upd, tr_release_head; [apply not_elem_of_nil|]. apply tr_ret.
  rewrite !alter_alter in *. rewrite list_lookup_alter_eq, Hnp in Hq. injection Hq as <-.
  destruct (Hf (set_sz (sz p) p')) as [o Ho]. unfold compose. rewrite Ho. split; [split; simpl; [|by rewrite length_alter]|].
  - eapply tbl_inv_alter; [done..| | | | |]; rewrite ?Ho; simpl; try done; try congruence.
    + intros j [= <-]. right. split; [done|]. by eauto.
    + intros _. by left.
  - intros _. split; [done|]. exists np. simpl. rewrite list_lookup_alter_eq, Hnp. simpl. rewrite Ho. by eexists.
Qed.

(** ** The invariant is preserved *)

Lemma tbl_inv_imap l n ip (f : nat → proc → proc) :
  tbl_inv l n ip →
  (∀ i p, l !! i = Some p →
     (state p = UNUSED → f i p = p) ∧ (state (f i p) = UNUSED → state p = UNUSED) ∧ pid (f i p) = pid p ∧
     (alive p → alive (f i p)) ∧ (parent (f i p) = parent p ∨ parent (f i p) = ip)) →
  tbl_inv (imap f l) n ip.
Proof.
  intros [Hpid Hu Hun Hpar Hini] Hf.
  assert (∀ i q, imap f l !! i = Some q → ∃ p, l !! i = Some p ∧ q = f i p) as Hb.
  { intros i q. rewrite list_lookup_imap. destruct (l !! i) as [p|]; [|done]. intros [= <-]. by eauto. }
  assert (∀ i p, l !! i = Some p → alive p → ∃ q, imap f l !! i = Some q ∧ alive q) as Hlive.
  { intros i p Hp Ha. rewrite list_lookup_imap, Hp. eexists. split; [done|]. by apply (Hf i p Hp). }
  split.
  - intros i q (p & Hp & ->)%Hb Hs. destruct (Hf i p Hp) as (E & _ & -> & _). apply (Hpid i); [done|].
    intros Hs'. rewrite E in Hs by done. done.
  - intros i j q q' (p & Hp & ->)%Hb (p' & Hp' & ->)%Hb Hs. destruct (Hf i p Hp) as (E & _ & -> & _).
    destruct (Hf j p' Hp') as (_ & _ & -> & _). apply (Hu i j p p'); [done|done|].
    intros Hs'. rewrite E in Hs by done. done.
  - intros i q (p & Hp & ->)%Hb Hs. destruct (Hf i p Hp) as (E & Hs' & _). rewrite E by auto. eauto.
  - intros i q j (p & Hp & ->)%Hb Hj. destruct (Hf i p Hp) as (_ & _ & _ & _ & [E|E]); rewrite E in Hj.
    + destruct (Hpar _ _ _ Hp Hj) as (x & Hx & Ha). eauto.
    + destruct (Hini _ Hj) as (x & Hx & Ha). eauto.
  - intros i Hi. destruct (Hini _ Hi) as (x & Hx & Ha). eauto.
Qed.

Lemma wake_one_cases cur ch i p : wake_one cur ch i p = p ∨ (state p = SLEEPING ∧ wake_one cur ch i p = set_state RUNNABLE p).
Proof. unfold wake_one. case_decide as E; [right|left; done]. naive_solver. Qed.

Lemma wake_inv l n ip cur ch : tbl_inv l n ip → tbl_inv (wake cur ch l) n ip.
Proof.
  intros Hinv. apply tbl_inv_imap; [done|]. intros i p _.
  destruct (wake_one_cases cur ch i p) as [->|[Hs ->]]; [by split_and!; auto|]. simpl. rewrite Hs.
  unfold alive. simpl. naive_solver.
Qed.

Lemma woken_inv l l' n ip : tbl_inv l n ip → woken l l' → tbl_inv l' n ip.
Proof.
  intros Hinv Hw. replace l' with (imap (λ i p, default p (l' !! i)) l).
  - apply tbl_inv_imap; [done|]. intros i p Hp. destruct (Forall2_lookup_l _ _ _ _ _ Hw Hp) as (q & -> & [->|[Hs ->]]);
      simpl; [by split_and!; auto|]. rewrite Hs. unfold alive. simpl. naive_solver.
  - apply list_eq. intros i. rewrite list_lookup_imap. destruct (l !! i) as [p|] eqn:Hp.
    + destruct (Forall2_lookup_l _ _ _ _ _ Hw Hp) as (q & -> & _). done.
    + simpl. symmetry. apply lookup_ge_None. apply lookup_ge_None in Hp. by rewrite <- (list.Forall2_length _ _ _ Hw).
Qed.

Lemma reparented_inv l n ip cur : tbl_inv l n ip → tbl_inv (reparented cur ip l) n ip.
Proof.
  intros Hinv. assert (tbl_inv (adopt cur ip <$> l) n ip) as Ha.
  { replace (adopt cur ip <$> l) with (imap (λ _, adopt cur ip) l)
      by (apply list_eq; intros i; rewrite list_lookup_imap, list_lookup_fmap; done).
    apply tbl_inv_imap; [done|]. intros i p Hp. unfold adopt, is_child. case_bool_decide as Hc; [|by split_and!; auto].
    split; [|by simpl; split_and!; auto]. intros Hs. destruct (ti_unused _ _ _ Hinv _ _ Hp Hs) as (_ & Hpar & _). congruence. }
  unfold reparented. case_match; [by apply wake_inv|done].
Qed.

(** No process has [cur] as its parent any more. *)
Lemma reparented_orphan cur ip l i q : ip ≠ Some cur → reparented cur ip l !! i = Some q → parent q ≠ Some cur.
Proof.
  intros Hip. assert (∀ p, parent (adopt cur ip p) ≠ Some cur) as Ha.
  { intros p. unfold adopt, is_child. by case_bool_decide. }
  unfold reparented, wake. case_match; rewrite ?list_lookup_imap, list_lookup_fmap; destruct (l !! i); try done;
    intros [= <-]; rewrite ?wake_one_parent; apply Ha.
Qed.

Lemma exited_inv cur status p ip l n :
  tbl_inv l n ip → l !! cur = Some p → alive p → parent p ≠ Some cur → ip ≠ Some cur → tbl_inv (exited cur status p ip l) n ip.
Proof.
  intros Hinv Hp Hal Hpar Hip. erewrite <- exited_eq by done. rewrite alter_alter.
  set (f := set_cwd 0 ∘ set_ofile (replicate (length (ofile p)) 0)).
  assert (reparented cur ip (alter f cur l) !! cur = Some (f p)) as Hcur.
  { apply reparented_self; [by rewrite list_lookup_alter_eq, Hp|done]. }
  eapply (tbl_inv_alter _ _ _ _ (f p)); try done.
  - apply wake_inv, reparented_inv. eapply (tbl_inv_core l); [done|]. intros i.
    destruct (decide (cur = i)) as [<-|]; [rewrite list_lookup_alter_eq, Hp; constructor; by repeat split|].
    rewrite list_lookup_alter_ne by done. destruct (l !! i); constructor. by repeat split.
  - unfold wake. rewrite list_lookup_imap, Hcur. simpl. by rewrite wake_one_self.
  - apply Hal.
  - intros j Hj. by left.
  - intros _. right. split; [done|]. intros j q. unfold wake. rewrite list_lookup_imap.
    destruct (reparented _ _ _ !! j) as [x|] eqn:Ex; [|done]. intros [= <-]. rewrite wake_one_parent.
    by eapply reparented_orphan.
Qed.

Lemma kill_one_inv l n ip i p : tbl_inv l n ip → l !! i = Some p → tbl_inv (alter kill_one i l) n ip.
Proof.
  intros Hinv Hp. destruct (decide (state p = SLEEPING)) as [Hs|Hs].
  - eapply tbl_inv_alter; try done; unfold kill_one, alive; simpl; rewrite ?Hs; simpl; try done; naive_solver.
  - eapply (tbl_inv_core l); [done|]. intros j. destruct (decide (i = j)) as [<-|].
    + rewrite list_lookup_alter_eq, Hp. constructor. unfold kill_one. simpl. rewrite decide_False by done. by repeat split.
    + rewrite list_lookup_alter_ne by done. destruct (l !! j); constructor. by repeat split.
Qed.

(** A running process going to sleep or giving up the CPU. *)
Lemma pause_inv l n ip cur p f : tbl_inv l n ip → l !! cur = Some p → alive p →
  alive (f p) → pid (f p) = pid p → parent (f p) = parent p → tbl_inv (alter f cur l) n ip.
Proof. intros Hinv Hp Hal Hf Hpid Hpar. eapply tbl_inv_alter; try done; [apply Hal|apply Hf|rewrite Hpar|]; by auto. Qed.

(** C12: the process table invariant.  In a table whose live processes have
    distinct positive pids, whose unused slots are clean, and whose parent
    pointers and [initproc] lead to live processes, a running process calls
    [fork], [wait], [kill], [exit], [sleep], [yield] or [wakeup]: the invariant
    holds again whenever the call returns or switches to the scheduler. *)
Theorem proc_table_inv l n ip cur p addr status target ch lk :
  tbl_inv l n ip → length l = Z.to_nat NPROC → 0 < n < 2 ^ 31 - 1 →
  l !! cur = Some p → state p = RUNNING → parent p ≠ Some cur → lk ≠ LProc cur →
  tr True (Cfg 0 [] l n ip) (fork cur) (λ _, good) (λ _, False) ∧
  tr True (Cfg 0 [] l n ip) (wait cur addr) (λ _, good) good ∧
  tr True (Cfg 0 [] l n ip) (exit cur status) (λ _ _, False) good ∧
  tr False (Cfg 0 [] l n ip) (kill target) (λ _, good) (λ _, False) ∧
  tr False (Cfg 0 [] l n ip) (wakeup (Some cur) ch) (λ _, good) (λ _, False) ∧
  tr False (Cfg 1 [lk] l n ip) (sleep cur ch lk) (λ _ _, False) good ∧
  tr False (Cfg 0 [] l n ip) (yield cur) (λ _ _, False) good.
Proof using FQ.
  intros Hinv Hlen Hn Hp Hrun Hpar Hlk. assert (alive p) as Hal by (unfold alive; by rewrite Hrun).
  assert (∀ d h f, alive (f p) → pid (f p) = pid p → parent (f p) = parent p → good (Cfg d h (alter f cur l) n ip)) as Hpause.
  { intros d h f H1 H2 H3. split; simpl; [by eapply pause_inv|by rewrite length_alter]. }
  split_and!.
  - eapply tr_mono; [by eapply fork_tr|naive_solver|done].
  - eapply tr_mono; [by eapply wait_tr|..].
    + intros v k [me|i q|i q Hq [_ Hz] _]; [by split..|]. split; simpl; [|by rewrite length_alter].
      eapply freed_inv; [done..|]. left. unfold alive. rewrite Hz. naive_solver.
    + intros k (_ & _ & _ & ->). by apply Hpause.
  - destruct (decide (ip = Some cur)) as [->|Hip].
    { apply tr_init. rewrite decide_True by done. by intros b s _. }
    eapply tr_mono; [apply (exit_tr True _ _ _ _ p); [done|done|done|by rewrite Hrun|done]|done|].
    intros k [(o & l' & ch' & Hw & ->)|(l' & Hw & Hp' & ->)].
    + assert (l' !! cur = Some p) as Hp' by (eapply woken_awake; [done|done|by rewrite Hrun]).
      split; simpl; [by eapply pause_inv; [eapply woken_inv|..]|].
      by rewrite length_alter, <- (list.Forall2_length _ _ _ Hw).
    + split; simpl; [apply exited_inv; [by eapply woken_inv|done..]|]. unfold exited.
      by rewrite length_imap, <- (list.Forall2_length _ _ _ Hw).
  - eapply (tr_mono _ _ _ _ (λ _, False)); [apply kill_tr; [set_solver|done]| |done].
    intros v k [(_ & i & q & Hq & _ & _ & ->)|(_ & _ & ->)]; [|by split].
    split; simpl; [by eapply kill_one_inv|by rewrite length_alter].
  - eapply (tr_mono _ _ _ _ (λ _, False)); [apply wakeup_tr; [set_solver|done]| |done]. intros _ k ->.
    split; simpl; [by apply wake_inv|]. unfold wake. by rewrite length_imap.
  - apply tr_acquire; [set_solver|]. apply tr_release; [set_solver|]. rewrite filter_second by (done || apply not_elem_of_nil).
    do 2 apply tr_upd. rewrite alter_alter. apply tr_last. eapply sched_tr; [by rewrite list_lookup_alter_eq, Hp|done|by apply Hpause].
  - apply tr_acquire; [apply not_elem_of_nil|]. apply tr_upd, tr_last.
    eapply sched_tr; [by rewrite list_lookup_alter_eq, Hp|done|by apply Hpause].
Qed.

End table.

Section kill_wait.
Context {F : Type} `{!FileSys F} `{!KernelImage} `{!KernelText}.
Implicit Types s : pst F.

(** [kill].  For a positive pid, [kill] finds the process of that pid if
    there is one, marks it killed, makes it runnable if it was asleep, changes
    nothing else and returns 0; if there is none it changes nothing and returns
    -1.  No lock is left held. *)
Theorem kill_correct b s target :
  thr b 0 [] s → tbl_inv (procs s) (nextpid s) (initproc s) → length (procs s) = Z.to_nat NPROC → 0 < target →
  (∀ i p, procs s !! i = Some p → pid p = target →
     ∃ s', kill target s = Ok 0 s' ∧ procs s' = alter kill_one i (procs s) ∧ thr b 0 [] s') ∧
  ((∀ i p, procs s !! i = Some p → pid p ≠ target) →
     ∃ s', kill target s = Ok (-1) s' ∧ procs s' = procs s ∧ thr b 0 [] s').
Proof.
  intros Hs Hinv Hlen Ht.
  destruct (tr_returns _ _ _ b s (kill_tr False 0 [] (procs s) (nextpid s) (initproc s) target _ ltac:(set_solver) Hlen))
    as (v & s' & k & -> & Hat & Hk); [done|]. split.
  - intros i p Hp Hpid. destruct Hk as [(-> & j & q & Hq & Hqt & _ & ->)|(_ & Hno & _)]; [|by destruct (Hno i p)].
    assert (state q ≠ UNUSED) by (intros Hu; destruct (ti_unused _ _ _ Hinv _ _ Hq Hu); lia).
    assert (j = i) as -> by (eapply (ti_uniq _ _ _ Hinv j i); [done..|congruence]).
    exists s'. split; [done|]. split; apply Hat.
  - intros Hno. destruct Hk as [(-> & j & q & Hq & Hqt & _ & ->)|(-> & _ & ->)]; [by destruct (Hno j q)|].
    exists s'. split; [done|]. split; apply Hat.
Qed.

(** [kill] of pid 0 hits an unused slot.  The pid of an unused slot is 0, so
    [kill(0)] succeeds on the lowest unused slot and marks it killed; the flag
    survives, since [allocproc] does not reset it, and the next process
    allocated is killed from birth. *)
Theorem kill_zero_poisons b s i p :
  thr b 0 [] s → tbl_inv (procs s) (nextpid s) (initproc s) → length (procs s) = Z.to_nat NPROC →
  0 < nextpid s < 2 ^ 31 - 1 → procs s !! i = Some p → state p = UNUSED →
  ∃ s', kill 0 s = Ok 0 s' ∧
    match allocproc s' with
    | Ok (Some j) s'' => ∃ q, procs s'' !! j = Some q ∧ state q = USED ∧ killed_ q = 1
    | _ => True
    end.
Proof.
  intros Hs Hinv Hlen Hn Hp Hu.
  destruct (tr_returns _ _ _ b s (kill_tr False 0 [] (procs s) (nextpid s) (initproc s) 0 _ ltac:(set_solver) Hlen))
    as (v & s' & k & -> & Hat & [(-> & j & q & Hq & Hqt & Hmin & ->)|(_ & Hno & _)]); [done| |].
  2:{ destruct (Hno i p Hp). apply (ti_unused _ _ _ Hinv _ _ Hp Hu). }
  exists s'. split; [done|].
  assert (state q = UNUSED) as Hqu.
  { destruct (decide (state q = UNUSED)) as [|Hne]; [done|]. pose proof (ti_pid _ _ _ Hinv _ _ Hq Hne). lia. }
  pose proof (allocproc_tr True 0 [] _ _ _ (λ _, True) I ltac:(split_and!; set_solver) (kill_one_inv _ _ _ j q Hinv Hq)
    ltac:(by rewrite length_alter) Hn b s' Hat) as Ha.
  destruct (allocproc s') as [[m|] s''| | | |]; try done. destruct Ha as (k' & Hat' & Hnew).
  destruct Hnew as (x & x' & Hx & Hxu & Hxu' & _ & _ & Hkd & Hfirst & ->).
  assert (m = j) as ->.
  { assert (alter kill_one j (procs s) !! j = Some (kill_one q)) as Hj by (by rewrite list_lookup_alter_eq, Hq).
    assert (state (kill_one q) = UNUSED) as Hju by (unfold kill_one; simpl; rewrite Hqu; done).
    destruct (decide (j < m)%nat) as [Hlt|Hge]; [by destruct (Hfirst j _ Hlt Hj)|].
    destruct (decide (m = j)) as [|Hne]; [done|]. rewrite list_lookup_alter_ne in Hx by done.
    assert (pid x = 0) as Hx0 by apply (ti_unused _ _ _ Hinv _ _ Hx Hxu). specialize (Hmin m x Hx Hx0). lia. }
  rewrite list_lookup_alter_eq, Hq in Hx. injection Hx as <-.
  destruct Hat' as (_ & Htab & _). simpl in Htab. exists x'.
  rewrite Htab, list_lookup_alter_eq, list_lookup_alter_eq, Hq. split; [done|]. split; [done|].
  rewrite Hkd. unfold kill_one. simpl. by rewrite Hqu.
Qed.

(** Without a zombie [wait] sleeps, or returns -1. *)
Lemma wait_no_zombie b s cur me addr :
  thr b 0 [] s → length (procs s) = Z.to_nat NPROC → procs s !! cur = Some me → (∀ i p, procs s !! i = Some p → ¬ zombie_child cur p) →
  if existsb (is_child cur) (procs s) && (killed_ me =? 0)
  then ∃ ch s', wait cur addr s = Sleep ch s' ∧ thr b 1 [LProc cur] s' ∧ procs s' = alter (set_state SLEEPING ∘ set_chan (chan_of cur)) cur (procs s)
  else ∃ s', wait cur addr s = Ok (-1) s' ∧ thr b 0 [] s' ∧ procs s' = procs s.
Proof.
  intros Hs Hlen Hme Hno. pose proof (wait_tr False _ (nextpid s) (initproc s) cur me addr Hme Hlen ltac:(intros; eapply Hno; eauto) b s ltac:(done)) as Hw.
  destruct (wait cur addr s) as [v s'| | |ch s'|]; try done; destruct Hw as (k & Hat & Hw).
  - destruct Hw as [me' Hme' _ Hor|i p Hp Hz|i p Hp Hz _]; try (by destruct (Hno i p)). simplify_eq. assert (existsb (is_child cur) (procs s) && (killed_ me =? 0) = false) as ->.
    { destruct Hor as [->|Hk]; [done|]. apply andb_false_intro2. lia. }
    exists s'. split; [done|]. split; apply Hat.
  - destruct Hw as (-> & _ & -> & ->). simpl. exists ch, s'. split; [done|]. split; apply Hat.
Qed.

End kill_wait.

Section exit.
Context {F : Type} `{!FileSys F} `{!KernelImage} `{!KernelText} {FQ : FileSysLaws}.
Implicit Types s : pst F.

(** C38: [exit].  When its calls into the file layer return, a process other
    than init that calls [exit] becomes a zombie carrying its status, with no
    open file, and switches away holding exactly its own lock.  Its children
    belong to init.  Those calls leave the table [l], in which some sleepers may
    have been woken, but for the caller's files, which are closed.  From [l] on,
    another process is made runnable just when it is asleep waiting as the
    parent, or as init while a child is handed to it, and nothing else of the
    other processes changes. *)
Theorem exit_correct b s cur p ip status s1 :
  exit_files cur p s = Ok tt s1 → thr b 0 [] s → length (procs s) = Z.to_nat NPROC → procs s !! cur = Some p → state p = RUNNING →
  parent p ≠ Some cur → initproc s = Some ip → ip ≠ cur →
  ∃ ch s' l, exit cur status s = Sleep ch s' ∧ thr b 1 [LProc cur] s' ∧
    procs s1 = alter (set_ofile (replicate (length (ofile p)) 0)) cur l ∧ woken (procs s) l ∧
    procs s' !! cur = Some (zombie status p) ∧ length (procs s') = length l ∧
    ∀ i q, i ≠ cur → l !! i = Some q →
      procs s' !! i = Some
        (let q' := if decide (parent q = Some cur) then set_parent (Some ip) q else q in
         if decide (state q = SLEEPING ∧
                    (chan q = chan_opt (parent p) ∨ chan q = chan_of ip ∧ existsb (is_child cur) l = true))
         then set_state RUNNABLE q' else q').
Proof using FQ.
  intros Hr Hs Hlen Hp Hrun Hpar Hip Hne.
  pose proof (exit_files_tr True (procs s) (nextpid s) (initproc s) cur p (λ _, True) I ltac:(done) Hp ltac:(congruence) b s) as Hf.
  rewrite Hr in Hf. destruct Hf as (k1 & Hat1 & l & Hw & Hpl & ->); [done|].
  destruct (tr_switches _ _ _ b s1 (exit_rest_tr False l (nextpid s) (initproc s) cur p status
    (λ k, k = Cfg 1 [LProc cur] (exited cur status p (initproc s) l) (nextpid s) (initproc s))
    ltac:(by rewrite (woken_length (procs s))) Hpl Hpar eq_refl) Hat1) as (ch & s' & k & E & Hat & ->).
  rewrite (exit_split cur p) by congruence. unfold mbind at 1, M_bind. rewrite Hr. clear Hr.
  exists ch, s', l. split; [done|]. destruct Hat as (Ht & Htab & _), Hat1 as (_ & Htab1 & _). simpl in *. split; [done|]. split; [done|]. split; [done|].
  rewrite Htab, Hip. unfold exited. rewrite length_imap, list_lookup_imap, Hpl. simpl. rewrite decide_True by done. split; [done|]. split; [done|].
  intros i q Hiq Hq. rewrite list_lookup_imap, Hq. simpl. rewrite decide_False by done. f_equal.
  unfold exit_other.
  replace (adopt cur (Some ip) q) with (if decide (parent q = Some cur) then set_parent (Some ip) q else q)
    by (unfold adopt, is_child; case_bool_decide; by case_decide).
  unfold wake_one.
  assert (Some cur ≠ Some i) by congruence.
  destruct (decide (parent q = Some cur)), (existsb (is_child cur) l); simpl;
    repeat (case_decide; simpl in *); try done; naive_solver.
Qed.

End exit.


(** ** A concrete table *)

(** A file layer whose calls return at once. *)
#[local] Instance demo_fs : FileSys unit := {
  filedup f := mret f;
  fileclose _ _ := mret ();
  idup i := mret i;
  begin_op _ := mret ();
  iput _ _ := mret ();
  end_op _ := mret ();
  namei_root := mret 1;
  fsinit _ _ := mret ();
}.
Lemma tidy_ret cur : tidy cur (mret () : M (pst unit) unit).
Proof. intros b s Hs. split; [done|]. split; [apply woken_refl|done]. Qed.
#[local] Instance demo_laws : FileSysLaws (F := unit).
Proof. split; intros; (done || apply tidy_ret). Defined.
#[local] Instance demo_text : KernelText := {
  forkret_addr := 0x80001000; usertrap_addr := 0x80002000; kernelvec_addr := 0x80003000;
  uservec_addr := 0x80004000; userret_addr := 0x80004100;
}.
#[local] Existing Instance demo_image.

Definition blank_proc : proc := mk_proc UNUSED 0 0 0 0 None 0 0 0 0 (mk_context 0 0) (replicate 16 0) 0 (replicate 16 x00).

(** Init asleep in [wait], its child running, and a zombie or sleeping child of
    that one. *)
Definition demo_table (st : procstate) : list proc :=
  set_pid 1 (set_chan (chan_of 0) (set_state SLEEPING blank_proc)) ::
  set_pid 2 (set_parent (Some 0%nat) (set_state RUNNING (set_ofile (7 :: replicate 15 0) blank_proc))) ::
  set_pid 3 (set_parent (Some 1%nat) (set_state st (set_chan 5 blank_proc))) ::
  replicate 61 blank_proc.
Definition demo_pst (st : procstate) : pst unit :=
  mk_pst (boot_state (λ _, x00)) (demo_table st) 4 (Some 0%nat) false () (mk_cpu 0 false true) [].

Lemma demo_table_cases st i p : demo_table st !! i = Some p →
  (i = 0%nat ∧ pid p = 1 ∧ parent p = None ∧ state p = SLEEPING) ∨
  (i = 1%nat ∧ pid p = 2 ∧ parent p = Some 0%nat ∧ state p = RUNNING) ∨
  (i = 2%nat ∧ pid p = 3 ∧ parent p = Some 1%nat ∧ state p = st) ∨ ((2 < i)%nat ∧ p = blank_proc).
Proof.
  destruct i as [|[|[|i]]]; simpl; [intros [= <-]; naive_solver..|intros Hp]. do 3 right. split; [lia|].
  change (replicate 61 blank_proc !! i = Some p) in Hp. by apply lookup_replicate in Hp as [-> _].
Qed.

Lemma demo_table_inv st : st ≠ UNUSED → tbl_inv (demo_table st) 4 (Some 0%nat).
Proof.
  intros Hst. split.
  - intros i p Hp Hs. destruct (demo_table_cases st i p Hp) as [(?&E&?)|[(?&E&?)|[(?&E&?)|[? ->]]]]; [rewrite E; lia..|done].
  - intros i j p q Hp Hq Hs HE. destruct (demo_table_cases st i p Hp) as [?|[?|[?|[? ->]]]];
      destruct (demo_table_cases st j q Hq) as [?|[?|[?|[? ->]]]]; simpl in *; naive_solver lia.
  - intros i p Hp Hs. destruct (demo_table_cases st i p Hp) as [?|[?|[?|[? ->]]]]; [naive_solver..|by repeat split].
  - intros i p j Hp Hj. destruct (demo_table_cases st i p Hp) as [?|[?|[?|[? ->]]]]; destruct_and?; simplify_eq;
      by eexists.
  - intros i [= <-]. by eexists.
Qed.

Lemma demo_thr st : thr true 0 [] (demo_pst st).
Proof. by repeat split. Qed.

Lemma proc_lock_discipline_witness :
  locks 0 [] (fork 1 : M (pst unit) Z) (same 0 []) (λ _ _, False) ∧
  locks 0 [] (wait 1 0 : M (pst unit) Z) (same 0 []) (own_lock 1) ∧
  locks 0 [] (kill 3 : M (pst unit) Z) (same 0 []) (λ _ _, False) ∧
  locks 0 [] (exit 1 0 : M (pst unit) unit) (λ _ _ _, False) (own_lock 1).
Proof. apply proc_lock_discipline. Defined.

Lemma proc_table_inv_witness :
  tbl_inv (demo_table ZOMBIE) 4 (Some 0%nat) ∧
  tr True (Cfg 0 [] (demo_table ZOMBIE) 4 (Some 0%nat)) (fork 1 : M (pst unit) Z) (λ _, good) (λ _, False).
Proof.
  split; [by apply demo_table_inv|]. eapply (proc_table_inv (demo_table ZOMBIE) 4 (Some 0%nat) 1 _ 0 0 0 0 LWait); try done.
  by apply demo_table_inv.
Defined.

Lemma kill_correct_witness :
  ∃ s', kill 3 (demo_pst SLEEPING) = Ok 0 s' ∧ procs s' = alter kill_one 2%nat (demo_table SLEEPING) ∧ thr true 0 [] s'.
Proof.
  eapply (proj1 (kill_correct true (demo_pst SLEEPING) 3 (demo_thr _) (demo_table_inv SLEEPING ltac:(done)) eq_refl ltac:(lia)) 2%nat);
    reflexivity.
Defined.

Lemma kill_zero_poisons_witness :
  ∃ s', kill 0 (demo_pst ZOMBIE) = Ok 0 s' ∧
    match allocproc s' with
    | Ok (Some j) s'' => ∃ q, procs s'' !! j = Some q ∧ state q = USED ∧ killed_ q = 1
    | _ => True
    end.
Proof.
  eapply (kill_zero_poisons true (demo_pst ZOMBIE) 3 blank_proc (demo_thr _)); [by apply demo_table_inv|reflexivity|simpl; lia|reflexivity|reflexivity].
Defined.

Lemma exit_correct_witness :
  ∃ ch s' l, exit 1 9 (demo_pst RUNNABLE) = Sleep ch s' ∧ woken (demo_table RUNNABLE) l ∧
    (state <$> procs s' !! 1%nat) = Some ZOMBIE ∧ (parent <$> procs s' !! 2%nat) = Some (Some 0%nat).
Proof.
  assert (∃ s1, exit_files 1 (nth 1 (demo_table RUNNABLE) blank_proc) (demo_pst RUNNABLE) = Ok tt s1 ∧ procs s1 !! 2%nat = Some (nth 2 (demo_table RUNNABLE) blank_proc))
    as (s1 & Hs1 & H2) by (eexists; split; reflexivity).
  destruct (exit_correct true (demo_pst RUNNABLE) 1 (nth 1 (demo_table RUNNABLE) blank_proc) 0 9 s1) as (ch & s' & l & E & _ & Hl & Hw & Hz & _ & Ho);
    [exact Hs1|apply demo_thr|reflexivity|reflexivity|reflexivity|done|reflexivity|done|].
  rewrite Hl, list_lookup_alter_ne in H2 by done.
  exists ch, s', l. split; [exact E|]. split; [exact Hw|]. rewrite Hz. split; [done|].
  rewrite (Ho 2%nat _ ltac:(done) H2). reflexivity.
Defined.

