(* ===== verification/Run.v ===== *)
(** * Total correctness of a kernel thread with its memory

    [tr] of [ProcTable] speaks about locks and the process table.  [run] adds a
    part of the state, selected by [get], that locks and the process table have
    no influence on: the kernel memory for pipes, the device state for the
    console.  A computation either returns or goes to sleep, and anything else
    is excluded. *)

From S2P Require Import Prelude Riscv Mem CString Kalloc Vm Spinlock Proc ProcSpec ProcTable.

(** [get] does not look at the CPU, the locks and the process table. *)
Class Store {F V : Type} (get : pst F → V) := {
  store_cpu c s : get (set_mycpu c s) = get s;
  store_held h s : get (set_held h s) = get s;
  store_procs l s : get (set_procs l s) = get s;
}.
#[global] Instance kern_store {F} : Store (kern (F := F)).
Proof. by split. Qed.
#[global] Instance files_store {F} : Store (files (F := F)).
Proof. by split. Qed.
#[global] Instance pair_store {F V W} (g : pst F → V) (h : pst F → W) : Store g → Store h → Store (λ s, (g s, h s)).
Proof. intros [A1 A2 A3] [B1 B2 B3]. split; intros; by rewrite ?A1, ?A2, ?A3, ?B1, ?B2, ?B3. Qed.

#[local] Set Default Proof Using "Type*".

(** Total correctness of [c] from configuration [k] and store [K]: it returns
    as [Q] says, or sleeps on a channel as [R] says. *)
Definition run {F V A : Type} (get : pst F → V) (k : cfg) (K : V) (c : M (pst F) A)
    (Q : A → cfg → V → Prop) (R : Z → cfg → V → Prop) : Prop :=
  ∀ b s, at_cfg b k s → get s = K →
    match c s with
    | Ok a s' => ∃ k', at_cfg b k' s' ∧ Q a k' (get s')
    | Sleep ch s' => ∃ k', at_cfg b k' s' ∧ R ch k' (get s')
    | _ => False
    end.

(** The call leaves the store alone. *)
Definition store_same {F V A : Type} (get : pst F → V) (c : M (pst F) A) : Prop :=
  ∀ s, match c s with Ok _ s' => get s' = get s | Sleep _ s' => get s' = get s | _ => True end.

Section run.
Context {F V : Type} {get : pst F → V}.
Implicit Types s : pst F.
Local Abbreviation run := (run get).
Local Abbreviation store_same := (store_same get).

Context {ST : Store get}.

Lemma store_same_ret {A} (a : A) : store_same (mret a).
Proof. done. Qed.
Lemma store_same_bind {A B} (c : M (pst F) A) (f : A → M (pst F) B) :
  store_same c → (∀ a, store_same (f a)) → store_same (c ≫= f).
Proof.
  intros Hc Hf s. specialize (Hc s). unfold mbind, M_bind. destruct (c s) as [a s'| | | |]; try done.
  specialize (Hf a s'). rewrite <- Hc. by destruct (f a s').
Qed.
Lemma store_same_acquire l : store_same (acquire l).
Proof.
  intros s. unfold acquire, oncpu, lift, zoom, mbind, M_bind, gets, modify. destruct (push_off (mycpu s)) as [a c| | | |]; try done;
    [|by rewrite store_cpu]. case_decide; [done|]. by rewrite store_held, store_cpu.
Qed.
Lemma store_same_release l : store_same (release l).
Proof.
  intros s. unfold release, oncpu, lift, zoom, mbind, M_bind, gets, modify. case_decide; [|done].
  destruct (pop_off _) as [a c| | | |]; try done; by rewrite store_cpu, store_held.
Qed.
Lemma store_same_get_proc i : store_same (get_proc i).
Proof. intros s. unfold get_proc. by destruct (procs s !! i). Qed.
Lemma store_same_upd i f : store_same (upd_proc i f).
Proof. intros s. unfold upd_proc, modify. by rewrite store_procs. Qed.
Lemma store_same_sched cur ch : store_same (sched cur ch).
Proof.
  apply store_same_bind; [apply store_same_get_proc|]. intros p s. unfold mbind, M_bind, gets, panic, sleep_on.
  destruct (negb (bool_decide _)), (negb (noff (mycpu s) =? 1)); try done. simpl.
  case_decide; [done|]. by destruct (sie (mycpu s)).
Qed.

Create HintDb store.
Local Hint Resolve store_same_ret store_same_bind store_same_acquire store_same_release store_same_get_proc store_same_upd
  store_same_sched : store.

Lemma store_same_killed i : store_same (killed i).
Proof. unfold killed. auto 10 with store. Qed.
Lemma store_same_sleep cur ch lk : store_same (sleep cur ch lk).
Proof. unfold sleep. auto 10 with store. Qed.
Lemma store_same_wakeup cur ch : store_same (wakeup cur ch).
Proof.
  unfold wakeup. generalize 0%nat as i. induction (Z.to_nat NPROC) as [|n IH]; intros i; cbn [wakeup_loop]; [done|].
  apply store_same_bind; [|auto]. case_decide; [done|]. apply store_same_bind; [auto with store|]. intros _.
  apply store_same_bind; [auto with store|]. intros p. apply store_same_bind; [case_decide; [apply store_same_upd|done]|auto with store].
Qed.

Lemma run_mono {A} k K (c : M (pst F) A) P P' S S' :
  run k K c P S → (∀ a k' K', P a k' K' → P' a k' K') → (∀ ch k' K', S ch k' K' → S' ch k' K') → run k K c P' S'.
Proof using Type.
  intros Hc HP HS b s Hs HK. specialize (Hc b s Hs HK). destruct (c s) as [a s'| | |ch s'|]; try done; naive_solver.
Qed.

Section run_rules.
Context {B : Type} {Q : B → cfg → V → Prop} {R : Z → cfg → V → Prop}.

Lemma run_ret k K (a : B) : Q a k K → run k K (mret a) Q R.
Proof using Type. intros HQ b s Hs <-. by exists k. Qed.

Lemma run_bind {A} k K (c : M (pst F) A) (f : A → M (pst F) B) P :
  run k K c P R → (∀ a k' K', P a k' K' → run k' K' (f a) Q R) → run k K (c ≫= f) Q R.
Proof using Type.
  intros Hc Hf b s Hs HK. specialize (Hc b s Hs HK). unfold mbind, M_bind. destruct (c s) as [a s'| | |ch s'|]; try done.
  destruct Hc as (k' & Hs' & HP). by apply (Hf a k' (get s')).
Qed.

(** A call that does not touch the store. *)
Lemma run_tr {A} k K (c : M (pst F) A) (f : A → M (pst F) B) P :
  tr False k c P (λ _, False) → store_same c → (∀ a k', P a k' → run k' K (f a) Q R) → run k K (c ≫= f) Q R.
Proof using Type.
  intros Hc Hk Hf b s Hs HK. destruct (tr_returns k c P b s Hc Hs) as (a & s' & k' & E & Hs' & HP).
  specialize (Hk s). unfold mbind, M_bind. rewrite E in Hk |- *. apply (Hf a k'); [done|done|congruence].
Qed.

(** The same at the end of a sequence. *)
Lemma run_tr_last k K (c : M (pst F) B) P :
  tr False k c P (λ _, False) → store_same c → (∀ a k', P a k' → Q a k' K) → run k K c Q R.
Proof using Type.
  intros Hc Hk HQ b s Hs HK. destruct (tr_returns k c P b s Hc Hs) as (a & s' & k' & E & Hs' & HP).
  specialize (Hk s). rewrite E in Hk |- *. exists k'. split; [done|]. rewrite Hk, HK. by apply HQ.
Qed.

Lemma run_get_proc d h l n ip K i p (f : proc → M (pst F) B) :
  l !! i = Some p → run (Cfg d h l n ip) K (f p) Q R → run (Cfg d h l n ip) K (get_proc i ≫= f) Q R.
Proof using Type.
  intros Hp Hf b s Hs HK. pose proof Hs as (_ & Ht & _). simpl in Ht. unfold get_proc, mbind, M_bind. rewrite Ht, Hp.
  by apply (Hf b).
Qed.
End run_rules.

(** Going to sleep with the lock given up. *)
Definition asleep (cur : nat) (ch : Z) (l : list proc) : list proc := alter (set_state SLEEPING) cur (alter (set_chan ch) cur l).

Lemma sched_eq cur ch b l n ip s p : at_cfg b (Cfg 1 [LProc cur] l n ip) s → l !! cur = Some p → state p ≠ RUNNING →
  sched cur ch s = Sleep ch s.
Proof using Type.
  intros ([(Hn & Hi & _) Hh] & Hl & _) Hp Hs. simpl in *. unfold sched, get_proc, mbind, M_bind, gets. rewrite Hl, Hp, Hh.
  rewrite bool_decide_true by by left. simpl. rewrite Hn. simpl. by rewrite decide_False, Hi by done.
Qed.

Lemma run_sleep {A} l n ip K cur ch lk p (f : unit → M (pst F) A) Q R :
  lk ≠ LProc cur → l !! cur = Some p →
  R ch (Cfg 1 [LProc cur] (asleep cur ch l) n ip) K → run (Cfg 1 [lk] l n ip) K (sleep cur ch lk ≫= f) Q R.
Proof.
  intros Hne Hp HR. unfold sleep. apply (run_bind _ _ _ _ (λ _ _ _, False)); [|done].
  eapply run_tr; [apply acquire_tr; set_solver|apply store_same_acquire|]. intros _ k ->.
  eapply (run_tr _ _ _ _ (λ _ k, k = Cfg 1 [LProc cur] l n ip)); [|apply store_same_release|].
  { apply tr_last, tr_release; [by right; left|]. apply tr_ret. by rewrite (filter_second lk) by (done || apply not_elem_of_nil). }
  intros _ k ->. do 2 (eapply run_tr; [apply upd_tr|apply store_same_upd|]; intros _ k ->).
  intros b s Hs HK. erewrite sched_eq; [exists (Cfg 1 [LProc cur] (asleep cur ch l) n ip); by rewrite HK|done| |].
  - unfold asleep. by rewrite !list_lookup_alter_eq, Hp.
  - done.
Qed.

End run.

Section run_kern.
Context {F : Type}.
Context {B : Type} {Q : B → cfg → kst → Prop} {R : Z → cfg → kst → Prop}.

Lemma run_vm {A} k K K' (c : M kst A) a (f : A → M (pst F) B) :
  c K = Ok a K' → run kern k K' (f a) Q R → run kern k K (vm c ≫= f) Q R.
Proof.
  intros Hc Hf b s Hs HK. unfold vm, lift, zoom, mbind, M_bind. rewrite HK, Hc. by apply (Hf b).
Qed.

Lemma run_vm_wp {A} k K (c : M kst A) P (f : A → M (pst F) B) :
  wp c K P → (∀ a K', P a K' → run kern k K' (f a) Q R) → run kern k K (vm c ≫= f) Q R.
Proof. intros Hc Hf. apply wp_elim in Hc as (a & K' & E & HP). eapply run_vm; [done|]. by apply Hf. Qed.

End run_kern.

#[global] Instance comp_store {F V W} (g : pst F → V) (f : V → W) : Store g → Store (λ s, f (g s)).
Proof. intros [H1 H2 H3]. split; intros; by rewrite ?H1, ?H2, ?H3. Qed.
