(* ===== verification/Space.v ===== *)
(** * Address spaces of processes

    [proc_pagetable] and [proc_freepagetable] of [kernel/proc.c] and what they
    call, for one address space among others: it maps its memory, the trampoline
    and its trap frame, and while it is made, copied or freed, every other
    address space, and every page in use outside of them, stays as it is
    ([others]).  Memory may run out at any point. *)

From S2P Require Import Prelude Riscv Mem CString Kalloc Vm VmTree VmOps VmFree Cow KvmSpec Proc.

Section space.
Context `{KernelImage}.

(** ** What a change of one address space leaves alone *)

(** From one state to the other nothing changed for the address spaces but
    [r]'s, nor for a page in use outside of them, other than [e]: they map the
    same pages, and every byte is the same.  A page may have become
    copy-on-write, or private. *)
Record others (r e : Z) (s : kst) (fl : list Z) (T : tables) (L : leaves) (s' : kst) (fl' : list Z) (T' : tables) (L' : leaves) : Prop := {
  ot_tree k : k.1 ≠ r → T' !! k = T !! k;
  ot_leaf r' va : r' ≠ r → is_Some (L' !! (r', va)) ↔ is_Some (L !! (r', va));
  ot_high r' va : r' ≠ r → TRAPFRAME ≤ va → L' !! (r', va) = L !! (r', va);
  ot_view r' va : r' ≠ r → view s' L' r' va = view s L r' va;
  ot_own q : q ≠ e → owned s fl T L q → owned s' fl' T' L' q ∧ ∀ x, pg x = q → mem s' x = mem s x;
}.

Lemma others_refl r e s fl T L : others r e s fl T L s fl T L.
Proof. by split. Qed.
Lemma others_trans r e s fl T L s1 fl1 T1 L1 s2 fl2 T2 L2 :
  others r e s fl T L s1 fl1 T1 L1 → others r e s1 fl1 T1 L1 s2 fl2 T2 L2 → others r e s fl T L s2 fl2 T2 L2.
Proof.
  intros [A1 A2 A3 A4 A5] [B1 B2 B3 B4 B5]. split.
  - intros. by rewrite B1, A1.
  - intros. by rewrite B2, A2.
  - intros. by rewrite B3, A3.
  - intros. by rewrite B4, A4.
  - intros q He Hq. destruct (A5 q He Hq) as [Hq1 M1], (B5 q He Hq1) as [Hq2 M2]. split; [done|]. intros x Hx. by rewrite M2, M1.
Qed.

(** A page taken and given back in between. *)
Lemma others_drop r e s fl T L s1 fl1 T1 L1 s2 fl2 T2 L2 : others r 0 s fl T L s1 fl1 T1 L1 → others r e s1 fl1 T1 L1 s2 fl2 T2 L2 → e = 0 ∨ e ∈ fl →
  others r 0 s fl T L s2 fl2 T2 L2.
Proof.
  intros [P1 P2 P3 P4 P5] [O1 O2 O3 O4 O5] He. split.
  - intros k Hk. by rewrite O1, P1.
  - intros r' va Hr. by rewrite O2, P2.
  - intros r' va Hr Hva. by rewrite O3, P3.
  - intros r' va Hr. by rewrite O4, P4.
  - intros x Hx Hox. destruct (P5 x Hx Hox) as [Hx1 Hm1]. destruct (O5 x) as [Hx2 Hm2]; [|done|split; [done|]; intros y Hy; by rewrite Hm2, Hm1].
    intros ->. destruct He as [?|Hin]; [done|]. by apply (ow_nfree _ _ _ _ _ Hox).
Qed.

Lemma others_0 r e s fl T L s' fl' T' L' : others r 0 s fl T L s' fl' T' L' → others r e s fl T L s' fl' T' L'.
Proof. intros [O1 O2 O3 O4 O5]. split; [done..|]. intros q _ Hq. apply O5; [|done]. by apply page_ok_ne_0, (ow_ok _ _ _ _ _ Hq). Qed.

(** A change of tables and free pages only. *)
Lemma others_frame r e s fl T L s' fl' T' L' : vm_inv s fl T L →
  (∀ x, pg x ∉ fl → (∀ k, T !! k ≠ Some (pg x)) → mem s' x = mem s x) →
  (∀ k, k.1 ≠ r → T' !! k = T !! k) → (∀ r' va, r' ≠ r → L' !! (r', va) = L !! (r', va)) →
  (∀ q, q ≠ e → owned s fl T L q → owned s' fl' T' L' q) → others r e s fl T L s' fl' T' L'.
Proof.
  intros Hv Hm HT HL Hq. split; [done|intros; by rewrite HL|auto| |].
  - intros r' va Hr. eapply view_ext; [done..|by rewrite HL].
  - intros q He Ho. split; [auto|]. destruct Ho. intros x <-. by apply Hm.
Qed.

(** A tree that grows. *)
Lemma others_grow r e s fl T L s' fl' T' new L' : vm_inv s fl T L → grow r s fl T s' fl' T' new →
  (∀ r' va, r' ≠ r → L' !! (r', va) = L !! (r', va)) → (∀ q, q ≠ e → owned s fl T L q → urefs L' q = 0) → others r e s fl T L s' fl' T' L'.
Proof.
  intros Hv Hg HL Hq. pose proof Hg as [Gf Gs Gn Gu Gr Gm]. apply others_frame; [done| | |done|].
  - intros x Hx HxT. apply Gm; [|done]. rewrite Gf in Hx. set_solver.
  - intros k Hk. destruct (T' !! k) as [p|] eqn:E.
    + destruct (Gn _ _ E) as [?|(_ & ? & _)]; done.
    + symmetry. by eapply lookup_weaken_None.
  - intros q He Ho. destruct (owned_grow _ _ _ _ _ _ _ _ _ _ Ho Hg). split; try done. by apply Hq.
Qed.

(** Taking a free page. *)
Lemma others_take r e p s fl T T' L s' fl' : vm_inv s (p :: fl) T L → only_page p s s' → (∀ q, q ∈ fl' → q ∈ p :: fl) →
  (∀ k, T' !! k = T !! k ∨ (k.1 = r ∧ T' !! k = Some p)) → others r e s (p :: fl) T L s' fl' T' L.
Proof.
  intros Hv [Hrc Hm] Hfl HT. apply others_frame; [done| | |done|].
  - intros x Hx _. apply Hm. intros E. apply Hx. rewrite E. by left.
  - intros k Hk. by destruct (HT k) as [|[? _]].
  - intros q _ [Hok Hnf HnT Hnr Hq]. apply not_elem_of_cons in Hnf as [Hne Hnf]. split; [done| | |done|by rewrite Hrc].
    + intros [?|?]%Hfl%elem_of_cons; done.
    + intros k. destruct (HT k) as [-> |[_ ->]]; [done|congruence].
Qed.

(** Giving one back. *)
Lemma others_give r p s fl T L s' : vm_inv s fl T L → owned s fl T L p → only_page p s s' → others r p s fl T L s' (p :: fl) T L.
Proof.
  intros Hv Hp [Hrc Hm]. split; [done..| |].
  - intros r' va _. unfold view. destruct (L !! (r', pg va)) as [pte|] eqn:E; [|done]. simpl. destruct (band pte PTE_U) eqn:EU; [|done].
    destruct (view_page _ _ _ _ _ _ _ Hv E EU) as (Hpg & _). f_equal. apply Hm. rewrite Hpg. intros Eq.
    pose proof (urefs_pos _ _ _ _ E (leaf_user _ _ _ _ _ _ _ Hv E EU)). pose proof (ow_nref _ _ _ _ _ Hp). rewrite Eq in *. lia.
  - intros q He [Hok Hnf HnT Hnr Hq]. split; [split; [done| |done|done|by rewrite Hrc]|].
    + by apply not_elem_of_cons.
    + intros x <-. by apply Hm.
Qed.

(** A fresh root has no tree. *)
Lemma no_tree s fl T L r : pt_inv s fl T L → (∀ k, T !! k ≠ Some r) → (∀ path, T !! (r, path) = None) ∧ ∀ va, L !! (r, va) = None.
Proof.
  intros [_ Hr _] Hn. assert (∀ path, T !! (r, path) = None) as HT.
  { intros path. destruct (T !! (r, path)) eqn:E; [|done]. by destruct (Hn (r, []) (pr_root _ _ _ Hr _ _ _ E)). }
  split; [done|]. intros va. destruct (L !! (r, va)) eqn:E; [|done]. destruct (pr_dom _ _ _ Hr _ _ _ E) as (_ & [? E'] & _). by rewrite HT in E'.
Qed.

(** ** The two pages at the top of an address space *)

Definition high_perm (perm : Z) : Prop := 0 ≤ perm < 1024 ∧ band perm PTE_U = false ∧ Z.lor perm PTE_V ≠ PTE_V.

Lemma map_high s fl T L r va pa perm : vm_inv s fl T L → T !! (r, []) = Some r → va_ok va → TRAPFRAME ≤ va → pa_ok pa → high_perm perm →
  L !! (r, va) = None →
  ∃ res s' fl' T' new, mappages r va PGSIZE pa perm s = Ok res s' ∧ grow r s fl T s' fl' T' new ∧ (length new ≤ 2)%nat ∧
    ((res = 0 ∧ vm_inv s' fl' T' (<[(r, va) := mk_pte pa perm]> L) ∧ ∀ e, others r e s fl T L s' fl' T' (<[(r, va) := mk_pte pa perm]> L)) ∨
     (res = -1 ∧ vm_inv s' fl' T' L ∧ (∀ e, others r e s fl T L s' fl' T' L) ∧ fl' = [])).
Proof.
  intros Hv HT Hva Hhi Hpa (Hp & HU & _) HL. destruct (mappages_page s fl T L r va pa perm) as (res & s' & fl' & T' & new & Hm & Hg & Hlen & Hres); [apply Hv|done..|].
  assert (∀ q, urefs (<[(r, va) := mk_pte pa perm]> L) q = urefs L q) as Hur.
  { intros q. rewrite urefs_insert by done. unfold ref1. rewrite decide_False; [lia|]. intros [? _]. simpl in *. lia. }
  exists res, s', fl', T', new. split_and!; [done..|]. destruct Hres as [[-> Hi]|(-> & Hi & ->)]; [left|right]; (split; [done|]).
  - split; [split; [done|]|].
    + apply leaf_inv_insert_high; [by eapply leaf_inv_grow|done|done|]. rewrite mk_pte_band by (done || flag_bounds). by rewrite HU.
    + intros e. eapply others_grow; [done|done| |].
      * intros r' va' Hr. by rewrite lookup_insert_ne by congruence.
      * intros q _ Ho. rewrite Hur. apply Ho.
  - split; [by eapply vm_inv_grow|]. split; [|done]. intros e. eapply others_grow; [done|done|done|]. intros q _ Ho. apply Ho.
Qed.

Lemma unmap_high s fl T L r va pa perm : vm_inv s fl T L → L !! (r, va) = Some (mk_pte pa perm) → TRAPFRAME ≤ va → pa_ok pa → high_perm perm →
  ∃ s', uvmunmap r va 1 false s = Ok tt s' ∧ vm_inv s' fl T (delete (r, va) L) ∧ ∀ e, others r e s fl T L s' fl T (delete (r, va) L).
Proof.
  intros Hv HL Hhi Hpa (Hp & _ & Hnv). destruct (unmap_walk _ _ _ _ _ _ _ (vi_pt _ _ _ _ Hv) HL) as (p & HT & Hw & Hnz & Hld & Hva & HV).
  destruct (pt_leaf_store s fl T L r va p None) as (s' & Hst & Hi' & Hf & Hrc & Hm); [apply Hv|done..|].
  assert (∀ q, urefs (delete (r, va) L) q = urefs L q) as Hur.
  { intros q. rewrite (urefs_delete _ _ _ _ _ HL). unfold ref1. rewrite decide_False; [lia|]. intros [? _]. simpl in *. lia. }
  exists s'. split; [|split].
  - unfold uvmunmap, PGSIZE. destruct Hva as [_ ->]. cbn [negb Z.eqb]. change (Z.to_nat 1) with 1%nat. cbn [uvmunmap_loop]. unfold mbind, M_bind, mret, M_ret.
    rewrite Hw, Hnz, Hld, HV. cbn [negb]. rewrite mk_pte_FLAGS by done. rewrite (proj2 (Z.eqb_neq _ _)) by done. change (default 0 None) with 0 in Hst. by rewrite Hst.
  - split; [done|]. rewrite Hrc. destruct (vi_leaf _ _ _ _ Hv) as [Hok Href Hex Hh].
    split; intros r' va' pte' [Hne HL']%lookup_delete_Some Hva'; rewrite ?Hur; eauto.
  - intros e. apply others_frame; [done| |done| |].
    + intros x _ HxT. apply Hm. intros <-. by eapply HxT.
    + intros r' va' Hr. by rewrite lookup_delete_ne by congruence.
    + intros q _ [? ? ? ? ?]. split; try done; by rewrite ?Hur, ?Hrc.
Qed.

(** ** Making and freeing an address space *)

(** Running out of memory in [kalloc]. *)
Lemma kalloc_none s T L : vm_inv s [] T L → ∃ s', kalloc s = Ok 0 s' ∧ vm_inv s' [] T L ∧ ∀ r e, others r e s [] T L s' [] T L.
Proof.
  intros Hv. destruct (pt_alloc_empty s T L 0 (vi_pt _ _ _ _ Hv)) as (s' & Hk & Hi & Hg). exists s'. split; [done|]. split; [by eapply vm_inv_grow|].
  intros r e. destruct Hg as [_ _ _ _ Gr Gm]. apply others_frame; [done| |done|done|].
  - intros x _ HxT. apply Gm; [apply not_elem_of_nil|done].
  - intros q _ [? ? ? ? ?]. split; try done. rewrite Gr; [done|done|apply not_elem_of_nil].
Qed.

Lemma uvmcreate_others s fl T L : vm_inv s fl T L →
  ∃ r s', uvmcreate s = Ok r s' ∧
    ((r = 0 ∧ fl = [] ∧ vm_inv s' [] T L ∧ ∀ r e, others r e s fl T L s' [] T L) ∨
     (∃ fl', fl = r :: fl' ∧ page_ok r ∧ (∀ k, T !! k ≠ Some r) ∧ vm_inv s' fl' (<[(r, []) := r]> T) L ∧
        ∀ e, others r e s fl T L s' fl' (<[(r, []) := r]> T) L)).
Proof.
  intros Hv. unfold uvmcreate, mbind, M_bind. destruct fl as [|r fl].
  { destruct (kalloc_none s T L Hv) as (s' & -> & Hv' & Ho). exists 0, s'. split; [done|]. by left. }
  destruct (root_alloc s r fl T L Hv) as (s1 & s' & -> & Hms & Hnz & Hr & HnT & Hv' & Ho). rewrite (proj2 (Z.eqb_neq r 0)), Hms by done.
  exists r, s'. split; [done|]. right. exists fl. split_and!; [done..|]. intros e. apply others_take; [done|done|set_solver|].
  intros k. rewrite lookup_insert. case_decide; [subst; by right|by left].
Qed.

Lemma uvmfree_others s fl T L r sz :
  vm_inv s fl T L → T !! (r, []) = Some r → 0 ≤ sz ≤ TRAPFRAME →
  (∀ va, is_Some (L !! (r, va)) ↔ 0 ≤ va < PGROUNDUP sz ∧ va mod 4096 = 0) →
  wp (uvmfree r sz) s (λ _ s', ∃ fl' T' L', vm_inv s' fl' T' L' ∧ (∀ path, T' !! (r, path) = None) ∧ (∀ va, L' !! (r, va) = None) ∧
    (∀ r' va, r' ≠ r → L' !! (r', va) = L !! (r', va)) ∧ (∀ p, p ∈ fl → p ∈ fl') ∧ ∀ e, others r e s fl T L s' fl' T' L').
Proof.
  intros Hv HT Hsz Hdom. eapply wp_mono; [by apply (uvmfree_spec s fl T L)|].
  intros _ s' (fl' & T' & L' & Hv' & HL' & HT' & _ & _ & Hfl & Hm & Hown). exists fl', T', L'.
  assert (∀ r' va, r' ≠ r → L' !! (r', va) = L !! (r', va)) as HLo by (intros r' va Hr; by rewrite HL', decide_False).
  split_and!; [done|intros path; by rewrite HT', decide_True|intros va; by rewrite HL', decide_True|done|done|]. intros e. split.
  - intros [r' path] Hk. simpl in Hk. by rewrite HT', decide_False.
  - intros r' va Hr. by rewrite HLo.
  - intros r' va Hr _. by apply HLo.
  - intros r' va Hr. unfold view. rewrite HLo by done. destruct (L !! (r', pg va)) as [pte|] eqn:E; [|done]. simpl. destruct (band pte PTE_U) eqn:EU; [|done].
    destruct (view_page _ _ _ _ _ _ _ Hv E EU) as (Hpg & _ & HnT). rewrite <- HLo in E by done. destruct (view_page _ _ _ _ _ _ _ Hv' E EU) as (_ & Hnf & _).
    f_equal. apply Hm; by rewrite Hpg.
  - intros q _ Ho. split; [by apply Hown|]. intros x <-. apply Hm; [apply (Hown _ Ho)|apply Ho].
Qed.

(** The address space of root [r] and trap frame [tf]: [sz] bytes of memory, the
    trampoline and the trap frame, and nothing else. *)
Record space (s : kst) (fl : list Z) (T : tables) (L : leaves) (r tf sz : Z) : Prop := {
  sp_root : T !! (r, []) = Some r;
  sp_size : 0 ≤ sz ≤ TRAPFRAME;
  sp_user va : va < TRAPFRAME → is_Some (L !! (r, va)) ↔ 0 ≤ va < PGROUNDUP sz ∧ va mod 4096 = 0;
  sp_tramp : L !! (r, TRAMPOLINE) = Some (mk_pte trampoline RX);
  sp_frame : L !! (r, TRAPFRAME) = Some (mk_pte tf RW);
  sp_tf : owned s fl T L tf;
}.

(** The pages in use for something else are untouched. *)
Definition kept_pages (K : kst) (fl : list Z) (T : tables) (L : leaves) (K' : kst) (fl' : list Z) (T' : tables) (L' : leaves) : Prop :=
  ∀ p, owned K fl T L p → owned K' fl' T' L' p ∧ ∀ x, pg x = p → mem K' x = mem K x.
Lemma others_kept r K fl T L K' fl' T' L' : others r 0 K fl T L K' fl' T' L' → kept_pages K fl T L K' fl' T' L'.
Proof. intros Ho p Hp. apply (ot_own _ _ _ _ _ _ _ _ _ _ Ho); [|done]. apply page_ok_ne_0, Hp. Qed.


Lemma high_RX : high_perm RX.
Proof. split; [by vm_compute|]. split; [done|]. by vm_compute. Qed.
Lemma high_RW : high_perm RW.
Proof. split; [by vm_compute|]. split; [done|]. by vm_compute. Qed.
Lemma trampoline_pa : pa_ok trampoline.
Proof.
  split; [|apply trampoline_aligned]. pose proof trampoline_base. pose proof etext_trampoline. pose proof kend_etext. pose proof kend_phystop.
  assert (KERNBASE = 0x80000000 ∧ PHYSTOP = 0x88000000) as [? ?] by done. lia.
Qed.
Lemma va_high : va_ok TRAMPOLINE ∧ va_ok TRAPFRAME ∧ TRAPFRAME ≤ TRAMPOLINE ∧ TRAPFRAME ≠ TRAMPOLINE.
Proof. by vm_compute. Qed.

(** Freeing the tree of [r] when nothing is mapped in it gives the maps of
    before it was made. *)
Lemma undo_space s fl T L s1 fl1 T1 L1 r : vm_inv s fl T L → (∀ k, T !! k ≠ Some r) → vm_inv s1 fl1 T1 L1 → T1 !! (r, []) = Some r →
  (∀ va, L1 !! (r, va) = None) → (∀ r' va, r' ≠ r → L1 !! (r', va) = L !! (r', va)) → (∀ e, others r e s fl T L s1 fl1 T1 L1) →
  wp (uvmfree r 0) s1 (λ _ s', ∃ fl', vm_inv s' fl' T L ∧ ∀ r' e, others r' e s fl T L s' fl' T L).
Proof.
  intros Hv HnT Hv1 HT1 HL1 HLo Ho1. destruct (no_tree _ _ _ _ _ (vi_pt _ _ _ _ Hv) HnT) as [HnT' HnL].
  eapply wp_mono; [apply (uvmfree_others s1 fl1 T1 L1); [done|done|by vm_compute|]|].
  { intros va. rewrite HL1. change (PGROUNDUP 0) with 0. split; [by intros []|lia]. }
  intros _ s' (fl' & T' & L' & Hv' & HT' & HL' & HLo' & _ & Ho'). exists fl'.
  assert (∀ e, others r e s fl T L s' fl' T' L') as Ho by (intros e; by eapply others_trans).
  assert (T' = T) as ->. { apply map_eq. intros [r' path]. destruct (decide (r' = r)) as [->|]; [by rewrite HT', HnT'|]. by apply (Ho 0). }
  assert (L' = L) as ->. { apply map_eq. intros [r' va]. destruct (decide (r' = r)) as [->|]; [by rewrite HL', HnL|]. by rewrite HLo', HLo. }
  split; [done|]. intros r' e. destruct (Ho e) as [? ? ? O4 O5]. split; [done..| |done].
  intros r2 va _. destruct (decide (r2 = r)) as [->|]; [|by apply O4]. unfold view. by rewrite HnL.
Qed.

(** What [proc_pagetable] ends with: nothing, for lack of memory, or a new
    address space, out of at most five pages. *)
Definition new_space (s : kst) (fl : list Z) (T : tables) (L : leaves) (tf r : Z) (s' : kst) : Prop := ∃ fl' T' L', vm_inv s' fl' T' L' ∧
  ((r = 0 ∧ T' = T ∧ L' = L ∧ (∀ r' e, others r' e s fl T L s' fl' T L) ∧ (length fl ≤ 5)%nat) ∨
   (r ≠ 0 ∧ (∀ k, T !! k ≠ Some r) ∧ (∀ e, others r e s fl T L s' fl' T' L') ∧ space s' fl' T' L' r tf 0 ∧
      ∃ used, fl = used ++ fl' ∧ (length used ≤ 5)%nat)).

Lemma proc_pagetable_wp s fl T L tf : vm_inv s fl T L → owned s fl T L tf → wp (proc_pagetable tf) s (new_space s fl T L tf).
Proof.
  intros Hv Htf. pose proof (page_ok_pa_ok _ (ow_ok _ _ _ _ _ Htf)) as Hptf. pose proof high_RX as HRX. pose proof high_RW as HRW.
  destruct va_high as (Hva1 & Hva2 & Hle & Hne). unfold proc_pagetable.
  destruct (uvmcreate_others s fl T L Hv) as (r & s1 & Hs1 & [(-> & -> & Hv1 & Ho1)|(fl1 & -> & Hr & HnT & Hv1 & Ho1)]); apply wp_bind; (eapply wp_Ok; [exact Hs1|]).
  { apply wp_ret. exists [], T, L. split; [done|]. left. split_and!; try done. simpl. lia. }
  assert (r ≠ 0) as Hnz by by apply page_ok_ne_0. rewrite (proj2 (Z.eqb_neq r 0)) by done. destruct (no_tree _ _ _ _ _ (vi_pt _ _ _ _ Hv) HnT) as [_ HnL].
  set (T1 := <[(r, []) := r]> T) in *. assert (T1 !! (r, []) = Some r) as HT1 by apply lookup_insert_eq.
  destruct (map_high s1 fl1 T1 L r TRAMPOLINE trampoline RX) as (res & s2 & fl2 & T2 & n2 & Hm2 & Hg2 & Hn2 & Hres2); try done; [apply trampoline_pa|].
  assert (T2 !! (r, []) = Some r) as HT2 by (eapply lookup_weaken, Hg2; done). apply wp_bind. eapply wp_Ok; [exact Hm2|].
  pose proof (gr_fl _ _ _ _ _ _ _ _ Hg2) as Hf2. destruct Hres2 as [(-> & Hv2 & Ho2)|(-> & Hv2 & Ho2 & ->)]; cbn [Z.ltb].
  2:{ apply wp_bind. eapply wp_mono; [eapply (undo_space s (r :: fl1) T L s2 [] T2 L); try done; intros e; by eapply others_trans|].
      intros _ s3 (fl3 & Hv3 & Ho3). apply wp_ret. exists fl3, T, L. split; [done|]. left. split_and!; try done. rewrite Hf2. simpl. rewrite length_app. simpl. lia. }
  set (L2 := <[(r, TRAMPOLINE) := mk_pte trampoline RX]> L) in *. assert (L2 !! (r, TRAPFRAME) = None) as HL2 by (unfold L2; rewrite lookup_insert_ne by congruence; apply HnL).
  destruct (map_high s2 fl2 T2 L2 r TRAPFRAME tf RW) as (res & s3 & fl3 & T3 & n3 & Hm3 & Hg3 & Hn3 & Hres3); try done.
  assert (T3 !! (r, []) = Some r) as HT3 by (eapply lookup_weaken, Hg3; done). apply wp_bind. eapply wp_Ok; [exact Hm3|].
  pose proof (gr_fl _ _ _ _ _ _ _ _ Hg3) as Hf3. destruct Hres3 as [(-> & Hv3 & Ho3)|(-> & Hv3 & Ho3 & ->)]; cbn [Z.ltb].
  2:{ destruct (unmap_high s3 [] T3 L2 r TRAMPOLINE trampoline RX) as (s4 & Hs4 & Hv4 & Ho4); try done; [apply lookup_insert_eq|apply trampoline_pa|].
      apply wp_bind. eapply wp_Ok; [exact Hs4|]. unfold L2 in Hv4, Ho4. rewrite delete_insert_id in Hv4, Ho4 by apply HnL.
      apply wp_bind. eapply wp_mono; [eapply (undo_space s (r :: fl1) T L s4 [] T3 L); try done; intros e; do 3 (eapply others_trans; [done|]); done|].
      intros _ s5 (fl5 & Hv5 & Ho5). apply wp_ret. exists fl5, T, L. split; [done|]. left. split_and!; try done. rewrite Hf2, Hf3. simpl. rewrite !length_app. simpl. lia. }
  apply wp_ret. set (L3 := <[(r, TRAPFRAME) := mk_pte tf RW]> L2) in *. assert (∀ e, others r e s (r :: fl1) T L s3 fl3 T3 L3) as Ho by (intros e; do 2 (eapply others_trans; [done|]); done).
  exists fl3, T3, L3. split; [done|]. right. split_and!; [done|done|done| |].
  - split; [done|by vm_compute| | | |].
    + intros va Hva. unfold L3, L2. rewrite !lookup_insert_ne, HnL by (intros [= ?]; lia). change (PGROUNDUP 0) with 0. split; [by intros []|lia].
    + unfold L3, L2. by rewrite lookup_insert_ne, lookup_insert_eq by congruence.
    + apply lookup_insert_eq.
    + destruct (ot_own _ _ _ _ _ _ _ _ _ _ (Ho 0) tf) as [? _]; try done. by apply page_ok_ne_0, (ow_ok _ _ _ _ _ Htf).
  - exists (r :: n2 ++ n3). rewrite Hf2, Hf3. simpl. rewrite app_assoc. split; [done|]. rewrite length_app. lia.
Qed.

(** [proc_freepagetable], once the trap frame is free. *)
Lemma proc_freepagetable_wp s fl T L r tf sz : vm_inv s fl T L → T !! (r, []) = Some r → 0 ≤ sz ≤ TRAPFRAME →
  (∀ va, va < TRAPFRAME → is_Some (L !! (r, va)) ↔ 0 ≤ va < PGROUNDUP sz ∧ va mod 4096 = 0) →
  L !! (r, TRAMPOLINE) = Some (mk_pte trampoline RX) → L !! (r, TRAPFRAME) = Some (mk_pte tf RW) → page_ok tf →
  wp (proc_freepagetable r sz) s (λ _ s', ∃ fl' T' L', vm_inv s' fl' T' L' ∧ (∀ path, T' !! (r, path) = None) ∧ (∀ va, L' !! (r, va) = None) ∧
    (∀ r' va, r' ≠ r → L' !! (r', va) = L !! (r', va)) ∧ (∀ p, p ∈ fl → p ∈ fl') ∧ ∀ e, others r e s fl T L s' fl' T' L').
Proof.
  intros Hv HT Hsz Hdom Htr Hfr Htf. pose proof high_RX as HRX. pose proof high_RW as HRW. destruct va_high as (Hva1 & Hva2 & Hle & Hne). unfold proc_freepagetable.
  destruct (unmap_high s fl T L r TRAMPOLINE trampoline RX) as (s1 & Hs1 & Hv1 & Ho1); try done; [apply trampoline_pa|]. apply wp_bind. eapply wp_Ok; [exact Hs1|].
  destruct (unmap_high s1 fl T (delete (r, TRAMPOLINE) L) r TRAPFRAME tf RW) as (s2 & Hs2 & Hv2 & Ho2); try done; [by rewrite lookup_delete_ne by congruence|by apply page_ok_pa_ok|].
  apply wp_bind. eapply wp_Ok; [exact Hs2|]. eapply wp_mono; [apply (uvmfree_others s2 fl T (delete (r, TRAPFRAME) (delete (r, TRAMPOLINE) L))); try done|].
  - intros va. destruct (decide (va < TRAPFRAME)) as [Hlt|Hge].
    + rewrite !lookup_delete_ne by (intros [= ?]; lia). by apply Hdom.
    + destruct (PGROUNDUP_le sz Hsz) as (Hr1 & Hr2 & Hr3). split; [|lia]. intros [pte [Hn1 [Hn2 E]%lookup_delete_Some]%lookup_delete_Some].
      destruct (pr_dom _ _ _ (pi_rep _ _ _ _ (vi_pt _ _ _ _ Hv)) _ _ _ E) as ([Hva Ha] & _). exfalso.
      assert (MAXVA = 0x4000000000 ∧ TRAPFRAME = 0x3fffffe000 ∧ TRAMPOLINE = 0x3ffffff000) as (HM & HF & HTr) by done.
      assert (va = TRAPFRAME ∨ va = TRAMPOLINE) as [-> | ->] by (Z.div_mod_to_equations; lia); congruence.
  - intros _ s' (fl' & T' & L' & Hv' & HT' & HL' & HLo & Hfl & Ho'). exists fl', T', L'. split_and!; [done..| |done|].
    + intros r' va Hr. by rewrite HLo, !lookup_delete_ne by congruence.
    + intros e. do 2 (eapply others_trans; [done|]). done.
Qed.

(** Every user byte is below the end of the memory. *)
Lemma space_view s fl T L r tf sz va : vm_inv s fl T L → space s fl T L r tf sz → PGROUNDUP sz ≤ va ∨ va < 0 → view s L r va = None.
Proof.
  intros Hv [_ Hsz Hu _ _ _] Hva. unfold view. destruct (L !! (r, pg va)) as [pte|] eqn:E; [|done]. simpl. destruct (band pte PTE_U) eqn:EU; [|done].
  pose proof (leaf_user _ _ _ _ _ _ _ Hv E EU) as Hlt. destruct (Hu (pg va) Hlt) as [[Hr _] _]; [by eexists|]. destruct (PGROUNDUP_le sz Hsz) as (_ & Hr2 & _).
  unfold pg in *. Z.div_mod_to_equations. lia.
Qed.

(** A fork maps no new page. *)
Lemma forked_urefs s fl T L L' c old new hi q : vm_inv s fl T L → forked c old new hi L L' → (∀ va, va < TRAPFRAME → L !! (new, va) = None) →
  urefs L q = 0 → urefs L' q = 0.
Proof.
  intros Hv [Fo Fc Fr] Hemp Hq. apply urefs_0. intros r' va pte HL Hva E.
  assert (∃ r0 pte0, L !! (r0, va) = Some pte0 ∧ PTE2PA pte0 = q) as (r0 & pte0 & HL0 & E0).
  { destruct (decide (r' = old)) as [->|Hro]; [|destruct (decide (r' = new)) as [->|Hrn]; [|rewrite Fr in HL by done; eauto]].
    - rewrite Fo in HL. destruct (L !! (old, va)) as [pte0|] eqn:E0; [|done]. exists old, pte0. split; [done|]. simpl in HL. injection HL as <-.
      rewrite <- E. case_match; [by rewrite cow_pte_PA|done].
    - rewrite Fc in HL. destruct (c && (va <? hi)); [|by rewrite Hemp in HL]. destruct (L !! (old, va)) as [pte0|] eqn:E0; [|done]. exists old, pte0.
      split; [done|]. simpl in HL. injection HL as <-. rewrite <- E. symmetry. apply child_pte_PA. by destruct (leaf_used _ _ _ _ _ _ _ Hv E0 Hva). }
  pose proof (urefs_pos _ _ _ _ HL0 Hva). rewrite E0 in *. lia.
Qed.

Lemma forked_others s fl T L s' fl' T' L' c old new hi : vm_inv s fl T L → tree_ext new s fl T s' fl' T' → counted fl s L s' L' →
  forked c old new hi L L' → hi ≤ TRAPFRAME → (∀ va, va < TRAPFRAME → L !! (new, va) = None) → ∀ e, others new e s fl T L s' fl' T' L'.
Proof.
  intros Hv [Tf Ts Tn Tm] Hct Fk Hhi Hemp e. pose proof Fk as [Fo Fc Fr]. split.
  - intros k Hk. destruct (T' !! k) as [p|] eqn:E; [destruct (Tn _ _ E) as [?|(_ & ? & _)]; done|]. symmetry. by eapply lookup_weaken_None.
  - intros r' va Hr. destruct (decide (r' = old)) as [->|]; [|by rewrite Fr]. rewrite Fo. apply fmap_is_Some.
  - intros r' va Hr Hva. destruct (decide (r' = old)) as [->|]; [|by apply Fr]. rewrite Fo. destruct (Z.ltb_spec va hi); [lia|]. by destruct (L !! (old, va)).
  - intros r' va Hr. by eapply forked_view.
  - intros q _ [Qok Qnf QnT Qnr Qrc]. pose proof (forked_urefs s fl T L L' c old new hi q Hv Fk Hemp Qnr) as Hu'.
    split; [split; [done|by intros ?%Tf| |done|specialize (Hct q Qok Qnf); lia]|intros x <-; by apply Tm].
    intros k Hk. destruct (Tn _ _ Hk) as [?|(_ & _ & _ & ?)]; [by eapply QnT|done].
Qed.

(** [uvmcopy], from one address space to another one that is still empty. *)
Lemma uvmcopy_others s fl T L old new tf tf' sz : vm_inv s fl T L → old ≠ new → space s fl T L old tf sz → space s fl T L new tf' 0 →
  wp (uvmcopy old new sz) s (λ res s', ∃ fl' T' L', vm_inv s' fl' T' L' ∧ (∀ e, others new e s fl T L s' fl' T' L') ∧
    ((res = 0 ∧ space s' fl' T' L' new tf' sz ∧ (∀ va, view s' L' new va = view s L old va) ∧
        ∀ r va pte, r = old ∨ r = new → va < TRAPFRAME → L' !! (r, va) = Some pte → band pte PTE_W = false) ∨
     (res = -1 ∧ space s' fl' T' L' new tf' 0 ∧ Z.of_nat (length fl) ≤ 2 * (PGROUNDUP sz / 4096)))).
Proof.
  intros Hv Hne Sp [Hroot _ Hc Htr Hfr Htf]. pose proof Sp as [_ Hsz Hu _ _ _]. destruct (PGROUNDUP_le sz Hsz) as (Hr1 & Hr2 & Hr3). destruct va_high as (_ & _ & Hle & _).
  assert (∀ va, va < TRAPFRAME → L !! (new, va) = None) as Hemp.
  { intros va Hva. destruct (L !! (new, va)) eqn:E; [|done]. destruct (Hc va Hva) as [[? _] _]; [by eexists|]. change (PGROUNDUP 0) with 0 in *. lia. }
  eapply wp_mono; [apply (uvmcopy_fork old new sz s fl T L); [done|done|done| | |done]|].
  { intros va Hva Ha. apply Hu; [lia|done]. }
  { intros va Hva. apply Hemp. lia. }
  intros res s' (fl' & T' & L' & hi & Hv' & Hte & Hct & Hres). exists fl', T', L'. split; [done|].
  assert (∀ c e, forked c old new hi L L' → hi ≤ PGROUNDUP sz → others new e s fl T L s' fl' T' L') as Ho by (intros; eapply forked_others; try done; lia).
  assert (∀ c sz', forked c old new hi L L' → hi ≤ PGROUNDUP sz → 0 ≤ sz' ≤ TRAPFRAME →
    (∀ va, va < TRAPFRAME → is_Some (L' !! (new, va)) ↔ 0 ≤ va < PGROUNDUP sz' ∧ va mod 4096 = 0) → space s' fl' T' L' new tf' sz') as Hsp.
  { intros c sz' Fk Hhi Hs' Hd. assert (∀ va, TRAPFRAME ≤ va → L' !! (new, va) = L !! (new, va)) as Hnh.
    { intros va Hva. rewrite (fk_child _ _ _ _ _ _ Fk). destruct (Z.ltb_spec va hi); [lia|]. by rewrite andb_false_r. }
    split; [eapply lookup_weaken, Hte; done|done|done|by rewrite Hnh|by rewrite Hnh|]. destruct (ot_own _ _ _ _ _ _ _ _ _ _ (Ho c 0 Fk Hhi) tf') as [? _]; try done.
    by apply page_ok_ne_0, (ow_ok _ _ _ _ _ Htf). }
  destruct Hres as [(-> & -> & Fk)|(-> & Hhi & Fk & Hlen)]; (split; [intros e; by eapply Ho|]).
  - left. split; [done|]. assert (space s' fl' T' L' new tf' sz) as Sn.
    { apply (Hsp _ sz Fk); [lia|done|]. intros va Hva. rewrite (fk_child _ _ _ _ _ _ Fk). simpl. destruct (Z.ltb_spec va (PGROUNDUP sz)).
      - rewrite fmap_is_Some. by apply Hu.
      - rewrite Hemp by done. split; [by intros []|lia]. }
    split; [done|]. split.
    + intros va. destruct (decide (0 ≤ va < PGROUNDUP sz)) as [Hin|Hout].
      * eapply (forked_child_view s s' fl T); [done|apply Hte|done|done|]. unfold pg. Z.div_mod_to_equations. lia.
      * rewrite (space_view s fl T L old tf sz), (space_view s' fl' T' L' new tf' sz) by (done || lia). done.
    + intros r va pte Hr Hva HL. apply (forked_noW s fl T L L' old new (PGROUNDUP sz) Hv r va); [done|done| |done|done].
      assert (is_Some (L' !! (r, va))) as Hs by by eexists. destruct Hr as [-> | ->].
      * apply (ot_leaf _ _ _ _ _ _ _ _ _ _ (Ho true 0 Fk ltac:(lia)) old va Hne), Hu in Hs; [lia|done].
      * apply (sp_user _ _ _ _ _ _ _ Sn) in Hs; [lia|done].
  - right. split; [done|]. split; [|done]. apply (Hsp _ 0 Fk); [done|by vm_compute|]. intros va Hva. rewrite (fk_child _ _ _ _ _ _ Fk). simpl. by apply Hc.
Qed.

Lemma ref1_low p va pte : va < TRAPFRAME → ref1 p va pte = if decide (p = PTE2PA pte) then 1 else 0.
Proof. intros Hva. unfold ref1. case_decide as E1; case_decide as E2; try done; [by destruct E2, E1|]. destruct E1. by split. Qed.

(** A page that is mapped once. *)
Lemma others_user s fl T L r e m s' : vm_inv s fl T L → m ∉ fl → (∀ k, T !! k ≠ Some m) → freelist s' = freelist s → page_refcnt s' = page_refcnt s →
  (∀ x, pg x ≠ m → mem s' x = mem s x) → (∀ r' va pte, L !! (r', va) = Some pte → va < TRAPFRAME → PTE2PA pte = m → r' = r) → 0 < urefs L m →
  vm_inv s' fl T L ∧ others r e s fl T L s' fl T L.
Proof.
  intros Hv Hnf HnT Hf Hrc Hm Hone Hpos. split.
  - destruct Hv as [Hi Hl]. split; [|by rewrite Hrc]. eapply pt_inv_frame; [done|done|by rewrite Hrc|].
    intros x Hx. apply Hm. intros E. rewrite E in Hx. destruct Hx as [?|[j Hj]]; [done|by eapply HnT].
  - split; [done..| |].
    + intros r' va Hr. unfold view. destruct (L !! (r', pg va)) as [pte|] eqn:E; [|done]. simpl. destruct (band pte PTE_U) eqn:EU; [|done].
      destruct (view_page _ _ _ _ _ _ _ Hv E EU) as (Hpg & _). f_equal. apply Hm. rewrite Hpg. intros Eq. apply Hr. eapply Hone; [done| |done]. by eapply leaf_user.
    + intros q _ [? ? ? Hq ?]. split; [split; try done; by rewrite Hrc|]. intros x Hx. apply Hm. intros E. rewrite E in Hx. subst q. lia.
Qed.

(** The program of the first process: its page holds [src], and then zeros. *)
Lemma uvmfirst_others s fl T L r tf src : vm_inv s fl T L → space s fl T L r tf 0 → (3 < length fl)%nat → Z.of_nat (length src) < PGSIZE →
  wp (uvmfirst r src) s (λ _ s', ∃ fl' T' L', vm_inv s' fl' T' L' ∧ (∀ e, others r e s fl T L s' fl' T' L') ∧ space s' fl' T' L' r tf PGSIZE ∧
    (∀ va, 0 ≤ va < PGSIZE → view s' L' r va = Some (nth (Z.to_nat va) src x00)) ∧ ∃ used, fl = used ++ fl' ∧ (length used ≤ 3)%nat).
Proof.
  intros Hv [S1 S2 S3 S4 S5 S6] Hlen Hsrc. set (perm := Z.lor (Z.lor (Z.lor PTE_W PTE_R) PTE_X) PTE_U). change PGSIZE with 4096 in *. unfold uvmfirst.
  change PGSIZE with 4096. destruct (Z.geb_spec (Z.of_nat (length src)) 4096); [lia|]. destruct fl as [|m fl]; [simpl in Hlen; lia|].
  destruct (zalloc_vm s m fl T L Hv) as (s1 & s2 & Hk & Hms & Hnz & Hv2 & Hom & Hop & Hzero). apply wp_bind. eapply wp_Ok; [exact Hk|]. apply wp_bind. eapply wp_Ok; [exact Hms|].
  assert (L !! (r, 0) = None) as HL0. { destruct (L !! (r, 0)) eqn:E; [|done]. destruct (S3 0) as [[? _] _]; [done|by eexists|]. change (PGROUNDUP 0) with 0 in *. lia. }
  assert (∀ e, others r e s (m :: fl) T L s2 fl T L) as Ho2. { intros e. apply others_take; [done|done|set_solver|]. intros k. by left. }
  destruct (map_owned_page s2 fl T L r 0 m perm) as (res & s3 & fl3 & T3 & new & Hmp & Hg & Hnew & Hres); [done|done|done|by vm_compute|done|by vm_compute|by vm_compute|done|].
  apply wp_bind. eapply wp_Ok; [exact Hmp|]. pose proof (gr_fl _ _ _ _ _ _ _ _ Hg) as Hfl.
  destruct Hres as [[-> Hv3]|(-> & _ & _ & ->)]; [|rewrite app_nil_r in Hfl; subst; simpl in Hlen; lia].
  pose proof (ow_ok _ _ _ _ _ Hom) as Hok. pose proof (page_ok_pa_ok _ Hok) as Hpa. pose proof (page_ok_range _ Hok) as (?&?&?).
  set (L3 := <[(r, 0) := mk_pte m perm]> L) in *. assert (PTE2PA (mk_pte m perm) = m) as HPA by (by apply mk_pte_PA; [|vm_compute]).
  assert (L3 !! (r, 0) = Some (mk_pte m perm)) as HL3 by apply lookup_insert_eq.
  destruct (leaf_used _ _ _ _ _ _ _ Hv3 HL3) as (_ & HnT & _ & Hnf); [done|]. rewrite HPA in HnT, Hnf.
  assert (∀ q, urefs L3 q = urefs L q + if decide (q = m) then 1 else 0) as Hur.
  { intros q. unfold L3. by rewrite urefs_insert, ref1_low, HPA by done. }
  assert (others r m s2 fl T L s3 fl3 T3 L3) as Ho3.
  { eapply others_grow; [done|done| |].
    - intros r' va Hr. unfold L3. by rewrite lookup_insert_ne by congruence.
    - intros q Hq Hoq. rewrite Hur, decide_False by done. rewrite (ow_nref _ _ _ _ _ Hoq). done. }
  set (s4 := set_mem (λ mm, mwrite mm m src) s3). assert (∀ x, pg x ≠ m → mem s4 x = mem s3 x) as Hm4.
  { intros x Hx. apply mwrite_out. intros ?. apply Hx, pg_eq; lia. }
  destruct (others_user s3 fl3 T3 L3 r 0 m s4) as [Hv4 Ho4]; [done..| | |].
  { intros r' va pte HL Hva E. unfold L3 in HL. rewrite lookup_insert in HL. case_decide as E'; [by simplify_eq|]. exfalso.
    pose proof (urefs_pos _ _ _ _ HL Hva). rewrite E, (ow_nref _ _ _ _ _ Hom) in *. lia. }
  { rewrite Hur, decide_True by done. rewrite (ow_nref _ _ _ _ _ Hom). lia. }
  eapply (wp_Ok _ _ _ tt s4); [unfold write_bytes; by rewrite (mapped_page m) by (done || lia)|].
  assert (others r 0 s (m :: fl) T L s4 fl3 T3 L3) as Ho.
  { eapply others_trans; [|exact Ho4]. eapply (others_drop _ m); [apply Ho2|exact Ho3|]. right. by left. }
  exists fl3, T3, L3. split; [done|]. split; [intros e; by apply others_0|]. destruct va_high as (_ & _ & Hle & _). split_and!.
  - split; [eapply lookup_weaken, Hg; done|by vm_compute| | | |].
    + intros va Hva. unfold L3. rewrite lookup_insert. change (PGROUNDUP 4096) with 4096. case_decide as E; [simplify_eq; split; [intros _; by split|intros _; by eexists]|].
      rewrite S3 by done. change (PGROUNDUP 0) with 0. split; [lia|]. intros [Hr Ha]. destruct E. f_equal. Z.div_mod_to_equations. lia.
    + unfold L3. by rewrite lookup_insert_ne by (intros [= E]).
    + unfold L3. by rewrite lookup_insert_ne by (intros [= E]).
    + apply (ot_own _ _ _ _ _ _ _ _ _ _ Ho); [|done]. by apply page_ok_ne_0, (ow_ok _ _ _ _ _ S6).
  - intros va Hva. unfold view. rewrite (pg_eq 0 va) by (done || lia). rewrite HL3. cbn [mbind option_bind].
    rewrite mk_pte_band by (done || (by vm_compute)). change (band perm PTE_U || band PTE_V PTE_U) with true. cbv iota. f_equal.
    rewrite HPA, Z.mod_small by lia. unfold s4. cbn [mem set_mem]. destruct (decide (va < Z.of_nat (length src))) as [Hlt|Hge].
    + rewrite (mwrite_in _ _ _ _ x00) by lia. f_equal. lia.
    + rewrite mwrite_out, nth_overflow by lia. rewrite (gr_mem _ _ _ _ _ _ _ _ Hg); [apply Hzero, pg_eq; lia| |].
      * rewrite (pg_eq m) by lia. intros Hin. apply (ow_nfree _ _ _ _ _ Hom). rewrite Hfl. apply elem_of_app. by left.
      * rewrite (pg_eq m) by lia. apply (ow_ntable _ _ _ _ _ Hom).
  - exists (m :: new). rewrite Hfl. split; [done|]. simpl. lia.
Qed.
End space.
