(* ===== verification/ProcMem.v ===== *)
(** * The process table and memory

    Every process has an address space of its own, which maps its memory, the
    trampoline and its trap frame, and nothing else has page tables ([pm_inv]).
    [allocproc] and [freeproc] of [kernel/proc.c], with their failures, keep it
    so. *)

From S2P Require Import Prelude Riscv Mem CString Kalloc Vm VmTree VmOps VmFree Cow KvmSpec Spinlock Proc ProcSpec ProcTable Run Space.

Section pm.
Context `{KernelImage}.

(** ** The invariant *)

Record pm_inv (l : list proc) (s : kst) (fl : list Z) (T : tables) (L : leaves) : Prop := {
  pm_vm : vm_inv s fl T L;
  pm_space i p : l !! i = Some p → pagetable p ≠ 0 → space s fl T L (pagetable p) (trapframe p) (sz p);
  pm_none i p : l !! i = Some p → pagetable p = 0 → state p = UNUSED ∧ trapframe p = 0;
  pm_apart i j p q : l !! i = Some p → l !! j = Some q → i ≠ j → pagetable p ≠ 0 → pagetable p ≠ pagetable q ∧ trapframe p ≠ trapframe q;
  pm_only r path t : T !! (r, path) = Some t → ∃ i p, l !! i = Some p ∧ pagetable p = r;
}.

Lemma space_others s fl T L s' fl' T' L' r e r0 tf sz : space s fl T L r tf sz → others r0 e s fl T L s' fl' T' L' → r ≠ r0 → tf ≠ e →
  space s' fl' T' L' r tf sz.
Proof.
  intros [S1 S2 S3 S4 S5 S6] [O1 O2 O3 O4 O5] Hr He. destruct va_high as (_ & _ & Hle & _). split; [by rewrite O1|done| |by rewrite O3|by rewrite O3|by apply O5].
  intros va Hva. rewrite O2 by done. by apply S3.
Qed.

(** A write to a page in use outside of the address spaces. *)
Lemma others_write s fl T L s' p : vm_inv s fl T L → owned s fl T L p → freelist s' = freelist s → page_refcnt s' = page_refcnt s →
  (∀ x, pg x ≠ p → mem s' x = mem s x) → vm_inv s' fl T L ∧ owned s' fl T L p ∧ ∀ r, others r p s fl T L s' fl T L.
Proof.
  intros Hv Ho Hf Hrc Hm. destruct (vm_frame_page s s' fl T L p Hv Ho Hf Hrc Hm) as [Hv' Ho']. split_and!; [done..|]. intros r. split; [done..| |].
  - intros r' va _. destruct (vm_frame_aside s s' fl T L p) as [_ Hview]; [done|by destruct Ho|done..|]. apply Hview.
  - intros q Hq [? ? ? ? ?]. split; [split; try done; by rewrite Hrc|]. intros x <-. by apply Hm.
Qed.

Lemma root_ne_0 s fl T L r path t : vm_inv s fl T L → T !! (r, path) = Some t → r ≠ 0.
Proof. intros Hv E. pose proof (pi_rep _ _ _ _ (vi_pt _ _ _ _ Hv)) as Hr. eapply page_ok_ne_0, pr_ok; [done|]. by eapply pr_root. Qed.
Lemma space_ne_0 s fl T L r tf sz : vm_inv s fl T L → space s fl T L r tf sz → r ≠ 0 ∧ tf ≠ 0.
Proof. intros Hv Sp. split; [eapply root_ne_0; [done|apply Sp]|]. by apply page_ok_ne_0, (ow_ok _ _ _ _ _ (sp_tf _ _ _ _ _ _ _ Sp)). Qed.

(** A change of slot [i] and of its address space, rooted at [r]. *)
Lemma pm_change l i p p' r e s fl T L s' fl' T' L' : pm_inv l s fl T L → l !! i = Some p → vm_inv s' fl' T' L' → others r e s fl T L s' fl' T' L' →
  pagetable p = 0 ∨ pagetable p = r → (∀ j q, j ≠ i → l !! j = Some q → pagetable q ≠ 0 → pagetable q ≠ r ∧ trapframe q ≠ e) →
  (pagetable p' = 0 ∧ state p' = UNUSED ∧ trapframe p' = 0 ∧ ∀ path, T' !! (r, path) = None) ∨
  (pagetable p' = r ∧ space s' fl' T' L' r (trapframe p') (sz p') ∧ ∀ j q, j ≠ i → l !! j = Some q → pagetable q ≠ 0 → trapframe q ≠ trapframe p') →
  pm_inv (<[i := p']> l) s' fl' T' L'.
Proof.
  intros [Pv Ps Pn Pa Po] Hp Hv' Ho Hr Hoth Hp'. assert (i < length l)%nat as Hi by by eapply lookup_lt_Some.
  assert (∀ j q, <[i := p']> l !! j = Some q → (j = i ∧ q = p') ∨ (j ≠ i ∧ l !! j = Some q)) as Hcase.
  { intros j q. destruct (decide (j = i)) as [->|]; [rewrite list_lookup_insert_eq by done; intros [= <-]; by left|]. rewrite list_lookup_insert_ne by done. by right. }
  assert (∀ j q, j ≠ i → l !! j = Some q → pagetable q ≠ 0 → pagetable p' ≠ 0 → pagetable q ≠ pagetable p' ∧ trapframe q ≠ trapframe p') as Hap.
  { intros j q Hj Hq Hz Hz'. destruct Hp' as [[? _]|(-> & _ & Ht)]; [done|]. split; [by apply (Hoth j)|by apply (Ht j)]. }
  split; [done|..].
  - intros j q [[-> ->]|[Hj Hq]]%Hcase Hz; [destruct Hp' as [[? _]|(-> & Sp & _)]; done|]. destruct (Hoth j q Hj Hq Hz) as [H1 H2]. eapply space_others; [by eapply Ps|done..].
  - intros j q [[-> ->]|[Hj Hq]]%Hcase Hz; [|by eapply Pn]. destruct Hp' as [(_ & ? & ? & _)|(E & Sp & _)]; [done|].
    destruct (space_ne_0 _ _ _ _ _ _ _ Hv' Sp). congruence.
  - intros j k q q' [[-> ->]|[Hj Hq]]%Hcase [[-> ->]|[Hk Hq']]%Hcase Hjk Hz; [done| | |by eapply Pa].
    + destruct (decide (pagetable q' = 0)) as [E|Hz']; [|destruct (Hap k q' Hk Hq' Hz' Hz); split; congruence].
      destruct (Pn k q' Hq' E) as [_ ->]. rewrite E. split; [done|]. destruct Hp' as [[? _]|(E' & Sp & _)]; [done|]. by destruct (space_ne_0 _ _ _ _ _ _ _ Hv' Sp).
    + destruct (decide (pagetable p' = 0)) as [E|Hz']; [|by apply (Hap j)]. rewrite E. split; [done|].
      destruct Hp' as [(_ & _ & -> & _)|(E' & Sp & _)]; [by destruct (space_ne_0 _ _ _ _ _ _ _ Pv (Ps j q Hq Hz))|by destruct (space_ne_0 _ _ _ _ _ _ _ Hv' Sp); congruence].
  - intros r' path t HT. destruct (decide (r' = r)) as [->|Hne].
    + destruct Hp' as [(_ & _ & _ & Hno)|(E & _)]; [by rewrite Hno in HT|]. exists i, p'. split; [by apply list_lookup_insert_eq|done].
    + pose proof HT as HT0. rewrite (ot_tree _ _ _ _ _ _ _ _ _ _ Ho) in HT0 by done. destruct (Po _ _ _ HT0) as (j & q & Hq & E). exists j, q. split; [|done].
      rewrite list_lookup_insert_ne; [done|]. intros <-. rewrite Hp in Hq. injection Hq as <-. pose proof (root_ne_0 _ _ _ _ _ _ _ Pv HT0). destruct Hr; congruence.
Qed.

Lemma fresh_root l s fl T L r j q : pm_inv l s fl T L → (∀ k, T !! k ≠ Some r) → l !! j = Some q → pagetable q ≠ 0 → pagetable q ≠ r ∧ trapframe q ≠ 0.
Proof.
  intros Hpm HnT Hq Hz. pose proof (pm_space _ _ _ _ _ Hpm j q Hq Hz) as Sq. split; [|by destruct (space_ne_0 _ _ _ _ _ _ _ (pm_vm _ _ _ _ _ Hpm) Sq)].
  intros E. apply (HnT (r, [])). rewrite <- E. apply Sq.
Qed.

(** Nothing changed but memory outside of the address spaces. *)
Lemma pm_same l s fl T L s' fl' e : pm_inv l s fl T L → vm_inv s' fl' T L → (∀ r, others r e s fl T L s' fl' T L) → (∀ i p, l !! i = Some p → trapframe p ≠ e ∨ pagetable p = 0) →
  pm_inv l s' fl' T L.
Proof.
  intros [Pv Ps Pn Pa Po] Hv' Ho He. split; [done| |done|done|done]. intros i p Hp Hz. destruct (He i p Hp) as [He'|]; [|done].
  eapply (space_others _ _ _ _ _ _ _ _ _ e 0); [by eapply Ps|done| |done]. done.
Qed.

(** ** Trap frames *)

(** The [i]th word of a trap frame. *)
Definition tf_word (K : kst) (tf i : Z) : Z := load64 (mem K) (tf + 8 * i).
Definition tf_words : Z := sizeof_trapframe / 8.

Lemma tf_word_same K K' tf i : page_ok tf → (∀ x, pg x = tf → mem K' x = mem K x) → 0 ≤ i < tf_words → tf_word K' tf i = tf_word K tf i.
Proof.
  intros Hp Hm Hi. change tf_words with 36 in Hi. unfold tf_word. apply load64_ext. intros x Hx. apply Hm, pg_eq; [apply Hp|lia].
Qed.

Lemma frame_store K fl T L tf i v : vm_inv K fl T L → owned K fl T L tf → 0 ≤ i < tf_words → 0 ≤ v < 2 ^ 64 →
  ∃ K', st (tf + 8 * i) v K = Ok tt K' ∧ vm_inv K' fl T L ∧ owned K' fl T L tf ∧ (∀ r, others r tf K fl T L K' fl T L) ∧
    ∀ j, 0 ≤ j < tf_words → tf_word K' tf j = if j =? i then v else tf_word K tf j.
Proof.
  intros Hv Ho Hi Hr. change tf_words with 36 in *. pose proof (ow_ok _ _ _ _ _ Ho) as Hp. pose proof (page_ok_range _ Hp) as (?&?&?).
  set (K' := set_mem (λ m, store64 m (tf + 8 * i) v) K). exists K'. assert (∀ x, pg x ≠ tf → mem K' x = mem K x) as Hm.
  { intros x Hx. apply store64_out. intros ?. apply Hx, pg_eq; lia. }
  destruct (others_write K fl T L K' tf Hv Ho eq_refl eq_refl Hm) as (Hv' & Ho' & Hoth). split; [apply st_slot; [done|lia]|]. split_and!; [done..|].
  intros j Hj. unfold tf_word. simpl. destruct (Z.eqb_spec j i) as [->|]; [by apply load64_store64_eq|]. apply load64_store64_ne. lia.
Qed.
End pm.

(** ** [allocproc] and [freeproc] *)

Section alloc.
Context {F : Type} `{!FileSys F} `{!KernelImage} `{!KernelText} {G : Type} (g : F → G).
Implicit Types s : pst F.

(** Memory, and some part of the file layer. *)
Definition kfiles s : kst * G := (kern s, g (files s)).
#[local] Instance kfiles_store : Store kfiles.
Proof. by split. Qed.
Local Abbreviation run := (run kfiles).

Lemma run_kern {A B} k K t (c : M kst A) P (f : A → M (pst F) B) Q R :
  wp c K P → (∀ a K', P a K' → run k (K', t) (f a) Q R) → run k (K, t) (vm c ≫= f) Q R.
Proof.
  intros Hc Hf b s Hs [= HK Ht]. apply wp_elim in Hc as (a & K' & E & HP). unfold vm, lift, zoom, mbind, M_bind. rewrite HK, E.
  apply (Hf a K' HP b); [done|]. unfold kfiles. simpl. by rewrite Ht.
Qed.
Lemma run_kern_Ok {A B} k K K' t (c : M kst A) a (f : A → M (pst F) B) Q R :
  c K = Ok a K' → run k (K', t) (f a) Q R → run k (K, t) (vm c ≫= f) Q R.
Proof. intros E Hf. eapply (run_kern _ _ _ _ (λ a' K1, a' = a ∧ K1 = K')); [unfold wp; by rewrite E|]. by intros _ _ [-> ->]. Qed.
Lemma run_upd {B} d h l n ip V i f (c : unit → M (pst F) B) Q R :
  run (Cfg d h (alter f i l) n ip) V (c tt) Q R → run (Cfg d h l n ip) V (upd_proc i f ≫= c) Q R.
Proof. intros Hc. eapply run_tr; [apply upd_tr|apply store_same_upd|]. by intros [] k ->. Qed.
Lemma run_acquire {B} d h l n ip V lk (c : unit → M (pst F) B) Q R : lk ∉ h →
  run (Cfg (S d) (lk :: h) l n ip) V (c tt) Q R → run (Cfg d h l n ip) V (acquire lk ≫= c) Q R.
Proof. intros Hl Hc. eapply run_tr; [by apply acquire_tr|apply store_same_acquire|]. by intros [] k ->. Qed.
Lemma run_release {B} d h l n ip V lk (c : unit → M (pst F) B) Q R : lk ∉ h →
  run (Cfg d h l n ip) V (c tt) Q R → run (Cfg (S d) (lk :: h) l n ip) V (release lk ≫= c) Q R.
Proof. intros Hl Hc. eapply run_tr; [by apply release_tr|apply store_same_release|]. by intros [] k ->. Qed.

Lemma run_last {A} k V (c : M (pst F) A) Q R : run k V (c ≫= mret) Q R → run k V c Q R.
Proof. intros Hc b s Hs HV. specialize (Hc b s Hs HV). by rewrite bind_mret_r in Hc. Qed.

(** What [freeproc] finds in a slot: no memory, just a trap frame, or an
    address space. *)
Definition has (K : kst) (fl : list Z) (T : tables) (L : leaves) (p : proc) : Prop :=
  (trapframe p = 0 ∨ owned K fl T L (trapframe p)) ∧ (pagetable p = 0 ∨ space K fl T L (pagetable p) (trapframe p) (sz p)).

Lemma no_root_0 K fl T L : vm_inv K fl T L → ∀ path, T !! (0, path) = None.
Proof. intros Hv path. destruct (T !! (0, path)) eqn:E; [|done]. by destruct (root_ne_0 _ _ _ _ _ _ _ Hv E). Qed.

Lemma others_all e K fl T L K' fl' : vm_inv K fl T L → others 0 e K fl T L K' fl' T L → ∀ r, others r e K fl T L K' fl' T L.
Proof.
  intros Hv [O1 O2 O3 O4 O5] r. split; [done..| |done]. intros r' va _. destruct (decide (r' = 0)) as [->|]; [|by apply O4].
  unfold view. destruct (L !! (0, pg va)) as [pte|] eqn:E; [|done]. exfalso.
  destruct (pr_dom _ _ _ (pi_rep _ _ _ _ (vi_pt _ _ _ _ Hv)) _ _ _ E) as (_ & [? E'] & _). by rewrite (no_root_0 _ _ _ _ Hv) in E'.
Qed.

Lemma freeproc_run {B} d h l n ip i p K t fl T L (f : unit → M (pst F) B) Q R :
  l !! i = Some p → vm_inv K fl T L → has K fl T L p →
  (∀ K' fl' T' L', vm_inv K' fl' T' L' → others (pagetable p) (trapframe p) K fl T L K' fl' T' L' → (∀ path, T' !! (pagetable p, path) = None) →
     (pagetable p = 0 → T' = T ∧ L' = L) → run (Cfg d h (alter freed i l) n ip) (K', t) (f tt) Q R) →
  run (Cfg d h l n ip) (K, t) (freeproc i ≫= f) Q R.
Proof.
  intros Hp Hv [Htf Hpt] Hf. pose (P := λ k (V : kst * G), ∃ K' fl' T' L', k = Cfg d h (alter freed i l) n ip ∧ V = (K', t) ∧ vm_inv K' fl' T' L' ∧
    others (pagetable p) (trapframe p) K fl T L K' fl' T' L' ∧ (∀ path, T' !! (pagetable p, path) = None) ∧ (pagetable p = 0 → T' = T ∧ L' = L)).
  apply (run_bind _ _ _ _ (λ _, P)); [|intros [] k V (K' & fl' & T' & L' & -> & -> & ? & ? & ? & ?); by eapply Hf].
  unfold freeproc. apply (run_get_proc (get := kfiles) _ _ _ _ _ _ _ p); [done|].
  apply (run_bind _ _ _ _ (λ _ k V, k = Cfg d h l n ip ∧ ∃ K1 fl1, V = (K1, t) ∧ vm_inv K1 fl1 T L ∧ others (pagetable p) (trapframe p) K fl T L K1 fl1 T L)).
  { destruct (Z.eqb_spec (trapframe p) 0) as [E|Hz]; [apply run_ret; split; [done|]; exists K, fl; split_and!; [done..|apply others_refl]|].
    destruct Htf as [|Ho]; [done|]. destruct (kfree_owned _ _ _ _ _ Hv Ho) as (K1 & Hk & Hv1 & Ho1).
    apply run_last. eapply run_kern_Ok; [exact Hk|]. apply run_ret. split; [done|].
    exists K1, (trapframe p :: fl). split; [done|]. split; [done|]. by apply others_give. }
  intros [] k V (-> & K1 & fl1 & -> & Hv1 & Ho1). apply run_upd.
  apply (run_bind _ _ _ _ (λ _ k V, k = Cfg d h (alter (set_trapframe 0) i l) n ip ∧ ∃ K' fl' T' L', V = (K', t) ∧ vm_inv K' fl' T' L' ∧
    others (pagetable p) (trapframe p) K fl T L K' fl' T' L' ∧ (∀ path, T' !! (pagetable p, path) = None) ∧ (pagetable p = 0 → T' = T ∧ L' = L))).
  { destruct (Z.eqb_spec (pagetable p) 0) as [E|Hz].
    { apply run_ret. split; [done|]. exists K1, fl1, T, L. split_and!; [done..| |done]. rewrite E. by eapply no_root_0. }
    destruct Hpt as [|[S1 S2 S3 S4 S5 S6]]; [done|]. apply run_last.
    eapply run_kern; [apply (proc_freepagetable_wp K1 fl1 T L _ (trapframe p)); [done..|apply (ow_ok _ _ _ _ _ S6)]|].
    intros [] K' (fl' & T' & L' & Hv' & HT' & _ & _ & _ & Ho'). apply run_ret. split; [done|]. exists K', fl', T', L'. split_and!; [done|done| |done|done].
    eapply others_trans; [exact Ho1|apply Ho']. }
  intros [] k V (-> & K' & fl' & T' & L' & -> & Hv' & Ho' & HT' & Hn). apply run_last, run_upd, run_ret. exists K', fl', T', L'. rewrite alter_alter. by split_and!.
Qed.

Lemma alter_at (f : proc → proc) (i : nat) (l : list proc) p : l !! i = Some p → alter f i l = <[i := f p]> l.
Proof.
  intros Hp. apply list_eq. intros j. destruct (decide (i = j)) as [<-|]; [|by rewrite list_lookup_alter_ne, list_lookup_insert_ne].
  by rewrite list_lookup_alter_eq, list_lookup_insert_eq, Hp by by eapply lookup_lt_Some.
Qed.

(** The slot [p], taken for a new process with pid [n]. *)
Definition born (p : proc) (n r tf : Z) : proc :=
  let p := set_pagetable r (set_trapframe tf (set_state USED (set_pid n p))) in set_context (mk_context forkret_addr (kstack p + PGSIZE)) p.

(** What [allocproc] ends with: slot [i] taken, with an address space that is
    empty; or for lack of memory the slot is free again. *)
Definition allocated (d : nat) (h : list lockid) (l : list proc) (n : Z) (ip : option nat) (K : kst) (t : G) (fl : list Z) (T : tables) (L : leaves)
    (i : nat) (p : proc) (o : option nat) (k : cfg) (V : kst * G) : Prop := ∃ K' fl' T' L', V = (K', t) ∧
  match o with
  | Some j => j = i ∧ ∃ r tf, k = Cfg (S d) (LProc i :: h) (<[i := born p n r tf]> l) (n + 1) ip ∧
      pm_inv (<[i := born p n r tf]> l) K' fl' T' L' ∧ others r 0 K fl T L K' fl' T' L' ∧ (∀ k, T !! k ≠ Some r) ∧ tf ∈ fl ∧ ∃ used, fl = used ++ fl' ∧ (length used ≤ 6)%nat
  | None => ∃ q, k = Cfg d h (<[i := q]> l) (n + 1) ip ∧ state q = UNUSED ∧ ofile q = ofile p ∧
      T' = T ∧ L' = L ∧ pm_inv (<[i := q]> l) K' fl' T L ∧ (∀ r, others r 0 K fl T L K' fl' T L) ∧ (length fl ≤ 6)%nat
  end.

Lemma store_same_allocpid : store_same kfiles allocpid.
Proof using Type.
  unfold allocpid. apply store_same_bind; [apply store_same_acquire|]. intros _. do 2 (apply store_same_bind; [done|intros ?]).
  apply store_same_bind; [apply store_same_release|]. by intros _.
Qed.

(** Giving up: [freeproc] of the slot, taken so far as [q] says. *)
Lemma alloc_fail d h l n ip i p q K t K1 fl fl1 T L : none_held h → l !! i = Some p → pm_inv l K fl T L → pagetable p = 0 → ofile q = ofile p →
  vm_inv K1 fl1 T L → (∀ r, others r 0 K fl T L K1 fl1 T L) → (trapframe q = 0 ∨ owned K1 fl1 T L (trapframe q) ∧ trapframe q ∈ fl) → pagetable q = 0 → (length fl ≤ 6)%nat →
  run (Cfg (S d) (LProc i :: h) (<[i := q]> l) (n + 1) ip) (K1, t) (freeproc i;; release (LProc i);; mret None) (allocated d h l n ip K t fl T L i p) (λ _ _ _, False).
Proof using Type.
  intros (Hh & _) Hp Hpm Hpt Hfi Hv1 Ho1 Htf Hq Hlen. assert (i < length l)%nat as Hi by by eapply lookup_lt_Some.
  eapply (freeproc_run _ _ _ _ _ _ q _ _ fl1 T L); [by apply list_lookup_insert_eq|done|split; [naive_solver|by left]|].
  intros K' fl' T' L' Hv' Ho' _ Hsame. destruct (Hsame Hq) as [-> ->]. apply run_release; [apply Hh|]. apply run_ret. exists K', fl', T, L. split; [done|].
  assert (∀ r, others r 0 K fl T L K' fl' T L) as Ho.
  { intros r. rewrite Hq in Ho'. eapply others_drop; [apply Ho1|by apply (others_all _ _ _ _ _ _ _ Hv1 Ho' r)|]. naive_solver. }
  exists (freed q). rewrite (alter_at _ _ _ q) by by apply list_lookup_insert_eq. rewrite list_insert_insert_eq. split_and!; [done..| | |done].
  - eapply (pm_change _ _ p _ 0 0 K fl T L); [done|done|done|apply Ho|by left| |].
    + intros j x Hj Hx Hz. split; [done|]. by destruct (space_ne_0 _ _ _ _ _ _ _ (pm_vm _ _ _ _ _ Hpm) (pm_space _ _ _ _ _ Hpm j x Hx Hz)).
    + left. split_and!; [done..|]. by eapply no_root_0.
  - exact Ho.
Qed.

Lemma allocproc_found_run d h l n ip i p K t fl T L : none_held h → l !! i = Some p → state p = UNUSED → pagetable p = 0 → sz p = 0 → pm_inv l K fl T L → 0 < n < 2 ^ 31 - 1 →
  run (Cfg (S d) (LProc i :: h) l n ip) (K, t) (allocproc_found i) (allocated d h l n ip K t fl T L i p) (λ _ _ _, False).
Proof using Type.
  intros Hh Hp Hs Hpt Hsz Hpm Hn. pose proof Hh as (_ & _ & Hpid & _). pose proof (pm_vm _ _ _ _ _ Hpm) as Hv. assert (i < length l)%nat as Hi by by eapply lookup_lt_Some.
  unfold allocproc_found. eapply run_tr; [apply allocpid_tr; [|done]; set_solver|apply store_same_allocpid|]. intros v k [-> ->]. do 2 apply run_upd.
  rewrite alter_alter, (alter_at _ _ _ p) by done. destruct fl as [|tf fl1].
  { destruct (kalloc_none K T L Hv) as (K1 & Hk & Hv1 & Ho1). eapply run_kern_Ok; [exact Hk|]. apply run_upd. rewrite (alter_at _ _ _ _) by by apply list_lookup_insert_eq.
    rewrite list_insert_insert_eq. change (0 =? 0) with true. cbv iota. apply (alloc_fail _ _ _ _ _ _ p _ _ _ _ [] []); [done..|intros r; apply Ho1|by left|done|simpl; lia]. }
  destruct (kalloc_vm _ _ _ _ _ Hv) as (K1 & Hk & Hv1 & Htf & Hop). assert (∀ r e, others r e K (tf :: fl1) T L K1 fl1 T L) as Ho1.
  { intros r e. apply others_take; [done|done|set_solver|]. intros k. by left. }
  assert (tf ≠ 0) as Hnz by by apply page_ok_ne_0, (ow_ok _ _ _ _ _ Htf).
  eapply run_kern_Ok; [exact Hk|]. apply run_upd. rewrite (alter_at _ _ _ _) by by apply list_lookup_insert_eq. rewrite list_insert_insert_eq, (proj2 (Z.eqb_neq tf 0)) by done.
  eapply run_kern; [by apply (proc_pagetable_wp K1 fl1 T L tf)|]. intros r K2 (fl2 & T2 & L2 & Hv2 & Hres). apply run_upd.
  rewrite (alter_at _ _ _ _) by by apply list_lookup_insert_eq. rewrite list_insert_insert_eq. destruct Hres as [(-> & -> & -> & Ho2 & Hlen)|(Hrz & HnT & Ho2 & Sp & used & Hfl & Hlen)].
  { change (0 =? 0) with true. cbv iota. apply (alloc_fail _ _ _ _ _ _ p _ _ _ _ (tf :: fl1) fl2); [done..| | |done|simpl; lia].
    - intros r. eapply others_trans; [apply Ho1|apply Ho2].
    - right. split; [|by left]. by apply (ot_own _ _ _ _ _ _ _ _ _ _ (Ho2 0 0)). }
  rewrite (proj2 (Z.eqb_neq r 0)) by done. apply run_upd. rewrite (alter_at _ _ _ _) by by apply list_lookup_insert_eq. rewrite list_insert_insert_eq. apply run_ret.
  assert (others r 0 K (tf :: fl1) T L K2 fl2 T2 L2) as Ho by (eapply others_trans; [apply Ho1|apply Ho2]).
  exists K2, fl2, T2, L2. split; [done|]. split; [done|]. exists r, tf. split_and!; [done| |done|done|by left|].
  - eapply (pm_change _ _ p _ r 0 K (tf :: fl1) T L); [done|done|done|exact Ho|by left| |].
    + intros j x Hj Hx Hz. by eapply fresh_root.
    + right. split; [done|]. split; [simpl; by rewrite Hsz|]. intros j x Hj Hx Hz E. simpl in E.
      destruct (sp_tf _ _ _ _ _ _ _ (pm_space _ _ _ _ _ Hpm j x Hx Hz)) as [_ Hnf _ _ _]. apply Hnf. rewrite E. by left.
  - exists (tf :: used). rewrite Hfl. split; [done|]. simpl. lia.
Qed.

(** The whole of [allocproc]: the table may also be full. *)
Lemma allocproc_run d h l n ip K t fl T L : none_held h → length l = Z.to_nat NPROC → pm_inv l K fl T L → (∀ i p, l !! i = Some p → state p = UNUSED → pagetable p = 0 ∧ sz p = 0) →
  0 < n < 2 ^ 31 - 1 →
  run (Cfg d h l n ip) (K, t) allocproc (λ o k V, (o = None ∧ k = Cfg d h l n ip ∧ V = (K, t) ∧ ∀ i p, l !! i = Some p → state p ≠ UNUSED) ∨
    ∃ i p, l !! i = Some p ∧ state p = UNUSED ∧ (∀ j q, (j < i)%nat → l !! j = Some q → state q ≠ UNUSED) ∧ allocated d h l n ip K t fl T L i p o k V) (λ _ _ _, False).
Proof using Type.
  intros Hh Hlen Hpm Hun Hn. pose proof Hh as (Hlp & _). match goal with |- Run.run _ _ _ _ ?P _ => set (Post := P) end.
  enough (∀ m i, (i + m = length l)%nat → (∀ j q, (j < i)%nat → l !! j = Some q → state q ≠ UNUSED) → run (Cfg d h l n ip) (K, t) (allocproc_loop m i) Post (λ _ _ _, False)) as Hw
    by (apply Hw; [lia|]; intros j q ?; lia).
  induction m as [|m IH]; intros i Hi Hbefore; cbn [allocproc_loop].
  { apply run_ret. left. split_and!; try done. intros j q Hj. apply (Hbefore j); [|done]. apply lookup_lt_Some in Hj. lia. }
  destruct (lookup_lt_is_Some_2 l i) as [p Hp]; [lia|]. apply run_acquire; [apply Hlp|]. apply (run_get_proc (get := kfiles) _ _ _ _ _ _ _ p); [done|].
  case_decide as Hs.
  - destruct (Hun i p Hp Hs). eapply run_mono; [by apply (allocproc_found_run d h l n ip i p K t fl T L)| |done]. intros o k V Ha. right. by exists i, p.
  - apply run_release; [apply Hlp|]. apply IH; [lia|]. intros j q Hj Hq. destruct (decide (j = i)) as [->|]; [by simplify_eq|]. apply (Hbefore j); [lia|done].
Qed.
End alloc.

(** Updates of one slot. *)
Ltac slot := apply run_upd; rewrite (alter_at _ _ _ _) by (by apply list_lookup_insert_eq); rewrite list_insert_insert_eq.
