(* ===== verification/Syscall.v ===== *)
(** * System calls, [kernel/syscall.c] and [kernel/sysproc.c]

    Fetching arguments from the trap frame and from user memory, the dispatch
    table, and the process-related calls.  The calls of [kernel/sysfile.c] are
    an argument of the table here and are defined in [Sysfile].  What the
    kernel prints is not part of the state. *)

From S2P Require Import Prelude Riscv Mem CString Kalloc Vm Spinlock Proc.

(** The supervisor registers a trap uses; the SIE bit of [sstatus] is in
    [mycpu]. *)
Record csrs := mk_csrs {
  sstatus : Z;
  scause : Z;
  sepc : Z;
  stval : Z;
  stvec : Z;
  satp : Z;
  tp : Z;
  sip : Z;
}.

(** The kernel as a trap handler sees it: processes and memory, the clock, the
    registers of the CPU. *)
Record tst (F : Type) := mk_tst {
  pstate : pst F;
  ticks : Z;
  csr : csrs;
}.
Arguments mk_tst {F}.
Arguments pstate {F}.
Arguments ticks {F}.
Arguments csr {F}.

(** [&ticks] as a channel, and [tickslock]. *)
Definition chan_ticks : Z := 1000.
Definition tickslock : lockid := LOther 1.

(** System call numbers, [kernel/syscall.h]. *)
Definition SYS_fork : Z := 1.
Definition SYS_exit : Z := 2.
Definition SYS_wait : Z := 3.
Definition SYS_pipe : Z := 4.
Definition SYS_read : Z := 5.
Definition SYS_kill : Z := 6.
Definition SYS_exec : Z := 7.
Definition SYS_fstat : Z := 8.
Definition SYS_chdir : Z := 9.
Definition SYS_dup : Z := 10.
Definition SYS_getpid : Z := 11.
Definition SYS_sbrk : Z := 12.
Definition SYS_sleep : Z := 13.
Definition SYS_uptime : Z := 14.
Definition SYS_open : Z := 15.
Definition SYS_write : Z := 16.
Definition SYS_mknod : Z := 17.
Definition SYS_unlink : Z := 18.
Definition SYS_link : Z := 19.
Definition SYS_mkdir : Z := 20.
Definition SYS_close : Z := 21.

Section syscall.
Context {F : Type} `{!FileSys F} `{!KernelImage} `{!KernelText}.
Implicit Types s : tst F.

Definition set_pstate (p : pst F) s := mk_tst p (ticks s) (csr s).
Definition set_ticks (n : Z) s := mk_tst (pstate s) n (csr s).
Definition set_csr (c : csrs) s := mk_tst (pstate s) (ticks s) c.

(** Running process code, and memory code, as part of a trap. *)
Definition pcode {A} (c : M (pst F) A) : M (tst F) A := zoom pstate set_pstate c.
Definition kcode {A} (c : M kst A) : M (tst F) A := pcode (vm c).

(** ** Arguments *)

(** The word fetched, on success. *)
Definition fetchaddr (cur : nat) (addr : Z) : M (tst F) (Z * Z) :=
  p ← pcode (get_proc cur);
  if (addr >=? sz p) || (u64 (addr + 8) >? sz p) then mret (-1, 0)
  else
    '(r, bs) ← kcode (copyin (pagetable p) addr 8);
    if negb (r =? 0) then mret (-1, 0) else mret (0, le_decode bs).

(** The length and what [buf] holds. *)
Definition fetchstr (cur : nat) (addr max : Z) : M (tst F) (Z * list byte) :=
  p ← pcode (get_proc cur);
  '(r, buf) ← kcode (copyinstr (pagetable p) addr max);
  if r <? 0 then mret (-1, buf)
  else match strlen (S (length buf)) (ptr buf) with
       | Some n => mret (Z.of_nat n, buf)
       | None => no_fuel
       end.

Definition argraw (cur : nat) (n : Z) : M (tst F) Z :=
  p ← pcode (get_proc cur);
  if (0 <=? n) && (n <=? 5) then kcode (ld (trapframe p + tf_a0 + 8 * n))
  else panic "argraw".

Definition argint (cur : nat) (n : Z) : M (tst F) Z := v ← argraw cur n; mret (i32 v).
Definition argaddr (cur : nat) (n : Z) : M (tst F) Z := argraw cur n.
Definition argstr (cur : nat) (n max : Z) : M (tst F) (Z * list byte) :=
  addr ← argaddr cur n; fetchstr cur addr max.

(** ** sysproc.c *)

Definition sys_exit (cur : nat) : M (tst F) Z :=
  n ← argint cur 0; pcode (exit cur n);; mret 0.
Definition sys_getpid (cur : nat) : M (tst F) Z := p ← pcode (get_proc cur); mret (pid p).
Definition sys_fork (cur : nat) : M (tst F) Z := pcode (fork cur).
Definition sys_wait (cur : nat) : M (tst F) Z := a ← argaddr cur 0; pcode (wait cur a).
Definition sys_sbrk (cur : nat) : M (tst F) Z :=
  n ← argint cur 0;
  p ← pcode (get_proc cur);
  let addr := sz p in
  r ← pcode (growproc cur n);
  if r <? 0 then mret (-1) else mret addr.

(** The loop of [sys_sleep], entered with [tickslock] held; it sleeps on the
    clock, and runs again when woken.  [ticks - ticks0] wraps at 32 bits. *)
Definition sys_sleep_body (cur : nat) (ticks0 n : Z) : M (tst F) Z :=
  t ← gets ticks;
  if u32 (t - ticks0) <? n then
    k ← pcode (killed cur);
    if negb (k =? 0) then pcode (release tickslock);; mret (-1)
    else pcode (sleep cur chan_ticks tickslock);; mret 0
  else pcode (release tickslock);; mret 0.
Definition sys_sleep (cur : nat) : M (tst F) Z :=
  n ← argint cur 0;
  let n := if n <? 0 then 0 else n in
  pcode (acquire tickslock);;
  ticks0 ← gets ticks;
  sys_sleep_body cur ticks0 n.
Definition sys_sleep_resume (cur : nat) (ticks0 n : Z) : M (tst F) Z :=
  pcode (sleep_resume cur tickslock);; sys_sleep_body cur ticks0 n.

Definition sys_kill (cur : nat) : M (tst F) Z := p ← argint cur 0; pcode (kill p).
Definition sys_uptime : M (tst F) Z :=
  pcode (acquire tickslock);;
  t ← gets ticks;
  pcode (release tickslock);;
  mret t.

(** ** Dispatch *)

(** The table, with the file system's entries as [filecalls]. *)
Definition syscalls (filecalls : nat → Z → option (M (tst F) Z)) (cur : nat) (num : Z) : option (M (tst F) Z) :=
  if num =? SYS_fork then Some (sys_fork cur)
  else if num =? SYS_exit then Some (sys_exit cur)
  else if num =? SYS_wait then Some (sys_wait cur)
  else if num =? SYS_kill then Some (sys_kill cur)
  else if num =? SYS_getpid then Some (sys_getpid cur)
  else if num =? SYS_sbrk then Some (sys_sbrk cur)
  else if num =? SYS_sleep then Some (sys_sleep cur)
  else if num =? SYS_uptime then Some sys_uptime
  else filecalls cur num.

Definition NELEM_syscalls : Z := 22.

Definition syscall (filecalls : nat → Z → option (M (tst F) Z)) (cur : nat) : M (tst F) unit :=
  p ← pcode (get_proc cur);
  a7 ← kcode (ld (trapframe p + tf_a7));
  let num := i32 a7 in
  match (if (0 <? num) && (num <? NELEM_syscalls) then syscalls filecalls cur num else None) with
  | Some f => r ← f; kcode (st (trapframe p + tf_a0) r)
  | None => kcode (st (trapframe p + tf_a0) (-1))
  end.

End syscall.
