(* ===== verification/Usys.v ===== *)
(** * User code that enters the kernel: [user/usys.pl] and [user/initcode.S]

    The two pieces of assembly on the user side of a system call: the stubs that
    [usys.pl] generates, and the program of the first process.  Both are
    assembled, by the encodings of the RISC-V manual, and what the bytes do is
    defined by a hart that fetches them from memory and decodes them. *)

From S2P Require Import Prelude Riscv Mem CString Kalloc Vm Spinlock Proc Syscall Asm.

(** ** The instructions used *)

Inductive uinstr :=
| UAuipc (rd imm : Z)
| UAddi (rd rs imm : Z)
| UJal (rd imm : Z)
| UJalr (rd rs imm : Z)
| UEcall.

(** [n] bits of [x] from bit [i] on. *)
Definition bits (x i n : Z) : Z := (x / 2 ^ i) mod 2 ^ n.
Definition sext (n x : Z) : Z := if x <? 2 ^ (n - 1) then x else x - 2 ^ n.

Definition encode (i : uinstr) : Z :=
  match i with
  | UAuipc rd imm => bits imm 12 20 * 2 ^ 12 + rd * 2 ^ 7 + 0x17
  | UAddi rd rs imm => bits imm 0 12 * 2 ^ 20 + rs * 2 ^ 15 + rd * 2 ^ 7 + 0x13
  | UJal rd imm => bits imm 20 1 * 2 ^ 31 + bits imm 1 10 * 2 ^ 21 + bits imm 11 1 * 2 ^ 20 + bits imm 12 8 * 2 ^ 12 + rd * 2 ^ 7 + 0x6f
  | UJalr rd rs imm => bits imm 0 12 * 2 ^ 20 + rs * 2 ^ 15 + rd * 2 ^ 7 + 0x67
  | UEcall => 0x73
  end.

Definition decode (w : Z) : option uinstr :=
  let rd := bits w 7 5 in
  let rs := bits w 15 5 in
  let imm := sext 12 (bits w 20 12) in
  if bits w 0 7 =? 0x17 then Some (UAuipc rd (sext 32 (bits w 12 20 * 2 ^ 12)))
  else if (bits w 0 7 =? 0x13) && (bits w 12 3 =? 0) then Some (UAddi rd rs imm)
  else if bits w 0 7 =? 0x6f then
    Some (UJal rd (sext 21 (bits w 31 1 * 2 ^ 20 + bits w 12 8 * 2 ^ 12 + bits w 20 1 * 2 ^ 11 + bits w 21 10 * 2)))
  else if (bits w 0 7 =? 0x67) && (bits w 12 3 =? 0) then Some (UJalr rd rs imm)
  else if w =? 0x73 then Some UEcall
  else None.

(** ** A hart in user mode *)

(** The registers by number; [x0] is not one of them. *)
Definition reg_names : list reg :=
  [ra; sp; gp; tp; t0; t1; t2; s0; s1; a0; a1; a2; a3; a4; a5; a6; a7; s2; s3; s4; s5; s6; s7; s8; s9; s10; s11; t3; t4; t5; t6].
Definition reg_of (n : Z) : option reg := if n <=? 0 then None else reg_names !! Z.to_nat (n - 1).
Definition xreg (h : hart) (n : Z) : Z := match reg_of n with Some r => regs h r | None => 0 end.
Definition set_xreg (n v : Z) (h : hart) : hart := match reg_of n with Some r => set_reg r v h | None => h end.

(** The word at an address of the user's memory. *)
Definition fetch (v : Z → option byte) (a : Z) : option Z :=
  match v a, v (a + 1), v (a + 2), v (a + 3) with
  | Some b0, Some b1, Some b2, Some b3 => Some (le_decode [b0; b1; b2; b3])
  | _, _, _, _ => None
  end.

(** After an instruction, or at an [ecall], or at something else that traps. *)
Inductive ures := Running (h : hart) | Trapped (h : hart) | Illegal (h : hart).

Definition uexec (i : uinstr) (h : hart) : ures :=
  let next := u64 (pc h + 4) in
  match i with
  | UAuipc rd imm => Running (set_pc next (set_xreg rd (u64 (pc h + imm)) h))
  | UAddi rd rs imm => Running (set_pc next (set_xreg rd (u64 (xreg h rs + imm)) h))
  | UJal rd imm => Running (set_pc (u64 (pc h + imm)) (set_xreg rd next h))
  | UJalr rd rs imm => Running (set_pc (Z.land (u64 (xreg h rs + imm)) (2 ^ 64 - 2)) (set_xreg rd next h))
  | UEcall => Trapped h
  end.
Definition ustep (v : Z → option byte) (h : hart) : ures :=
  match fetch v (pc h) ≫= decode with Some i => uexec i h | None => Illegal h end.

(** At most [n] instructions, up to the next trap. *)
Fixpoint urun (n : nat) (v : Z → option byte) (h : hart) : ures :=
  match n with
  | O => Running h
  | S n => match ustep v h with Running h => urun n v h | r => r end
  end.

(** ** usys.pl *)

(** [li a7, SYS_name; ecall; ret] *)
Definition entry (num : Z) : list uinstr := [UAddi 17 0 num; UEcall; UJalr 0 1 0].

Definition usys : list (string * list uinstr) :=
  [ ("fork", entry SYS_fork); ("exit", entry SYS_exit); ("wait", entry SYS_wait); ("pipe", entry SYS_pipe);
    ("read", entry SYS_read); ("write", entry SYS_write); ("close", entry SYS_close); ("kill", entry SYS_kill);
    ("exec", entry SYS_exec); ("open", entry SYS_open); ("mknod", entry SYS_mknod); ("unlink", entry SYS_unlink);
    ("fstat", entry SYS_fstat); ("link", entry SYS_link); ("mkdir", entry SYS_mkdir); ("chdir", entry SYS_chdir);
    ("dup", entry SYS_dup); ("getpid", entry SYS_getpid); ("sbrk", entry SYS_sbrk); ("sleep", entry SYS_sleep);
    ("uptime", entry SYS_uptime) ]%string.

(** ** initcode.S *)

(** [la rd, symbol], at [pc], for a symbol less than 2048 bytes away. *)
Definition la (rd pc symbol : Z) : list uinstr := [UAuipc rd 0; UAddi rd rd (symbol - pc)].

(** The text, for the addresses of its symbols [exit], [init] and [argv]. *)
Definition initcode_text (exit init argv : Z) : list uinstr :=
  la 10 0 init ++ la 11 8 argv ++ [UAddi 17 0 SYS_exec; UEcall] ++
  [UAddi 17 0 SYS_exit; UEcall; UJal 1 (exit - 0x20)].
Definition assemble (l : list uinstr) : list byte := l ≫= λ i, le_encode 4 (encode i).

(** [.string "/init\0"] and the array of two [.long]s. *)
Definition init_string : list byte := bytes "/init" ++ [x00; x00].
Definition initcode_S (argv : Z) : list byte :=
  let text := assemble (initcode_text 0x18 0x24 argv) in
  let data := init_string ++ replicate (Z.to_nat (argv - 0x24 - Z.of_nat (length init_string))) x00 in
  text ++ data ++ le_encode 4 0x24 ++ le_encode 4 0.

(** The array in [proc.c] is this program, with [argv] right after the string,
    and a byte of padding. *)
Lemma initcode_assembled : initcode = initcode_S 0x2b ++ [x00].
Proof. vm_compute. reflexivity. Qed.

(** ** What a stub does *)

(** The bytes [bs] are in the user's memory at [a]. *)
Definition loaded (v : Z → option byte) (a : Z) (bs : list byte) : Prop := ∀ j b, bs !! j = Some b → v (a + Z.of_nat j) = Some b.

Lemma fetch_loaded v a bs j w : loaded v a bs → take 4 (drop j bs) = le_encode 4 w → 0 ≤ w < 2 ^ 32 → fetch v (a + Z.of_nat j) = Some w.
Proof.
  intros Hl E Hw. assert (∀ i b, le_encode 4 w !! i = Some b → v (a + Z.of_nat j + Z.of_nat i) = Some b) as Hv.
  { intros i b Hb. rewrite <- E in Hb. apply lookup_take_Some in Hb as [Hb _]. rewrite lookup_drop in Hb. rewrite <- (Hl _ _ Hb). f_equal. lia. }
  unfold fetch. pose proof (Hv 0%nat _ eq_refl) as E0. pose proof (Hv 1%nat _ eq_refl) as E1. pose proof (Hv 2%nat _ eq_refl) as E2. pose proof (Hv 3%nat _ eq_refl) as E3.
  rewrite Z.add_0_r in E0. change (Z.of_nat 1) with 1 in E1. change (Z.of_nat 2) with 2 in E2. change (Z.of_nat 3) with 3 in E3. rewrite E0, E1, E2, E3.
  f_equal. change (le_decode (le_encode 4 w) = w). rewrite le_decode_encode. by apply Z.mod_small.
Qed.

(** A stub traps with the number of its call in [a7] and the other registers, the
    arguments among them, as they are; resumed after the [ecall], it returns to
    its caller with the registers it finds then. *)
Lemma usys_stub v h name num : (name, entry num) ∈ usys → loaded v (pc h) (assemble (entry num)) → 0 ≤ pc h → pc h + 12 ≤ 2 ^ 64 →
  urun 2 v h = Trapped (set_pc (pc h + 4) (set_reg a7 num h)) ∧
  ∀ h', pc h' = pc h + 8 → ustep v h' = Running (set_pc (Z.land (u64 (regs h' ra + 0)) (2 ^ 64 - 2)) h').
Proof.
  intros Hin Hl H0 H1. assert (∀ j w, take 4 (drop j (assemble (entry num))) = le_encode 4 w → 0 ≤ w < 2 ^ 32 → fetch v (pc h + Z.of_nat j) = Some w) as Hf.
  { intros j w. by apply fetch_loaded. }
  assert (decode (encode (UAddi 17 0 num)) = Some (UAddi 17 0 num) ∧ 0 ≤ encode (UAddi 17 0 num) < 2 ^ 32 ∧ 0 ≤ num < 2 ^ 64) as (Hd & Hr & Hn).
  { revert Hin. unfold usys. rewrite !elem_of_cons, elem_of_nil. intros Hin. repeat destruct Hin as [[= _ ->]|Hin]; [vm_compute; repeat split; congruence..|done]. }
  pose proof (Hf 0%nat _ eq_refl Hr) as F0. pose proof (Hf 4%nat 0x73 eq_refl ltac:(done)) as F1. pose proof (Hf 8%nat (encode (UJalr 0 1 0)) eq_refl ltac:(done)) as F2.
  rewrite Z.add_0_r in F0. split.
  - cbn [urun]. unfold ustep at 1. rewrite F0. cbn [mbind option_bind]. rewrite Hd. unfold uexec. cbn [xreg set_xreg reg_of]. change (reg_of 0) with (@None reg).
    change (reg_of 17) with (Some a7). cbv iota. rewrite Z.add_0_l, (u64_small num), (u64_small (pc h + 4)) by lia. unfold ustep. cbn [pc set_pc]. change (pc h + 4) with (pc h + Z.of_nat 4).
    rewrite F1. reflexivity.
  - intros h' Hp. unfold ustep. rewrite Hp. change (pc h + 8) with (pc h + Z.of_nat 8). rewrite F2. reflexivity.
Qed.
