(* ===== verification/Trap.v ===== *)
(** * Traps, [kernel/trap.c]

    The handlers of traps from user space and from the kernel, the clock and
    the dispatch of device interrupts, with the copy-on-write page fault this
    version of xv6 adds to [usertrap].  Devices are an interface. *)

From S2P Require Import Prelude Riscv Mem CString Kalloc Vm Spinlock Proc Syscall.

Definition SSTATUS_SPP : Z := Z.shiftl 1 8.
Definition SSTATUS_SPIE : Z := Z.shiftl 1 5.

(** The device handlers, on behalf of the interrupted process, and the interrupt
    controller. *)
Class Devices (F : Type) := {
  plic_claim : Z → M (pst F) Z;
  plic_complete : Z → Z → M (pst F) unit;
  uartintr : option nat → M (pst F) unit;
  virtio_disk_intr : option nat → M (pst F) unit;
}.

Section trap.
Context {F : Type} `{!FileSys F} `{!Devices F} `{!KernelImage} `{!KernelText}.
Implicit Types s : tst F.

Definition get_csr {A} (f : csrs → A) : M (tst F) A := gets (λ s, f (csr s)).
Definition upd_csr (f : csrs → csrs) : M (tst F) unit := modify (λ s, set_csr (f (csr s)) s).
Definition w_sstatus (v : Z) (c : csrs) := mk_csrs v (scause c) (sepc c) (stval c) (stvec c) (satp c) (tp c) (sip c).
Definition w_sepc (v : Z) (c : csrs) := mk_csrs (sstatus c) (scause c) v (stval c) (stvec c) (satp c) (tp c) (sip c).
Definition w_stvec (v : Z) (c : csrs) := mk_csrs (sstatus c) (scause c) (sepc c) (stval c) v (satp c) (tp c) (sip c).
Definition w_sip (v : Z) (c : csrs) := mk_csrs (sstatus c) (scause c) (sepc c) (stval c) (stvec c) (satp c) (tp c) v.

Definition trapinit : M (tst F) unit := pcode (initlock tickslock).
Definition trapinithart : M (tst F) unit := upd_csr (w_stvec kernelvec_addr).

(** ** Interrupts *)

(** [cur] is the interrupted process, if there is one. *)
Definition clockintr (cur : option nat) : M (tst F) unit :=
  pcode (acquire tickslock);;
  modify (λ s, set_ticks (u32 (ticks s + 1)) s);;
  pcode (wakeup cur chan_ticks);;
  pcode (release tickslock).

Definition devintr (cur : option nat) : M (tst F) Z :=
  c ← get_csr scause;
  hart ← get_csr tp;
  if band c 0x8000000000000000 && (Z.land c 0xff =? 9) then
    irq ← pcode (plic_claim hart);
    (if irq =? UART0_IRQ then pcode (uartintr cur)
     else if irq =? VIRTIO0_IRQ then pcode (virtio_disk_intr cur)
     else mret ());;
    (if negb (irq =? 0) then pcode (plic_complete hart irq) else mret ());;
    mret 1
  else if c =? 0x8000000000000001 then
    (if hart =? 0 then clockintr cur else mret ());;
    v ← get_csr sip;
    upd_csr (w_sip (Z.land v (u64 (Z.lnot 2))));;
    mret 2
  else mret 0.

(** [kerneltrap]; after the [yield], [kerneltrap_end] restores the registers. *)
Definition kerneltrap_end (epc status : Z) : M (tst F) unit :=
  upd_csr (w_sepc epc);; upd_csr (w_sstatus status).
Definition kerneltrap (cur : option nat) : M (tst F) unit :=
  epc ← get_csr sepc;
  status ← get_csr sstatus;
  if negb (band status SSTATUS_SPP) then panic "kerneltrap: not from supervisor mode"
  else
    on ← gets (λ s, sie (mycpu (pstate s)));
    if (on : bool) then panic "kerneltrap: interrupts enabled"
    else
      which ← devintr cur;
      if which =? 0 then panic "kerneltrap"
      else
        (match cur with
         | Some i =>
             p ← pcode (get_proc i);
             if (which =? 2) && bool_decide (state p = RUNNING) then pcode (yield i) else mret ()
         | None => mret ()
         end);;
        kerneltrap_end epc status.

(** ** User traps *)

(** Back to user space: what [userret] gets is the value returned. *)
Definition usertrapret (cur : nat) : M (tst F) Z :=
  p ← pcode (get_proc cur);
  pcode (oncpu intr_off);;
  upd_csr (w_stvec (TRAMPOLINE + (uservec_addr - trampoline)));;
  ksatp ← get_csr satp;
  kcode (st (trapframe p + tf_kernel_satp) ksatp);;
  kcode (st (trapframe p + tf_kernel_sp) (kstack p + PGSIZE));;
  kcode (st (trapframe p + tf_kernel_trap) usertrap_addr);;
  hart ← get_csr tp;
  kcode (st (trapframe p + tf_kernel_hartid) hart);;
  x ← get_csr sstatus;
  upd_csr (w_sstatus (Z.lor (Z.land x (u64 (Z.lnot SSTATUS_SPP))) SSTATUS_SPIE));;
  epc ← kcode (ld (trapframe p + tf_epc));
  upd_csr (w_sepc epc);;
  mret (MAKE_SATP (pagetable p)).

(** Lines 98-110: the new page [m] takes the place of the shared one.  The
    source jumps back to line 92 when [mappages] fails, and copies again; one
    more round is all [fuel] ever allows here, since that copy traps. *)
Fixpoint cow_remap (fuel : nat) (cur : nat) (pt pte va m : Z) : M (tst F) unit :=
  match fuel with
  | O => no_fuel
  | S fuel =>
      v ← kcode (ld pte);
      kcode (memmove_ m (PTE2PA v) PGSIZE);;
      v ← kcode (ld pte);
      let flags := Z.lor (Z.land (PTE_FLAGS v) (Z.lnot PTE_COW)) PTE_W in
      kcode (uvmunmap pt (PGROUNDDOWN va) 1 true);;
      r ← kcode (mappages pt (PGROUNDDOWN va) PGSIZE m flags);
      if negb (r =? 0) then
        kcode (kfree m);;
        pcode (setkilled cur);;
        cow_remap fuel cur pt pte va m
      else mret ()
  end.

(** Lines 81-115, a store page fault.  A null [pte] is dereferenced, and a
    failed [kalloc] kills the process but goes on to copy to address 0. *)
Definition store_fault (cur : nat) : M (tst F) unit :=
  va ← get_csr stval;
  if va >=? MAXVA then pcode (setkilled cur)
  else
    p ← pcode (get_proc cur);
    pte ← kcode (walk (pagetable p) va false);
    v ← kcode (ld pte);
    if band v PTE_COW then
      m ← kcode kalloc;
      (if m =? 0 then pcode (setkilled cur) else mret ());;
      cow_remap 2 cur (pagetable p) pte va m
    else pcode (setkilled cur).

(** The end of [usertrap], also run when a process preempted in it resumes. *)
Definition usertrap_end (cur : nat) (which_dev : Z) : M (tst F) Z :=
  k ← pcode (killed cur);
  (if negb (k =? 0) then pcode (exit cur (-1)) else mret ());;
  (if which_dev =? 2 then pcode (yield cur) else mret ());;
  usertrapret cur.
Definition usertrap_resume (cur : nat) : M (tst F) Z :=
  pcode (yield_resume cur);; usertrapret cur.

Definition usertrap (filecalls : nat → Z → option (M (tst F) Z)) (cur : nat) : M (tst F) Z :=
  status ← get_csr sstatus;
  if band status SSTATUS_SPP then panic "usertrap: not from user mode"
  else
    upd_csr (w_stvec kernelvec_addr);;
    p ← pcode (get_proc cur);
    epc ← get_csr sepc;
    kcode (st (trapframe p + tf_epc) epc);;
    c ← get_csr scause;
    which_dev ←
      (if c =? 8 then
         k ← pcode (killed cur);
         (if negb (k =? 0) then pcode (exit cur (-1)) else mret ());;
         epc ← kcode (ld (trapframe p + tf_epc));
         kcode (st (trapframe p + tf_epc) (u64 (epc + 4)));;
         pcode (oncpu intr_on);;
         syscall filecalls cur;;
         mret 0
       else
         which_dev ← devintr (Some cur);
         if negb (which_dev =? 0) then mret which_dev
         else
           c ← get_csr scause;
           (if c =? 15 then store_fault cur else pcode (setkilled cur));;
           mret 0);
    usertrap_end cur which_dev.

End trap.
