(* ===== verification/TrapSpec.v ===== *)
(** * Properties of traps and of system call arguments

    The copy-on-write page fault, seen from user space: a store to a shared page
    is retried with a private copy in place, and no process sees any byte
    change.  Two paths on which the handler crashes the kernel instead.  What a
    system call reads as a string argument. *)

From S2P Require Import Prelude Riscv Mem CString Kalloc Vm VmTree VmOps Cow Spinlock Proc ProcSpec ProcTable Syscall Trap.

Section trap_spec.
Context {F : Type} `{!FileSys F} `{!Devices F} `{!KernelImage} `{!KernelText}.
Implicit Types s : tst F.

Definition kmem s : kst := kern (pstate s).
Definition with_kern (k : kst) s : tst F := set_pstate (set_kern k (pstate s)) s.

Lemma kcode_Ok {A} (c : M kst A) s a k : c (kmem s) = Ok a k → kcode c s = Ok a (with_kern k s).
Proof. intros E. unfold kcode, pcode, vm, lift, zoom. fold (kmem s). by rewrite E. Qed.

Lemma with_kern_id s : with_kern (kmem s) s = s.
Proof. by destruct s as [[]]. Qed.

Lemma kcode_with {A} (c : M kst A) s k a k' : c k = Ok a k' → kcode c (with_kern k s) = Ok a (with_kern k' s).
Proof. intros E. by rewrite (kcode_Ok _ _ _ _ (E : c (kmem (with_kern k s)) = _)). Qed.

Lemma kcode_fault {A} (c : M kst A) s a : c (kmem s) = Fault a → kcode c s = Fault a.
Proof. intros E. unfold kcode, pcode, vm, lift, zoom. fold (kmem s). by rewrite E. Qed.

Lemma get_proc_Ok s cur p : procs (pstate s) !! cur = Some p → pcode (get_proc cur) s = Ok p s.
Proof. intros E. unfold pcode, zoom, get_proc. rewrite E. by destruct s. Qed.

(** Running the trap code: memory code, registers, the current process. *)
Lemma wp_kcode {A B} (c : M kst A) (f : A → M (tst F) B) s a k Q :
  c (kmem s) = Ok a k → wp (f a) (with_kern k s) Q → wp (kcode c ≫= f) s Q.
Proof. intros E Hf. apply wp_bind. by eapply wp_Ok; [by apply kcode_Ok|]. Qed.

Lemma wp_get_csr {A B} (g : csrs → A) (f : A → M (tst F) B) s Q :
  wp (f (g (csr s))) s Q → wp (get_csr g ≫= f) s Q.
Proof. exact id. Qed.

Lemma wp_upd_csr {B} (g : csrs → csrs) (f : unit → M (tst F) B) s Q :
  wp (f tt) (set_csr (g (csr s)) s) Q → wp (upd_csr g ≫= f) s Q.
Proof. exact id. Qed.

Lemma wp_get_proc {B} s cur p (f : proc → M (tst F) B) Q :
  procs (pstate s) !! cur = Some p → wp (f p) s Q → wp (pcode (get_proc cur) ≫= f) s Q.
Proof. intros Hp Hf. apply wp_bind. by eapply wp_Ok; [by apply get_proc_Ok|]. Qed.

Lemma PX_pg l va : l = 0 ∨ l = 1 ∨ l = 2 → 0 ≤ va → PX l (pg va) = PX l va.
Proof.
  intros Hl Hva. pose proof (pg_range va). unfold pg in *. rewrite !PX_alt by lia.
  destruct Hl as [-> |[-> | ->]]; simpl Z.mul; simpl Z.add; Z.div_mod_to_equations; lia.
Qed.

(** ** The copy-on-write fault *)

Lemma cow_remap_ok s m fl T L r va pte cur k1 n :
  vm_inv (kmem s) (m :: fl) T L → L !! (r, pg va) = Some pte → pg va < TRAPFRAME → 0 ≤ va < MAXVA →
  kalloc (kmem s) = Ok m k1 →
  ∃ p k4 freed, T !! (r, [PX 2 (pg va); PX 1 (pg va)]) = Some p ∧ m ≠ 0 ∧
    cow_remap (S n) cur r (p + 8 * PX 0 (pg va)) va m (with_kern k1 s) = Ok tt (with_kern k4 s) ∧
    vm_inv k4 (freed ++ fl) T (<[(r, pg va) := mk_pte m (private_flags pte)]> L) ∧ page_ok m ∧
    (∀ q, q ∈ freed → q = PTE2PA pte) ∧
    (∀ o, 0 ≤ o < 4096 → mem k4 (m + o) = mem (kmem s) (PTE2PA pte + o)) ∧
    (∀ x, pg x ∉ m :: fl → pg x ∉ freed → (∀ k, T !! k ≠ Some (pg x)) → mem k4 x = mem (kmem s) x).
Proof.
  intros Hv HL Hva Hr Hk.
  destruct (cow_break (kmem s) m fl T L r (pg va) pte Hv HL Hva) as
    (p & k1' & k2 & k3 & k4 & freed & HT & Hk' & Hnz & Hld1 & Hmv & Hld2 & Hun & Hmp & Hrest).
  rewrite Hk in Hk'. injection Hk' as <-. exists p, k4, freed. split; [done|]. split; [done|].
  destruct Hrest as (? & ? & ? & ? & ? & _). split; [|by split_and!].
  assert (MAXVA = 0x4000000000) as HM by done.
  assert (PGROUNDDOWN va = pg va) as Epg by (unfold pg; apply PGROUNDDOWN_alt; lia).
  cbn [cow_remap]. unfold mbind, M_bind.
  rewrite (kcode_with _ _ _ _ _ Hld1), (kcode_with _ _ _ _ _ Hmv), (kcode_with _ _ _ _ _ Hld2), Epg.
  rewrite (kcode_with _ _ _ _ _ Hun). fold (private_flags pte). by rewrite (kcode_with _ _ _ _ _ Hmp).
Qed.

(** The fault handler on a shared page, when a page is free. *)
Lemma store_fault_ok s m fl T L r va pte cur p :
  vm_inv (kmem s) (m :: fl) T L → T !! (r, []) = Some r → L !! (r, pg va) = Some pte → band pte PTE_COW = true →
  pg va < TRAPFRAME → 0 ≤ va < MAXVA → stval (csr s) = va → procs (pstate s) !! cur = Some p → pagetable p = r →
  ∃ k4 freed, store_fault cur s = Ok tt (with_kern k4 s) ∧
    vm_inv k4 (freed ++ fl) T (<[(r, pg va) := mk_pte m (private_flags pte)]> L) ∧ page_ok m ∧
    (∀ q, q ∈ freed → q = PTE2PA pte) ∧
    (∀ o, 0 ≤ o < 4096 → mem k4 (m + o) = mem (kmem s) (PTE2PA pte + o)) ∧
    (∀ x, pg x ∉ m :: fl → pg x ∉ freed → (∀ k, T !! k ≠ Some (pg x)) → mem k4 x = mem (kmem s) x).
Proof.
  intros Hv HT HL Hcow Hva Hr Hst Hp Hpt.
  destruct (kalloc_vm _ _ _ _ _ Hv) as (k1 & Hk & _).
  destruct (cow_remap_ok s m fl T L r va pte cur k1 1 Hv HL Hva Hr Hk) as (p0 & k4 & freed & HT0 & Hnz & Hrun & Hrest).
  exists k4, freed. split; [|done]. unfold store_fault, get_csr, gets, mbind, M_bind. rewrite Hst.
  destruct (Z_geb_spec0 va MAXVA); [lia|]. rewrite (get_proc_Ok _ _ _ Hp), Hpt.
  pose proof (walk_noalloc _ _ _ _ r va (vi_pt _ _ _ _ Hv) HT Hr) as Hw.
  rewrite !PX_pg in HT0 by lia. rewrite PX_pg in Hrun by lia. rewrite HT0 in Hw.
  rewrite (kcode_Ok _ _ _ _ Hw). rewrite with_kern_id.
  destruct (unmap_walk _ _ _ _ _ _ _ (vi_pt _ _ _ _ Hv) HL) as (p1 & HT1 & _ & _ & Hld & _).
  rewrite !PX_pg in * by lia. simplify_eq. rewrite (kcode_Ok _ _ _ _ Hld), Hcow. rewrite with_kern_id. rewrite (kcode_Ok _ _ _ _ Hk).
  rewrite (proj2 (Z.eqb_neq m 0)) by done. exact Hrun.
Qed.

(** ** The trap frame *)

(** A store in the trap frame. *)
Lemma tf_store k fl T L tf i v :
  vm_inv k fl T L → aside fl T L tf → 0 ≤ i < 512 →
  ∃ k', st (tf + 8 * i) v k = Ok tt k' ∧ vm_inv k' fl T L ∧ (∀ r va, view k' L r va = view k L r va) ∧
    (∀ x, pg x ≠ tf → mem k' x = mem k x) ∧ (0 ≤ v < 2 ^ 64 → ld (tf + 8 * i) k' = Ok v k') ∧
    (∀ j w, 0 ≤ j < 512 → j ≠ i → ld (tf + 8 * j) k = Ok w k → ld (tf + 8 * j) k' = Ok w k').
Proof.
  intros Hv Ha Hi. pose proof (as_ok _ _ _ _ Ha) as Hok. pose proof (slot_in_page tf i Hok Hi) as Hslot.
  eexists. split; [by apply st_slot|]. simpl.
  assert (∀ x, pg x ≠ tf → store64 (mem k) (tf + 8 * i) v x = mem k x) as Hm.
  { intros x Hx. apply store64_out. intros ?. apply Hx. apply pg_eq; [apply Hok|lia]. }
  destruct (vm_frame_aside k (set_mem (λ m, store64 m (tf + 8 * i) v) k) fl T L tf) as [Hv' Hview]; [done..|].
  split; [done|]. split; [done|]. split; [done|]. split.
  - intros Hr. rewrite ld_slot by done. simpl. by rewrite load64_store64_eq.
  - intros j w Hj Hne. rewrite !ld_slot by done. intros [= <-]. simpl. by rewrite load64_store64_ne by lia.
Qed.

Lemma killed_ok b s cur p :
  thr b 0 [] (pstate s) → procs (pstate s) !! cur = Some p →
  ∃ c, pcode (killed cur) s = Ok (killed_ p) (set_pstate (set_mycpu c (pstate s)) s) ∧ at_depth b 0 c.
Proof.
  intros [Hd Hh] Hp. unfold killed, acquire, release, oncpu, lift, zoom, pcode, zoom, mbind, M_bind, gets, modify.
  destruct (push_off_depth b 0 _ Hd) as (c1 & -> & Hc1). simpl. rewrite Hh. rewrite decide_False by apply not_elem_of_nil.
  unfold get_proc. simpl. rewrite Hp. rewrite decide_True by (by left). simpl.
  destruct (pop_off_depth b 0 _ Hc1) as (c2 & -> & Hc2). exists c2. split; [|done]. unfold set_pstate, set_mycpu, set_held. simpl.
  by rewrite Hh, filter_head by apply not_elem_of_nil.
Qed.

Definition same_csr_but (c c' : csrs) (epc : Z) : Prop :=
  sepc c' = epc ∧ stval c' = stval c ∧ scause c' = scause c ∧ satp c' = satp c ∧ tp c' = tp c ∧
  stvec c' = TRAMPOLINE + (uservec_addr - trampoline) ∧
  sstatus c' = Z.lor (Z.land (sstatus c) (u64 (Z.lnot SSTATUS_SPP))) SSTATUS_SPIE.

(** [usertrapret] resumes at the saved program counter. *)
Lemma usertrapret_ok s cur p fl T L epc :
  vm_inv (kmem s) fl T L → aside fl T L (trapframe p) → procs (pstate s) !! cur = Some p →
  ld (trapframe p + tf_epc) (kmem s) = Ok epc (kmem s) →
  wp (usertrapret cur) s (λ v s', v = MAKE_SATP (pagetable p) ∧ vm_inv (kmem s') fl T L ∧
    (∀ r va, view (kmem s') L r va = view (kmem s) L r va) ∧ same_csr_but (csr s) (csr s') epc ∧
    procs (pstate s') = procs (pstate s) ∧ sie (mycpu (pstate s')) = false).
Proof.
  intros Hv Ha Hp Hepc. unfold usertrapret. eapply wp_get_proc; [done|].
  unfold tf_kernel_satp, tf_kernel_sp, tf_kernel_trap, tf_kernel_hartid, tf_epc in *.
  apply wp_bind. unfold wp at 1. simpl. apply wp_upd_csr, wp_get_csr. simpl.
  destruct (tf_store (kmem s) fl T L (trapframe p) 0 (satp (csr s))) as (k1 & E1 & Hv1 & Hw1 & _ & _ & Hl1); [done..|lia|].
  destruct (tf_store k1 fl T L (trapframe p) 1 (kstack p + PGSIZE)) as (k2 & E2 & Hv2 & Hw2 & _ & _ & Hl2); [done..|lia|].
  destruct (tf_store k2 fl T L (trapframe p) 2 usertrap_addr) as (k3 & E3 & Hv3 & Hw3 & _ & _ & Hl3); [done..|lia|].
  destruct (tf_store k3 fl T L (trapframe p) 4 (tp (csr s))) as (k4 & E4 & Hv4 & Hw4 & _ & _ & Hl4); [done..|lia|].
  eapply wp_kcode; [exact E1|]. eapply wp_kcode; [exact E2|]. eapply wp_kcode; [exact E3|]. apply wp_get_csr.
  eapply wp_kcode; [exact E4|]. apply wp_get_csr, wp_upd_csr.
  eapply wp_kcode; [apply (Hl4 3), (Hl3 3), (Hl2 3), (Hl1 3); [lia..|exact Hepc]|].
  apply wp_upd_csr, wp_ret. split; [done|]. split; [done|].
  split; [intros r va; by rewrite <- Hw1, <- Hw2, <- Hw3, <- Hw4|]. by repeat split.
Qed.

Lemma devintr_store s : scause (csr s) = 15 → devintr (Some 0%nat) s = Ok 0 s ∧ ∀ cur, devintr cur s = Ok 0 s.
Proof. intros E. unfold devintr, get_csr, gets, mbind, M_bind. by rewrite E. Qed.

(** C6: a store to a copy-on-write page.  The process is not killed, some page
    is free, the faulting address is in a page mapped copy-on-write: [usertrap]
    returns to user space at the faulting instruction, with the page now mapped
    writable and no longer copy-on-write, and every byte that any process can
    read is as before; the reference counts and page tables stay consistent. *)
Theorem usertrap_cow filecalls b s cur p m fl T L va pte :
  band (sstatus (csr s)) SSTATUS_SPP = false → scause (csr s) = 15 → stval (csr s) = va → 0 ≤ va < MAXVA →
  0 ≤ sepc (csr s) < 2 ^ 64 → thr b 0 [] (pstate s) → procs (pstate s) !! cur = Some p → killed_ p = 0 →
  vm_inv (kmem s) (m :: fl) T L → T !! (pagetable p, []) = Some (pagetable p) → aside (m :: fl) T L (trapframe p) →
  L !! (pagetable p, pg va) = Some pte → band pte PTE_COW = true → pg va < TRAPFRAME →
  wp (usertrap filecalls cur) s (λ v s', v = MAKE_SATP (pagetable p) ∧ sepc (csr s') = sepc (csr s) ∧
    procs (pstate s') = procs (pstate s) ∧ ∃ fl' pte',
      vm_inv (kmem s') fl' T (<[(pagetable p, pg va) := pte']> L) ∧
      band pte' PTE_W = true ∧ band pte' PTE_COW = false ∧ band pte' PTE_U = band pte PTE_U ∧
      ∀ r' va', view (kmem s') (<[(pagetable p, pg va) := pte']> L) r' va' = view (kmem s) L r' va').
Proof.
  intros Hspp Hcause Hst Hva Hepc Hthr Hp Hk Hv HT Ha HL Hcow Hlow. unfold usertrap. apply wp_get_csr. rewrite Hspp.
  apply wp_upd_csr. eapply wp_get_proc; [done|]. apply wp_get_csr. unfold tf_epc.
  destruct (tf_store (kmem s) (m :: fl) T L (trapframe p) 3 (sepc (csr s))) as (k0 & E0 & Hv0 & Hw0 & _ & Hl0 & _); [done..|lia|].
  eapply wp_kcode; [exact E0|]. apply wp_get_csr. simpl. rewrite Hcause. change (15 =? 8) with false. cbv iota.
  set (s0 := with_kern k0 (set_csr (w_stvec kernelvec_addr (csr s)) s)). specialize (Hl0 Hepc).
  destruct (store_fault_ok s0 m fl T L (pagetable p) va pte cur p) as (k4 & freed & Hrun & Hv4 & Hmok & Hfr & Hcopy & Hframe);
    [done..|].
  assert (band pte PTE_V = true) as HV by (by eapply (pr_dom _ _ _ (pi_rep _ _ _ _ (vi_pt _ _ _ _ Hv)))).
  pose proof (cow_break_view k0 m fl T L (pagetable p) (pg va) pte k4 freed Hv0 HL Hlow Hmok HV Hv4 Hcopy Hframe) as Hw4.
  pose proof (page_ok_pa_ok _ Hmok) as Hmpa. pose proof (private_flags_range pte) as Hpf.
  destruct (aside_remap k0 m fl T L (pagetable p) (pg va) pte freed (trapframe p) (mk_pte m (private_flags pte)))
    as [Ha4 Hnfr]; [done..|by apply mk_pte_PA|].
  assert (ld (trapframe p + 24) k4 = Ok (sepc (csr s)) k4) as Hl4.
  { change 24 with (8 * 3) in *. rewrite ld_slot in Hl0 |- * by (apply Ha || lia). injection Hl0 as Hl0. rewrite <- Hl0. f_equal.
    apply load64_ext. intros x Hx. pose proof (slot_in_page (trapframe p) 3 (as_ok _ _ _ _ Ha) ltac:(lia)).
    assert (pg x = trapframe p) as Ex by (apply pg_eq; [apply (as_ok _ _ _ _ Ha)|lia]).
    apply Hframe; rewrite Ex; [apply (as_nfree _ _ _ _ Ha)|done|apply (as_ntable _ _ _ _ Ha)]. }
  apply wp_bind. unfold wp at 1. unfold mbind at 1, M_bind at 1. rewrite (proj2 (devintr_store s0 Hcause)).
  cbn [negb Z.eqb]. unfold mbind, M_bind, get_csr, gets. change (scause (csr s0)) with (scause (csr s)). rewrite Hcause. simpl.
  rewrite Hrun. simpl. unfold usertrap_end. apply wp_bind.
  destruct (killed_ok b (with_kern k4 s0) cur p) as (c & Hkd & Hc); [done..|]. eapply wp_Ok; [exact Hkd|].
  rewrite Hk. change (negb (0 =? 0)) with false. change (0 =? 2) with false. cbv iota. apply wp_bind, wp_ret, wp_bind, wp_ret.
  eapply wp_mono; [eapply (usertrapret_ok _ cur p (freed ++ fl) T); [exact Hv4|exact Ha4|exact Hp|exact Hl4]|].
  intros v s' (-> & Hv' & Hw' & (Hsepc & _) & Hpr & _). split; [done|]. split; [done|]. split; [done|].
  exists (freed ++ fl), (mk_pte m (private_flags pte)). split; [done|].
  rewrite !mk_pte_band by (done || flag_bounds). destruct (private_flags_spec pte) as (-> & -> & -> & _).
  split; [done|]. split; [done|]. split; [apply orb_false_r|].
  intros r' va'. rewrite Hw'. rewrite <- Hw0. apply Hw4.
Qed.

(** ** Stores that crash the kernel *)

(** A store fault reaches [store_fault] with the program counter saved. *)
Lemma usertrap_store filecalls s cur p fl T L :
  band (sstatus (csr s)) SSTATUS_SPP = false → scause (csr s) = 15 → procs (pstate s) !! cur = Some p →
  vm_inv (kmem s) fl T L → aside fl T L (trapframe p) →
  ∃ k0, vm_inv k0 fl T L ∧ usertrap filecalls cur s =
    (store_fault cur ≫= λ _, usertrap_end cur 0) (with_kern k0 (set_csr (w_stvec kernelvec_addr (csr s)) s)).
Proof.
  intros Hspp Hcause Hp Hv Ha.
  destruct (tf_store (kmem s) fl T L (trapframe p) 3 (sepc (csr s))) as (k0 & E0 & Hv0 & _); [done..|lia|].
  exists k0. split; [done|]. unfold usertrap, mbind, M_bind, get_csr, upd_csr, gets, modify. rewrite Hspp.
  rewrite (get_proc_Ok (set_csr _ s) cur p) by done.
  rewrite (kcode_Ok _ (set_csr (w_stvec kernelvec_addr (csr s)) s) _ _ (E0 : st (trapframe p + tf_epc) _ _ = _)).
  set (s0 := with_kern k0 _). assert (scause (csr s0) = 15) as Ec by done. rewrite Ec. change (15 =? 8) with false. cbv iota.
  cbv beta. rewrite (proj2 (devintr_store s0 Ec)). change (negb (0 =? 0)) with false. cbv iota beta. rewrite Ec.
  change (15 =? 15) with true. cbv iota. by destruct (store_fault cur s0).
Qed.

Lemma setkilled_ok b s cur : thr b 0 [] (pstate s) →
  ∃ p', pcode (setkilled cur) s = Ok tt (set_pstate p' s) ∧ kern p' = kmem s.
Proof.
  intros [Hd Hh]. unfold setkilled, acquire, release, oncpu, lift, zoom, pcode, zoom, mbind, M_bind, gets, modify.
  destruct (push_off_depth b 0 _ Hd) as (c1 & -> & Hc1). simpl. rewrite Hh. rewrite decide_False by apply not_elem_of_nil.
  unfold upd_proc, modify. simpl. rewrite decide_True by (by left). simpl.
  destruct (pop_off_depth b 0 _ Hc1) as (c2 & -> & Hc2). by eexists.
Qed.

(** A store to an address with no page table crashes the kernel.  When the
    faulting address is below [MAXVA] but the process has no last-level page
    table for it, [walk] returns null and [usertrap] reads through it: a fault in
    supervisor mode at address 0, instead of killing the process. *)
Theorem usertrap_null_pte filecalls s cur p fl T L va :
  band (sstatus (csr s)) SSTATUS_SPP = false → scause (csr s) = 15 → stval (csr s) = va → 0 ≤ va < MAXVA →
  procs (pstate s) !! cur = Some p → vm_inv (kmem s) fl T L → T !! (pagetable p, []) = Some (pagetable p) →
  aside fl T L (trapframe p) → T !! (pagetable p, [PX 2 va; PX 1 va]) = None →
  usertrap filecalls cur s = Fault 0.
Proof.
  intros Hspp Hcause Hst Hva Hp Hv HT Ha Hnone.
  destruct (usertrap_store filecalls s cur p fl T L) as (k0 & Hv0 & ->); [done..|].
  unfold store_fault, mbind, M_bind, get_csr, gets. simpl. rewrite Hst. destruct (Z_geb_spec0 va MAXVA); [lia|].
  rewrite (get_proc_Ok _ cur p) by done. unfold kcode, pcode, vm, lift, zoom. simpl.
  rewrite (walk_noalloc _ _ _ _ _ _ (vi_pt _ _ _ _ Hv0) HT Hva), Hnone. done.
Qed.

(** C40: a copy-on-write store with no memory left crashes the kernel.  [kalloc]
    returns null; [usertrap] marks the process killed but goes on and copies the
    page to address 0, a fault in supervisor mode. *)
Theorem usertrap_no_memory filecalls b s cur p T L va pte :
  band (sstatus (csr s)) SSTATUS_SPP = false → scause (csr s) = 15 → stval (csr s) = va → 0 ≤ va < MAXVA →
  thr b 0 [] (pstate s) → procs (pstate s) !! cur = Some p →
  vm_inv (kmem s) [] T L → T !! (pagetable p, []) = Some (pagetable p) → aside [] T L (trapframe p) →
  L !! (pagetable p, pg va) = Some pte → band pte PTE_COW = true → pg va < TRAPFRAME →
  usertrap filecalls cur s = Fault 0.
Proof.
  intros Hspp Hcause Hst Hva Hthr Hp Hv HT Ha HL Hcow Hlow.
  destruct (usertrap_store filecalls s cur p [] T L) as (k0 & Hv0 & ->); [done..|].
  set (s0 := with_kern k0 _). unfold store_fault, mbind, M_bind, get_csr, gets. simpl. rewrite Hst.
  destruct (Z_geb_spec0 va MAXVA); [lia|]. rewrite (get_proc_Ok s0 cur p) by done.
  destruct (unmap_walk _ _ _ _ _ _ _ (vi_pt _ _ _ _ Hv0) HL) as (p1 & HT1 & _ & _ & Hld & _).
  pose proof (walk_noalloc _ _ _ _ _ va (vi_pt _ _ _ _ Hv0) HT Hva) as Hw. rewrite !PX_pg in HT1 by lia. rewrite PX_pg in Hld by lia. rewrite HT1 in Hw.
  rewrite (kcode_Ok _ s0 _ _ Hw). rewrite (kcode_with _ _ _ _ _ Hld), Hcow.
  destruct (pt_alloc_empty k0 T L (pagetable p) (vi_pt _ _ _ _ Hv0)) as (k1 & Hk & Hi1 & _).
  rewrite (kcode_with _ _ _ _ _ Hk). simpl.
  destruct (setkilled_ok b (with_kern k1 s0) cur) as (p' & -> & Ep'); [done|].
  destruct (unmap_walk _ _ _ _ _ _ _ Hi1 HL) as (p2 & HT2 & _ & _ & Hld' & _). rewrite !PX_pg in HT2 by lia. rewrite PX_pg in Hld' by lia. simplify_eq.
  set (s1 := set_pstate p' _). assert (kmem s1 = k1) as Ek by done. rewrite <- Ek in Hld'.
  unfold mbind, M_bind. rewrite (kcode_Ok _ s1 _ _ Hld'), with_kern_id. rewrite (kcode_fault _ s1 0); [done|].
  unfold memmove_. destruct (leaf_used _ _ _ _ _ _ _ Hv0 HL Hlow) as (Hok & _).
  assert (mapped (PTE2PA pte) PGSIZE = true) as ->; [|done].
  pose proof (page_ok_range _ Hok). unfold mapped, PGSIZE, KERNBASE, PHYSTOP, KERNBASE. rewrite andb_true_iff, !Z.leb_le. lia.
Qed.
End trap_spec.

(** ** System call arguments *)

Section args.
Context {F : Type} `{!FileSys F} `{!KernelImage} `{!KernelText}.
Implicit Types s : tst F.

(** [strlen] of what [copyinstr] stored. *)
Lemma strlen_body body : x00 ∉ body → strlen (S (length (body ++ [x00]))) (ptr (body ++ [x00])) = Some (length body).
Proof.
  induction body as [|c body IH]; intros Hb; [done|]. rewrite not_elem_of_cons in Hb.
  change (strlen (S (length ((c :: body) ++ [x00]))) (ptr ((c :: body) ++ [x00]))) with
    (if decide (c = x00) then Some 0%nat else S <$> strlen (S (length (body ++ [x00]))) (ptr (body ++ [x00]))).
  rewrite decide_False by naive_solver. by rewrite IH by apply Hb.
Qed.

(** String arguments.  [argstr] leaves memory alone.  On success it returns
    the length of the string without its NUL, less than [max], and the buffer
    holds exactly the user's bytes from the argument's address up to and
    including the first NUL; it fails, with -1, only if the first [max] bytes
    hold no NUL or the user may not read up to it. *)
Theorem argstr_correct s cur p n max fl T L addr :
  vm_inv (kmem s) fl T L → T !! (pagetable p, []) = Some (pagetable p) → procs (pstate s) !! cur = Some p →
  0 ≤ n ≤ 5 → ld (trapframe p + tf_a0 + 8 * n) (kmem s) = Ok addr (kmem s) → 0 ≤ addr < 2 ^ 64 → 0 ≤ max →
  ∃ len buf, argstr cur n max s = Ok (len, buf) s ∧
    (∀ i, (i < length buf)%nat → view (kmem s) L (pagetable p) (addr + Z.of_nat i) = buf !! i) ∧
    ((0 ≤ len < max ∧ ∃ body, buf = body ++ [x00] ∧ (x00 ∉ body) ∧ Z.of_nat (length body) = len) ∨
     (len = -1 ∧ (x00 ∉ buf) ∧
      (Z.of_nat (length buf) = max ∨ readable L (pagetable p) (addr + Z.of_nat (length buf)) = false))).
Proof.
  intros Hv HT Hp Hn Hld Haddr Hmax.
  destruct (copyinstr_loop_spec (Z.to_nat max) (kmem s) fl T L (pagetable p) addr max) as (res & bs & Hc & Hview & Hle & Hres);
    [done..|lia|].
  unfold argstr, argaddr, argraw, fetchstr, mbind, M_bind. rewrite (get_proc_Ok _ _ _ Hp).
  rewrite (proj2 (andb_true_iff _ _)) by (rewrite !Z.leb_le; lia).
  rewrite (kcode_Ok _ _ _ _ Hld), with_kern_id, (get_proc_Ok _ _ _ Hp).
  rewrite (kcode_Ok (copyinstr _ _ _) _ _ _ Hc), with_kern_id.
  destruct Hres as [(-> & body & -> & Hb)|(-> & Hno & Hr)].
  - simpl Z.ltb. cbv iota. rewrite strlen_body by done. eexists _, _. split; [done|]. split; [done|]. left.
    rewrite length_app in Hle. simpl in Hle. split; [lia|]. by exists body.
  - eexists _, _. split; [done|]. split; [done|]. right. done.
Qed.

End args.

(** ** Concrete states *)

Section demo.
Context `{KernelImage}.

Lemma aside_of_owned k fl T L p : owned k fl T L p → aside fl T L p.
Proof. intros [??? ? _]. by split. Qed.

Lemma aside_tail q fl T L p : aside (q :: fl) T L p → aside fl T L p.
Proof. intros [? Hn ??]. split; try done. set_solver. Qed.

Lemma aside_grow r k fl T L p k' fl' T' new : aside fl T L p → grow r k fl T k' fl' T' new → aside fl' T' L p.
Proof.
  intros [Hok Hnf HnT Hnr] [Hf _ Hn _ _ _]. rewrite Hf, elem_of_app in Hnf. split; [done|tauto| |done].
  intros j Hj. destruct (Hn _ _ Hj) as [?|(?&?&?&?)]; [by eapply HnT|tauto].
Qed.

Lemma aside_insert fl T L p r va pte : aside fl T L p → L !! (r, va) = None → PTE2PA pte ≠ p →
  aside fl T (<[(r, va) := pte]> L) p.
Proof.
  intros [Hok Hnf HnT Hnr] HL Hne. split; try done. rewrite urefs_insert, Hnr by done.
  unfold ref1. rewrite decide_False; [done|]. by intros [_ E].
Qed.

Definition cow_perm : Z := Z.lor (Z.lor PTE_R PTE_U) PTE_COW.

(** Boot, an address space, a trap frame page; then a copy-on-write page at 0;
    then every page taken. *)
Definition demo_as : M kst (Z * Z) := kinit;; r ← uvmcreate; tf ← kalloc; mret (r, tf).
Definition demo_cow : M kst (Z * Z * Z * Z * bool) :=
  '(r, tf) ← demo_as;
  m ← kalloc;
  x ← mappages r 0 PGSIZE m cow_perm;
  f ← gets freelist;
  mret (r, tf, m, x, f =? 0).
Definition demo_full : M kst (Z * Z * Z * Z * bool) :=
  '(r, tf, m, x, _) ← demo_cow;
  kalloc;; kalloc;; kalloc;;
  f ← gets freelist;
  mret (r, tf, m, x, f =? 0).

Lemma demo_as_ok r tf k : demo_as (boot_state (λ _, x00)) = Ok (r, tf) k → tf ≠ 0 → r ≠ 0 →
  ∃ fl, vm_inv k fl (<[(r, []) := r]> ∅) ∅ ∧ aside fl (<[(r, []) := r]> ∅) ∅ tf.
Proof.
  unfold demo_as, mbind, M_bind, mret, M_ret. destruct (kinit_inv (λ _, x00)) as (s0 & -> & Ha0).
  pose proof (vm_inv_empty _ _ Ha0) as Hv0.
  destruct (uvmcreate_spec _ _ _ _ Hv0) as [(_ & s1 & -> & Hv1)|(q & fl1 & s1 & Hfl & -> & Hq & HqT & Hv1 & _)].
  { destruct (kalloc s1) as [a s2| | | |]; try done. intros [= <- _ _]. done. }
  destruct fl1 as [|p fl1].
  { destruct (pt_alloc_empty s1 _ _ 0 (vi_pt _ _ _ _ Hv1)) as (s2 & -> & _). intros [= <- <- _]. done. }
  destruct (kalloc_vm _ _ _ _ _ Hv1) as (s2 & -> & Hv2 & Ho & _). intros [= <- <- <-] _ _.
  exists fl1. split; [done|by eapply aside_of_owned].
Qed.

Lemma fl_empty k fl T L : vm_inv k fl T L → (freelist k =? 0) = true → fl = [].
Proof.
  intros [Hi _] Hf. pose proof (ki_rep _ _ _ (pi_alloc _ _ _ _ Hi)) as Hr. destruct fl as [|p fl]; [done|].
  destruct Hr as [Hp _]. pose proof (ki_ok _ _ _ (pi_alloc _ _ _ _ Hi)) as Hok. inversion Hok as [|?? [Hpok _]]; subst.
  apply page_ok_range in Hpok. lia.
Qed.

Lemma fl_cons k fl T L : vm_inv k fl T L → (freelist k =? 0) = false → ∃ m fl', fl = m :: fl'.
Proof.
  intros [Hi _] Hf. pose proof (ki_rep _ _ _ (pi_alloc _ _ _ _ Hi)) as Hr. destruct fl as [|p fl]; [|by eauto].
  simpl in Hr. lia.
Qed.

Definition demo_cow_post (r tf : Z) (k : kst) (fl : list Z) : Prop :=
  ∃ T L pte, vm_inv k fl T L ∧ T !! (r, []) = Some r ∧ aside fl T L tf ∧ L !! (r, 0) = Some pte ∧ band pte PTE_COW = true.

Lemma demo_cow_ok r tf m e k : demo_cow (boot_state (λ _, x00)) = Ok (r, tf, m, 0, e) k → tf ≠ 0 → r ≠ 0 → m ≠ 0 →
  ∃ fl, demo_cow_post r tf k fl ∧ e = (freelist k =? 0).
Proof.
  unfold demo_cow, mbind, M_bind, mret, M_ret, gets. destruct (demo_as _) as [[r' tf'] k0| | | |] eqn:E; try done.
  intros Hrun Htf Hr Hm.
  assert (r' = r ∧ tf' = tf) as [-> ->].
  { repeat (case_match; try discriminate Hrun). injection Hrun. auto. }
  destruct (demo_as_ok r tf k0 E Htf Hr) as (fl & Hv & Ha). destruct fl as [|m' fl].
  { destruct (pt_alloc_empty k0 _ _ 0 (vi_pt _ _ _ _ Hv)) as (k1 & Hk & _). rewrite Hk in Hrun.
    case_match; try discriminate Hrun. injection Hrun. congruence. }
  destruct (kalloc_vm _ _ _ _ _ Hv) as (k1 & Hk & Hv1 & Ho & _). rewrite Hk in Hrun. apply aside_tail in Ha as Ha1.
  assert (m' ≠ tf) as Hne by (pose proof (as_nfree _ _ _ _ Ha); set_solver).
  destruct (map_owned k1 fl (<[(r, []) := r]> ∅) ∅ r 0 m' cow_perm) as (res & k2 & fl2 & T2 & new & Hmp & Hg & Hres);
    [done|done|apply lookup_insert_eq|by vm_compute|done|done|done|done|].
  rewrite Hmp in Hrun. injection Hrun as <- -> <- <-. destruct Hres as [[_ Hv2]|[? _]]; [|done].
  exists fl2. split; [|done]. eexists T2, _, _. pose proof (page_ok_pa_ok _ (ow_ok _ _ _ _ _ Ho)).
  assert (0 ≤ cow_perm < 1024) by done.
  split; [exact Hv2|]. split; [eapply lookup_weaken; [apply lookup_insert_eq|apply Hg]|].
  split; [|split; [apply lookup_insert_eq|by rewrite mk_pte_band by (done || flag_bounds)]].
  apply aside_insert; [by eapply aside_grow|done|by rewrite mk_pte_PA].
Qed.

(** Taking a page keeps the address space. *)
Lemma demo_take r tf k fl a k' : demo_cow_post r tf k fl → kalloc k = Ok a k' → ∃ fl', demo_cow_post r tf k' fl'.
Proof.
  intros (T & L & pte & Hv & HT & Ha & HL & Hc) Hk. destruct fl as [|m fl].
  - destruct (pt_alloc_empty k _ _ 0 (vi_pt _ _ _ _ Hv)) as (k1 & Hk1 & Hi1 & Hg). rewrite Hk in Hk1. injection Hk1 as -> <-.
    exists [], T, L, pte. split; [eapply vm_inv_grow; [exact Hv|exact Hi1|exact Hg]|done].
  - destruct (kalloc_vm _ _ _ _ _ Hv) as (k1 & Hk1 & Hv1 & _). rewrite Hk in Hk1. injection Hk1 as -> <-.
    exists fl, T, L, pte. split; [done|]. split; [done|]. split; [by eapply aside_tail|done].
Qed.

Lemma demo_full_ok r tf m k : demo_full (boot_state (λ _, x00)) = Ok (r, tf, m, 0, true) k → tf ≠ 0 → r ≠ 0 → m ≠ 0 →
  demo_cow_post r tf k [].
Proof.
  unfold demo_full. unfold mbind at 1, M_bind at 1. destruct (demo_cow _) as [[[[[r' tf'] m'] x] e] k0| | | |] eqn:E; try done.
  unfold mbind, M_bind, mret, M_ret, gets. intros Hrun Htf Hr Hm.
  destruct (kalloc k0) as [a1 k1| | | |] eqn:E1; try done. destruct (kalloc k1) as [a2 k2| | | |] eqn:E2; try done.
  destruct (kalloc k2) as [a3 k3| | | |] eqn:E3; try done. injection Hrun as -> -> -> -> He <-.
  destruct (demo_cow_ok r tf m e k0 E Htf Hr Hm) as (fl & Hpost & _).
  eapply demo_take in Hpost as (fl1 & Hpost); [|exact E1]. eapply demo_take in Hpost as (fl2 & Hpost); [|exact E2].
  eapply demo_take in Hpost as (fl3 & Hpost); [|exact E3].
  pose proof Hpost as (T & L & pte & Hv & _). by rewrite (fl_empty _ _ _ _ Hv He) in Hpost.
Qed.

End demo.

#[local] Existing Instance demo_image.
#[local] Existing Instance demo_fs.
#[local] Existing Instance demo_text.

(** No device ever interrupts. *)
#[local] Instance demo_devices : Devices unit := {
  plic_claim _ := mret 0;
  plic_complete _ _ := mret ();
  uartintr _ := mret ();
  virtio_disk_intr _ := mret ();
}.

(** Process 1 of the demo table, in address space [r], has stored at [va]. *)
Definition trap_proc (r tf : Z) : proc := set_trapframe tf (set_pagetable r (nth 1 (demo_table RUNNABLE) blank_proc)).
Definition trap_state (k : kst) (r tf va : Z) : tst unit :=
  mk_tst (mk_pst k (<[1%nat := trap_proc r tf]> (demo_table RUNNABLE)) 4 (Some 0%nat) false () (mk_cpu 0 false false) [])
    0 (mk_csrs 0 15 0x100 va 0 0 0 0).

Lemma trap_state_thr k r tf va : thr false 0 [] (pstate (trap_state k r tf va)).
Proof. by repeat split. Qed.

(** Runs [c] and keeps its value and its final state. *)
Lemma run_value {A} (c : M kst A) k v : (match c k with Ok a _ => a = v | _ => False end) → ∃ k', c k = Ok v k'.
Proof. destruct (c k) as [a k'| | | |]; try done. intros ->. by exists k'. Qed.

Lemma va_small : 0 ≤ 8 < MAXVA ∧ 0 ≤ 0x40000000 < MAXVA.
Proof. done. Qed.
Lemma pg_small : pg 8 < TRAPFRAME.
Proof. done. Qed.
Lemma epc_small : 0 ≤ 0x100 < 2 ^ 64.
Proof. done. Qed.

Lemma usertrap_cow_witness :
  ∃ k r tf T L fl pte, let s := trap_state k r tf 8 in let p := trap_proc r tf in
    vm_inv (kmem s) fl T L ∧ L !! (pagetable p, pg 8) = Some pte ∧
    wp (usertrap (λ _ _, None) 1) s (λ v s', v = MAKE_SATP (pagetable p) ∧ sepc (csr s') = sepc (csr s) ∧
      procs (pstate s') = procs (pstate s) ∧ ∃ fl' pte',
        vm_inv (kmem s') fl' T (<[(pagetable p, pg 8) := pte']> L) ∧
        band pte' PTE_W = true ∧ band pte' PTE_COW = false ∧ band pte' PTE_U = band pte PTE_U ∧
        ∀ r' va', view (kmem s') (<[(pagetable p, pg 8) := pte']> L) r' va' = view (kmem s) L r' va').
Proof.
  destruct (run_value demo_cow (boot_state (λ _, x00)) (0x87fff000, 0x87ffe000, 0x87ffd000, 0, false)) as [k Hk];
    [vm_compute; reflexivity|].
  destruct (demo_cow_ok _ _ _ _ _ Hk) as (fl & (T & L & pte & Hv & HT & Ha & HL & Hc) & He); [lia..|].
  symmetry in He. destruct (fl_cons _ _ _ _ Hv He) as (m & fl' & ->).
  exists k, 0x87fff000, 0x87ffe000, T, L, (m :: fl'), pte. intros s p. split; [exact Hv|]. split; [exact HL|].
  exact (usertrap_cow (λ _ _, None) false s 1 p m fl' T L 8 pte eq_refl eq_refl eq_refl (proj1 va_small)
    (epc_small : 0 ≤ sepc (csr s) < 2 ^ 64) (trap_state_thr k 0x87fff000 0x87ffe000 8) eq_refl eq_refl Hv HT Ha HL Hc pg_small).
Defined.

Lemma usertrap_null_pte_witness :
  ∃ k, usertrap (λ _ _, None) 1 (trap_state k 0x87fff000 0x87ffe000 0x40000000) = Fault 0.
Proof.
  destruct (run_value demo_as (boot_state (λ _, x00)) (0x87fff000, 0x87ffe000)) as [k Hk]; [vm_compute; reflexivity|].
  destruct (demo_as_ok _ _ _ Hk) as (fl & Hv & Ha); [lia..|]. exists k.
  apply (usertrap_null_pte (λ _ _, None) (trap_state k 0x87fff000 0x87ffe000 0x40000000) 1
    (trap_proc 0x87fff000 0x87ffe000) fl (<[(0x87fff000, []) := 0x87fff000]> ∅) ∅ 0x40000000);
    [reflexivity|reflexivity|reflexivity|exact (proj2 va_small)|reflexivity|exact Hv|apply lookup_insert_eq|exact Ha|].
  rewrite lookup_insert_ne; [apply lookup_empty|discriminate].
Defined.

Lemma usertrap_no_memory_witness :
  ∃ k, usertrap (λ _ _, None) 1 (trap_state k 0x87fff000 0x87ffe000 8) = Fault 0.
Proof.
  destruct (run_value demo_full (boot_state (λ _, x00)) (0x87fff000, 0x87ffe000, 0x87ffd000, 0, true)) as [k Hk];
    [vm_compute; reflexivity|].
  destruct (demo_full_ok _ _ _ _ Hk) as (T & L & pte & Hv & HT & Ha & HL & Hc); [lia..|]. exists k.
  apply (usertrap_no_memory (λ _ _, None) false (trap_state k 0x87fff000 0x87ffe000 8) 1
    (trap_proc 0x87fff000 0x87ffe000) T L 8 pte);
    [reflexivity|reflexivity|reflexivity|exact (proj1 va_small)|apply trap_state_thr|reflexivity|
     exact Hv|exact HT|exact Ha|exact HL|exact Hc|exact pg_small].
Defined.

Lemma argstr_correct_witness :
  ∃ k L len buf, let s := trap_state k 0x87fff000 0x87ffe000 8 in argstr 1 0 16 s = Ok (len, buf) s ∧
    (∀ i, (i < length buf)%nat → view (kmem s) L 0x87fff000 (0 + Z.of_nat i) = buf !! i) ∧
    ((0 ≤ len < 16 ∧ ∃ body, buf = body ++ [x00] ∧ (x00 ∉ body) ∧ Z.of_nat (length body) = len) ∨
     (len = -1 ∧ (x00 ∉ buf) ∧ (Z.of_nat (length buf) = 16 ∨ readable L 0x87fff000 (0 + Z.of_nat (length buf)) = false))).
Proof.
  destruct (run_value demo_cow (boot_state (λ _, x00)) (0x87fff000, 0x87ffe000, 0x87ffd000, 0, false)) as [k Hk];
    [vm_compute; reflexivity|].
  destruct (demo_cow_ok _ _ _ _ _ Hk) as (fl & (T & L & pte & Hv & HT & Ha & HL & Hc) & He); [lia..|]. clear Hk.
  destruct (tf_store k fl T L 0x87ffe000 14 0) as (k' & _ & Hv' & _ & _ & Hld & _); [exact Hv|exact Ha|lia|].
  exists k', L.
  destruct (argstr_correct (trap_state k' 0x87fff000 0x87ffe000 8) 1 (trap_proc 0x87fff000 0x87ffe000) 0 16 fl T L 0)
    as (len & buf & Hrun & Hres); [exact Hv'|exact HT|reflexivity|lia|apply Hld; lia|lia|lia|].
  exists len, buf. split; [exact Hrun|exact Hres].
Defined.
