(* ===== verification/Bio.v ===== *)
(** * The buffer cache, [kernel/bio.c]

    The array of buffers, the doubly linked list through them that orders them
    by use, kept as the pointers the source keeps, and the disk.  A pointer to
    [bcache.buf[i]] is the index [i], and a pointer to [bcache.head] is [HEAD].
    A run is that of one kernel thread, the process with pid [me]: a sleep lock
    it finds taken ends the run in [Sleep] on the lock, and a wakeup it does is
    noted in [wakeups].  The spin locks that the thread holds in the storage
    stack are in [bheld]: [bcache.lock], those of the log and of the inode table,
    and the ones inside the sleep locks.  Taking one twice and giving back one
    that is not held panic, as [acquire] and [release] do.  The disk transfers
    whole blocks; [writes] remembers the order of the writes, which is what a
    crash can cut short. *)

From S2P Require Import Prelude Riscv Mem CString.

Definition BSIZE : Z := 1024.

(** [struct buf]; [b_lock] is the pid that holds its sleep lock. *)
Record buf := mk_buf {
  b_valid : bool;
  b_dev : Z;
  b_blockno : Z;
  b_lock : option Z;
  b_refcnt : Z;
  b_prev : nat;
  b_next : nat;
  b_data : list byte;
}.

Record bst := mk_bst {
  bufs : list buf;
  head_prev : nat;
  head_next : nat;
  disk : Z → list byte;
  writes : list (Z * list byte);
  me : Z;
  wakeups : list Z;
  bheld : list Z;
}.

Definition nbuf : nat := Z.to_nat NBUF.
Definition HEAD : nat := nbuf.

Definition bset_valid v (b : buf) := mk_buf v (b_dev b) (b_blockno b) (b_lock b) (b_refcnt b) (b_prev b) (b_next b) (b_data b).
Definition bset_id d n (b : buf) := mk_buf (b_valid b) d n (b_lock b) (b_refcnt b) (b_prev b) (b_next b) (b_data b).
Definition bset_lock v (b : buf) := mk_buf (b_valid b) (b_dev b) (b_blockno b) v (b_refcnt b) (b_prev b) (b_next b) (b_data b).
Definition bset_refcnt v (b : buf) := mk_buf (b_valid b) (b_dev b) (b_blockno b) (b_lock b) v (b_prev b) (b_next b) (b_data b).
Definition bset_prev v (b : buf) := mk_buf (b_valid b) (b_dev b) (b_blockno b) (b_lock b) (b_refcnt b) v (b_next b) (b_data b).
Definition bset_next v (b : buf) := mk_buf (b_valid b) (b_dev b) (b_blockno b) (b_lock b) (b_refcnt b) (b_prev b) v (b_data b).
Definition bset_data v (b : buf) := mk_buf (b_valid b) (b_dev b) (b_blockno b) (b_lock b) (b_refcnt b) (b_prev b) (b_next b) v.

Definition set_bufs l (s : bst) := mk_bst l (head_prev s) (head_next s) (disk s) (writes s) (me s) (wakeups s) (bheld s).
Definition set_head_prev v (s : bst) := mk_bst (bufs s) v (head_next s) (disk s) (writes s) (me s) (wakeups s) (bheld s).
Definition set_head_next v (s : bst) := mk_bst (bufs s) (head_prev s) v (disk s) (writes s) (me s) (wakeups s) (bheld s).

Definition set_wakeups l (s : bst) := mk_bst (bufs s) (head_prev s) (head_next s) (disk s) (writes s) (me s) l (bheld s).

Definition set_bheld l (s : bst) := mk_bst (bufs s) (head_prev s) (head_next s) (disk s) (writes s) (me s) (wakeups s) l.

(** [acquire] and [release] of a spin lock of the storage stack, as far as the
    lock goes: the interrupt nesting of a CPU ([push_off], [pop_off]) is in the
    state of [Proc], where [fscall] takes what a call still holds with
    [Proc.acquire]. *)
Definition slock (l : Z) : M bst unit :=
  h ← gets bheld;
  if decide (l ∈ h) then panic "acquire" else modify (set_bheld (l :: h)).
Definition sunlock (l : Z) : M bst unit :=
  h ← gets bheld;
  if decide (l ∈ h) then modify (set_bheld (filter (λ x, x ≠ l) h)) else panic "release".

(** [&bcache.lock]. *)
Definition bcache_lock : Z := 11.

(** [wakeup(ch)]. *)
Definition notify (ch : Z) : M bst unit := modify (λ s, set_wakeups (wakeups s ++ [ch]) s).

Definition get_buf (i : nat) : M bst buf := λ s,
  match bufs s !! i with Some b => Ok b s | None => Fault (Z.of_nat i) end.
Definition upd_buf (i : nat) (f : buf → buf) : M bst unit := modify (λ s, set_bufs (alter f i (bufs s)) s).

(** [p->next], [p->prev] and assignments to them, [p] a buffer or the head. *)
Definition get_next (i : nat) : M bst nat :=
  if (i =? HEAD)%nat then gets head_next else b ← get_buf i; mret (b_next b).
Definition get_prev (i : nat) : M bst nat :=
  if (i =? HEAD)%nat then gets head_prev else b ← get_buf i; mret (b_prev b).
Definition put_next (i v : nat) : M bst unit :=
  if (i =? HEAD)%nat then modify (set_head_next v) else upd_buf i (bset_next v).
Definition put_prev (i v : nat) : M bst unit :=
  if (i =? HEAD)%nat then modify (set_head_prev v) else upd_buf i (bset_prev v).

(** Lines 46-50 and 130-133: linking a buffer in after the head. *)
Definition link_head (b : nat) : M bst unit :=
  n ← get_next HEAD;
  put_next b n;;
  put_prev b HEAD;;
  n ← get_next HEAD;
  put_prev n b;;
  put_next HEAD b.

(** Lines 128-129: taking a buffer out of the list. *)
Definition list_del (b : nat) : M bst unit :=
  n ← get_next b;
  p ← get_prev b;
  put_prev n p;;
  n ← get_next b;
  p ← get_prev b;
  put_next p n.

Fixpoint binit_loop (n b : nat) : M bst unit :=
  match n with
  | O => mret ()
  | S n => link_head b;; binit_loop n (S b)
  end.

Definition binit : M bst unit :=
  put_prev HEAD HEAD;;
  put_next HEAD HEAD;;
  binit_loop nbuf 0.

(** The sleep lock of a buffer: [acquiresleep], [holdingsleep], [releasesleep].
    Its spin lock has the number of the channel; the sleeper has it when it goes
    to sleep, which gives it up. *)
Definition chan_buf (i : nat) : Z := 4000 + Z.of_nat i.
Definition buf_acquire (i : nat) : M bst unit :=
  slock (chan_buf i);;
  b ← get_buf i;
  match b_lock b with
  | Some _ => sleep_on (chan_buf i)
  | None => p ← gets me; upd_buf i (bset_lock (Some p));; sunlock (chan_buf i)
  end.
Definition buf_holding (i : nat) : M bst bool :=
  slock (chan_buf i);;
  b ← get_buf i;
  p ← gets me;
  sunlock (chan_buf i);;
  mret (bool_decide (b_lock b = Some p)).
Definition buf_release (i : nat) : M bst unit :=
  slock (chan_buf i);;
  upd_buf i (bset_lock None);;
  notify (chan_buf i);;
  sunlock (chan_buf i).

(** The two scans of [bget]. *)
Fixpoint bget_cached (fuel : nat) (b : nat) (d n : Z) : M bst (option nat) :=
  match fuel with
  | O => no_fuel
  | S fuel =>
      if (b =? HEAD)%nat then mret None
      else
        x ← get_buf b;
        if (b_dev x =? d) && (b_blockno x =? n) then mret (Some b)
        else b ← get_next b; bget_cached fuel b d n
  end.

Fixpoint bget_unused (fuel : nat) (b : nat) : M bst (option nat) :=
  match fuel with
  | O => no_fuel
  | S fuel =>
      if (b =? HEAD)%nat then mret None
      else
        x ← get_buf b;
        if b_refcnt x =? 0 then mret (Some b)
        else b ← get_prev b; bget_unused fuel b
  end.

Definition bget (d n : Z) : M bst nat :=
  slock bcache_lock;;
  b ← get_next HEAD;
  r ← bget_cached (S nbuf) b d n;
  match r with
  | Some b =>
      upd_buf b (λ x, bset_refcnt (u32 (b_refcnt x + 1)) x);;
      sunlock bcache_lock;;
      buf_acquire b;;
      mret b
  | None =>
      b ← get_prev HEAD;
      r ← bget_unused (S nbuf) b;
      match r with
      | Some b =>
          upd_buf b (λ x, bset_refcnt 1 (bset_valid false (bset_id d n x)));;
          sunlock bcache_lock;;
          buf_acquire b;;
          mret b
      | None => panic "bget: no buffers"
      end
  end.

(** What the driver's [virtio_disk_rw] does to the buffer and the disk. *)
Definition virtio_disk_rw (i : nat) (write : bool) : M bst unit :=
  b ← get_buf i;
  if write then
    modify (λ s, mk_bst (bufs s) (head_prev s) (head_next s)
      (λ n, if n =? b_blockno b then b_data b else disk s n) (writes s ++ [(b_blockno b, b_data b)]) (me s) (wakeups s) (bheld s))
  else
    d ← gets disk;
    upd_buf i (bset_data (d (b_blockno b))).

Definition bread (d n : Z) : M bst nat :=
  i ← bget d n;
  b ← get_buf i;
  (if b_valid b then mret ()
   else virtio_disk_rw i false;; upd_buf i (bset_valid true));;
  mret i.

Definition bwrite (i : nat) : M bst unit :=
  h ← buf_holding i;
  if negb h then panic "bwrite" else virtio_disk_rw i true.

Definition brelse (i : nat) : M bst unit :=
  h ← buf_holding i;
  if negb h then panic "brelse"
  else
    buf_release i;;
    slock bcache_lock;;
    upd_buf i (λ x, bset_refcnt (u32 (b_refcnt x - 1)) x);;
    b ← get_buf i;
    (if b_refcnt b =? 0 then
       list_del i;;
       link_head i
     else mret ());;
    sunlock bcache_lock.

Definition bpin (i : nat) : M bst unit :=
  slock bcache_lock;;
  upd_buf i (λ x, bset_refcnt (u32 (b_refcnt x + 1)) x);;
  sunlock bcache_lock.
Definition bunpin (i : nat) : M bst unit :=
  slock bcache_lock;;
  upd_buf i (λ x, bset_refcnt (u32 (b_refcnt x - 1)) x);;
  sunlock bcache_lock.
