(* ===== verification/Virtio.v ===== *)
(** * The virtio disk driver, [kernel/virtio_disk.c]

    The driver's book-keeping and the memory it shares with the device: the
    descriptor table, the avail ring and the used ring, kept as the structures
    of [kernel/virtio.h] with indices at their 16-bit width.  A pointer the
    driver stores in a descriptor is one of the four kinds of address it uses
    ([dma]).  Buffers are indices of [bcache.buf], as in [Bio].

    [virtio_disk_rw] gives up the processor in two places.  It is cut there,
    and where [avail->idx] is incremented, since from then on the device may
    act on the request; [rw_alloc], [rw_publish] and [rw_resume] are the pieces, and
    [phases] says which piece each process runs next.  [virtio_disk_intr] is
    cut before, between and after the iterations of its loop.  [vdisk_lock] is
    a field, because the device runs while the driver holds it.

    [virtio_disk_init] is at the end, over the device's registers. *)

From S2P Require Import Prelude Riscv Mem Kalloc Bio.

Definition NUM : Z := 8.
Definition num : nat := Z.to_nat NUM.

Definition VRING_DESC_F_NEXT : Z := 1.
Definition VRING_DESC_F_WRITE : Z := 2.
Definition VIRTIO_BLK_T_IN : Z := 0.
Definition VIRTIO_BLK_T_OUT : Z := 1.

(** The addresses given to the device: null, [&disk.ops[i]], [b->data] and
    [&disk.info[i].status]. *)
Inductive dma := ANull | AOps (i : Z) | AData (b : nat) | AStatus (i : Z).

Record virtq_desc := mk_desc { d_addr : dma; d_len : Z; d_flags : Z; d_next : Z }.
Record virtio_blk_req := mk_req { rq_type : Z; rq_reserved : Z; rq_sector : Z }.
(** [disk.info[i]]. *)
Record dinfo := mk_info { i_b : option nat; i_status : Z }.
(** The fields of [struct buf] the driver uses. *)
Record vbuf := mk_vbuf { v_disk : Z; v_blockno : Z; v_data : list byte }.

(** Where a process is in [virtio_disk_rw(b, write)]. *)
Inductive phase :=
| PAlloc (b : nat) (write : bool)
| PFilled (b : nat) (write : bool) (i0 i1 i2 : Z)
| PWait (b : nat) (write : bool) (i0 i1 i2 : Z).

(** Who holds [vdisk_lock]: a process, or the interrupt handler, in its loop
    or past it. *)
Inductive holder := HProc (p : nat) | HIntr | HIntrEnd.

(** What the device keeps to itself: how far it has read the avail ring, the
    requests it has taken and not finished, the sectors, its interrupt status
    register, and whether it has been notified of a queue. *)
Record device := mk_dev {
  dv_avail : Z;
  dv_taken : list Z;
  dv_sectors : Z → list byte;
  dv_isr : Z;
  dv_kicked : bool;
}.

Record vst := mk_vst {
  desc : list virtq_desc;
  avail_idx : Z;
  avail_ring : list Z;
  used_idx_dev : Z;           (* [disk.used->idx] *)
  used_ring : list (Z * Z);   (* id and len *)
  dfree : list bool;          (* [disk.free] *)
  used_idx : Z;               (* [disk.used_idx] *)
  info : list dinfo;
  ops : list virtio_blk_req;
  vlock : option holder;
  vbufs : list vbuf;
  phases : gmap nat phase;
  asleep_on : gmap nat Z;
  dvc : device;
}.

Definition set_desc x s := mk_vst x (avail_idx s) (avail_ring s) (used_idx_dev s) (used_ring s) (dfree s) (used_idx s) (info s) (ops s) (vlock s) (vbufs s) (phases s) (asleep_on s) (dvc s).
Definition set_avail i r s := mk_vst (desc s) i r (used_idx_dev s) (used_ring s) (dfree s) (used_idx s) (info s) (ops s) (vlock s) (vbufs s) (phases s) (asleep_on s) (dvc s).
Definition set_used i r s := mk_vst (desc s) (avail_idx s) (avail_ring s) i r (dfree s) (used_idx s) (info s) (ops s) (vlock s) (vbufs s) (phases s) (asleep_on s) (dvc s).
Definition set_dfree x s := mk_vst (desc s) (avail_idx s) (avail_ring s) (used_idx_dev s) (used_ring s) x (used_idx s) (info s) (ops s) (vlock s) (vbufs s) (phases s) (asleep_on s) (dvc s).
Definition set_used_idx x s := mk_vst (desc s) (avail_idx s) (avail_ring s) (used_idx_dev s) (used_ring s) (dfree s) x (info s) (ops s) (vlock s) (vbufs s) (phases s) (asleep_on s) (dvc s).
Definition set_info x s := mk_vst (desc s) (avail_idx s) (avail_ring s) (used_idx_dev s) (used_ring s) (dfree s) (used_idx s) x (ops s) (vlock s) (vbufs s) (phases s) (asleep_on s) (dvc s).
Definition set_ops x s := mk_vst (desc s) (avail_idx s) (avail_ring s) (used_idx_dev s) (used_ring s) (dfree s) (used_idx s) (info s) x (vlock s) (vbufs s) (phases s) (asleep_on s) (dvc s).
Definition set_vlock x s := mk_vst (desc s) (avail_idx s) (avail_ring s) (used_idx_dev s) (used_ring s) (dfree s) (used_idx s) (info s) (ops s) x (vbufs s) (phases s) (asleep_on s) (dvc s).
Definition set_vbufs x s := mk_vst (desc s) (avail_idx s) (avail_ring s) (used_idx_dev s) (used_ring s) (dfree s) (used_idx s) (info s) (ops s) (vlock s) x (phases s) (asleep_on s) (dvc s).
Definition set_phases x s := mk_vst (desc s) (avail_idx s) (avail_ring s) (used_idx_dev s) (used_ring s) (dfree s) (used_idx s) (info s) (ops s) (vlock s) (vbufs s) x (asleep_on s) (dvc s).
Definition set_asleep x s := mk_vst (desc s) (avail_idx s) (avail_ring s) (used_idx_dev s) (used_ring s) (dfree s) (used_idx s) (info s) (ops s) (vlock s) (vbufs s) (phases s) x (dvc s).
Definition set_dvc x s := mk_vst (desc s) (avail_idx s) (avail_ring s) (used_idx_dev s) (used_ring s) (dfree s) (used_idx s) (info s) (ops s) (vlock s) (vbufs s) (phases s) (asleep_on s) x.

(** Array accesses; one outside the array is a fault. *)
Definition rd {A} (get : vst → list A) (i : Z) : M vst A := λ s,
  if i <? 0 then Fault i
  else match get s !! Z.to_nat i with Some x => Ok x s | None => Fault i end.
Definition wr {A} (get : vst → list A) (set : list A → vst → vst) (i : Z) (f : A → A) : M vst unit :=
  rd get i;;
  modify (λ s, set (alter f (Z.to_nat i) (get s)) s).

(** [wakeup(&disk.free[0])] and [wakeup(b)]; [sleep] with [vdisk_lock]. *)
Definition chan_free : Z := 5000.
Definition chan_io (b : nat) : Z := 6000 + Z.of_nat b.
Definition vwakeup (ch : Z) : M vst unit :=
  modify (λ s, set_asleep (filter (λ kv, kv.2 ≠ ch) (asleep_on s)) s).
Definition vsleep (p : nat) (ch : Z) : M vst unit :=
  modify (λ s, set_vlock None (set_asleep (<[p := ch]> (asleep_on s)) s)).

Definition set_phase (p : nat) (ph : option phase) : M vst unit :=
  modify (λ s, set_phases (partial_alter (λ _, ph) p (phases s)) s).

(** ** Descriptors *)

Fixpoint alloc_desc_loop (n : nat) (i : Z) : M vst Z :=
  match n with
  | O => mret (-1)
  | S n =>
      f ← rd dfree i;
      if f : bool then wr dfree set_dfree i (λ _, false);; mret i
      else alloc_desc_loop n (i + 1)
  end.
Definition alloc_desc : M vst Z := alloc_desc_loop num 0.

Definition free_desc (i : Z) : M vst unit :=
  if i >=? NUM then panic "free_desc 1"
  else
    f ← rd dfree i;
    if f : bool then panic "free_desc 2"
    else
      wr desc set_desc i (λ _, mk_desc ANull 0 0 0);;
      wr dfree set_dfree i (λ _, true);;
      vwakeup chan_free.

(** A chain has at most [NUM] descriptors. *)
Fixpoint free_chain_loop (fuel : nat) (i : Z) : M vst unit :=
  match fuel with
  | O => no_fuel
  | S fuel =>
      d ← rd desc i;
      free_desc i;;
      if band (d_flags d) VRING_DESC_F_NEXT then free_chain_loop fuel (d_next d) else mret ()
  end.
Definition free_chain (i : Z) : M vst unit := free_chain_loop num i.

Fixpoint free_descs (l : list Z) : M vst unit :=
  match l with
  | [] => mret ()
  | i :: l => free_desc i;; free_descs l
  end.

Fixpoint alloc3_desc_loop (n : nat) (idx : list Z) : M vst (option (list Z)) :=
  match n with
  | O => mret (Some idx)
  | S n =>
      i ← alloc_desc;
      if i <? 0 then free_descs idx;; mret None
      else alloc3_desc_loop n (idx ++ [i])
  end.
Definition alloc3_desc : M vst (option (list Z)) := alloc3_desc_loop 3 [].

(** ** Registers used while the driver runs

    A write to [QUEUE_NOTIFY] tells the device to look at the avail ring; a
    write to [INTERRUPT_ACK] clears the bits written in [INTERRUPT_STATUS]. *)

Definition queue_notify : M vst unit :=
  modify (λ s, let d := dvc s in
    set_dvc (mk_dev (dv_avail d) (dv_taken d) (dv_sectors d) (dv_isr d) true) s).
Definition interrupt_status : M vst Z := gets (λ s, dv_isr (dvc s)).
Definition interrupt_ack (v : Z) : M vst unit :=
  modify (λ s, let d := dvc s in
    set_dvc (mk_dev (dv_avail d) (dv_taken d) (dv_sectors d) (Z.ldiff (dv_isr d) v) (dv_kicked d)) s).

(** ** [virtio_disk_rw] *)

(** [b->blockno * (BSIZE / 512)], an unsigned 32-bit product. *)
Definition sector_of (blockno : Z) : Z := u32 (blockno * (BSIZE / 512)).

Definition sizeof_virtio_blk_req : Z := 16.

(** Lines 238-269: the three descriptors and the book-keeping of a request. *)
Definition rw_format (b : nat) (write : bool) (i0 i1 i2 : Z) : M vst unit :=
  x ← rd vbufs (Z.of_nat b);
  wr ops set_ops i0 (λ _, mk_req (if write then VIRTIO_BLK_T_OUT else VIRTIO_BLK_T_IN) 0 (sector_of (v_blockno x)));;
  wr desc set_desc i0 (λ _, mk_desc (AOps i0) sizeof_virtio_blk_req VRING_DESC_F_NEXT i1);;
  wr desc set_desc i1 (λ _, mk_desc (AData b) BSIZE (Z.lor (if write then 0 else VRING_DESC_F_WRITE) VRING_DESC_F_NEXT) i2);;
  wr info set_info i0 (λ x, mk_info (i_b x) 0xff);;
  wr desc set_desc i2 (λ _, mk_desc (AStatus i0) 1 VRING_DESC_F_WRITE 0);;
  wr vbufs set_vbufs (Z.of_nat b) (λ x, mk_vbuf 1 (v_blockno x) (v_data x));;
  wr info set_info i0 (λ x, mk_info (Some b) (i_status x)).

(** Line 272: [disk.avail->ring[disk.avail->idx % NUM] = idx[0]]. *)
Definition rw_ring (i0 : Z) : M vst unit :=
  i ← gets avail_idx;
  wr avail_ring (λ r s, set_avail (avail_idx s) r s) (i mod NUM) (λ _, u16 i0).

(** From the entry, and from the return of the first [sleep], with the lock
    taken, to the writes before the first barrier. *)
Definition rw_alloc (p : nat) (b : nat) (write : bool) : M vst unit :=
  modify (set_vlock (Some (HProc p)));;
  r ← alloc3_desc;
  match r with
  | Some [i0; i1; i2] =>
      rw_format b write i0 i1 i2;;
      rw_ring i0;;
      set_phase p (Some (PFilled b write i0 i1 i2))
  | _ => vsleep p chan_free
  end.

(** The loop that waits for the request, and the end of the function. *)
Definition rw_wait (p : nat) (b : nat) (i0 : Z) : M vst unit :=
  x ← rd vbufs (Z.of_nat b);
  if v_disk x =? 1 then vsleep p (chan_io b)
  else
    wr info set_info i0 (λ x, mk_info None (i_status x));;
    free_chain i0;;
    modify (set_vlock None);;
    set_phase p None.

(** The increment of [avail->idx], the notification, and the first test of the
    waiting loop. *)
Definition rw_publish (p : nat) (b : nat) (write : bool) (i0 i1 i2 : Z) : M vst unit :=
  modify (λ s, set_avail (u16 (avail_idx s + 1)) (avail_ring s) s);;
  queue_notify;;
  set_phase p (Some (PWait b write i0 i1 i2));;
  rw_wait p b i0.

(** After the second [sleep] has returned, with the lock taken. *)
Definition rw_resume (p : nat) (b : nat) (i0 : Z) : M vst unit :=
  modify (set_vlock (Some (HProc p)));;
  rw_wait p b i0.

(** ** [virtio_disk_intr] *)

Definition intr_begin : M vst unit :=
  modify (set_vlock (Some HIntr));;
  v ← interrupt_status;
  interrupt_ack (Z.land v 0x3).

(** The loop's condition and one iteration. *)
Definition intr_iter : M vst unit :=
  u ← gets used_idx;
  d ← gets used_idx_dev;
  if u =? d then modify (set_vlock (Some HIntrEnd))
  else
    e ← rd used_ring (u mod NUM);
    let id := i32 e.1 in
    x ← rd info id;
    if negb (i_status x =? 0) then panic "virtio_disk_intr status"
    else
      match i_b x with
      | None => fault 4
      | Some b =>
          wr vbufs set_vbufs (Z.of_nat b) (λ x, mk_vbuf 0 (v_blockno x) (v_data x));;
          vwakeup (chan_io b);;
          modify (set_used_idx (u16 (u + 1)))
      end.

Definition intr_end : M vst unit := modify (set_vlock None).

(** ** [virtio_disk_init]

    The device's registers are hardware: [mmio_read] and [mmio_write] stand for
    them.  The pages of the queue come from [kalloc]; once they are zeroed they
    hold the table and the two rings of [vst]. *)

Definition VIRTIO_MMIO_MAGIC_VALUE : Z := 0x000.
Definition VIRTIO_MMIO_VERSION : Z := 0x004.
Definition VIRTIO_MMIO_DEVICE_ID : Z := 0x008.
Definition VIRTIO_MMIO_VENDOR_ID : Z := 0x00c.
Definition VIRTIO_MMIO_DEVICE_FEATURES : Z := 0x010.
Definition VIRTIO_MMIO_DRIVER_FEATURES : Z := 0x020.
Definition VIRTIO_MMIO_QUEUE_SEL : Z := 0x030.
Definition VIRTIO_MMIO_QUEUE_NUM_MAX : Z := 0x034.
Definition VIRTIO_MMIO_QUEUE_NUM : Z := 0x038.
Definition VIRTIO_MMIO_QUEUE_READY : Z := 0x044.
Definition VIRTIO_MMIO_STATUS : Z := 0x070.
Definition VIRTIO_MMIO_QUEUE_DESC_LOW : Z := 0x080.
Definition VIRTIO_MMIO_QUEUE_DESC_HIGH : Z := 0x084.
Definition VIRTIO_MMIO_DRIVER_DESC_LOW : Z := 0x090.
Definition VIRTIO_MMIO_DRIVER_DESC_HIGH : Z := 0x094.
Definition VIRTIO_MMIO_DEVICE_DESC_LOW : Z := 0x0a0.
Definition VIRTIO_MMIO_DEVICE_DESC_HIGH : Z := 0x0a4.

Definition VIRTIO_CONFIG_S_ACKNOWLEDGE : Z := 1.
Definition VIRTIO_CONFIG_S_DRIVER : Z := 2.
Definition VIRTIO_CONFIG_S_DRIVER_OK : Z := 4.
Definition VIRTIO_CONFIG_S_FEATURES_OK : Z := 8.

Definition VIRTIO_BLK_F_RO : Z := 5.
Definition VIRTIO_BLK_F_SCSI : Z := 7.
Definition VIRTIO_BLK_F_CONFIG_WCE : Z := 11.
Definition VIRTIO_BLK_F_MQ : Z := 12.
Definition VIRTIO_F_ANY_LAYOUT : Z := 27.
Definition VIRTIO_RING_F_INDIRECT_DESC : Z := 28.
Definition VIRTIO_RING_F_EVENT_IDX : Z := 29.

Class VirtioHw (H : Type) := {
  mmio_read : Z → H → Z * H;
  mmio_write : Z → Z → H → H;
}.

Record vboot (H : Type) := mk_vboot {
  vb_kern : kst;
  vb_hw : H;
  vb_disk : vst;
}.
Arguments mk_vboot {H}.
Arguments vb_kern {H}.
Arguments vb_hw {H}.
Arguments vb_disk {H}.

Section init.
Context {H : Type} `{!VirtioHw H}.

Definition R_read (r : Z) : M (vboot H) Z := λ s,
  let (v, h) := mmio_read r (vb_hw s) in Ok (u32 v) (mk_vboot (vb_kern s) h (vb_disk s)).
Definition R_write (r v : Z) : M (vboot H) unit :=
  modify (λ s, mk_vboot (vb_kern s) (mmio_write r (u32 v) (vb_hw s)) (vb_disk s)).
Definition on_kern {A} (c : M kst A) : M (vboot H) A :=
  zoom vb_kern (λ k s, mk_vboot k (vb_hw s) (vb_disk s)) c.
Definition on_disk {A} (c : M vst A) : M (vboot H) A :=
  zoom vb_disk (λ v s, mk_vboot (vb_kern s) (vb_hw s) v) c.

(** The test of the four identification registers, left to right. *)
Fixpoint identified (l : list (Z * Z)) : M (vboot H) bool :=
  match l with
  | [] => mret true
  | (r, x) :: l => v ← R_read r; if v =? x then identified l else mret false
  end.

(** [features &= ~(1 << k)] for each bit in turn. *)
Definition clear_bits (f : Z) (l : list Z) : Z := foldl (λ f k, Z.land f (Z.lnot (Z.shiftl 1 k))) f l.

Definition refused_features : list Z :=
  [VIRTIO_BLK_F_RO; VIRTIO_BLK_F_SCSI; VIRTIO_BLK_F_CONFIG_WCE; VIRTIO_BLK_F_MQ; VIRTIO_F_ANY_LAYOUT;
   VIRTIO_RING_F_EVENT_IDX; VIRTIO_RING_F_INDIRECT_DESC].

(** The zeroed queue memory. *)
Definition queue_zero : M vst unit :=
  modify (λ s, set_desc (replicate num (mk_desc ANull 0 0 0))
    (set_avail 0 (replicate num 0) (set_used 0 (replicate num (0, 0)) s))).

Fixpoint free_loop (n : nat) (i : Z) : M vst unit :=
  match n with
  | O => mret ()
  | S n => wr dfree set_dfree i (λ _, true);; free_loop n (i + 1)
  end.

Definition virtio_disk_init : M (vboot H) unit :=
  ok ← identified [(VIRTIO_MMIO_MAGIC_VALUE, 0x74726976); (VIRTIO_MMIO_VERSION, 2); (VIRTIO_MMIO_DEVICE_ID, 2);
                   (VIRTIO_MMIO_VENDOR_ID, 0x554d4551)];
  if negb ok then panic "could not find virtio disk"
  else
    let status := 0 in
    R_write VIRTIO_MMIO_STATUS status;;
    let status := Z.lor status VIRTIO_CONFIG_S_ACKNOWLEDGE in
    R_write VIRTIO_MMIO_STATUS status;;
    let status := Z.lor status VIRTIO_CONFIG_S_DRIVER in
    R_write VIRTIO_MMIO_STATUS status;;
    features ← R_read VIRTIO_MMIO_DEVICE_FEATURES;
    R_write VIRTIO_MMIO_DRIVER_FEATURES (clear_bits features refused_features);;
    let status := Z.lor status VIRTIO_CONFIG_S_FEATURES_OK in
    R_write VIRTIO_MMIO_STATUS status;;
    status ← R_read VIRTIO_MMIO_STATUS;
    if negb (band status VIRTIO_CONFIG_S_FEATURES_OK) then panic "virtio disk FEATURES_OK unset"
    else
      R_write VIRTIO_MMIO_QUEUE_SEL 0;;
      r ← R_read VIRTIO_MMIO_QUEUE_READY;
      if negb (r =? 0) then panic "virtio disk should not be ready"
      else
        max ← R_read VIRTIO_MMIO_QUEUE_NUM_MAX;
        if max =? 0 then panic "virtio disk has no queue 0"
        else if max <? NUM then panic "virtio disk max queue too short"
        else
          d ← on_kern kalloc;
          a ← on_kern kalloc;
          u ← on_kern kalloc;
          if (d =? 0) || (a =? 0) || (u =? 0) then panic "virtio disk kalloc"
          else
            on_kern (memset_ d 0 PGSIZE;; memset_ a 0 PGSIZE;; memset_ u 0 PGSIZE);;
            on_disk queue_zero;;
            R_write VIRTIO_MMIO_QUEUE_NUM NUM;;
            R_write VIRTIO_MMIO_QUEUE_DESC_LOW d;;
            R_write VIRTIO_MMIO_QUEUE_DESC_HIGH (Z.shiftr d 32);;
            R_write VIRTIO_MMIO_DRIVER_DESC_LOW a;;
            R_write VIRTIO_MMIO_DRIVER_DESC_HIGH (Z.shiftr a 32);;
            R_write VIRTIO_MMIO_DEVICE_DESC_LOW u;;
            R_write VIRTIO_MMIO_DEVICE_DESC_HIGH (Z.shiftr u 32);;
            R_write VIRTIO_MMIO_QUEUE_READY 1;;
            on_disk (free_loop num 0);;
            R_write VIRTIO_MMIO_STATUS (Z.lor status VIRTIO_CONFIG_S_DRIVER_OK).

End init.
