(* ===== verification/VirtioSpec.v ===== *)
(** * The disk driver refines an atomic disk

    [virtio_disk_rw] calls of any number of processes, the interrupt handler and
    the device run interleaved, as the steps of a transition system.  The
    device is a parameter; what is assumed of it is what the virtio standard
    says a block device does with a queue ([virtio_device]).  An invariant over
    the reachable states gives that the driver never panics, never follows a
    null or stale pointer, and loses neither a request, nor an interrupt, nor a
    wakeup; and each call has the effect that [Bio.virtio_disk_rw] has, at one
    point between its start and its return. *)

From S2P Require Import Prelude Riscv Mem Kalloc Vm VmTree Bio Virtio.

(** ** The device *)

Definition sector_size : nat := 512.

(** The bytes of [n] sectors from [a], and their replacement. *)
Fixpoint read_sectors (f : Z → list byte) (a : Z) (n : nat) : list byte :=
  match n with
  | O => []
  | S n => f a ++ read_sectors f (a + 1) n
  end.
Fixpoint write_sectors (f : Z → list byte) (a : Z) (n : nat) (l : list byte) : Z → list byte :=
  match n with
  | O => f
  | S n => write_sectors (λ k, if k =? a then take sector_size l else f k) (a + 1) n (drop sector_size l)
  end.

(** Taking the next entry of the avail ring. *)
Definition dev_fetch (s : vst) : option vst :=
  let d := dvc s in
  if dv_avail d =? avail_idx s then None
  else
    id ← avail_ring s !! Z.to_nat (dv_avail d mod NUM);
    Some (set_dvc (mk_dev (u16 (dv_avail d + 1)) (dv_taken d ++ [id]) (dv_sectors d) (dv_isr d) (dv_kicked d)) s).

(** Finding nothing there. *)
Definition dev_idle (s : vst) : option vst :=
  let d := dvc s in
  if dv_avail d =? avail_idx s then
    Some (set_dvc (mk_dev (dv_avail d) (dv_taken d) (dv_sectors d) (dv_isr d) false) s)
  else None.

(** A request as the device reads it from the chain that starts at [id]: the
    header, the buffer and its length, and the place of the status byte. *)
Definition dev_request (s : vst) (id : Z) : option (virtio_blk_req * nat * Z * Z) :=
  d0 ← desc s !! Z.to_nat id;
  d1 ← desc s !! Z.to_nat (d_next d0);
  d2 ← desc s !! Z.to_nat (d_next d1);
  match d_addr d0, d_addr d1, d_addr d2 with
  | AOps j, AData b, AStatus k =>
      rq ← ops s !! Z.to_nat j;
      let w := band (d_flags d1) VRING_DESC_F_WRITE in
      if band (d_flags d0) VRING_DESC_F_NEXT && negb (band (d_flags d0) VRING_DESC_F_WRITE) &&
         band (d_flags d1) VRING_DESC_F_NEXT && Bool.eqb w (rq_type rq =? VIRTIO_BLK_T_IN) &&
         band (d_flags d2) VRING_DESC_F_WRITE && negb (band (d_flags d2) VRING_DESC_F_NEXT) &&
         (d_len d0 =? 16) && (d_len d2 =? 1)
      then Some (rq, b, d_len d1, k) else None
  | _, _, _ => None
  end.

(** Serving request [id]: the transfer, the status, the used ring (with some
    length [n]), the interrupt. *)
Definition dev_complete (id n : Z) (s : vst) : option vst :=
  r ← dev_request s id;
  let '(rq, b, len, k) := r in
  x ← vbufs s !! b;
  let c := Z.to_nat (len / Z.of_nat sector_size) in
  let d := dvc s in
  let s :=
    if rq_type rq =? VIRTIO_BLK_T_IN then
      set_vbufs (<[b := mk_vbuf (v_disk x) (v_blockno x) (read_sectors (dv_sectors d) (rq_sector rq) c)]> (vbufs s)) s
    else if rq_type rq =? VIRTIO_BLK_T_OUT then
      set_dvc (mk_dev (dv_avail d) (dv_taken d) (write_sectors (dv_sectors d) (rq_sector rq) c (v_data x)) (dv_isr d) (dv_kicked d)) s
    else s in
  let d := dvc s in
  Some (set_info (alter (λ x, mk_info (i_b x) 0) (Z.to_nat k) (info s))
       (set_used (u16 (used_idx_dev s + 1)) (<[Z.to_nat (used_idx_dev s mod NUM) := (id, n)]> (used_ring s))
       (set_dvc (mk_dev (dv_avail d) (filter (λ j, j ≠ id) (dv_taken d)) (dv_sectors d) (Z.lor (dv_isr d) 1) (dv_kicked d)) s))).

(** What a device may do that follows the standard and serves every request: it
    completes requests in any order and always with status 0, never with
    [VIRTIO_BLK_S_IOERR] or [VIRTIO_BLK_S_UNSUPP], at which [virtio_disk_intr]
    panics. *)
Definition virtio_device (s s' : vst) : Prop :=
  dev_fetch s = Some s' ∨ dev_idle s = Some s' ∨ ∃ id n, id ∈ dv_taken (dvc s) ∧ dev_complete id n s = Some s'.

(** ** The transition system *)

Definition buf_of (ph : phase) : nat :=
  match ph with PAlloc b _ | PFilled b _ _ _ _ | PWait b _ _ _ _ => b end.
Definition write_of (ph : phase) : bool :=
  match ph with PAlloc _ w | PFilled _ w _ _ _ | PWait _ w _ _ _ => w end.

(** The caller of [virtio_disk_rw] holds the sleep lock of the buffer, so
    nobody else uses it until the call returns. *)
Definition unused (s : vst) (b : nat) : Prop := ∀ p ph, phases s !! p = Some ph → buf_of ph ≠ b.

(** The driver's code that runs next, if any. *)
Inductive driver (s : vst) : M vst unit → Prop :=
| driver_alloc p b w : phases s !! p = Some (PAlloc b w) → asleep_on s !! p = None → vlock s = None →
    driver s (rw_alloc p b w)
| driver_publish p b w i0 i1 i2 : phases s !! p = Some (PFilled b w i0 i1 i2) → driver s (rw_publish p b w i0 i1 i2)
| driver_resume p b w i0 i1 i2 : phases s !! p = Some (PWait b w i0 i1 i2) → asleep_on s !! p = None → vlock s = None →
    driver s (rw_resume p b i0)
| driver_intr : vlock s = None → driver s intr_begin
| driver_iter : vlock s = Some HIntr → driver s intr_iter
| driver_end : vlock s = Some HIntrEnd → driver s intr_end.

Section machine.
Context (dev_step : vst → vst → Prop).

Inductive step : vst → vst → Prop :=
| step_call s p b w : phases s !! p = None → unused s b → (b < length (vbufs s))%nat →
    step s (set_phases (<[p := PAlloc b w]> (phases s)) s)
| step_client s b x l n : unused s b → vbufs s !! b = Some x → length l = Z.to_nat BSIZE → 0 ≤ n < 2 ^ 31 →
    step s (set_vbufs (<[b := mk_vbuf (v_disk x) n l]> (vbufs s)) s)
| step_driver s c s' : driver s c → c s = Ok tt s' → step s s'
| step_device s s' : dev_step s s' → step s s'.

Definition vinitial (s : vst) : Prop :=
  desc s = replicate num (mk_desc ANull 0 0 0) ∧ avail_idx s = 0 ∧ avail_ring s = replicate num 0 ∧
  used_idx_dev s = 0 ∧ used_ring s = replicate num (0, 0) ∧ dfree s = replicate num true ∧ used_idx s = 0 ∧
  info s = replicate num (mk_info None 0) ∧ length (ops s) = num ∧ vlock s = None ∧
  (∀ b x, vbufs s !! b = Some x → 0 ≤ v_blockno x < 2 ^ 31 ∧ length (v_data x) = Z.to_nat BSIZE) ∧
  phases s = ∅ ∧ asleep_on s = ∅ ∧
  dv_avail (dvc s) = 0 ∧ dv_taken (dvc s) = [] ∧ (∀ a, length (dv_sectors (dvc s) a) = sector_size).

Inductive reachable : vst → Prop :=
| reachable_init s : vinitial s → reachable s
| reachable_step s s' : reachable s → step s s' → reachable s'.

End machine.

(** ** The invariant *)

Definition idx_of (ph : phase) : list Z :=
  match ph with
  | PAlloc _ _ => []
  | PFilled _ _ i0 i1 i2 | PWait _ _ i0 i1 i2 => [i0; i1; i2]
  end.

(** The chain of a request, and the status the device has written. *)
Definition chain_mem (s : vst) (x : vbuf) (b : nat) (w : bool) (i0 i1 i2 st : Z) : Prop :=
  desc s !! Z.to_nat i0 = Some (mk_desc (AOps i0) sizeof_virtio_blk_req VRING_DESC_F_NEXT i1) ∧
  desc s !! Z.to_nat i1 = Some (mk_desc (AData b) BSIZE (Z.lor (if w then 0 else VRING_DESC_F_WRITE) VRING_DESC_F_NEXT) i2) ∧
  desc s !! Z.to_nat i2 = Some (mk_desc (AStatus i0) 1 VRING_DESC_F_WRITE 0) ∧
  ops s !! Z.to_nat i0 = Some (mk_req (if w then VIRTIO_BLK_T_OUT else VIRTIO_BLK_T_IN) 0 (sector_of (v_blockno x))) ∧
  info s !! Z.to_nat i0 = Some (mk_info (Some b) st).

(** What holds of a process by its phase; [Q] are the published requests the
    device has not taken, [U] the served ones the handler has not seen. *)
Definition phase_ok (s : vst) (Q U : list Z) (p : nat) (ph : phase) (x : vbuf) : Prop :=
  match ph with
  | PAlloc b w => True
  | PFilled b w i0 i1 i2 =>
      chain_mem s x b w i0 i1 i2 0xff ∧ v_disk x = 1 ∧ (i0 ∉ Q ++ dv_taken (dvc s) ++ U) ∧ vlock s = Some (HProc p) ∧
      avail_ring s !! Z.to_nat (avail_idx s mod NUM) = Some i0
  | PWait b w i0 i1 i2 =>
      chain_mem s x b w i0 i1 i2 (if decide (i0 ∈ Q ++ dv_taken (dvc s)) then 0xff else 0) ∧
      v_disk x = (if decide (i0 ∈ Q ++ dv_taken (dvc s) ++ U) then 1 else 0)
  end.

Definition free_count (l : list bool) : nat := length (filter (λ f, f = true) l).

Definition asleep_ok (s : vst) (ph : phase) (x : vbuf) (ch : Z) : Prop :=
  match ph with
  | PAlloc b w => ch = chan_free ∧ (free_count (dfree s) ≤ 2)%nat
  | PFilled _ _ _ _ _ => False
  | PWait b w i0 i1 i2 => ch = chan_io b ∧ v_disk x = 1
  end.

(** A window of [length l] entries of a ring of [NUM], from index [r]. *)
Definition window {A B} (ring : list A) (f : A → B) (r w : Z) (l : list B) : Prop :=
  0 ≤ r < 2 ^ 16 ∧ w = u16 (r + Z.of_nat (length l)) ∧
  ∀ k, (k < length l)%nat → f <$> ring !! Z.to_nat ((r + Z.of_nat k) mod NUM) = l !! k.

Definition buf_ok (x : vbuf) : Prop := 0 ≤ v_blockno x < 2 ^ 31 ∧ length (v_data x) = Z.to_nat BSIZE.

Record vinv (s : vst) (Q U : list Z) : Prop := {
  vi_len : length (desc s) = num ∧ length (avail_ring s) = num ∧ length (used_ring s) = num ∧
           length (dfree s) = num ∧ length (info s) = num ∧ length (ops s) = num;
  vi_bufs : ∀ b x, vbufs s !! b = Some x → buf_ok x;
  vi_sectors : ∀ a, length (dv_sectors (dvc s) a) = sector_size;
  vi_phase : ∀ p ph, phases s !! p = Some ph → ∃ x, vbufs s !! buf_of ph = Some x ∧ phase_ok s Q U p ph x;
  vi_idx : ∀ p ph, phases s !! p = Some ph → NoDup (idx_of ph) ∧ Forall (λ i, 0 ≤ i < NUM) (idx_of ph);
  vi_own : ∀ p q ph ph' i, phases s !! p = Some ph → phases s !! q = Some ph' → i ∈ idx_of ph → i ∈ idx_of ph' → p = q;
  vi_buf : ∀ p q ph ph', phases s !! p = Some ph → phases s !! q = Some ph' → buf_of ph = buf_of ph' → p = q;
  vi_free : ∀ i, 0 ≤ i < NUM → dfree s !! Z.to_nat i = Some false ↔ ∃ p ph, phases s !! p = Some ph ∧ i ∈ idx_of ph;
  vi_flight : ∀ i, i ∈ Q ++ dv_taken (dvc s) ++ U → ∃ p b w i1 i2, phases s !! p = Some (PWait b w i i1 i2);
  vi_nodup : NoDup (Q ++ dv_taken (dvc s) ++ U);
  vi_avail : window (avail_ring s) id (dv_avail (dvc s)) (avail_idx s) Q;
  vi_used : window (used_ring s) fst (used_idx s) (used_idx_dev s) U;
  vi_isr : U ≠ [] → Z.testbit (dv_isr (dvc s)) 0 = true ∨ vlock s = Some HIntr;
  vi_kick : Q ≠ [] → dv_kicked (dvc s) = true;
  vi_lock : ∀ p, vlock s = Some (HProc p) → ∃ b w i0 i1 i2, phases s !! p = Some (PFilled b w i0 i1 i2);
  vi_asleep : ∀ p ch, asleep_on s !! p = Some ch →
    ∃ ph x, phases s !! p = Some ph ∧ vbufs s !! buf_of ph = Some x ∧ asleep_ok s ph x ch;
}.

(** *** Rings *)

Lemma u16_mod_num z : u16 z mod NUM = z mod NUM.
Proof. unfold u16, NUM. apply Z.mod_mod_divide. by exists (2 ^ 13). Qed.

Lemma num_mod_range z : 0 ≤ z mod NUM < NUM.
Proof. apply Z.mod_pos_bound. unfold NUM. lia. Qed.

Lemma NoDup_num l : NoDup l → Forall (λ i, 0 ≤ i < NUM) l → (length l ≤ num)%nat.
Proof.
  intros Hn Hl. assert (l ⊆ Z.of_nat <$> seq 0 num) as Hs.
  { intros i Hi. rewrite list.Forall_forall in Hl. specialize (Hl i Hi). apply list_elem_of_fmap.
    exists (Z.to_nat i). rewrite elem_of_seq. unfold num, NUM in *. lia. }
  apply NoDup_submseteq in Hs; [|done]. by apply submseteq_length in Hs.
Qed.

Section window.
Context {A B : Type} (f : A → B).
Implicit Types (ring : list A) (l : list B).

(** The window is empty exactly when the two counters agree. *)
Lemma window_empty ring r w l : window ring f r w l → (length l ≤ num)%nat → r = w ↔ l = [].
Proof.
  intros (Hr & -> & _) Hl. unfold num, NUM in Hl. destruct l as [|x l]; simpl.
  - split; [done|]. intros _. unfold u16. rewrite Z.mod_small; lia.
  - split; [|done]. unfold u16. intros E. exfalso. simpl in Hl.
    destruct (decide (r + Z.of_nat (S (length l)) < 2 ^ 16)) as [H1|H1].
    + rewrite Z.mod_small in E by lia. lia.
    + replace (r + Z.of_nat (S (length l))) with ((r + Z.of_nat (S (length l)) - 2 ^ 16) + 1 * 2 ^ 16) in E by lia.
      rewrite Z.mod_add, Z.mod_small in E by lia. lia.
Qed.

Lemma window_pop ring r w x l : window ring f r w (x :: l) →
  f <$> ring !! Z.to_nat (r mod NUM) = Some x ∧ window ring f (u16 (r + 1)) w l.
Proof.
  intros (Hr & -> & Hl). split.
  - specialize (Hl 0%nat ltac:(simpl; lia)). by rewrite Z.add_0_r in Hl.
  - split; [|split].
    + apply Z.mod_pos_bound. lia.
    + unfold u16. rewrite Zplus_mod_idemp_l. f_equal. simpl. lia.
    + intros k Hk. specialize (Hl (S k) ltac:(simpl; lia)). simpl in Hl. rewrite <- Hl. do 3 f_equal.
      unfold u16. rewrite <- (u16_mod_num (_ + Z.of_nat k)), <- (u16_mod_num (r + _)). unfold u16.
      rewrite Zplus_mod_idemp_l. do 2 f_equal. lia.
Qed.

Lemma window_last ring r w l y : window ring f r w l → length ring = num → (length l < num)%nat →
  window (<[Z.to_nat (w mod NUM) := y]> ring) f r w l.
Proof.
  intros (Hr & -> & Hl) Hn Hl'. split; [done|]. split; [done|]. intros k Hk. rewrite <- (Hl k Hk).
  rewrite list_lookup_insert_ne; [done|]. rewrite u16_mod_num. intros E%Z2Nat.inj; [|apply num_mod_range..].
  unfold num, NUM in *. assert ((Z.of_nat (length l) - Z.of_nat k) mod 8 = 0) as E'.
  { replace (Z.of_nat (length l) - Z.of_nat k) with ((r + Z.of_nat (length l)) - (r + Z.of_nat k)) by lia.
    rewrite Zminus_mod, E, Z.sub_diag. done. }
  rewrite Z.mod_small in E'; lia.
Qed.

Lemma window_push ring r w l y : window ring f r w l → f <$> ring !! Z.to_nat (w mod NUM) = Some y →
  window ring f r (u16 (w + 1)) (l ++ [y]).
Proof.
  intros (Hr & -> & Hl) Hy. split; [done|]. split.
  - rewrite length_app. unfold u16. rewrite Zplus_mod_idemp_l. f_equal. simpl. lia.
  - intros k Hk. rewrite length_app in Hk. simpl in Hk. destruct (decide (k < length l)%nat).
    + rewrite lookup_app_l by done. by apply Hl.
    + replace k with (length l) by lia. rewrite list_lookup_middle by done. by rewrite u16_mod_num in Hy.
Qed.

End window.

(** *** The driver's helpers *)

Lemma rd_wp {A} (get : vst → list A) i s x (Q : A → vst → Prop) :
  0 ≤ i → get s !! Z.to_nat i = Some x → Q x s → wp (rd get i) s Q.
Proof. intros Hi Hx HQ. unfold wp, rd. z_decide. by rewrite Hx. Qed.

Lemma wr_wp {A} (get : vst → list A) set i f s x (Q : unit → vst → Prop) :
  0 ≤ i → get s !! Z.to_nat i = Some x → Q tt (set (<[Z.to_nat i := f x]> (get s)) s) → wp (wr get set i f) s Q.
Proof.
  intros Hi Hx HQ. unfold wr. wp_step. eapply rd_wp; [done..|]. wp_step. by erewrite alter_insert.
Qed.

Lemma free_count_alloc l (i : nat) : l !! i = Some true → free_count l = S (free_count (<[i := false]> l)).
Proof.
  revert i. induction l as [|f l IH]; intros [|i] Hi; simplify_eq/=; [done|]. unfold free_count in *.
  rewrite !filter_cons. destruct f; simpl; rewrite (IH i) by done; done.
Qed.

Lemma free_count_none l : Forall (λ f, f = false) l → free_count l = 0%nat.
Proof. unfold free_count. induction 1 as [|f l -> _ IH]; [done|]. rewrite filter_cons_False by done. exact IH. Qed.

Lemma free_count_all l : Forall (λ f, f ≠ false) l → free_count l = length l.
Proof.
  unfold free_count. induction 1 as [|[] l Hf _ IH]; [done| |done]. rewrite filter_cons_True by done. simpl. by rewrite IH.
Qed.

Lemma alloc_desc_loop_wp n i s : length (dfree s) = num → 0 ≤ i → i + Z.of_nat n = NUM →
  wp (alloc_desc_loop n i) s (λ r s',
    (r = -1 ∧ s' = s ∧ Forall (λ f, f = false) (drop (Z.to_nat i) (dfree s))) ∨
    (0 ≤ r < NUM ∧ dfree s !! Z.to_nat r = Some true ∧ s' = set_dfree (<[Z.to_nat r := false]> (dfree s)) s)).
Proof.
  intros Hl. revert i. induction n as [|n IH]; intros i Hi Hn; cbn [alloc_desc_loop].
  - wp_step. left. split; [done|]. split; [done|]. rewrite drop_ge; [constructor|]. unfold num in Hl. lia.
  - destruct (lookup_lt_is_Some_2 (dfree s) (Z.to_nat i)) as [f Hf]; [unfold num in Hl; lia|].
    wp_step. eapply rd_wp; [done..|]. destruct f.
    + wp_step. eapply wr_wp; [done..|]. wp_step. right. split; [lia|done].
    + eapply wp_mono; [apply (IH (i + 1)); lia|]. intros r s' [(-> & -> & Hr)|Hr]; [left|by right].
      split; [done|]. split; [done|]. erewrite drop_S by done. constructor; [done|].
      by replace (Z.to_nat (i + 1)) with (S (Z.to_nat i)) in Hr by lia.
Qed.

(** [mark v l F]: the entries of [F] at the indices [l] set to [v]. *)
Definition mark {A} (v : A) (l : list Z) (F : list A) : list A := foldl (λ F i, <[Z.to_nat i := v]> F) F l.

Lemma mark_length {A} (v : A) l F : length (mark v l F) = length F.
Proof. unfold mark. revert F. induction l as [|i l IH]; intros F; simpl; [done|]. by rewrite IH, length_insert. Qed.

Lemma mark_ne {A} (v : A) l F j : Z.to_nat j ∉ Z.to_nat <$> l → mark v l F !! Z.to_nat j = F !! Z.to_nat j.
Proof.
  unfold mark. revert F. induction l as [|i l IH]; intros F Hj; simpl in *; [done|].
  apply not_elem_of_cons in Hj as [Hj Hj']. rewrite IH by done. by rewrite list_lookup_insert_ne.
Qed.

Lemma mark_in {A} (v : A) l F j : Z.to_nat j ∈ Z.to_nat <$> l → (Z.to_nat j < length F)%nat →
  mark v l F !! Z.to_nat j = Some v.
Proof.
  revert F. induction l as [|i l IH]; intros F Hj Hl; simpl in *; [by apply elem_of_nil in Hj|].
  destruct (decide (Z.to_nat j ∈ Z.to_nat <$> l)) as [Hin|Hin].
  - unfold mark. simpl. apply (IH (<[_ := v]> F)); [done|]. by rewrite length_insert.
  - apply elem_of_cons in Hj as [Hj|?]; [|done]. unfold mark. simpl.
    change (mark v l (<[Z.to_nat i := v]> F) !! Z.to_nat j = Some v). rewrite mark_ne by done. rewrite Hj in *.
    by apply list_lookup_insert_eq.
Qed.

Lemma mark_undo l (F : list bool) : length F = num → Forall (λ i, 0 ≤ i < NUM) l →
  (∀ i, i ∈ l → F !! Z.to_nat i = Some true) → mark true l (mark false l F) = F.
Proof.
  intros HF Hl Ht. apply list_eq. intros j. rewrite <- (Nat2Z.id j).
  destruct (decide (Z.to_nat (Z.of_nat j) ∈ Z.to_nat <$> l)) as [Hj|Hj]; [|by rewrite !mark_ne].
  pose proof Hj as (i & E & Hi)%list_elem_of_fmap. rewrite mark_in, E; [by rewrite Ht|done|].
  rewrite mark_length, E. eapply lookup_lt_Some, Ht, Hi.
Qed.

(** Indices of descriptors, for which [Z.to_nat] is injective. *)
Definition idxs (l : list Z) : Prop := NoDup l ∧ Forall (λ i, 0 ≤ i < NUM) l.

Lemma idxs_cons i l : idxs (i :: l) → 0 ≤ i < NUM ∧ (i ∉ l) ∧ idxs l.
Proof. intros [[Hi Hn]%list.NoDup_cons Hl]. inversion Hl; subst. split; [done|]. split; [done|]. by split. Qed.

Lemma idxs_snoc i l : idxs l → 0 ≤ i < NUM → i ∉ l → idxs (l ++ [i]).
Proof.
  intros [Hn Hl] Hi Hni. split.
  - apply list.NoDup_app. split; [done|]. split; [|apply NoDup_singleton]. intros j Hj ->%list_elem_of_singleton. done.
  - apply Forall_app. split; [done|]. by constructor.
Qed.

Lemma idxs_to_nat l j : Forall (λ i, 0 ≤ i < NUM) l → 0 ≤ j → Z.to_nat j ∈ Z.to_nat <$> l ↔ j ∈ l.
Proof.
  intros Hl Hj. rewrite list_elem_of_fmap. split; [|by exists j]. intros (i & E & Hi).
  rewrite list.Forall_forall in Hl. specialize (Hl i Hi). by replace j with i by lia.
Qed.

(** What freeing the descriptors [l] does to the state. *)
Definition freed (l : list Z) (s s' : vst) : Prop :=
  ∃ D A, s' = set_asleep A (set_dfree (mark true l (dfree s)) (set_desc D s)) ∧
    length D = length (desc s) ∧ (∀ j, 0 ≤ j → j ∉ l → D !! Z.to_nat j = desc s !! Z.to_nat j) ∧
    A ⊆ asleep_on s ∧ (l ≠ [] → ∀ p, A !! p ≠ Some chan_free).

Lemma freed_nil s : freed [] s s.
Proof. exists (desc s), (asleep_on s). split; [by destruct s|]. by repeat split. Qed.

Lemma freed_cons i l s s1 s' : freed [i] s s1 → freed l s1 s' → freed (i :: l) s s'.
Proof.
  intros (D & A & -> & HD & HDl & HA & Hs) (D' & A' & -> & HD' & HDl' & HA' & Hs'). simpl in *.
  exists D', A'. split; [done|]. split; [congruence|]. split; [|split].
  - intros j Hj [Hi Hl]%not_elem_of_cons. rewrite HDl', HDl; [done|done| |done|done]. by rewrite list_elem_of_singleton.
  - by etrans.
  - intros _ p Hp. eapply lookup_weaken in Hp; [|done]. by eapply Hs.
Qed.

Lemma free_desc_wp i s : length (desc s) = num → 0 ≤ i < NUM → dfree s !! Z.to_nat i = Some false →
  wp (free_desc i) s (λ _ s', freed [i] s s').
Proof.
  intros Hd Hi Hf. unfold free_desc. z_decide.
  destruct (lookup_lt_is_Some_2 (desc s) (Z.to_nat i)) as [d Hx]; [unfold num, NUM in *; lia|].
  wp_step. eapply rd_wp; [lia|done|]. cbv beta iota. wp_step. eapply wr_wp; [lia|done|].
  wp_step. eapply wr_wp; [lia|done|]. unfold vwakeup. wp_step.
  eexists _, _. split; [reflexivity|]. split; [by rewrite length_insert|]. split; [|split].
  - intros j Hj Hn. rewrite list_lookup_insert_ne; [done|]. rewrite list_elem_of_singleton in Hn. lia.
  - apply map_filter_subseteq.
  - intros _ p [_ Hp]%map_lookup_filter_Some. done.
Qed.

Lemma free_descs_wp l s : length (desc s) = num → length (dfree s) = num → idxs l →
  (∀ i, i ∈ l → dfree s !! Z.to_nat i = Some false) → wp (free_descs l) s (λ _ s', freed l s s').
Proof.
  revert s. induction l as [|i l IH]; intros s Hd Hdf Hl Hf; cbn [free_descs].
  - wp_step. apply freed_nil.
  - apply idxs_cons in Hl as (Hi & Hil & Hl). wp_step.
    eapply wp_mono; [apply free_desc_wp; [done..|apply Hf; left]|]. intros [] s1 Hs1.
    assert (length (desc s1) = num ∧ dfree s1 = <[Z.to_nat i := true]> (dfree s)) as [Hd1 Hf1].
    { destruct Hs1 as (D & A & E & HD & _). rewrite E. simpl. split; [congruence|done]. }
    eapply wp_mono; [apply (IH s1)|intros [] s' Hs'; by eapply freed_cons]; [done|by rewrite Hf1, length_insert|done|].
    intros j Hj. rewrite Hf1, list_lookup_insert_ne; [apply Hf; by right|].
    destruct Hl as [_ Hl]. rewrite list.Forall_forall in Hl. specialize (Hl j Hj). intros E. apply Hil.
    by replace i with j by lia.
Qed.

(** Three descriptors are taken, or fewer than three were free and the state
    is as before up to the contents of free descriptors. *)
Lemma alloc3_desc_loop_wp n idx s F : length F = num → length (desc s) = num → idxs idx →
  (∀ i, i ∈ idx → F !! Z.to_nat i = Some true) → dfree s = mark false idx F →
  free_count F = (length idx + free_count (dfree s))%nat →
  wp (alloc3_desc_loop n idx) s (λ r s',
    match r with
    | Some l => length l = (length idx + n)%nat ∧ idxs l ∧ (∀ i, i ∈ l → F !! Z.to_nat i = Some true) ∧
        s' = set_dfree (mark false l F) s
    | None => (free_count F < length idx + n)%nat ∧
        ∃ D A, s' = set_asleep A (set_dfree F (set_desc D s)) ∧ length D = length (desc s) ∧ A ⊆ asleep_on s ∧
          ∀ j, 0 ≤ j → F !! Z.to_nat j = Some false → D !! Z.to_nat j = desc s !! Z.to_nat j
    end).
Proof.
  intros HF Hd. revert idx s Hd. induction n as [|n IH]; intros idx s Hd Hidx Hin Hs Hc; cbn [alloc3_desc_loop].
  - wp_step. split; [lia|]. split; [done|]. split; [done|]. rewrite <- Hs. by destruct s.
  - wp_step. eapply wp_mono; [apply alloc_desc_loop_wp; [by rewrite Hs, mark_length|done|done]|].
    intros r s1 [(-> & -> & Hn)|(Hr & Hfr & ->)].
    + simpl. rewrite drop_0 in Hn. wp_step. eapply wp_mono; [apply free_descs_wp; [done|by rewrite Hs, mark_length|done|]|].
      { intros i Hi. rewrite Hs. destruct Hidx as [_ Hall]. rewrite list.Forall_forall in Hall. specialize (Hall i Hi).
        apply mark_in; [by apply list_elem_of_fmap_2|]. rewrite HF. unfold num, NUM in *. lia. }
      intros [] s' (D & A & -> & HD & HDl & HA & _). wp_step. rewrite (free_count_none _ Hn) in Hc. split; [lia|].
      exists D, A. split; [|split; [done|split; [done|]]].
      * do 2 f_equal. rewrite Hs. apply mark_undo; [done|by destruct Hidx|done].
      * intros j Hj Hf. apply HDl; [done|]. intros Hj'. apply Hin in Hj'. congruence.
    + z_decide. assert (r ∉ idx) as Hri.
      { intros Hri. rewrite Hs, mark_in in Hfr; [done| |rewrite HF; unfold num, NUM in *; lia]. by apply list_elem_of_fmap_2. }
      eapply wp_mono; [apply (IH (idx ++ [r]))|]; simpl.
      * done.
      * by apply idxs_snoc.
      * intros i [Hi| ->%list_elem_of_singleton]%elem_of_app; [by apply Hin|]. rewrite Hs in Hfr. rewrite mark_ne in Hfr; [done|].
        rewrite idxs_to_nat; [done|by destruct Hidx|lia].
      * unfold mark in *. by rewrite foldl_app, <- Hs.
      * rewrite length_app. simpl. rewrite (free_count_alloc _ _ Hfr) in Hc. lia.
      * intros [l|] s'; rewrite length_app; simpl; rewrite <- Nat.add_assoc; exact id.
Qed.

Lemma ins_ne {A} (l : list A) i j v : 0 ≤ i → 0 ≤ j → i ≠ j → <[Z.to_nat i := v]> l !! Z.to_nat j = l !! Z.to_nat j.
Proof. intros. apply list_lookup_insert_ne. lia. Qed.
Lemma ins_eq {A} (l : list A) i v : 0 ≤ i < NUM → length l = num → <[Z.to_nat i := v]> l !! Z.to_nat i = Some v.
Proof. intros Hi Hl. apply list_lookup_insert_eq. rewrite Hl. unfold num, NUM in *. lia. Qed.
Lemma idx_lookup {A} (l : list A) i : length l = num → 0 ≤ i < NUM → is_Some (l !! Z.to_nat i).
Proof. intros Hl Hi. apply lookup_lt_is_Some_2. rewrite Hl. unfold num, NUM in *. lia. Qed.

Lemma chain_mem_frame s s' x x' b w i0 i1 i2 st : chain_mem s x b w i0 i1 i2 st →
  (∀ i, i ∈ [i0; i1; i2] → desc s' !! Z.to_nat i = desc s !! Z.to_nat i) →
  ops s' !! Z.to_nat i0 = ops s !! Z.to_nat i0 → info s' !! Z.to_nat i0 = info s !! Z.to_nat i0 →
  v_blockno x' = v_blockno x → chain_mem s' x' b w i0 i1 i2 st.
Proof.
  intros (H0 & H1 & H2 & Ho & Hi) Hd Ho' Hi' Hb. unfold chain_mem.
  rewrite !Hd by set_solver. rewrite Ho', Hi', Hb. by repeat split.
Qed.

(** The state after lines 238-272 of a request. *)
Definition formatted (b : nat) (w : bool) (i0 i1 i2 : Z) (x : vbuf) (s : vst) : vst :=
  set_avail (avail_idx s) (<[Z.to_nat (avail_idx s mod NUM) := i0]> (avail_ring s))
  (set_vbufs (<[b := mk_vbuf 1 (v_blockno x) (v_data x)]> (vbufs s))
  (set_info (<[Z.to_nat i0 := mk_info (Some b) 0xff]> (info s))
  (set_desc (<[Z.to_nat i2 := mk_desc (AStatus i0) 1 VRING_DESC_F_WRITE 0]>
     (<[Z.to_nat i1 := mk_desc (AData b) BSIZE (Z.lor (if w then 0 else VRING_DESC_F_WRITE) VRING_DESC_F_NEXT) i2]>
     (<[Z.to_nat i0 := mk_desc (AOps i0) sizeof_virtio_blk_req VRING_DESC_F_NEXT i1]> (desc s))))
  (set_ops (<[Z.to_nat i0 := mk_req (if w then VIRTIO_BLK_T_OUT else VIRTIO_BLK_T_IN) 0 (sector_of (v_blockno x))]> (ops s)) s)))).

Definition lens (s : vst) : Prop :=
  length (desc s) = num ∧ length (avail_ring s) = num ∧ length (used_ring s) = num ∧
  length (dfree s) = num ∧ length (info s) = num ∧ length (ops s) = num.

Lemma formatted_chain b w i0 i1 i2 x s : lens s → idxs [i0; i1; i2] →
  chain_mem (formatted b w i0 i1 i2 x s) (mk_vbuf 1 (v_blockno x) (v_data x)) b w i0 i1 i2 0xff.
Proof.
  intros (Ld & _ & _ & _ & Li & Lo) (R0 & N0 & (R1 & N1 & (R2 & _)%idxs_cons)%idxs_cons)%idxs_cons.
  apply not_elem_of_cons in N0 as [N01 N02], N1 as [N12 _]. apply not_elem_of_cons in N02 as [N02 _].
  unfold chain_mem, formatted. cbn [desc ops info set_avail set_vbufs set_info set_desc set_ops].
  split; [|split; [|split; [|split]]].
  - rewrite (ins_ne _ i2 i0), (ins_ne _ i1 i0) by lia. by apply ins_eq.
  - rewrite (ins_ne _ i2 i1) by lia. apply ins_eq; [done|]. by rewrite length_insert.
  - apply ins_eq; [done|]. by rewrite !length_insert.
  - by apply ins_eq.
  - by apply ins_eq.
Qed.

Lemma formatted_other b w i0 i1 i2 x s y b' w' j0 j1 j2 st : idxs [i0; i1; i2] →
  (∀ i j, i ∈ [i0; i1; i2] → j ∈ [j0; j1; j2] → i ≠ j) → Forall (λ i, 0 ≤ i < NUM) [j0; j1; j2] →
  chain_mem s y b' w' j0 j1 j2 st → chain_mem (formatted b w i0 i1 i2 x s) y b' w' j0 j1 j2 st.
Proof.
  intros (R0 & _ & (R1 & _ & (R2 & _)%idxs_cons)%idxs_cons)%idxs_cons Hij Hj Hc.
  rewrite list.Forall_forall in Hj.
  eapply chain_mem_frame; [exact Hc|..|done]; unfold formatted; cbn [desc ops info set_avail set_vbufs set_info set_desc set_ops].
  - intros j Hjn. specialize (Hj j Hjn). rewrite (ins_ne _ i2), (ins_ne _ i1), (ins_ne _ i0); [done|..]; first [lia|apply Hij; set_solver].
  - specialize (Hj j0 ltac:(left)). apply ins_ne; [lia..|]. apply Hij; left.
  - specialize (Hj j0 ltac:(left)). apply ins_ne; [lia..|]. apply Hij; left.
Qed.

Lemma wr_num_wp {A} (get : vst → list A) set i f s (Q : unit → vst → Prop) :
  0 ≤ i < NUM → length (get s) = num →
  (∀ x, get s !! Z.to_nat i = Some x → Q tt (set (<[Z.to_nat i := f x]> (get s)) s)) → wp (wr get set i f) s Q.
Proof.
  intros Hi Hl HQ. destruct (idx_lookup (get s) i Hl Hi) as [x Hx]. eapply wr_wp; [lia|done|]. by apply HQ.
Qed.

Lemma rw_format_wp b w i0 i1 i2 s x : lens s → idxs [i0; i1; i2] → vbufs s !! b = Some x →
  wp (rw_format b w i0 i1 i2;; rw_ring i0) s (λ _ s', s' = formatted b w i0 i1 i2 x s).
Proof.
  intros (Hd & Ha & _ & _ & Hi & Ho) (H0 & _ & (H1 & _ & (H2 & _)%idxs_cons)%idxs_cons)%idxs_cons Hx.
  unfold rw_format, rw_ring. rewrite <- (Nat2Z.id b) in Hx.
  repeat first [wp_step | apply wr_num_wp; [lia|simpl; rewrite ?length_insert; done|intros ? ?; simpl]
    | eapply rd_wp; [lia|done|]].
  eapply wr_wp; [lia|exact Hx|]. simpl.
  apply wr_num_wp; [lia|simpl; rewrite ?length_insert; done|intros y Hy; simpl in *]. wp_steps.
  apply wr_num_wp; [apply num_mod_range|done|intros z Hz]. unfold formatted. simpl in *.
  rewrite !list_insert_insert_eq. rewrite ins_eq in Hy by done. injection Hy as <-. simpl.
  assert (u16 i0 = i0) as ->; [|by rewrite Nat2Z.id]. unfold u16, NUM in *. apply Z.mod_small. lia.
Qed.

(** *** Every step keeps the invariant *)

Ltac vsimpl := unfold formatted; cbn [desc avail_idx avail_ring used_idx_dev used_ring dfree used_idx info ops vlock vbufs phases asleep_on dvc
  set_desc set_avail set_used set_dfree set_used_idx set_info set_ops set_vlock set_vbufs set_phases set_asleep set_dvc
  dv_avail dv_taken dv_sectors dv_isr dv_kicked buf_of v_disk v_blockno v_data].

Ltac vinv_fields H :=
  destruct H as [Hlen Hbufs Hsec Hph Hidx Hown Hbuf Hfree Hfl Hnd Hav Hus Hisr Hkick Hlock Hslp].

Lemma vinv_init s : vinitial s → vinv s [] [].
Proof.
  intros (Hd & Ha & Hr & Hu & Hur & Hf & Hui & Hi & Ho & Hl & Hb & Hp & Hs & Hda & Hdt & Hds).
  constructor; rewrite ?Hp, ?Hs, ?Hdt; try done.
  - rewrite Hd, Hr, Hur, Hf, Hi, Ho. by rewrite !length_replicate.
  - intros i Hi'. rewrite Hf. split; [|intros (p & ph & ? & _); done]. intros E%lookup_replicate. by destruct E.
  - intros i Hi'. by apply elem_of_nil in Hi'.
  - by constructor.
  - rewrite Hda, Ha. split; [lia|]. split; [done|]. intros k Hk. simpl in Hk. lia.
  - rewrite Hui, Hu. split; [lia|]. split; [done|]. intros k Hk. simpl in Hk. lia.
  - rewrite Hl. done.
Qed.

Lemma vinv_call s Q U p b w : vinv s Q U → phases s !! p = None → unused s b → (b < length (vbufs s))%nat →
  vinv (set_phases (<[p := PAlloc b w]> (phases s)) s) Q U.
Proof.
  intros Hv Hp Hb Hlb. vinv_fields Hv. constructor; try assumption; simpl.
  - intros q ph [[<- <-]|[Hne Hq]]%lookup_insert_Some; [|by apply Hph].
    destruct (lookup_lt_is_Some_2 (vbufs s) b Hlb) as [x Hx]. by exists x.
  - intros q ph [[<- <-]|[Hne Hq]]%lookup_insert_Some; [|by eapply Hidx]. split; constructor.
  - intros q q' ph ph' i [[<- <-]|[Hne Hq]]%lookup_insert_Some [[<- <-]|[Hne' Hq']]%lookup_insert_Some Hi Hi'; [done|..];
      [by apply elem_of_nil in Hi|by apply elem_of_nil in Hi'|by eapply Hown].
  - intros q q' ph ph' [[<- <-]|[Hne Hq]]%lookup_insert_Some [[<- <-]|[Hne' Hq']]%lookup_insert_Some E; [done|..];
      [by destruct (Hb _ _ Hq')|by destruct (Hb _ _ Hq)|by eapply Hbuf].
  - intros i Hi. rewrite Hfree by done. split; intros (q & ph & Hq & Hin).
    + exists q, ph. split; [|done]. rewrite lookup_insert_ne; [done|congruence].
    + apply lookup_insert_Some in Hq as [[<- <-]|[Hne Hq]]; [by apply elem_of_nil in Hin|eauto].
  - intros i Hi. destruct (Hfl i Hi) as (q & b' & w' & i1 & i2 & Hq). exists q, b', w', i1, i2.
    rewrite lookup_insert_ne; [done|congruence].
  - intros q Hq. destruct (Hlock q Hq) as (b' & w' & i0 & i1 & i2 & Hq'). exists b', w', i0, i1, i2.
    rewrite lookup_insert_ne; [done|congruence].
  - intros q ch Hq. destruct (Hslp q ch Hq) as (ph & x & Hq' & Hx). exists ph, x.
    rewrite lookup_insert_ne; [done|congruence].
Qed.

Lemma vinv_client s Q U b x l n : vinv s Q U → unused s b → vbufs s !! b = Some x →
  length l = Z.to_nat BSIZE → 0 ≤ n < 2 ^ 31 → vinv (set_vbufs (<[b := mk_vbuf (v_disk x) n l]> (vbufs s)) s) Q U.
Proof.
  intros Hv Hb Hx Hl Hn. vinv_fields Hv. constructor; try assumption; simpl.
  - intros b' x' [(<- & <- & _)|[Hne Hq]]%list_lookup_insert_Some; [done|by eapply Hbufs].
  - intros p ph Hp. destruct (Hph p ph Hp) as (y & Hy & Hok). exists y. split; [|exact Hok].
    rewrite list_lookup_insert_ne; [done|]. intros E. exact (Hb _ _ Hp (eq_sym E)).
  - intros p ch Hp. destruct (Hslp p ch Hp) as (ph & y & Hq & Hy & Hok). exists ph, y. split; [done|]. split; [|exact Hok].
    rewrite list_lookup_insert_ne; [done|]. intros E. exact (Hb _ _ Hq (eq_sym E)).
Qed.

(** Fewer sleeping processes, and other contents of free descriptors. *)
Lemma vinv_free_desc s Q U D A : vinv s Q U → length D = length (desc s) → A ⊆ asleep_on s →
  (∀ j, 0 ≤ j → dfree s !! Z.to_nat j = Some false → D !! Z.to_nat j = desc s !! Z.to_nat j) →
  vinv (set_asleep A (set_desc D s)) Q U.
Proof.
  intros Hv HD HA Hj. pose proof Hv as Hv'. vinv_fields Hv. constructor; try assumption; simpl.
  - by rewrite HD.
  - intros p ph Hp. destruct (Hph p ph Hp) as (x & Hx & Hok). exists x. split; [done|].
    assert (∀ i, i ∈ idx_of ph → D !! Z.to_nat i = desc s !! Z.to_nat i) as Hd.
    { intros i Hi. destruct (Hidx p ph Hp) as [_ Hr]. rewrite list.Forall_forall in Hr. specialize (Hr i Hi).
      apply Hj; [lia|]. apply Hfree; [done|]. by exists p, ph. }
    destruct ph; [done|..]; destruct Hok as [Hc Hok]; (split; [|exact Hok]); by eapply chain_mem_frame.
  - intros p ch Hp. apply (Hslp p ch). by eapply lookup_weaken.
Qed.

Lemma vinv_no_filled s Q U p ph : vinv s Q U → vlock s = None → phases s !! p = Some ph → ¬ ∃ b w i0 i1 i2, ph = PFilled b w i0 i1 i2.
Proof.
  intros Hv Hl Hp (b & w & i0 & i1 & i2 & ->). destruct (vi_phase _ _ _ Hv _ _ Hp) as (x & _ & _ & _ & _ & E & _). congruence.
Qed.

(** Going to sleep. *)
Lemma vinv_sleep s Q U p ph x ch : vinv s Q U → phases s !! p = Some ph → vbufs s !! buf_of ph = Some x →
  asleep_ok s ph x ch → (∀ q ph', phases s !! q = Some ph' → ¬ ∃ b w i0 i1 i2, ph' = PFilled b w i0 i1 i2) → U = [] ∨ vlock s ≠ Some HIntr →
  vinv (set_vlock None (set_asleep (<[p := ch]> (asleep_on s)) s)) Q U.
Proof.
  intros Hv Hp Hx Hok Hnf HU. vinv_fields Hv. constructor; try assumption; simpl.
  - intros q ph' Hq. destruct (Hph q ph' Hq) as (y & Hy & Hoky). exists y. split; [done|].
    destruct ph'; [done| |exact Hoky]. destruct (Hnf _ _ Hq). by eauto 10.
  - intros HU'. left. destruct HU as [?|HU]; [done|]. by destruct (Hisr HU').
  - done.
  - intros q ch' [[<- <-]|[Hne Hq]]%lookup_insert_Some; [by exists ph, x|]. by apply Hslp.
Qed.

Lemma free_count_le F (i : nat) : (free_count (<[i := false]> F) ≤ free_count F)%nat.
Proof.
  destruct (F !! i) as [[]|] eqn:E; [by rewrite (free_count_alloc _ _ E); lia|..].
  - by rewrite list_insert_id.
  - rewrite list_insert_ge; [done|]. by apply lookup_ge_None.
Qed.
Lemma free_count_mark l F : (free_count (mark false l F) ≤ free_count F)%nat.
Proof.
  unfold mark. revert F. induction l as [|i l IH]; intros F; simpl; [done|]. etrans; [apply IH|apply free_count_le].
Qed.

Lemma free_not_owned s Q U i p ph : vinv s Q U → 0 ≤ i < NUM → dfree s !! Z.to_nat i = Some true →
  phases s !! p = Some ph → i ∉ idx_of ph.
Proof. intros Hv Hi Hf Hp Hin. assert (dfree s !! Z.to_nat i = Some false); [|congruence]. apply (vi_free _ _ _ Hv); eauto. Qed.

(** The number of requests in flight. *)
Lemma flight_range s Q U : vinv s Q U → Forall (λ i, 0 ≤ i < NUM) (Q ++ dv_taken (dvc s) ++ U).
Proof.
  intros Hv. apply list.Forall_forall. intros i Hi. destruct (vi_flight _ _ _ Hv i Hi) as (p & b & w & i1 & i2 & Hp).
  destruct (vi_idx _ _ _ Hv _ _ Hp) as [_ Hr]. by inversion Hr.
Qed.
Lemma flight_room s Q U i l : vinv s Q U → 0 ≤ i < NUM → i ∉ l → sublist l (Q ++ dv_taken (dvc s) ++ U) → (length l < num)%nat.
Proof.
  intros Hv Hi Hil Hl. change (length (i :: l) ≤ num)%nat. apply NoDup_num.
  - apply list.NoDup_cons. split; [done|]. eapply sublist_NoDup; [apply (vi_nodup _ _ _ Hv)|done].
  - constructor; [done|]. apply list.Forall_forall. intros j Hj.
    eapply (list.Forall_forall (λ i, 0 ≤ i < NUM)); [by apply flight_range|].
    eapply elem_of_submseteq; [done|by apply sublist_submseteq].
Qed.

Lemma vinv_fill s Q U p b w i0 i1 i2 x : vinv s Q U → phases s !! p = Some (PAlloc b w) → asleep_on s !! p = None →
  vlock s = None → vbufs s !! b = Some x → idxs [i0; i1; i2] →
  (∀ i, i ∈ [i0; i1; i2] → dfree s !! Z.to_nat i = Some true) →
  vinv (set_phases (<[p := PFilled b w i0 i1 i2]> (phases s))
    (formatted b w i0 i1 i2 x (set_dfree (mark false [i0; i1; i2] (dfree s)) (set_vlock (Some (HProc p)) s)))) Q U.
Proof.
  intros Hv Hp Hs Hl Hx Hi Ht. pose proof Hv as Hv'.
  assert (∀ i, i ∈ [i0; i1; i2] → 0 ≤ i < NUM) as Hr by (destruct Hi as [_ Hi]; by apply list.Forall_forall).
  assert (∀ q ph i, phases s !! q = Some ph → i ∈ [i0; i1; i2] → i ∉ idx_of ph) as Hdis.
  { intros q ph i Hq Hin. eapply free_not_owned; [done|by apply Hr|by apply Ht|done]. }
  assert (∀ i, i ∈ Q ++ dv_taken (dvc s) ++ U → i ≠ i0) as Hfl0.
  { intros i Hin ->. destruct (vi_flight _ _ _ Hv i0 Hin) as (q & b' & w' & j1 & j2 & Hq).
    apply (Hdis _ _ i0 Hq); [left|]. left. }
  pose proof (flight_room s Q U i0 Q Hv (Hr i0 ltac:(left)) ltac:(intros Hin; by destruct (Hfl0 i0 ltac:(set_solver)))
    ltac:(by apply sublist_inserts_r)) as HQ.
  destruct (Hr i0 ltac:(set_solver)) as [Hr0 Hr0'], (Hr i1 ltac:(set_solver)), (Hr i2 ltac:(set_solver)).
  pose proof (idxs_cons _ _ Hi) as (_ & Hn0 & (_ & Hn1 & _)%idxs_cons).
  assert (i0 ≠ i1 ∧ i0 ≠ i2 ∧ i1 ≠ i2) as (Hn01 & Hn02 & Hn12) by set_solver.
  vinv_fields Hv. destruct Hlen as (Ld & La & Lu & Lf & Li & Lo).
  constructor; vsimpl; try assumption.
  - by rewrite ?mark_length, !length_insert.
  - intros b' y [(<- & <- & _)|[Hne Hq]]%list_lookup_insert_Some; [|by eapply Hbufs]. exact (Hbufs _ _ Hx).
  - intros q ph [[<- <-]|[Hne Hq]]%lookup_insert_Some.
    + exists (mk_vbuf 1 (v_blockno x) (v_data x)). vsimpl. split; [by eapply list_lookup_insert_eq, lookup_lt_Some|].
      split; [|split; [done|split; [by intros Hin; destruct (Hfl0 i0 Hin)|split; [done|apply ins_eq; [apply num_mod_range|done]]]]].
      exact (formatted_chain b w i0 i1 i2 x s ltac:(done) Hi).
    + destruct (Hph q ph Hq) as (y & Hy & Hok). exists y. split.
      * rewrite list_lookup_insert_ne; [done|]. intros E. apply Hne. by eapply Hbuf.
      * destruct ph as [| |b' w' j0 j1 j2]; [done| |].
        { destruct (vinv_no_filled _ _ _ _ _ Hv' Hl Hq). by eauto 10. }
        destruct Hok as [Hc Hd]. split; [|exact Hd]. destruct (Hidx _ _ Hq) as [_ Hjr].
        refine (formatted_other b w i0 i1 i2 x s y b' w' j0 j1 j2 _ Hi _ Hjr Hc).
        intros i j Hin Hjn ->. by apply (Hdis _ _ j Hq).
  - intros q ph [[<- <-]|[Hne Hq]]%lookup_insert_Some; [exact Hi|by eapply Hidx].
  - intros q q' ph ph' i [[<- <-]|[Hne Hq]]%lookup_insert_Some [[<- <-]|[Hne' Hq']]%lookup_insert_Some Hin Hin'; [done|..];
      [by destruct (Hdis _ _ i Hq')|by destruct (Hdis _ _ i Hq)|by eapply Hown].
  - intros q q' ph ph' [[<- <-]|[Hne Hq]]%lookup_insert_Some [[<- <-]|[Hne' Hq']]%lookup_insert_Some E; [done|..];
      [by eapply (Hbuf p q' (PAlloc b w))|by eapply (Hbuf q p _ (PAlloc b w))|by eapply Hbuf].
  - intros i Hin. change (mark false [i0; i1; i2] (dfree s) !! Z.to_nat i = Some false ↔ ∃ q ph, <[p := PFilled b w i0 i1 i2]> (phases s) !! q = Some ph ∧ i ∈ idx_of ph).
    destruct (decide (i ∈ [i0; i1; i2])) as [Hi'|Hi'].
    + rewrite mark_in by first [by apply list_elem_of_fmap_2|rewrite Lf; unfold num, NUM in *; lia]. split; [|done]. intros _.
      exists p, (PFilled b w i0 i1 i2). by rewrite lookup_insert_eq.
    + rewrite mark_ne by (rewrite idxs_to_nat; [done|by destruct Hi|lia]). rewrite Hfree by done.
      split; intros (q & ph & Hq & Hin').
      * exists q, ph. split; [|done]. rewrite lookup_insert_ne; [done|]. intros <-. rewrite Hp in Hq.
        injection Hq as <-. by apply elem_of_nil in Hin'.
      * apply lookup_insert_Some in Hq as [[<- <-]|[Hne Hq]]; [done|eauto].
  - intros i Hin. destruct (Hfl i Hin) as (q & b' & w' & j1 & j2 & Hq). exists q, b', w', j1, j2.
    rewrite lookup_insert_ne; [done|congruence].
  - by apply window_last.
  - intros HU. destruct (Hisr HU) as [?|?]; [by left|congruence].
  - intros q [= <-]. exists b, w, i0, i1, i2. apply lookup_insert_eq.
  - intros q ch Hq. destruct (Hslp q ch Hq) as (ph & y & Hq' & Hy & Hok). exists ph, y.
    assert (p ≠ q) as Hpq by congruence. split; [by rewrite lookup_insert_ne|]. split.
    + rewrite list_lookup_insert_ne; [done|]. intros E. apply Hpq. by eapply Hbuf.
    + destruct ph; [|done..]. destruct Hok as [-> Hc]. split; [done|].
      pose proof (free_count_mark [i0; i1; i2] (dfree s)). simpl. simpl in *. lia.
Qed.

Lemma phase_buf s Q U p ph : vinv s Q U → phases s !! p = Some ph → is_Some (vbufs s !! buf_of ph).
Proof. intros Hv Hp. destruct (vi_phase _ _ _ Hv p ph Hp) as (x & Hx & _). eauto. Qed.

(** A lookup after changing the phase of [p] from [ph] to [ph'] with the same
    descriptors and buffer. *)
Lemma phases_change (m : gmap nat phase) p q ph ph' ph1 : m !! p = Some ph → <[p := ph']> m !! q = Some ph1 →
  idx_of ph' = idx_of ph → buf_of ph' = buf_of ph → ∃ ph2, m !! q = Some ph2 ∧ idx_of ph2 = idx_of ph1 ∧ buf_of ph2 = buf_of ph1.
Proof. intros Hp [[<- <-]|[Hne Hq]]%lookup_insert_Some Hi Hb; [exists ph; by rewrite Hi, Hb|by exists ph1]. Qed.

Lemma vinv_publish s Q U p b w i0 i1 i2 : vinv s Q U → phases s !! p = Some (PFilled b w i0 i1 i2) →
  let d := dvc s in
  vinv (set_vlock None (set_phases (<[p := PWait b w i0 i1 i2]> (phases s))
       (set_dvc (mk_dev (dv_avail d) (dv_taken d) (dv_sectors d) (dv_isr d) true)
       (set_avail (u16 (avail_idx s + 1)) (avail_ring s) s)))) (Q ++ [i0]) U.
Proof.
  intros Hv Hp d. subst d. pose proof Hv as Hv'. destruct (vi_phase _ _ _ Hv _ _ Hp) as (x & Hx & Hc & Hdx & Hn & Hlk & Hring).
  assert (∀ i, i ∈ (Q ++ [i0]) ++ dv_taken (dvc s) ++ U ↔ i = i0 ∨ i ∈ Q ++ dv_taken (dvc s) ++ U) as Hin by set_solver.
  assert (∀ i, i ∈ (Q ++ [i0]) ++ dv_taken (dvc s) ↔ i = i0 ∨ i ∈ Q ++ dv_taken (dvc s)) as Hin' by set_solver.
  vinv_fields Hv. constructor; vsimpl; try assumption.
  - intros q ph [[<- <-]|[Hne Hq]]%lookup_insert_Some.
    + exists x. split; [done|]. split.
      * rewrite decide_True by (apply Hin'; by left). exact Hc.
      * rewrite decide_True by (apply Hin; by left). exact Hdx.
    + destruct (Hph q ph Hq) as (y & Hy & Hok). exists y. split; [done|]. destruct ph as [| |b' w' j0 j1 j2]; [done| |].
      { destruct Hok as (_ & _ & _ & E & _). congruence. }
      assert (j0 ≠ i0) as Hj by (intros ->; apply Hne; eapply (Hown p q); [done..|left|left]).
      destruct Hok as [Hcy Hdy]. split; vsimpl.
      * erewrite decide_ext; [exact Hcy|]. rewrite Hin'. intuition.
      * erewrite decide_ext; [exact Hdy|]. rewrite Hin. intuition.
  - intros q ph Hq. destruct (phases_change _ _ _ _ _ _ Hp Hq eq_refl eq_refl) as (ph2 & Hq2 & <- & _). by eapply Hidx.
  - intros q q' ph ph' i Hq Hq'. destruct (phases_change _ _ _ _ _ _ Hp Hq eq_refl eq_refl) as (ph2 & Hq2 & <- & _).
    destruct (phases_change _ _ _ _ _ _ Hp Hq' eq_refl eq_refl) as (ph3 & Hq3 & <- & _). by eapply Hown.
  - intros q q' ph ph' Hq Hq'. destruct (phases_change _ _ _ _ _ _ Hp Hq eq_refl eq_refl) as (ph2 & Hq2 & _ & <-).
    destruct (phases_change _ _ _ _ _ _ Hp Hq' eq_refl eq_refl) as (ph3 & Hq3 & _ & <-). by eapply Hbuf.
  - intros i Hi. rewrite Hfree by done. split; intros (q & ph & Hq & Hiq).
    + destruct (decide (p = q)) as [<-|Hne]; [exists p, (PWait b w i0 i1 i2)|exists q, ph].
      * rewrite lookup_insert_eq. split; [done|]. rewrite Hp in Hq. by injection Hq as <-.
      * by rewrite lookup_insert_ne.
    + destruct (phases_change _ _ _ _ _ _ Hp Hq eq_refl eq_refl) as (ph2 & Hq2 & E & _). rewrite <- E in Hiq. eauto.
  - intros i Hi. apply Hin in Hi as [->|Hi]; [exists p, b, w, i1, i2; apply lookup_insert_eq|].
    destruct (Hfl i Hi) as (q & b' & w' & j1 & j2 & Hq). exists q, b', w', j1, j2. rewrite lookup_insert_ne; [done|congruence].
  - rewrite <- app_assoc. apply NoDup_Permutation_proper with (i0 :: Q ++ dv_taken (dvc s) ++ U); [solve_Permutation|].
    by apply list.NoDup_cons.
  - apply window_push; [done|]. by rewrite Hring.
  - intros HU. destruct (Hisr HU) as [?|?]; [by left|congruence].
  - done.
  - done.
  - intros q ch Hq. destruct (Hslp q ch Hq) as (ph & y & Hq' & Hy & Hok). exists ph, y.
    rewrite lookup_insert_ne; [done|]. intros <-. rewrite Hp in Hq'. by injection Hq' as <-.
Qed.

Lemma vinv_finish s Q U p b w i0 i1 i2 x D A : vinv s Q U → phases s !! p = Some (PWait b w i0 i1 i2) →
  vlock s = None → asleep_on s !! p = None → vbufs s !! b = Some x → v_disk x = 0 →
  length D = length (desc s) → (∀ j, 0 ≤ j → j ∉ [i0; i1; i2] → D !! Z.to_nat j = desc s !! Z.to_nat j) →
  A ⊆ asleep_on s → (∀ q, A !! q ≠ Some chan_free) →
  vinv (set_phases (delete p (phases s)) (set_asleep A (set_dfree (mark true [i0; i1; i2] (dfree s)) (set_desc D
       (set_info (<[Z.to_nat i0 := mk_info None 0]> (info s)) s))))) Q U.
Proof.
  intros Hv Hp Hlk Hps Hx Hdx HD HDj HA HAc. pose proof Hv as Hv'.
  destruct (vi_phase _ _ _ Hv _ _ Hp) as (x' & Hx' & Hc & Hd'). simpl in Hx'. rewrite Hx in Hx'. injection Hx' as <-.
  assert (i0 ∉ Q ++ dv_taken (dvc s) ++ U) as Hn0.
  { intros Hin. rewrite decide_True in Hd' by done. lia. }
  pose proof (vi_idx _ _ _ Hv _ _ Hp) as [Hnd0 Hr]. simpl in Hnd0, Hr.
  assert (∀ q ph j, phases s !! q = Some ph → p ≠ q → j ∈ idx_of ph → j ∉ [i0; i1; i2]) as Hdis.
  { intros q ph j Hq Hne Hj Hj'. apply Hne. by eapply (vi_own _ _ _ Hv p q). }
  assert (∀ q ph, delete p (phases s) !! q = Some ph → p ≠ q ∧ phases s !! q = Some ph) as Hdel.
  { intros q ph Hq. by apply lookup_delete_Some in Hq. }
  vinv_fields Hv. destruct Hlen as (Ld & La & Lu & Lf & Li & Lo). constructor; vsimpl; try assumption.
  - by rewrite mark_length, length_insert, HD.
  - intros q ph (Hne & Hq)%Hdel. destruct (Hph q ph Hq) as (y & Hy & Hok). exists y. split; [done|].
    destruct (Hidx _ _ Hq) as [_ Hrq]. rewrite list.Forall_forall in Hrq.
    destruct ph as [|b' w' j0 j1 j2|b' w' j0 j1 j2]; [done|..]; destruct Hok as [Hcy Hok]; (split; [|exact Hok]);
      (eapply chain_mem_frame; [exact Hcy| |done| |done]; vsimpl;
        [intros j Hj; apply HDj; [destruct (Hrq j Hj); lia|by eapply Hdis]|]);
      (apply ins_ne; [by inversion Hr; lia|destruct (Hrq j0 ltac:(left)); lia|]; intros <-;
        by apply (Hdis q _ i0 Hq Hne ltac:(left)); left).
  - intros q ph (Hne & Hq)%Hdel. by eapply Hidx.
  - intros q q' ph ph' i (Hne & Hq)%Hdel (Hne' & Hq')%Hdel. by eapply Hown.
  - intros q q' ph ph' (Hne & Hq)%Hdel (Hne' & Hq')%Hdel. by eapply Hbuf.
  - intros i Hi. destruct (decide (i ∈ [i0; i1; i2])) as [Hi'|Hi'].
    + rewrite mark_in by first [by apply list_elem_of_fmap_2|rewrite Lf; unfold num, NUM in *; lia].
      split; [done|]. intros (q & ph & (Hne & Hq)%Hdel & Hin). by destruct (Hdis q ph i Hq Hne Hin).
    + rewrite mark_ne by (rewrite idxs_to_nat; [done|done|lia]). rewrite Hfree by done. split.
      * intros (q & ph & Hq & Hin). exists q, ph. split; [|done]. apply lookup_delete_Some. split; [|done]. intros <-.
        rewrite Hp in Hq. by injection Hq as <-.
      * intros (q & ph & (Hne & Hq)%Hdel & Hin). eauto.
  - intros i Hi. destruct (Hfl i Hi) as (q & b' & w' & j1 & j2 & Hq). exists q, b', w', j1, j2.
    apply lookup_delete_Some. split; [|done]. intros <-. rewrite Hp in Hq. injection Hq as <- <- <- <- <-. done.
  - intros q Hq. congruence.
  - intros q ch Hq. assert (asleep_on s !! q = Some ch) as Hq1 by by eapply lookup_weaken.
    destruct (Hslp q ch Hq1) as (ph & y & Hq' & Hy & Hok). exists ph, y.
    split; [apply lookup_delete_Some; split; [congruence|done]|]. split; [done|].
    destruct ph; [|done..]. destruct Hok as [-> _]. by destruct (HAc q).
Qed.

Lemma vinv_intr_begin s Q U : vinv s Q U → vlock s = None →
  let d := dvc s in
  vinv (set_dvc (mk_dev (dv_avail d) (dv_taken d) (dv_sectors d) (Z.ldiff (dv_isr d) (Z.land (dv_isr d) 3)) (dv_kicked d))
       (set_vlock (Some HIntr) s)) Q U.
Proof.
  intros Hv Hl d. subst d. pose proof Hv as Hv'. vinv_fields Hv. constructor; vsimpl; try assumption.
  - intros p ph Hp. destruct (Hph p ph Hp) as (x & Hx & Hok). exists x. split; [done|]. destruct ph; [done| |exact Hok].
    destruct (vinv_no_filled _ _ _ _ _ Hv' Hl Hp). by eauto 10.
  - intros _. by right.
  - done.
Qed.

(** The end of the handler's loop, and its release of the lock. *)
Lemma vinv_set_lock s Q U l : vinv s Q U → (∀ p, vlock s ≠ Some (HProc p)) → (∀ p, l ≠ Some (HProc p)) →
  U = [] ∨ vlock s ≠ Some HIntr → vinv (set_vlock l s) Q U.
Proof.
  intros Hv Hl Hl' HU. vinv_fields Hv. constructor; vsimpl; try assumption.
  - intros p ph Hp. destruct (Hph p ph Hp) as (x & Hx & Hok). exists x. split; [done|]. destruct ph; [done| |exact Hok].
    destruct Hok as (_ & _ & _ & E & _). by destruct (Hl p).
  - intros HU'. destruct HU as [?|HU]; [done|]. destruct (Hisr HU') as [?|?]; [by left|done].
  - intros p Hp. by destruct (Hl' p).
Qed.

(** A request in flight, found from its head. *)
Lemma flight_wait s Q U i : vinv s Q U → i ∈ Q ++ dv_taken (dvc s) ++ U →
  ∃ p b w i1 i2 x, phases s !! p = Some (PWait b w i i1 i2) ∧ vbufs s !! b = Some x ∧ v_disk x = 1 ∧
    chain_mem s x b w i i1 i2 (if decide (i ∈ Q ++ dv_taken (dvc s)) then 0xff else 0) ∧ idxs [i; i1; i2].
Proof.
  intros Hv Hi. destruct (vi_flight _ _ _ Hv i Hi) as (p & b & w & i1 & i2 & Hp).
  destruct (vi_phase _ _ _ Hv _ _ Hp) as (x & Hx & Hc & Hd). rewrite decide_True in Hd by done.
  exists p, b, w, i1, i2, x. split_and!; try done. all: apply (vi_idx _ _ _ Hv _ _ Hp).
Qed.

(** Two requests with the same head are the same. *)
Lemma wait_inj s Q U p q b w i i1 i2 b' w' j1 j2 : vinv s Q U →
  phases s !! p = Some (PWait b w i i1 i2) → phases s !! q = Some (PWait b' w' i j1 j2) → p = q.
Proof. intros Hv Hp Hq. eapply (vi_own _ _ _ Hv _ _ _ _ i Hp Hq); left. Qed.

Lemma vinv_intr_step s Q U i p b w i1 i2 x : vinv s Q (i :: U) → vlock s = Some HIntr →
  phases s !! p = Some (PWait b w i i1 i2) → vbufs s !! b = Some x →
  vinv (set_used_idx (u16 (used_idx s + 1)) (set_asleep (filter (λ kv, kv.2 ≠ chan_io b) (asleep_on s))
       (set_vbufs (<[b := mk_vbuf 0 (v_blockno x) (v_data x)]> (vbufs s)) s))) Q U.
Proof.
  intros Hv Hlk Hp Hx. pose proof Hv as Hv'. vinv_fields Hv.
  assert (i ∉ Q ++ dv_taken (dvc s) ++ U) as Hni.
  { apply list.NoDup_cons. eapply NoDup_Permutation_proper; [|exact Hnd]. solve_Permutation. }
  assert (∀ q ph, phases s !! q = Some ph → p ≠ q → b ≠ buf_of ph) as Hbq.
  { intros q ph Hq Hne E. apply Hne. by eapply (Hbuf p q). }
  constructor; vsimpl; try assumption.
  - intros b' y [(<- & <- & _)|[Hne Hq]]%list_lookup_insert_Some; [exact (Hbufs _ _ Hx)|by eapply Hbufs].
  - intros q ph Hq. destruct (Hph q ph Hq) as (y & Hy & Hok). destruct (decide (p = q)) as [<-|Hne].
    + rewrite Hp in Hq. injection Hq as <-. simpl in Hy. rewrite Hx in Hy. injection Hy as <-.
      exists (mk_vbuf 0 (v_blockno x) (v_data x)). split; [by eapply list_lookup_insert_eq, lookup_lt_Some|].
      destruct Hok as [Hc _]. split; [exact Hc|]. vsimpl. by rewrite decide_False.
    + exists y. split; [rewrite list_lookup_insert_ne by (by eapply Hbq); done|].
      destruct ph as [|b' w' j0 j1 j2|b' w' j0 j1 j2]; [done| |].
      { destruct Hok as (_ & _ & _ & E & _). congruence. }
      destruct Hok as [Hc Hd]. split; [exact Hc|]. vsimpl. rewrite Hd. apply decide_ext.
      assert (j0 ≠ i) by (intros ->; apply Hne; by eapply wait_inj). set_solver.
  - intros j Hj. apply Hfl. set_solver.
  - eapply sublist_NoDup; [exact Hnd|]. apply sublist_app; [done|]. apply sublist_app; [done|]. by apply sublist_cons.
  - by apply window_pop in Hus as [_ Hus].
  - intros _. by right.
  - intros q ch [Hq Hch]%map_lookup_filter_Some. destruct (Hslp q ch Hq) as (ph & y & Hq' & Hy & Hok). exists ph, y.
    split; [done|]. split; [|exact Hok]. rewrite list_lookup_insert_ne; [done|]. apply (Hbq q ph Hq'). intros <-.
    rewrite Hp in Hq'. injection Hq' as <-. by destruct Hok as [-> _].
Qed.

Lemma vinv_fetch s Q U s' : vinv s Q U → dev_fetch s = Some s' → ∃ i Q', Q = i :: Q' ∧ vinv s' Q' U ∧
  ∃ d, s' = set_dvc d s ∧ dv_sectors d = dv_sectors (dvc s) ∧ dv_taken d = dv_taken (dvc s) ++ [i].
Proof.
  intros Hv Hf. unfold dev_fetch in Hf. pose proof (flight_range _ _ _ Hv) as Hr.
  assert (length Q ≤ num)%nat as HQ.
  { apply NoDup_num; [|by apply Forall_app in Hr as [? _]]. pose proof (vi_nodup _ _ _ Hv) as Hn. by apply list.NoDup_app in Hn as [? _]. }
  destruct (Z.eqb_spec (dv_avail (dvc s)) (avail_idx s)) as [E|E]; [done|].
  rewrite (window_empty _ _ _ _ _ (vi_avail _ _ _ Hv) HQ) in E. destruct Q as [|i Q']; [done|].
  destruct (window_pop _ _ _ _ _ _ (vi_avail _ _ _ Hv)) as [Hi Hw].
  destruct (avail_ring s !! Z.to_nat (dv_avail (dvc s) mod NUM)) as [j|] eqn:Ej; [|done]. simpl in Hi. injection Hi as ->.
  simpl in Hf. injection Hf as <-. exists i, Q'. split; [done|]. split; [|by eexists].
  assert (∀ j, j ∈ Q' ++ dv_taken (dvc s) ++ [i] ↔ j ∈ (i :: Q') ++ dv_taken (dvc s)) as Hin by set_solver.
  assert (∀ j, j ∈ Q' ++ (dv_taken (dvc s) ++ [i]) ++ U ↔ j ∈ (i :: Q') ++ dv_taken (dvc s) ++ U) as Hin' by set_solver.
  vinv_fields Hv. constructor; vsimpl; try assumption.
  - intros p ph Hp. destruct (Hph p ph Hp) as (x & Hx & Hok). exists x. split; [done|].
    destruct ph as [|b w i0 i1 i2|b w i0 i1 i2]; [done|..].
    + destruct Hok as (Hc & Hd & Hn & Hok). split; [exact Hc|]. split; [done|]. split; [by rewrite Hin'|exact Hok].
    + destruct Hok as (Hc & Hd). split; vsimpl; [by erewrite decide_ext; [exact Hc|]|by erewrite decide_ext; [exact Hd|]].
  - intros j Hj. apply Hfl. by apply Hin'.
  - eapply NoDup_Permutation_proper; [|exact Hnd]. solve_Permutation.
  - intros _. by apply Hkick.
Qed.

Lemma vinv_idle s Q U s' : vinv s Q U → dev_idle s = Some s' → vinv s' Q U ∧
  s' = set_dvc (mk_dev (dv_avail (dvc s)) (dv_taken (dvc s)) (dv_sectors (dvc s)) (dv_isr (dvc s)) false) s.
Proof.
  intros Hv Hf. unfold dev_idle in Hf. destruct (Z.eqb_spec (dv_avail (dvc s)) (avail_idx s)) as [E|E]; [|done].
  injection Hf as <-. split; [|done]. apply (window_empty _ _ _ _ _ (vi_avail _ _ _ Hv)) in E.
  - subst Q. vinv_fields Hv. by constructor.
  - pose proof (vi_nodup _ _ _ Hv) as (Hn & _)%list.NoDup_app. pose proof (flight_range _ _ _ Hv) as [? _]%Forall_app.
    by apply NoDup_num.
Qed.

(** What the device reads is the request the driver meant. *)
Lemma dev_request_ok s x b w i0 i1 i2 st : chain_mem s x b w i0 i1 i2 st →
  dev_request s i0 = Some (mk_req (if w then VIRTIO_BLK_T_OUT else VIRTIO_BLK_T_IN) 0 (sector_of (v_blockno x)), b, BSIZE, i0).
Proof.
  intros (H0 & H1 & H2 & Ho & Hi). unfold dev_request. rewrite H0. simpl. rewrite H1. simpl. rewrite H2. simpl.
  rewrite Ho. simpl. by destruct w.
Qed.

Lemma read_sectors_length f a n : (∀ k, length (f k) = sector_size) → length (read_sectors f a n) = (n * sector_size)%nat.
Proof. intros Hf. revert a. induction n as [|n IH]; intros a; cbn [read_sectors]; [done|]. rewrite length_app, Hf, IH. lia. Qed.

Lemma write_sectors_length f a n l : (∀ k, length (f k) = sector_size) → length l = (n * sector_size)%nat →
  ∀ k, length (write_sectors f a n l k) = sector_size.
Proof.
  revert f a l. induction n as [|n IH]; intros f a l Hf Hl k; cbn [write_sectors]; [done|]. apply IH.
  - intros j. case_z_on (j =? a) idtac; [|done]. rewrite length_take. lia.
  - rewrite length_drop. lia.
Qed.

(** The transfer of a block, to a buffer or to the disk. *)
Lemma vinv_data s Q U b x l : vinv s Q U → vbufs s !! b = Some x → length l = Z.to_nat BSIZE →
  vinv (set_vbufs (<[b := mk_vbuf (v_disk x) (v_blockno x) l]> (vbufs s)) s) Q U.
Proof.
  intros Hv Hx Hl. vinv_fields Hv.
  assert (∀ b' y, vbufs s !! b' = Some y → ∃ y', <[b := mk_vbuf (v_disk x) (v_blockno x) l]> (vbufs s) !! b' = Some y' ∧
    v_disk y' = v_disk y ∧ v_blockno y' = v_blockno y) as Hy.
  { intros b' y Hy. destruct (decide (b = b')) as [<-|Hne].
    - eexists. split; [by eapply list_lookup_insert_eq, lookup_lt_Some|]. rewrite Hx in Hy. by injection Hy as <-.
    - exists y. by rewrite list_lookup_insert_ne. }
  constructor; vsimpl; try assumption.
  - intros b' y [(<- & <- & _)|[Hne Hq]]%list_lookup_insert_Some; [|by eapply Hbufs]. split; [|done]. exact (proj1 (Hbufs _ _ Hx)).
  - intros p ph Hp. destruct (Hph p ph Hp) as (y & Hb & Hok). destruct (Hy _ _ Hb) as (y' & Hy' & Ed & Eb).
    exists y'. split; [done|]. destruct ph; [done|..].
    + destruct Hok as (Hc & Hd & Hok). split; [|split; [congruence|exact Hok]]. by eapply chain_mem_frame.
    + destruct Hok as (Hc & Hd). split; [|vsimpl; congruence]. by eapply chain_mem_frame.
  - intros p ch Hp. destruct (Hslp p ch Hp) as (ph & y & Hq & Hb & Hok). destruct (Hy _ _ Hb) as (y' & Hy' & Ed & Eb).
    exists ph, y'. split; [done|]. split; [done|]. destruct ph; [done|done|]. destruct Hok as [? ?]. split; [done|congruence].
Qed.

Lemma vinv_sectors s Q U f : vinv s Q U → (∀ a, length (f a) = sector_size) → let d := dvc s in
  vinv (set_dvc (mk_dev (dv_avail d) (dv_taken d) f (dv_isr d) (dv_kicked d)) s) Q U.
Proof. intros Hv Hf d. vinv_fields Hv. by constructor. Qed.

Lemma taken_perm (l : list Z) i : NoDup l → i ∈ l → l ≡ₚ i :: filter (λ j, j ≠ i) l.
Proof.
  intros Hn Hi. apply NoDup_Permutation; [done| |].
  - apply list.NoDup_cons. split; [|by apply list.NoDup_filter]. by intros [? _]%list_elem_of_filter.
  - intros j. rewrite elem_of_cons, list_elem_of_filter. destruct (decide (j = i)) as [->|]; naive_solver.
Qed.

Lemma vinv_served s Q U i n : vinv s Q U → i ∈ dv_taken (dvc s) → let d := dvc s in
  vinv (set_info (alter (λ x, mk_info (i_b x) 0) (Z.to_nat i) (info s))
       (set_used (u16 (used_idx_dev s + 1)) (<[Z.to_nat (used_idx_dev s mod NUM) := (i, n)]> (used_ring s))
       (set_dvc (mk_dev (dv_avail d) (filter (λ j, j ≠ i) (dv_taken d)) (dv_sectors d) (Z.lor (dv_isr d) 1) (dv_kicked d)) s)))
    Q (U ++ [i]).
Proof.
  intros Hv Hi d. subst d.
  destruct (flight_wait s Q U i Hv ltac:(set_solver)) as (p & b & w & i1 & i2 & x & Hp & Hx & Hd & Hc & _ & Hr).
  assert (NoDup (dv_taken (dvc s)) ∧ (i ∉ Q) ∧ (i ∉ U)) as (Hnt & HiQ & HiU).
  { pose proof (vi_nodup _ _ _ Hv) as (_ & H1 & (H2 & H3 & _)%list.NoDup_app)%list.NoDup_app. split; [done|]. split.
    - intros HQ. apply (H1 i HQ). set_solver.
    - by apply H3. }
  pose proof (taken_perm _ _ Hnt Hi) as Hperm. set (T := filter (λ j, j ≠ i) (dv_taken (dvc s))) in *.
  assert (i ∉ T) as HiT by (unfold T; rewrite list_elem_of_filter; naive_solver).
  assert (∀ j, j ≠ i → j ∈ T ↔ j ∈ dv_taken (dvc s)) as HT by (intros j Hj; unfold T; rewrite list_elem_of_filter; naive_solver).
  pose proof (flight_room s Q U i U Hv ltac:(by inversion Hr) HiU ltac:(by apply sublist_inserts_l, sublist_inserts_l)) as HU.
  assert (∀ j0, j0 ≠ i → alter (λ x, mk_info (i_b x) 0) (Z.to_nat i) (info s) !! Z.to_nat j0 = info s !! Z.to_nat j0 ∨ ¬ 0 ≤ j0) as Hal.
  { intros j0 Hne. destruct (decide (0 ≤ j0)); [left|by right]. apply list_lookup_alter_ne. inversion Hr; lia. }
  pose proof Hv as Hv'. vinv_fields Hv. destruct Hlen as (Ld & La & Lu & Lf & Li & Lo). constructor; vsimpl; try assumption.
  - by rewrite length_insert, length_alter.
  - intros q ph Hq. destruct (Hph q ph Hq) as (y & Hy & Hok). exists y. split; [done|].
    destruct ph as [|b' w' j0 j1 j2|b' w' j0 j1 j2]; [done|..]; destruct (Hidx _ _ Hq) as [_ Hrq]; simpl in Hrq;
      assert (0 ≤ j0) as Hj0 by (inversion Hrq; lia).
    + destruct Hok as (Hcy & Hdy & Hn & Hok). assert (j0 ≠ i) as Hne by set_solver.
      destruct (Hal j0 Hne) as [Ha|?]; [|done].
      split; [by eapply chain_mem_frame|]. split; [done|]. split; [|exact Hok]. vsimpl. set_solver.
    + destruct Hok as (Hcy & Hdy). destruct (decide (j0 = i)) as [->|Hne].
      * rewrite decide_True in Hcy by set_solver. rewrite decide_True in Hdy by set_solver.
        split; vsimpl; [|rewrite decide_True by set_solver; done]. rewrite decide_False by set_solver.
        destruct Hcy as (H0 & H1 & H2 & Ho & Hif). split_and!; try done. vsimpl. by rewrite list_lookup_alter_eq, Hif.
      * destruct (Hal j0 Hne) as [Ha|?]; [|done]. split; vsimpl.
        -- erewrite decide_ext; [by eapply chain_mem_frame|]. rewrite !elem_of_app, HT by done. done.
        -- erewrite decide_ext; [done|]. rewrite !elem_of_app, HT by done. set_solver.
  - intros j Hj. apply Hfl. rewrite !elem_of_app in *. destruct (decide (j = i)) as [->|Hne]; [by right; left|].
    rewrite HT in Hj by done. set_solver.
  - eapply NoDup_Permutation_proper; [|exact Hnd]. rewrite Hperm. solve_Permutation.
  - apply window_push; [by apply window_last|]. rewrite ins_eq; [done|apply num_mod_range|done].
  - intros _. left. by rewrite Z.lor_spec, orb_true_r.
Qed.

(** *** Calls as their callers see them

    A call is to be done until the device has written its status, then done. *)

Inductive call := CTodo (b : nat) (write : bool) | CDone (b : nat) (write : bool).

Definition served (s : vst) (ph : phase) : bool :=
  match ph with
  | PWait _ _ i0 _ _ => match info s !! Z.to_nat i0 with Some x => i_status x =? 0 | None => false end
  | _ => false
  end.
Definition call_of (done : bool) (ph : phase) : call :=
  if done then CDone (buf_of ph) (write_of ph) else CTodo (buf_of ph) (write_of ph).
Definition calls (s : vst) : gmap nat call := (λ ph, call_of (served s ph) ph) <$> phases s.

(** The same from the requests [L] that are published and not served. *)
Definition served_in (L : list Z) (ph : phase) : bool :=
  match ph with PWait _ _ i0 _ _ => bool_decide (i0 ∉ L) | _ => false end.

Lemma calls_in s Q U p : vinv s Q U →
  calls s !! p = (λ ph, call_of (served_in (Q ++ dv_taken (dvc s)) ph) ph) <$> phases s !! p.
Proof.
  intros Hv. unfold calls. rewrite lookup_fmap. destruct (phases s !! p) as [ph|] eqn:Hp; simpl; [|done].
  destruct (vi_phase _ _ _ Hv _ _ Hp) as (x & _ & Hok). do 2 f_equal. destruct ph as [| |b w i0 i1 i2]; [done..|].
  destruct Hok as ((_ & _ & _ & _ & Hi) & _). cbn [served served_in]. rewrite Hi. case_decide; simpl.
  - by rewrite bool_decide_false by naive_solver.
  - by rewrite bool_decide_true.
Qed.

Definition contents (s : vst) : list (Z * list byte) := (λ x, (v_blockno x, v_data x)) <$> vbufs s.

(** A step that callers do not see, and the return of a call. *)
Definition quiet (s s' : vst) : Prop :=
  calls s' = calls s ∧ contents s' = contents s ∧ dv_sectors (dvc s') = dv_sectors (dvc s).
Definition returns (s s' : vst) : Prop :=
  contents s' = contents s ∧ dv_sectors (dvc s') = dv_sectors (dvc s) ∧
  ∃ p b w, calls s !! p = Some (CDone b w) ∧ calls s' = delete p (calls s).

Definition step_ok (s s' : vst) : Prop := (∃ Q U, vinv s' Q U) ∧ (quiet s s' ∨ returns s s').

Lemma contents_insert s b x y : vbufs s !! b = Some x → v_blockno y = v_blockno x → v_data y = v_data x →
  (λ x, (v_blockno x, v_data x)) <$> <[b := y]> (vbufs s) = contents s.
Proof.
  intros Hx E1 E2. unfold contents. rewrite list_fmap_insert, E1, E2. apply list_insert_id. by rewrite list_lookup_fmap, Hx.
Qed.

(** Steps that change neither phases nor the requests to be served. *)
Lemma quiet_same s s' Q U Q' U' : vinv s Q U → vinv s' Q' U' → phases s' = phases s →
  (∀ i, i ∈ Q' ++ dv_taken (dvc s') ↔ i ∈ Q ++ dv_taken (dvc s)) → contents s' = contents s →
  dv_sectors (dvc s') = dv_sectors (dvc s) → quiet s s'.
Proof.
  intros Hv Hv' Hp Hin Hc Hs. split; [|done]. apply map_eq. intros p.
  rewrite (calls_in _ _ _ _ Hv), (calls_in _ _ _ _ Hv'), Hp. destruct (phases s !! p) as [ph|]; [|done]. simpl. do 2 f_equal.
  destruct ph; [done..|]. simpl. apply bool_decide_ext. by rewrite Hin.
Qed.

Lemma wp_assoc {S A B C} (c : M S A) (f : A → M S B) (g : B → M S C) s (R : C → S → Prop) :
  wp ((c ≫= f) ≫= g) s R → wp (c ≫= λ a, f a ≫= g) s R.
Proof. unfold wp, mbind, M_bind. by destruct (c s). Qed.

Lemma rw_alloc_ok s Q U p b w : vinv s Q U → phases s !! p = Some (PAlloc b w) → asleep_on s !! p = None → vlock s = None →
  wp (rw_alloc p b w) s (λ _ s', step_ok s s').
Proof.
  intros Hv Hp Hs Hl. destruct (vi_phase _ _ _ Hv _ _ Hp) as (x & Hx & _). simpl in Hx. unfold rw_alloc, alloc3_desc. wp_step. wp_step. wp_step.
  destruct (vi_len _ _ _ Hv) as (Ld & La & Lu & Lf & Li & Lo).
  eapply wp_mono; [apply (alloc3_desc_loop_wp 3 [] _ (dfree s)); [done|done|split; constructor|by intros i ?%elem_of_nil|done|done]|].
  intros [l|] s1.
  - intros (Hl3 & Hi & Ht & ->). destruct l as [|i0 [|i1 [|i2 [|]]]]; try done. apply wp_assoc. wp_step.
    eapply wp_mono; [apply (rw_format_wp b w i0 i1 i2 _ x); [|done|done]|].
    { unfold lens. vsimpl. by rewrite mark_length. }
    intros [] s2 ->. unfold set_phase. wp_step.
    pose proof (vinv_fill s Q U p b w i0 i1 i2 x Hv Hp Hs Hl Hx Hi Ht) as Hv'. split; [by exists Q, U|]. left.
    split; [|split; [by apply (contents_insert s b x)|done]]. apply map_eq. intros q.
    rewrite (calls_in _ _ _ _ Hv), (calls_in _ _ _ _ Hv'). vsimpl. destruct (decide (p = q)) as [<-|Hne].
    + by rewrite lookup_insert_eq, Hp.
    + by rewrite lookup_insert_ne.
  - intros (Hc & D & A & -> & HD & HA & Hj). unfold vsleep. wp_step.
    pose proof (vinv_free_desc s Q U D A Hv HD HA Hj) as Hv1.
    pose proof (vinv_sleep _ _ _ p (PAlloc b w) x chan_free Hv1 Hp Hx ltac:(split; [done|vsimpl; simpl in Hc; lia])
      ltac:(intros q ph'; exact (vinv_no_filled _ _ _ q ph' Hv Hl)) ltac:(right; vsimpl; congruence)) as Hv2.
    split; [by exists Q, U|]. left. by eapply (quiet_same _ _ _ _ _ _ Hv Hv2).
Qed.

Lemma rd_buf_wp b s x (R : vbuf → vst → Prop) : vbufs s !! b = Some x → R x s → wp (rd vbufs (Z.of_nat b)) s R.
Proof. intros Hx HR. eapply rd_wp; [lia|by rewrite Nat2Z.id|done]. Qed.

Lemma rw_publish_ok s Q U p b w i0 i1 i2 : vinv s Q U → phases s !! p = Some (PFilled b w i0 i1 i2) →
  wp (rw_publish p b w i0 i1 i2) s (λ _ s', step_ok s s').
Proof.
  intros Hv Hp. destruct (vi_phase _ _ _ Hv _ _ Hp) as (x & Hx & Hc & Hd & Hn & Hlk & _). simpl in Hx.
  unfold rw_publish, queue_notify, set_phase, rw_wait, vsleep. wp_steps. eapply rd_buf_wp; [exact Hx|]. rewrite Hd. simpl. wp_step.
  pose proof (vinv_publish s Q U p b w i0 i1 i2 Hv Hp) as Hv1. cbv zeta in Hv1.
  eapply (vinv_sleep _ _ _ p (PWait b w i0 i1 i2) x (chan_io b)) in Hv1 as Hv2.
  - split; [by eexists _, _|]. left. split; [|done]. apply map_eq. intros q.
    rewrite (calls_in _ _ _ _ Hv), (calls_in _ _ _ _ Hv2). vsimpl. destruct (decide (p = q)) as [<-|Hne].
    + rewrite lookup_insert_eq, Hp. simpl. rewrite bool_decide_false; [done|]. set_solver.
    + rewrite lookup_insert_ne by done. destruct (phases s !! q) as [[| |b' w' j0 j1 j2]|] eqn:Hq; [done..| |done].
      simpl. do 2 f_equal. apply bool_decide_ext.
      assert (j0 ≠ i0) by (intros ->; apply Hne; eapply (vi_own _ _ _ Hv _ _ _ _ i0 Hp Hq); left). set_solver.
  - apply lookup_insert_eq.
  - done.
  - done.
  - vsimpl. intros q ph'. destruct (decide (p = q)) as [<-|Hne]; [rewrite lookup_insert_eq|rewrite lookup_insert_ne by done].
    + intros [= <-]. naive_solver.
    + intros Hq (b' & w' & j0 & j1 & j2 & ->). destruct (vi_phase _ _ _ Hv _ _ Hq) as (y & _ & _ & _ & _ & E & _). congruence.
  - by right.
Qed.

(** The chain through the descriptors [i :: l]. *)
Fixpoint linked (D : list virtq_desc) (i : Z) (l : list Z) : Prop :=
  ∃ d, D !! Z.to_nat i = Some d ∧
    match l with
    | [] => band (d_flags d) VRING_DESC_F_NEXT = false
    | j :: l => band (d_flags d) VRING_DESC_F_NEXT = true ∧ d_next d = j ∧ linked D j l
    end.

Lemma linked_ext D D' i l : (∀ j, j ∈ i :: l → D' !! Z.to_nat j = D !! Z.to_nat j) → linked D i l → linked D' i l.
Proof.
  revert i. induction l as [|j l IH]; intros i Hj (d & Hd & Hl); exists d; rewrite Hj by left; split; [done..|].
  destruct Hl as (Hf & Hn & Hl). split; [done|]. split; [done|]. apply IH; [|done]. intros k Hk. apply Hj. by right.
Qed.

Lemma free_chain_loop_wp l fuel i s : (length l < fuel)%nat → length (desc s) = num → length (dfree s) = num → idxs (i :: l) →
  linked (desc s) i l → (∀ j, j ∈ i :: l → dfree s !! Z.to_nat j = Some false) →
  wp (free_chain_loop fuel i) s (λ (_ : unit) s', freed (i :: l) s s').
Proof.
  revert fuel i s. induction l as [|k l IH]; intros [|fuel] i s Hfu Hd Hdf Hidx Hlk Hf; try (simpl in Hfu; lia);
    destruct Hlk as (d & Hx & Hlk); pose proof Hidx as (Hi & Hil & Hl)%idxs_cons; cbn [free_chain_loop];
    (wp_step; eapply rd_wp; [lia|exact Hx|]; wp_step;
     eapply wp_mono; [apply free_desc_wp; [done..|apply Hf; left]|]; intros [] s1 Hs1).
  - rewrite Hlk. by wp_step.
  - destruct Hlk as (-> & -> & Hlk). pose proof Hs1 as (D & A & E & HD & HDj & _).
    assert (∀ j, j ∈ k :: l → 0 ≤ j ∧ j ∉ [i]) as Hkl.
    { intros j Hj. destruct Hl as [_ Hl]. rewrite list.Forall_forall in Hl. destruct (Hl j Hj). split; [done|].
      intros ->%list_elem_of_singleton. done. }
    eapply wp_mono; [apply (IH fuel k s1)|intros [] s' Hs'; by eapply freed_cons]; rewrite ?E; vsimpl.
    + simpl in Hfu. lia.
    + congruence.
    + by rewrite mark_length.
    + done.
    + eapply linked_ext; [|exact Hlk]. intros j Hj. by apply HDj; apply Hkl.
    + intros j Hj. rewrite mark_ne; [apply Hf; by right|]. rewrite idxs_to_nat; [|by apply Forall_singleton|]; by apply Hkl.
Qed.

Lemma set_vlock_id s : vlock s = None → set_vlock None s = s.
Proof. intros E. destruct s. by simpl in *; subst. Qed.

Lemma rw_resume_ok s Q U p b w i0 i1 i2 : vinv s Q U → phases s !! p = Some (PWait b w i0 i1 i2) →
  asleep_on s !! p = None → vlock s = None → wp (rw_resume p b i0) s (λ _ s', step_ok s s').
Proof.
  intros Hv Hp Hs Hl. destruct (vi_phase _ _ _ Hv _ _ Hp) as (x & Hx & Hc & Hd). simpl in Hx.
  unfold rw_resume, rw_wait. wp_steps. eapply rd_buf_wp; [exact Hx|]. rewrite Hd. case_decide as Hin; simpl.
  - unfold vsleep. wp_step.
    pose proof (vinv_sleep _ _ _ p (PWait b w i0 i1 i2) x (chan_io b) Hv Hp Hx ltac:(done)
      ltac:(intros q ph'; exact (vinv_no_filled _ _ _ q ph' Hv Hl)) ltac:(right; congruence)) as Hv2.
    split; [by exists Q, U|]. left. by eapply (quiet_same _ _ _ _ _ _ Hv Hv2).
  - rewrite decide_False in Hc by set_solver. destruct (vi_len _ _ _ Hv) as (Ld & La & Lu & Lf & Li & Lo).
    pose proof (vi_idx _ _ _ Hv _ _ Hp) as Hi. simpl in Hi. pose proof Hi as (R0 & _)%idxs_cons.
    pose proof Hc as (H0 & H1 & H2 & Ho & Hif).
    wp_step. eapply wr_wp; [lia|exact Hif|]. cbn [i_status]. wp_step.
    eapply wp_mono.
    { apply (free_chain_loop_wp [i1; i2]); [unfold num, NUM; simpl; lia|done|done|done| |].
      - exists (mk_desc (AOps i0) sizeof_virtio_blk_req VRING_DESC_F_NEXT i1). split; [exact H0|]. split; [done|]. split; [done|].
        eexists. split; [exact H1|]. split; [by destruct w|]. split; [done|]. by eexists.
      - intros i Hi'. vsimpl. destruct Hi as [_ Hr]. rewrite list.Forall_forall in Hr. apply (vi_free _ _ _ Hv); [by apply Hr|]. eauto. }
    intros [] s1 (D & A & -> & HD & HDl & HA & HAc). unfold set_phase. wp_steps.
    pose proof (vinv_finish s Q U p b w i0 i1 i2 x D A Hv Hp Hl Hs Hx Hd HD HDl HA
      (HAc ltac:(done))) as Hv2.
    rewrite <- (set_vlock_id _ Hl) in Hv2.
    split; [by exists Q, U|]. right. split; [done|]. split; [done|]. exists p, b, w. split.
    + rewrite (calls_in _ _ _ _ Hv), Hp. simpl. rewrite bool_decide_true by set_solver. done.
    + apply map_eq. intros q. rewrite (calls_in _ _ _ _ Hv2). vsimpl. destruct (decide (p = q)) as [<-|Hne].
      * by rewrite !lookup_delete_eq.
      * rewrite !lookup_delete_ne by done. by rewrite (calls_in _ _ _ _ Hv).
Qed.

Lemma intr_begin_ok s Q U : vinv s Q U → vlock s = None → wp intr_begin s (λ _ s', step_ok s s').
Proof.
  intros Hv Hl. unfold intr_begin, interrupt_status, interrupt_ack. wp_steps.
  pose proof (vinv_intr_begin s Q U Hv Hl) as Hv2. split; [by exists Q, U|]. left. by eapply (quiet_same _ _ _ _ _ _ Hv Hv2).
Qed.

Lemma intr_end_ok s Q U : vinv s Q U → vlock s = Some HIntrEnd → wp intr_end s (λ _ s', step_ok s s').
Proof.
  intros Hv Hl. unfold intr_end. wp_steps.
  pose proof (vinv_set_lock s Q U None Hv ltac:(congruence) ltac:(done) ltac:(right; congruence)) as Hv2.
  split; [by exists Q, U|]. left. by eapply (quiet_same _ _ _ _ _ _ Hv Hv2).
Qed.

Lemma intr_iter_ok s Q U : vinv s Q U → vlock s = Some HIntr → wp intr_iter s (λ _ s', step_ok s s').
Proof.
  intros Hv Hl. unfold intr_iter. wp_steps.
  assert (length U ≤ num)%nat as HU.
  { apply NoDup_num.
    - eapply sublist_NoDup; [apply (vi_nodup _ _ _ Hv)|]. by apply sublist_inserts_l, sublist_inserts_l.
    - pose proof (flight_range _ _ _ Hv) as [_ [_ ?]%Forall_app]%Forall_app. done. }
  pose proof (window_empty _ _ _ _ _ (vi_used _ _ _ Hv) HU) as He.
  destruct (Z.eqb_spec (used_idx s) (used_idx_dev s)) as [E|E].
  - wp_step. rewrite He in E. subst U.
    pose proof (vinv_set_lock s Q [] (Some HIntrEnd) Hv ltac:(congruence) ltac:(done) ltac:(by left)) as Hv2.
    split; [by exists Q, []|]. left. by eapply (quiet_same _ _ _ _ _ _ Hv Hv2).
  - rewrite He in E. destruct U as [|i U]; [done|]. clear E He.
    destruct (flight_wait s Q (i :: U) i Hv ltac:(set_solver)) as (p & b & w & i1 & i2 & x & Hp & Hx & Hd & Hc & Hi).
    assert (i ∉ Q ++ dv_taken (dvc s)) as Hni.
    { intros Hin. pose proof (vi_nodup _ _ _ Hv) as Hn. rewrite app_assoc in Hn. apply list.NoDup_app in Hn as (_ & Hn & _).
      apply (Hn i Hin). left. }
    rewrite decide_False in Hc by done. destruct Hc as (_ & _ & _ & _ & Hif). pose proof Hi as ((Hi0 & Hi8) & _)%idxs_cons.
    destruct (window_pop _ _ _ _ _ _ (vi_used _ _ _ Hv)) as [Hr _].
    destruct (used_ring s !! Z.to_nat (used_idx s mod NUM)) as [[i' n]|] eqn:Er; [|done]. simpl in Hr. injection Hr as ->.
    wp_step. eapply rd_wp; [apply num_mod_range|exact Er|]. cbn [fst].
    rewrite (i32_small i) by (unfold NUM in *; lia). wp_step. eapply rd_wp; [done|exact Hif|]. cbn [i_status i_b Z.eqb negb].
    wp_step. eapply wr_wp; [lia|by rewrite Nat2Z.id|]. unfold vwakeup. wp_steps. rewrite Nat2Z.id.
    pose proof (vinv_intr_step s Q U i p b w i1 i2 x Hv Hl Hp Hx) as Hv2.
    split; [by exists Q, U|]. left. eapply (quiet_same _ _ _ _ _ _ Hv Hv2); [done|done| |done]. by apply (contents_insert s b x).
Qed.

(** Every piece of driver code that runs returns and keeps the invariant. *)
Lemma driver_ok s Q U c : vinv s Q U → driver s c → wp c s (λ _ s', step_ok s s').
Proof.
  intros Hv []; [by eapply rw_alloc_ok|by eapply rw_publish_ok|by eapply rw_resume_ok|by eapply intr_begin_ok
    |by eapply intr_iter_ok|by eapply intr_end_ok].
Qed.

(** ** The atomic disk

    A call's effect is that of [Bio.virtio_disk_rw] on the buffers and the
    blocks, at a single point between the call and its return. *)

Inductive astep : bst * gmap nat call → bst * gmap nat call → Prop :=
| astep_call B m p b w : m !! p = None → (b < length (bufs B))%nat →
    (∀ q b' w', m !! q = Some (CTodo b' w') ∨ m !! q = Some (CDone b' w') → b' ≠ b) →
    astep (B, m) (B, <[p := CTodo b w]> m)
| astep_client B m b n l : (∀ q b' w', m !! q = Some (CTodo b' w') ∨ m !! q = Some (CDone b' w') → b' ≠ b) →
    astep (B, m) (set_bufs (alter (λ y, bset_data l (bset_id (b_dev y) n y)) b (bufs B)) B, m)
| astep_transfer B B' m p b w : m !! p = Some (CTodo b w) → Bio.virtio_disk_rw b w B = Ok tt B' →
    astep (B, m) (B', <[p := CDone b w]> m)
| astep_return B m p b w : m !! p = Some (CDone b w) → astep (B, m) (B, delete p m).

(** A block is two sectors. *)
Definition block (f : Z → list byte) (n : Z) : list byte := f (2 * n) ++ f (2 * n + 1).

Definition refines (s : vst) (a : bst * gmap nat call) : Prop :=
  a.2 = calls s ∧ (λ y, (b_blockno y, b_data y)) <$> bufs a.1 = contents s ∧
  ∀ n, 0 ≤ n < 2 ^ 31 → disk a.1 n = block (dv_sectors (dvc s)) n.

Lemma sector_of_small n : 0 ≤ n < 2 ^ 31 → sector_of n = 2 * n.
Proof. intros Hn. unfold sector_of, BSIZE. change (1024 / 512) with 2. rewrite u32_small by lia. lia. Qed.

Lemma write_block f n l k : length l = Z.to_nat BSIZE →
  block (write_sectors f (2 * n) 2 l) k = if k =? n then l else block f k.
Proof.
  intros Hl. unfold block. cbn [write_sectors]. case_z_on (k =? n) idtac; [subst k|].
  - replace (2 * n =? 2 * n + 1) with false by (symmetry; apply Z.eqb_neq; lia).
    replace (2 * n + 1 =? 2 * n) with false by (symmetry; apply Z.eqb_neq; lia). rewrite !Z.eqb_refl.
    rewrite (take_ge (drop _ _)); [apply take_drop|]. rewrite length_drop. unfold BSIZE, sector_size in *. lia.
  - repeat (find_z ltac:(fun b => case_z_on b idtac; [lia|])). done.
Qed.

(** The device serves the call of [p]. *)
Definition transfers (s s' : vst) : Prop :=
  ∃ p b (w : bool) x, calls s !! p = Some (CTodo b w) ∧ calls s' = <[p := CDone b w]> (calls s) ∧
    vbufs s !! b = Some x ∧ buf_ok x ∧
    if w then contents s' = contents s ∧ dv_sectors (dvc s') = write_sectors (dv_sectors (dvc s)) (2 * v_blockno x) 2 (v_data x)
    else contents s' = <[b := (v_blockno x, block (dv_sectors (dvc s)) (v_blockno x))]> (contents s) ∧
      dv_sectors (dvc s') = dv_sectors (dvc s).

Lemma calls_served s s' Q U p b w i0 i1 i2 : vinv s Q U → vinv s' Q (U ++ [i0]) → phases s' = phases s →
  phases s !! p = Some (PWait b w i0 i1 i2) → i0 ∈ dv_taken (dvc s) → (∀ j, j ∈ dv_taken (dvc s') ↔ j ∈ dv_taken (dvc s) ∧ j ≠ i0) →
  calls s !! p = Some (CTodo b w) ∧ calls s' = <[p := CDone b w]> (calls s).
Proof.
  intros Hv Hv' Hph Hp Hi Ht.
  assert (i0 ∉ Q) as HQ.
  { intros HQ. pose proof (vi_nodup _ _ _ Hv) as (_ & Hn & _)%list.NoDup_app. apply (Hn i0 HQ). set_solver. }
  split; [rewrite (calls_in _ _ _ _ Hv), Hp; simpl; rewrite bool_decide_false by set_solver; done|].
  apply map_eq. intros q. rewrite (calls_in _ _ _ _ Hv'), Hph. destruct (decide (p = q)) as [<-|Hne].
  - rewrite lookup_insert_eq, Hp. simpl. rewrite bool_decide_true by set_solver. done.
  - rewrite lookup_insert_ne, (calls_in _ _ _ _ Hv) by done.
    destruct (phases s !! q) as [[| |b' w' j0 j1 j2]|] eqn:Hq; [done..| |done]. simpl. do 2 f_equal. apply bool_decide_ext.
    assert (j0 ≠ i0) by (intros ->; exact (Hne (wait_inj _ _ _ _ _ _ _ _ _ _ _ _ _ _ Hv Hp Hq))).
    rewrite !elem_of_app, Ht. naive_solver.
Qed.

Lemma complete_ok s Q U i n s' : vinv s Q U → i ∈ dv_taken (dvc s) → dev_complete i n s = Some s' →
  vinv s' Q (U ++ [i]) ∧ transfers s s'.
Proof.
  intros Hv Hi Hc.
  destruct (flight_wait s Q U i Hv ltac:(set_solver)) as (p & b & w & i1 & i2 & x & Hp & Hx & Hd & Hch & _).
  pose proof (vi_bufs _ _ _ Hv _ _ Hx) as [Hbn Hbl]. pose proof (vi_sectors _ _ _ Hv) as Hsec.
  unfold dev_complete in Hc. rewrite (dev_request_ok _ _ _ _ _ _ _ _ Hch) in Hc. simpl in Hc. rewrite Hx in Hc. simpl in Hc.
  change (Z.to_nat (BSIZE / 512)) with 2%nat in Hc. rewrite (sector_of_small _ Hbn) in Hc.
  destruct w; cbn [Z.eqb VIRTIO_BLK_T_OUT VIRTIO_BLK_T_IN] in Hc; injection Hc as <-.
  - pose proof (vinv_sectors s Q U (write_sectors (dv_sectors (dvc s)) (2 * v_blockno x) 2 (v_data x)) Hv
      (write_sectors_length _ _ 2 _ Hsec Hbl)) as Hv1.
    pose proof (vinv_served _ _ _ i n Hv1 Hi) as Hv2. split; [exact Hv2|].
    destruct (calls_served _ _ _ _ _ _ _ _ _ _ Hv Hv2 eq_refl Hp Hi) as [H1 H2].
    { intros j. vsimpl. rewrite list_elem_of_filter. naive_solver. }
    exists p, b, true, x. done.
  - pose proof (vinv_data s Q U b x (read_sectors (dv_sectors (dvc s)) (2 * v_blockno x) 2) Hv Hx
      (read_sectors_length _ _ 2 Hsec)) as Hv1.
    pose proof (vinv_served _ _ _ i n Hv1 Hi) as Hv2. split; [exact Hv2|].
    destruct (calls_served _ _ _ _ _ _ _ _ _ _ Hv Hv2 eq_refl Hp Hi) as [H1 H2].
    { intros j. vsimpl. rewrite list_elem_of_filter. naive_solver. }
    exists p, b, false, x. split; [done|]. split; [done|]. split; [done|]. split; [done|]. split; [|done].
    unfold contents. vsimpl. rewrite list_fmap_insert. cbn [read_sectors v_blockno v_data]. by rewrite app_nil_r.
Qed.

Lemma device_ok s Q U s' : vinv s Q U → virtio_device s s' →
  (∃ Q' U', vinv s' Q' U') ∧ (quiet s s' ∨ transfers s s').
Proof.
  intros Hv [Hf|[Hf|(i & n & Hi & Hf)]].
  - destruct (vinv_fetch _ _ _ _ Hv Hf) as (i & Q' & -> & Hv2 & d & -> & Hd & Ht). split; [by exists Q', U|]. left.
    eapply (quiet_same _ _ _ _ _ _ Hv Hv2); [done| |done|done]. intros j. vsimpl. rewrite Ht. set_solver.
  - pose proof (vinv_idle _ _ _ _ Hv Hf) as [Hv2 ->]. split; [by exists Q, U|]. left. by eapply (quiet_same _ _ _ _ _ _ Hv Hv2).
  - destruct (complete_ok _ _ _ _ _ _ Hv Hi Hf) as [Hv2 Ht]. split; [by exists Q, (U ++ [i])|by right].
Qed.

(** ** Theorems *)

Section theorems.
Context (dev_step : vst → vst → Prop).
Hypothesis device_follows : ∀ s s', dev_step s s' → virtio_device s s'.

Lemma step_inv s Q U s' : vinv s Q U → step dev_step s s' → ∃ Q' U', vinv s' Q' U'.
Proof using device_follows.
  intros Hv Hs. destruct Hs as [s p b w Hp Hb Hlb|s b x l n Hb Hx Hl Hn|s c s' Hd Hc|s s' Hd].
  - exists Q, U. by apply vinv_call.
  - exists Q, U. by apply vinv_client.
  - pose proof (driver_ok _ _ _ _ Hv Hd) as Hw. unfold wp in Hw. rewrite Hc in Hw. apply Hw.
  - by destruct (device_ok _ _ _ _ Hv (device_follows _ _ Hd)).
Qed.

Lemma driver_inv s : reachable dev_step s → ∃ Q U, vinv s Q U.
Proof using device_follows.
  induction 1 as [s Hs|s s' _ (Q & U & Hv) Hstep]; [exists [], []; by apply vinv_init|by eapply step_inv].
Qed.

(** C21: with a device that follows the standard and serves every request, that
    is completes it with status 0 and never reports an error, the driver is safe.
    In every reachable state, whatever the processes, the interrupt handler and
    such a device have done, the driver code that may run next returns: it neither
    panics (["free_desc 1"], ["free_desc 2"], ["virtio_disk_intr status"]),
    nor follows a null [info[id].b] or leaves an array, nor loops along a
    descriptor chain; and each request the device has taken is still
    well formed in memory. *)
Theorem virtio_driver_safe s : reachable dev_step s →
  (∀ c, driver s c → ∃ s', c s = Ok tt s') ∧ (∀ id, id ∈ dv_taken (dvc s) → is_Some (dev_request s id)).
Proof using device_follows.
  intros (Q & U & Hv)%driver_inv. split.
  - intros c Hd. apply driver_ok with (Q := Q) (U := U) in Hd; [|done]. apply wp_elim in Hd as ([] & s' & E & _). eauto.
  - intros i Hi. destruct (flight_wait s Q U i Hv ltac:(set_solver)) as (p & b & w & i1 & i2 & x & _ & _ & _ & Hc & _).
    erewrite dev_request_ok by exact Hc. eauto.
Qed.

Lemma quiet_refines s s' a : quiet s s' → refines s a → refines s' a.
Proof. intros (Hc & Hb & Hs) (H1 & H2 & H3). unfold refines. by rewrite Hc, Hb, Hs. Qed.

Lemma unused_calls s b q b' w' : unused s b → calls s !! q = Some (CTodo b' w') ∨ calls s !! q = Some (CDone b' w') → b' ≠ b.
Proof.
  intros Hb Hq. unfold calls in Hq. rewrite lookup_fmap in Hq. destruct (phases s !! q) as [ph|] eqn:Hp; [|by destruct Hq].
  specialize (Hb _ _ Hp). unfold call_of in Hq. simpl in Hq. destruct (served s ph); destruct Hq; congruence.
Qed.

Lemma transfers_refines s s' a : transfers s s' → refines s a → ∃ a', astep a a' ∧ refines s' a'.
Proof.
  intros (p & b & w & x & Hp & Hc & Hx & [Hn Hl] & Heff) (H1 & H2 & H3). destruct a as [B m]. cbn [fst snd] in *. subst m.
  assert (∃ y, bufs B !! b = Some y ∧ b_blockno y = v_blockno x ∧ b_data y = v_data x) as (y & Hy & Ey & Ey').
  { assert (contents s !! b = Some (v_blockno x, v_data x)) as E by (unfold contents; by rewrite list_lookup_fmap, Hx).
    rewrite <- H2, list_lookup_fmap in E. destruct (bufs B !! b) as [y|]; [|done]. injection E as E1 E2. eauto. }
  destruct w; destruct Heff as [Hc' Hs'].
  - eexists. split.
    + eapply astep_transfer; [exact Hp|]. unfold Bio.virtio_disk_rw, mbind, M_bind, get_buf. by rewrite Hy.
    + split; [done|]. split; [by rewrite Hc'|]. intros n Hnn. cbn [fst disk]. rewrite Hs', write_block, Ey, Ey', H3 by done. done.
  - eexists. split.
    + eapply astep_transfer; [exact Hp|]. unfold Bio.virtio_disk_rw, mbind, M_bind, get_buf. by rewrite Hy.
    + split; [done|]. split; [|intros n Hnn; simpl; by rewrite Hs', H3].
      simpl. rewrite Hc', <- H2, (alter_insert _ _ _ _ Hy), list_fmap_insert. simpl. by rewrite Ey, H3.
Qed.

(** C7: the driver and the device refine a disk that serves each call of
    [virtio_disk_rw] atomically: the initial states correspond, and each step of
    the system is, for the callers, nothing, a call, the return of a call that
    has been served, a change of a buffer by its owner, or the whole effect
    [Bio.virtio_disk_rw] has on one buffer and one block, for a call that is
    in progress. *)
Theorem virtio_refines :
  (∀ s B, vinitial s → (λ y, (b_blockno y, b_data y)) <$> bufs B = contents s →
    (∀ n, disk B n = block (dv_sectors (dvc s)) n) → refines s (B, ∅)) ∧
  (∀ s s' a, reachable dev_step s → step dev_step s s' → refines s a →
    refines s' a ∨ ∃ a', astep a a' ∧ refines s' a').
Proof using device_follows.
  split.
  - intros s B Hi HB Hd. split; [|split; [done|by intros n _]]. unfold calls. simpl.
    destruct Hi as (_ & _ & _ & _ & _ & _ & _ & _ & _ & _ & _ & -> & _). by rewrite fmap_empty.
  - intros s s' a (Q & U & Hv)%driver_inv Hs Ha. destruct Hs as [s p b w Hp Hb Hlb|s b x l n Hb Hx Hl Hn|s c s' Hd Hc|s s' Hd].
    + right. destruct a as [B m], Ha as (H1 & H2 & H3). simpl in *. subst m. eexists. split.
      * apply (astep_call B (calls s) p b w).
        -- unfold calls. by rewrite lookup_fmap, Hp.
        -- unfold contents in H2. apply (f_equal length) in H2. rewrite !length_fmap in H2. lia.
        -- intros q b' w'. by apply unused_calls.
      * split; [|done]. simpl. unfold calls. vsimpl. by rewrite fmap_insert.
    + right. destruct a as [B m], Ha as (H1 & H2 & H3). simpl in *. subst m. eexists. split.
      * apply (astep_client B (calls s) b n l). intros q b' w'. by apply unused_calls.
      * split; [done|]. split; [|done]. simpl. unfold contents in *. vsimpl. rewrite list_fmap_insert. simpl. rewrite <- H2.
        destruct (bufs B !! b) as [y|] eqn:Hy; [by rewrite (alter_insert _ _ _ _ Hy), list_fmap_insert|].
        apply (f_equal (.!! b)) in H2. by rewrite !list_lookup_fmap, Hy, Hx in H2.
    + pose proof (driver_ok _ _ _ _ Hv Hd) as Hw. unfold wp in Hw. rewrite Hc in Hw. destruct Hw as [_ [Hq|Hr]].
      * left. by eapply quiet_refines.
      * right. destruct a as [B m], Ha as (H1 & H2 & H3), Hr as (Hb & Hsec & p & b & w & Hp & Hcl). simpl in *. subst m.
        eexists. split; [by eapply astep_return|]. split; [done|]. simpl. by rewrite Hb, Hsec.
    + destruct (device_ok _ _ _ _ Hv (device_follows _ _ Hd)) as [_ [Hq|Ht]].
      * left. by eapply quiet_refines.
      * right. by eapply transfers_refines.
Qed.

(** A fetch is possible while a published request waits. *)
Lemma fetch_enabled s Q U : vinv s Q U → Q ≠ [] → is_Some (dev_fetch s).
Proof.
  intros Hv HQ. unfold dev_fetch. destruct (vi_len _ _ _ Hv) as (_ & La & _).
  destruct (idx_lookup (avail_ring s) (dv_avail (dvc s) mod NUM) La (num_mod_range _)) as [i Hi].
  destruct (Z.eqb_spec (dv_avail (dvc s)) (avail_idx s)) as [E|E]; [|rewrite Hi; simpl; eauto].
  apply (window_empty _ _ _ _ _ (vi_avail _ _ _ Hv)) in E; [done|].
  pose proof (vi_nodup _ _ _ Hv) as (Hn & _)%list.NoDup_app. pose proof (flight_range _ _ _ Hv) as [? _]%Forall_app.
  by apply NoDup_num.
Qed.

(** What can still happen: a process that is awake and not kept out by the
    lock, the handler past its start, the device, which has been notified,
    taking or serving a request, or a pending interrupt. *)
Definition may_proceed (s : vst) : Prop :=
  (∃ p ph, phases s !! p = Some ph ∧ asleep_on s !! p = None ∧ (vlock s = None ∨ vlock s = Some (HProc p))) ∨
  vlock s = Some HIntr ∨ vlock s = Some HIntrEnd ∨
  (dv_kicked (dvc s) = true ∧ is_Some (dev_fetch s)) ∨
  (∃ id, id ∈ dv_taken (dvc s) ∧ ∀ n, is_Some (dev_complete id n s)) ∨
  (Z.testbit (dv_isr (dvc s)) 0 = true ∧ vlock s = None).

(** A published request that is not finished keeps something going. *)
Lemma flight_proceeds s Q U i : vinv s Q U → vlock s = None → i ∈ Q ++ dv_taken (dvc s) ++ U → may_proceed s.
Proof.
  intros Hv Hl Hi. destruct (flight_wait _ _ _ _ Hv Hi) as (p & b & w & i1 & i2 & x & _ & Hx & _ & Hc & _).
  unfold may_proceed. do 3 right. apply elem_of_app in Hi as [Hi|[Hi|Hi]%elem_of_app].
  - left. assert (Q ≠ []) as HQ by (intros ->; by apply elem_of_nil in Hi). split; [by apply (vi_kick _ _ _ Hv)|by eapply fetch_enabled].
  - right. left. exists i. split; [done|]. intros n. unfold dev_complete. erewrite dev_request_ok by exact Hc. simpl.
    rewrite Hx. simpl. eauto.
  - do 2 right. split; [|done]. assert (U ≠ []) as HU by (intros ->; by apply elem_of_nil in Hi).
    destruct (vi_isr _ _ _ Hv HU); [done|congruence].
Qed.

Lemma wait_proceeds s Q U p b w i0 i1 i2 : vinv s Q U → vlock s = None → phases s !! p = Some (PWait b w i0 i1 i2) → may_proceed s.
Proof.
  intros Hv Hl Hp. destruct (asleep_on s !! p) as [ch|] eqn:Hs; [|left; by eauto 10].
  destruct (vi_asleep _ _ _ Hv _ _ Hs) as (ph & x & Hp' & Hx & Hok). rewrite Hp in Hp'. injection Hp' as <-.
  destruct Hok as [_ Hd]. destruct (vi_phase _ _ _ Hv _ _ Hp) as (x' & Hx' & _ & Hd'). rewrite Hx in Hx'. injection Hx' as <-.
  rewrite Hd in Hd'. case_decide; [|done]. by eapply flight_proceeds.
Qed.

(** C32: no request, interrupt or wakeup is lost: while a call of
    [virtio_disk_rw] is in progress, something in the system can proceed.  In
    particular a process that sleeps on its buffer has a request that the
    device will see, has, or has served with the interrupt still to be handled, and one
    that sleeps for descriptors waits for such a process. *)
Theorem virtio_progress s p ph : reachable dev_step s → phases s !! p = Some ph → may_proceed s.
Proof using device_follows.
  intros (Q & U & Hv)%driver_inv Hp. destruct (vlock s) as [[q| |]|] eqn:Hl.
  - destruct (vi_lock _ _ _ Hv q Hl) as (b & w & i0 & i1 & i2 & Hq). left. exists q, (PFilled b w i0 i1 i2). split; [done|].
    split; [|by right]. destruct (asleep_on s !! q) as [ch|] eqn:Hs; [|done].
    destruct (vi_asleep _ _ _ Hv _ _ Hs) as (ph' & x & Hp' & _ & Hok). rewrite Hq in Hp'. by injection Hp' as <-.
  - by right; left.
  - by right; right; left.
  - destruct ph as [b w|b w i0 i1 i2|b w i0 i1 i2]; [|by destruct (vinv_no_filled _ _ _ _ _ Hv Hl Hp); eauto 10|by eapply wait_proceeds].
    destruct (asleep_on s !! p) as [ch|] eqn:Hs; [|left; by eauto 10].
    destruct (vi_asleep _ _ _ Hv _ _ Hs) as (ph & x & Hp' & _ & Hok). rewrite Hp in Hp'. injection Hp' as <-. destruct Hok as [_ Hc].
    destruct (decide (Exists (λ f, f = false) (dfree s))) as [(f & Hf & ->)%list.Exists_exists|Hn].
    + apply list_elem_of_lookup in Hf as [k Hk]. destruct (vi_len _ _ _ Hv) as (_ & _ & _ & Lf & _).
      pose proof (lookup_lt_Some _ _ _ Hk) as Hlt. rewrite Lf in Hlt. rewrite <- (Nat2Z.id k) in Hk.
      apply (vi_free _ _ _ Hv) in Hk as (q & ph & Hq & Hin); [|unfold num, NUM in *; lia].
      destruct ph as [|b' w' i0 i1 i2|b' w' i0 i1 i2]; [by apply elem_of_nil in Hin| |by eapply wait_proceeds].
      by destruct (vinv_no_filled _ _ _ _ _ Hv Hl Hq); eauto 10.
    + exfalso. apply not_Exists_Forall in Hn; [|apply _]. destruct (vi_len _ _ _ Hv) as (_ & _ & _ & Lf & _).
      rewrite free_count_all in Hc by done. unfold num, NUM in Lf. lia.
Qed.

End theorems.

(** ** Initialization *)

Section init.
Context `{!KernelImage} {W : Type} `{!VirtioHw W}.

(** A version 2 block device that has not been set up: it identifies itself,
    accepts the features, has a long enough queue, and its queue is not ready
    before the driver says so. *)
Class VirtioPresent (fresh : W → Prop) := {
  vp_read r h : fresh h → fresh (mmio_read r h).2;
  vp_write r v h : fresh h → r ≠ VIRTIO_MMIO_QUEUE_READY → fresh (mmio_write r v h);
  vp_magic h : fresh h → u32 (mmio_read VIRTIO_MMIO_MAGIC_VALUE h).1 = 0x74726976;
  vp_version h : fresh h → u32 (mmio_read VIRTIO_MMIO_VERSION h).1 = 2;
  vp_device h : fresh h → u32 (mmio_read VIRTIO_MMIO_DEVICE_ID h).1 = 2;
  vp_vendor h : fresh h → u32 (mmio_read VIRTIO_MMIO_VENDOR_ID h).1 = 0x554d4551;
  vp_features_ok h : fresh h → band (u32 (mmio_read VIRTIO_MMIO_STATUS (mmio_write VIRTIO_MMIO_STATUS 11 h)).1) VIRTIO_CONFIG_S_FEATURES_OK = true;
  vp_not_ready h : fresh h → u32 (mmio_read VIRTIO_MMIO_QUEUE_READY h).1 = 0;
  vp_max h : fresh h → NUM ≤ u32 (mmio_read VIRTIO_MMIO_QUEUE_NUM_MAX h).1;
}.
Context (fresh : W → Prop) `{!VirtioPresent fresh}.

Lemma R_read_wp r (s : vboot W) (Q : Z → vboot W → Prop) : fresh (vb_hw s) →
  (∀ h, fresh h → Q (u32 (mmio_read r (vb_hw s)).1) (mk_vboot (vb_kern s) h (vb_disk s))) → wp (R_read r) s Q.
Proof using VirtioPresent0.
  intros Hf HQ. unfold wp, R_read. pose proof (vp_read r _ Hf) as Hf'. destruct (mmio_read r (vb_hw s)) as [v h]. by apply HQ.
Qed.
Lemma R_write_wp r v (s : vboot W) (Q : unit → vboot W → Prop) : fresh (vb_hw s) → r ≠ VIRTIO_MMIO_QUEUE_READY →
  (∀ h, fresh h → Q tt (mk_vboot (vb_kern s) h (vb_disk s))) → wp (R_write r v) s Q.
Proof using VirtioPresent0. intros Hf Hr HQ. apply HQ. by apply vp_write. Qed.

Lemma R_write_any_wp r v (s : vboot W) (Q : unit → vboot W → Prop) :
  (∀ h, Q tt (mk_vboot (vb_kern s) h (vb_disk s))) → wp (R_write r v) s Q.
Proof. intros HQ. apply HQ. Qed.

Lemma identified_wp l (s : vboot W) (Q : bool → vboot W → Prop) : fresh (vb_hw s) →
  (∀ r x, (r, x) ∈ l → ∀ h, fresh h → u32 (mmio_read r h).1 = x) →
  (∀ h, fresh h → Q true (mk_vboot (vb_kern s) h (vb_disk s))) → wp (identified l) s Q.
Proof using VirtioPresent0.
  revert s. induction l as [|[r x] l IH]; intros s Hf Hl HQ; cbn [identified].
  - wp_step. specialize (HQ _ Hf). by destruct s.
  - wp_step. apply R_read_wp; [done|]. intros h Hh. rewrite (Hl r x) by (done || left). rewrite Z.eqb_refl.
    apply IH; [done| |done]. intros r' x' Hin. apply Hl. by right.
Qed.

Lemma free_loop_wp n i s : length (dfree s) = num → 0 ≤ i → i + Z.of_nat n = NUM →
  wp (free_loop n i) s (λ (_ : unit) s', s' = set_dfree (take (Z.to_nat i) (dfree s) ++ replicate n true) s).
Proof.
  revert i s. induction n as [|n IH]; intros i s Hl Hi Hn; cbn [free_loop].
  - wp_step. rewrite app_nil_r, take_ge; [by destruct s|]. rewrite Hl. unfold num. lia.
  - wp_step. apply wr_num_wp; [lia|done|]. intros x Hx. eapply wp_mono; [apply IH; vsimpl; rewrite ?length_insert; lia|].
    intros [] s' ->. unfold set_dfree. vsimpl. f_equal. replace (Z.to_nat (i + 1)) with (S (Z.to_nat i)) by lia.
    rewrite (take_S_r _ _ true) by (apply list_lookup_insert_eq; unfold num in Hl; lia).
    rewrite take_insert_ge by done. by rewrite <- app_assoc.
Qed.

(** Only the pages [ps] are changed. *)
Definition touches (ps : list Z) (k k' : kst) : Prop :=
  ∀ q, page_ok q → q ∉ ps → page_refcnt k' (q / PGSIZE) = page_refcnt k (q / PGSIZE) ∧ ∀ x, pg x = q → mem k' x = mem k x.
Lemma touches_trans ps k k1 k2 : touches ps k k1 → touches ps k1 k2 → touches ps k k2.
Proof. intros H1 H2 q Hq Hn. destruct (H1 q Hq Hn) as [R1 M1], (H2 q Hq Hn) as [R2 M2]. split; [congruence|]. intros x Hx. rewrite M2, M1; done. Qed.
Lemma touches_page ps p k k' : p ∈ ps → page_ok p → (∀ x, ¬ (p ≤ x < p + PGSIZE) → mem k' x = mem k x) →
  (page_refcnt k' = page_refcnt k ∨ page_refcnt k' = fupd (page_refcnt k) (p / PGSIZE) 1) → touches ps k k'.
Proof.
  intros Hin Hp Hm Hr q Hq Hn. assert (p ≠ q) as Hne by (intros <-; done). destruct (page_ok_range _ Hp) as (? & ? & ?), (page_ok_range _ Hq) as (? & ? & ?). split.
  - destruct Hr as [->| ->]; [done|]. unfold fupd. rewrite (proj2 (Z.eqb_neq _ _)); [done|]. unfold PGSIZE. Z.div_mod_to_equations. lia.
  - intros x <-. apply Hm. intros Hx. apply Hne. symmetry. by apply pg_eq.
Qed.

Lemma memset_alloc_wp ps p fl k (Q : unit → kst → Prop) : p ∈ ps → page_ok p → p ∉ fl → kalloc_inv k fl →
  (∀ k', kalloc_inv k' fl → touches ps k k' → Q tt k') → wp (memset_ p 0 PGSIZE) k Q.
Proof.
  intros Hin Hp Hn Hk HQ. unfold memset_. rewrite (mapped_page p p) by (done || unfold PGSIZE; lia).
  assert (∀ x, ¬ (p ≤ x < p + PGSIZE) → mfill (mem k) p (byte_of_Z 0) PGSIZE x = mem k x) as Hm by (intros x Hx; by apply mfill_out).
  destruct (page_ok_range _ Hp) as (? & ? & ?). apply HQ; [|eapply touches_page; [done..|by left]].
  eapply kalloc_inv_frame; [done..|]. intros x Hx. apply Hm. intros Hr. apply Hn. by rewrite (pg_eq p x) in Hx.
Qed.

Lemma kalloc_alloc_wp ps p fl k (Q : Z → kst → Prop) : p ∈ ps → kalloc_inv k (p :: fl) →
  (∀ k', page_ok p → p ∉ fl → kalloc_inv k' fl → touches ps k k' → Q p k') → wp kalloc k Q.
Proof.
  intros Hin Hk HQ. destruct (kalloc_upto_alloc _ _ _ _ Hk) as (k' & E & Hk' & Hm & Hr). unfold wp. rewrite E.
  destruct Hk as [_ [Hn _]%list.NoDup_cons Hok _ _]. assert (page_ok p) as Hp by by inversion Hok as [|? ? [? _] _]. apply HQ; [done..|].
  eapply touches_page; [done..| |by right]. intros x Hx. rewrite Hm. by apply mfill_out.
Qed.

(** [virtio_disk_init] finds the device and leaves the driver as the transition
    system starts, with three pages of its own for the queue. *)
Lemma virtio_disk_init_ok (s : vboot W) d a u fl : fresh (vb_hw s) → kalloc_inv (vb_kern s) (d :: a :: u :: fl) →
  length (dfree (vb_disk s)) = num →
  wp virtio_disk_init s (λ _ s', kalloc_inv (vb_kern s') fl ∧ touches [d; a; u] (vb_kern s) (vb_kern s') ∧
    vb_disk s' = set_dfree (replicate num true) (set_desc (replicate num (mk_desc ANull 0 0 0))
      (set_avail 0 (replicate num 0) (set_used 0 (replicate num (0, 0)) (vb_disk s))))).
Proof using VirtioPresent0.
  intros Hf Hk Hl. unfold virtio_disk_init. wp_step. apply identified_wp; [done| |].
  { intros r x Hin h Hh. repeat (apply elem_of_cons in Hin as [[= -> ->]|Hin]); [by apply vp_magic|by apply vp_version
      |by apply vp_device|by apply vp_vendor|by apply elem_of_nil in Hin]. }
  intros h Hh. cbn [negb]. cbv zeta. wp_step. apply R_write_wp; [done|done|]. intros ha Ha.
  wp_step. apply R_write_wp; [done|done|]. intros hb Hb. wp_step. apply R_write_wp; [done|done|]. intros hc Hc.
  wp_step. apply R_read_wp; [done|]. intros h1 Hh1. wp_step. apply R_write_wp; [done|done|]. intros h2 Hh2.
  wp_step. unfold R_write at 1. wp_step. wp_step. unfold R_read at 1. unfold wp at 1.
  pose proof (vp_features_ok _ Hh2) as Hok. pose proof (vp_read VIRTIO_MMIO_STATUS _ (vp_write VIRTIO_MMIO_STATUS 11 _ Hh2 ltac:(done))) as Hh3.
  cbn [vb_hw]. change (u32 (Z.lor (Z.lor (Z.lor 0 VIRTIO_CONFIG_S_ACKNOWLEDGE) VIRTIO_CONFIG_S_DRIVER) VIRTIO_CONFIG_S_FEATURES_OK)) with 11.
  destruct (mmio_read VIRTIO_MMIO_STATUS _) as [v h3]. cbn [fst snd] in *. rewrite Hok. cbn [negb].
  wp_step. apply R_write_wp; [done|done|]. intros h4 Hh4.
  wp_step. apply R_read_wp; [done|]. intros h5 Hh5. cbn [vb_hw]. rewrite vp_not_ready by done. cbn [negb Z.eqb].
  wp_step. apply R_read_wp; [done|]. intros h6 Hh6. cbn [vb_hw]. pose proof (vp_max _ Hh5) as Hm.
  rewrite (proj2 (Z.eqb_neq _ 0)) by (unfold NUM in Hm; lia). rewrite (proj2 (Z.ltb_ge _ NUM)) by done. wp_step. apply wp_zoom. eapply (kalloc_alloc_wp [d; a; u]); [|exact Hk|]; [set_solver|]. intros k1 Hd Hdn Hk1 Ht1.
  wp_step. apply wp_zoom. eapply (kalloc_alloc_wp [d; a; u]); [|exact Hk1|]; [set_solver|]. intros k2 Ha2 Han Hk2 Ht2.
  wp_step. apply wp_zoom. eapply (kalloc_alloc_wp [d; a; u]); [|exact Hk2|]; [set_solver|]. intros k3 Hu Hun Hk3 Ht3.
  apply not_elem_of_cons in Hdn as [_ [_ Hdn]%not_elem_of_cons], Han as [_ Han].
  rewrite !(proj2 (Z.eqb_neq _ 0)) by by apply page_ok_ne_0. cbn [orb].
  wp_step. apply wp_zoom. cbn [vb_kern]. wp_step. eapply (memset_alloc_wp [d; a; u]); [set_solver|exact Hd|exact Hdn|exact Hk3|]. intros k4 Hk4 Ht4.
  wp_step. eapply (memset_alloc_wp [d; a; u]); [set_solver|exact Ha2|exact Han|exact Hk4|]. intros k5 Hk5 Ht5.
  eapply (memset_alloc_wp [d; a; u]); [set_solver|exact Hu|exact Hun|exact Hk5|]. intros k6 Hk6 Ht6.
  wp_step. apply wp_zoom. unfold queue_zero. wp_step.
  do 8 (wp_step; apply R_write_any_wp; cbn [vb_kern vb_disk]; intros ?). wp_step. apply wp_zoom.
  eapply wp_mono; [apply free_loop_wp; [exact Hl|done|done]|]. intros [] s' ->. apply R_write_any_wp. intros ?.
  split; [exact Hk6|]. split; [by repeat (eapply touches_trans; [eassumption|])|]. reflexivity.
Qed.
End init.

(** ** Witnesses: one write, from the call to its completion by a device that
    does exactly what the standard says *)

Definition demo_data : list byte := replicate (Z.to_nat BSIZE) x01.
Definition demo_v0 : vst :=
  mk_vst (replicate num (mk_desc ANull 0 0 0)) 0 (replicate num 0) 0 (replicate num (0, 0)) (replicate num true) 0
    (replicate num (mk_info None 0)) (replicate num (mk_req 0 0 0)) None [mk_vbuf 0 3 demo_data] ∅ ∅
    (mk_dev 0 [] (λ _, replicate sector_size x00) 0 false).
Definition after {A} (c : M vst A) (s : vst) : vst := match c s with Ok _ s' => s' | _ => s end.
Definition demo_v1 : vst := set_phases (<[7%nat := PAlloc 0 true]> (phases demo_v0)) demo_v0.
Definition demo_v2 : vst := Eval vm_compute in after (rw_alloc 7 0 true) demo_v1.
Definition demo_v3 : vst := Eval vm_compute in after (rw_publish 7 0 true 0 1 2) demo_v2.
Definition demo_v4 : vst := Eval vm_compute in default demo_v3 (dev_fetch demo_v3).
Definition demo_v5 : vst := Eval vm_compute in default demo_v4 (dev_complete 0 1 demo_v4).

Lemma demo_v0_initial : vinitial demo_v0.
Proof.
  repeat (split; [reflexivity|]). split; [|by repeat split].
  intros b x [-> <-]%list_lookup_singleton_Some. split; [simpl; lia|reflexivity].
Qed.

Lemma demo_v2_reachable : reachable virtio_device demo_v2.
Proof.
  eapply reachable_step; [eapply reachable_step; [apply reachable_init, demo_v0_initial|]|].
  - apply (step_call _ demo_v0 7 0 true); [reflexivity|by intros p ph Hp|simpl; lia].
  - eapply step_driver; [apply (driver_alloc demo_v1 7 0 true); reflexivity|]. vm_compute. reflexivity.
Qed.

Lemma demo_v3_reachable : reachable virtio_device demo_v3.
Proof.
  eapply reachable_step; [apply demo_v2_reachable|].
  eapply step_driver; [apply (driver_publish demo_v2 7 0 true 0 1 2); reflexivity|]. vm_compute. reflexivity.
Qed.

Lemma demo_v4_reachable : reachable virtio_device demo_v4.
Proof. eapply reachable_step; [apply demo_v3_reachable|]. apply step_device. left. vm_compute. reflexivity. Qed.

Lemma demo_v5_step : step virtio_device demo_v4 demo_v5.
Proof. apply step_device. right. right. exists 0, 1. split; [left|]. vm_compute. reflexivity. Qed.

Definition demo_bio : bst :=
  mk_bst [mk_buf true 1 3 (Some 7) 1 0 0 demo_data] 0 0 (λ _, replicate (Z.to_nat BSIZE) x00) [] 7 [] [].

Lemma virtio_driver_safe_witness : ∃ s', rw_publish 7 0 true 0 1 2 demo_v2 = Ok tt s'.
Proof.
  apply (virtio_driver_safe virtio_device (λ _ _ H, H) demo_v2 demo_v2_reachable), driver_publish. reflexivity.
Defined.

Lemma virtio_refines_witness :
  let a := (demo_bio, {[7%nat := CTodo 0 true]}) in
  refines demo_v5 a ∨ ∃ a', astep a a' ∧ refines demo_v5 a'.
Proof.
  apply (proj2 (virtio_refines virtio_device (λ _ _ H, H)) demo_v4 demo_v5 _ demo_v4_reachable demo_v5_step).
  split; [vm_compute; reflexivity|]. split; [vm_compute; reflexivity|]. intros n Hn. vm_compute. reflexivity.
Defined.

Lemma virtio_progress_witness : may_proceed demo_v3.
Proof. apply (virtio_progress virtio_device (λ _ _ H, H) demo_v3 7 (PWait 0 true 0 1 2) demo_v3_reachable). reflexivity. Defined.
