(* ===== verification/BioSpec.v ===== *)
(** * The buffer cache: invariant and specifications

    The ring of pointers through the buffers; the invariant of the cache for one
    device; what a block reads as through the cache, [view]; and the
    specifications of [binit], [bread], [bwrite], [brelse] and [bpin] in those
    terms.  Log and file system are proved against these. *)

From S2P Require Import Prelude Riscv Mem CString Bio.

(** ** Rings of pointers *)

(** From [a], through the nodes of [l] in order, to [b], by next pointers with
    matching previous pointers. *)
Fixpoint path (nx pv : nat → nat) (a : nat) (l : list nat) (b : nat) : Prop :=
  match l with
  | [] => nx a = b ∧ pv b = a
  | x :: l => (nx a = x ∧ pv x = a) ∧ path nx pv x l b
  end.

Definition ring (nx pv : nat → nat) (h : nat) (l : list nat) : Prop := path nx pv h l h ∧ NoDup (h :: l).

Definition set_at (f : nat → nat) (i v : nat) : nat → nat := λ j, if (j =? i)%nat then v else f j.

Section ring.
Implicit Types nx pv f : nat → nat.

Lemma set_at_eq f i v : set_at f i v i = v.
Proof. unfold set_at. by rewrite Nat.eqb_refl. Qed.
Lemma set_at_ne f i j v : j ≠ i → set_at f i v j = f j.
Proof. unfold set_at. by destruct (Nat.eqb_spec j i). Qed.

Lemma path_app nx pv a l1 x l2 b :
  path nx pv a (l1 ++ x :: l2) b ↔ path nx pv a l1 x ∧ path nx pv x l2 b.
Proof. revert a. induction l1 as [|y l1 IH]; intros a; simpl; [done|]. rewrite IH. tauto. Qed.

Lemma path_ext nx pv nx' pv' a l b :
  (∀ x, x ∈ a :: l → nx' x = nx x) → (∀ y, y ∈ l ++ [b] → pv' y = pv y) →
  path nx pv a l b → path nx' pv' a l b.
Proof.
  revert a. induction l as [|x l IH]; intros a Hn Hp; simpl.
  - rewrite Hn, Hp by left. done.
  - rewrite Hn, Hp by left. intros [? ?]. split; [done|].
    apply IH; [intros; apply Hn; by right|intros; apply Hp; by right|done].
Qed.

(** The node before the end, and the node after the start. *)
Lemma path_before nx pv a l b : path nx pv a l b → pv b ∈ a :: l.
Proof. revert a. induction l as [|x l IH]; intros a; simpl; [intros [_ ->]; left|]. intros [_ H]. right. by apply IH. Qed.
Lemma path_after nx pv a l b : path nx pv a l b → nx a ∈ l ++ [b].
Proof. destruct l; simpl; [intros [-> _]; left|intros [[-> _] _]; left]. Qed.

(** Making the node before [b] point to [b'] instead. *)
Lemma path_redirect nx pv nx' pv' a l b b' : NoDup (a :: l) → path nx pv a l b →
  (∀ x, x ∈ a :: l → x ≠ pv b → nx' x = nx x) → nx' (pv b) = b' → pv' b' = pv b →
  (∀ y, y ∈ l → pv' y = pv y) → path nx' pv' a l b'.
Proof.
  revert a. induction l as [|x l IH]; intros a Hnd Hpath Hn Hb Hb' Hp; simpl in *.
  - destruct Hpath as [_ Ha]. by rewrite Ha in *.
  - destruct Hpath as [[Hx Hxp] Hpath]. apply list.NoDup_cons in Hnd as [Ha Hnd].
    rewrite (Hp x) by left. split.
    + split; [|done]. rewrite Hn; [done|left|]. intros ->. apply Ha. by eapply path_before.
    + apply IH; auto. intros y Hy. apply Hn. by right. intros y Hy. apply Hp. by right.
Qed.

Lemma ring_empty nx pv h : ring (set_at nx h h) (set_at pv h h) h [].
Proof. split; [simpl; by rewrite !set_at_eq|apply NoDup_singleton]. Qed.

Lemma ring_insert nx pv h l b : ring nx pv h l → b ∉ h :: l →
  ring (set_at (set_at nx b (nx h)) h b) (set_at (set_at pv b h) (nx h) b) h (b :: l).
Proof.
  intros [Hpath Hnd] Hb. pose proof (path_after _ _ _ _ _ Hpath) as Hin.
  assert (nx h ≠ b) as Hne by (intros <-; apply Hb; apply elem_of_app in Hin as [?|E%list_elem_of_singleton]; [by right|rewrite E; by left]).
  apply list.NoDup_cons in Hnd as [Hh Hnd]. apply not_elem_of_cons in Hb as [Hbh Hbl].
  split; [|by rewrite !list.NoDup_cons, not_elem_of_cons]. simpl.
  rewrite set_at_eq, (set_at_ne _ _ b), set_at_eq by done. split; [done|].
  destruct l as [|x l]; simpl in *.
  - destruct Hpath as [-> _]. by rewrite set_at_ne, !set_at_eq by done.
  - destruct Hpath as [[-> _] Hpath]. apply not_elem_of_cons in Hh as [Hhx Hhl], Hbl as [Hbx Hbl].
    rewrite (set_at_ne _ h b), !set_at_eq by done. split; [done|].
    apply list.NoDup_cons in Hnd as [Hx Hnd]. eapply path_ext; [| |done].
    + intros y Hy. rewrite !set_at_ne; [done|..]; intros ->; apply elem_of_cons in Hy as [?|?]; done.
    + intros y Hy. rewrite !set_at_ne; [done|..]; intros ->; apply elem_of_app in Hy as [?|?%list_elem_of_singleton]; done.
Qed.

Lemma ring_remove nx pv h l1 b l2 : ring nx pv h (l1 ++ b :: l2) →
  ring (set_at nx (pv b) (nx b)) (set_at pv (nx b) (pv b)) h (l1 ++ l2).
Proof.
  intros [[Hp1 Hp2]%path_app Hnd].
  assert (NoDup ((h :: l1) ++ b :: l2)) as (Hnd1 & Hdis & Hnd2)%list.NoDup_app by done.
  apply list.NoDup_cons in Hnd2 as [Hb Hnd2].
  pose proof (path_before _ _ _ _ _ Hp1) as Hin.
  assert (∀ x, x ∈ l2 → x ∉ h :: l1) as Hdis' by (intros x ? Hx; apply (Hdis x Hx); by right).
  split; [|change (NoDup ((h :: l1) ++ l2)); apply list.NoDup_app; naive_solver].
  assert (∀ x, x ∈ h :: l1 → x ≠ pv b → set_at nx (pv b) (nx b) x = nx x) as Hnx by (intros; by apply set_at_ne).
  destruct l2 as [|n l2]; simpl in *.
  - destruct Hp2 as [E _]. rewrite E in *. rewrite app_nil_r.
    eapply (path_redirect nx pv _ _ _ _ b); [done|done|done|apply set_at_eq|apply set_at_eq|].
    intros y Hy. apply set_at_ne. intros ->. by apply list.NoDup_cons in Hnd1 as [? _].
  - destruct Hp2 as [[E _] Hp2]. rewrite E in *. apply list.NoDup_cons in Hnd2 as [Hn2 Hnd2].
    pose proof (Hdis' n ltac:(left)) as [Hnh Hn1]%not_elem_of_cons.
    apply path_app. split.
    + eapply (path_redirect nx pv _ _ _ _ b); [done|done|done|apply set_at_eq|apply set_at_eq|].
      intros y Hy. apply set_at_ne. by intros ->.
    + eapply path_ext; [| |done].
      * intros x Hx. apply set_at_ne. intros ->. by eapply Hdis'.
      * intros y Hy. apply set_at_ne. intros ->. by apply elem_of_app in Hy as [?|?%list_elem_of_singleton].
Qed.

End ring.

(** ** The state with and without the links *)

Definition core (b : buf) : buf := bset_prev 0 (bset_next 0 b).
Definition cores (s : bst) : list buf := core <$> bufs s.
Definition link_of (g : buf → nat) (l : list buf) (h : nat) (i : nat) : nat :=
  if (i =? HEAD)%nat then h else match l !! i with Some b => g b | None => HEAD end.
Definition nx (s : bst) : nat → nat := link_of b_next (bufs s) (head_next s).
Definition pv (s : bst) : nat → nat := link_of b_prev (bufs s) (head_prev s).

(** Everything but the buffers and their links. *)
Definition outside (s : bst) : (Z → list byte) * list (Z * list byte) * Z * list Z * list Z :=
  (disk s, writes s, me s, wakeups s, bheld s).

Definition node (s : bst) (i : nat) : Prop := i = HEAD ∨ (i < length (bufs s))%nat.

Section links.
Implicit Types s : bst.

Lemma get_next_ok s i : node s i → get_next i s = Ok (nx s i) s.
Proof.
  intros Hi. unfold get_next, nx, link_of, gets. destruct (Nat.eqb_spec i HEAD); [done|].
  destruct Hi as [?|Hi]; [done|]. apply lookup_lt_is_Some_2 in Hi as [b Hb].
  unfold mbind, M_bind, get_buf. by rewrite Hb.
Qed.
Lemma get_prev_ok s i : node s i → get_prev i s = Ok (pv s i) s.
Proof.
  intros Hi. unfold get_prev, pv, link_of, gets. destruct (Nat.eqb_spec i HEAD); [done|].
  destruct Hi as [?|Hi]; [done|]. apply lookup_lt_is_Some_2 in Hi as [b Hb].
  unfold mbind, M_bind, get_buf. by rewrite Hb.
Qed.

Lemma cores_link s i f : (∀ b, core (f b) = core b) → core <$> alter f i (bufs s) = cores s.
Proof.
  intros Hf. apply list_eq. intros j. unfold cores. rewrite !list_lookup_fmap.
  destruct (decide (j = i)) as [->|Hne]; [|by rewrite list_lookup_alter_ne].
  rewrite list_lookup_alter_eq. destruct (bufs s !! i); simpl; [by rewrite Hf|done].
Qed.

(** What assigning a link changes. *)
Definition relinked s s' : Prop := cores s' = cores s ∧ outside s' = outside s.

Lemma link_of_same g l h i f j : (∀ b, g (f b) = g b) → link_of g (alter f i l) h j = link_of g l h j.
Proof.
  intros Hf. unfold link_of. destruct (decide (j = i)) as [->|?]; [|by rewrite list_lookup_alter_ne].
  rewrite list_lookup_alter_eq. by destruct (l !! i); simpl; [rewrite Hf|].
Qed.
Lemma link_of_set g l h i f v j : (∀ b, g (f b) = v) → i ≠ HEAD → (i < length l)%nat →
  link_of g (alter f i l) h j = set_at (link_of g l h) i v j.
Proof.
  intros Hf Hi [b Hb]%lookup_lt_is_Some_2. unfold link_of, set_at. destruct (Nat.eqb_spec j i) as [->|?].
  - rewrite list_lookup_alter_eq, Hb. simpl. by destruct (Nat.eqb_spec i HEAD).
  - by rewrite list_lookup_alter_ne.
Qed.
Lemma link_of_head g l h v j : link_of g l v j = set_at (link_of g l h) HEAD v j.
Proof. unfold link_of, set_at. by destruct (j =? HEAD)%nat. Qed.

Lemma put_next_ok s i v : node s i →
  ∃ s', put_next i v s = Ok tt s' ∧ relinked s s' ∧ (∀ j, nx s' j = set_at (nx s) i v j) ∧ (∀ j, pv s' j = pv s j).
Proof.
  intros Hi. unfold put_next. destruct (Nat.eqb_spec i HEAD) as [->|Hne]; eexists; (split; [done|]).
  - split; [done|]. split; intros j; [apply link_of_head|done].
  - destruct Hi as [?|Hi]; [done|]. split; [split; [by apply cores_link|done]|].
    split; intros j; [by apply (link_of_set b_next)|by apply (link_of_same b_prev)].
Qed.
Lemma put_prev_ok s i v : node s i →
  ∃ s', put_prev i v s = Ok tt s' ∧ relinked s s' ∧ (∀ j, nx s' j = nx s j) ∧ (∀ j, pv s' j = set_at (pv s) i v j).
Proof.
  intros Hi. unfold put_prev. destruct (Nat.eqb_spec i HEAD) as [->|Hne]; eexists; (split; [done|]).
  - split; [done|]. split; intros j; [done|apply link_of_head].
  - destruct Hi as [?|Hi]; [done|]. split; [split; [by apply cores_link|done]|].
    split; intros j; [by apply (link_of_same b_next)|by apply (link_of_set b_prev)].
Qed.

Lemma relinked_refl s : relinked s s.
Proof. done. Qed.
Lemma relinked_trans s1 s2 s3 : relinked s1 s2 → relinked s2 s3 → relinked s1 s3.
Proof. unfold relinked. intros [-> ->] [-> ->]. done. Qed.
Lemma relinked_length s s' : relinked s s' → length (bufs s') = length (bufs s).
Proof. intros [H _]. apply (f_equal length) in H. unfold cores in H. by rewrite !length_fmap in H. Qed.

Lemma ring_ext (f g f' g' : nat → nat) h l : (∀ j, f' j = f j) → (∀ j, g' j = g j) → ring f g h l → ring f' g' h l.
Proof. intros Hf Hg [Hp Hnd]. split; [|done]. eapply (path_ext f g); auto. Qed.

Lemma set_at_ext (f g : nat → nat) i v j : (∀ j, f j = g j) → set_at f i v j = set_at g i v j.
Proof. unfold set_at. by intros ->. Qed.

(** Running a chain of link assignments. *)
Lemma wp_put_next s i v (Q : unit → bst → Prop) : node s i →
  (∀ s', relinked s s' → (∀ j, nx s' j = set_at (nx s) i v j) → (∀ j, pv s' j = pv s j) → Q tt s') → wp (put_next i v) s Q.
Proof. intros Hi HQ. destruct (put_next_ok s i v Hi) as (s' & E & ? & ? & ?). eapply wp_Ok; [done|]. by apply HQ. Qed.
Lemma wp_put_prev s i v (Q : unit → bst → Prop) : node s i →
  (∀ s', relinked s s' → (∀ j, nx s' j = nx s j) → (∀ j, pv s' j = set_at (pv s) i v j) → Q tt s') → wp (put_prev i v) s Q.
Proof. intros Hi HQ. destruct (put_prev_ok s i v Hi) as (s' & E & ? & ? & ?). eapply wp_Ok; [done|]. by apply HQ. Qed.

Lemma node_relinked s s' i : relinked s s' → node s i → node s' i.
Proof. intros H. unfold node. by rewrite (relinked_length _ _ H). Qed.

Lemma link_head_spec s b l : length (bufs s) = nbuf → (b < nbuf)%nat → (∀ x, x ∈ l → (x < nbuf)%nat) → b ∉ l →
  ring (nx s) (pv s) HEAD l →
  wp (link_head b) s (λ _ s', relinked s s' ∧ ring (nx s') (pv s') HEAD (b :: l)).
Proof.
  intros Hlen Hb Hl Hbl Hring.
  assert (b ≠ HEAD) as Hbh by (unfold HEAD; lia).
  assert (node s (nx s HEAD)) as Hn.
  { destruct Hring as [Hp _]. apply path_after in Hp. apply elem_of_app in Hp as [Hx%Hl|Hx%list_elem_of_singleton]; [right; lia|by left]. }
  assert (node s b) by (right; lia). assert (node s HEAD) by by left.
  unfold link_head. apply wp_bind. eapply wp_Ok; [by apply get_next_ok|].
  apply wp_bind, wp_put_next; [done|]. intros s1 E1 N1 P1.
  apply wp_bind, wp_put_prev; [by eapply node_relinked|]. intros s2 E2 N2 P2.
  pose proof (relinked_trans _ _ _ E1 E2) as E12.
  apply wp_bind. eapply wp_Ok; [apply get_next_ok; by left|].
  rewrite N2, N1, set_at_ne by done.
  apply wp_bind, wp_put_prev; [by eapply node_relinked|]. intros s3 E3 N3 P3.
  pose proof (relinked_trans _ _ _ E12 E3) as E13.
  apply wp_put_next; [by left|]. intros s4 E4 N4 P4.
  split; [by eapply relinked_trans|].
  eapply ring_ext; [| |apply (ring_insert _ _ _ _ b Hring); by rewrite not_elem_of_cons].
  - intros j. rewrite N4. apply set_at_ext. intros k. by rewrite N3, N2, N1.
  - intros j. rewrite P4, P3. apply set_at_ext. intros k. rewrite P2. apply set_at_ext. intros k'. by rewrite P1.
Qed.

(** Moving a buffer to the front. *)
Lemma move_front_spec s i l1 l2 : length (bufs s) = nbuf → (∀ x, x ∈ l1 ++ i :: l2 → (x < nbuf)%nat) →
  ring (nx s) (pv s) HEAD (l1 ++ i :: l2) →
  wp (list_del i;; link_head i) s (λ _ s', relinked s s' ∧ ring (nx s') (pv s') HEAD (i :: l1 ++ l2)).
Proof.
  intros Hlen Hl Hring. pose proof Hring as [[Hp1 Hp2]%path_app Hnd].
  assert (i < nbuf)%nat as Hi by (apply Hl, elem_of_app; right; left).
  assert (i ∉ l1 ++ l2) as Hil.
  { change (NoDup ((HEAD :: l1) ++ i :: l2)) in Hnd. apply list.NoDup_app in Hnd as (_ & Hd & [Hn _]%list.NoDup_cons).
    intros [?|?]%elem_of_app; [|done]. eapply (Hd i); [by right|left]. }
  assert (∀ x, x ∈ HEAD :: l1 ++ l2 → node s x) as Hnode.
  { intros x [->|Hx]%elem_of_cons; [by left|]. right. rewrite Hlen. apply Hl. set_solver. }
  assert (node s (nx s i)) as Hn.
  { apply path_after in Hp2. apply Hnode. set_solver. }
  assert (node s (pv s i)) as Hp.
  { apply path_before in Hp1. apply Hnode. set_solver. }
  assert (node s i) as Hni by (right; lia).
  apply wp_bind. unfold list_del.
  apply wp_bind. eapply wp_Ok; [by apply get_next_ok|]. apply wp_bind. eapply wp_Ok; [by apply get_prev_ok|].
  apply wp_bind, wp_put_prev; [done|]. intros s1 E1 N1 P1.
  apply wp_bind. eapply wp_Ok; [apply get_next_ok; by eapply node_relinked|].
  apply wp_bind. eapply wp_Ok; [apply get_prev_ok; by eapply node_relinked|].
  assert (pv s1 i = pv s i) as -> by (rewrite P1; unfold set_at; by destruct (i =? nx s i)%nat).
  rewrite N1. apply wp_put_next; [by eapply node_relinked|]. intros s2 E2 N2 P2.
  pose proof (relinked_trans _ _ _ E1 E2) as E12.
  eapply wp_mono; [eapply (link_head_spec s2 i (l1 ++ l2)); [by rewrite (relinked_length _ _ E12)|done| |done|]|].
  - intros x Hx. apply Hl. set_solver.
  - eapply ring_ext; [| |apply (ring_remove _ _ _ _ _ _ Hring)].
    + intros j. rewrite N2. by apply set_at_ext.
    + intros j. rewrite P2. apply P1.
  - intros _ s3 [E3 R3]. split; [by eapply relinked_trans|done].
Qed.

End links.

(** ** The invariant

    For one device [dv], between operations: [P] are the blocks pinned by the
    log, [H] the blocks whose buffer some process has locked.  A buffer is
    referenced once for each; one that is neither holds what the disk holds, so
    that it can be recycled. *)

Section cache.
Context (dv : Z).
Implicit Types (s : bst) (P H : gset Z) (b : buf).

Definition caches s (i : nat) (n : Z) : Prop := ∃ b, cores s !! i = Some b ∧ b_dev b = dv ∧ b_blockno b = n.

Definition count (p : Prop) `{!Decision p} : Z := if decide p then 1 else 0.

Record cache P H s : Prop := {
  c_len : length (bufs s) = nbuf;
  c_dev i b : cores s !! i = Some b → b_dev b ≠ dv → b_lock b = None;
  c_uniq i j n : caches s i n → caches s j n → i = j;
  c_ref i b : cores s !! i = Some b →
    b_refcnt b = count (b_dev b = dv ∧ b_blockno b ∈ P) + count (is_Some (b_lock b));
  c_pin n : n ∈ P → ∃ i, caches s i n;
  c_held n : n ∈ H ↔ ∃ i b, cores s !! i = Some b ∧ b_dev b = dv ∧ b_blockno b = n ∧ is_Some (b_lock b);
  c_valid i b : cores s !! i = Some b → b_dev b = dv → b_valid b = true ∧ length (b_data b) = Z.to_nat BSIZE;
  c_clean i b : cores s !! i = Some b → b_dev b = dv → b_lock b = None → b_blockno b ∉ P →
    b_data b = disk s (b_blockno b);
  c_disk n : length (disk s n) = Z.to_nat BSIZE;
}.

(** With the order of use, the most recent first, and between the calls, when no
    spin lock is held. *)
Record cinv P H (l : list nat) s : Prop := {
  ci_cache : cache P H s;
  ci_ring : ring (nx s) (pv s) HEAD l;
  ci_perm : l ≡ₚ seq 0 nbuf;
  ci_idle : bheld s = [];
}.

(** What block [n] reads as. *)
Definition view s (n : Z) : list byte :=
  match list_find (λ b, b_dev b = dv ∧ b_blockno b = n) (cores s) with
  | Some (_, b) => b_data b
  | None => disk s n
  end.

(** The running process holds block [n], in buffer [i]. *)
Definition hold s (i : nat) (n : Z) : Prop :=
  ∃ b, cores s !! i = Some b ∧ b_dev b = dv ∧ b_blockno b = n ∧ b_lock b = Some (me s).

Lemma count_pos p `{!Decision p} : p → count p = 1.
Proof. intros. unfold count. by rewrite decide_True. Qed.
Lemma count_zero p `{!Decision p} : ¬ p → count p = 0.
Proof. intros. unfold count. by rewrite decide_False. Qed.

Lemma view_cached P H s i b : cache P H s → cores s !! i = Some b → b_dev b = dv → view s (b_blockno b) = b_data b.
Proof.
  intros Hc Hb Hd. unfold view. destruct (list_find _ _) as [[j b']|] eqn:E.
  - apply list_find_Some in E as (Hj & [Hd' Hn] & _).
    rewrite (c_uniq _ _ _ Hc i j (b_blockno b)) in Hb; [congruence|by exists b|by exists b'].
  - apply list_find_None in E. rewrite list.Forall_forall in E. exfalso.
    eapply E; [by eapply list_elem_of_lookup_2|done].
Qed.
Lemma view_uncached s n : (∀ i, ¬ caches s i n) → view s n = disk s n.
Proof.
  intros Hn. unfold view. destruct (list_find _ _) as [[j b']|] eqn:E; [|done].
  apply list_find_Some in E as (Hj & [Hd' Hb] & _). by destruct (Hn j); exists b'.
Qed.
Lemma view_clean P H s n : cache P H s → n ∉ P → n ∉ H → view s n = disk s n.
Proof.
  intros Hc HP HH. unfold view. destruct (list_find _ _) as [[j b]|] eqn:E; [|done].
  apply list_find_Some in E as (Hj & [Hd <-] & _). eapply (c_clean _ _ _ Hc); [done..| |done].
  destruct (b_lock b) eqn:El; [|done]. destruct HH. apply (c_held _ _ _ Hc). exists j, b. by rewrite El.
Qed.
Lemma view_length P H s n : cache P H s → length (view s n) = Z.to_nat BSIZE.
Proof.
  intros Hc. unfold view. destruct (list_find _ _) as [[j b']|] eqn:E; [|by eapply c_disk].
  apply list_find_Some in E as (Hj & [Hd' Hb] & _). by eapply (c_valid _ _ _ Hc).
Qed.
Lemma view_hold P H s i n b : cache P H s → hold s i n → cores s !! i = Some b → b_data b = view s n.
Proof.
  intros Hc (b' & Hb' & Hd & <- & _) Hb. rewrite Hb' in Hb. injection Hb as <-. symmetry. by eapply view_cached.
Qed.

(** The cache with one buffer [b'] for [b], maybe of another block, and the
    disk changed at that block only. *)
Record put P H s i b b' P' H' s' : Prop := {
  pt_old : cores s !! i = Some b;
  pt_new : cores s' = <[i := b']> (cores s);
  pt_dev : b_dev b' = dv;
  pt_valid : b_valid b' = true ∧ length (b_data b') = Z.to_nat BSIZE;
  pt_change : b_dev b = dv → b_blockno b = b_blockno b' ∨ b_lock b = None ∧ b_blockno b ∉ P;
  pt_fresh j : j ≠ i → ¬ caches s j (b_blockno b');
  pt_ref : b_refcnt b' = count (b_blockno b' ∈ P') + count (is_Some (b_lock b'));
  pt_clean : b_lock b' = None → b_blockno b' ∉ P' → b_data b' = disk s' (b_blockno b');
  pt_P m : m ≠ b_blockno b' → m ∈ P' ↔ m ∈ P;
  pt_H m : m ∈ H' ↔ if decide (m = b_blockno b') then is_Some (b_lock b') else m ∈ H;
  pt_disk m : m ≠ b_blockno b' → disk s' m = disk s m;
  pt_size : length (disk s' (b_blockno b')) = Z.to_nat BSIZE;
}.

Section put.
Context {P H s i b b' P' H' s'} (Hc : cache P H s) (Hput : put P H s i b b' P' H' s').

Lemma put_lookup j c : cores s' !! j = Some c → j = i ∧ c = b' ∨ j ≠ i ∧ cores s !! j = Some c.
Proof using Hput.
  rewrite (pt_new _ _ _ _ _ _ _ _ _ Hput). destruct (decide (j = i)) as [->|Hne].
  - rewrite list_lookup_insert_eq; [naive_solver|]. apply lookup_lt_is_Some. eexists. apply Hput.
  - rewrite list_lookup_insert_ne by done. auto.
Qed.
Lemma put_at : cores s' !! i = Some b'.
Proof using Hput.
  rewrite (pt_new _ _ _ _ _ _ _ _ _ Hput), list_lookup_insert_eq; [done|].
  apply lookup_lt_is_Some. eexists. apply Hput.
Qed.
Lemma put_other j c : j ≠ i → cores s !! j = Some c → cores s' !! j = Some c.
Proof using Hput. intros. by rewrite (pt_new _ _ _ _ _ _ _ _ _ Hput), list_lookup_insert_ne. Qed.

Lemma put_neq j c : j ≠ i → cores s !! j = Some c → b_dev c = dv → b_blockno c ≠ b_blockno b'.
Proof using Hput. intros Hne Hj Hd E. apply (pt_fresh _ _ _ _ _ _ _ _ _ Hput j Hne). by exists c. Qed.

Lemma put_caches j n : caches s' j n → j = i ∧ n = b_blockno b' ∨ j ≠ i ∧ caches s j n.
Proof using Hput.
  intros (c & Hc' & Hd & <-). apply put_lookup in Hc' as [[-> ->]|[? ?]]; [by left|].
  right. split; [done|]. by exists c.
Qed.

(** A block other than the new one, cached by another buffer or not at all. *)
Lemma put_elsewhere n : n ≠ b_blockno b' → (∃ j, j ≠ i ∧ caches s j n ∧ caches s' j n) ∨
  (∀ j, ¬ caches s' j n) ∧ (∀ j, caches s j n → j = i ∧ b_lock b = None ∧ n ∉ P).
Proof using Hput.
  intros Hn. destruct (list_find (λ c, b_dev c = dv ∧ b_blockno c = n) (cores s')) as [[j c]|] eqn:E.
  - apply list_find_Some in E as (Hj & [Hd Hb] & _). apply put_lookup in Hj as [[-> ->]|[Hne Hj]]; [by rewrite Hb in Hn|].
    left. exists j. split; [done|]. split; exists c; [done|]. by split; [apply put_other|].
  - apply list_find_None in E. rewrite list.Forall_forall in E. right. split.
    + intros j (c & Hj & Hd & Hb). apply list_elem_of_lookup_2 in Hj. by eapply E.
    + intros j (c & Hj & Hd & Hb). destruct (decide (j = i)) as [->|Hne].
      * split; [done|]. rewrite (pt_old _ _ _ _ _ _ _ _ _ Hput) in Hj. simplify_eq.
        destruct (pt_change _ _ _ _ _ _ _ _ _ Hput Hd) as [?|[? ?]]; done.
      * exfalso. apply (put_other j) in Hj; [|done]. apply list_elem_of_lookup_2 in Hj. by eapply E.
Qed.

Lemma put_cache : cache P' H' s'.
Proof using Hc Hput.
  pose proof Hput as [Hold Hnew Hd' Hv' Hch Hfr Hrf Hcl HP HH Hdk Hsz]. split.
  - apply (f_equal length) in Hnew. unfold cores in Hnew. rewrite length_insert, !length_fmap in Hnew.
    rewrite Hnew. by eapply c_len.
  - intros j c [[-> ->]|[Hne Hj]]%put_lookup Hd; [done|]. by eapply (c_dev _ _ _ Hc).
  - intros j k n [[-> ->]|[Hj Hj']]%put_caches [[-> Hk]|[Hk Hk']]%put_caches; subst; [done|by destruct (Hfr k)|by destruct (Hfr j)|].
    by eapply (c_uniq _ _ _ Hc).
  - intros j c [[-> ->]|[Hne Hj]]%put_lookup.
    + rewrite Hrf. f_equal. unfold count. apply decide_ext. naive_solver.
    + rewrite (c_ref _ _ _ Hc j c Hj). f_equal. unfold count. apply decide_ext.
      split; intros [Hd Hp]; (split; [done|]); apply (HP (b_blockno c)); eauto using put_neq.
  - intros n Hn. destruct (decide (n = b_blockno b')) as [->|Hne].
    + exists i, b'. by split; [apply put_at|].
    + destruct (put_elsewhere n Hne) as [(j & _ & _ & Hj)|[_ Hno]]; [by exists j|].
      apply (HP n Hne) in Hn as Hn'. destruct (c_pin _ _ _ Hc n Hn') as [j Hj]. by destruct (Hno j Hj) as (_ & _ & ?).
  - intros n. rewrite HH. destruct (decide (n = b_blockno b')) as [E|E].
    + split; [intros Hl; subst; exists i, b'; by split; [apply put_at|]|].
      intros (j & c & [[-> ->]|[Hne Hj]]%put_lookup & Hd & Hb & Hl); [done|]. subst n. by destruct (put_neq j c).
    + rewrite (c_held _ _ _ Hc). split; intros (j & c & Hj & Hd & Hb & Hl).
      * destruct (decide (j = i)) as [->|Hne].
        -- rewrite Hold in Hj. simplify_eq. destruct (Hch Hd) as [?|[Hl' _]]; [done|]. by rewrite Hl' in Hl; destruct Hl.
        -- exists j, c. by split; [apply put_other|].
      * apply put_lookup in Hj as [[-> ->]|[Hne Hj]]; [by subst|]. by exists j, c.
  - intros j c [[-> ->]|[Hne Hj]]%put_lookup Hd; [done|]. by eapply (c_valid _ _ _ Hc).
  - intros j c [[-> ->]|[Hne Hj]]%put_lookup Hd Hl Hp; [auto|].
    pose proof (put_neq j c Hne Hj Hd). rewrite Hdk by done. eapply (c_clean _ _ _ Hc); [done..|]. by rewrite <- HP.
  - intros n. destruct (decide (n = b_blockno b')) as [->|Hne]; [done|]. rewrite Hdk by done. by eapply c_disk.
Qed.

Lemma put_view n : view s' n = if decide (n = b_blockno b') then b_data b' else view s n.
Proof using Hc Hput.
  pose proof put_cache as Hc'. case_decide as E.
  - subst. eapply view_cached; [done|apply put_at|apply Hput].
  - destruct (put_elsewhere n E) as [(j & Hne & (c & Hj & Hd & <-) & _)|[Hno Hold]].
    + rewrite (view_cached P' H' s' j c), (view_cached P H s j c); eauto using put_other.
    + rewrite view_uncached by done. rewrite (pt_disk _ _ _ _ _ _ _ _ _ Hput) by done.
      destruct (decide (b_dev b = dv ∧ b_blockno b = n)) as [[Hd Hb]|Hb].
      * destruct (Hold i) as (_ & Hl & Hp); [by exists b; split; [apply Hput|]|].
        subst n. rewrite (view_cached P H s i b); [|done|apply Hput|done]. symmetry.
        eapply (c_clean _ _ _ Hc); [apply Hput|done..].
      * symmetry. apply view_uncached. intros j Hj. destruct (Hold j Hj) as (-> & _).
        destruct Hj as (c & Hc'' & Hd & Hn). rewrite (pt_old _ _ _ _ _ _ _ _ _ Hput) in Hc''. naive_solver.
Qed.

Lemma put_hold j n : me s' = me s → j ≠ i → hold s j n → hold s' j n.
Proof using Hput.
  intros Hme Hne (c & Hj & Hd & Hb & Hl). exists c. split; [by apply put_other|]. by rewrite Hme.
Qed.

End put.
End cache.

(** ** Updates of one buffer *)

(** Buffer [i] changed by [f], which leaves the links alone; the disk stays. *)
Record touched (i : nat) (f : buf → buf) (s s' : bst) : Prop := {
  t_cores : cores s' = alter f i (cores s);
  t_nx j : nx s' j = nx s j;
  t_pv j : pv s' j = pv s j;
  t_disk : disk s' = disk s;
  t_writes : writes s' = writes s;
  t_me : me s' = me s;
  t_held : bheld s' = bheld s;
}.

(** [f] does not look at the links or change them. *)
Class Linkless (f : buf → buf) : Prop := {
  ll_core b : core (f b) = f (core b);
  ll_next b : b_next (f b) = b_next b;
  ll_prev b : b_prev (f b) = b_prev b;
}.
#[global] Hint Extern 0 (Linkless _) => (split; reflexivity) : typeclass_instances.

Lemma filter_absent `{EqDecision A} (i : A) (l : list A) : i ∉ l → filter (λ j, j ≠ i) l = l.
Proof.
  induction l as [|x l IH]; [done|]. intros [Hx Hl]%not_elem_of_cons. rewrite filter_cons_True by done. by rewrite IH.
Qed.

Section touched.
Implicit Types s : bst.

Lemma upd_touched s i f `{!Linkless f} : touched i f s (set_bufs (alter f i (bufs s)) s).
Proof.
  split; try done.
  - unfold cores. simpl. apply list_eq. intros j. rewrite list_lookup_fmap.
    destruct (decide (j = i)) as [->|?]; [rewrite !list_lookup_alter_eq|rewrite !list_lookup_alter_ne by done]; rewrite list_lookup_fmap; [|done].
    destruct (bufs s !! i); simpl; [by rewrite ll_core|done].
  - intros j. apply (link_of_same b_next). apply ll_next.
  - intros j. apply (link_of_same b_prev). apply ll_prev.
Qed.

Lemma touched_trans s1 s2 s3 i f g : touched i f s1 s2 → touched i g s2 s3 → touched i (g ∘ f) s1 s3.
Proof.
  intros [C1 ? ? ? ? ? ?] [C2 ? ? ? ? ? ?]. split; try congruence.
  rewrite C2, C1. apply alter_alter.
Qed.

Lemma touched_at s s' i f b : touched i f s s' → cores s !! i = Some b → cores s' !! i = Some (f b).
Proof. intros Ht Hb. rewrite (t_cores _ _ _ _ Ht), list_lookup_alter_eq, Hb. done. Qed.

Lemma touched_insert s s' i f b : touched i f s s' → cores s !! i = Some b → cores s' = <[i := f b]> (cores s).
Proof. intros Ht Hb. rewrite (t_cores _ _ _ _ Ht). by apply alter_insert. Qed.

Lemma wp_upd_buf s i f `{!Linkless f} (Q : unit → bst → Prop) :
  (∀ s', touched i f s s' → outside s' = outside s → Q tt s') → wp (upd_buf i f) s Q.
Proof. intros HQ. apply wp_modify. apply HQ; [by apply upd_touched|done]. Qed.

Lemma wp_get_buf s i c (Q : buf → bst → Prop) :
  cores s !! i = Some c → (∀ b, core b = c → Q b s) → wp (get_buf i) s Q.
Proof.
  unfold cores. rewrite list_lookup_fmap. intros Hc HQ. destruct (bufs s !! i) as [b|] eqn:Hb; [|done].
  simpl in Hc. eapply wp_Ok; [unfold get_buf; by rewrite Hb|]. apply HQ. congruence.
Qed.

(** Spin locks. *)
Lemma wp_slock s l (Q : unit → bst → Prop) : l ∉ bheld s → Q tt (set_bheld (l :: bheld s) s) → wp (slock l) s Q.
Proof. intros Hl HQ. apply wp_bind, wp_gets. rewrite decide_False by done. by apply wp_modify. Qed.
Lemma wp_sunlock s l h (Q : unit → bst → Prop) : bheld s = l :: h → l ∉ h → Q tt (set_bheld h s) → wp (sunlock l) s Q.
Proof.
  intros Hs Hl HQ. apply wp_bind, wp_gets. rewrite decide_True by (rewrite Hs; left). apply wp_modify. rewrite Hs, filter_cons_False by tauto.
  by rewrite filter_absent.
Qed.
Lemma set_bheld_id s h : bheld s = h → set_bheld h s = s.
Proof. intros <-. by destruct s. Qed.

(** A change made with other locks held. *)
Lemma touched_under s s' i f h : touched i f (set_bheld h s) s' → touched i f s (set_bheld (bheld s) s').
Proof. intros []. by split. Qed.

End touched.

(** ** Specifications *)

Section ops.
Context (dv : Z).
Implicit Types (s : bst) (P H : gset Z) (l : list nat).

Lemma cinv_put P H l s i b b' P' H' s' : cinv dv P H l s → put dv P H s i b b' P' H' s' →
  (∀ j, nx s' j = nx s j) → (∀ j, pv s' j = pv s j) → bheld s' = bheld s → cinv dv P' H' l s'.
Proof. intros [Hc Hr Hl Hi] Hp Hn Hv Hh. split; [by eapply put_cache|by eapply ring_ext|done|congruence]. Qed.

Lemma cinv_node P H l s i : cinv dv P H l s → i ∈ l → node s i ∧ i ≠ HEAD ∧ ∃ b, cores s !! i = Some b.
Proof.
  intros [Hc _ Hl _] Hi. rewrite Hl in Hi. apply elem_of_seq in Hi. rewrite <- (c_len _ _ _ _ Hc) in Hi.
  split_and!; [right; lia|unfold HEAD; rewrite <- (c_len _ _ _ _ Hc); lia|].
  apply lookup_lt_is_Some. unfold cores. rewrite length_fmap. lia.
Qed.
Lemma cinv_all P H l s i b : cinv dv P H l s → cores s !! i = Some b → i ∈ l.
Proof.
  intros [Hc _ Hl _] Hi. rewrite Hl. apply elem_of_seq. apply lookup_lt_Some in Hi. unfold cores in Hi.
  rewrite length_fmap, (c_len _ _ _ _ Hc) in Hi. lia.
Qed.

(** The scans follow the ring, whatever locks are held. *)
Lemma bget_cached_scan P H l s n h : cinv dv P H l s → ∀ l2 y fuel,
  path (nx s) (pv s) y l2 HEAD → (∀ x, x ∈ l2 → x ∈ l) → (length l2 < fuel)%nat →
  wp (bget_cached fuel (nx s y) dv n) (set_bheld h s) (λ r s', s' = set_bheld h s ∧
    match r with Some i => i ∈ l2 ∧ caches dv s i n | None => ∀ i, i ∈ l2 → ¬ caches dv s i n end).
Proof.
  intros Hinv. induction l2 as [|x l2 IH]; intros y fuel Hp Hsub Hf; (destruct fuel as [|fuel]; [simpl in Hf; lia|]); simpl.
  - destruct Hp as [-> _]. rewrite Nat.eqb_refl. apply wp_ret. split; [done|]. by intros i ?%not_elem_of_nil.
  - destruct Hp as [[-> _] Hp]. destruct (cinv_node _ _ _ _ x Hinv) as (Hnd & Hx & c & Hc); [apply Hsub; left|].
    destruct (Nat.eqb_spec x HEAD); [done|]. apply wp_bind. eapply wp_get_buf; [done|]. intros b Hb.
    assert (b_dev b = b_dev c ∧ b_blockno b = b_blockno c) as [-> ->] by by subst.
    destruct (Z.eqb_spec (b_dev c) dv), (Z.eqb_spec (b_blockno c) n); simpl;
      [apply wp_ret; split; [done|]; split; [left|by exists c]|..];
      (apply wp_bind; eapply wp_Ok; [by apply get_next_ok|]; eapply wp_mono; [apply IH; [done|intros; apply Hsub; by right|simpl in Hf; lia]|]);
      (intros [r|] s' [-> Hr]; (split; [done|]); [destruct Hr; split; [by right|done]|]);
      intros i [->|Hi]%elem_of_cons; auto; intros (c' & ? & ? & ?); simplify_eq.
Qed.

Definition refs s (i : nat) : Z := match cores s !! i with Some b => b_refcnt b | None => 0 end.

Lemma bget_unused_scan P H l s h : cinv dv P H l s → ∀ l1 y fuel,
  path (nx s) (pv s) HEAD l1 y → (∀ x, x ∈ l1 → x ∈ l) → (length l1 < fuel)%nat →
  wp (bget_unused fuel (pv s y)) (set_bheld h s) (λ r s', s' = set_bheld h s ∧
    match r with
    | Some i => ∃ l0 l2, l1 = l0 ++ i :: l2 ∧ refs s i = 0 ∧ ∀ j, j ∈ l2 → refs s j ≠ 0
    | None => ∀ j, j ∈ l1 → refs s j ≠ 0
    end).
Proof.
  intros Hinv. induction l1 as [|x l1 IH] using rev_ind; intros y fuel Hp Hsub Hf; (destruct fuel as [|fuel]; [rewrite ?length_app in Hf; simpl in Hf; lia|]); simpl.
  - destruct Hp as [_ ->]. rewrite Nat.eqb_refl. apply wp_ret. split; [done|]. by intros i ?%not_elem_of_nil.
  - apply path_app in Hp as [Hp [_ ->]]. destruct (cinv_node _ _ _ _ x Hinv) as (Hnd & Hx & c & Hc); [apply Hsub, elem_of_app; right; left|].
    destruct (Nat.eqb_spec x HEAD); [done|]. apply wp_bind. eapply wp_get_buf; [done|]. intros b Hb.
    assert (b_refcnt b = refs s x) as -> by (unfold refs; rewrite Hc; by subst).
    destruct (Z.eqb_spec (refs s x) 0) as [Hz|Hz].
    + apply wp_ret. split; [done|]. exists l1, []. split_and!; [done|done|]. by intros j ?%not_elem_of_nil.
    + apply wp_bind. eapply wp_Ok; [by apply get_prev_ok|]. rewrite length_app in Hf. simpl in Hf.
      eapply wp_mono; [apply IH; [done|intros; apply Hsub, elem_of_app; by left|lia]|].
      intros [r|] s' [-> Hr]; (split; [done|]).
      * destruct Hr as (l0 & l2 & -> & Hr & Hl2). exists l0, (l2 ++ [x]). rewrite <- app_assoc. split_and!; [done..|].
        intros j [Hj| ->%list_elem_of_singleton]%elem_of_app; auto.
      * intros j [Hj| ->%list_elem_of_singleton]%elem_of_app; auto.
Qed.

(** A pinned block or enough room guarantees a buffer. *)
Lemma ref_of P H s i b : cache dv P H s → cores s !! i = Some b → b_dev b = dv →
  b_refcnt b = count (b_blockno b ∈ P) + count (is_Some (b_lock b)).
Proof.
  intros Hc Hb Hd. rewrite (c_ref _ _ _ _ Hc i b Hb). f_equal. unfold count. apply decide_ext. naive_solver.
Qed.
Lemma count_range p `{!Decision p} : 0 ≤ count p ≤ 1.
Proof. unfold count. case_decide; lia. Qed.
Lemma ref_zero P H s i b : cache dv P H s → cores s !! i = Some b → b_refcnt b = 0 →
  b_lock b = None ∧ (b_dev b = dv → b_blockno b ∉ P).
Proof.
  intros Hc Hb. rewrite (c_ref _ _ _ _ Hc i b Hb). intros Hz.
  pose proof (count_range (b_dev b = dv ∧ b_blockno b ∈ P)). pose proof (count_range (is_Some (b_lock b))).
  split.
  - destruct (b_lock b) eqn:E; [|done]. rewrite (count_pos (is_Some _)) in Hz by done. lia.
  - intros Hd Hp. rewrite (count_pos (_ ∧ _)) in Hz by done. lia.
Qed.

Lemma free_buffer P H l s : cinv dv P H l s → (size (P ∪ H) < nbuf)%nat → ∃ i, i ∈ l ∧ refs s i = 0.
Proof.
  intros Hinv Hsz. pose proof (ci_cache _ _ _ _ _ Hinv) as Hc.
  destruct (decide (Exists (λ i, refs s i = 0) l)) as [[i [? ?]]%list.Exists_exists|Hno]; [by exists i|exfalso].
  assert (∀ i b, cores s !! i = Some b → b_dev b = dv ∧ b_blockno b ∈ P ∪ H) as Hall.
  { intros i b Hb. assert (b_refcnt b ≠ 0) as Hz.
    { intros Hz. apply Hno, list.Exists_exists. exists i. split; [by eapply cinv_all|]. unfold refs. by rewrite Hb. }
    assert (b_dev b = dv) as Hd.
    { destruct (decide (b_dev b = dv)) as [|Hd]; [done|]. destruct Hz. rewrite (c_ref _ _ _ _ Hc i b Hb).
      rewrite (count_zero (_ ∧ _)) by (by intros [? _]). rewrite count_zero; [done|].
      rewrite (c_dev _ _ _ _ Hc i b Hb Hd). by intros []. }
    split; [done|]. rewrite (ref_of _ _ _ _ _ Hc Hb Hd) in Hz. apply elem_of_union.
    destruct (decide (b_blockno b ∈ P)); [by left|]. right. apply (c_held _ _ _ _ Hc). exists i, b.
    split_and!; [done..|]. destruct (decide (is_Some (b_lock b))); [done|]. by rewrite !count_zero in Hz. }
  assert (NoDup (b_blockno <$> cores s)) as Hnd.
  { apply NoDup_alt. intros i j n. rewrite !list_lookup_fmap. intros Hi Hj.
    apply fmap_Some in Hi as (b & Hb & ->), Hj as (c & Hcj & E). eapply (c_uniq _ _ _ _ Hc).
    - exists b. by destruct (Hall _ _ Hb).
    - exists c. by destruct (Hall _ _ Hcj). }
  pose proof (size_list_to_set (C := gset Z) _ Hnd) as Hs. rewrite length_fmap in Hs.
  unfold cores in Hs at 2. rewrite length_fmap, (c_len _ _ _ _ Hc) in Hs.
  assert (list_to_set (b_blockno <$> cores s) ⊆ P ∪ H) as Hsub%subseteq_size; [|lia].
  intros n [b [-> [i Hb]%list_elem_of_lookup]]%elem_of_list_to_set%list_elem_of_fmap. by eapply Hall.
Qed.

(** What an operation keeps apart from the cache. *)
Definition kept s s' : Prop := disk s' = disk s ∧ writes s' = writes s ∧ me s' = me s.
Lemma kept_refl s : kept s s.
Proof. done. Qed.
Lemma kept_trans s1 s2 s3 : kept s1 s2 → kept s2 s3 → kept s1 s3.
Proof. unfold kept. naive_solver congruence. Qed.
Lemma touched_kept i f s s' : touched i f s s' → kept s s'.
Proof. intros []. done. Qed.

(** The buffer that [bread] of an uncached block recycles: the least recently
    used one that nobody references. *)
Definition least_recent s l (i : nat) : Prop :=
  ∃ l0 l2, l = l0 ++ i :: l2 ∧ refs s i = 0 ∧ ∀ j, j ∈ l2 → refs s j ≠ 0.

Record read_post P H l s (n : Z) (i : nat) s' : Prop := {
  rd_inv : cinv dv P ({[n]} ∪ H) l s';
  rd_hold : hold dv s' i n;
  rd_view m : view dv s' m = view dv s m;
  rd_kept : kept s s';
  rd_other j m : hold dv s j m → hold dv s' j m;
  rd_which : caches dv s i n ∨ (∀ j, ¬ caches dv s j n) ∧ least_recent s l i;
}.

(** Buffer [b] of block [n] locked by the running process. *)
Lemma lock_put P H l s s' i b b' n : cinv dv P H l s → n ∉ H → touched i (λ _, b') s s' →
  cores s !! i = Some b → b_dev b' = dv → b_blockno b' = n → b_lock b' = Some (me s) →
  b_valid b' = true → b_data b' = view dv s n → b_refcnt b' = count (n ∈ P) + 1 →
  (b_dev b = dv → b_blockno b ≠ n → b_lock b = None ∧ b_blockno b ∉ P) →
  (∀ j, j ≠ i → ¬ caches dv s j n) →
  cinv dv P ({[n]} ∪ H) l s' ∧ hold dv s' i n ∧ (∀ m, view dv s' m = view dv s m) ∧
    (∀ j m, hold dv s j m → hold dv s' j m).
Proof.
  intros Hinv HnH Ht Hb Hd Hn Hl Hv Hdata Href Hch Hfr. pose proof (ci_cache _ _ _ _ _ Hinv) as Hc.
  assert (put dv P H s i b b' P ({[n]} ∪ H) s') as Hput.
  { split; rewrite ?Hn; try done.
    - by apply (touched_insert _ _ _ _ b Ht).
    - split; [done|]. rewrite Hdata. by eapply view_length.
    - intros ?. destruct (decide (b_blockno b = n)); auto.
    - rewrite Href, Hl. by rewrite (count_pos (is_Some _)).
    - by rewrite Hl.
    - intros m. rewrite Hl, elem_of_union, elem_of_singleton. destruct (decide (m = n)); [split; [by eexists|by left]|tauto].
    - intros m _. by rewrite (t_disk _ _ _ _ Ht).
    - rewrite (t_disk _ _ _ _ Ht). by eapply c_disk. }
  assert (∀ m, view dv s' m = view dv s m) as Hview.
  { intros m. rewrite (put_view dv Hc Hput). destruct (decide (m = b_blockno b')); [|done]. subst m. by rewrite Hn. }
  split_and!; [by eapply cinv_put; [done|done|apply Ht..]| |done|].
  - exists b'. split; [by apply (put_at dv Hput)|]. by rewrite (t_me _ _ _ _ Ht).
  - intros j m Hj. eapply (put_hold dv Hput); [apply Ht| |done]. intros ->.
    destruct Hj as (c & Hcj & Hdj & Hm & Hlj). rewrite Hb in Hcj. injection Hcj as <-.
    destruct (decide (b_blockno b = n)) as [E|E].
    + apply HnH. apply (c_held _ _ _ _ Hc). exists i, b. by rewrite Hlj.
    + destruct (Hch Hdj E) as [Hno _]. by rewrite Hno in Hlj.
Qed.

Lemma u32_ref P H s i b : cache dv P H s → cores s !! i = Some b → 0 ≤ b_refcnt b ≤ 2.
Proof.
  intros Hc Hb. rewrite (c_ref _ _ _ _ Hc i b Hb).
  pose proof (count_range (b_dev b = dv ∧ b_blockno b ∈ P)). pose proof (count_range (is_Some (b_lock b))). lia.
Qed.

Lemma touched_const s s' i f b : touched i f s s' → cores s !! i = Some b → touched i (λ _, f b) s s'.
Proof. intros [C ? ? ? ? ? ?] Hb. split; try done. rewrite C. by apply alter_const. Qed.

(** The spin lock of a sleep lock, taken with no other held. *)
Lemma wp_chan_lock s ch (Q : unit → bst → Prop) : bheld s = [] → Q tt (set_bheld [ch] s) → wp (slock ch) s Q.
Proof. intros Hs HQ. apply wp_slock; rewrite Hs; [apply not_elem_of_nil|done]. Qed.
Lemma wp_last_unlock s ch (Q : unit → bst → Prop) : bheld s = [ch] → Q tt (set_bheld [] s) → wp (sunlock ch) s Q.
Proof. intros Hs HQ. eapply wp_sunlock; [done|apply not_elem_of_nil|done]. Qed.

Lemma buf_acquire_spec s i b (Q : unit → bst → Prop) : cores s !! i = Some b → b_lock b = None → bheld s = [] →
  (∀ s', touched i (bset_lock (Some (me s))) s s' → Q tt s') → wp (buf_acquire i) s Q.
Proof.
  intros Hb Hl Hs HQ. unfold buf_acquire. apply wp_bind, wp_chan_lock; [done|]. apply wp_bind. eapply wp_get_buf; [done|]. intros x Hx.
  assert (b_lock x = None) as -> by (rewrite <- Hx in Hl; done).
  apply wp_bind, wp_gets. apply wp_bind, wp_upd_buf; [apply _|]. intros s' T _. apply wp_last_unlock; [by rewrite (t_held _ _ _ _ T)|].
  apply HQ. rewrite <- Hs. by eapply touched_under.
Qed.

(** What [bget] leaves of the buffer [b] it returns: locked, with one more
    reference or made over to the new block. *)
Definition got s (n : Z) (hit : bool) (b : buf) : buf :=
  bset_lock (Some (me s)) (if hit then bset_refcnt (u32 (b_refcnt b + 1)) b
                           else bset_refcnt 1 (bset_valid false (bset_id dv n b))).

Lemma bget_spec P H l s n : cinv dv P H l s → n ∉ H → n ∈ P ∨ (size (P ∪ H) < nbuf)%nat →
  wp (bget dv n) s (λ i s', ∃ hit b, cores s !! i = Some b ∧ touched i (λ _, got s n hit b) s s' ∧ b_lock b = None ∧
    if (hit : bool) then caches dv s i n
    else (∀ j, ¬ caches dv s j n) ∧ least_recent s l i ∧ (b_dev b = dv → b_blockno b ∉ P)).
Proof.
  intros Hinv HnH Hroom. pose proof (ci_cache _ _ _ _ _ Hinv) as Hc. pose proof (ci_ring _ _ _ _ _ Hinv) as [Hpath Hnd].
  assert (length l = nbuf) as Hll by (rewrite (ci_perm _ _ _ _ _ Hinv); apply length_seq).
  pose proof (ci_idle _ _ _ _ _ Hinv) as Hidle. unfold bget. apply wp_bind, wp_chan_lock; [done|].
  apply wp_bind. eapply wp_Ok; [apply get_next_ok; by left|].
  apply wp_bind. eapply wp_mono; [apply (bget_cached_scan P H l s n _ Hinv l HEAD); [done|done|lia]|]. intros [i|] s0 [-> Hscan].
  - destruct Hscan as [Hi Hcs]. pose proof Hcs as (b & Hb & Hd & Hn).
    assert (b_lock b = None) as Hl.
    { destruct (b_lock b) eqn:E; [|done]. destruct HnH. apply (c_held _ _ _ _ Hc). exists i, b. by rewrite E. }
    apply wp_bind, wp_upd_buf; [apply _|]. intros s1 T1 _. apply wp_bind, wp_last_unlock; [by rewrite (t_held _ _ _ _ T1)|].
    apply touched_under in T1. rewrite Hidle in T1. pose proof (touched_at _ _ _ _ _ T1 Hb) as Hb1.
    apply wp_bind. eapply buf_acquire_spec; [done|done|done|]. intros s2 T2. rewrite (t_me _ _ _ _ T1) in T2.
    apply wp_ret. exists true, b. split; [done|]. split; [|done].
    apply (touched_const _ _ _ _ _ (touched_trans _ _ _ _ _ _ T1 T2) Hb).
  - assert (∀ j, ¬ caches dv s j n) as Hno.
    { intros j Hcj. pose proof Hcj as (b & Hb & _). eapply Hscan; [by eapply cinv_all|done]. }
    destruct Hroom as [[j Hj]%(c_pin _ _ _ _ Hc)|Hroom]; [by destruct (Hno j)|].
    apply wp_bind. eapply wp_Ok; [apply get_prev_ok; by left|].
    apply wp_bind. eapply wp_mono; [apply (bget_unused_scan P H l s _ Hinv l HEAD); [done|done|lia]|]. intros [i|] s0 [-> Huse].
    2: { destruct (free_buffer _ _ _ _ Hinv Hroom) as (i & Hi & Hz). by destruct (Huse i Hi). }
    assert (i ∈ l) as Hi by (destruct Huse as (l0 & l2 & -> & _); apply elem_of_app; right; left).
    destruct (cinv_node _ _ _ _ i Hinv Hi) as (_ & _ & b & Hb).
    assert (b_refcnt b = 0) as Hz by (destruct Huse as (_ & _ & _ & Hz & _); unfold refs in Hz; by rewrite Hb in Hz).
    destruct (ref_zero _ _ _ _ _ Hc Hb Hz) as [Hl HbP].
    apply wp_bind, wp_upd_buf; [apply _|]. intros s1 T1 _. apply wp_bind, wp_last_unlock; [by rewrite (t_held _ _ _ _ T1)|].
    apply touched_under in T1. rewrite Hidle in T1. pose proof (touched_at _ _ _ _ _ T1 Hb) as Hb1.
    apply wp_bind. eapply buf_acquire_spec; [done|done|done|]. intros s2 T2. rewrite (t_me _ _ _ _ T1) in T2.
    apply wp_ret. exists false, b. split; [done|]. split; [|done].
    apply (touched_const _ _ _ _ _ (touched_trans _ _ _ _ _ _ T1 T2) Hb).
Qed.

Lemma bread_spec P H l s n : cinv dv P H l s → n ∉ H → n ∈ P ∨ (size (P ∪ H) < nbuf)%nat →
  wp (bread dv n) s (λ i s', read_post P H l s n i s').
Proof.
  intros Hinv HnH Hroom. pose proof (ci_cache _ _ _ _ _ Hinv) as Hc.
  unfold bread. apply wp_bind. eapply wp_mono; [by eapply bget_spec|]. intros i s2 (hit & b & Hb & T2 & Hl & Hcase).
  pose proof (touched_at _ _ _ _ _ T2 Hb) as Hb2. apply wp_bind. eapply wp_get_buf; [done|]. intros x Hx.
  assert (b_valid x = b_valid (got s n hit b)) as -> by (change (b_valid x) with (b_valid (core x)); by rewrite Hx).
  destruct hit; simpl.
  - destruct Hcase as (b' & Hb' & Hd & Hn). rewrite Hb in Hb'. injection Hb' as <-.
    destruct (c_valid _ _ _ _ Hc i b Hb Hd) as [Hv _]. rewrite Hv. apply wp_bind, wp_ret, wp_ret.
    pose proof (u32_ref _ _ _ _ _ Hc Hb) as Hr.
    destruct (lock_put P H l s s2 i b _ n Hinv HnH T2 Hb) as (? & ? & ? & ?);
      [done|done|done|done| | | | |split; auto; [by eapply touched_kept|left; by exists b]].
    + simpl. rewrite <- Hn. symmetry. by eapply view_cached.
    + simpl. rewrite u32_small by lia. rewrite (ref_of _ _ _ _ _ Hc Hb Hd), Hl, Hn.
      rewrite (count_zero (is_Some None)) by (by intros []). lia.
    + by rewrite Hn.
    + intros j Hj Hcj. apply Hj. eapply (c_uniq _ _ _ _ Hc); [done|by exists b].
  - destruct Hcase as (Hno & Hlru & HbP).
    apply wp_bind, wp_bind. unfold virtio_disk_rw. apply wp_bind. eapply wp_get_buf; [done|]. intros y Hy.
    assert (b_blockno y = n) as -> by (change (b_blockno y) with (b_blockno (core y)); by rewrite Hy).
    apply wp_bind, wp_gets. apply wp_upd_buf; [apply _|]. intros s3 T3 _. rewrite (t_disk _ _ _ _ T2) in T3.
    apply wp_upd_buf; [apply _|]. intros s4 T4 _. apply wp_ret.
    pose proof (touched_trans _ _ _ _ _ _ (touched_trans _ _ _ _ _ _ T2 T3) T4) as T.
    destruct (lock_put P H l s s4 i b _ n Hinv HnH (touched_const _ _ _ _ _ T Hb) Hb) as (? & ? & ? & ?);
      [done|done|done|done| | | | |split; auto; by eapply touched_kept].
    + simpl. symmetry. by apply view_uncached.
    + simpl. rewrite count_zero; [done|]. intros [j Hj]%(c_pin _ _ _ _ Hc). by eapply Hno.
    + auto.
    + auto.
Qed.

(** ** Operations on a held buffer *)

Lemma hold_put P H s i n b b' P' H' s' : cache dv P H s → hold dv s i n → cores s !! i = Some b →
  cores s' = <[i := b']> (cores s) → b_dev b' = dv → b_blockno b' = n → b_valid b' = true →
  length (b_data b') = Z.to_nat BSIZE → b_refcnt b' = count (n ∈ P') + count (is_Some (b_lock b')) →
  (b_lock b' = None → n ∉ P' → b_data b' = disk s' n) → (∀ m, m ≠ n → m ∈ P' ↔ m ∈ P) →
  (∀ m, m ∈ H' ↔ if decide (m = n) then is_Some (b_lock b') else m ∈ H) →
  (∀ m, m ≠ n → disk s' m = disk s m) → length (disk s' n) = Z.to_nat BSIZE →
  put dv P H s i b b' P' H' s'.
Proof.
  intros Hc (c & Hcc & Hd & Hn & Hl) Hb Hnew Hd' Hn' ? ? ? ? ? ? ? ?. rewrite Hcc in Hb. injection Hb as <-.
  split; rewrite ?Hn'; try done; [naive_solver|].
  intros j Hj Hcj. apply Hj. eapply (c_uniq _ _ _ _ Hc); [done|by exists c].
Qed.

Lemma hold_in P H s i n : cache dv P H s → hold dv s i n → n ∈ H.
Proof. intros Hc (c & Hcc & Hd & Hn & Hl). apply (c_held _ _ _ _ Hc). exists i, c. by rewrite Hl. Qed.
Lemma hold_caches s i n : hold dv s i n → caches dv s i n.
Proof. intros (c & ? & ? & ? & ?). by exists c. Qed.
Lemma hold_ref P H s i n b : cache dv P H s → hold dv s i n → cores s !! i = Some b →
  b_refcnt b = count (n ∈ P) + 1.
Proof.
  intros Hc (c & Hcc & Hd & <- & Hl) Hb. rewrite Hcc in Hb. injection Hb as <-. rewrite (ref_of _ _ _ _ _ Hc Hcc Hd), Hl.
  by rewrite (count_pos (is_Some _)).
Qed.
Lemma hold_same_buf P H s i j n : cache dv P H s → hold dv s i n → hold dv s j n → i = j.
Proof. intros Hc ? ?. by eapply (c_uniq _ _ _ _ Hc); eapply hold_caches. Qed.

(** After a change of buffer [i], still held, all holds are kept. *)
Lemma hold_stays P H s i n b b' P' H' s' j m : put dv P H s i b b' P' H' s' → me s' = me s → hold dv s i n →
  b_blockno b' = n → b_lock b' = Some (me s) → hold dv s j m → hold dv s' j m.
Proof.
  intros Hput Hme Hi Hn Hl Hj. destruct (decide (j = i)) as [->|Hne]; [|by eapply put_hold].
  exists b'. split; [by apply (put_at dv Hput)|]. split; [apply Hput|]. rewrite Hn, Hl, Hme.
  destruct Hi as (c & Hc & _ & <- & _), Hj as (c' & Hc' & _ & <- & _). split; [|done]. congruence.
Qed.

Definition vset (n : Z) (d : list byte) (v : Z → list byte) (m : Z) : list byte := if decide (m = n) then d else v m.

Record edit_post P H l s (v : Z → list byte) s' : Prop := {
  ed_inv : cinv dv P H l s';
  ed_view m : view dv s' m = v m;
  ed_hold j m : hold dv s j m → hold dv s' j m;
  ed_me : me s' = me s;
}.

Lemma set_data_spec P H l s i n f : cinv dv P H l s → hold dv s i n →
  length (f (view dv s n)) = Z.to_nat BSIZE →
  wp (upd_buf i (λ b, bset_data (f (b_data b)) b)) s (λ _ s',
    edit_post P H l s (vset n (f (view dv s n)) (view dv s)) s' ∧ kept s s').
Proof.
  intros Hinv Hh Hlen. pose proof (ci_cache _ _ _ _ _ Hinv) as Hc. pose proof Hh as (b & Hb & Hd & Hn & Hl).
  apply wp_upd_buf; [apply _|]. intros s' T _. pose proof (view_hold _ _ _ _ _ _ _ Hc Hh Hb) as Hv.
  set (b' := bset_data (f (b_data b)) b).
  assert (put dv P H s i b b' P H s') as Hput.
  { apply (hold_put P H s i n); try done; simpl.
    - by apply (touched_insert _ _ _ _ _ T).
    - by eapply (c_valid _ _ _ _ Hc).
    - by rewrite Hv.
    - rewrite Hl, (count_pos (is_Some _)) by done. by eapply hold_ref.
    - by rewrite Hl.
    - intros m. rewrite Hl. destruct (decide (m = n)) as [->|]; [|done]. split; [by eexists|]. intros _. by eapply hold_in.
    - intros. by rewrite (t_disk _ _ _ _ T).
    - rewrite (t_disk _ _ _ _ T). by eapply c_disk. }
  split; [|by eapply touched_kept]. split.
  - eapply cinv_put; [done|done|apply T..].
  - intros m. rewrite (put_view dv Hc Hput). unfold vset. simpl. rewrite Hn, Hv. done.
  - intros j m. eapply hold_stays; [done|apply T|done|done|done].
  - apply T.
Qed.

Lemma holding_spec P H l s i n : cinv dv P H l s → hold dv s i n → wp (buf_holding i) s (λ r s', r = true ∧ s' = s).
Proof.
  intros Hinv (b & Hb & Hd & Hn & Hl). pose proof (ci_idle _ _ _ _ _ Hinv) as Hidle. unfold buf_holding.
  apply wp_bind, wp_chan_lock; [done|]. apply wp_bind. eapply wp_get_buf; [done|]. intros x Hx.
  apply wp_bind, wp_gets, wp_bind, wp_last_unlock, wp_ret; [done|]. split; [|exact (set_bheld_id s [] Hidle)]. apply bool_decide_eq_true.
  change (b_lock x) with (b_lock (core x)). by rewrite Hx.
Qed.

Lemma bwrite_spec P H l s i n : cinv dv P H l s → hold dv s i n →
  wp (bwrite i) s (λ _ s', edit_post P H l s (view dv s) s' ∧
    disk s' = (λ m, if m =? n then view dv s n else disk s m) ∧ writes s' = writes s ++ [(n, view dv s n)]).
Proof.
  intros Hinv Hh. pose proof (ci_cache _ _ _ _ _ Hinv) as Hc. pose proof Hh as (b & Hb & Hd & Hn & Hl).
  unfold bwrite. apply wp_bind. eapply wp_mono; [by eapply holding_spec|]. intros r s0 [-> ->]. simpl.
  unfold virtio_disk_rw. apply wp_bind. eapply wp_get_buf; [done|]. intros x Hx.
  pose proof (view_hold _ _ _ _ _ _ _ Hc Hh Hb) as Hv.
  assert (b_blockno x = n ∧ b_data x = view dv s n) as [-> ->] by (rewrite <- Hx in Hn, Hv; done).
  apply wp_modify. match goal with |- edit_post _ _ _ _ _ ?s' ∧ _ => set (s1 := s') end.
  assert (put dv P H s i b b P H s1) as Hput.
  { apply (hold_put P H s i n); try done; simpl.
    - symmetry. by apply list_insert_id.
    - by eapply (c_valid _ _ _ _ Hc).
    - by eapply (c_valid _ _ _ _ Hc).
    - rewrite Hl, (count_pos (is_Some _)) by done. by eapply hold_ref.
    - by rewrite Hl.
    - intros m. rewrite Hl. destruct (decide (m = n)) as [->|]; [|done]. split; [by eexists|]. intros _. by eapply hold_in.
    - intros m Hm. by destruct (Z.eqb_spec m n).
    - rewrite Z.eqb_refl. by eapply view_length. }
  split; [|done]. split.
  - eapply cinv_put; [done|done|done..].
  - intros m. rewrite (put_view dv Hc Hput). destruct (decide (m = b_blockno b)) as [->|]; [|done]. by rewrite Hn.
  - intros j m. eapply hold_stays; [done|done|done|done|done].
  - done.
Qed.

(** Changing the reference count of a held buffer with its pin. *)
Lemma repin_spec P P' H l s i n (g : Z → Z) : cinv dv P H l s → hold dv s i n →
  (∀ m, m ≠ n → m ∈ P' ↔ m ∈ P) → u32 (g (count (n ∈ P) + 1)) = count (n ∈ P') + 1 →
  wp (upd_buf i (λ x, bset_refcnt (u32 (g (b_refcnt x))) x)) s (λ _ s',
    edit_post P' H l s (view dv s) s' ∧ kept s s').
Proof.
  intros Hinv Hh HP Hg. pose proof (ci_cache _ _ _ _ _ Hinv) as Hc. pose proof Hh as (b & Hb & Hd & Hn & Hl).
  apply wp_upd_buf; [apply _|]. intros s' T _.
  set (b' := bset_refcnt (u32 (g (b_refcnt b))) b).
  assert (put dv P H s i b b' P' H s') as Hput.
  { apply (hold_put P H s i n); try done; simpl.
    - by apply (touched_insert _ _ _ _ _ T).
    - by eapply (c_valid _ _ _ _ Hc).
    - by eapply (c_valid _ _ _ _ Hc).
    - by rewrite Hl, (count_pos (is_Some _)), (hold_ref _ _ _ _ _ _ Hc Hh Hb).
    - by rewrite Hl.
    - intros m. rewrite Hl. destruct (decide (m = n)) as [->|]; [|done]. split; [by eexists|]. intros _. by eapply hold_in.
    - intros. by rewrite (t_disk _ _ _ _ T).
    - rewrite (t_disk _ _ _ _ T). by eapply c_disk. }
  split; [|by eapply touched_kept]. split.
  - eapply cinv_put; [done|done|apply T..].
  - intros m. rewrite (put_view dv Hc Hput). destruct (decide (m = b_blockno b')) as [->|]; [|done]. simpl. rewrite Hn.
    by eapply view_hold.
  - intros j m. eapply hold_stays; [done|apply T|done|done|done].
  - apply T.
Qed.

(** [bpin] and [bunpin], called with the locks [h] held. *)
Lemma repin_under h P P' H l s i n (g : Z → Z) : cinv dv P H l s → hold dv s i n → bcache_lock ∉ h →
  (∀ m, m ≠ n → m ∈ P' ↔ m ∈ P) → u32 (g (count (n ∈ P) + 1)) = count (n ∈ P') + 1 →
  wp (slock bcache_lock;; upd_buf i (λ x, bset_refcnt (u32 (g (b_refcnt x))) x);; sunlock bcache_lock) (set_bheld h s) (λ _ s', ∃ s1,
    s' = set_bheld h s1 ∧ edit_post P' H l s (view dv s) s1 ∧ kept s s1).
Proof.
  intros Hinv Hh Hl HP Hg. apply wp_bind, wp_slock; [done|]. simpl.
  pose proof (repin_spec P P' H l s i n g Hinv Hh HP Hg) as Hw.
  apply wp_bind, wp_modify. eapply wp_sunlock; [done|done|].
  exists (set_bufs (alter (λ x, bset_refcnt (u32 (g (b_refcnt x))) x) i (bufs s)) s). split; [done|exact Hw].
Qed.
Lemma bpin_under h P H l s i n : cinv dv P H l s → hold dv s i n → n ∉ P → bcache_lock ∉ h →
  wp (bpin i) (set_bheld h s) (λ _ s', ∃ s1, s' = set_bheld h s1 ∧ edit_post ({[n]} ∪ P) H l s (view dv s) s1 ∧ kept s s1).
Proof.
  intros Hinv Hh Hn Hl. unfold bpin. apply (repin_under h P _ H l s i n (λ z, z + 1)); [done|done|done|set_solver|].
  rewrite (count_zero (n ∈ P)), (count_pos (n ∈ _)) by set_solver. done.
Qed.
Lemma bunpin_spec P H l s i n : cinv dv P H l s → hold dv s i n → n ∈ P →
  wp (bunpin i) s (λ _ s', edit_post (P ∖ {[n]}) H l s (view dv s) s' ∧ kept s s').
Proof.
  intros Hinv Hh Hn. unfold bunpin. rewrite <- (set_bheld_id s []) at 1 by apply Hinv.
  eapply wp_mono; [apply (repin_under [] P (P ∖ {[n]}) H l s i n (λ z, z - 1)); [done|done|apply not_elem_of_nil|set_solver|]|].
  - rewrite (count_pos (n ∈ P)), (count_zero (n ∈ _)) by set_solver. done.
  - intros _ s' (s1 & -> & [He1 He2 He3 He4] & Hk). rewrite set_bheld_id by apply He1. done.
Qed.

(** The order of use after the release of buffer [i]. *)
Definition front (i : nat) l : list nat := i :: filter (λ j, j ≠ i) l.

Lemma front_split i l1 l2 : NoDup (l1 ++ i :: l2) → front i (l1 ++ i :: l2) = i :: l1 ++ l2.
Proof.
  intros (_ & Hd & [Hi _]%list.NoDup_cons)%list.NoDup_app. unfold front. f_equal. rewrite list.filter_app. f_equal.
  - apply filter_absent. intros Hx. eapply Hd; [done|left].
  - rewrite filter_cons_False by (by intros ?). by apply filter_absent.
Qed.

Lemma relinked_cache P H s s' : relinked s s' → cache dv P H s → cache dv P H s'.
Proof.
  intros Hr Hc. pose proof (relinked_length _ _ Hr) as Hlen. destruct Hr as [Ec Eo].
  assert (disk s' = disk s) as Ed by (by unfold outside in Eo; simplify_eq).
  destruct Hc. split; unfold caches in *; rewrite ?Ec, ?Ed, ?Hlen; done.
Qed.
Lemma relinked_view s s' n : relinked s s' → view dv s' n = view dv s n.
Proof. intros [Ec Eo]. unfold view. rewrite Ec. assert (disk s' = disk s) as -> by (by unfold outside in Eo; simplify_eq). done. Qed.
Lemma relinked_hold s s' i n : relinked s s' → hold dv s i n → hold dv s' i n.
Proof. intros [Ec Eo]. unfold hold. rewrite Ec. assert (me s' = me s) as -> by (by unfold outside in Eo; simplify_eq). done. Qed.
Lemma relinked_kept s s' : relinked s s' → kept s s'.
Proof. intros [_ Eo]. unfold outside in Eo. unfold kept. by simplify_eq. Qed.

Record release_post P H l s (i : nat) (n : Z) s' : Prop := {
  rl_inv : cinv dv P (H ∖ {[n]}) (if decide (n ∈ P) then l else front i l) s';
  rl_view m : view dv s' m = view dv s m;
  rl_kept : kept s s';
  rl_hold j m : m ≠ n → hold dv s j m → hold dv s' j m;
}.

(** The unlocked buffer, before it moves. *)
Lemma release_put P H l s s' i n b b' : cinv dv P H l s → hold dv s i n → cores s !! i = Some b →
  n ∈ P ∨ view dv s n = disk s n → touched i (λ _, b') s s' →
  b' = bset_refcnt (count (n ∈ P)) (bset_lock None b) →
  cinv dv P (H ∖ {[n]}) l s' ∧ (∀ m, view dv s' m = view dv s m) ∧ (∀ j m, m ≠ n → hold dv s j m → hold dv s' j m).
Proof.
  intros Hinv Hh Hb Hclean T ->. pose proof (ci_cache _ _ _ _ _ Hinv) as Hc.
  pose proof (view_hold _ _ _ _ _ _ _ Hc Hh Hb) as Hv. pose proof Hh as (c & Hc' & Hd & Hn & Hl).
  rewrite Hb in Hc'. injection Hc' as <-.
  set (b' := bset_refcnt (count (n ∈ P)) (bset_lock None b)) in *.
  assert (put dv P H s i b b' P (H ∖ {[n]}) s') as Hput.
  { apply (hold_put P H s i n); try done; simpl.
    - by apply (touched_insert _ _ _ _ b T).
    - by eapply (c_valid _ _ _ _ Hc).
    - by eapply (c_valid _ _ _ _ Hc).
    - rewrite (count_zero (is_Some None)) by (by intros []). lia.
    - intros _ Hp. rewrite (t_disk _ _ _ _ T), Hv. by destruct Hclean.
    - intros m. destruct (decide (m = n)) as [->|]; [|set_solver]. split; [set_solver|]. by intros [].
    - intros. by rewrite (t_disk _ _ _ _ T).
    - rewrite (t_disk _ _ _ _ T). by eapply c_disk. }
  split_and!.
  - eapply cinv_put; [done|done|apply T..].
  - intros m. rewrite (put_view dv Hc Hput). destruct (decide (m = b_blockno b')) as [->|]; [|done]. simpl. by rewrite Hn.
  - intros j m Hm Hj. eapply (put_hold dv Hput); [apply T| |done]. intros ->.
    destruct Hj as (c & Hcj & _ & E & _). congruence.
Qed.

Lemma buf_release_spec s i (Q : unit → bst → Prop) : bheld s = [] →
  (∀ s', touched i (bset_lock None) s s' → Q tt s') → wp (buf_release i) s Q.
Proof.
  intros Hs HQ. unfold buf_release. apply wp_bind, wp_chan_lock; [done|]. apply wp_bind, wp_upd_buf; [apply _|]. intros s1 T1 _.
  unfold notify. apply wp_bind, wp_modify, wp_last_unlock; [by apply (t_held _ _ _ _ T1)|]. apply HQ. rewrite <- Hs.
  apply (touched_under s _ i _ [chan_buf i]). destruct T1. by split.
Qed.

(** The part of [brelse] under [bcache.lock] that reorders the list. *)
Lemma reorder_spec P H l s i : cinv dv P H l s → i ∈ l →
  wp (list_del i;; link_head i) (set_bheld [bcache_lock] s) (λ _ s', ∃ s1, s' = set_bheld [bcache_lock] s1 ∧ relinked s s1 ∧ cinv dv P H (front i l) s1).
Proof.
  intros Hinv (l1 & l2 & ->)%list_elem_of_split.
  eapply wp_mono; [eapply (move_front_spec (set_bheld [bcache_lock] s) i l1 l2); [by eapply (c_len _ _ _ s), ci_cache| |by apply (ci_ring _ _ _ _ _ Hinv)]|].
  - intros x' Hx'. rewrite (ci_perm _ _ _ _ _ Hinv) in Hx'. apply elem_of_seq in Hx'. lia.
  - intros _ s3 [E R]. exists (set_bheld [] s3). pose proof (ci_ring _ _ _ _ _ Hinv) as [_ [_ Hnd]%list.NoDup_cons].
    assert (bheld s3 = [bcache_lock]) as Hb by (destruct E as [_ E]; unfold outside in E; by simplify_eq).
    assert (relinked s (set_bheld [] s3)) as E'.
    { destruct E as [E1 E2]. split; [done|]. unfold outside in *. simpl in *. simplify_eq. rewrite (ci_idle _ _ _ _ _ Hinv). congruence. }
    split; [destruct s3; simpl in *; by rewrite Hb|]. split; [done|]. rewrite front_split by done. split; [|done| |done].
    + by eapply relinked_cache, ci_cache.
    + rewrite <- (ci_perm _ _ _ _ _ Hinv). by rewrite Permutation_middle.
Qed.

Lemma brelse_spec P H l s i n : cinv dv P H l s → hold dv s i n → n ∈ P ∨ view dv s n = disk s n →
  wp (brelse i) s (λ _ s', release_post P H l s i n s').
Proof.
  intros Hinv Hh Hclean. pose proof (ci_cache _ _ _ _ _ Hinv) as Hc. pose proof (ci_idle _ _ _ _ _ Hinv) as Hidle. pose proof Hh as (b & Hb & Hd & Hn & Hl).
  unfold brelse. apply wp_bind. eapply wp_mono; [by eapply holding_spec|]. intros r s0 [-> ->]. simpl.
  apply wp_bind, buf_release_spec; [done|]. intros sw T2. pose proof (touched_at _ _ _ _ _ T2 Hb) as Hb1.
  apply wp_bind, wp_chan_lock; [by rewrite (t_held _ _ _ _ T2)|].
  apply wp_bind, wp_upd_buf; [apply _|]. intros s2 T3 _. pose proof (t_held _ _ _ _ T3) as Hs2. simpl in Hs2.
  pose proof (touched_under _ _ _ _ _ T3) as T3'. rewrite (t_held _ _ _ _ T2), Hidle in T3'. pose proof (touched_at _ _ _ _ _ T3' Hb1) as Hb2.
  pose proof (touched_const _ _ _ _ _ (touched_trans _ _ _ _ _ _ T2 T3') Hb) as T.
  assert (u32 (b_refcnt b - 1) = count (n ∈ P)) as Hr.
  { rewrite (hold_ref _ _ _ _ _ _ Hc Hh Hb). pose proof (count_range (n ∈ P)). rewrite u32_small; lia. }
  simpl in T. rewrite Hr in T. destruct (release_put _ _ _ _ _ _ _ _ _ Hinv Hh Hb Hclean T eq_refl) as (Hinv2 & Hv2 & Hh2).
  apply wp_bind. eapply wp_get_buf; [done|]. intros x Hx.
  assert (b_refcnt x = count (n ∈ P)) as -> by (rewrite <- Hr; change (b_refcnt x) with (b_refcnt (core x)); by rewrite Hx).
  apply wp_bind. destruct (decide (n ∈ P)) as [Hp|Hp].
  - rewrite count_pos by done. simpl. apply wp_ret, wp_last_unlock; [done|]. split; [by rewrite decide_True|done|by eapply touched_kept|done].
  - rewrite count_zero by done. simpl. replace s2 with (set_bheld [bcache_lock] (set_bheld [] s2)) by (destruct s2; simpl in *; by rewrite Hs2).
    eapply wp_mono; [eapply reorder_spec; [done|by eapply cinv_all]|]. intros _ s3 (s4 & -> & E & Hinv4). apply wp_last_unlock; [done|].
    change (set_bheld [] (set_bheld _ s4)) with (set_bheld [] s4). rewrite (set_bheld_id s4) by apply Hinv4. split; [by rewrite decide_False| |eapply kept_trans; [by eapply touched_kept|by apply relinked_kept]|].
    + intros m. by rewrite (relinked_view _ _ _ E).
    + intros j m Hm Hj. eapply relinked_hold; [done|]. auto.
Qed.

(** ** Boot *)

(** The buffers as the kernel's zeroed memory has them. *)
Definition zeroed s : Prop :=
  length (bufs s) = nbuf ∧ Forall (λ b, b_dev b = 0 ∧ b_refcnt b = 0 ∧ b_lock b = None) (bufs s) ∧
  (∀ n, length (disk s n) = Z.to_nat BSIZE) ∧ bheld s = [].

Lemma binit_loop_spec n b s : length (bufs s) = nbuf → (n + b = nbuf)%nat →
  ring (nx s) (pv s) HEAD (reverse (seq 0 b)) →
  wp (binit_loop n b) s (λ _ s', relinked s s' ∧ ring (nx s') (pv s') HEAD (reverse (seq 0 nbuf))).
Proof.
  revert b s. induction n as [|n IH]; intros b s Hlen Hn Hring; cbn [binit_loop].
  - apply wp_ret. replace nbuf with b by lia. done.
  - apply wp_bind. eapply wp_mono; [eapply (link_head_spec s b (reverse (seq 0 b))); [done|lia| | |done]|].
    + intros x. rewrite elem_of_reverse, elem_of_seq. lia.
    + rewrite elem_of_reverse, elem_of_seq. lia.
    + intros _ s1 [E R]. eapply wp_mono; [eapply (IH (S b)); [by rewrite (relinked_length _ _ E)|lia|]|].
      * by rewrite seq_S, reverse_snoc.
      * intros _ s2 [E2 R2]. split; [by eapply relinked_trans|done].
Qed.

Lemma zeroed_cache s : dv ≠ 0 → zeroed s → cache dv ∅ ∅ s ∧ ∀ i n, ¬ caches dv s i n.
Proof.
  intros Hdv (Hlen & Hz & Hd & _). rewrite list.Forall_forall in Hz.
  assert (∀ i b, cores s !! i = Some b → b_dev b = 0 ∧ b_refcnt b = 0 ∧ b_lock b = None) as Hall.
  { intros i b. unfold cores. rewrite list_lookup_fmap. intros (c & Hc & ->)%fmap_Some. simpl.
    apply Hz. by eapply list_elem_of_lookup_2. }
  assert (∀ i n, ¬ caches dv s i n) as Hno.
  { intros i n (b & Hb & Hd' & _). destruct (Hall _ _ Hb). congruence. }
  split; [|done]. split; try done.
  - intros i b Hb _. by apply (Hall i b).
  - intros i j n Hi. by destruct (Hno i n).
  - intros i b Hb. destruct (Hall _ _ Hb) as (? & -> & ->). rewrite (count_zero (_ ∧ _)) by set_solver.
    by rewrite count_zero by (by intros []).
  - intros n. split; [set_solver|]. intros (i & b & Hb & Hd' & _). by destruct (Hno i (b_blockno b)); exists b.
  - intros i b Hb Hd'. by destruct (Hno i (b_blockno b)); exists b.
  - intros i b Hb Hd'. by destruct (Hno i (b_blockno b)); exists b.
Qed.

Lemma binit_spec s : dv ≠ 0 → zeroed s →
  wp binit s (λ _ s', cinv dv ∅ ∅ (reverse (seq 0 nbuf)) s' ∧ (∀ n, view dv s' n = disk s n) ∧ kept s s').
Proof.
  intros Hdv Hz. destruct (zeroed_cache s Hdv Hz) as [Hc Hno]. unfold binit.
  apply wp_bind, wp_put_prev; [by left|]. intros s1 E1 N1 P1.
  apply wp_bind, wp_put_next; [by left|]. intros s2 E2 N2 P2. pose proof (relinked_trans _ _ _ E1 E2) as E12.
  eapply wp_mono; [eapply binit_loop_spec; [rewrite (relinked_length _ _ E12); by eapply c_len|lia|]|].
  - simpl. eapply ring_ext; [..|apply (ring_empty (nx s) (pv s))].
    + intros j. rewrite N2. by apply set_at_ext.
    + intros j. by rewrite P2, P1.
  - intros _ s3 [E3 R3]. pose proof (relinked_trans _ _ _ E12 E3) as E. split; [split|split].
    + by eapply relinked_cache.
    + done.
    + by rewrite reverse_Permutation.
    + destruct Hz as (_ & _ & _ & Hz), E as [_ E]. unfold outside in E. congruence.
    + intros n. rewrite (relinked_view _ _ _ E). by apply view_uncached.
    + by apply relinked_kept.
Qed.

End ops.

(** ** The cache as its users see it *)

(** [bread].  In a consistent cache, for a block that no process has locked
    and with a buffer to spare, [bread] returns a buffer locked by the caller
    that holds the current contents of the block: the cached ones, or the
    disk's if it was not cached, and then the buffer was the least recently used
    unreferenced one.  Every other block reads as before, nothing is written to
    the disk, buffers the caller holds stay, and the cache is consistent. *)
Theorem bread_correct dv P H l s n : cinv dv P H l s → n ∉ H → n ∈ P ∨ (size (P ∪ H) < nbuf)%nat →
  ∃ i s' b, bread dv n s = Ok i s' ∧ cinv dv P ({[n]} ∪ H) l s' ∧
    bufs s' !! i = Some b ∧ b_dev b = dv ∧ b_blockno b = n ∧ b_lock b = Some (me s) ∧ b_valid b = true ∧
    b_data b = view dv s n ∧ (∀ m, view dv s' m = view dv s m) ∧ kept s s' ∧
    (∀ j m, hold dv s j m → hold dv s' j m) ∧
    (caches dv s i n ∨ (∀ j, ¬ caches dv s j n) ∧ view dv s n = disk s n ∧ least_recent s l i).
Proof.
  intros Hinv HnH Hroom. destruct (wp_elim _ _ _ (bread_spec dv P H l s n Hinv HnH Hroom)) as (i & s' & E & [Hinv' Hh Hv Hk Ho Hw]).
  pose proof Hh as (c & Hc & Hd & Hn & Hl). pose proof (view_hold _ _ _ _ _ _ _ (ci_cache _ _ _ _ _ Hinv') Hh Hc) as Hdata.
  destruct (c_valid _ _ _ _ (ci_cache _ _ _ _ _ Hinv') i c Hc Hd) as [Hval _].
  unfold cores in Hc. rewrite list_lookup_fmap in Hc. apply fmap_Some in Hc as (b & Hb & ->). simpl in *.
  exists i, s', b. split_and!; try done; [|by rewrite Hdata|].
  - destruct Hk as (_ & _ & <-). done.
  - destruct Hw as [?|[Hno Hlr]]; [by left|]. right. split; [done|]. split; [by apply view_uncached|done].
Qed.

(** [brelse].  A process that holds a buffer, pinned in the log or with the
    contents of the disk, gives it back: no block reads differently, nothing is
    written, the other buffers it holds stay, and unless it is pinned the buffer
    becomes the most recently used one. *)
Theorem brelse_correct dv P H l s i n : cinv dv P H l s → hold dv s i n → n ∈ P ∨ view dv s n = disk s n →
  ∃ s', brelse i s = Ok tt s' ∧
    cinv dv P (H ∖ {[n]}) (if decide (n ∈ P) then l else front i l) s' ∧
    (∀ m, view dv s' m = view dv s m) ∧ kept s s' ∧ (∀ j m, m ≠ n → hold dv s j m → hold dv s' j m).
Proof.
  intros Hinv Hh Hc. destruct (wp_elim _ _ _ (brelse_spec dv P H l s i n Hinv Hh Hc)) as ([] & s' & E & [? ? ? ?]).
  by exists s'.
Qed.

(** ** Witnesses *)

Definition demo_block (n : Z) : list byte := replicate (Z.to_nat BSIZE) (byte_of_Z n).
Definition demo_bst : bst :=
  mk_bst (replicate nbuf (mk_buf false 0 0 None 0 0 0 [])) 0 0 demo_block [] 7 [] [].

Lemma demo_zeroed : zeroed demo_bst.
Proof.
  split; [reflexivity|]. split; [by apply Forall_replicate|]. split; [|done]. intros n. unfold disk, demo_bst, demo_block. by rewrite length_replicate.
Qed.

Lemma room_empty : (size (∅ ∪ ∅ : gset Z) < nbuf)%nat.
Proof. vm_compute. lia. Qed.

Lemma bread_correct_witness : ∃ s i s', binit demo_bst = Ok tt s ∧ bread 1 5 s = Ok i s' ∧ view 1 s' 5 = demo_block 5.
Proof.
  destruct (wp_elim _ _ _ (binit_spec 1 demo_bst ltac:(done) demo_zeroed)) as ([] & s & E & Hinv & Hv & _).
  destruct (bread_correct 1 ∅ ∅ _ s 5 Hinv) as (i & s' & b & E' & _ & _ & _ & _ & _ & _ & _ & Hv' & _);
    [apply not_elem_of_empty|right; apply room_empty|].
  exists s, i, s'. split; [exact E|]. split; [exact E'|]. rewrite Hv', Hv. reflexivity.
Defined.

Lemma brelse_correct_witness : ∃ s i s1 s2,
  binit demo_bst = Ok tt s ∧ bread 1 5 s = Ok i s1 ∧ brelse i s1 = Ok tt s2 ∧ view 1 s2 5 = demo_block 5.
Proof.
  destruct (wp_elim _ _ _ (binit_spec 1 demo_bst ltac:(done) demo_zeroed)) as ([] & s & E & Hinv & Hv & Hk).
  destruct (wp_elim _ _ _ (bread_spec 1 ∅ ∅ _ s 5 Hinv (not_elem_of_empty _) (or_intror room_empty))) as (i & s1 & E1 & [Hinv1 Hh1 Hv1 Hk1 _ _]).
  destruct (brelse_correct 1 _ _ _ s1 i 5 Hinv1 Hh1) as (s2 & E2 & _ & Hv2 & _).
  - right. rewrite Hv1, Hv. destruct Hk1 as [-> _], Hk as [-> _]. reflexivity.
  - exists s, i, s1, s2. split; [exact E|]. split; [exact E1|]. split; [exact E2|]. rewrite Hv2, Hv1, Hv. reflexivity.
Defined.
