(* ===== verification/Log.v ===== *)
(** * The log, [kernel/log.c]

    Transactions over the buffer cache: the in-memory header, the reservation of
    log space, commit and recovery.  [lh] is the array [log.lh.block] cut at
    [log.lh.n].  [log.lock] is one of the spin locks of [Bio]. *)

From S2P Require Import Prelude Riscv Mem CString Bio.

Record logst := mk_logst {
  lbio : bst;
  l_start : Z;
  l_size : Z;
  l_outstanding : Z;
  l_committing : bool;
  l_dev : Z;
  lh : list Z;
}.

(** [struct superblock]. *)
Record superblock := mk_sb {
  sb_magic : Z;
  sb_size : Z;
  sb_nblocks : Z;
  sb_ninodes : Z;
  sb_nlog : Z;
  sb_logstart : Z;
  sb_inodestart : Z;
  sb_bmapstart : Z;
}.

Definition set_lbio v (s : logst) := mk_logst v (l_start s) (l_size s) (l_outstanding s) (l_committing s) (l_dev s) (lh s).
Definition set_lh v (s : logst) := mk_logst (lbio s) (l_start s) (l_size s) (l_outstanding s) (l_committing s) (l_dev s) v.
Definition set_outstanding v (s : logst) := mk_logst (lbio s) (l_start s) (l_size s) v (l_committing s) (l_dev s) (lh s).
Definition set_committing v (s : logst) := mk_logst (lbio s) (l_start s) (l_size s) (l_outstanding s) v (l_dev s) (lh s).

Definition bio {A} (c : M bst A) : M logst A := zoom lbio set_lbio c.
Definition log_n (s : logst) : Z := Z.of_nat (length (lh s)).

(** The channel [&log], and [&log.lock]. *)
Definition chan_log : Z := 2000.
Definition log_lock : Z := chan_log.

(** Word [i] of a block, and a block with word [i] changed. *)
Definition word (d : list byte) (i : nat) : Z := le_decode (take 4 (drop (4 * i) d)).
Definition put_word (i : nat) (v : Z) (d : list byte) : list byte :=
  take (4 * i) d ++ le_encode 4 v ++ drop (4 * i + 4) d.

(** Words [i], [i+1], ... of a block replaced by [l]. *)
Fixpoint put_words (i : nat) (l : list Z) (d : list byte) : list byte :=
  match l with
  | [] => d
  | v :: l => put_words (S i) l (put_word i v d)
  end.

Fixpoint install_trans_loop (l : list Z) (tail : Z) (recovering : bool) : M logst unit :=
  match l with
  | [] => mret ()
  | bn :: l =>
      dv ← gets l_dev;
      start ← gets l_start;
      lbuf ← bio (bread dv (start + tail + 1));
      dbuf ← bio (bread dv bn);
      x ← bio (get_buf lbuf);
      bio (upd_buf dbuf (bset_data (b_data x)));;
      bio (bwrite dbuf);;
      (if recovering then mret () else bio (bunpin dbuf));;
      bio (brelse lbuf);;
      bio (brelse dbuf);;
      install_trans_loop l (tail + 1) recovering
  end.
Definition install_trans (recovering : bool) : M logst unit :=
  l ← gets lh; install_trans_loop l 0 recovering.

(** Header entries beyond the array are not read: the source would write past
    [log.lh.block]. *)
Definition read_head : M logst unit :=
  dv ← gets l_dev;
  start ← gets l_start;
  i ← bio (bread dv start);
  b ← bio (get_buf i);
  let n := i32 (word (b_data b) 0) in
  if n >? LOGSIZE then fault n
  else
    modify (set_lh (map (λ k, i32 (word (b_data b) (S k))) (seq 0 (Z.to_nat n))));;
    bio (brelse i).

Definition write_head : M logst unit :=
  dv ← gets l_dev;
  start ← gets l_start;
  i ← bio (bread dv start);
  l ← gets lh;
  bio (upd_buf i (λ b, bset_data (put_words 1 l (put_word 0 (Z.of_nat (length l)) (b_data b))) b));;
  bio (bwrite i);;
  bio (brelse i).

Definition recover_from_log : M logst unit :=
  read_head;;
  install_trans true;;
  modify (set_lh []);;
  write_head.

Definition sizeof_logheader : Z := 4 + 4 * LOGSIZE.

Definition initlog (dv : Z) (sb : superblock) : M logst unit :=
  if sizeof_logheader >=? BSIZE then panic "initlog: too big logheader"
  else
    bio (modify (λ b, set_bheld (filter (λ x, x ≠ log_lock) (bheld b)) b));;
    modify (λ s, mk_logst (lbio s) (sb_logstart sb) (sb_nlog sb) (l_outstanding s) (l_committing s) dv (lh s));;
    recover_from_log.

(** One turn of the loop of [begin_op]: woken, it starts over, with [log.lock]
    again.  It goes to sleep with [log.lock], which [sleep] gives up. *)
Definition begin_op : M logst unit :=
  bio (slock log_lock);;
  c ← gets l_committing;
  if (c : bool) then sleep_on chan_log
  else
    n ← gets log_n;
    o ← gets l_outstanding;
    if n + (o + 1) * MAXOPBLOCKS >? LOGSIZE then sleep_on chan_log
    else modify (set_outstanding (o + 1));; bio (sunlock log_lock).

Fixpoint write_log_loop (l : list Z) (tail : Z) : M logst unit :=
  match l with
  | [] => mret ()
  | bn :: l =>
      dv ← gets l_dev;
      start ← gets l_start;
      to ← bio (bread dv (start + tail + 1));
      from ← bio (bread dv bn);
      x ← bio (get_buf from);
      bio (upd_buf to (bset_data (b_data x)));;
      bio (bwrite to);;
      bio (brelse from);;
      bio (brelse to);;
      write_log_loop l (tail + 1)
  end.
Definition write_log : M logst unit := l ← gets lh; write_log_loop l 0.

Definition commit : M logst unit :=
  n ← gets log_n;
  if n >? 0 then
    write_log;;
    write_head;;
    install_trans false;;
    modify (set_lh []);;
    write_head
  else mret ().

Definition end_op : M logst unit :=
  bio (slock log_lock);;
  modify (λ s, set_outstanding (l_outstanding s - 1) s);;
  c ← gets l_committing;
  if (c : bool) then panic "log.committing"
  else
    o ← gets l_outstanding;
    do_commit ← (if o =? 0 then modify (set_committing true);; mret true
                 else bio (notify chan_log);; mret false);
    bio (sunlock log_lock);;
    if (do_commit : bool) then
      commit;;
      bio (slock log_lock);;
      modify (set_committing false);;
      bio (notify chan_log);;
      bio (sunlock log_lock)
    else mret ().

Definition log_write (i : nat) : M logst unit :=
  bio (slock log_lock);;
  n ← gets log_n;
  size ← gets l_size;
  if (n >=? LOGSIZE) || (n >=? size - 1) then panic "too big a transaction"
  else
    o ← gets l_outstanding;
    if o <? 1 then panic "log_write outside of trans"
    else
      b ← bio (get_buf i);
      l ← gets lh;
      (if decide (b_blockno b ∈ l) then mret ()
       else bio (bpin i);; modify (set_lh (l ++ [b_blockno b])));;
      bio (sunlock log_lock).
