(* ===== verification/LogSpec.v ===== *)
(** * The log: commit, recovery and crashes

    Specifications of the log over those of the buffer cache, the invariant of a
    transaction, and crash atomicity: whatever prefix of the writes of a commit
    reaches the disk, and however often recovery is itself cut short, recovery
    ends with all of the transaction or none of it. *)

From S2P Require Import Prelude Riscv Mem CString Bio BioSpec Log.

(** ** Sequences of disk writes *)

Definition contents : Type := Z → list byte.

Definition apply_writes (ws : list (Z * list byte)) (dk : contents) : contents :=
  foldl (λ dk '(n, d) m, if m =? n then d else dk m) dk ws.

Lemma apply_writes_app ws1 ws2 dk : apply_writes (ws1 ++ ws2) dk = apply_writes ws2 (apply_writes ws1 dk).
Proof. apply foldl_app. Qed.

Lemma apply_writes_other ws dk n : n ∉ ws.*1 → apply_writes ws dk n = dk n.
Proof.
  revert dk. induction ws as [|[m d] ws IH]; intros dk Hn; [done|]. simpl in *.
  apply not_elem_of_cons in Hn as [Hm Hn]. rewrite IH by done. by destruct (Z.eqb_spec n m).
Qed.

(** The result depends on the old contents only where nothing is written. *)
Lemma apply_writes_ext ws dk dk' n : (n ∉ ws.*1 → dk n = dk' n) → apply_writes ws dk n = apply_writes ws dk' n.
Proof.
  revert dk dk'. induction ws as [|[m d] ws IH]; intros dk dk' Hn; simpl in *; [apply Hn, not_elem_of_nil|].
  apply IH. intros Hw. destruct (Z.eqb_spec n m); [done|]. apply Hn. by apply not_elem_of_cons.
Qed.

Lemma apply_writes_in ws dk n d : NoDup ws.*1 → (n, d) ∈ ws → apply_writes ws dk n = d.
Proof.
  revert dk. induction ws as [|[m e] ws IH]; intros dk; simpl; [by intros _ ?%not_elem_of_nil|].
  intros [Hm Hnd]%list.NoDup_cons [E|Hin]%elem_of_cons; [|by apply IH].
  injection E as -> ->. rewrite apply_writes_other by done. by rewrite Z.eqb_refl.
Qed.

Lemma apply_writes_length ws dk n k : (∀ m, length (dk m) = k) → Forall (λ w, length w.2 = k) ws →
  length (apply_writes ws dk n) = k.
Proof.
  revert dk. induction ws as [|[m d] ws IH]; intros dk Hdk Hws; [apply Hdk|]. simpl. apply list.Forall_cons in Hws as [Hd Hws].
  apply IH; [|done]. intros j. by destruct (j =? m).
Qed.

Lemma prefix_app_cases {A} (q l1 l2 : list A) : q `prefix_of` l1 ++ l2 →
  q `prefix_of` l1 ∨ ∃ r, q = l1 ++ r ∧ r `prefix_of` l2.
Proof.
  revert q. induction l1 as [|x l1 IH]; intros q Hq; [right; by exists q|].
  destruct q as [|y q]; [left; apply prefix_nil|]. simpl in Hq.
  pose proof (prefix_cons_inv_1 _ _ _ _ Hq) as ->. apply prefix_cons_inv_2, IH in Hq as [Hq|(r & -> & Hr)].
  - left. by apply prefix_cons.
  - right. by exists r.
Qed.
Lemma prefix_singleton {A} (q : list A) x : q `prefix_of` [x] → q = [] ∨ q = [x].
Proof.
  destruct q as [|y q]; [by left|]. intros Hq. right. pose proof (prefix_cons_inv_1 _ _ _ _ Hq) as ->.
  apply prefix_cons_inv_2, prefix_nil_inv in Hq. by subst.
Qed.

(** ** The header block *)

Lemma length_put_word i v d : (4 * i + 4 ≤ length d)%nat → length (put_word i v d) = length d.
Proof. intros Hi. unfold put_word. rewrite !length_app, length_take, length_drop, length_le_encode. lia. Qed.

Lemma word_put_word i j v d : (4 * i + 4 ≤ length d)%nat →
  word (put_word i v d) j = if decide (i = j) then u32 v else word d j.
Proof.
  intros Hi. unfold word, put_word. destruct (decide (i = j)) as [<-|Hne].
  - rewrite drop_app_length' by (rewrite length_take; lia). rewrite take_app_length' by (by rewrite length_le_encode).
    apply le_decode_encode.
  - f_equal. apply list_eq. intros k. destruct (decide (k < 4)%nat); [|by rewrite !lookup_take_ge by lia].
    rewrite !lookup_take_lt, !lookup_drop by done.
    destruct (decide (j < i)%nat).
    + rewrite lookup_app_l by (rewrite length_take; lia). by rewrite lookup_take_lt by lia.
    + rewrite lookup_app_r by (rewrite length_take; lia). rewrite length_take.
      rewrite lookup_app_r by (rewrite length_le_encode; lia). rewrite length_le_encode, lookup_drop. f_equal. lia.
Qed.

Lemma length_put_words i l d : (4 * (i + length l) ≤ length d)%nat → length (put_words i l d) = length d.
Proof.
  revert i d. induction l as [|v l IH]; intros i d Hl; simpl in *; [done|].
  rewrite IH; rewrite length_put_word by lia; [done|lia].
Qed.

Lemma word_put_words i l d j : (4 * (i + length l) ≤ length d)%nat →
  word (put_words i l d) j = if decide (i ≤ j < i + length l)%nat then u32 (nth (j - i) l 0) else word d j.
Proof.
  revert i d. induction l as [|v l IH]; intros i d Hl; cbn [put_words length] in *.
  - rewrite decide_False by lia. done.
  - rewrite IH by (rewrite length_put_word by lia; lia). rewrite word_put_word by lia.
    repeat case_decide; try lia; try done.
    + replace (j - i)%nat with (S (j - S i)) by lia. done.
    + subst. by rewrite Nat.sub_diag.
Qed.

(** The header block for the blocks [bs], over old contents [d], and what it
    reads as. *)
Definition header (bs : list Z) (d : list byte) : list byte :=
  put_words 1 bs (put_word 0 (Z.of_nat (length bs)) d).
Definition decode_header (d : list byte) : list Z :=
  map (λ k, i32 (word d (S k))) (seq 0 (Z.to_nat (i32 (word d 0)))).

Definition block_nr (b : Z) : Prop := 0 ≤ b < 2 ^ 31.

Lemma i32_u32 z : block_nr z → i32 (u32 z) = z.
Proof. intros [? ?]. unfold u32. rewrite Z.mod_small by lia. apply i32_small. lia. Qed.

Lemma length_header bs d : length d = Z.to_nat BSIZE → (length bs ≤ Z.to_nat LOGSIZE)%nat →
  length (header bs d) = Z.to_nat BSIZE.
Proof.
  intros Hd Hb. assert (4 * (1 + length bs) ≤ 1024)%nat by (unfold LOGSIZE, MAXOPBLOCKS in Hb; lia).
  assert (Z.to_nat BSIZE = 1024%nat) as Hs by done. rewrite Hs in *.
  unfold header. rewrite length_put_words; rewrite length_put_word; lia.
Qed.

Lemma decode_header_ok bs d : length d = Z.to_nat BSIZE → (length bs ≤ Z.to_nat LOGSIZE)%nat → Forall block_nr bs →
  i32 (word (header bs d) 0) = Z.of_nat (length bs) ∧ decode_header (header bs d) = bs.
Proof.
  intros Hd Hb Hnr. assert (4 * (1 + length bs) ≤ 1024)%nat by (unfold LOGSIZE, MAXOPBLOCKS in Hb; lia).
  assert (Z.to_nat BSIZE = 1024%nat) as Hs by done. rewrite Hs in *.
  assert (i32 (word (header bs d) 0) = Z.of_nat (length bs)) as Hn.
  { unfold header. rewrite word_put_words, word_put_word by (rewrite ?length_put_word; lia).
    rewrite decide_False, decide_True by lia. apply i32_u32. unfold block_nr. lia. }
  split; [done|]. unfold decode_header. rewrite Hn, Nat2Z.id. apply list_eq. intros k.
  rewrite list_lookup_fmap. destruct (decide (k < length bs)%nat) as [Hk|Hk].
  - rewrite lookup_seq_lt by done. simpl. destruct (lookup_lt_is_Some_2 bs k Hk) as [b Hbk]. rewrite Hbk. f_equal.
    unfold header. rewrite word_put_words by (rewrite length_put_word; lia). rewrite decide_True by lia.
    replace (S k - 1)%nat with k by lia. rewrite (nth_lookup_Some _ _ _ _ Hbk). apply i32_u32.
    rewrite list.Forall_forall in Hnr. apply Hnr. by eapply list_elem_of_lookup_2.
  - rewrite lookup_seq_ge by lia. symmetry. apply lookup_ge_None. lia.
Qed.

(** ** Writing blocks through the cache *)

Definition wrote (ws : list (Z * list byte)) (t t' : bst) : Prop :=
  writes t' = writes t ++ ws ∧ disk t' = apply_writes ws (disk t) ∧ me t' = me t.

Lemma wrote_nil t t' : kept t t' → wrote [] t t'.
Proof. intros (Hd & Hw & Hm). unfold wrote. by rewrite app_nil_r. Qed.
Lemma wrote_app ws1 ws2 t1 t2 t3 : wrote ws1 t1 t2 → wrote ws2 t2 t3 → wrote (ws1 ++ ws2) t1 t3.
Proof.
  intros (W1 & D1 & M1) (W2 & D2 & M2). split_and!; [|by rewrite D2, D1, apply_writes_app|congruence].
  by rewrite W2, W1, app_assoc.
Qed.
Lemma wrote_kept_l ws t1 t2 t3 : kept t1 t2 → wrote ws t2 t3 → wrote ws t1 t3.
Proof. intros H. apply (wrote_app []). by apply wrote_nil. Qed.
Lemma wrote_kept_r ws t1 t2 t3 : wrote ws t1 t2 → kept t2 t3 → wrote ws t1 t3.
Proof. intros H1 H2. rewrite <- (app_nil_r ws). eapply wrote_app; [done|]. by apply wrote_nil. Qed.

Lemma wp_bio {A} (c : M bst A) (t : bst) (s : logst) (Q : A → logst → Prop) :
  wp c t (λ a t', Q a (set_lbio t' s)) → wp (bio c) (set_lbio t s) Q.
Proof. intros Hc. apply (wp_zoom lbio set_lbio). exact Hc. Qed.
Lemma set_lbio_id s : set_lbio (lbio s) s = s.
Proof. by destruct s. Qed.

(** The same with the locks [h] held; taking and giving back [log.lock]. *)
Definition under (h : list Z) (s : logst) : logst := set_lbio (set_bheld h (lbio s)) s.
Lemma under_id s : bheld (lbio s) = [] → under [] s = s.
Proof. intros H. unfold under. by rewrite set_bheld_id, set_lbio_id. Qed.
Lemma log_acquire_ok s : bheld (lbio s) = [] → bio (slock log_lock) s = Ok tt (under [log_lock] s).
Proof. intros Hs. unfold bio, zoom, slock, gets, mbind, M_bind. rewrite Hs. done. Qed.
Lemma wp_log_acquire s (Q : unit → logst → Prop) : bheld (lbio s) = [] → Q tt (under [log_lock] s) → wp (bio (slock log_lock)) s Q.
Proof. intros Hs HQ. apply (wp_zoom lbio set_lbio), wp_chan_lock; done. Qed.
Lemma wp_log_release s (Q : unit → logst → Prop) : bheld (lbio s) = [log_lock] → Q tt (under [] s) → wp (bio (sunlock log_lock)) s Q.
Proof. intros Hs HQ. apply (wp_zoom lbio set_lbio), wp_last_unlock; done. Qed.

(** Through the cache, with [ws] written: block contents and disk. *)
Record through (dv : Z) (t : bst) ws (P' : gset Z) t' : Prop := {
  th_inv : ∃ l, cinv dv P' ∅ l t';
  th_view m : view dv t' m = apply_writes ws (view dv t) m;
  th_wrote : wrote ws t t';
}.

Lemma through_trans dv P1 P2 t t1 t2 ws1 ws2 :
  through dv t ws1 P1 t1 → through dv t1 ws2 P2 t2 → through dv t (ws1 ++ ws2) P2 t2.
Proof.
  intros [_ V1 W1] [I2 V2 W2]. split; [done| |by eapply wrote_app].
  intros m. rewrite V2, apply_writes_app. apply apply_writes_ext. auto.
Qed.

Section blocks.
Context (dv : Z).
Implicit Types (t : bst) (P : gset Z) (bs : list Z).

(** One turn of [write_log]: block [bn], pinned, goes to the log block [a]. *)
Lemma write_log_turn t P l a bn : cinv dv P ∅ l t → bn ∈ P → a ∉ P → (size P < nbuf)%nat →
  wp (to ← bread dv a; from ← bread dv bn; x ← get_buf from;
      upd_buf to (bset_data (b_data x));; bwrite to;; brelse from;; brelse to) t
     (λ _ t', through dv t [(a, view dv t bn)] P t').
Proof.
  intros Hinv Hbn Ha Hsz. assert (bn ≠ a) as Hne by (by intros ->).
  apply wp_bind. eapply wp_mono; [eapply bread_spec; [done|set_solver|right; by rewrite union_empty_r_L]|].
  intros to t1 [I1 H1 V1 K1 _ _]. apply wp_bind. eapply wp_mono; [eapply bread_spec; [done|set_solver|by left]|].
  intros from t2 [I2 H2 V2 K2 O2 _]. apply O2 in H1. pose proof H2 as (c & Hc & _).
  apply wp_bind. eapply wp_get_buf; [done|]. intros x Hx.
  assert (b_data x = view dv t bn) as ->.
  { rewrite <- V1, <- V2. erewrite <- (view_hold dv _ _ t2 from bn c); [by rewrite <- Hx|by eapply ci_cache|done|done]. }
  apply wp_bind. eapply wp_mono; [eapply (set_data_spec dv _ _ _ t2 to a (λ _, view dv t bn)); [done|done|]|].
  { by eapply view_length, ci_cache. }
  intros _ t3 [[I3 V3 O3 _] K3]. apply wp_bind. eapply wp_mono; [eapply bwrite_spec; [done|by apply O3]|].
  intros _ t4 ([I4 V4 O4 M4] & D4 & W4). rewrite V3 in D4, W4. unfold vset in D4, W4. rewrite decide_True in D4, W4 by done.
  apply wp_bind. eapply wp_mono; [eapply brelse_spec; [done|by apply O4, O3|by left]|].
  intros _ t5 [I5 V5 K5 O5]. rewrite decide_True in I5 by done.
  eapply wp_mono; [eapply (brelse_spec dv _ _ _ t5 to a); [done|apply O5; [done|]; by apply O4, O3|]|].
  { right. rewrite V5, V4, V3. unfold vset. rewrite decide_True by done. destruct K5 as [-> _]. by rewrite D4, Z.eqb_refl. }
  intros _ t6 [I6 V6 K6 _]. split.
  - eexists. replace ∅ with (({[bn]} ∪ ({[a]} ∪ ∅)) ∖ {[bn]} ∖ {[a]} : gset Z) by set_solver. done.
  - intros m. rewrite V6, V5, V4, V3. unfold vset. simpl. rewrite V2, V1.
    destruct (decide (m = a)), (Z.eqb_spec m a); congruence.
  - apply (wrote_kept_l _ _ t3); [by eapply kept_trans; [|eapply kept_trans]|].
    apply (wrote_kept_r _ _ t4); [|by eapply kept_trans]. split_and!; [done|done|congruence].
Qed.

(** One turn of [install_trans]: the log block [a] goes to its home [bn]. *)
Lemma install_turn (recovering : bool) t P l a bn : cinv dv P ∅ l t → a ∉ P → a ≠ bn →
  (if recovering then (bn ∉ P) ∧ (S (size P) < nbuf)%nat else bn ∈ P ∧ (size P < nbuf)%nat) →
  wp (lbuf ← bread dv a; dbuf ← bread dv bn; x ← get_buf lbuf;
      upd_buf dbuf (bset_data (b_data x));; bwrite dbuf;;
      (if recovering then mret () else bunpin dbuf);; brelse lbuf;; brelse dbuf) t
     (λ _ t', through dv t [(bn, view dv t a)] (P ∖ {[bn]}) t').
Proof.
  intros Hinv Ha Hne Hcase. assert (size P < nbuf)%nat as Hsz by (destruct recovering, Hcase; lia).
  pose proof (view_clean _ _ _ _ a (ci_cache _ _ _ _ _ Hinv) Ha ltac:(set_solver)) as Hclean.
  apply wp_bind. eapply wp_mono; [eapply bread_spec; [done|set_solver|right; by rewrite union_empty_r_L]|].
  intros lb t1 [I1 H1 V1 K1 _ _]. apply wp_bind. eapply wp_mono; [eapply bread_spec; [done|set_solver|]|].
  { destruct recovering, Hcase; [right|by left]. rewrite union_empty_r_L, size_union, size_singleton by set_solver. lia. }
  intros db t2 [I2 H2 V2 K2 O2 _]. apply O2 in H1. pose proof H1 as (c & Hc & _).
  apply wp_bind. eapply wp_get_buf; [done|]. intros x Hx.
  assert (b_data x = view dv t a) as ->.
  { rewrite <- V1, <- V2. erewrite <- (view_hold dv _ _ t2 lb a c); [by rewrite <- Hx|by eapply ci_cache|done|done]. }
  apply wp_bind. eapply wp_mono; [eapply (set_data_spec dv _ _ _ t2 db bn (λ _, view dv t a)); [done|done|]|].
  { by eapply view_length, ci_cache. }
  intros _ t3 [[I3 V3 O3 _] K3]. apply wp_bind. eapply wp_mono; [eapply bwrite_spec; [done|by apply O3]|].
  intros _ t4 ([I4 V4 O4 M4] & D4 & W4). rewrite V3 in D4, W4. unfold vset in D4, W4. rewrite decide_True in D4, W4 by done.
  assert (∀ m, view dv t4 m = vset bn (view dv t a) (view dv t) m) as V.
  { intros m. rewrite V4, V3. unfold vset. by rewrite V2, V1. }
  apply wp_bind. eapply (wp_mono _ _ (λ _ t5, edit_post dv (P ∖ {[bn]}) ({[bn]} ∪ ({[a]} ∪ ∅)) l t4 (view dv t4) t5 ∧ kept t4 t5)).
  { destruct recovering; [|eapply bunpin_spec; [done|by apply O4, O3|by destruct Hcase]].
    apply wp_ret. replace (P ∖ {[bn]}) with P by set_solver. done. }
  intros _ t5 [[I5 V5 O5 M5] K5]. apply wp_bind. eapply wp_mono; [eapply (brelse_spec dv _ _ _ t5 lb a); [done|by apply O5, O4, O3|right]|].
  { rewrite V5, V. unfold vset. rewrite decide_False by done. destruct K5 as [-> _]. rewrite D4.
    destruct (Z.eqb_spec a bn); [done|]. rewrite Hclean. by destruct K3 as [-> _], K2 as [-> _], K1 as [-> _]. }
  intros _ t6 [I6 V6 K6 O6].
  eapply wp_mono; [eapply (brelse_spec dv _ _ _ t6 db bn); [done|apply O6; [done|]; by apply O5, O4, O3|right]|].
  { rewrite V6, V5, V. unfold vset. rewrite decide_True by done. destruct K6 as [-> _], K5 as [-> _]. by rewrite D4, Z.eqb_refl. }
  intros _ t7 [I7 V7 K7 _]. split.
  - eexists. replace ∅ with (({[bn]} ∪ ({[a]} ∪ ∅)) ∖ {[a]} ∖ {[bn]} : gset Z) by set_solver. done.
  - intros m. rewrite V7, V6, V5, V. unfold vset. simpl. destruct (decide (m = bn)), (Z.eqb_spec m bn); congruence.
  - apply (wrote_kept_l _ _ t3); [by eapply kept_trans; [|eapply kept_trans]|].
    apply (wrote_kept_r _ _ t4); [|by eapply kept_trans; [|eapply kept_trans]]. split_and!; [done|done|congruence].
Qed.

(** Rewriting one unpinned block through the cache, as [write_head] does. *)
Lemma rewrite_turn t P l a f : cinv dv P ∅ l t → a ∉ P → (size P < nbuf)%nat →
  (∀ d, length d = Z.to_nat BSIZE → length (f d) = Z.to_nat BSIZE) → ∀ Q : unit → bst → Prop,
  (∀ t', through dv t [(a, f (view dv t a))] P t' → Q tt t') →
  wp (i ← bread dv a; upd_buf i (λ b, bset_data (f (b_data b)) b);; bwrite i;; brelse i) t Q.
Proof.
  intros Hinv Ha Hsz Hf Q HQ.
  apply wp_bind. eapply wp_mono; [eapply bread_spec; [done|set_solver|right; by rewrite union_empty_r_L]|].
  intros i t1 [I1 H1 V1 K1 _ _].
  apply wp_bind. eapply wp_mono; [eapply (set_data_spec dv _ _ _ t1 i a f); [done|done|]|].
  { apply Hf. by eapply view_length, ci_cache. }
  intros _ t2 [[I2 V2 O2 _] K2]. apply wp_bind. eapply wp_mono; [eapply bwrite_spec; [done|by apply O2]|].
  intros _ t3 ([I3 V3 O3 M3] & D3 & W3). rewrite V2 in D3, W3. unfold vset in D3, W3. rewrite decide_True, V1 in D3, W3 by done.
  eapply wp_mono; [eapply (brelse_spec dv _ _ _ t3 i a); [done|by apply O3, O2|right]|].
  { rewrite V3, V2. unfold vset. rewrite decide_True by done. by rewrite D3, Z.eqb_refl, V1. }
  intros [] t4 [I4 V4 K4 _]. apply HQ. split.
  - eexists. replace ∅ with (({[a]} ∪ ∅) ∖ {[a]} : gset Z) by set_solver. done.
  - intros m. rewrite V4, V3, V2. unfold vset. simpl. rewrite !V1. destruct (decide (m = a)), (Z.eqb_spec m a); congruence.
  - apply (wrote_kept_l _ _ t2); [by eapply kept_trans|].
    apply (wrote_kept_r _ _ t3); [|done]. split_and!; [done|done|congruence].
Qed.

(** Reading one unpinned block. *)
Lemma read_turn t P l a : cinv dv P ∅ l t → a ∉ P → (size P < nbuf)%nat →
  wp (bread dv a) t (λ i t1, (∃ b, get_buf i t1 = Ok b t1 ∧ b_data b = view dv t a) ∧
    wp (brelse i) t1 (λ _ t', through dv t [] P t')).
Proof.
  intros Hinv Ha Hsz. pose proof (view_clean _ _ _ _ a (ci_cache _ _ _ _ _ Hinv) Ha ltac:(set_solver)) as Hclean.
  eapply wp_mono; [eapply bread_spec; [done|set_solver|right; by rewrite union_empty_r_L]|].
  intros i t1 [I1 H1 V1 K1 _ _]. split.
  - pose proof H1 as (c & Hc & _). destruct (wp_elim _ _ _ (wp_get_buf t1 i c (λ b s', core b = c ∧ s' = t1) Hc ltac:(done))) as (b & s' & E & Hb & ->).
    exists b. split; [done|]. rewrite <- V1. erewrite <- (view_hold dv _ _ t1 i a c); [by rewrite <- Hb|by eapply ci_cache|done|done].
  - eapply wp_mono; [eapply (brelse_spec dv _ _ _ t1 i a); [done|done|right]|].
    { rewrite V1, Hclean. by destruct K1 as [-> _]. }
    intros _ t2 [I2 V2 K2 _]. split.
    + eexists. replace ∅ with (({[a]} ∪ ∅) ∖ {[a]} : gset Z) by set_solver. done.
    + intros m. by rewrite V2, V1.
    + apply wrote_nil. by eapply kept_trans.
Qed.

End blocks.

(** ** The loops *)

(** The writes of [write_log] and of [install_trans] for the blocks [bs] from
    position [tail] on, with [v] the contents before. *)
Fixpoint log_writes (start tail : Z) (bs : list Z) (v : contents) : list (Z * list byte) :=
  match bs with
  | [] => []
  | b :: bs => (start + tail + 1, v b) :: log_writes start (tail + 1) bs v
  end.
Fixpoint home_writes (start tail : Z) (bs : list Z) (v : contents) : list (Z * list byte) :=
  match bs with
  | [] => []
  | b :: bs => (b, v (start + tail + 1)) :: home_writes start (tail + 1) bs v
  end.

Lemma log_writes_ext start tail bs v v' : (∀ b, b ∈ bs → v b = v' b) → log_writes start tail bs v = log_writes start tail bs v'.
Proof.
  revert tail. induction bs as [|b bs IH]; intros tail Hv; simpl; [done|].
  rewrite Hv by left. f_equal. apply IH. intros. apply Hv. by right.
Qed.
Lemma home_writes_ext start tail bs v v' :
  (∀ k, tail ≤ k < tail + Z.of_nat (length bs) → v (start + k + 1) = v' (start + k + 1)) →
  home_writes start tail bs v = home_writes start tail bs v'.
Proof.
  revert tail. induction bs as [|b bs IH]; intros tail Hv; cbn [home_writes length] in *; [done|].
  rewrite Hv by lia. f_equal. apply IH. intros. apply Hv. lia.
Qed.
Lemma home_writes_blocks start tail bs v : (home_writes start tail bs v).*1 = bs.
Proof. revert tail. induction bs; intros tail; simpl; [done|]. by f_equal. Qed.
Lemma elem_of_log_writes start tail bs v n d : (n, d) ∈ log_writes start tail bs v ↔
  ∃ k b, bs !! k = Some b ∧ n = start + tail + Z.of_nat k + 1 ∧ d = v b.
Proof.
  revert tail. induction bs as [|b bs IH]; intros tail; cbn [log_writes].
  - rewrite elem_of_nil. split; [done|]. by intros (k & b & ? & _).
  - rewrite elem_of_cons, IH. split.
    + intros [[=-> ->]|(k & b' & Hk & -> & ->)]; [exists 0%nat, b; split_and!; [done|lia|done]|].
      exists (S k), b'. split_and!; [done|lia|done].
    + intros ([|k] & b' & Hk & -> & ->); [left|right]; simpl in Hk.
      * injection Hk as ->. f_equal. lia.
      * exists k, b'. split_and!; [done|lia|done].
Qed.
Lemma log_writes_blocks start tail bs v n : n ∈ (log_writes start tail bs v).*1 ↔
  start + tail < n ≤ start + tail + Z.of_nat (length bs).
Proof.
  rewrite list_elem_of_fmap. split.
  - intros ([m d] & -> & (k & b & Hk & -> & ->)%elem_of_log_writes). apply lookup_lt_Some in Hk. simpl. lia.
  - intros Hn. destruct (lookup_lt_is_Some_2 bs (Z.to_nat (n - start - tail - 1))) as [b Hb]; [lia|].
    exists (n, v b). split; [done|]. apply elem_of_log_writes. eexists _, b. split_and!; [done|lia|done].
Qed.
Lemma log_writes_NoDup start tail bs v : NoDup (log_writes start tail bs v).*1.
Proof.
  revert tail. induction bs as [|b bs IH]; intros tail; simpl; [constructor|]. constructor; [|apply IH].
  rewrite log_writes_blocks. lia.
Qed.

(** Running bst code [H] piece by piece inside log code. *)
Ltac bio_step H := apply wp_bind, wp_bio; eapply wp_mono; [apply (wp_bind_inv _ _ _ _ H)|]; clear H;
  let v := fresh "v" in let u := fresh "u" in intros v u H; cbv beta in H.

Section loops.
Context (s : logst).
Implicit Types (t : bst) (P : gset Z) (bs : list Z).

Lemma write_log_loop_spec P bs : (size P < nbuf)%nat → ∀ t l tail,
  cinv (l_dev s) P ∅ l t → (∀ b, b ∈ bs → b ∈ P) →
  (∀ k, tail ≤ k < tail + Z.of_nat (length bs) → l_start s + k + 1 ∉ P) →
  wp (write_log_loop bs tail) (set_lbio t s) (λ _ s', ∃ t', s' = set_lbio t' s ∧
    through (l_dev s) t (log_writes (l_start s) tail bs (view (l_dev s) t)) P t').
Proof.
  intros Hsz. induction bs as [|bn bs IH]; intros t l tail Hinv Hbs Ha; cbn [write_log_loop log_writes length] in *.
  - apply wp_ret. exists t. split; [done|]. split; [by exists l|done|by apply wrote_nil].
  - apply wp_bind, wp_gets, wp_bind, wp_gets. simpl.
    assert (bn ∈ P) as Hbn by (apply Hbs; left). assert (l_start s + tail + 1 ∉ P) as Ha0 by (apply Ha; lia).
    pose proof (write_log_turn (l_dev s) t P l _ bn Hinv Hbn Ha0 Hsz) as H.
    do 6 bio_step H. apply wp_bind, wp_bio. eapply wp_mono; [exact H|]. intros ? t1 Ht1. cbv beta in Ht1. pose proof (th_inv _ _ _ _ _ Ht1) as [l1 I1]. pose proof (th_view _ _ _ _ _ Ht1) as V1.
    eapply wp_mono; [apply (IH t1 l1 (tail + 1) I1)|].
    + intros b Hb. apply Hbs. by right.
    + intros k Hk. apply Ha. lia.
    + intros _ s' (t' & -> & Ht'). exists t'. split; [done|].
      rewrite (log_writes_ext _ _ _ _ (view (l_dev s) t)) in Ht'; [exact (through_trans _ _ _ _ _ _ _ _ Ht1 Ht')|].
      intros b Hb. rewrite V1. simpl. destruct (Z.eqb_spec b (l_start s + tail + 1)) as [->|]; [|done].
      destruct Ha0. apply Hbs. by right.
Qed.

Lemma install_loop_spec (recovering : bool) bs : (recovering = false → NoDup bs) → ∀ P t l tail,
  cinv (l_dev s) P ∅ l t → (if recovering then P = ∅ else ∀ b, b ∈ bs → b ∈ P) → (size P < nbuf)%nat →
  (∀ k, tail ≤ k < tail + Z.of_nat (length bs) → (l_start s + k + 1 ∉ P) ∧ (l_start s + k + 1 ∉ bs)) →
  wp (install_trans_loop bs tail recovering) (set_lbio t s) (λ _ s', ∃ t', s' = set_lbio t' s ∧
    through (l_dev s) t (home_writes (l_start s) tail bs (view (l_dev s) t)) (P ∖ list_to_set bs) t').
Proof.
  intros Hnd. induction bs as [|bn bs IH]; intros P t l tail Hinv Hbs Hsz Ha; cbn [install_trans_loop home_writes length] in *.
  - apply wp_ret. exists t. split; [done|]. rewrite list_to_set_nil, difference_empty_L. split; [by exists l|done|by apply wrote_nil].
  - apply wp_bind, wp_gets, wp_bind, wp_gets. simpl.
    destruct (Ha tail ltac:(lia)) as [Ha0 [Hne _]%not_elem_of_cons].
    assert (recovering = false → (bn ∉ bs) ∧ NoDup bs) as Hnd' by (intros; by apply list.NoDup_cons, Hnd).
    assert (wp (lbuf ← bread (l_dev s) (l_start s + tail + 1); dbuf ← bread (l_dev s) bn; x ← get_buf lbuf;
      upd_buf dbuf (bset_data (b_data x));; bwrite dbuf;;
      (if recovering then mret () else bunpin dbuf);; brelse lbuf;; brelse dbuf) t
     (λ _ t', through (l_dev s) t [(bn, view (l_dev s) t (l_start s + tail + 1))] (P ∖ {[bn]}) t')) as H.
    { apply (install_turn _ recovering t P l); [done|done|done|]. destruct recovering; [|split; [apply Hbs; left|done]].
      subst P. split; [set_solver|]. rewrite size_empty. vm_compute. lia. }
    do 5 bio_step H. apply wp_bind. eapply (wp_mono _ _ (λ _ s', ∃ t', s' = set_lbio t' s ∧ wp (brelse v;; brelse v0) t'
      (λ _ t', through (l_dev s) t [(bn, view (l_dev s) t (l_start s + tail + 1))] (P ∖ {[bn]}) t'))).
    { destruct recovering; [apply wp_ret; eexists; split; [done|exact H]|].
      apply wp_bio. eapply wp_mono; [apply (wp_bind_inv _ _ _ _ H)|]. intros ? t' H'. by exists t'. }
    clear H. intros _ s1 (t4 & -> & H). bio_step H. apply wp_bind, wp_bio. eapply wp_mono; [exact H|].
    intros ? t1 Ht1. cbv beta in Ht1. pose proof (th_inv _ _ _ _ _ Ht1) as [l1 I1]. pose proof (th_view _ _ _ _ _ Ht1) as V1.
    eapply wp_mono; [apply (IH ltac:(apply Hnd') (P ∖ {[bn]}) t1 l1 (tail + 1) I1)|].
    + destruct recovering; [subst P; set_solver|]. intros b Hb. apply elem_of_difference. split; [apply Hbs; by right|].
      apply not_elem_of_singleton. intros ->. by apply Hnd'.
    + pose proof (subseteq_size (P ∖ {[bn]}) P ltac:(set_solver)). lia.
    + intros k Hk. destruct (Ha k ltac:(lia)). set_solver.
    + intros _ s' (t' & -> & Ht'). exists t'. split; [done|].
      rewrite (home_writes_ext _ _ _ _ (view (l_dev s) t)) in Ht'.
      * replace (P ∖ ({[bn]} ∪ list_to_set bs)) with (P ∖ {[bn]} ∖ list_to_set bs) by set_solver.
        exact (through_trans _ _ _ _ _ _ _ _ Ht1 Ht').
      * intros k Hk. rewrite V1. simpl. destruct (Ha k ltac:(lia)) as [_ [? _]%not_elem_of_cons].
        by destruct (Z.eqb_spec (l_start s + k + 1) bn).
Qed.

End loops.

(** ** The invariant of a transaction *)

Definition in_log (start size n : Z) : Prop := start ≤ n < start + size.

(** Blocks in [lh] are pinned in the cache with the contents of the transaction;
    everything else is as on disk, apart from the blocks [H] being used, and the
    log on disk is empty. *)
Record linv (H : gset Z) (l : list nat) (s : logst) : Prop := {
  li_cache : cinv (l_dev s) (list_to_set (lh s)) H l (lbio s);
  li_nodup : NoDup (lh s);
  li_home b : b ∈ lh s → block_nr b ∧ ¬ in_log (l_start s) (l_size s) b;
  li_fits : Z.of_nat (length (lh s)) < l_size s;
  li_size : (length (lh s) ≤ Z.to_nat LOGSIZE)%nat;
  li_head : decode_header (disk (lbio s) (l_start s)) = [];
}.

Section commit.
Context (s : logst).
Implicit Types (t : bst) (P : gset Z) (bs : list Z).

Lemma write_head_spec P t l : cinv (l_dev s) P ∅ l t → l_start s ∉ P → (size P < nbuf)%nat →
  (length (lh s) ≤ Z.to_nat LOGSIZE)%nat →
  wp write_head (set_lbio t s) (λ _ s', ∃ t', s' = set_lbio t' s ∧
    through (l_dev s) t [(l_start s, header (lh s) (view (l_dev s) t (l_start s)))] P t').
Proof.
  intros Hinv Hst Hsz Hlen.
  pose proof (rewrite_turn (l_dev s) t P l (l_start s) (header (lh s)) Hinv Hst Hsz (λ d Hd, length_header _ _ Hd Hlen)
    (λ _ t', through (l_dev s) t [(l_start s, header (lh s) (view (l_dev s) t (l_start s)))] P t') (λ _, id)) as H.
  unfold write_head. apply wp_bind, wp_gets, wp_bind, wp_gets. simpl.
  bio_step H. apply wp_bind, wp_gets. do 2 bio_step H. apply wp_bio. eapply wp_mono; [exact H|]. eauto.
Qed.

End commit.

Lemma home_writes_map start tail bs v v' : (∀ k b, bs !! k = Some b → v' (start + tail + Z.of_nat k + 1) = v b) →
  home_writes start tail bs v' = (λ b, (b, v b)) <$> bs.
Proof.
  revert tail. induction bs as [|b bs IH]; intros tail Hv; simpl; [done|]. f_equal.
  - f_equal. rewrite <- (Hv 0%nat b) by done. f_equal. lia.
  - apply IH. intros k c Hk. rewrite <- (Hv (S k) c) by done. f_equal. lia.
Qed.

(** The writes of a commit, in order. *)
Definition commit_writes (start : Z) (bs : list Z) (v : contents) : list (Z * list byte) :=
  log_writes start 0 bs v ++ [(start, header bs (v start))] ++
  ((λ b, (b, v b)) <$> bs) ++ [(start, header [] (header bs (v start)))].

Lemma commit_writes_nil_head start bs v k b : start ∉ bs → bs !! k = Some b →
  apply_writes (log_writes start 0 bs v ++ [(start, header bs (v start))]) v (start + 0 + Z.of_nat k + 1) = v b.
Proof.
  intros Hst Hk. rewrite apply_writes_app. simpl. destruct (Z.eqb_spec (start + 0 + Z.of_nat k + 1) start); [lia|].
  apply apply_writes_in; [apply log_writes_NoDup|]. apply elem_of_log_writes. by exists k, b.
Qed.

(** The body of [commit], with blocks to write. *)
Lemma commit_body_spec l s : linv ∅ l s → (length (lh s) < nbuf)%nat →
  wp (write_log;; write_head;; install_trans false;; modify (set_lh []);; write_head) s
    (λ _ s', ∃ t, s' = set_lh [] (set_lbio t s) ∧
      through (l_dev s) (lbio s) (commit_writes (l_start s) (lh s) (view (l_dev s) (lbio s))) ∅ t).
Proof.
  intros [Hinv Hnd Hhome Hfits Hsize Hhd] Hroom.
  set (v := view (l_dev s) (lbio s)) in *. set (P := list_to_set (lh s) : gset Z) in *.
  assert (size P < nbuf)%nat as Hsz by (unfold P; by rewrite size_list_to_set).
  assert (∀ k, 0 ≤ k < Z.of_nat (length (lh s)) → l_start s + k + 1 ∉ lh s) as Hlog.
  { intros k Hk Hin. destruct (Hhome _ Hin) as [_ Hno]. apply Hno. unfold in_log. lia. }
  assert (l_start s ∉ lh s) as Hst by (intros Hin; destruct (Hhome _ Hin) as [_ Hno]; apply Hno; unfold in_log; lia).
  assert (∀ b, b ∈ P ↔ b ∈ lh s) as HP by (intros b; unfold P; by rewrite elem_of_list_to_set).
  apply wp_bind. unfold write_log. apply wp_bind, wp_gets. rewrite <- (set_lbio_id s) at 2.
  eapply wp_mono; [eapply (write_log_loop_spec s P (lh s) Hsz (lbio s) l 0 Hinv); [intros b; apply HP|]|].
  { intros k Hk. rewrite HP. apply Hlog. lia. }
  intros _ s1 (t1 & -> & T1). pose proof (th_inv _ _ _ _ _ T1) as [l1 I1]. pose proof (th_view _ _ _ _ _ T1) as V1.
  fold v in T1, V1.
  apply wp_bind. eapply wp_mono; [eapply (write_head_spec s P t1 l1 I1); [by rewrite HP|done|done]|].
  intros _ s2 (t2 & -> & T2). rewrite V1, apply_writes_other in T2 by (rewrite log_writes_blocks; lia).
  pose proof (through_trans _ _ _ _ _ _ _ _ T1 T2) as T12.
  pose proof (th_inv _ _ _ _ _ T12) as [l2 I2]. pose proof (th_view _ _ _ _ _ T12) as V2. fold v in V2.
  apply wp_bind. unfold install_trans. apply wp_bind, wp_gets. simpl.
  eapply wp_mono; [eapply (install_loop_spec s false (lh s) (λ _, Hnd) P t2 l2 0 I2); [intros b; apply HP|done|]|].
  { intros k Hk. rewrite HP. split; apply Hlog; lia. }
  intros _ s3 (t3 & -> & T3). replace (P ∖ list_to_set (lh s)) with (∅ : gset Z) in T3 by set_solver.
  rewrite (home_writes_map _ _ _ v) in T3 by (intros k b Hk; rewrite V2; by apply commit_writes_nil_head).
  pose proof (through_trans _ _ _ _ _ _ _ _ T12 T3) as T13.
  pose proof (th_inv _ _ _ _ _ T13) as [l3 I3]. pose proof (th_view _ _ _ _ _ T13) as V3. fold v in V3.
  apply wp_bind, wp_modify. change (set_lh [] (set_lbio t3 s)) with (set_lbio t3 (set_lh [] s)).
  eapply wp_mono; [eapply (write_head_spec (set_lh [] s) ∅ t3 l3 I3); [set_solver|rewrite size_empty; vm_compute; lia|simpl; lia]|].
  intros _ s4 (t4 & -> & T4). exists t4. split; [done|]. simpl in T4.
  rewrite V3, apply_writes_app, apply_writes_other, apply_writes_app in T4
    by (rewrite <- list_fmap_compose, list_elem_of_fmap; intros (b & E & Hb); apply Hst; by rewrite E).
  simpl in T4. rewrite Z.eqb_refl in T4.
  pose proof (through_trans _ _ _ _ _ _ _ _ T13 T4) as T. unfold commit_writes. by rewrite <- !app_assoc in T.
Qed.

Lemma commit_spec l s : linv ∅ l s → (length (lh s) < nbuf)%nat →
  wp commit s (λ _ s', ∃ t, s' = set_lh [] (set_lbio t s) ∧
    through (l_dev s) (lbio s)
      (match lh s with [] => [] | _ => commit_writes (l_start s) (lh s) (view (l_dev s) (lbio s)) end) ∅ t).
Proof.
  intros Hinv Hroom. unfold commit. apply wp_bind, wp_gets. unfold log_n.
  pose proof (commit_body_spec l s Hinv Hroom) as H. pose proof (li_cache _ _ _ Hinv) as Hc.
  destruct (lh s) as [|b bs] eqn:E; simpl; [|exact H].
  apply wp_ret. exists (lbio s). split; [destruct s; simpl in *; by subst|]. split; [by exists l|done|by apply wrote_nil].
Qed.

(** ** Disks and recovery *)

(** What the committed transactions on disk [dk] amount to: the blocks of the
    header taken from the log. *)
Definition redo_writes (start : Z) (dk : contents) : list (Z * list byte) :=
  home_writes start 0 (decode_header (dk start)) dk.
Definition redo (start : Z) (dk : contents) : contents := apply_writes (redo_writes start dk) dk.

(** A disk with a log that recovery can use. *)
Record wf_disk (start size : Z) (dk : contents) : Prop := {
  wd_len n : length (dk n) = Z.to_nat BSIZE;
  wd_count : i32 (word (dk start) 0) ≤ LOGSIZE;
  wd_fits : Z.of_nat (length (decode_header (dk start))) < size;
  wd_home b : b ∈ decode_header (dk start) → ¬ in_log start size b;
}.

Definition recovery_writes (start : Z) (dk : contents) : list (Z * list byte) :=
  redo_writes start dk ++ [(start, header [] (dk start))].

Lemma decode_header_nil d : length d = Z.to_nat BSIZE → decode_header (header [] d) = [].
Proof. intros Hd. apply (decode_header_ok [] d Hd); [simpl; lia|constructor]. Qed.
Lemma head_count_nil d : length d = Z.to_nat BSIZE → i32 (word (header [] d) 0) = 0.
Proof. intros Hd. apply (decode_header_ok [] d Hd); [simpl; lia|constructor]. Qed.

Section disks.
Context (start size : Z).
Implicit Types dk : contents.

(** Changing the disk only at home blocks of the header keeps what it amounts to. *)
Lemma wf_disk_home dk q : wf_disk start size dk → q `prefix_of` redo_writes start dk →
  wf_disk start size (apply_writes q dk) ∧ ∀ n, redo start (apply_writes q dk) n = redo start dk n.
Proof.
  intros Hwf [r Hr]. pose proof (home_writes_blocks start 0 (decode_header (dk start)) dk) as Hb.
  fold (redo_writes start dk) in Hb. rewrite Hr, fmap_app in Hb.
  assert (∀ n, n ∈ q.*1 → n ∈ decode_header (dk start)) as Hq by (intros n Hn; rewrite <- Hb; apply elem_of_app; by left).
  assert (∀ n, in_log start size n → apply_writes q dk n = dk n) as Hin.
  { intros n Hn. apply apply_writes_other. intros ?%Hq. by eapply (wd_home _ _ _ Hwf). }
  pose proof (wd_fits _ _ _ Hwf) as Hfits.
  assert (apply_writes q dk start = dk start) as Hst by (apply Hin; unfold in_log; lia).
  split; [split|].
  - intros n. apply apply_writes_length; [apply Hwf|]. apply list.Forall_forall. intros [m d] Hm.
    assert ((m, d) ∈ redo_writes start dk) as Hm' by (rewrite Hr; apply elem_of_app; by left).
    clear -Hm' Hwf. unfold redo_writes in Hm'. revert Hm'. generalize 0 at 1. induction (decode_header (dk start)) as [|b bs IH]; intros k; simpl.
    + by intros ?%not_elem_of_nil.
    + intros [[=-> ->]|Hm]%elem_of_cons; [apply Hwf|by eapply IH].
  - rewrite Hst. apply Hwf.
  - rewrite Hst. apply Hwf.
  - rewrite Hst. apply Hwf.
  - intros n. unfold redo, redo_writes. rewrite Hst.
    rewrite (home_writes_ext _ _ _ (apply_writes q dk) dk) by (intros k Hk; apply Hin; unfold in_log; lia).
    apply apply_writes_ext. rewrite home_writes_blocks. intros Hn. apply apply_writes_other. auto.
Qed.

(** A disk with an empty log. *)
Lemma wf_disk_empty dk : (∀ n, length (dk n) = Z.to_nat BSIZE) → 0 < size → i32 (word (dk start) 0) ≤ LOGSIZE →
  decode_header (dk start) = [] → wf_disk start size dk ∧ ∀ n, redo start dk n = dk n.
Proof.
  intros Hlen Hsize Hc Hnil. split.
  - split; [done|done| |]; rewrite Hnil; [done|]. by intros b ?%not_elem_of_nil.
  - intros n. unfold redo, redo_writes. by rewrite Hnil.
Qed.

(** Recovery, cut short anywhere, keeps what the disk amounts to; finished, it
    has put it in place. *)
Lemma recovery_prefix dk q : wf_disk start size dk → q `prefix_of` recovery_writes start dk →
  wf_disk start size (apply_writes q dk) ∧
  (∀ n, ¬ in_log start size n → redo start (apply_writes q dk) n = redo start dk n) ∧
  (q = recovery_writes start dk → ∀ n, ¬ in_log start size n → apply_writes q dk n = redo start dk n).
Proof.
  intros Hwf Hq. pose proof (wd_fits _ _ _ Hwf) as Hfits. unfold recovery_writes in *.
  apply prefix_app_cases in Hq as [Hq|(r & -> & Hr)].
  - destruct (wf_disk_home dk q Hwf Hq) as [Hwf' Hredo]. split; [done|]. split; [auto|]. intros ->.
    destruct Hq as [k Hk]. apply (f_equal length) in Hk. rewrite !length_app in Hk. simpl in Hk. lia.
  - destruct (wf_disk_home dk _ Hwf ltac:(done)) as [Hwf1 _].
    apply prefix_singleton in Hr as [-> | ->]; [rewrite app_nil_r|].
    { destruct (wf_disk_home dk _ Hwf ltac:(done)) as [Hwf' Hredo]. split; [done|]. split; [auto|]. intros E.
      apply (f_equal length) in E. rewrite length_app in E. simpl in E. lia. }
    set (dk' := apply_writes _ dk).
    assert (∀ n, n ≠ start → dk' n = redo start dk n) as Hne.
    { intros n Hn. unfold dk'. rewrite apply_writes_app. simpl. by destruct (Z.eqb_spec n start). }
    assert (dk' start = header [] (dk start)) as Hst.
    { unfold dk'. rewrite apply_writes_app. simpl. by rewrite Z.eqb_refl. }
    pose proof (wd_len _ _ _ Hwf start) as Hl.
    destruct (wf_disk_empty dk') as [Hwf' Hredo].
    + intros n. destruct (decide (n = start)) as [->|Hn]; [rewrite Hst; apply (length_header [] _ Hl); simpl; lia|].
      rewrite Hne by done. apply Hwf1.
    + lia.
    + rewrite Hst, head_count_nil by done. done.
    + by rewrite Hst, decode_header_nil.
    + assert (∀ n, ¬ in_log start size n → n ≠ start) as Hout by (unfold in_log; intros n Hn ->; lia).
      split; [done|]. split; [intros n Hn; rewrite Hredo; auto|]. intros _ n Hn. auto.
Qed.

End disks.

(** ** A commit cut short *)

Section commit_prefix.
Context (start size : Z) (bs : list Z) (v dk : contents).
Context (Hnd : NoDup bs) (Hhome : ∀ b, b ∈ bs → block_nr b ∧ ¬ in_log start size b)
  (Hfits : Z.of_nat (length bs) < size) (Hsize : (length bs ≤ Z.to_nat LOGSIZE)%nat)
  (Hv : ∀ n, length (v n) = Z.to_nat BSIZE) (Hdk : ∀ n, length (dk n) = Z.to_nat BSIZE)
  (Hhead : decode_header (dk start) = []) (Hclean : ∀ n, n ∉ bs → v n = dk n).

Definition logged_disk : contents := apply_writes (log_writes start 0 bs v ++ [(start, header bs (v start))]) dk.

Lemma log_writes_lengths : Forall (λ w, length w.2 = Z.to_nat BSIZE) (log_writes start 0 bs v).
Proof using Hv. apply list.Forall_forall. intros [n d] (k & b & _ & _ & ->)%elem_of_log_writes. apply Hv. Qed.

Lemma logged_at_start : logged_disk start = header bs (v start).
Proof using. unfold logged_disk. rewrite apply_writes_app. simpl. by rewrite Z.eqb_refl. Qed.
Lemma logged_at_log k b : bs !! k = Some b → logged_disk (start + 0 + Z.of_nat k + 1) = v b.
Proof using Hsize.
  intros Hk. unfold logged_disk. rewrite apply_writes_app. simpl.
  destruct (Z.eqb_spec (start + 0 + Z.of_nat k + 1) start); [lia|].
  apply apply_writes_in; [apply log_writes_NoDup|]. apply elem_of_log_writes. by exists k, b.
Qed.
Lemma logged_outside n : ¬ in_log start size n → logged_disk n = dk n.
Proof using Hfits Hsize.
  intros Hn. unfold logged_disk, in_log in *. rewrite apply_writes_app. simpl. destruct (Z.eqb_spec n start); [lia|].
  apply apply_writes_other. rewrite log_writes_blocks. lia.
Qed.
Lemma logged_decode : decode_header (logged_disk start) = bs ∧ i32 (word (logged_disk start) 0) = Z.of_nat (length bs).
Proof using Hhome Hsize Hv.
  rewrite logged_at_start. destruct (decode_header_ok bs (v start) (Hv start) Hsize) as [? ?]; [|done].
  apply list.Forall_forall. intros b Hb. by apply Hhome.
Qed.

Lemma logged_redo_writes : redo_writes start logged_disk = (λ b, (b, v b)) <$> bs.
Proof using Hhome Hsize Hv.
  unfold redo_writes. rewrite (proj1 logged_decode). apply home_writes_map. intros k b Hk. by apply logged_at_log.
Qed.
Lemma commit_writes_split : commit_writes start bs v =
  (log_writes start 0 bs v ++ [(start, header bs (v start))]) ++ recovery_writes start logged_disk.
Proof using Hhome Hsize Hv.
  unfold commit_writes, recovery_writes. by rewrite logged_redo_writes, logged_at_start, <- !app_assoc.
Qed.

Lemma logged_wf : wf_disk start size logged_disk.
Proof using Hhome Hfits Hsize Hv Hdk.
  destruct logged_decode as [Hd Hc]. split.
  - intros n. apply apply_writes_length; [done|]. apply Forall_app. split; [apply log_writes_lengths|].
    constructor; [|constructor]. by apply length_header.
  - rewrite Hc. unfold LOGSIZE, MAXOPBLOCKS in *. lia.
  - by rewrite Hd.
  - rewrite Hd. intros b Hb. by apply Hhome.
Qed.

Lemma logged_redo n : ¬ in_log start size n → redo start logged_disk n = v n.
Proof using Hnd Hhome Hfits Hsize Hv Hclean.
  intros Hn. unfold redo. rewrite logged_redo_writes. destruct (decide (n ∈ bs)) as [Hin|Hout].
  - apply apply_writes_in; [by rewrite <- list_fmap_compose, list_fmap_id|]. apply list_elem_of_fmap. by exists n.
  - rewrite apply_writes_other by (by rewrite <- list_fmap_compose, list_fmap_id).
    rewrite logged_outside by done. by rewrite Hclean.
Qed.

(** Nothing is committed before the header is written. *)
Lemma log_prefix q : q `prefix_of` log_writes start 0 bs v →
  wf_disk start size (apply_writes q dk) ∧ (∀ n, ¬ in_log start size n → redo start (apply_writes q dk) n = dk n).
Proof using Hfits Hsize Hv Hdk Hhead.
  intros Hq. assert (∀ n, apply_writes q dk n = dk n ∨ in_log start size n ∧ n ≠ start) as Hkeep.
  { intros n. destruct (decide (n ∈ q.*1)) as [Hn|Hn]; [right|left; by apply apply_writes_other].
    assert (n ∈ (log_writes start 0 bs v).*1) as Hin by (destruct Hq as [k ->]; rewrite fmap_app; apply elem_of_app; by left).
    apply log_writes_blocks in Hin. unfold in_log. lia. }
  assert (apply_writes q dk start = dk start) as Hst by (destruct (Hkeep start) as [?|[_ ?]]; done).
  destruct (wf_disk_empty start size (apply_writes q dk)) as [Hwf Hredo].
  - intros n. apply apply_writes_length; [done|]. destruct Hq as [k Hk]. pose proof log_writes_lengths as Hall.
    rewrite Hk in Hall. by apply Forall_app in Hall as [? _].
  - lia.
  - rewrite Hst. unfold decode_header in Hhead. apply (f_equal length) in Hhead.
    rewrite length_map, length_seq in Hhead. simpl in Hhead. unfold LOGSIZE, MAXOPBLOCKS. lia.
  - by rewrite Hst.
  - split; [done|]. intros n Hn. rewrite Hredo. by destruct (Hkeep n) as [?|[? _]].
Qed.

(** Whatever prefix of the commit reaches the disk, it amounts to the old or to
    the new contents, and to the new ones once all of it did. *)
Lemma commit_prefix q : q `prefix_of` commit_writes start bs v →
  wf_disk start size (apply_writes q dk) ∧
  (q ≠ commit_writes start bs v ∧ (∀ n, ¬ in_log start size n → redo start (apply_writes q dk) n = dk n) ∨
   (∀ n, ¬ in_log start size n → redo start (apply_writes q dk) n = v n)).
Proof using Hnd Hhome Hfits Hsize Hv Hdk Hhead Hclean.
  intros Hq. rewrite commit_writes_split in *.
  assert (q `prefix_of` log_writes start 0 bs v →
    q ≠ (log_writes start 0 bs v ++ [(start, header bs (v start))]) ++ recovery_writes start logged_disk) as Hshort.
  { intros [k Hk] E. rewrite Hk in E. apply (f_equal length) in E. rewrite !length_app in E. simpl in E. lia. }
  apply prefix_app_cases in Hq as [Hq|(r & -> & Hr)].
  - apply prefix_app_cases in Hq as [Hq|(r & -> & [-> | ->]%prefix_singleton)].
    + destruct (log_prefix q Hq). auto.
    + rewrite app_nil_r in *. destruct (log_prefix _ ltac:(reflexivity)). auto.
    + split; [apply logged_wf|]. right. apply logged_redo.
  - rewrite apply_writes_app. fold logged_disk.
    destruct (recovery_prefix start size logged_disk r logged_wf Hr) as (Hwf & Hredo & _). split; [done|]. right.
    intros n Hn. rewrite Hredo by done. by apply logged_redo.
Qed.

End commit_prefix.

(** ** Recovery *)

Lemma room_none : (size (∅ : gset Z) < nbuf)%nat.
Proof. vm_compute. lia. Qed.

Lemma read_head_spec s t l : cinv (l_dev s) ∅ ∅ l t → i32 (word (disk t (l_start s)) 0) ≤ LOGSIZE →
  wp read_head (set_lbio t s) (λ _ s', ∃ t', s' = set_lh (decode_header (disk t (l_start s))) (set_lbio t' s) ∧
    through (l_dev s) t [] ∅ t').
Proof.
  intros Hinv Hc. pose proof (view_clean _ _ _ _ (l_start s) (ci_cache _ _ _ _ _ Hinv) (not_elem_of_empty _) (not_elem_of_empty _)) as Hv.
  unfold read_head. apply wp_bind, wp_gets, wp_bind, wp_gets. simpl.
  apply wp_bind, wp_bio. eapply wp_mono; [eapply read_turn; [done|set_solver|apply room_none]|].
  intros i t1 [(b & E & Hb) Hrel]. apply wp_bind, wp_bio. eapply wp_Ok; [done|]. rewrite Hb, Hv.
  destruct (Z.gtb_spec (i32 (word (disk t (l_start s)) 0)) LOGSIZE); [lia|].
  apply wp_bind, wp_modify. change (set_lh ?x (set_lbio t1 s)) with (set_lbio t1 (set_lh x s)).
  apply wp_bio. eapply wp_mono; [exact Hrel|]. intros ? t2 T. exists t2. by split.
Qed.

Lemma recover_spec s t l : cinv (l_dev s) ∅ ∅ l t → wf_disk (l_start s) (l_size s) (disk t) →
  wp recover_from_log (set_lbio t s) (λ _ s', ∃ t', s' = set_lh [] (set_lbio t' s) ∧
    through (l_dev s) t (recovery_writes (l_start s) (disk t)) ∅ t').
Proof.
  intros Hinv Hwf. set (hs := decode_header (disk t (l_start s))).
  assert (∀ n, view (l_dev s) t n = disk t n) as Hv.
  { intros n. eapply view_clean; [by eapply ci_cache|apply not_elem_of_empty..]. }
  pose proof (wd_fits _ _ _ Hwf) as Hfits. pose proof (wd_home _ _ _ Hwf) as Hhome. fold hs in Hfits, Hhome.
  unfold recover_from_log. apply wp_bind. eapply wp_mono; [eapply (read_head_spec s t l); [done|apply Hwf]|].
  intros _ s1 (t1 & -> & T1). fold hs. pose proof (th_inv _ _ _ _ _ T1) as [l1 I1]. pose proof (th_view _ _ _ _ _ T1) as V1.
  change (set_lh hs (set_lbio t1 s)) with (set_lbio t1 (set_lh hs s)).
  apply wp_bind. unfold install_trans. apply wp_bind, wp_gets. simpl.
  eapply wp_mono; [eapply (install_loop_spec (set_lh hs s) true hs); [done|exact I1|done|apply room_none|]|].
  { intros k Hk. simpl. split; [apply not_elem_of_empty|]. intros Hin. apply (Hhome _ Hin). unfold in_log. lia. }
  intros _ s2 (t2 & -> & T2). simpl in T2. replace (∅ ∖ list_to_set hs) with (∅ : gset Z) in T2 by set_solver.
  rewrite (home_writes_ext _ _ _ _ (disk t)) in T2 by (intros k Hk; rewrite V1; apply Hv).
  pose proof (through_trans _ _ _ _ _ _ _ _ T1 T2) as T12. simpl in T12.
  pose proof (th_inv _ _ _ _ _ T12) as [l2 I2]. pose proof (th_view _ _ _ _ _ T12) as V2.
  apply wp_bind, wp_modify. change (set_lh [] (set_lbio t2 (set_lh hs s))) with (set_lbio t2 (set_lh [] s)).
  eapply wp_mono; [eapply (write_head_spec (set_lh [] s) ∅ t2 l2 I2); [apply not_elem_of_empty|apply room_none|simpl; lia]|].
  intros _ s3 (t3 & -> & T3). exists t3. split; [done|]. simpl in T3.
  rewrite V2, apply_writes_other, Hv in T3
    by (rewrite home_writes_blocks; intros Hin; apply (Hhome _ Hin); unfold in_log; lia).
  exact (through_trans _ _ _ _ _ _ _ _ T12 T3).
Qed.

(** The kernel starting up on a disk: zeroed memory, [binit], and [initlog] as
    [fsinit] calls it in the first process. *)
Definition fresh (p : Z) (dk : contents) : logst :=
  mk_logst (mk_bst (replicate nbuf (mk_buf false 0 0 None 0 0 0 [])) 0 0 dk [] p [] []) 0 0 0 false 0 [].
Definition boot (dv : Z) (sb : superblock) : M logst unit := bio binit;; initlog dv sb.

Lemma fresh_zeroed p dk : (∀ n, length (dk n) = Z.to_nat BSIZE) → zeroed (lbio (fresh p dk)).
Proof. intros Hdk. split; [reflexivity|]. split; [by apply Forall_replicate|]. split; done. Qed.

(** The log after boot: recovered, empty and idle. *)
Record booted (dv : Z) (sb : superblock) (dk : contents) (s : logst) : Prop := {
  bo_writes : writes (lbio s) = recovery_writes (sb_logstart sb) dk;
  bo_disk : disk (lbio s) = apply_writes (recovery_writes (sb_logstart sb) dk) dk;
  bo_inv : ∃ l, linv ∅ l s;
  bo_state : lh s = [] ∧ l_outstanding s = 0 ∧ l_committing s = false ∧
    l_dev s = dv ∧ l_start s = sb_logstart sb ∧ l_size s = sb_nlog sb;
}.

Lemma recovered_head start size dk : wf_disk start size dk →
  decode_header (apply_writes (recovery_writes start dk) dk start) = [].
Proof.
  intros Hwf. unfold recovery_writes. rewrite apply_writes_app. simpl. rewrite Z.eqb_refl. apply decode_header_nil, Hwf.
Qed.

(** [initlog] on a clean cache. *)
Lemma initlog_wp dv sb t l s : cinv dv ∅ ∅ l t → writes t = [] → wf_disk (sb_logstart sb) (sb_nlog sb) (disk t) →
  l_outstanding s = 0 → l_committing s = false → lh s = [] → wp (initlog dv sb) (set_lbio t s) (λ _ s', booted dv sb (disk t) s').
Proof.
  intros Hinv Hw Hwf Ho Hc Hlh. unfold initlog. destruct (Z_geb_spec0 sizeof_logheader BSIZE) as [Hbig|_]; [by vm_compute in Hbig|].
  apply wp_bind, wp_bio, wp_modify. rewrite (ci_idle _ _ _ _ _ Hinv). change (filter _ []) with (@nil Z). rewrite (set_bheld_id t []) by apply Hinv.
  apply wp_bind, wp_modify. cbn [l_start l_size l_outstanding l_committing l_dev lh set_lbio lbio].
  set (s1 := mk_logst t (sb_logstart sb) (sb_nlog sb) (l_outstanding s) (l_committing s) dv (lh s)). change s1 with (set_lbio t s1).
  eapply wp_mono; [eapply (recover_spec s1 t l); [exact Hinv|exact Hwf]|].
  intros _ s2 (t2 & -> & [[l2 I2] V2 (W2 & D2 & M2)]). rewrite Hw in *.
  split; cbn [lbio lh set_lh set_lbio]; [exact W2|exact D2| |split_and!; (done || reflexivity)].
  pose proof (wd_fits _ _ _ Hwf) as Hfits.
  exists l2. split; simpl; [exact I2|constructor|by intros b ?%not_elem_of_nil|lia|lia|].
  rewrite D2. exact (recovered_head _ _ _ Hwf).
Qed.

Lemma boot_wp dv sb p dk : dv ≠ 0 → wf_disk (sb_logstart sb) (sb_nlog sb) dk →
  wp (boot dv sb) (fresh p dk) (λ _ s, booted dv sb dk s).
Proof.
  intros Hdv Hwf. unfold boot. apply wp_bind. apply (wp_zoom lbio set_lbio).
  eapply wp_mono; [apply (binit_spec dv); [done|apply fresh_zeroed, Hwf]|]. intros _ t (Hinv & _ & Hd & Hw & _). simpl in Hd, Hw.
  rewrite <- Hd in Hwf |- *. by eapply initlog_wp.
Qed.

Lemma boot_spec dv sb p dk : dv ≠ 0 → wf_disk (sb_logstart sb) (sb_nlog sb) dk →
  ∃ s, boot dv sb (fresh p dk) = Ok tt s ∧ booted dv sb dk s.
Proof.
  intros Hdv Hwf. destruct (wp_elim _ _ _ (boot_wp dv sb p dk Hdv Hwf)) as ([] & s & E & H). exists s. exact (conj E H).
Qed.

Lemma booted_view dv sb dk s n : booted dv sb dk s → view dv (lbio s) n = disk (lbio s) n.
Proof.
  intros [_ _ [l [Hc _ _ _ _ _]] (Hl & _ & _ & Hd & _)]. rewrite Hd, Hl in Hc. eapply view_clean; [by eapply ci_cache|apply not_elem_of_empty..].
Qed.

(** Disks after any number of crashes during recovery. *)
Inductive reboots (dv : Z) (sb : superblock) (dk : contents) : contents → Prop :=
| reboots_none : reboots dv sb dk dk
| reboots_crash dk1 p s q : reboots dv sb dk dk1 → boot dv sb (fresh p dk1) = Ok tt s →
    q `prefix_of` writes (lbio s) → reboots dv sb dk (apply_writes q dk1).

Lemma reboots_redo dv sb dk dk' : dv ≠ 0 → wf_disk (sb_logstart sb) (sb_nlog sb) dk → reboots dv sb dk dk' →
  wf_disk (sb_logstart sb) (sb_nlog sb) dk' ∧
  ∀ n, ¬ in_log (sb_logstart sb) (sb_nlog sb) n → redo (sb_logstart sb) dk' n = redo (sb_logstart sb) dk n.
Proof.
  intros Hdv Hwf. induction 1 as [|dk1 p s q _ [Hwf1 IH] E Hq]; [done|].
  destruct (boot_spec dv sb p dk1 Hdv Hwf1) as (s' & E' & [Hw _ _ _]). assert (s = s') as -> by congruence. rewrite Hw in Hq.
  destruct (recovery_prefix _ _ dk1 q Hwf1 Hq) as (Hwf2 & Hr & _). split; [done|]. intros n Hn. rewrite Hr; auto.
Qed.

(** Recovery of [dk], after whatever crashes during recovery, always ends with
    [v] in the blocks outside the log. *)
Definition recovers_to (dv : Z) (sb : superblock) (dk v : contents) : Prop :=
  ∀ dk' p, reboots dv sb dk dk' → ∃ s, boot dv sb (fresh p dk') = Ok tt s ∧
    ∀ n, ¬ in_log (sb_logstart sb) (sb_nlog sb) n → disk (lbio s) n = v n ∧ view dv (lbio s) n = v n.

Lemma recovers_to_redo dv sb dk v : dv ≠ 0 → wf_disk (sb_logstart sb) (sb_nlog sb) dk →
  (∀ n, ¬ in_log (sb_logstart sb) (sb_nlog sb) n → redo (sb_logstart sb) dk n = v n) → recovers_to dv sb dk v.
Proof.
  intros Hdv Hwf Hv dk' p Hr. destruct (reboots_redo _ _ _ _ Hdv Hwf Hr) as [Hwf' Hredo].
  destruct (boot_spec dv sb p dk' Hdv Hwf') as (s & E & Hb). exists s. split; [exact E|]. clear E.
  intros n Hn. rewrite (booted_view _ _ _ _ _ Hb), (bo_disk _ _ _ _ Hb). destruct (recovery_prefix _ _ dk' _ Hwf' ltac:(reflexivity)) as (_ & _ & Hfull).
  by rewrite Hfull, Hredo, Hv.
Qed.

Definition transaction_writes (s : logst) : list (Z * list byte) :=
  match lh s with [] => [] | _ => commit_writes (l_start s) (lh s) (view (l_dev s) (lbio s)) end.

(** The end of the last operation of a transaction. *)
Lemma end_op_spec l s : linv ∅ l s → l_outstanding s = 1 → l_committing s = false → (length (lh s) < nbuf)%nat →
  wp end_op s (λ _ s', ∃ t, s' = mk_logst t (l_start s) (l_size s) 0 false (l_dev s) [] ∧
    through (l_dev s) (lbio s) (transaction_writes s) ∅ t).
Proof.
  intros Hinv Ho Hc Hroom. pose proof (ci_idle _ _ _ _ _ (li_cache _ _ _ Hinv)) as Hidle. unfold end_op.
  apply wp_bind, wp_log_acquire; [done|]. apply wp_bind, wp_modify, wp_bind, wp_gets. simpl. rewrite Hc.
  apply wp_bind, wp_gets. simpl. rewrite Ho. simpl. apply wp_bind, wp_bind, wp_modify, wp_ret. apply wp_bind, wp_log_release; [done|].
  match goal with |- wp _ ?s0 _ => set (s1 := s0) end.
  assert (lbio s1 = lbio s) as Hs1 by exact (set_bheld_id (lbio s) [] Hidle).
  assert (linv ∅ l s1) as Hinv1 by (destruct Hinv; split; rewrite ?Hs1; done).
  apply wp_bind. eapply wp_mono; [apply (commit_spec l s1 Hinv1 Hroom)|]. rewrite Hs1.
  intros _ s2 (t & -> & [I V W]). destruct I as [l' [Hca Hri Hpe Hid]].
  apply wp_bind, wp_log_acquire; [done|]. apply wp_bind, wp_modify, wp_bind, (wp_zoom lbio set_lbio). unfold notify. apply wp_modify, wp_log_release; [done|].
  eexists. split; [done|]. split; [|exact V|exact W].
  exists l'. split; [|exact Hri|exact Hpe|done]. destruct Hca. by split.
Qed.

(** What the transaction leaves on disk. *)
Lemma transaction_result l s dk : linv ∅ l s → (∀ n, dk n = view (l_dev s) (lbio s) n ∨ dk n = disk (lbio s) n) →
  (∀ n, ¬ in_log (l_start s) (l_size s) n → n ∉ lh s → dk n = view (l_dev s) (lbio s) n) →
  (∀ n, ¬ in_log (l_start s) (l_size s) n → apply_writes (transaction_writes s) dk n = view (l_dev s) (lbio s) n) ∧
  decode_header (apply_writes (transaction_writes s) dk (l_start s)) = [].
Proof.
  intros [Hinv Hnd Hhome Hfits Hsize Hhd] Hdk Hout. pose proof (ci_cache _ _ _ _ _ Hinv) as Hc.
  set (v := view (l_dev s) (lbio s)) in *. unfold transaction_writes. fold v.
  assert (l_start s ∉ lh s) as Hst by (intros Hin; destruct (Hhome _ Hin) as [_ Hno]; apply Hno; unfold in_log; lia).
  assert (v (l_start s) = disk (lbio s) (l_start s)) as Hvs.
  { unfold v. eapply view_clean; [done|by rewrite elem_of_list_to_set|apply not_elem_of_empty]. }
  destruct (lh s) as [|b0 bs0] eqn:E.
  - simpl. split; [intros n Hn; apply Hout; [done|apply not_elem_of_nil]|].
    destruct (Hdk (l_start s)) as [->| ->]; [by rewrite Hvs|done].
  - rewrite <- E in *. unfold commit_writes. rewrite !apply_writes_app. simpl. split.
    + intros n Hn. destruct (Z.eqb_spec n (l_start s)) as [->|Hne]; [destruct Hn; unfold in_log; lia|].
      destruct (decide (n ∈ lh s)) as [Hin|Hni].
      * apply apply_writes_in; [by rewrite <- list_fmap_compose, list_fmap_id|]. apply list_elem_of_fmap. by exists n.
      * rewrite apply_writes_other by (by rewrite <- list_fmap_compose, list_fmap_id).
        destruct (Z.eqb_spec n (l_start s)); [done|]. rewrite apply_writes_other; [by apply Hout|].
        rewrite log_writes_blocks. unfold in_log in Hn. lia.
    + rewrite Z.eqb_refl. apply decode_header_nil, length_header; [|done]. by eapply view_length.
Qed.

(** C5: transactions are atomic.  The last operation of a transaction calls
    [end_op]: it returns with the transaction installed, every block outside
    the log reading, in the cache and on the disk, as the transaction left it.
    If the machine stops at any point, so that only a prefix [q] of its disk
    writes happened, then recovery at boot, itself stopped and begun again any
    number of times, ends with all blocks outside the log as they were on the
    disk before, or all as the transaction left them; and the latter once
    [end_op] has returned. *)
Theorem commit_atomic l s sb : linv ∅ l s → l_outstanding s = 1 → l_committing s = false →
  (length (lh s) < nbuf)%nat → l_dev s ≠ 0 → sb_logstart sb = l_start s → sb_nlog sb = l_size s →
  ∃ s' l' ws, end_op s = Ok tt s' ∧ writes (lbio s') = writes (lbio s) ++ ws ∧ linv ∅ l' s' ∧ lh s' = [] ∧
    (∀ n, ¬ in_log (l_start s) (l_size s) n →
      view (l_dev s) (lbio s') n = view (l_dev s) (lbio s) n ∧ disk (lbio s') n = view (l_dev s) (lbio s) n) ∧
    ∀ q, q `prefix_of` ws →
      q ≠ ws ∧ recovers_to (l_dev s) sb (apply_writes q (disk (lbio s))) (disk (lbio s)) ∨
      recovers_to (l_dev s) sb (apply_writes q (disk (lbio s))) (view (l_dev s) (lbio s)).
Proof.
  intros Hinv Ho Hc Hroom Hdv Hsb Hsb'.
  destruct (wp_elim _ _ _ (end_op_spec l s Hinv Ho Hc Hroom)) as ([] & s' & E & t & -> & [[l' I] V (W & Dk & Me)]).
  pose proof Hinv as [Hinv0 Hnd Hhome Hfits Hsize Hhd]. pose proof (ci_cache _ _ _ _ _ Hinv0) as Hca.
  assert (∀ n, n ∉ lh s → view (l_dev s) (lbio s) n = disk (lbio s) n) as Hclean.
  { intros n Hn. eapply view_clean; [done|by rewrite elem_of_list_to_set|apply not_elem_of_empty]. }
  destruct (transaction_result l s (disk (lbio s)) Hinv) as [Hres Hhd']; [by right|by intros; rewrite Hclean|].
  destruct (transaction_result l s (view (l_dev s) (lbio s)) Hinv) as [Hresv _]; [by left|done|].
  eexists _, l', _. split; [exact E|]. clear E. split; [exact W|]. split; [|split; [done|split]].
  - split; simpl; [exact I|constructor|by intros b ?%not_elem_of_nil|lia|lia|by rewrite Dk].
  - intros n Hn. simpl. rewrite V, Dk. auto.
  - intros q Hq. unfold transaction_writes in *. destruct (lh s) as [|b0 bs0] eqn:Elh.
    + right. apply prefix_nil_inv in Hq as ->. simpl.
      destruct (wf_disk_empty (sb_logstart sb) (sb_nlog sb) (disk (lbio s))) as [Hwf Hredo].
      * intros n. by eapply c_disk.
      * rewrite Hsb'. lia.
      * rewrite Hsb. unfold decode_header in Hhd. apply (f_equal length) in Hhd.
        rewrite length_map, length_seq in Hhd. simpl in Hhd. unfold LOGSIZE, MAXOPBLOCKS. lia.
      * by rewrite Hsb.
      * apply recovers_to_redo; [done|done|]. intros n Hn. rewrite Hredo, Hclean; [done|apply not_elem_of_nil].
    + rewrite <- Elh in *.
      destruct (commit_prefix (l_start s) (l_size s) (lh s) (view (l_dev s) (lbio s)) (disk (lbio s))
        Hnd Hhome Hfits Hsize (λ n, view_length _ _ _ _ n Hca) (λ n, c_disk _ _ _ _ Hca n) Hhd Hclean q Hq) as [Hwf [[Hne Hold]|Hnew]];
        [left; split; [done|]|right]; (apply recovers_to_redo; [done|by rewrite Hsb, Hsb'|by rewrite Hsb, Hsb']).
Qed.

(** ** The write-ahead discipline *)

(** From [s] to [s'] the blocks came to read as [v], with [bs] in the log
    header, the disk not written. *)
Record logged (s : logst) (v : contents) (bs : list Z) (s' : logst) : Prop := {
  lg_view m : view (l_dev s) (lbio s') m = v m;
  lg_lh : lh s' = bs;
  lg_kept : kept (lbio s) (lbio s');
  lg_frame : l_start s' = l_start s ∧ l_size s' = l_size s ∧ l_dev s' = l_dev s ∧
    l_outstanding s' = l_outstanding s ∧ l_committing s' = l_committing s;
}.

(** The blocks in the log with [n] written: absorbed if it is there. *)
Definition absorb (n : Z) (bs : list Z) : list Z := if decide (n ∈ bs) then bs else bs ++ [n].

Lemma absorb_set n bs : list_to_set (absorb n bs) = ({[n]} ∪ list_to_set bs : gset Z).
Proof. unfold absorb. destruct (decide (n ∈ bs)); [set_solver|]. rewrite list_to_set_app_L. set_solver. Qed.
Lemma absorb_NoDup n bs : NoDup bs → NoDup (absorb n bs).
Proof.
  intros H. unfold absorb. destruct (decide (n ∈ bs)); [done|]. apply list.NoDup_app. split; [done|].
  split; [|by apply NoDup_singleton]. intros x Hx ->%list_elem_of_singleton. done.
Qed.

(** A block that may be written in a transaction. *)
Definition home (s : logst) (n : Z) : Prop := block_nr n ∧ ¬ in_log (l_start s) (l_size s) n.
(** Room for one more block, as [log_write] asks. *)
Definition room (s : logst) : Prop := log_n s < LOGSIZE ∧ log_n s < l_size s - 1 ∧ 1 ≤ l_outstanding s.

Lemma log_write_spec H l s i n : linv H l s → hold (l_dev s) (lbio s) i n → home s n → room s →
  wp (log_write i) s (λ _ s', linv H l s' ∧ logged s (view (l_dev s) (lbio s)) (absorb n (lh s)) s' ∧
    ∀ j m, hold (l_dev s) (lbio s) j m → hold (l_dev s) (lbio s') j m).
Proof.
  intros [Hc Hnd Hho Hf Hs Hd] Hh [Hn1 Hn2] (Hr1 & Hr2 & Hr3). pose proof (ci_idle _ _ _ _ _ Hc) as Hidle. unfold log_write. unfold log_n in *.
  apply wp_bind, wp_log_acquire; [done|]. apply wp_bind, wp_gets, wp_bind, wp_gets. cbn [under lh l_size set_lbio].
  destruct (Z.geb_spec (Z.of_nat (length (lh s))) LOGSIZE); [lia|].
  destruct (Z.geb_spec (Z.of_nat (length (lh s))) (l_size s - 1)); [lia|]. simpl.
  apply wp_bind, wp_gets. simpl. destruct (Z.ltb_spec (l_outstanding s) 1); [lia|].
  pose proof Hh as (c & Hcc & Hcd & Hcn & _). apply wp_bind, wp_bio.
  eapply wp_get_buf; [done|]. intros b Hb. apply wp_bind, wp_gets. simpl.
  assert (b_blockno b = n) as -> by (by rewrite <- Hcn, <- Hb).
  pose proof (absorb_set n (lh s)) as Habs. pose proof (absorb_NoDup n _ Hnd) as Hnd'. unfold absorb in *.
  apply wp_bind. destruct (decide (n ∈ lh s)) as [Hin|Hni].
  - apply wp_ret, wp_log_release; [done|]. change (under [] _) with (under [] s). rewrite under_id by done. split_and!; [by split|by split|done].
  - apply wp_bind, wp_bio.
    eapply wp_mono; [eapply (bpin_under _ [log_lock]); [done|done|by rewrite elem_of_list_to_set|by apply not_elem_of_cons; split; [done|apply not_elem_of_nil]]|].
    intros _ t' (t & -> & [I V O M] & K). apply wp_modify, wp_log_release; [done|].
    change (under [] _) with (set_lh (lh s ++ [n]) (set_lbio (set_bheld [] t) s)). rewrite (set_bheld_id t) by apply I.
    split_and!; [|by split|exact O].
    split; simpl; [by rewrite Habs|done| | | |by destruct K as [-> _]].
    + intros b' [?| ->%list_elem_of_singleton]%elem_of_app; [auto|done].
    + rewrite length_app. simpl. lia.
    + rewrite length_app. simpl. lia.
Qed.

(** The way a block is written everywhere in fs.c. *)
Definition log_update (n : Z) (f : list byte → list byte) : M logst unit :=
  dv ← gets l_dev;
  i ← bio (bread dv n);
  bio (upd_buf i (λ b, bset_data (f (b_data b)) b));;
  log_write i;;
  bio (brelse i).

(** ** The cache seen through the log *)

(** A transaction in progress, with the blocks [H] locked. *)
Definition lok (H : gset Z) (s : logst) : Prop := ∃ l, linv H l s.
Definition lview (s : logst) : contents := view (l_dev s) (lbio s).
Definition lhold (s : logst) : nat → Z → Prop := hold (l_dev s) (lbio s).

Lemma logged_refl s : logged s (lview s) (lh s) s.
Proof. by split. Qed.
Lemma logged_trans s1 s2 s3 v2 v3 bs2 bs3 : logged s1 v2 bs2 s2 → logged s2 v3 bs3 s3 → logged s1 v3 bs3 s3.
Proof.
  intros [_ _ K1 (A1 & A2 & A3 & A4 & A5)] [V2 L2 K2 (B1 & B2 & B3 & B4 & B5)]. rewrite A3 in *.
  split; [done|done|by eapply kept_trans|]. split_and!; congruence.
Qed.
Lemma logged_view s v bs s' m : logged s v bs s' → lview s' m = v m.
Proof. intros [V _ _ (_ & _ & D & _)]. unfold lview. by rewrite D. Qed.
Lemma logged_ext s v v' bs s' : (∀ m, v m = v' m) → logged s v bs s' → logged s v' bs s'.
Proof. intros Hv [V ? ? ?]. split; [|done..]. intros m. by rewrite V. Qed.
Lemma logged_home s v bs s' n : logged s v bs s' → home s n → home s' n.
Proof. intros [_ _ _ (Ha & Hb & _)]. unfold home. by rewrite Ha, Hb. Qed.

Lemma lok_view_length H s n : lok H s → length (lview s n) = Z.to_nat BSIZE.
Proof. intros [l [Hc _ _ _ _ _]]. by eapply view_length, ci_cache. Qed.

(** From one state of the cache to the next, the log as it was. *)
Lemma lok_bio H H' l s t v : linv H l s → (∃ l', cinv (l_dev s) (list_to_set (lh s)) H' l' t) → kept (lbio s) t →
  (∀ m, view (l_dev s) t m = v m) → lok H' (set_lbio t s) ∧ logged s v (lh s) (set_lbio t s).
Proof.
  intros [Hc Hnd Hho Hf Hs Hd] [l' I] K V. split; [|by split]. exists l'. split; try done. simpl. by destruct K as [-> _].
Qed.

Definition spare (H : gset Z) (s : logst) : Prop := (length (lh s) + size H < nbuf)%nat.

Lemma size_lh (bs : list Z) (H : gset Z) : (size (list_to_set bs ∪ H : gset Z) ≤ length bs + size H)%nat.
Proof.
  induction bs as [|b bs IH]; simpl; [by rewrite union_empty_l_L|].
  rewrite <- union_assoc_L. destruct (decide (b ∈ (list_to_set bs ∪ H : gset Z))) as [Hin|Hni].
  - rewrite subseteq_union_1_L by set_solver. lia.
  - rewrite size_union by set_solver. rewrite size_singleton. lia.
Qed.

Section lops.
Context (H : gset Z) (s : logst) (Hok : lok H s).

Lemma lread_spec n (Q : nat → logst → Prop) : n ∉ H → spare H s →
  (∀ i s', lok ({[n]} ∪ H) s' → logged s (lview s) (lh s) s' → lhold s' i n →
    (∀ j m, lhold s j m → lhold s' j m) → Q i s') →
  wp (bio (bread (l_dev s) n)) s Q.
Proof using Hok.
  intros Hn Hsp HQ. destruct Hok as [l Hinv]. rewrite <- (set_lbio_id s) at 2. apply wp_bio.
  eapply wp_mono; [eapply bread_spec; [apply Hinv|done|right]|].
  { pose proof (size_lh (lh s) H). unfold spare in Hsp. lia. }
  intros i t [I Hh V K O _]. destruct (lok_bio H ({[n]} ∪ H) l s t (lview s) Hinv) as [Hok' Hlg]; [eauto|done|done|]. by apply HQ.
Qed.

Lemma lget_spec i n (Q : buf → logst → Prop) : lhold s i n →
  (∀ b, b_data b = lview s n → b_blockno b = n → b_dev b = l_dev s → Q b s) → wp (bio (get_buf i)) s Q.
Proof using Hok.
  intros Hh HQ. destruct Hok as [l Hinv]. rewrite <- (set_lbio_id s). apply wp_bio.
  pose proof Hh as (c & Hc & Hd & Hn & _). eapply wp_get_buf; [done|]. intros b Hb. rewrite set_lbio_id.
  apply HQ; [|by rewrite <- Hn, <- Hb|by rewrite <- Hd, <- Hb]. change (b_data b) with (b_data (core b)). rewrite Hb.
  eapply view_hold; [apply Hinv|done|done].
Qed.

Lemma lset_spec i n f (Q : unit → logst → Prop) : lhold s i n → length (f (lview s n)) = Z.to_nat BSIZE →
  (∀ s', lok H s' → logged s (vset n (f (lview s n)) (lview s)) (lh s) s' → (∀ j m, lhold s j m → lhold s' j m) → Q tt s') →
  wp (bio (upd_buf i (λ b, bset_data (f (b_data b)) b))) s Q.
Proof using Hok.
  intros Hh Hlen HQ. destruct Hok as [l Hinv]. rewrite <- (set_lbio_id s). apply wp_bio.
  eapply wp_mono; [eapply (set_data_spec _ _ _ _ _ i n f); [apply Hinv|done|done]|].
  intros [] t [[I V O _] K]. destruct (lok_bio H H l s t (vset n (f (lview s n)) (lview s)) Hinv) as [Hok' Hlg]; [eauto|done|done|]. by apply HQ.
Qed.

Lemma lwrite_spec i n (Q : unit → logst → Prop) : lhold s i n → home s n → room s →
  (∀ s', lok H s' → logged s (lview s) (absorb n (lh s)) s' → (∀ j m, lhold s j m → lhold s' j m) → Q tt s') →
  wp (log_write i) s Q.
Proof using Hok.
  intros Hh Hho Hr HQ. destruct Hok as [l Hinv]. eapply wp_mono; [by eapply log_write_spec|].
  intros [] s' (Hinv' & Hlg & Hk). apply HQ; [by exists l|done|]. unfold lhold. destruct Hlg as [_ _ _ (_ & _ & -> & _)]. done.
Qed.

Lemma lrelse_spec i n (Q : unit → logst → Prop) : lhold s i n → n ∈ lh s ∨ lview s n = disk (lbio s) n →
  (∀ s', lok (H ∖ {[n]}) s' → logged s (lview s) (lh s) s' → (∀ j m, m ≠ n → lhold s j m → lhold s' j m) → Q tt s') →
  wp (bio (brelse i)) s Q.
Proof using Hok.
  intros Hh Hc HQ. destruct Hok as [l Hinv]. rewrite <- (set_lbio_id s). apply wp_bio.
  eapply wp_mono; [eapply brelse_spec; [apply Hinv|done|by rewrite elem_of_list_to_set]|].
  intros [] t [I V K O]. destruct (lok_bio H (H ∖ {[n]}) l s t (lview s) Hinv) as [Hok' Hlg]; [eauto|done|done|]. by apply HQ.
Qed.

(** A block nobody holds, outside the transaction, is as on disk. *)
Lemma lview_clean n : n ∉ H → n ∉ lh s → lview s n = disk (lbio s) n.
Proof using Hok.
  intros HnH Hn. destruct Hok as [l Hinv]. eapply view_clean; [apply Hinv|by rewrite elem_of_list_to_set|done].
Qed.

End lops.

Lemma elem_of_absorb n m bs : m ∈ absorb n bs ↔ m = n ∨ m ∈ bs.
Proof. unfold absorb. destruct (decide (n ∈ bs)); set_solver. Qed.

Lemma log_update_spec s n f (Q : unit → logst → Prop) : lok ∅ s → home s n → room s → spare ∅ s →
  (∀ d, length d = Z.to_nat BSIZE → length (f d) = Z.to_nat BSIZE) →
  (∀ s', lok ∅ s' → logged s (vset n (f (lview s n)) (lview s)) (absorb n (lh s)) s' → Q tt s') →
  wp (log_update n f) s Q.
Proof.
  intros Hok Hho Hr Hsp Hf HQ. unfold log_update. apply wp_bind, wp_gets, wp_bind.
  apply (lread_spec ∅ s Hok n); [set_solver|done|]. intros i s1 K1 L1 H1 _. apply wp_bind.
  eapply (lset_spec _ s1 K1 i n f); [done|apply Hf; by eapply lok_view_length|]. intros s2 K2 L2 O2. apply wp_bind.
  pose proof (logged_trans _ _ _ _ _ _ _ L1 L2) as L12.
  rewrite (lg_lh _ _ _ _ L1), (logged_view _ _ _ _ _ L1) in L12.
  eapply (lwrite_spec _ s2 K2 i n); [by apply O2|by eapply logged_home|..].
  { unfold room, log_n in *. rewrite (lg_lh _ _ _ _ L12). destruct (lg_frame _ _ _ _ L12) as (_ & -> & _ & -> & _). done. }
  intros s3 K3 L3 O3. eapply (lrelse_spec _ s3 K3 i n); [by apply O3, O2|left; rewrite (lg_lh _ _ _ _ L3), elem_of_absorb; by left|].
  intros s4 K4 L4 _. apply HQ; [by replace ∅ with (({[n]} ∪ ∅) ∖ {[n]} : gset Z) by set_solver|].
  pose proof (logged_trans _ _ _ _ _ _ _ L12 (logged_trans _ _ _ _ _ _ _ L3 L4)) as L.
  rewrite (lg_lh _ _ _ _ L3), (lg_lh _ _ _ _ L12) in L. eapply logged_ext; [|exact L].
  intros m. rewrite (logged_view _ _ _ _ _ L3), (logged_view _ _ _ _ _ L12). unfold vset.
  destruct (decide (m = n)); [done|]. by rewrite (logged_view _ _ _ _ _ L1).
Qed.

(** The blocks [bs] written one after the other. *)
Fixpoint log_updates (bs : list Z) (f : Z → list byte → list byte) : M logst unit :=
  match bs with [] => mret () | n :: bs => log_update n (f n);; log_updates bs f end.

Lemma log_updates_spec f bs : (∀ n d, length d = Z.to_nat BSIZE → length (f n d) = Z.to_nat BSIZE) → ∀ s,
  lok ∅ s → NoDup (lh s ++ bs) → Forall (home s) bs → 1 ≤ l_outstanding s →
  log_n s + Z.of_nat (length bs) ≤ LOGSIZE → log_n s + Z.of_nat (length bs) < l_size s →
  wp (log_updates bs f) s (λ _ s', lok ∅ s' ∧
    logged s (λ m, if decide (m ∈ bs) then f m (lview s m) else lview s m) (lh s ++ bs) s').
Proof.
  intros Hf. induction bs as [|n bs IH]; intros s Hok Hnd Hho Ho H1 H2.
  { apply wp_ret. rewrite app_nil_r. split; [done|]. eapply logged_ext; [|apply logged_refl]. done. }
  simpl in H1, H2. unfold log_n in *. apply list.Forall_cons in Hho as [Hn Hho]. apply wp_bind.
  assert ((n ∉ lh s) ∧ (n ∉ bs)) as [Hnl Hnb].
  { apply list.NoDup_app in Hnd as (_ & Hd & Hnd). apply list.NoDup_cons in Hnd as [? _]. split; [|done]. intros Hin. apply (Hd _ Hin). set_solver. }
  apply log_update_spec; [done|done| | |by auto|].
  { unfold room, log_n. lia. }
  { unfold spare. rewrite size_empty. change nbuf with (Z.to_nat LOGSIZE). lia. }
  intros s1 K1 L1. assert (lh s1 = lh s ++ [n]) as Hl1 by (rewrite (lg_lh _ _ _ _ L1); unfold absorb; by rewrite decide_False).
  destruct (lg_frame _ _ _ _ L1) as (A1 & A2 & _ & A4 & _).
  eapply wp_mono; [apply IH; [done|..]|].
  - by rewrite Hl1, <- app_assoc.
  - eapply list.Forall_impl; [exact Hho|]. intros m. by eapply logged_home.
  - lia.
  - rewrite Hl1, length_app. simpl. lia.
  - rewrite Hl1, length_app. simpl. lia.
  - intros _ s2 [K2 L2]. split; [done|]. rewrite Hl1, <- app_assoc in L2. eapply logged_ext; [|eapply logged_trans; [exact L1|exact L2]].
    intros m. simpl. rewrite (logged_view _ _ _ _ m L1). unfold vset.
    destruct (decide (m = n)) as [->|]; [rewrite decide_False, decide_True by set_solver; done|].
    destruct (decide (m ∈ bs)); [rewrite decide_True by set_solver|rewrite decide_False by set_solver]; done.
Qed.

Lemma log_update_full s n f : lok ∅ s → (length (lh s) < nbuf)%nat → l_size s - 1 ≤ log_n s →
  (∀ d, length d = Z.to_nat BSIZE → length (f d) = Z.to_nat BSIZE) → log_update n f s = Panic "too big a transaction".
Proof.
  intros Hok Hsp Hfull Hf.
  destruct (wp_elim (bio (bread (l_dev s) n)) s (λ i s', lok ({[n]} ∪ ∅) s' ∧ logged s (lview s) (lh s) s' ∧ lhold s' i n))
    as (i & s1 & E1 & K1 & L1 & H1); [apply (lread_spec ∅ s Hok n); [set_solver|unfold spare; rewrite size_empty; lia|auto]|].
  destruct (wp_elim (bio (upd_buf i (λ b, bset_data (f (b_data b)) b))) s1 (λ _ s', lok ({[n]} ∪ ∅) s' ∧ logged s1 (vset n (f (lview s1 n)) (lview s1)) (lh s1) s'))
    as ([] & s2 & E2 & K2 & L2); [apply (lset_spec _ s1 K1 i n f); [done|apply Hf; by eapply lok_view_length|auto]|].
  destruct (lg_frame _ _ _ _ L1) as (_ & A1 & _), (lg_frame _ _ _ _ L2) as (_ & A2 & _).
  unfold log_update, gets, mbind, M_bind. rewrite E1, E2. clear E1 E2. unfold log_write, gets, mbind, M_bind, log_n.
  rewrite log_acquire_ok by (destruct K2 as [l K2]; apply (li_cache _ _ _ K2)). cbn [under lh l_size set_lbio]. rewrite (lg_lh _ _ _ _ L2), (lg_lh _ _ _ _ L1), A2, A1. unfold log_n in Hfull.
  destruct (Z.geb_spec (Z.of_nat (length (lh s))) (l_size s - 1)); [|lia]. by rewrite orb_true_r.
Qed.

Lemma begin_op_ok s : bheld (lbio s) = [] → l_committing s = false → log_n s + (l_outstanding s + 1) * MAXOPBLOCKS ≤ LOGSIZE →
  begin_op s = Ok tt (set_outstanding (l_outstanding s + 1) s).
Proof.
  intros Hs Hc Hn. destruct (wp_elim begin_op s (λ _ s', s' = set_outstanding (l_outstanding s + 1) s)) as ([] & s' & -> & ->); [|done].
  unfold begin_op. apply wp_bind, wp_log_acquire; [done|]. apply wp_bind, wp_gets. simpl. rewrite Hc. apply wp_bind, wp_gets, wp_bind, wp_gets.
  unfold log_n in *. simpl. destruct (Z.gtb_spec (Z.of_nat (length (lh s)) + (l_outstanding s + 1) * MAXOPBLOCKS) LOGSIZE); [lia|].
  apply wp_bind, wp_modify, wp_log_release; [done|]. change (under [] _) with (set_outstanding (l_outstanding s + 1) (under [] s)). by rewrite under_id.
Qed.

(** The reservation of [begin_op] is one block short of what [log_write]
    needs.  On a log of [LOGSIZE] blocks, as mkfs makes it, an idle log admits
    three operations, [MAXOPBLOCKS] blocks each.  Once they have written 29
    different blocks, the next write panics, though it is their thirtieth. *)
Theorem log_reservation_gap s bs n f : lok ∅ s → lh s = [] → l_outstanding s = 0 → l_committing s = false →
  l_size s = LOGSIZE → (∀ m d, length d = Z.to_nat BSIZE → length (f m d) = Z.to_nat BSIZE) →
  NoDup bs → Forall (home s) bs → (Z.of_nat (length bs) + 1 = 3 * MAXOPBLOCKS) →
  ∃ s3 s', (begin_op;; begin_op;; begin_op) s = Ok tt s3 ∧ log_updates bs f s3 = Ok tt s' ∧
    (∀ m, lview s' m = if decide (m ∈ bs) then f m (lview s m) else lview s m) ∧
    log_update n (f n) s' = Panic "too big a transaction".
Proof.
  intros Hok Hlh Ho Hc Hsz Hf Hnd Hho Hlen. set (s3 := set_outstanding 3 s). unfold LOGSIZE, MAXOPBLOCKS in *.
  assert ((begin_op;; begin_op;; begin_op) s = Ok tt s3) as E3.
  { assert (bheld (lbio s) = []) as Hidle by (destruct Hok as [l K]; apply (li_cache _ _ _ K)). unfold mbind, M_bind. assert (log_n s = 0) as Hn by (unfold log_n; by rewrite Hlh). unfold log_n in Hn.
    rewrite !begin_op_ok; simpl; rewrite ?Ho; try done; unfold log_n; simpl; rewrite Hn; done. }
  assert (lok ∅ s3) as K3 by (destruct Hok as [l I]; exists l; clear E3; destruct I; by split).
  assert (lh s3 = []) as Hlh3 by exact Hlh.
  destruct (wp_elim _ _ _ (log_updates_spec f bs Hf s3 K3 ltac:(by rewrite Hlh3) Hho ltac:(done)
    ltac:(unfold log_n; rewrite Hlh3; unfold LOGSIZE, MAXOPBLOCKS; simpl; lia)
    ltac:(unfold log_n; rewrite Hlh3; simpl; lia))) as ([] & s' & E & K & L).
  exists s3, s'. split; [exact E3|]. split; [exact E|]. clear E E3.
  pose proof (lg_frame _ _ _ _ L) as (_ & A & _). pose proof (lg_lh _ _ _ _ L) as HL. simpl in A, HL. rewrite Hlh in HL. simpl in HL.
  split; [intros m; apply (logged_view _ _ _ _ _ L)|]. apply log_update_full; [done| | |by intros d; apply Hf]; unfold log_n; rewrite HL.
  - change nbuf with 30%nat. lia.
  - lia.
Qed.

(** [log_write].  In a transaction with room, a block the caller holds and
    has changed joins the transaction: it is in the log header once however
    often it is written (absorption), no block reads differently, the disk is
    not touched, and the caller keeps its locks.  Without room, or outside of a
    transaction, it panics. *)
Theorem log_write_correct H s i n : lok H s → lhold s i n → home s n →
  (room s → ∃ s', log_write i s = Ok tt s' ∧ lok H s' ∧ lh s' = absorb n (lh s) ∧
     (∀ m, lview s' m = lview s m) ∧ kept (lbio s) (lbio s') ∧ ∀ j m, lhold s j m → lhold s' j m) ∧
  (LOGSIZE ≤ log_n s ∨ l_size s - 1 ≤ log_n s → log_write i s = Panic "too big a transaction") ∧
  (log_n s < LOGSIZE → log_n s < l_size s - 1 → l_outstanding s < 1 →
     log_write i s = Panic "log_write outside of trans").
Proof.
  intros Hok Hh Hho. assert (bheld (lbio s) = []) as Hidle by (destruct Hok as [l K]; apply (li_cache _ _ _ K)). split_and!.
  - intros Hr. destruct (wp_elim (log_write i) s (λ _ s', lok H s' ∧ logged s (lview s) (absorb n (lh s)) s' ∧
      ∀ j m, lhold s j m → lhold s' j m)) as ([] & s' & E & H'); [by apply (lwrite_spec H s Hok i n); auto|].
    destruct H' as (K & L & O). exists s'. split_and!; [done|done|apply L| |apply L|done]. intros m. by eapply logged_view.
  - intros Hfull. unfold log_write, gets, mbind, M_bind. rewrite log_acquire_ok by done. change (log_n (under _ s)) with (log_n s). simpl.
    destruct (Z.geb_spec (log_n s) LOGSIZE), (Z.geb_spec (log_n s) (l_size s - 1)); simpl; (done || lia).
  - intros H1 H2 H3. unfold log_write, gets, mbind, M_bind. rewrite log_acquire_ok by done. change (log_n (under _ s)) with (log_n s). simpl.
    destruct (Z.geb_spec (log_n s) LOGSIZE), (Z.geb_spec (log_n s) (l_size s - 1)); simpl; try lia.
    by destruct (Z.ltb_spec (l_outstanding s) 1); [|lia].
Qed.

(** ** A disk with an empty log *)

Definition demo_sb : superblock := mk_sb 0x10203040 2000 1954 200 30 2 32 45.
Definition demo_disk : contents := λ n, if n =? 2 then demo_block 0 else demo_block n.

Lemma demo_wf : wf_disk (sb_logstart demo_sb) (sb_nlog demo_sb) demo_disk.
Proof.
  split; [|vm_compute; discriminate|vm_compute; reflexivity|].
  - intros n. unfold demo_disk, demo_block. destruct (n =? 2); by rewrite length_replicate.
  - intros b Hb. vm_compute in Hb. by inversion Hb.
Qed.

(** One operation of a transaction in progress, with block 50 held. *)
Lemma demo_transaction d : length d = Z.to_nat BSIZE → ∃ s0 s1 s2,
  boot 1 demo_sb (fresh 7 demo_disk) = Ok tt s0 ∧ begin_op s0 = Ok tt s1 ∧ log_update 50 (λ _, d) s1 = Ok tt s2 ∧
  lok ∅ s2 ∧ lh s2 = [50] ∧ lview s2 50 = d ∧ l_outstanding s2 = 1 ∧ l_committing s2 = false ∧ l_dev s2 = 1 ∧
  l_start s2 = 2 ∧ l_size s2 = 30.
Proof.
  intros Hd. destruct (boot_spec 1 demo_sb 7 demo_disk ltac:(lia) demo_wf) as (s0 & E0 & [_ _ [l0 I0] (Hl & Ho & Hc & Hdv & Hst & Hsz)]).
  set (s1 := set_outstanding 1 s0).
  assert (begin_op s0 = Ok tt s1) as E1.
  { clear E0. rewrite begin_op_ok; [by rewrite Ho|apply (li_cache _ _ _ I0)|done|]. unfold log_n. by rewrite Hl, Ho. }
  assert (lok ∅ s1) as K1 by (exists l0; destruct I0; by split).
  destruct (wp_elim (log_update 50 (λ _, d)) s1 (λ _ s', lok ∅ s' ∧ logged s1 (vset 50 d (lview s1)) (absorb 50 (lh s1)) s'))
    as ([] & s2 & E2 & K2 & L2).
  { clear E0 E1. apply log_update_spec; [done|split; simpl; [done|rewrite Hst, Hsz; unfold in_log; simpl; lia]|..|done|by auto].
    - unfold room, log_n. simpl. rewrite Hl, Hsz. unfold LOGSIZE, MAXOPBLOCKS. simpl. lia.
    - unfold spare. simpl. rewrite Hl. vm_compute. lia. }
  exists s0, s1, s2. split; [exact E0|]. split; [exact E1|]. split; [exact E2|]. clear E0 E1 E2. split; [done|].
  pose proof (logged_view _ _ _ _ 50 L2) as HV. destruct L2 as [_ HL _ (A1 & A2 & A3 & A4 & A5)].
  simpl in *. split_and!; [by rewrite HL, Hl|done|congruence..].
Qed.

Lemma commit_atomic_witness : ∃ s s', end_op s = Ok tt s' ∧ lh s = [50] ∧ disk (lbio s') 50 = demo_block 9 ∧
  (recovers_to 1 demo_sb (disk (lbio s)) (disk (lbio s)) ∨ recovers_to 1 demo_sb (disk (lbio s)) (lview s)).
Proof.
  destruct (demo_transaction (demo_block 9)) as (s0 & s1 & s & E0 & E1 & E2 & [l I] & Hlh & Hv & Ho & Hc & Hd & Hst & Hsz);
    [unfold demo_block; apply length_replicate|]. clear E0 E1 E2.
  destruct (commit_atomic l s demo_sb I Ho Hc) as (s' & l' & ws & E & _ & _ & _ & Hres & Hq);
    [rewrite Hlh; vm_compute; lia|by rewrite Hd|by rewrite Hst|by rewrite Hsz|].
  exists s, s'. split; [exact E|]. clear E. split; [done|]. rewrite Hd, Hst, Hsz in *. split.
  - destruct (Hres 50) as [_ ->]; [unfold in_log; lia|]. unfold lview in Hv. by rewrite Hd in Hv.
  - destruct (Hq [] (prefix_nil _)) as [[_ Hr]|Hr]; [left|right]; unfold lview; [|rewrite Hd]; exact Hr.
Defined.

Lemma log_write_correct_witness : ∃ s i s', l_outstanding s = 1 ∧ log_write i s = Ok tt s' ∧ lh s' = [50].
Proof.
  destruct (demo_transaction (demo_block 9)) as (s0 & s1 & s & E0 & E1 & E2 & K & Hlh & Hv & Ho & Hc & Hd & Hst & Hsz);
    [unfold demo_block; apply length_replicate|]. clear E0 E1 E2.
  destruct (wp_elim (bio (bread (l_dev s) 50)) s (λ i s', lok ({[50]} ∪ ∅) s' ∧ logged s (lview s) (lh s) s' ∧ lhold s' i 50))
    as (i & s' & _ & K' & L' & H'); [apply (lread_spec ∅ s K 50); [set_solver|unfold spare; rewrite Hlh; vm_compute; lia|auto]|].
  pose proof L' as [_ HL _ (A1 & A2 & A3 & A4 & A5)].
  destruct (log_write_correct _ s' i 50 K' H') as [Hr _]; [split; [done|unfold in_log; rewrite A1, A2; lia]|].
  destruct Hr as (s'' & E & _ & Habs & _); [unfold room, log_n; rewrite HL, A2, A4, Hlh, Hsz, Ho; unfold LOGSIZE, MAXOPBLOCKS; simpl; lia|].
  exists s', i, s''. split; [congruence|]. split; [exact E|]. by rewrite Habs, HL, Hlh.
Defined.

Lemma log_reservation_gap_witness : ∃ s s', log_updates (seqZ 46 29) (λ _ d, d) s = Ok tt s' ∧
  log_update 75 (λ d, d) s' = Panic "too big a transaction".
Proof.
  destruct (boot_spec 1 demo_sb 7 demo_disk ltac:(lia) demo_wf) as (s0 & E0 & [_ _ I0 (Hl & Ho & Hc & Hdv & Hst & Hsz)]). clear E0.
  destruct (log_reservation_gap s0 (seqZ 46 29) 75 (λ _ d, d) I0 Hl Ho Hc Hsz ltac:(done) (NoDup_seqZ 46 29)) as (s & s' & _ & E & _ & P).
  - apply list.Forall_forall. intros b Hb%elem_of_seqZ. unfold home, in_log, block_nr. rewrite Hst, Hsz. simpl. lia.
  - rewrite length_seqZ. reflexivity.
  - exists s, s'. split; [exact E|exact P].
Defined.
