(* ===== verification/Fs.v ===== *)
(** * The file system, [kernel/fs.c]

    Blocks, inodes, file contents, directories and paths, over the log and the
    buffer cache.  A pointer to [itable.inode[i]] is the index [i].  Contents
    move through [readi] and [writei] one block at a time as in the source; the
    copy to or from the caller's memory is an argument, since the caller may be
    the kernel or a user process.  On-disk structures are encoded and decoded
    byte by byte. *)

From S2P Require Import Prelude Riscv Mem CString Bio Log.

(** ** On-disk format, [kernel/fs.h] *)

Definition ROOTINO : Z := 1.
Definition FSMAGIC : Z := 0x10203040.
Definition NDIRECT : Z := 12.
Definition NINDIRECT : Z := BSIZE / 4.
Definition MAXFILE : Z := NDIRECT + NINDIRECT.
Definition sizeof_dinode : Z := 64.
Definition IPB : Z := BSIZE / sizeof_dinode.
Definition IBLOCK (i : Z) (sb : superblock) : Z := i / IPB + sb_inodestart sb.
Definition BPB : Z := BSIZE * 8.
Definition BBLOCK (b : Z) (sb : superblock) : Z := b / BPB + sb_bmapstart sb.
Definition DIRSIZ : Z := 14.
Definition sizeof_dirent : Z := 16.

Definition T_DIR : Z := 1.
Definition T_FILE : Z := 2.
Definition T_DEVICE : Z := 3.

(** [struct dinode]. *)
Record dinode := mk_dinode {
  d_type : Z;
  d_major : Z;
  d_minor : Z;
  d_nlink : Z;
  d_size : Z;
  d_addrs : list Z;
}.

Definition half (d : list byte) (o : nat) : Z := le_decode (take 2 (drop o d)).

Definition decode_dinode (d : list byte) : dinode :=
  mk_dinode (i16 (half d 0)) (i16 (half d 2)) (i16 (half d 4)) (i16 (half d 6)) (word d 2)
    (map (λ k, word d (3 + k)) (seq 0 13)).
Definition encode_dinode (x : dinode) : list byte :=
  le_encode 2 (d_type x) ++ le_encode 2 (d_major x) ++ le_encode 2 (d_minor x) ++ le_encode 2 (d_nlink x) ++
  le_encode 4 (d_size x) ++ concat (map (le_encode 4) (d_addrs x)).

(** Bytes [o], [o+1], ... of a block replaced by [l]. *)
Definition splice (o : Z) (l d : list byte) : list byte :=
  take (Z.to_nat o) d ++ l ++ drop (Z.to_nat o + length l) d.
Definition slice (o n : Z) (d : list byte) : list byte := take (Z.to_nat n) (drop (Z.to_nat o) d).

(** The offset of an inode in its block. *)
Definition dinode_off (inum : Z) : Z := sizeof_dinode * (inum mod IPB).

(** [struct dirent]. *)
Record dirent := mk_dirent { de_inum : Z; de_name : list byte }.
Definition decode_dirent (d : list byte) : dirent := mk_dirent (half d 0) (take 14 (drop 2 d)).
Definition encode_dirent (x : dirent) : list byte := le_encode 2 (de_inum x) ++ de_name x.

(** ** State *)

(** [struct inode]; [i_lock] is the pid that holds its sleep lock. *)
Record inode := mk_inode {
  i_dev : Z;
  i_inum : Z;
  i_ref : Z;
  i_lock : option Z;
  i_valid : bool;
  i_d : dinode;
}.

Record fsst := mk_fsst {
  flog : logst;
  itable : list inode;
  fsb : superblock;
}.

Definition set_flog v (s : fsst) := mk_fsst v (itable s) (fsb s).
Definition set_itable v (s : fsst) := mk_fsst (flog s) v (fsb s).
Definition set_fsb v (s : fsst) := mk_fsst (flog s) (itable s) v.

Definition lg {A} (c : M logst A) : M fsst A := zoom flog set_flog c.
Definition blk {A} (c : M bst A) : M fsst A := lg (bio c).

Definition iset_id d n (i : inode) := mk_inode d n (i_ref i) (i_lock i) (i_valid i) (i_d i).
Definition iset_ref v (i : inode) := mk_inode (i_dev i) (i_inum i) v (i_lock i) (i_valid i) (i_d i).
Definition iset_lock v (i : inode) := mk_inode (i_dev i) (i_inum i) (i_ref i) v (i_valid i) (i_d i).
Definition iset_valid v (i : inode) := mk_inode (i_dev i) (i_inum i) (i_ref i) (i_lock i) v (i_d i).
Definition iset_d v (i : inode) := mk_inode (i_dev i) (i_inum i) (i_ref i) (i_lock i) (i_valid i) v.
Definition dset_type v (x : dinode) := mk_dinode v (d_major x) (d_minor x) (d_nlink x) (d_size x) (d_addrs x).
Definition dset_nlink v (x : dinode) := mk_dinode (d_type x) (d_major x) (d_minor x) v (d_size x) (d_addrs x).
Definition dset_dev a b (x : dinode) := mk_dinode (d_type x) a b (d_nlink x) (d_size x) (d_addrs x).
Definition dset_size v (x : dinode) := mk_dinode (d_type x) (d_major x) (d_minor x) (d_nlink x) v (d_addrs x).
Definition dset_addrs v (x : dinode) := mk_dinode (d_type x) (d_major x) (d_minor x) (d_nlink x) (d_size x) v.

Definition get_inode (i : nat) : M fsst inode := λ s,
  match itable s !! i with Some x => Ok x s | None => Fault (Z.of_nat i) end.
Definition upd_inode (i : nat) (f : inode → inode) : M fsst unit :=
  modify (λ s, set_itable (alter f i (itable s)) s).
Definition upd_d (i : nat) (f : dinode → dinode) : M fsst unit := upd_inode i (λ x, iset_d (f (i_d x)) x).

(** The data of a locked buffer, and changing it. *)
Definition bdata (i : nat) : M fsst (list byte) := b ← blk (get_buf i); mret (b_data b).
Definition set_bdata (i : nat) (f : list byte → list byte) : M fsst unit :=
  blk (upd_buf i (λ b, bset_data (f (b_data b)) b)).

(** ** Blocks *)

Definition readsb (dv : Z) : M fsst superblock :=
  bp ← blk (bread dv 1);
  d ← bdata bp;
  blk (brelse bp);;
  mret (mk_sb (word d 0) (word d 1) (word d 2) (word d 3) (word d 4) (word d 5) (word d 6) (word d 7)).

Definition fsinit (dv : Z) : M fsst unit :=
  sb ← readsb dv;
  modify (set_fsb sb);;
  if negb (sb_magic sb =? FSMAGIC) then panic "invalid file system"
  else lg (initlog dv sb).

Definition bzero (dv bno : Z) : M fsst unit :=
  bp ← blk (bread dv bno);
  set_bdata bp (λ _, replicate (Z.to_nat BSIZE) x00);;
  lg (log_write bp);;
  blk (brelse bp).

(** The inner loop of [balloc]: the first clear bit of [d] from [bi] on, among
    [n]. *)
Fixpoint balloc_scan (n : nat) (bi : Z) (d : list byte) : option Z :=
  match n with
  | O => None
  | S n =>
      let m := Z.shiftl 1 (bi mod 8) in
      if Z.land (Z_of_byte (nth (Z.to_nat (bi / 8)) d x00)) m =? 0 then Some bi
      else balloc_scan n (bi + 1) d
  end.

Definition set_bit (bi : Z) (d : list byte) : list byte :=
  alter (λ x, byte_of_Z (Z.lor (Z_of_byte x) (Z.shiftl 1 (bi mod 8)))) (Z.to_nat (bi / 8)) d.
Definition clear_bit (bi : Z) (d : list byte) : list byte :=
  alter (λ x, byte_of_Z (Z.land (Z_of_byte x) (Z.lnot (Z.shiftl 1 (bi mod 8))))) (Z.to_nat (bi / 8)) d.

Fixpoint balloc_loop (fuel : nat) (dv b : Z) : M fsst Z :=
  match fuel with
  | O => no_fuel
  | S fuel =>
      sb ← gets fsb;
      if b <? sb_size sb then
        bp ← blk (bread dv (BBLOCK b sb));
        d ← bdata bp;
        match balloc_scan (Z.to_nat (Z.min BPB (sb_size sb - b))) 0 d with
        | Some bi =>
            set_bdata bp (set_bit bi);;
            lg (log_write bp);;
            blk (brelse bp);;
            bzero dv (b + bi);;
            mret (b + bi)
        | None => blk (brelse bp);; balloc_loop fuel dv (b + BPB)
        end
      else mret 0
  end.
Definition balloc (dv : Z) : M fsst Z :=
  sb ← gets fsb;
  balloc_loop (S (Z.to_nat ((sb_size sb + BPB - 1) / BPB))) dv 0.

Definition bfree (dv b : Z) : M fsst unit :=
  sb ← gets fsb;
  bp ← blk (bread dv (BBLOCK b sb));
  d ← bdata bp;
  let bi := b mod BPB in
  if Z.land (Z_of_byte (nth (Z.to_nat (bi / 8)) d x00)) (Z.shiftl 1 (bi mod 8)) =? 0 then panic "freeing free block"
  else
    set_bdata bp (clear_bit bi);;
    lg (log_write bp);;
    blk (brelse bp).

(** ** Inodes *)

(** [&itable.lock]. *)
Definition itable_lock : Z := 12.

(** [iget]: the scan remembers the first unused entry. *)
Fixpoint iget_scan (l : list inode) (i : nat) (dv inum : Z) (empty : option nat) : option nat * bool :=
  match l with
  | [] => (empty, false)
  | x :: l =>
      if (i_ref x >? 0) && (i_dev x =? dv) && (i_inum x =? inum) then (Some i, true)
      else iget_scan l (S i) dv inum
             (match empty with None => if i_ref x =? 0 then Some i else None | _ => empty end)
  end.

Definition iget (dv inum : Z) : M fsst nat :=
  blk (slock itable_lock);;
  l ← gets itable;
  match iget_scan l 0 dv inum None with
  | (Some i, true) => upd_inode i (λ x, iset_ref (i_ref x + 1) x);; blk (sunlock itable_lock);; mret i
  | (None, _) => panic "iget: no inodes"
  | (Some i, false) =>
      upd_inode i (λ x, iset_valid false (iset_ref 1 (iset_id dv inum x)));;
      blk (sunlock itable_lock);;
      mret i
  end.

Fixpoint ialloc_loop (n : nat) (inum : Z) (dv type : Z) : M fsst (option nat) :=
  match n with
  | O => mret None
  | S n =>
      sb ← gets fsb;
      bp ← blk (bread dv (IBLOCK inum sb));
      d ← bdata bp;
      if d_type (decode_dinode (drop (Z.to_nat (dinode_off inum)) d)) =? 0 then
        set_bdata bp (splice (dinode_off inum)
          (encode_dinode (mk_dinode type 0 0 0 0 (replicate 13 0))));;
        lg (log_write bp);;
        blk (brelse bp);;
        i ← iget dv inum; mret (Some i)
      else blk (brelse bp);; ialloc_loop n (inum + 1) dv type
  end.
Definition ialloc (dv type : Z) : M fsst (option nat) :=
  sb ← gets fsb; ialloc_loop (Z.to_nat (sb_ninodes sb - 1)) 1 dv type.

Definition iupdate (i : nat) : M fsst unit :=
  x ← get_inode i;
  sb ← gets fsb;
  bp ← blk (bread (i_dev x) (IBLOCK (i_inum x) sb));
  set_bdata bp (splice (dinode_off (i_inum x)) (encode_dinode (i_d x)));;
  lg (log_write bp);;
  blk (brelse bp).

Definition idup (i : nat) : M fsst nat :=
  blk (slock itable_lock);;
  upd_inode i (λ x, iset_ref (i_ref x + 1) x);;
  blk (sunlock itable_lock);;
  mret i.

(** The sleep lock of an inode: [acquiresleep], [holdingsleep], [releasesleep],
    as for buffers. *)
Definition chan_inode (i : nat) : Z := 3000 + Z.of_nat i.
Definition inode_acquire (i : nat) : M fsst unit :=
  blk (slock (chan_inode i));;
  x ← get_inode i;
  match i_lock x with
  | Some _ => sleep_on (chan_inode i)
  | None => p ← blk (gets me); upd_inode i (iset_lock (Some p));; blk (sunlock (chan_inode i))
  end.
Definition inode_holding (i : nat) : M fsst bool :=
  blk (slock (chan_inode i));;
  x ← get_inode i;
  p ← blk (gets me);
  blk (sunlock (chan_inode i));;
  mret (bool_decide (i_lock x = Some p)).
Definition inode_release (i : nat) : M fsst unit :=
  blk (slock (chan_inode i));;
  upd_inode i (iset_lock None);;
  blk (notify (chan_inode i));;
  blk (sunlock (chan_inode i)).

Definition ilock (i : nat) : M fsst unit :=
  x ← get_inode i;
  if i_ref x <? 1 then panic "ilock"
  else
    inode_acquire i;;
    if i_valid x then mret ()
    else
      sb ← gets fsb;
      bp ← blk (bread (i_dev x) (IBLOCK (i_inum x) sb));
      d ← bdata bp;
      upd_inode i (iset_d (decode_dinode (drop (Z.to_nat (dinode_off (i_inum x))) d)));;
      blk (brelse bp);;
      upd_inode i (iset_valid true);;
      x ← get_inode i;
      if d_type (i_d x) =? 0 then panic "ilock: no type" else mret ().

Definition iunlock (i : nat) : M fsst unit :=
  x ← get_inode i;
  h ← inode_holding i;
  if negb h || (i_ref x <? 1) then panic "iunlock" else inode_release i.

(** ** Contents *)

Definition bmap (i : nat) (bn : Z) : M fsst Z :=
  x ← get_inode i;
  if bn <? NDIRECT then
    let addr := nth (Z.to_nat bn) (d_addrs (i_d x)) 0 in
    if addr =? 0 then
      addr ← balloc (i_dev x);
      if addr =? 0 then mret 0
      else upd_d i (λ x, dset_addrs (<[Z.to_nat bn := addr]> (d_addrs x)) x);; mret addr
    else mret addr
  else
    let bn := bn - NDIRECT in
    if bn <? NINDIRECT then
      let ind := nth 12 (d_addrs (i_d x)) 0 in
      ind ← (if ind =? 0 then
               addr ← balloc (i_dev x);
               (if addr =? 0 then mret () else upd_d i (λ x, dset_addrs (<[12%nat := addr]> (d_addrs x)) x));;
               mret addr
             else mret ind);
      if ind =? 0 then mret 0
      else
        bp ← blk (bread (i_dev x) ind);
        d ← bdata bp;
        let addr := word d (Z.to_nat bn) in
        addr ← (if addr =? 0 then
                  addr ← balloc (i_dev x);
                  (if addr =? 0 then mret ()
                   else set_bdata bp (put_word (Z.to_nat bn) addr);; lg (log_write bp));;
                  mret addr
                else mret addr);
        blk (brelse bp);;
        mret addr
    else panic "bmap: out of range".

Fixpoint itrunc_direct (n k : nat) (i : nat) : M fsst unit :=
  match n with
  | O => mret ()
  | S n =>
      x ← get_inode i;
      (if nth k (d_addrs (i_d x)) 0 =? 0 then mret ()
       else
         bfree (i_dev x) (nth k (d_addrs (i_d x)) 0);;
         upd_d i (λ x, dset_addrs (<[k := 0]> (d_addrs x)) x));;
      itrunc_direct n (S k) i
  end.
Fixpoint itrunc_indirect (l : list Z) (dv : Z) : M fsst unit :=
  match l with
  | [] => mret ()
  | a :: l => (if a =? 0 then mret () else bfree dv a);; itrunc_indirect l dv
  end.
Definition itrunc (i : nat) : M fsst unit :=
  itrunc_direct 12 0 i;;
  x ← get_inode i;
  (if nth 12 (d_addrs (i_d x)) 0 =? 0 then mret ()
   else
     bp ← blk (bread (i_dev x) (nth 12 (d_addrs (i_d x)) 0));
     d ← bdata bp;
     itrunc_indirect (map (word d) (seq 0 (Z.to_nat NINDIRECT))) (i_dev x);;
     blk (brelse bp);;
     bfree (i_dev x) (nth 12 (d_addrs (i_d x)) 0);;
     upd_d i (λ x, dset_addrs (<[12%nat := 0]> (d_addrs x)) x));;
  upd_d i (dset_size 0);;
  iupdate i.

(** With the last reference to an inode without links, the inode goes too.  The
    sleep lock is taken under [itable.lock], where it has to be free. *)
Definition iput (i : nat) : M fsst unit :=
  blk (slock itable_lock);;
  x ← get_inode i;
  (if (i_ref x =? 1) && i_valid x && (d_nlink (i_d x) =? 0) then
     inode_acquire i;;
     blk (sunlock itable_lock);;
     itrunc i;;
     upd_d i (dset_type 0);;
     iupdate i;;
     upd_inode i (iset_valid false);;
     inode_release i;;
     blk (slock itable_lock)
   else mret ());;
  upd_inode i (λ x, iset_ref (i_ref x - 1) x);;
  blk (sunlock itable_lock).

Definition iunlockput (i : nat) : M fsst unit := iunlock i;; iput i.

(** [struct stat]. *)
Record stat := mk_stat { st_dev : Z; st_ino : Z; st_type : Z; st_nlink : Z; st_size : Z }.
Definition stati (i : nat) : M fsst stat :=
  x ← get_inode i;
  mret (mk_stat (i_dev x) (i_inum x) (d_type (i_d x)) (d_nlink (i_d x)) (d_size (i_d x))).

Section rw.
Context {S : Type} (up : ∀ A, M fsst A → M S A).
Arguments up {A}.

(** The loop of [readi]; [cpy] is [either_copyout].  Returns the count and the
    bytes given to [cpy]. *)
Fixpoint readi_loop (fuel : nat) (cpy : Z → list byte → M S Z) (i : nat) (dst off n tot : Z) (acc : list byte)
    : M S (Z * list byte) :=
  match fuel with
  | O => no_fuel
  | Datatypes.S fuel =>
      if tot <? n then
        addr ← up (bmap i (off / BSIZE));
        if addr =? 0 then mret (tot, acc)
        else
          x ← up (get_inode i);
          bp ← up (blk (bread (i_dev x) addr));
          d ← up (bdata bp);
          let m := Z.min (n - tot) (BSIZE - off mod BSIZE) in
          let bs := slice (off mod BSIZE) m d in
          r ← cpy dst bs;
          up (blk (brelse bp));;
          if r =? -1 then mret (-1, acc)
          else readi_loop fuel cpy i (dst + m) (off + m) n (tot + m) (acc ++ bs)
      else mret (tot, acc)
  end.

Definition readi (cpy : Z → list byte → M S Z) (i : nat) (dst off n : Z) : M S (Z * list byte) :=
  x ← up (get_inode i);
  let size := d_size (i_d x) in
  if (off >? size) || (u32 (off + n) <? off) then mret (0, [])
  else
    let n := if off + n >? size then size - off else n in
    readi_loop (Z.to_nat (n / BSIZE + 3)) cpy i dst off n 0 [].

(** The loop of [writei]; [cpy] is [either_copyin], whose bytes go into the
    buffer even when it fails.  Returns the count and the final offset. *)
Fixpoint writei_loop (fuel : nat) (cpy : Z → Z → M S (Z * list byte)) (i : nat) (src off n tot : Z) : M S (Z * Z) :=
  match fuel with
  | O => no_fuel
  | Datatypes.S fuel =>
      if tot <? n then
        addr ← up (bmap i (off / BSIZE));
        if addr =? 0 then mret (tot, off)
        else
          x ← up (get_inode i);
          bp ← up (blk (bread (i_dev x) addr));
          let m := Z.min (n - tot) (BSIZE - off mod BSIZE) in
          '(r, bs) ← cpy src m;
          up (set_bdata bp (splice (off mod BSIZE) bs));;
          if r =? -1 then up (blk (brelse bp));; mret (tot, off)
          else
            up (lg (log_write bp));;
            up (blk (brelse bp));;
            writei_loop fuel cpy i (src + m) (off + m) n (tot + m)
      else mret (tot, off)
  end.

Definition writei (cpy : Z → Z → M S (Z * list byte)) (i : nat) (src off n : Z) : M S Z :=
  x ← up (get_inode i);
  let size := d_size (i_d x) in
  if (off >? size) || (u32 (off + n) <? off) then mret (-1)
  else if u32 (off + n) >? MAXFILE * BSIZE then mret (-1)
  else
    '(tot, off') ← writei_loop (Z.to_nat (n / BSIZE + 3)) cpy i src off n 0;
    (if off' >? size then up (upd_d i (dset_size off')) else mret ());;
    up (iupdate i);;
    mret tot.

End rw.

(** Reading into and writing from a kernel buffer. *)
Definition readi_kernel (i : nat) (off n : Z) : M fsst (Z * list byte) :=
  readi (λ A c, c) (λ _ _, mret 0) i 0 off n.
Definition writei_kernel (i : nat) (src : list byte) (off : Z) : M fsst Z :=
  writei (λ A c, c) (λ o m, mret (0, slice o m src)) i 0 off (Z.of_nat (length src)).

(** ** Directories *)

Definition namecmp (s t : list byte) : Z := strncmp (Z.to_nat DIRSIZ) (ptr s) (ptr t).

(** The entry found: its inode and its offset. *)
Fixpoint dirlookup_loop (fuel : nat) (dp : nat) (nm : list byte) (off : Z) : M fsst (option (nat * Z)) :=
  match fuel with
  | O => no_fuel
  | S fuel =>
      x ← get_inode dp;
      if off <? d_size (i_d x) then
        '(r, bs) ← readi_kernel dp off sizeof_dirent;
        if negb (r =? sizeof_dirent) then panic "dirlookup read"
        else
          let de := decode_dirent bs in
          if de_inum de =? 0 then dirlookup_loop fuel dp nm (off + sizeof_dirent)
          else if namecmp nm (de_name de) =? 0 then
            ip ← iget (i_dev x) (de_inum de); mret (Some (ip, off))
          else dirlookup_loop fuel dp nm (off + sizeof_dirent)
      else mret None
  end.
Definition dirlookup (dp : nat) (nm : list byte) : M fsst (option (nat * Z)) :=
  x ← get_inode dp;
  if negb (d_type (i_d x) =? T_DIR) then panic "dirlookup not DIR"
  else dirlookup_loop (S (Z.to_nat (d_size (i_d x) / sizeof_dirent + 1))) dp nm 0.

(** The offset of the first unused entry, or of the end. *)
Fixpoint dirlink_loop (fuel : nat) (dp : nat) (off : Z) : M fsst Z :=
  match fuel with
  | O => no_fuel
  | S fuel =>
      x ← get_inode dp;
      if off <? d_size (i_d x) then
        '(r, bs) ← readi_kernel dp off sizeof_dirent;
        if negb (r =? sizeof_dirent) then panic "dirlink read"
        else if de_inum (decode_dirent bs) =? 0 then mret off
        else dirlink_loop fuel dp (off + sizeof_dirent)
      else mret off
  end.

Definition dirlink (dp : nat) (nm : list byte) (inum : Z) : M fsst Z :=
  r ← dirlookup dp nm;
  match r with
  | Some (ip, _) => iput ip;; mret (-1)
  | None =>
      x ← get_inode dp;
      off ← dirlink_loop (S (Z.to_nat (d_size (i_d x) / sizeof_dirent + 1))) dp 0;
      r ← writei_kernel dp (encode_dirent (mk_dirent inum (strncpy (Z.to_nat DIRSIZ) (ptr nm)))) off;
      if negb (r =? sizeof_dirent) then mret (-1) else mret 0
  end.

(** ** Paths *)

Definition slash : byte := x2f.

Fixpoint skip_slashes (path : list byte) : list byte :=
  match path with
  | c :: rest => if decide (c = slash) then skip_slashes rest else path
  | [] => []
  end.
(** The characters up to the next slash or the end, and what follows. *)
Fixpoint take_elem (path : list byte) : list byte * list byte :=
  match path with
  | c :: rest =>
      if decide (c = slash ∨ c = x00) then ([], path)
      else let '(e, r) := take_elem rest in (c :: e, r)
  | [] => ([], [])
  end.

(** The element copied into [name], which keeps its other bytes, and the path
    after it; a path ends at a NUL. *)
Definition skipelem (path name : list byte) : option (list byte * list byte) :=
  let path := skip_slashes path in
  match path with
  | [] => None
  | c :: _ =>
      if decide (c = x00) then None
      else
        let '(e, rest) := take_elem path in
        let name :=
          if Z.of_nat (length e) >=? DIRSIZ then take (Z.to_nat DIRSIZ) e
          else e ++ [x00] ++ drop (S (length e)) name in
        Some (name, skip_slashes rest)
  end.

Definition at_end (path : list byte) : bool := bool_decide (ptr path 0%nat = x00).

(** The loop of [namex], with [ip] referenced. *)
Fixpoint namex_loop (fuel : nat) (ip : nat) (path : list byte) (parent : bool) (name : list byte)
    : M fsst (option nat * list byte) :=
  match fuel with
  | O => no_fuel
  | S fuel =>
      match skipelem path name with
      | None => if parent then iput ip;; mret (None, name) else mret (Some ip, name)
      | Some (name, path) =>
          ilock ip;;
          x ← get_inode ip;
          if negb (d_type (i_d x) =? T_DIR) then iunlockput ip;; mret (None, name)
          else if parent && at_end path then iunlock ip;; mret (Some ip, name)
          else
            next ← dirlookup ip name;
            match next with
            | None => iunlockput ip;; mret (None, name)
            | Some (next, _) => iunlockput ip;; namex_loop fuel next path parent name
            end
      end
  end.

(** [cwd] is the current directory of the process.  [name] starts as zeros here;
    the source's is an uninitialized array, whose old bytes [skipelem] hides
    behind a NUL. *)
Definition namex (cwd : nat) (path : list byte) (parent : bool) : M fsst (option nat * list byte) :=
  ip ← (if decide (ptr path 0%nat = slash) then iget ROOTDEV ROOTINO else idup cwd);
  namex_loop (S (length path)) ip path parent (replicate 14 x00).

Definition namei (cwd : nat) (path : list byte) : M fsst (option nat) :=
  '(r, _) ← namex cwd path false; mret r.
Definition nameiparent (cwd : nat) (path : list byte) : M fsst (option nat * list byte) := namex cwd path true.
