(* ===== verification/FsSpec.v ===== *)
(** * The file system, correct

    The theory of [Fs]: the block allocator and its bitmap, inodes and their
    blocks, file contents, directories and paths.  Everything is stated on what
    blocks read as inside a transaction ([fview]), the invariant being that of
    the log and of the buffer cache below it ([fok]). *)

From S2P Require Import Prelude Riscv Mem CString Bio Log BioSpec LogSpec Fs.

(** ** Blocks under the inode layer *)

Definition fok (H : gset Z) (s : fsst) : Prop := lok H (flog s).
Definition fview (s : fsst) : contents := lview (flog s).
Definition fhold (s : fsst) : nat → Z → Prop := lhold (flog s).
Definition fdev (s : fsst) : Z := l_dev (flog s).

(** The state after work on blocks: they read as [v], the log has [bs]. *)
Record fstep (s : fsst) (v : contents) (bs : list Z) (s' : fsst) : Prop := {
  fs_log : logged (flog s) v bs (flog s');
  fs_itable : itable s' = itable s;
  fs_sb : fsb s' = fsb s;
}.

Lemma fstep_refl s : fstep s (fview s) (lh (flog s)) s.
Proof. split; [apply logged_refl|done|done]. Qed.
Lemma fstep_trans s1 s2 s3 v2 v3 bs2 bs3 : fstep s1 v2 bs2 s2 → fstep s2 v3 bs3 s3 → fstep s1 v3 bs3 s3.
Proof. intros [L1 I1 S1] [L2 I2 S2]. split; [by eapply logged_trans|congruence..]. Qed.
Lemma fstep_ext s v v' bs s' : (∀ m, v m = v' m) → fstep s v bs s' → fstep s v' bs s'.
Proof. intros Hv [L ? ?]. split; [by eapply logged_ext|done..]. Qed.
Lemma fstep_view s v bs s' m : fstep s v bs s' → fview s' m = v m.
Proof. intros [L _ _]. by eapply logged_view. Qed.
Lemma fstep_lh s v bs s' : fstep s v bs s' → lh (flog s') = bs.
Proof. intros [L _ _]. apply L. Qed.
Lemma fstep_dev s v bs s' : fstep s v bs s' → fdev s' = fdev s.
Proof. intros [L _ _]. apply L. Qed.

(** [fhome s n]: block [n] may be written in a transaction. *)
Definition fhome (s : fsst) (n : Z) : Prop := home (flog s) n.
Lemma fstep_home s v bs s' n : fstep s v bs s' → fhome s n → fhome s' n.
Proof. intros [L _ _]. by eapply logged_home. Qed.

(** A transaction with room for [k] more blocks. *)
Definition froom (k : Z) (s : fsst) : Prop :=
  log_n (flog s) + k < LOGSIZE ∧ log_n (flog s) + k < l_size (flog s) ∧ 1 ≤ l_outstanding (flog s).
Definition fspare (H : gset Z) (s : fsst) : Prop := spare H (flog s).

Lemma length_absorb n bs : (length (absorb n bs) ≤ S (length bs))%nat.
Proof. unfold absorb. destruct (decide (n ∈ bs)); [lia|]. rewrite length_app. simpl. lia. Qed.

Lemma froom_step k j s v bs s' : fstep s v bs s' → froom k s → Z.of_nat (length bs) + j ≤ log_n (flog s) + k → froom j s'.
Proof.
  intros [[_ L _ (A1 & A2 & A3 & A4 & A5)] _ _] (H1 & H2 & H3) Hj. unfold froom, log_n in *. rewrite L, A2, A4. lia.
Qed.
Lemma froom_le k j s : froom k s → j ≤ k → froom j s.
Proof. unfold froom. lia. Qed.
Lemma froom_spare H k s : froom k s → Z.of_nat (size H) ≤ k → fspare H s.
Proof. intros (H1 & _) Hk. unfold fspare, spare, log_n in *. change nbuf with (Z.to_nat LOGSIZE). lia. Qed.

Lemma set_flog_step s t v bs : logged (flog s) v bs t → fstep s v bs (set_flog t s).
Proof. by split. Qed.

(** The locks the caller holds stay. *)
Definition fkeep (s s' : fsst) : Prop := ∀ j m, fhold s j m → fhold s' j m.
Lemma fkeep_trans s1 s2 s3 : fkeep s1 s2 → fkeep s2 s3 → fkeep s1 s3.
Proof. unfold fkeep. auto. Qed.
Lemma fhold_in H s j m : fok H s → fhold s j m → m ∈ H.
Proof. intros [l [Hc _ _ _ _ _]]. eapply hold_in, ci_cache, Hc. Qed.

(** Block [n], not among the blocks [H] held, was read into buffer [i]. *)
Record reading (H : gset Z) (s : fsst) (n : Z) (i : nat) (s1 : fsst) : Prop := {
  re_ok : fok ({[n]} ∪ H) s1;
  re_new : n ∉ H;
  re_hold : fhold s1 i n;
  re_step : fstep s (fview s) (lh (flog s)) s1;
  re_keep : fkeep s s1;
}.

Section blocks.
Context (H : gset Z) (s : fsst) (Hok : fok H s).

Lemma f_bread n (Q : nat → fsst → Prop) : n ∉ H → fspare H s → (∀ i s', reading H s n i s' → Q i s') →
  wp (blk (bread (fdev s) n)) s Q.
Proof using Hok.
  intros Hn Hsp HQ. apply (wp_zoom flog set_flog). apply (lread_spec H _ Hok n); [done|done|]. intros i t K L Hh O.
  apply HQ. split; [done|done|done|by apply set_flog_step|done].
Qed.

Lemma f_set i n f (Q : unit → fsst → Prop) : fhold s i n → length (f (fview s n)) = Z.to_nat BSIZE →
  (∀ s', fok H s' → fstep s (vset n (f (fview s n)) (fview s)) (lh (flog s)) s' → fkeep s s' → Q tt s') →
  wp (set_bdata i f) s Q.
Proof using Hok.
  intros Hh Hlen HQ. apply (wp_zoom flog set_flog). apply (lset_spec H _ Hok i n f); [done|done|]. intros t K L O.
  apply HQ; [done|by apply set_flog_step|done].
Qed.

Lemma f_log_write i n (Q : unit → fsst → Prop) : fhold s i n → fhome s n → froom 1 s →
  (∀ s', fok H s' → fstep s (fview s) (absorb n (lh (flog s))) s' → fkeep s s' → Q tt s') →
  wp (lg (log_write i)) s Q.
Proof using Hok.
  intros Hh Hho (H1 & H2 & H3) HQ. apply (wp_zoom flog set_flog).
  apply (lwrite_spec H _ Hok i n); [done|done|unfold room; lia|]. intros t K L O.
  apply HQ; [done|by apply set_flog_step|done].
Qed.

Lemma f_brelse i n (Q : unit → fsst → Prop) : fhold s i n → n ∈ lh (flog s) ∨ fview s n = disk (lbio (flog s)) n →
  (∀ s', fok (H ∖ {[n]}) s' → fstep s (fview s) (lh (flog s)) s' → (∀ j m, m ≠ n → fhold s j m → fhold s' j m) → Q tt s') →
  wp (blk (brelse i)) s Q.
Proof using Hok.
  intros Hh Hc HQ. apply (wp_zoom flog set_flog). apply (lrelse_spec H _ Hok i n); [done|done|]. intros t K L O.
  apply HQ; [done|by apply set_flog_step|done].
Qed.

Lemma f_bdata i n (Q : list byte → fsst → Prop) : fhold s i n → Q (fview s n) s → wp (bdata i) s Q.
Proof using Hok.
  intros Hh HQ. unfold bdata. apply wp_bind, (wp_zoom flog set_flog). apply (lget_spec H _ Hok i n); [done|].
  intros b Hd _ _. apply wp_ret. rewrite Hd. by destruct s.
Qed.

End blocks.

Section reading.
Context (H : gset Z) (s : fsst) (n : Z) (i : nat) (s1 : fsst) (Hok : fok H s) (R : reading H s n i s1).

Lemma r_bdata (Q : list byte → fsst → Prop) : Q (fview s n) s1 → wp (bdata i) s1 Q.
Proof using R.
  intros HQ. eapply f_bdata; [apply R|apply R|]. by rewrite (fstep_view _ _ _ _ _ (re_step _ _ _ _ _ R)).
Qed.

Lemma unhold : ({[n]} ∪ H) ∖ {[n]} = H.
Proof using R. pose proof (re_new _ _ _ _ _ R). clear R Hok. set_solver. Qed.

Lemma reading_other j m : fhold s j m → m ≠ n.
Proof using Hok R. intros Hj ->. apply (re_new _ _ _ _ _ R). by eapply fhold_in. Qed.

(** Giving the block back as it was. *)
Lemma r_brelse (Q : unit → fsst → Prop) :
  (∀ s', fok H s' → fstep s (fview s) (lh (flog s)) s' → fkeep s s' → Q tt s') → wp (blk (brelse i)) s1 Q.
Proof using Hok R.
  intros HQ. pose proof R as [K1 Hn H1 S1 O1]. apply (f_brelse _ s1 K1 i n); [done| |].
  - rewrite (fstep_lh _ _ _ _ S1), (fstep_view _ _ _ _ _ S1). destruct (decide (n ∈ lh (flog s))); [by left|right].
    unfold fview. rewrite (lview_clean H (flog s) Hok n) by done. by destruct S1 as [[_ _ [-> _] _] _ _].
  - intros s2 K2 S2 O2. rewrite unhold in K2. apply HQ; [done| |intros j m Hj; apply O2; [by eapply reading_other|by apply O1]].
    pose proof (fstep_trans _ _ _ _ _ _ _ S1 S2) as S. rewrite (fstep_lh _ _ _ _ S1) in S.
    eapply fstep_ext; [|exact S]. intros m. by rewrite (fstep_view _ _ _ _ _ S1).
Qed.

(** The end of every change to a block: log it and give it back. *)
Lemma r_write f (Q : unit → fsst → Prop) : fhome s n → froom 1 s → length (f (fview s n)) = Z.to_nat BSIZE →
  (∀ s', fok H s' → fstep s (vset n (f (fview s n)) (fview s)) (absorb n (lh (flog s))) s' → fkeep s s' → Q tt s') →
  wp (set_bdata i f;; lg (log_write i);; blk (brelse i)) s1 Q.
Proof using Hok R.
  intros Hho Hr Hlen HQ. pose proof R as [K1 Hn H1 S1 O1].
  assert (fview s1 n = fview s n) as Hvn by apply (fstep_view _ _ _ _ _ S1).
  apply wp_bind, (f_set _ s1 K1 i n f); [done|by rewrite Hvn|]. intros s2 K2 S2 O2.
  pose proof (fstep_trans _ _ _ _ _ _ _ S1 S2) as S12. rewrite (fstep_lh _ _ _ _ S1) in S12.
  apply wp_bind, (f_log_write _ s2 K2 i n); [by apply O2|by eapply fstep_home|eapply froom_step; [done..|]; unfold log_n; lia|].
  intros s3 K3 S3 O3. apply (f_brelse _ s3 K3 i n); [by apply O3, O2|left; rewrite (fstep_lh _ _ _ _ S3), elem_of_absorb; by left|].
  intros s4 K4 S4 O4. rewrite unhold in K4. apply HQ; [done| |].
  - pose proof (fstep_trans _ _ _ _ _ _ _ S12 (fstep_trans _ _ _ _ _ _ _ S3 S4)) as S.
    rewrite (fstep_lh _ _ _ _ S3), (fstep_lh _ _ _ _ S12) in S. eapply fstep_ext; [|exact S].
    intros m. rewrite (fstep_view _ _ _ _ _ S3), (fstep_view _ _ _ _ _ S12). unfold vset. by rewrite Hvn, (fstep_view _ _ _ _ _ S1).
  - intros j m Hj. apply O4; [by eapply reading_other|]. by apply O3, O2, O1.
Qed.

End reading.

(** ** Bits *)

Definition bit (d : list byte) (k : Z) : bool := Z.testbit (Z_of_byte (nth (Z.to_nat (k / 8)) d x00)) (k mod 8).

Lemma land_bit x j : 0 ≤ j → (Z.land x (Z.shiftl 1 j) =? 0) = negb (Z.testbit x j).
Proof.
  intros Hj. destruct (Z.eqb_spec (Z.land x (Z.shiftl 1 j)) 0) as [E|E].
  - assert (Z.testbit (Z.land x (Z.shiftl 1 j)) j = false) as Hb by (rewrite E; apply Z.bits_0).
    rewrite Z.land_spec, Z.shiftl_spec, Z.sub_diag in Hb by done. by destruct (Z.testbit x j).
  - destruct (Z.testbit x j) eqn:Eb; [done|]. destruct E. apply Z.bits_inj'. intros k Hk.
    rewrite Z.land_spec, Z.shiftl_spec, Z.bits_0 by done. destruct (decide (k = j)) as [->|]; [by rewrite Eb|].
    destruct (decide (k < j)); [rewrite (Z.testbit_neg_r 1) by lia|rewrite (Z.bits_above_log2 1) by (simpl; lia)]; by destruct (Z.testbit x k).
Qed.

Lemma testbit_byte z j : 0 ≤ j < 8 → Z.testbit (Z_of_byte (byte_of_Z z)) j = Z.testbit z j.
Proof. intros Hj. rewrite Z_of_byte_of_Z. change 256 with (2 ^ 8). rewrite Z.mod_pow2_bits_low; [done|lia]. Qed.

Lemma shiftl_one_bit j k : 0 ≤ j → 0 ≤ k → Z.testbit (Z.shiftl 1 j) k = bool_decide (k = j).
Proof.
  intros Hj Hk. rewrite Z.shiftl_spec by done. case_bool_decide as E; [by rewrite E, Z.sub_diag|].
  destruct (decide (k < j)); [apply Z.testbit_neg_r; lia|apply Z.bits_above_log2; simpl; lia].
Qed.

(** A change of bit [k] of one byte. *)
Lemma bit_alter (f : Z → Z) (b : bool) d k j : 0 ≤ k → 0 ≤ j → (Z.to_nat (k / 8) < length d)%nat →
  (∀ x i, 0 ≤ i < 8 → Z.testbit (f x) i = if decide (i = k mod 8) then b else Z.testbit x i) →
  bit (alter (λ x, byte_of_Z (f (Z_of_byte x))) (Z.to_nat (k / 8)) d) j = if decide (j = k) then b else bit d j.
Proof.
  intros Hk Hj Hlen Hf. unfold bit. pose proof (Z.mod_pos_bound k 8 ltac:(lia)). pose proof (Z.mod_pos_bound j 8 ltac:(lia)).
  pose proof (Z.div_pos k 8). pose proof (Z.div_pos j 8). pose proof (Z.div_mod k 8). pose proof (Z.div_mod j 8).
  rewrite !nth_lookup. destruct (decide (j / 8 = k / 8)) as [E|E].
  - rewrite E. destruct (lookup_lt_is_Some_2 d (Z.to_nat (k / 8)) Hlen) as [x Hx].
    rewrite list_lookup_alter_eq, Hx. simpl. rewrite testbit_byte by done. rewrite Hf by done.
    destruct (decide (j mod 8 = k mod 8)), (decide (j = k)); (done || lia || subst; done).
  - rewrite list_lookup_alter_ne by lia. destruct (decide (j = k)) as [->|]; done.
Qed.

Lemma bit_set_bit d k j : 0 ≤ k → 0 ≤ j → (Z.to_nat (k / 8) < length d)%nat →
  bit (set_bit k d) j = if decide (j = k) then true else bit d j.
Proof.
  intros. unfold set_bit. apply (bit_alter (λ x, Z.lor x (Z.shiftl 1 (k mod 8))) true); [done..|].
  intros x i Hi. pose proof (Z.mod_pos_bound k 8 ltac:(lia)). rewrite Z.lor_spec, shiftl_one_bit by lia.
  destruct (decide (i = k mod 8)); [rewrite bool_decide_true by done; apply orb_true_r|rewrite bool_decide_false by done; apply orb_false_r].
Qed.
Lemma bit_clear_bit d k j : 0 ≤ k → 0 ≤ j → (Z.to_nat (k / 8) < length d)%nat →
  bit (clear_bit k d) j = if decide (j = k) then false else bit d j.
Proof.
  intros. unfold clear_bit. apply (bit_alter (λ x, Z.land x (Z.lnot (Z.shiftl 1 (k mod 8)))) false); [done..|].
  intros x i Hi. pose proof (Z.mod_pos_bound k 8 ltac:(lia)). rewrite Z.land_spec, Z.lnot_spec, shiftl_one_bit by lia.
  destruct (decide (i = k mod 8)); [rewrite bool_decide_true by done; apply andb_false_r|rewrite bool_decide_false by done; apply andb_true_r].
Qed.
Lemma length_set_bit k d : length (set_bit k d) = length d.
Proof. apply length_alter. Qed.
Lemma length_clear_bit k d : length (clear_bit k d) = length d.
Proof. apply length_alter. Qed.

Lemma balloc_scan_spec n d : ∀ bi, 0 ≤ bi →
  match balloc_scan n bi d with
  | Some k => bi ≤ k < bi + Z.of_nat n ∧ bit d k = false ∧ ∀ j, bi ≤ j < k → bit d j = true
  | None => ∀ j, bi ≤ j < bi + Z.of_nat n → bit d j = true
  end.
Proof.
  induction n as [|n IH]; intros bi Hbi; [simpl; lia|]. cbn [balloc_scan].
  pose proof (Z.mod_pos_bound bi 8 ltac:(lia)). rewrite land_bit by lia. fold (bit d bi).
  destruct (bit d bi) eqn:Eb; simpl; [|split_and!; [lia|lia|done|lia]].
  specialize (IH (bi + 1) ltac:(lia)). destruct (balloc_scan n (bi + 1) d) as [k|].
  - destruct IH as (H1 & H2 & H3). split_and!; [lia|lia|done|]. intros j Hj. destruct (decide (j = bi)) as [->|]; [done|]. apply H3. lia.
  - intros j Hj. destruct (decide (j = bi)) as [->|]; [done|]. apply IH. lia.
Qed.

(** ** The block allocator *)

Lemma wp_seq3 {S A B C D} (c1 : M S A) (c2 : M S B) (c3 : M S C) (k : M S D) s (Q : D → S → Prop) :
  wp (c1;; c2;; c3) s (λ _ s', wp k s' Q) → wp (c1;; c2;; c3;; k) s Q.
Proof.
  unfold wp, mbind, M_bind. destruct (c1 s) as [a s1| | | |]; try done. destruct (c2 s1) as [b s2| | | |]; try done. by destruct (c3 s2).
Qed.

Definition zero_block : list byte := replicate (Z.to_nat BSIZE) x00.

Lemma bzero_spec H s n (Q : unit → fsst → Prop) : fok H s → n ∉ H → fhome s n → froom 1 s → fspare H s →
  (∀ s', fok H s' → fstep s (vset n zero_block (fview s)) (absorb n (lh (flog s))) s' → fkeep s s' → Q tt s') →
  wp (bzero (fdev s) n) s Q.
Proof.
  intros Hok Hn Hho Hr Hsp HQ. unfold bzero. apply wp_bind, (f_bread H s Hok n); [done|done|]. intros i s1 R.
  eapply r_write; [done|done|done|done|apply length_replicate|exact HQ].
Qed.

(** Block [b] is in use, according to the bitmap. *)
Definition used (s : fsst) (b : Z) : bool := bit (fview s (BBLOCK b (fsb s))) (b mod BPB).
Definition is_block (s : fsst) (b : Z) : Prop := 0 ≤ b < sb_size (fsb s).
Definition bitmap_block (s : fsst) (n : Z) : Prop := ∃ b, is_block s b ∧ n = BBLOCK b (fsb s).

(** The bitmap can be written, and so can every free block; no free block is
    part of the bitmap, and the boot block is in use. *)
Record layout (s : fsst) : Prop := {
  lo_bitmap n : bitmap_block s n → fhome s n;
  lo_free b : is_block s b → used s b = false → fhome s b ∧ ¬ bitmap_block s b;
  lo_boot : is_block s 0 → used s 0 = true;
}.

Lemma BBLOCK_bit b sb j : 0 ≤ b → 0 ≤ j < BPB → b mod BPB = 0 → BBLOCK (b + j) sb = BBLOCK b sb ∧ (b + j) mod BPB = j.
Proof.
  intros Hb Hj Hm. unfold BBLOCK. assert (0 < BPB) by done. pose proof (Z.div_mod b BPB ltac:(lia)) as Hd. rewrite Hm in Hd.
  replace (b + j) with (j + (b / BPB) * BPB) by lia. rewrite Z.div_add, Z.mod_add, Z.div_small, Z.mod_small by lia. lia.
Qed.
Lemma BBLOCK_inj b b' sb : 0 ≤ b → 0 ≤ b' → BBLOCK b sb = BBLOCK b' sb → b mod BPB = b' mod BPB → b = b'.
Proof.
  intros Hb Hb' E Em. unfold BBLOCK in E. assert (b / BPB = b' / BPB) as Ed by lia.
  rewrite (Z.div_mod b BPB), (Z.div_mod b' BPB), Ed, Em by done. done.
Qed.

(** From [s] to [s'] exactly the bit of block [b] became [v], and no other block
    outside the bitmap changed. *)
Record rebit (s : fsst) (b : Z) (v : bool) (s' : fsst) : Prop := {
  rb_used c : is_block s c → used s' c = if decide (c = b) then v else used s c;
  rb_view m : ¬ bitmap_block s m → m ≠ b → fview s' m = fview s m;
}.

Lemma bit_in_block k (d : list byte) : 0 ≤ k < BPB → length d = Z.to_nat BSIZE → (Z.to_nat (k / 8) < length d)%nat.
Proof. intros Hk ->. unfold BPB in Hk. assert (k / 8 < BSIZE) by (apply Z.div_lt_upper_bound; lia). pose proof (Z.div_pos k 8). lia. Qed.

Lemma used_change H s b v bs s' (w : contents) (f : list byte → list byte) : fok H s → is_block s b → fstep s w bs s' →
  (∀ m, m ≠ b → w m = vset (BBLOCK b (fsb s)) (f (fview s (BBLOCK b (fsb s)))) (fview s) m) → ¬ bitmap_block s b →
  (∀ d j, length d = Z.to_nat BSIZE → 0 ≤ j < BPB → bit (f d) j = if decide (j = b mod BPB) then v else bit d j) →
  rebit s b v s'.
Proof.
  intros Hok Hb S Hw Hnb Hf. split.
  - intros c Hc. unfold used. rewrite (fs_sb _ _ _ _ S), (fstep_view _ _ _ _ _ S), Hw by (intros E; apply Hnb; exists c; by rewrite E).
    assert (0 < BPB) by done. pose proof (Z.mod_pos_bound c BPB ltac:(lia)). unfold vset.
    destruct (decide (BBLOCK c (fsb s) = BBLOCK b (fsb s))) as [E|E].
    + rewrite Hf by (done || by eapply lok_view_length). destruct (decide (c = b)) as [->|Hne]; [by rewrite decide_True|].
      rewrite decide_False, E; [done|]. intros Em. apply Hne, (BBLOCK_inj _ _ (fsb s)); unfold is_block in *; (lia || done).
    + destruct (decide (c = b)) as [->|]; done.
  - intros m Hm Hne. rewrite (fstep_view _ _ _ _ _ S), Hw by done. unfold vset. rewrite decide_False; [done|].
    intros ->. apply Hm. by exists b.
Qed.

(** What [balloc] does: it takes the first free block, or finds none. *)
Inductive balloc_post (H : gset Z) (s : fsst) : Z → fsst → Prop :=
| balloc_found b s' : is_block s b → used s b = false → (∀ c, 0 ≤ c < b → used s c = true) → fok H s' → fkeep s s' →
    fstep s (fview s') (absorb b (absorb (BBLOCK b (fsb s)) (lh (flog s)))) s' → rebit s b true s' → fview s' b = zero_block →
    balloc_post H s b s'
| balloc_none s' : (∀ c, is_block s c → used s c = true) → fok H s' → fkeep s s' → fstep s (fview s) (lh (flog s)) s' →
    balloc_post H s 0 s'.

(** The blocks held are neither bitmap blocks nor free. *)
Definition held_used (H : gset Z) (s : fsst) : Prop :=
  ∀ n, n ∈ H → ¬ bitmap_block s n ∧ (is_block s n → used s n = true).

Section balloc.
Context (H : gset Z) (s : fsst) (Hok : fok H s) (Hlo : layout s) (Hr : froom (2 + Z.of_nat (size H)) s) (Hheld : held_used H s).

Lemma balloc_take s1 b bi i : 0 ≤ b → b mod BPB = 0 → 0 ≤ bi < BPB → is_block s (b + bi) →
  used s (b + bi) = false → (∀ c, 0 ≤ c < b + bi → used s c = true) → reading H s (BBLOCK b (fsb s)) i s1 →
  wp (set_bdata i (set_bit bi);; lg (log_write i);; blk (brelse i);; bzero (fdev s) (b + bi);; mret (b + bi)) s1 (balloc_post H s).
Proof using All.
  intros Hb Hm Hbi Hblk Hfree Hfirst R. set (n := BBLOCK b (fsb s)) in *.
  destruct (BBLOCK_bit b (fsb s) bi Hb Hbi Hm) as [Hbb Hbm]. destruct (lo_free _ Hlo _ Hblk Hfree) as [Hho Hnb].
  assert (fhome s n) as Hnh by (apply Hlo; exists (b + bi); by rewrite Hbb).
  apply wp_seq3. eapply r_write; [exact Hok|exact R|done|eapply froom_le; [done|lia]|..].
  { rewrite length_set_bit. by eapply lok_view_length. }
  intros s2 K2 S2 O2. assert (fdev s = fdev s2) as -> by (by rewrite (fstep_dev _ _ _ _ S2)).
  assert (froom (1 + Z.of_nat (size H)) s2) as Hr2 by (eapply froom_step; [exact S2|done|]; unfold log_n; pose proof (length_absorb n (lh (flog s))); lia).
  apply wp_bind, (bzero_spec H); [done|intros Hin; by destruct (Hheld _ Hin) as [_ Hu]; rewrite Hu in Hfree|by eapply fstep_home; [|exact Hho]|..].
  { eapply froom_le; [done|lia]. }
  { eapply froom_spare; [done|lia]. }
  intros s3 K3 S3 O3. apply wp_ret. pose proof (fstep_trans _ _ _ _ _ _ _ S2 S3) as S. rewrite (fstep_lh _ _ _ _ S2) in S.
  apply balloc_found; [done|done|done|done|by eapply fkeep_trans|rewrite Hbb; fold n; eapply fstep_ext; [|exact S]; intros m; by rewrite (fstep_view _ _ _ _ m S)| |].
  - eapply (used_change H s (b + bi) true _ s3 _ (set_bit bi)); [done|done|exact S| |done|].
    + intros m Hne. rewrite Hbb. fold n. unfold vset at 1. rewrite decide_False by done. by rewrite (fstep_view _ _ _ _ _ S2).
    + intros d j Hd Hj. rewrite Hbm. apply bit_set_bit; [lia|lia|by apply bit_in_block].
  - rewrite (fstep_view _ _ _ _ _ S). unfold vset. by rewrite decide_True.
Qed.

Lemma balloc_loop_spec fuel : ∀ s1 b, (1 ≤ fuel)%nat → fok H s1 → fkeep s s1 →
  fstep s (fview s) (lh (flog s)) s1 → 0 ≤ b → b mod BPB = 0 → (∀ c, is_block s c → c < b → used s c = true) →
  sb_size (fsb s) ≤ b + (Z.of_nat fuel - 1) * BPB →
  wp (balloc_loop fuel (fdev s) b) s1 (balloc_post H s).
Proof using All.
  induction fuel as [|fuel IH]; intros s1 b Hf1 K1 O1 S1 Hb Hm Hused Hfuel; [lia|].
  assert (0 < BPB) as Hbpb by done. cbn [balloc_loop]. apply wp_bind, wp_gets. rewrite (fs_sb _ _ _ _ S1).
  destruct (Z.ltb_spec b (sb_size (fsb s))) as [Hlt|Hge].
  2:{ apply wp_ret, balloc_none; [|done..]. intros c Hc. apply Hused; [done|]. unfold is_block in Hc. lia. }
  assert (is_block s b) as Hblk by (unfold is_block; lia). set (n := BBLOCK b (fsb s)).
  assert (fdev s = fdev s1) as E1 by (by rewrite (fstep_dev _ _ _ _ S1)). rewrite E1 at 1.
  apply wp_bind, (f_bread H s1 K1 n); [intros Hin; apply (proj1 (Hheld _ Hin)); by exists b|eapply froom_spare; [by eapply froom_step; [done..|]|lia]|].
  intros i s2 [K2 N2 H2 S2 O2]. pose proof (fstep_trans _ _ _ _ _ _ _ S1 S2) as S12. rewrite (fstep_lh _ _ _ _ S1) in S12.
  apply (fstep_ext _ _ (fview s)) in S12; [|intros m; by rewrite (fstep_view _ _ _ _ _ S1)].
  assert (reading H s n i s2) as R by (split; [done|done|done|done|by eapply fkeep_trans]).
  apply wp_bind, (r_bdata H s n i s2 R).
  pose proof (balloc_scan_spec (Z.to_nat (Z.min BPB (sb_size (fsb s) - b))) (fview s n) 0 ltac:(lia)) as Hscan.
  assert (∀ j, 0 ≤ j < BPB → used s (b + j) = bit (fview s n) j) as Hbit.
  { intros j Hj. unfold used. by destruct (BBLOCK_bit b (fsb s) j Hb Hj Hm) as [-> ->]. }
  destruct (balloc_scan _ 0 (fview s n)) as [bi|].
  - destruct Hscan as (Hbi & Hfree & Hbefore). apply balloc_take; try done; try lia.
    + unfold is_block. lia.
    + rewrite Hbit by lia. done.
    + intros c Hc. destruct (decide (c < b)); [apply Hused; [unfold is_block|]; lia|].
      replace c with (b + (c - b)) by lia. rewrite Hbit by lia. apply Hbefore. lia.
  - apply wp_bind. eapply r_brelse; [exact Hok|exact R|]. intros s3 K3 S3 O3.
    apply IH; [lia|done|done|done|lia|by rewrite <- Z.add_mod_idemp_r, Z_mod_same_full, Z.add_0_r by lia| |lia].
    intros c Hc Hlt'. destruct (decide (c < b)); [by apply Hused|]. unfold is_block in Hc.
    replace c with (b + (c - b)) by lia. rewrite Hbit by lia. apply Hscan. lia.
Qed.

Lemma balloc_spec : wp (balloc (fdev s)) s (balloc_post H s).
Proof using All.
  unfold balloc. apply wp_bind, wp_gets. assert (0 < BPB) by done.
  apply balloc_loop_spec; [lia|done|by intros j|apply fstep_refl|lia|done|intros c Hc; unfold is_block in Hc; lia|].
  pose proof (Z.div_mod (sb_size (fsb s) + BPB - 1) BPB ltac:(lia)). pose proof (Z.mod_pos_bound (sb_size (fsb s) + BPB - 1) BPB ltac:(lia)). lia.
Qed.

End balloc.

Lemma bfree_spec H s b (Q : unit → fsst → Prop) : fok H s → held_used H s → froom (1 + Z.of_nat (size H)) s → is_block s b → used s b = true →
  fhome s (BBLOCK b (fsb s)) → ¬ bitmap_block s b →
  (∀ s', fok H s' → fkeep s s' → fstep s (fview s') (absorb (BBLOCK b (fsb s)) (lh (flog s))) s' → rebit s b false s' →
    fview s' b = fview s b → Q tt s') →
  wp (bfree (fdev s) b) s Q.
Proof.
  intros Hok Hheld Hr Hb Hu Hho Hnb HQ. unfold bfree. apply wp_bind, wp_gets. set (n := BBLOCK b (fsb s)) in *.
  assert (0 < BPB) as Hbpb by done. pose proof (Z.mod_pos_bound b BPB Hbpb) as Hbi.
  apply wp_bind, (f_bread H s Hok n); [intros Hin; apply (proj1 (Hheld _ Hin)); by exists b|eapply froom_spare; [done|lia]|].
  intros i s1 R. apply wp_bind, (r_bdata H s n i s1 R).
  cbv zeta. rewrite land_bit by (apply Z.mod_pos_bound; lia). fold (bit (fview s n) (b mod BPB)). unfold used in Hu. fold n in Hu. rewrite Hu.
  simpl. eapply r_write; [done|done|done|eapply froom_le; [done|lia]|..].
  { rewrite length_clear_bit. by eapply lok_view_length. }
  intros s2 K2 S O2. assert (fstep s (fview s2) (absorb n (lh (flog s))) s2) as S' by (eapply fstep_ext; [|exact S]; intros m; by rewrite (fstep_view _ _ _ _ m S)).
  apply HQ; [done|done|exact S'| |].
  - eapply (used_change H s b false _ s2 _ (clear_bit (b mod BPB))); [done|done|exact S|done|done|].
    intros d j Hd Hj. apply bit_clear_bit; [lia|lia|by apply bit_in_block].
  - rewrite (fstep_view _ _ _ _ _ S). unfold vset. rewrite decide_False; [done|]. intros E. apply Hnb. by exists b.
Qed.

(** ** Inodes on disk *)

Lemma half_at pre v rest o : length pre = o → half (pre ++ le_encode 2 v ++ rest) o = v mod 2 ^ 16.
Proof.
  intros <-. unfold half. rewrite drop_app_length. rewrite <- (length_le_encode 2 v) at 1. rewrite take_app_length.
  by rewrite le_decode_encode.
Qed.
Lemma word_at pre v rest k : length pre = (4 * k)%nat → word (pre ++ le_encode 4 v ++ rest) k = v mod 2 ^ 32.
Proof.
  intros Hk. unfold word. rewrite <- Hk, drop_app_length. rewrite <- (length_le_encode 4 v) at 1. rewrite take_app_length.
  by rewrite le_decode_encode.
Qed.

Lemma length_words l : length (concat (map (le_encode 4) l)) = (4 * length l)%nat.
Proof. induction l as [|x l IH]; [done|]. cbn [map concat]. rewrite length_app, length_le_encode, IH. simpl. lia. Qed.

Lemma words_at pre l rest k0 : length pre = (4 * k0)%nat →
  map (λ k, word (pre ++ concat (map (le_encode 4) l) ++ rest) (k0 + k)) (seq 0 (length l)) = map (λ v, v mod 2 ^ 32) l.
Proof.
  intros Hpre. apply list_eq. intros k. rewrite !list_lookup_fmap. destruct (decide (k < length l)%nat) as [Hk|Hk].
  - rewrite lookup_seq_lt by done. destruct (lookup_lt_is_Some_2 l k Hk) as [v Hv]. rewrite Hv. simpl. f_equal.
    rewrite <- (take_drop_middle l k v Hv), map_app, concat_app. cbn [map concat]. rewrite <- !app_assoc, app_assoc.
    apply word_at. rewrite length_app, length_words, length_take. lia.
  - rewrite lookup_seq_ge, lookup_ge_None_2 by lia. done.
Qed.

(** The range of the fields of [struct dinode]. *)
Record wf_dinode (x : dinode) : Prop := {
  di_type : - 2 ^ 15 ≤ d_type x < 2 ^ 15;
  di_major : - 2 ^ 15 ≤ d_major x < 2 ^ 15;
  di_minor : - 2 ^ 15 ≤ d_minor x < 2 ^ 15;
  di_nlink : - 2 ^ 15 ≤ d_nlink x < 2 ^ 15;
  di_size : 0 ≤ d_size x < 2 ^ 32;
  di_addrs : length (d_addrs x) = 13%nat;
  di_addr : Forall (λ a, 0 ≤ a < 2 ^ 32) (d_addrs x);
}.

Lemma i16_wrap z : - 2 ^ 15 ≤ z < 2 ^ 15 → i16 (z mod 2 ^ 16) = z.
Proof. intros Hz. transitivity (signed 16 z); [|apply signed_small; lia]. unfold i16, signed. by rewrite Z.mod_mod by lia. Qed.

Lemma length_encode_dinode x : length (d_addrs x) = 13%nat → length (encode_dinode x) = Z.to_nat sizeof_dinode.
Proof. intros H. unfold encode_dinode. rewrite !length_app, !length_le_encode, length_words, H. done. Qed.

Lemma decode_encode_dinode x rest : wf_dinode x → decode_dinode (encode_dinode x ++ rest) = x.
Proof.
  intros [H1 H2 H3 H4 H5 H6 H7]. destruct x as [t ma mi nl sz ad]. cbn [d_type d_major d_minor d_nlink d_size d_addrs] in *.
  unfold decode_dinode, encode_dinode. cbn [d_type d_major d_minor d_nlink d_size d_addrs].
  set (b1 := le_encode 2 t). set (b2 := le_encode 2 ma). set (b3 := le_encode 2 mi). set (b4 := le_encode 2 nl). set (b5 := le_encode 4 sz).
  assert (length b1 = 2 ∧ length b2 = 2 ∧ length b3 = 2 ∧ length b4 = 2 ∧ length b5 = 4)%nat as (L1 & L2 & L3 & L4 & L5)
    by (unfold b1, b2, b3, b4, b5; by rewrite !length_le_encode).
  rewrite <- !app_assoc. f_equal.
  - transitivity (i16 (t mod 2 ^ 16)); [apply (f_equal i16), (half_at [] t); done|by apply i16_wrap].
  - transitivity (i16 (ma mod 2 ^ 16)); [apply (f_equal i16), (half_at b1 ma); done|by apply i16_wrap].
  - transitivity (i16 (mi mod 2 ^ 16)); [apply (f_equal i16)|by apply i16_wrap].
    rewrite (app_assoc b1). apply (half_at (b1 ++ b2) mi). rewrite length_app; lia.
  - transitivity (i16 (nl mod 2 ^ 16)); [apply (f_equal i16)|by apply i16_wrap].
    rewrite (app_assoc b1), (app_assoc (b1 ++ b2)). apply (half_at ((b1 ++ b2) ++ b3) nl). rewrite !length_app; lia.
  - transitivity (sz mod 2 ^ 32); [|by apply Z.mod_small].
    rewrite (app_assoc b1), (app_assoc (b1 ++ b2)), (app_assoc ((b1 ++ b2) ++ b3)). apply (word_at (((b1 ++ b2) ++ b3) ++ b4) sz). rewrite !length_app; lia.
  - rewrite (app_assoc b1), (app_assoc (b1 ++ b2)), (app_assoc ((b1 ++ b2) ++ b3)), (app_assoc (((b1 ++ b2) ++ b3) ++ b4)).
    rewrite <- H6, words_at by (rewrite !length_app; lia).
    rewrite <- (map_id ad) at 2. apply map_ext_in. intros a Ha%list_elem_of_In. apply Z.mod_small. by eapply list.Forall_forall in H7.
Qed.

(** Part of a block replaced and read back. *)
Lemma length_splice o l d : (Z.to_nat o + length l ≤ length d)%nat → length (splice o l d) = length d.
Proof. intros H. unfold splice. rewrite !length_app, length_take, length_drop. lia. Qed.
Lemma drop_splice o l d : (Z.to_nat o ≤ length d)%nat → drop (Z.to_nat o) (splice o l d) = l ++ drop (Z.to_nat o + length l) d.
Proof. intros H. unfold splice. rewrite drop_app_ge by (rewrite length_take; lia). rewrite length_take, Nat.min_l, Nat.sub_diag by lia. done. Qed.

Lemma dinode_off_fits inum : 0 ≤ inum → (Z.to_nat (dinode_off inum) + Z.to_nat sizeof_dinode ≤ Z.to_nat BSIZE)%nat.
Proof.
  intros H. unfold dinode_off. change BSIZE with (sizeof_dinode * IPB). assert (0 < IPB) by done.
  pose proof (Z.mod_pos_bound inum IPB ltac:(lia)). unfold sizeof_dinode. lia.
Qed.

Lemma take_decode_dinode d : decode_dinode (take (Z.to_nat sizeof_dinode) d) = decode_dinode d.
Proof.
  unfold decode_dinode, half, word. change (Z.to_nat sizeof_dinode) with 64%nat.
  rewrite !skipn_firstn_comm, !take_take. f_equal. apply map_ext_in. intros k Hk%in_seq.
  rewrite skipn_firstn_comm, take_take, Nat.min_l by lia. done.
Qed.

(** The bytes of a splice away from the new ones. *)
Lemma slice_splice_other o l d p k : 0 ≤ o → 0 ≤ p → 0 ≤ k → (Z.to_nat o + length l ≤ length d)%nat →
  p + k ≤ o ∨ o + Z.of_nat (length l) ≤ p → slice p k (splice o l d) = slice p k d.
Proof.
  intros Ho Hp Hk Hl Hd. apply list_eq. intros j. unfold slice, splice.
  destruct (decide (j < Z.to_nat k)%nat); [|rewrite !lookup_take_ge by lia; done].
  rewrite !lookup_take_lt, !lookup_drop by lia. destruct Hd as [Hd|Hd].
  - rewrite lookup_app_l by (rewrite length_take; lia). by rewrite lookup_take_lt by lia.
  - rewrite lookup_app_r by (rewrite length_take; lia). rewrite length_take, Nat.min_l by lia.
    rewrite lookup_app_r by lia. rewrite lookup_drop. f_equal. lia.
Qed.
Lemma slice_splice o l d : 0 ≤ o → (Z.to_nat o + length l ≤ length d)%nat → slice o (Z.of_nat (length l)) (splice o l d) = l.
Proof. intros Ho Hl. unfold slice. rewrite drop_splice by lia. by rewrite Nat2Z.id, take_app_length. Qed.

(** Inode [inum] as it is on disk. *)
Definition dinode_at (s : fsst) (inum : Z) : dinode :=
  decode_dinode (drop (Z.to_nat (dinode_off inum)) (fview s (IBLOCK inum (fsb s)))).

Lemma dinode_off_inj inum inum' sb : 0 ≤ inum → 0 ≤ inum' → IBLOCK inum sb = IBLOCK inum' sb → inum ≠ inum' →
  dinode_off inum + sizeof_dinode ≤ dinode_off inum' ∨ dinode_off inum' + sizeof_dinode ≤ dinode_off inum.
Proof.
  intros H H' E Hne. unfold IBLOCK in E. assert (0 < IPB) by done.
  pose proof (Z.div_mod inum IPB ltac:(lia)) as D. pose proof (Z.div_mod inum' IPB ltac:(lia)) as D'.
  assert (inum / IPB = inum' / IPB) as Ed by lia. rewrite Ed in D. unfold dinode_off, sizeof_dinode. lia.
Qed.

Lemma wp_get_inode s i x (Q : inode → fsst → Prop) : itable s !! i = Some x → Q x s → wp (get_inode i) s Q.
Proof. intros Hx HQ. unfold wp, get_inode. by rewrite Hx. Qed.

(** Inode [inum] rewritten on disk. *)
Definition put_dinode (s : fsst) (inum : Z) (x : dinode) : contents :=
  let n := IBLOCK inum (fsb s) in vset n (splice (dinode_off inum) (encode_dinode x) (fview s n)) (fview s).

(** Inode [inum] rewritten in its block, and any inode of the block read back. *)
Lemma decode_splice_dinode inum inum' sb x d : 0 ≤ inum → 0 ≤ inum' → wf_dinode x → length d = Z.to_nat BSIZE → IBLOCK inum' sb = IBLOCK inum sb →
  decode_dinode (drop (Z.to_nat (dinode_off inum')) (splice (dinode_off inum) (encode_dinode x) d)) =
    if decide (inum' = inum) then x else decode_dinode (drop (Z.to_nat (dinode_off inum')) d).
Proof.
  intros Hi H' Hx Hlen E. pose proof (length_encode_dinode x (di_addrs x Hx)) as Hle. pose proof (dinode_off_fits inum Hi) as Hfit.
  destruct (decide (inum' = inum)) as [->|Hne].
  - rewrite drop_splice by lia. by apply decode_encode_dinode.
  - rewrite <- (take_decode_dinode (drop _ (splice _ _ _))), <- (take_decode_dinode (drop _ d)). f_equal. apply slice_splice_other.
    1,2: (unfold dinode_off, sizeof_dinode; assert (0 < IPB) by done; pose proof (Z.mod_pos_bound inum IPB ltac:(lia)); pose proof (Z.mod_pos_bound inum' IPB ltac:(lia)); lia).
    + done.
    + lia.
    + destruct (dinode_off_inj inum' inum sb); [done..|left|right]; [done|]. rewrite Hle. unfold sizeof_dinode in *. lia.
Qed.

Lemma put_dinode_at H s inum x bs s' inum' : fok H s → 0 ≤ inum → 0 ≤ inum' → wf_dinode x → fstep s (put_dinode s inum x) bs s' →
  dinode_at s' inum' = if decide (inum' = inum) then x else dinode_at s inum'.
Proof.
  intros Hok Hi H' Hx S. pose proof (lok_view_length _ _ (IBLOCK inum (fsb s)) Hok) as Hlen. fold (fview s) in Hlen.
  unfold dinode_at. rewrite (fs_sb _ _ _ _ S), (fstep_view _ _ _ _ _ S). unfold put_dinode, vset.
  destruct (decide (IBLOCK inum' (fsb s) = IBLOCK inum (fsb s))) as [E|E].
  - rewrite E. by eapply decode_splice_dinode.
  - destruct (decide (inum' = inum)) as [->|]; done.
Qed.

Lemma iupdate_spec H s i x (Q : unit → fsst → Prop) : fok H s → itable s !! i = Some x → i_dev x = fdev s → 0 ≤ i_inum x →
  length (d_addrs (i_d x)) = 13%nat → fhome s (IBLOCK (i_inum x) (fsb s)) → IBLOCK (i_inum x) (fsb s) ∉ H → froom 1 s → fspare H s →
  (∀ s', fok H s' → fkeep s s' →
    fstep s (put_dinode s (i_inum x) (i_d x)) (absorb (IBLOCK (i_inum x) (fsb s)) (lh (flog s))) s' → Q tt s') →
  wp (iupdate i) s Q.
Proof.
  intros Hok Hx Hdv Hin Hlen Hho Hn Hr Hsp HQ. unfold iupdate. apply wp_bind. eapply wp_get_inode; [done|]. apply wp_bind, wp_gets.
  set (n := IBLOCK (i_inum x) (fsb s)) in *. rewrite Hdv. apply wp_bind, (f_bread H s Hok n); [done|done|].
  intros b s1 R. eapply r_write; [done|exact R|done|done|..|by auto].
  assert (length (fview s n) = Z.to_nat BSIZE) as Hl by (by eapply lok_view_length). pose proof (dinode_off_fits (i_inum x) Hin).
  rewrite length_splice; [done|]. rewrite length_encode_dinode by done. lia.
Qed.

(** ** Inodes in memory *)

Definition fme (s : fsst) : Z := me (lbio (flog s)).
Lemma wp_me s (Q : Z → fsst → Prop) : Q (fme s) s → wp (blk (gets me)) s Q.
Proof. intros HQ. do 2 apply wp_zoom. apply wp_gets. unfold set_flog, set_lbio. simpl. by destruct s as [[] ? ?]. Qed.

(** An entry of the table changed. *)
Definition at_inode (i : nat) (x : inode) (s : fsst) : fsst := set_itable (<[i := x]> (itable s)) s.
Lemma wp_upd_inode s i x f (Q : unit → fsst → Prop) : itable s !! i = Some x → Q tt (at_inode i (f x) s) → wp (upd_inode i f) s Q.
Proof. intros Hx HQ. apply wp_modify. unfold at_inode in HQ. by rewrite (alter_insert _ _ _ _ Hx). Qed.
Lemma at_inode_lookup i x y s : itable s !! i = Some y → itable (at_inode i x s) !! i = Some x.
Proof. intros H. apply list_lookup_insert_eq. by eapply lookup_lt_Some. Qed.
Lemma at_inode_twice i x y s : at_inode i x (at_inode i y s) = at_inode i x s.
Proof. unfold at_inode, set_itable. simpl. by rewrite list_insert_insert_eq. Qed.

(** The spin locks held, and taking and giving back one. *)
Definition fheld (s : fsst) : list Z := bheld (lbio (flog s)).
Definition with_held (h : list Z) (s : fsst) : fsst := set_flog (under h (flog s)) s.
Lemma fok_idle H s : fok H s → fheld s = [].
Proof. intros [l K]. apply (li_cache _ _ _ K). Qed.
Lemma with_held_id s : fheld s = [] → with_held [] s = s.
Proof. intros H. unfold with_held. rewrite under_id by done. by destruct s. Qed.
Lemma wp_fs_acquire s l (Q : unit → fsst → Prop) : fheld s = [] → Q tt (with_held [l] s) → wp (blk (slock l)) s Q.
Proof. intros Hs HQ. apply (wp_zoom flog set_flog), (wp_zoom lbio set_lbio), wp_chan_lock; done. Qed.
Lemma wp_fs_release s l (Q : unit → fsst → Prop) : fheld s = [l] → Q tt (with_held [] s) → wp (blk (sunlock l)) s Q.
Proof. intros Hs HQ. apply (wp_zoom flog set_flog), (wp_zoom lbio set_lbio), wp_last_unlock; done. Qed.

(** What [ilock] leaves in the entry. *)
Definition locked_inode (s : fsst) (x : inode) : inode :=
  mk_inode (i_dev x) (i_inum x) (i_ref x) (Some (fme s)) true (if i_valid x then i_d x else dinode_at s (i_inum x)).

Lemma fstep_at s v bs s' i x y : itable s !! i = Some y → fstep (at_inode i y s) v bs s' → fstep (at_inode i x s) v bs (at_inode i x s').
Proof.
  intros Hy [L I S]. split; [done| |done]. simpl in *. rewrite I, list_insert_insert_eq. done.
Qed.
Lemma at_inode_id i x s : itable s !! i = Some x → at_inode i x s = s.
Proof. intros H. unfold at_inode. rewrite list_insert_id by done. by destruct s. Qed.

Lemma ilock_spec s i x (Q : unit → fsst → Prop) : fok ∅ s → itable s !! i = Some x → 1 ≤ i_ref x → i_lock x = None →
  (i_valid x = false → i_dev x = fdev s ∧ fspare ∅ s ∧ d_type (dinode_at s (i_inum x)) ≠ 0) →
  (∀ s', fok ∅ s' → fstep (at_inode i (locked_inode s x) s) (fview s) (lh (flog s)) s' → Q tt s') →
  wp (ilock i) s Q.
Proof.
  intros Hok Hx Href Hl Hinv HQ. unfold ilock. apply wp_bind. eapply wp_get_inode; [done|].
  destruct (Z.ltb_spec (i_ref x) 1); [lia|]. pose proof (fok_idle _ _ Hok) as Hidle. apply wp_bind. unfold inode_acquire.
  apply wp_bind, wp_fs_acquire; [done|]. apply wp_bind. eapply wp_get_inode; [done|].
  rewrite Hl. apply wp_bind, wp_me, wp_bind. eapply wp_upd_inode; [done|]. apply wp_fs_release; [done|].
  change (with_held [] _) with (at_inode i (iset_lock (Some (fme s)) x) (with_held [] s)). rewrite with_held_id by done.
  set (x1 := iset_lock (Some (fme s)) x). set (s1 := at_inode i x1 s). destruct (i_valid x) eqn:Ev.
  - apply wp_ret, HQ; [done|]. assert (locked_inode s x = x1) as -> by (unfold locked_inode, x1; rewrite Ev; destruct x; simpl in *; by subst).
    exact (fstep_refl s1).
  - destruct (Hinv eq_refl) as (Hdv & Hsp & Hty). apply wp_bind, wp_gets. set (n := IBLOCK (i_inum x) (fsb s1)).
    rewrite Hdv. apply wp_bind, (f_bread ∅ s1 Hok n); [apply not_elem_of_empty|done|]. intros b s2 R.
    apply wp_bind, (r_bdata _ _ _ _ _ R). change (fview s1) with (fview s). fold (dinode_at s (i_inum x)).
    pose proof (re_step _ _ _ _ _ R) as S2. apply wp_bind. eapply wp_upd_inode; [rewrite (fs_itable _ _ _ _ S2); by eapply at_inode_lookup|].
    set (x2 := iset_d (dinode_at s (i_inum x)) x1). apply wp_bind.
    eapply (r_brelse ∅ (at_inode i x2 s1) n b); [done| |].
    { destruct R as [K N Hh [L I B] O]. split; [done|done|done| |done]. split; [done| |done]. simpl. by rewrite I. }
    intros s4 K4 S4 _. assert (itable s4 !! i = Some x2) as Hx4 by (rewrite (fs_itable _ _ _ _ S4); by eapply at_inode_lookup, at_inode_lookup).
    apply wp_bind. eapply wp_upd_inode; [done|]. set (x3 := iset_valid true x2). apply wp_bind.
    eapply wp_get_inode; [by eapply at_inode_lookup|]. change (i_d x3) with (dinode_at s (i_inum x)).
    destruct (Z.eqb_spec (d_type (dinode_at s (i_inum x))) 0); [done|].
    apply wp_ret, HQ; [exact K4|]. assert (locked_inode s x = x3) as -> by (unfold locked_inode, x3; by rewrite Ev).
    split; [apply S4| |apply S4]. simpl. rewrite (fs_itable _ _ _ _ S4). simpl. by rewrite !list_insert_insert_eq.
Qed.

(** ** The blocks of a file *)

Definition ind_of (x : dinode) : Z := nth 12 (d_addrs x) 0.
(** The address of block [bn] of a file, 0 if it has none. *)
Definition addr_of (v : contents) (x : dinode) (bn : Z) : Z :=
  if bn <? NDIRECT then nth (Z.to_nat bn) (d_addrs x) 0
  else if ind_of x =? 0 then 0 else word (v (ind_of x)) (Z.to_nat (bn - NDIRECT)).
(** All the blocks a file owns: those of its contents and, as number [MAXFILE],
    the indirect block. *)
Definition slot (v : contents) (x : dinode) (k : Z) : Z := if k =? MAXFILE then ind_of x else addr_of v x k.

Definition good_block (s : fsst) (a : Z) : Prop := is_block s a ∧ used s a = true ∧ fhome s a ∧ ¬ bitmap_block s a.

Record file_ok (s : fsst) (x : dinode) : Prop := {
  fo_len : length (d_addrs x) = 13%nat;
  fo_good k : 0 ≤ k ≤ MAXFILE → slot (fview s) x k ≠ 0 → good_block s (slot (fview s) x k);
  fo_inj k k' : 0 ≤ k ≤ MAXFILE → 0 ≤ k' ≤ MAXFILE → slot (fview s) x k ≠ 0 → slot (fview s) x k = slot (fview s) x k' → k = k';
}.

(** Blocks in use stay in use and are not moved. *)
Record more_used (s s' : fsst) : Prop := {
  mu_sb : fsb s' = fsb s;
  mu_home n : fhome s n → fhome s' n;
  mu_used c : is_block s c → used s c = true → used s' c = true;
}.

Lemma more_used_refl s : more_used s s.
Proof. by split. Qed.
Lemma more_used_trans s1 s2 s3 : more_used s1 s2 → more_used s2 s3 → more_used s1 s3.
Proof.
  intros [A1 B1 C1] [A2 B2 C2]. split; [congruence|auto|]. intros c Hc Hu. apply C2; [unfold is_block; by rewrite A1|auto].
Qed.

Lemma good_block_more s s' a : more_used s s' → good_block s a → good_block s' a.
Proof.
  intros [Hsb Hh Hu] (H1 & H2 & H3 & H4). split_and!; [unfold is_block; by rewrite Hsb|auto|auto|].
  unfold bitmap_block, is_block. by rewrite Hsb.
Qed.

(** A file with the same blocks. *)
Lemma file_ok_same s s' x x' : file_ok s x → more_used s s' → length (d_addrs x') = 13%nat →
  (∀ k, 0 ≤ k ≤ MAXFILE → slot (fview s') x' k = slot (fview s) x k) → file_ok s' x'.
Proof.
  intros [H1 H2 H3] Hmu Hlen Hs. split; [done| |].
  - intros k Hk Hz. rewrite Hs in * by done. eapply good_block_more; eauto.
  - intros k k' Hk Hk' Hz. rewrite !Hs in * by done. auto.
Qed.

(** A file with one more block, which was free. *)
Lemma file_ok_put s s' x x' k0 b : file_ok s x → more_used s s' → length (d_addrs x') = 13%nat → 0 ≤ k0 ≤ MAXFILE →
  used s b = false → good_block s' b → slot (fview s') x' k0 = b →
  (∀ k, 0 ≤ k ≤ MAXFILE → k ≠ k0 → slot (fview s') x' k = slot (fview s) x k) → file_ok s' x'.
Proof.
  intros [H1 H2 H3] Hmu Hlen Hk0 Hfree Hgood Hs0 Hs.
  assert (∀ k, 0 ≤ k ≤ MAXFILE → k ≠ k0 → slot (fview s') x' k ≠ 0 → slot (fview s') x' k ≠ b) as Hnew.
  { intros k Hk Hne Hz E. rewrite Hs in * by done. destruct (H2 k Hk Hz) as (_ & Hu & _). rewrite E in Hu. congruence. }
  split; [done| |].
  - intros k Hk Hz. destruct (decide (k = k0)) as [->|Hne]; [by rewrite Hs0|]. rewrite Hs in * by done. eapply good_block_more; eauto.
  - intros k k' Hk Hk' Hz E. destruct (decide (k = k0)) as [->|Hne], (decide (k' = k0)) as [->|Hne']; [done| | |].
    + exfalso. rewrite Hs0 in E, Hz. apply (Hnew k'); [done|done|by rewrite <- E|done].
    + exfalso. rewrite Hs0 in E. by apply (Hnew k).
    + rewrite !Hs in * by done. auto.
Qed.

(** *** Allocating a block *)

Lemma wp_balloc H s (Q : Z → fsst → Prop) : fok H s → layout s → froom (2 + Z.of_nat (size H)) s → held_used H s →
  (∀ b s', b ≠ 0 → used s b = false → good_block s' b → fok H s' → fkeep s s' → layout s' → more_used s s' →
     fstep s (fview s') (absorb b (absorb (BBLOCK b (fsb s)) (lh (flog s)))) s' →
     (∀ m, ¬ bitmap_block s m → m ≠ b → fview s' m = fview s m) → fview s' b = zero_block → Q b s') →
  (∀ s', (∀ c, is_block s c → used s c = true) → fok H s' → fkeep s s' → fstep s (fview s) (lh (flog s)) s' → Q 0 s') →
  wp (balloc (fdev s)) s Q.
Proof.
  intros Hok Hlo Hr Hheld Hfound Hnone. eapply wp_mono; [by eapply balloc_spec|].
  intros r s' [b s1 Hb Hfree Hfirst K O S [RU RV] Hz|s1 Hall K O S]; [|by apply Hnone].
  destruct (lo_free _ Hlo b Hb Hfree) as [Hho Hnb]. pose proof (fs_sb _ _ _ _ S) as Hsb.
  assert (more_used s s1) as Hmu.
  { split; [done|intros n; by eapply fstep_home|]. intros c Hc Hu. rewrite RU by done. by destruct (decide (c = b)). }
  assert (b ≠ 0) as Hb0 by (intros ->; rewrite (lo_boot _ Hlo) in Hfree; done).
  apply Hfound; try done.
  - split_and!; [unfold is_block; by rewrite Hsb|rewrite RU by done; by rewrite decide_True|by eapply fstep_home|].
    unfold bitmap_block, is_block. by rewrite Hsb.
  - split.
    + intros n Hn. eapply fstep_home; [done|]. apply Hlo. unfold bitmap_block, is_block in *. by rewrite Hsb in Hn.
    + intros c Hc Hu. unfold is_block in Hc. rewrite Hsb in Hc. rewrite RU in Hu by done. destruct (decide (c = b)); [done|].
      destruct (lo_free _ Hlo c Hc Hu) as [? Hc2]. split; [by eapply fstep_home|]. unfold bitmap_block, is_block. by rewrite Hsb.
    + intros H0. unfold is_block in H0. rewrite Hsb in H0. rewrite RU, decide_False by done. by apply Hlo.
Qed.

(** *** [bmap] *)

(** A block that was free in [s]. *)
Definition fresh_block (s : fsst) (b : Z) : Prop := b ≠ 0 ∧ is_block s b ∧ used s b = false.

(** Inode [i], with contents [x], went on as [x'] with more blocks; at most [n]
    blocks joined the transaction, and blocks in use kept their contents, the
    file's own indirect block apart. *)
Record extended (n : nat) (s : fsst) (i : nat) (x : inode) (x' : dinode) (s' : fsst) : Prop := {
  ex_ok : fok ∅ s';
  ex_layout : layout s';
  ex_file : file_ok s' x';
  ex_more : more_used s s';
  ex_step : fstep (at_inode i (iset_d x' x) s) (fview s') (lh (flog s')) s';
  ex_lh : (length (lh (flog s')) ≤ length (lh (flog s)) + n)%nat;
  ex_meta : x' = dset_addrs (d_addrs x') (i_d x);
  ex_view m : ¬ bitmap_block s m → (is_block s m → used s m = true) → m ≠ ind_of (i_d x) ∨ m = 0 → fview s' m = fview s m;
  ex_slot k : 0 ≤ k ≤ MAXFILE → slot (fview s') x' k = slot (fview s) (i_d x) k ∨
    slot (fview s) (i_d x) k = 0 ∧ fresh_block s (slot (fview s') x' k);
}.

(** The bitmap as it was. *)
Lemma used_view s s' v bs c : fstep s v bs s' → (∀ n, bitmap_block s n → v n = fview s n) → is_block s c → used s' c = used s c.
Proof. intros S Hv Hc. unfold used. rewrite (fs_sb _ _ _ _ S), (fstep_view _ _ _ _ _ S), Hv; [done|by exists c]. Qed.
Lemma more_used_view s s' v bs : fstep s v bs s' → (∀ n, bitmap_block s n → v n = fview s n) → more_used s s'.
Proof. intros S Hv. split; [apply S|intros n; by eapply fstep_home|]. intros c Hc Hu. by rewrite (used_view s s' v bs). Qed.
Lemma layout_view s s' v bs : fstep s v bs s' → (∀ n, bitmap_block s n → v n = fview s n) → layout s → layout s'.
Proof.
  intros S Hv [H1 H2 H3]. pose proof (fs_sb _ _ _ _ S) as Hsb.
  split; [intros n Hn|intros b Hb Hu|intros H0]; unfold bitmap_block, is_block in *; rewrite Hsb in *.
  - eapply fstep_home; [done|auto].
  - rewrite (used_view s s' v bs) in Hu by done. destruct (H2 b Hb Hu). split; [by eapply fstep_home|done].
  - rewrite (used_view s s' v bs) by done. auto.
Qed.
Lemma addr_of_ext v v' x k : v' (ind_of x) = v (ind_of x) ∨ ind_of x = 0 → addr_of v' x k = addr_of v x k.
Proof. intros [H| H]; unfold addr_of; [by rewrite H|by rewrite H]. Qed.
Lemma slot_ext v v' x k : v' (ind_of x) = v (ind_of x) ∨ ind_of x = 0 → slot v' x k = slot v x k.
Proof. intros H. unfold slot. by rewrite (addr_of_ext v v'). Qed.

Lemma iset_d_id x : iset_d (i_d x) x = x.
Proof. by destruct x. Qed.
Lemma dset_addrs_id x : dset_addrs (d_addrs x) x = x.
Proof. by destruct x. Qed.

Lemma layout_at i y s : layout s → layout (at_inode i y s).
Proof. intros [? ? ?]. by split. Qed.
Lemma more_used_at i y s s' : more_used s s' → more_used s (at_inode i y s').
Proof. intros [? ? ?]. by split. Qed.

Lemma word_zero k : word zero_block k = 0.
Proof.
  unfold word, zero_block. rewrite drop_replicate, take_replicate. generalize (4 `min` (Z.to_nat BSIZE - 4 * k))%nat.
  induction n as [|n IH]; [done|]. simpl. by rewrite IH.
Qed.

Section bmap.
Context (s : fsst) (i : nat) (x : inode) (Hok : fok ∅ s) (Hx : itable s !! i = Some x) (Hdv : i_dev x = fdev s).
Context (Hlo : layout s) (Hfile : file_ok s (i_d x)).
Local Abbreviation ind := (ind_of (i_d x)).

(** Nothing but reading. *)
Lemma extended_same s' n : fok ∅ s' → fstep s (fview s) (lh (flog s)) s' → extended n s i x (i_d x) s'.
Proof using Hok Hx Hlo Hfile.
  intros K S. split; [done|by eapply layout_view| |by eapply more_used_view| | |by rewrite dset_addrs_id| |].
  - eapply file_ok_same; [done|by eapply more_used_view|apply Hfile|]. intros k _. apply slot_ext. left. by eapply fstep_view.
  - rewrite iset_d_id, at_inode_id by done. rewrite (fstep_lh _ _ _ _ S). eapply fstep_ext; [|done]. intros m. symmetry. by eapply fstep_view.
  - rewrite (fstep_lh _ _ _ _ S). lia.
  - intros m _ _ _. by eapply fstep_view.
  - intros k _. left. apply slot_ext. left. by eapply fstep_view.
Qed.

(** A block allocated and entered in the inode at [k0]: a direct block, or the
    indirect one. *)
Lemma extended_addr s' b (j : nat) : (j ≤ 12)%nat → nth j (d_addrs (i_d x)) 0 = 0 → b ≠ 0 → used s b = false → good_block s' b →
  fok ∅ s' → layout s' → more_used s s' → fstep s (fview s') (absorb b (absorb (BBLOCK b (fsb s)) (lh (flog s)))) s' →
  (∀ m, ¬ bitmap_block s m → m ≠ b → fview s' m = fview s m) → fview s' b = zero_block →
  let x' := dset_addrs (<[j := b]> (d_addrs (i_d x))) (i_d x) in
  let s'' := at_inode i (iset_d x' x) s' in
  extended 2 s i x x' s'' ∧ nth j (d_addrs x') 0 = b ∧
  ∀ k, 0 ≤ k < MAXFILE → k ≠ Z.of_nat j ∨ j = 12%nat → addr_of (fview s'') x' k = addr_of (fview s) (i_d x) k.
Proof using Hok Hx Hfile.
  intros Hj Hz Hb0 Hfree Hgood K L Hmu S Hv Hzb x' s''. pose proof (fo_len _ _ Hfile) as Hlen.
  assert (nth j (d_addrs x') 0 = b) as Hnth by (simpl; rewrite nth_lookup, list_lookup_insert_eq by lia; done).
  assert (∀ k : nat, k ≠ j → nth k (d_addrs x') 0 = nth k (d_addrs (i_d x)) 0) as Hother.
  { intros k Hne. simpl. rewrite !nth_lookup, list_lookup_insert_ne by done. done. }
  assert (∀ m, ¬ bitmap_block s m → (is_block s m → used s m = true) → fview s' m = fview s m) as Hview.
  { intros m Hm Hu. apply Hv; [done|]. intros ->. destruct Hgood as (Hb & _). unfold is_block in *. rewrite (mu_sb _ _ Hmu) in Hb. rewrite Hu in Hfree by done. done. }
  assert (∀ k, 0 ≤ k < MAXFILE → k ≠ Z.of_nat j ∨ j = 12%nat → addr_of (fview s') x' k = addr_of (fview s) (i_d x) k) as Haddr.
  { intros k Hk Hne. unfold addr_of, NDIRECT. destruct (Z.ltb_spec k 12); [apply Hother; lia|]. unfold ind_of.
    destruct (decide (j = 12%nat)) as [->|Hj12].
    - rewrite Hnth, Hz. simpl. destruct (Z.eqb_spec b 0); [done|]. by rewrite Hzb, word_zero.
    - rewrite Hother by done. destruct (Z.eqb_spec (nth 12 (d_addrs (i_d x)) 0) 0) as [|Hi]; [done|]. f_equal.
      destruct (fo_good _ _ Hfile MAXFILE ltac:(done) Hi) as (_ & Hu & _ & Hnb). by apply Hview. }
  pose proof (more_used_at i (iset_d x' x) _ _ Hmu) as Hmu'.
  set (k0 := if decide (j = 12%nat) then MAXFILE else Z.of_nat j).
  assert (slot (fview s'') x' k0 = b) as Hslot0.
  { unfold slot, k0. destruct (decide (j = 12%nat)) as [->|]; [done|]. unfold addr_of, NDIRECT.
    destruct (Z.eqb_spec (Z.of_nat j) MAXFILE) as [E|]; [change MAXFILE with 268 in E; lia|].
    destruct (Z.ltb_spec (Z.of_nat j) 12); [|lia]. by rewrite Nat2Z.id. }
  assert (∀ k, 0 ≤ k ≤ MAXFILE → k ≠ k0 → slot (fview s'') x' k = slot (fview s) (i_d x) k) as Hslot.
  { intros k Hk Hne. unfold slot, k0 in *. destruct (Z.eqb_spec k MAXFILE) as [->|Hk'].
    - apply Hother. intros E. rewrite decide_True in Hne by done. done.
    - apply Haddr; [lia|]. destruct (decide (j = 12%nat)); [by right|by left]. }
  assert (slot (fview s) (i_d x) k0 = 0) as Hslotz.
  { unfold slot, k0. destruct (decide (j = 12%nat)) as [->|]; [done|]. unfold addr_of, NDIRECT.
    destruct (Z.eqb_spec (Z.of_nat j) MAXFILE) as [E|]; [change MAXFILE with 268 in E; lia|].
    destruct (Z.ltb_spec (Z.of_nat j) 12); [|lia]. by rewrite Nat2Z.id. }
  split; [|split; [done|exact Haddr]]. split; [done|by apply layout_at| |done| | |done| |].
  - eapply (file_ok_put s s'' (i_d x) x' k0 b); try done.
    + simpl. by rewrite length_insert.
    + unfold k0. change MAXFILE with 268. destruct (decide _); lia.
  - simpl. rewrite (fstep_lh _ _ _ _ S). split; [apply S| |apply S]. simpl. by rewrite (fs_itable _ _ _ _ S).
  - simpl. rewrite (fstep_lh _ _ _ _ S). pose proof (length_absorb b (absorb (BBLOCK b (fsb s)) (lh (flog s)))).
    pose proof (length_absorb (BBLOCK b (fsb s)) (lh (flog s))). lia.
  - intros m Hm Hu _. by apply Hview.
  - intros k Hk. destruct (decide (k = k0)) as [->|]; [|left; by apply Hslot]. right. rewrite Hslot0. split; [done|].
    split; [done|]. split; [|done]. destruct Hgood as [Hgb _]. unfold is_block in *. by rewrite <- (mu_sb _ _ Hmu).
Qed.

(** The entry of block [bn] in the indirect block. *)
Definition bmap_entry (bn : Z) : M fsst Z :=
  bp ← blk (bread (i_dev x) ind);
  d ← bdata bp;
  let addr := word d (Z.to_nat bn) in
  addr ← (if addr =? 0 then
            addr ← balloc (i_dev x);
            (if addr =? 0 then mret ()
             else set_bdata bp (put_word (Z.to_nat bn) addr);; lg (log_write bp));;
            mret addr
          else mret addr);
  blk (brelse bp);;
  mret addr.

(** How [bmap] returns for block [bn]: with its address, which it had or which
    is that of a new, zeroed block; or with 0, there being no block left. *)
Inductive bmap_post (n : nat) (bn : Z) : Z → fsst → Prop :=
| bmap_ok a x' s' : a ≠ 0 → extended n s i x x' s' → addr_of (fview s') x' bn = a →
    (∀ k, 0 ≤ k < MAXFILE → k ≠ bn → addr_of (fview s') x' k = addr_of (fview s) (i_d x) k) →
    addr_of (fview s) (i_d x) bn = a ∧ fview s' a = fview s a ∨ addr_of (fview s) (i_d x) bn = 0 ∧ fview s' a = zero_block →
    bmap_post n bn a s'
| bmap_full x' s' : addr_of (fview s) (i_d x) bn = 0 → extended n s i x x' s' → (∀ c, is_block s' c → used s' c = true) →
    (∀ k, 0 ≤ k < MAXFILE → addr_of (fview s') x' k = addr_of (fview s) (i_d x) k) → bmap_post n bn 0 s'.

Lemma addr_of_ind k : 0 ≤ k < NINDIRECT → ind ≠ 0 → addr_of (fview s) (i_d x) (NDIRECT + k) = word (fview s ind) (Z.to_nat k).
Proof.
  intros Hk Hi. unfold addr_of, NDIRECT. destruct (Z.ltb_spec (12 + k) 12); [lia|]. destruct (Z.eqb_spec ind 0); [done|].
  do 2 f_equal. lia.
Qed.

Lemma addr_not_ind k a : 0 ≤ k < MAXFILE → addr_of (fview s) (i_d x) k = a → a ≠ 0 → a ≠ ind.
Proof using Hfile.
  intros Hk Ha Hz E. assert (k = MAXFILE); [|lia]. apply (fo_inj _ _ Hfile); [lia|done|..]; unfold slot.
  - destruct (Z.eqb_spec k MAXFILE); [lia|]. by rewrite Ha.
  - rewrite Z.eqb_refl. destruct (Z.eqb_spec k MAXFILE); [lia|]. by rewrite Ha.
Qed.

(** The new block [a] entered in the indirect block, from the state [s2] that
    [balloc] leaves. *)
Lemma extended_entry k a s2 s' bs : 0 ≤ k < NINDIRECT → ind ≠ 0 → addr_of (fview s) (i_d x) (NDIRECT + k) = 0 →
  used s a = false → good_block s2 a → layout s2 → more_used s s2 → (∀ m, ¬ bitmap_block s m → m ≠ a → fview s2 m = fview s m) →
  fview s2 a = zero_block → itable s2 = itable s → (length bs ≤ length (lh (flog s)) + 3)%nat → a ≠ 0 → logged (flog s) (fview s2) (lh (flog s2)) (flog s2) →
  fok ∅ s' → fstep s2 (vset ind (put_word (Z.to_nat k) a (fview s2 ind)) (fview s2)) bs s' → bmap_post 3 (NDIRECT + k) a s'.
Proof using Hok Hx Hfile.
  intros Hk Hi Ha Hfree Hgood L2 MU2 V2 Z2 I2 Hbs Ha0 LG K S. pose proof (fs_sb _ _ _ _ S) as Hsb.
  destruct (fo_good _ _ Hfile MAXFILE ltac:(done) Hi) as (Hib & Hiu & Hih & Hinb). unfold slot in Hib, Hiu, Hih, Hinb. rewrite Z.eqb_refl in *.
  assert (a ≠ ind) as Hai by congruence. assert (fview s2 ind = fview s ind) as Hvi by (apply V2; [done|congruence]).
  assert (∀ n, bitmap_block s2 n → vset ind (put_word (Z.to_nat k) a (fview s2 ind)) (fview s2) n = fview s2 n) as Hbm.
  { intros n Hn. unfold vset. rewrite decide_False; [done|]. intros ->. unfold bitmap_block, is_block in *. rewrite (mu_sb _ _ MU2) in Hn. done. }
  assert (more_used s s') as MU by (eapply more_used_trans; [done|by eapply more_used_view]).
  assert (good_block s' a) as Hga by (eapply good_block_more; [by eapply more_used_view|done]).
  assert (fview s' ind = put_word (Z.to_nat k) a (fview s ind)) as Hvi' by (rewrite (fstep_view _ _ _ _ _ S); unfold vset; rewrite decide_True; congruence).
  assert (length (fview s ind) = Z.to_nat BSIZE) as Hlen by (by eapply lok_view_length).
  change NINDIRECT with 256 in Hk. change (Z.to_nat BSIZE) with 1024%nat in Hlen.
  assert (∀ j, 0 ≤ j < MAXFILE → addr_of (fview s') (i_d x) j = if decide (j = NDIRECT + k) then a else addr_of (fview s) (i_d x) j) as Haddr.
  { intros j Hj. unfold addr_of. unfold NDIRECT in *. destruct (Z.ltb_spec j 12); [rewrite decide_False by lia; done|].
    destruct (Z.eqb_spec ind 0); [done|]. rewrite Hvi', word_put_word by lia.
    destruct (decide (j = 12 + k)) as [->|]; [rewrite decide_True by lia|by rewrite decide_False by lia].
    apply u32_small. destruct Hga as (_ & _ & [Hnr _] & _). unfold block_nr in Hnr. lia. }
  assert (slot (fview s') (i_d x) (NDIRECT + k) = a) as Hslot0.
  { unfold slot. destruct (Z.eqb_spec (NDIRECT + k) MAXFILE) as [E|]; [change MAXFILE with 268 in E; unfold NDIRECT in E; lia|].
    rewrite Haddr by (change MAXFILE with 268; unfold NDIRECT; lia). by rewrite decide_True. }
  assert (∀ j, 0 ≤ j ≤ MAXFILE → j ≠ NDIRECT + k → slot (fview s') (i_d x) j = slot (fview s) (i_d x) j) as Hslot.
  { intros j Hj Hne. unfold slot. destruct (Z.eqb_spec j MAXFILE); [done|]. rewrite Haddr by lia. by rewrite decide_False. }
  assert (is_block s a) as Hab by (destruct Hgood as [Hgb _]; unfold is_block in *; by rewrite <- (mu_sb _ _ MU2)).
  eapply (bmap_ok _ _ _ (i_d x)); [done|split|..].
  - done.
  - by eapply layout_view.
  - eapply (file_ok_put s s' (i_d x) (i_d x) (NDIRECT + k) a); try done; [apply Hfile|change MAXFILE with 268; unfold NDIRECT; lia].
  - done.
  - rewrite iset_d_id, at_inode_id by done. rewrite (fstep_lh _ _ _ _ S).
    assert (fstep s (fview s2) (lh (flog s2)) s2) as SS by (split; [done|done|apply MU2]).
    eapply fstep_ext; [|exact (fstep_trans _ _ _ _ _ _ _ SS S)]. intros m. symmetry. by eapply fstep_view.
  - rewrite (fstep_lh _ _ _ _ S). done.
  - by rewrite dset_addrs_id.
  - intros m Hm Hu Hmi. rewrite (fstep_view _ _ _ _ _ S). unfold vset. rewrite decide_False by (intros ->; by destruct Hmi).
    apply V2; [done|]. intros ->. by rewrite Hu in Hfree.
  - intros j Hj. destruct (decide (j = NDIRECT + k)) as [->|Hne]; [right|left; by apply Hslot]. rewrite Hslot0. split; [|by split_and!].
    unfold slot. destruct (Z.eqb_spec (NDIRECT + k) MAXFILE) as [E|]; [change MAXFILE with 268 in E; unfold NDIRECT in E; lia|done].
  - rewrite Haddr, decide_True by (done || (change MAXFILE with 268; unfold NDIRECT; lia)). done.
  - intros j Hj Hne. rewrite Haddr by done. by rewrite decide_False.
  - right. split; [done|]. rewrite (fstep_view _ _ _ _ _ S). unfold vset. by rewrite decide_False.
Qed.

Lemma bmap_entry_spec k : 0 ≤ k < NINDIRECT → ind ≠ 0 → froom 3 s → wp (bmap_entry k) s (bmap_post 3 (NDIRECT + k)).
Proof using All.
  intros Hk Hi Hr. pose proof (addr_of_ind k Hk Hi) as Ha. unfold bmap_entry. rewrite Hdv.
  destruct (fo_good _ _ Hfile MAXFILE ltac:(done) Hi) as (Hib & Hiu & Hih & Hinb). unfold slot in *. rewrite Z.eqb_refl in *.
  apply wp_bind, (f_bread ∅ s Hok ind); [apply not_elem_of_empty|by eapply froom_spare|]. intros b s1 R.
  pose proof (re_step _ _ _ _ _ R) as S1. apply wp_bind, (r_bdata _ _ _ _ _ R). cbv zeta.
  destruct (Z.eqb_spec (word (fview s ind) (Z.to_nat k)) 0) as [Hz|Hnz].
  2:{ apply wp_bind, wp_ret, wp_bind. eapply r_brelse; [exact Hok|exact R|]. intros s2 K2 S2 _. apply wp_ret.
      eapply bmap_ok; [done|by apply extended_same| |..].
      - rewrite <- Ha. apply addr_of_ext. left. by eapply fstep_view.
      - intros k' Hk' _. apply addr_of_ext. left. by eapply fstep_view.
      - left. split; [done|by eapply fstep_view]. }
  rewrite Hz in Ha. assert (fdev s = fdev s1) as -> by (by rewrite (fstep_dev _ _ _ _ S1)).
  pose proof (fs_sb _ _ _ _ S1) as Hsb1. assert (∀ c, is_block s c → used s1 c = used s c) as Hu1 by (intros c; by eapply used_view).
  assert (froom 3 s1) as Hr1 by (eapply froom_step; [done..|unfold log_n; lia]).
  apply wp_bind, wp_bind, (wp_balloc ({[ind]} ∪ ∅)); [apply R|by eapply layout_view| | |..].
  { by rewrite union_empty_r_L, size_singleton. }
  { intros n Hn. assert (n = ind) as -> by set_solver. unfold bitmap_block, is_block. rewrite Hsb1. split; [done|]. intros _. by rewrite Hu1. }
  2:{ intros s2 Hall K2 O2 S2. simpl. apply wp_bind, wp_ret, wp_ret, wp_bind.
      pose proof (fstep_trans _ _ _ _ _ _ _ S1 S2) as S. rewrite (fstep_lh _ _ _ _ S1) in S.
      apply (fstep_ext _ _ (fview s)) in S; [|intros m; by rewrite (fstep_view _ _ _ _ _ S1)].
      eapply (r_brelse ∅ s ind b s2); [done|split; [done|apply not_elem_of_empty|by apply O2, R|done|by eapply fkeep_trans; [apply R|]]|].
      intros s3 K3 S3 _. apply wp_ret. eapply bmap_full; [done|by apply extended_same| |].
      - intros c Hc. unfold is_block in *. rewrite (fs_sb _ _ _ _ S3) in Hc.
        rewrite (used_view s s3 (fview s) (lh (flog s))), <- Hu1 by done. apply Hall. unfold is_block. by rewrite Hsb1.
      - intros k' Hk'. apply addr_of_ext. left. by eapply fstep_view. }
  intros a s2 Ha0 Hfree Hgood K2 O2 L2 MU2 S2 V2 Z2.
  destruct (Z.eqb_spec a 0); [done|]. assert (length (fview s2 ind) = Z.to_nat BSIZE) as Hl2 by (by eapply lok_view_length).
  apply wp_bind, wp_bind, (f_set _ s2 K2 b ind); [by apply O2, R| |].
  { rewrite length_put_word; [done|]. change NINDIRECT with 256 in Hk. change (Z.to_nat BSIZE) with 1024%nat in Hl2. lia. }
  intros s3 K3 S3 O3. pose proof (fstep_lh _ _ _ _ S3) as HL3. rewrite (fstep_lh _ _ _ _ S2), (fstep_lh _ _ _ _ S1) in HL3.
  pose proof (length_absorb a (absorb (BBLOCK a (fsb s1)) (lh (flog s)))) as HA1. pose proof (length_absorb (BBLOCK a (fsb s1)) (lh (flog s))) as HA2.
  apply (f_log_write _ s3 K3 b ind); [by apply O3, O2, R|by eapply fstep_home, fstep_home, fstep_home|..].
  { eapply froom_step; [exact (fstep_trans _ _ _ _ _ _ _ S2 S3)|done|]. rewrite (fstep_lh _ _ _ _ S2). unfold log_n. rewrite (fstep_lh _ _ _ _ S1). lia. }
  intros s4 K4 S4 O4. apply wp_ret, wp_bind, (f_brelse _ s4 K4 b ind); [by apply O4, O3, O2, R|left; rewrite (fstep_lh _ _ _ _ S4), elem_of_absorb; by left|].
  intros s5 K5 S5 _. rewrite (unhold ∅ s ind b s1 R) in K5. apply wp_ret.
  pose proof (fstep_trans _ _ _ _ _ _ _ S3 (fstep_trans _ _ _ _ _ _ _ S4 S5)) as S.
  assert (is_block s a) as Hab by (destruct Hgood as [Hgb _]; unfold is_block in *; by rewrite (fs_sb _ _ _ _ S2), Hsb1 in Hgb).
  eapply (extended_entry k a s2 s5 (lh (flog s4)) Hk Hi Ha); [by rewrite <- Hu1|done|done| | |done| | |done| |done|].
  - eapply more_used_trans; [by eapply more_used_view|done].
  - intros m Hm Hne. rewrite V2, (fstep_view _ _ _ _ _ S1); [done| |done]. unfold bitmap_block, is_block. by rewrite Hsb1.
  - by rewrite (fs_itable _ _ _ _ S2), (fs_itable _ _ _ _ S1).
  - rewrite (fstep_lh _ _ _ _ S4), HL3. pose proof (length_absorb ind (absorb a (absorb (BBLOCK a (fsb s1)) (lh (flog s))))). lia.
  - destruct (fstep_trans _ _ _ _ _ _ _ S1 S2) as [LG _ _]. rewrite (fstep_lh _ _ _ _ S2). exact LG.
  - eapply fstep_ext; [|exact S]. intros m. rewrite (fstep_view _ _ _ _ _ S4), (fstep_view _ _ _ _ _ S3). done.
Qed.

End bmap.

Lemma fresh_before s s1 b : more_used s s1 → fresh_block s1 b → fresh_block s b.
Proof.
  intros [Hsb _ Hu] (H1 & H2 & H3). unfold fresh_block, is_block in *. rewrite Hsb in H2. split; [done|]. split; [done|].
  destruct (used s b) eqn:E; [|done]. rewrite Hu in H3 by done. done.
Qed.

Lemma extended_trans n1 n2 s i x x1 s1 x2 s2 : itable s !! i = Some x →
  extended n1 s i x x1 s1 → extended n2 s1 i (iset_d x1 x) x2 s2 → extended (n1 + n2) s i x x2 s2.
Proof.
  intros Hx [K1 L1 F1 M1 S1 N1 E1 V1 X1] [K2 L2 F2 M2 S2 N2 E2 V2 X2].
  split; [done|done|done|by eapply more_used_trans| |lia|rewrite E2, E1; done| |].
  - pose proof (fs_log _ _ _ _ S1) as LG1. pose proof (fs_log _ _ _ _ S2) as LG2.
    split; [exact (logged_trans _ _ _ _ _ _ _ LG1 LG2)| |by rewrite (fs_sb _ _ _ _ S2); apply S1].
    rewrite (fs_itable _ _ _ _ S2). simpl. rewrite (fs_itable _ _ _ _ S1). simpl. by rewrite list_insert_insert_eq.
  - intros m Hm Hu Hmi. rewrite V2, V1; [done..| | |].
    + unfold bitmap_block, is_block. by rewrite (mu_sb _ _ M1).
    + intros Hb. apply M1; [|apply Hu]; unfold is_block in *; by rewrite <- (mu_sb _ _ M1).
    + simpl. destruct (X1 MAXFILE ltac:(done)) as [Hi|[_ (H1 & H2 & H3)]]; unfold slot in *; rewrite Z.eqb_refl in *; [by rewrite Hi|].
      left. intros ->. rewrite Hu in H3; done.
  - intros k Hk. simpl in X2. destruct (X1 k Hk) as [H1|[H1 Hf1]], (X2 k Hk) as [H2|[H2 Hf2]].
    + left. congruence.
    + right. split; [congruence|by eapply fresh_before].
    + right. by rewrite H2.
    + by destruct Hf1.
Qed.

Lemma extended_mono n n' s i x x' s' : (n ≤ n')%nat → extended n s i x x' s' → extended n' s i x x' s'.
Proof. intros Hn [? ? ? ? ? ? ? ? ?]. split; try done. lia. Qed.
Lemma bmap_post_mono s i x n n' bn a s' : (n ≤ n')%nat → bmap_post s i x n bn a s' → bmap_post s i x n' bn a s'.
Proof.
  intros Hn [? x' ? ? E ? ? ?|x' ? ? E ? ?]; [eapply bmap_ok|eapply bmap_full]; try done; by eapply extended_mono.
Qed.

(** Allocation of a block named in the inode itself: a direct block, or the
    indirect block. *)
Lemma balloc_addr s i x (j : nat) (Q : Z → fsst → Prop) : fok ∅ s → itable s !! i = Some x → i_dev x = fdev s → layout s → file_ok s (i_d x) →
  (j ≤ 12)%nat → nth j (d_addrs (i_d x)) 0 = 0 → froom 2 s →
  (∀ b s', b ≠ 0 → is_block s b → used s b = false → itable s' !! i = Some x →
     let x' := dset_addrs (<[j := b]> (d_addrs (i_d x))) (i_d x) in
     let s'' := at_inode i (iset_d x' x) s' in
     extended 2 s i x x' s'' → nth j (d_addrs x') 0 = b → fview s'' b = zero_block →
     (∀ k, 0 ≤ k < MAXFILE → k ≠ Z.of_nat j ∨ j = 12%nat → addr_of (fview s'') x' k = addr_of (fview s) (i_d x) k) → Q b s') →
  (∀ s', extended 0 s i x (i_d x) s' → (∀ c, is_block s' c → used s' c = true) → (∀ m, fview s' m = fview s m) → Q 0 s') →
  wp (balloc (i_dev x)) s Q.
Proof.
  intros Hok Hx Hdv Hlo Hf Hj Hz Hr Hfound Hnone. rewrite Hdv. eapply (wp_balloc ∅); [done|done|by rewrite size_empty|by intros n ?%not_elem_of_empty|..].
  - intros b s' Hb0 Hfree Hgood K _ L MU S V Z. assert (is_block s b) as Hb.
    { destruct Hgood as [Hgb _]. unfold is_block in *. by rewrite <- (mu_sb _ _ MU). }
    destruct (extended_addr s i x Hok Hx Hf s' b j Hj Hz Hb0 Hfree Hgood K L MU S V Z) as (E & Hn & Ha).
    apply Hfound; try done. by rewrite (fs_itable _ _ _ _ S).
  - intros s' Hall K _ S. apply Hnone; [by apply extended_same| |intros m; by eapply fstep_view].
    intros c Hc. unfold is_block in *. rewrite (fs_sb _ _ _ _ S) in Hc. rewrite (used_view s s' (fview s) (lh (flog s))) by done. auto.
Qed.

(** [bmap] past a new indirect block. *)
Lemma bmap_entry_after s i x x1 s1 bn : itable s !! i = Some x → i_dev x = fdev s → extended 2 s i x x1 s1 → itable s1 !! i = Some (iset_d x1 x) →
  is_block s (ind_of x1) → used s (ind_of x1) = false → ind_of x1 ≠ 0 →
  (∀ k, 0 ≤ k < MAXFILE → addr_of (fview s1) x1 k = addr_of (fview s) (i_d x) k) → addr_of (fview s) (i_d x) bn = 0 →
  12 ≤ bn < MAXFILE → froom 3 s1 → wp (bmap_entry (iset_d x1 x) (bn - NDIRECT)) s1 (bmap_post s i x 5 bn).
Proof.
  intros Hx Hdv E1 Hx1 Hb Hf Hi Ha Hz Hbn Hr.
  assert (0 ≤ bn - NDIRECT < NINDIRECT) as Hk by (unfold MAXFILE, NDIRECT in *; lia).
  eapply wp_mono; [apply (bmap_entry_spec s1 i (iset_d x1 x)); [apply E1|done| |apply E1|apply E1|done|done|done]|].
  { simpl. rewrite Hdv. symmetry. exact (fstep_dev _ _ _ _ (ex_step _ _ _ _ _ _ E1)). }
  replace (NDIRECT + (bn - NDIRECT)) with bn by lia. rewrite <- Ha in Hz by lia.
  intros r s2 [a x2 s3 Ha0 E2 Hab Hother Hcase|x2 s3 Hab E2 Hfull Hother];
    pose proof (extended_trans _ _ _ _ _ _ _ _ _ Hx E1 E2) as E; simpl in *.
  - eapply bmap_ok; [done|exact E|done|by intros k Hk' Hne; rewrite Hother by done; apply Ha|].
    right. rewrite <- Ha by lia. destruct Hcase as [[Hc _]|[_ Hc]]; [congruence|done].
  - eapply bmap_full; [by rewrite <- Ha by lia|exact E|done|]. intros k Hk'. by rewrite Hother, Ha.
Qed.

(** [bmap] in a transaction with room for five more blocks: bitmap, indirect
    block and block, each at most once, the bitmap perhaps in two pieces. *)
Lemma bmap_spec s i x bn : fok ∅ s → itable s !! i = Some x → i_dev x = fdev s → layout s → file_ok s (i_d x) →
  0 ≤ bn < MAXFILE → froom 5 s → wp (bmap i bn) s (bmap_post s i x 5 bn).
Proof.
  intros Hok Hx Hdv Hlo Hf Hbn Hr. unfold bmap. apply wp_bind. eapply wp_get_inode; [done|]. cbv zeta. unfold NDIRECT at 1.
  destruct (Z.ltb_spec bn 12) as [Hlt|Hge].
  - assert (addr_of (fview s) (i_d x) bn = nth (Z.to_nat bn) (d_addrs (i_d x)) 0) as Ha.
    { unfold addr_of, NDIRECT. by destruct (Z.ltb_spec bn 12); [|lia]. }
    destruct (Z.eqb_spec (nth (Z.to_nat bn) (d_addrs (i_d x)) 0) 0) as [Hz|Hnz].
    + apply wp_bind. eapply (balloc_addr s i x (Z.to_nat bn)); [done|done|done|done|done|lia|done|by eapply froom_le|..].
      * intros b s' Hb0 Hb Hfree Hx' x1 s1 E Hn Hzb Hother. destruct (Z.eqb_spec b 0); [done|]. apply wp_bind.
        eapply wp_upd_inode; [done|]. apply wp_ret. fold x1. eapply bmap_ok; [done|eapply extended_mono; [|exact E]; lia| |intros k Hk Hne; apply Hother; [done|left; lia]|].
        -- unfold addr_of, NDIRECT. by destruct (Z.ltb_spec bn 12); [|lia].
        -- right. split; [by rewrite Ha|done].
      * intros s' E Hall Hv. simpl. apply wp_ret. eapply bmap_full; [by rewrite Ha|eapply extended_mono; [|exact E]; lia|done|].
        intros k Hk. apply addr_of_ext. by left.
    + apply wp_ret. eapply bmap_ok; [done|apply extended_same; [done..|apply fstep_refl]|done|done|by left].
  - unfold NDIRECT at 1. destruct (Z.ltb_spec (bn - 12) NINDIRECT) as [_|Hbad]; [|change NINDIRECT with 256 in Hbad; change MAXFILE with 268 in Hbn; lia].
    apply wp_bind. fold (ind_of (i_d x)). destruct (Z.eqb_spec (ind_of (i_d x)) 0) as [Hi|Hi].
    + assert (addr_of (fview s) (i_d x) bn = 0) as Ha.
      { unfold addr_of, NDIRECT. destruct (Z.ltb_spec bn 12); [lia|]. by rewrite Hi. }
      apply wp_bind. eapply (balloc_addr s i x 12); [done|done|done|done|done|lia|done|by eapply froom_le|..].
      * intros b s' Hb0 Hb Hfree Hx' x1 s1 E Hn Hzb Hother. destruct (Z.eqb_spec b 0); [done|]. apply wp_bind.
        eapply wp_upd_inode; [done|]. apply wp_ret. fold x1. destruct (Z.eqb_spec b 0); [done|].
        assert (ind_of x1 = b) as Hib by exact Hn.
        assert (wp (bmap_entry (iset_d x1 x) (bn - NDIRECT)) s1 (bmap_post s i x 5 bn)) as Hwp.
        { apply bmap_entry_after; rewrite ?Hib; try done; [by eapply at_inode_lookup|intros k Hk; apply Hother; [done|by right]|lia|].
          eapply froom_step; [exact (ex_step _ _ _ _ _ _ E)|exact Hr|]. pose proof (ex_lh _ _ _ _ _ _ E). unfold log_n. simpl in *. lia. }
        unfold bmap_entry in Hwp. cbn [i_d iset_d i_dev] in Hwp. rewrite Hib in Hwp. exact Hwp.
      * intros s' E Hall Hv. simpl. apply wp_bind, wp_ret, wp_ret. simpl. apply wp_ret. eapply bmap_full; [done|eapply extended_mono; [|exact E]; lia|done|].
        intros k Hk. apply addr_of_ext. by left.
    + apply wp_ret. destruct (Z.eqb_spec (ind_of (i_d x)) 0); [done|].
      assert (0 ≤ bn - 12 < NINDIRECT) as Hk by (change NINDIRECT with 256; change MAXFILE with 268 in Hbn; lia).
      eapply wp_mono; [apply (bmap_entry_spec s i x Hok Hx Hdv Hlo Hf (bn - 12) Hk Hi); by eapply froom_le|].
      intros a s'. unfold NDIRECT. replace (12 + (bn - 12)) with bn by lia. apply bmap_post_mono. lia.
Qed.

(** ** The block allocator and inodes, as their callers see them *)

(** [balloc] and [bfree].  In a transaction with room, on a file system whose
    bitmap is in order, [balloc] returns.  If some block is free it gives the
    first one, now marked in use and all zero; if none is, it returns 0 and
    changes nothing.  No other bit of the bitmap and no block outside of it
    changes, and the bitmap stays in order.  A later [bfree] of the block
    restores every bit. *)
Theorem balloc_correct s : fok ∅ s → layout s → froom 3 s → ∃ b s', balloc (fdev s) s = Ok b s' ∧ fok ∅ s' ∧ layout s' ∧
  ((is_block s b ∧ b ≠ 0 ∧ used s b = false ∧ (∀ c, 0 ≤ c < b → used s c = true) ∧ fview s' b = zero_block ∧ rebit s b true s' ∧
     ∃ s'', bfree (fdev s') b s' = Ok tt s'' ∧ fok ∅ s'' ∧ ∀ c, is_block s c → used s'' c = used s c) ∨
   (b = 0 ∧ (∀ c, is_block s c → used s c = true) ∧ ∀ m, fview s' m = fview s m)).
Proof.
  intros Hok Hlo Hr. assert (∀ n : Z, n ∈ (∅ : gset Z) → False) as Hnone by (by intros n ?%not_elem_of_empty).
  destruct (wp_elim _ _ _ (balloc_spec ∅ s Hok Hlo (froom_le _ (2 + Z.of_nat (size (∅ : gset Z))) _ Hr ltac:(rewrite size_empty; lia)) ltac:(by intros n ?%Hnone)))
    as (r & s' & E & Hp). destruct Hp as [b s1 Hb Hfree Hfirst K O S RB Hz|s1 Hall K O S]; eexists _, s1; (split; [exact E|]); clear E; (split; [exact K|]).
  - pose proof RB as [RU RV]. pose proof (fs_sb _ _ _ _ S) as Hsb. destruct (lo_free _ Hlo b Hb Hfree) as [Hho Hnb].
    assert (b ≠ 0) as Hb0 by (intros ->; by rewrite (lo_boot _ Hlo) in Hfree).
    split; [|left; split_and!; try done; [apply Hb..|]].
    { split; unfold bitmap_block, is_block in *; rewrite Hsb.
      - intros n Hn. eapply fstep_home; [done|by apply Hlo].
      - intros c Hc Hu. rewrite RU in Hu by done. destruct (decide (c = b)); [done|]. destruct (lo_free _ Hlo c Hc Hu). split; [by eapply fstep_home|done].
      - intros H0. rewrite RU, decide_False by done. by apply Hlo. }
    destruct (wp_elim (bfree (fdev s1) b) s1 (λ _ s'', fok ∅ s'' ∧ rebit s1 b false s'')) as ([] & s'' & E & K' & [RU' _]).
    { eapply (bfree_spec ∅); [done|by intros n ?%Hnone| |unfold is_block; by rewrite Hsb|rewrite RU by done; by rewrite decide_True|
        eapply fstep_home; [done|]; rewrite Hsb; apply Hlo; by exists b|unfold bitmap_block, is_block; by rewrite Hsb|by auto].
      rewrite size_empty. eapply froom_step; [exact S|exact Hr|]. unfold log_n.
      pose proof (length_absorb b (absorb (BBLOCK b (fsb s)) (lh (flog s)))). pose proof (length_absorb (BBLOCK b (fsb s)) (lh (flog s))). lia. }
    exists s''. split; [exact E|]. split; [done|]. intros c Hc. rewrite RU', RU by (done || (unfold is_block; by rewrite Hsb)).
    destruct (decide (c = b)) as [->|]; done.
  - split; [by eapply layout_view|]. right. split_and!; [done|done|]. intros m. by eapply fstep_view.
Qed.

(** [iupdate] and [ilock].  [iupdate] writes an inode to its place on disk and
    changes no other inode there; whoever locks the inode next without a valid
    copy, after any reading in between, gets back exactly what was written. *)
Theorem iupdate_ilock s i x : fok ∅ s → itable s !! i = Some x → i_dev x = fdev s → 0 ≤ i_inum x → wf_dinode (i_d x) →
  fhome s (IBLOCK (i_inum x) (fsb s)) → froom 1 s →
  ∃ s', iupdate i s = Ok tt s' ∧ fok ∅ s' ∧ itable s' = itable s ∧ dinode_at s' (i_inum x) = i_d x ∧
    (∀ inum, 0 ≤ inum → inum ≠ i_inum x → dinode_at s' inum = dinode_at s inum) ∧
    (∀ n, n ≠ IBLOCK (i_inum x) (fsb s) → fview s' n = fview s n) ∧
    ∀ j y, itable s' !! j = Some y → i_inum y = i_inum x → i_dev y = fdev s' → i_valid y = false → i_lock y = None → 1 ≤ i_ref y →
      d_type (i_d x) ≠ 0 → ∃ s'', ilock j s' = Ok tt s'' ∧ itable s'' !! j =
        Some (mk_inode (i_dev y) (i_inum y) (i_ref y) (Some (fme s')) true (i_d x)).
Proof.
  intros Hok Hx Hdv Hin Hwf Hho Hr.
  destruct (wp_elim (iupdate i) s (λ _ s', fok ∅ s' ∧ fstep s (put_dinode s (i_inum x) (i_d x)) (absorb (IBLOCK (i_inum x) (fsb s)) (lh (flog s))) s'))
    as ([] & s' & E & K & S).
  { eapply (iupdate_spec ∅); try done; [apply Hwf|by eapply (froom_spare ∅ 1)]. }
  exists s'. split; [exact E|]. clear E. split; [done|]. split; [apply S|].
  assert (dinode_at s' (i_inum x) = i_d x) as Hat by (rewrite (put_dinode_at ∅ _ _ _ _ _ _ Hok Hin Hin Hwf S); by rewrite decide_True).
  split; [done|]. split; [|split].
  - intros inum H Hne. rewrite (put_dinode_at ∅ _ _ _ _ _ _ Hok Hin H Hwf S). by rewrite decide_False.
  - intros n Hn. rewrite (fstep_view _ _ _ _ _ S). unfold put_dinode, vset. by rewrite decide_False.
  - intros j y Hy Hi Hd Hv Hl Href Hty.
    destruct (wp_elim (ilock j) s' (λ _ s'', fstep (at_inode j (locked_inode s' y) s') (fview s') (lh (flog s')) s'')) as ([] & s'' & E & S'').
    { eapply ilock_spec; [done|done|done|done| |by auto]. intros _. split_and!; [done| |by rewrite Hi, Hat].
      eapply (froom_spare ∅ 0); [|done]. eapply froom_step; [exact S|exact Hr|]. unfold log_n. pose proof (length_absorb (IBLOCK (i_inum x) (fsb s)) (lh (flog s))). lia. }
    exists s''. split; [exact E|]. rewrite (fs_itable _ _ _ _ S''), (at_inode_lookup j _ y) by done. unfold locked_inode. by rewrite Hv, Hi, Hat.
Qed.

(** ** A small file system

    Sixty-four blocks: boot, super, thirty of log, one of inodes, one of bitmap,
    a root directory in block 34 and a file in block 35. *)

Definition demo_super : superblock := mk_sb FSMAGIC 64 30 16 30 2 32 33.
Definition demo_root : dinode := mk_dinode T_DIR 0 0 1 32 (34 :: replicate 12 0).
Definition demo_file : dinode := mk_dinode T_FILE 0 0 1 5 (35 :: replicate 12 0).
Definition demo_name (l : list byte) : list byte := l ++ replicate (14 - length l) x00.
Definition demo_fs (n : Z) : list byte :=
  if n =? 32 then splice 64 (encode_dinode demo_root) (splice 128 (encode_dinode demo_file) zero_block)
  else if n =? 33 then splice 0 [xff; xff; xff; xff; x0f] zero_block
  else if n =? 34 then
    splice 0 (encode_dirent (mk_dirent 1 (demo_name [x2e])) ++ encode_dirent (mk_dirent 1 (demo_name [x2e; x2e]))) zero_block
  else zero_block.
Definition demo_inodes : list inode :=
  [mk_inode 1 1 1 (Some 7) true demo_root; mk_inode 1 2 1 (Some 7) true demo_file; mk_inode 0 0 0 None false (mk_dinode 0 0 0 0 0 [])].

Lemma length_zero_block : length zero_block = Z.to_nat BSIZE.
Proof. apply length_replicate. Qed.

Lemma demo_fs_length n : length (demo_fs n) = Z.to_nat BSIZE.
Proof.
  unfold demo_fs. destruct (n =? 32); [reflexivity|]. destruct (n =? 33); [reflexivity|].
  destruct (n =? 34); [reflexivity|]. apply length_zero_block.
Qed.

Lemma demo_fs_wf : wf_disk (sb_logstart demo_super) (sb_nlog demo_super) demo_fs.
Proof.
  split; [apply demo_fs_length|vm_compute; discriminate|vm_compute; reflexivity|].
  intros b Hb. vm_compute in Hb. by inversion Hb.
Qed.

(** It can be mounted, with a transaction begun. *)
Record mounted (s : fsst) : Prop := {
  mo_ok : fok ∅ s;
  mo_view n : n ≠ 2 → fview s n = demo_fs n;
  mo_itable : itable s = demo_inodes;
  mo_sb : fsb s = demo_super;
  mo_dev : fdev s = 1;
  mo_room : froom 28 s;
  mo_home n : block_nr n → ¬ in_log 2 30 n → fhome s n;
}.

Lemma demo_mounted : ∃ s, mounted s.
Proof.
  destruct (boot_spec 1 demo_super 7 demo_fs ltac:(lia) demo_fs_wf) as (t & E & Hb). clear E.
  pose proof (λ n, booted_view _ _ _ _ n Hb) as Hview. destruct Hb as [_ Hd [l Hi] (Hl & Ho & Hc & Hdv & Hst & Hsz)].
  exists (mk_fsst (set_outstanding 1 t) demo_inodes demo_super). split; try done.
  - exists l. destruct Hi. by split.
  - intros n Hn. unfold fview, lview. simpl. rewrite Hdv, Hview, Hd. unfold recovery_writes. rewrite apply_writes_app. simpl.
    destruct (Z.eqb_spec n 2); [done|]. unfold redo_writes. by replace (decode_header (demo_fs 2)) with (@nil Z) by reflexivity.
  - unfold froom, log_n. simpl. rewrite Hl, Hsz. done.
  - intros n H1 H2. split; simpl; [done|]. by rewrite Hst, Hsz.
Qed.

Lemma mounted_bitmap s n : mounted s → bitmap_block s n → n = 33.
Proof.
  intros M (b & Hb & ->). unfold is_block in Hb. rewrite (mo_sb _ M) in *. unfold BBLOCK. simpl in *. change BPB with 8192. rewrite Z.div_small by lia. lia.
Qed.
Lemma mounted_used s b : mounted s → 0 ≤ b < 64 → used s b = (b <? 36).
Proof.
  intros M Hb. unfold used. rewrite (mo_sb _ M). unfold BBLOCK. change BPB with 8192. rewrite Z.div_small, Z.mod_small by lia. simpl.
  rewrite (mo_view _ M) by done.
  assert (forallb (λ k, Bool.eqb (bit (demo_fs 33) (Z.of_nat k)) (Z.of_nat k <? 36)) (seq 0 64) = true) as H by (vm_compute; reflexivity).
  rewrite forallb_forall in H. specialize (H (Z.to_nat b)). rewrite Z2Nat.id in H by lia. apply Bool.eqb_prop, H, in_seq. lia.
Qed.
Lemma mounted_home s b : mounted s → 32 ≤ b < 64 → fhome s b.
Proof. intros M Hb. apply M; [unfold block_nr; lia|unfold in_log; lia]. Qed.
Lemma mounted_layout s : mounted s → layout s.
Proof.
  intros M. split.
  - intros n Hn. rewrite (mounted_bitmap s n) by done. by apply mounted_home.
  - intros b Hb Hu. unfold is_block in Hb. rewrite (mo_sb _ M) in Hb. simpl in Hb. rewrite mounted_used in Hu by done.
    destruct (Z.ltb_spec b 36); [done|]. split; [apply mounted_home; [done|lia]|]. intros Hbm. apply mounted_bitmap in Hbm; [lia|done].
  - intros _. by rewrite mounted_used.
Qed.

Lemma balloc_correct_witness : ∃ s b s', balloc (fdev s) s = Ok b s' ∧ used s 36 = false ∧ b ≠ 0.
Proof.
  destruct demo_mounted as [s M].
  destruct (balloc_correct s (mo_ok _ M) (mounted_layout _ M)) as (b & s' & E & _ & _ & H); [eapply froom_le; [apply M|lia]|].
  exists s, b, s'. split; [exact E|]. clear E. split; [by rewrite mounted_used|]. destruct H as [(_ & H & _)|(_ & H & _)]; [exact H|].
  specialize (H 36). rewrite mounted_used in H; [|done|lia]. unfold is_block in H. rewrite (mo_sb _ M) in H. simpl in H. by specialize (H ltac:(lia)).
Defined.

Lemma iupdate_ilock_witness : ∃ s s', iupdate 1 s = Ok tt s' ∧ dinode_at s' 2 = demo_file.
Proof.
  destruct demo_mounted as [s M].
  destruct (iupdate_ilock s 1 (mk_inode 1 2 1 (Some 7) true demo_file)) as (s' & E & _ & _ & Hd & _).
  - apply M.
  - by rewrite (mo_itable _ M).
  - by rewrite (mo_dev _ M).
  - done.
  - split; simpl; try lia; [done|]. repeat constructor; lia.
  - simpl. rewrite (mo_sb _ M). by apply mounted_home.
  - eapply froom_le; [apply M|lia].
  - exists s, s'. split; [exact E|exact Hd].
Defined.
