(* ===== verification/FsFile.v ===== *)
(** * Files: contents, directories and paths

    What [readi] and [writei] do to the contents of a file as a sequence of
    bytes, what [dirlookup] and [dirlink] do to a directory as a sequence of
    entries, and how [skipelem] takes a path apart; on top of the block layer of
    [FsSpec]. *)

From S2P Require Import Prelude Riscv Mem CString Bio Log BioSpec LogSpec Fs FsSpec.

(** ** Contents *)

(** Byte [o] of a file, zero where it has no block, and [n] bytes from [o] on. *)
Definition file_byte (v : contents) (x : dinode) (o : Z) : byte :=
  let a := addr_of v x (o / BSIZE) in if a =? 0 then x00 else nth (Z.to_nat (o mod BSIZE)) (v a) x00.
Definition file_range (v : contents) (x : dinode) (o n : Z) : list byte :=
  (λ k, file_byte v x (o + Z.of_nat k)) <$> seq 0 (Z.to_nat n).

Lemma BSIZE_pos : 0 < BSIZE.
Proof. done. Qed.

Lemma file_range_app v x o n m : 0 ≤ n → 0 ≤ m → file_range v x o (n + m) = file_range v x o n ++ file_range v x (o + n) m.
Proof.
  intros Hn Hm. unfold file_range. rewrite Z2Nat.inj_add, seq_app, fmap_app by done. f_equal. simpl.
  replace (seq (Z.to_nat n) (Z.to_nat m)) with (Nat.add (Z.to_nat n) <$> seq 0 (Z.to_nat m)) by (by rewrite fmap_add_seq, Nat.add_0_r).
  rewrite <- list_fmap_compose. apply list_fmap_ext. intros k j _. simpl. f_equal. lia.
Qed.

Lemma slice_lookup o n (d : list byte) k : 0 ≤ o → 0 ≤ n → (k < Z.to_nat n)%nat → slice o n d !! k = d !! (Z.to_nat o + k)%nat.
Proof. intros Ho Hn Hk. unfold slice. by rewrite lookup_take_lt, lookup_drop by done. Qed.

(** The part of a file in one block. *)
Lemma file_range_block v x o m : 0 ≤ o → 0 ≤ m → o mod BSIZE + m ≤ BSIZE → addr_of v x (o / BSIZE) ≠ 0 →
  length (v (addr_of v x (o / BSIZE))) = Z.to_nat BSIZE →
  file_range v x o m = slice (o mod BSIZE) m (v (addr_of v x (o / BSIZE))).
Proof.
  intros Ho Hm Hb Hnz Hlen. pose proof (Z.mod_pos_bound o BSIZE BSIZE_pos) as Hmod. apply list_eq. intros k. unfold file_range.
  rewrite list_lookup_fmap. destruct (decide (k < Z.to_nat m)%nat) as [Hk|Hk].
  - rewrite lookup_seq_lt, slice_lookup by lia. simpl.
    assert (o = o / BSIZE * BSIZE + o mod BSIZE) as Eo by (pose proof (Z.div_mod o BSIZE); lia).
    assert ((o + Z.of_nat k) / BSIZE = o / BSIZE ∧ (o + Z.of_nat k) mod BSIZE = o mod BSIZE + Z.of_nat k) as [Hd Hmd].
    { rewrite Eo at 1 3. rewrite <- Z.add_assoc, Z.add_comm, Z.div_add, Z.mod_add, Z.div_small, Z.mod_small by lia. lia. }
    unfold file_byte. rewrite Hd, Hmd. destruct (Z.eqb_spec (addr_of v x (o / BSIZE)) 0); [done|]. rewrite nth_lookup, Z2Nat.inj_add, Nat2Z.id by lia.
    destruct (lookup_lt_is_Some_2 (v (addr_of v x (o / BSIZE))) (Z.to_nat (o mod BSIZE) + k)) as [y Hy]; [lia|]. by rewrite Hy.
  - rewrite lookup_seq_ge by lia. unfold slice. by rewrite lookup_take_ge by lia.
Qed.

(** No holes before the end. *)
Definition mapped (v : contents) (x : dinode) : Prop := ∀ bn, 0 ≤ bn → bn * BSIZE < d_size x → addr_of v x bn ≠ 0.

Lemma bmap_mapped s i x bn (Q : Z → fsst → Prop) : fok ∅ s → itable s !! i = Some x → i_dev x = fdev s → fspare ∅ s →
  0 ≤ bn < MAXFILE → addr_of (fview s) (i_d x) bn ≠ 0 →
  (∀ s', fok ∅ s' → fstep s (fview s) (lh (flog s)) s' → Q (addr_of (fview s) (i_d x) bn) s') →
  wp (bmap i bn) s Q.
Proof.
  intros Hok Hx Hdv Hsp Hbn Hnz HQ. unfold bmap. apply wp_bind. eapply wp_get_inode; [done|]. cbv zeta.
  unfold addr_of in *. destruct (Z.ltb_spec bn NDIRECT) as [Hlt|Hge].
  - destruct (Z.eqb_spec (nth (Z.to_nat bn) (d_addrs (i_d x)) 0) 0); [done|]. apply wp_ret, HQ; [done|apply fstep_refl].
  - destruct (Z.ltb_spec (bn - NDIRECT) NINDIRECT) as [_|Hbad]; [|unfold MAXFILE in Hbn; lia].
    apply wp_bind. fold (ind_of (i_d x)). destruct (Z.eqb_spec (ind_of (i_d x)) 0) as [|Hi]; [done|]. apply wp_ret.
    destruct (Z.eqb_spec (ind_of (i_d x)) 0); [done|]. rewrite Hdv.
    apply wp_bind, (f_bread ∅ s Hok (ind_of (i_d x))); [apply not_elem_of_empty|done|]. intros b s1 R.
    apply wp_bind, (r_bdata _ _ _ _ _ R). destruct (Z.eqb_spec (word (fview s (ind_of (i_d x))) (Z.to_nat (bn - NDIRECT))) 0); [done|].
    apply wp_bind, wp_ret, wp_bind. eapply r_brelse; [done|exact R|]. intros s2 K2 S2 _. apply wp_ret. by apply HQ.
Qed.

(** ** Reading *)

Section readi.
Context (s : fsst) (i : nat) (x : inode) (Hok : fok ∅ s) (Hx : itable s !! i = Some x) (Hdv : i_dev x = fdev s) (Hsp : fspare ∅ s).
Context (Hmap : mapped (fview s) (i_d x)) (Hmax : d_size (i_d x) ≤ MAXFILE * BSIZE).

(** As [s], after reading. *)
Definition same (s' : fsst) : Prop := fok ∅ s' ∧ fstep s (fview s) (lh (flog s)) s'.

Lemma same_step s1 s2 : same s1 → fok ∅ s2 → fstep s1 (fview s1) (lh (flog s1)) s2 → same s2.
Proof.
  intros [K1 S1] K2 S2. split; [done|]. pose proof (fstep_trans _ _ _ _ _ _ _ S1 S2) as S. rewrite (fstep_lh _ _ _ _ S1) in S.
  eapply fstep_ext; [|exact S]. intros m. by eapply fstep_view.
Qed.
Lemma same_spare s1 : same s1 → fspare ∅ s1.
Proof using Hsp. intros [_ S]. unfold fspare, spare. by rewrite (fstep_lh _ _ _ _ S). Qed.

Lemma readi_loop_spec n fuel : ∀ s1 dst off tot acc, same s1 → 0 ≤ off → 0 ≤ tot ≤ n → off + (n - tot) ≤ d_size (i_d x) →
  (1 ≤ fuel)%nat → (tot < n → off mod BSIZE + (n - tot) + BSIZE ≤ Z.of_nat fuel * BSIZE) →
  wp (readi_loop (λ A c, c) fuel (λ _ _, mret 0) i dst off n tot acc) s1 (λ r s', same s' ∧
    r = (n, acc ++ file_range (fview s) (i_d x) off (n - tot))).
Proof using All.
  pose proof BSIZE_pos as HB. induction fuel as [|fuel IH]; intros s1 dst off tot acc Hs Hoff Htot Hend Hf1 Hfuel; [lia|].
  cbn [readi_loop]. destruct (Z.ltb_spec tot n) as [Hlt|Hge].
  2:{ apply wp_ret. split; [done|]. assert (tot = n) as -> by lia. rewrite Z.sub_diag. by rewrite app_nil_r. }
  pose proof (Z.mod_pos_bound off BSIZE HB) as Hmod. pose proof (Z.div_mod off BSIZE ltac:(lia)) as Hdm.
  pose proof (Z.div_pos off BSIZE ltac:(lia) HB) as Hdp. pose proof Hs as [K1 S1]. pose proof (fs_itable _ _ _ _ S1) as Hit.
  assert (addr_of (fview s) (i_d x) (off / BSIZE) ≠ 0) as Hnz by (apply Hmap; lia).
  assert (∀ k, addr_of (fview s1) (i_d x) k = addr_of (fview s) (i_d x) k) as Hsame by (intros k; apply addr_of_ext; left; by eapply fstep_view).
  apply wp_bind, (bmap_mapped s1 i x); [done|by rewrite Hit|by rewrite (fstep_dev _ _ _ _ S1)|by apply same_spare| |by rewrite Hsame|].
  { split; [done|]. assert (off < MAXFILE * BSIZE) by lia. apply Z.div_lt_upper_bound; lia. }
  rewrite Hsame. intros s2 K2 S2. pose proof (same_step _ _ Hs K2 S2) as Hs2. pose proof Hs2 as [_ S02].
  set (a := addr_of (fview s) (i_d x) (off / BSIZE)) in *. destruct (Z.eqb_spec a 0); [done|].
  apply wp_bind. eapply wp_get_inode; [by rewrite (fs_itable _ _ _ _ S02)|]. rewrite Hdv, <- (fstep_dev _ _ _ _ S02).
  apply wp_bind, (f_bread ∅ s2 K2 a); [apply not_elem_of_empty|by apply same_spare|]. intros b s3 R.
  apply wp_bind, (r_bdata _ _ _ _ _ R). rewrite (fstep_view _ _ _ _ _ S02). apply wp_bind, wp_ret.
  apply wp_bind. eapply r_brelse; [done|exact R|]. intros s4 K4 S4 _. pose proof (same_step _ _ Hs2 K4 S4) as Hs4. simpl.
  set (m := Z.min (n - tot) (BSIZE - off mod BSIZE)).
  assert (length (fview s a) = Z.to_nat BSIZE) as Hlen by (by eapply lok_view_length).
  assert (file_range (fview s) (i_d x) off (n - tot) = slice (off mod BSIZE) m (fview s a) ++ file_range (fview s) (i_d x) (off + m) (n - (tot + m))) as Hsplit.
  { replace (n - tot) with (m + (n - (tot + m))) at 1 by lia. rewrite file_range_app by lia. f_equal. apply file_range_block; (done || lia). }
  specialize (Hfuel Hlt). eapply wp_mono; [apply IH; [done|lia|lia|lia|nia|]|].
  - intros Hlt'. assert (m = BSIZE - off mod BSIZE) as Em by lia. replace (off + m) with ((off / BSIZE + 1) * BSIZE) by lia. rewrite Z.mod_mul by lia. lia.
  - intros r s' [Hs' ->]. split; [done|]. f_equal. rewrite Hsplit. by rewrite app_assoc.
Qed.

(** [readi] into a kernel buffer. *)
Lemma readi_spec off n : 0 ≤ off → 0 ≤ n → off + n < 2 ^ 32 → 0 ≤ d_size (i_d x) →
  wp (readi_kernel i off n) s (λ r s', same s' ∧
    let m := Z.max 0 (Z.min n (d_size (i_d x) - off)) in r = (m, file_range (fview s) (i_d x) off m)).
Proof using All.
  intros Hoff Hn Hov Hsz. assert (same s) as Hs by (split; [done|apply fstep_refl]). pose proof BSIZE_pos as HB.
  unfold readi_kernel, readi. apply wp_bind. eapply wp_get_inode; [done|]. cbv zeta. rewrite u32_small by lia.
  destruct (Z.gtb_spec off (d_size (i_d x))) as [Hgt|Hle]; simpl.
  { apply wp_ret. rewrite (Z.max_l 0) by lia. done. }
  destruct (Z.ltb_spec (off + n) off); [lia|]. set (k := if off + n >? d_size (i_d x) then d_size (i_d x) - off else n).
  assert (k = Z.max 0 (Z.min n (d_size (i_d x) - off))) as <- by (unfold k; destruct (Z.gtb_spec (off + n) (d_size (i_d x))); lia).
  assert (0 ≤ k ∧ off + k ≤ d_size (i_d x)) as [Hk Hk'] by (unfold k; destruct (Z.gtb_spec (off + n) (d_size (i_d x))); lia).
  eapply wp_mono; [apply readi_loop_spec; [done|done|lia|lia|pose proof (Z.div_pos k BSIZE); lia|]|].
  - intros _. pose proof (Z.mod_pos_bound off BSIZE HB). pose proof (Z.div_mod k BSIZE). pose proof (Z.mod_pos_bound k BSIZE HB).
    pose proof (Z.div_pos k BSIZE). rewrite Z2Nat.id by lia. lia.
  - intros r s' [Hs' ->]. split; [done|]. by rewrite Z.sub_0_r.
Qed.

End readi.

(** ** Writing *)

Lemma in_file o : 0 ≤ o < MAXFILE * BSIZE → 0 ≤ o / BSIZE < MAXFILE.
Proof. intros Ho. pose proof BSIZE_pos. split; [apply Z.div_pos; lia|apply Z.div_lt_upper_bound; lia]. Qed.

Lemma addr_slot v x k : 0 ≤ k < MAXFILE → slot v x k = addr_of v x k.
Proof. intros Hk. unfold slot. by destruct (Z.eqb_spec k MAXFILE); [lia|]. Qed.

Lemma nth_zero k : nth k zero_block x00 = x00.
Proof. rewrite nth_lookup. destruct (zero_block !! k) eqn:E; [|done]. by apply lookup_replicate_1 in E as [-> _]. Qed.

(** [bmap] does not change the contents. *)
Lemma bmap_contents s i x n bn a s' : file_ok s (i_d x) → 0 ≤ bn < MAXFILE → bmap_post s i x n bn a s' → ∃ x',
  extended n s i x x' s' ∧ (∀ o, 0 ≤ o < MAXFILE * BSIZE → file_byte (fview s') x' o = file_byte (fview s) (i_d x) o) ∧
  (a ≠ 0 → addr_of (fview s') x' bn = a) ∧ (a = 0 → ∀ c, is_block s' c → used s' c = true).
Proof.
  intros Hf Hbn Hp. assert (∀ x' k, extended n s i x x' s' → 0 ≤ k < MAXFILE → addr_of (fview s') x' k = addr_of (fview s) (i_d x) k →
    addr_of (fview s) (i_d x) k ≠ 0 → fview s' (addr_of (fview s) (i_d x) k) = fview s (addr_of (fview s) (i_d x) k)) as Hsame.
  { intros x' k E Hk Ha Hz. rewrite <- (addr_slot _ _ k) in Hz by done. destruct (fo_good _ _ Hf k ltac:(lia) Hz) as (Hb & Hu & _ & Hnb).
    rewrite addr_slot in * by done. apply (ex_view _ _ _ _ _ _ E); [done|done|]. left. by eapply (addr_not_ind s x Hf k). }
  assert (∀ x' o, extended n s i x x' s' → 0 ≤ o < MAXFILE * BSIZE → addr_of (fview s') x' (o / BSIZE) = addr_of (fview s) (i_d x) (o / BSIZE) →
    file_byte (fview s') x' o = file_byte (fview s) (i_d x) o) as Hbyte.
  { intros x' o E Ho Ha. unfold file_byte. rewrite Ha. destruct (Z.eqb_spec (addr_of (fview s) (i_d x) (o / BSIZE)) 0); [done|].
    erewrite Hsame; [done|done|by apply in_file|done|done]. }
  destruct Hp as [a x' s' Ha0 E Ha Hother Hcase|x' s' Hz E Hfull Hother]; exists x'; (split; [done|]); split.
  - intros o Ho. destruct (decide (o / BSIZE = bn)) as [Eo|]; [|apply Hbyte; [done|done|apply Hother; [by apply in_file|done]]].
    destruct Hcase as [[Hc Hv]|[Hc Hv]]; [apply Hbyte; [done|done|rewrite Eo; congruence]|].
    unfold file_byte. rewrite Eo, Ha, Hc. simpl. destruct (Z.eqb_spec a 0); [done|]. rewrite Hv. apply nth_zero.
  - by split.
  - intros o Ho. apply Hbyte; [done|done|apply Hother; by apply in_file].
  - by split.
Qed.

(** The bytes [w] were written into inode [i] at [off]: its contents are as
    before but for them, and no block outside the file, in use before, changed. *)
Record file_written (n : nat) (s : fsst) (i : nat) (x : inode) (off : Z) (w : list byte) (x' : dinode) (s' : fsst) : Prop := {
  fw_ok : fok ∅ s';
  fw_layout : layout s';
  fw_file : file_ok s' x';
  fw_more : more_used s s';
  fw_step : fstep (at_inode i (iset_d x' x) s) (fview s') (lh (flog s')) s';
  fw_lh : (length (lh (flog s')) ≤ length (lh (flog s)) + n)%nat;
  fw_meta : x' = dset_addrs (d_addrs x') (i_d x);
  fw_byte o : 0 ≤ o < MAXFILE * BSIZE → file_byte (fview s') x' o =
    if decide (off ≤ o < off + Z.of_nat (length w)) then nth (Z.to_nat (o - off)) w x00 else file_byte (fview s) (i_d x) o;
  fw_view m : ¬ bitmap_block s m → (is_block s m → used s m = true) →
    (∀ k, 0 ≤ k ≤ MAXFILE → slot (fview s) (i_d x) k ≠ 0 → slot (fview s) (i_d x) k ≠ m) → fview s' m = fview s m;
  fw_slot k : 0 ≤ k ≤ MAXFILE → slot (fview s') x' k = slot (fview s) (i_d x) k ∨
    slot (fview s) (i_d x) k = 0 ∧ fresh_block s (slot (fview s') x' k);
  fw_mapped o : 0 ≤ off ≤ o → o < off + Z.of_nat (length w) → o < MAXFILE * BSIZE → addr_of (fview s') x' (o / BSIZE) ≠ 0;
}.

Lemma slot_kept v v' x x' k (P : Z → Prop) : (slot v' x' k = slot v x k ∨ slot v x k = 0 ∧ P (slot v' x' k)) → slot v x k ≠ 0 → slot v' x' k ≠ 0.
Proof. intros [->|[? _]]; done. Qed.

Lemma file_written_nil s i x n off x' s' : extended n s i x x' s' →
  (∀ o, 0 ≤ o < MAXFILE * BSIZE → file_byte (fview s') x' o = file_byte (fview s) (i_d x) o) →
  file_written n s i x off [] x' s'.
Proof.
  intros [K L F M S N E V X] Hb. split; try done.
  - intros o Ho. rewrite Hb by done. by rewrite decide_False by (simpl; lia).
  - intros m Hm Hu Hs. apply V; [done|done|]. destruct (decide (m = 0)); [by right|left]. intros ->.
    apply (Hs MAXFILE); [done|..]; unfold slot; rewrite Z.eqb_refl; done.
  - simpl. lia.
Qed.

Lemma file_written_trans n1 n2 s i x off w1 w2 x1 s1 x2 s2 : itable s !! i = Some x →
  file_written n1 s i x off w1 x1 s1 → file_written n2 s1 i (iset_d x1 x) (off + Z.of_nat (length w1)) w2 x2 s2 →
  file_written (n1 + n2) s i x off (w1 ++ w2) x2 s2.
Proof.
  intros Hx [K1 L1 F1 M1 S1 N1 E1 B1 V1 X1 P1] [K2 L2 F2 M2 S2 N2 E2 B2 V2 X2 P2]. simpl in *.
  split; [done|done|done|by eapply more_used_trans| |lia|rewrite E2, E1; done|..].
  - split; [exact (logged_trans _ _ _ _ _ _ _ (fs_log _ _ _ _ S1) (fs_log _ _ _ _ S2))| |by rewrite (fs_sb _ _ _ _ S2); apply S1].
    rewrite (fs_itable _ _ _ _ S2). simpl. rewrite (fs_itable _ _ _ _ S1). simpl. by rewrite list_insert_insert_eq.
  - intros o Ho. rewrite B2, B1, length_app by done. destruct (decide (off ≤ o < off + Z.of_nat (length w1))).
    + rewrite decide_False by lia. rewrite decide_True by lia. rewrite app_nth1 by lia. done.
    + destruct (decide (off + Z.of_nat (length w1) ≤ o < off + Z.of_nat (length w1) + Z.of_nat (length w2))).
      * rewrite decide_True by lia. rewrite app_nth2 by lia. f_equal. lia.
      * rewrite decide_False by lia. done.
  - intros m Hm Hu Hs. rewrite V2, V1; [done..| | |].
    + unfold bitmap_block, is_block. by rewrite (mu_sb _ _ M1).
    + intros Hb. apply M1; [|apply Hu]; unfold is_block in *; by rewrite <- (mu_sb _ _ M1).
    + intros k Hk Hz. destruct (X1 k Hk) as [H1|[H1 (_ & Hb & Hf)]]; [rewrite H1 in *; auto|]. intros <-. rewrite Hu in Hf; done.
  - intros k Hk. destruct (X1 k Hk) as [H1|[H1 Hf1]], (X2 k Hk) as [H2|[H2 Hf2]].
    + left. congruence.
    + right. split; [congruence|by eapply fresh_before].
    + right. by rewrite H2.
    + by destruct Hf1.
  - intros o Ho Ho' Hmax. rewrite length_app in Ho'. destruct (decide (o < off + Z.of_nat (length w1))); [|apply P2; lia].
    pose proof (in_file o ltac:(lia)) as Hb. rewrite <- addr_slot by done. eapply slot_kept; [apply X2; lia|].
    rewrite addr_slot by done. apply P1; lia.
Qed.

Lemma nth_splice (p k : Z) (l d : list byte) : 0 ≤ p → 0 ≤ k → (Z.to_nat p + length l ≤ length d)%nat →
  nth (Z.to_nat k) (splice p l d) x00 =
    if decide (p ≤ k < p + Z.of_nat (length l)) then nth (Z.to_nat (k - p)) l x00 else nth (Z.to_nat k) d x00.
Proof.
  intros Hp Hk Hl. unfold splice. rewrite !nth_lookup. destruct (decide (k < p)).
  - rewrite decide_False by lia. rewrite lookup_app_l by (rewrite length_take; lia). by rewrite lookup_take_lt by lia.
  - rewrite lookup_app_r by (rewrite length_take; lia). rewrite length_take, Nat.min_l by lia.
    destruct (decide (k < p + Z.of_nat (length l))).
    + rewrite decide_True, lookup_app_l by lia. do 2 f_equal. lia.
    + rewrite decide_False, lookup_app_r, lookup_drop by lia. do 2 f_equal. lia.
Qed.

Lemma same_block o off : 0 ≤ o → 0 ≤ off → o / BSIZE = off / BSIZE → o - off = o mod BSIZE - off mod BSIZE.
Proof. intros Ho Hoff E. rewrite (Z.div_mod o BSIZE), (Z.div_mod off BSIZE), E at 1 by done. lia. Qed.

(** Writing within one block of the file. *)
Lemma block_written s i x off bs s' : fok ∅ s → itable s !! i = Some x → layout s → file_ok s (i_d x) → 0 ≤ off < MAXFILE * BSIZE →
  let a := addr_of (fview s) (i_d x) (off / BSIZE) in a ≠ 0 → off mod BSIZE + Z.of_nat (length bs) ≤ BSIZE →
  fok ∅ s' → fstep s (vset a (splice (off mod BSIZE) bs (fview s a)) (fview s)) (absorb a (lh (flog s))) s' →
  file_written 1 s i x off bs (i_d x) s'.
Proof.
  intros Hok Hx Hlo Hf Hoff a Ha0 Hbs K S. pose proof (in_file off Hoff) as Hbn. pose proof (Z.mod_pos_bound off BSIZE BSIZE_pos) as Hmod.
  pose proof (addr_slot (fview s) (i_d x) _ Hbn) as Hsl. fold a in Hsl.
  destruct (fo_good _ _ Hf (off / BSIZE) ltac:(lia) ltac:(by rewrite Hsl)) as (Hb & Hu & Hh & Hnb). rewrite Hsl in *.
  pose proof (addr_not_ind s x Hf _ a Hbn eq_refl Ha0) as Hai.
  assert (∀ m, m ≠ a → fview s' m = fview s m) as Hv by (intros m Hm; rewrite (fstep_view _ _ _ _ _ S); unfold vset; by rewrite decide_False).
  assert (∀ k, slot (fview s') (i_d x) k = slot (fview s) (i_d x) k) as Hslot by (intros k; apply slot_ext; left; by apply Hv).
  assert (∀ n, bitmap_block s n → vset a (splice (off mod BSIZE) bs (fview s a)) (fview s) n = fview s n) as Hbm.
  { intros n Hn. unfold vset. rewrite decide_False; [done|]. by intros ->. }
  assert (length (fview s a) = Z.to_nat BSIZE) as Hlen by (by eapply lok_view_length). pose proof (more_used_view _ _ _ _ S Hbm) as Hmu.
  split; [done|by eapply layout_view|eapply file_ok_same; [done|done|apply Hf|done]|done| | |by rewrite dset_addrs_id|..].
  - rewrite iset_d_id, at_inode_id by done. rewrite (fstep_lh _ _ _ _ S). eapply fstep_ext; [|done]. intros m. symmetry. by eapply fstep_view.
  - rewrite (fstep_lh _ _ _ _ S). pose proof (length_absorb a (lh (flog s))). lia.
  - intros o Ho. unfold file_byte. pose proof (in_file o Ho) as Hbo. rewrite <- !addr_slot, Hslot, addr_slot by done.
    pose proof (Z.mod_pos_bound o BSIZE BSIZE_pos) as Hmo.
    destruct (decide (o / BSIZE = off / BSIZE)) as [Eo|Hne].
    + rewrite Eo. fold a. destruct (Z.eqb_spec a 0); [done|]. rewrite (fstep_view _ _ _ _ _ S). unfold vset. rewrite decide_True by done.
      rewrite nth_splice by lia. pose proof (same_block o off ltac:(lia) ltac:(lia) Eo) as Hd.
      destruct (decide (off ≤ o < off + Z.of_nat (length bs))); [rewrite decide_True by lia; do 2 f_equal; lia|rewrite decide_False by lia; done].
    + rewrite decide_False.
      2:{ intros Ho'. apply Hne. pose proof (Z.div_mod off BSIZE ltac:(done)). pose proof (Z.div_mod o BSIZE ltac:(done)). nia. }
      destruct (Z.eqb_spec (addr_of (fview s) (i_d x) (o / BSIZE)) 0) as [|Hz]; [done|]. rewrite Hv; [done|]. intros E. apply Hne.
      apply (fo_inj _ _ Hf); [lia|lia|by rewrite addr_slot|by rewrite !addr_slot].
  - intros m Hm Hum Hs. apply Hv. intros ->. apply (Hs (off / BSIZE)); [lia|by rewrite Hsl|done].
  - intros k _. left. apply Hslot.
  - intros o Ho Ho' Hmax. assert (o / BSIZE = off / BSIZE) as ->; [|by rewrite <- addr_slot, Hslot, addr_slot].
    pose proof (Z.div_mod off BSIZE ltac:(done)). pose proof (Z.div_mod o BSIZE ltac:(done)). pose proof (Z.mod_pos_bound o BSIZE BSIZE_pos). nia.
Qed.

Lemma file_written_mono n n' s i x off w x' s' : (n ≤ n')%nat → file_written n s i x off w x' s' → file_written n' s i x off w x' s'.
Proof. intros Hn [? ? ? ? ? ? ? ? ? ? ?]. split; try done. lia. Qed.

Lemma file_written_inode n s i x off w x' s' : itable s !! i = Some x → file_written n s i x off w x' s' →
  itable s' !! i = Some (iset_d x' x) ∧ fdev s' = fdev s.
Proof.
  intros Hx H. pose proof (fw_step _ _ _ _ _ _ _ _ H) as S. rewrite (fs_itable _ _ _ _ S). split; [by eapply at_inode_lookup|].
  exact (fstep_dev _ _ _ _ S).
Qed.

Lemma file_written_room n s i x off w x' s' k : file_written n s i x off w x' s' → froom (k + Z.of_nat n) s → froom k s'.
Proof.
  intros H Hr. eapply (froom_step (k + Z.of_nat n)); [exact (fw_step _ _ _ _ _ _ _ _ H)|exact Hr|].
  pose proof (fw_lh _ _ _ _ _ _ _ _ H). unfold log_n. simpl. lia.
Qed.

Lemma slice_app o n m (d : list byte) : 0 ≤ o → 0 ≤ n → 0 ≤ m → slice o (n + m) d = slice o n d ++ slice (o + n) m d.
Proof.
  intros Ho Hn Hm. unfold slice. rewrite !Z2Nat.inj_add, <- take_take_drop, drop_drop by done. done.
Qed.
Lemma length_slice o n (d : list byte) : 0 ≤ o → 0 ≤ n → o + n ≤ Z.of_nat (length d) → length (slice o n d) = Z.to_nat n.
Proof. intros. unfold slice. rewrite length_take, length_drop. lia. Qed.

Section writei.
Context (i : nat) (src : list byte).
Local Abbreviation n := (Z.of_nat (length src)).
Local Abbreviation cpy := (λ o m : Z, mret (M := M fsst) (0, slice o m src)).

Lemma writei_loop_spec fuel : ∀ c s x off tot, fok ∅ s → itable s !! i = Some x → i_dev x = fdev s → layout s → file_ok s (i_d x) →
  0 ≤ off → 0 ≤ tot ≤ n → off + (n - tot) ≤ MAXFILE * BSIZE → froom (6 * Z.of_nat c) s →
  (tot < n → off mod BSIZE + (n - tot) ≤ Z.of_nat c * BSIZE) → (c < fuel)%nat →
  wp (writei_loop (λ A c, c) fuel cpy i tot off n tot) s (λ r s', ∃ x', tot ≤ r.1 ≤ n ∧ r.2 = off + (r.1 - tot) ∧
    file_written (6 * c) s i x off (slice tot (r.1 - tot) src) x' s' ∧ (r.1 < n → ∀ b, is_block s' b → used s' b = true)).
Proof.
  pose proof BSIZE_pos as HB. induction fuel as [|fuel IH]; intros c s x off tot Hok Hx Hdv Hlo Hf Hoff Htot Hend Hr Hc Hfuel; [lia|].
  cbn [writei_loop]. destruct (Z.ltb_spec tot n) as [Hlt|Hge].
  2:{ apply wp_ret. exists (i_d x). simpl. rewrite Z.sub_diag, Z.add_0_r. split; [lia|]. split; [done|]. split; [|lia].
      apply file_written_nil; [|done]. apply extended_same; [done..|apply fstep_refl]. }
  specialize (Hc Hlt). pose proof (Z.mod_pos_bound off BSIZE HB) as Hmod. pose proof (Z.div_mod off BSIZE ltac:(lia)) as Hdm.
  destruct c as [|c]; [lia|]. assert (0 ≤ off < MAXFILE * BSIZE) as Hoff' by lia. pose proof (in_file off Hoff') as Hbn.
  apply wp_bind. eapply wp_mono; [apply (bmap_spec s i x (off / BSIZE)); [done..|eapply froom_le; [done|lia]]|].
  intros a s1 Hp. destruct (bmap_contents _ _ _ _ _ _ _ Hf Hbn Hp) as (x1 & E1 & Hb1 & Ha1 & Hfull).
  pose proof (file_written_nil _ _ _ _ off _ _ E1 Hb1) as W1. destruct (file_written_inode _ _ _ _ _ _ _ _ Hx W1) as [Hx1 Hd1].
  destruct (Z.eqb_spec a 0) as [->|Ha0].
  { apply wp_ret. exists x1. simpl. rewrite Z.sub_diag, Z.add_0_r. split; [lia|]. split; [done|]. split; [|by intros _; apply Hfull].
    eapply file_written_mono; [|exact W1]. lia. }
  specialize (Ha1 Ha0). apply wp_bind. eapply wp_get_inode; [done|]. cbn [i_dev iset_d]. rewrite Hdv, <- Hd1.
  assert (froom 1 s1) as Hr1 by (eapply file_written_room; [exact W1|eapply froom_le; [done|lia]]).
  apply wp_bind, (f_bread ∅ s1 (fw_ok _ _ _ _ _ _ _ _ W1) a); [apply not_elem_of_empty|by eapply froom_spare|]. intros bp s2 R.
  apply wp_bind, wp_ret. cbn [fst snd]. set (m := Z.min (n - tot) (BSIZE - off mod BSIZE)). set (bs := slice tot m src).
  assert (Z.of_nat (length bs) = m) as Hlbs by (unfold bs; rewrite length_slice; lia).
  change (0 =? -1) with false. cbv iota. pose proof (fw_file _ _ _ _ _ _ _ _ W1) as Hf1.
  destruct (fo_good _ _ Hf1 (off / BSIZE) ltac:(lia) ltac:(by rewrite addr_slot, Ha1)) as (_ & _ & Hho & _). rewrite addr_slot, Ha1 in Hho by done.
  pose proof (lok_view_length _ _ a (fw_ok _ _ _ _ _ _ _ _ W1)) as Hla. fold (fview s1) in Hla.
  apply wp_seq3. eapply r_write; [apply W1|exact R|done|done|rewrite length_splice; [done|lia]|]. intros s3 K3 S3 _.
  assert (file_written 1 s1 i (iset_d x1 x) off bs x1 s3) as W2.
  { apply (block_written s1 i (iset_d x1 x)); simpl; rewrite ?Ha1; try done; [apply W1|apply W1|lia]. }
  pose proof (file_written_trans 5 1 s i x off [] bs x1 s1 x1 s3 Hx W1 ltac:(by rewrite Z.add_0_r)) as W3. simpl in W3.
  destruct (file_written_inode _ _ _ _ _ _ _ _ Hx W3) as [Hx3 Hd3].
  eapply wp_mono; [apply (IH c s3 (iset_d x1 x) (off + m) (tot + m))|].
  - apply W3.
  - done.
  - simpl. congruence.
  - apply W3.
  - apply W3.
  - lia.
  - lia.
  - lia.
  - eapply file_written_room; [exact W3|]. eapply froom_le; [exact Hr|lia].
  - intros Hlt'. assert (m = BSIZE - off mod BSIZE) as Em by lia. replace (off + m) with ((off / BSIZE + 1) * BSIZE) by lia. rewrite Z.mod_mul by lia. lia.
  - lia.
  - intros [r o'] s' (x' & H1 & H2 & H3 & H4). simpl in *. exists x'. split; [lia|]. split; [lia|]. split; [|done].
    replace (r - tot) with (m + (r - (tot + m))) by lia. rewrite slice_app by lia. fold bs.
    eapply file_written_mono; [|eapply (file_written_trans 6 (6 * c) s i x off bs); [done|exact W3|rewrite Hlbs; exact H3]]. lia.
Qed.

End writei.

(** Number of blocks a write of [n] bytes at [off] touches. *)
Definition blocks_touched (off n : Z) : Z := (off mod BSIZE + n + BSIZE - 1) / BSIZE.

Lemma blocks_touched_bounds off n : 0 ≤ n → 0 ≤ blocks_touched off n ∧ off mod BSIZE + n ≤ blocks_touched off n * BSIZE ∧
  blocks_touched off n < n / BSIZE + 3.
Proof.
  intros Hn. unfold blocks_touched. pose proof BSIZE_pos as HB. pose proof (Z.mod_pos_bound off BSIZE HB) as Hm.
  set (q := off mod BSIZE + n + BSIZE - 1). pose proof (Z.div_mod q BSIZE ltac:(lia)). pose proof (Z.mod_pos_bound q BSIZE HB).
  pose proof (Z.div_mod n BSIZE ltac:(lia)). pose proof (Z.mod_pos_bound n BSIZE HB). split_and!; [apply Z.div_pos; lia|lia|].
  apply Z.div_lt_upper_bound; [done|]. lia.
Qed.

(** The block of inode [inum] is apart from the bitmap and from file [x], and
    not free. *)
Record inode_apart (s : fsst) (inum : Z) (x : dinode) : Prop := {
  ia_num : 0 ≤ inum;
  ia_home : fhome s (IBLOCK inum (fsb s));
  ia_bitmap : ¬ bitmap_block s (IBLOCK inum (fsb s));
  ia_used : is_block s (IBLOCK inum (fsb s)) → used s (IBLOCK inum (fsb s)) = true;
  ia_slot k : 0 ≤ k ≤ MAXFILE → slot (fview s) x k ≠ 0 → slot (fview s) x k ≠ IBLOCK inum (fsb s);
}.

Lemma inode_apart_written n s i x off w x' s' : inode_apart s (i_inum x) (i_d x) → file_written n s i x off w x' s' →
  inode_apart s' (i_inum x) x' ∧ fview s' (IBLOCK (i_inum x) (fsb s)) = fview s (IBLOCK (i_inum x) (fsb s)).
Proof.
  intros [A B C D E] [K L F M S N Me By V X _]. pose proof (mu_sb _ _ M) as Hsb. split.
  - split; [done| | | |]; rewrite Hsb.
    + by apply M.
    + unfold bitmap_block, is_block. by rewrite Hsb.
    + intros Hb. unfold is_block in Hb. rewrite Hsb in Hb. apply M; [done|auto].
    + intros k Hk Hz. destruct (X k Hk) as [H1|[H1 (_ & Hb & Hf)]]; [rewrite H1 in *; auto|]. intros Ek. rewrite Ek in *. rewrite D in Hf; done.
  - apply V; [done|done|]. intros k Hk Hz. auto.
Qed.

Lemma nth_in_addrs (x : dinode) j a : d_addrs x !! j = Some a → nth j (d_addrs x) 0 = a.
Proof. intros H. by rewrite nth_lookup, H. Qed.

(** The addresses of a file fit their fields. *)
Lemma file_ok_addrs s x : file_ok s x → Forall (λ a, 0 ≤ a < 2 ^ 32) (d_addrs x).
Proof.
  intros Hf. apply Forall_lookup. intros j a Ha. pose proof (lookup_lt_Some _ _ _ Ha) as Hj. rewrite (fo_len _ _ Hf) in Hj.
  destruct (decide (a = 0)) as [->|Ha0]; [done|]. apply nth_in_addrs in Ha.
  assert (slot (fview s) x (if decide (j = 12%nat) then MAXFILE else Z.of_nat j) = a) as Hs.
  { unfold slot. destruct (decide (j = 12%nat)) as [->|]; [done|]. unfold addr_of, NDIRECT. change MAXFILE with 268.
    destruct (Z.eqb_spec (Z.of_nat j) 268); [lia|]. destruct (Z.ltb_spec (Z.of_nat j) 12); [|lia]. by rewrite Nat2Z.id. }
  destruct (fo_good _ _ Hf (if decide (j = 12%nat) then MAXFILE else Z.of_nat j)) as (_ & _ & [Hnr _] & _).
  - change MAXFILE with 268. destruct (decide (j = 12%nat)); lia.
  - by rewrite Hs.
  - rewrite Hs in Hnr. unfold block_nr in Hnr. lia.
Qed.

Lemma addr_of_addrs v x y k : d_addrs y = d_addrs x → addr_of v y k = addr_of v x k.
Proof. intros E. unfold addr_of, ind_of. by rewrite E. Qed.
Lemma slot_addrs v x y k : d_addrs y = d_addrs x → slot v y k = slot v x k.
Proof. intros E. unfold slot. rewrite (addr_of_addrs v x y k E). unfold ind_of. by rewrite E. Qed.

(** Saving the inode does not touch the file. *)
Lemma saved_file s i y x s' bs : itable s !! i = Some y → i_d y = x → fok ∅ s → layout s → file_ok s x → inode_apart s (i_inum y) x →
  fok ∅ s' → fstep s (put_dinode s (i_inum y) x) bs s' →
  layout s' ∧ file_ok s' x ∧ more_used s s' ∧ (∀ m, m ≠ IBLOCK (i_inum y) (fsb s) → fview s' m = fview s m) ∧
  (∀ o, 0 ≤ o < MAXFILE * BSIZE → file_byte (fview s') x o = file_byte (fview s) x o) ∧
  (∀ k, slot (fview s') x k = slot (fview s) x k).
Proof.
  intros Hy Hd Hok Hlo Hf [A B C D E] K S. set (nb := IBLOCK (i_inum y) (fsb s)) in *.
  assert (∀ m, m ≠ nb → put_dinode s (i_inum y) x m = fview s m) as Hp by (intros m Hm; unfold put_dinode, vset; by rewrite decide_False).
  assert (∀ m, m ≠ nb → fview s' m = fview s m) as Hv by (intros m Hm; rewrite (fstep_view _ _ _ _ _ S); auto).
  assert (∀ n, bitmap_block s n → put_dinode s (i_inum y) x n = fview s n) as Hbm by (intros n Hn; apply Hp; by intros ->).
  assert (∀ k, slot (fview s') x k = slot (fview s) x k) as Hs.
  { intros k. apply slot_ext. destruct (decide (ind_of x = 0)) as [|Hi]; [by right|left]. apply Hv.
    specialize (E MAXFILE ltac:(done)). unfold slot in E. rewrite Z.eqb_refl in E. auto. }
  split; [by eapply layout_view|]. split; [eapply file_ok_same; [done|by eapply more_used_view|apply Hf|by intros; apply Hs]|].
  split; [by eapply more_used_view|]. split; [done|]. split; [|done]. intros o Ho. pose proof (in_file o Ho). unfold file_byte. rewrite <- !addr_slot, Hs by done.
  destruct (Z.eqb_spec (slot (fview s) x (o / BSIZE)) 0); [done|]. rewrite Hv; [done|]. apply E; [lia|done].
Qed.

(** What [writei] of the bytes [src] at [off] leaves when it returns [r]. *)
Record writei_post (s : fsst) (i : nat) (x : inode) (off : Z) (src : list byte) (r : Z) (x' : dinode) (s' : fsst) : Prop := {
  wp_count : 0 ≤ r ≤ Z.of_nat (length src);
  wp_full : r < Z.of_nat (length src) → ∀ b, is_block s' b → used s' b = true;
  wp_ok : fok ∅ s' ∧ layout s' ∧ file_ok s' x' ∧ more_used s s';
  wp_dev : fdev s' = fdev s;
  wp_spare : fspare ∅ s';
  wp_inode : itable s' = <[i := iset_d x' x]> (itable s);
  wp_size : d_size x' = Z.max (d_size (i_d x)) (off + r);
  wp_meta : d_type x' = d_type (i_d x) ∧ d_nlink x' = d_nlink (i_d x) ∧ d_major x' = d_major (i_d x) ∧ d_minor x' = d_minor (i_d x);
  wp_byte o : 0 ≤ o < MAXFILE * BSIZE → file_byte (fview s') x' o =
    if decide (off ≤ o < off + r) then nth (Z.to_nat (o - off)) src x00 else file_byte (fview s) (i_d x) o;
  wp_disk : dinode_at s' (i_inum x) = x';
  wp_mapped : d_size (i_d x) ≤ MAXFILE * BSIZE → mapped (fview s) (i_d x) → mapped (fview s') x';
  wp_view m : ¬ bitmap_block s m → (is_block s m → used s m = true) → m ≠ IBLOCK (i_inum x) (fsb s) →
    (∀ k, 0 ≤ k ≤ MAXFILE → slot (fview s) (i_d x) k ≠ 0 → slot (fview s) (i_d x) k ≠ m) → fview s' m = fview s m;
}.

Lemma nth_slice0 (src : list byte) r k : 0 ≤ k < r → nth (Z.to_nat k) (slice 0 r src) x00 = nth (Z.to_nat k) src x00.
Proof. intros Hk. rewrite !nth_lookup. unfold slice. rewrite drop_0, lookup_take_lt by lia. done. Qed.

Lemma writei_spec s i x off src : fok ∅ s → itable s !! i = Some x → i_dev x = fdev s → layout s → file_ok s (i_d x) →
  wf_dinode (i_d x) → inode_apart s (i_inum x) (i_d x) → 0 ≤ off ≤ d_size (i_d x) → off + Z.of_nat (length src) ≤ MAXFILE * BSIZE →
  froom (6 * blocks_touched off (Z.of_nat (length src)) + 1) s →
  wp (writei_kernel i src off) s (λ r s', ∃ x', writei_post s i x off src r x' s').
Proof.
  intros Hok Hx Hdv Hlo Hf Hwf Hia Hoff Hmax Hr. set (n := Z.of_nat (length src)) in *. unfold writei_kernel, writei.
  apply wp_bind. eapply wp_get_inode; [done|]. cbv zeta. fold n. assert (MAXFILE * BSIZE < 2 ^ 32) as Hbig by done. rewrite !u32_small by lia.
  destruct (Z.gtb_spec off (d_size (i_d x))); [lia|]. destruct (Z.ltb_spec (off + n) off); [lia|]. simpl.
  destruct (Z.gtb_spec (off + n) (MAXFILE * BSIZE)); [lia|].
  destruct (blocks_touched_bounds off n ltac:(lia)) as (Hc1 & Hc2 & Hc3). set (c := blocks_touched off n) in *.
  apply wp_bind. eapply wp_mono; [apply (writei_loop_spec i src (Z.to_nat (n / BSIZE + 3)) (Z.to_nat c) s x off 0);
    [done..|lia|lia|fold n; lia|eapply froom_le; [done|lia]|fold n; rewrite Z2Nat.id by lia; lia|lia]|]. fold n.
  intros [r o'] s2 (x2 & Hrb & Ho' & W & Hfull). cbn [fst snd] in *. rewrite !Z.sub_0_r in *. subst o'.
  destruct (file_written_inode _ _ _ _ _ _ _ _ Hx W) as [Hx2 Hd2].
  set (x3 := dset_size (Z.max (d_size (i_d x)) (off + r)) x2). set (s3 := at_inode i (iset_d x3 x) s2).
  assert (d_size x2 = d_size (i_d x)) as Hsz2 by (by rewrite (fw_meta _ _ _ _ _ _ _ _ W)).
  apply wp_bind. eapply (wp_mono _ _ (λ _ s', s' = s3)).
  { destruct (Z.gtb_spec (off + r) (d_size (i_d x))).
    - eapply wp_upd_inode; [done|]. unfold s3, x3. simpl. rewrite Z.max_r by lia. done.
    - apply wp_ret. unfold s3, x3. rewrite Z.max_l, <- Hsz2 by lia. rewrite at_inode_id; [done|]. rewrite Hx2. by destruct x2. }
  intros _ s3' ->. destruct (inode_apart_written _ _ _ _ _ _ _ _ Hia W) as [Hia2 Hnb2].
  assert (inode_apart s3 (i_inum x) x3) as Hia3 by (destruct Hia2; by split).
  pose proof W as [K2 L2 F2 M2 S2 N2 Me2 B2 V2 X2 P2].
  assert (file_ok s3 x3) as F3 by (eapply file_ok_same; [exact F2|apply more_used_at, more_used_refl|apply F2|by intros; apply slot_addrs]).
  assert (froom 1 s2) as Hr2 by (eapply file_written_room; [exact W|]; eapply froom_le; [exact Hr|lia]).
  assert (itable s3 !! i = Some (iset_d x3 x)) as Hx3 by (by eapply at_inode_lookup).
  apply wp_bind. eapply (iupdate_spec ∅ s3 i (iset_d x3 x)); [done|done|simpl; by rewrite Hdv, <- Hd2|apply Hia|apply F3|apply Hia3|
    apply not_elem_of_empty|done|by eapply (froom_spare ∅ 1)|]. cbn [i_inum i_d iset_d].
  intros s4 K4 _ S4. apply wp_ret. exists x3.
  destruct (saved_file s3 i (iset_d x3 x) x3 s4 _ Hx3 eq_refl K2 (layout_at _ _ _ L2) F3 Hia3 K4 S4) as (L4 & F4 & M4 & V4 & B4 & Sl4).
  assert (more_used s s4) as MU by (eapply more_used_trans; [exact M2|]; destruct M4; by split).
  assert (length (slice 0 r src) = Z.to_nat r) as Hls by (rewrite length_slice; fold n; lia).
  split; [lia| |done|by rewrite (fstep_dev _ _ _ _ S4)| | |done|unfold x3; rewrite Me2; done| | | |].
  - intros Hlt b Hb. unfold is_block in Hb. rewrite (mu_sb _ _ M4) in Hb. apply M4; [done|]. by apply (Hfull Hlt b).
  - eapply (froom_spare ∅ 0); [|done]. eapply froom_step; [exact S4|exact Hr2|]. pose proof (length_absorb (IBLOCK (i_inum x) (fsb s3)) (lh (flog s3))). unfold log_n. lia.
  - rewrite (fs_itable _ _ _ _ S4). simpl. rewrite (fs_itable _ _ _ _ S2). simpl. by rewrite list_insert_insert_eq.
  - intros o Ho. rewrite B4 by done. change (file_byte (fview s3) x3 o) with (file_byte (fview s2) x2 o). rewrite B2, Hls, Z2Nat.id by lia.
    destruct (decide (off ≤ o < off + r)); [|done]. apply nth_slice0. lia.
  - assert (wf_dinode x3) as Hwf3.
    { destruct Hwf as [Wt Wj Wm Wl Ws Wa Wf]. unfold x3. rewrite Me2. split; simpl; try done; [lia|apply F2|by eapply file_ok_addrs]. }
    pose proof (put_dinode_at ∅ s3 _ _ _ _ (i_inum x) K2 (ia_num _ _ _ Hia) (ia_num _ _ _ Hia) Hwf3 S4) as Hat. by rewrite decide_True in Hat.
  - intros Hsz Hmap bn Hbn Hlt. simpl in Hlt. assert (0 ≤ bn < MAXFILE) as Hbm by (pose proof BSIZE_pos; nia).
    rewrite <- addr_slot by done. rewrite Sl4. change (slot (fview s3) x3 bn) with (slot (fview s2) x2 bn).
    destruct (decide (bn * BSIZE < d_size (i_d x))) as [Hold|Hnew].
    + eapply slot_kept; [apply X2; lia|]. rewrite addr_slot by done. by apply Hmap.
    + rewrite addr_slot by done. specialize (P2 (bn * BSIZE)). rewrite Z.div_mul in P2 by done. apply P2; lia.
  - intros m Hm Hu Hmb Hs. rewrite V4; [by apply V2|]. simpl. by rewrite (mu_sb _ _ M2).
Qed.

(** ** The inode table *)

(** Entry [x] stands for inode [inum] of device [dv]. *)
Definition stands_for (dv inum : Z) (x : inode) : Prop := 0 < i_ref x ∧ i_dev x = dv ∧ i_inum x = inum.
#[export] Instance stands_for_dec dv inum x : Decision (stands_for dv inum x).
Proof. unfold stands_for. apply _. Defined.

Lemma iget_match dv inum x : (i_ref x >? 0) && (i_dev x =? dv) && (i_inum x =? inum) = bool_decide (stands_for dv inum x).
Proof.
  unfold stands_for. destruct (Z.gtb_spec (i_ref x) 0), (Z.eqb_spec (i_dev x) dv), (Z.eqb_spec (i_inum x) inum); simpl;
    symmetry; (apply bool_decide_eq_true; split_and!; (done || lia)) || (apply bool_decide_eq_false; intros (? & ? & ?); (done || lia)).
Qed.

Lemma iget_scan_spec dv inum l : ∀ i empty,
  match iget_scan l i dv inum empty with
  | (Some j, true) => ∃ k x, l !! k = Some x ∧ stands_for dv inum x ∧ j = (i + k)%nat
  | (r, false) => Forall (λ x, ¬ stands_for dv inum x) l ∧
      match empty with
      | Some e => r = Some e
      | None => match r with
                | Some j => ∃ k x, l !! k = Some x ∧ i_ref x = 0 ∧ j = (i + k)%nat
                | None => Forall (λ x, i_ref x ≠ 0) l
                end
      end
  | (None, true) => False
  end.
Proof.
  induction l as [|x l IH]; intros i empty; [simpl; destruct empty; done|]. cbn [iget_scan]. rewrite iget_match.
  case_bool_decide as Hm; [exists 0%nat, x; split_and!; [done|done|lia]|].
  assert (∀ (P : inode → Prop) j, (∃ k y, l !! k = Some y ∧ P y ∧ j = (S i + k)%nat) → ∃ k y, (x :: l) !! k = Some y ∧ P y ∧ j = (i + k)%nat) as Hshift.
  { intros P j (k & y & Hk & Hp & ->). exists (S k), y. split_and!; [done|done|lia]. }
  specialize (IH (S i) (match empty with None => if i_ref x =? 0 then Some i else None | _ => empty end)).
  destruct (iget_scan l (S i) dv inum _) as [[j|] [|]]; [by apply Hshift| |done|].
  - destruct IH as [Hno IH]. split; [by constructor|]. destruct empty as [e|]; [done|].
    destruct (Z.eqb_spec (i_ref x) 0) as [Hz|Hz]; [|by apply Hshift]. injection IH as ->. exists 0%nat, x. split_and!; [done|done|lia].
  - destruct IH as [Hno IH]. split; [by constructor|]. destruct empty as [e|]; [done|].
    destruct (Z.eqb_spec (i_ref x) 0) as [Hz|Hz]; [done|]. by constructor.
Qed.

(** The entry [iget] makes of a free one. *)
Definition new_inode (dv inum : Z) (x : inode) : inode := mk_inode dv inum 1 (i_lock x) false (i_d x).

(** How [iget] returns entry [j]: counted once more, or new. *)
Inductive iget_post (s : fsst) (dv inum : Z) : nat → fsst → Prop :=
| iget_found j x : itable s !! j = Some x → stands_for dv inum x → iget_post s dv inum j (at_inode j (iset_ref (i_ref x + 1) x) s)
| iget_new j x : itable s !! j = Some x → i_ref x = 0 → Forall (λ y, ¬ stands_for dv inum y) (itable s) →
    iget_post s dv inum j (at_inode j (new_inode dv inum x) s).

(** There is an entry for inode [inum], or one to make. *)
Definition iget_room (dv inum : Z) (l : list inode) : Prop := Exists (λ x, i_ref x = 0 ∨ stands_for dv inum x) l.

Lemma iget_spec s dv inum : fheld s = [] → iget_room dv inum (itable s) → wp (iget dv inum) s (iget_post s dv inum).
Proof.
  intros Hs (x0 & Hj0%list_elem_of_lookup & Hor)%list.Exists_exists. destruct Hj0 as [j0 Hj0]. unfold iget.
  apply wp_bind, wp_fs_acquire; [done|]. apply wp_bind, wp_gets. cbn [with_held itable set_flog].
  assert (∀ k y (Q : nat → fsst → Prop), Q k (at_inode k y s) → wp (blk (sunlock itable_lock);; mret k) (at_inode k y (with_held [itable_lock] s)) Q) as Hrel.
  { intros k y Q HQ. apply wp_bind, wp_fs_release, wp_ret; [done|]. change (with_held [] _) with (at_inode k y (with_held [] s)). by rewrite with_held_id. }
  pose proof (iget_scan_spec dv inum (itable s) 0 None) as Hscan.
  destruct (iget_scan (itable s) 0 dv inum None) as [[j|] [|]].
  - destruct Hscan as (k & x & Hk & Hst & ->). apply wp_bind. eapply wp_upd_inode; [done|]. apply Hrel. exact (iget_found s dv inum k x Hk Hst).
  - destruct Hscan as (Hno & k & x & Hk & Hst & ->). apply wp_bind. eapply wp_upd_inode; [done|]. apply Hrel. exact (iget_new s dv inum k x Hk Hst Hno).
  - done.
  - exfalso. destruct Hscan as [H1 H2]. rewrite Forall_lookup in H1, H2. destruct Hor as [Hor|Hor]; [exact (H2 _ _ Hj0 Hor)|exact (H1 _ _ Hj0 Hor)].
Qed.

(** ** Directories *)

(** The name of an entry as a string, and the entries of a directory. *)
Definition dname (e : dirent) : list byte := cstr (Z.to_nat DIRSIZ) (ptr (de_name e)).
Definition dir_entry (v : contents) (x : dinode) (k : nat) : dirent :=
  decode_dirent (file_range v x (Z.of_nat k * sizeof_dirent) sizeof_dirent).
Definition dir_size (x : dinode) : nat := Z.to_nat (d_size x / sizeof_dirent).
Definition entries (v : contents) (x : dinode) : list dirent := dir_entry v x <$> seq 0 (dir_size x).

(** Entry [e] is in use and has the name that [nm] has as a string. *)
Definition has_name (nm : list byte) (e : dirent) : Prop := de_inum e ≠ 0 ∧ dname e = cstr (Z.to_nat DIRSIZ) (ptr nm).
#[export] Instance has_name_dec nm e : Decision (has_name nm e).
Proof. unfold has_name. apply _. Defined.

(** Directories: whole entries only, no holes. *)
Record dir_ok (s : fsst) (i : nat) (x : inode) : Prop := {
  do_fok : fok ∅ s;
  do_inode : itable s !! i = Some x;
  do_dev : i_dev x = fdev s;
  do_type : d_type (i_d x) = T_DIR;
  do_size : 0 ≤ d_size (i_d x) ≤ MAXFILE * BSIZE;
  do_whole : d_size (i_d x) mod sizeof_dirent = 0;
  do_mapped : mapped (fview s) (i_d x);
}.

Lemma namecmp_zero s t : namecmp s t = 0 ↔ cstr (Z.to_nat DIRSIZ) (ptr s) = cstr (Z.to_nat DIRSIZ) (ptr t).
Proof. apply strncmp_zero. Qed.

(** The first entry with a name, from entry [k] on. *)
Definition find_from (nm : list byte) (v : contents) (x : dinode) (k : nat) : option (nat * dirent) :=
  list_find (has_name nm) (drop k (entries v x)).

Lemma drop_entries v x k : (k < dir_size x)%nat → drop k (entries v x) = dir_entry v x k :: drop (S k) (entries v x).
Proof. intros Hk. apply drop_S. unfold entries. by rewrite list_lookup_fmap, lookup_seq_lt. Qed.

(** One entry read. *)
Lemma read_entry s i x k s1 (Q : Z * list byte → fsst → Prop) : dir_ok s i x → fspare ∅ s → (k < dir_size (i_d x))%nat → same s s1 →
  (∀ s', same s s' → Q (sizeof_dirent, file_range (fview s) (i_d x) (Z.of_nat k * sizeof_dirent) sizeof_dirent) s') →
  wp (readi_kernel i (Z.of_nat k * sizeof_dirent) sizeof_dirent) s1 Q.
Proof.
  intros [Hok Hx Hdv Hty Hsz Hwh Hmap] Hsp Hk [K1 S1] HQ. unfold dir_size in Hk. assert (0 < sizeof_dirent) as Hpos by done.
  assert (MAXFILE * BSIZE < 2 ^ 32 - 16) as Hbig by done.
  pose proof (Z.div_mod (d_size (i_d x)) sizeof_dirent ltac:(lia)) as Hd. rewrite Hwh in Hd.
  assert (∀ k, addr_of (fview s1) (i_d x) k = addr_of (fview s) (i_d x) k) as Ha by (intros j; apply addr_of_ext; left; by eapply fstep_view).
  assert (fspare ∅ s1) as Hsp1 by (unfold fspare, spare; by rewrite (fstep_lh _ _ _ _ S1)).
  assert (Z.of_nat k * sizeof_dirent + sizeof_dirent ≤ d_size (i_d x)) as Hend by (unfold sizeof_dirent in *; lia).
  eapply wp_mono; [apply (readi_spec s1 i x K1); [by rewrite (fs_itable _ _ _ _ S1)|by rewrite (fstep_dev _ _ _ _ S1)|done| |lia|lia|lia|unfold sizeof_dirent in *; lia|lia]|].
  { intros bn Hbn Hlt. rewrite Ha. by apply Hmap. }
  intros r s' [Hs' ->]. rewrite Z.min_l, Z.max_r by (unfold sizeof_dirent in *; lia).
  assert (file_range (fview s1) (i_d x) (Z.of_nat k * sizeof_dirent) sizeof_dirent = file_range (fview s) (i_d x) (Z.of_nat k * sizeof_dirent) sizeof_dirent) as ->.
  { unfold file_range. apply list_fmap_ext. intros j o _. unfold file_byte. rewrite Ha. by rewrite (fstep_view _ _ _ _ _ S1). }
  apply HQ. destruct Hs' as [K' S']. split; [done|]. pose proof (fstep_trans _ _ _ _ _ _ _ S1 S') as S. rewrite (fstep_lh _ _ _ _ S1) in S.
  eapply fstep_ext; [|exact S]. intros m. by eapply fstep_view.
Qed.

(** What [dirlookup] finds from entry [k] on. *)
Inductive dirlookup_post (s : fsst) (x : inode) (nm : list byte) (k : nat) : option (nat * Z) → fsst → Prop :=
| dirlookup_none s' : find_from nm (fview s) (i_d x) k = None → same s s' → dirlookup_post s x nm k None s'
| dirlookup_some j e ip s1 s' : find_from nm (fview s) (i_d x) k = Some (j, e) → same s s1 → iget_post s1 (i_dev x) (de_inum e) ip s' →
    dirlookup_post s x nm k (Some (ip, Z.of_nat (k + j) * sizeof_dirent)) s'.

Lemma find_from_here nm v x k : (k < dir_size x)%nat → has_name nm (dir_entry v x k) → find_from nm v x k = Some (0%nat, dir_entry v x k).
Proof. intros Hk Hn. unfold find_from. rewrite drop_entries by done. cbn [list_find]. by rewrite decide_True. Qed.
Lemma find_from_next nm v x k : (k < dir_size x)%nat → ¬ has_name nm (dir_entry v x k) →
  find_from nm v x k = prod_map S id <$> find_from nm v x (S k).
Proof. intros Hk Hn. unfold find_from. rewrite drop_entries by done. cbn [list_find]. by rewrite decide_False. Qed.
Lemma dirlookup_next s x nm k r s' : (k < dir_size (i_d x))%nat → ¬ has_name nm (dir_entry (fview s) (i_d x) k) →
  dirlookup_post s x nm (S k) r s' → dirlookup_post s x nm k r s'.
Proof.
  intros Hk Hn [s1 Hf Hs|j e ip s1 s2 Hf Hs Hg]; pose proof (find_from_next nm _ _ k Hk Hn) as Hnext; rewrite Hf in Hnext; simpl in Hnext.
  - by apply dirlookup_none.
  - replace (S k + j)%nat with (k + S j)%nat by lia. by eapply dirlookup_some.
Qed.

Lemma dirlookup_loop_spec s i x nm : dir_ok s i x → fspare ∅ s → ∀ fuel k s1,
  (∀ j e, find_from nm (fview s) (i_d x) k = Some (j, e) → iget_room (i_dev x) (de_inum e) (itable s)) → same s s1 → (dir_size (i_d x) < k + fuel)%nat → (k ≤ dir_size (i_d x))%nat →
  wp (dirlookup_loop fuel i nm (Z.of_nat k * sizeof_dirent)) s1 (dirlookup_post s x nm k).
Proof.
  intros Hdir Hsp. pose proof Hdir as [Hok Hx Hdv Hty Hsz Hwh Hmap]. assert (0 < sizeof_dirent) as Hpos by done.
  pose proof (Z.div_mod (d_size (i_d x)) sizeof_dirent ltac:(lia)) as Hd. rewrite Hwh in Hd.
  induction fuel as [|fuel IH]; intros k s1 Hroom Hs Hfuel Hk; [lia|]. cbn [dirlookup_loop]. pose proof Hs as [K1 S1].
  apply wp_bind. eapply wp_get_inode; [by rewrite (fs_itable _ _ _ _ S1)|]. unfold dir_size in *.
  destruct (Z.ltb_spec (Z.of_nat k * sizeof_dirent) (d_size (i_d x))) as [Hlt|Hge].
  2:{ apply wp_ret, dirlookup_none; [|done]. unfold find_from. rewrite drop_ge; [done|]. unfold entries. rewrite length_fmap, length_seq. unfold dir_size, sizeof_dirent in *. lia. }
  assert (k < Z.to_nat (d_size (i_d x) / sizeof_dirent))%nat as Hk' by (unfold sizeof_dirent in *; lia).
  apply wp_bind. eapply read_entry; [done|done|done|done|]. intros s2 Hs2. pose proof Hs2 as [K2 S2].
  rewrite Z.eqb_refl. cbn [negb]. cbv zeta. fold (dir_entry (fview s) (i_d x) k). set (e := dir_entry (fview s) (i_d x) k).
  replace (Z.of_nat k * sizeof_dirent + sizeof_dirent) with (Z.of_nat (S k) * sizeof_dirent) by lia.
  assert (¬ has_name nm e → ∀ j e', find_from nm (fview s) (i_d x) (S k) = Some (j, e') → iget_room (i_dev x) (de_inum e') (itable s)) as Hroom'.
  { intros Hn j e' Hf. apply (Hroom (S j)). rewrite find_from_next by done. by rewrite Hf. }
  destruct (Z.eqb_spec (de_inum e) 0) as [Hz|Hnz].
  { assert (¬ has_name nm e) as Hn by (by intros [? _]). eapply wp_mono; [apply IH; [by apply Hroom'|done|lia|lia]|]. intros r s'. by apply dirlookup_next. }
  destruct (Z.eqb_spec (namecmp nm (de_name e)) 0) as [Hc|Hc].
  - apply namecmp_zero in Hc. assert (has_name nm e) as Hn by (by split). apply wp_bind. eapply wp_mono; [apply iget_spec; [by eapply fok_idle|]|].
    { rewrite (fs_itable _ _ _ _ S2). by apply (Hroom 0%nat), find_from_here. }
    intros ip s' Hg. apply wp_ret. rewrite <- (Nat.add_0_r k) at 2. eapply dirlookup_some; [by apply find_from_here|done|done].
  - assert (¬ has_name nm e) as Hn by (intros [_ Hn]; apply Hc, namecmp_zero; by rewrite <- Hn).
    eapply wp_mono; [apply IH; [by apply Hroom'|done|lia|lia]|]. intros r s'. by apply dirlookup_next.
Qed.

Lemma dirlookup_spec s i x nm : dir_ok s i x → fspare ∅ s →
  (∀ j e, find_from nm (fview s) (i_d x) 0 = Some (j, e) → iget_room (i_dev x) (de_inum e) (itable s)) →
  wp (dirlookup i nm) s (dirlookup_post s x nm 0).
Proof.
  intros Hdir Hsp Hroom. unfold dirlookup. apply wp_bind. eapply wp_get_inode; [apply Hdir|]. rewrite (do_type _ _ _ Hdir), Z.eqb_refl. cbn [negb].
  apply (dirlookup_loop_spec s i x nm Hdir Hsp _ 0); [done|split; [apply Hdir|apply fstep_refl]| |lia].
  unfold dir_size. pose proof (Z.div_pos (d_size (i_d x)) sizeof_dirent ltac:(apply Hdir) ltac:(done)). lia.
Qed.

(** *** Linking *)

(** The first entry not in use, or the end. *)
Definition free_entry (v : contents) (x : dinode) (k : nat) : Prop :=
  (k ≤ dir_size x)%nat ∧ ((k < dir_size x)%nat → de_inum (dir_entry v x k) = 0) ∧
  ∀ j, (j < k)%nat → de_inum (dir_entry v x j) ≠ 0.

Lemma dirlink_loop_spec s i x : dir_ok s i x → fspare ∅ s → ∀ fuel k s1, same s s1 → (dir_size (i_d x) < k + fuel)%nat →
  (k ≤ dir_size (i_d x))%nat → (∀ j, (j < k)%nat → de_inum (dir_entry (fview s) (i_d x) j) ≠ 0) →
  wp (dirlink_loop fuel i (Z.of_nat k * sizeof_dirent)) s1 (λ off s', same s s' ∧ ∃ k', off = Z.of_nat k' * sizeof_dirent ∧
    free_entry (fview s) (i_d x) k').
Proof.
  intros Hdir Hsp. pose proof Hdir as [Hok Hx Hdv Hty Hsz Hwh Hmap]. assert (0 < sizeof_dirent) as Hpos by done.
  pose proof (Z.div_mod (d_size (i_d x)) sizeof_dirent ltac:(lia)) as Hd. rewrite Hwh in Hd.
  induction fuel as [|fuel IH]; intros k s1 Hs Hfuel Hk Hbefore; [lia|]. cbn [dirlink_loop]. pose proof Hs as [K1 S1].
  apply wp_bind. eapply wp_get_inode; [by rewrite (fs_itable _ _ _ _ S1)|].
  destruct (Z.ltb_spec (Z.of_nat k * sizeof_dirent) (d_size (i_d x))) as [Hlt|Hge].
  2:{ apply wp_ret. split; [done|]. exists k. split; [done|]. split; [done|]. split; [|done]. unfold dir_size, sizeof_dirent in *. lia. }
  assert (k < dir_size (i_d x))%nat as Hk' by (unfold dir_size, sizeof_dirent in *; lia).
  apply wp_bind. eapply read_entry; [done|done|done|done|]. intros s2 Hs2. rewrite Z.eqb_refl. cbn [negb].
  fold (dir_entry (fview s) (i_d x) k). replace (Z.of_nat k * sizeof_dirent + sizeof_dirent) with (Z.of_nat (S k) * sizeof_dirent) by lia.
  destruct (Z.eqb_spec (de_inum (dir_entry (fview s) (i_d x) k)) 0) as [Hz|Hnz].
  - apply wp_ret. split; [done|]. exists k. done.
  - apply IH; [done|lia|lia|]. intros j Hj. destruct (decide (j = k)) as [->|]; [done|]. apply Hbefore. lia.
Qed.

Lemma file_range_lookup v x o n (k : nat) : (k < Z.to_nat n)%nat → file_range v x o n !! k = Some (file_byte v x (o + Z.of_nat k)).
Proof. intros Hk. unfold file_range. by rewrite list_lookup_fmap, lookup_seq_lt. Qed.
Lemma length_file_range v x o n : length (file_range v x o n) = Z.to_nat n.
Proof. unfold file_range. by rewrite length_fmap, length_seq. Qed.

Lemma file_range_ext v v' x x' o n : (∀ k, o ≤ k < o + n → file_byte v' x' k = file_byte v x k) → file_range v' x' o n = file_range v x o n.
Proof.
  intros H. apply list_eq. intros k. destruct (decide (k < Z.to_nat n)%nat).
  - rewrite !file_range_lookup by done. f_equal. apply H. lia.
  - rewrite !lookup_ge_None_2; [done|rewrite length_file_range; lia..].
Qed.

(** The contents after [writei], in pieces. *)
Lemma writei_range s i x off src r x' s' o n : writei_post s i x off src r x' s' → 0 ≤ off → 0 ≤ o → o + n ≤ MAXFILE * BSIZE →
  o + n ≤ off ∨ off + r ≤ o → file_range (fview s') x' o n = file_range (fview s) (i_d x) o n.
Proof.
  intros W Hoff Ho Hmax Hd. apply file_range_ext. intros k Hk. rewrite (wp_byte _ _ _ _ _ _ _ _ W) by lia. rewrite decide_False by lia. done.
Qed.
Lemma writei_range_src s i x off src x' s' : writei_post s i x off src (Z.of_nat (length src)) x' s' → 0 ≤ off →
  off + Z.of_nat (length src) ≤ MAXFILE * BSIZE → file_range (fview s') x' off (Z.of_nat (length src)) = src.
Proof.
  intros W Hoff Hmax. apply list_eq. intros k. destruct (decide (k < length src)%nat) as [Hk|Hk].
  - rewrite file_range_lookup, (wp_byte _ _ _ _ _ _ _ _ W) by lia. rewrite decide_True by lia.
    replace (Z.to_nat (off + Z.of_nat k - off)) with k by lia. destruct (lookup_lt_is_Some_2 src k Hk) as [b Hb].
    rewrite nth_lookup, Hb. done.
  - rewrite !lookup_ge_None_2; [done|lia|rewrite length_file_range; lia].
Qed.

Lemma decode_encode_dirent inum nm : 0 ≤ inum < 2 ^ 16 → length nm = Z.to_nat DIRSIZ → decode_dirent (encode_dirent (mk_dirent inum nm)) = mk_dirent inum nm.
Proof.
  intros Hi Hn. unfold decode_dirent, encode_dirent. cbn [de_inum de_name]. f_equal.
  - transitivity (inum mod 2 ^ 16); [apply (half_at [] inum nm); done|by apply Z.mod_small].
  - rewrite drop_app_length' by (by rewrite length_le_encode). apply take_ge. rewrite Hn. done.
Qed.

(** Name [nm] was linked to inode [inum] in directory [i]: one entry, not in use
    before or past the end, is new. *)
Record linked (s : fsst) (i : nat) (x : inode) (nm : list byte) (inum : Z) (k : nat) (x' : dinode) (s' : fsst) : Prop := {
  ln_dir : dir_ok s' i (iset_d x' x);
  ln_layout : layout s' ∧ file_ok s' x' ∧ more_used s s';
  ln_free : free_entry (fview s) (i_d x) k;
  ln_size : dir_size x' = Nat.max (dir_size (i_d x)) (S k);
  ln_new : dir_entry (fview s') x' k = mk_dirent inum (strncpy (Z.to_nat DIRSIZ) (ptr nm));
  ln_old j : (j < dir_size (i_d x))%nat → j ≠ k → dir_entry (fview s') x' j = dir_entry (fview s) (i_d x) j;
}.

Lemma dir_entry_range k : Z.of_nat k * sizeof_dirent = 16 * Z.of_nat k.
Proof. unfold sizeof_dirent. lia. Qed.

Lemma writei_linked s i x nm inum k x' s' : dir_ok s i x → free_entry (fview s) (i_d x) k → d_size (i_d x) + sizeof_dirent ≤ MAXFILE * BSIZE →
  0 ≤ inum < 2 ^ 16 →
  writei_post s i x (Z.of_nat k * sizeof_dirent) (encode_dirent (mk_dirent inum (strncpy (Z.to_nat DIRSIZ) (ptr nm)))) sizeof_dirent x' s' →
  linked s i x nm inum k x' s'.
Proof.
  intros [Hok Hx Hdv Hty Hsz Hwh Hmap] Hfree Hmax Hi W. set (src := encode_dirent _) in *.
  assert (Z.of_nat (length src) = sizeof_dirent) as Hlen.
  { unfold src, encode_dirent. rewrite length_app, length_le_encode. cbn [de_name]. by rewrite length_strncpy. }
  assert (0 < sizeof_dirent) as Hpos by done. pose proof (Z.div_mod (d_size (i_d x)) sizeof_dirent ltac:(lia)) as Hd. rewrite Hwh in Hd.
  destruct (wp_ok _ _ _ _ _ _ _ _ W) as (K & L & F & M). pose proof (wp_size _ _ _ _ _ _ _ _ W) as Hs'.
  assert (Z.of_nat k * sizeof_dirent ≤ d_size (i_d x)) as Hk by (destruct Hfree as [Hk _]; unfold dir_size, sizeof_dirent in *; lia).
  assert (d_size x' = Z.of_nat (Nat.max (dir_size (i_d x)) (S k)) * sizeof_dirent) as Hs''.
  { rewrite Hs'. unfold dir_size, sizeof_dirent in *. lia. }
  split; [split|by split_and!|done| | |].
  - done.
  - rewrite (wp_inode _ _ _ _ _ _ _ _ W). apply list_lookup_insert_eq. by eapply lookup_lt_Some.
  - simpl. by rewrite Hdv, (wp_dev _ _ _ _ _ _ _ _ W).
  - simpl. by destruct (wp_meta _ _ _ _ _ _ _ _ W) as [-> _].
  - simpl. rewrite Hs'. lia.
  - simpl. rewrite Hs''. apply Z.mod_mul. lia.
  - simpl. apply (wp_mapped _ _ _ _ _ _ _ _ W); [lia|done].
  - unfold dir_size at 1. rewrite Hs'', Z.div_mul by lia. lia.
  - assert (writei_post s i x (Z.of_nat k * sizeof_dirent) src (Z.of_nat (length src)) x' s') as W' by (by rewrite Hlen).
    pose proof (writei_range_src _ _ _ _ _ _ _ W' ltac:(lia) ltac:(lia)) as Hr. rewrite Hlen in Hr. unfold dir_entry. rewrite Hr.
    apply decode_encode_dirent; [done|apply length_strncpy].
  - intros j Hj Hne. unfold dir_entry. f_equal. eapply writei_range; [exact W|lia|lia| |].
    + unfold dir_size, sizeof_dirent in *. lia.
    + unfold sizeof_dirent. lia.
Qed.

(** Reading does not matter to the invariants. *)
Lemma same_layout s s' : same s s' → layout s → layout s'.
Proof. intros [_ S]. by eapply layout_view. Qed.
Lemma same_slot s s' x k : same s s' → slot (fview s') x k = slot (fview s) x k.
Proof. intros [_ S]. apply slot_ext. left. by eapply fstep_view. Qed.
Lemma same_more s s' : same s s' → more_used s s'.
Proof. intros [_ S]. by eapply more_used_view. Qed.
Lemma same_file s s' x : same s s' → file_ok s x → file_ok s' x.
Proof. intros Hs Hf. eapply file_ok_same; [done|by eapply same_more|apply Hf|]. intros k _. by apply same_slot. Qed.
Lemma same_apart s s' inum x : same s s' → inode_apart s inum x → inode_apart s' inum x.
Proof.
  intros Hs [A B C D E]. pose proof Hs as [_ S]. pose proof (fs_sb _ _ _ _ S) as Hsb. pose proof (same_more _ _ Hs) as M.
  split; [done|..]; rewrite Hsb.
  - by apply M.
  - unfold bitmap_block, is_block. by rewrite Hsb.
  - unfold is_block. rewrite Hsb. intros Hb. apply M; auto.
  - intros k Hk. rewrite (same_slot s s') by done. by apply E.
Qed.
Lemma same_byte s s' x o : same s s' → file_byte (fview s') x o = file_byte (fview s) x o.
Proof.
  intros [_ S]. unfold file_byte. rewrite (addr_of_ext (fview s)) by (left; by eapply fstep_view). by rewrite (fstep_view _ _ _ _ _ S).
Qed.
Lemma same_entry s s' x k : same s s' → dir_entry (fview s') x k = dir_entry (fview s) x k.
Proof. intros Hs. unfold dir_entry. f_equal. apply file_range_ext. intros o _. by apply same_byte. Qed.
Lemma same_dir s s' i x : same s s' → dir_ok s i x → dir_ok s' i x.
Proof.
  intros Hs [A B C D E F G]. pose proof Hs as [K S].
  split; [done|by rewrite (fs_itable _ _ _ _ S)|by rewrite (fstep_dev _ _ _ _ S)|done|done|done|].
  intros bn H1 H2. rewrite (addr_of_ext (fview s)) by (left; by eapply fstep_view). by apply G.
Qed.
Lemma same_linked s s1 i x nm inum k x' s' : same s s1 → linked s1 i x nm inum k x' s' → linked s i x nm inum k x' s'.
Proof.
  intros Hs [A (B1 & B2 & B3) (C1 & C2 & C3) D E F]. split; [done|split_and!; [done|done|]|split_and!; [done|..]|done|done|].
  - eapply more_used_trans; [by eapply same_more|done].
  - intros Hk. rewrite <- (same_entry s s1) by done. auto.
  - intros j Hj. rewrite <- (same_entry s s1) by done. auto.
  - intros j Hj Hne. rewrite <- (same_entry s s1) by done. auto.
Qed.

Lemma blocks_touched_entry k : blocks_touched (Z.of_nat k * sizeof_dirent) sizeof_dirent = 1.
Proof.
  unfold blocks_touched, sizeof_dirent. change BSIZE with 1024. pose proof (Z.mod_pos_bound (Z.of_nat k * 16) 1024 ltac:(lia)) as Hm.
  assert ((Z.of_nat k * 16) mod 1024 = 16 * (Z.of_nat k mod 64)) as E.
  { change 1024 with (16 * 64). rewrite Z.mul_comm. by rewrite Zmult_mod_distr_l. }
  rewrite E in *. symmetry. apply (Z.div_unique _ 1024 1 (16 * (Z.of_nat k mod 64) + 16 + 1024 - 1 - 1024)); lia.
Qed.

(** [dirlink] of a name that is not in the directory. *)
Lemma dirlink_spec s i x nm inum : dir_ok s i x → layout s → file_ok s (i_d x) → wf_dinode (i_d x) → inode_apart s (i_inum x) (i_d x) →
  froom 7 s → find_from nm (fview s) (i_d x) 0 = None → d_size (i_d x) + sizeof_dirent ≤ MAXFILE * BSIZE → 0 ≤ inum < 2 ^ 16 →
  wp (dirlink i nm inum) s (λ r s', r = 0 ∧ (∃ k x', linked s i x nm inum k x' s') ∨ r = -1 ∧ ∀ b, is_block s' b → used s' b = true).
Proof.
  intros Hdir Hlo Hf Hwf Hia Hr Hnone Hmax Hi. assert (fspare ∅ s) as Hsp by (by eapply froom_spare). unfold dirlink.
  apply wp_bind. eapply wp_mono; [apply dirlookup_spec; [done|done|]|].
  { intros j e Hf'. congruence. }
  intros r s1 [s1' _ Hs1|j e ip s1' s2 Hsome _ _]; [|congruence]. pose proof (same_dir _ _ _ _ Hs1 Hdir) as Hdir1.
  apply wp_bind. eapply wp_get_inode; [apply Hdir1|].
  apply wp_bind. eapply wp_mono; [apply (dirlink_loop_spec s i x Hdir Hsp _ 0 s1' Hs1); [|lia|lia]|].
  { unfold dir_size. pose proof (Z.div_pos (d_size (i_d x)) sizeof_dirent ltac:(apply Hdir) ltac:(done)). lia. }
  intros off s2 (Hs2 & k & -> & Hfree). apply wp_bind. set (src := encode_dirent _).
  assert (Z.of_nat (length src) = sizeof_dirent) as Hlen.
  { unfold src, encode_dirent. rewrite length_app, length_le_encode. cbn [de_name]. by rewrite length_strncpy. }
  assert (0 < sizeof_dirent) as Hpos by done. pose proof (Z.div_mod (d_size (i_d x)) sizeof_dirent ltac:(lia)) as Hd. rewrite (do_whole _ _ _ Hdir) in Hd.
  pose proof (do_size _ _ _ Hdir) as Hsz. assert (Z.of_nat k * sizeof_dirent ≤ d_size (i_d x)) as Hk by (destruct Hfree as [Hk _]; unfold dir_size, sizeof_dirent in *; lia).
  pose proof (same_dir _ _ _ _ Hs2 Hdir) as Hdir2.
  eapply wp_mono; [apply (writei_spec s2 i x _ src); [apply Hdir2|apply Hdir2|apply Hdir2|by eapply same_layout|by eapply same_file|done|by eapply same_apart|lia|lia|]|].
  { rewrite Hlen, blocks_touched_entry. eapply froom_step; [apply Hs2|exact Hr|]. unfold log_n. lia. }
  intros r' s3 [x' W]. destruct (Z.eqb_spec r' sizeof_dirent) as [->|Hne]; apply wp_ret; [left|right].
  - split; [done|]. exists k, x'. eapply same_linked; [done|]. apply writei_linked; [done| |done|done|done].
    destruct Hfree as (F1 & F2 & F3). split; [done|]. split; [|intros j]; rewrite (same_entry s s2) by done; auto.
  - split; [done|]. pose proof (wp_count _ _ _ _ _ _ _ _ W). apply (wp_full _ _ _ _ _ _ _ _ W). lia.
Qed.

(** The directory after a link. *)
Lemma find_first nm v x j e : find_from nm v x 0 = Some (j, e) ↔
  (j < dir_size x)%nat ∧ e = dir_entry v x j ∧ has_name nm e ∧ ∀ k, (k < j)%nat → ¬ has_name nm (dir_entry v x k).
Proof.
  unfold find_from. rewrite drop_0, list_find_Some. unfold entries. split.
  - intros (Hj & Hn & Hb). apply list_lookup_fmap_Some in Hj as (k & -> & Hk). apply lookup_seq in Hk as [-> Hlt]. simpl in *.
    split_and!; [lia|done|done|]. intros k Hk. eapply (Hb k); [|done]. by rewrite list_lookup_fmap, lookup_seq_lt by lia.
  - intros (Hj & -> & Hn & Hb). split_and!; [by rewrite list_lookup_fmap, lookup_seq_lt|done|].
    intros k y Hy Hk. rewrite list_lookup_fmap, lookup_seq_lt in Hy by lia. injection Hy as <-. auto.
Qed.

Lemma find_none nm v x : find_from nm v x 0 = None ↔ ∀ k, (k < dir_size x)%nat → ¬ has_name nm (dir_entry v x k).
Proof.
  unfold find_from. rewrite drop_0, list_find_None, Forall_lookup. unfold entries. split.
  - intros H k Hk. apply (H k). by rewrite list_lookup_fmap, lookup_seq_lt.
  - intros H k e He. apply list_lookup_fmap_Some in He as (j & -> & Hj). apply lookup_seq in Hj as [-> Hlt]. simpl. auto.
Qed.

Lemma linked_found s i x nm inum k x' s' : linked s i x nm inum k x' s' → inum ≠ 0 → find_from nm (fview s) (i_d x) 0 = None →
  ∃ e, find_from nm (fview s') x' 0 = Some (k, e) ∧ de_inum e = inum.
Proof.
  intros [_ _ (Hk & _) Hsz Hnew Hold] Hi Hnone. exists (dir_entry (fview s') x' k). rewrite Hnew. split; [|done].
  rewrite find_first in *. rewrite find_none in Hnone. split_and!; [lia|done|split; [done|]|].
  - unfold dname. cbn [de_name]. apply cstr_strncpy.
  - intros j Hj. rewrite Hold by lia. apply Hnone. lia.
Qed.

Lemma linked_other s i x nm inum k x' s' nm' : linked s i x nm inum k x' s' →
  cstr (Z.to_nat DIRSIZ) (ptr nm') ≠ cstr (Z.to_nat DIRSIZ) (ptr nm) →
  find_from nm' (fview s') x' 0 = find_from nm' (fview s) (i_d x) 0.
Proof.
  intros [_ _ (Hk & Hfree & _) Hsz Hnew Hold] Hne.
  assert (¬ has_name nm' (dir_entry (fview s') x' k)) as Hnk.
  { rewrite Hnew. intros [_ Hn]. unfold dname in Hn. cbn [de_name] in Hn. rewrite cstr_strncpy in Hn. done. }
  assert (∀ j, (j < dir_size x')%nat → has_name nm' (dir_entry (fview s') x' j) →
    (j < dir_size (i_d x))%nat ∧ dir_entry (fview s') x' j = dir_entry (fview s) (i_d x) j) as Hfwd.
  { intros j Hj Hn. assert (j ≠ k) by (by intros ->). assert (j < dir_size (i_d x))%nat by lia. split; [done|]. by apply Hold. }
  assert (∀ j, (j < dir_size (i_d x))%nat → has_name nm' (dir_entry (fview s) (i_d x) j) →
    (j < dir_size x')%nat ∧ dir_entry (fview s') x' j = dir_entry (fview s) (i_d x) j) as Hbwd.
  { intros j Hj Hn. split; [lia|]. apply Hold; [done|]. intros ->. destruct Hn as [Hn _]. auto. }
  apply option_eq. intros [j e]. rewrite !find_first. split; intros (Hj & -> & Hn & Hb).
  - destruct (Hfwd j Hj Hn) as [Hj' Ej]. rewrite Ej in *. split_and!; [done|done|done|]. intros l Hl Hnl.
    destruct (Hbwd l ltac:(lia) Hnl) as [_ El]. apply (Hb l Hl). by rewrite El.
  - destruct (Hbwd j Hj Hn) as [Hj' Ej]. rewrite Ej. split_and!; [done|done|done|]. intros l Hl Hnl.
    destruct (Hfwd l ltac:(lia) Hnl) as [_ El]. apply (Hb l Hl). by rewrite <- El.
Qed.

(** ** Paths *)

(** A path as a mathematician splits it: at every slash, empty components
    dropped. *)
Fixpoint split (p : list byte) : list (list byte) :=
  match p with
  | [] => [[]]
  | c :: p =>
      if decide (c = slash) then [] :: split p
      else match split p with h :: t => (c :: h) :: t | [] => [[c]] end
  end.
Definition components (p : list byte) : list (list byte) := filter (λ e, e ≠ []) (split p).

(** The names [skipelem] yields one after the other. *)
Fixpoint walk (fuel : nat) (path name : list byte) : list (list byte) :=
  match fuel with
  | O => []
  | S fuel =>
      match skipelem path name with
      | None => []
      | Some (name, path) => cstr (Z.to_nat DIRSIZ) (ptr name) :: walk fuel path name
      end
  end.

Definition no_nul (p : list byte) : Prop := Forall (λ c, c ≠ x00) p.

Lemma components_slash p : components (slash :: p) = components p.
Proof. unfold components. cbn [split]. rewrite decide_True by done. by rewrite filter_cons_False by naive_solver. Qed.

Lemma split_elem e r : Forall (λ c, c ≠ slash) e → split (e ++ slash :: r) = e :: split r ∧ split e = [e].
Proof.
  induction 1 as [|c e Hc He [IH1 IH2]]; [done|]. simpl. rewrite !decide_False by done.
  by rewrite IH1, IH2.
Qed.
Lemma components_elem e r : e ≠ [] → Forall (λ c, c ≠ slash) e → components (e ++ slash :: r) = e :: components r ∧ components e = [e].
Proof.
  intros Hne He. unfold components. destruct (split_elem e r He) as [-> ->]. rewrite !filter_cons_True by done. done.
Qed.

Lemma skip_slashes_spec p tl : tl = [] ∨ (∃ j, tl = x00 :: j) → ∃ q, skip_slashes (p ++ tl) = q ++ tl ∧ components q = components p ∧
  (∀ r, q ≠ slash :: r) ∧ (length q ≤ length p)%nat ∧ (no_nul p → no_nul q).
Proof.
  intros Htl. induction p as [|c p (q & IH1 & IH2 & IH3 & IH4 & IH5)].
  - exists []. split_and!; try done. by destruct Htl as [->|[j ->]].
  - simpl. destruct (decide (c = slash)) as [->|Hc].
    + exists q. rewrite components_slash. split_and!; [done|done|done|lia|]. intros H. apply IH5. by inversion H.
    + exists (c :: p). split_and!; [done|done|by intros r [= ->]|done|done].
Qed.

Lemma take_elem_spec p tl : no_nul p → tl = [] ∨ (∃ j, tl = x00 :: j) → ∃ e r, take_elem (p ++ tl) = (e, r ++ tl) ∧ p = e ++ r ∧
  Forall (λ c, c ≠ slash) e ∧ (r = [] ∨ ∃ r', r = slash :: r').
Proof.
  intros Hp Htl. induction Hp as [|c p Hc Hp (e & r & IH1 & IH2 & IH3 & IH4)].
  - exists [], []. split_and!; [|done|done|by left]. by destruct Htl as [->|[j ->]].
  - simpl. destruct (decide (c = slash ∨ c = x00)) as [[-> | ->]|Hn]; [|done|].
    + exists [], (slash :: p). split_and!; [done|done|done|right; by exists p].
    + exists (c :: e), r. rewrite IH1. split_and!; [done|by rewrite IH2|constructor; [naive_solver|done]|done].
Qed.

Lemma cstr_take n l : no_nul l → cstr n (ptr l) = take n l.
Proof.
  revert l. induction n as [|n IH]; intros l Hl; [done|]. destruct Hl as [|c l Hc Hl]; [exact (cstr_replicate (S n) 0)|].
  cbn [cstr take]. unfold ptr at 1 2. cbn [nth]. rewrite decide_False by done. f_equal. by apply IH.
Qed.
Lemma cstr_end n l tl : no_nul l → (length l < n)%nat → cstr n (ptr (l ++ x00 :: tl)) = l.
Proof.
  intros Hl. revert n. induction Hl as [|c l Hc Hl IH]; intros [|n] Hn; try (simpl in Hn; lia); [done|].
  cbn [cstr app]. unfold ptr at 1 2. cbn [nth]. rewrite decide_False by done. f_equal. apply IH. simpl in Hn. lia.
Qed.

(** One step of [skipelem]. *)
Lemma skipelem_spec p tl name : no_nul p → tl = [] ∨ (∃ j, tl = x00 :: j) →
  match components p with
  | [] => skipelem (p ++ tl) name = None
  | e :: es => ∃ name' q, skipelem (p ++ tl) name = Some (name', q ++ tl) ∧ cstr (Z.to_nat DIRSIZ) (ptr name') = take (Z.to_nat DIRSIZ) e ∧
      components q = es ∧ no_nul q ∧ (length q < length p)%nat
  end.
Proof.
  intros Hp Htl. unfold skipelem. destruct (skip_slashes_spec p tl Htl) as (q & -> & Hq & Hns & Hlen & Hqn). specialize (Hqn Hp).
  rewrite <- Hq. destruct q as [|c q]; [by destruct Htl as [->|[j ->]]|]. simpl app. cbv zeta.
  assert (c ≠ x00) as Hc by (by inversion Hqn).
  destruct (take_elem_spec (c :: q) tl Hqn Htl) as (e & r & Hte & Heq & Hes & Hr).
  assert (e ≠ []) as Hne by (intros ->; destruct Hr as [->|[r' ->]]; [done|]; eapply Hns, Heq).
  assert (no_nul e ∧ no_nul r) as [Hen Hrn] by (rewrite Heq in Hqn; by apply Forall_app in Hqn).
  assert (components (c :: q) = e :: components r) as ->.
  { rewrite Heq. destruct Hr as [->|[r' ->]]; [rewrite app_nil_r; apply (components_elem e [] Hne Hes)|]. rewrite components_slash. by apply components_elem. }
  rewrite decide_False by done. change (c :: q ++ tl) with ((c :: q) ++ tl). rewrite Hte.
  destruct (skip_slashes_spec r tl Htl) as (q' & -> & Hq' & _ & Hlen' & Hqn'). eexists _, q'. split; [done|]. split; [|split_and!; [done|auto|]].
  - change (Z.to_nat DIRSIZ) with 14%nat. destruct (Z.geb_spec (Z.of_nat (length e)) DIRSIZ) as [Hge|Hlt]; unfold DIRSIZ in *.
    + rewrite cstr_take by (by apply Forall_take). by rewrite take_take.
    + cbn [app]. rewrite cstr_end by (done || lia). symmetry. apply take_ge. lia.
  - apply (f_equal length) in Heq. rewrite length_app in Heq. simpl in *. destruct e; [done|]. simpl in *. lia.
Qed.

Lemma walk_spec tl : tl = [] ∨ (∃ j, tl = x00 :: j) → ∀ fuel p name, no_nul p → (length p < fuel)%nat →
  walk fuel (p ++ tl) name = map (take (Z.to_nat DIRSIZ)) (components p).
Proof.
  intros Htl. induction fuel as [|fuel IH]; intros p name Hp Hf; [lia|]. cbn [walk]. pose proof (skipelem_spec p tl name Hp Htl) as Hs.
  destruct (components p) as [|e es]; [by rewrite Hs|]. destruct Hs as (name' & q & -> & Hn & <- & Hq & Hl). rewrite Hn. cbn [map]. f_equal. apply IH; [done|lia].
Qed.

(** ** The file system, as the system calls use it *)




(** [bmap].  For a block number within the largest file, in a transaction
    with room, it returns the address of the block, allocated now if the file had
    none there, the indirect block too if need be; or 0, when no block is left.
    The contents of the file are the same either way (a new block is zero), every
    other block in use keeps its contents, no two blocks of the file coincide.
    Beyond the largest file it panics. *)
Theorem bmap_correct s i x bn : fok ∅ s → itable s !! i = Some x → i_dev x = fdev s → layout s → file_ok s (i_d x) → 0 ≤ bn → froom 5 s →
  (bn < MAXFILE → ∃ a x' s', bmap i bn s = Ok a s' ∧ extended 5 s i x x' s' ∧
     (∀ o, 0 ≤ o < MAXFILE * BSIZE → file_byte (fview s') x' o = file_byte (fview s) (i_d x) o) ∧
     (a ≠ 0 → addr_of (fview s') x' bn = a ∧ good_block s' a) ∧ (a = 0 → ∀ c, is_block s' c → used s' c = true)) ∧
  (MAXFILE ≤ bn → bmap i bn s = Panic "bmap: out of range").
Proof.
  intros Hok Hx Hdv Hlo Hf Hbn Hr. split.
  - intros Hmax. destruct (wp_elim _ _ _ (bmap_spec s i x bn Hok Hx Hdv Hlo Hf ltac:(lia) Hr)) as (a & s' & E & Hp).
    destruct (bmap_contents _ _ _ _ _ _ _ Hf (conj Hbn Hmax) Hp) as (x' & Hx' & Hb & Ha & Hfull). exists a, x', s'.
    split; [exact E|]. clear E. split; [done|]. split; [done|]. split; [|done]. intros Hz. specialize (Ha Hz). split; [done|].
    rewrite <- Ha. rewrite <- addr_slot by lia. apply (fo_good _ _ (ex_file _ _ _ _ _ _ Hx')); [lia|]. by rewrite addr_slot, Ha by lia.
  - intros Hge. unfold bmap, get_inode, mbind, M_bind. rewrite Hx. unfold MAXFILE in Hge.
    destruct (Z.ltb_spec bn NDIRECT); [unfold NINDIRECT in Hge; change (BSIZE / 4) with 256 in Hge; lia|].
    by destruct (Z.ltb_spec (bn - NDIRECT) NINDIRECT); [lia|].
Qed.

(** [skipelem] takes a path apart.  Called over and over on a path, ended by a
    NUL or by the buffer, it yields the components between slashes in order, each
    cut to [DIRSIZ] characters, whatever the name buffer held, and then reports
    the end. *)
Theorem skipelem_walk p tl name fuel : no_nul p → tl = [] ∨ (∃ j, tl = x00 :: j) → (length p < fuel)%nat →
  walk fuel (p ++ tl) name = map (take (Z.to_nat DIRSIZ)) (components p).
Proof. intros Hp Htl Hf. by apply walk_spec. Qed.

(** ** Witnesses *)

(** A file of one block. *)
Lemma slot_single v x a k : d_addrs x = a :: replicate 12 0 → 0 ≤ k ≤ MAXFILE → slot v x k = if k =? 0 then a else 0.
Proof.
  intros Hx Hk. unfold slot, addr_of, ind_of. rewrite Hx. simpl. destruct (Z.eqb_spec k MAXFILE) as [->|]; [done|]. unfold NDIRECT.
  destruct (Z.ltb_spec k 12), (Z.eqb_spec k 0) as [->|]; try (done || lia).
  assert (∃ j, Z.to_nat k = S j ∧ (j < 12)%nat) as (j & -> & Hj) by (exists (Z.to_nat k - 1)%nat; lia).
  simpl. do 12 (destruct j as [|j]; [done|]). lia.
Qed.
Lemma file_ok_single s x a : d_addrs x = a :: replicate 12 0 → good_block s a → file_ok s x.
Proof.
  intros Hx Ha. split; [by rewrite Hx|..].
  - intros k Hk Hz. rewrite (slot_single _ _ a) in * by done. by destruct (k =? 0).
  - intros k k' Hk Hk' Hz E. rewrite !(slot_single _ _ a) in * by done. destruct (Z.eqb_spec k 0), (Z.eqb_spec k' 0); congruence.
Qed.

Section demo.
Context (s : fsst) (M : mounted s).

Lemma mounted_good a : 34 ≤ a < 36 → good_block s a.
Proof using M.
  intros Ha. split; [unfold is_block; rewrite (mo_sb _ M); simpl; lia|]. split; [rewrite mounted_used by (done || lia); lia|].
  split; [apply mounted_home; [done|lia]|]. intros Hb. apply mounted_bitmap in Hb; [lia|done].
Qed.
Lemma mounted_mapped x a : d_addrs x = a :: replicate 12 0 → a ≠ 0 → 0 < d_size x ≤ BSIZE → mapped (fview s) x.
Proof.
  intros Hx Ha Hsz bn Hbn Hlt. assert (bn = 0) as -> by (pose proof BSIZE_pos; nia). unfold addr_of. rewrite Hx. done.
Qed.
Lemma mounted_apart inum x a : d_addrs x = a :: replicate 12 0 → good_block s a → 34 ≤ a → 0 ≤ inum < 16 → inode_apart s inum x.
Proof using M.
  intros Hx Hg Ha Hi.
  assert (IBLOCK inum (fsb s) = 32) as Hib by (rewrite (mo_sb _ M); unfold IBLOCK; change IPB with 16; rewrite Z.div_small by lia; done).
  split; rewrite ?Hib; [lia|by apply mounted_home|intros Hb%mounted_bitmap; done|by intros; rewrite mounted_used|].
  intros k Hk. rewrite (slot_single _ _ a) by done. destruct (k =? 0); lia.
Qed.

End demo.

Lemma demo_inode_wf x : x = demo_root ∨ x = demo_file → wf_dinode x.
Proof. intros [-> | ->]; (split; simpl; try lia; [done|repeat constructor; lia]). Qed.

Definition demo_inode : inode := mk_inode 1 2 1 (Some 7) true demo_file.
Definition demo_dir : inode := mk_inode 1 1 1 (Some 7) true demo_root.

Lemma mounted_dir s : mounted s → dir_ok s 0 demo_dir.
Proof.
  intros M. split; [apply M|by rewrite (mo_itable _ M)|by rewrite (mo_dev _ M)|done|done|done|]. by eapply (mounted_mapped s _ 34).
Qed.




Lemma bmap_correct_witness : ∃ s a x' s', bmap 1 300 s = Panic "bmap: out of range" ∧ bmap 1 12 s = Ok a s' ∧ extended 5 s 1 demo_inode x' s'.
Proof.
  destruct demo_mounted as [s M].
  assert (fok ∅ s ∧ itable s !! 1%nat = Some demo_inode ∧ i_dev demo_inode = fdev s ∧ layout s ∧ file_ok s demo_file ∧ froom 5 s) as (H1 & H2 & H3 & H4 & H5 & H6).
  { split_and!; [apply M|by rewrite (mo_itable _ M)|by rewrite (mo_dev _ M)|by apply mounted_layout|by eapply (file_ok_single s _ 35), mounted_good|eapply froom_le; [apply M|lia]]. }
  destruct (bmap_correct s 1 demo_inode 300 H1 H2 H3 H4 H5 ltac:(lia) H6) as [_ Hp].
  destruct (bmap_correct s 1 demo_inode 12 H1 H2 H3 H4 H5 ltac:(lia) H6) as [Hq _]. destruct Hq as (a & x' & s' & E & Hx & _); [done|].
  exists s, a, x', s'. split; [apply Hp; done|]. split; [exact E|exact Hx].
Defined.

(** The path [//usr/bin], with a NUL and rubbish after it. *)
Lemma skipelem_walk_witness :
  walk 10 ([x2f; x2f; x75; x73; x72; x2f; x62; x69; x6e] ++ [x00; x78]) (replicate 14 xff) = [[x75; x73; x72]; [x62; x69; x6e]].
Proof.
  rewrite skipelem_walk; [reflexivity|repeat constructor; done|right; by eexists|simpl; lia].
Defined.
