(* ===== verification/Mkfs.v ===== *)
(** * The builder of the disk image, [mkfs/mkfs.c]

    The program runs on the host.  Its image file is the sectors it holds and
    their number; a hole reads as zeros.  A file to put into the image is what
    [open] and the successive [read]s of it give.  [lseek] and [write] on the
    image succeed.  [die] and failed assertions end the run. *)

From S2P Require Import Prelude Riscv Mem CString Bio Log Fs.

Definition NINODES : Z := 200.

Definition nbitmap : Z := FSSIZE / (BSIZE * 8) + 1.
Definition ninodeblocks : Z := NINODES / IPB + 1.
Definition nlog : Z := LOGSIZE.
Definition nmeta : Z := 2 + nlog + ninodeblocks + nbitmap.
Definition nblocks : Z := FSSIZE - nmeta.

(** The image, its length in sectors, and the counters. *)
Record mst := mk_mst { image : Z → list byte; nsect : Z; freeinode : Z; freeblock : Z }.
Definition set_image v n (s : mst) : mst := mk_mst v n (freeinode s) (freeblock s).
Definition set_freeinode n (s : mst) : mst := mk_mst (image s) (nsect s) n (freeblock s).
Definition set_freeblock n (s : mst) : mst := mk_mst (image s) (nsect s) (freeinode s) n.

Definition die {A} (msg : string) : M mst A := panic msg.
Definition assert (b : bool) : M mst unit := if b then mret () else panic "assertion failed".

(** To the byte order of the disk, which the encoding of structures below uses. *)
Definition xshort (x : Z) : Z := le_decode (le_encode 2 x).
Definition xint (x : Z) : Z := le_decode (le_encode 4 x).

Definition sb : superblock :=
  mk_sb FSMAGIC (xint FSSIZE) (xint nblocks) (xint NINODES) (xint nlog) (xint 2) (xint (2 + nlog))
    (xint (2 + nlog + ninodeblocks)).

(** ** Sectors *)

(** The sector [lseek] goes to: the offset [sec * BSIZE] is a [uint]. *)
Definition seek (sec : Z) : Z := u32 (sec * BSIZE) / BSIZE.

Definition wsect (sec : Z) (buf : list byte) : M mst unit :=
  modify (λ s, set_image (λ n, if n =? seek sec then buf else image s n) (Z.max (nsect s) (seek sec + 1)) s).

Definition rsect (sec : Z) : M mst (list byte) :=
  s ← gets (λ s, s);
  if seek sec <? nsect s then mret (image s (seek sec)) else die "read".

(** ** Inodes *)

Definition winode (inum : Z) (ip : dinode) : M mst unit :=
  let bn := IBLOCK inum sb in
  buf ← rsect bn;
  wsect bn (splice (dinode_off inum) (encode_dinode ip) buf).

Definition rinode (inum : Z) : M mst dinode :=
  let bn := IBLOCK inum sb in
  buf ← rsect bn;
  mret (decode_dinode (drop (Z.to_nat (dinode_off inum)) buf)).

Definition ialloc (type : Z) : M mst Z :=
  inum ← gets freeinode;
  modify (set_freeinode (u32 (inum + 1)));;
  winode inum (mk_dinode (xshort type) 0 0 (xshort 1) (xint 0) (replicate 13 0));;
  mret inum.

(** ** The bitmap *)

Fixpoint balloc_bits (n : nat) (i : Z) (buf : list byte) : list byte :=
  match n with
  | O => buf
  | S n =>
      let k := Z.to_nat (i / 8) in
      balloc_bits n (i + 1)
        (<[k := byte_of_Z (Z.lor (Z_of_byte (nth k buf x00)) (Z.shiftl 1 (i mod 8)))]> buf)
  end.

Definition balloc (used : Z) : M mst unit :=
  assert (used <? BSIZE * 8);;
  wsect (sb_bmapstart sb) (balloc_bits (Z.to_nat used) 0 (replicate (Z.to_nat BSIZE) x00)).

(** ** Contents *)

(** [freeblock++] *)
Definition new_block : M mst Z :=
  b ← gets freeblock;
  modify (set_freeblock (u32 (b + 1)));;
  mret b.

Definition addr (din : dinode) (k : Z) : Z := nth (Z.to_nat k) (d_addrs din) 0.
Definition set_addr (din : dinode) (k a : Z) : dinode := dset_addrs (<[Z.to_nat k := a]> (d_addrs din)) din.

(** The block [fbn] of a file, given one if it has none. *)
Definition iappend_block (din : dinode) (fbn : Z) : M mst (dinode * Z) :=
  if fbn <? NDIRECT then
    din ← (if xint (addr din fbn) =? 0 then b ← new_block; mret (set_addr din fbn (xint b)) else mret din);
    mret (din, xint (addr din fbn))
  else
    din ← (if xint (addr din NDIRECT) =? 0 then b ← new_block; mret (set_addr din NDIRECT (xint b)) else mret din);
    indirect ← rsect (xint (addr din NDIRECT));
    indirect ←
      (if word indirect (Z.to_nat (fbn - NDIRECT)) =? 0 then
         b ← new_block;
         let indirect := put_word (Z.to_nat (fbn - NDIRECT)) (xint b) indirect in
         wsect (xint (addr din NDIRECT)) indirect;;
         mret indirect
       else mret indirect);
    mret (din, xint (word indirect (Z.to_nat (fbn - NDIRECT)))).

Fixpoint iappend_loop (fuel : nat) (din : dinode) (off : Z) (p : list byte) : M mst (dinode * Z) :=
  match fuel with
  | O => no_fuel
  | S fuel =>
      if Z.of_nat (length p) >? 0 then
        let fbn := off / BSIZE in
        assert (fbn <? MAXFILE);;
        '(din, x) ← iappend_block din fbn;
        let n1 := Z.min (Z.of_nat (length p)) ((fbn + 1) * BSIZE - off) in
        buf ← rsect x;
        wsect x (splice (off - fbn * BSIZE) (take (Z.to_nat n1) p) buf);;
        iappend_loop fuel din (u32 (off + n1)) (drop (Z.to_nat n1) p)
      else mret (din, off)
  end.

Definition iappend (inum : Z) (p : list byte) : M mst unit :=
  din ← rinode inum;
  '(din, off) ← iappend_loop (S (length p)) din (xint (d_size din)) p;
  winode inum (dset_size (xint off) din).

(** ** The program *)

(** A path without its leading directory, and the name of the file in the image. *)
Definition strip_user (path : list byte) : list byte :=
  if decide (take 5 path = bytes "user/") then drop 5 path else path.
Definition shortname (path : list byte) : list byte :=
  match strip_user path with x5f :: n => n | n => n end.

(** An argument: its path, and the results of the reads if it can be opened. *)
Record hostfile := mk_hostfile { h_path : list byte; h_reads : option (list (list byte)) }.

Fixpoint append_all (inum : Z) (bufs : list (list byte)) : M mst unit :=
  match bufs with
  | [] => mret ()
  | b :: bufs => iappend inum b;; append_all inum bufs
  end.

Definition dirent_of (inum : Z) (name : list byte) : list byte :=
  encode_dirent (mk_dirent (xshort inum) (strncpy (Z.to_nat DIRSIZ) (ptr name))).

Definition add_file (rootino : Z) (f : hostfile) : M mst unit :=
  assert (bool_decide (x2f ∉ strip_user (h_path f)));;
  match h_reads f with
  | None => die "open"
  | Some bufs =>
      inum ← ialloc T_FILE;
      iappend rootino (dirent_of inum (shortname (h_path f)));;
      append_all inum bufs
  end.

Fixpoint add_files (rootino : Z) (fs : list hostfile) : M mst unit :=
  match fs with
  | [] => mret ()
  | f :: fs => add_file rootino f;; add_files rootino fs
  end.

Fixpoint zero_sectors (n : nat) (i : Z) : M mst unit :=
  match n with
  | O => mret ()
  | S n => wsect i (replicate (Z.to_nat BSIZE) x00);; zero_sectors n (i + 1)
  end.

Definition superblock_bytes : list byte :=
  concat (map (le_encode 4) [sb_magic sb; sb_size sb; sb_nblocks sb; sb_ninodes sb; sb_nlog sb; sb_logstart sb;
                             sb_inodestart sb; sb_bmapstart sb]).

(** [main] from the moment the image file is open. *)
Definition build (fs : list hostfile) : M mst unit :=
  modify (set_freeblock nmeta);;
  zero_sectors (Z.to_nat FSSIZE) 0;;
  wsect 1 (splice 0 superblock_bytes (replicate (Z.to_nat BSIZE) x00));;
  rootino ← ialloc T_DIR;
  assert (rootino =? ROOTINO);;
  iappend rootino (dirent_of rootino (bytes "."));;
  iappend rootino (dirent_of rootino (bytes ".."));;
  add_files rootino fs;;
  din ← rinode rootino;
  let off := xint (d_size din) in
  let off := u32 ((off / BSIZE + 1) * BSIZE) in
  winode rootino (dset_size (xint off) din);;
  used ← gets freeblock;
  balloc (i32 used).

(** [img] says whether an image file is named, and then whether it can be
    opened. *)
Definition main (img : option bool) (fs : list hostfile) : M mst unit :=
  match img with
  | None => panic "Usage: mkfs fs.img files..."
  | Some false => die "open"
  | Some true => build fs
  end.

(** The truncated, empty image file. *)
Definition start : mst := mk_mst (λ _, replicate (Z.to_nat BSIZE) x00) 0 1 0.
