(* ===== verification/MkfsSpec.v ===== *)
(** * What the builder of the disk image writes

    [mkfs] ends with an image that is a file system: every file has its bytes,
    the blocks of files are in use, marked so, and owned once, and the root
    directory names the files.  Contents and blocks are read the way [FsSpec]
    and [FsFile] read a disk. *)

From S2P Require Import Prelude Riscv Mem CString Bio Log BioSpec LogSpec Fs FsSpec FsFile Mkfs.

#[local] Opaque BSIZE.

(** ** A file in an image *)

(** The file with inode [x] has the bytes [bs] and zeros after them; it has a
    data block where [n] bytes would need one and an indirect block where [m]
    bytes would, all different and in [[nmeta, fb)]. *)
Record file_in (v : contents) (fb : Z) (x : dinode) (bs : list byte) (n m : Z) : Prop := {
  fi_len : length (d_addrs x) = 13%nat;
  fi_byte o : 0 ≤ o < MAXFILE * BSIZE → file_byte v x o = nth (Z.to_nat o) bs x00;
  fi_addr k : 0 ≤ k < MAXFILE → addr_of v x k = 0 ↔ n ≤ k * BSIZE;
  fi_ind : ind_of x = 0 ↔ m ≤ NDIRECT * BSIZE;
  fi_slot k : 0 ≤ k ≤ MAXFILE → slot v x k ≠ 0 → nmeta ≤ slot v x k < fb;
  fi_inj k k' : 0 ≤ k ≤ MAXFILE → 0 ≤ k' ≤ MAXFILE → slot v x k ≠ 0 → slot v x k = slot v x k' → k = k';
}.

(** From [v] and [x] to [v'] and [x'], with the blocks from [fb] on free: only
    blocks of the file and free ones change, and the file gets only free ones. *)
Record grows (v : contents) (fb : Z) (x : dinode) (v' : contents) (x' : dinode) : Prop := {
  gr_view b : v' b ≠ v b → fb ≤ b ∨ ∃ k, 0 ≤ k ≤ MAXFILE ∧ slot v x k ≠ 0 ∧ slot v x k = b;
  gr_slot k : 0 ≤ k ≤ MAXFILE → slot v' x' k = slot v x k ∨ fb ≤ slot v' x' k;
  gr_meta : x' = dset_addrs (d_addrs x') x;
}.

Lemma grows_refl v fb x : grows v fb x v x.
Proof. split; [done|by left|by rewrite dset_addrs_id]. Qed.
Lemma grows_trans v fb x v1 fb1 x1 v2 x2 : fb ≤ fb1 → grows v fb x v1 x1 → grows v1 fb1 x1 v2 x2 → grows v fb x v2 x2.
Proof.
  intros Hle [V1 S1 M1] [V2 S2 M2]. split.
  - intros b Hb. destruct (decide (v1 b = v b)) as [E|E]; [|by apply V1].
    destruct (V2 b) as [?|(k & Hk & Hz & <-)]; [congruence|left; lia|].
    destruct (S1 k Hk) as [E1|]; [|by left]. right. exists k. by rewrite <- E1.
  - intros k Hk. destruct (S2 k Hk) as [->|]; [by apply S1|right; lia].
  - rewrite M2, M1. done.
Qed.

Lemma slot_ind v x : slot v x MAXFILE = ind_of x.
Proof. unfold slot. by rewrite Z.eqb_refl. Qed.

(** One more data block, a zero one, for block [k0] of the file. *)
Lemma file_in_add v fb x bs n m v' x' k0 n' : file_in v fb x bs n m → nmeta ≤ fb → 0 ≤ k0 < MAXFILE → addr_of v x k0 = 0 →
  length (d_addrs x') = 13%nat → ind_of x' = ind_of x → v' fb = zero_block →
  (∀ k, 0 ≤ k < MAXFILE → addr_of v' x' k = if decide (k = k0) then fb else addr_of v x k) →
  (∀ k, 0 ≤ k < MAXFILE → addr_of v x k ≠ 0 → v' (addr_of v x k) = v (addr_of v x k)) →
  (∀ k, 0 ≤ k < MAXFILE → n' ≤ k * BSIZE ↔ n ≤ k * BSIZE ∧ k ≠ k0) →
  file_in v' (fb + 1) x' bs n' m.
Proof.
  intros [L B A I S J] Hfb Hk0 Hz HL HI Hv0 Ha Hv Hn. assert (0 < nmeta) as Hm by done.
  assert (∀ k, 0 ≤ k ≤ MAXFILE → slot v' x' k = if decide (k = k0) then fb else slot v x k) as Hs.
  { intros k Hk. unfold slot. destruct (Z.eqb_spec k MAXFILE); [|apply Ha; lia]. by rewrite decide_False by lia. }
  split; [done| | |by rewrite HI| |].
  - intros o Ho. pose proof (in_file o Ho) as Hb. rewrite <- B by done. unfold file_byte. rewrite Ha by done.
    destruct (decide (o / BSIZE = k0)) as [E|].
    + destruct (Z.eqb_spec fb 0); [lia|]. rewrite Hv0, nth_zero, E, Hz. done.
    + destruct (Z.eqb_spec (addr_of v x (o / BSIZE)) 0) as [|Hnz]; [done|]. by rewrite Hv.
  - intros k Hk. rewrite Ha, Hn by done. destruct (decide (k = k0)); [split; [lia|tauto]|]. rewrite A by done. tauto.
  - intros k Hk. rewrite Hs by done. case_decide; [lia|]. intros Hnz. specialize (S k Hk Hnz). lia.
  - intros k k' Hk Hk'. rewrite !Hs by done. repeat case_decide; subst; try done; intros Hnz E.
    + rewrite E in Hnz. specialize (S k' Hk' Hnz). lia.
    + specialize (S k Hk Hnz). lia.
    + by apply J.
Qed.

(** One sector replaced. *)
Definition put_sector (c : Z) (d : list byte) (v : contents) : contents := λ n, if n =? c then d else v n.
Lemma put_sector_same c d v : put_sector c d v c = d.
Proof. unfold put_sector. by rewrite Z.eqb_refl. Qed.
Lemma put_sector_other c d v b : b ≠ c → put_sector c d v b = v b.
Proof. intros H. unfold put_sector. by destruct (Z.eqb_spec b c). Qed.
Lemma put_sector_changed c d v b : put_sector c d v b ≠ v b → b = c.
Proof. destruct (decide (b = c)); [done|]. by rewrite put_sector_other. Qed.

Lemma length_set_addr x k a : length (d_addrs (set_addr x k a)) = length (d_addrs x).
Proof. apply length_insert. Qed.
Lemma addr_set_addr x k a j : 0 ≤ k → 0 ≤ j < 13 → length (d_addrs x) = 13%nat →
  addr (set_addr x k a) j = if decide (j = k) then a else addr x j.
Proof.
  intros Hk Hj HL. unfold addr, set_addr. cbn [d_addrs dset_addrs]. rewrite !nth_lookup. destruct (decide (j = k)) as [->|].
  - by rewrite list_lookup_insert_eq by lia.
  - by rewrite list_lookup_insert_ne by lia.
Qed.
Lemma addr_of_direct v x k : k < NDIRECT → addr_of v x k = addr x k.
Proof. intros H. unfold addr_of. by destruct (Z.ltb_spec k NDIRECT); [|lia]. Qed.
Lemma addr_of_indirect v x k : NDIRECT ≤ k → addr_of v x k = if ind_of x =? 0 then 0 else word (v (ind_of x)) (Z.to_nat (k - NDIRECT)).
Proof. intros H. unfold addr_of. by destruct (Z.ltb_spec k NDIRECT); [lia|]. Qed.
Lemma ind_of_addr x : ind_of x = addr x NDIRECT.
Proof. done. Qed.

Section growth.
Context (v : contents) (fb : Z) (x : dinode) (bs : list byte) (n m : Z).
Context (F : file_in v fb x bs n m) (Hfb : nmeta ≤ fb < 2 ^ 32).

(** A first direct block. *)
Lemma grow_direct k0 n' : 0 ≤ k0 < NDIRECT → addr x k0 = 0 → v fb = zero_block →
  (∀ k, 0 ≤ k < MAXFILE → n' ≤ k * BSIZE ↔ n ≤ k * BSIZE ∧ k ≠ k0) →
  file_in v (fb + 1) (set_addr x k0 fb) bs n' m ∧ grows v fb x v (set_addr x k0 fb).
Proof using F Hfb.
  intros Hk0 Hz Hv Hn. assert (NDIRECT < MAXFILE ∧ NDIRECT = 12) as [HM HN] by done. pose proof (fi_len _ _ _ _ _ _ F) as HL.
  assert (ind_of (set_addr x k0 fb) = ind_of x) as HI by (rewrite !ind_of_addr, addr_set_addr, decide_False by lia; done).
  assert (∀ k, 0 ≤ k < MAXFILE → addr_of v (set_addr x k0 fb) k = if decide (k = k0) then fb else addr_of v x k) as Ha.
  { intros k Hk. destruct (decide (k < NDIRECT)).
    - rewrite !addr_of_direct, addr_set_addr by lia. done.
    - rewrite !addr_of_indirect, HI by lia. by rewrite decide_False by lia. }
  split.
  - eapply (file_in_add v fb x bs n m v _ k0); try done; [lia|lia|by rewrite addr_of_direct by lia|by rewrite length_set_addr].
  - split; [done| |done]. intros k Hk. unfold slot. destruct (Z.eqb_spec k MAXFILE); [by left|]. rewrite Ha by lia. case_decide; [right; lia|by left].
Qed.

(** The indirect block. *)
Lemma grow_ind m' : ind_of x = 0 → v fb = zero_block → NDIRECT * BSIZE < m' →
  file_in v (fb + 1) (set_addr x NDIRECT fb) bs n m' ∧ grows v fb x v (set_addr x NDIRECT fb).
Proof using F Hfb.
  intros Hz Hv Hm'. assert (NDIRECT < MAXFILE ∧ NDIRECT = 12 ∧ 0 < nmeta) as (HM & HN & Hnm) by done. pose proof F as [L B A I S J].
  assert (ind_of (set_addr x NDIRECT fb) = fb) as HI by (rewrite !ind_of_addr, addr_set_addr, decide_True by lia; done).
  assert (∀ k, 0 ≤ k < MAXFILE → addr_of v (set_addr x NDIRECT fb) k = addr_of v x k) as Ha.
  { intros k Hk. destruct (decide (k < NDIRECT)).
    - rewrite !addr_of_direct, addr_set_addr, decide_False by lia. done.
    - rewrite !addr_of_indirect, HI, Hz, Hv, word_zero by lia. by destruct (Z.eqb_spec fb 0). }
  assert (∀ k, 0 ≤ k ≤ MAXFILE → slot v (set_addr x NDIRECT fb) k = if decide (k = MAXFILE) then fb else slot v x k) as Hs.
  { intros k Hk. unfold slot. destruct (Z.eqb_spec k MAXFILE); [by rewrite decide_True|]. rewrite decide_False by done. apply Ha; lia. }
  split; split.
  - by rewrite length_set_addr.
  - intros o Ho. rewrite <- B by done. unfold file_byte. rewrite Ha by (by apply in_file). done.
  - intros k Hk. rewrite Ha by done. auto.
  - rewrite HI. lia.
  - intros k Hk. rewrite Hs by done. case_decide; [lia|]. intros Hnz. specialize (S k Hk Hnz). lia.
  - intros k k' Hk Hk'. rewrite !Hs by done. repeat case_decide; subst; try done; intros Hnz E.
    + rewrite E in Hnz. specialize (S k' Hk' Hnz). lia.
    + specialize (S k Hk Hnz). lia.
    + by apply J.
  - done.
  - intros k Hk. rewrite Hs by done. case_decide; [right; lia|by left].
  - done.
Qed.

(** A block of the file is not its indirect block. *)
Lemma data_not_ind k : 0 ≤ k < MAXFILE → addr_of v x k ≠ 0 → addr_of v x k ≠ ind_of x.
Proof using F.
  intros Hk Hnz E. enough (k = MAXFILE) by lia. rewrite <- (addr_slot v x k) in E, Hnz by done.
  apply (fi_inj _ _ _ _ _ _ F); [lia|lia|done|by rewrite slot_ind].
Qed.

(** An entry of the indirect block. *)
Lemma grow_entry k0 n' (v' := put_sector (ind_of x) (put_word (Z.to_nat (k0 - NDIRECT)) fb (v (ind_of x))) v) :
  NDIRECT ≤ k0 < MAXFILE → ind_of x ≠ 0 → word (v (ind_of x)) (Z.to_nat (k0 - NDIRECT)) = 0 →
  length (v (ind_of x)) = Z.to_nat BSIZE → v fb = zero_block →
  (∀ k, 0 ≤ k < MAXFILE → n' ≤ k * BSIZE ↔ n ≤ k * BSIZE ∧ k ≠ k0) →
  file_in v' (fb + 1) x bs n' m ∧ grows v fb x v' x.
Proof using F Hfb.
  intros Hk0 Hi Hz Hlen Hv Hn. assert (NDIRECT = 12 ∧ 0 < nmeta ∧ MAXFILE = NDIRECT + BSIZE / 4 ∧ BSIZE = 4 * (BSIZE / 4)) as (HN & Hnm & HM & HB) by done.
  assert (nmeta ≤ ind_of x < fb) as Hib by (pose proof (fi_slot _ _ _ _ _ _ F MAXFILE) as S; rewrite slot_ind in S; apply S; [lia|done]).
  assert (∀ k, 0 ≤ k < MAXFILE → addr_of v' x k = if decide (k = k0) then fb else addr_of v x k) as Ha.
  { intros k Hk. destruct (decide (k < NDIRECT)).
    - rewrite !addr_of_direct, decide_False by lia. done.
    - rewrite !addr_of_indirect by lia. destruct (Z.eqb_spec (ind_of x) 0); [done|]. unfold v'. rewrite put_sector_same, word_put_word by lia.
      destruct (decide (k = k0)) as [->|]; [rewrite decide_True by done; apply u32_small; lia|by rewrite decide_False by lia]. }
  split.
  - eapply (file_in_add v fb x bs n m _ _ k0); try done; [lia|lia| |by destruct F|..].
    + rewrite addr_of_indirect by lia. by destruct (Z.eqb_spec (ind_of x) 0).
    + unfold v'. by rewrite put_sector_other by lia.
    + intros k Hk Hnz. apply put_sector_other. by apply data_not_ind.
  - split; [| |by rewrite dset_addrs_id].
    + intros b ->%put_sector_changed. right. exists MAXFILE. rewrite slot_ind. split_and!; [lia|lia|done|done].
    + intros k Hk. unfold slot. destruct (Z.eqb_spec k MAXFILE); [by left|]. rewrite Ha by lia. case_decide; [right; lia|by left].
Qed.

(** Bytes written at the end of the file, within its last block. *)
Lemma file_in_write c (off := Z.of_nat (length bs)) (a := addr_of v x (off / BSIZE)) :
  a ≠ 0 → off + Z.of_nat (length c) ≤ MAXFILE * BSIZE → off mod BSIZE + Z.of_nat (length c) ≤ BSIZE → off < MAXFILE * BSIZE → length (v a) = Z.to_nat BSIZE →
  file_in (put_sector a (splice (off mod BSIZE) c (v a)) v) fb x (bs ++ c) n m ∧ grows v fb x (put_sector a (splice (off mod BSIZE) c (v a)) v) x.
Proof using F.
  intros Ha Hmax Hfit Hoff Hlen. set (v' := put_sector _ _ _). pose proof F as [L B A I S J]. pose proof (in_file off ltac:(lia)) as Hk0.
  pose proof (Z.mod_pos_bound off BSIZE BSIZE_pos) as Hmod.
  assert (v' (ind_of x) = v (ind_of x)) as Hvi by (apply put_sector_other; intros E; by apply (data_not_ind (off / BSIZE))).
  assert (∀ k, addr_of v' x k = addr_of v x k) as Hk by (intros k; unfold addr_of; by rewrite Hvi).
  assert (∀ k, slot v' x k = slot v x k) as Hs by (intros k; unfold slot; by rewrite Hk).
  split; split; try done; try (intros; rewrite ?Hs, ?Hk in *; by auto).
  - intros o Ho. unfold file_byte. rewrite Hk. pose proof (in_file o Ho) as Hko. pose proof (Z.mod_pos_bound o BSIZE BSIZE_pos) as Hmo.
    specialize (B o Ho). unfold file_byte in B. destruct (decide (o / BSIZE = off / BSIZE)) as [E|E].
    + rewrite E in B |- *. fold a in B |- *. destruct (Z.eqb_spec a 0) as [|_]; [done|]. unfold v'. rewrite put_sector_same, nth_splice by lia.
      pose proof (same_block o off ltac:(lia) ltac:(lia) E) as Hd. case_decide.
      * rewrite app_nth2 by lia. f_equal. lia.
      * rewrite B. destruct (decide (o < off)); [rewrite app_nth1 by lia; done|]. rewrite !nth_overflow; [done|rewrite length_app; lia|lia].
    + assert ((if addr_of v x (o / BSIZE) =? 0 then x00 else nth (Z.to_nat (o mod BSIZE)) (v' (addr_of v x (o / BSIZE))) x00) = nth (Z.to_nat o) bs x00) as ->.
      { rewrite <- B. destruct (Z.eqb_spec (addr_of v x (o / BSIZE)) 0) as [|Hnz]; [done|]. unfold v'. rewrite put_sector_other; [done|]. intros E2.
        apply E. apply J; [lia|lia|by rewrite addr_slot|by rewrite !addr_slot]. }
      destruct (decide (o < off)); [rewrite app_nth1 by lia; done|]. rewrite !nth_overflow; [done| |lia]. rewrite length_app.
      pose proof (Z.div_mod o BSIZE). pose proof (Z.div_mod off BSIZE). nia.
  - intros b ->%put_sector_changed. right. exists (off / BSIZE). rewrite addr_slot by done. split_and!; [lia|lia|done|done].
  - by rewrite dset_addrs_id.
Qed.
End growth.

(** The number of blocks is all that lengths matter for. *)
Lemma file_in_len v fb x bs n m n' m' : file_in v fb x bs n m → (∀ k, 0 ≤ k < MAXFILE → n' ≤ k * BSIZE ↔ n ≤ k * BSIZE) →
  (m' ≤ NDIRECT * BSIZE ↔ m ≤ NDIRECT * BSIZE) → file_in v fb x bs n' m'.
Proof. intros [L B A I S J] Hn Hm. split; try done; [intros k Hk; rewrite Hn by done; auto|by rewrite Hm]. Qed.

(** The blocks that [n] bytes take, an indirect one included. *)
Definition blocks_for (n : Z) : Z := (n + BSIZE - 1) / BSIZE + (if n >? NDIRECT * BSIZE then 1 else 0).

Lemma blocks_for_next off : 0 ≤ off →
  blocks_for (off + 1) = blocks_for off + (if off mod BSIZE =? 0 then 1 else 0) + (if off =? NDIRECT * BSIZE then 1 else 0).
Proof.
  intros Ho. unfold blocks_for. pose proof BSIZE_pos as HB. pose proof (Z.mod_pos_bound off BSIZE HB) as Hm. pose proof (Z.div_mod off BSIZE ltac:(lia)) as Hd.
  assert ((off + 1 + BSIZE - 1) / BSIZE = (off + BSIZE - 1) / BSIZE + (if off mod BSIZE =? 0 then 1 else 0)) as ->.
  { replace (off + 1 + BSIZE - 1) with (off + 1 * BSIZE) by lia. rewrite Z.div_add by lia. destruct (Z.eqb_spec (off mod BSIZE) 0) as [E|E].
    - f_equal. apply Z.div_unique with (BSIZE - 1); lia.
    - rewrite Z.add_0_r. apply Z.div_unique with (off mod BSIZE - 1); lia. }
  destruct (Z.eqb_spec off (NDIRECT * BSIZE)) as [->|]; repeat case_z; lia.
Qed.
Lemma blocks_for_mono n n' : n ≤ n' → blocks_for n ≤ blocks_for n'.
Proof.
  intros H. unfold blocks_for. pose proof BSIZE_pos. assert ((n + BSIZE - 1) / BSIZE ≤ (n' + BSIZE - 1) / BSIZE) by (apply Z.div_le_mono; lia).
  repeat case_z; lia.
Qed.
Lemma block_bound off n k : 0 ≤ off → 0 < n → off mod BSIZE + n ≤ BSIZE → (off + n ≤ k * BSIZE ↔ off / BSIZE < k).
Proof. intros Ho Hn Hf. pose proof BSIZE_pos as HB. pose proof (Z.mod_pos_bound off BSIZE HB). pose proof (Z.div_mod off BSIZE). nia. Qed.
Lemma blocks_for_chunk off n : 0 ≤ off → 0 < n → off mod BSIZE + n ≤ BSIZE → blocks_for (off + n) = blocks_for (off + 1).
Proof.
  intros Ho Hn Hf. unfold blocks_for. pose proof BSIZE_pos as HB. pose proof (Z.mod_pos_bound off BSIZE HB) as Hm. pose proof (Z.div_mod off BSIZE ltac:(lia)) as Hd.
  assert (∀ k, 0 < k → off mod BSIZE + k ≤ BSIZE → (off + k + BSIZE - 1) / BSIZE = off / BSIZE + 1) as Hq.
  { intros k Hk Hk'. symmetry. apply Z.div_unique with (off mod BSIZE + k - 1); lia. }
  rewrite !Hq by lia. f_equal.
  pose proof (block_bound off n NDIRECT Ho Hn Hf). pose proof (block_bound off 1 NDIRECT Ho ltac:(lia) ltac:(lia)). repeat case_z; lia.
Qed.
Lemma block_bound_0 off k : 0 ≤ off → off mod BSIZE = 0 → (off ≤ k * BSIZE ↔ off / BSIZE ≤ k).
Proof. intros Ho Hf. pose proof BSIZE_pos as HB. pose proof (Z.div_mod off BSIZE). nia. Qed.

(** ** Sectors and counters *)

Record sectors (s : mst) : Prop := {
  se_n : nsect s = FSSIZE;
  se_len b : length (image s b) = Z.to_nat BSIZE;
  se_free : nmeta ≤ freeblock s ≤ FSSIZE;
  se_zero b : freeblock s ≤ b → image s b = zero_block;
}.

Lemma seek_small b : 0 ≤ b < FSSIZE → seek b = b.
Proof.
  intros Hb. unfold seek. assert (FSSIZE * BSIZE < 2 ^ 32) by done. pose proof BSIZE_pos. rewrite u32_small by nia. apply Z.div_mul. lia.
Qed.
Lemma xint_small z : 0 ≤ z < 2 ^ 32 → xint z = z.
Proof. intros Hz. unfold xint. rewrite le_decode_encode. by apply Z.mod_small. Qed.

Lemma rsect_wp s b (Q : list byte → mst → Prop) : sectors s → 0 ≤ b < FSSIZE → Q (image s b) s → wp (rsect b) s Q.
Proof.
  intros Hs Hb HQ. unfold rsect. apply wp_bind, wp_gets. rewrite seek_small, (se_n _ Hs) by done.
  destruct (Z.ltb_spec b FSSIZE); [|lia]. by apply wp_ret.
Qed.

Definition written (b : Z) (d : list byte) (s : mst) : mst := set_image (put_sector b d (image s)) (nsect s) s.
Lemma sectors_written b d s : sectors s → b < freeblock s → length d = Z.to_nat BSIZE → sectors (written b d s).
Proof.
  intros [N L F Z0] Hb Hd. split; [done| |done|].
  - intros c. simpl. unfold put_sector. by case_z.
  - intros c Hc. simpl in *. rewrite put_sector_other by lia. auto.
Qed.
Lemma wsect_wp s b d (Q : unit → mst → Prop) : sectors s → 0 ≤ b < FSSIZE → Q tt (written b d s) → wp (wsect b d) s Q.
Proof.
  intros Hs Hb HQ. unfold wsect. apply wp_modify. rewrite !seek_small by done.
  rewrite Z.max_l by (rewrite (se_n _ Hs); lia). exact HQ.
Qed.

Lemma sectors_next s : sectors s → freeblock s < FSSIZE → sectors (set_freeblock (freeblock s + 1) s).
Proof. intros [N L F Z0] Hb. split; [done|done|simpl; lia|]. intros c Hc. simpl in *. apply Z0. lia. Qed.
Lemma new_block_wp s (Q : Z → mst → Prop) : sectors s → freeblock s < FSSIZE →
  Q (freeblock s) (set_freeblock (freeblock s + 1) s) → wp new_block s Q.
Proof.
  intros Hs Hb HQ. unfold new_block. apply wp_bind, wp_gets, wp_bind, wp_modify. pose proof (se_free _ Hs).
  assert (FSSIZE < 2 ^ 32 ∧ 0 < nmeta) as [? ?] by done. rewrite u32_small by lia. by apply wp_ret.
Qed.

(** ** Appending *)

(** The file with inode [x] was given [c] blocks and is now as [file_in] says,
    with inode [x']. *)
Record grown (s : mst) (x : dinode) (bs : list byte) (n m c : Z) (s' : mst) (x' : dinode) : Prop := {
  gd_sectors : sectors s';
  gd_file : file_in (image s') (freeblock s') x' bs n m;
  gd_grows : grows (image s) (freeblock s) x (image s') x';
  gd_inodes : freeinode s' = freeinode s;
  gd_blocks : freeblock s' = freeblock s + c;
}.

Lemma grown_refl s x bs n m : sectors s → file_in (image s) (freeblock s) x bs n m → grown s x bs n m 0 s x.
Proof. intros Hs F. split; [done|done|apply grows_refl|done|lia]. Qed.
Lemma grown_trans s x bs n m c s1 x1 bs1 n1 m1 c1 s2 x2 : 0 ≤ c → grown s x bs n m c s1 x1 → grown s1 x1 bs1 n1 m1 c1 s2 x2 →
  grown s x bs1 n1 m1 (c + c1) s2 x2.
Proof.
  intros Hc [S1 F1 G1 I1 B1] [S2 F2 G2 I2 B2]. split; [done|done| |congruence|lia]. eapply grows_trans, G2; [|done]. lia.
Qed.
Lemma grown_len s x bs n m c s' x' n' m' : grown s x bs n m c s' x' → (∀ k, 0 ≤ k < MAXFILE → n' ≤ k * BSIZE ↔ n ≤ k * BSIZE) →
  (m' ≤ NDIRECT * BSIZE ↔ m ≤ NDIRECT * BSIZE) → grown s x bs n' m' c s' x'.
Proof. intros [S1 F1 G1 I1 B1] Hn Hm. split; try done. by eapply file_in_len. Qed.

Section append.
Context (s : mst) (x : dinode) (bs : list byte).
Notation off := (Z.of_nat (length bs)).
Notation fbn := (off / BSIZE).
Notation v := (image s).
Context (Hs : sectors s) (Hoff : off < MAXFILE * BSIZE).

Lemma free_range : nmeta ≤ freeblock s < 2 ^ 32.
Proof using Hs. clear Hoff. pose proof (se_free _ Hs). assert (FSSIZE < 2 ^ 32) by done. lia. Qed.

(** Addresses are small numbers. *)
Lemma slot_range n m k : file_in v (freeblock s) x bs n m → 0 ≤ k ≤ MAXFILE → 0 ≤ slot v x k < FSSIZE.
Proof using Hs.
  clear Hoff. intros F Hk. pose proof (se_free _ Hs). assert (0 < nmeta < FSSIZE) by done. destruct (decide (slot v x k = 0)) as [->|Hz]; [lia|].
  pose proof (fi_slot _ _ _ _ _ _ F k Hk Hz). lia.
Qed.
Lemma xint_slot n m k : file_in v (freeblock s) x bs n m → 0 ≤ k ≤ MAXFILE → xint (slot v x k) = slot v x k.
Proof using Hs. clear Hoff. intros F Hk. pose proof (slot_range n m k F Hk). assert (FSSIZE < 2 ^ 32) by done. apply xint_small. lia. Qed.

Lemma next_block k : 0 ≤ k < MAXFILE → off mod BSIZE = 0 → (off + 1 ≤ k * BSIZE ↔ off ≤ k * BSIZE ∧ k ≠ fbn).
Proof. clear Hs Hoff. intros Hk Hm. pose proof BSIZE_pos. rewrite block_bound by lia. rewrite block_bound_0 by lia. lia. Qed.
Lemma same_blocks k : off mod BSIZE ≠ 0 → (off + 1 ≤ k * BSIZE ↔ off ≤ k * BSIZE).
Proof.
  clear Hs Hoff. intros Hm. split; [lia|]. intros H. destruct (decide (off = k * BSIZE)) as [E|]; [|lia].
  destruct Hm. rewrite E. apply Z.mod_mul. pose proof BSIZE_pos. lia.
Qed.
Lemma addr_fbn n m : file_in v (freeblock s) x bs n m → (n = off ∨ n = off + 1) → addr_of v x fbn = 0 ↔ n = off ∧ off mod BSIZE = 0.
Proof using Hoff.
  clear Hs. intros F Hn. pose proof BSIZE_pos as HB. pose proof (in_file off ltac:(lia)). rewrite (fi_addr _ _ _ _ _ _ F) by done.
  pose proof (Z.mod_pos_bound off BSIZE HB). pose proof (Z.div_mod off BSIZE). destruct Hn; nia.
Qed.

Notation more := (if off mod BSIZE =? 0 then 1 else 0).

(** The direct case. *)
Lemma append_direct (Q : dinode * Z → mst → Prop) : file_in v (freeblock s) x bs off off → fbn < NDIRECT → freeblock s + more ≤ FSSIZE →
  (∀ x' s', grown s x bs (off + 1) off more s' x' → Q (x', addr_of (image s') x' fbn) s') →
  wp (iappend_block x fbn) s Q.
Proof using Hs Hoff.
  intros F Hlt Hroom HQ. pose proof (in_file off ltac:(lia)) as Hk. pose proof free_range as Hfr. assert (FSSIZE < 2 ^ 32 ∧ 0 < nmeta ∧ NDIRECT = 12) as (HF & Hnm & HN) by done.
  assert (addr x fbn = addr_of v x fbn) as Ea by (by rewrite addr_of_direct). unfold iappend_block.
  destruct (Z.ltb_spec fbn NDIRECT) as [_|]; [|lia]. pose proof (xint_slot off off fbn F ltac:(lia)) as Hx. rewrite addr_slot in Hx by done.
  apply wp_bind. rewrite Ea, Hx. pose proof (addr_fbn off off F (or_introl eq_refl)) as Hz.
  destruct (Z.eqb_spec (addr_of v x fbn) 0) as [E|E].
  - assert (off mod BSIZE = 0) as Hm by tauto. destruct (Z.eqb_spec (off mod BSIZE) 0) as [_|]; [|done]. apply wp_bind, new_block_wp; [done|lia|]. apply wp_ret, wp_ret.
    rewrite (xint_small (freeblock s)), addr_set_addr, decide_True, xint_small by (lia || apply F).
    destruct (grow_direct _ _ _ _ _ _ F Hfr fbn (off + 1)) as [F' G]; [lia|congruence|apply (se_zero _ Hs); lia|by intros; apply next_block|].
    specialize (HQ (set_addr x fbn (freeblock s)) (set_freeblock (freeblock s + 1) s)). simpl in HQ.
    rewrite addr_of_direct, addr_set_addr, decide_True in HQ by (lia || apply F). apply HQ. split; try done. apply sectors_next; [done|lia].
  - assert (off mod BSIZE ≠ 0) as Hm by tauto. destruct (Z.eqb_spec (off mod BSIZE) 0); [done|]. apply wp_ret, wp_ret. rewrite Ea, Hx.
    apply HQ. eapply grown_len; [by apply grown_refl| |done]. intros k _. by apply same_blocks.
Qed.

(** An indirect block is there, or made. *)
Lemma append_ind (Q : dinode → mst → Prop) : file_in v (freeblock s) x bs off off → NDIRECT ≤ fbn →
  freeblock s + (if off =? NDIRECT * BSIZE then 1 else 0) ≤ FSSIZE →
  (∀ x' s', grown s x bs off (off + 1) (if off =? NDIRECT * BSIZE then 1 else 0) s' x' → image s' = v → Q x' s') →
  wp (if xint (addr x NDIRECT) =? 0 then b ← new_block; mret (set_addr x NDIRECT (xint b)) else mret x) s Q.
Proof using Hs Hoff.
  intros F Hge Hroom HQ. pose proof free_range as Hfr. assert (FSSIZE < 2 ^ 32 ∧ 0 < nmeta ∧ 0 ≤ MAXFILE) as (HF & Hnm & HM) by done.
  rewrite <- ind_of_addr, <- (slot_ind v), (xint_slot off off) by (done || lia). rewrite slot_ind.
  assert (NDIRECT * BSIZE ≤ off) as Hof by (pose proof BSIZE_pos as HB; pose proof (Z.div_mod off BSIZE); pose proof (Z.mod_pos_bound off BSIZE HB); nia).
  pose proof (fi_ind _ _ _ _ _ _ F) as Hi. destruct (Z.eqb_spec (ind_of x) 0) as [E|E].
  - destruct (Z.eqb_spec off (NDIRECT * BSIZE)) as [Eo|]; [|tauto || lia]. apply wp_bind, new_block_wp; [done|lia|]. apply wp_ret.
    rewrite xint_small by lia. destruct (grow_ind _ _ _ _ _ _ F Hfr (off + 1)) as [F' G]; [done|apply (se_zero _ Hs); lia|lia|].
    apply HQ; [|done]. split; try done. apply sectors_next; [done|lia].
  - destruct (Z.eqb_spec off (NDIRECT * BSIZE)) as [Eo|]; [lia|]. apply wp_ret, HQ; [|done]. eapply grown_len; [by apply grown_refl|done|lia].
Qed.

(** The entry of the indirect block is there, or made. *)
Lemma append_entry (Q : list byte → mst → Prop) : file_in v (freeblock s) x bs off (off + 1) → NDIRECT ≤ fbn → freeblock s + more ≤ FSSIZE →
  (∀ s', grown s x bs (off + 1) (off + 1) more s' x → Q (image s' (ind_of x)) s') →
  wp (if word (v (ind_of x)) (Z.to_nat (fbn - NDIRECT)) =? 0 then
        b ← new_block;
        let indirect := put_word (Z.to_nat (fbn - NDIRECT)) (xint b) (v (ind_of x)) in
        wsect (xint (addr x NDIRECT)) indirect;; mret indirect
      else mret (v (ind_of x))) s Q.
Proof using Hs Hoff.
  intros F Hge Hroom HQ. pose proof (in_file off ltac:(lia)) as Hk. pose proof free_range as Hfr. assert (FSSIZE < 2 ^ 32 ∧ 0 < nmeta ∧ 0 ≤ MAXFILE) as (HF & Hnm & HM) by done.
  assert (NDIRECT * BSIZE ≤ off) as Hof by (pose proof BSIZE_pos as HB; pose proof (Z.div_mod off BSIZE); pose proof (Z.mod_pos_bound off BSIZE HB); nia).
  assert (ind_of x ≠ 0) as Hi by (rewrite (fi_ind _ _ _ _ _ _ F); lia). pose proof (addr_fbn off _ F (or_introl eq_refl)) as Hz.
  assert (nmeta ≤ ind_of x < freeblock s) as Hib by (rewrite <- (slot_ind v); apply (fi_slot _ _ _ _ _ _ F); [lia|by rewrite slot_ind]).
  rewrite addr_of_indirect in Hz by done. destruct (Z.eqb_spec (ind_of x) 0) as [|_]; [done|].
  destruct (Z.eqb_spec (word (v (ind_of x)) (Z.to_nat (fbn - NDIRECT))) 0) as [E|E].
  - assert (off mod BSIZE = 0) as Hm by tauto. destruct (Z.eqb_spec (off mod BSIZE) 0) as [_|]; [|done]. apply wp_bind, new_block_wp; [done|lia|]. cbv zeta.
    rewrite <- ind_of_addr, !xint_small by lia. pose proof (se_free _ Hs) as Hsf.
    apply wp_bind, wsect_wp; [apply sectors_next; [done|lia]|lia|]. apply wp_ret.
    destruct (grow_entry _ _ _ _ _ _ F Hfr fbn (off + 1)) as [F' G]; [lia|done|done|apply Hs|apply (se_zero _ Hs); lia|by intros; apply next_block|].
    match goal with |- Q _ ?s' => specialize (HQ s') end. simpl in HQ. rewrite put_sector_same in HQ. apply HQ. split; try done.
    apply sectors_written; [apply sectors_next; [done|lia]|simpl; lia|]. rewrite length_put_word; [apply Hs|]. rewrite (se_len _ Hs).
    assert (MAXFILE = NDIRECT + BSIZE / 4 ∧ BSIZE = 4 * (BSIZE / 4)) as [? ?] by done. lia.
  - assert (off mod BSIZE ≠ 0) as Hm by tauto. destruct (Z.eqb_spec (off mod BSIZE) 0); [done|]. apply wp_ret, HQ.
    eapply grown_len; [by apply grown_refl| |done]. intros k _. by apply same_blocks.
Qed.
End append.

Lemma iappend_block_wp s x bs (off := Z.of_nat (length bs)) (c := blocks_for (off + 1) - blocks_for off) (Q : dinode * Z → mst → Prop) :
  sectors s → off < MAXFILE * BSIZE → file_in (image s) (freeblock s) x bs off off → freeblock s + c ≤ FSSIZE →
  (∀ x' s', grown s x bs (off + 1) (off + 1) c s' x' → Q (x', addr_of (image s') x' (off / BSIZE)) s') →
  wp (iappend_block x (off / BSIZE)) s Q.
Proof.
  intros Hs Hoff F Hroom HQ. pose proof (in_file off ltac:(lia)) as Hk. pose proof BSIZE_pos as HB.
  pose proof (Z.div_mod off BSIZE ltac:(lia)) as Hd. pose proof (Z.mod_pos_bound off BSIZE HB) as Hmod. assert (0 ≤ off) as Ho by lia.
  unfold c in *. clear c. rewrite blocks_for_next in Hroom, HQ by done. destruct (decide (off / BSIZE < NDIRECT)) as [Hlt|Hge].
  - assert (off + 1 ≤ NDIRECT * BSIZE) as Hlim by nia. destruct (Z.eqb_spec off (NDIRECT * BSIZE)) as [|_]; [lia|].
    apply (append_direct s x bs Hs Hoff); [done|done|unfold off in *; lia|]. intros x' s' G. apply HQ. fold off in G.
    apply (grown_len _ _ _ _ _ _ _ _ (off + 1) (off + 1)) in G; [|done|lia].
    destruct G as [S1 F1 G1 I1 B1]. split; [done..|lia].
  - unfold iappend_block. destruct (Z.ltb_spec (off / BSIZE) NDIRECT) as [|_]; [lia|]. assert (0 ≤ MAXFILE) as HM by done.
    set (c1 := if off =? NDIRECT * BSIZE then 1 else 0) in *. set (c2 := if off mod BSIZE =? 0 then 1 else 0) in *.
    assert (0 ≤ c1 ∧ 0 ≤ c2) as [Hc1 Hc2] by (unfold c1, c2; repeat case_z; lia).
    apply wp_bind, (append_ind s x bs Hs Hoff); [done|fold off; lia|fold off c1; lia|]. intros x1 s1 G1 _. fold off c1 in G1.
    pose proof G1 as [Hs1 F1 _ _ B1]. pose proof (xint_slot s1 x1 bs Hs1 _ _ MAXFILE F1 ltac:(lia)) as Hx. rewrite slot_ind in Hx.
    pose proof (slot_range s1 x1 bs Hs1 _ _ MAXFILE F1 ltac:(lia)) as Hr. rewrite slot_ind in Hr.
    apply wp_bind. rewrite <- ind_of_addr, Hx. apply rsect_wp; [done|done|].
    apply wp_bind. pose proof (append_entry s1 x1 bs Hs1 Hoff) as AE. fold off in AE. rewrite <- ind_of_addr, Hx in AE. apply AE; [done|lia|fold c2; lia|].
    intros s2 G2. fold c2 in G2. apply wp_ret. pose proof G2 as [Hs2 F2 _ _ B2].
    pose proof (xint_slot s2 x1 bs Hs2 _ _ (off / BSIZE) F2 ltac:(lia)) as Hx2. rewrite addr_slot in Hx2 by done.
    assert (ind_of x1 ≠ 0) as Hi by (rewrite (fi_ind _ _ _ _ _ _ F1); nia).
    rewrite (addr_of_indirect (image s2)) in Hx2 by lia. destruct (Z.eqb_spec (ind_of x1) 0) as [|_]; [done|]. rewrite Hx2.
    specialize (HQ x1 s2). rewrite (addr_of_indirect (image s2)) in HQ by lia. destruct (Z.eqb_spec (ind_of x1) 0) as [|_]; [done|].
    apply HQ. eapply grown_trans in G2; [|exact Hc1|exact G1]. destruct G2 as [S3 F3 G3 I3 B3]. split; [done..|lia].
Qed.

Lemma grown_write s x bs n m c s' x' d (off := Z.of_nat (length bs)) (a := addr_of (image s') x' (off / BSIZE)) :
  0 ≤ c → grown s x bs n m c s' x' → a ≠ 0 → off + Z.of_nat (length d) ≤ MAXFILE * BSIZE → off mod BSIZE + Z.of_nat (length d) ≤ BSIZE → off < MAXFILE * BSIZE →
  grown s x (bs ++ d) n m c (written a (splice (off mod BSIZE) d (image s' a)) s') x'.
Proof.
  intros Hc G Ha Hmax Hfit Hoff. pose proof G as [Hs F _ _ _]. pose proof (in_file off ltac:(lia)) as Hk.
  destruct (file_in_write _ _ _ _ _ _ F d) as [F' G']; [done|done|done|done|apply Hs|].
  pose proof (fi_slot _ _ _ _ _ _ F (off / BSIZE) ltac:(lia)) as Hsl. rewrite addr_slot in Hsl by done. specialize (Hsl Ha).
  pose proof (Z.mod_pos_bound off BSIZE BSIZE_pos) as Hm.
  replace c with (c + 0) by lia. eapply grown_trans; [done|exact G|]. split; [|done|done|done|simpl; lia].
  apply sectors_written; [done|fold off a in Hsl; lia|]. rewrite length_splice; rewrite (se_len _ Hs); lia.
Qed.

Lemma iappend_loop_wp fuel p : ∀ s x bs (Q : dinode * Z → mst → Prop), let off := Z.of_nat (length bs) in let e := off + Z.of_nat (length p) in
  sectors s → e ≤ MAXFILE * BSIZE → file_in (image s) (freeblock s) x bs off off → freeblock s + (blocks_for e - blocks_for off) ≤ FSSIZE →
  (length p < fuel)%nat →
  (∀ x' s', grown s x (bs ++ p) e e (blocks_for e - blocks_for off) s' x' → Q (x', e) s') →
  wp (iappend_loop fuel x off p) s Q.
Proof.
  revert p. induction fuel as [|fuel IH]; [lia|]. intros p s x bs Q off e Hs Hmax F Hroom Hfuel HQ. cbn [iappend_loop].
  assert (MAXFILE * BSIZE < 2 ^ 32) as Hbig by done. pose proof BSIZE_pos as HB. assert (0 ≤ off) as Ho by lia.
  destruct (Z.gtb_spec (Z.of_nat (length p)) 0) as [Hp|Hp]; cycle 1.
  { destruct p; [|simpl in *; lia]. simpl in e. apply wp_ret. specialize (HQ x s). replace e with off in * by lia. apply HQ. rewrite app_nil_r.
    replace (blocks_for off - blocks_for off) with 0 by lia. by apply grown_refl. }
  pose proof (Z.div_mod off BSIZE ltac:(lia)) as Hd. pose proof (Z.mod_pos_bound off BSIZE HB) as Hmod. pose proof (in_file off ltac:(lia)) as Hk.
  destruct (Z.ltb_spec (off / BSIZE) MAXFILE) as [_|]; [|lia]. apply wp_bind, wp_ret.
  set (n1 := Z.min (Z.of_nat (length p)) ((off / BSIZE + 1) * BSIZE - off)). assert (0 < n1 ≤ Z.of_nat (length p) ∧ off mod BSIZE + n1 ≤ BSIZE) as [Hn1 Hfit] by (unfold n1; nia).
  assert (blocks_for off ≤ blocks_for (off + 1)) as Hb1 by (apply blocks_for_mono; lia).
  assert (blocks_for (off + n1) ≤ blocks_for e) as Hb2 by (apply blocks_for_mono; lia). pose proof (blocks_for_chunk off n1 ltac:(lia) ltac:(lia) ltac:(lia)) as Hb3.
  apply wp_bind. apply iappend_block_wp; [done|fold off; lia|done|fold off; lia|]. intros x1 s1 G1. fold off in G1 |- *. cbv beta iota.
  set (a := addr_of (image s1) x1 (off / BSIZE)) in *. pose proof G1 as [Hs1 F1 _ _ B1].
  assert (a ≠ 0) as Ha by (unfold a; rewrite (fi_addr _ _ _ _ _ _ F1) by done; nia).
  pose proof (slot_range s1 x1 bs Hs1 _ _ (off / BSIZE) F1 ltac:(lia)) as Hra. rewrite addr_slot in Hra by done. fold a in Hra.
  apply wp_bind, rsect_wp; [done|done|]. apply wp_bind, wsect_wp; [done|done|].
  replace (off - off / BSIZE * BSIZE) with (off mod BSIZE) by lia. assert (length (take (Z.to_nat n1) p) = Z.to_nat n1) as Hlt by (rewrite length_take; lia).
  eapply (grown_write _ _ _ _ _ _ _ _ (take (Z.to_nat n1) p)) in G1; [|lia|done|fold off; lia|fold off; lia|fold off; lia]. fold off a in G1.
  apply (grown_len _ _ _ _ _ _ _ _ (off + n1) (off + n1)) in G1; [| |]; cycle 1.
  { intros k _. rewrite !block_bound by lia. done. } { rewrite !block_bound by lia. done. }
  set (s2 := written _ _ _) in *. set (bs1 := bs ++ take (Z.to_nat n1) p) in *. assert (Z.of_nat (length bs1) = off + n1) as Hl1 by (unfold bs1; rewrite length_app; lia).
  rewrite u32_small by lia. rewrite <- Hl1. pose proof G1 as [Hs2 F2 _ _ B2].
  assert (off + n1 + Z.of_nat (length (drop (Z.to_nat n1) p)) = e) as He by (rewrite length_drop; lia).
  apply IH; rewrite ?Hl1, ?He; [done|lia|done|lia|rewrite length_drop; lia|]. intros x' s' G2. apply HQ.
  unfold bs1 in G2. rewrite <- app_assoc, take_drop in G2.
  assert (0 ≤ blocks_for (off + 1) - blocks_for off) as Hc by lia. pose proof (grown_trans _ _ _ _ _ _ _ _ _ _ _ _ _ _ Hc G1 G2) as [S3 F3 G3 I3 B3]. split; [done..|lia].
Qed.

(** ** The files of an image *)

(** Inode [inum] as it is in the image. *)
Definition dinode_of (v : contents) (inum : Z) : dinode :=
  decode_dinode (drop (Z.to_nat (dinode_off inum)) (v (IBLOCK inum sb))).

(** A file: its type, the size in its inode, and its bytes. *)
Record mfile := mk_mfile { m_type : Z; m_size : Z; m_data : list byte }.
Definition m_len (f : mfile) : Z := Z.of_nat (length (m_data f)).
Definition inode_is (x : dinode) (f : mfile) : Prop := x = mk_dinode (m_type f) 0 0 1 (m_size f) (d_addrs x).
Definition data_blocks (l : list mfile) : Z := foldr (λ f n, blocks_for (m_len f) + n) 0 l.

(** The image holds the files [l], file number [k] under inode number [k + 1],
    and nothing else but the superblock. *)
Record built (s : mst) (l : list mfile) : Prop := {
  bu_sectors : sectors s;
  bu_inodes : freeinode s = Z.of_nat (length l) + 1;
  bu_few : Z.of_nat (length l) < NINODES;
  bu_blocks : freeblock s = nmeta + data_blocks l;
  bu_inode (k : nat) f : l !! k = Some f → inode_is (dinode_of (image s) (Z.of_nat k + 1)) f ∧ wf_dinode (dinode_of (image s) (Z.of_nat k + 1));
  bu_file (k : nat) f : l !! k = Some f → file_in (image s) (freeblock s) (dinode_of (image s) (Z.of_nat k + 1)) (m_data f) (m_len f) (m_len f);
  bu_apart (k k' : nat) j j' : (k < length l)%nat → (k' < length l)%nat → k ≠ k' → 0 ≤ j ≤ MAXFILE → 0 ≤ j' ≤ MAXFILE →
    slot (image s) (dinode_of (image s) (Z.of_nat k + 1)) j ≠ 0 →
    slot (image s) (dinode_of (image s) (Z.of_nat k + 1)) j ≠ slot (image s) (dinode_of (image s) (Z.of_nat k' + 1)) j';
  bu_unused inum : Z.of_nat (length l) < inum < NINODES → d_type (dinode_of (image s) inum) = 0;
  bu_start b : b < sb_inodestart sb → image s b = if b =? 1 then splice 0 superblock_bytes zero_block else zero_block;
}.

Lemma IBLOCK_range inum : 0 ≤ inum < NINODES → sb_inodestart sb ≤ IBLOCK inum sb < nmeta - 1.
Proof.
  intros H. unfold IBLOCK. change IPB with 16. change (sb_inodestart sb) with 32. change nmeta with 46. unfold NINODES in H.
  pose proof (Z.div_pos inum 16). assert (inum / 16 ≤ 199 / 16) by (apply Z.div_le_mono; lia). change (199 / 16) with 12 in *. lia.
Qed.

(** What depends on the blocks of a file only. *)
Lemma slot_frame v v' x x' j : d_addrs x' = d_addrs x → (ind_of x ≠ 0 → v' (ind_of x) = v (ind_of x)) → slot v' x' j = slot v x j.
Proof.
  intros Ea Hi. assert (ind_of x' = ind_of x) as Ei by (unfold ind_of; by rewrite Ea). unfold slot, addr_of. rewrite Ei, Ea.
  destruct (Z.eqb_spec (ind_of x) 0); [done|]. by rewrite Hi.
Qed.
Lemma file_in_frame v v' fb fb' x x' bs n m : file_in v fb x bs n m → d_addrs x' = d_addrs x → fb ≤ fb' →
  (∀ j, 0 ≤ j ≤ MAXFILE → slot v x j ≠ 0 → v' (slot v x j) = v (slot v x j)) → file_in v' fb' x' bs n m.
Proof.
  intros [L B A I S J] Ea Hfb Hv. assert (0 ≤ MAXFILE) as HM by done.
  assert (∀ j, slot v' x' j = slot v x j) as Hs.
  { intros j. apply slot_frame; [done|]. rewrite <- (slot_ind v). apply Hv. lia. }
  assert (∀ j, 0 ≤ j < MAXFILE → addr_of v' x' j = addr_of v x j) as Ha by (intros j Hj; rewrite <- !addr_slot; auto).
  assert (ind_of x' = ind_of x) as Ei by (unfold ind_of; by rewrite Ea).
  split; [by rewrite Ea| |intros k Hk; rewrite Ha; auto|by rewrite Ei|intros k Hk; rewrite Hs|intros k k' Hk Hk'; rewrite !Hs; auto].
  - intros o Ho. rewrite <- B by done. pose proof (in_file o Ho) as Hk. unfold file_byte. rewrite Ha by done.
    destruct (Z.eqb_spec (addr_of v x (o / BSIZE)) 0) as [|Hz]; [done|]. rewrite <- (addr_slot v x) in Hz |- * by done. rewrite Hv; [done|lia|done].
  - intros Hz. specialize (S k Hk Hz). lia.
Qed.

(** File [k] replaced, or added after the others. *)
Definition put_file (k : nat) (f : mfile) (l : list mfile) : list mfile := take k l ++ f :: drop (S k) l.
Lemma lookup_put_file k f l j : (k ≤ length l)%nat → put_file k f l !! j = if decide (j = k) then Some f else l !! j.
Proof.
  intros Hk. unfold put_file. assert (length (take k l) = k) as HL by (rewrite length_take; lia). destruct (decide (j = k)) as [->|Hne].
  - by rewrite list_lookup_middle by lia.
  - destruct (decide (j < k)%nat); [rewrite lookup_app_l by lia; by apply lookup_take_lt|]. rewrite lookup_app_r, HL by lia.
    destruct (j - k)%nat as [|i] eqn:E; [lia|]. simpl. rewrite lookup_drop. f_equal. lia.
Qed.
Lemma length_put_file k f l : (k ≤ length l)%nat → length (put_file k f l) = Nat.max (length l) (S k).
Proof. intros Hk. unfold put_file. rewrite length_app, length_take. simpl. rewrite length_drop. lia. Qed.
Lemma put_file_end f l : put_file (length l) f l = l ++ [f].
Proof. unfold put_file. by rewrite take_ge, drop_ge by lia. Qed.
Lemma data_blocks_app l l' : data_blocks (l ++ l') = data_blocks l + data_blocks l'.
Proof. induction l as [|f l IH]; [done|]. cbn [data_blocks foldr app]. fold (data_blocks (l ++ l')) (data_blocks l). lia. Qed.
Lemma data_blocks_put k f f0 l : l !! k = Some f0 → data_blocks (put_file k f l) = data_blocks l - blocks_for (m_len f0) + blocks_for (m_len f).
Proof.
  intros Hk. rewrite <- (take_drop_middle l k f0 Hk) at 2. unfold put_file. rewrite !data_blocks_app. cbn [data_blocks foldr]. lia.
Qed.

Section put.
Context (s : mst) (l : list mfile) (k : nat) (f : mfile) (s1 : mst) (x2 : dinode).
Notation v := (image s).
Notation inum := (Z.of_nat k + 1).
Context (Hb : built s l) (Hk : (k ≤ length l)%nat) (Hin : inum < NINODES).
Context (Hs1 : sectors s1) (Hfb : freeblock s ≤ freeblock s1).

(** Block [b] belongs to file [k]. *)
Definition own (b : Z) : Prop :=
  (k < length l)%nat ∧ ∃ j, 0 ≤ j ≤ MAXFILE ∧ slot v (dinode_of v inum) j ≠ 0 ∧ slot v (dinode_of v inum) j = b.

Context (Hview : ∀ b, image s1 b ≠ v b → freeblock s ≤ b ∨ own b).

Lemma own_range b : own b → nmeta ≤ b < freeblock s.
Proof using Hb.
  intros (Hlt & j & Hj & Hz & <-). destruct (lookup_lt_is_Some_2 l k Hlt) as [f0 Hf0]. exact (fi_slot _ _ _ _ _ _ (bu_file _ _ Hb k f0 Hf0) j Hj Hz).
Qed.
Lemma low_same b : b < nmeta → image s1 b = v b.
Proof using Hb Hk Hin Hs1 Hfb Hview.
  intros Hlow. destruct (decide (image s1 b = v b)) as [|Hne]; [done|]. pose proof (se_free _ (bu_sectors _ _ Hb)).
  destruct (Hview b Hne) as [|Hor%own_range]; lia.
Qed.

Notation ib := (IBLOCK inum sb).
Notation s2 := (written ib (splice (dinode_off inum) (encode_dinode x2) (image s1 ib)) s1).

Context (Hwf : wf_dinode x2).

Lemma dinode_put inum' : 0 ≤ inum' < NINODES → dinode_of (image s2) inum' = if decide (inum' = inum) then x2 else dinode_of v inum'.
Proof using Hb Hk Hin Hs1 Hfb Hview Hwf.
  intros Hi. pose proof (IBLOCK_range inum' Hi) as Hr. unfold dinode_of at 1. cbn [written image set_image].
  destruct (decide (IBLOCK inum' sb = ib)) as [E|E].
  - rewrite E, put_sector_same. rewrite (decode_splice_dinode inum inum' sb) by (try done; try lia; apply Hs1).
    case_decide; [done|]. unfold dinode_of. rewrite E, low_same; [done|lia].
  - rewrite put_sector_other by done. destruct (decide (inum' = inum)) as [->|]; [done|]. unfold dinode_of. rewrite low_same; [done|lia].
Qed.
(** The blocks of another file. *)
Lemma other_same k' f' j : l !! k' = Some f' → k' ≠ k → 0 ≤ j ≤ MAXFILE → slot v (dinode_of v (Z.of_nat k' + 1)) j ≠ 0 →
  image s2 (slot v (dinode_of v (Z.of_nat k' + 1)) j) = v (slot v (dinode_of v (Z.of_nat k' + 1)) j).
Proof using Hb Hk Hin Hs1 Hfb Hview Hwf.
  intros Hf' Hne Hj Hz. pose proof (fi_slot _ _ _ _ _ _ (bu_file _ _ Hb k' f' Hf') j Hj Hz) as Hr. set (b := slot _ _ _) in *.
  pose proof (IBLOCK_range inum ltac:(lia)). cbn [written image set_image]. rewrite put_sector_other by lia.
  destruct (decide (image s1 b = v b)) as [|Hc]; [done|]. destruct (Hview b Hc) as [|(Hlt & j0 & Hj0 & Hz0 & E)]; [lia|].
  exfalso. refine (bu_apart _ _ Hb k k' j0 j Hlt _ _ Hj0 Hj Hz0 E); [by eapply lookup_lt_Some|done].
Qed.
(** The blocks of this one. *)
Lemma this_same j : 0 ≤ j ≤ MAXFILE → nmeta ≤ slot (image s1) x2 j → image s2 (slot (image s1) x2 j) = image s1 (slot (image s1) x2 j).
Proof using Hb Hk Hin Hs1 Hfb Hview Hwf. intros Hj Hr. pose proof (IBLOCK_range inum ltac:(lia)). apply put_sector_other. lia. Qed.

Lemma built_put : freeblock s1 = nmeta + data_blocks (put_file k f l) → freeinode s1 = Z.of_nat (length (put_file k f l)) + 1 → inode_is x2 f →
  file_in (image s1) (freeblock s1) x2 (m_data f) (m_len f) (m_len f) →
  (∀ j, 0 ≤ j ≤ MAXFILE → slot (image s1) x2 j = 0 ∨ freeblock s ≤ slot (image s1) x2 j ∨ own (slot (image s1) x2 j)) →
  built s2 (put_file k f l).
Proof using Hwf Hview Hs1 Hk Hin Hfb Hb.
  intros Hblk Hfi Hx2 F Hslot. pose proof (length_put_file k f l Hk) as HL. pose proof (bu_few _ _ Hb) as Hfew. assert (0 ≤ MAXFILE) as HM by done.
  pose proof (IBLOCK_range inum ltac:(lia)) as Hib. pose proof (se_free _ Hs1) as Hsf. pose proof (se_free _ (bu_sectors _ _ Hb)) as Hsf0.
  assert (∀ k', (k' < length (put_file k f l))%nat → 0 ≤ Z.of_nat k' + 1 < NINODES) as Hkr by (intros; lia).
  assert (∀ k', (k' < length (put_file k f l))%nat →
    dinode_of (image s2) (Z.of_nat k' + 1) = if decide (k' = k) then x2 else dinode_of v (Z.of_nat k' + 1)) as Hdi.
  { intros k' Hk'. rewrite dinode_put by auto. destruct (decide (k' = k)); [by rewrite decide_True by lia|by rewrite decide_False by lia]. }
  assert (∀ j, slot (image s2) x2 j = slot (image s1) x2 j) as Hs2.
  { intros j. apply slot_frame; [done|]. intros Hz. rewrite <- (slot_ind (image s1)) in Hz |- *. apply this_same; [lia|]. apply (fi_slot _ _ _ _ _ _ F); [lia|done]. }
  assert (∀ k' f' j, l !! k' = Some f' → k' ≠ k → slot (image s2) (dinode_of v (Z.of_nat k' + 1)) j = slot v (dinode_of v (Z.of_nat k' + 1)) j) as Hs2'.
  { intros k' f' j Hf' Hne. apply slot_frame; [done|]. rewrite <- (slot_ind v). intros Hz. eapply other_same; [done|done|lia|done]. }
  assert (∀ k' f' j j', l !! k' = Some f' → k' ≠ k → 0 ≤ j ≤ MAXFILE → 0 ≤ j' ≤ MAXFILE → slot v (dinode_of v (Z.of_nat k' + 1)) j ≠ 0 →
    slot v (dinode_of v (Z.of_nat k' + 1)) j ≠ slot (image s1) x2 j') as Hap.
  { intros k' f' j j' Hf' Hne Hj Hj' Hz E. pose proof (fi_slot _ _ _ _ _ _ (bu_file _ _ Hb k' f' Hf') j Hj Hz) as Hr.
    destruct (Hslot j' Hj') as [H0|[H0|(Hlt & j0 & Hj0 & Hz0 & E0)]]; [congruence|lia|].
    eapply (bu_apart _ _ Hb k' k j j0); [by eapply lookup_lt_Some|done|done|done|done|done|congruence]. }
  split; [|done|lia|done|..].
  - apply sectors_written; [done|lia|]. rewrite length_splice; rewrite (se_len _ Hs1); [done|]. rewrite length_encode_dinode by apply Hwf.
    apply dinode_off_fits. lia.
  - intros k' f' Hf'. rewrite Hdi by (by eapply lookup_lt_Some). rewrite lookup_put_file in Hf' by done. case_decide; [by simplify_eq|by apply Hb].
  - intros k' f' Hf'. rewrite Hdi by (by eapply lookup_lt_Some). rewrite lookup_put_file in Hf' by done. case_decide as Hkk; [simplify_eq|].
    + eapply file_in_frame; [exact F|done|done|]. intros j Hj Hz. apply this_same; [done|]. apply (fi_slot _ _ _ _ _ _ F); done.
    + eapply file_in_frame; [by apply (bu_file _ _ Hb)|done|done|]. intros j Hj Hz. by eapply other_same.
  - intros k1 k2 j j' H1 H2 Hne Hj Hj'. rewrite !Hdi by done.
    destruct (lookup_lt_is_Some_2 _ _ H1) as [f1 Hf1], (lookup_lt_is_Some_2 _ _ H2) as [f2 Hf2]. rewrite lookup_put_file in Hf1, Hf2 by done.
    destruct (decide (k1 = k)), (decide (k2 = k)); subst; rewrite ?Hs2, ?(Hs2' k1 f1), ?(Hs2' k2 f2) by done; intros Hz; [done| |by eapply Hap|].
    + intros E. rewrite E in Hz. symmetry in E. by eapply Hap in E.
    + apply (bu_apart _ _ Hb); try done; by eapply lookup_lt_Some.
  - intros i Hi. rewrite dinode_put by lia. rewrite decide_False by lia. apply Hb. lia.
  - intros b Hlow. cbn [written image set_image]. rewrite put_sector_other by lia. rewrite low_same by (change nmeta with 46; change (sb_inodestart sb) with 32 in Hlow; lia). by apply Hb.
Qed.
End put.

Lemma rinode_wp s inum (Q : dinode → mst → Prop) : sectors s → 0 ≤ inum < NINODES → Q (dinode_of (image s) inum) s → wp (rinode inum) s Q.
Proof.
  intros Hs Hi HQ. pose proof (IBLOCK_range inum Hi). assert (nmeta < FSSIZE ∧ 0 ≤ sb_inodestart sb) by done.
  unfold rinode. apply wp_bind, rsect_wp; [done|lia|]. by apply wp_ret.
Qed.
Lemma winode_wp s inum x (Q : unit → mst → Prop) : sectors s → 0 ≤ inum < NINODES →
  Q tt (written (IBLOCK inum sb) (splice (dinode_off inum) (encode_dinode x) (image s (IBLOCK inum sb))) s) → wp (winode inum x) s Q.
Proof.
  intros Hs Hi HQ. pose proof (IBLOCK_range inum Hi). assert (nmeta < FSSIZE ∧ 0 ≤ sb_inodestart sb) by done.
  unfold winode. apply wp_bind, rsect_wp; [done|lia|]. apply wsect_wp; [done|lia|done].
Qed.

Definition empty_inode (t : Z) : dinode := mk_dinode t 0 0 1 0 (replicate 13 0).

Lemma nth_zeros i : nth i (replicate 13 0) 0 = 0.
Proof. rewrite nth_lookup. destruct (_ !! i) eqn:E; [|done]. by apply lookup_replicate_1 in E as [-> _]. Qed.
Lemma slot_empty v t j : slot v (empty_inode t) j = 0.
Proof.
  assert (ind_of (empty_inode t) = 0) as Hi by apply nth_zeros. unfold slot, addr_of. rewrite Hi. case_z; [done|]. case_z; [|done]. apply nth_zeros.
Qed.
Lemma file_in_empty v fb t : file_in v fb (empty_inode t) [] 0 0.
Proof.
  pose proof (slot_empty v t) as Hs. split; [done| | | |intros k _ Hz; by rewrite Hs in Hz|intros k k' _ _ Hz; by rewrite Hs in Hz].
  - intros o Ho. unfold file_byte. rewrite <- addr_slot, Hs by (by apply in_file). simpl. by destruct (Z.to_nat o).
  - intros k Hk. rewrite <- addr_slot, Hs by done. pose proof BSIZE_pos. split; [nia|done].
  - rewrite <- (slot_ind v), Hs. done.
Qed.

Lemma ialloc_wp s l t (Q : Z → mst → Prop) : built s l → t = T_DIR ∨ t = T_FILE → Z.of_nat (length l) + 1 < NINODES →
  (∀ s', built s' (l ++ [mk_mfile t 0 []]) → Q (Z.of_nat (length l) + 1) s') → wp (ialloc t) s Q.
Proof.
  intros Hb Ht Hlen HQ. unfold ialloc. apply wp_bind, wp_gets. rewrite (bu_inodes _ _ Hb). apply wp_bind, wp_modify.
  assert (NINODES < 2 ^ 31) as Hni by done. rewrite u32_small by lia. set (s1 := set_freeinode _ s).
  assert (sectors s1) as Hs1 by (by destruct (bu_sectors _ _ Hb)). apply wp_bind, winode_wp; [done|lia|]. apply wp_ret, HQ.
  assert (mk_dinode (xshort t) 0 0 (xshort 1) (xint 0) (replicate 13 0) = empty_inode t) as -> by (by destruct Ht as [-> | ->]).
  rewrite <- put_file_end. apply (built_put s l (length l) _ s1); try done.
  - split; try done; [destruct Ht as [-> | ->]; done|by apply Forall_replicate].
  - simpl. rewrite put_file_end, data_blocks_app, (bu_blocks _ _ Hb). change (data_blocks [mk_mfile t 0 []]) with 0. lia.
  - simpl. rewrite length_put_file by lia. lia.
  - apply file_in_empty.
  - intros j Hj. left. apply slot_empty.
Qed.

(** What an appended file is. *)
Definition extend (f : mfile) (p : list byte) : mfile := mk_mfile (m_type f) (m_len f + Z.of_nat (length p)) (m_data f ++ p).
Lemma m_len_extend f p : m_len (extend f p) = m_len f + Z.of_nat (length p).
Proof. unfold m_len. simpl. rewrite length_app. lia. Qed.

Lemma iappend_wp s l k f p (Q : unit → mst → Prop) : built s l → l !! k = Some f → m_size f = m_len f → m_len (extend f p) ≤ MAXFILE * BSIZE →
  nmeta + data_blocks (put_file k (extend f p) l) ≤ FSSIZE →
  (∀ s', built s' (put_file k (extend f p) l) → Q tt s') → wp (iappend (Z.of_nat k + 1) p) s Q.
Proof.
  intros Hb Hf Hsz Hmax Hroom HQ. pose proof (lookup_lt_Some _ _ _ Hf) as Hlt. pose proof (bu_few _ _ Hb) as Hfew. pose proof (bu_sectors _ _ Hb) as Hs.
  rewrite m_len_extend in Hmax. assert (MAXFILE * BSIZE < 2 ^ 32) as Hbig by done. assert (0 ≤ m_len f) as Hm0 by (unfold m_len; lia).
  rewrite (data_blocks_put k _ f), m_len_extend in Hroom by done. pose proof (bu_blocks _ _ Hb) as Hblk.
  assert (Z.of_nat k + 1 < NINODES) as Hin.
  { destruct (decide (Z.of_nat k + 1 < NINODES)); [done|]. lia. }
  destruct (bu_inode _ _ Hb k f Hf) as [Hx Hwf]. pose proof (bu_file _ _ Hb k f Hf) as F.
  unfold iappend. apply wp_bind, rinode_wp; [done|lia|]. set (x := dinode_of (image s) (Z.of_nat k + 1)) in *.
  assert (xint (d_size x) = m_len f) as -> by (rewrite Hx; simpl; rewrite Hsz; apply xint_small; lia).
  apply wp_bind. apply iappend_loop_wp; fold (m_len f); [done|done|done|lia|lia|]. intros x1 s1 G. cbv beta iota.
  pose proof G as [Hs1 F1 [V1 S1 M1] I1 B1]. set (e := m_len f + Z.of_nat (length p)) in *. rewrite xint_small by lia.
  assert (blocks_for (m_len f) ≤ blocks_for e) as Hmono by (apply blocks_for_mono; lia).
  apply winode_wp; [done|lia|]. apply HQ.
  apply (built_put s l k (extend f p) s1 (dset_size e x1)); [done|lia|done|done|lia|..].
  - intros b Hc. destruct (V1 b Hc) as [|(j & Hj & Hz & <-)]; [by left|right]. split; [done|]. by exists j.
  - rewrite M1. fold x in Hwf. destruct Hwf as [W1 W2 W3 W4 W5 W6 W7]. split; try done; [simpl; lia|by apply F1|].
    apply list.Forall_forall. intros a Ha. simpl in Ha. apply list_elem_of_lookup in Ha as [i Hi].
    assert (a = slot (image s1) x1 (if decide (i < 12)%nat then Z.of_nat i else MAXFILE)) as ->.
    { pose proof (lookup_lt_Some _ _ _ Hi) as Hil. rewrite (fi_len _ _ _ _ _ _ F1) in Hil. assert (NDIRECT = 12 ∧ 12 < MAXFILE) as [HN HMX] by done. case_decide.
      - rewrite addr_slot, addr_of_direct by lia. unfold addr. by rewrite Nat2Z.id, nth_lookup, Hi.
      - rewrite slot_ind. unfold ind_of. rewrite nth_lookup. assert (i = 12%nat) as -> by lia. by rewrite Hi. }
    pose proof (slot_range s1 x1 _ Hs1 _ _ (if decide (i < 12)%nat then Z.of_nat i else MAXFILE) F1) as Hr.
    assert (12 < MAXFILE ∧ FSSIZE < 2 ^ 32) as [? ?] by done. case_decide; lia.
  - rewrite (data_blocks_put k _ f), m_len_extend by done. fold e. lia.
  - rewrite length_put_file, I1, (bu_inodes _ _ Hb) by lia. lia.
  - rewrite M1, Hx. done.
  - rewrite m_len_extend. eapply file_in_frame; [exact F1|done|lia|done].
  - intros j Hj. rewrite (slot_frame (image s1) (image s1) x1) by done. destruct (S1 j Hj) as [->|]; [|by right; left].
    destruct (decide (slot (image s) x j = 0)) as [|Hz]; [by left|right; right]. split; [done|]. by exists j.
Qed.

(** ** The program *)

Lemma put_file_same k f l : l !! k = Some f → put_file k f l = l.
Proof. intros H. unfold put_file. by apply take_drop_middle. Qed.
Lemma put_file_put k f g l : (k ≤ length l)%nat → put_file k f (put_file k g l) = put_file k f l.
Proof.
  intros Hk. apply list_eq. intros j. rewrite !lookup_put_file; [case_decide; done|done|done|rewrite length_put_file; lia].
Qed.
Lemma extend_nil f : m_size f = m_len f → extend f [] = f.
Proof. intros H. destruct f as [t z d]. unfold extend. simpl in *. rewrite app_nil_r. f_equal. lia. Qed.
Lemma extend_extend f p q : extend (extend f p) q = extend f (p ++ q).
Proof.
  unfold extend at 1 3. rewrite m_len_extend, length_app. change (m_data (extend f p)) with (m_data f ++ p). rewrite <- app_assoc. f_equal. lia.
Qed.
Lemma extend_size f p : m_size (extend f p) = m_len (extend f p).
Proof. by rewrite m_len_extend. Qed.

Lemma append_all_wp bufs : ∀ s l k f (Q : unit → mst → Prop), built s l → l !! k = Some f → m_size f = m_len f →
  m_len (extend f (concat bufs)) ≤ MAXFILE * BSIZE → nmeta + data_blocks (put_file k (extend f (concat bufs)) l) ≤ FSSIZE →
  (∀ s', built s' (put_file k (extend f (concat bufs)) l) → Q tt s') → wp (append_all (Z.of_nat k + 1) bufs) s Q.
Proof.
  induction bufs as [|b bufs IH]; intros s l k f Q Hb Hf Hsz Hmax Hroom HQ; cbn [append_all concat] in *.
  - rewrite extend_nil, put_file_same in HQ by done. apply wp_ret. auto.
  - pose proof (lookup_lt_Some _ _ _ Hf) as Hlt. rewrite <- extend_extend in *. set (g := extend f b) in *.
    pose proof (m_len_extend g (concat bufs)) as Hml. assert (blocks_for (m_len g) ≤ blocks_for (m_len (extend g (concat bufs)))) by (apply blocks_for_mono; lia).
    rewrite (data_blocks_put k _ f) in Hroom by done.
    apply wp_bind. apply (iappend_wp s l k f); [done|done|done|fold g; lia|fold g; rewrite (data_blocks_put k _ f) by done; lia|]. fold g. intros s1 Hb1.
    assert (put_file k g l !! k = Some g) as Hg by (rewrite lookup_put_file, decide_True by (done || lia); done).
    apply (IH s1 (put_file k g l) k g); [done|done|apply extend_size|done|rewrite put_file_put, (data_blocks_put k _ f) by (done || lia); lia|].
    rewrite put_file_put by lia. done.
Qed.

(** The files a run is given, as files of the image, and their entries in the
    root directory, from inode number [i] on. *)
Definition file_of (f : hostfile) : mfile :=
  let d := concat (default [] (h_reads f)) in mk_mfile T_FILE (Z.of_nat (length d)) d.
Fixpoint dirents (i : Z) (fs : list hostfile) : list byte :=
  match fs with
  | [] => []
  | f :: fs => dirent_of i (shortname (h_path f)) ++ dirents (i + 1) fs
  end.
(** A file that can be read and whose name is not a path. *)
Definition readable (f : hostfile) : Prop := (x2f ∉ strip_user (h_path f)) ∧ is_Some (h_reads f).

Lemma data_blocks_cons f l : data_blocks (f :: l) = blocks_for (m_len f) + data_blocks l.
Proof. done. Qed.
Lemma blocks_for_0 : blocks_for 0 = 0.
Proof. by vm_compute. Qed.
Lemma blocks_for_pos n : 0 ≤ n → 0 ≤ blocks_for n.
Proof. intros Hn. rewrite <- blocks_for_0. by apply blocks_for_mono. Qed.

Lemma add_file_wp s root rest f (Q : unit → mst → Prop) (i := Z.of_nat (length rest) + 2) (root' := extend root (dirent_of i (shortname (h_path f)))) :
  built s (root :: rest) → m_size root = m_len root → readable f → i < NINODES → m_len root' ≤ MAXFILE * BSIZE → m_len (file_of f) ≤ MAXFILE * BSIZE →
  nmeta + data_blocks (root' :: rest ++ [file_of f]) ≤ FSSIZE →
  (∀ s', built s' (root' :: rest ++ [file_of f]) → Q tt s') → wp (add_file ROOTINO f) s Q.
Proof.
  intros Hb Hsz [Hname [bufs Hbufs]] Hi Hmr Hmf Hroom HQ. unfold add_file. rewrite bool_decide_true by done. apply wp_bind, wp_ret. rewrite Hbufs.
  assert (file_of f = extend (mk_mfile T_FILE 0 []) (concat bufs)) as Ef by (unfold file_of, extend; rewrite Hbufs; done). rewrite Ef in *.
  set (e := mk_mfile T_FILE 0 []) in *. rewrite data_blocks_cons, data_blocks_app, data_blocks_cons in Hroom. change (data_blocks []) with 0 in Hroom.
  assert (0 ≤ blocks_for (m_len (extend e (concat bufs)))) as Hpos by (apply blocks_for_pos; unfold m_len; lia).
  apply wp_bind. apply (ialloc_wp s (root :: rest)); [done|by right|simpl length; lia|]. fold e. intros s1 Hb1. simpl length.
  replace (Z.of_nat (S (length rest)) + 1) with i by (unfold i; lia). change ((root :: rest) ++ [e]) with (root :: rest ++ [e]) in Hb1.
  apply wp_bind. change ROOTINO with (Z.of_nat 0 + 1). apply (iappend_wp s1 (root :: rest ++ [e]) 0 root); [done|done|done|done| |].
  { change (put_file 0 _ _) with (root' :: rest ++ [e]). rewrite data_blocks_cons, data_blocks_app. change (data_blocks [e]) with (blocks_for 0 + 0). rewrite blocks_for_0. lia. }
  change (put_file 0 _ _) with (root' :: rest ++ [e]). intros s2 Hb2.
  replace i with (Z.of_nat (S (length rest)) + 1) by (unfold i; lia).
  assert (put_file (S (length rest)) (extend e (concat bufs)) (root' :: rest ++ [e]) = root' :: rest ++ [extend e (concat bufs)]) as Ep.
  { unfold put_file. simpl. rewrite take_app_length, drop_ge by (rewrite length_app; simpl; lia). done. }
  apply (append_all_wp bufs s2 (root' :: rest ++ [e]) (S (length rest)) e); rewrite ?Ep; [done| |done|done| |done].
  - simpl. by rewrite list_lookup_middle.
  - rewrite data_blocks_cons, data_blocks_app, data_blocks_cons. change (data_blocks []) with 0. lia.
Qed.

Lemma data_blocks_pos l : 0 ≤ data_blocks l.
Proof. induction l as [|f l IH]; [done|]. rewrite data_blocks_cons. pose proof (blocks_for_pos (m_len f)). unfold m_len in *. lia. Qed.

Lemma add_files_wp fs : ∀ s root rest (Q : unit → mst → Prop), let i := Z.of_nat (length rest) + 2 in let root' := extend root (dirents i fs) in
  built s (root :: rest) → m_size root = m_len root → Forall readable fs → i + Z.of_nat (length fs) ≤ NINODES → m_len root' ≤ MAXFILE * BSIZE →
  Forall (λ f, m_len (file_of f) ≤ MAXFILE * BSIZE) fs → nmeta + data_blocks (root' :: rest ++ map file_of fs) ≤ FSSIZE →
  (∀ s', built s' (root' :: rest ++ map file_of fs) → Q tt s') → wp (add_files ROOTINO fs) s Q.
Proof.
  induction fs as [|f fs IH]; intros s root rest Q i root' Hb Hsz Hrd Hi Hmr Hmf Hroom HQ; cbn [add_files map dirents] in *.
  - unfold root' in HQ. rewrite extend_nil, app_nil_r in HQ by done. apply wp_ret. auto.
  - apply list.Forall_cons in Hrd as [Hrd1 Hrd2], Hmf as [Hmf1 Hmf2]. simpl length in Hi. unfold root' in *. clear root'. rewrite <- extend_extend in *.
    set (root1 := extend root (dirent_of i (shortname (h_path f)))) in *. pose proof (m_len_extend root1 (dirents (i + 1) fs)) as Hml.
    assert (blocks_for (m_len root1) ≤ blocks_for (m_len (extend root1 (dirents (i + 1) fs)))) as Hmono by (apply blocks_for_mono; lia).
    rewrite cons_middle, app_assoc in Hroom, HQ. pose proof (data_blocks_pos (map file_of fs)) as Hpos.
    rewrite data_blocks_cons, data_blocks_app in Hroom.
    apply wp_bind. apply (add_file_wp s root rest f); [done|done|done|fold i; lia|fold i root1; lia|done|fold i root1; rewrite data_blocks_cons; lia|].
    fold i root1. intros s1 Hb1. replace (i + 1) with (Z.of_nat (length (rest ++ [file_of f])) + 2) in * by (rewrite length_app; unfold i; simpl length; lia).
    apply (IH s1 root1 (rest ++ [file_of f])); [done|apply extend_size|done|rewrite length_app; simpl length; lia|done|done|rewrite data_blocks_cons, data_blocks_app; lia|done].
Qed.

(** The empty image. *)
Lemma zero_sectors_wp n : ∀ i s (Q : unit → mst → Prop), 0 ≤ i → i + Z.of_nat n ≤ FSSIZE → nsect s = i → (∀ b, image s b = zero_block) →
  (∀ s', nsect s' = i + Z.of_nat n → (∀ b, image s' b = zero_block) → freeinode s' = freeinode s → freeblock s' = freeblock s → Q tt s') →
  wp (zero_sectors n i) s Q.
Proof.
  induction n as [|n IH]; intros i s Q Hi Hn Hs Hz HQ; cbn [zero_sectors].
  - apply wp_ret, HQ; [lia|done..].
  - apply wp_bind, wp_modify. rewrite !seek_small by lia.
    apply IH; [lia|lia|simpl; lia|intros b; cbn [image set_image]; by case_z|]. intros s' H1 H2 H3 H4. apply HQ; [lia|done..].
Qed.

Lemma half_zero d o : Forall (eq x00) d → half d o = 0.
Proof.
  intros Hd. unfold half. assert (Forall (eq x00) (take 2 (drop o d))) as H by (by apply Forall_take, Forall_drop).
  revert H. generalize (take 2 (drop o d)). intros l. induction 1 as [|b l <- _ IH]; [done|]. simpl. by rewrite IH.
Qed.
Lemma zero_dinode_type inum : d_type (decode_dinode (drop (Z.to_nat (dinode_off inum)) zero_block)) = 0.
Proof. unfold decode_dinode. cbn [d_type]. by rewrite half_zero by (by apply Forall_drop, Forall_replicate). Qed.

Definition empty_image (s : mst) : Prop :=
  sectors s ∧ freeinode s = 1 ∧ freeblock s = nmeta ∧ ∀ b, image s b = if b =? 1 then splice 0 superblock_bytes zero_block else zero_block.
Lemma empty_built s : empty_image s → built s [].
Proof.
  intros (Hs & Hi & Hf & Hb). split; try done.
  - intros k k' j j' Hk. simpl in Hk. lia.
  - intros inum Hr. unfold dinode_of. rewrite Hb. pose proof (IBLOCK_range inum ltac:(simpl in Hr; lia)) as HI. change (sb_inodestart sb) with 32 in HI.
    case_z; [lia|]. apply zero_dinode_type.
Qed.

(** The size of an inode set to something else. *)
Lemma resize_wp s f rest z (Q : unit → mst → Prop) (f' := mk_mfile (m_type f) z (m_data f)) : built s (f :: rest) → 0 ≤ z < 2 ^ 32 →
  (∀ s', built s' (f' :: rest) → freeblock s' = freeblock s → Q tt s') → wp (winode ROOTINO (dset_size z (dinode_of (image s) ROOTINO))) s Q.
Proof.
  intros Hb Hz HQ. pose proof (bu_few _ _ Hb) as Hfew. simpl length in Hfew. change ROOTINO with (Z.of_nat 0 + 1).
  destruct (bu_inode _ _ Hb 0%nat f eq_refl) as [Hx Hwf]. pose proof (bu_file _ _ Hb 0%nat f eq_refl) as F. set (x := dinode_of _ _) in *.
  apply winode_wp; [apply Hb|lia|]. apply HQ; [|done]. apply (built_put s (f :: rest) 0 f' s (dset_size z x)); [done|simpl; lia|lia|apply Hb|lia|done|..].
  - destruct Hwf. by split.
  - rewrite (bu_blocks _ _ Hb). done.
  - rewrite (bu_inodes _ _ Hb). simpl. rewrite drop_0. done.
  - rewrite Hx. done.
  - eapply file_in_frame; [exact F|done|lia|done].
  - intros j Hj. rewrite (slot_frame (image s) (image s) x) by done. destruct (decide (slot (image s) x j = 0)) as [|Hnz]; [by left|right; right].
    split; [simpl; lia|]. by exists j.
Qed.

(** ** The bitmap *)

Lemma balloc_bits_alter n : ∀ i buf, balloc_bits (S n) i buf = balloc_bits n (i + 1) (set_bit i buf) ∨ (length buf ≤ Z.to_nat (i / 8))%nat.
Proof.
  intros i buf. destruct (decide (Z.to_nat (i / 8) < length buf)%nat) as [Hlt|]; [left|right; lia]. cbn [balloc_bits]. f_equal.
  unfold set_bit. apply list_eq. intros j. destruct (lookup_lt_is_Some_2 _ _ Hlt) as [b Hb]. destruct (decide (j = Z.to_nat (i / 8))) as [->|Hne].
  - rewrite list_lookup_insert_eq, list_lookup_alter_eq, nth_lookup, Hb by done. done.
  - by rewrite list_lookup_insert_ne, list_lookup_alter_ne by done.
Qed.
Lemma balloc_bits_spec n : ∀ i buf j, 0 ≤ i → i + Z.of_nat n ≤ 8 * Z.of_nat (length buf) → 0 ≤ j →
  length (balloc_bits n i buf) = length buf ∧ bit (balloc_bits n i buf) j = if decide (i ≤ j < i + Z.of_nat n) then true else bit buf j.
Proof.
  induction n as [|n IH]; intros i buf j Hi Hn Hj; [rewrite decide_False by lia; done|].
  assert (Z.to_nat (i / 8) < length buf)%nat as Hlt by (assert (i / 8 < Z.of_nat (length buf)) by (apply Z.div_lt_upper_bound; lia); pose proof (Z.div_pos i 8); lia).
  destruct (balloc_bits_alter n i buf) as [->|]; [|lia]. assert (length (set_bit i buf) = length buf) as HL by apply length_alter.
  destruct (IH (i + 1) (set_bit i buf) j) as [H1 H2]; [lia|rewrite HL; lia|done|]. rewrite H1, H2, HL, bit_set_bit by done. split; [done|].
  destruct (decide (j = i)) as [->|]; repeat case_decide; (done || lia).
Qed.

(** ** The finished image *)

(** Whether block [b] is marked as in use. *)
Definition marked (v : contents) (b : Z) : bool := bit (v (BBLOCK b sb)) (b mod BPB).

(** A file system with the files [l], as the kernel reads one: the superblock
    and an empty log, which recovery leaves alone; the inodes, each with the
    bytes of its file; every block that a file has is one of the disk's data
    blocks, marked as in use, and belongs to no other place of any file; what is
    not in use is marked free, and the other inodes are free. *)
Record fs_image (v : contents) (l : list mfile) : Prop := {
  im_super : mk_sb (word (v 1) 0) (word (v 1) 1) (word (v 1) 2) (word (v 1) 3) (word (v 1) 4) (word (v 1) 5) (word (v 1) 6) (word (v 1) 7) = sb;
  im_log : wf_disk (sb_logstart sb) (sb_nlog sb) v ∧ decode_header (v (sb_logstart sb)) = [];
  im_recover dv : dv ≠ 0 → recovers_to dv sb v v;
  im_inode (k : nat) f (x := dinode_of v (Z.of_nat k + 1)) : l !! k = Some f → inode_is x f ∧ wf_dinode x ∧ file_range v x 0 (m_len f) = m_data f;
  im_byte (k : nat) f (x := dinode_of v (Z.of_nat k + 1)) o : l !! k = Some f → 0 ≤ o < MAXFILE * BSIZE → file_byte v x o = nth (Z.to_nat o) (m_data f) x00;
  im_mapped (k : nat) f (x := dinode_of v (Z.of_nat k + 1)) bn : l !! k = Some f → 0 ≤ bn < MAXFILE → addr_of v x bn = 0 ↔ m_len f ≤ bn * BSIZE;
  im_used (k : nat) j (a := slot v (dinode_of v (Z.of_nat k + 1)) j) : (k < length l)%nat → 0 ≤ j ≤ MAXFILE → a ≠ 0 → nmeta ≤ a < FSSIZE ∧ marked v a = true;
  im_apart (k k' : nat) j j' (x := dinode_of v (Z.of_nat k + 1)) (x' := dinode_of v (Z.of_nat k' + 1)) :
    (k < length l)%nat → (k' < length l)%nat → 0 ≤ j ≤ MAXFILE → 0 ≤ j' ≤ MAXFILE → slot v x j ≠ 0 → slot v x j = slot v x' j' → k = k' ∧ j = j';
  im_bitmap b : 0 ≤ b < FSSIZE → marked v b = (b <? nmeta + data_blocks l);
  im_unused inum : Z.of_nat (length l) < inum < NINODES → d_type (dinode_of v inum) = 0;
}.

(** Memory blocks of a finished image, but for the bitmap, are those of [built]. *)
Section finish.
Context (s : mst) (l : list mfile) (Hb : built s l).
Notation used := (nmeta + data_blocks l).
Notation bits := (balloc_bits (Z.to_nat used) 0 (replicate (Z.to_nat BSIZE) x00)).
Notation v := (put_sector (sb_bmapstart sb) bits (image s)).

Lemma used_range : nmeta ≤ used ≤ FSSIZE.
Proof using Hb. rewrite <- (bu_blocks _ _ Hb). apply Hb. Qed.
Lemma bits_spec b : 0 ≤ b → length bits = Z.to_nat BSIZE ∧ bit bits b = (b <? used).
Proof using Hb.
  intros H. pose proof used_range as Hu. assert (0 < nmeta ∧ FSSIZE ≤ 8 * BSIZE ∧ 0 < BSIZE) as (? & ? & ?) by done.
  destruct (balloc_bits_spec (Z.to_nat used) 0 (replicate (Z.to_nat BSIZE) x00) b) as [-> ->]; [lia|rewrite length_replicate; lia|done|].
  rewrite length_replicate. split; [done|]. destruct (Z.ltb_spec b used); [by rewrite decide_True by lia|]. rewrite decide_False by lia.
  unfold bit. fold zero_block. by rewrite nth_zero, Z.testbit_0_l.
Qed.
Lemma marked_spec b : 0 ≤ b < FSSIZE → marked v b = (b <? used).
Proof using Hb.
  intros H. assert (FSSIZE ≤ BPB) by done. unfold marked, BBLOCK. rewrite Z.div_small, Z.mod_small by lia. rewrite put_sector_same. apply bits_spec. lia.
Qed.

Lemma finish_inode inum : 0 ≤ inum < NINODES → dinode_of v inum = dinode_of (image s) inum.
Proof using Hb.
  intros H. pose proof (IBLOCK_range inum H). unfold dinode_of. rewrite put_sector_other; [done|]. change (sb_bmapstart sb) with (nmeta - 1). lia.
Qed.
Lemma finish_file k f : l !! k = Some f → file_in v (freeblock s) (dinode_of v (Z.of_nat k + 1)) (m_data f) (m_len f) (m_len f) ∧
  ∀ j, slot v (dinode_of v (Z.of_nat k + 1)) j = slot (image s) (dinode_of (image s) (Z.of_nat k + 1)) j.
Proof using Hb.
  intros Hf. pose proof (lookup_lt_Some _ _ _ Hf). pose proof (bu_few _ _ Hb). rewrite finish_inode by lia. pose proof (bu_file _ _ Hb k f Hf) as F.
  assert (∀ j, 0 ≤ j ≤ MAXFILE → slot (image s) (dinode_of (image s) (Z.of_nat k + 1)) j ≠ 0 →
    v (slot (image s) (dinode_of (image s) (Z.of_nat k + 1)) j) = image s (slot (image s) (dinode_of (image s) (Z.of_nat k + 1)) j)) as Hv.
  { intros j Hj Hz. pose proof (fi_slot _ _ _ _ _ _ F j Hj Hz). apply put_sector_other. change (sb_bmapstart sb) with (nmeta - 1). lia. }
  split; [by eapply file_in_frame|]. intros j. apply slot_frame; [done|]. rewrite <- (slot_ind (image s)). apply Hv. done.
Qed.

Lemma file_in_range w fb x bs n m : file_in w fb x bs n m → Z.of_nat (length bs) ≤ MAXFILE * BSIZE → file_range w x 0 (Z.of_nat (length bs)) = bs.
Proof using.
  clear. intros F Hmax. apply list_eq. intros k. destruct (decide (k < length bs)%nat) as [Hk|Hk].
  - rewrite file_range_lookup, (fi_byte _ _ _ _ _ _ F) by lia. destruct (lookup_lt_is_Some_2 bs k Hk) as [b E]. rewrite nth_lookup, E.
    replace (Z.to_nat (0 + Z.of_nat k)) with k by lia. by rewrite E.
  - rewrite !lookup_ge_None_2; [done|lia|rewrite length_file_range; lia].
Qed.

(** The log of the image is empty. *)
Lemma finish_log : wf_disk (sb_logstart sb) (sb_nlog sb) v ∧ decode_header (v (sb_logstart sb)) = [].
Proof using Hb.
  change (sb_bmapstart sb) with 45. assert (put_sector 45 bits (image s) (sb_logstart sb) = zero_block) as Hz.
  { change (sb_logstart sb) with 2. rewrite put_sector_other by done. by rewrite (bu_start _ _ Hb 2). }
  assert (decode_header zero_block = []) as Hd by (by vm_compute). rewrite Hz. split; [|done].
  split; rewrite ?Hz, ?Hd; [|by vm_compute|done|by intros b ?%not_elem_of_nil].
  intros n. unfold put_sector. case_z; [|apply Hb]. destruct (bits_spec 0 ltac:(lia)) as [HL _]. exact HL.
Qed.
Lemma finish_recover dv : dv ≠ 0 → recovers_to dv sb v v.
Proof using Hb.
  intros Hdv. destruct finish_log as [Hwf Hd]. apply recovers_to_redo; [done|done|]. intros n _. unfold redo, redo_writes. by rewrite Hd.
Qed.

Lemma finish_image : Forall (λ f, m_len f ≤ MAXFILE * BSIZE) l → fs_image v l.
Proof using Hb.
  intros Hmax. pose proof (bu_few _ _ Hb) as Hfew. pose proof (bu_blocks _ _ Hb) as Hblk. pose proof used_range as Hu. assert (0 < nmeta) as Hnm by done. split.
  - rewrite put_sector_other by done. rewrite (bu_start _ _ Hb 1) by done. by vm_compute.
  - apply finish_log.
  - apply finish_recover.
  - intros k f x Hf. pose proof (lookup_lt_Some _ _ _ Hf). destruct (bu_inode _ _ Hb k f Hf) as [Hx Hwf].
    rewrite <- finish_inode in Hx, Hwf by lia. split_and!; [done|done|].
    destruct (finish_file k f Hf) as [F _]. eapply file_in_range; [exact F|]. rewrite Forall_lookup in Hmax. exact (Hmax k f Hf).
  - intros k f x o Hf Ho. destruct (finish_file k f Hf) as [F _]. by apply (fi_byte _ _ _ _ _ _ F).
  - intros k f x bn Hf Hbn. destruct (finish_file k f Hf) as [F _]. by apply (fi_addr _ _ _ _ _ _ F).
  - intros k j a Hk Hj Ha. destruct (lookup_lt_is_Some_2 _ _ Hk) as [f Hf]. destruct (finish_file k f Hf) as [F _].
    pose proof (fi_slot _ _ _ _ _ _ F j Hj Ha) as Hr. fold a in Hr. split; [lia|]. rewrite marked_spec by lia. apply Z.ltb_lt. lia.
  - intros k k' j j' x x' Hk Hk' Hj Hj' Hz E. destruct (lookup_lt_is_Some_2 _ _ Hk) as [f Hf], (lookup_lt_is_Some_2 _ _ Hk') as [f' Hf'].
    destruct (finish_file k f Hf) as [F S], (finish_file k' f' Hf') as [F' S']. unfold x, x' in *. destruct (decide (k = k')) as [<-|Hne].
    + split; [done|]. by apply (fi_inj _ _ _ _ _ _ F).
    + rewrite S, S' in E. rewrite S in Hz. by apply (bu_apart _ _ Hb) in E.
  - apply marked_spec.
  - intros inum Hi. rewrite finish_inode by lia. by apply Hb.
Qed.
End finish.

(** The root directory: [.] and [..], then the files in order. *)
Definition root_names (fs : list hostfile) : list (Z * list byte) :=
  (1, bytes ".") :: (1, bytes "..") :: imap (λ k f, (Z.of_nat k + 2, shortname (h_path f))) fs.
Definition root_data (fs : list hostfile) : list byte := concat (map (λ p, dirent_of p.1 p.2) (root_names fs)).
Definition root_of (fs : list hostfile) : mfile :=
  let n := Z.of_nat (length (root_data fs)) in mk_mfile T_DIR ((n / BSIZE + 1) * BSIZE) (root_data fs).
Definition files_of (fs : list hostfile) : list mfile := root_of fs :: map file_of fs.

Lemma length_dirent_of i nm : length (dirent_of i nm) = 16%nat.
Proof. unfold dirent_of, encode_dirent. cbn [de_inum de_name]. rewrite length_app, length_le_encode, length_strncpy. done. Qed.
Lemma dirents_imap fs : ∀ i, dirents i fs = concat (map (λ p, dirent_of p.1 p.2) (imap (λ k f, (Z.of_nat k + i, shortname (h_path f))) fs)).
Proof.
  induction fs as [|f fs IH]; intros i; [done|]. cbn [dirents]. rewrite imap_cons. cbn [map concat fst snd]. rewrite IH. do 3 f_equal.
  apply imap_ext. intros k g _. simpl. f_equal. lia.
Qed.
Lemma length_chunks (ls : list (list byte)) c : Forall (λ x, length x = c) ls → length (concat ls) = (length ls * c)%nat.
Proof. induction 1 as [|x ls Hx _ IH]; [done|]. cbn [concat length]. rewrite length_app, Hx, IH. lia. Qed.
Lemma nth_chunks (ls : list (list byte)) c k x i : Forall (λ x, length x = c) ls → ls !! k = Some x → (i < c)%nat →
  nth (k * c + i) (concat ls) x00 = nth i x x00.
Proof.
  intros Hl. revert k. induction Hl as [|y ls Hy _ IH]; intros k Hk Hi; [done|]. cbn [concat]. destruct k as [|k]; simpl in Hk.
  - simplify_eq. by rewrite app_nth1 by lia.
  - rewrite app_nth2 by lia. rewrite Hy. rewrite <- (IH k) by done. f_equal. lia.
Qed.
Lemma root_chunks fs : Forall (λ x, length x = 16%nat) (map (λ p, dirent_of p.1 p.2) (root_names fs)).
Proof. apply Forall_fmap, list.Forall_forall. intros p _. apply length_dirent_of. Qed.
Lemma length_root_names fs : length (root_names fs) = (2 + length fs)%nat.
Proof. cbn [root_names length]. by rewrite length_imap. Qed.
Lemma length_root_data fs : length (root_data fs) = (16 * (2 + length fs))%nat.
Proof. unfold root_data. rewrite (length_chunks _ 16) by apply root_chunks. rewrite length_map, length_root_names. lia. Qed.

(** Entry [k] of the root directory of an image. *)
Definition root_entry (fs : list hostfile) (k : nat) : dirent :=
  match root_names fs !! k with
  | Some (i, nm) => mk_dirent i (strncpy (Z.to_nat DIRSIZ) (ptr nm))
  | None => mk_dirent 0 (replicate (Z.to_nat DIRSIZ) x00)
  end.

Lemma root_entries v fs (x := dinode_of v ROOTINO) : fs_image v (files_of fs) → Z.of_nat (length fs) + 2 ≤ NINODES →
  entries v x = root_entry fs <$> seq 0 (dir_size x).
Proof.
  intros I Hn. destruct (im_inode _ _ I 0%nat (root_of fs) eq_refl) as [Hx _]. change (Z.of_nat 0 + 1) with ROOTINO in *. fold x in Hx.
  assert (Z.of_nat (length (root_data fs)) ≤ 3200) as Hlen by (rewrite length_root_data; unfold NINODES in Hn; lia).
  assert (d_size x ≤ MAXFILE * BSIZE) as Hsz.
  { rewrite Hx. cbn [d_size root_of m_size]. assert (Z.of_nat (length (root_data fs)) / BSIZE ≤ 3200 / BSIZE) by (by apply Z.div_le_mono).
    assert (3200 / BSIZE + 1 ≤ MAXFILE) by done. pose proof BSIZE_pos. nia. }
  apply list_fmap_ext. intros k' k Hk. apply lookup_seq in Hk as [-> Hk]. simpl. unfold dir_size in Hk. change sizeof_dirent with 16 in Hk.
  assert (16 * Z.of_nat k' + 16 ≤ MAXFILE * BSIZE) as Hin by (pose proof (Z.mul_div_le (d_size x) 16); lia).
  assert (∀ i, (i < 16)%nat → file_byte v x (Z.of_nat k' * 16 + Z.of_nat i) = nth (k' * 16 + i) (root_data fs) x00) as Hbyte.
  { intros i Hi. pose proof (im_byte _ _ I 0%nat (root_of fs) (Z.of_nat k' * 16 + Z.of_nat i) eq_refl ltac:(lia)) as H.
    change (Z.of_nat 0 + 1) with ROOTINO in H. fold x in H. rewrite H. f_equal. lia. }
  unfold dir_entry, root_entry. change sizeof_dirent with 16. pose proof (root_chunks fs) as Hch.
  destruct (root_names fs !! k') as [[i nm]|] eqn:Ek.
  - assert (file_range v x (Z.of_nat k' * 16) 16 = dirent_of i nm) as ->.
    { apply list_eq. intros j. destruct (decide (j < 16)%nat) as [Hj|Hj].
      - rewrite file_range_lookup by lia. rewrite Hbyte by done. unfold root_data.
        rewrite (nth_chunks _ 16 k' (dirent_of i nm)); [|done|by rewrite list_lookup_fmap, Ek|done].
        destruct (lookup_lt_is_Some_2 (dirent_of i nm) j ltac:(by rewrite length_dirent_of)) as [b Eb]. by rewrite nth_lookup, Eb.
      - rewrite !lookup_ge_None_2; [done|rewrite length_dirent_of; lia|rewrite length_file_range; lia]. }
    assert (0 ≤ i < 2 ^ 16) as Hi.
    { assert (i ≤ Z.of_nat (length fs) + 2 ∧ 0 ≤ i) as [? ?]; [|unfold NINODES in Hn; lia]. destruct k' as [|[|k']]; [by simplify_eq/=; lia..|].
      simpl in Ek. rewrite list_lookup_imap in Ek. destruct (fs !! k') as [g|] eqn:Eg; [|done]. simplify_eq/=. apply lookup_lt_Some in Eg. lia. }
    unfold dirent_of. rewrite decode_encode_dirent; [|by unfold xshort; rewrite le_decode_encode; apply Z.mod_pos_bound|apply length_strncpy].
    f_equal. unfold xshort. rewrite le_decode_encode. by apply Z.mod_small.
  - assert (file_range v x (Z.of_nat k' * 16) 16 = replicate 16 x00) as ->; [|by vm_compute].
    apply lookup_ge_None in Ek. rewrite length_root_names in Ek.
    apply list_eq. intros j. destruct (decide (j < 16)%nat) as [Hj|Hj].
    + rewrite file_range_lookup, Hbyte, lookup_replicate_2 by lia. rewrite nth_overflow; [done|]. rewrite length_root_data. lia.
    + rewrite !lookup_ge_None_2; [done|rewrite length_replicate; lia|rewrite length_file_range; lia].
Qed.

(** The files can all be put into an image. *)
Record fits (fs : list hostfile) : Prop := {
  ft_readable : Forall readable fs;
  ft_inodes : Z.of_nat (length fs) + 2 ≤ NINODES;
  ft_max : Forall (λ f, m_len (file_of f) ≤ MAXFILE * BSIZE) fs;
  ft_blocks : nmeta + data_blocks (files_of fs) ≤ FSSIZE;
}.

Lemma root_max fs : fits fs → Z.of_nat (length (root_data fs)) ≤ 3200 ∧ 3200 ≤ MAXFILE * BSIZE.
Proof. intros [_ Hn _ _]. rewrite length_root_data. unfold NINODES in Hn. split; [lia|done]. Qed.

(** The directory as it is built up. *)
Lemma root_extend fs (e := mk_mfile T_DIR 0 []) :
  extend (extend (extend e (dirent_of 1 (bytes "."))) (dirent_of 1 (bytes ".."))) (dirents 2 fs) =
    mk_mfile T_DIR (Z.of_nat (length (root_data fs))) (root_data fs).
Proof.
  rewrite !extend_extend. unfold extend, root_data, root_names. cbn [map concat fst snd]. rewrite dirents_imap. rewrite <- ?app_assoc. done.
Qed.

Lemma build_wp fs : fits fs → wp (build fs) start (λ _ s, nsect s = FSSIZE ∧ fs_image (image s) (files_of fs)).
Proof.
  intros Hfit. pose proof (root_max fs Hfit) as [Hr1 Hr2]. pose proof Hfit as [Hrd Hn Hmf Hroom]. unfold build.
  apply wp_bind, wp_modify. apply wp_bind, zero_sectors_wp; [done|done|done|done|]. intros s1 N1 Z1 I1 B1.
  assert (sectors s1) as Hs1 by (split; [done|by intros b; rewrite Z1|rewrite B1; done|done]).
  apply wp_bind, wsect_wp; [done|done|]. set (s2 := written _ _ s1).
  assert (built s2 []) as Hb2.
  { apply empty_built. split_and!; [apply sectors_written; [done|by rewrite B1|by vm_compute]|done|done|]. intros b. cbn [written image set_image s2].
    unfold put_sector. case_z; [done|apply Z1]. }
  set (e := mk_mfile T_DIR 0 []). apply wp_bind. apply (ialloc_wp s2 []); [done|by left|done|]. intros s3 Hb3. change ([] ++ [_]) with [e] in Hb3.
  apply wp_bind, wp_ret. change (Z.of_nat (length []) + 1) with (Z.of_nat 0 + 1).
  set (r1 := extend e (dirent_of 1 (bytes "."))). set (r2 := extend r1 (dirent_of 1 (bytes ".."))).
  apply wp_bind. apply (iappend_wp s3 [e] 0 e); [done|done|done|by vm_compute|by vm_compute|]. change (put_file 0 _ [e]) with [r1]. intros s4 Hb4.
  apply wp_bind. apply (iappend_wp s4 [r1] 0 r1); [done|done|apply extend_size|by vm_compute|by vm_compute|]. change (put_file 0 _ [r1]) with [r2]. intros s5 Hb5.
  set (r3 := mk_mfile T_DIR (Z.of_nat (length (root_data fs))) (root_data fs)). assert (extend r2 (dirents 2 fs) = r3) as Er by apply root_extend.
  assert (data_blocks (r3 :: map file_of fs) = data_blocks (files_of fs)) as Edb by done.
  apply wp_bind. apply (add_files_wp fs s5 r2 []); [done|apply extend_size|done|simpl length; lia| |done| |]; simpl length; change (Z.of_nat 0 + 2) with 2; rewrite Er.
  { exact (Z.le_trans _ _ _ Hr1 Hr2). } { rewrite app_nil_l, Edb. done. }
  rewrite app_nil_l. intros s6 Hb6. apply wp_bind. apply rinode_wp; [apply Hb6|done|].
  destruct (bu_inode _ _ Hb6 0%nat r3 eq_refl) as [Hx _]. change (Z.of_nat 0 + 1) with ROOTINO in *. set (n := Z.of_nat (length (root_data fs))) in *.
  assert (xint (d_size (dinode_of (image s6) ROOTINO)) = n) as -> by (rewrite Hx; apply xint_small; simpl; lia).
  assert (0 ≤ (n / BSIZE + 1) * BSIZE < 2 ^ 32) as Hz.
  { pose proof (Z.mul_div_le n BSIZE BSIZE_pos). pose proof (Z.div_pos n BSIZE). assert (BSIZE = 1024) by done. lia. }
  cbv zeta. rewrite u32_small, xint_small by done. apply wp_bind. apply (resize_wp s6 r3 (map file_of fs)); [done|done|]. intros s7 Hb7 _.
  change (mk_mfile _ _ _ :: map file_of fs) with (files_of fs) in Hb7.
  apply wp_bind, wp_gets. rewrite (bu_blocks _ _ Hb7). pose proof (used_range _ _ Hb7) as Hu. assert (0 < nmeta ∧ FSSIZE < BSIZE * 8 ∧ FSSIZE < 2 ^ 31) as (? & ? & ?) by done.
  rewrite i32_small by lia. unfold balloc. destruct (Z.ltb_spec (nmeta + data_blocks (files_of fs)) (BSIZE * 8)); [|lia]. apply wp_bind, wp_ret.
  apply wsect_wp; [apply Hb7|done|]. split; [apply Hb7|]. apply (finish_image s7); [done|]. constructor; [exact (Z.le_trans _ _ _ Hr1 Hr2)|].
  by apply Forall_fmap.
Qed.

(** C16: the image that [mkfs] writes is a file system.  For files that can be
    read, whose names have no slash, and for which there are inodes and blocks
    enough, the run ends with an image of the size in the superblock that the
    kernel can use: the superblock reads as meant, recovery finds an empty log
    and leaves every block alone, inode [k + 1] is file [k] with exactly its
    bytes, no block is owned twice, exactly the blocks in use are marked in the
    bitmap, and the root directory lists [.], [..] and the files, in order,
    under their numbers, then empty entries only. *)
Theorem mkfs_image fs : fits fs → wp (main (Some true) fs) start (λ _ s, nsect s = FSSIZE ∧ fs_image (image s) (files_of fs) ∧
  let x := dinode_of (image s) ROOTINO in entries (image s) x = root_entry fs <$> seq 0 (dir_size x)).
Proof.
  intros Hfit. eapply wp_mono; [by apply build_wp|]. intros _ s [N I]. split; [done|]. split; [done|]. apply root_entries; [done|apply Hfit].
Qed.

(** Two files, one of them empty, with names that are changed and cut. *)
Definition demo_files : list hostfile :=
  [mk_hostfile (bytes "user/_cat") (Some [[x41; x42]; [x43]]); mk_hostfile (bytes "README_with_a_long_name") (Some [])].
Lemma demo_files_fit : fits demo_files.
Proof.
  split; [|done|repeat constructor; by vm_compute|by vm_compute].
  repeat constructor; [by apply (bool_decide_unpack _); vm_compute|done|by apply (bool_decide_unpack _); vm_compute|done].
Qed.
Lemma mkfs_image_witness : ∃ s, main (Some true) demo_files start = Ok tt s ∧
  file_range (image s) (dinode_of (image s) 2) 0 3 = [x41; x42; x43] ∧ de_inum (root_entry demo_files 2) = 2.
Proof.
  destruct (wp_elim _ _ _ (mkfs_image demo_files demo_files_fit)) as ([] & s & E & _ & I & _). exists s. split; [exact E|].
  split; [|reflexivity]. exact (proj2 (proj2 (im_inode _ _ I 1%nat (file_of (mk_hostfile (bytes "user/_cat") (Some [[x41; x42]; [x43]]))) eq_refl))).
Defined.
