(* ===== verification/FsBoot.v ===== *)
(** * Booting the kernel on a new disk

    [binit] and [fsinit] on an image that [mkfs] wrote lead to a file system in
    which what the theorems about files ask for holds: the cache and the log are
    in order, the layout of the disk is sound, and every inode is that of a file
    with its contents.  So does what those about directories ask of the root,
    unless its entries fill its blocks exactly. *)

From S2P Require Import Prelude Riscv Mem CString Bio Log BioSpec LogSpec Fs FsSpec FsFile Mkfs MkfsSpec.

(** The file system's part of the start-up, before any process touches it. *)
Definition fs_start (dv : Z) : M fsst unit := blk binit;; fsinit dv.
Definition fs_reset (p : Z) (dk : contents) (l : list inode) (sb0 : superblock) : fsst := mk_fsst (fresh p dk) l sb0.

(** Reading the superblock through a clean cache. *)
Lemma readsb_wp dv t l s (d := disk t 1) (Q : superblock → fsst → Prop) : cinv dv ∅ ∅ l t →
  (∀ t' l', cinv dv ∅ ∅ l' t' → kept t t' →
    Q (mk_sb (word d 0) (word d 1) (word d 2) (word d 3) (word d 4) (word d 5) (word d 6) (word d 7)) (set_flog (set_lbio t' (flog s)) s)) →
  wp (readsb dv) (set_flog (set_lbio t (flog s)) s) Q.
Proof.
  intros Hinv HQ. unfold readsb, bdata, blk, lg, bio. assert (view dv t 1 = d) as Hv by (eapply view_clean; [apply Hinv|apply not_elem_of_empty..]).
  apply wp_bind, (wp_zoom flog set_flog), (wp_zoom lbio set_lbio). simpl.
  eapply wp_mono; [eapply (bread_spec dv ∅ ∅ l); [done|apply not_elem_of_empty|right; rewrite union_empty_l_L, size_empty; change nbuf with 30%nat; lia]|].
  intros i t1 [I1 H1 V1 K1 _ _]. simpl. rewrite union_empty_r_L in I1. pose proof H1 as (b & Hb & _).
  apply wp_bind, wp_bind, (wp_zoom flog set_flog), (wp_zoom lbio set_lbio). simpl. eapply wp_get_buf; [done|]. intros b' Hb'. apply wp_ret.
  assert (b_data b' = d) as ->.
  { transitivity (b_data b); [by rewrite <- Hb'|]. rewrite (view_hold _ _ _ _ _ _ _ (ci_cache _ _ _ _ _ I1) H1 Hb), V1. done. }
  apply wp_bind, (wp_zoom flog set_flog), (wp_zoom lbio set_lbio). simpl.
  eapply wp_mono; [eapply brelse_spec; [exact I1|exact H1|right; rewrite V1, Hv; destruct K1 as [-> _]; done]|].
  intros _ t2 [I2 V2 K2 _]. apply wp_ret. simpl in I2. rewrite difference_diag_L in I2. eapply HQ; [exact I2|by eapply kept_trans].
Qed.

(** The file system that the kernel works on: its files are [l]. *)
Record ready (dv : Z) (l : list mfile) (s : fsst) : Prop := {
  rd_sb : fsb s = sb;
  rd_dev : fdev s = dv;
  rd_ok : fok ∅ s;
  rd_idle : lh (flog s) = [] ∧ l_outstanding (flog s) = 0 ∧ l_committing (flog s) = false ∧ l_size (flog s) = LOGSIZE;
  rd_layout : layout s;
  rd_inode (k : nat) f (x := dinode_at s (Z.of_nat k + 1)) : l !! k = Some f →
    inode_is x f ∧ wf_dinode x ∧ file_ok s x ∧ inode_apart s (Z.of_nat k + 1) x;
  rd_data (k : nat) f (x := dinode_at s (Z.of_nat k + 1)) : l !! k = Some f → file_range (fview s) x 0 (m_len f) = m_data f;
  rd_mapped (k : nat) f (x := dinode_at s (Z.of_nat k + 1)) : l !! k = Some f → m_size f ≤ MAXFILE * BSIZE →
    mapped (fview s) x ↔ ∀ bn, 0 ≤ bn → bn * BSIZE < m_size f → bn * BSIZE < m_len f;
}.

(** Its root directory: the entries of [fs]; and if it has no hole, it is the
    directory that looking names up and linking ask for, once its inode is in the
    table.  The size in its inode is of one block more than its entries fill, so
    there is a hole just when they fill their blocks. *)
Record root_ready (fs : list hostfile) (s : fsst) (x := dinode_at s ROOTINO) : Prop := {
  rr_entries : entries (fview s) x = root_entry fs <$> seq 0 (dir_size x);
  rr_mapped : mapped (fview s) x ↔ ((Z.of_nat (length fs) + 2) * sizeof_dirent) mod BSIZE ≠ 0;
  rr_dir i ip : mapped (fview s) x → itable s !! i = Some ip → i_dev ip = fdev s → i_d ip = x → dir_ok s i ip;
}.

Section ready.
Context (dv : Z) (v : contents) (l : list mfile) (s : fsst).
Context (I : fs_image v l) (Hfew : Z.of_nat (length l) < NINODES).
Context (Hsb : fsb s = sb) (Hdev : fdev s = dv) (Hlog : l_start (flog s) = sb_logstart sb ∧ l_size (flog s) = sb_nlog sb).
Context (Hview : ∀ n, ¬ in_log (sb_logstart sb) (sb_nlog sb) n → fview s n = v n).

Lemma outside n : sb_inodestart sb ≤ n → ¬ in_log (sb_logstart sb) (sb_nlog sb) n.
Proof using. clear. unfold in_log. change (sb_inodestart sb) with 32. change (sb_logstart sb) with 2. change (sb_nlog sb) with 30. lia. Qed.
Lemma same_high n : sb_inodestart sb ≤ n → fview s n = v n.
Proof using I Hfew Hsb Hdev Hlog Hview. intros H. by apply Hview, outside. Qed.
Lemma home_high n : sb_inodestart sb ≤ n < FSSIZE → fhome s n.
Proof using I Hfew Hsb Hdev Hlog Hview.
  intros H. destruct Hlog as [H1 H2]. assert (0 ≤ sb_inodestart sb ∧ FSSIZE < 2 ^ 31) by done. split; [unfold block_nr; lia|]. rewrite H1, H2. apply outside. lia.
Qed.
Lemma the_bitmap b : is_block s b → BBLOCK b sb = sb_bmapstart sb.
Proof using I Hfew Hsb Hdev Hlog Hview. intros H. unfold is_block in H. rewrite Hsb in H. change (sb_size sb) with FSSIZE in H. assert (FSSIZE ≤ BPB) by done. unfold BBLOCK. rewrite Z.div_small by lia. lia. Qed.
Lemma used_marked b : is_block s b → used s b = marked v b.
Proof using I Hfew Hsb Hdev Hlog Hview. intros H. unfold used, marked. rewrite Hsb, the_bitmap by done. by rewrite same_high. Qed.
Lemma bitmap_block_is n : bitmap_block s n → n = nmeta - 1.
Proof using I Hfew Hsb Hdev Hlog Hview. intros (b & Hb & ->). rewrite Hsb. by apply the_bitmap. Qed.

Lemma layout_ready : layout s.
Proof using I Hfew Hsb Hdev Hlog Hview.
  assert (sb_inodestart sb < nmeta - 1 ∧ nmeta < FSSIZE ∧ 0 < nmeta) as (? & ? & ?) by done. split.
  - intros n ->%bitmap_block_is. apply home_high. lia.
  - intros b Hb Hu. rewrite used_marked in Hu by done. unfold is_block in Hb. rewrite Hsb in Hb. change (sb_size sb) with FSSIZE in Hb.
    rewrite (im_bitmap _ _ I) in Hu by done. apply Z.ltb_ge in Hu. pose proof (data_blocks_pos l). split; [apply home_high; lia|]. intros ?%bitmap_block_is. lia.
  - intros Hb0. rewrite used_marked, (im_bitmap _ _ I) by done. apply Z.ltb_lt. pose proof (data_blocks_pos l). lia.
Qed.

Lemma dinode_ready inum : 0 ≤ inum < NINODES → dinode_at s inum = dinode_of v inum.
Proof using I Hfew Hsb Hdev Hlog Hview. intros H. pose proof (IBLOCK_range inum H). unfold dinode_at, dinode_of. rewrite Hsb, same_high; [done|lia]. Qed.
Lemma slot_ready k f j : l !! k = Some f → slot (fview s) (dinode_at s (Z.of_nat k + 1)) j = slot v (dinode_of v (Z.of_nat k + 1)) j.
Proof using I Hfew Hsb Hdev Hlog Hview.
  intros Hf. pose proof (lookup_lt_Some _ _ _ Hf) as Hk. rewrite dinode_ready by lia. apply slot_frame; [done|]. intros Hz. rewrite <- (slot_ind v) in Hz |- *.
  destruct (im_used _ _ I k MAXFILE Hk) as [Hr _]; [done|done|]. apply same_high. assert (sb_inodestart sb < nmeta) by done. lia.
Qed.
Lemma byte_ready k f o : l !! k = Some f → 0 ≤ o < MAXFILE * BSIZE →
  file_byte (fview s) (dinode_at s (Z.of_nat k + 1)) o = file_byte v (dinode_of v (Z.of_nat k + 1)) o.
Proof using I Hfew Hsb Hdev Hlog Hview.
  intros Hf Ho. pose proof (lookup_lt_Some _ _ _ Hf) as Hk. pose proof (in_file o Ho) as Hb. unfold file_byte. rewrite <- !addr_slot by done. rewrite (slot_ready k f) by done.
  destruct (Z.eqb_spec (slot v (dinode_of v (Z.of_nat k + 1)) (o / BSIZE)) 0) as [|Hz]; [done|].
  destruct (im_used _ _ I k (o / BSIZE) Hk) as [Hr _]; [lia|done|]. rewrite same_high; [done|]. assert (sb_inodestart sb < nmeta) by done. lia.
Qed.

Lemma file_ready k f (x := dinode_at s (Z.of_nat k + 1)) : l !! k = Some f → file_ok s x ∧ inode_apart s (Z.of_nat k + 1) x.
Proof using I Hfew Hsb Hdev Hlog Hview.
  intros Hf. pose proof (lookup_lt_Some _ _ _ Hf) as Hk. destruct (im_inode _ _ I k f Hf) as (_ & Hwf & _). pose proof (IBLOCK_range (Z.of_nat k + 1) ltac:(lia)) as HI.
  assert (sb_inodestart sb < nmeta - 1 ∧ nmeta < FSSIZE) as [? ?] by done. assert (∀ b, is_block s b ↔ 0 ≤ b < FSSIZE) as Hib by (intros b; unfold is_block; by rewrite Hsb).
  pose proof (data_blocks_pos l). assert (0 ≤ sb_inodestart sb) as Hpos by done. split; split.
  - unfold x. rewrite dinode_ready by lia. apply Hwf.
  - intros j Hj. unfold x. rewrite (slot_ready k f) by done. intros Hz. destruct (im_used _ _ I k j Hk Hj Hz) as [Hr Hm]. assert (0 < nmeta) by done.
    split_and!; [apply Hib; lia|rewrite used_marked; [done|apply Hib; lia]|apply home_high; lia|intros ?%bitmap_block_is; lia].
  - intros j j' Hj Hj'. unfold x. rewrite !(slot_ready k f) by done. intros Hz E. by apply (im_apart _ _ I k k j j') in E as [_ E].
  - lia.
  - rewrite Hsb. apply home_high. lia.
  - rewrite Hsb. intros ?%bitmap_block_is. lia.
  - rewrite Hsb. intros Hb. rewrite used_marked, (im_bitmap _ _ I) by (done || by apply Hib). apply Z.ltb_lt. lia.
  - intros j Hj. unfold x. rewrite (slot_ready k f), Hsb by done. intros Hz. destruct (im_used _ _ I k j Hk Hj Hz) as [Hr _]. lia.
Qed.

Lemma image_ready : Forall (λ f, m_len f ≤ MAXFILE * BSIZE) l → fok ∅ s →
  lh (flog s) = [] ∧ l_outstanding (flog s) = 0 ∧ l_committing (flog s) = false → ready dv l s.
Proof using I Hfew Hsb Hdev Hlog Hview.
  intros Hmax Hok Hidle. rewrite Forall_lookup in Hmax. split; [done|done|done| |apply layout_ready|..].
  - destruct Hlog as [_ ->]. naive_solver.
  - intros k f x Hf. pose proof (lookup_lt_Some _ _ _ Hf). destruct (im_inode _ _ I k f Hf) as (H1 & H2 & _). rewrite <- dinode_ready in H1, H2 by lia.
    destruct (file_ready k f Hf). done.
  - intros k f x Hf. destruct (im_inode _ _ I k f Hf) as (_ & _ & <-). apply file_range_ext. intros o Ho. specialize (Hmax k f Hf).
    apply (byte_ready k f); [done|lia].
  - intros k f x Hf Hsz. pose proof (lookup_lt_Some _ _ _ Hf). destruct (im_inode _ _ I k f Hf) as (H1 & _ & _). rewrite <- dinode_ready in H1 by lia.
    fold x in H1. assert (d_size x = m_size f) as Hx by (by rewrite H1). unfold mapped. rewrite Hx. apply forall_proper. intros bn.
    split; intros Hb H0 Hlt; specialize (Hb H0 Hlt); assert (bn < MAXFILE) by (pose proof BSIZE_pos; nia);
      rewrite <- addr_slot in * by lia; unfold x in *; rewrite (slot_ready k f), addr_slot, (im_mapped _ _ I k f bn Hf) in * by (done || lia); lia.
Qed.

(** The entries of a directory, those past its end included. *)
Lemma entries_ready k f (x := dinode_at s (Z.of_nat k + 1)) : l !! k = Some f → d_size x ≤ MAXFILE * BSIZE →
  entries (fview s) x = entries v (dinode_of v (Z.of_nat k + 1)).
Proof using I Hfew Hsb Hdev Hlog Hview.
  intros Hf Hsz. pose proof (lookup_lt_Some _ _ _ Hf). unfold entries. rewrite <- dinode_ready by lia. fold x. apply list_fmap_ext.
  intros j k' Hj. apply lookup_seq in Hj as [-> Hj]. unfold dir_entry. f_equal. apply file_range_ext. intros o Ho. unfold x.
  rewrite dinode_ready by lia. rewrite <- (byte_ready k f) by (done || (unfold dir_size, sizeof_dirent in *; simpl in *; Z.div_mod_to_equations; lia)).
  by rewrite dinode_ready by lia.
Qed.
End ready.

Lemma fs_start_wp dv p v l it sb0 : fs_image v l → Z.of_nat (length l) < NINODES → Forall (λ f, m_len f ≤ MAXFILE * BSIZE) l → dv ≠ 0 →
  wp (fs_start dv) (fs_reset p v it sb0) (λ _ s, ready dv l s ∧
    ∀ (k : nat) f, l !! k = Some f → d_size (dinode_at s (Z.of_nat k + 1)) ≤ MAXFILE * BSIZE →
      entries (fview s) (dinode_at s (Z.of_nat k + 1)) = entries v (dinode_of v (Z.of_nat k + 1))).
Proof.
  intros I Hfew Hmax Hdv. destruct (im_log _ _ I) as [Hwf Hd]. unfold fs_start, blk, lg, bio.
  apply wp_bind, (wp_zoom flog set_flog), (wp_zoom lbio set_lbio). simpl.
  eapply wp_mono; [apply (binit_spec dv); [done|apply fresh_zeroed, Hwf]|]. intros _ t (Hinv & _ & Kd & Kw & _). simpl in Kd, Kw.
  unfold fsinit. apply wp_bind. change (fresh p v) with (flog (fs_reset p v it sb0)). eapply readsb_wp; [exact Hinv|]. intros t1 l1 I1 (Kd1 & Kw1 & _).
  rewrite Kd, (im_super _ _ I). apply wp_bind, wp_modify. change (negb (sb_magic sb =? FSMAGIC)) with false. cbv iota.
  unfold lg. apply (wp_zoom flog set_flog). cbn [flog set_flog set_fsb]. rewrite <- Kd, <- Kd1 in Hwf.
  eapply wp_mono; [eapply (initlog_wp dv sb t1 l1); [exact I1|by rewrite Kw1|exact Hwf|done..]|].
  intros _ u [Bw Bd Bi (B1 & B2 & B3 & B4 & B5 & B6)]. set (s := set_flog u _).
  assert (∀ n, ¬ in_log (sb_logstart sb) (sb_nlog sb) n → fview s n = v n) as Hview; [|split; [by eapply (image_ready dv v l)|intros k f; by eapply (entries_ready dv v l)]].
  intros n Hn. subst s. unfold fview. cbn [flog set_flog]. unfold lview. rewrite B4. erewrite booted_view by done.
  rewrite Bd, Kd1, Kd. unfold recovery_writes, redo_writes. rewrite Hd. simpl. case_z; [|done]. destruct Hn. subst. by vm_compute.
Qed.

Lemma root_is_ready fs dv v s : fits fs → fs_image v (files_of fs) → ready dv (files_of fs) s →
  (d_size (dinode_at s ROOTINO) ≤ MAXFILE * BSIZE → entries (fview s) (dinode_at s ROOTINO) = entries v (dinode_of v ROOTINO)) → root_ready fs s.
Proof.
  intros Hfit I R He. pose proof (root_max fs Hfit) as [Hr1 Hr2]. set (x := dinode_at s ROOTINO) in *.
  destruct (rd_inode _ _ _ R 0%nat _ eq_refl) as (Hx & _). change (Z.of_nat 0 + 1) with ROOTINO in *. fold x in Hx.
  set (n := Z.of_nat (length (root_data fs))) in *. assert (n = (Z.of_nat (length fs) + 2) * sizeof_dirent) as Hn by (unfold n; rewrite length_root_data; unfold sizeof_dirent; lia).
  assert (d_size x = (n / BSIZE + 1) * BSIZE) as Hd by (by rewrite Hx).
  assert (BSIZE = 1024 ∧ MAXFILE = 268) as [HB HM] by done.
  assert (0 ≤ d_size x ≤ MAXFILE * BSIZE) as Hsz by (rewrite Hd, HB, HM in *; Z.div_mod_to_equations; lia).
  split.
  - fold x. rewrite He by lia. rewrite (root_entries v fs) by (done || apply Hfit).
    destruct (im_inode _ _ I 0%nat (root_of fs) eq_refl) as [Hx' _]. change (Z.of_nat 0 + 1) with ROOTINO in *. unfold dir_size. by rewrite Hx, Hx'.
  - rewrite (rd_mapped _ _ _ R 0%nat _ eq_refl); [|cbn [root_of m_size]; fold n; rewrite <- Hd; apply Hsz]. cbn [root_of m_size]. unfold m_len. cbn [root_of m_data]. fold n. rewrite <- Hn. split.
    + intros Hb Hz. specialize (Hb (n / BSIZE)). rewrite HB in *. Z.div_mod_to_equations. lia.
    + intros Hz bn H0 Hlt. rewrite HB in *. Z.div_mod_to_equations. lia.
  - intros i ip Hm Hi Hdev Hip. subst x. rewrite <- Hip in *. split; try done; [apply R|by rewrite Hx|].
    rewrite Hd, HB. change sizeof_dirent with 16. Z.div_mod_to_equations. lia.
Qed.

(** C13: the kernel can use what [mkfs] writes.  For files that fit, [mkfs]
    ends, and when the kernel starts on the image, with an empty cache, [binit]
    and [fsinit] return, having read the superblock that [mkfs] wrote; then the
    log is empty and idle, the layout of the disk is sound, and every file is
    where its inode says, with its bytes, its blocks its own and in use, without
    holes, and apart from the inodes, which is what reading and writing it
    assume.  The root directory has the entries [.], [..] and the files, in order
    and with the numbers of their inodes.  It is the directory without holes that
    looking names up and linking assume, if and only if its entries do not fill
    its blocks exactly, as they do for 62 files. *)
Theorem mkfs_boots fs dv p it sb0 : fits fs → dv ≠ 0 →
  wp (main (Some true) fs) start (λ _ m, wp (fs_start dv) (fs_reset p (image m) it sb0) (λ _ s, ready dv (files_of fs) s ∧ root_ready fs s)).
Proof.
  intros Hfit Hdv. pose proof (root_max fs Hfit) as [Hr1 Hr2]. eapply wp_mono; [by apply build_wp|]. intros _ m [_ I]. pose proof Hfit as [_ Hn Hm _].
  eapply wp_mono; [apply fs_start_wp; [done|cbn [files_of length]; rewrite length_map; lia| |done]|].
  - constructor; [exact (Z.le_trans _ _ _ Hr1 Hr2)|by apply Forall_fmap].
  - intros _ s [R He]. split; [done|]. eapply root_is_ready; [done|exact I|done|]. exact (He 0%nat _ eq_refl).
Qed.

Lemma mkfs_boots_witness : ∃ m s, main (Some true) demo_files start = Ok tt m ∧ fs_start 1 (fs_reset 0 (image m) [] sb) = Ok tt s ∧
  file_range (fview s) (dinode_at s 2) 0 3 = [x41; x42; x43] ∧ mapped (fview s) (dinode_at s ROOTINO).
Proof.
  destruct (wp_elim _ _ _ (mkfs_boots demo_files 1 0 [] sb demo_files_fit ltac:(lia))) as ([] & m & E & W).
  destruct (wp_elim _ _ _ W) as ([] & s & E' & R & RR). exists m, s. split; [exact E|]. split; [exact E'|]. split.
  - exact (rd_data _ _ _ R 1%nat (file_of (mk_hostfile (bytes "user/_cat") (Some [[x41; x42]; [x43]]))) eq_refl).
  - refine (proj2 (rr_mapped _ _ RR) _). intros H. vm_compute in H. discriminate H.
Defined.
