(* ===== verification/Pipe.v ===== *)
(** * Pipes, [kernel/pipe.c]

    A pipe is a page from [kalloc] holding a [struct pipe]: its lock, the ring
    of [PIPESIZE] bytes and four words.  Bytes go through the ring one at a
    time, each copied from or to the caller's address space as the source does.
    A read of an empty pipe and a write to a full one go to sleep, and the
    [_resume] definitions are what runs after the wakeup.  The lock is the lock
    set's [LOther] of the page. *)

From S2P Require Import Prelude Riscv Mem CString Kalloc Vm Spinlock Proc.

Definition PIPESIZE : Z := 512.

(** Offsets in [struct pipe], after a [struct spinlock] of 24 bytes. *)
Definition pipe_data : Z := 24.
Definition pipe_nread : Z := 536.
Definition pipe_nwrite : Z := 540.
Definition pipe_readopen : Z := 544.
Definition pipe_writeopen : Z := 548.

Definition ld32 (a : Z) : M kst Z :=
  if mapped a 4 then gets (λ s, load32 (mem s) a) else fault a.
Definition st32 (a v : Z) : M kst unit :=
  if mapped a 4 then modify (set_mem (λ m, store32 m a v)) else fault a.

Section pipe.
Context {F : Type} `{!FileSys F} `{!KernelImage} `{!KernelText}.
Implicit Types s : pst F.

(** The initialization in [pipealloc]. *)
Definition pipe_init (pi : Z) : M kst unit :=
  st32 (pi + pipe_readopen) 1;;
  st32 (pi + pipe_writeopen) 1;;
  st32 (pi + pipe_nwrite) 0;;
  st32 (pi + pipe_nread) 0.

Definition pipeclose (cur : nat) (pi : Z) (writable : bool) : M (pst F) unit :=
  acquire (LOther pi);;
  (if writable then
     vm (st32 (pi + pipe_writeopen) 0);;
     wakeup (Some cur) (pi + pipe_nread)
   else
     vm (st32 (pi + pipe_readopen) 0);;
     wakeup (Some cur) (pi + pipe_nwrite));;
  ro ← vm (ld32 (pi + pipe_readopen));
  wo ← vm (ld32 (pi + pipe_writeopen));
  if (ro =? 0) && (wo =? 0) then
    release (LOther pi);;
    vm (kfree pi)
  else release (LOther pi).

(** The loop of [pipewrite], with the lock held, from byte [i] on: whether it
    gave up because the read end is closed or the process killed, and the count.
    [fuel] counts the bytes left. *)
Fixpoint pipewrite_loop (fuel : nat) (cur : nat) (pi addr n i : Z) : M (pst F) (bool * Z) :=
  match fuel with
  | O => no_fuel
  | S fuel =>
      if i <? n then
        ro ← vm (ld32 (pi + pipe_readopen));
        k ← (if ro =? 0 then mret 1 else killed cur);
        if (ro =? 0) || negb (k =? 0) then release (LOther pi);; mret (true, i)
        else
          nw ← vm (ld32 (pi + pipe_nwrite));
          nr ← vm (ld32 (pi + pipe_nread));
          if nw =? u32 (nr + PIPESIZE) then
            wakeup (Some cur) (pi + pipe_nread);;
            sleep cur (pi + pipe_nwrite) (LOther pi);;
            mret (false, i)
          else
            p ← get_proc cur;
            '(r, ch) ← vm (copyin (pagetable p) (u64 (addr + i)) 1);
            if r =? -1 then mret (false, i)
            else
              vm (st32 (pi + pipe_nwrite) (u32 (nw + 1)));;
              vm (write_bytes (pi + pipe_data + nw mod PIPESIZE) ch);;
              pipewrite_loop fuel cur pi addr n (i + 1)
      else mret (false, i)
  end.

Definition pipewrite_from (cur : nat) (pi addr n i : Z) : M (pst F) Z :=
  '(gone, i) ← pipewrite_loop (S (Z.to_nat (n - i))) cur pi addr n i;
  if (gone : bool) then mret (-1)
  else
    wakeup (Some cur) (pi + pipe_nread);;
    release (LOther pi);;
    mret i.

Definition pipewrite (cur : nat) (pi addr n : Z) : M (pst F) Z :=
  acquire (LOther pi);; pipewrite_from cur pi addr n 0.
Definition pipewrite_resume (cur : nat) (pi addr n i : Z) : M (pst F) Z :=
  sleep_resume cur (LOther pi);; pipewrite_from cur pi addr n i.

(** The copying loop of [piperead]. *)
Fixpoint piperead_loop (fuel : nat) (cur : nat) (pi addr n i : Z) : M (pst F) Z :=
  match fuel with
  | O => no_fuel
  | S fuel =>
      if i <? n then
        nr ← vm (ld32 (pi + pipe_nread));
        nw ← vm (ld32 (pi + pipe_nwrite));
        if nr =? nw then mret i
        else
          vm (st32 (pi + pipe_nread) (u32 (nr + 1)));;
          ch ← vm (read_bytes (pi + pipe_data + nr mod PIPESIZE) 1);
          p ← get_proc cur;
          r ← vm (copyout (pagetable p) (u64 (addr + i)) ch);
          if r =? -1 then mret i else piperead_loop fuel cur pi addr n (i + 1)
      else mret i
  end.

(** From the test of the waiting loop on, with the lock held. *)
Definition piperead_body (cur : nat) (pi addr n : Z) : M (pst F) Z :=
  nr ← vm (ld32 (pi + pipe_nread));
  nw ← vm (ld32 (pi + pipe_nwrite));
  wo ← vm (ld32 (pi + pipe_writeopen));
  if (nr =? nw) && negb (wo =? 0) then
    k ← killed cur;
    if negb (k =? 0) then release (LOther pi);; mret (-1)
    else sleep cur (pi + pipe_nread) (LOther pi);; mret 0
  else
    i ← piperead_loop (S (Z.to_nat n)) cur pi addr n 0;
    wakeup (Some cur) (pi + pipe_nwrite);;
    release (LOther pi);;
    mret i.

Definition piperead (cur : nat) (pi addr n : Z) : M (pst F) Z :=
  acquire (LOther pi);; piperead_body cur pi addr n.
Definition piperead_resume (cur : nat) (pi addr n : Z) : M (pst F) Z :=
  sleep_resume cur (LOther pi);; piperead_body cur pi addr n.

End pipe.
