(* ===== verification/PipeSpec.v ===== *)
(** * Correctness of pipes

    The ring of a pipe implements a bounded queue of bytes: [pipe_at] relates
    the page to the queue it holds, whatever the two counters are, so that their
    wrap-around at 2^32 is covered.  [pipewrite] appends the caller's bytes and
    [piperead] takes from the front, with exactly the cases of a bounded queue
    ([write_queue]) and of the caller's memory. *)

From S2P Require Import Prelude Riscv Mem CString Kalloc Vm VmTree VmOps VmFree Cow Spinlock Proc ProcSpec ProcTable Run Syscall Trap TrapSpec Pipe.

(** ** The ring *)

(** The page [pi] holds the queue [q], its front being byte [nr] of all bytes
    read so far, modulo 2^32. *)
Record pipe_at (k : kst) (pi nr : Z) (q : list byte) (ro wo : Z) : Prop := {
  pa_range : 0 ≤ nr < 2 ^ 32;
  pa_size : Z.of_nat (length q) ≤ PIPESIZE;
  pa_nread : load32 (mem k) (pi + pipe_nread) = nr;
  pa_nwrite : load32 (mem k) (pi + pipe_nwrite) = u32 (nr + Z.of_nat (length q));
  pa_ro : load32 (mem k) (pi + pipe_readopen) = ro;
  pa_wo : load32 (mem k) (pi + pipe_writeopen) = wo;
  pa_data i c : q !! i = Some c → mem k (pi + pipe_data + (nr + Z.of_nat i) mod PIPESIZE) = c;
}.

Ltac ring_unfold := unfold PIPESIZE, pipe_data, pipe_nread, pipe_nwrite, pipe_readopen, pipe_writeopen, u32 in *.
Ltac ring_lia := ring_unfold; Z.div_mod_to_equations; lia.

(** The counters give away whether the ring is full or empty. *)
Lemma counters_full nr n : 0 ≤ n ≤ PIPESIZE → (u32 (nr + n) =? u32 (nr + PIPESIZE)) = (n =? PIPESIZE).
Proof. intros Hn. apply eq_true_iff_eq. rewrite !Z.eqb_eq. split; [ring_lia|by intros ->]. Qed.
Lemma counters_empty nr n : 0 ≤ nr < 2 ^ 32 → 0 ≤ n ≤ PIPESIZE → (nr =? u32 (nr + n)) = (n =? 0).
Proof. intros Hr Hn. apply eq_true_iff_eq. rewrite !Z.eqb_eq. split; ring_lia. Qed.
Lemma ring_index n : u32 n mod PIPESIZE = n mod PIPESIZE.
Proof. ring_lia. Qed.
Lemma ring_inj nr i j : 0 ≤ i < PIPESIZE → 0 ≤ j < PIPESIZE → (nr + i) mod PIPESIZE = (nr + j) mod PIPESIZE → i = j.
Proof. ring_lia. Qed.
Lemma ring_slot n : 0 ≤ n mod PIPESIZE < PIPESIZE.
Proof. ring_lia. Qed.

(** Storing a byte at the back, in the two steps of the source. *)
Definition push (pi nw : Z) (c : byte) (k : kst) : kst :=
  set_mem (λ m, mwrite m (pi + pipe_data + nw mod PIPESIZE) [c]) (set_mem (λ m, store32 m (pi + pipe_nwrite) (u32 (nw + 1))) k).
Definition pop (pi nr : Z) (k : kst) : kst := set_mem (λ m, store32 m (pi + pipe_nread) (u32 (nr + 1))) k.

Lemma push_ok k pi nr q ro wo c : pipe_at k pi nr q ro wo → Z.of_nat (length q) < PIPESIZE →
  pipe_at (push pi (u32 (nr + Z.of_nat (length q))) c k) pi nr (q ++ [c]) ro wo.
Proof.
  intros [Hr Hn H1 H2 H3 H4 Hd] Hlt. unfold push. rewrite ring_index. set (n := Z.of_nat (length q)) in *.
  pose proof (ring_slot (nr + n)) as Hs. split; [done|rewrite length_app; simpl; lia|..]; simpl.
  - rewrite load32_mwrite_ne, load32_store32_ne by (simpl; ring_unfold; lia). done.
  - rewrite load32_mwrite_ne by (simpl; ring_unfold; lia). rewrite load32_store32_eq by apply u32_range.
    rewrite length_app. simpl. subst n. ring_lia.
  - rewrite load32_mwrite_ne, load32_store32_ne by (simpl; ring_unfold; lia). done.
  - rewrite load32_mwrite_ne, load32_store32_ne by (simpl; ring_unfold; lia). done.
  - intros i x Hi. pose proof (ring_slot (nr + Z.of_nat i)) as Hsi. apply lookup_app_Some in Hi as [Hi|[Hge Hi]].
    + rewrite mwrite_out, store32_out; [by apply Hd|ring_unfold; lia|]. apply lookup_lt_Some in Hi. simpl. intros ?.
      assert (Z.of_nat i = n); [|lia]. apply (ring_inj nr); lia.
    + apply list_lookup_singleton_Some in Hi as [Hi <-]. assert (Z.of_nat i = n) as -> by lia.
      rewrite mwrite_in with (d := c) by (simpl; lia). rewrite Z.sub_diag. done.
Qed.

Lemma pop_ok k pi nr c q ro wo : pipe_at k pi nr (c :: q) ro wo →
  pipe_at (pop pi nr k) pi (u32 (nr + 1)) q ro wo.
Proof.
  intros [Hr Hn H1 H2 H3 H4 Hd]. unfold pop. simpl length in *. split; simpl; [apply u32_range|lia|..].
  - apply load32_store32_eq, u32_range.
  - rewrite load32_store32_ne, H2 by (ring_unfold; lia). ring_lia.
  - by rewrite load32_store32_ne by (ring_unfold; lia).
  - by rewrite load32_store32_ne by (ring_unfold; lia).
  - intros i x Hi. rewrite store32_out by (pose proof (ring_slot (u32 (nr + 1) + Z.of_nat i)); ring_unfold; lia).
    rewrite <- (Hd (S i) x) by done. f_equal. ring_lia.
Qed.

Lemma pipe_at_ext k k' pi nr q ro wo : pi mod 4096 = 0 →
  (∀ x, pg x = pi → mem k' x = mem k x) → pipe_at k pi nr q ro wo → pipe_at k' pi nr q ro wo.
Proof.
  intros Hpi Hm [Hr Hn H1 H2 H3 H4 Hd].
  assert (∀ o, 0 ≤ o < 4096 → mem k' (pi + o) = mem k (pi + o)) as Hm'. { intros o Ho. apply Hm, pg_eq; lia. }
  assert (∀ o, 0 ≤ o ≤ 4092 → load32 (mem k') (pi + o) = load32 (mem k) (pi + o)) as Hl.
  { intros o Ho. apply load32_ext. intros x Hx. replace x with (pi + (x - pi)) by lia. apply Hm'. lia. }
  split; try done; [rewrite Hl by (ring_unfold; lia); done..|].
  intros i c Hi. rewrite <- (Hd i c Hi), <- Z.add_assoc. apply Hm'.
  pose proof (ring_slot (nr + Z.of_nat i)). ring_unfold. lia.
Qed.

Lemma store_page pi a n x : pi mod 4096 = 0 → pi ≤ a → a + n ≤ pi + 4096 → a ≤ x < a + n → pg x = pi.
Proof. intros. apply pg_eq; lia. Qed.

Section ring.
Context `{!KernelImage}.

(** The pipe's page, out of the way of everything else. *)
Definition in_pipe (k : kst) (fl : list Z) (T : tables) (L : leaves) (pi nr : Z) (q : list byte) (ro wo : Z) : Prop :=
  vm_inv k fl T L ∧ aside fl T L pi ∧ pipe_at k pi nr q ro wo.

Lemma ld32_pipe pi o k : page_ok pi → 0 ≤ o ≤ 4092 → ld32 (pi + o) k = Ok (load32 (mem k) (pi + o)) k.
Proof. intros Hp Ho. unfold ld32. by rewrite (mapped_page pi) by (done || lia). Qed.
Lemma st32_pipe pi o v k : page_ok pi → 0 ≤ o ≤ 4092 →
  st32 (pi + o) v k = Ok tt (set_mem (λ m, store32 m (pi + o) v) k).
Proof. intros Hp Ho. unfold st32. by rewrite (mapped_page pi) by (done || lia). Qed.

Lemma page_change k k' fl T L pi : vm_inv k fl T L → aside fl T L pi → freelist k' = freelist k → page_refcnt k' = page_refcnt k →
  (∀ x, ¬ (pi ≤ x < pi + 4096) → mem k' x = mem k x) → vm_inv k' fl T L ∧ ∀ r va, view k' L r va = view k L r va.
Proof.
  intros Hv Ha Hf Hc Hm. apply (vm_frame_aside k k' fl T L pi); [done..|]. intros x Hx. apply Hm. intros ?.
  apply Hx, pg_eq; [apply (as_ok _ _ _ _ Ha)|done].
Qed.

Lemma push_in k fl T L pi nr q ro wo c : in_pipe k fl T L pi nr q ro wo → Z.of_nat (length q) < PIPESIZE →
  let k' := push pi (u32 (nr + Z.of_nat (length q))) c k in
  in_pipe k' fl T L pi nr (q ++ [c]) ro wo ∧ ∀ r va, view k' L r va = view k L r va.
Proof.
  intros (Hv & Ha & Hp) Hlt k'.
  destruct (page_change k k' fl T L pi Hv Ha eq_refl eq_refl) as [Hv' Hview].
  { intros x Hx. unfold k', push. simpl. pose proof (ring_slot (u32 (nr + Z.of_nat (length q)))).
    rewrite mwrite_out, store32_out; [done|ring_unfold; lia|simpl; ring_unfold; lia]. }
  split; [|done]. split; [done|]. split; [done|]. by apply push_ok.
Qed.

Lemma pop_in k fl T L pi nr c q ro wo : in_pipe k fl T L pi nr (c :: q) ro wo →
  let k' := pop pi nr k in
  in_pipe k' fl T L pi (u32 (nr + 1)) q ro wo ∧ (∀ r va, view k' L r va = view k L r va) ∧
  read_bytes (pi + pipe_data + nr mod PIPESIZE) 1 k' = Ok [c] k'.
Proof.
  intros (Hv & Ha & Hp) k'. pose proof (ring_slot nr) as Hs.
  destruct (page_change k k' fl T L pi Hv Ha eq_refl eq_refl) as [Hv' Hview].
  { intros x Hx. unfold k', pop. simpl. apply store32_out. ring_unfold. lia. }
  split; [|split; [done|]]; [split; [done|]; split; [done|]; by eapply pop_ok|].
  unfold read_bytes. rewrite (mapped_page pi) by (apply Ha || (simpl; ring_unfold; lia)). unfold gets. do 2 f_equal.
  unfold mread. simpl. rewrite Z.add_0_r, store32_out by (ring_unfold; lia).
  rewrite <- (pa_data _ _ _ _ _ _ Hp 0 c) by done. by rewrite Z.add_0_r.
Qed.

(** [pipealloc] leaves an empty pipe with both ends open. *)
Lemma pipe_init_ok k fl T L pi : vm_inv k fl T L → aside fl T L pi →
  ∃ k', pipe_init pi k = Ok tt k' ∧ in_pipe k' fl T L pi 0 [] 1 1 ∧ ∀ r va, view k' L r va = view k L r va.
Proof.
  intros Hv Ha. pose proof (as_ok _ _ _ _ Ha) as Hok. unfold pipe_init, mbind, M_bind.
  rewrite !st32_pipe by (done || (ring_unfold; lia)). simpl. eexists. split; [done|].
  edestruct (page_change k) as [Hv' Hview]; [done|done| | | |split; [|exact Hview]]; [done|done| |].
  { intros x Hx. simpl. rewrite !store32_out by (ring_unfold; lia). done. }
  split; [done|]. split; [done|]. split; simpl; try done; try (by ring_unfold; lia).
  - by rewrite load32_store32_eq.
  - by rewrite load32_store32_ne, load32_store32_eq by (ring_unfold; lia).
  - by rewrite !load32_store32_ne, load32_store32_eq by (ring_unfold; lia).
  - by rewrite !load32_store32_ne, load32_store32_eq by (ring_unfold; lia).
Qed.

End ring.

(** ** The kernel thread around the ring *)

Section pipe_spec.
Context {F : Type} `{!FileSys F} `{!KernelImage} `{!KernelText}.
Implicit Types s : pst F.

Local Abbreviation run := (Run.run (kern (F := F))).

(** ** Writing *)

(** The bytes of a user buffer, up to the first that is not mapped. *)
Fixpoint user_bytes (v : Z → option byte) (a : Z) (n : nat) : list byte :=
  match n with
  | O => []
  | S n => match v a with Some c => c :: user_bytes v (a + 1) n | None => [] end
  end.

(** What writing [src], the readable part of a buffer of [n] bytes, does to a
    bounded queue: the result, none if the writer has to wait, and the queue.
    [gone] is that no one will read or that the writer was killed. *)
Definition write_queue (q : list byte) (gone : bool) (n : Z) (src : list byte) : option Z * list byte :=
  let room := PIPESIZE - Z.of_nat (length q) in
  if n <=? 0 then (Some 0, q)
  else if gone then (Some (-1), q)
  else if (room <? n) && (room <=? Z.of_nat (length src)) then (None, q ++ take (Z.to_nat room) src)
  else (Some (Z.of_nat (length src)), q ++ src).

Lemma length_user_bytes v a n : (length (user_bytes v a n) ≤ n)%nat.
Proof. revert a. induction n as [|n IH]; intros a; simpl; [lia|]. destruct (v a); simpl; [|lia]. specialize (IH (a + 1)). lia. Qed.

Section write.
Context (cur : nat) (p : proc) (pi addr n ro wo : Z) (fl : list Z) (T : tables) (L : leaves) (nr : Z) (v : Z → Z → option byte).
Context (l : list proc) (np : Z) (ip : option nat).
Hypothesis (Hl : length l = Z.to_nat NPROC) (Hp : l !! cur = Some p).
Hypothesis (HT : T !! (pagetable p, []) = Some (pagetable p)).
Hypothesis (Ha : 0 ≤ addr) (Han : addr + n ≤ 2 ^ 64).

(** The pipe holds [q] and user memory is what it was. *)
Definition has (q : list byte) (K : kst) : Prop :=
  in_pipe K fl T L pi nr q ro wo ∧ ∀ r va, view K L r va = v r va.

(** The writer went to sleep, after waking the readers. *)
Definition writer_waits (q : list byte) (ch : Z) (k : cfg) (K : kst) : Prop :=
  ch = pi + pipe_nwrite ∧
  k = Cfg 1 [LProc cur] (asleep cur (pi + pipe_nwrite) (wake (Some cur) (pi + pipe_nread) l)) np ip ∧ has q K.

Lemma wake_cur ch : wake (Some cur) ch l !! cur = Some p.
Proof using Hp. unfold wake. rewrite list_lookup_imap, Hp. simpl. by rewrite wake_one_self. Qed.

Let held := Cfg 1 [LOther pi] l np ip.

(** With a reader and the writer alive, from byte [i] on: the readable rest
    [src] of the buffer is appended, or fills the ring. *)
Lemma pipewrite_loop_ok fuel i q K :
  ro ≠ 0 → killed_ p = 0 → 0 ≤ i ≤ n → (Z.to_nat (n - i) < fuel)%nat → has q K →
  let src := user_bytes (v (pagetable p)) (addr + i) (Z.to_nat (n - i)) in
  let room := PIPESIZE - Z.of_nat (length q) in
  let blocks := room < n - i ∧ room ≤ Z.of_nat (length src) in
  run held K (pipewrite_loop fuel cur pi addr n i)
    (λ '(g, j) k K', ¬ blocks ∧ g = false ∧ j = i + Z.of_nat (length src) ∧ k = held ∧ has (q ++ src) K')
    (λ ch k K', blocks ∧ writer_waits (q ++ take (Z.to_nat room) src) ch k K').
Proof using Hl Hp HT Ha Han.
  intros Hro Hk. revert i q K. induction fuel as [|fuel IH]; intros i q K Hi Hf Hhas src room blocks; [lia|].
  pose proof Hhas as [(Hv & Has & Hat) Hview]. pose proof (as_ok _ _ _ _ Has) as Hok. cbn [pipewrite_loop].
  destruct (Z.ltb_spec i n) as [Hin|Hin].
  2:{ apply run_ret. assert (src = []) as Hsrc. { unfold src. by replace (Z.to_nat (n - i)) with 0%nat by lia. }
      rewrite Hsrc, app_nil_r. unfold blocks. simpl. pose proof (pa_size _ _ _ _ _ _ Hat).
      split_and!; try done; [|lia]. unfold room. lia. }
  eapply run_vm; [by apply ld32_pipe; [|ring_unfold; lia]|]. rewrite (pa_ro _ _ _ _ _ _ Hat), (proj2 (Z.eqb_neq ro 0)) by done.
  eapply run_tr; [apply killed_tr; [set_solver|done]|apply store_same_killed|]. intros ? ? [-> ->]. rewrite Hk. simpl.
  eapply run_vm; [by apply ld32_pipe; [|ring_unfold; lia]|]. eapply run_vm; [by apply ld32_pipe; [|ring_unfold; lia]|].
  rewrite (pa_nwrite _ _ _ _ _ _ Hat), (pa_nread _ _ _ _ _ _ Hat).
  rewrite counters_full by (pose proof (pa_size _ _ _ _ _ _ Hat); lia).
  destruct (Z.eqb_spec (Z.of_nat (length q)) PIPESIZE) as [Hfull|Hfull].
  { eapply run_tr; [apply wakeup_tr; [set_solver|done]|apply store_same_wakeup|]. intros _ ? ->.
    eapply run_sleep; [done|apply wake_cur|]. assert (room = 0) as Hroom by (unfold room; lia).
    split; [unfold blocks; lia|]. rewrite Hroom, take_0, app_nil_r. by split_and!. }
  eapply run_get_proc; [done|]. rewrite u64_small by lia.
  pose proof (copyin_byte K fl T L (pagetable p) (addr + i) Hv HT ltac:(lia)) as Hc. rewrite Hview in Hc.
  pose proof (pa_size _ _ _ _ _ _ Hat) as Hsz.
  destruct (Z.to_nat (n - i)) as [|m] eqn:Em; [lia|]. simpl in src.
  destruct (v (pagetable p) (addr + i)) as [c|].
  2:{ destruct Hc as [bs Hc]. eapply run_vm; [done|]. apply run_ret. unfold blocks, room, src. simpl. rewrite app_nil_r.
      split_and!; try done; lia. }
  eapply run_vm; [done|]. simpl. destruct (push_in K fl T L pi nr q ro wo c) as [Hpush Hpv]; [done|lia|].
  eapply run_vm; [by apply st32_pipe; [|ring_unfold; lia]|]. eapply run_vm.
  { unfold write_bytes. pose proof (ring_slot (u32 (nr + Z.of_nat (length q)))).
    rewrite (mapped_page pi) by (done || (simpl; ring_unfold; lia)). done. }
  assert (has (q ++ [c]) (push pi (u32 (nr + Z.of_nat (length q))) c K)) as Hhas'.
  { split; [done|]. intros r va. by rewrite Hpv, Hview. }
  specialize (IH (i + 1) (q ++ [c]) _ ltac:(lia) ltac:(lia) Hhas'). cbv zeta in IH.
  replace (Z.to_nat (n - (i + 1))) with m in IH by lia. rewrite Z.add_assoc in IH.
  rewrite length_app in IH. cbn [length] in IH. eapply run_mono; [exact IH|..].
  - intros [g j] k K' (Hnb & -> & -> & -> & Hh). unfold blocks, room, src. simpl length. rewrite <- app_assoc in Hh.
    split_and!; try done; lia.
  - intros ch k K' (Hb & Hw). unfold blocks, room, src. simpl length. split; [lia|].
    replace (Z.to_nat (PIPESIZE - Z.of_nat (length q))) with (S (Z.to_nat (PIPESIZE - Z.of_nat (length q + 1)))) by lia.
    rewrite <- app_assoc in Hw. exact Hw.
Qed.

Lemma pipewrite_run q K : has q K →
  let src := user_bytes (v (pagetable p)) addr (Z.to_nat n) in
  let '(o, q') := write_queue q ((ro =? 0) || negb (killed_ p =? 0)) n src in
  run (Cfg 0 [] l np ip) K (pipewrite cur pi addr n)
    (λ r k K', o = Some r ∧ has q' K' ∧
      k = Cfg 0 [] (if r =? -1 then l else wake (Some cur) (pi + pipe_nread) l) np ip)
    (λ ch k K', o = None ∧ writer_waits q' ch k K').
Proof using Hl Hp HT Ha Han.
  intros Hhas src. destruct (write_queue _ _ _ _) as [o q'] eqn:Eq. unfold pipewrite, pipewrite_from.
  eapply run_tr; [apply acquire_tr, not_elem_of_nil|apply store_same_acquire|]. intros _ k ->. rewrite Z.sub_0_r.
  assert (∀ i K', has q' K' → o = Some i → 0 ≤ i →
    run held K' (wakeup (Some cur) (pi + pipe_nread);; release (LOther pi);; mret i)
      (λ r k K', o = Some r ∧ has q' K' ∧
         k = Cfg 0 [] (if r =? -1 then l else wake (Some cur) (pi + pipe_nread) l) np ip)
      (λ ch k K', o = None ∧ writer_waits q' ch k K')) as Hend.
  { intros i K' Hh -> Hi. eapply run_tr; [apply wakeup_tr; [set_solver|done]|apply store_same_wakeup|]. intros _ ? ->.
    eapply run_tr; [apply release_tr, not_elem_of_nil|apply store_same_release|]. intros _ ? ->. apply run_ret.
    rewrite (proj2 (Z.eqb_neq i (-1))) by lia. done. }
  unfold write_queue in Eq. cbv zeta in Eq. destruct (Z.leb_spec n 0) as [Hn|Hn].
  { simplify_eq. replace (Z.to_nat n) with 0%nat by lia. cbn [pipewrite_loop]. rewrite (proj2 (Z.ltb_ge 0 n)) by lia.
    eapply (run_bind _ _ _ _ (λ a k K', a = (false, 0) ∧ k = held ∧ K' = K)); [by apply run_ret|].
    intros ? ? ? (-> & -> & ->). by apply Hend. }
  destruct ((ro =? 0) || negb (killed_ p =? 0)) eqn:Egone.
  - simplify_eq. pose proof Hhas as [(Hv & Has & Hat) _].
    eapply (run_bind _ _ _ _ (λ a k K', a.1 = true ∧ k = Cfg 0 [] l np ip ∧ K' = K)).
    2:{ intros [g ?] ? ? (Hg & -> & ->). simpl in Hg. subst g. by apply run_ret. }
    cbn [pipewrite_loop]. rewrite (proj2 (Z.ltb_lt 0 n)) by lia.
    eapply run_vm; [by apply ld32_pipe; [apply Has|ring_unfold; lia]|]. rewrite (pa_ro _ _ _ _ _ _ Hat).
    eapply (run_bind _ _ _ _ (λ a k K', (ro =? 0) || negb (a =? 0) = true ∧ k = held ∧ K' = K)).
    + destruct (ro =? 0); [by apply run_ret|]. intros b s Hs HK.
      destruct (tr_returns _ _ _ b s (killed_tr False 1 [LOther pi] l np ip cur p (λ _, False) ltac:(set_solver) Hp) Hs)
        as (a & s' & k' & E & Hs' & -> & ->). pose proof (store_same_killed (get := kern) cur s) as Hk. rewrite E in Hk |- *.
      exists held. split_and!; try done. congruence.
    + intros a ? ? (-> & -> & ->).
      eapply run_tr; [apply release_tr, not_elem_of_nil|apply store_same_release|]. intros _ ? ->. by apply run_ret.
  - apply orb_false_iff in Egone as [Hro%Z.eqb_neq Hk%negb_false_iff%Z.eqb_eq].
    pose proof (pipewrite_loop_ok (S (Z.to_nat n)) 0 q K Hro Hk ltac:(lia) ltac:(lia) Hhas) as Hloop. cbv zeta in Hloop.
    rewrite Z.sub_0_r, Z.add_0_r in Hloop. fold src in Hloop.
    destruct (_ && _) eqn:Eb in Eq; rewrite ?andb_true_iff, ?andb_false_iff, ?Z.ltb_lt, ?Z.leb_le, ?Z.ltb_ge, ?Z.leb_gt in Eb; simplify_eq.
    + eapply run_bind; [eapply run_mono; [exact Hloop|by intros ???|by intros ??? [_ ?]]|].
      intros [g j] ? ? (Hnb & _). by destruct Hnb.
    + eapply run_bind; [eapply run_mono; [exact Hloop|by intros ???|intros ??? [? _]; lia]|].
      intros [g j] ? ? (_ & -> & -> & -> & Hh). by apply Hend; [|rewrite Z.add_0_l|lia].
Qed.

End write.

Lemma at_cfg_here b s : thr b 0 [] s → at_cfg b (Cfg 0 [] (procs s) (nextpid s) (initproc s)) s.
Proof. done. Qed.

(** C19: writing to a pipe appends to its queue.  [pipewrite] does to the ring
    exactly what [write_queue] does to a bounded queue of 512 bytes: it appends
    the caller's bytes in order, up to the first unmapped one, and returns their
    number; if they do not fit it fills the ring, wakes the readers and sleeps
    on [nwrite]; if there is no reader or the caller was killed it returns -1
    and the queue is untouched.  This holds for any values of the two counters,
    wrapped around or not.  User memory is unchanged, and the lock is given up. *)
Theorem pipewrite_correct b s cur p pi addr n fl T L nr q ro wo :
  thr b 0 [] s → length (procs s) = Z.to_nat NPROC → procs s !! cur = Some p →
  T !! (pagetable p, []) = Some (pagetable p) → in_pipe (kern s) fl T L pi nr q ro wo →
  0 ≤ addr → addr + n ≤ 2 ^ 64 →
  let src := user_bytes (view (kern s) L (pagetable p)) addr (Z.to_nat n) in
  let '(o, q') := write_queue q ((ro =? 0) || negb (killed_ p =? 0)) n src in
  let awake := wake (Some cur) (pi + pipe_nread) (procs s) in
  ∃ s', pipewrite cur pi addr n s = match o with Some r => Ok r s' | None => Sleep (pi + pipe_nwrite) s' end ∧
    in_pipe (kern s') fl T L pi nr q' ro wo ∧ (∀ r va, view (kern s') L r va = view (kern s) L r va) ∧
    match o with
    | Some r => thr b 0 [] s' ∧ procs s' = if r =? -1 then procs s else awake
    | None => thr b 1 [LProc cur] s' ∧ procs s' = asleep cur (pi + pipe_nwrite) awake
    end.
Proof.
  intros Hs Hl Hp HT Hin Ha Han src. destruct (write_queue _ _ _ _) as [o q'] eqn:Eq. intros awake.
  pose proof (pipewrite_run cur p pi addr n ro wo fl T L nr (view (kern s) L) (procs s) (nextpid s) (initproc s)
    Hl Hp HT Ha Han q (kern s) (conj Hin (λ _ _, eq_refl))) as Hrun. fold src in Hrun. cbv zeta in Hrun. rewrite Eq in Hrun.
  specialize (Hrun b s (at_cfg_here b s Hs) eq_refl).
  destruct (pipewrite cur pi addr n s) as [r s'| | |ch s'|]; try done.
  - destruct Hrun as (k & (Ht & Hps & _) & -> & [Hin' Hv] & ->). by exists s'.
  - destruct Hrun as (k & (Ht & Hps & _) & -> & -> & -> & [Hin' Hv]). by exists s'.
Qed.

(** ** Reading *)

(** Of the queue [q], [m] bytes are gone and the first [k] of them are in user
    memory at [a].  All that fit are, unless a byte could not be copied: that
    byte is lost. *)
Definition delivered (pi : Z) (T : tables) (ro wo r a : Z) (n : nat) (q : list byte) (v : Z → Z → option byte)
    (k : nat) (K : kst) : Prop :=
  ∃ fl L nr m, in_pipe K fl T L pi nr (drop m q) ro wo ∧
    (∀ r' va, view K L r' va = view_write v r a (take k q) r' va) ∧
    ((k = Nat.min n (length q) ∧ m = k) ∨
     ((k < Nat.min n (length q))%nat ∧ m = S k ∧ (writable L r (a + Z.of_nat k) = false ∨ fl = []))).

Lemma delivered_step pi T ro wo r a n c q v v' k K :
  (∀ r' va, v' r' va = view_write v r a [c] r' va) →
  delivered pi T ro wo r (a + 1) n q v' k K → delivered pi T ro wo r a (S n) (c :: q) v (S k) K.
Proof.
  intros Hv (fl & L & nr & m & Hin & Hview & Hk). exists fl, L, nr, (S m). split; [done|]. split.
  - intros r' va. rewrite Hview. change (take (S k) (c :: q)) with ([c] ++ take k q). rewrite view_write_app.
    unfold view_write at 1 2. by rewrite Hv.
  - simpl. destruct Hk as [[-> ->]|(Hlt & -> & Hw)]; [left; lia|right]. split_and!; [lia|done|].
    by replace (a + Z.of_nat (S k)) with (a + 1 + Z.of_nat k) by lia.
Qed.

Section read.
Context (cur : nat) (p : proc) (pi addr n ro wo : Z) (T : tables).
Context (l : list proc) (np : Z) (ip : option nat).
Hypothesis (Hl : length l = Z.to_nat NPROC) (Hp : l !! cur = Some p).
Hypothesis (HT : T !! (pagetable p, []) = Some (pagetable p)).
Hypothesis (Ha : 0 ≤ addr) (Han : addr + n ≤ 2 ^ 64).

Let held := Cfg 1 [LOther pi] l np ip.

Lemma piperead_loop_ok fuel i fl L nr q K R :
  0 ≤ i → (Z.to_nat (n - i) < fuel)%nat → in_pipe K fl T L pi nr q ro wo →
  run held K (piperead_loop fuel cur pi addr n i)
    (λ j k K', k = held ∧ i ≤ j ∧
      delivered pi T ro wo (pagetable p) (addr + i) (Z.to_nat (n - i)) q (view K L) (Z.to_nat (j - i)) K') R.
Proof using Hl Hp HT Ha Han.
  revert i fl L nr q K. induction fuel as [|fuel IH]; intros i fl L nr q K Hi Hf Hin; [lia|].
  pose proof Hin as (Hv & Has & Hat). pose proof (as_ok _ _ _ _ Has) as Hok. cbn [piperead_loop].
  assert (Nat.min (Z.to_nat (n - i)) (length q) = 0%nat →
    delivered pi T ro wo (pagetable p) (addr + i) (Z.to_nat (n - i)) q (view K L) (Z.to_nat (i - i)) K) as Hstop.
  { intros Hm. rewrite Z.sub_diag. exists fl, L, nr, 0%nat. split; [done|]. rewrite Hm. split; [|by left].
    intros. by rewrite take_0, view_write_nil. }
  destruct (Z.ltb_spec i n) as [Hlt|Hlt]; [|apply run_ret; split_and!; [done|lia|apply Hstop; lia]].
  eapply run_vm; [by apply ld32_pipe; [|ring_unfold; lia]|]. eapply run_vm; [by apply ld32_pipe; [|ring_unfold; lia]|].
  rewrite (pa_nwrite _ _ _ _ _ _ Hat), (pa_nread _ _ _ _ _ _ Hat).
  rewrite counters_empty by (pose proof (pa_size _ _ _ _ _ _ Hat); pose proof (pa_range _ _ _ _ _ _ Hat); lia).
  destruct q as [|c q]; simpl Z.eqb.
  { apply run_ret. split_and!; [done|lia|]. apply Hstop. simpl. lia. }
  destruct (pop_in K fl T L pi nr c q ro wo Hin) as ((Hv1 & Has1 & Hat1) & Hview1 & Hrd).
  eapply run_vm; [by apply st32_pipe; [|ring_unfold; lia]|]. eapply run_vm; [exact Hrd|].
  eapply run_get_proc; [done|]. rewrite u64_small by lia.
  eapply run_vm_wp; [apply (copyout_byte (pop pi nr K) fl T L (pagetable p) (addr + i) c Hv1 HT); lia|].
  intros res K2 (fl2 & L2 & Hv2 & Hsp & Hres). destruct (sr_page _ _ _ _ _ _ _ Hsp pi Has1) as (Has2 & _ & Hm2).
  assert (in_pipe K2 fl2 T L2 pi (u32 (nr + 1)) q ro wo) as Hin2.
  { split; [done|]. split; [done|]. eapply pipe_at_ext; [apply Hok|exact Hm2|done]. }
  assert (Z.to_nat (n - i) = S (Z.to_nat (n - (i + 1)))) as En by lia. clear Hstop.
  destruct Hres as [[-> Hview2]|(-> & Hview2 & Hw)]; simpl Z.eqb; cbv iota.
  - eapply run_mono; [exact (IH (i + 1) fl2 L2 _ q K2 ltac:(lia) ltac:(lia) Hin2)| |done].
    intros j k K' (-> & Hj & Hd). split_and!; [done|lia|]. rewrite En.
    replace (Z.to_nat (j - i)) with (S (Z.to_nat (j - (i + 1)))) by lia. rewrite Z.add_assoc in Hd.
    eapply delivered_step; [|exact Hd]. intros r' va. rewrite Hview2. unfold view_write. by rewrite Hview1.
  - apply run_ret. split_and!; [done|lia|]. rewrite Z.sub_diag. exists fl2, L2, (u32 (nr + 1)), 1%nat.
    split; [done|]. split; [intros r' va; by rewrite Hview2, Hview1, take_0, view_write_nil|].
    right. split_and!; [simpl; lia|done|]. by rewrite Z.add_0_r.
Qed.

(** The outcome of [piperead] on the queue [q]. *)
Definition read_returns (L : leaves) (q : list byte) (K : kst) (r : Z) (l' : list proc) (K' : kst) : Prop :=
  if decide (q = [] ∧ wo ≠ 0) then r = -1 ∧ killed_ p ≠ 0 ∧ l' = l ∧ K' = K
  else 0 ≤ r ∧ l' = wake (Some cur) (pi + pipe_nwrite) l ∧
    delivered pi T ro wo (pagetable p) addr (Z.to_nat n) q (view K L) (Z.to_nat r) K'.

Lemma piperead_run fl L nr q K : in_pipe K fl T L pi nr q ro wo →
  run (Cfg 0 [] l np ip) K (piperead cur pi addr n)
    (λ r k K', ∃ l', k = Cfg 0 [] l' np ip ∧ read_returns L q K r l' K')
    (λ ch k K', ch = pi + pipe_nread ∧ q = [] ∧ wo ≠ 0 ∧ killed_ p = 0 ∧ K' = K ∧
      k = Cfg 1 [LProc cur] (asleep cur (pi + pipe_nread) l) np ip).
Proof using Hl Hp HT Ha Han.
  intros Hin. pose proof Hin as (Hv & Has & Hat). pose proof (as_ok _ _ _ _ Has) as Hok. unfold piperead, piperead_body.
  eapply run_tr; [apply acquire_tr, not_elem_of_nil|apply store_same_acquire|]. intros _ k ->.
  do 3 (eapply run_vm; [by apply ld32_pipe; [|ring_unfold; lia]|]).
  rewrite (pa_nwrite _ _ _ _ _ _ Hat), (pa_nread _ _ _ _ _ _ Hat), (pa_wo _ _ _ _ _ _ Hat).
  rewrite counters_empty by (pose proof (pa_size _ _ _ _ _ _ Hat); pose proof (pa_range _ _ _ _ _ _ Hat); lia).
  destruct (_ && _) eqn:Ec; rewrite ?andb_true_iff, ?andb_false_iff, ?negb_true_iff, ?negb_false_iff,
    ?Z.eqb_eq, ?Z.eqb_neq in Ec.
  - destruct Ec as [Hq Hwo]. assert (q = []) as -> by (destruct q; [done|simpl in Hq; lia]).
    eapply run_tr; [apply killed_tr; [set_solver|done]|apply store_same_killed|]. intros ? ? [-> ->].
    destruct (Z.eqb_spec (killed_ p) 0) as [Hk|Hk]; simpl.
    + eapply run_sleep; [done|done|]. done.
    + eapply run_tr; [apply release_tr, not_elem_of_nil|apply store_same_release|]. intros _ ? ->. apply run_ret.
      exists l. unfold read_returns. rewrite decide_True by done. done.
  - eapply run_bind; [exact (piperead_loop_ok (S (Z.to_nat n)) 0 fl L nr q K _ ltac:(lia) ltac:(lia) Hin)|].
    intros j ? K' (-> & Hj & Hd).
    eapply run_tr; [apply wakeup_tr; [set_solver|done]|apply store_same_wakeup|]. intros _ ? ->.
    eapply run_tr; [apply release_tr, not_elem_of_nil|apply store_same_release|]. intros _ ? ->. apply run_ret.
    eexists. split; [done|]. unfold read_returns. rewrite decide_False by (destruct q; simpl in Ec; naive_solver lia).
    rewrite !Z.sub_0_r, Z.add_0_r in Hd. done.
Qed.

End read.

(** C20: reading a pipe takes the front of its queue.  With bytes in the ring,
    or no writer left, [piperead] removes as many bytes as asked for and
    available, in order, puts them in the caller's buffer, changes no other byte
    of any address space, and returns their number; at a byte that cannot be
    copied out, for lack of a writable mapping or of a free page, it stops, and
    that byte is lost.  On an empty pipe with a writer it sleeps on [nread], or
    returns -1 if the caller was killed, and changes nothing else. *)
Theorem piperead_correct b s cur p pi addr n fl T L nr q ro wo :
  thr b 0 [] s → length (procs s) = Z.to_nat NPROC → procs s !! cur = Some p →
  T !! (pagetable p, []) = Some (pagetable p) → in_pipe (kern s) fl T L pi nr q ro wo →
  0 ≤ addr → addr + n ≤ 2 ^ 64 →
  if decide (q = [] ∧ wo ≠ 0) then
    ∃ s', kern s' = kern s ∧
      if killed_ p =? 0
      then piperead cur pi addr n s = Sleep (pi + pipe_nread) s' ∧ thr b 1 [LProc cur] s' ∧
        procs s' = asleep cur (pi + pipe_nread) (procs s)
      else piperead cur pi addr n s = Ok (-1) s' ∧ thr b 0 [] s' ∧ procs s' = procs s
  else
    ∃ k s', piperead cur pi addr n s = Ok (Z.of_nat k) s' ∧ thr b 0 [] s' ∧
      procs s' = wake (Some cur) (pi + pipe_nwrite) (procs s) ∧
      delivered pi T ro wo (pagetable p) addr (Z.to_nat n) q (view (kern s) L) k (kern s').
Proof.
  intros Hs Hl Hp HT Hin Ha Han.
  pose proof (piperead_run cur p pi addr n ro wo T (procs s) (nextpid s) (initproc s)
    Hl Hp HT Ha Han fl L nr q (kern s) Hin b s (at_cfg_here b s Hs) eq_refl) as Hrun.
  destruct (piperead cur pi addr n s) as [r s'| | |ch s'|]; try done.
  - destruct Hrun as (k & (Ht & Hps & _) & l' & -> & Hret). simpl in Hps. subst l'. unfold read_returns in Hret. case_decide.
    + destruct Hret as (-> & Hk & Hl' & HK). exists s'. split; [done|]. by rewrite (proj2 (Z.eqb_neq _ 0)).
    + destruct Hret as (Hr & Hl' & Hd). exists (Z.to_nat r), s'. rewrite Z2Nat.id by done. done.
  - destruct Hrun as (k & (Ht & Hps & _) & -> & -> & Hwo & Hk & HK & ->). rewrite decide_True by done. exists s'.
    split; [done|]. by rewrite Hk.
Qed.

End pipe_spec.

(** ** Witnesses *)

#[local] Existing Instance demo_image.
#[local] Existing Instance demo_fs.
#[local] Existing Instance demo_text.

(** The demo process with an empty pipe in the page next to its address space. *)
Lemma demo_pipe : ∃ k fl T L, let s := pstate (trap_state k 0x87fff000 0x87ffe000 8) in
  T !! (0x87fff000, []) = Some 0x87fff000 ∧ in_pipe (kern s) fl T L 0x87ffe000 0 [] 1 1.
Proof.
  destruct (run_value demo_cow (boot_state (λ _, x00)) (0x87fff000, 0x87ffe000, 0x87ffd000, 0, false)) as [k Hk];
    [vm_compute; reflexivity|].
  destruct (demo_cow_ok _ _ _ _ _ Hk) as (fl & (T & L & pte & Hv & HT & Ha & HL & Hc) & He); [lia..|].
  destruct (pipe_init_ok k fl T L 0x87ffe000 Hv Ha) as (k' & _ & Hin & _).
  exists k', fl, T, L. split; [exact HT|exact Hin].
Qed.

Lemma pipewrite_correct_witness :
  ∃ (s : pst unit) fl T L, let p := trap_proc 0x87fff000 0x87ffe000 in let pi := 0x87ffe000 in
    in_pipe (kern s) fl T L pi 0 [] 1 1 ∧
    let '(o, q') := write_queue [] ((1 =? 0) || negb (killed_ p =? 0)) 3 (user_bytes (view (kern s) L (pagetable p)) 8 3) in
    let awake := wake (Some 1%nat) (pi + pipe_nread) (procs s) in
    ∃ s', pipewrite 1 pi 8 3 s = match o with Some r => Ok r s' | None => Sleep (pi + pipe_nwrite) s' end ∧
      in_pipe (kern s') fl T L pi 0 q' 1 1 ∧ (∀ r va, view (kern s') L r va = view (kern s) L r va) ∧
      match o with
      | Some r => thr false 0 [] s' ∧ procs s' = if r =? -1 then procs s else awake
      | None => thr false 1 [LProc 1] s' ∧ procs s' = asleep 1 (pi + pipe_nwrite) awake
      end.
Proof.
  destruct demo_pipe as (k & fl & T & L & HT & Hin).
  exists (pstate (trap_state k 0x87fff000 0x87ffe000 8)), fl, T, L. split; [exact Hin|].
  exact (pipewrite_correct false _ 1 (trap_proc 0x87fff000 0x87ffe000) 0x87ffe000 8 3 fl T L 0 [] 1 1
    (trap_state_thr k 0x87fff000 0x87ffe000 8) eq_refl eq_refl HT Hin ltac:(lia) ltac:(lia)).
Defined.

(** The same with a byte in the pipe. *)
Lemma piperead_correct_witness :
  ∃ (s : pst unit) fl T L, let p := trap_proc 0x87fff000 0x87ffe000 in let pi := 0x87ffe000 in
    in_pipe (kern s) fl T L pi 0 [x61] 1 1 ∧
    ∃ k s', piperead 1 pi 8 3 s = Ok (Z.of_nat k) s' ∧ thr false 0 [] s' ∧
      procs s' = wake (Some 1%nat) (pi + pipe_nwrite) (procs s) ∧
      delivered pi T 1 1 (pagetable p) 8 3 [x61] (view (kern s) L) k (kern s').
Proof.
  destruct demo_pipe as (k & fl & T & L & HT & Hin).
  destruct (push_in k fl T L 0x87ffe000 0 [] 1 1 x61 Hin) as [Hin' _]; [done|].
  eexists (pstate (trap_state (push 0x87ffe000 (u32 (0 + Z.of_nat (length (@nil byte)))) x61 k) 0x87fff000 0x87ffe000 8)), fl, T, L.
  split; [exact Hin'|].
  exact (piperead_correct false _ 1 (trap_proc 0x87fff000 0x87ffe000) 0x87ffe000 8 3 fl T L 0 [x61] 1 1
    (trap_state_thr _ 0x87fff000 0x87ffe000 8) eq_refl eq_refl HT Hin' ltac:(lia) ltac:(lia)).
Defined.
