(* ===== verification/File.v ===== *)
(** * Open files, [kernel/file.c]

    The file table, and what a read or write of a file descriptor does for
    pipes, devices and inodes; with [pipealloc] and the instance of the
    interface [FileSys] that the process code is written against.  File-system
    code is lifted to the whole kernel state by [fsop]: the running process is
    its [me], the wakeups it noted are done, a spin lock it leaves locked is held
    by the process from then on, and when it would block on a sleep lock or on
    the log the process goes to sleep there.  A pointer to
    [ftable.file[i]] or [itable.inode[i]] is [i + 1], and null is 0. *)

From S2P Require Import Prelude Riscv Mem CString Kalloc Vm Spinlock Proc Bio Log Fs Pipe.

Inductive fdtype := FD_NONE | FD_PIPE | FD_INODE | FD_DEVICE.
#[global] Instance fdtype_eq_dec : EqDecision fdtype.
Proof. solve_decision. Defined.

(** [struct file]. *)
Record file := mk_file {
  f_type : fdtype;
  f_ref : Z;
  f_readable : bool;
  f_writable : bool;
  f_pipe : Z;
  f_ip : Z;
  f_off : Z;
  f_major : Z;
}.

(** The file system, the file table, and the state of the devices. *)
Record fstate (D : Type) := mk_fstate {
  ffs : fsst;
  ftable : list file;
  devs : D;
}.
Arguments mk_fstate {D}.
Arguments ffs {D}.
Arguments ftable {D}.
Arguments devs {D}.

Definition fset_type v (f : file) := mk_file v (f_ref f) (f_readable f) (f_writable f) (f_pipe f) (f_ip f) (f_off f) (f_major f).
Definition fset_ref v (f : file) := mk_file (f_type f) v (f_readable f) (f_writable f) (f_pipe f) (f_ip f) (f_off f) (f_major f).
Definition fset_mode r w (f : file) := mk_file (f_type f) (f_ref f) r w (f_pipe f) (f_ip f) (f_off f) (f_major f).
Definition fset_pipe v (f : file) := mk_file (f_type f) (f_ref f) (f_readable f) (f_writable f) v (f_ip f) (f_off f) (f_major f).
Definition fset_ip v (f : file) := mk_file (f_type f) (f_ref f) (f_readable f) (f_writable f) (f_pipe f) v (f_off f) (f_major f).
Definition fset_off v (f : file) := mk_file (f_type f) (f_ref f) (f_readable f) (f_writable f) (f_pipe f) (f_ip f) v (f_major f).
Definition fset_major v (f : file) := mk_file (f_type f) (f_ref f) (f_readable f) (f_writable f) (f_pipe f) (f_ip f) (f_off f) v.

Definition set_ffs {D} v (s : fstate D) := mk_fstate v (ftable s) (devs s).
Definition set_ftable {D} v (s : fstate D) := mk_fstate (ffs s) v (devs s).
Definition set_devs {D} (v : D) (s : fstate D) := mk_fstate (ffs s) (ftable s) v.

(** [devsw]: the read and write functions of a major device number. *)
Class DevSw (D : Type) := {
  dev_read : Z → option (nat → Z → Z → M (pst (fstate D)) Z);
  dev_write : Z → option (nat → Z → Z → M (pst (fstate D)) Z);
}.

(** Pointers into a table. *)
Definition to_ptr (i : nat) : Z := Z.of_nat i + 1.
Definition of_ptr (p : Z) : nat := Z.to_nat (p - 1).

Section file.
Context {D : Type} `{!KernelImage} `{!KernelText} `{!DevSw D}.
Local Abbreviation F := (fstate D).
Implicit Types s : pst F.

(** ** File-system code in a process *)

(** A spin lock of the storage stack as a lock of the kernel.  The one a sleeper
    on the channel [ch] gives up is number [ch]: [log.lock], or the spin lock
    inside the sleep lock. *)
Definition fs_lock (a : Z) : lockid := LOther a.

Definition become (p : Z) (f : fsst) : fsst :=
  set_flog (set_lbio (let b := lbio (flog f) in
    mk_bst (bufs b) (head_prev b) (head_next b) (disk b) (writes b) p [] (bheld b)) (flog f)) f.
(** A run starts without the spin locks of the storage stack. *)
Definition no_spin (f : fsst) : fsst := set_flog (set_lbio (set_bheld [] (lbio (flog f))) (flog f)) f.

(** The computation on the file system: its value, or where it blocks. *)
Definition fsrun {A} (c : M fsst A) : M (pst F) (A + Z) := λ s,
  let put t := set_files (set_ffs t (files s)) s in
  match c (ffs (files s)) with
  | Ok a t => Ok (inl a) (put t)
  | Sleep ch t => Ok (inr ch) (put t)
  | Panic m => Panic m
  | Fault a => Fault a
  | NoFuel => NoFuel
  end.

(** The same with its spin locks: those it still has when it ends or goes to
    sleep are held by the thread. *)
Fixpoint acquire_all (l : list Z) : M (pst F) unit :=
  match l with
  | [] => mret ()
  | a :: l => acquire (fs_lock a);; acquire_all l
  end.
Definition fscall {A} (c : M fsst A) : M (pst F) (A + Z) :=
  modify (λ s, set_files (set_ffs (no_spin (ffs (files s))) (files s)) s);;
  r ← fsrun c;
  h ← gets (λ s, bheld (lbio (flog (ffs (files s)))));
  acquire_all (rev h);;
  mret r.

Fixpoint wakeup_all (cur : nat) (l : list Z) : M (pst F) unit :=
  match l with
  | [] => mret ()
  | ch :: l => wakeup (Some cur) ch;; wakeup_all cur l
  end.

(** After [sleep] the run is over: what follows it is not reached. *)
Definition fsop (cur : nat) {A} (c : M fsst A) : M (pst F) A :=
  p ← get_proc cur;
  modify (λ s, set_files (set_ffs (become (pid p) (ffs (files s))) (files s)) s);;
  r ← fscall c;
  l ← gets (λ s, wakeups (lbio (flog (ffs (files s)))));
  wakeup_all cur l;;
  match r with
  | inl a => mret a
  | inr ch => sleep cur ch (fs_lock ch);; no_fuel
  end.

(** ** The file table *)

Definition ftable_lock : lockid := LOther 2.

Definition get_file (f : nat) : M (pst F) file := λ s,
  match ftable (files s) !! f with Some x => Ok x s | None => Fault (Z.of_nat f) end.
Definition upd_file (f : nat) (g : file → file) : M (pst F) unit :=
  modify (λ s, set_files (set_ftable (alter g f (ftable (files s))) (files s)) s).

(** The scan of [filealloc]: the first entry with no reference. *)
Fixpoint filealloc_scan (l : list file) (i : nat) : option nat :=
  match l with
  | [] => None
  | x :: l => if f_ref x =? 0 then Some i else filealloc_scan l (S i)
  end.

Definition fileinit : M (pst F) unit := initlock ftable_lock.
Definition filealloc : M (pst F) (option nat) :=
  acquire ftable_lock;;
  l ← gets (λ s, ftable (files s));
  match filealloc_scan l 0 with
  | Some f => upd_file f (fset_ref 1);; release ftable_lock;; mret (Some f)
  | None => release ftable_lock;; mret None
  end.

Definition filedup (f : Z) : M (pst F) Z :=
  acquire ftable_lock;;
  x ← get_file (of_ptr f);
  if f_ref x <? 1 then panic "filedup"
  else
    upd_file (of_ptr f) (λ x, fset_ref (f_ref x + 1) x);;
    release ftable_lock;;
    mret f.

(** ** The interface of [FileSys], part one *)

Definition begin_op (cur : nat) : M (pst F) unit := fsop cur (lg Log.begin_op).
Definition end_op (cur : nat) : M (pst F) unit := fsop cur (lg Log.end_op).
Definition iput (cur : nat) (ip : Z) : M (pst F) unit := fsop cur (Fs.iput (of_ptr ip)).
(** [idup] neither sleeps nor wakes. *)
Definition idup (ip : Z) : M (pst F) Z :=
  r ← fscall (Fs.idup (of_ptr ip));
  match r with inl _ => mret ip | inr _ => no_fuel end.

Definition fileclose (cur : nat) (f : Z) : M (pst F) unit :=
  acquire ftable_lock;;
  x ← get_file (of_ptr f);
  if f_ref x <? 1 then panic "fileclose"
  else
    upd_file (of_ptr f) (λ x, fset_ref (f_ref x - 1) x);;
    if f_ref x - 1 >? 0 then release ftable_lock
    else
      ff ← get_file (of_ptr f);
      upd_file (of_ptr f) (λ x, fset_type FD_NONE (fset_ref 0 x));;
      release ftable_lock;;
      match f_type ff with
      | FD_PIPE => pipeclose cur (f_pipe ff) (f_writable ff)
      | FD_INODE | FD_DEVICE => begin_op cur;; iput cur (f_ip ff);; end_op cur
      | FD_NONE => mret ()
      end.

(** [namei("/")] of [userinit], before any process runs. *)
Definition namei_root : M (pst F) Z :=
  r ← fscall (iget ROOTDEV ROOTINO);
  match r with inl i => mret (to_ptr i) | inr _ => no_fuel end.
Definition fsinit (cur : nat) (dv : Z) : M (pst F) unit := fsop cur (Fs.fsinit dv).

#[global] Instance file_sys : FileSys F := {
  Proc.filedup := filedup;
  Proc.fileclose := fileclose;
  Proc.idup := idup;
  Proc.begin_op := begin_op;
  Proc.iput := iput;
  Proc.end_op := end_op;
  Proc.namei_root := namei_root;
  Proc.fsinit := fsinit;
}.

(** ** Reading and writing *)

(** [struct stat] as [copyout] sends it; [pad] is what the stack held in the
    four bytes between [nlink] and [size]. *)
Definition encode_stat (pad : list byte) (x : stat) : list byte :=
  le_encode 4 (st_dev x) ++ le_encode 4 (st_ino x) ++ le_encode 2 (st_type x) ++ le_encode 2 (st_nlink x) ++
  pad ++ le_encode 8 (st_size x).

Definition filestat (pad : list byte) (cur : nat) (f : nat) (addr : Z) : M (pst F) Z :=
  x ← get_file f;
  match f_type x with
  | FD_INODE | FD_DEVICE =>
      st ← fsop cur (ilock (of_ptr (f_ip x));; st ← stati (of_ptr (f_ip x)); iunlock (of_ptr (f_ip x));; mret st);
      p ← get_proc cur;
      r ← vm (copyout (pagetable p) addr (encode_stat pad st));
      if r <? 0 then mret (-1) else mret 0
  | _ => mret (-1)
  end.

Definition fileread (cur : nat) (f : nat) (addr n : Z) : M (pst F) Z :=
  x ← get_file f;
  if negb (f_readable x) then mret (-1)
  else
    match f_type x with
    | FD_PIPE => piperead cur (f_pipe x) addr n
    | FD_DEVICE =>
        if (f_major x <? 0) || (f_major x >=? NDEV) then mret (-1)
        else match dev_read (f_major x) with
             | None => mret (-1)
             | Some rd => rd cur addr n
             end
    | FD_INODE =>
        let ip := of_ptr (f_ip x) in
        fsop cur (ilock ip);;
        x ← get_file f;
        '(r, _) ← readi (λ A (c : M fsst A), fsop cur c) (either_copyout cur true) ip addr (f_off x) (u32 n);
        (if i32 r >? 0 then upd_file f (λ y, fset_off (u32 (f_off y + r)) y) else mret ());;
        fsop cur (iunlock ip);;
        mret (i32 r)
    | FD_NONE => panic "fileread"
    end.

(** The most bytes one transaction writes. *)
Definition filewrite_max : Z := (MAXOPBLOCKS - 1 - 1 - 2) / 2 * BSIZE.

(** The loop of [filewrite] on an inode. *)
Fixpoint filewrite_loop (fuel : nat) (cur : nat) (f : nat) (ip : nat) (addr n i : Z) : M (pst F) Z :=
  match fuel with
  | O => no_fuel
  | S fuel =>
      if i <? n then
        let n1 := Z.min (n - i) filewrite_max in
        begin_op cur;;
        fsop cur (ilock ip);;
        x ← get_file f;
        r ← writei (λ A (c : M fsst A), fsop cur c) (either_copyin cur true) ip (u64 (addr + i)) (f_off x) n1;
        (if i32 r >? 0 then upd_file f (λ y, fset_off (u32 (f_off y + r)) y) else mret ());;
        fsop cur (iunlock ip);;
        end_op cur;;
        if negb (i32 r =? n1) then mret i else filewrite_loop fuel cur f ip addr n (i + r)
      else mret i
  end.

Definition filewrite (cur : nat) (f : nat) (addr n : Z) : M (pst F) Z :=
  x ← get_file f;
  if negb (f_writable x) then mret (-1)
  else
    match f_type x with
    | FD_PIPE => pipewrite cur (f_pipe x) addr n
    | FD_DEVICE =>
        if (f_major x <? 0) || (f_major x >=? NDEV) then mret (-1)
        else match dev_write (f_major x) with
             | None => mret (-1)
             | Some wr => wr cur addr n
             end
    | FD_INODE =>
        i ← filewrite_loop (S (Z.to_nat n)) cur f (of_ptr (f_ip x)) addr n 0;
        if i =? n then mret n else mret (-1)
    | FD_NONE => panic "filewrite"
    end.

(** [pipealloc], the one function of [pipe.c] that uses the file table: the read
    and the write end, or none. *)
Definition pipealloc_bad (cur : nat) (pi : Z) (f0 f1 : option nat) : M (pst F) (option (nat * nat)) :=
  (if pi =? 0 then mret () else vm (kfree pi));;
  (match f0 with Some f => fileclose cur (to_ptr f) | None => mret () end);;
  (match f1 with Some f => fileclose cur (to_ptr f) | None => mret () end);;
  mret None.

Definition pipealloc (cur : nat) : M (pst F) (option (nat * nat)) :=
  f0 ← filealloc;
  match f0 with
  | None => pipealloc_bad cur 0 None None
  | Some a =>
      f1 ← filealloc;
      match f1 with
      | None => pipealloc_bad cur 0 (Some a) None
      | Some b =>
          pi ← vm kalloc;
          if pi =? 0 then pipealloc_bad cur 0 (Some a) (Some b)
          else
            vm (pipe_init pi);;
            upd_file a (λ f, fset_pipe pi (fset_mode true false (fset_type FD_PIPE f)));;
            upd_file b (λ f, fset_pipe pi (fset_mode false true (fset_type FD_PIPE f)));;
            mret (Some (a, b))
      end
  end.

End file.
