(* ===== verification/FsLocks.v ===== *)
(** * Spin locks in the storage stack

    The buffer cache, the log and the inode layer take spin locks of their own,
    which [Bio.bheld] records.  Here each of their functions is shown to make no
    lock mistake on any path: it takes no lock that it has, gives back only what
    it has, returns with the locks that it was called with, and goes to sleep
    with nothing but the lock that [sleep] gives up.  The one exception is
    [iput], which takes the sleep lock of an inode under [itable.lock]. *)

From S2P Require Import Prelude Riscv Mem CString Kalloc Vm Spinlock Proc ProcSpec Bio Log Fs.

(** The spin locks held, at each layer. *)
Class Spins (S : Type) := spins_of : S → list Z.
#[global] Instance bst_spins : Spins bst := bheld.
#[global] Instance logst_spins : Spins logst := λ s, bheld (lbio s).
#[global] Instance fsst_spins : Spins fsst := λ s, bheld (lbio (flog s)).

(** What code of these layers must not panic with: a lock mistake, or a sleep
    with a second lock held. *)
Definition spin_panics : list string := "sched locks" :: lock_panics.

(** An outcome with the locks [h']; or asleep on [ch] with the lock of [ch],
    and with [only] no other. *)
Definition neat_at {S A} `{!Spins S} (only : bool) (h' : list Z) (r : outcome S A) : Prop :=
  match r with
  | Ok _ s' => spins_of s' = h'
  | Sleep ch s' => ∃ l, spins_of s' = ch :: l ∧ NoDup (ch :: l) ∧ (only = true → l = [])
  | Panic m => m ∉ spin_panics
  | _ => True
  end.
(** So from any state with the locks [h]. *)
Definition neat {S A} `{!Spins S} (only : bool) (h h' : list Z) (c : M S A) : Prop :=
  ∀ s, spins_of s = h → neat_at only h' (c s).

Section rules.
Context {S : Type} `{!Spins S} (o : bool).

Lemma neat_ret {A} h (a : A) : neat o h h (mret a : M S A).
Proof. by intros s Hs. Qed.
Lemma neat_gets {A} h (f : S → A) : neat o h h (gets f).
Proof. by intros s Hs. Qed.
Lemma neat_fault {A} h h' a : neat o h h' (fault a : M S A).
Proof. done. Qed.
Lemma neat_no_fuel {A} h h' : neat o h h' (no_fuel : M S A).
Proof. done. Qed.
Lemma neat_panic {A} h h' m : m ∉ spin_panics → neat o h h' (panic m : M S A).
Proof. by intros Hm s _. Qed.
Lemma neat_sleep {A} ch h' : neat o [ch] h' (sleep_on ch : M S A).
Proof. intros s Hs. exists []. split; [done|]. split; [apply NoDup_singleton|done]. Qed.
Lemma neat_bind {A B} h h1 h' (c : M S A) (f : A → M S B) :
  neat o h h1 c → (∀ a, neat o h1 h' (f a)) → neat o h h' (c ≫= f).
Proof.
  intros Hc Hf s Hs. specialize (Hc s Hs). unfold mbind, M_bind. destruct (c s) as [a s'| | | |]; try done. by apply (Hf a s').
Qed.
End rules.

Create HintDb neat.
#[export] Hint Resolve neat_ret neat_gets neat_fault neat_no_fuel neat_sleep : neat.

(** Walks through a computation as [solve_quiet] does. *)
Ltac neat_step :=
  intros;
  lazymatch goal with
  | |- neat _ _ _ (_ ≫= _) => eapply neat_bind
  | |- neat _ _ _ (panic _) => apply neat_panic; vm_compute; set_solver
  | |- neat _ _ _ (if ?c then _ else _) => destruct c
  | |- neat _ _ _ (match ?c with _ => _ end) => destruct c
  | |- neat _ _ _ (let '_ := ?c in _) => destruct c
  | |- neat _ _ _ _ => solve [eauto with neat nocore]
  end.
Ltac solve_neat := repeat neat_step.

(** ** The buffer cache *)

Section bio.
Context (o : bool).

Lemma neat_slock l h : l ∉ h → neat o h (l :: h) (slock l).
Proof. intros Hl s Hs. unfold slock, gets, mbind, M_bind. change (bheld s) with (spins_of s). rewrite Hs, decide_False by done. done. Qed.
Lemma neat_slock_first l : neat o [] [l] (slock l).
Proof. apply neat_slock, not_elem_of_nil. Qed.
Lemma neat_sunlock l h : l ∉ h → neat o (l :: h) h (sunlock l).
Proof.
  intros Hl s Hs. unfold sunlock, gets, mbind, M_bind. change (bheld s) with (spins_of s). rewrite Hs, decide_True by left.
  change (filter (λ x, x ≠ l) (l :: h) = h). rewrite filter_cons_False by tauto. induction h as [|x h IH] in Hl |- *; [done|].
  apply not_elem_of_cons in Hl as [Hx Hl]. rewrite filter_cons_True by done. by rewrite IH.
Qed.
Lemma neat_sunlock_last l : neat o [l] [] (sunlock l).
Proof. apply neat_sunlock, not_elem_of_nil. Qed.
Hint Resolve neat_slock_first neat_sunlock_last : neat.

Lemma neat_get_buf h i : neat o h h (get_buf i).
Proof. intros s Hs. unfold get_buf. by destruct (bufs s !! i). Qed.
Lemma neat_upd_buf h i f : neat o h h (upd_buf i f).
Proof. by intros s Hs. Qed.
Lemma neat_notify h ch : neat o h h (notify ch).
Proof. by intros s Hs. Qed.
Lemma neat_head_next h v : neat o h h (modify (set_head_next v)).
Proof. by intros s Hs. Qed.
Lemma neat_head_prev h v : neat o h h (modify (set_head_prev v)).
Proof. by intros s Hs. Qed.
Hint Resolve neat_get_buf neat_upd_buf neat_notify neat_head_next neat_head_prev : neat.

Lemma neat_get_next h i : neat o h h (get_next i).
Proof. unfold get_next. solve_neat. Qed.
Lemma neat_get_prev h i : neat o h h (get_prev i).
Proof. unfold get_prev. solve_neat. Qed.
Lemma neat_put_next h i v : neat o h h (put_next i v).
Proof. unfold put_next. solve_neat. Qed.
Lemma neat_put_prev h i v : neat o h h (put_prev i v).
Proof. unfold put_prev. solve_neat. Qed.
Hint Resolve neat_get_next neat_get_prev neat_put_next neat_put_prev : neat.
Lemma neat_link_head h b : neat o h h (link_head b).
Proof. unfold link_head. solve_neat. Qed.
Lemma neat_list_del h b : neat o h h (list_del b).
Proof. unfold list_del. solve_neat. Qed.
Lemma neat_bget_cached h n b d m : neat o h h (bget_cached n b d m).
Proof. revert b. induction n as [|n IH]; intros b; cbn [bget_cached]; solve_neat. Qed.
Lemma neat_bget_unused h n b : neat o h h (bget_unused n b).
Proof. revert b. induction n as [|n IH]; intros b; cbn [bget_unused]; solve_neat. Qed.
Lemma neat_virtio h i w : neat o h h (virtio_disk_rw i w).
Proof. unfold virtio_disk_rw. eapply neat_bind; [apply neat_get_buf|]. intros b. destruct w; [by intros s Hs|solve_neat]. Qed.
Hint Resolve neat_link_head neat_list_del neat_bget_cached neat_bget_unused neat_virtio : neat.

Lemma neat_buf_acquire i : neat o [] [] (buf_acquire i).
Proof. unfold buf_acquire. solve_neat. Qed.
Lemma neat_buf_holding i : neat o [] [] (buf_holding i).
Proof. unfold buf_holding. solve_neat. Qed.
Lemma neat_buf_release i : neat o [] [] (buf_release i).
Proof. unfold buf_release. solve_neat. Qed.
Hint Resolve neat_buf_acquire neat_buf_holding neat_buf_release : neat.

Lemma neat_bget d n : neat o [] [] (bget d n).
Proof. unfold bget. solve_neat. Qed.
Hint Resolve neat_bget : neat.
Lemma neat_bread d n : neat o [] [] (bread d n).
Proof. unfold bread. solve_neat. Qed.
Lemma neat_bwrite i : neat o [] [] (bwrite i).
Proof. unfold bwrite. solve_neat. Qed.
Lemma neat_brelse i : neat o [] [] (brelse i).
Proof. unfold brelse. solve_neat. Qed.
(** [log_write] calls [bpin] with [log.lock]. *)
Lemma neat_bpin h i : bcache_lock ∉ h → neat o h h (bpin i).
Proof.
  intros Hh. unfold bpin. eapply neat_bind; [by apply neat_slock|]. intros _. eapply neat_bind; [apply neat_upd_buf|]. intros _. by apply neat_sunlock.
Qed.
Lemma neat_bunpin i : neat o [] [] (bunpin i).
Proof. unfold bunpin. solve_neat. Qed.
End bio.
#[export] Hint Resolve neat_slock_first neat_sunlock_last neat_get_buf neat_upd_buf neat_notify neat_bread neat_bwrite neat_brelse neat_bunpin : neat.

(** ** The log *)

Section log.
Context (o : bool).

Lemma neat_bio {A} h h' (c : M bst A) : neat o h h' c → neat o h h' (bio c).
Proof. intros Hc s Hs. specialize (Hc (lbio s) Hs). unfold bio, zoom. by destruct (c (lbio s)). Qed.
Hint Resolve neat_bio : neat.
Lemma neat_set_lh h l : neat o h h (modify (set_lh l)).
Proof. by intros s Hs. Qed.
Lemma neat_set_outstanding h v : neat o h h (modify (set_outstanding v)).
Proof. by intros s Hs. Qed.
Lemma neat_one_less h : neat o h h (modify (λ s, set_outstanding (l_outstanding s - 1) s)).
Proof. by intros s Hs. Qed.
Lemma neat_set_committing h v : neat o h h (modify (set_committing v)).
Proof. by intros s Hs. Qed.
Hint Resolve neat_set_lh neat_set_outstanding neat_one_less neat_set_committing : neat.

Lemma neat_install_trans r : neat o [] [] (install_trans r).
Proof.
  unfold install_trans. eapply neat_bind; [apply neat_gets|]. intros l. generalize 0. induction l; intros; cbn [install_trans_loop]; solve_neat.
Qed.
Lemma neat_write_log : neat o [] [] write_log.
Proof.
  unfold write_log. eapply neat_bind; [apply neat_gets|]. intros l. generalize 0. induction l; intros; cbn [write_log_loop]; solve_neat.
Qed.
Lemma neat_write_head : neat o [] [] write_head.
Proof. unfold write_head. solve_neat. Qed.
Hint Resolve neat_install_trans neat_write_log neat_write_head : neat.
Lemma neat_commit : neat o [] [] commit.
Proof. unfold commit. solve_neat. Qed.
Hint Resolve neat_commit : neat.

Lemma neat_begin_op : neat o [] [] begin_op.
Proof. unfold begin_op, log_lock. solve_neat. Qed.
Lemma neat_end_op : neat o [] [] end_op.
Proof. unfold end_op. solve_neat. Qed.
Lemma neat_log_write i : neat o [] [] (log_write i).
Proof.
  assert (neat o [log_lock] [log_lock] (bpin i)) by (apply neat_bpin, not_elem_of_cons; split; [done|apply not_elem_of_nil]).
  unfold log_write. solve_neat.
Qed.
End log.
#[export] Hint Resolve neat_bio neat_log_write : neat.

(** ** The inode layer *)

Section fs.
Context (o : bool).

Lemma neat_lg {A} h h' (c : M logst A) : neat o h h' c → neat o h h' (lg c).
Proof. intros Hc s Hs. specialize (Hc (flog s) Hs). unfold lg, zoom. by destruct (c (flog s)). Qed.
Lemma neat_blk {A} h h' (c : M bst A) : neat o h h' c → neat o h h' (blk c).
Proof. intros Hc. by apply neat_lg, neat_bio. Qed.
Lemma neat_get_inode h i : neat o h h (get_inode i).
Proof. intros s Hs. unfold get_inode. by destruct (itable s !! i). Qed.
Lemma neat_upd_inode h i f : neat o h h (upd_inode i f).
Proof. by intros s Hs. Qed.
Lemma neat_upd_d h i f : neat o h h (upd_d i f).
Proof. by intros s Hs. Qed.
Hint Resolve neat_lg neat_blk neat_get_inode neat_upd_inode neat_upd_d : neat.

Lemma neat_bdata h i : neat o h h (bdata i).
Proof. unfold bdata. solve_neat. Qed.
Lemma neat_set_bdata h i f : neat o h h (set_bdata i f).
Proof. unfold set_bdata. solve_neat. Qed.
Hint Resolve neat_bdata neat_set_bdata : neat.
Lemma neat_bfree d b : neat o [] [] (bfree d b).
Proof. unfold bfree. solve_neat. Qed.
Lemma neat_iupdate i : neat o [] [] (iupdate i).
Proof. unfold iupdate. solve_neat. Qed.
Lemma neat_iget d n : neat o [] [] (iget d n).
Proof. unfold iget. solve_neat. Qed.
Lemma neat_idup i : neat o [] [] (idup i).
Proof. unfold idup. solve_neat. Qed.
Lemma neat_inode_acquire i : neat o [] [] (inode_acquire i).
Proof. unfold inode_acquire. solve_neat. Qed.
Lemma neat_inode_holding i : neat o [] [] (inode_holding i).
Proof. unfold inode_holding. solve_neat. Qed.
Lemma neat_inode_release i : neat o [] [] (inode_release i).
Proof. unfold inode_release. solve_neat. Qed.
Hint Resolve neat_bfree neat_iupdate neat_inode_acquire neat_inode_holding neat_inode_release : neat.
Lemma neat_ilock i : neat o [] [] (ilock i).
Proof. unfold ilock. solve_neat. Qed.
Lemma neat_iunlock i : neat o [] [] (iunlock i).
Proof. unfold iunlock. solve_neat. Qed.
Lemma neat_itrunc_direct n k i : neat o [] [] (itrunc_direct n k i).
Proof. revert k. induction n; intros k; cbn [itrunc_direct]; solve_neat. Qed.
Lemma neat_itrunc_indirect l d : neat o [] [] (itrunc_indirect l d).
Proof. induction l; cbn [itrunc_indirect]; solve_neat. Qed.
Hint Resolve neat_itrunc_direct neat_itrunc_indirect : neat.
Lemma neat_itrunc i : neat o [] [] (itrunc i).
Proof. unfold itrunc. solve_neat. Qed.
End fs.
#[export] Hint Resolve neat_lg neat_blk neat_get_inode neat_upd_inode neat_upd_d neat_iupdate neat_inode_release neat_itrunc : neat.

(** *** [iput] *)

(** What follows the test in [iput], with the sleep lock and [itable.lock]. *)
Lemma neat_iput_free o i : neat o [itable_lock] [itable_lock]
  (blk (sunlock itable_lock);; itrunc i;; upd_d i (dset_type 0);; iupdate i;; upd_inode i (iset_valid false);; inode_release i;; blk (slock itable_lock)).
Proof. solve_neat. Qed.
Lemma neat_iput_end o i : neat o [itable_lock] [] (upd_inode i (λ x, iset_ref (i_ref x - 1) x);; blk (sunlock itable_lock)).
Proof. solve_neat. Qed.

Lemma chan_not_itable i : chan_inode i ∉ [itable_lock].
Proof. rewrite list_elem_of_singleton. unfold chan_inode, itable_lock. lia. Qed.
(** [acquiresleep] under [itable.lock]: if it has to wait, it does with both. *)
Lemma neat_acquire_under i : neat false [itable_lock] [itable_lock] (inode_acquire i).
Proof.
  unfold inode_acquire. eapply neat_bind; [apply neat_blk, neat_slock, chan_not_itable|]. intros _.
  eapply neat_bind; [apply neat_get_inode|]. intros x. destruct (i_lock x).
  - intros s Hs. exists [itable_lock]. split; [done|]. split; [|done]. apply list.NoDup_cons. split; [apply chan_not_itable|apply NoDup_singleton].
  - eapply neat_bind; [apply neat_blk, neat_gets|]. intros p. eapply neat_bind; [apply neat_upd_inode|]. intros _.
    apply neat_blk, neat_sunlock, chan_not_itable.
Qed.
Lemma neat_iput i : neat false [] [] (iput i).
Proof.
  unfold iput. eapply neat_bind; [apply neat_blk, neat_slock_first|]. intros _. eapply neat_bind; [apply neat_get_inode|]. intros x.
  eapply neat_bind; [|intros _; apply neat_iput_end]. case_match; [|apply neat_ret].
  eapply neat_bind; [apply neat_acquire_under|]. intros _. apply neat_iput_free.
Qed.

(** If the sleep lock is free when the inode goes, that does not happen. *)
Definition unlocked_last (i : nat) (s : fsst) : Prop := ∀ x, itable s !! i = Some x → i_ref x = 1 → i_lock x = None.

Lemma neat_at_bind {S A B} `{!Spins S} o h h' (c : M S A) (f : A → M S B) s :
  neat_at o h (c s) → (∀ a, neat o h h' (f a)) → neat_at o h' ((c ≫= f) s).
Proof. intros Hc Hf. unfold mbind, M_bind. destruct (c s) as [a s'| | | |]; try done. by apply (Hf a s'). Qed.

Lemma acquire_free i s x : spins_of s = [itable_lock] → itable s !! i = Some x → i_lock x = None → neat_at true [itable_lock] (inode_acquire i s).
Proof.
  intros Hs Hx Hl. change (bheld (lbio (flog s)) = [itable_lock]) in Hs. unfold inode_acquire, blk, lg, bio, zoom, slock, gets, mbind, M_bind.
  rewrite Hs, decide_False by apply chan_not_itable. unfold get_inode. simpl. rewrite Hx, Hl. unfold sunlock, gets, mbind, M_bind. simpl.
  rewrite decide_True by left. change (filter (λ x, x ≠ chan_inode i) [chan_inode i; itable_lock] = [itable_lock]).
  pose proof (chan_not_itable i) as Hne. rewrite list_elem_of_singleton in Hne. rewrite filter_cons_False by tauto. by rewrite filter_cons_True.
Qed.
Lemma iput_neat i s : spins_of s = [] → unlocked_last i s → neat_at true [] (iput i s).
Proof.
  intros Hs Hu. unfold iput. change (bheld (lbio (flog s)) = []) in Hs. unfold mbind at 1, M_bind, blk at 1, lg, bio, zoom, slock, gets, mbind at 1, M_bind.
  rewrite Hs, decide_False by apply not_elem_of_nil. cbn. set (s1 := set_flog _ s). assert (spins_of s1 = [itable_lock]) as Hs1 by done.
  unfold mbind at 1, M_bind, get_inode. change (itable s1) with (itable s). destruct (itable s !! i) as [x|] eqn:Ex; [|done].
  eapply neat_at_bind; [|intros _; apply neat_iput_end]. destruct ((i_ref x =? 1) && i_valid x && (d_nlink (i_d x) =? 0)) eqn:Ec; [|done].
  apply andb_prop in Ec as [[Hr%Z.eqb_eq _]%andb_prop _].
  eapply neat_at_bind; [by apply (acquire_free i s1 x); [|exact Ex|apply Hu]|]. intros _. apply neat_iput_free.
Qed.
