(* ===== verification/FileSpec.v ===== *)
(** * The file layer keeps its promises

    The process code is proved against the interface [FileSys] and the laws
    [FileSysLaws].  Here the implementation, [file.c] on top of the log, the
    inode layer and pipes, is shown to satisfy the laws, so that the theorems on
    processes hold of the whole kernel.  [FsLocks] has the spin locks of the
    layers below. *)

From S2P Require Import Prelude Riscv Mem CString Kalloc Vm Spinlock Proc ProcSpec ProcTable Bio Log Fs FsLocks Pipe File.

(** ** The laws *)

Section laws.
Context {F : Type} `{!FileSys F} `{!KernelImage} `{!KernelText}.
Implicit Types s : pst F.

(** What the calls keep: the table up to wakeups. *)
Definition keeps s s' : Prop := woken (procs s) (procs s') ∧ nextpid s' = nextpid s ∧ initproc s' = initproc s.

Lemma keeps_refl s : keeps s s.
Proof. split; [apply woken_refl|done]. Qed.
Lemma keeps_trans s1 s2 s3 : keeps s1 s2 → keeps s2 s3 → keeps s1 s3.
Proof. intros (H1 & H2 & H3) (H4 & H5 & H6). split; [by eapply woken_trans|]. split; congruence. Qed.

(** A step that does not sleep, from holding [h] to holding [h'], and does not
    panic with any of [bad]. *)
Definition mild {A} (bad : list string) (d : nat) (h : list lockid) (d' : nat) (h' : list lockid) (c : M (pst F) A) : Prop :=
  ∀ b s, thr b d h s →
    match c s with
    | Ok _ s' => thr b d' h' s' ∧ keeps s s'
    | Sleep _ _ => False
    | Panic m => m ∉ bad
    | _ => True
    end.

(** The outcome of a tidy call made in [s]; and [tidy], started with the locks
    [h]. *)
Definition tidy_out {A} (bad : list string) (cur : nat) (b : bool) s (r : outcome (pst F) A) : Prop :=
  match r with
  | Ok _ s' => thr b 0 [] s' ∧ keeps s s'
  | Sleep _ s' => thr b 1 [LProc cur] s' ∧ nextpid s' = nextpid s ∧ initproc s' = initproc s ∧
      ∃ l ch, woken (procs s) l ∧ procs s' = alter (set_state SLEEPING ∘ set_chan ch) cur l
  | Panic m => m ∉ bad
  | _ => True
  end.
Definition tidy_from {A} (bad : list string) (cur : nat) (d : nat) (h : list lockid) (c : M (pst F) A) : Prop :=
  ∀ b s, thr b d h s → tidy_out bad cur b s (c s).

Lemma tidy_out_keeps {A} bad cur b s s1 (r : outcome (pst F) A) : keeps s s1 → tidy_out bad cur b s1 r → tidy_out bad cur b s r.
Proof.
  intros Hk. destruct r as [a s2| | |ch s2|]; try done; simpl.
  - intros [Hs2 Hk2]. split; [done|]. by eapply keeps_trans.
  - intros (Ht & Hn & Hi & l & ch' & Hw & Hp). destruct Hk as (Hw1 & Hn1 & Hi1).
    split_and!; [done|congruence|congruence|]. exists l, ch'. split; [by eapply woken_trans|done].
Qed.

Lemma tidy_from_tidy {A} cur (c : M (pst F) A) : tidy_from lock_panics cur 0 [] c → tidy cur c.
Proof. done. Qed.

Section rules.
Context {bad : list string}.

Lemma mild_bind {A B} d h d1 h1 d2 h2 (c : M (pst F) A) (f : A → M (pst F) B) :
  mild bad d h d1 h1 c → (∀ a, mild bad d1 h1 d2 h2 (f a)) → mild bad d h d2 h2 (c ≫= f).
Proof.
  intros Hc Hf b s Hs. specialize (Hc b s Hs). unfold mbind, M_bind. destruct (c s) as [a s1| | | |]; try done.
  destruct Hc as [Hs1 Hk]. specialize (Hf a b s1 Hs1). destruct (f a s1) as [a2 s2| | | |]; try done.
  destruct Hf as [Hs2 Hk2]. split; [done|]. by eapply keeps_trans.
Qed.

Lemma tidy_mild {A B} cur d h d' h' (c : M (pst F) A) (f : A → M (pst F) B) :
  mild bad d h d' h' c → (∀ a, tidy_from bad cur d' h' (f a)) → tidy_from bad cur d h (c ≫= f).
Proof.
  intros Hc Hf b s Hs. specialize (Hc b s Hs). unfold mbind, M_bind. destruct (c s) as [a s1| | | |]; try done.
  destruct Hc as [Hs1 Hk]. eapply tidy_out_keeps; [exact Hk|]. by apply Hf.
Qed.

Lemma tidy_bind {A B} cur (c : M (pst F) A) (f : A → M (pst F) B) :
  tidy_from bad cur 0 [] c → (∀ a, tidy_from bad cur 0 [] (f a)) → tidy_from bad cur 0 [] (c ≫= f).
Proof.
  intros Hc Hf b s Hs. specialize (Hc b s Hs). unfold mbind, M_bind. destruct (c s) as [a s1| | |ch s1|]; try done.
  destruct Hc as [Hs1 Hk]. eapply tidy_out_keeps; [exact Hk|]. by apply Hf.
Qed.

Lemma mild_tidy {A} cur d h (c : M (pst F) A) : mild bad d h 0 [] c → tidy_from bad cur d h c.
Proof. intros Hc b s Hs. specialize (Hc b s Hs). by destruct (c s). Qed.

Lemma mild_ret {A} d h (a : A) : mild bad d h d h (mret a).
Proof. intros b s Hs. split; [done|apply keeps_refl]. Qed.
Lemma mild_gets {A} d h (f : pst F → A) : mild bad d h d h (gets f).
Proof. intros b s Hs. split; [done|apply keeps_refl]. Qed.
Lemma mild_files d h f : mild bad d h d h (modify (λ s, set_files (f s) s)).
Proof. intros b s Hs. split; [done|exact (keeps_refl s)]. Qed.
Lemma mild_panic {A} d h d' h' m : m ∉ bad → mild bad d h d' h' (panic m : M (pst F) A).
Proof. by intros ? b s _. Qed.
Lemma tidy_panic {A} cur d h m : m ∉ bad → tidy_from bad cur d h (panic m : M (pst F) A).
Proof. by intros ? b s _. Qed.
Lemma mild_no_fuel {A} d h d' h' : mild bad d h d' h' (no_fuel : M (pst F) A).
Proof. by intros b s _. Qed.
Lemma mild_get_proc d h i : mild bad d h d h (get_proc i).
Proof. intros b s Hs. unfold get_proc. destruct (procs s !! i); [|done]. split; [done|apply keeps_refl]. Qed.
Lemma mild_vm {A} d h (c : M kst A) : quiet true c → bad = lock_panics → mild bad d h d h (vm c : M (pst F) A).
Proof.
  intros Hc Hbad b s Hs. rewrite Hbad. specialize (Hc (kern s)). unfold vm, lift, zoom. destruct (c (kern s)); try done.
  split; [done|]. exact (keeps_refl s).
Qed.
Lemma mild_of_tr {A} d h d' h' (c : M (pst F) A) :
  (∀ l n ip, tr False (Cfg d h l n ip) c (λ _ k, k = Cfg d' h' l n ip) (λ _, False)) → mild bad d h d' h' c.
Proof.
  intros Hc b s Hs. specialize (Hc (procs s) (nextpid s) (initproc s) b s ltac:(done)).
  destruct (c s) as [a s'| | | |]; try done.
  - destruct Hc as (k & (Ht & Hp & Hn & Hi) & ->). simpl in *. split; [done|]. split; [|done]. rewrite Hp. apply woken_refl.
  - by destruct Hc as (? & _ & []).
Qed.
Lemma mild_acquire d h l : l ∉ h → mild bad d h (S d) (l :: h) (acquire l).
Proof. intros. apply mild_of_tr. intros. by apply acquire_tr. Qed.
Lemma mild_release d h l : l ∉ h → mild bad (S d) (l :: h) d h (release l).
Proof. intros. apply mild_of_tr. intros. by apply release_tr. Qed.

(** One turn of [wakeup]. *)
Lemma mild_wake d h i ch : mild bad d h d h
  (p ← get_proc i; if decide (state p = SLEEPING ∧ chan p = ch) then upd_proc i (set_state RUNNABLE) else mret ()).
Proof.
  intros b s Hs. unfold get_proc, mbind, M_bind. destruct (procs s !! i) as [p|] eqn:Ep; [|done].
  case_decide as Hc; [|split; [done|apply keeps_refl]]. split; [done|]. split; [|done]. simpl.
  apply Forall2_same_length_lookup. split; [by rewrite length_alter|]. intros j x y Hx Hy.
  destruct (decide (i = j)) as [<-|Hne].
  - rewrite list_lookup_alter_eq, Ep in Hy. simpl in Hy. injection Hy as <-. simplify_eq. right. split; [apply Hc|done].
  - rewrite list_lookup_alter_ne in Hy by done. simplify_eq. by left.
Qed.

Lemma mild_wakeup d h cur ch : (∀ i, LProc i ∉ h) → mild bad d h d h (wakeup cur ch).
Proof.
  intros Hh. unfold wakeup. generalize 0%nat as i. induction (Z.to_nat NPROC) as [|n IH]; intros i; cbn [wakeup_loop];
    [apply mild_ret|].
  eapply mild_bind; [|intros _; apply IH]. case_decide; [apply mild_ret|].
  eapply mild_bind; [by apply mild_acquire|]. intros _.
  assert (mild bad (S d) (LProc i :: h) d h
    ((p ← get_proc i; if decide (state p = SLEEPING ∧ chan p = ch) then upd_proc i (set_state RUNNABLE) else mret ());;
     release (LProc i))) as Hm.
  { eapply mild_bind; [apply mild_wake|]. intros _. by apply mild_release. }
  intros b s Hs. specialize (Hm b s Hs). unfold mbind, M_bind in *.
  destruct (get_proc i s) as [p s1| | | |]; try done.
Qed.

End rules.

(** [sleep] is how a tidy call blocks.  Up to the switch it does not fail. *)
Definition sleep_prefix (cur : nat) (ch : Z) (lk : lockid) : M (pst F) unit :=
  acquire (LProc cur);; release lk;; upd_proc cur (set_chan ch);; upd_proc cur (set_state SLEEPING);; mret ().

Lemma sleep_reaches_sched cur ch lk d h b s : thr b (S d) (lk :: h) s → lk ≠ LProc cur → LProc cur ∉ h → lk ∉ h →
  ∃ s1, sleep cur ch lk s = sched cur ch s1 ∧
    at_cfg b (Cfg (S d) (LProc cur :: h) (alter (set_state SLEEPING ∘ set_chan ch) cur (procs s)) (nextpid s) (initproc s)) s1.
Proof.
  intros Hs Hlk Hc Hl.
  assert (tr False (Cfg (S d) (lk :: h) (procs s) (nextpid s) (initproc s)) (sleep_prefix cur ch lk : M (pst F) _)
    (λ _ k, k = Cfg (S d) (LProc cur :: h) (alter (set_state SLEEPING) cur (alter (set_chan ch) cur (procs s))) (nextpid s) (initproc s)) (λ _, False)) as Ht.
  { unfold sleep_prefix. apply tr_acquire; [set_solver|]. apply tr_release; [set_solver|]. rewrite filter_second by done. do 2 apply tr_upd. by apply tr_ret. }
  destruct (tr_returns _ _ _ b s Ht ltac:(done)) as ([] & s1 & k & E & Hat & ->). rewrite <- alter_alter. exists s1. split; [|exact Hat].
  unfold sleep_prefix in E. unfold sleep, mbind, M_bind in *. destruct (acquire _ s) as [? s2| | | |]; try done. destruct (release _ s2) as [? s3| | | |]; try done.
  by injection E as <-.
Qed.

Lemma tidy_sleep {A} bad cur ch lk (c : M (pst F) A) : lk ≠ LProc cur → bad ⊆ spin_panics → tidy_from bad cur 1 [lk] (sleep cur ch lk;; c).
Proof.
  intros Hlk Hbad b s Hs. destruct (sleep_reaches_sched cur ch lk 0 [] b s Hs Hlk (not_elem_of_nil _) (not_elem_of_nil _)) as (s1 & E & Hat).
  unfold mbind, M_bind. rewrite E. destruct Hat as (Ht & Hp & Hn & Hi). simpl in *.
  unfold sched, get_proc, mbind, M_bind, gets. destruct (procs s1 !! cur); [|done]. destruct Ht as [[Hd [Hsie Hint]] Hh].
  rewrite Hh, bool_decide_eq_true_2 by left. simpl. rewrite Hd. simpl. case_decide; [intros Hm%Hbad; vm_compute in Hm; set_solver|].
  rewrite Hsie. split_and!; [by repeat split|done|done|]. exists (procs s), ch. split; [apply woken_refl|done].
Qed.

(** With a second lock held, [sched] panics. *)
Lemma tidy_sleep_locked {A} cur ch lk d h (c : M (pst F) A) : lk ≠ LProc cur → LProc cur ∉ h → lk ∉ h →
  tidy_from lock_panics cur (S (S d)) (lk :: h) (sleep cur ch lk;; c).
Proof.
  intros Hlk Hc Hl b s Hs. destruct (sleep_reaches_sched cur ch lk (S d) h b s Hs Hlk Hc Hl) as (s1 & E & Hat).
  unfold mbind, M_bind. rewrite E. destruct Hat as ([[Hd _] Hh] & _). simpl in *.
  unfold sched, get_proc, mbind, M_bind, gets. destruct (procs s1 !! cur); [|done]. rewrite Hh, bool_decide_eq_true_2 by left. simpl.
  rewrite (proj2 (Z.eqb_neq _ _)) by lia. simpl. by apply (bool_decide_eq_false_1 (_ ∈ lock_panics)).
Qed.

End laws.

Section file_laws.
Context {D : Type} `{!KernelImage} `{!KernelText} `{!DevSw D}.
Local Abbreviation F := (fstate D).
Implicit Types s : pst F.

Lemma not_panic (m : string) : bool_decide (m ∈ lock_panics) = false → m ∉ lock_panics.
Proof. by intros ?%bool_decide_eq_false. Qed.

Section rules.
Context {bad : list string}.
Lemma mild_get_file d h f : mild bad d h d h (get_file f : M (pst F) _).
Proof. intros b s Hs. unfold get_file. destruct (ftable (files s) !! f); [|done]. split; [done|apply keeps_refl]. Qed.
Lemma mild_upd_file d h f g : mild bad d h d h (upd_file f g : M (pst F) _).
Proof. apply mild_files. Qed.
Lemma mild_wakeup_all d h cur l : (∀ i, LProc i ∉ h) → mild bad d h d h (wakeup_all cur l : M (pst F) _).
Proof.
  intros Hh. induction l as [|ch l IH]; [apply mild_ret|]. cbn [wakeup_all].
  eapply mild_bind; [by apply mild_wakeup|]. intros _. exact IH.
Qed.
Lemma mild_acquire_all d h l : NoDup (l ++ h) → mild bad d (fs_lock <$> h) (length l + d) (fs_lock <$> rev l ++ h) (acquire_all l : M (pst F) _).
Proof.
  revert d h. induction l as [|a l IH]; intros d h Hnd; [apply mild_ret|]. cbn [acquire_all].
  apply list.NoDup_cons in Hnd as [Ha Hnd]. eapply mild_bind; [apply mild_acquire|].
  - intros (x & [= <-] & Hx)%list_elem_of_fmap. apply Ha, elem_of_app. by right.
  - intros _. replace (length (a :: l) + d)%nat with (length l + S d)%nat by (simpl; lia).
    replace (rev (a :: l) ++ h) with (rev l ++ a :: h) by (simpl; by rewrite <- app_assoc).
    apply (IH (S d) (a :: h)). rewrite <- Permutation_middle. by apply list.NoDup_cons.
Qed.
End rules.

(** File-system code in the kernel: the spin locks it ends with are the
    thread's. *)
Lemma fscall_out {A} o (c : M fsst A) b s : thr b 0 [] s → neat_at o [] (c (no_spin (ffs (files s)))) →
  match fscall c s with
  | Ok (inl _) s' => thr b 0 [] s' ∧ keeps s s'
  | Ok (inr ch) s' => ∃ l, thr b (S (length l)) (fs_lock <$> ch :: l) s' ∧ keeps s s' ∧ NoDup (ch :: l) ∧ (o = true → l = [])
  | Panic m => m ∉ spin_panics
  | Sleep _ _ => False
  | _ => True
  end.
Proof.
  intros Hs Hc. unfold fscall, fsrun, gets, modify, mbind, M_bind. simpl. destruct (c (no_spin (ffs (files s)))) as [a t| | |ch t|]; try done; simpl in *.
  - change (spins_of t) with (bheld (lbio (flog t))) in Hc. rewrite Hc. split; [done|]. exact (keeps_refl s).
  - destruct Hc as (l & Hl & Hnd & Ho). change (spins_of t) with (bheld (lbio (flog t))) in Hl. rewrite Hl.
    match goal with |- context [acquire_all _ ?s0] => set (s1 := s0) end. assert (thr b 0 (fs_lock <$> []) s1) as Hs1 by done.
    pose proof (mild_acquire_all (bad := spin_panics) 0 [] (rev (ch :: l)) ltac:(rewrite app_nil_r, <- Permutation_rev; done) b s1 Hs1) as Hm.
    change (rev l ++ [ch]) with (rev (ch :: l)). destruct (acquire_all (rev (ch :: l)) s1) as [[] s2| | | |]; try done. destruct Hm as [Ht Hk]. exists l.
    rewrite app_nil_r, rev_involutive, length_rev, Nat.add_0_r in Ht. done.
Qed.

(** File-system code in a process is tidy.  If the code can only go to sleep with
    the one lock, then [sched] accepts it. *)
Lemma fsop_out {A} o cur (c : M fsst A) b s : thr b 0 [] s → (∀ p, neat_at o [] (c (no_spin (become p (ffs (files s)))))) →
  tidy_out (if o then spin_panics else lock_panics) cur b s (fsop cur c s).
Proof.
  intros Hs Hc. unfold fsop, get_proc, modify, mbind at 1 2, M_bind. destruct (procs s !! cur) as [p|]; [|done].
  set (s1 := set_files _ s). apply (tidy_out_keeps _ _ _ _ s1); [exact (keeps_refl s)|].
  assert (thr b 0 [] s1) as Hs1 by done. pose proof (fscall_out o c b s1 Hs1 (Hc (pid p))) as Hf. unfold mbind at 1, M_bind.
  assert (∀ m, m ∉ spin_panics → m ∉ (if o then spin_panics else lock_panics)) as Hsub by (intros m Hm; destruct o; [done|]; intros ?; apply Hm; by right).
  destruct (fscall c s1) as [[a|ch] s2| | | |]; try done; [..|by apply Hsub].
  - destruct Hf as [Hs2 Hk]. eapply tidy_out_keeps; [exact Hk|]. clear Hs Hs1 Hk. revert b s2 Hs2.
    eapply tidy_mild; [apply mild_gets|]. intros l. eapply tidy_mild; [apply mild_wakeup_all; set_solver|]. intros _. apply mild_tidy, mild_ret.
  - destruct Hf as (l & Hs2 & Hk & Hnd & Ho). eapply tidy_out_keeps; [exact Hk|]. clear Hs Hs1 Hk. revert b s2 Hs2.
    eapply tidy_mild; [apply mild_gets|]. intros ws. eapply tidy_mild; [apply mild_wakeup_all; intros i (x & [=] & _)%list_elem_of_fmap|]. intros _.
    destruct o; [rewrite Ho by done; by apply tidy_sleep|]. destruct l as [|k l]; [apply tidy_sleep; [done|]; intros m; by right|].
    rewrite (fmap_cons fs_lock ch). apply tidy_sleep_locked; [done| |].
    + by intros (x & [=] & _)%list_elem_of_fmap.
    + apply list.NoDup_cons in Hnd as [Hn _]. by intros (x & [= <-] & Hx)%list_elem_of_fmap.
Qed.
Lemma fsop_tidy {A} o cur (c : M fsst A) : neat o [] [] c → tidy_from (if o then spin_panics else lock_panics) cur 0 [] (fsop cur c : M (pst F) A).
Proof. intros Hc b s Hs. apply fsop_out; [done|]. intros p. by apply Hc. Qed.

Lemma file_begin_op_ok cur : tidy_from spin_panics cur 0 [] (File.begin_op cur : M (pst F) unit).
Proof. apply (fsop_tidy true), neat_lg, neat_begin_op. Qed.
Lemma file_end_op_ok cur : tidy_from spin_panics cur 0 [] (File.end_op cur : M (pst F) unit).
Proof. apply (fsop_tidy true), neat_lg, neat_end_op. Qed.
Lemma file_iput_ok cur ip : tidy cur (File.iput cur ip : M (pst F) unit).
Proof. apply tidy_from_tidy, (fsop_tidy false), neat_iput. Qed.
Lemma tidy_of_strict {A} cur (c : M (pst F) A) : tidy_from spin_panics cur 0 [] c → tidy cur c.
Proof. intros Hc b s Hs. specialize (Hc b s Hs). destruct (c s); try done. simpl in Hc. intros Hm. apply Hc. by right. Qed.

Lemma mild_pipeclose cur pi w : mild lock_panics 0 [] 0 [] (pipeclose cur pi w : M (pst F) unit).
Proof.
  assert (∀ a, quiet true (ld32 a)) as Hld by (intros a; unfold ld32; solve_quiet).
  assert (∀ a v, quiet true (st32 a v)) as Hst by (intros a v; unfold st32; solve_quiet).
  unfold pipeclose. eapply mild_bind; [apply mild_acquire, not_elem_of_nil|]. intros _.
  eapply mild_bind with (d1 := 1%nat) (h1 := [LOther pi]).
  { destruct w; (eapply mild_bind; [by apply mild_vm|]; intros _; apply mild_wakeup; set_solver). }
  intros _. do 2 (eapply mild_bind; [by apply mild_vm|]; intros ?). case_match.
  - eapply mild_bind; [apply mild_release, not_elem_of_nil|]. intros _. apply mild_vm; [apply quiet_kfree|done].
  - apply mild_release, not_elem_of_nil.
Qed.

Lemma fileclose_ok cur f : tidy cur (File.fileclose cur f : M (pst F) unit).
Proof.
  apply tidy_from_tidy. unfold File.fileclose. eapply tidy_mild; [apply mild_acquire, not_elem_of_nil|]. intros _.
  eapply tidy_mild; [apply mild_get_file|]. intros x. case_match; [by apply tidy_panic, not_panic|].
  eapply tidy_mild; [apply mild_upd_file|]. intros _. case_match; [apply mild_tidy, mild_release, not_elem_of_nil|].
  eapply tidy_mild; [apply mild_get_file|]. intros ff. eapply tidy_mild; [apply mild_upd_file|]. intros _.
  eapply tidy_mild; [apply mild_release, not_elem_of_nil|]. intros _.
  assert (tidy_from lock_panics cur 0 [] (File.begin_op cur;; File.iput cur (f_ip ff);; File.end_op cur : M (pst F) unit)).
  { apply tidy_bind; [apply tidy_of_strict, file_begin_op_ok|]. intros _. apply tidy_bind; [apply file_iput_ok|]. intros _. apply tidy_of_strict, file_end_op_ok. }
  destruct (f_type ff); [apply mild_tidy, mild_ret|apply mild_tidy, mild_pipeclose|done|done].
Qed.

(** The steps of a calm call. *)
Lemma filedup_ok f : calm (File.filedup f : M (pst F) Z).
Proof.
  intros b d h s Hs Hh. unfold File.filedup, mbind at 1, M_bind.
  destruct (tr_returns _ _ _ b s (acquire_tr False d h (procs s) (nextpid s) (initproc s) ftable_lock _ (Hh _)) ltac:(done))
    as ([] & s1 & k & -> & Hat & ->).
  unfold get_file, mbind, M_bind. destruct (ftable (files s1) !! of_ptr f) as [x|]; [|done].
  destruct (f_ref x <? 1); [by apply not_panic|]. unfold upd_file, modify.
  match goal with |- context [release ftable_lock ?s2] =>
    destruct (tr_returns _ _ _ b s2 (release_tr False d h (procs s) (nextpid s) (initproc s) ftable_lock _ (Hh _)) Hat)
      as ([] & s3 & k & -> & Hat3 & ->) end.
  by destruct Hat3 as (? & ? & ? & ?).
Qed.
(** [idup] gives back [itable.lock]. *)
Lemma idup_eq ip s : File.idup ip s = Ok ip (set_files (set_ffs
  (set_itable (alter (λ x, iset_ref (i_ref x + 1) x) (of_ptr ip) (itable (ffs (files s)))) (no_spin (ffs (files s)))) (files s)) s).
Proof. done. Qed.
Lemma file_idup_ok i : calm (File.idup i : M (pst F) Z).
Proof. intros b d h s Hs _. rewrite idup_eq. done. Qed.

#[global] Instance file_sys_laws : FileSysLaws (F := F).
Proof.
  split; [apply filedup_ok|apply file_idup_ok|apply fileclose_ok|intros; apply tidy_of_strict, file_begin_op_ok|apply file_iput_ok|
    intros; apply tidy_of_strict, file_end_op_ok].
Qed.

(** [iput] of an inode whose sleep lock is free if the inode has to go. *)
Lemma file_iput_strict cur ip b s : thr b 0 [] s → unlocked_last (of_ptr ip) (ffs (files s)) →
  tidy_out spin_panics cur b s (File.iput cur ip s).
Proof. intros Hs Hu. apply (fsop_out true); [done|]. intros p. by apply iput_neat. Qed.

(** C31: the file layer does what the process code relies on, on every path,
    errors included, with all the spin locks of the storage stack counted:
    [ftable.lock], [itable.lock], [log.lock], [bcache.lock] and those inside the
    sleep locks.  [filedup] and [idup] give back their lock and leave the process
    table alone; [fileclose], [begin_op], [iput] and [end_op], whatever part of
    the log, of the inode layer or of the pipes they run, make no lock mistake
    and return with no lock held and nothing but wakeups in the table, or go to
    sleep holding exactly the lock of their own process.  [begin_op] and [end_op]
    never go to sleep with a lock too many, which [sched] would answer with
    a panic, and neither does [iput] if the sleep lock of an inode with no
    other reference is free.  Hence [exit], run on this file layer, makes no
    lock mistake either. *)
Theorem file_layer_discipline cur f ip status :
  calm (Proc.filedup f : M (pst F) Z) ∧ calm (Proc.idup ip : M (pst F) Z) ∧
  tidy cur (Proc.fileclose cur f : M (pst F) unit) ∧ tidy cur (Proc.begin_op cur : M (pst F) unit) ∧
  tidy cur (Proc.iput cur ip : M (pst F) unit) ∧ tidy cur (Proc.end_op cur : M (pst F) unit) ∧
  (∀ b s, thr b 0 [] s → Proc.begin_op cur s ≠ Panic "sched locks" ∧ Proc.end_op cur s ≠ Panic "sched locks" ∧
    (unlocked_last (of_ptr ip) (ffs (files s)) → Proc.iput cur ip s ≠ Panic "sched locks")) ∧
  locks 0 [] (exit cur status : M (pst F) unit) (λ _ _ _, False) (own_lock cur).
Proof.
  assert (∀ b s (r : outcome (pst F) unit), tidy_out spin_panics cur b s r → r ≠ Panic "sched locks") as Hno by (intros b s r Hr ->; apply Hr; left).
  split_and!; [apply filedup_ok|apply file_idup_ok|apply fileclose_ok|apply tidy_of_strict, file_begin_op_ok|apply file_iput_ok|apply tidy_of_strict, file_end_op_ok| |apply exit_locks].
  intros b s Hs. split; [|split]; [by eapply Hno, file_begin_op_ok|by eapply Hno, file_end_op_ok|]. intros Hu. by eapply Hno, file_iput_strict.
Qed.

End file_laws.

(** ** A kernel in the middle of a commit *)

#[local] Existing Instance demo_image.
#[local] Existing Instance demo_text.
#[local] Instance no_device_functions : DevSw unit := { dev_read _ := None; dev_write _ := None }.

(** The demo processes, a log that is committing, and one inode in use, with its
    sleep lock free. *)
Definition demo_files : fstate unit :=
  mk_fstate (mk_fsst (mk_logst (mk_bst [] 0 0 (λ _, []) [] 0 [] []) 2 30 0 true 1 [])
    [mk_inode 1 5 1 None true (mk_dinode 2 0 0 1 0 (replicate 13 0))] (mk_sb 0 0 0 0 0 0 0 0)) [] ().
Definition demo_committing : pst (fstate unit) :=
  mk_pst (boot_state (λ _, x00)) (demo_table ZOMBIE) 4 (Some 0%nat) false demo_files (mk_cpu 0 false true) [].

(** [begin_op] has to wait, and goes to sleep with the lock of its process alone;
    [iput] drops the last reference in memory. *)
Lemma file_layer_discipline_witness :
  (∃ ch s', Proc.begin_op 1 demo_committing = Sleep ch s' ∧ thr true 1 [LProc 1] s') ∧
  (∃ s', Proc.iput 1 1 demo_committing = Ok () s' ∧ thr true 0 [] s') ∧
  Proc.iput 1 1 demo_committing ≠ Panic "sched locks".
Proof.
  assert (thr true 0 [] demo_committing) as Hs by by repeat split.
  destruct (file_layer_discipline (D := unit) 1 1 1 0) as (_ & _ & _ & Hb & Hi & _ & Hp & _).
  split; [|split].
  - specialize (Hb true demo_committing Hs). destruct (Proc.begin_op 1 demo_committing) as [| | |ch s'|] eqn:E; [vm_compute in E; discriminate E..| |vm_compute in E; discriminate E].
    exists ch, s'. split; [done|]. apply Hb.
  - specialize (Hi true demo_committing Hs). destruct (Proc.iput 1 1 demo_committing) as [[] s'| | | |] eqn:E; [|vm_compute in E; discriminate E..].
    exists s'. split; [done|]. apply Hi.
  - destruct (Hp true demo_committing Hs) as (_ & _ & Hu). apply Hu. intros x Hx _. injection Hx as <-. reflexivity.
Defined.
