(* ===== verification/UserInit.v ===== *)
(** * The first process

    [userinit] of [kernel/proc.c] makes a process out of an empty table and a
    free memory. *)

From S2P Require Import Prelude Riscv Mem CString Kalloc Vm VmTree VmOps VmFree Cow KvmSpec Spinlock Proc ProcSpec ProcTable Run Space ProcMem.
From S2P Require Import Bio Log Fs Pipe File.

Lemma pm_empty `{KernelImage} l K fl : kalloc_inv K fl → (∀ i p, l !! i = Some p → state p = UNUSED ∧ pagetable p = 0 ∧ trapframe p = 0) → pm_inv l K fl ∅ ∅.
Proof.
  intros Ha Hl. split; [by apply vm_inv_empty|..].
  - intros i p Hp Hz. by destruct (Hl i p Hp) as (_ & ? & _).
  - intros i p Hp _. by destruct (Hl i p Hp) as (? & _ & ?).
  - intros i j p q Hp _ _ Hz. by destruct (Hl i p Hp) as (_ & ? & _).
  - intros r path t. by rewrite lookup_empty.
Qed.

Section userinit.
Context {D : Type} `{!KernelImage} `{!KernelText} `{!DevSw D}.
Local Abbreviation F := (fstate D).
Implicit Types s : pst F.
Local Abbreviation store := (kfiles (F := F) id).
#[local] Existing Instance kfiles_store.

Lemma run_set_init {B} d h l n ip op V (f : unit → M (pst F) B) Q R :
  run store (Cfg d h l n op) V (f tt) Q R → run store (Cfg d h l n ip) V (modify (set_initproc op) ≫= f) Q R.
Proof. intros Hf b s (Ht & Hl & Hn & Hi) HV. by apply (Hf b). Qed.

(** The inode of the root directory, in the first slot of the table. *)
Definition root_inode (x : inode) : inode := iset_valid false (iset_ref 1 (iset_id ROOTDEV ROOTINO x)).

Lemma iget_scan_free l i dv inum e : Forall (λ x, i_ref x = 0) l → iget_scan l i dv inum (Some e) = (Some e, false).
Proof. revert i. induction l as [|x l IH]; intros i Hl; [done|]. apply list.Forall_cons in Hl as [Hx Hl]. cbn [iget_scan]. rewrite Hx. simpl. by apply IH. Qed.

(** The file layer, with that inode in use. *)
Definition root_open (f : F) : F :=
  set_ffs (set_itable (match itable (ffs f) with x :: it => root_inode x :: it | [] => [] end) (no_spin (ffs f))) f.

Lemma iget_root f x it : Forall (λ x, i_ref x = 0) (x :: it) → itable f = x :: it →
  iget ROOTDEV ROOTINO (no_spin f) = Ok 0%nat (set_itable (root_inode x :: it) (no_spin f)).
Proof.
  intros [Hx Hit]%list.Forall_cons Ei. unfold iget. unfold mbind at 1, M_bind. change (blk (slock itable_lock) (no_spin f)) with
    (Ok tt (set_flog (set_lbio (set_bheld [itable_lock] (lbio (flog f))) (flog f)) f)). unfold gets, mbind at 1, M_bind. cbn [itable set_flog]. rewrite Ei.
  cbn [iget_scan]. rewrite Hx. simpl. rewrite iget_scan_free by done. unfold upd_inode, modify, mbind, M_bind. simpl. rewrite Ei. done.
Qed.

Lemma namei_root_run {B} k K t (f : Z → M (pst F) B) Q R : Forall (λ x, i_ref x = 0) (itable (ffs t)) → itable (ffs t) ≠ [] →
  run store k (K, root_open t) (f (to_ptr 0)) Q R → run store k (K, t) (Proc.namei_root ≫= f) Q R.
Proof.
  intros Hit Hne Hf b s Hs HV. injection HV as HK Ht. unfold id in Ht. unfold root_open in Hf. rewrite <- Ht in *. destruct (itable (ffs (files s))) as [|x it] eqn:Ei; [done|].
  simpl. unfold namei_root, fscall, fsrun, gets, modify, mbind, M_bind. simpl. rewrite (iget_root _ x it) by done.
  apply (Hf b); [by destruct Hs as (? & ? & ? & ?)|]. unfold kfiles, id. simpl. by rewrite HK.
Qed.

(** What [userinit] leaves: the first slot [p] of the table, taken as [q]. *)
Record first_process (p : proc) (n : Z) (q : proc) (K : kst) (L : leaves) : Prop := {
  fp_state : state q = RUNNABLE ∧ pid q = n ∧ cwd q = to_ptr 0 ∧ parent q = parent p ∧ ofile q = ofile p ∧ kstack q = kstack p;
  fp_size : sz q = PGSIZE;
  fp_view va : 0 ≤ va < PGSIZE → view K L (pagetable q) va = Some (nth (Z.to_nat va) initcode x00);
  fp_frame : tf_word K (trapframe q) 3 = 0 ∧ tf_word K (trapframe q) 6 = PGSIZE;
  fp_start : context_ q = mk_context forkret_addr (kstack q + PGSIZE);
}.

Lemma userinit_run l n ip K p t fl : length l = Z.to_nat NPROC → (∀ i q, l !! i = Some q → state q = UNUSED ∧ pagetable q = 0 ∧ trapframe q = 0 ∧ sz q = 0) → l !! 0%nat = Some p →
  kalloc_inv K fl → (9 < length fl)%nat → Forall (λ x, i_ref x = 0) (itable (ffs t)) → itable (ffs t) ≠ [] → 0 < n < 2 ^ 31 - 1 →
  run store (Cfg 0 [] l n ip) (K, t) userinit (λ _ k V, ∃ K' fl' T' L' q, V = (K', root_open t) ∧ k = Cfg 0 [] (<[0%nat := q]> l) (n + 1) (Some 0%nat) ∧
    pm_inv (<[0%nat := q]> l) K' fl' T' L' ∧ first_process p n q K' L' ∧ others (pagetable q) 0 K fl ∅ ∅ K' fl' T' L' ∧ ∃ used, fl = used ++ fl' ∧ (length used ≤ 9)%nat) (λ _ _ _, False).
Proof.
  intros Hlen Hl Hp Ha Hfl Hit Hne Hn. assert (pm_inv l K fl ∅ ∅) as Hpm by (apply pm_empty; [done|]; intros i q Hq; destruct (Hl i q Hq); naive_solver).
  assert (0 < length l)%nat as Hlt by by eapply lookup_lt_Some. destruct (Hl _ _ Hp) as (Hs & Hpt & _ & Hsz).
  unfold userinit. eapply run_bind; [apply (allocproc_run id 0 [] l n ip K t fl ∅ ∅); [split_and!; set_solver|done|done|intros i q Hq _; destruct (Hl i q Hq); naive_solver|done]|].
  intros o k V [(_ & _ & _ & Hfull)|(i & p' & Hp' & _ & Hbefore & K1 & fl1 & T1 & L1 & -> & Ho)]; [by destruct (Hfull _ _ Hp)|].
  assert (i = 0%nat) as -> by (destruct i; [done|]; by destruct (Hbefore 0%nat p ltac:(lia) Hp)). rewrite Hp in Hp'. injection Hp' as <-.
  destruct o as [j|]; [|destruct Ho as (? & _ & _ & _ & _ & _ & _ & _ & Hless); lia].
  destruct Ho as (-> & r & tf & -> & Hpm1 & Ho1 & HnT & Htf & used & Hu & Hul). set (b := born p n r tf) in *.
  assert (<[0%nat := b]> l !! 0%nat = Some b) as Hb by by apply list_lookup_insert_eq. pose proof (pm_vm _ _ _ _ _ Hpm1) as Hv1.
  assert (r ≠ 0) as Hrz. { intros ->. by destruct (pm_none _ _ _ _ _ Hpm1 _ b Hb eq_refl) as [? _]. }
  pose proof (pm_space _ _ _ _ _ Hpm1 _ b Hb Hrz) as Sb. simpl in Sb. rewrite Hsz in Sb. apply run_set_init. apply (run_get_proc (get := store) _ _ _ _ _ _ _ b); [done|].
  eapply run_kern; [apply (uvmfirst_others K1 fl1 T1 L1 r tf initcode); [done|done| |by vm_compute]|].
  { rewrite Hu, length_app in Hfl. lia. }
  intros [] K2 (fl2 & T2 & L2 & Hv2 & Ho2 & S2 & Hview & used2 & Hu2 & Hul2). slot.
  destruct (frame_store K2 fl2 T2 L2 tf 3 0) as (K3 & Hk3 & Hv3 & Htf3 & Ho3 & Hw3); [done|apply S2|done|done|].
  destruct (frame_store K3 fl2 T2 L2 tf 6 PGSIZE) as (K4 & Hk4 & Hv4 & Htf4 & Ho4 & Hw4); [done|done|done|done|].
  eapply run_kern_Ok; [exact Hk3|]. eapply run_kern_Ok; [exact Hk4|]. slot. apply namei_root_run; [done..|]. do 2 slot.
  apply run_last, run_release, run_ret; [apply not_elem_of_nil|].
  eexists K4, fl2, T2, L2, _. split; [done|]. split; [done|]. split_and!.
  - rewrite <- (list_insert_insert_eq l 0%nat _ b). eapply (pm_change _ _ b _ r tf); [exact Hpm1|exact Hb|done| |by right| |].
    + eapply others_trans; [apply Ho2|]. eapply others_trans; [apply Ho3|apply Ho4].
    + intros i q Hi Hq Hz. destruct (pm_apart _ _ _ _ _ Hpm1 i 0%nat q b Hq Hb Hi Hz). done.
    + right. split; [done|]. split; [destruct S2; by split|]. intros i q Hi Hq Hz. destruct (pm_apart _ _ _ _ _ Hpm1 i 0%nat q b Hq Hb Hi Hz). done.
  - split; [done|done| | |done].
    + intros va Hva. simpl. rewrite (ot_view _ _ _ _ _ _ _ _ _ _ (Ho4 0)), (ot_view _ _ _ _ _ _ _ _ _ _ (Ho3 0)) by done. by apply Hview.
    + simpl. by rewrite !Hw4, Hw3 by done.
  - eapply (others_drop _ tf); [eapply others_trans; [exact Ho1|apply Ho2]|eapply others_trans; [apply Ho3|apply Ho4]|by right].
  - exists (used ++ used2). rewrite <- app_assoc, <- Hu2. split; [done|]. rewrite length_app. lia.
Qed.
Lemma first_table l n q p : tbl_inv l n None → (∀ i q, l !! i = Some q → state q = UNUSED) → l !! 0%nat = Some p → 0 < n →
  alive q → pid q = n → parent q = parent p → tbl_inv (<[0%nat := q]> l) (n + 1) (Some 0%nat).
Proof.
  intros Hi Hu Hp Hn Hq Hpid Hpar. assert (0 < length l)%nat as Hlt by by eapply lookup_lt_Some. pose proof (ti_unused _ _ _ Hi _ _ Hp (Hu _ _ Hp)) as (_ & Hp0 & _).
  assert (∀ i x, <[0%nat := q]> l !! i = Some x → i = 0%nat ∧ x = q ∨ l !! i = Some x ∧ state x = UNUSED) as Hc.
  { intros i x [(<- & -> & _)|[_ Hx]]%list_lookup_insert_Some; [by left|]. right. eauto. }
  split.
  - intros i x [[-> ->]|[Hx Hs]]%Hc; [lia|done].
  - intros i j x y [[-> ->]|[Hx Hs]]%Hc [[-> ->]|[Hy Hs']]%Hc Hl E; try done. destruct (ti_unused _ _ _ Hi _ _ Hy Hs') as (Hz & _). lia.
  - intros i x [[-> ->]|[Hx Hs]]%Hc Hs'; [by destruct Hq|]. by apply (ti_unused _ _ _ Hi i).
  - intros i x j [[-> ->]|[Hx Hs]]%Hc Hj; [congruence|]. destruct (ti_unused _ _ _ Hi _ _ Hx Hs) as (_ & Hz & _). congruence.
  - intros i [= <-]. exists q. split; [by apply list_lookup_insert_eq|done].
Qed.

(** A kernel whose memory, process table and inode table are ready, before there
    is any process. *)
Record ready_kernel (b : bool) s (fl : list Z) : Prop := {
  fr_thr : thr b 0 [] s;
  fr_tbl : tbl_inv (procs s) (nextpid s) None;
  fr_init : initproc s = None;
  fr_len : length (procs s) = Z.to_nat NPROC;
  fr_unused i q : procs s !! i = Some q → state q = UNUSED;
  fr_mem : kalloc_inv (kern s) fl;
  fr_inodes : Forall (λ x, i_ref x = 0) (itable (ffs (files s)));
  fr_room : itable (ffs (files s)) ≠ [];
  fr_pid : 0 < nextpid s < 2 ^ 31 - 1;
}.

(** The kernel after [userinit]: the table has one process, [q]. *)
Record one_process (b : bool) s s' (fl : list Z) (T : tables) (L : leaves) (q : proc) : Prop := {
  sd_thr : thr b 0 [] s';
  sd_tbl : tbl_inv (procs s') (nextpid s') (initproc s');
  sd_mem : pm_inv (procs s') (kern s') fl T L;
  sd_init : initproc s' = Some 0%nat ∧ nextpid s' = nextpid s + 1;
  sd_files : files s' = root_open (files s);
  sd_procs : ∃ p, procs s !! 0%nat = Some p ∧ procs s' = <[0%nat := q]> (procs s) ∧ first_process p (nextpid s) q (kern s') L;
}.

Lemma userinit_ok b s fl : ready_kernel b s fl → (9 < length fl)%nat →
  ∃ s' fl' T L q, userinit s = Ok tt s' ∧ one_process b s s' fl' T L q ∧ kept_pages (kern s) fl ∅ ∅ (kern s') fl' T L ∧ ∃ used, fl = used ++ fl' ∧ (length used ≤ 9)%nat.
Proof.
  intros [Hs Htbl Hip Hlen Hu Ha Hit Hroom Hn] Hfl. destruct (lookup_lt_is_Some_2 (procs s) 0) as [p Hp]; [rewrite Hlen; vm_compute; lia|].
  assert (∀ i q, procs s !! i = Some q → state q = UNUSED ∧ pagetable q = 0 ∧ trapframe q = 0 ∧ sz q = 0) as Hl.
  { intros i q Hq. destruct (ti_unused _ _ _ Htbl i q Hq (Hu i q Hq)) as (? & ? & ? & ? & ? & ?). split_and!; eauto. }
  pose proof (userinit_run (procs s) (nextpid s) None (kern s) p (files s) fl Hlen Hl Hp Ha Hfl Hit Hroom Hn b s) as Hr.
  specialize (Hr ltac:(by repeat split; try apply Hs) eq_refl).
  destruct (userinit s) as [[] s'| | |ch s'|]; [|done|done|by destruct Hr as (? & _ & [])|done].
  destruct Hr as (k & (Ht & Hl' & Hn' & Hi') & K & fl' & T & L & q & HV & -> & Hpm & Hf & Ho & Hused). injection HV as HK HF. simpl in *.
  exists s', fl', T, L, q. split; [done|]. rewrite <- HK in *. split; [|split; [by eapply others_kept|done]]. pose proof (fp_state _ _ _ _ _ Hf) as (Hq1 & Hq2 & _ & Hq3 & _ & _). split.
  - done.
  - rewrite Hl', Hn', Hi'. eapply first_table; [done|done|exact Hp|lia|unfold alive; by rewrite Hq1|done|done].
  - by rewrite Hl'.
  - done.
  - done.
  - by exists p.
Qed.
End userinit.

(** ** A small machine *)

(** Zeroed memory, and the kernel of [demo_kernel]. *)
Definition demo_texts : KernelText := {|
  forkret_addr := 0x80001000; usertrap_addr := 0x80002000; kernelvec_addr := 0x80003000;
  uservec_addr := 0x80007000; userret_addr := 0x80007100;
|}.
#[local] Existing Instance demo_kernel.
#[local] Existing Instance demo_texts.

(** A free inode, and the kernel before its first process. *)
Definition no_inode : inode := mk_inode 0 0 0 None false (mk_dinode 0 0 0 0 0 (replicate 13 0)).
Definition demo_fresh (k : kst) : pst (fstate unit) :=
  mk_pst k (replicate (Z.to_nat NPROC) blank_proc) 1 None true
    (mk_fstate (mk_fsst (mk_logst (mk_bst [] 0 0 (λ _, []) [] 0 [] []) 0 0 0 false 0 []) (replicate 50 no_inode) (mk_sb 0 0 0 0 0 0 0 0)) [] ())
    (mk_cpu 0 false false) [].

Lemma demo_ready : ∃ k fl, ready_kernel false (demo_fresh k) fl ∧ (99 < length fl)%nat.
Proof.
  destruct (kinit_inv (λ _, x00)) as (k & _ & Hk). match type of Hk with kalloc_inv _ ?fl => exists k, fl end. split; [|vm_compute; lia].
  assert (∀ i q, procs (demo_fresh k) !! i = Some q → q = blank_proc) as Hb by by intros i q [-> _]%lookup_replicate. split; try done.
  - split; intros; repeat match goal with H : procs _ !! _ = Some _ |- _ => apply Hb in H; subst end; done.
  - intros i q ->%Hb. done.
  - by apply Forall_replicate.
Qed.
