(* ===== verification/ForkSpec.v ===== *)
(** * [fork]

    [fork] of [kernel/proc.c] over the file layer of [File]: all of a process is
    copied, or nothing changes. *)

From S2P Require Import Prelude Riscv Mem CString Kalloc Vm VmTree VmOps VmFree Cow KvmSpec Spinlock Proc ProcSpec ProcTable Run Space ProcMem.
From S2P Require Import Bio Log Fs Pipe File FileSpec UserInit.

Section fork.
Context {D : Type} `{!KernelImage} `{!KernelText} `{!DevSw D}.
Local Abbreviation F := (fstate D).
Implicit Types s : pst F.
Local Abbreviation store := (kfiles (F := F) ftable).
#[local] Existing Instance kfiles_store.

(** ** Descriptors *)

(** One more reference to an open file. *)
Definition dup1 (f : Z) (t : list file) : list file := alter (λ x, fset_ref (f_ref x + 1) x) (of_ptr f) t.
Fixpoint dups (fs : list Z) (t : list file) : list file :=
  match fs with
  | [] => t
  | f :: fs => dups fs (if f =? 0 then t else dup1 f t)
  end.
(** The descriptors are of open files. *)
Definition files_ok (fs : list Z) (t : list file) : Prop := ∀ f, f ∈ fs → f ≠ 0 → ∃ x, t !! of_ptr f = Some x ∧ 1 ≤ f_ref x.

Lemma files_ok_dup f fs t : files_ok (f :: fs) t → files_ok fs (if f =? 0 then t else dup1 f t).
Proof.
  intros Hok f' Hf' Hz. destruct (Hok f') as (x & Hx & Hr); [by right|done|]. case_match; [by exists x|]. unfold dup1.
  destruct (decide (of_ptr f = of_ptr f')) as [E|]; [|exists x; by rewrite list_lookup_alter_ne].
  rewrite <- E, list_lookup_alter_eq, E, Hx. eexists. split; [done|]. simpl. lia.
Qed.

(** The table of the child, filled in. *)
Fixpoint overlay (fs : list Z) (i : nat) (o : list Z) : list Z :=
  match fs with
  | [] => o
  | f :: fs => overlay fs (S i) (if f =? 0 then o else <[i := f]> o)
  end.
Lemma overlay_zeros fs : overlay fs 0 (replicate (length fs) 0) = fs.
Proof.
  enough (∀ pre, overlay fs (length pre) (pre ++ replicate (length fs) 0) = pre ++ fs) as Hw by apply (Hw []).
  induction fs as [|f fs IH]; intros pre; [done|]. cbn [overlay length replicate].
  replace (if f =? 0 then pre ++ 0 :: replicate (length fs) 0 else <[length pre := f]> (pre ++ 0 :: replicate (length fs) 0)) with ((pre ++ [f]) ++ replicate (length fs) 0).
  - specialize (IH (pre ++ [f])). rewrite length_app, Nat.add_1_r in IH. rewrite IH. by rewrite <- app_assoc.
  - rewrite <- app_assoc. simpl. destruct (Z.eqb_spec f 0) as [->|]; [done|]. by rewrite insert_app_r_alt, Nat.sub_diag by done.
Qed.

Lemma filedup_run d h l n ip K t f x : (∀ a, LOther a ∉ h) → t !! of_ptr f = Some x → 1 ≤ f_ref x →
  run store (Cfg d h l n ip) (K, t) (Proc.filedup f) (λ v k V, v = f ∧ k = Cfg d h l n ip ∧ V = (K, dup1 f t)) (λ _ _ _, False).
Proof.
  intros Hh Hx Hr. simpl. unfold filedup. apply run_acquire; [apply Hh|]. intros b s Hs HV. injection HV as HK Ht.
  unfold get_file, upd_file, modify, mbind, M_bind. rewrite Ht, Hx. rewrite (proj2 (Z.ltb_ge _ _)) by done.
  match goal with |- context [release ftable_lock ?s'] => pose proof (run_release (G := list file) ftable d h l n ip (K, dup1 f t) ftable_lock (λ _, mret f)
    (λ v k V, v = f ∧ k = Cfg d h l n ip ∧ V = (K, dup1 f t)) (λ _ _ _, False) (Hh _) ltac:(by apply run_ret) b s') as Hw end.
  unfold mbind, M_bind in Hw. apply Hw; [by destruct Hs as (? & ? & ? & ?)|]. unfold kfiles. simpl. by rewrite HK, Ht.
Qed.

Lemma fork_files_run d h l n ip K t fs np i q : (∀ a, LOther a ∉ h) → files_ok fs t → l !! np = Some q →
  run store (Cfg d h l n ip) (K, t) (fork_files fs np i)
    (λ _ k V, k = Cfg d h (<[np := set_ofile (overlay fs i (ofile q)) q]> l) n ip ∧ V = (K, dups fs t)) (λ _ _ _, False).
Proof.
  intros Hh. revert l t i q. induction fs as [|f fs IH]; intros l t i q Hok Hq; cbn [fork_files overlay dups].
  { apply run_ret. split; [|done]. f_equal. rewrite list_insert_id; [done|]. rewrite Hq. by destruct q. }
  pose proof (files_ok_dup _ _ _ Hok) as Hok'. assert (np < length l)%nat as Hn by by eapply lookup_lt_Some.
  destruct (Z.eqb_spec f 0) as [E|Hz].
  - apply (run_bind _ _ _ _ (λ _ k V, k = Cfg d h l n ip ∧ V = (K, t))); [by apply run_ret|]. intros [] k V [-> ->]. by apply IH.
  - destruct (Hok f) as (x & Hx & Hr); [by left|done|].
    apply (run_bind _ _ _ _ (λ _ k V, k = Cfg d h (<[np := set_ofile (<[i := f]> (ofile q)) q]> l) n ip ∧ V = (K, dup1 f t))).
    + eapply run_bind; [by eapply filedup_run|]. intros v k V (-> & -> & ->). apply run_last, run_upd, run_ret. by rewrite (alter_at _ _ _ q).
    + intros [] k V [-> ->]. eapply run_mono; [apply (IH _ _ (S i) (set_ofile (<[i := f]> (ofile q)) q) Hok'); by apply list_lookup_insert_eq| |done].
      intros [] k V [-> ->]. by rewrite list_insert_insert_eq.
Qed.

(** ** The trap frame *)

(** The frame of the child, in which [a0], word 14, is what [fork] returns. *)
Lemma copy_frame K fl T L tf tf' : vm_inv K fl T L → owned K fl T L tf → owned K fl T L tf' → tf ≠ tf' →
  ∃ K1 K', memmove_ tf' tf sizeof_trapframe K = Ok tt K1 ∧ st (tf' + tf_a0) 0 K1 = Ok tt K' ∧ vm_inv K' fl T L ∧ owned K' fl T L tf' ∧ (∀ r, others r tf' K fl T L K' fl T L) ∧
    ∀ i, 0 ≤ i < tf_words → tf_word K' tf' i = if i =? 14 then 0 else tf_word K tf i.
Proof.
  intros Hv Ho Ho' Hne. pose proof (ow_ok _ _ _ _ _ Ho) as Hp. pose proof (ow_ok _ _ _ _ _ Ho') as Hp'. pose proof (page_ok_range _ Hp) as (?&?&?). pose proof (page_ok_range _ Hp') as (?&?&?).
  assert (sizeof_trapframe = 288 ∧ tf_words = 36) as [Hsz Hw] by done.
  set (K1 := set_mem (λ m, mcopy m tf' tf sizeof_trapframe) K). set (K' := set_mem (λ m, store64 m (tf' + 8 * 14) 0) K1). exists K1, K'.
  assert (∀ x, pg x ≠ tf' → mem K' x = mem K x) as Hm.
  { intros x Hx. assert (¬ tf' ≤ x < tf' + 4096) as Hout by (intros Hin; apply Hx, pg_eq; lia). simpl. rewrite store64_out by lia. apply mcopy_out. lia. }
  destruct (others_write K fl T L K' tf' Hv Ho' eq_refl eq_refl Hm) as (Hv' & Hof & Hoth). split_and!; [| |done..|].
  - unfold memmove_. by rewrite (mapped_page tf), (mapped_page tf') by (done || lia).
  - unfold tf_a0. change 112 with (8 * 14). by apply st_slot.
  - intros i Hi. unfold tf_word. simpl. destruct (Z.eqb_spec i 14) as [->|Hn]; [by apply load64_store64_eq|]. rewrite load64_store64_ne by lia.
    unfold load64, mread. f_equal. apply list_fmap_ext. intros j x [-> Hj]%lookup_seq. rewrite mcopy_in by lia. f_equal. lia.
Qed.

(** ** The result *)

(** The child [q] in slot [np], and what it shares with its parent [p]. *)
Record forked_child (cur : nat) (p : proc) (n : Z) (K : kst) (L : leaves) (q : proc) (K' : kst) (L' : leaves) : Prop := {
  fc_state : state q = RUNNABLE ∧ pid q = n ∧ parent q = Some cur;
  fc_files : ofile q = ofile p ∧ cwd q = cwd p;
  fc_size : sz q = sz p;
  fc_view va : view K' L' (pagetable q) va = view K L (pagetable p) va;
  fc_frame i : 0 ≤ i < tf_words → tf_word K' (trapframe q) i = if i =? 14 then 0 else tf_word K (trapframe p) i;
  fc_shared r va pte : r = pagetable p ∨ r = pagetable q → va < TRAPFRAME → L' !! (r, va) = Some pte → band pte PTE_W = false;
  fc_start : context_ q = mk_context forkret_addr (kstack q + PGSIZE);
}.

(** The table [l'] has the processes of [l], unchanged, and no other. *)
Definition same_procs (l l' : list proc) : Prop := ∀ i q, state q ≠ UNUSED → l' !! i = Some q ↔ l !! i = Some q.

(** There is no room for a copy of [p]: the table is full, or there are fewer free
    pages than a trap frame, the child's page tables and two more tables for each
    page of memory. *)
Definition no_room (l : list proc) (p : proc) (fl : list Z) : Prop :=
  (∀ i q, l !! i = Some q → state q ≠ UNUSED) ∨ Z.of_nat (length fl) ≤ 6 + 2 * (PGROUNDUP (sz p) / 4096).

Definition fork_result (cur : nat) (p : proc) (l : list proc) (n : Z) (K : kst) (t : list file) (fl : list Z) (T : tables) (L : leaves) (v : Z) (k : cfg) (V : kst * list file) : Prop :=
  ∃ fl' T' L' r, pm_inv (c_tab k) V.1 fl' T' L' ∧ others r 0 K fl T L V.1 fl' T' L' ∧ (∀ i q, l !! i = Some q → pagetable q ≠ 0 → pagetable q ≠ r) ∧ c_depth k = 0%nat ∧ c_held k = [] ∧
   ((v = -1 ∧ V.2 = t ∧ same_procs l (c_tab k) ∧ no_room l p fl) ∨
    (v = n ∧ V.2 = dups (ofile p) t ∧ ∃ np q0 q, l !! np = Some q0 ∧ state q0 = UNUSED ∧ c_tab k = <[np := q]> l ∧ forked_child cur p n K L q V.1 L')).

Lemma same_procs_unused l i q q' : l !! i = Some q → state q = UNUSED → state q' = UNUSED → same_procs l (<[i := q']> l).
Proof.
  intros Hq Hs Hs' j x Hx. destruct (decide (j = i)) as [->|]; [|by rewrite list_lookup_insert_ne].
  rewrite list_lookup_insert_eq by by eapply lookup_lt_Some. rewrite Hq. split; intros [= <-]; done.
Qed.

(** No memory for the child. *)
Lemma fork_fail cur p l n ip np q0 r tf K t fl T L K1 fl1 T1 L1 K2 fl2 T2 L2 : l !! np = Some q0 → state q0 = UNUSED → pm_inv l K fl T L →
  pm_inv (<[np := born q0 n r tf]> l) K1 fl1 T1 L1 → others r 0 K fl T L K1 fl1 T1 L1 → (∀ k, T !! k ≠ Some r) → tf ∈ fl →
  vm_inv K2 fl2 T2 L2 → (∀ e, others r e K1 fl1 T1 L1 K2 fl2 T2 L2) → space K2 fl2 T2 L2 r tf 0 → sz q0 = 0 → pagetable q0 = 0 → no_room l p fl →
  run store (Cfg 1 [LProc np] (<[np := born q0 n r tf]> l) (n + 1) ip) (K2, t) (freeproc np;; release (LProc np);; mret (-1))
    (fork_result cur p l n K t fl T L) (λ _ _ _, False).
Proof.
  intros Hq0 Hs0 Hpm Hpm1 Ho1 HnT Htf Hv2 Ho2 Sp Hsz Hpt Hroom. assert (np < length l)%nat as Hn by by eapply lookup_lt_Some. pose proof (pm_vm _ _ _ _ _ Hpm) as Hv.
  assert (<[np := born q0 n r tf]> l !! np = Some (born q0 n r tf)) as Hb by by apply list_lookup_insert_eq.
  eapply (freeproc_run ftable _ _ _ _ _ _ (born q0 n r tf)); [done|exact Hv2|split; right; [apply Sp|simpl; by rewrite Hsz]|].
  intros K3 fl3 T3 L3 Hv3 Ho3 HT3 _. simpl in Ho3, HT3. apply run_release; [apply not_elem_of_nil|]. apply run_ret. rewrite (alter_at _ _ _ _ Hb), list_insert_insert_eq.
  assert (others r 0 K fl T L K3 fl3 T3 L3) as Ho by (eapply (others_drop _ tf); [eapply others_trans; [exact Ho1|apply Ho2]|exact Ho3|by right]).
  exists fl3, T3, L3, r. split_and!; try done.
  - eapply (pm_change _ _ q0 _ r 0); [exact Hpm|done|done|exact Ho| | |].
    + by left.
    + intros j x Hj Hx Hz. exact (fresh_root _ _ _ _ _ _ _ _ Hpm HnT Hx Hz).
    + left. done.
  - intros j x Hx Hz. apply (fresh_root _ _ _ _ _ _ _ _ Hpm HnT Hx Hz).
  - left. split; [done|]. split; [done|]. split; [by eapply same_procs_unused|done].
Qed.

Lemma idup_run {B} k V ip (f : Z → M (pst F) B) Q R : run store k V (f ip) Q R → run store k V (Proc.idup ip ≫= f) Q R.
Proof.
  intros Hf b s Hs HV. change (Proc.idup ip) with (File.idup (D := D) ip). unfold mbind, M_bind. rewrite idup_eq. apply (Hf b); [by destruct Hs as (? & ? & ? & ?)|done].
Qed.

(** The child is complete; what is left is to make it known. *)
Lemma fork_publish cur p l n ip np q0 q K K4 t fl T L fl4 T4 L4 K1 fl1 T1 L1 r tf :
  l !! np = Some q0 → state q0 = UNUSED → pm_inv l K fl T L → (∀ k, T !! k ≠ Some r) → pm_inv (<[np := born q0 n r tf]> l) K1 fl1 T1 L1 →
  vm_inv K4 fl4 T4 L4 → others r 0 K fl T L K4 fl4 T4 L4 → others r tf K1 fl1 T1 L1 K4 fl4 T4 L4 → space K4 fl4 T4 L4 r tf (sz q) → pagetable q = r → trapframe q = tf →
  forked_child cur p n K L (set_state RUNNABLE (set_parent (Some cur) q)) K4 L4 →
  run store (Cfg 1 [LProc np] (<[np := q]> l) (n + 1) ip) (K4, dups (ofile p) t)
    (q ← get_proc np; release (LProc np);; acquire LWait;; upd_proc np (set_parent (Some cur));; release LWait;;
     acquire (LProc np);; upd_proc np (set_state RUNNABLE);; release (LProc np);; mret (pid q))
    (fork_result cur p l n K t fl T L) (λ _ _ _, False).
Proof.
  intros Hq0 Hs0 Hpm HnT Hpm1 Hv4 Ho Ho4 Sq Hpt Htf Hch. assert (np < length l)%nat as Hnp by by eapply lookup_lt_Some.
  apply (run_get_proc (get := store) _ _ _ _ _ _ _ q); [by apply list_lookup_insert_eq|]. apply run_release, run_acquire; [apply not_elem_of_nil..|]. slot.
  apply run_release, run_acquire; [apply not_elem_of_nil..|]. slot. apply run_release, run_ret; [apply not_elem_of_nil|].
  exists fl4, T4, L4, r. split_and!; [|exact Ho| |done|done|].
  - assert (<[np := born q0 n r tf]> l !! np = Some (born q0 n r tf)) as Hb by by apply list_lookup_insert_eq.
    rewrite <- (list_insert_insert_eq l np _ (born q0 n r tf)). eapply (pm_change _ _ (born q0 n r tf) _ r tf); [exact Hpm1|exact Hb|done|exact Ho4|by right| |].
    + intros j x Hj Hx Hz. destruct (pm_apart _ _ _ _ _ Hpm1 j np x (born q0 n r tf) Hx Hb Hj Hz). done.
    + right. simpl. rewrite Hpt, Htf. split; [done|]. split; [done|]. intros j x Hj Hx Hz.
      destruct (pm_apart _ _ _ _ _ Hpm1 j np x (born q0 n r tf) Hx Hb Hj Hz). done.
  - intros j x Hx Hz. apply (fresh_root _ _ _ _ _ _ _ _ Hpm HnT Hx Hz).
  - right. split; [apply (fc_state _ _ _ _ _ _ _ _ Hch)|]. split; [done|]. by eexists np, q0, _.
Qed.

(** The whole of [fork]. *)
Lemma fork_run cur p l n ip K t fl T L : length l = Z.to_nat NPROC → l !! cur = Some p → state p ≠ UNUSED → pm_inv l K fl T L → 0 < n < 2 ^ 31 - 1 →
  (∀ i q, l !! i = Some q → state q = UNUSED → pagetable q = 0 ∧ sz q = 0 ∧ ofile q = replicate (length (ofile p)) 0) → files_ok (ofile p) t →
  run store (Cfg 0 [] l n ip) (K, t) (fork cur) (fork_result cur p l n K t fl T L) (λ _ _ _, False).
Proof.
  intros Hlen Hp Hst Hpm Hn Hun Hok. pose proof (pm_vm _ _ _ _ _ Hpm) as Hv. unfold fork.
  assert (pagetable p ≠ 0) as Hpz by (intros E; by destruct (pm_none _ _ _ _ _ Hpm cur p Hp E)). pose proof (pm_space _ _ _ _ _ Hpm cur p Hp Hpz) as Sp.
  assert (0 ≤ PGROUNDUP (sz p) / 4096) as Hpg by (pose proof (sp_size _ _ _ _ _ _ _ Sp); destruct (PGROUNDUP_le (sz p)) as (? & _); [lia|]; apply Z.div_pos; lia).
  eapply run_bind; [apply (allocproc_run ftable 0 [] l n ip K t fl T L); [split_and!; set_solver|done|done|intros i q Hq Hs; destruct (Hun i q Hq Hs); naive_solver|done]|].
  intros o k V [(-> & -> & -> & Hfull)|(np & q0 & Hq0 & Hs0 & _ & K1 & fl1 & T1 & L1 & -> & Ho)].
  { apply run_ret. exists fl, T, L, 0. split_and!; [done|apply others_refl|done..|]. left. split_and!; [done..|by left]. }
  destruct (Hun np q0 Hq0 Hs0) as (Hpt0 & Hsz0 & Hof0). destruct o as [j|].
  2:{ destruct Ho as (q & -> & Hq & _ & -> & -> & Hpm1 & Ho1 & Hless). apply run_ret. exists fl1, T, L, 0. split_and!; [done..|].
      left. split; [done|]. split; [done|]. split; [by eapply same_procs_unused|right; lia]. }
  destruct Ho as (-> & r & tf & -> & Hpm1 & Ho1 & HnT & Htf & used & Hfl & Hused). set (b := born q0 n r tf) in *. set (l1 := <[np := b]> l) in *.
  assert (np < length l)%nat as Hnp by by eapply lookup_lt_Some. assert (np ≠ cur) as Hne by (intros ->; simplify_eq; congruence).
  assert (l1 !! cur = Some p) as Hp1 by by unfold l1; rewrite list_lookup_insert_ne. assert (l1 !! np = Some b) as Hb by by apply list_lookup_insert_eq.
  apply (run_get_proc (get := store) _ _ _ _ _ _ _ p); [done|]. apply (run_get_proc (get := store) _ _ _ _ _ _ _ b); [done|].
  pose proof (pm_vm _ _ _ _ _ Hpm1) as Hv1. pose proof (pm_space _ _ _ _ _ Hpm1 cur p Hp1 Hpz) as Sp1.
  destruct (fresh_root _ _ _ _ _ _ _ _ Hpm HnT Hp Hpz) as [Hpr Htz]. assert (r ≠ 0) as Hrz.
  { intros ->. destruct (pm_none _ _ _ _ _ Hpm1 np b Hb eq_refl) as [? _]. done. }
  pose proof (pm_space _ _ _ _ _ Hpm1 np b Hb Hrz) as Sb. simpl in Sb. rewrite Hsz0 in Sb.
  destruct (pm_apart _ _ _ _ _ Hpm1 cur np p b Hp1 Hb) as [_ Hff]; [done|done|]. simpl in Hff.
  eapply run_kern; [apply (uvmcopy_others K1 fl1 T1 L1 (pagetable p) r (trapframe p) tf (sz p)); done|].
  intros res K2 (fl2 & T2 & L2 & Hv2 & Ho2 & [(-> & Sn & Hview & HnW)|(-> & Sn & Hless)]); cbn [Z.ltb]; simpl.
  2:{ eapply (fork_fail cur p l n ip np q0 r tf K t fl T L K1 fl1 T1 L1 K2 fl2 T2 L2); try done. right. rewrite Hfl, length_app. lia. }
  apply run_upd. rewrite (alter_at _ _ _ b) by done. unfold l1. rewrite list_insert_insert_eq.
  destruct (ot_own _ _ _ _ _ _ _ _ _ _ (Ho2 0) (trapframe p) Htz (sp_tf _ _ _ _ _ _ _ Sp1)) as [Hptf Hpm2].
  destruct (copy_frame K2 fl2 T2 L2 (trapframe p) tf) as (K3 & K4 & Hk3 & Hk4 & Hv4 & Htf4 & Ho4 & Hwords); [done|done|apply Sn|done|].
  eapply run_kern_Ok; [exact Hk3|]. eapply run_kern_Ok; [exact Hk4|].
  eapply run_bind; [eapply (fork_files_run _ _ _ _ _ _ _ _ _ _ (set_sz (sz p) b)); [set_solver|done|by apply list_lookup_insert_eq]|].
  intros [] k V [-> ->]. rewrite list_insert_insert_eq. apply idup_run. do 2 slot.
  eapply (fork_publish _ _ _ _ _ _ q0 _ K K4 _ fl T L fl2 T2 L2 K1 fl1 T1 L1 r tf); try done.
  - eapply (others_drop _ tf); [eapply others_trans; [exact Ho1|apply Ho2]|apply Ho4|by right].
  - eapply others_trans; [apply Ho2|apply Ho4].
  - destruct Sn. split; done.
  - split; [done| |done| | |exact HnW|done].
    + split; [|done]. simpl. by rewrite Hof0, overlay_zeros.
    + intros va. simpl. rewrite (ot_view _ _ _ _ _ _ _ _ _ _ (Ho4 0) r va), Hview by done. by apply (ot_view _ _ _ _ _ _ _ _ _ _ Ho1).
    + intros i Hi. simpl. rewrite Hwords by done. destruct (i =? 14); [done|]. rewrite (tf_word_same K1 K2), (tf_word_same K K1); try done.
      * apply (ow_ok _ _ _ _ _ (sp_tf _ _ _ _ _ _ _ Sp)).
      * by apply (ot_own _ _ _ _ _ _ _ _ _ _ Ho1), (sp_tf _ _ _ _ _ _ _ Sp).
      * apply (ow_ok _ _ _ _ _ (sp_tf _ _ _ _ _ _ _ Sp)).
Qed.

End fork.

#[local] Existing Instance demo_kernel.
#[local] Existing Instance demo_texts.

