(* ===== verification/WaitSpec.v ===== *)
(** * Waiting for a child, and its memory

    [wait] of [kernel/proc.c] gives the status to the caller and frees the
    child's slot, address space and trap frame; all processes keep theirs. *)

From S2P Require Import Prelude Riscv Mem CString Kalloc Vm VmTree VmOps VmFree Cow KvmSpec Spinlock Proc ProcSpec ProcTable Run Space ProcMem.
From S2P Require Import Bio Log Fs Pipe File UserInit.

(** ** [copyout], as a change of one address space *)

Section copyout.
Context `{KernelImage}.

Lemma spares_others s fl T L s' fl' L' r bs a e : spares T s fl L s' fl' L' → (∀ r' va, view s' L' r' va = view_write (view s L) r a bs r' va) → others r e s fl T L s' fl' T L'.
Proof.
  intros [Sp Sl Sh] Hv. split; [done|auto|auto| |].
  - intros r' va Hr. rewrite Hv. unfold view_write. rewrite decide_False; [done|]. by intros [].
  - intros q _ [Q1 Q2 Q3 Q4 Q5]. destruct (Sp q) as ([_ A2 A3 A4] & R & M); [done|]. split; [split; try done; by rewrite R|done].
Qed.
Lemma spares_space s fl T L s' fl' L' r tf sz : spares T s fl L s' fl' L' → space s fl T L r tf sz → space s' fl' T L' r tf sz.
Proof.
  intros [Sp Sl Sh] [S1 S2 S3 S4 S5 [Q1 Q2 Q3 Q4 Q5]]. destruct va_high as (_ & _ & Hle & _). split; [done|done| |by rewrite Sh|by rewrite Sh|].
  - intros va Hva. rewrite Sl. by apply S3.
  - destruct (Sp tf) as ([_ A2 A3 A4] & R & M); [done|]. split; try done. by rewrite R.
Qed.

(** The first [k] bytes of [src] are stored at [a] in address space [r]. *)
Record stored (r a : Z) (src : list byte) (k : nat) (s : kst) (fl : list Z) (T : tables) (L : leaves) (s' : kst) (fl' : list Z) (L' : leaves) : Prop := {
  sd_others e : others r e s fl T L s' fl' T L';
  sd_space tf sz : space s fl T L r tf sz → space s' fl' T L' r tf sz;
  sd_view va : view s' L' r va = view_write (view s L) r a (take k src) r va;
}.

Lemma copyout_stored s fl T L r a src : vm_inv s fl T L → T !! (r, []) = Some r → 0 ≤ a < 2 ^ 64 →
  wp (copyout r a src) s (λ res s', ∃ fl' L' k, vm_inv s' fl' T L' ∧ stored r a src k s fl T L s' fl' L' ∧ (res = 0 ∧ k = length src ∨ res = -1 ∧ (k < length src)%nat)).
Proof.
  intros Hv HT Ha. eapply wp_mono; [by apply (copyout_spec s fl T L)|]. intros res s' (fl' & L' & k & Hv' & Hsp & Hview & Hres). exists fl', L', k. split; [done|]. split.
  - split; [intros e; by eapply spares_others|intros tf sz; by eapply spares_space|intros va; apply Hview].
  - destruct Hres as [[-> ->]|(-> & Hk & _)]; [by left|by right].
Qed.
End copyout.

Section wait.
Context {F : Type} `{!FileSys F} `{!KernelImage} `{!KernelText}.
Implicit Types s : pst F.
Local Abbreviation store := (kfiles (F := F) (λ _, ())).
#[local] Existing Instance kfiles_store.

(** What [wait] does once it has found the zombie [p] in slot [z]: the status goes
    to [addr], if that is not null, and then the child is freed. *)
Definition reaped (l : list proc) (n : Z) (ip : option nat) (cur : nat) (me : proc) (addr : Z) (z : nat) (p : proc) (K : kst) (fl : list Z) (T : tables) (L : leaves)
    (v : Z) (k : cfg) (K' : kst) : Prop :=
  ∃ fl' T' L' K1 fl1 L1 j, let status := le_encode 4 (u32 (xstate p)) in
    stored (pagetable me) addr status j K fl T L K1 fl1 L1 ∧ pm_inv (c_tab k) K' fl' T' L' ∧
    ((v = pid p ∧ (addr ≠ 0 → j = length status) ∧ (addr = 0 → j = 0%nat) ∧ k = Cfg 0 [] (alter freed z l) n ip ∧
        others (pagetable p) (trapframe p) K1 fl1 T L1 K' fl' T' L' ∧ ∀ path, T' !! (pagetable p, path) = None) ∨
     (v = -1 ∧ addr ≠ 0 ∧ (j < length status)%nat ∧ k = Cfg 0 [] l n ip ∧ K' = K1 ∧ fl' = fl1 ∧ T' = T ∧ L' = L1)).

Lemma stored_none r a src K fl T L : stored r a src 0 K fl T L K fl L.
Proof. split; [intros; apply others_refl|done|]. intros va. by rewrite take_0, view_write_nil. Qed.

(** The child is in slot [z], and the status is stored. *)
Lemma pm_stored l cur me K fl T L K1 fl1 L1 a src j : pm_inv l K fl T L → l !! cur = Some me → pagetable me ≠ 0 → vm_inv K1 fl1 T L1 →
  stored (pagetable me) a src j K fl T L K1 fl1 L1 → pm_inv l K1 fl1 T L1.
Proof.
  intros Hpm Hme Hz Hv1 [So Ss Sv]. rewrite <- (list_insert_id l cur me Hme). eapply (pm_change _ _ me _ (pagetable me) 0); [exact Hpm|done|done|apply So|by right| |].
  - intros i q Hi Hq Hqz. destruct (pm_apart _ _ _ _ _ Hpm i cur q me Hq Hme Hi Hqz). split; [done|]. by destruct (space_ne_0 _ _ _ _ _ _ _ (pm_vm _ _ _ _ _ Hpm) (pm_space _ _ _ _ _ Hpm i q Hq Hqz)).
  - right. split; [done|]. split; [by apply Ss, (pm_space _ _ _ _ _ Hpm cur)|]. intros i q Hi Hq Hqz. by destruct (pm_apart _ _ _ _ _ Hpm i cur q me Hq Hme Hi Hqz).
Qed.

Lemma reap_run l n ip cur me addr z p K fl T L : l !! cur = Some me → pagetable me ≠ 0 → l !! z = Some p → pagetable p ≠ 0 → pm_inv l K fl T L → 0 ≤ addr < 2 ^ 64 →
  run store (Cfg 2 [LProc z; LWait] l n ip) (K, ())
    (r ← (if addr =? 0 then mret 0 else vm (copyout (pagetable me) addr (le_encode 4 (u32 (xstate p)))));
     if r <? 0 then release (LProc z);; release LWait;; mret (Some (-1), true)
     else freeproc z;; release (LProc z);; release LWait;; mret (Some (pid p), true))
    (λ o k V, ∃ v, o = (Some v, true) ∧ reaped l n ip cur me addr z p K fl T L v k V.1) (λ _ _ _, False).
Proof.
  intros Hme Hmz Hp Hpz Hpm Ha. pose proof (pm_vm _ _ _ _ _ Hpm) as Hv. set (status := le_encode 4 (u32 (xstate p))).
  apply (run_bind _ _ _ _ (λ r k V, k = Cfg 2 [LProc z; LWait] l n ip ∧ ∃ K1 fl1 L1 j, V = (K1, ()) ∧ vm_inv K1 fl1 T L1 ∧ stored (pagetable me) addr status j K fl T L K1 fl1 L1 ∧
    (r = 0 ∧ (addr ≠ 0 → j = length status) ∧ (addr = 0 → j = 0%nat) ∨ r = -1 ∧ addr ≠ 0 ∧ (j < length status)%nat))).
  { destruct (Z.eqb_spec addr 0) as [->|Hz].
    - apply run_ret. split; [done|]. exists K, fl, L, 0%nat. split_and!; [done|done|apply stored_none|]. by left.
    - apply run_last. eapply run_kern; [apply (copyout_stored K fl T L); [done|apply (pm_space _ _ _ _ _ Hpm cur me Hme Hmz)|done]|].
      intros r K1 (fl1 & L1 & j & Hv1 & Hs & Hr). apply run_ret. split; [done|]. exists K1, fl1, L1, j. split_and!; [done..|]. destruct Hr as [[-> ->]|[-> ?]]; [by left|by right]. }
  intros r k V (-> & K1 & fl1 & L1 & j & -> & Hv1 & Hs & Hr). pose proof (pm_stored _ _ _ _ _ _ _ _ _ _ _ _ _ Hpm Hme Hmz Hv1 Hs) as Hpm1.
  assert (LProc z ∉ [LWait]) as Hnz by set_solver. destruct Hr as [(-> & Hj1 & Hj0)|(-> & Haz & Hj)]; cbn [Z.ltb Z.compare].
  2:{ do 2 (apply run_release; [done || apply not_elem_of_nil|]). apply run_ret. exists (-1). split; [done|]. exists fl1, T, L1, K1, fl1, L1, j. split; [done|]. split; [done|]. right. by split_and!. }
  pose proof (pm_space _ _ _ _ _ Hpm1 z p Hp Hpz) as Sp. eapply freeproc_run; [done|done|split; right; [apply Sp|exact Sp]|].
  intros K2 fl2 T2 L2 Hv2 Ho HT2 _. do 2 (apply run_release; [done || apply not_elem_of_nil|]). apply run_ret. exists (pid p). split; [done|].
  exists fl2, T2, L2, K1, fl1, L1, j. split; [done|]. split; [|left; by split_and!]. simpl. rewrite (alter_at _ _ _ p Hp).
  eapply (pm_change _ _ p _ (pagetable p) (trapframe p)); [exact Hpm1|done|done|done|by right| |left; by split_and!].
  intros i q Hi Hq Hqz. by destruct (pm_apart _ _ _ _ _ Hpm1 i z q p Hq Hp Hi Hqz).
Qed.

Lemma wait_scan_run c i hk l n ip cur me addr z p K fl T L : l !! cur = Some me → pagetable me ≠ 0 → l !! z = Some p → zombie_child cur p → pagetable p ≠ 0 →
  (i ≤ z)%nat → (i + c = length l)%nat → (∀ j q, l !! j = Some q → zombie_child cur q → (z ≤ j)%nat) → pm_inv l K fl T L → 0 ≤ addr < 2 ^ 64 →
  run store (Cfg 1 [LWait] l n ip) (K, ()) (wait_scan c i cur addr hk) (λ o k V, ∃ v, o = (Some v, true) ∧ reaped l n ip cur me addr z p K fl T L v k V.1) (λ _ _ _, False).
Proof.
  intros Hme Hmz Hp [Hpar Hst] Hpz Hiz Hc Hmin Hpm Ha. assert (z < length l)%nat as Hzl by by eapply lookup_lt_Some. assert (∀ j, LProc j ∉ [LWait]) as Hnw by set_solver.
  revert i hk Hiz Hc. induction c as [|c IH]; intros i hk Hiz Hc; [lia|]. cbn [wait_scan]. destruct (decide (i = z)) as [->|Hne].
  - apply (run_get_proc (get := store) _ _ _ _ _ _ _ p); [done|]. rewrite decide_True by done. apply run_acquire; [apply Hnw|]. rewrite decide_True by done.
    apply (run_get_proc (get := store) _ _ _ _ _ _ _ me); [done|]. by apply reap_run.
  - destruct (lookup_lt_is_Some_2 l i) as [q Hq]; [lia|]. apply (run_get_proc (get := store) _ _ _ _ _ _ _ q); [done|]. case_decide as Hqp; [|apply IH; lia].
    apply run_acquire; [apply Hnw|]. rewrite decide_False; [apply run_release; [apply Hnw|]; apply IH; lia|]. intros Hqs. specialize (Hmin i q Hq (conj Hqp Hqs)). lia.
Qed.

Lemma wait_run l n ip cur me addr z p K fl T L : length l = Z.to_nat NPROC → l !! cur = Some me → pagetable me ≠ 0 → l !! z = Some p → zombie_child cur p → pagetable p ≠ 0 →
  (∀ j q, l !! j = Some q → zombie_child cur q → (z ≤ j)%nat) → pm_inv l K fl T L → 0 ≤ addr < 2 ^ 64 →
  run store (Cfg 0 [] l n ip) (K, ()) (wait cur addr) (λ v k V, reaped l n ip cur me addr z p K fl T L v k V.1) (λ _ _ _, False).
Proof.
  intros Hlen Hme Hmz Hp Hz Hpz Hmin Hpm Ha. unfold wait, wait_body. apply run_acquire; [apply not_elem_of_nil|].
  eapply run_bind; [by apply (wait_scan_run _ _ _ _ _ _ _ me addr z p K fl T L); try done; lia|]. intros o k [K' []] (v & -> & Hr). by apply run_ret.
Qed.

(** Process [q] has the same memory and the same saved registers. *)
Definition same_process (q : proc) (K : kst) (L : leaves) (K' : kst) (L' : leaves) : Prop :=
  (∀ va, view K' L' (pagetable q) va = view K L (pagetable q) va) ∧ ∀ w, 0 ≤ w < tf_words → tf_word K' (trapframe q) w = tf_word K (trapframe q) w.

Lemma others_same r e q K fl T L K' fl' T' L' : others r e K fl T L K' fl' T' L' → space K fl T L (pagetable q) (trapframe q) (sz q) → pagetable q ≠ r → trapframe q ≠ e →
  same_process q K L K' L'.
Proof.
  intros Ho Sq Hr He. split; [intros va; by apply (ot_view _ _ _ _ _ _ _ _ _ _ Ho)|]. intros w Hw. pose proof (sp_tf _ _ _ _ _ _ _ Sq) as Htf.
  apply tf_word_same; [apply Htf| |done]. by apply (ot_own _ _ _ _ _ _ _ _ _ _ Ho).
Qed.

End wait.

(** ** A parent and its zombie *)

#[local] Existing Instance demo_kernel.
#[local] Existing Instance demo_texts.

(** The first process, and in the next slot [x], a child of it that is done. *)
Lemma demo_family : ∃ (s : pst (fstate unit)) fl T L q x, thr false 0 [] s ∧ pm_inv (procs s) (kern s) fl T L ∧
  procs s = q :: x :: replicate 62 blank_proc ∧ state q = RUNNABLE ∧ parent q = None ∧ state x = ZOMBIE ∧ parent x = Some 0%nat ∧ pid x = 2.
Proof.
  destruct demo_ready as (k & fl & Hs & Hfl). destruct (userinit_ok false (demo_fresh k) fl Hs ltac:(lia)) as (s & fl' & T & L & q & _ & O & _ & used & Hu & Hul).
  destruct (sd_procs _ _ _ _ _ _ _ O) as (p & Hp & Hl & Hf). destruct (sd_init _ _ _ _ _ _ _ O) as [Hi Hn]. apply lookup_replicate in Hp as [-> _].
  assert (procs s = q :: blank_proc :: replicate 62 blank_proc) as Hps by (rewrite Hl; reflexivity). pose proof (fp_state _ _ _ _ _ Hf) as (Hst & _ & _ & Hpar & _).
  assert (pagetable q ≠ 0) as Hqz. { intros E. destruct (pm_none _ _ _ _ _ (sd_mem _ _ _ _ _ _ _ O) 0%nat q) as [E' _]; [by rewrite Hps|done|]. by rewrite Hst in E'. }
  pose proof (allocproc_run (F := fstate unit) (λ _, ()) 0 [] (procs s) 2 (Some 0%nat) (kern s) () fl' T L) as Hr.
  specialize (Hr ltac:(split_and!; set_solver) ltac:(by rewrite Hps) ltac:(apply O)). specialize (Hr ltac:(rewrite Hps; intros [|[|i]] y Hy Hyu;
    [injection Hy as <-; congruence|by injection Hy as <-|by apply lookup_replicate in Hy as [-> _]]) ltac:(lia)).
  assert (at_cfg false (Cfg 0 [] (procs s) 2 (Some 0%nat)) s) as Hat by (split_and!; [apply O|done|by rewrite Hn|done]). specialize (Hr false s Hat eq_refl).
  destruct (allocproc s) as [o s2| | |ch s2|]; [|done|done|by destruct Hr as (? & _ & [])|done]. destruct Hr as (k2 & _ & [(_ & _ & _ & Hfull)|(i & y & Hy & Hyu & Hbefore & K2 & fl2 & T2 & L2 & _ & Ho)]).
  { by destruct (Hfull 1%nat blank_proc); [by rewrite Hps|]. }
  assert (i = 1%nat) as ->. { destruct i as [|[|i]]; [rewrite Hps in Hy; injection Hy as <-; congruence|done|]. by destruct (Hbefore 1%nat blank_proc); [lia|by rewrite Hps|]. }
  rewrite Hps in Hy. injection Hy as <-. destruct o as [j|]; [|destruct Ho as (? & _ & _ & _ & _ & _ & _ & _ & Hless); rewrite Hu, length_app in Hfl; lia].
  destruct Ho as (_ & r & tf & _ & Hpm & _). set (b := born blank_proc 2 r tf) in *. rewrite Hps in Hpm. change (<[1%nat := b]> (q :: blank_proc :: replicate 62 blank_proc)) with (q :: b :: replicate 62 blank_proc) in Hpm.
  assert (pagetable b ≠ 0) as Hbz. { intros E. by destruct (pm_none _ _ _ _ _ Hpm 1%nat b eq_refl E). }
  set (x := set_parent (Some 0%nat) (set_state ZOMBIE b)). exists (set_kern K2 (set_procs (q :: x :: replicate 62 blank_proc) s)), fl2, T2, L2, q, x.
  split; [apply O|]. split; [|by split_and!]. change (q :: x :: replicate 62 blank_proc) with (<[1%nat := x]> (q :: b :: replicate 62 blank_proc)).
  eapply (pm_change _ _ b _ (pagetable b) 0); [exact Hpm|done|apply Hpm|apply others_refl|by right| |right; split; [done|]; split; [apply (pm_space _ _ _ _ _ Hpm 1%nat b eq_refl Hbz)|]].
  - intros i y Hi1 Hy Hyz. destruct (pm_apart _ _ _ _ _ Hpm i 1%nat y b Hy eq_refl Hi1 Hyz). split; [done|]. by destruct (space_ne_0 _ _ _ _ _ _ _ (pm_vm _ _ _ _ _ Hpm) (pm_space _ _ _ _ _ Hpm i y Hy Hyz)).
  - intros i y Hi1 Hy Hyz. by destruct (pm_apart _ _ _ _ _ Hpm i 1%nat y b Hy eq_refl Hi1 Hyz).
Qed.

