(* ===== verification/GrowSpec.v ===== *)
(** * Growing and shrinking a process

    [growproc] of [kernel/proc.c]: the pages a process gains are zeroed and its
    own, those it gives up are gone from its address space, and nothing else
    changes. *)

From S2P Require Import Prelude Riscv Mem CString Kalloc Vm VmTree VmOps VmFree Cow KvmSpec Spinlock Proc ProcSpec ProcTable Run Space ProcMem.
From S2P Require Import Bio Log Fs Pipe File UserInit WaitSpec.

Section spaces.
Context `{KernelImage}.

Lemma alloced_leaf r lo hi perm s fl T L s' fl' T' L' r' va : alloced r lo hi perm s fl T L s' fl' T' L' → ¬ (r' = r ∧ lo ≤ va < hi) → L' !! (r', va) = L !! (r', va).
Proof. intros A Hn. apply option_eq. intros pte. rewrite <- (al_out _ _ _ _ _ _ _ _ _ _ _ _ A), lookup_unmap_range. tauto. Qed.

Lemma alloced_others r lo hi perm s fl T L s' fl' T' L' : alloced r lo hi perm s fl T L s' fl' T' L' → vm_inv s fl T L → vm_inv s' fl' T' L' → 0 ≤ perm < 1024 →
  ∀ e, others r e s fl T L s' fl' T' L'.
Proof.
  intros A Hv Hv' Hperm e. pose proof A as [Af As An _ Ai Ar Am]. apply others_frame; [done|done| | |].
  - intros k Hk. destruct (T' !! k) as [p|] eqn:E; [destruct (An _ _ E) as [?|(_ & ? & _)]; done|]. symmetry. by eapply lookup_weaken_None.
  - intros r' va Hr. eapply alloced_leaf; [done|]. by intros [].
  - intros q _ Ho. pose proof Ho as [Hok Hnf HnT Hnr Hq]. split; [done|by intros ?%Af| | |by rewrite Ar].
    + intros k Hk. destruct (An _ _ Hk) as [?|(_ & _ & _ & ?)]; [by eapply HnT|done].
    + apply urefs_0. intros r' va pte HL Hva. destruct (decide (r' = r ∧ lo ≤ va < hi)) as [[-> Hr]|Hn].
      * destruct (Ai va Hr) as (p & Hp & Hpf & _ & HL' & _); [by eapply leaf_aligned; [apply Hv'|]|]. rewrite HL in HL'. injection HL' as ->.
        rewrite mk_pte_PA by (done || by apply page_ok_pa_ok). congruence.
      * rewrite (alloced_leaf _ _ _ _ _ _ _ _ _ _ _ _ _ _ A Hn) in HL. by eapply owned_unref.
Qed.

Lemma shrink_others r lo hi s fl T L s' freed : shrink (targets L r lo hi) s fl T s' freed → vm_inv s fl T L → vm_inv s' (freed ++ fl) T (unmap_range r lo hi L) → hi ≤ TRAPFRAME →
  ∀ e, others r e s fl T L s' (freed ++ fl) T (unmap_range r lo hi L).
Proof.
  intros [Sf Sr Sm] Hv Hv' Hhi e.
  assert (∀ r' va, r' ≠ r → unmap_range r lo hi L !! (r', va) = L !! (r', va)) as HL by (intros r' va Hr; apply option_eq; intros pte; rewrite lookup_unmap_range; naive_solver).
  assert (∀ q, urefs L q = 0 → ¬ targets L r lo hi q) as Hnt.
  { intros q Hq (va & pte & Hr & HLp & E). assert (va < TRAPFRAME) as Hva by lia. pose proof (urefs_pos _ _ _ _ HLp Hva). subst q. lia. }
  split; [done|intros; by rewrite HL|auto| |].
  - intros r' va Hr. unfold view. rewrite HL by done. destruct (L !! (r', pg va)) as [pte|] eqn:E; [|done]. simpl. destruct (band pte PTE_U) eqn:EU; [|done].
    destruct (view_page _ _ _ _ _ _ _ Hv E EU) as (Hpg & _ & HnT). rewrite <- HL in E by done. destruct (view_page _ _ _ _ _ _ _ Hv' E EU) as (_ & Hnf & _).
    f_equal. apply Sm; rewrite Hpg; [|done]. intros ?. apply Hnf, elem_of_app. by left.
  - intros q _ [Hok Hnf HnT Hnr Hq]. assert (q ∉ freed) as Hqf by (intros ?%Sf; by eapply Hnt). split; [|intros x <-; by apply Sm].
    split; [done|by intros [?|?]%elem_of_app|done| |by rewrite Sr by auto].
    apply urefs_0. intros r' va pte [HLp _]%lookup_unmap_range Hva E. pose proof (urefs_pos _ _ _ _ HLp Hva). rewrite E in *. lia.
Qed.

(** The memory of a process after its size went from [sz] to [sz']: what it had,
    up to the new end, and zeros after that. *)
Definition resized (v : Z → option byte) (sz sz' va : Z) : option byte :=
  if va <? PGROUNDUP sz' then if PGROUNDUP sz <=? va then Some x00 else v va else None.

Lemma PGROUNDUP_mono a b : 0 ≤ a ≤ b → b ≤ TRAPFRAME → PGROUNDUP a ≤ PGROUNDUP b.
Proof. intros Ha Hb. assert (TRAPFRAME = 0x3fffffe000) as HT by done. rewrite !PGROUNDUP_alt by lia. Z.div_mod_to_equations. lia. Qed.
Lemma pg_below va hi : hi mod 4096 = 0 → pg va < hi ↔ va < hi.
Proof. intros Hm. unfold pg. Z.div_mod_to_equations. lia. Qed.

Lemma alloced_space r perm s fl T L s' fl' T' L' tf sz sz' : alloced r (PGROUNDUP sz) (PGROUNDUP sz') perm s fl T L s' fl' T' L' → vm_inv s fl T L → vm_inv s' fl' T' L' → 0 ≤ perm < 1024 →
  space s fl T L r tf sz → sz ≤ sz' ≤ TRAPFRAME → space s' fl' T' L' r tf sz'.
Proof.
  intros A Hv Hv' Hperm [S1 S2 S3 S4 S5 S6] Hsz. destruct va_high as (_ & _ & Hle & _). pose proof (PGROUNDUP_mono sz sz' ltac:(lia) ltac:(lia)) as Hmono.
  destruct (PGROUNDUP_le sz ltac:(lia)) as (P1 & P2 & P3), (PGROUNDUP_le sz' ltac:(lia)) as (Q1 & Q2 & Q3). split; [by eapply lookup_weaken, (al_sub _ _ _ _ _ _ _ _ _ _ _ _ A)|lia| | | |].
  - intros va Hva. destruct (decide (PGROUNDUP sz ≤ va < PGROUNDUP sz')) as [Hr|Hn].
    + split; [intros [pte HL]; split; [lia|]; by eapply leaf_aligned; [apply Hv'|]|]. intros [_ Hal]. destruct (al_in _ _ _ _ _ _ _ _ _ _ _ _ A va Hr Hal) as (p & _ & _ & _ & -> & _). by eexists.
    + rewrite (alloced_leaf _ _ _ _ _ _ _ _ _ _ _ _ r va A) by tauto. rewrite S3 by done. lia.
  - by rewrite (alloced_leaf _ _ _ _ _ _ _ _ _ _ _ _ r TRAMPOLINE A) by lia.
  - by rewrite (alloced_leaf _ _ _ _ _ _ _ _ _ _ _ _ r TRAPFRAME A) by lia.
  - apply (ot_own _ _ _ _ _ _ _ _ _ _ (alloced_others _ _ _ _ _ _ _ _ _ _ _ _ A Hv Hv' Hperm 0)); [|done]. apply page_ok_ne_0, S6.
Qed.

Lemma alloced_view r xperm s fl T L s' fl' T' L' tf sz sz' va : let perm := Z.lor (Z.lor PTE_R PTE_U) xperm in
  alloced r (PGROUNDUP sz) (PGROUNDUP sz') perm s fl T L s' fl' T' L' → vm_inv s fl T L → vm_inv s' fl' T' L' → 0 ≤ xperm < 1024 →
  space s fl T L r tf sz → sz ≤ sz' ≤ TRAPFRAME → view s' L' r va = resized (view s L r) sz sz' va.
Proof.
  intros perm A Hv Hv' Hx Sp Hsz. assert (0 ≤ perm < 1024) as Hperm by (apply flags_lor; [vm_compute; split; congruence|done]).
  pose proof (alloced_space _ _ _ _ _ _ _ _ _ _ _ _ _ A Hv Hv' Hperm Sp Hsz) as Sp'. pose proof (sp_size _ _ _ _ _ _ _ Sp) as Hs.
  destruct (PGROUNDUP_le sz ltac:(lia)) as (P1 & P2 & P3), (PGROUNDUP_le sz' ltac:(lia)) as (Q1 & Q2 & Q3).
  unfold resized. destruct (Z.ltb_spec va (PGROUNDUP sz')) as [Hlt|Hge]; [|eapply space_view; [exact Hv'|exact Sp'|by left]]. destruct (Z.leb_spec (PGROUNDUP sz) va) as [Hle|Hlt2].
  - assert (PGROUNDUP sz ≤ pg va < PGROUNDUP sz') as Hpg by (split; [unfold pg; Z.div_mod_to_equations; lia|by apply pg_below]).
    destruct (al_in _ _ _ _ _ _ _ _ _ _ _ _ A (pg va) Hpg (pg_aligned va)) as (p & Hp & _ & _ & HL & Hz). unfold view. rewrite HL. simpl.
    pose proof (page_ok_pa_ok _ Hp). rewrite mk_pte_band, mk_pte_PA by (done || flag_bounds). assert (band perm PTE_U = true) as ->.
    { unfold perm, band. rewrite Z.land_comm, Z.land_lor_distr_r, Z.land_lor_distr_r. change (Z.land PTE_U PTE_R) with 0. change (Z.land PTE_U PTE_U) with 16. rewrite Z.lor_0_l.
      destruct (Z.eqb_spec (Z.lor 16 (Z.land PTE_U xperm)) 0) as [E|]; [|done]. apply Z.lor_eq_0_iff in E as [? _]. done. }
    simpl. rewrite Hz; [done|]. pose proof (page_ok_range _ Hp) as (?&?&?). apply pg_add; [done|]. by apply Z.mod_pos_bound.
  - apply (view_ext s fl T); [done|apply A|]. rewrite (alloced_leaf _ _ _ _ _ _ _ _ _ _ _ _ r (pg va) A); [done|]. intros [_ [Hr _]]. unfold pg in Hr. Z.div_mod_to_equations. lia.
Qed.

(** The pages from [lo] on are gone. *)
Lemma unmapped_space r lo hi s fl T L s' freed tf sz sz' : shrink (targets L r lo hi) s fl T s' freed → vm_inv s fl T L → vm_inv s' (freed ++ fl) T (unmap_range r lo hi L) →
  space s fl T L r tf sz → 0 ≤ sz' ≤ sz → lo = PGROUNDUP sz' → hi = PGROUNDUP sz → space s' (freed ++ fl) T (unmap_range r lo hi L) r tf sz' ∧
  ∀ va, view s' (unmap_range r lo hi L) r va = resized (view s L r) sz sz' va.
Proof.
  intros Sh Hv Hv' Sp Hsz -> ->. pose proof Sp as [S1 S2 S3 S4 S5 S6]. destruct va_high as (_ & _ & Hle & _). pose proof (PGROUNDUP_mono sz' sz ltac:(lia) ltac:(lia)) as Hmono.
  destruct (PGROUNDUP_le sz ltac:(lia)) as (P1 & P2 & P3), (PGROUNDUP_le sz' ltac:(lia)) as (Q1 & Q2 & Q3).
  assert (space s' (freed ++ fl) T (unmap_range r (PGROUNDUP sz') (PGROUNDUP sz) L) r tf sz') as Sp'.
  { split; [done|lia| | | |].
    - intros va Hva. rewrite lookup_unmap_range_eq. case_decide; [split; [by intros []|lia]|]. rewrite S3 by done. lia.
    - rewrite lookup_unmap_range_eq. by rewrite decide_False by lia.
    - rewrite lookup_unmap_range_eq. by rewrite decide_False by lia.
    - apply (ot_own _ _ _ _ _ _ _ _ _ _ (shrink_others _ _ _ _ _ _ _ _ _ Sh Hv Hv' P3 0)); [|done]. apply page_ok_ne_0, S6. }
  split; [done|]. intros va. unfold resized. destruct (Z.ltb_spec va (PGROUNDUP sz')) as [Hlt|Hge]; [|eapply space_view; [exact Hv'|exact Sp'|by left]].
  destruct (Z.leb_spec (PGROUNDUP sz) va); [lia|]. unfold view. rewrite lookup_unmap_range_eq. assert (pg va < PGROUNDUP sz') as Hpg by by apply pg_below. rewrite decide_False by lia.
  destruct (L !! (r, pg va)) as [pte|] eqn:E; [|done]. simpl. destruct (band pte PTE_U) eqn:EU; [|done]. destruct (view_page _ _ _ _ _ _ _ Hv E EU) as (Hp & _ & HnT).
  assert (unmap_range r (PGROUNDUP sz') (PGROUNDUP sz) L !! (r, pg va) = Some pte) as E' by by rewrite lookup_unmap_range_eq, decide_False by lia.
  destruct (view_page _ _ _ _ _ _ _ Hv' E' EU) as (_ & Hnf & _). f_equal. apply (sh_mem _ _ _ _ _ _ Sh); rewrite Hp; [|done]. intros ?. apply Hnf, elem_of_app. by left.
Qed.
End spaces.

Section grow.
Context {F : Type} `{!FileSys F} `{!KernelImage} `{!KernelText}.
Implicit Types s : pst F.
Local Abbreviation store := (kfiles (F := F) (λ _, ())).
#[local] Existing Instance kfiles_store.

(** Address space [r] goes from [sz] bytes to [sz']; the others are as they were. *)
Record grown (r sz sz' : Z) (K : kst) (fl : list Z) (T : tables) (L : leaves) (K' : kst) (fl' : list Z) (T' : tables) (L' : leaves) : Prop := {
  gr_vm : vm_inv K' fl' T' L';
  gr_others e : others r e K fl T L K' fl' T' L';
  gr_space tf : space K fl T L r tf sz → space K' fl' T' L' r tf sz';
  gr_view va : view K' L' r va = resized (view K L r) sz sz' va;
}.

Lemma resized_same K fl T L r tf sz va : vm_inv K fl T L → space K fl T L r tf sz → resized (view K L r) sz sz va = view K L r va.
Proof.
  intros Hv Sp. unfold resized. destruct (Z.ltb_spec va (PGROUNDUP sz)); [destruct (Z.leb_spec (PGROUNDUP sz) va); [lia|done]|].
  symmetry. eapply space_view; [exact Hv|exact Sp|by left].
Qed.
Lemma space_grown K fl T L r tf sz : vm_inv K fl T L → space K fl T L r tf sz → grown r sz sz K fl T L K fl T L.
Proof. intros Hv Sp. split; [done|intros; apply others_refl|done|]. intros va. by rewrite (resized_same _ _ _ _ _ _ _ _ Hv Sp). Qed.

Lemma uvmalloc_grown K fl T L r tf sz sz' : vm_inv K fl T L → space K fl T L r tf sz → sz < sz' ≤ TRAPFRAME →
  wp (uvmalloc r sz sz' PTE_W) K (λ res K', ∃ fl' T' L', res = sz' ∧ grown r sz sz' K fl T L K' fl' T' L' ∨
    res = 0 ∧ grown r sz sz K fl T L K' fl' T' L' ∧ Z.of_nat (length fl) ≤ 3 * ((PGROUNDUP sz' - PGROUNDUP sz) / 4096)).
Proof.
  intros Hv Sp Hsz. pose proof (sp_size _ _ _ _ _ _ _ Sp) as Hs. destruct (PGROUNDUP_le sz ltac:(lia)) as (P1 & P2 & P3).
  assert (0 ≤ PTE_W < 1024) as HW by (vm_compute; split; congruence). assert (0 ≤ Z.lor (Z.lor PTE_R PTE_U) PTE_W < 1024) as Hperm by (vm_compute; split; congruence).
  destruct (uvmalloc_spec K fl T L r sz sz' PTE_W) as (res & K' & fl' & T' & L' & E & Hv' & Hres); [done|apply Sp|done|lia|lia| |].
  { intros va Hva. destruct (L !! (r, va)) eqn:EL; [|done]. destruct (sp_user _ _ _ _ _ _ _ Sp va ltac:(lia)) as [HL _]. destruct HL; [by rewrite EL|lia]. }
  unfold wp. rewrite E. exists fl', T', L'. destruct Hres as [[-> A]|(-> & -> & A & Hless)]; [left|right; split; [done|split; [|done]]]; [split; [done|]|]; (split; [done|by eapply alloced_others| |]).
  - intros tf0 Sp0. eapply alloced_space; [exact A|done|done|done|done|lia].
  - intros va. eapply alloced_view; [exact A|done|done|done|exact Sp|lia].
  - intros tf0 Sp0. eapply alloced_space; [exact A|done|done|done|done|lia].
  - intros va. eapply alloced_view; [exact A|done|done|done|exact Sp|lia].
Qed.

Lemma uvmdealloc_grown K fl T L r tf sz new : vm_inv K fl T L → space K fl T L r tf sz → 0 ≤ new →
  wp (uvmdealloc r sz new) K (λ res K', res = Z.min sz new ∧ ∃ fl' T' L', grown r sz (Z.min sz new) K fl T L K' fl' T' L').
Proof.
  intros Hv Sp Hnew. pose proof (sp_size _ _ _ _ _ _ _ Sp) as Hs. destruct (PGROUNDUP_le sz ltac:(lia)) as (P1 & P2 & P3). destruct (Z_lt_ge_dec new sz) as [Hlt|Hge].
  2:{ rewrite Z.min_l by lia. unfold uvmdealloc. destruct (Z_geb_spec0 new sz) as [_|]; [|lia]. unfold wp. split; [done|]. exists fl, T, L. by eapply space_grown. }
  destruct (PGROUNDUP_le new ltac:(lia)) as (Q1 & Q2 & Q3). rewrite Z.min_r by lia.
  destruct (uvmdealloc_spec K fl T L r sz new) as (K' & freed & E & Hv' & Sh); [done|lia|lia| |].
  { intros va Hva Hal. apply (sp_user _ _ _ _ _ _ _ Sp); [lia|]. split; [lia|done]. }
  rewrite Z.min_r in E by lia. destruct (Z.ltb_spec new sz); [|lia]. unfold wp. rewrite E. split; [done|]. eexists _, _, _.
  assert (shrink (targets L r (PGROUNDUP new) (PGROUNDUP sz)) K fl T K' freed) as Sh' by (destruct Sh; split; naive_solver).
  split; [exact Hv'|by eapply shrink_others| |].
  - intros tf0 Sp0. apply (unmapped_space r _ _ K fl T L K' freed tf0 sz new Sh' Hv Hv' Sp0); [lia|done|done].
  - intros va. apply (unmapped_space r _ _ K fl T L K' freed tf sz new Sh' Hv Hv' Sp); [lia|done|done].
Qed.

Lemma pm_grown l cur me sz' K fl T L K' fl' T' L' : pm_inv l K fl T L → l !! cur = Some me → pagetable me ≠ 0 → grown (pagetable me) (sz me) sz' K fl T L K' fl' T' L' →
  pm_inv (<[cur := set_sz sz' me]> l) K' fl' T' L'.
Proof.
  intros Hpm Hme Hz [Gv Go Gs _]. eapply (pm_change _ _ me _ (pagetable me) 0); [exact Hpm|done|done|apply Go|by right| |].
  - intros i q Hi Hq Hqz. destruct (pm_apart _ _ _ _ _ Hpm i cur q me Hq Hme Hi Hqz). split; [done|]. by destruct (space_ne_0 _ _ _ _ _ _ _ (pm_vm _ _ _ _ _ Hpm) (pm_space _ _ _ _ _ Hpm i q Hq Hqz)).
  - right. split; [done|]. split; [apply Gs, (pm_space _ _ _ _ _ Hpm cur me Hme Hz)|]. intros i q Hi Hq Hqz. apply (pm_apart _ _ _ _ _ Hpm i cur q me Hq Hme Hi Hqz).
Qed.

(** The size after [growproc (n)]: a decrement beyond the whole wraps around to
    a size above the old one, which [uvmdealloc] takes for nothing to do. *)
Definition new_size (sz n : Z) : Z := if sz + n <? 0 then sz else sz + n.

(** There are not three free pages, for the page and two tables, for each that is
    to be added. *)
Definition few_pages (fl : list Z) (p : proc) (n : Z) : Prop := 0 < n ∧ Z.of_nat (length fl) ≤ 3 * ((PGROUNDUP (sz p + n) - PGROUNDUP (sz p)) / 4096).

Lemma growproc_run l i ip cur me n K fl T L : l !! cur = Some me → pagetable me ≠ 0 → pm_inv l K fl T L → -2 ^ 31 ≤ n < 2 ^ 31 → sz me + n ≤ TRAPFRAME →
  run store (Cfg 0 [] l i ip) (K, ()) (growproc cur n) (λ v k V, ∃ sz' fl' T' L', k = Cfg 0 [] (<[cur := set_sz sz' me]> l) i ip ∧ grown (pagetable me) (sz me) sz' K fl T L V.1 fl' T' L' ∧
    (v = 0 ∧ sz' = new_size (sz me) n ∨ v = -1 ∧ sz' = sz me ∧ few_pages fl me n)) (λ _ _ _, False).
Proof.
  intros Hme Hz Hpm Hn Hsz. pose proof (pm_vm _ _ _ _ _ Hpm) as Hv. pose proof (pm_space _ _ _ _ _ Hpm cur me Hme Hz) as Sp. pose proof (sp_size _ _ _ _ _ _ _ Sp) as Hs.
  assert (TRAPFRAME = 0x3fffffe000) as HT by done. assert (set_sz (sz me) me = me) as Hid by by destruct me. unfold growproc, new_size. apply (run_get_proc (get := store) _ _ _ _ _ _ _ me); [done|].
  assert (∀ x, alter (set_sz x) cur l = <[cur := set_sz x me]> l) as Halt by (intros; by apply alter_at).
  rewrite Z.gtb_ltb. destruct (Z.ltb_spec 0 n) as [Hpos|Hnpos]; [|destruct (Z.ltb_spec n 0) as [Hneg|Hnneg]].
  - rewrite u64_small by lia. eapply run_kern; [apply (uvmalloc_grown K fl T L _ (trapframe me)); [done|done|lia]|]. intros res K' (fl' & T' & L' & [[-> G]|(-> & G & Hless)]).
    + destruct (Z.eqb_spec (sz me + n) 0); [lia|]. apply run_upd, run_ret. exists (sz me + n), fl', T', L'. rewrite Halt. split_and!; [done|done|]. left. by destruct (Z.ltb_spec (sz me + n) 0); [lia|].
    + cbn [Z.eqb]. apply run_ret. exists (sz me), fl', T', L'. rewrite Hid, list_insert_id by done. split_and!; [done|done|]. right. by split_and!.
  - eapply run_kern; [apply (uvmdealloc_grown K fl T L _ (trapframe me)); [done|done|apply u64_range]|]. intros res K' (-> & fl' & T' & L' & G).
    apply run_upd, run_ret. eexists _, fl', T', L'. rewrite Halt. split_and!; [reflexivity|exact G|]. left. split; [done|]. destruct (Z.ltb_spec (sz me + n) 0) as [Hb|Hb].
    + apply Z.min_l. unfold u64. rewrite <- (Z.mod_unique (sz me + n) (2 ^ 64) (-1) (sz me + n + 2 ^ 64)); lia.
    + rewrite u64_small by lia. lia.
  - apply run_ret. assert (n = 0) as -> by lia. exists (sz me), fl, T, L. rewrite Hid, list_insert_id by done. split_and!; [done|by eapply space_grown|]. left. rewrite Z.add_0_r.
    by destruct (Z.ltb_spec (sz me) 0).
Qed.

End grow.

(** ** The first process, giving up its page *)

#[local] Existing Instance demo_kernel.
#[local] Existing Instance demo_texts.

