(* ===== verification/Uart.v ===== *)
(** * The serial line driver, [kernel/uart.c]

    The transmit ring, and the routines that move bytes between it and the
    16550a.  The chip is the parameter [UartHw]: what reading and writing its
    registers does.  The kernel's device state also holds the console's input
    ring ([Console]) and the flags of [printf.c].  The code spins on the chip in
    two places; [spins] is how often the model looks before it gives up. *)

From S2P Require Import Prelude Riscv Mem CString Kalloc Vm Spinlock Proc Bio Log Fs Pipe File.

(** Registers, and bits of the line status. *)
Definition RHR : Z := 0.
Definition THR : Z := 0.
Definition IER : Z := 1.
Definition IER_RX_ENABLE : Z := Z.shiftl 1 0.
Definition IER_TX_ENABLE : Z := Z.shiftl 1 1.
Definition FCR : Z := 2.
Definition FCR_FIFO_ENABLE : Z := Z.shiftl 1 0.
Definition FCR_FIFO_CLEAR : Z := Z.shiftl 3 1.
Definition LCR : Z := 3.
Definition LCR_EIGHT_BITS : Z := Z.shiftl 3 0.
Definition LCR_BAUD_LATCH : Z := Z.shiftl 1 7.
Definition LSR : Z := 5.
Definition LSR_RX_READY : Z := Z.shiftl 1 0.
Definition LSR_TX_IDLE : Z := Z.shiftl 1 5.

Definition UART_TX_BUF_SIZE : Z := 32.

(** The chip. *)
Class UartHw (H : Type) := {
  ReadReg_hw : Z → H → Z * H;
  WriteReg_hw : Z → Z → H → H;
}.

(** The variables of [uart.c], [console.c] and [printf.c], and the chip. *)
Record devst (H : Type) := mk_devst {
  uart_tx_buf : list Z;
  uart_tx_w : Z;
  uart_tx_r : Z;
  cons_buf : list Z;
  cons_r : Z;
  cons_w : Z;
  cons_e : Z;
  panicked : bool;
  pr_locking : bool;
  hw : H;
}.
Arguments mk_devst {H}.
Arguments uart_tx_buf {H}.
Arguments uart_tx_w {H}.
Arguments uart_tx_r {H}.
Arguments cons_buf {H}.
Arguments cons_r {H}.
Arguments cons_w {H}.
Arguments cons_e {H}.
Arguments panicked {H}.
Arguments pr_locking {H}.
Arguments hw {H}.

Section setters.
Context {H : Type}.
Implicit Types d : devst H.
Definition set_tx b w r (d : devst H) : devst H := mk_devst b w r (cons_buf d) (cons_r d) (cons_w d) (cons_e d) (panicked d) (pr_locking d) (hw d).
Definition set_cons b r w e (d : devst H) : devst H := mk_devst (uart_tx_buf d) (uart_tx_w d) (uart_tx_r d) b r w e (panicked d) (pr_locking d) (hw d).
Definition set_panicked v (d : devst H) : devst H := mk_devst (uart_tx_buf d) (uart_tx_w d) (uart_tx_r d) (cons_buf d) (cons_r d) (cons_w d) (cons_e d) v (pr_locking d) (hw d).
Definition set_locking v (d : devst H) : devst H := mk_devst (uart_tx_buf d) (uart_tx_w d) (uart_tx_r d) (cons_buf d) (cons_r d) (cons_w d) (cons_e d) (panicked d) v (hw d).
Definition set_hw (h : H) (d : devst H) : devst H := mk_devst (uart_tx_buf d) (uart_tx_w d) (uart_tx_r d) (cons_buf d) (cons_r d) (cons_w d) (cons_e d) (panicked d) (pr_locking d) h.
End setters.

Definition uart_tx_lock : lockid := LOther 4.
(** The channel [&uart_tx_r]. *)
Definition chan_tx : Z := 1002.

Section uart.
Context {H : Type} `{!UartHw H} `{!KernelImage} `{!KernelText} (spins : nat).
Local Abbreviation F := (fstate (devst H)).
Implicit Types s : pst F.

Definition dev {A} (f : devst H → A) : M (pst F) A := gets (λ s, f (devs (files s))).
Definition upd_dev (f : devst H → devst H) : M (pst F) unit :=
  modify (λ s, set_files (set_devs (f (devs (files s))) (files s)) s).

Definition ReadReg (r : Z) : M (pst F) Z :=
  h ← dev hw;
  let '(v, h) := ReadReg_hw r h in
  upd_dev (set_hw h);;
  mret v.
Definition WriteReg (r v : Z) : M (pst F) unit := upd_dev (λ d, set_hw (WriteReg_hw r (u8 v) (hw d)) d).

Definition uartinit : M (pst F) unit :=
  WriteReg IER 0;;
  WriteReg LCR LCR_BAUD_LATCH;;
  WriteReg 0 3;;
  WriteReg 1 0;;
  WriteReg LCR LCR_EIGHT_BITS;;
  WriteReg FCR (Z.lor FCR_FIFO_ENABLE FCR_FIFO_CLEAR);;
  WriteReg IER (Z.lor IER_TX_ENABLE IER_RX_ENABLE);;
  initlock uart_tx_lock.

(** [uartstart]: as many bytes as the chip takes.  The ring holds at most
    [UART_TX_BUF_SIZE], so the fuel is enough. *)
Fixpoint uartstart_loop (fuel : nat) (cur : option nat) : M (pst F) unit :=
  match fuel with
  | O => no_fuel
  | S fuel =>
      w ← dev uart_tx_w;
      r ← dev uart_tx_r;
      if w =? r then mret ()
      else
        v ← ReadReg LSR;
        if Z.land v LSR_TX_IDLE =? 0 then mret ()
        else
          b ← dev uart_tx_buf;
          let c := nth (Z.to_nat (r mod UART_TX_BUF_SIZE)) b 0 in
          upd_dev (λ d, set_tx (uart_tx_buf d) (uart_tx_w d) (u64 (r + 1)) d);;
          wakeup cur chan_tx;;
          WriteReg THR c;;
          uartstart_loop fuel cur
  end.
Definition uartstart (cur : option nat) : M (pst F) unit := uartstart_loop (S (Z.to_nat UART_TX_BUF_SIZE)) cur.

(** [uartputc], from the test of its loop on, with the lock held.  After a panic
    the CPU spins forever. *)
Definition uartputc_body (cur : nat) (c : Z) : M (pst F) unit :=
  w ← dev uart_tx_w;
  r ← dev uart_tx_r;
  if w =? u64 (r + UART_TX_BUF_SIZE) then sleep cur chan_tx uart_tx_lock
  else
    upd_dev (λ d, set_tx (<[Z.to_nat (w mod UART_TX_BUF_SIZE) := u8 c]> (uart_tx_buf d)) (u64 (w + 1)) (uart_tx_r d) d);;
    uartstart (Some cur);;
    release uart_tx_lock.
Definition uartputc (cur : nat) (c : Z) : M (pst F) unit :=
  acquire uart_tx_lock;;
  p ← dev panicked;
  if (p : bool) then no_fuel else uartputc_body cur c.
Definition uartputc_resume (cur : nat) (c : Z) : M (pst F) unit :=
  sleep_resume cur uart_tx_lock;; uartputc_body cur c.

(** The busy wait of [uartputc_sync]. *)
Fixpoint tx_wait (fuel : nat) : M (pst F) unit :=
  match fuel with
  | O => no_fuel
  | S fuel =>
      v ← ReadReg LSR;
      if Z.land v LSR_TX_IDLE =? 0 then tx_wait fuel else mret ()
  end.
Definition uartputc_sync (c : Z) : M (pst F) unit :=
  oncpu push_off;;
  p ← dev panicked;
  if (p : bool) then no_fuel
  else
    tx_wait spins;;
    WriteReg THR c;;
    oncpu pop_off.

(** [consputc] of [console.c], which [printf] uses too. *)
Definition BACKSPACE : Z := 0x100.
Definition consputc (c : Z) : M (pst F) unit :=
  if c =? BACKSPACE then
    uartputc_sync 0x08;; uartputc_sync 0x20;; uartputc_sync 0x08
  else uartputc_sync c.

Definition uartgetc : M (pst F) Z :=
  v ← ReadReg LSR;
  if negb (Z.land v 1 =? 0) then ReadReg RHR else mret (-1).

End uart.
