(* ===== verification/Printf.v ===== *)
(** * Formatted output, [kernel/printf.c]

    [printf] with its lock, [panic], and what [procdump] prints with it.  The
    conversion of integers is in [Format], which the user library's [printf]
    shares. *)

From S2P Require Import Prelude Format Riscv Mem CString Kalloc Vm Spinlock Proc Bio Log Fs Pipe File Uart.

(** The string [s] points to. *)
Definition arg_string (s : option (list byte)) : list byte :=
  match s with
  | None => bytes "(null)"
  | Some s => cstr (length s) (ptr s)
  end.

Definition digits : list byte := bytes "0123456789abcdef".

(** The loop over the format. *)
Section kformat.
Context {S : Type} (put : byte → M S unit).

Fixpoint printf_loop (fmt : list byte) (ap : list arg) : M S unit :=
  match fmt with
  | [] => mret ()
  | c :: fmt =>
      if decide (c = x00) then mret ()
      else if decide (c ≠ x25) then put c;; printf_loop fmt ap
      else
        match fmt with
        | [] => mret ()
        | c :: fmt =>
            if decide (c = x00) then mret ()
            else if decide (c = x64) then
              match ap with
              | AInt z :: ap => put_opt put (printint_chars digits (i32 z) 10 true);; printf_loop fmt ap
              | _ => fault 0
              end
            else if decide (c = x78) then
              match ap with
              | AInt z :: ap => put_opt put (printint_chars digits (i32 z) 16 true);; printf_loop fmt ap
              | _ => fault 0
              end
            else if decide (c = x70) then
              match ap with
              | AInt z :: ap => puts put (printptr_chars digits (u64 z));; printf_loop fmt ap
              | _ => fault 0
              end
            else if decide (c = x73) then
              match ap with
              | AStr s :: ap => puts put (arg_string s);; printf_loop fmt ap
              | _ => fault 0
              end
            else if decide (c = x25) then put x25;; printf_loop fmt ap
            else put x25;; put c;; printf_loop fmt ap
        end
  end.

End kformat.

Definition pr_lock : lockid := LOther 5.

Section printf.
Context {H : Type} `{!UartHw H} `{!KernelImage} `{!KernelText} (spins : nat).
Local Abbreviation F := (fstate (devst H)).

Definition printf (fmt : list byte) (ap : list arg) : M (pst F) unit :=
  l ← dev pr_locking;
  (if (l : bool) then acquire pr_lock else mret ());;
  printf_loop (λ c, consputc spins (Z_of_byte c)) fmt ap;;
  (if (l : bool) then release pr_lock else mret ()).

Definition printfinit : M (pst F) unit := initlock pr_lock;; upd_dev (set_locking true).

(** [panic] prints, freezes the output of the other CPUs, and stops. *)
Definition panic_print (msg : list byte) : M (pst F) unit :=
  upd_dev (set_locking false);;
  printf (bytes "panic: ") [];;
  printf msg [];;
  printf [x0a] [];;
  upd_dev (set_panicked true).

(** The printing of [procdump]. *)
Fixpoint procdump_lines (l : list (Z * string * list byte)) : M (pst F) unit :=
  match l with
  | [] => mret ()
  | (p, st, nm) :: l =>
      printf (bytes "%d %s %s") [AInt p; AStr (Some (bytes st)); AStr (Some nm)];;
      printf [x0a] [];;
      procdump_lines l
  end.
Definition procdump_print : M (pst F) unit :=
  printf [x0a] [];;
  l ← gets (λ s : pst F, procdump (procs s));
  procdump_lines l.

End printf.
