(* ===== verification/Console.v ===== *)
(** * The console, [kernel/console.c], and the interrupt of the serial line

    The input ring with its three counters, line editing at interrupt time, and
    the read and write functions that [devsw] has for the console.  The second
    half of [uart.c], [uartintr], is here because it calls [consoleintr]. *)

From S2P Require Import Prelude Riscv Mem CString Kalloc Vm Spinlock Proc Bio Log Fs Pipe File Uart Printf.

(** Control-x, from the code of the letter. *)
Definition Ctl (x : Z) : Z := x - 0x40.
Definition C_P : Z := Ctl 0x50.
Definition C_U : Z := Ctl 0x55.
Definition C_H : Z := Ctl 0x48.
Definition C_D : Z := Ctl 0x44.
Definition DEL : Z := 0x7f.
Definition NL : Z := 0x0a.
Definition CR : Z := 0x0d.
Definition INPUT_BUF_SIZE : Z := 128.
(** The major number of the console. *)
Definition CONSOLE : Z := 1.

Definition cons_lock : lockid := LOther 3.
(** The channel [&cons.r]. *)
Definition chan_cons : Z := 1001.

Section console.
Context {H : Type} `{!UartHw H} `{!KernelImage} `{!KernelText} (spins : nat).
Local Abbreviation F := (fstate (devst H)).
Implicit Types s : pst F.

(** The loop of [consolewrite] from byte [i] on; [fuel] counts the bytes left. *)
Fixpoint consolewrite_loop (fuel : nat) (cur : nat) (user_src : bool) (src n i : Z) : M (pst F) Z :=
  match fuel with
  | O => no_fuel
  | S fuel =>
      if i <? n then
        '(r, bs) ← either_copyin cur user_src (u64 (src + i)) 1;
        if r =? -1 then mret i
        else
          uartputc cur (Z_of_byte (hd x00 bs));;
          consolewrite_loop fuel cur user_src src n (i + 1)
      else mret i
  end.
Definition consolewrite (cur : nat) (user_src : bool) (src n : Z) : M (pst F) Z :=
  consolewrite_loop (S (Z.to_nat n)) cur user_src src n 0.

(** The loop of [consoleread], with the lock held; [n] bytes are still wanted of
    the [target] asked for. *)
Fixpoint consoleread_loop (fuel : nat) (cur : nat) (user_dst : bool) (dst target n : Z) : M (pst F) Z :=
  match fuel with
  | O => no_fuel
  | S fuel =>
      if n >? 0 then
        r ← dev cons_r;
        w ← dev cons_w;
        if r =? w then
          k ← killed cur;
          if negb (k =? 0) then release cons_lock;; mret (-1)
          else sleep cur chan_cons cons_lock;; mret 0
        else
          b ← dev cons_buf;
          let c := nth (Z.to_nat (r mod INPUT_BUF_SIZE)) b 0 in
          upd_dev (λ d, set_cons (cons_buf d) (u32 (r + 1)) (cons_w d) (cons_e d) d);;
          if c =? C_D then
            (if n <? target then upd_dev (λ d, set_cons (cons_buf d) (u32 (cons_r d - 1)) (cons_w d) (cons_e d) d)
             else mret ());;
            release cons_lock;;
            mret (target - n)
          else
            e ← either_copyout cur user_dst dst [byte_of_Z c];
            if e =? -1 then release cons_lock;; mret (target - n)
            else if c =? NL then release cons_lock;; mret (target - (n - 1))
            else consoleread_loop fuel cur user_dst (u64 (dst + 1)) target (n - 1)
      else release cons_lock;; mret (target - n)
  end.
Definition consoleread (cur : nat) (user_dst : bool) (dst n : Z) : M (pst F) Z :=
  acquire cons_lock;;
  consoleread_loop (S (Z.to_nat n)) cur user_dst dst n n.
(** After a sleep, with [n] bytes still to read. *)
Definition consoleread_resume (cur : nat) (user_dst : bool) (dst target n : Z) : M (pst F) Z :=
  sleep_resume cur cons_lock;;
  consoleread_loop (S (Z.to_nat n)) cur user_dst dst target n.

(** Kill line: back to the last newline or to the write index. *)
Fixpoint kill_line (fuel : nat) : M (pst F) unit :=
  match fuel with
  | O => no_fuel
  | S fuel =>
      e ← dev cons_e;
      w ← dev cons_w;
      b ← dev cons_buf;
      if negb (e =? w) && negb (nth (Z.to_nat (u32 (e - 1) mod INPUT_BUF_SIZE)) b 0 =? NL) then
        upd_dev (λ d, set_cons (cons_buf d) (cons_r d) (cons_w d) (u32 (e - 1)) d);;
        consputc spins BACKSPACE;;
        kill_line fuel
      else mret ()
  end.

(** [cur] is the interrupted process. *)
Definition consoleintr (cur : option nat) (c : Z) : M (pst F) unit :=
  acquire cons_lock;;
  (if c =? C_P then procdump_print spins
   else if c =? C_U then kill_line (S (Z.to_nat INPUT_BUF_SIZE))
   else if (c =? C_H) || (c =? DEL) then
     e ← dev cons_e;
     w ← dev cons_w;
     if negb (e =? w) then
       upd_dev (λ d, set_cons (cons_buf d) (cons_r d) (cons_w d) (u32 (e - 1)) d);;
       consputc spins BACKSPACE
     else mret ()
   else
     e ← dev cons_e;
     r ← dev cons_r;
     if negb (c =? 0) && (u32 (e - r) <? INPUT_BUF_SIZE) then
       let c := if c =? CR then NL else c in
       consputc spins c;;
       upd_dev (λ d, set_cons (<[Z.to_nat (e mod INPUT_BUF_SIZE) := u8 c]> (cons_buf d)) (cons_r d) (cons_w d) (u32 (e + 1)) d);;
       if (c =? NL) || (c =? C_D) || (u32 (u32 (e + 1) - r) =? INPUT_BUF_SIZE) then
         upd_dev (λ d, set_cons (cons_buf d) (cons_r d) (cons_e d) (cons_e d) d);;
         wakeup cur chan_cons
       else mret ()
     else mret ());;
  release cons_lock.

(** The connection of the system calls that [consoleinit] makes; the rest of it. *)
Definition consoleinit : M (pst F) unit := initlock cons_lock;; uartinit.
#[global] Instance console_devsw : DevSw (devst H) := {
  dev_read m := if m =? CONSOLE then Some (λ cur dst n, consoleread cur true dst n) else None;
  dev_write m := if m =? CONSOLE then Some (λ cur src n, consolewrite cur true src n) else None;
}.

(** ** [uartintr] *)

(** The input the chip has waiting; [fuel] bounds how many bytes there are. *)
Fixpoint uartintr_input (fuel : nat) (cur : option nat) : M (pst F) unit :=
  match fuel with
  | O => no_fuel
  | S fuel =>
      c ← uartgetc;
      if c =? -1 then mret ()
      else consoleintr cur c;; uartintr_input fuel cur
  end.
Definition uartintr (cur : option nat) : M (pst F) unit :=
  uartintr_input spins cur;;
  acquire uart_tx_lock;;
  uartstart cur;;
  release uart_tx_lock.

End console.
