(* ===== verification/ConsoleSpec.v ===== *)
(** * Correctness of the console

    The input ring with its three wrapping counters implements a line editor:
    the bytes ready for readers, in order, and the line being typed ([cons_at]).
    [consoleintr] does what [edit] says to the pair, and echoes what [edit]
    says, or the list of the processes ([dump]) for control-P.  [consoleread] takes whole lines from the front.  The chip is an
    interface with the laws [UartLaws]. *)

From S2P Require Import Prelude Format Riscv Mem CString Kalloc Vm VmTree VmOps VmFree Cow Spinlock Proc ProcSpec ProcTable Run.
From S2P Require Import Syscall Trap TrapSpec Bio Log Fs Pipe File Uart Printf Console.

(** Polling the line status up to [n] times, until the transmitter is idle. *)
Fixpoint tx_poll {H : Type} `{!UartHw H} (n : nat) (h : H) : option H :=
  match n with
  | O => None
  | S n =>
      let '(v, h) := ReadReg_hw LSR h in
      if Z.land v LSR_TX_IDLE =? 0 then tx_poll n h else Some h
  end.

(** What the driver relies on: [sent] is what was given to the transmitter, and
    the transmitter is idle again within [spins] looks. *)
Class UartLaws (H : Type) `{!UartHw H} (spins : nat) := {
  sent : H → list Z;
  sent_read r h : sent (ReadReg_hw r h).2 = sent h;
  sent_write c h : sent (WriteReg_hw THR c h) = sent h ++ [c];
  tx_ready h : is_Some (tx_poll spins h);
}.

(** ** The line editor *)

Definition erase : list Z := [0x08; 0x20; 0x08].

(** The ready bytes, the line and the echo after the character [c].  NUL does
    nothing, and control-P does nothing to them. *)
Definition edit (c : Z) (ready line : list Z) : list Z * list Z * list Z :=
  if c =? C_P then (ready, line, [])
  else if c =? C_U then (ready, [], mjoin (replicate (length line) erase))
  else if (c =? C_H) || (c =? DEL) then
    (ready, removelast line, if decide (line = []) then [] else erase)
  else if negb (c =? 0) && (Z.of_nat (length ready + length line) <? INPUT_BUF_SIZE) then
    let c := if c =? CR then NL else c in
    if (c =? NL) || (c =? C_D) || (Z.of_nat (length ready + length line) + 1 =? INPUT_BUF_SIZE)
    then (ready ++ line ++ [c], [], [c])
    else (ready, line ++ [c], [c])
  else (ready, line, []).

(** Whether the character makes a line ready. *)
Definition completes (c : Z) (ready line : list Z) : bool :=
  negb (length (edit c ready line).1.1 =? length ready)%nat.

(** The process list, as [procdump] prints it. *)
Definition dump_line (e : Z * string * list byte) : list byte :=
  let '(p, st, nm) := e in default [] (printint_chars digits (i32 p) 10 true) ++ [x20] ++ bytes st ++ [x20] ++ nm ++ [x0a].
Definition dump (l : list proc) : list Z := Z_of_byte <$> x0a :: mjoin (dump_line <$> procdump l).

(** What a reader that still wants [n] bytes gets from the ready bytes [q], and
    what is left of them; nothing is left and it has to wait if the line did not
    end.  [first]: it has got nothing yet. *)
Fixpoint read_line (n : nat) (first : bool) (q : list Z) : list Z * option (list Z) :=
  match n with
  | O => ([], Some q)
  | S n =>
      match q with
      | [] => ([], None)
      | c :: q =>
          if c =? C_D then ([], Some (if first then q else c :: q))
          else if c =? NL then ([c], Some q)
          else let '(bs, o) := read_line n false q in (c :: bs, o)
      end
  end.

Record cons_at {H} (d : devst H) (r : Z) (ready line : list Z) : Prop := {
  ca_range : 0 ≤ r < 2 ^ 32;
  ca_room : Z.of_nat (length ready + length line) ≤ INPUT_BUF_SIZE;
  ca_r : cons_r d = r;
  ca_w : cons_w d = u32 (r + Z.of_nat (length ready));
  ca_e : cons_e d = u32 (r + Z.of_nat (length ready + length line));
  ca_len : length (cons_buf d) = Z.to_nat INPUT_BUF_SIZE;
  ca_data i c : (ready ++ line) !! i = Some c → nth (Z.to_nat ((r + Z.of_nat i) mod INPUT_BUF_SIZE)) (cons_buf d) 0 = c;
}.

(** The rest of the device state. *)
Definition others {H} (d d' : devst H) : Prop :=
  uart_tx_buf d' = uart_tx_buf d ∧ uart_tx_w d' = uart_tx_w d ∧ uart_tx_r d' = uart_tx_r d ∧
  panicked d' = panicked d ∧ pr_locking d' = pr_locking d.

Ltac cons_unfold := unfold INPUT_BUF_SIZE, u32 in *.
Ltac cons_lia := cons_unfold; Z.div_mod_to_equations; lia.

Lemma cons_slot n : 0 ≤ n mod INPUT_BUF_SIZE < INPUT_BUF_SIZE.
Proof. cons_lia. Qed.
Lemma cons_index n : u32 n mod INPUT_BUF_SIZE = n mod INPUT_BUF_SIZE.
Proof. cons_lia. Qed.

(** *** The text of the process list *)

Lemma digit_loop_total fuel k x : (k ≤ fuel)%nat → (0 < k)%nat → 0 ≤ x < 10 ^ Z.of_nat k →
  ∃ l, digit_loop digits fuel x 10 = Some l ∧ (length l ≤ k)%nat.
Proof.
  revert k x. induction fuel as [|fuel IH]; intros [|k] x Hk Hk0 Hx; try lia. simpl. case_match eqn:E.
  - eexists. split; [done|]. simpl. lia.
  - apply Z.eqb_neq in E. assert (0 < k)%nat as Hk'.
    { destruct k; [|lia]. simpl in Hx. rewrite Z.div_small in E by lia. done. }
    destruct (IH k (x / 10)) as (l & -> & Hl); [lia..| |].
    { rewrite Nat2Z.inj_succ, Z.pow_succ_r in Hx by lia. set (10 ^ Z.of_nat k) as b in *. Z.div_mod_to_equations. lia. }
    eexists. split; [done|]. simpl. lia.
Qed.
Lemma printint_total xx : - 2 ^ 31 ≤ xx < 2 ^ 31 → is_Some (printint_chars digits xx 10 true).
Proof.
  intros Hx. unfold printint_chars. set (neg := true && (xx <? 0)). set (x := if neg then u32 (- xx) else u32 xx).
  destruct (digit_loop_total 16 10 x) as (l & -> & Hl); [lia..|unfold x, u32; case_match; Z.div_mod_to_equations; lia|].
  simpl. rewrite (proj2 (Nat.leb_le _ _)); [by eexists|]. case_match; rewrite ?length_app; simpl; lia.
Qed.

Lemma arg_string_plain t : Forall (λ b, b ≠ x00) t → arg_string (Some t) = t.
Proof.
  simpl. induction 1 as [|b t Hb _ IH]; [done|]. simpl. unfold ptr at 1. simpl. rewrite decide_False by done. f_equal. exact IH.
Qed.
Lemma state_name_plain st : Forall (λ b, b ≠ x00) (bytes (state_name st)).
Proof. by destruct st; vm_compute; repeat constructor. Qed.

Lemma entry_loop {S} (put : byte → M S unit) p st nm :
  printf_loop put (bytes "%d %s %s") [AInt p; AStr st; AStr nm] =
  (put_opt put (printint_chars digits (i32 p) 10 true);; put x20;; puts put (arg_string st);; put x20;; puts put (arg_string nm);; mret ()).
Proof. reflexivity. Qed.

Section ring.
Context {H : Type}.
Implicit Types d : devst H.

(** The last character of the line. *)
Lemma last_char d r ready line c : cons_at d r ready (line ++ [c]) →
  nth (Z.to_nat (u32 (cons_e d - 1) mod INPUT_BUF_SIZE)) (cons_buf d) 0 = c ∧ cons_e d ≠ cons_w d.
Proof.
  intros [Hr Hn _ Hw He _ Hd]. rewrite length_app in *. simpl in *. split.
  - rewrite cons_index, He. rewrite <- (Hd (length ready + length line)%nat c); [do 2 f_equal; cons_lia|].
    rewrite lookup_app_r by lia. replace (length ready + length line - length ready)%nat with (length line) by lia.
    by rewrite lookup_app_r, Nat.sub_diag by lia.
  - rewrite He, Hw. cons_lia.
Qed.

Lemma no_line d r ready line : cons_at d r ready line → (cons_e d =? cons_w d) = bool_decide (line = []).
Proof.
  intros [Hr Hn _ Hw He _ Hd]. rewrite He, Hw. apply eq_true_iff_eq. rewrite Z.eqb_eq, bool_decide_eq_true.
  destruct line; simpl in *; [by rewrite Nat.add_0_r|]. split; [|done]. cons_lia.
Qed.

(** Dropping the last character. *)
Lemma erase_one d r ready line c : cons_at d r ready (line ++ [c]) →
  cons_at (set_cons (cons_buf d) (cons_r d) (cons_w d) (u32 (cons_e d - 1)) d) r ready line.
Proof.
  intros [Hr Hn Hrr Hw He Hl Hd]. rewrite length_app in *. simpl in *. split; simpl; try done; try lia.
  - rewrite He. cons_lia.
  - intros i x Hi. apply Hd. rewrite (assoc_L (++)). by apply lookup_app_l_Some.
Qed.

(** Storing a character. *)
Lemma store_one d r ready line c : cons_at d r ready line → Z.of_nat (length ready + length line) < INPUT_BUF_SIZE →
  cons_at (set_cons (<[Z.to_nat (cons_e d mod INPUT_BUF_SIZE) := c]> (cons_buf d)) (cons_r d) (cons_w d) (u32 (cons_e d + 1)) d)
    r ready (line ++ [c]).
Proof.
  intros [Hr Hn Hrr Hw He Hl Hd] Hlt. rewrite He, cons_index. set (n := Z.of_nat (length ready + length line)) in *.
  pose proof (cons_slot (r + n)) as Hs. split; simpl; try done.
  - rewrite length_app. simpl. lia.
  - rewrite length_app. simpl. subst n. cons_lia.
  - by rewrite length_insert.
  - intros i x Hi. pose proof (cons_slot (r + Z.of_nat i)) as Hsi. rewrite (assoc_L (++)) in Hi.
    apply lookup_app_Some in Hi as [Hi|[Hge Hi]].
    + rewrite <- (Hd i x Hi). pose proof (lookup_lt_Some _ _ _ Hi) as Hlen. rewrite length_app in Hlen.
      rewrite !nth_lookup, list_lookup_insert_ne; [done|]. cons_lia.
    + apply list_lookup_singleton_Some in Hi as [Hi <-]. rewrite length_app in *.
      assert (Z.of_nat i = n) as -> by lia. rewrite nth_lookup, list_lookup_insert_eq; [done|]. rewrite Hl. cons_unfold. lia.
Qed.

(** Making the line ready. *)
Lemma commit_line d r ready line : cons_at d r ready line →
  cons_at (set_cons (cons_buf d) (cons_r d) (cons_e d) (cons_e d) d) r (ready ++ line) [].
Proof.
  intros [Hr Hn Hrr Hw He Hl Hd]. split; simpl; try done; rewrite ?length_app, ?Nat.add_0_r; try done.
  by rewrite app_nil_r.
Qed.

(** Taking a ready byte. *)
Lemma take_one d r c ready line : cons_at d r (c :: ready) line →
  cons_at (set_cons (cons_buf d) (u32 (r + 1)) (cons_w d) (cons_e d) d) (u32 (r + 1)) ready line ∧
  nth (Z.to_nat (r mod INPUT_BUF_SIZE)) (cons_buf d) 0 = c.
Proof.
  intros [Hr Hn Hrr Hw He Hl Hd]. simpl in *. split.
  - split; simpl; try done; [apply u32_range|lia|rewrite Hw; cons_lia|rewrite He; cons_lia|].
    intros i x Hi. rewrite <- (Hd (S i) x Hi). do 2 f_equal. cons_lia.
  - rewrite <- (Hd 0%nat c) by done. by rewrite Z.add_0_r.
Qed.

Lemma untake d r c ready line : cons_at d r (c :: ready) line →
  cons_at (set_cons (cons_buf d) (u32 (u32 (r + 1) - 1)) (cons_w d) (cons_e d) d) r (c :: ready) line.
Proof.
  intros [Hr Hn Hrr Hw He Hl Hd]. split; simpl; try done. cons_lia.
Qed.

Lemma none_ready d r ready line : cons_at d r ready line → (cons_r d =? cons_w d) = bool_decide (ready = []).
Proof.
  intros [Hr Hn Hrr Hw He Hl Hd]. rewrite Hrr, Hw. apply eq_true_iff_eq. rewrite Z.eqb_eq, bool_decide_eq_true.
  destruct ready; simpl in *; [split; [done|intros _; cons_lia]|]. split; [|done]. cons_lia.
Qed.

Lemma cons_at_hw d r ready line h : cons_at d r ready line → cons_at (set_hw h d) r ready line.
Proof. by intros []. Qed.

Lemma used_space d r ready line : cons_at d r ready line →
  u32 (cons_e d - cons_r d) = Z.of_nat (length ready + length line).
Proof. intros [Hr Hn Hrr Hw He Hl Hd]. rewrite Hrr, He. cons_lia. Qed.

End ring.

(** ** The handlers *)

Section spec.
Context {H : Type} `{!UartHw H} `{!KernelImage} `{!KernelText} (spins : nat) `{!UartLaws H spins}.
Local Abbreviation F := (fstate (devst H)).
Implicit Types (s : pst F) (d : devst H).

(** The store: kernel memory and devices. *)
Definition kd s : kst * devst H := (kern s, devs (files s)).
#[global] Instance kd_store : Store kd.
Proof. apply pair_store; [apply kern_store|]. apply (comp_store files devs). apply files_store. Qed.
Local Abbreviation run := (Run.run kd).

Section rules.
Context {B : Type} {Q : B → cfg → kst * devst H → Prop} {R : Z → cfg → kst * devst H → Prop}.

Lemma run_dev {A} k K d (g : devst H → A) (f : A → M (pst F) B) :
  run k (K, d) (f (g d)) Q R → run k (K, d) (dev g ≫= f) Q R.
Proof. intros Hf b s Hs HK. unfold dev, gets, mbind, M_bind. injection HK as <- <-. by apply (Hf b). Qed.
Lemma run_upd_dev k K d g (f : unit → M (pst F) B) :
  run k (K, g d) (f tt) Q R → run k (K, d) (upd_dev g ≫= f) Q R.
Proof. intros Hf b s Hs HK. injection HK as <- <-. by apply (Hf b). Qed.
Lemma run_vm_kd {A} k K K' d (c : M kst A) a (f : A → M (pst F) B) :
  c K = Ok a K' → run k (K', d) (f a) Q R → run k (K, d) (vm c ≫= f) Q R.
Proof.
  intros Hc Hf b s Hs HK. injection HK as <- <-. unfold vm, lift, zoom, mbind, M_bind. rewrite Hc. by apply (Hf b).
Qed.
Lemma run_vm_kd_wp {A} k K d (c : M kst A) P (f : A → M (pst F) B) :
  wp c K P → (∀ a K', P a K' → run k (K', d) (f a) Q R) → run k (K, d) (vm c ≫= f) Q R.
Proof. intros Hc Hf. apply wp_elim in Hc as (a & K' & E & HP). eapply run_vm_kd; [done|]. by apply Hf. Qed.
Lemma run_push_off dep h l n ip K (f : unit → M (pst F) B) :
  run (Cfg (S dep) h l n ip) K (f tt) Q R → run (Cfg dep h l n ip) K (oncpu push_off ≫= f) Q R.
Proof.
  intros Hf b s [[Hd Hh] Ht] HK. unfold oncpu, lift, zoom, mbind, M_bind.
  destruct (push_off_depth b dep (mycpu s) Hd) as (c & -> & Hc). apply (Hf b); [|done]. by split.
Qed.
Lemma run_pop_off dep h l n ip K (f : unit → M (pst F) B) :
  run (Cfg dep h l n ip) K (f tt) Q R → run (Cfg (S dep) h l n ip) K (oncpu pop_off ≫= f) Q R.
Proof.
  intros Hf b s [[Hd Hh] Ht] HK. unfold oncpu, lift, zoom, mbind, M_bind.
  destruct (pop_off_depth b dep (mycpu s) Hd) as (c & -> & Hc). apply (Hf b); [|done]. by split.
Qed.
Lemma run_assoc {A C} k K (c : M (pst F) A) (f : A → M (pst F) C) (g : C → M (pst F) B) :
  run k K (c ≫= λ a, f a ≫= g) Q R → run k K ((c ≫= f) ≫= g) Q R.
Proof.
  intros Hr b s Hs HK. specialize (Hr b s Hs HK). unfold mbind, M_bind in *. by destruct (c s).
Qed.

(** Waiting for the transmitter. *)
Lemma run_tx_wait fuel k K d h (f : unit → M (pst F) B) :
  tx_poll fuel (hw d) = Some h → (sent h = sent (hw d) → run k (K, set_hw h d) (f tt) Q R) →
  run k (K, d) (tx_wait fuel ≫= f) Q R.
Proof.
  revert d. induction fuel as [|fuel IH]; intros d; simpl; [done|].
  intros Hp Hf. apply run_assoc. unfold ReadReg at 1. apply run_assoc, run_dev. pose proof (sent_read LSR (hw d)) as Hsr.
  destruct (ReadReg_hw LSR (hw d)) as [v h'] eqn:E. simpl in Hsr. apply run_assoc, run_upd_dev.
  intros b s Hs HK. unfold mbind at 1, M_bind. cbn [mret M_ret]. revert b s Hs HK.
  change (run k (K, set_hw h' d) ((if Z.land v LSR_TX_IDLE =? 0 then tx_wait fuel else mret ()) ≫= f) Q R).
  destruct (Z.land v LSR_TX_IDLE =? 0).
  - apply IH; [done|]. intros Hs. apply Hf. by rewrite Hs.
  - injection Hp as <-. by apply Hf.
Qed.

(** A byte sent. *)
Lemma run_putc_sync dep h l n ip K d c (f : unit → M (pst F) B) : panicked d = false →
  (∀ h', sent h' = sent (hw d) ++ [u8 c] → run (Cfg dep h l n ip) (K, set_hw h' d) (f tt) Q R) →
  run (Cfg dep h l n ip) (K, d) (uartputc_sync spins c ≫= f) Q R.
Proof using UartLaws0.
  intros Hp Hf. unfold uartputc_sync. apply run_assoc, run_push_off. apply run_assoc, run_dev. rewrite Hp.
  destruct (tx_ready (hw d)) as [h' Hh']. apply run_assoc. eapply run_tx_wait; [exact Hh'|]. intros Hs.
  apply run_assoc. unfold WriteReg. apply run_upd_dev. apply run_pop_off. simpl. apply Hf. by rewrite sent_write, Hs.
Qed.

Lemma run_consputc dep h l n ip K d c (f : unit → M (pst F) B) : panicked d = false → c ≠ BACKSPACE →
  (∀ h', sent h' = sent (hw d) ++ [u8 c] → run (Cfg dep h l n ip) (K, set_hw h' d) (f tt) Q R) →
  run (Cfg dep h l n ip) (K, d) (consputc spins c ≫= f) Q R.
Proof using UartLaws0.
  intros Hp Hc Hf. unfold consputc. rewrite (proj2 (Z.eqb_neq _ _)) by done. by apply run_putc_sync.
Qed.

Lemma run_erase dep h l n ip K d (f : unit → M (pst F) B) : panicked d = false →
  (∀ h', sent h' = sent (hw d) ++ erase → run (Cfg dep h l n ip) (K, set_hw h' d) (f tt) Q R) →
  run (Cfg dep h l n ip) (K, d) (consputc spins BACKSPACE ≫= f) Q R.
Proof using UartLaws0.
  intros Hp Hf. unfold consputc. rewrite Z.eqb_refl. apply run_assoc, run_putc_sync; [done|]. intros h1 Hs1.
  apply run_assoc, run_putc_sync; [done|]. intros h2 Hs2. apply run_putc_sync; [done|]. intros h3 Hs3.
  apply Hf. rewrite Hs3. simpl. rewrite Hs2. simpl. by rewrite Hs1, <- !(assoc_L (++)).
Qed.

Lemma run_kill_line fuel dep h l n ip K d r ready line (f : unit → M (pst F) B) :
  cons_at d r ready line → NL ∉ line → panicked d = false → (length line < fuel)%nat →
  (∀ d', cons_at d' r ready [] → others d d' → sent (hw d') = sent (hw d) ++ mjoin (replicate (length line) erase) →
     run (Cfg dep h l n ip) (K, d') (f tt) Q R) →
  run (Cfg dep h l n ip) (K, d) (kill_line spins fuel ≫= f) Q R.
Proof using UartLaws0.
  revert fuel d. induction line as [|c line IH] using rev_ind; intros fuel d Hat Hnl Hp Hfuel Hf;
    (destruct fuel as [|fuel]; [lia|]); cbn [kill_line]; do 3 apply run_assoc, run_dev.
  - rewrite (no_line _ _ _ _ Hat), bool_decide_eq_true_2 by done. simpl. apply Hf; [done|by repeat split|].
    by rewrite app_nil_r.
  - destruct (last_char _ _ _ _ _ Hat) as [Hc Hne]. rewrite elem_of_app, list_elem_of_singleton in Hnl.
    rewrite Hc, (proj2 (Z.eqb_neq _ (cons_w d))), (proj2 (Z.eqb_neq c NL)) by (done || naive_solver). simpl.
    apply run_assoc, run_upd_dev. apply run_assoc, run_erase; [done|]. intros h' Hh'. simpl in Hh'.
    rewrite length_app in Hfuel. simpl in Hfuel.
    apply (IH fuel _); [exact (cons_at_hw _ _ _ _ h' (erase_one _ _ _ _ _ Hat))|tauto|done|lia|].
    intros d' Hat' Ho Hs. apply Hf; [done|exact Ho|]. rewrite Hs. simpl. rewrite Hh', <- (assoc_L (++)). f_equal.
    rewrite length_app, Nat.add_comm. done.
Qed.

End rules.

(** Printing: [c] sends the characters [t] and does nothing else; with [b] it
    takes the lock of [printf]. *)
Definition prints (b : bool) (c : M (pst F) unit) (t : list byte) : Prop := ∀ B (Q : B → cfg → kst * devst H → Prop) R dep h l n ip K d f,
  panicked d = false → (b = true → pr_lock ∉ h) →
  (∀ h', sent h' = sent (hw d) ++ (Z_of_byte <$> t) → run (Cfg dep h l n ip) (K, set_hw h' d) (f tt) Q R) →
  run (Cfg dep h l n ip) (K, d) (c ≫= f) Q R.

Lemma prints_ret b : prints b (mret ()) [].
Proof using Type. intros B Q R dep h l n ip K d f _ _ Hf. specialize (Hf (hw d) (eq_sym (app_nil_r _))). by destruct d. Qed.
Lemma prints_seq b c c' t t' : prints b c t → prints b c' t' → prints b (c;; c') (t ++ t').
Proof using Type.
  intros Hc Hc' B Q R dep h l n ip K d f Hp Hh Hf. apply run_assoc, Hc; [done..|]. intros h1 Hs1. apply Hc'; [done..|]. intros h2 Hs2.
  apply Hf. simpl in Hs2. by rewrite Hs2, Hs1, fmap_app, (assoc_L (++)).
Qed.
Lemma prints_putc c : prints false (consputc spins (Z_of_byte c)) [c].
Proof using UartLaws0.
  intros B Q R dep h l n ip K d f Hp Hh Hf. pose proof (Z_of_byte_range c) as Hc. apply run_consputc; [done|unfold BACKSPACE; lia|].
  intros h' Hs. apply Hf. rewrite Hs. unfold u8. by rewrite Z.mod_small by lia.
Qed.
Lemma prints_puts t : prints false (puts (λ c, consputc spins (Z_of_byte c)) t) t.
Proof using UartLaws0. induction t as [|c t IH]; [apply prints_ret|]. apply (prints_seq _ _ _ [c]); [apply prints_putc|done]. Qed.

Lemma prints_printf fmt ap t : prints false (printf_loop (λ c, consputc spins (Z_of_byte c)) fmt ap) t → prints true (printf spins fmt ap) t.
Proof using Type.
  intros Hl B Q R dep h l n ip K d f Hp Hh Hf. unfold printf. apply run_assoc, run_dev. apply run_assoc. destruct (pr_locking d).
  - eapply run_tr; [apply acquire_tr; by apply Hh|apply store_same_acquire|]. intros [] k ->. apply run_assoc, Hl; [done..|]. intros h' Hs.
    eapply run_tr; [apply release_tr; by apply Hh|apply store_same_release|]. intros [] k ->. by apply Hf.
  - apply prints_ret with (b := false); [done..|]. intros h1 Hs1. apply run_assoc, Hl; [done..|]. intros h2 Hs2.
    apply prints_ret with (b := false); [done..|]. intros h3 Hs3. apply Hf.
    simpl in Hs2, Hs3. by rewrite Hs3, Hs2, Hs1, !app_nil_r.
Qed.
Lemma prints_newline : prints true (printf spins [x0a] []) [x0a].
Proof using UartLaws0. apply prints_printf, (prints_seq _ _ _ [x0a] []); [apply prints_putc|apply prints_ret]. Qed.
Lemma prints_entry p st nm : Forall (λ b, b ≠ x00) (bytes st) → Forall (λ b, b ≠ x00) nm →
  prints true (printf spins (bytes "%d %s %s") [AInt p; AStr (Some (bytes st)); AStr (Some nm)])
    (default [] (printint_chars digits (i32 p) 10 true) ++ [x20] ++ bytes st ++ [x20] ++ nm).
Proof using UartLaws0.
  intros Hst Hnm. destruct (printint_total (i32 p)) as [t Ht]; [unfold i32, signed; case_match; Z.div_mod_to_equations; lia|].
  apply prints_printf. rewrite entry_loop, Ht, (arg_string_plain (bytes st)), (arg_string_plain nm) by done.
  do 4 (apply prints_seq; [apply prints_puts || apply prints_putc|]).
  rewrite <- (app_nil_r nm) at 2. apply prints_seq; [apply prints_puts|apply prints_ret].
Qed.

Lemma procdump_cons p l : procdump (p :: l) =
  if decide (state p = UNUSED) then procdump l else (pid p, state_name (state p), cstr 16 (CString.ptr (name p))) :: procdump l.
Proof. unfold procdump. cbn [omap list_omap]. by case_decide. Qed.
Lemma prints_lines l : prints true (procdump_lines spins (procdump l)) (mjoin (dump_line <$> procdump l)).
Proof using UartLaws0.
  induction l as [|p l IH]; [apply prints_ret|]. rewrite procdump_cons. case_decide; [exact IH|]. cbn [procdump_lines fmap list_fmap mjoin list_join].
  set (nm := cstr 16 _). set (st := state_name _).
  replace (dump_line _ ++ _) with ((default [] (printint_chars digits (i32 (pid p)) 10 true) ++ [x20] ++ bytes st ++ [x20] ++ nm) ++ [x0a] ++ mjoin (dump_line <$> procdump l))
    by (unfold dump_line at 2; by rewrite <- !(assoc_L (++))).
  apply prints_seq; [apply prints_entry; [apply state_name_plain|apply cstr_nul]|]. by apply prints_seq; [apply prints_newline|].
Qed.

(** The process list, from the table as it is. *)
Lemma run_procdump {B} dep h l n ip K d (f : unit → M (pst F) B) Q R : panicked d = false → pr_lock ∉ h →
  (∀ h', sent h' = sent (hw d) ++ dump l → run (Cfg dep h l n ip) (K, set_hw h' d) (f tt) Q R) →
  run (Cfg dep h l n ip) (K, d) (procdump_print spins ≫= f) Q R.
Proof using UartLaws0.
  intros Hp Hh Hf. unfold procdump_print. apply run_assoc, prints_newline; [done..|]. intros h1 Hs1. apply run_assoc.
  intros b s Hs HK. pose proof Hs as (_ & Ht & _). simpl in Ht. unfold gets, mbind at 1, M_bind. rewrite Ht. clear Ht. revert b s Hs HK.
  apply prints_lines; [done..|]. intros h2 Hs2. apply Hf. simpl in Hs2. rewrite Hs2, Hs1. unfold dump. by rewrite <- (assoc_L (++)).
Qed.

Definition cons_post (cur : option nat) (c r : Z) (ready line : list Z) (K : kst) d l n ip (k : cfg) (Kd : kst * devst H) : Prop :=
  let '(ready', line', echo) := edit c ready line in
  Kd.1 = K ∧ cons_at Kd.2 r ready' line' ∧ (NL ∉ line') ∧ others d Kd.2 ∧ sent (hw Kd.2) = sent (hw d) ++ (if c =? C_P then dump l else echo) ∧
  k = Cfg 0 [] (if completes c ready line then wake cur chan_cons l else l) n ip.

Lemma consoleintr_run cur c r ready line K d l n ip :
  0 ≤ c < 256 → cons_at d r ready line → NL ∉ line → panicked d = false → length l = Z.to_nat NPROC →
  run (Cfg 0 [] l n ip) (K, d) (consoleintr spins cur c)
    (λ _, cons_post cur c r ready line K d l n ip) (λ _ _ _, False).
Proof using UartLaws0.
  intros Hc Hat Hnl Hp Hl. unfold consoleintr.
  eapply run_tr; [apply acquire_tr, not_elem_of_nil|apply store_same_acquire|]. intros _ k ->.
  assert (∀ l' K0 (Q : unit → cfg → kst * devst H → Prop), Q tt (Cfg 0 [] l' n ip) K0 →
    run (Cfg 1 [cons_lock] l' n ip) K0 (release cons_lock) Q (λ _ _ _, False)) as Hrel.
  { intros l' K0 Q HQ. eapply run_tr_last; [apply release_tr, not_elem_of_nil|apply store_same_release|].
    intros [] ? ->. exact HQ. }
  unfold cons_post, completes, edit. destruct (Z.eqb_spec c C_P) as [->|HcP].
  { apply run_procdump; [done|set_solver|]. intros h' Hs. apply Hrel. cbn [fst snd]. rewrite Nat.eqb_refl. simpl.
    split_and!; try done. by apply cons_at_hw. }
  destruct (Z.eqb_spec c C_U) as [->|HcU].
  { apply (run_kill_line _ _ _ _ _ _ _ _ r ready line); [done..|pose proof (ca_room _ _ _ _ Hat); unfold INPUT_BUF_SIZE in *; lia|].
    intros d' Hat' Ho Hs. apply Hrel. cbn [fst snd]. rewrite Nat.eqb_refl. simpl.
    split_and!; try done. apply not_elem_of_nil. }
  destruct ((c =? C_H) || (c =? DEL)) eqn:Edel.
  { do 2 apply run_assoc, run_dev. rewrite (no_line _ _ _ _ Hat).
    destruct line as [|x line _] using rev_ind; [rewrite bool_decide_eq_true_2 by done|rewrite bool_decide_eq_false_2 by by destruct line].
    - simpl. apply Hrel. cbn [fst snd]. rewrite Nat.eqb_refl. simpl. rewrite app_nil_r. by split_and!.
    - apply run_assoc, run_upd_dev. apply run_erase; [done|]. intros h' Hh'. simpl in Hh'. apply Hrel.
      rewrite decide_False by by destruct line. rewrite removelast_last. cbn [fst snd]. rewrite Nat.eqb_refl. simpl.
      rewrite elem_of_app in Hnl. split_and!; try done; [exact (cons_at_hw _ _ _ _ h' (erase_one _ _ _ _ _ Hat))|tauto]. }
  do 2 apply run_assoc, run_dev. rewrite (used_space _ _ _ _ Hat).
  set (m := Z.of_nat (length ready + length line)). destruct (negb (c =? 0) && (m <? INPUT_BUF_SIZE)) eqn:Eroom.
  2:{ simpl. apply Hrel. cbn [fst snd]. rewrite Nat.eqb_refl. simpl. rewrite app_nil_r. by split_and!. }
  apply andb_true_iff in Eroom as [_ Hroom%Z.ltb_lt]. set (c' := if c =? CR then NL else c).
  assert (0 ≤ c' < 256) as Hc' by (subst c'; unfold NL; case_match; lia).
  assert (u8 c' = c') as Hu8 by (by apply Z.mod_small).
  cbv zeta. apply run_assoc, run_consputc; [done|unfold BACKSPACE; lia|]. intros h' Hh'.
  apply run_assoc, run_upd_dev. simpl. fold c'. rewrite Hu8 in *.
  pose proof (store_one (set_hw h' d) r ready line c' (cons_at_hw _ _ _ _ h' Hat) Hroom) as Hat1. simpl in Hat1.
  assert (u32 (u32 (cons_e d + 1) - cons_r d) = m + 1) as ->.
  { rewrite (ca_e _ _ _ _ Hat), (ca_r _ _ _ _ Hat). fold m. pose proof (ca_range _ _ _ _ Hat). unfold m in *. cons_lia. }
  destruct ((c' =? NL) || (c' =? C_D) || (m + 1 =? INPUT_BUF_SIZE)) eqn:Edone.
  - apply run_assoc, run_upd_dev. simpl.
    eapply run_tr; [apply wakeup_tr; [set_solver|done]|apply store_same_wakeup|]. intros _ ? ->. apply Hrel. cbn [fst snd].
    rewrite (proj2 (Nat.eqb_neq _ (length ready))) by (rewrite !length_app; simpl; lia). simpl.
    split_and!; try done; [|apply not_elem_of_nil]. exact (commit_line _ _ _ _ Hat1).
  - simpl. apply Hrel. cbn [fst snd]. rewrite Nat.eqb_refl. simpl. rewrite !orb_false_iff in Edone.
    split_and!; try done. rewrite elem_of_app, list_elem_of_singleton. destruct Edone as [[Hn%Z.eqb_neq _] _]. naive_solver.
Qed.


(** ** Reading *)

Section read.
Context (cur : nat) (p : proc) (T : tables) (l : list proc) (np : Z) (ip : option nat) (line : list Z) (target : Z).

(** The first [k] of the bytes [bs] are in user memory at [dst], and [q'] is
    ready: what follows them, unless a byte could not be copied, which is lost. *)
Definition got (K0 : kst) (L0 : leaves) (d0 : devst H) (dst : Z) (q bs : list Z) (rest : list Z) (k : nat)
    (Kd : kst * devst H) : Prop :=
  ∃ fl L r q', vm_inv Kd.1 fl T L ∧ cons_at Kd.2 r q' line ∧ others d0 Kd.2 ∧ hw Kd.2 = hw d0 ∧
    (∀ r' va, view Kd.1 L r' va = view_write (view K0 L0) (pagetable p) dst (byte_of_Z <$> take k bs) r' va) ∧
    ((k = length bs ∧ q' = rest) ∨
     ((k < length bs)%nat ∧ q' = drop (S k) q ∧ (writable L (pagetable p) (dst + Z.of_nat k) = false ∨ fl = []))).

Lemma console_others_trans (d1 d2 d3 : devst H) : others d1 d2 → others d2 d3 → others d1 d3.
Proof. unfold others. naive_solver congruence. Qed.

Lemma got_step K0 L0 d0 K1 L1 d1 dst c q bs rest k Kd :
  (∀ r' va, view K1 L1 r' va = view_write (view K0 L0) (pagetable p) dst [byte_of_Z c] r' va) →
  others d0 d1 → hw d1 = hw d0 →
  got K1 L1 d1 (dst + 1) q bs rest k Kd → got K0 L0 d0 dst (c :: q) (c :: bs) rest (S k) Kd.
Proof.
  intros Hv Ho Hh (fl & L & r & q' & Hinv & Hat & Ho' & Hh' & Hview & Hk). exists fl, L, r, q'.
  split_and!; [done|done|by eapply console_others_trans|congruence| |].
  - intros r' va. rewrite Hview. cbn [take]. rewrite fmap_cons.
    change (byte_of_Z c :: ?x) with ([byte_of_Z c] ++ x). rewrite view_write_app. unfold view_write at 1 2. by rewrite Hv.
  - simpl. destruct Hk as [[-> ->]|(Hlt & -> & Hw)]; [by left|right]. split_and!; [lia|done|].
    by replace (dst + Z.of_nat (S k)) with (dst + 1 + Z.of_nat k) by lia.
Qed.

Hypothesis (Hl : length l = Z.to_nat NPROC) (Hp : l !! cur = Some p).
Hypothesis (HT : T !! (pagetable p, []) = Some (pagetable p)).

(** The reader returns [v] or sleeps, as [read_line] says. *)
Definition read_returns K0 L0 d0 dst q n (v : Z) (k : cfg) (Kd : kst * devst H) : Prop :=
  let '(bs, o) := read_line (Z.to_nat n) (n =? target) q in
  k = Cfg 0 [] l np ip ∧
  ∃ j, got K0 L0 d0 dst q bs (default [] o) j Kd ∧
    (v = target - n + Z.of_nat j ∧ (j = length bs → is_Some o) ∨
     v = -1 ∧ o = None ∧ j = length bs ∧ killed_ p ≠ 0).
Definition read_sleeps K0 L0 d0 dst q n (ch : Z) (k : cfg) (Kd : kst * devst H) : Prop :=
  let '(bs, o) := read_line (Z.to_nat n) (n =? target) q in
  ch = chan_cons ∧ o = None ∧ killed_ p = 0 ∧ k = Cfg 1 [LProc cur] (asleep cur chan_cons l) np ip ∧
  got K0 L0 d0 dst q bs [] (length bs) Kd.

Lemma consoleread_loop_run fuel n dst fl L r q K d :
  n ≤ target → (Z.to_nat n < fuel)%nat → 0 ≤ dst → dst + n < 2 ^ 64 → vm_inv K fl T L → cons_at d r q line →
  run (Cfg 1 [cons_lock] l np ip) (K, d) (consoleread_loop fuel cur true dst target n)
    (read_returns K L d dst q n) (read_sleeps K L d dst q n).
Proof using Hl Hp HT.
  revert n dst fl L r q K d. induction fuel as [|fuel IH]; intros n dst fl L r q K d Hn Hf Hd Hdn Hv Hat; [lia|].
  assert (∀ Kd v (Q : Z → cfg → kst * devst H → Prop) S, Q v (Cfg 0 [] l np ip) Kd →
    run (Cfg 1 [cons_lock] l np ip) Kd (release cons_lock;; mret v) Q S) as Hrel.
  { intros Kd v Q S HQ. eapply run_tr; [apply release_tr, not_elem_of_nil|apply store_same_release|]. intros _ ? ->.
    by apply run_ret. }
  assert (∀ q0 bs d' r', cons_at d' r' q0 line → others d d' → hw d' = hw d → got K L d dst q bs q0 0 (K, d') ∨ bs ≠ []) as Hgot0.
  { intros q0 bs d' r' Hat' Ho Hh. destruct bs; [left|by right]. exists fl, L, r', q0. split_and!; try done.
    - intros. by rewrite view_write_nil.
    - by left. }
  cbn [consoleread_loop]. unfold read_returns, read_sleeps in *.
  destruct (Z.gtb_spec n 0) as [Hpos|Hpos].
  2:{ apply Hrel. replace (Z.to_nat n) with 0%nat by lia. cbn [read_line]. split; [done|]. exists 0%nat.
      split; [|left; split; [lia|done]]. destruct (Hgot0 q [] d r) as [?|?]; [done|by repeat split|done|done|done]. }
  apply run_dev, run_dev. rewrite (none_ready _ _ _ _ Hat).
  destruct (Z.to_nat n) as [|m] eqn:Em; [lia|]. cbn [read_line]. destruct q as [|c q].
  { rewrite bool_decide_eq_true_2 by done. eapply run_tr; [apply killed_tr; [set_solver|done]|apply store_same_killed|].
    intros ? ? [-> ->].
    assert (got K L d dst [] [] [] 0 (K, d)) as Hg by (destruct (Hgot0 [] [] d r) as [?|?]; [done|by repeat split|done..]).
    destruct (Z.eqb_spec (killed_ p) 0) as [Hk|Hk]; simpl negb; cbv iota.
    - eapply run_sleep; [done|done|]. simpl. by split_and!.
    - apply Hrel. split; [done|]. exists 0%nat. split; [done|]. right. done. }
  rewrite bool_decide_eq_false_2 by done. apply run_dev, run_upd_dev. rewrite (ca_r _ _ _ _ Hat).
  destruct (take_one _ _ _ _ _ Hat) as [Hat1 ->]. destruct (Z.eqb_spec c C_D) as [->|HcD].
  { destruct (Z.ltb_spec n target) as [Hnt|Hnt].
    - apply run_upd_dev. simpl cons_buf. apply Hrel. rewrite (proj2 (Z.eqb_neq _ _)) by lia. split; [done|]. exists 0%nat.
      split; [|left; split; [lia|done]].
      destruct (Hgot0 (C_D :: q) [] (set_cons (cons_buf d) (u32 (u32 (r + 1) - 1)) (cons_w d) (cons_e d) d) r) as [?|?];
        [by apply untake|by repeat split|done|done|done].
    - apply run_bind with (P := λ _ k' K', k' = Cfg 1 [cons_lock] l np ip ∧ K' = (K, set_cons (cons_buf d) (u32 (r + 1)) (cons_w d) (cons_e d) d));
        [by apply run_ret|]. intros _ ? ? [-> ->]. apply Hrel. assert (n = target) as -> by lia. rewrite Z.eqb_refl.
      split; [done|]. exists 0%nat. split; [|left; split; [lia|done]].
      destruct (Hgot0 q [] (set_cons (cons_buf d) (u32 (r + 1)) (cons_w d) (cons_e d) d) (u32 (r + 1))) as [?|?];
        [done|by repeat split|done|done|done]. }
  apply run_assoc. eapply run_get_proc; [done|].
  eapply run_vm_kd_wp; [apply (copyout_byte K fl T L (pagetable p) dst (byte_of_Z c) Hv HT); lia|].
  intros res K2 (fl2 & L2 & Hv2 & _ & Hres). set (d1 := set_cons (cons_buf d) (u32 (r + 1)) (cons_w d) (cons_e d) d) in *.
  assert (others d d1) as Ho by by repeat split. destruct Hres as [[-> Hview2]|(-> & Hview2 & Hw)]; simpl (_ =? -1); cbv iota.
  - destruct (Z.eqb_spec c NL) as [->|HcN].
    + apply Hrel. split; [done|]. exists 1%nat. split; [|left; split; [lia|done]].
      eapply got_step; [exact Hview2|exact Ho|done|]. exists fl2, L2, (u32 (r + 1)), q.
      split_and!; try done; [intros; by rewrite view_write_nil|by left].
    + rewrite u64_small by lia.
      specialize (IH (n - 1) (dst + 1) fl2 L2 (u32 (r + 1)) q K2 d1 ltac:(lia) ltac:(lia) ltac:(lia) ltac:(lia) Hv2 Hat1).
      rewrite (proj2 (Z.eqb_neq (n - 1) target)) in IH by lia. replace (Z.to_nat (n - 1)) with m in IH by lia.
      destruct (read_line m false q) as [bs o]. eapply run_mono; [exact IH|..].
      * intros v k Kd (-> & j & Hg & Hv'). split; [done|]. exists (S j). split; [by eapply got_step|]. simpl.
        destruct Hv' as [[-> Ho']|(-> & -> & -> & Hk)]; [left; split; [lia|naive_solver]|by right].
      * intros ch k Kd (-> & -> & Hk & -> & Hg). split_and!; try done. by eapply got_step.
  - apply Hrel. destruct (read_line m false q) as [bs o].
    assert (∃ bs', (if c =? NL then ([c], Some q) else (c :: bs, o)) = (c :: bs', if c =? NL then Some q else o)) as [bs' ->]
      by (case_match; by eexists).
    split; [done|]. exists 0%nat. split; [|left; split; [lia|done]]. exists fl2, L2, (u32 (r + 1)), q.
    split_and!; try done; [intros; by rewrite view_write_nil|]. right. split_and!; [simpl; lia|done|by rewrite Z.add_0_r].
Qed.

End read.
(** C26: line editing.  [consoleintr] on a character does to the bytes ready for
    readers and to the line being typed exactly what [edit] says: control-U
    erases the line, and backspace and delete its last character; control-P and
    NUL leave both alone; any other character is appended, a carriage return as a
    newline, unless the buffer is full, which swallows it; and a newline, a
    control-D or the character that fills the buffer makes the line ready and
    wakes the readers.  What is sent to the terminal is the echo [edit] gives,
    and for control-P the list of the processes.  The three counters may have
    wrapped around, and 128 bytes never overflow. *)
Theorem consoleintr_correct b s cur c r ready line :
  thr b 0 [] s → length (procs s) = Z.to_nat NPROC → 0 ≤ c < 256 →
  let d := devs (files s) in
  panicked d = false → cons_at d r ready line → NL ∉ line →
  wp (consoleintr spins cur c) s (λ _ s',
    let d' := devs (files s') in let '(ready', line', echo) := edit c ready line in
    thr b 0 [] s' ∧ kern s' = kern s ∧ others d d' ∧ cons_at d' r ready' line' ∧ (NL ∉ line') ∧
    sent (hw d') = sent (hw d) ++ (if c =? C_P then dump (procs s) else echo) ∧
    procs s' = if completes c ready line then wake cur chan_cons (procs s) else procs s).
Proof using UartLaws0.
  intros Hs Hl Hc d Hp Hat Hnl.
  pose proof (consoleintr_run cur c r ready line (kern s) d (procs s) (nextpid s) (initproc s) Hc Hat Hnl Hp Hl
    b s ltac:(done) eq_refl) as Hr. unfold wp. destruct (consoleintr spins cur c s) as [[] s'| | |ch s'|]; try done.
  - destruct Hr as (k & (Ht & Hps & _) & Hpost). unfold cons_post in Hpost. destruct (edit c ready line) as [[ready' line'] echo].
    destruct Hpost as (HK & Hat' & Hnl' & Ho & Hse & ->). simpl in *. by split_and!.
  - by destruct Hr as (? & _ & []).
Qed.

(** C27: reading the console.  [consoleread] gives the caller the bytes
    [read_line] takes from the ready ones: up to and including the first
    newline, at most as many as asked for, and nothing of a control-D, which
    ends the read and is kept for the next one unless the read got nothing.  It
    writes them to the caller's buffer and nowhere else, and returns their
    number.  If the line does not end it has delivered all ready bytes and sleeps
    until [consoleintr] wakes it, or returns -1 if the caller was killed.  A byte
    that cannot be copied out ends the read, and is lost. *)
Theorem consoleread_correct b s cur p dst n fl T L r q line :
  thr b 0 [] s → length (procs s) = Z.to_nat NPROC → procs s !! cur = Some p →
  T !! (pagetable p, []) = Some (pagetable p) → vm_inv (kern s) fl T L → cons_at (devs (files s)) r q line →
  0 ≤ dst → dst + n < 2 ^ 64 →
  let '(bs, o) := read_line (Z.to_nat n) true q in
  match consoleread cur true dst n s with
  | Ok v s' => thr b 0 [] s' ∧ procs s' = procs s ∧
      ∃ j, got p T line (kern s) L (devs (files s)) dst q bs (default [] o) j (kern s', devs (files s')) ∧
        (v = Z.of_nat j ∧ (j = length bs → is_Some o) ∨ v = -1 ∧ o = None ∧ j = length bs ∧ killed_ p ≠ 0)
  | Sleep ch s' => ch = chan_cons ∧ o = None ∧ killed_ p = 0 ∧ thr b 1 [LProc cur] s' ∧
      procs s' = asleep cur chan_cons (procs s) ∧
      got p T line (kern s) L (devs (files s)) dst q bs [] (length bs) (kern s', devs (files s'))
  | _ => False
  end.
Proof.
  intros Hs Hl Hp HT Hv Hat Hd Hdn.
  assert (run (Cfg 0 [] (procs s) (nextpid s) (initproc s)) (kd s) (consoleread cur true dst n)
    (read_returns p T (procs s) (nextpid s) (initproc s) line n (kern s) L (devs (files s)) dst q n)
    (read_sleeps cur p T (procs s) (nextpid s) (initproc s) line n (kern s) L (devs (files s)) dst q n)) as Hr.
  { unfold consoleread. eapply run_tr; [apply acquire_tr, not_elem_of_nil|apply store_same_acquire|]. intros _ k ->.
    eapply consoleread_loop_run; try done; lia. }
  specialize (Hr b s ltac:(done) eq_refl). unfold read_returns, read_sleeps in Hr. rewrite Z.eqb_refl in Hr.
  destruct (read_line (Z.to_nat n) true q) as [bs o]. destruct (consoleread cur true dst n s) as [v s'| | |ch s'|]; try done.
  - destruct Hr as (k & (Ht & Hps & _) & -> & j & Hg & Hv'). simpl in *. split_and!; [done..|]. exists j. split; [done|].
    destruct Hv' as [[-> ?]|?]; [left; split; [lia|done]|by right].
  - destruct Hr as (k & (Ht & Hps & _) & -> & -> & Hk & -> & Hg). by split_and!.
Qed.

End spec.

(** ** Witnesses *)

(** A chip that is always ready, and the device state after boot with one line
    typed ahead. *)
#[local] Instance demo_chip : UartHw (list Z) := {
  ReadReg_hw r h := (LSR_TX_IDLE, h);
  WriteReg_hw r v h := if r =? THR then h ++ [v] else h;
}.
#[local] Instance demo_chip_laws : UartLaws (list Z) 1.
Proof. by refine {| sent h := h |}. Defined.
#[local] Existing Instance demo_image.
#[local] Existing Instance demo_text.

Definition demo_dev : devst (list Z) :=
  mk_devst (replicate 32 0) 0 0 ([0x68; NL] ++ replicate 126 0) 0 2 2 false true [].
Definition demo_cons (k : kst) (l : list proc) : pst (fstate (devst (list Z))) :=
  mk_pst k l 4 (Some 0%nat) false
    (mk_fstate (mk_fsst (mk_logst (mk_bst [] 0 0 (λ _, []) [] 0 [] []) 0 0 0 false 0 []) [] (mk_sb 0 0 0 0 0 0 0 0)) [] demo_dev)
    (mk_cpu 0 false false) [].

Lemma demo_cons_at : cons_at demo_dev 0 [0x68; NL] [].
Proof.
  split; try done. intros i c Hi. destruct i as [|[|i]]; simpl in Hi; try (by injection Hi as <-); done.
Qed.

(** An outcome whose sleeping branch is impossible. *)
Lemma never_sleeps {S A} (o : outcome S A) (P : A → S → Prop) (Q : Z → S → Prop) :
  match o with Ok v s' => P v s' | Sleep ch s' => Q ch s' | _ => False end → (∀ ch s', ¬ Q ch s') →
  match o with Ok v s' => P v s' | Sleep _ _ => False | _ => False end.
Proof. destruct o; [done..| |done]. intros Hq Hn. exact (Hn _ _ Hq). Qed.

Lemma consoleintr_correct_witness :
  wp (consoleintr 1 None 0x68) (demo_cons (boot_state (λ _, x00)) (demo_table RUNNABLE)) (λ _ s',
    cons_at (devs (files s')) 0 [0x68; NL] [0x68] ∧ hw (devs (files s')) = [0x68]).
Proof.
  eapply wp_mono; [apply (consoleintr_correct 1 false (demo_cons (boot_state (λ _, x00)) (demo_table RUNNABLE)) None 0x68 0 [0x68; NL] []);
    [by repeat split|reflexivity|lia|reflexivity|exact demo_cons_at|apply not_elem_of_nil]|].
  intros [] s' (_ & _ & _ & Hat & _ & Hs & _). split; [exact Hat|exact Hs].
Defined.

Lemma consoleread_correct_witness :
  ∃ k fl T L, let s := demo_cons k (<[1%nat := trap_proc 0x87fff000 0x87ffe000]> (demo_table RUNNABLE)) in
    let p := trap_proc 0x87fff000 0x87ffe000 in
    vm_inv k fl T L ∧
    match consoleread 1 true 8 100 s with
    | Ok v s' => thr false 0 [] s' ∧ procs s' = procs s ∧
        ∃ j, got p T [] k L demo_dev 8 [0x68; NL] [0x68; NL] [] j (kern s', devs (files s')) ∧
          (v = Z.of_nat j ∧ (j = 2%nat → is_Some (Some (@nil Z))) ∨ v = -1 ∧ Some (@nil Z) = None ∧ j = 2%nat ∧ killed_ p ≠ 0)
    | Sleep _ _ => False
    | _ => False
    end.
Proof.
  destruct (run_value demo_cow (boot_state (λ _, x00)) (0x87fff000, 0x87ffe000, 0x87ffd000, 0, false)) as [k Hk];
    [vm_compute; reflexivity|].
  destruct (demo_cow_ok _ _ _ _ _ Hk) as (fl & (T & L & pte & Hv & HT & Ha & HL & Hc) & He); [lia..|].
  exists k, fl, T, L. split; [exact Hv|].
  pose proof (consoleread_correct false (demo_cons k (<[1%nat := trap_proc 0x87fff000 0x87ffe000]> (demo_table RUNNABLE))) 1
    (trap_proc 0x87fff000 0x87ffe000) 8 100 fl T L 0 [0x68; NL] [] ltac:(by repeat split) eq_refl eq_refl HT Hv demo_cons_at
    ltac:(lia) ltac:(lia)) as Hr.
  change (read_line (Z.to_nat 100) true [0x68; NL]) with ([0x68; NL], Some (@nil Z)) in Hr.
  refine (never_sleeps _ _ _ Hr _). intros ch s' (_ & [=] & _).
Defined.
