(* ===== verification/Exec.v ===== *)
(** * Program loading, [kernel/exec.c]

    [exec] replaces the address space of a process by one built from an ELF
    file: it reads the headers through the file system, maps and fills the
    segments, builds the stack with the argument strings and the array of
    pointers to them, and commits only when all of that succeeded.  [argv] is
    the list of pages that hold the argument strings. *)

From S2P Require Import Prelude Riscv Mem CString Kalloc Vm Spinlock Proc Bio Log Fs Pipe File.

Definition ELF_MAGIC : Z := 0x464C457F.
Definition ELF_PROG_LOAD : Z := 1.

(** The fields of [struct elfhdr] and [struct proghdr] that [exec] uses. *)
Record elfhdr := mk_elfhdr { e_magic : Z; e_entry : Z; e_phoff : Z; e_phnum : Z }.
Record proghdr := mk_proghdr { p_type : Z; p_flags : Z; p_off : Z; p_vaddr : Z; p_filesz : Z; p_memsz : Z }.

Definition sizeof_elfhdr : Z := 64.
Definition sizeof_proghdr : Z := 56.

Definition field (d : list byte) (o n : nat) : Z := le_decode (take n (drop o d)).
Definition decode_elfhdr (d : list byte) : elfhdr :=
  mk_elfhdr (field d 0 4) (field d 24 8) (field d 32 8) (field d 56 2).
Definition decode_proghdr (d : list byte) : proghdr :=
  mk_proghdr (field d 0 4) (field d 4 4) (field d 8 8) (field d 16 8) (field d 32 8) (field d 40 8).

Definition flags2perm (flags : Z) : Z :=
  let perm := if band flags 0x1 then PTE_X else 0 in
  if band flags 0x2 then Z.lor perm PTE_W else perm.

Section exec.
Context {D : Type} `{!KernelImage} `{!KernelText} `{!DevSw D}.
Local Abbreviation F := (fstate D).
Implicit Types s : pst F.

(** [readi] into a kernel variable. *)
Definition readi_k (cur : nat) (ip : nat) (off n : Z) : M (pst F) (Z * list byte) :=
  fsop cur (readi_kernel ip off n).

Fixpoint loadseg_loop (fuel : nat) (cur : nat) (pt va : Z) (ip : nat) (offset size i : Z) : M (pst F) Z :=
  match fuel with
  | O => no_fuel
  | S fuel =>
      if i <? size then
        pa ← vm (walkaddr pt (u64 (va + i)));
        if pa =? 0 then panic "loadseg: address should exist"
        else
          let n := if size - i <? PGSIZE then size - i else PGSIZE in
          '(r, _) ← readi (λ A (c : M fsst A), fsop cur c) (either_copyout cur false) ip pa (u32 (offset + i)) n;
          if negb (r =? n) then mret (-1)
          else loadseg_loop fuel cur pt va ip offset size (i + PGSIZE)
      else mret 0
  end.
Definition loadseg (cur : nat) (pt va : Z) (ip : nat) (offset size : Z) : M (pst F) Z :=
  loadseg_loop (S (Z.to_nat ((size + PGSIZE - 1) / PGSIZE))) cur pt va ip offset size 0.

(** The loop over the program headers: the size reached, and whether it went
    through. *)
Fixpoint exec_load (n : nat) (cur : nat) (pt : Z) (ip : nat) (off size : Z) : M (pst F) (Z * bool) :=
  match n with
  | O => mret (size, true)
  | S n =>
      '(r, bs) ← readi_k cur ip (u32 off) sizeof_proghdr;
      if negb (r =? sizeof_proghdr) then mret (size, false)
      else
        let ph := decode_proghdr bs in
        if negb (p_type ph =? ELF_PROG_LOAD) then exec_load n cur pt ip (i32 (off + sizeof_proghdr)) size
        else if p_memsz ph <? p_filesz ph then mret (size, false)
        else if u64 (p_vaddr ph + p_memsz ph) <? p_vaddr ph then mret (size, false)
        else if negb (p_vaddr ph mod PGSIZE =? 0) then mret (size, false)
        else
          sz1 ← vm (uvmalloc pt size (u64 (p_vaddr ph + p_memsz ph)) (flags2perm (p_flags ph)));
          if sz1 =? 0 then mret (size, false)
          else
            r ← loadseg cur pt (p_vaddr ph) ip (u32 (p_off ph)) (u32 (p_filesz ph));
            if r <? 0 then mret (sz1, false)
            else exec_load n cur pt ip (i32 (off + sizeof_proghdr)) sz1
  end.

(** [strlen] of the string in a page, and its bytes with the NUL. *)
Definition str_at (a : Z) : M kst (list byte) :=
  m ← gets mem;
  match strlen (Z.to_nat PGSIZE) (λ i, m (a + Z.of_nat i)) with
  | Some n => read_bytes a (S n)
  | None => no_fuel
  end.

(** Pushing the argument strings: the stack pointer and [ustack], or none. *)
Fixpoint exec_args (argv : list Z) (pt stackbase sp : Z) (ustack : list Z) : M (pst F) (option (Z * list Z)) :=
  match argv with
  | [] => mret (Some (sp, ustack))
  | a :: argv =>
      if Z.of_nat (length ustack) >=? MAXARG then mret None
      else
        str ← vm (str_at a);
        let sp := u64 (sp - Z.of_nat (length str)) in
        let sp := u64 (sp - sp mod 16) in
        if sp <? stackbase then mret None
        else
          r ← vm (copyout pt sp str);
          if r <? 0 then mret None else exec_args argv pt stackbase sp (ustack ++ [sp])
  end.

(** The characters after the last slash of the path. *)
Fixpoint last_elem (path last : list byte) : list byte :=
  match path with
  | [] => last
  | c :: rest => if decide (c = x00) then last else last_elem rest (if decide (c = slash) then rest else last)
  end.

(** The label [bad]. *)
Definition exec_bad (cur : nat) (pt size : Z) (ip : option nat) : M (pst F) Z :=
  (if pt =? 0 then mret () else vm (proc_freepagetable pt size));;
  (match ip with
   | Some ip => fsop cur (iunlockput ip);; end_op cur
   | None => mret ()
   end);;
  mret (-1).

(** From the commit on, and the stack before it. *)
Definition exec_commit (cur : nat) (path : list byte) (entry pt oldsz size sp : Z) : M (pst F) unit :=
  p ← get_proc cur;
  vm (st (trapframe p + tf_a1) sp);;
  upd_proc cur (write_name (safestrcpy (ptr (last_elem path path)) sizeof_name));;
  upd_proc cur (set_pagetable pt);;
  upd_proc cur (set_sz size);;
  vm (st (trapframe p + tf_epc) entry);;
  vm (st (trapframe p + tf_sp) sp);;
  vm (proc_freepagetable (pagetable p) oldsz).

Definition exec_stack (cur : nat) (path : list byte) (argv : list Z) (entry pt size : Z) : M (pst F) Z :=
  p ← get_proc cur;
  let oldsz := sz p in
  let size := PGROUNDUP size in
  sz1 ← vm (uvmalloc pt size (u64 (size + 2 * PGSIZE)) PTE_W);
  if sz1 =? 0 then exec_bad cur pt size None
  else
    vm (uvmclear pt (sz1 - 2 * PGSIZE));;
    let stackbase := sz1 - PGSIZE in
    r ← exec_args argv pt stackbase sz1 [];
    match r with
    | None => exec_bad cur pt sz1 None
    | Some (sp, ustack) =>
        let argc := Z.of_nat (length ustack) in
        let sp := u64 (sp - (argc + 1) * 8) in
        let sp := u64 (sp - sp mod 16) in
        if sp <? stackbase then exec_bad cur pt sz1 None
        else
          r ← vm (copyout pt sp (concat (map (le_encode 8) (ustack ++ [0]))));
          if r <? 0 then exec_bad cur pt sz1 None
          else exec_commit cur path entry pt oldsz sz1 sp;; mret argc
    end.

Definition exec (cur : nat) (path : list byte) (argv : list Z) : M (pst F) Z :=
  p ← get_proc cur;
  begin_op cur;;
  o ← fsop cur (namei (of_ptr (cwd p)) path);
  match o with
  | None => end_op cur;; mret (-1)
  | Some ip =>
      fsop cur (ilock ip);;
      '(r, bs) ← readi_k cur ip 0 sizeof_elfhdr;
      if negb (r =? sizeof_elfhdr) then exec_bad cur 0 0 (Some ip)
      else
        let elf := decode_elfhdr bs in
        if negb (e_magic elf =? ELF_MAGIC) then exec_bad cur 0 0 (Some ip)
        else
          pt ← vm (proc_pagetable (trapframe p));
          if pt =? 0 then exec_bad cur 0 0 (Some ip)
          else
            '(size, ok) ← exec_load (Z.to_nat (e_phnum elf)) cur pt ip (i32 (e_phoff elf)) 0;
            if negb ok then exec_bad cur pt size (Some ip)
            else
              fsop cur (iunlockput ip);;
              end_op cur;;
              exec_stack cur path argv (e_entry elf) pt size
  end.

End exec.
