(* ===== verification/Sysfile.v ===== *)
(** * File system calls, [kernel/sysfile.c]

    The handlers of the file system calls: argument fetching, descriptors, and
    the transactions over directories and inodes that make links, create and
    remove names, open files and change directory.  [filecalls] is their part of
    the system call table. *)

From S2P Require Import Prelude Fcntl Riscv Mem CString Kalloc Vm Spinlock Proc Syscall Bio Log Fs Pipe File Exec.

(** ** Directory operations *)

Fixpoint isdirempty_loop (fuel : nat) (dp : nat) (off : Z) : M fsst bool :=
  match fuel with
  | O => no_fuel
  | S fuel =>
      x ← get_inode dp;
      if off <? d_size (i_d x) then
        '(r, bs) ← readi_kernel dp off sizeof_dirent;
        if negb (r =? sizeof_dirent) then panic "isdirempty: readi"
        else if negb (de_inum (decode_dirent bs) =? 0) then mret false
        else isdirempty_loop fuel dp (off + sizeof_dirent)
      else mret true
  end.
Definition isdirempty (dp : nat) : M fsst bool :=
  x ← get_inode dp;
  isdirempty_loop (S (Z.to_nat (d_size (i_d x) / sizeof_dirent + 1))) dp (2 * sizeof_dirent).

(** The label [fail] of [create]. *)
Definition create_fail (ip dp : nat) : M fsst (option nat) :=
  upd_d ip (dset_nlink 0);;
  iupdate ip;;
  iunlockput ip;;
  iunlockput dp;;
  mret None.

(** The new inode, locked, or none. *)
Definition create (cwd : nat) (path : list byte) (type major minor : Z) : M fsst (option nat) :=
  '(o, nm) ← nameiparent cwd path;
  match o with
  | None => mret None
  | Some dp =>
      ilock dp;;
      r ← dirlookup dp nm;
      match r with
      | Some (ip, _) =>
          iunlockput dp;;
          ilock ip;;
          x ← get_inode ip;
          let t := d_type (i_d x) in
          if (type =? T_FILE) && ((t =? T_FILE) || (t =? T_DEVICE)) then mret (Some ip)
          else iunlockput ip;; mret None
      | None =>
          y ← get_inode dp;
          o ← ialloc (i_dev y) type;
          match o with
          | None => iunlockput dp;; mret None
          | Some ip =>
              ilock ip;;
              upd_d ip (dset_dev major minor);;
              upd_d ip (dset_nlink 1);;
              iupdate ip;;
              x ← get_inode ip;
              r ← (if type =? T_DIR then
                     a ← dirlink ip (bytes ".") (i_inum x);
                     if a <? 0 then mret (-1) else dirlink ip (bytes "..") (i_inum y)
                   else mret 0);
              if r <? 0 then create_fail ip dp
              else
                r ← dirlink dp nm (i_inum x);
                if r <? 0 then create_fail ip dp
                else
                  (if type =? T_DIR then
                     upd_d dp (λ d, dset_nlink (i16 (d_nlink d + 1)) d);;
                     iupdate dp
                   else mret ());;
                  iunlockput dp;;
                  mret (Some ip)
          end
      end
  end.

(** The transaction of [sys_link]. *)
Definition link_bad (ip : nat) : M fsst Z :=
  ilock ip;;
  upd_d ip (λ d, dset_nlink (i16 (d_nlink d - 1)) d);;
  iupdate ip;;
  iunlockput ip;;
  lg Log.end_op;;
  mret (-1).
Definition link (cwd : nat) (old new : list byte) : M fsst Z :=
  lg Log.begin_op;;
  o ← namei cwd old;
  match o with
  | None => lg Log.end_op;; mret (-1)
  | Some ip =>
      ilock ip;;
      x ← get_inode ip;
      if d_type (i_d x) =? T_DIR then iunlockput ip;; lg Log.end_op;; mret (-1)
      else
        upd_d ip (λ d, dset_nlink (i16 (d_nlink d + 1)) d);;
        iupdate ip;;
        iunlock ip;;
        '(o, nm) ← nameiparent cwd new;
        match o with
        | None => link_bad ip
        | Some dp =>
            ilock dp;;
            y ← get_inode dp;
            x ← get_inode ip;
            r ← (if negb (i_dev y =? i_dev x) then mret (-1) else dirlink dp nm (i_inum x));
            if r <? 0 then iunlockput dp;; link_bad ip
            else
              iunlockput dp;;
              Fs.iput ip;;
              lg Log.end_op;;
              mret 0
        end
  end.

(** The transaction of [sys_unlink]. *)
Definition unlink_bad (dp : nat) : M fsst Z := iunlockput dp;; lg Log.end_op;; mret (-1).
Definition unlink (cwd : nat) (path : list byte) : M fsst Z :=
  lg Log.begin_op;;
  '(o, nm) ← nameiparent cwd path;
  match o with
  | None => lg Log.end_op;; mret (-1)
  | Some dp =>
      ilock dp;;
      if (namecmp nm (bytes ".") =? 0) || (namecmp nm (bytes "..") =? 0) then unlink_bad dp
      else
        r ← dirlookup dp nm;
        match r with
        | None => unlink_bad dp
        | Some (ip, off) =>
            ilock ip;;
            x ← get_inode ip;
            if d_nlink (i_d x) <? 1 then panic "unlink: nlink < 1"
            else
              busy ← (if d_type (i_d x) =? T_DIR then e ← isdirempty ip; mret (negb e) else mret false);
              if (busy : bool) then iunlockput ip;; unlink_bad dp
              else
                r ← writei_kernel dp (replicate (Z.to_nat sizeof_dirent) x00) off;
                if negb (r =? sizeof_dirent) then panic "unlink: writei"
                else
                  (if d_type (i_d x) =? T_DIR then
                     upd_d dp (λ d, dset_nlink (i16 (d_nlink d - 1)) d);;
                     iupdate dp
                   else mret ());;
                  iunlockput dp;;
                  upd_d ip (λ d, dset_nlink (i16 (d_nlink d - 1)) d);;
                  iupdate ip;;
                  iunlockput ip;;
                  lg Log.end_op;;
                  mret 0
        end
  end.

(** ** Descriptors and handlers *)

Section sysfile.
Context {D : Type} `{!KernelImage} `{!KernelText} `{!DevSw D}.
Local Abbreviation F := (fstate D).
Implicit Types s : tst F.

(** The descriptor and the index of its file. *)
Definition argfd (cur : nat) (n : Z) : M (tst F) (option (Z * nat)) :=
  fd ← argint cur n;
  if (fd <? 0) || (fd >=? NOFILE) then mret None
  else
    p ← pcode (get_proc cur);
    let f := nth (Z.to_nat fd) (ofile p) 0 in
    if f =? 0 then mret None else mret (Some (fd, of_ptr f)).

(** The first free descriptor among the [n] from [fd] on. *)
Fixpoint fdalloc_loop (n : nat) (fd : nat) (cur : nat) (f : Z) : M (pst F) Z :=
  match n with
  | O => mret (-1)
  | S n =>
      p ← get_proc cur;
      if nth fd (ofile p) 0 =? 0 then
        upd_proc cur (λ p, set_ofile (<[fd := f]> (ofile p)) p);;
        mret (Z.of_nat fd)
      else fdalloc_loop n (S fd) cur f
  end.
Definition fdalloc (cur : nat) (f : Z) : M (pst F) Z := fdalloc_loop (Z.to_nat NOFILE) 0 cur f.

(** [p->ofile[fd] = 0]. *)
Definition fdclear (cur : nat) (fd : Z) : M (pst F) unit :=
  upd_proc cur (λ p, set_ofile (<[Z.to_nat fd := 0]> (ofile p)) p).

Definition sys_dup (cur : nat) : M (tst F) Z :=
  a ← argfd cur 0;
  match a with
  | None => mret (-1)
  | Some (_, f) =>
      fd ← pcode (fdalloc cur (to_ptr f));
      if fd <? 0 then mret (-1) else pcode (filedup (to_ptr f));; mret fd
  end.

Definition sys_read (cur : nat) : M (tst F) Z :=
  p ← argaddr cur 1;
  n ← argint cur 2;
  a ← argfd cur 0;
  match a with
  | None => mret (-1)
  | Some (_, f) => pcode (fileread cur f p n)
  end.

Definition sys_write (cur : nat) : M (tst F) Z :=
  p ← argaddr cur 1;
  n ← argint cur 2;
  a ← argfd cur 0;
  match a with
  | None => mret (-1)
  | Some (_, f) => pcode (filewrite cur f p n)
  end.

Definition sys_close (cur : nat) : M (tst F) Z :=
  a ← argfd cur 0;
  match a with
  | None => mret (-1)
  | Some (fd, f) => pcode (fdclear cur fd);; pcode (fileclose cur (to_ptr f));; mret 0
  end.

Definition sys_fstat (pad : list byte) (cur : nat) : M (tst F) Z :=
  st ← argaddr cur 1;
  a ← argfd cur 0;
  match a with
  | None => mret (-1)
  | Some (_, f) => pcode (filestat pad cur f st)
  end.

(** The index of the current directory. *)
Definition cwd_of (cur : nat) : M (tst F) nat := p ← pcode (get_proc cur); mret (of_ptr (cwd p)).

Definition sys_link (cur : nat) : M (tst F) Z :=
  '(n, old) ← argstr cur 0 MAXPATH;
  if n <? 0 then mret (-1)
  else
    '(n, new) ← argstr cur 1 MAXPATH;
    if n <? 0 then mret (-1)
    else d ← cwd_of cur; pcode (fsop cur (link d old new)).

Definition sys_unlink (cur : nat) : M (tst F) Z :=
  '(n, path) ← argstr cur 0 MAXPATH;
  if n <? 0 then mret (-1)
  else d ← cwd_of cur; pcode (fsop cur (unlink d path)).

(** Lines 319-337 of [sys_open]: the inode, locked. *)
Definition open_inode (cwd : nat) (path : list byte) (omode : Z) : M fsst (option nat) :=
  if band omode O_CREATE then create cwd path T_FILE 0 0
  else
    o ← namei cwd path;
    match o with
    | None => mret None
    | Some ip =>
        ilock ip;;
        x ← get_inode ip;
        if (d_type (i_d x) =? T_DIR) && negb (omode =? O_RDONLY) then iunlockput ip;; mret None
        else mret (Some ip)
    end.

(** The end of the failing paths of [sys_open]. *)
Definition open_bad (cur : nat) (ip : nat) : M (pst F) Z :=
  fsop cur (iunlockput ip);; end_op cur;; mret (-1).

Definition open_file (cur : nat) (ip : nat) (omode : Z) : M (pst F) Z :=
  x ← fsop cur (get_inode ip);
  let d := i_d x in
  if (d_type d =? T_DEVICE) && ((d_major d <? 0) || (d_major d >=? NDEV)) then open_bad cur ip
  else
    o ← filealloc;
    match o with
    | None => open_bad cur ip
    | Some f =>
        fd ← fdalloc cur (to_ptr f);
        if fd <? 0 then fileclose cur (to_ptr f);; open_bad cur ip
        else
          (if d_type d =? T_DEVICE then upd_file f (λ y, fset_major (d_major d) (fset_type FD_DEVICE y))
           else upd_file f (λ y, fset_off 0 (fset_type FD_INODE y)));;
          upd_file f (fset_ip (to_ptr ip));;
          upd_file f (fset_mode (negb (band omode O_WRONLY)) (band omode O_WRONLY || band omode O_RDWR));;
          (if band omode O_TRUNC && (d_type d =? T_FILE) then fsop cur (itrunc ip) else mret ());;
          fsop cur (iunlock ip);;
          end_op cur;;
          mret fd
    end.

Definition sys_open (cur : nat) : M (tst F) Z :=
  omode ← argint cur 1;
  '(n, path) ← argstr cur 0 MAXPATH;
  if n <? 0 then mret (-1)
  else
    d ← cwd_of cur;
    pcode (begin_op cur);;
    o ← pcode (fsop cur (open_inode d path omode));
    match o with
    | None => pcode (end_op cur);; mret (-1)
    | Some ip => pcode (open_file cur ip omode)
    end.

(** The common end of [sys_mkdir] and [sys_mknod]. *)
Definition make_node (cur : nat) (path : list byte) (type major minor : Z) : M (tst F) Z :=
  d ← cwd_of cur;
  o ← pcode (fsop cur (create d path type major minor));
  match o with
  | None => pcode (end_op cur);; mret (-1)
  | Some ip => pcode (fsop cur (iunlockput ip));; pcode (end_op cur);; mret 0
  end.

Definition sys_mkdir (cur : nat) : M (tst F) Z :=
  pcode (begin_op cur);;
  '(n, path) ← argstr cur 0 MAXPATH;
  if n <? 0 then pcode (end_op cur);; mret (-1) else make_node cur path T_DIR 0 0.

Definition sys_mknod (cur : nat) : M (tst F) Z :=
  pcode (begin_op cur);;
  major ← argint cur 1;
  minor ← argint cur 2;
  '(n, path) ← argstr cur 0 MAXPATH;
  if n <? 0 then pcode (end_op cur);; mret (-1) else make_node cur path T_DEVICE (i16 major) (i16 minor).

Definition sys_chdir (cur : nat) : M (tst F) Z :=
  pcode (begin_op cur);;
  '(n, path) ← argstr cur 0 MAXPATH;
  if n <? 0 then pcode (end_op cur);; mret (-1)
  else
    d ← cwd_of cur;
    o ← pcode (fsop cur (namei d path));
    match o with
    | None => pcode (end_op cur);; mret (-1)
    | Some ip =>
        pcode (fsop cur (ilock ip));;
        x ← pcode (fsop cur (get_inode ip));
        if negb (d_type (i_d x) =? T_DIR) then
          pcode (fsop cur (iunlockput ip));; pcode (end_op cur);; mret (-1)
        else
          pcode (fsop cur (iunlock ip));;
          pcode (fsop cur (Fs.iput d));;
          pcode (end_op cur);;
          pcode (upd_proc cur (set_cwd (to_ptr ip)));;
          mret 0
    end.

(** The loop of [sys_exec]: the pages of the arguments, and whether it reached
    the null pointer. *)
Fixpoint sys_exec_args (fuel : nat) (cur : nat) (uargv i : Z) (argv : list Z) : M (tst F) (list Z * bool) :=
  match fuel with
  | O => mret (argv, false)
  | S fuel =>
      '(r, uarg) ← fetchaddr cur (u64 (uargv + 8 * i));
      if r <? 0 then mret (argv, false)
      else if uarg =? 0 then mret (argv, true)
      else
        pg ← kcode kalloc;
        if pg =? 0 then mret (argv, false)
        else
          '(n, buf) ← fetchstr cur uarg PGSIZE;
          kcode (write_bytes pg buf);;
          if n <? 0 then mret (argv ++ [pg], false)
          else sys_exec_args fuel cur uargv (i + 1) (argv ++ [pg])
  end.

Fixpoint free_args (argv : list Z) : M (tst F) unit :=
  match argv with
  | [] => mret ()
  | a :: argv => kcode (kfree a);; free_args argv
  end.

Definition sys_exec (cur : nat) : M (tst F) Z :=
  uargv ← argaddr cur 1;
  '(n, path) ← argstr cur 0 MAXPATH;
  if n <? 0 then mret (-1)
  else
    '(argv, ok) ← sys_exec_args (Z.to_nat MAXARG) cur uargv 0 [];
    if (ok : bool) then
      ret ← pcode (exec cur path argv);
      free_args argv;;
      mret ret
    else free_args argv;; mret (-1).

(** Closing both ends after a failure of [sys_pipe]. *)
Definition pipe_bad (cur : nat) (rf wf : nat) : M (tst F) Z :=
  pcode (fileclose cur (to_ptr rf));; pcode (fileclose cur (to_ptr wf));; mret (-1).

Definition sys_pipe (cur : nat) : M (tst F) Z :=
  fdarray ← argaddr cur 0;
  o ← pcode (pipealloc cur);
  match o with
  | None => mret (-1)
  | Some (rf, wf) =>
      fd0 ← pcode (fdalloc cur (to_ptr rf));
      if fd0 <? 0 then pipe_bad cur rf wf
      else
        fd1 ← pcode (fdalloc cur (to_ptr wf));
        if fd1 <? 0 then pcode (fdclear cur fd0);; pipe_bad cur rf wf
        else
          p ← pcode (get_proc cur);
          r ← kcode (copyout (pagetable p) fdarray (le_encode 4 fd0));
          r ← (if r <? 0 then mret r else kcode (copyout (pagetable p) (u64 (fdarray + 4)) (le_encode 4 fd1)));
          if r <? 0 then
            pcode (fdclear cur fd0);; pcode (fdclear cur fd1);; pipe_bad cur rf wf
          else mret 0
  end.

(** The entries of the table; [pad] as in [filestat]. *)
Definition filecalls (pad : list byte) (cur : nat) (num : Z) : option (M (tst F) Z) :=
  if num =? SYS_pipe then Some (sys_pipe cur)
  else if num =? SYS_read then Some (sys_read cur)
  else if num =? SYS_exec then Some (sys_exec cur)
  else if num =? SYS_fstat then Some (sys_fstat pad cur)
  else if num =? SYS_chdir then Some (sys_chdir cur)
  else if num =? SYS_dup then Some (sys_dup cur)
  else if num =? SYS_open then Some (sys_open cur)
  else if num =? SYS_write then Some (sys_write cur)
  else if num =? SYS_mknod then Some (sys_mknod cur)
  else if num =? SYS_unlink then Some (sys_unlink cur)
  else if num =? SYS_link then Some (sys_link cur)
  else if num =? SYS_mkdir then Some (sys_mkdir cur)
  else if num =? SYS_close then Some (sys_close cur)
  else None.

End sysfile.
