(* ===== verification/FirstProc.v ===== *)
(** * What the first process does

    The program in [initcode] runs, from the memory that [userinit] gave it, up
    to its system call, and the kernel finds there the arguments of
    [exec("/init", {"/init", 0})]. *)

From S2P Require Import Prelude Riscv Mem CString Kalloc Vm VmTree VmOps VmFree Cow KvmSpec Spinlock Proc ProcSpec ProcTable Run Space ProcMem.
From S2P Require Import Syscall Trap TrapSpec Bio Log Fs Pipe File FileSpec UserInit Exec Sysfile Asm AsmSpec Usys.

(** ** Arguments in user memory *)

Section args.
Context {F : Type} `{!FileSys F} `{!KernelImage} `{!KernelText}.
Implicit Types s : tst F.

Lemma bind_Ok {S A B} (c : M S A) (f : A → M S B) t a t' : c t = Ok a t' → (c ≫= f) t = f a t'.
Proof. intros E. unfold mbind, M_bind. by rewrite E. Qed.

Lemma view_readable K L r va c : view K L r va = Some c → readable L r va = true.
Proof. unfold view, readable. destruct (L !! (r, pg va)) as [pte|]; [|done]. simpl. by destruct (band pte PTE_U). Qed.

(** User memory holds the string [body]. *)
Definition string_at (K : kst) (L : leaves) (r a : Z) (body : list byte) : Prop :=
  (∀ i, (i ≤ length body)%nat → view K L r (a + Z.of_nat i) = (body ++ [x00]) !! i) ∧ (x00 ∉ body).

Lemma prefix_string body bs : (∀ i, (i < length bs)%nat → (i ≤ length body)%nat → bs !! i = (body ++ [x00]) !! i) → x00 ∉ bs → (length bs ≤ length body)%nat.
Proof.
  intros Hb Hn. destruct (decide (length bs ≤ length body)%nat) as [|Hl]; [done|]. destruct Hn. apply list_elem_of_lookup. exists (length body).
  rewrite Hb by lia. by apply list_lookup_middle.
Qed.

Lemma fetchstr_string s cur p max fl T L a body : vm_inv (kmem s) fl T L → T !! (pagetable p, []) = Some (pagetable p) → procs (pstate s) !! cur = Some p →
  0 ≤ a < 2 ^ 64 → Z.of_nat (length body) < max → string_at (kmem s) L (pagetable p) a body →
  fetchstr cur a max s = Ok (Z.of_nat (length body), body ++ [x00]) s.
Proof.
  intros Hv HT Hp Ha Hmax [Hs Hn]. destruct (copyinstr_loop_spec (Z.to_nat max) (kmem s) fl T L (pagetable p) a max) as (res & bs & Hc & Hview & Hle & Hres); [done..|lia|].
  unfold fetchstr, mbind, M_bind. rewrite (get_proc_Ok _ _ _ Hp), (kcode_Ok (copyinstr _ _ _) _ _ _ Hc), with_kern_id.
  assert (∀ i, (i < length bs)%nat → (i ≤ length body)%nat → bs !! i = (body ++ [x00]) !! i) as Hsame by (intros i Hi Hi'; by rewrite <- Hview, Hs).
  destruct Hres as [(-> & body' & -> & Hb)|(-> & Hno & Hr)].
  - enough (body' = body) as ->. { simpl Z.ltb. cbv iota. by rewrite strlen_body. }
    rewrite length_app in Hsame. simpl in Hsame.
    assert (length body' ≤ length body)%nat as H1. { apply prefix_string; [|done]. intros i Hi Hi'. rewrite <- Hsame by lia. by rewrite lookup_app_l. }
    assert (length body ≤ length body')%nat as H2. { apply prefix_string; [|done]. intros i Hi Hi'. rewrite Hsame by lia. by rewrite lookup_app_l. }
    apply list_eq. intros i. destruct (decide (i < length body)%nat) as [Hi|Hi]; [|by rewrite !lookup_ge_None_2 by lia].
    specialize (Hsame i ltac:(lia) ltac:(lia)). by rewrite !lookup_app_l in Hsame by lia.
  - exfalso. pose proof (prefix_string _ _ Hsame Hno) as Hl. destruct Hr as [Hr|Hr]; [lia|]. specialize (Hs _ Hl).
    destruct (lookup_lt_is_Some_2 (body ++ [x00]) (length bs)) as [c Hcc]; [rewrite length_app; simpl; lia|]. rewrite Hcc in Hs. by rewrite (view_readable _ _ _ _ _ Hs) in Hr.
Qed.

Lemma fetchaddr_view s cur p fl T L a bs : vm_inv (kmem s) fl T L → T !! (pagetable p, []) = Some (pagetable p) → procs (pstate s) !! cur = Some p →
  0 ≤ a → a + 8 ≤ sz p < 2 ^ 64 → length bs = 8%nat → (∀ i, (i < 8)%nat → view (kmem s) L (pagetable p) (a + Z.of_nat i) = bs !! i) →
  fetchaddr cur a s = Ok (0, le_decode bs) s.
Proof.
  intros Hv HT Hp Ha Hsz Hlen Hbs. destruct (copyin_loop_spec 8 (kmem s) fl T L (pagetable p) a 8) as (res & bs' & Hc & Hview & Hres); [done|done|lia|lia|].
  unfold fetchaddr, mbind, M_bind. rewrite (get_proc_Ok _ _ _ Hp), u64_small by lia. destruct (Z.geb_spec a (sz p)); [lia|]. destruct (Z.gtb_spec (a + 8) (sz p)); [lia|]. simpl.
  change (copyin (pagetable p) a 8) with (copyin_loop 9 (pagetable p) a 8). rewrite (kcode_Ok _ _ _ _ Hc), with_kern_id.
  destruct Hres as [(-> & Hl)|(-> & Hl & Hr)]; simpl.
  - do 3 f_equal. apply list_eq. intros i. destruct (decide (i < 8)%nat) as [Hi|Hi]; [|by rewrite !lookup_ge_None_2 by lia]. by rewrite <- Hview, Hbs by lia.
  - exfalso. specialize (Hbs (length bs') ltac:(lia)). destruct (lookup_lt_is_Some_2 bs (length bs')) as [c Hcc]; [lia|]. rewrite Hcc in Hbs.
    by rewrite (view_readable _ _ _ _ _ Hbs) in Hr.
Qed.
End args.

(** ** The program *)

(** Memory that holds [initcode] at 0. *)
Definition runs_initcode (v : Z → option byte) : Prop := ∀ va, 0 ≤ va < PGSIZE → v va = Some (nth (Z.to_nat va) initcode x00).

Lemma fetch_initcode v a : runs_initcode v → 0 ≤ a < 4000 →
  fetch v a = Some (le_decode [nth (Z.to_nat a) initcode x00; nth (Z.to_nat (a + 1)) initcode x00; nth (Z.to_nat (a + 2)) initcode x00; nth (Z.to_nat (a + 3)) initcode x00]).
Proof. intros Hv Ha. assert (PGSIZE = 4096) as HG by done. unfold fetch. by rewrite !Hv by lia. Qed.

(** Its instructions, by their addresses. *)
Definition initcode_at : list (Z * uinstr) :=
  [(0x0, UAuipc 10 0); (0x4, UAddi 10 10 0x24); (0x8, UAuipc 11 0); (0xc, UAddi 11 11 0x23); (0x10, UAddi 17 0 SYS_exec); (0x14, UEcall);
   (0x18, UAddi 17 0 SYS_exit); (0x1c, UEcall); (0x20, UJal 1 (-8))].
Lemma ustep_initcode v h i : runs_initcode v → (pc h, i) ∈ initcode_at → ustep v h = uexec i h.
Proof.
  intros Hv Hi. unfold ustep. enough (fetch v (pc h) ≫= decode = Some i) as -> by done. revert Hi. generalize (pc h). intros a Ha. unfold initcode_at in Ha.
  repeat (apply elem_of_cons in Ha as [[= -> ->]|Ha]; [by rewrite fetch_initcode by (done || lia)|]). by apply not_elem_of_nil in Ha.
Qed.

(** The registers that differ. *)
Definition same_but (rs : list reg) (h h' : hart) : Prop := (∀ r, r ∉ rs → regs h' r = regs h r) ∧ csrs h' = csrs h ∧ mode h' = mode h ∧ pmem h' = pmem h.

(** One instruction, the [k]th of the list. *)
Ltac ustep k i := cbn [urun]; rewrite (ustep_initcode _ _ i) by (done || (apply (list_elem_of_lookup_2 _ k); reflexivity)); cbn [uexec].
Ltac user_regs := split_and!; [intros r Hr; destruct r; first [reflexivity|exfalso; apply Hr; set_solver]|done..].

(** From its start the program comes to [exec(init, argv)]; when that returns it
    comes to [exit], and back to it should that return. *)
Lemma initcode_exec v h : runs_initcode v → pc h = 0 →
  ∃ h', urun 6 v h = Trapped h' ∧ pc h' = 0x14 ∧ regs h' a7 = SYS_exec ∧ regs h' a0 = 0x24 ∧ regs h' a1 = 0x2b ∧ same_but [a0; a1; a7] h h'.
Proof.
  intros Hv Hpc. destruct h as [f c m p pm]. simpl in Hpc. subst p. ustep 0%nat (UAuipc 10 0). ustep 1%nat (UAddi 10 10 0x24). ustep 2%nat (UAuipc 11 0). ustep 3%nat (UAddi 11 11 0x23).
  ustep 4%nat (UAddi 17 0 SYS_exec). ustep 5%nat UEcall. eexists. split_and!; [reflexivity..|]. user_regs.
Qed.
Lemma initcode_exit v h : runs_initcode v → pc h = 0x18 ∨ pc h = 0x20 →
  ∃ h', urun 3 v h = Trapped h' ∧ pc h' = 0x1c ∧ regs h' a7 = SYS_exit ∧ same_but [ra; a7] h h'.
Proof.
  intros Hv Hpc. destruct h as [f c m p pm]. simpl in Hpc. destruct Hpc; subst p; [|ustep 8%nat (UJal 1 (-8))]; ustep 6%nat (UAddi 17 0 SYS_exit); ustep 7%nat UEcall;
    (eexists; split_and!; [reflexivity..|]; user_regs).
Qed.

(** ** Its system call *)

Section exec.
Context {D : Type} `{!KernelImage} `{!KernelText} `{!DevSw D}.
Local Abbreviation F := (fstate D).
Implicit Types s : tst F.

Definition init_path : list byte := bytes "/init".

Lemma init_string_at K L r : runs_initcode (view K L r) → string_at K L r 0x24 init_path.
Proof.
  intros Hv. assert (PGSIZE = 4096) as HG by done. split; [|by_decision].
  intros i Hi. change (length init_path) with 5%nat in Hi. rewrite Hv by lia. by do 6 (destruct i as [|i]; [reflexivity|]); lia.
Qed.

(** The two words of [argv]; the second one is beyond the program, in the zeros
    after it. *)
Lemma init_argv_at K L r k i : runs_initcode (view K L r) → k = 0x2b ∧ (i < 8)%nat ∨ k = 0x33 ∧ (i < 8)%nat →
  view K L r (k + Z.of_nat i) = le_encode 8 (if k =? 0x2b then 0x24 else 0) !! i.
Proof.
  intros Hv Hk. assert (PGSIZE = 4096) as HG by done. rewrite Hv by lia. destruct Hk as [[-> Hi]|[-> Hi]]; by do 8 (destruct i as [|i]; [reflexivity|]); lia.
Qed.

Lemma sys_exec_init s cur p ap fl T L : vm_inv (kmem s) (ap :: fl) T L → T !! (pagetable p, []) = Some (pagetable p) → procs (pstate s) !! cur = Some p →
  sz p = PGSIZE → owned (kmem s) (ap :: fl) T L (trapframe p) → runs_initcode (view (kmem s) L (pagetable p)) →
  tf_word (kmem s) (trapframe p) 14 = 0x24 → tf_word (kmem s) (trapframe p) 15 = 0x2b →
  ∃ K', sys_exec cur s = (ret ← pcode (Exec.exec cur (init_path ++ [x00]) [ap]); free_args [ap];; mret ret) (with_kern K' s) ∧
    vm_inv K' fl T L ∧ owned K' fl T L ap ∧ (∀ r, others r 0 (kmem s) (ap :: fl) T L K' fl T L) ∧ mread (mem K') ap 6 = init_path ++ [x00].
Proof.
  intros Hv HT Hp Hsz Htf Hcode Ha0 Ha1. pose proof (ow_ok _ _ _ _ _ Htf) as Hpok. assert (PGSIZE = 4096) as HG by done.
  destruct (kalloc_vm _ _ _ _ _ Hv) as (K1 & Hk & Hv1 & Hpg & Hop). assert (∀ r e, others r e (kmem s) (ap :: fl) T L K1 fl T L) as Ho1.
  { intros r e. apply others_take; [done|done|set_solver|]. intros k. by left. }
  set (K2 := set_mem (λ m, mwrite m ap (init_path ++ [x00])) K1). pose proof (page_ok_range _ (ow_ok _ _ _ _ _ Hpg)) as (?&?&?).
  destruct (others_write K1 fl T L K2 ap) as (Hv2 & Hpg2 & Ho2); [done|done|done|done| |].
  { intros x Hx. apply mwrite_out. change (Z.of_nat (length (init_path ++ [x00]))) with 6. intros ?. apply Hx, pg_eq; lia. }
  assert (∀ K', (∀ r e, others r e (kmem s) (ap :: fl) T L K' fl T L) → runs_initcode (view K' L (pagetable p))) as Hcode'.
  { intros K' Ho va Hva. rewrite (ot_view _ _ _ _ _ _ _ _ _ _ (Ho 0 0)); [by apply Hcode|]. by eapply root_ne_0. }
  assert (∀ r e, others r e (kmem s) (ap :: fl) T L K2 fl T L) as Ho.
  { intros r e. apply others_0. eapply others_drop; [apply Ho1|apply Ho2|]. right. by left. }
  exists K2. split_and!; [|done|done|done|by apply (mread_mwrite_same (mem K1) ap (init_path ++ [x00]))].
  assert (∀ n v, 0 ≤ n ≤ 5 → tf_word (kmem s) (trapframe p) (14 + n) = v → argraw cur n s = Ok v s) as Hraw.
  { intros n v Hn <-. unfold argraw. rewrite (bind_Ok _ _ _ _ _ (get_proc_Ok _ _ _ Hp)), (proj2 (andb_true_iff _ _)) by (rewrite !Z.leb_le; lia).
    replace (trapframe p + tf_a0 + 8 * n) with (trapframe p + 8 * (14 + n)) by (unfold tf_a0; lia).
    rewrite (kcode_Ok _ _ _ _ (ld_slot (trapframe p) (14 + n) _ Hpok ltac:(lia))). by rewrite with_kern_id. }
  assert (argstr cur 0 MAXPATH s = Ok (5, init_path ++ [x00]) s) as Hstr.
  { unfold argstr, argaddr. rewrite (bind_Ok _ _ _ _ _ (Hraw 0 _ ltac:(lia) Ha0)). by apply (fetchstr_string s cur p _ (ap :: fl) T L _ init_path), init_string_at. }
  unfold sys_exec. rewrite (bind_Ok _ _ _ _ _ (Hraw 1 _ ltac:(lia) Ha1)), (bind_Ok _ _ _ _ _ Hstr). change (5 <? 0) with false. cbv iota.
  enough (sys_exec_args (Z.to_nat MAXARG) cur 0x2b 0 [] s = Ok ([ap], true) (with_kern K2 s)) as E by by rewrite (bind_Ok _ _ _ _ _ E).
  assert (∀ K k (w : Z), vm_inv K fl T L ∨ vm_inv K (ap :: fl) T L → runs_initcode (view K L (pagetable p)) → k = 0x2b ∧ w = 0x24 ∨ k = 0x33 ∧ w = 0 → fetchaddr cur k (with_kern K s) = Ok (0, w) (with_kern K s)) as Hw.
  { intros K k w HvK HcK Hkw. assert (le_decode (le_encode 8 (if k =? 0x2b then 0x24 else 0)) = w) as <- by by destruct Hkw as [[-> ->]|[-> ->]].
    destruct HvK as [HvK|HvK]; (eapply (fetchaddr_view (with_kern K s) cur p); [exact HvK|done|done|lia|rewrite Hsz, HG; lia|done|]; intros i Hi; apply init_argv_at; [done|lia]). }
  change (Z.to_nat MAXARG) with 32%nat. cbn [sys_exec_args]. change (u64 (0x2b + 8 * 0)) with 0x2b. rewrite <- (with_kern_id s) at 1.
  rewrite (bind_Ok _ _ _ _ _ (Hw (kmem s) 0x2b 0x24 (or_intror Hv) Hcode (or_introl (conj eq_refl eq_refl)))). change (0 <? 0) with false. change (0x24 =? 0) with false. cbv iota.
  rewrite (bind_Ok _ _ _ _ _ (kcode_with _ _ _ _ _ Hk)). rewrite (proj2 (Z.eqb_neq ap 0)) by lia.
  rewrite (bind_Ok _ _ _ _ _ (fetchstr_string (with_kern K1 s) cur p PGSIZE fl T L 0x24 init_path Hv1 HT Hp ltac:(lia) eq_refl (init_string_at _ _ _ (Hcode' K1 Ho1)))).
  assert (write_bytes ap (init_path ++ [x00]) K1 = Ok tt K2) as Hwr. { unfold write_bytes. by rewrite (mapped_page ap) by (apply (ow_ok _ _ _ _ _ Hpg) || (change (Z.of_nat (length (init_path ++ [x00]))) with 6; lia)). }
  rewrite (bind_Ok _ _ _ _ _ (kcode_with _ _ _ _ _ Hwr)). change (Z.of_nat (length init_path) <? 0) with false. cbv iota. change (u64 (0x2b + 8 * (0 + 1))) with 0x33.
  by rewrite (bind_Ok _ _ _ _ _ (Hw K2 0x33 0 (or_introl Hv2) (Hcode' K2 Ho) (or_intror (conj eq_refl eq_refl)))).
Qed.
(** The registers of [h] in the trap frame, as [uservec] leaves them. *)
Definition saved_regs (h : hart) (K : kst) (tf : Z) : Prop := ∀ r o, (r, o) ∈ (a0, 112) :: user_slots → load64 (mem K) (tf + o) = regs h r.

Lemma uservec_saves h K tf : hart_ok h → mem K = frame_saved tf h → saved_regs h K tf.
Proof.
  intros Hok HK r o Ho. rewrite HK. apply elem_of_cons in Ho as [[= -> ->]|Hin]; unfold frame_saved; [by apply load64_store64_eq, Hok|].
  pose proof (user_slots_bounds _ _ Hin). rewrite load64_store64_ne by lia.
  rewrite (saved_in _ sizeof_trapframe _ _ _ r o); [|apply upd_range; [apply Hok|by vm_compute]|apply user_slots_ok..|done].
  apply upd_other. intros ->. assert (a0 ∈ user_slots.*1) as Ha by (apply list_elem_of_fmap; by exists (a0, o)). revert Ha. by_decision.
Qed.

Lemma syscall_exec pad t cur p : procs (pstate t) !! cur = Some p → page_ok (trapframe p) → tf_word (kmem t) (trapframe p) 21 = SYS_exec →
  syscall (filecalls pad) cur t = (r ← sys_exec cur; kcode (st (trapframe p + tf_a0) r)) t.
Proof.
  intros Hp Hok H7. unfold syscall. rewrite (bind_Ok _ _ _ _ _ (get_proc_Ok _ _ _ Hp)).
  rewrite (bind_Ok _ _ t SYS_exec t); [done|]. rewrite <- H7. change tf_a7 with (8 * 21).
  rewrite (kcode_Ok _ _ _ _ (ld_slot (trapframe p) 21 _ Hok ltac:(lia))). by rewrite with_kern_id.
Qed.

(** C3: the first process.  On a kernel whose tables are ready, with ten free
    pages, [userinit] returns and leaves one process, runnable, with an address
    space of its own.  A hart that enters it at the address in its trap frame
    comes, in five instructions, to a system call.  In whatever state the kernel
    then handles it, as long as it still keeps its processes apart, the memory of
    this one is as it was, the frame has the hart's registers and there is a page
    left, [syscall] runs [exec] with the path "/init" and one argument, a page
    that holds "/init"; nothing else has changed, and the result of [exec] goes
    to the process. *)
Theorem first_program b (s : pst F) fl pad : ready_kernel b s fl → (9 < length fl)%nat →
  ∃ (s' : pst F) fl' T L q, userinit s = Ok tt s' ∧ one_process b s s' fl' T L q ∧
    ∀ h, pc h = tf_word (kern s') (trapframe q) 3 → ∃ h', urun 6 (view (kern s') L (pagetable q)) h = Trapped h' ∧ same_but [a0; a1; a7] h h' ∧
      ∀ t p ap fl2 T2 L2, procs (pstate t) !! 0%nat = Some p → pagetable p = pagetable q → trapframe p = trapframe q → sz p = sz q →
        pm_inv (procs (pstate t)) (kmem t) (ap :: fl2) T2 L2 → (∀ va, view (kmem t) L2 (pagetable q) va = view (kern s') L (pagetable q) va) → saved_regs h' (kmem t) (trapframe q) →
        ∃ K', syscall (filecalls pad) 0 t = (r ← (ret ← pcode (Exec.exec 0 (init_path ++ [x00]) [ap]); free_args [ap];; mret ret); kcode (st (trapframe q + tf_a0) r)) (with_kern K' t) ∧
          pm_inv (procs (pstate t)) K' fl2 T2 L2 ∧ owned K' fl2 T2 L2 ap ∧ mread (mem K') ap 6 = init_path ++ [x00] ∧ (∀ r, others r 0 (kmem t) (ap :: fl2) T2 L2 K' fl2 T2 L2).
Proof.
  intros Hs Hfl. destruct (userinit_ok b s fl Hs Hfl) as (s' & fl' & T & L & q & E & O & _). exists s', fl', T, L, q. split; [done|]. split; [done|]. intros h Hpc.
  destruct (sd_procs _ _ _ _ _ _ _ O) as (p0 & _ & _ & [_ Hsz Hview [Hpc0 _] _]). rewrite Hpc0 in Hpc.
  destruct (initcode_exec _ h Hview Hpc) as (h' & Hrun & _ & R7 & R0 & R1 & Hsame). exists h'. split; [done|]. split; [done|].
  intros t p ap fl2 T2 L2 Hp Hpt Htf Hpsz Hpm Hv2 Hregs. pose proof (pm_vm _ _ _ _ _ Hpm) as Hv. assert (pagetable p ≠ 0) as Hpz.
  { intros Hz. assert (pagetable q = 0) as Hq by congruence. destruct (sd_procs _ _ _ _ _ _ _ O) as (p1 & Hp1 & Hl & Hf).
    destruct (pm_none _ _ _ _ _ (sd_mem _ _ _ _ _ _ _ O) 0%nat q) as [Hu _]; [rewrite Hl; by eapply list_lookup_insert_eq, lookup_lt_Some|done|].
    by rewrite (proj1 (fp_state _ _ _ _ _ Hf)) in Hu. }
  pose proof (pm_space _ _ _ _ _ Hpm 0%nat p Hp Hpz) as Sp. assert (∀ r o i, (r, o) ∈ (a0, 112) :: user_slots → o = 8 * i → tf_word (kmem t) (trapframe p) i = regs h' r) as Hw.
  { intros r o i Hin ->. unfold tf_word. rewrite Htf. by apply Hregs. }
  destruct (sys_exec_init t 0 p ap fl2 T2 L2) as (K' & Hex & Hv' & Hap & Ho & Hbytes);
    [done|apply Sp|done|by rewrite Hpsz|apply Sp|intros va Hva; rewrite Hpt, Hv2; by apply Hview|rewrite <- R0; apply (Hw a0 112); [by left|done]|rewrite <- R1; apply (Hw a1 120); [right; by_decision|done]|].
  exists K'. split_and!; [|eapply (pm_same _ _ _ _ _ _ _ 0 Hpm Hv' Ho)|done..].
  - rewrite (syscall_exec pad t 0 p), Htf; [|done|apply (ow_ok _ _ _ _ _ (sp_tf _ _ _ _ _ _ _ Sp))|rewrite <- R7; apply (Hw a7 168); [right; by_decision|done]].
    unfold mbind at 1, M_bind. by rewrite Hex.
  - intros i x Hx. destruct (decide (pagetable x = 0)); [by right|left]. by apply (space_ne_0 _ _ _ _ _ _ _ Hv (pm_space _ _ _ _ _ Hpm i x Hx ltac:(done))).
Qed.
End exec.

(** No devices. *)
#[local] Instance no_devices : DevSw unit := { dev_read _ := None; dev_write _ := None }.
#[local] Existing Instance demo_kernel.
#[local] Existing Instance demo_texts.

Lemma first_program_witness : ∃ (s : pst (fstate unit)) s' L q, userinit s = Ok tt s' ∧
  procs s' !! 0%nat = Some q ∧ ∀ h, pc h = 0 → ∃ h', urun 6 (view (kern s') L (pagetable q)) h = Trapped h'.
Proof.
  destruct demo_ready as (k & fl & Hs & Hfl).
  destruct (first_program false (demo_fresh k) fl [] Hs ltac:(lia)) as (s' & fl' & T & L & q & E & O & Hrun).
  exists (demo_fresh k), s', L, q. split; [exact E|]. destruct (sd_procs _ _ _ _ _ _ _ O) as (p & _ & Hl & Hf). split; [rewrite Hl; reflexivity|].
  intros h Hpc. destruct (Hrun h) as (h' & Hr & _); [rewrite Hpc; by destruct (fp_frame _ _ _ _ _ Hf) as [-> _]|]. exists h'. exact Hr.
Defined.
