(* ===== verification/Main.v ===== *)
(** * Starting the kernel: [kernel/main.c]

    What each hart does between [start] and [scheduler].  Hart 0 initializes
    everything, in order, and creates the first process; the others wait for
    [started], and then turn on paging and interrupts for themselves.  The harts
    run interleaved, one call at a time. *)

From S2P Require Import Prelude Format Riscv Mem CString Kalloc Vm Asm Boot Spinlock Proc.
From S2P Require Import Syscall Trap TrapSpec Bio Virtio Log Fs Pipe File Uart Printf Console.

(** ** The machine *)

(** The kernel with the registers of the hart that runs, the disk's registers
    and the driver's data, the registers of the interrupt controller by their
    addresses, and the variables of [vm.c] and [main.c]. *)
Record machine (U V : Type) := mk_machine {
  ker : tst (fstate (devst U));
  vhw : V;
  vdisk : vst;
  plic : memory;
  kernel_pagetable : Z;
  started : Z;
}.
Arguments mk_machine {U V}.
Arguments ker {U V}.
Arguments vhw {U V}.
Arguments vdisk {U V}.
Arguments plic {U V}.
Arguments kernel_pagetable {U V}.
Arguments started {U V}.

Section main.
Context {U V : Type} `{!UartHw U} `{!VirtioHw V} `{!KernelImage} `{!KernelText} (spins : nat).
Local Abbreviation F := (fstate (devst U)).
Local Abbreviation machine := (machine U V).
Implicit Types m : machine.
#[local] Existing Instance console_devsw.

Definition set_ker k m : machine := mk_machine k (vhw m) (vdisk m) (plic m) (kernel_pagetable m) (started m).
Definition set_pagetable_ r m : machine := mk_machine (ker m) (vhw m) (vdisk m) (plic m) r (started m).
Definition set_started v m : machine := mk_machine (ker m) (vhw m) (vdisk m) (plic m) (kernel_pagetable m) v.

(** Code of the kernel's other files. *)
Definition on_t {A} (c : M (tst F) A) : M machine A := zoom ker set_ker c.
Definition on_p {A} (c : M (pst F) A) : M machine A := on_t (pcode c).
Definition on_k {A} (c : M kst A) : M machine A := on_t (kcode c).
Definition on_fs {A} (c : M fsst A) : M machine A :=
  on_p (r ← fsrun c; match r with inl a => mret a | inr _ => no_fuel end).

(** Code for the interrupt controller; [tp] has the number of the hart. *)
Definition hart_view m : hart :=
  mk_hart (λ r, if decide (r = Asm.tp) then tp (csr (ker m)) else 0) (λ _, 0) Supervisor 0 (plic m).
Definition on_plic {A} (c : M hart A) : M machine A :=
  zoom hart_view (λ h m, mk_machine (ker m) (vhw m) (vdisk m) (pmem h) (kernel_pagetable m) (started m)) c.

Definition on_virtio {A} (c : M (vboot V) A) : M machine A :=
  zoom (λ m, mk_vboot (kmem (ker m)) (vhw m) (vdisk m))
    (λ b m, mk_machine (with_kern (vb_kern b) (ker m)) (vb_hw b) (vb_disk b) (plic m) (kernel_pagetable m) (started m)) c.

(** ** The initializers *)

Definition cpuid : M machine Z := id ← gets (λ m, tp (csr (ker m))); mret (i32 id).

Definition printf_ (fmt : list byte) (ap : list arg) : M machine unit := on_p (printf spins fmt ap).

Definition kmem_lock : lockid := LOther 10.
Definition kinit : M machine unit := on_p (initlock kmem_lock);; on_k Kalloc.kinit.
Definition kvminit : M machine unit := r ← on_k kvmmake; modify (set_pagetable_ r).
Definition w_satp (v : Z) (c : csrs) : csrs := mk_csrs (sstatus c) (scause c) (sepc c) (stval c) (stvec c) v (tp c) (sip c).
Definition kvminithart : M machine unit := r ← gets kernel_pagetable; on_t (upd_csr (w_satp (MAKE_SATP r))).

Definition binit : M machine unit := on_p (initlock (fs_lock bcache_lock));; on_fs (blk Bio.binit).
Definition iinit : M machine unit :=
  on_p (initlock (fs_lock itable_lock));; on_fs (modify (λ f, set_itable (iset_lock None <$> itable f) f)).
Definition vdisk_lock : lockid := LOther 13.
Definition virtio_disk_init : M machine unit := on_p (initlock vdisk_lock);; on_virtio Virtio.virtio_disk_init.

(** ** [main] *)

(** The branch of hart 0, and what the other harts do once they may. *)
Definition initializers : list (M machine unit) :=
  [ on_p consoleinit; on_p printfinit; printf_ [x0a] []; printf_ (bytes "xv6 kernel is booting" ++ [x0a]) []; printf_ [x0a] [];
    kinit; kvminit; kvminithart; on_p procinit; on_t trapinit; on_t trapinithart; on_plic plicinit; on_plic plicinithart;
    binit; iinit; on_p fileinit; virtio_disk_init; on_p userinit; modify (set_started 1) ].
Definition hart_initializers : list (M machine unit) :=
  [ id ← cpuid; printf_ (bytes "hart %d starting" ++ [x0a]) [AInt id]; kvminithart; on_t trapinithart; on_plic plicinithart ].

(** [main] up to [scheduler], as a list of calls and of waits for [started]. *)
Inductive op := Call (c : M machine unit) | Await.
Definition main (id : Z) : list op :=
  if i32 id =? 0 then Call <$> initializers else Await :: (Call <$> hart_initializers).

(** ** The harts together *)

(** What a hart has of its own: its registers, its [struct cpu], the locks it
    holds, and the rest of its [main]. *)
Record hart_state := mk_hs { h_csr : csrs; h_cpu : cpu; h_held : list lockid; h_code : list op }.
Record system := mk_system { shared : machine; harts : list hart_state }.

Definition enter (h : hart_state) m : machine :=
  set_ker (set_csr (h_csr h) (set_pstate (set_mycpu (h_cpu h) (set_held (h_held h) (pstate (ker m)))) (ker m))) m.
Definition leave m (code : list op) : hart_state := mk_hs (csr (ker m)) (mycpu (pstate (ker m))) (held (pstate (ker m))) code.

(** A step of hart [i]. *)
Inductive hstep (i : nat) : system → system → Prop :=
| step_call y h c code m : harts y !! i = Some h → h_code h = Call c :: code → c (enter h (shared y)) = Ok tt m →
    hstep i y (mk_system m (<[i := leave m code]> (harts y)))
| step_spin y h code : harts y !! i = Some h → h_code h = Await :: code → started (shared y) = 0 → hstep i y y
| step_go y h code : harts y !! i = Some h → h_code h = Await :: code → started (shared y) ≠ 0 →
    hstep i y (mk_system (shared y) (<[i := mk_hs (h_csr h) (h_cpu h) (h_held h) code]> (harts y))).

Inductive boots (y0 : system) : system → Prop :=
| boots_refl : boots y0 y0
| boots_step i y y' : boots y0 y → hstep i y y' → boots y0 y'.

(** All harts at the start of [main]. *)
Definition power_on m (cs : list (csrs * cpu)) : system := mk_system m ((λ x, mk_hs x.1 x.2 [] (main (tp x.1))) <$> cs).

End main.
