(* ===== verification/MainSpec.v ===== *)
(** * The kernel starts

    From cold memory, whatever the interleaving of the harts, hart 0 comes to
    [scheduler] with everything initialized and the first process ready, and
    every other hart comes there after it, with paging and interrupts set up. *)

From S2P Require Import Prelude Format Riscv Mem CString Kalloc Vm VmTree VmOps VmFree Cow KvmSpec Asm Boot Spinlock Proc ProcSpec ProcTable Run.
From S2P Require Import Syscall Trap TrapSpec Bio Virtio VirtioSpec BioSpec Log Fs Pipe File Uart Printf Console ConsoleSpec Space ProcMem UserInit Main.

Section pieces.
Context {U V : Type} `{!UartHw U} `{!VirtioHw V} `{!KernelImage} `{!KernelText} (spins : nat).
Local Abbreviation F := (fstate (devst U)).
Local Abbreviation machine := (machine U V).
Implicit Types (m : machine) (t : F).
Local Abbreviation store := (kfiles (F := F) id).
#[local] Existing Instance kfiles_store.

(** ** Code that runs on the kernel's data *)

Section rules.
Context {B : Type} {Q : B → cfg → kst * F → Prop} {R : Z → cfg → kst * F → Prop}.

Lemma run_initlock d h l n ip W lk (f : unit → M (pst F) B) : lk ∉ h →
  run store (Cfg d h l n ip) W (f tt) Q R → run store (Cfg d h l n ip) W (initlock lk ≫= f) Q R.
Proof.
  intros Hl Hf b s [[Hd Hh] Ht] HV. unfold initlock, modify, mbind, M_bind. simpl in Hh.
  assert (filter (λ x, x ≠ lk) h = h) as E by (pose proof (filter_head lk h Hl) as E; by rewrite filter_cons_False in E by auto).
  rewrite Hh, E. apply (Hf b); [|done]. by split.
Qed.
Lemma run_files_dev {A} k K t (g : devst U → A) (f : A → M (pst F) B) :
  run store k (K, t) (f (g (devs t))) Q R → run store k (K, t) (dev g ≫= f) Q R.
Proof. intros Hf b s Hs HK. injection HK as HK Ht. unfold dev, gets, mbind, M_bind. unfold id in Ht. rewrite Ht. apply (Hf b); [done|]. by unfold kfiles; rewrite HK, Ht. Qed.
Lemma run_files_upd k K t g (f : unit → M (pst F) B) :
  run store k (K, set_devs (g (devs t)) t) (f tt) Q R → run store k (K, t) (upd_dev g ≫= f) Q R.
Proof. intros Hf b s Hs HK. injection HK as HK Ht. unfold id in Ht. apply (Hf b); [done|]. unfold kfiles, id. simpl. by rewrite HK, Ht. Qed.
Lemma run_push d h l n ip W (f : unit → M (pst F) B) :
  run store (Cfg (S d) h l n ip) W (f tt) Q R → run store (Cfg d h l n ip) W (oncpu push_off ≫= f) Q R.
Proof.
  intros Hf b s [[Hd Hh] Ht] HK. unfold oncpu, lift, zoom, mbind, M_bind.
  destruct (push_off_depth b d (mycpu s) Hd) as (c & -> & Hc). apply (Hf b); [|done]. by split.
Qed.
Lemma run_pop d h l n ip W (f : unit → M (pst F) B) :
  run store (Cfg d h l n ip) W (f tt) Q R → run store (Cfg (S d) h l n ip) W (oncpu pop_off ≫= f) Q R.
Proof.
  intros Hf b s [[Hd Hh] Ht] HK. unfold oncpu, lift, zoom, mbind, M_bind.
  destruct (pop_off_depth b d (mycpu s) Hd) as (c & -> & Hc). apply (Hf b); [|done]. by split.
Qed.
Lemma run_flat {A C} k W (c : M (pst F) A) (f : A → M (pst F) C) (g : C → M (pst F) B) :
  run store k W (c ≫= λ a, f a ≫= g) Q R → run store k W ((c ≫= f) ≫= g) Q R.
Proof. intros Hr b s Hs HK. specialize (Hr b s Hs HK). unfold mbind, M_bind in *. by destruct (c s). Qed.
End rules.

(** ** Printing *)

Context (tx_ready : ∀ h : U, is_Some (tx_poll spins h)).

(** The chip is in another state. *)
Definition with_hw (h : U) t : F := set_devs (set_hw h (devs t)) t.

Lemma tx_wait_run {B} fuel k K t h (f : unit → M (pst F) B) Q R : tx_poll fuel (hw (devs t)) = Some h →
  run store k (K, with_hw h t) (f tt) Q R → run store k (K, t) (tx_wait fuel ≫= f) Q R.
Proof.
  revert t. induction fuel as [|fuel IH]; intros t; simpl; [done|]. intros Hp Hf. apply run_flat. unfold ReadReg at 1. apply run_flat, run_files_dev.
  destruct (ReadReg_hw LSR (hw (devs t))) as [v h'] eqn:E. apply run_flat, run_files_upd. fold (with_hw h' t).
  intros b s Hs HK. unfold mbind at 1, M_bind. cbn [mret M_ret]. revert b s Hs HK.
  change (run store k (K, with_hw h' t) ((if Z.land v LSR_TX_IDLE =? 0 then tx_wait fuel else mret ()) ≫= f) Q R).
  destruct (Z.land v LSR_TX_IDLE =? 0); [by apply IH|]. by injection Hp as <-.
Qed.

Lemma putc_run {B} d h l n ip K t c (f : unit → M (pst F) B) Q R : panicked (devs t) = false → (∀ u, run store (Cfg d h l n ip) (K, with_hw u t) (f tt) Q R) →
  run store (Cfg d h l n ip) (K, t) (consputc spins (Z_of_byte c) ≫= f) Q R.
Proof using tx_ready.
  intros Hp Hf. unfold consputc. rewrite (proj2 (Z.eqb_neq _ _)) by (pose proof (Z_of_byte_range c); unfold BACKSPACE; lia).
  unfold uartputc_sync. apply run_flat, run_push. apply run_flat, run_files_dev. rewrite Hp. destruct (tx_ready (hw (devs t))) as [h' Hh'].
  apply run_flat. eapply tx_wait_run; [exact Hh'|]. apply run_flat. unfold WriteReg. apply run_files_upd, run_pop, Hf.
Qed.

(** Text, and conversions of integers. *)
Fixpoint fine (fmt : list byte) (ap : list arg) : bool :=
  match fmt with
  | [] => true
  | c :: fmt =>
      if decide (c = x00) then true
      else if decide (c ≠ x25) then fine fmt ap
      else
        match fmt, ap with
        | c :: fmt, AInt z :: ap => bool_decide (c = x64) && (match printint_chars digits (i32 z) 10 true with Some _ => true | None => false end) && fine fmt ap
        | _, _ => false
        end
  end.

Lemma puts_run {B} d h l n ip K t s (f : unit → M (pst F) B) Q R : panicked (devs t) = false → (∀ u, run store (Cfg d h l n ip) (K, with_hw u t) (f tt) Q R) →
  run store (Cfg d h l n ip) (K, t) (puts (λ c, consputc spins (Z_of_byte c)) s ≫= f) Q R.
Proof using tx_ready.
  revert t. induction s as [|c s IH]; intros t Hp Hf; cbn [puts].
  - specialize (Hf (hw (devs t))). unfold with_hw in Hf. by destruct t as [? ? []].
  - apply run_flat, putc_run; [done|]. intros u. by apply IH.
Qed.

Lemma printf_loop_run fmt ap d h l n ip K t : fine fmt ap = true → panicked (devs t) = false →
  run store (Cfg d h l n ip) (K, t) (printf_loop (λ c, consputc spins (Z_of_byte c)) fmt ap) (λ _ k W, k = Cfg d h l n ip ∧ ∃ u, W = (K, with_hw u t)) (λ _ _ _, False).
Proof using tx_ready.
  assert (∀ t, run store (Cfg d h l n ip) (K, t) (mret ()) (λ _ k W, k = Cfg d h l n ip ∧ ∃ u, W = (K, with_hw u t)) (λ _ _ _, False)) as Hret.
  { intros t'. apply run_ret. split; [done|]. exists (hw (devs t')). by destruct t' as [? ? []]. }
  remember (length fmt) as len eqn:Elen. assert (length fmt ≤ len)%nat as Hlen by lia. clear Elen. revert fmt ap t Hlen.
  induction len as [|len IH]; intros [|c fmt] ap t Hlen Hf Hp; simpl in Hlen; try lia; try apply Hret. cbn [printf_loop fine] in *.
  destruct (decide (c = x00)); [apply Hret|]. destruct (decide (c ≠ x25)).
  - apply putc_run; [done|]. intros u. eapply run_mono; [apply (IH fmt ap); [lia|done|done]| |done]. intros _ k W [-> [u' ->]]. by split; [|exists u'].
  - destruct fmt as [|c' fmt]; [done|]. destruct ap as [|[z|s] ap]; [done| |done]. simpl in Hlen. apply andb_prop in Hf as [[->%bool_decide_eq_true Hz]%andb_prop Hf].
    destruct (decide (x64 = x00)); [done|]. destruct (decide (x64 = x64)); [|done]. destruct (printint_chars digits (i32 z) 10 true) as [s|]; [|done].
    simpl. apply puts_run; [done|]. intros u. eapply run_mono; [apply (IH fmt ap); [lia|done|done]| |done]. intros _ k W [-> [u' ->]]. by split; [|exists u'].
Qed.

Lemma printf_run fmt ap l n ip K t : fine fmt ap = true → panicked (devs t) = false →
  run store (Cfg 0 [] l n ip) (K, t) (printf spins fmt ap) (λ _ k W, k = Cfg 0 [] l n ip ∧ ∃ u, W = (K, with_hw u t)) (λ _ _ _, False).
Proof using tx_ready.
  intros Hf Hp. unfold printf. apply run_files_dev. destruct (pr_locking (devs t)).
  - apply run_acquire; [apply not_elem_of_nil|]. eapply run_bind; [by apply printf_loop_run|]. intros [] k W [-> [u ->]].
    apply run_last, run_release, run_ret; [apply not_elem_of_nil|]. split; [done|by exists u].
  - apply (run_bind _ _ _ _ (λ _ k W, k = Cfg 0 [] l n ip ∧ W = (K, t))); [by apply run_ret|]. intros [] k W [-> ->].
    eapply run_bind; [by apply printf_loop_run|]. intros [] k W [-> [u ->]]. apply run_ret. split; [done|by exists u].
Qed.

(** ** The initializers *)

Lemma consoleinit_run l n ip K t :
  run store (Cfg 0 [] l n ip) (K, t) consoleinit (λ _ k W, k = Cfg 0 [] l n ip ∧ ∃ u, W = (K, with_hw u t)) (λ _ _ _, False).
Proof using Type.
  unfold consoleinit, uartinit, WriteReg. apply run_initlock; [apply not_elem_of_nil|]. do 7 apply run_files_upd. apply run_last, run_initlock, run_ret; [apply not_elem_of_nil|].
  split; [done|]. by eexists.
Qed.

(** The console's lock is in use from now on. *)
Definition with_locking t : F := set_devs (set_locking true (devs t)) t.
Lemma printfinit_run l n ip K t :
  run store (Cfg 0 [] l n ip) (K, t) printfinit (λ _ k W, k = Cfg 0 [] l n ip ∧ W = (K, with_locking t)) (λ _ _ _, False).
Proof using Type. unfold printfinit. apply run_initlock; [apply not_elem_of_nil|]. by apply run_last, run_files_upd, run_ret. Qed.

(** Slot [i] of the process table after [procinit]. *)
Definition init_proc (i : nat) (p : proc) : proc := set_kstack (KSTACK (Z.of_nat i)) (set_state UNUSED p).

Lemma procinit_run l n ip W : length l = Z.to_nat NPROC →
  run store (Cfg 0 [] l n ip) W procinit (λ _ k W', k = Cfg 0 [] (imap init_proc l) n ip ∧ W' = W) (λ _ _ _, False).
Proof using Type.
  intros Hl. unfold procinit. do 2 (apply run_initlock; [apply not_elem_of_nil|]).
  enough (∀ c i l1 l2, l = l1 ++ l2 → length l1 = i → length l2 = c →
    run store (Cfg 0 [] (imap init_proc l1 ++ l2) n ip) W (procinit_loop c i) (λ _ k W', k = Cfg 0 [] (imap init_proc l) n ip ∧ W' = W) (λ _ _ _, False)) as Hall
    by by apply (Hall _ _ [] l).
  induction c as [|c IH]; intros i l1 l2 E H1 H2; cbn [procinit_loop].
  - destruct l2; [|done]. apply run_ret. by rewrite E, !app_nil_r.
  - destruct l2 as [|p l2]; [done|]. apply run_initlock; [apply not_elem_of_nil|]. apply run_upd. rewrite (alter_at _ _ _ p) by (apply list_lookup_middle; by rewrite length_imap).
    rewrite insert_app_r_alt by (rewrite length_imap; lia). rewrite length_imap, H1, Nat.sub_diag. simpl.
    assert (imap init_proc (l1 ++ [p]) ++ l2 = imap init_proc l1 ++ init_proc i p :: l2) as El.
    { rewrite imap_app, <- app_assoc. simpl. unfold compose. by rewrite Nat.add_0_r, H1. }
    fold (init_proc i p). rewrite <- El. apply IH; [by rewrite E, <- app_assoc|rewrite length_app; simpl; lia|by injection H2].
Qed.

(** ** Calls, on the machine *)

(** A machine whose running hart has the configuration [k] and the registers
    [c]; the kernel's memory, its file layer, and the devices and variables. *)
Definition at_m (b : bool) (k : cfg) (K : kst) t (c : csrs) (w : V * vst * memory * Z * Z) m : Prop :=
  at_cfg b k (pstate (ker m)) ∧ kern (pstate (ker m)) = K ∧ files (pstate (ker m)) = t ∧ csr (ker m) = c ∧ (vhw m, vdisk m, plic m, kernel_pagetable m, started m) = w.

Lemma on_p_wp {A} b k K t c w m (a : M (pst F) A) P Q : at_m b k K t c w m → run store k (K, t) a P (λ _ _ _, False) →
  (∀ v k' K' t' m', P v k' (K', t') → at_m b k' K' t' c w m' → Q v m') → wp (on_p a) m Q.
Proof using Type.
  intros (Ha & HK & Ht & Hc & Hw) Hr HQ. specialize (Hr b (pstate (ker m)) Ha). unfold kfiles, id in Hr. rewrite HK, Ht in Hr. specialize (Hr eq_refl).
  unfold on_p, on_t, pcode, zoom, wp. destruct (a (pstate (ker m))) as [v s'| | |ch s'|]; [|done|done|by destruct Hr as (? & _ & [])|done].
  destruct Hr as (k' & Ha' & HP). eapply HQ; [exact HP|]. by split_and!.
Qed.
Lemma on_k_wp {A} b k K t c w m (a : M kst A) P Q : at_m b k K t c w m → wp a K P → (∀ v K' m', P v K' → at_m b k K' t c w m' → Q v m') → wp (on_k a) m Q.
Proof using Type.
  intros (Ha & HK & Ht & Hc & Hw) Hr HQ. apply wp_elim in Hr as (v & K' & E & HP). unfold on_k, on_t, kcode, pcode, vm, lift, zoom, wp. rewrite HK, E.
  eapply HQ; [exact HP|]. by split_and!.
Qed.
Lemma on_fs_wp {A} b k K t c w m (a : M fsst A) P Q : at_m b k K t c w m → wp a (ffs t) P → (∀ v f m', P v f → at_m b k K (set_ffs f t) c w m' → Q v m') → wp (on_fs a) m Q.
Proof using Type.
  intros (Ha & HK & Ht & Hc & Hw) Hr HQ. apply wp_elim in Hr as (v & f & E & HP). unfold on_fs, on_p, on_t, pcode, zoom, wp, fsrun, mbind, M_bind. rewrite Ht, E.
  eapply HQ; [exact HP|]. by split_and!.
Qed.
Lemma on_csr_wp b k K t c w m f Q : at_m b k K t c w m → (∀ m', at_m b k K t (f c) w m' → Q tt m') → wp (on_t (upd_csr f)) m Q.
Proof using Type. intros (Ha & HK & Ht & Hc & Hw) HQ. apply HQ. rewrite <- Hc. by split_and!. Qed.
Lemma on_init_wp b l n ip K t c w m lk Q : at_m b (Cfg 0 [] l n ip) K t c w m → (∀ m', at_m b (Cfg 0 [] l n ip) K t c w m' → Q tt m') → wp (on_p (initlock lk)) m Q.
Proof using Type.
  intros Hm HQ. eapply (on_p_wp _ _ _ _ _ _ _ _ (λ _ k W, k = Cfg 0 [] l n ip ∧ W = (K, t))); [done|by apply run_last, run_initlock, run_ret; [apply not_elem_of_nil|]|].
  intros [] k' K' t' m' [-> [= -> ->]]. apply HQ.
Qed.

(** ** The interrupt controller *)

(** The hart takes the two interrupts, and their priorities are set. *)
Definition plic_on (id : Z) (pl : memory) : Prop :=
  load32 pl (PLIC_SENABLE id) = Z.lor (Z.shiftl 1 UART0_IRQ) (Z.shiftl 1 VIRTIO0_IRQ) ∧ load32 pl (PLIC_SPRIORITY id) = 0.
Definition plic_prio (pl : memory) : Prop := load32 pl (PLIC + UART0_IRQ * 4) = 1 ∧ load32 pl (PLIC + VIRTIO0_IRQ * 4) = 1.

Lemma plic_delivered id m : plic_on id (plic m) → plic_prio (plic m) → delivered (hart_view m) id UART0_IRQ = true ∧ delivered (hart_view m) id VIRTIO0_IRQ = true.
Proof using Type. intros [H1 H2] [H3 H4]. unfold delivered. simpl. by rewrite H1, H2, H3, H4. Qed.

Lemma plicinit_wp h : wp plicinit h (λ _ h', plic_prio (pmem h')).
Proof using Type.
  unfold plicinit, write32, plic_prio. wp_steps. simpl. unfold PLIC, UART0_IRQ, VIRTIO0_IRQ. split; [|by rewrite load32_store32_eq by lia].
  by rewrite load32_store32_ne, load32_store32_eq by lia.
Qed.
Lemma plicinithart_wp id h : 0 ≤ id < NCPU → regs h Asm.tp = id →
  wp plicinithart h (λ _ h', plic_on id (pmem h') ∧ (plic_prio (pmem h) → plic_prio (pmem h')) ∧ ∀ j, 0 ≤ j < NCPU → plic_on j (pmem h) → plic_on j (pmem h')).
Proof using Type.
  intros Hid Htp. unfold plicinithart, Boot.cpuid, r_tp, write32. wp_steps. simpl. rewrite Htp, i32_small by (unfold NCPU in *; lia).
  unfold plic_prio, plic_on, PLIC_SENABLE, PLIC_SPRIORITY, PLIC, UART0_IRQ, VIRTIO0_IRQ, NCPU in *. split_and!.
  - rewrite load32_store32_ne, load32_store32_eq by (lia || by vm_compute). done.
  - by rewrite load32_store32_eq by lia.
  - intros [H1 H2]. by rewrite !load32_store32_ne by lia.
  - intros j Hj [H1 H2]. destruct (decide (j = id)) as [->|]; [split; [by rewrite load32_store32_ne, load32_store32_eq by (lia || by vm_compute)|by rewrite load32_store32_eq by lia]|].
    by rewrite !load32_store32_ne by lia.
Qed.

Lemma on_plic_wp b k K t c v vd pl kp st m (a : M hart unit) P Q : at_m b k K t c (v, vd, pl, kp, st) m → wp a (hart_view m) P →
  (∀ h m', P tt h → at_m b k K t c (v, vd, pmem h, kp, st) m' → Q tt m') → wp (on_plic a) m Q.
Proof using Type.
  intros (Ha & HK & Ht & Hc & Hw) Hr HQ. apply wp_elim in Hr as ([] & h & E & HP). unfold on_plic, zoom, wp. rewrite E. eapply HQ; [exact HP|]. injection Hw as <- <- <- <- <-. by split_and!.
Qed.

(** ** The disk *)

Context (fresh : V → Prop) `{!VirtioPresent fresh}.

(** The driver's data in cleared memory, and a device nobody has used. *)
Definition cold_disk (s : vst) : Prop :=
  length (dfree s) = num ∧ used_idx s = 0 ∧ info s = replicate num (mk_info None 0) ∧ length (ops s) = num ∧ vlock s = None ∧
  (∀ b x, vbufs s !! b = Some x → 0 ≤ v_blockno x < 2 ^ 31 ∧ length (v_data x) = Z.to_nat BSIZE) ∧
  phases s = ∅ ∧ asleep_on s = ∅ ∧ dv_avail (dvc s) = 0 ∧ dv_taken (dvc s) = [] ∧ (∀ a, length (dv_sectors (dvc s) a) = sector_size).

Lemma on_virtio_wp b k K t c v vd pl kp st m d a u fl Q : at_m b k K t c (v, vd, pl, kp, st) m → fresh v → cold_disk vd → kalloc_inv K (d :: a :: u :: fl) →
  (∀ K' v' vd' m', kalloc_inv K' fl → touches [d; a; u] K K' → vinitial vd' → at_m b k K' t c (v', vd', pl, kp, st) m' → Q tt m') → wp (on_virtio Virtio.virtio_disk_init) m Q.
Proof using VirtioPresent0.
  intros (Ha & HK & Ht & Hc & Hw) Hf (D1 & D2 & D3 & D4 & D5 & D6 & D7 & D8 & D9 & D10 & D11) Hk HQ. injection Hw as H1 H2 H3 H4 H5. fold (kmem (ker m)) in HK.
  assert (wp Virtio.virtio_disk_init (mk_vboot (kmem (ker m)) (vhw m) (vdisk m)) (λ _ s', kalloc_inv (vb_kern s') fl ∧ touches [d; a; u] K (vb_kern s') ∧ vinitial (vb_disk s'))) as Hr.
  { eapply wp_mono; [apply (virtio_disk_init_ok fresh _ d a u fl); simpl; [by rewrite H1|by rewrite HK|by rewrite H2]|]. simpl. rewrite HK.
    intros _ s' (R1 & R2 & R3). split; [done|]. split; [done|]. rewrite R3, H2. unfold vinitial. simpl. by split_and!. }
  apply wp_elim in Hr as ([] & s' & E & R1 & R2 & R3). unfold on_virtio, zoom, wp. rewrite E. eapply HQ; [exact R1|exact R2|exact R3|]. rewrite <- H3, <- H4, <- H5. by split_and!.
Qed.

(** ** Before and after *)

(** A process table, a machine, as the loader leaves them. *)
Definition zero_proc (p : proc) : Prop :=
  state p = UNUSED ∧ pid p = 0 ∧ parent p = None ∧ pagetable p = 0 ∧ trapframe p = 0 ∧ sz p = 0 ∧ chan p = 0.

Record cold m : Prop := {
  co_mem : ∃ mm, kmem (ker m) = boot_state mm;
  co_len : length (procs (pstate (ker m))) = Z.to_nat NPROC;
  co_procs i p : procs (pstate (ker m)) !! i = Some p → zero_proc p;
  co_vars : nextpid (pstate (ker m)) = 1 ∧ initproc (pstate (ker m)) = None ∧ started m = 0;
  co_cache : zeroed (lbio (flog (ffs (files (pstate (ker m))))));
  co_inodes : Forall (λ x, i_ref x = 0) (itable (ffs (files (pstate (ker m))))) ∧ itable (ffs (files (pstate (ker m)))) ≠ [];
  co_print : panicked (devs (files (pstate (ker m)))) = false;
  co_disk : fresh (vhw m) ∧ cold_disk (vdisk m);
}.

(** The kernel when the harts may run processes.  [Tk] and [Lk] are the kernel's
    page table, [stacks] the stacks of the processes; [T] and [L] the page tables
    of the processes; [q] the first process. *)
Record booted_at m (fl : list Z) (T : tables) (L : leaves) (Tk : tables) (Lk : leaves) (stacks : list Z) (q : proc) : Prop := {
  bo_table : pt_rep (mem (kmem (ker m))) Tk Lk ∧ Tk !! (kernel_pagetable m, []) = Some (kernel_pagetable m);
  bo_map : kernel_table (kernel_pagetable m) stacks Lk;
  bo_stacks : length stacks = Z.to_nat NPROC ∧ NoDup stacks;
  bo_pages p : p ∈ stacks ∨ (∃ k, Tk !! k = Some p) → owned (kmem (ker m)) fl T L p;
  bo_mem : pm_inv (procs (pstate (ker m))) (kmem (ker m)) fl T L;
  bo_tbl : tbl_inv (procs (pstate (ker m))) (nextpid (pstate (ker m))) (initproc (pstate (ker m)));
  bo_len : length (procs (pstate (ker m))) = Z.to_nat NPROC;
  bo_kstack i p : procs (pstate (ker m)) !! i = Some p → kstack p = KSTACK (Z.of_nat i);
  bo_init : initproc (pstate (ker m)) = Some 0%nat ∧ procs (pstate (ker m)) !! 0%nat = Some q;
  bo_first : ∃ p, zero_proc p ∧ first_process p 1 q (kmem (ker m)) L;
  bo_rest i p : procs (pstate (ker m)) !! i = Some p → i ≠ 0%nat → state p = UNUSED;
  bo_cache : cinv ROOTDEV ∅ ∅ (reverse (seq 0 nbuf)) (lbio (flog (ffs (files (pstate (ker m))))));
  bo_root : ∃ x, itable (ffs (files (pstate (ker m)))) !! 0%nat = Some (root_inode x);
  bo_print : panicked (devs (files (pstate (ker m)))) = false;
  bo_vdisk : vinitial (vdisk m);
  bo_plic : plic_prio (plic m);
  bo_started : started m = 1;
}.
Definition booted m : Prop := ∃ fl T L Tk Lk stacks q, booted_at m fl T L Tk Lk stacks q.

(** A hart at the call of [scheduler]: its page table register, its trap vector,
    and the interrupts it takes. *)
Record ready (id : Z) (c : csrs) m : Prop := {
  re_satp : satp c = MAKE_SATP (kernel_pagetable m);
  re_stvec : stvec c = kernelvec_addr;
  re_plic : plic_on id (plic m);
}.

Lemma zero_table l : (∀ i p, l !! i = Some p → zero_proc p) → tbl_inv l 1 None.
Proof using Type.
  intros Hz. split.
  - intros i p Hp Hs. by destruct (Hz i p Hp).
  - intros i j p q Hp Hq Hs. by destruct (Hz i p Hp).
  - intros i p Hp _. by destruct (Hz i p Hp) as (? & ? & ? & ? & ? & ? & ?).
  - intros i p j Hp. destruct (Hz i p Hp) as (_ & _ & -> & _). done.
  - done.
Qed.
Lemma init_zero l : (∀ i p, l !! i = Some p → zero_proc p) → ∀ i p, imap init_proc l !! i = Some p → zero_proc p ∧ kstack p = KSTACK (Z.of_nat i).
Proof using Type.
  intros Hz i p. rewrite list_lookup_imap. intros (p0 & Hp0 & ->)%fmap_Some. destruct (Hz i p0 Hp0) as (? & ? & ? & ? & ? & ? & ?). by repeat split.
Qed.

(** The pages of the kernel's page table and the stacks, taken from the free list. *)
Lemma kernel_owned K fl Tk Lk (stacks : list Z) : pt_inv K fl Tk Lk → (∀ p, p ∈ stacks → page_ok p ∧ (p ∉ fl) ∧ (∀ k, Tk !! k ≠ Some p) ∧ page_refcnt K (p / PGSIZE) = 1) →
  ∀ p, p ∈ stacks ∨ (∃ k, Tk !! k = Some p) → owned K fl ∅ ∅ p.
Proof using Type.
  intros Hi Hs p [Hp|[k Hk]].
  - destruct (Hs p Hp) as (? & ? & _ & ?). by split.
  - split; [by eapply pr_ok, Hk; apply Hi|by eapply pi_not_free|done|done|by eapply pi_ref].
Qed.
Lemma touches_kept K d a u fl K' : touches [d; a; u] K K' → kept_pages K (d :: a :: u :: fl) ∅ ∅ K' fl ∅ ∅.
Proof using Type. 
  intros Ht p [Hok Hnf ? ? Hr]. rewrite !not_elem_of_cons in Hnf. destruct Hnf as (? & ? & ? & ?).
  destruct (Ht p Hok) as [E ?]; [rewrite !not_elem_of_cons; by repeat split; auto using not_elem_of_nil|]. split; [split; try done; by rewrite E|done].
Qed.
Lemma kernel_kept Tk Lk K fl T L K' fl' T' L' (P : Z → Prop) : kept_pages K fl T L K' fl' T' L' → (∀ p, P p ∨ (∃ k, Tk !! k = Some p) → owned K fl T L p) → pt_rep (mem K) Tk Lk →
  pt_rep (mem K') Tk Lk ∧ ∀ p, P p ∨ (∃ k, Tk !! k = Some p) → owned K' fl' T' L' p.
Proof using Type.
  intros Hk Ho Hr. split; [|intros p Hp; apply Hk; auto]. eapply pt_rep_frame; [exact Hr|]. intros x k Hx. apply (Hk (pg x)); [|done]. apply Ho. right. by exists k.
Qed.

(** ** Hart 0 *)

Definition calls (l : list (M machine unit)) : M machine unit := foldr (λ c k, c;; k) (mret ()) l.

(** Up to the kernel's page table. *)
Lemma boot_memory b l n ip mm t c v vd pl kp st m fl : at_m b (Cfg 0 [] l n ip) (boot_state mm) t c (v, vd, pl, kp, st) m → panicked (devs t) = false →
  fl = pages_from (Z.to_nat ((PHYSTOP - PGROUNDUP kend) / PGSIZE)) (PGROUNDUP kend) → (136 < length fl)%nat →
  wp (calls (take 8 (initializers spins))) m (λ _ m', ∃ K fl' Tk Lk stacks r u, at_m b (Cfg 0 [] l n ip) K (with_hw u (with_locking t)) (w_satp (MAKE_SATP r) c) (v, vd, pl, r, st) m' ∧
    pt_inv K fl' Tk Lk ∧ Tk !! (r, []) = Some r ∧ kernel_table r stacks Lk ∧ length stacks = Z.to_nat NPROC ∧ NoDup stacks ∧
    (∀ p, p ∈ stacks ∨ (∃ k, Tk !! k = Some p) → owned K fl' ∅ ∅ p) ∧ ∃ used, fl = used ++ fl' ∧ (length used ≤ 136)%nat).
Proof using tx_ready.
  intros Hm Hp Hfl Hlen. cbn [calls initializers take foldr]. wp_step. eapply on_p_wp; [exact Hm|apply consoleinit_run|]. clear m Hm. intros [] k K t1 m [-> [u1 [= -> ->]]] Hm.
  wp_step. eapply on_p_wp; [exact Hm|apply printfinit_run|]. clear m Hm. intros [] k K t2 m [-> [= -> ->]] Hm.
  do 3 (wp_step; eapply on_p_wp; [exact Hm|by apply printf_run|]; clear m Hm; intros [] ? ? ? m [-> [? [= -> ->]]] Hm).
  wp_step. unfold kinit. wp_step. eapply on_init_wp; [exact Hm|]. clear m Hm. intros m Hm.
  destruct (kinit_inv mm) as (K1 & E1 & Ha1). assert (wp Kalloc.kinit (boot_state mm) (λ _ K, K = K1)) as Hki by (unfold wp; by rewrite E1).
  eapply on_k_wp; [exact Hm|exact Hki|]. clear m Hm. intros [] ? m -> Hm.
  rewrite <- Hfl in Ha1. wp_step. unfold kvminit. wp_step. eapply on_k_wp; [exact Hm|by apply (kvmmake_correct _ fl)|]. clear m Hm.
  intros r K2 m (fl' & Tk & Lk & stacks & Hi & HT & Hk & Hl & Hnd & Hst & Hu) Hm. wp_step. wp_step. unfold kvminithart. wp_step. wp_step.
  set (m1 := set_pagetable_ r m). assert (at_m b (Cfg 0 [] l n ip) K2 (with_hw x1 (with_locking t)) c (v, vd, pl, r, st) m1) as Hm1.
  { destruct Hm as (? & ? & ? & ? & Hw). injection Hw as <- <- <- <- <-. by split_and!. }
  eapply on_csr_wp; [exact Hm1|]. intros m2 Hm2. wp_step. eexists K2, fl', Tk, Lk, stacks, r, _. split_and!; try done. by eapply kernel_owned.
Qed.

(** From there to [started]. *)
Lemma boot_rest b id l K t c v vd pl r m fl Tk Lk stacks : at_m b (Cfg 0 [] l 1 None) K t c (v, vd, pl, r, 0) m → length l = Z.to_nat NPROC → (∀ i p, l !! i = Some p → zero_proc p) →
  zeroed (lbio (flog (ffs t))) → Forall (λ x, i_ref x = 0) (itable (ffs t)) → itable (ffs t) ≠ [] → panicked (devs t) = false → fresh v → cold_disk vd →
  0 ≤ id < NCPU → tp c = id → satp c = MAKE_SATP r →
  pt_inv K fl Tk Lk → Tk !! (r, []) = Some r → kernel_table r stacks Lk → length stacks = Z.to_nat NPROC → NoDup stacks →
  (∀ p, p ∈ stacks ∨ (∃ k, Tk !! k = Some p) → owned K fl ∅ ∅ p) → (12 < length fl)%nat →
  wp (calls (drop 8 (initializers spins))) m (λ _ m', booted m' ∧ ready id (csr (ker m')) m' ∧ thr b 0 [] (pstate (ker m')) ∧ tp (csr (ker m')) = id).
Proof using VirtioPresent0.
  intros Hm Hll Hl Hz Hit Hne Hp Hf Hd Hid Htp Hsat Hi HT Hk Hsl Hnd Hown Hlen. cbn [calls initializers drop foldr].
  wp_step. eapply on_p_wp; [exact Hm|by apply procinit_run|]. clear m Hm. intros [] ? ? ? m [-> [= -> ->]] Hm. pose proof (init_zero _ Hl) as Hl'. set (l' := imap init_proc l) in *.
  wp_step. eapply on_init_wp; [exact Hm|]. clear m Hm. intros m Hm. wp_step. eapply on_csr_wp; [exact Hm|]. clear m Hm. intros m Hm.
  wp_step. eapply on_plic_wp; [exact Hm|apply plicinit_wp|]. clear m Hm. intros h1 m Hp1 Hm.
  wp_step. eapply on_plic_wp; [exact Hm|apply (plicinithart_wp id); [done|]|].
  { destruct Hm as (_ & _ & _ & Hc & _). unfold hart_view. simpl. by rewrite Hc. }
  assert (plic m = pmem h1) as Hpl by (destruct Hm as (_ & _ & _ & _ & Hw); by injection Hw). simpl. rewrite Hpl. clear m Hm Hpl. intros h2 m (Hon & Hp2 & _) Hm. specialize (Hp2 Hp1).
  wp_step. unfold binit. wp_step. eapply on_init_wp; [exact Hm|]. clear m Hm. intros m Hm.
  eapply (on_fs_wp _ _ _ _ _ _ _ _ (λ _ f, cinv ROOTDEV ∅ ∅ (reverse (seq 0 nbuf)) (lbio (flog f)) ∧ itable f = itable (ffs t))); [exact Hm| |].
  { unfold blk, lg, bio. apply wp_zoom, wp_zoom. eapply wp_mono; [by apply (binit_spec ROOTDEV)|]. by intros _ s' (? & _). }
  clear m Hm. intros [] f1 m [Hcache Hitb] Hm. wp_step. unfold iinit. wp_step. eapply on_init_wp; [exact Hm|]. clear m Hm. intros m Hm.
  eapply (on_fs_wp _ _ _ _ _ _ _ _ (λ _ f, f = set_itable (iset_lock None <$> itable f1) f1)); [exact Hm|by apply wp_modify|]. clear m Hm. intros [] ? m -> Hm.
  wp_step. eapply on_init_wp; [exact Hm|]. clear m Hm. intros m Hm. destruct fl as [|d [|a [|u fl]]]; [simpl in Hlen; lia..|].
  wp_step. unfold virtio_disk_init. wp_step. eapply on_init_wp; [exact Hm|]. clear m Hm. intros m Hm. eapply on_virtio_wp; [exact Hm|done|done|apply Hi|].
  clear m Hm. intros K1 v1 vd1 m Ha1 Ht1 Hvd Hm. destruct (kernel_kept Tk Lk _ _ _ _ _ _ _ _ (λ p, p ∈ stacks) (touches_kept _ _ _ _ _ _ Ht1) Hown (pi_rep _ _ _ _ Hi)) as [Hr1 Hown1].
  set (t2 := set_ffs _ _) in Hm. assert (length l' = Z.to_nat NPROC) as Hll' by by unfold l'; rewrite length_imap.
  destruct (lookup_lt_is_Some_2 l' 0) as [p0 Hp0]; [rewrite Hll'; vm_compute; lia|]. assert (itable (ffs t2) = iset_lock None <$> itable (ffs t)) as Hit2 by (by unfold t2; simpl; rewrite Hitb).
  wp_step. eapply on_p_wp; [exact Hm|apply (userinit_run l' 1 None K1 p0 t2 fl)|].
  { done. }
  { intros i q Hq. destruct (Hl' i q Hq) as [(? & ? & ? & ? & ? & ? & ?) _]. by split_and!. }
  { done. }
  { done. }
  { simpl in Hlen. lia. }
  { rewrite Hit2. by apply Forall_fmap. }
  { rewrite Hit2. by destruct (itable (ffs t)). }
  { done. }
  clear m Hm. intros [] k K2 t3 m (K' & fl2 & T & L & q & [= <- ->] & -> & Hpm & Hfp & Ho & _) Hm. wp_step. wp_step. wp_step.
  destruct (kernel_kept Tk Lk _ _ _ _ _ _ _ _ (λ p, p ∈ stacks) (others_kept _ _ _ _ _ _ _ _ _ Ho) Hown1 Hr1) as [Hr2 Hown2].
  destruct Hm as ((Hthr & Hl2 & Hn2 & Hi2) & HK & Hfi & Hc & Hw). injection Hw as Hv Hvd2 Hpl Hkp Hst. simpl in Hthr, Hl2, Hn2, Hi2.
  pose proof (Hl' 0%nat p0 Hp0) as [Hz0 Hks0]. pose proof (fp_state _ _ _ _ _ Hfp) as (Hq1 & Hq2 & _ & Hq3 & _ & Hq4).
  split; [|split; [split|]]; simpl; rewrite ?Hc; simpl; rewrite ?Hkp, ?Hpl; try done.
  eexists fl2, T, L, Tk, Lk, stacks, q. split; unfold kmem; simpl; rewrite ?HK, ?Hl2, ?Hn2, ?Hi2, ?Hfi, ?Hkp, ?Hvd2, ?Hpl; try done.
  - eapply first_table; [by apply zero_table; intros; eapply Hl'|intros i p Hp'; apply (Hl' i p Hp')|exact Hp0|done|unfold alive; by rewrite Hq1|done|done].
  - by rewrite length_insert.
  - intros i p [(<- & -> & _)|[_ Hq]]%list_lookup_insert_Some; [congruence|]. by apply Hl'.
  - split; [done|]. by eapply list_lookup_insert_eq, lookup_lt_Some.
  - by exists p0.
  - intros i p [(<- & -> & _)|[_ Hq]]%list_lookup_insert_Some Hi0; [done|]. apply (Hl' i p Hq).
  - unfold root_open, no_spin. cbn [ffs set_ffs set_itable flog set_flog lbio set_lbio]. rewrite (set_bheld_id _ []) by apply Hcache. exact Hcache.
  - unfold root_open. simpl. rewrite Hitb. destruct (itable (ffs t)) as [|x it]; [done|]. by eexists.
Qed.

Lemma calls_app l1 l2 m : calls (l1 ++ l2) m = (calls l1;; calls l2) m.
Proof using Type.
  revert m. induction l1 as [|c l1 IH]; intros m; [done|]. cbn [calls app foldr]. unfold mbind, M_bind in *. by destruct (c m) as [[] m'| | | |].
Qed.

Lemma wp_calls_app l1 l2 m Q : wp (calls l1) m (λ _ m', wp (calls l2) m' Q) → wp (calls (l1 ++ l2)) m Q.
Proof using Type. intros Hw. apply wp_bind in Hw. unfold wp in *. by rewrite calls_app. Qed.

(** The free pages there are. *)
Definition ram_pages : nat := Z.to_nat ((PHYSTOP - PGROUNDUP kend) / PGSIZE).

(** What is known of the registers of a hart before [main]. *)
Record idle (id : Z) (h : hart_state) : Prop := {
  id_tp : tp (h_csr (U := U) (V := V) h) = id;
  id_cpu : at_depth false 0 (h_cpu h);
  id_held : h_held h = [];
}.
#[local] Arguments idle : clear implicits.

Lemma enter_at m h id : idle id h → at_m false (Cfg 0 [] (procs (pstate (ker m))) (nextpid (pstate (ker m))) (initproc (pstate (ker m)))) (kmem (ker m)) (files (pstate (ker m))) (h_csr h)
  (vhw m, vdisk m, plic m, kernel_pagetable m, started m) (enter h m).
Proof using Type. intros [Ht Hc Hh]. by split_and!. Qed.

Lemma boot_zero m h : cold m → idle 0 h → (148 < ram_pages)%nat →
  wp (calls (initializers spins)) (enter h m) (λ _ m', booted m' ∧ ready 0 (csr (ker m')) m' ∧ thr false 0 [] (pstate (ker m')) ∧ tp (csr (ker m')) = 0).
Proof using VirtioPresent0 tx_ready.
  intros [[mm HK] Hlen Hz (Hn & Hip & Hst) Hc [Hit Hne] Hp [Hf Hd]] Hid Hram. pose proof (enter_at m h 0 Hid) as Hm. rewrite HK, Hn, Hip, Hst in Hm.
  rewrite <- (take_drop 8 (initializers spins)). apply wp_calls_app.
  eapply wp_mono; [eapply boot_memory; [exact Hm|done|done|rewrite length_pages_from; fold ram_pages; lia]|].
  intros [] m' (K & fl & Tk & Lk & stacks & r & u & Hm' & Hi & HT & Hk & Hsl & Hnd & Hown & used & Hu & Hul). destruct Hid as [Htp _ _].
  eapply (boot_rest false 0 _ K _ _ _ _ _ r m' fl Tk Lk stacks Hm'); try done.
  pose proof (f_equal length Hu) as Hlu. rewrite length_pages_from, length_app in Hlu. fold ram_pages in Hlu. lia.
Qed.

(** ** The other harts *)

(** Only the chip of the serial line and the interrupt controller differ. *)
Lemma booted_keep b k K t c v vd pl kp st m c' k' u pl' m' : at_m b k K t c (v, vd, pl, kp, st) m → booted m → k' = k → plic_prio pl' → at_m b k' K (with_hw u t) c' (v, vd, pl', kp, st) m' → booted m'.
Proof using Type.
  intros ((_ & Hl & Hn & Hi) & HK & Ht & _ & Hw) (fl & T & L & Tk & Lk & stacks & q & B) -> Hp ((_ & Hl' & Hn' & Hi') & HK' & Ht' & _ & Hw').
  injection Hw as _ Hw1 Hw2 Hw3 Hw4. injection Hw' as _ Hw1' Hw2' Hw3' Hw4'. exists fl, T, L, Tk, Lk, stacks, q.
  assert (kmem (ker m') = kmem (ker m)) as E1 by (unfold kmem; congruence). assert (procs (pstate (ker m')) = procs (pstate (ker m))) as E2 by congruence.
  assert (ffs (files (pstate (ker m'))) = ffs (files (pstate (ker m)))) as E3 by by rewrite Ht', Ht. assert (panicked (devs (files (pstate (ker m')))) = panicked (devs (files (pstate (ker m))))) as E4 by by rewrite Ht', Ht.
  assert (vdisk m' = vdisk m) as E5 by congruence. assert (kernel_pagetable m' = kernel_pagetable m) as E6 by congruence. assert (started m' = started m) as E7 by congruence.
  assert (nextpid (pstate (ker m')) = nextpid (pstate (ker m))) as E8 by congruence. assert (initproc (pstate (ker m')) = initproc (pstate (ker m))) as E9 by congruence.
  destruct B. split; rewrite ?E1, ?E2, ?E3, ?E4, ?E5, ?E6, ?E7, ?E8, ?E9; try done. by rewrite Hw2'.
Qed.

Lemma booted_enter h m : booted m → booted (enter h m).
Proof using Type. intros (fl & T & L & Tk & Lk & stacks & q & []). exists fl, T, L, Tk, Lk, stacks, q. by split. Qed.

(** How far hart [id] has come with its initializers. *)
Definition stage (id : Z) (j : nat) (c : csrs) m : Prop :=
  ((2 ≤ j)%nat → satp c = MAKE_SATP (kernel_pagetable m)) ∧ ((3 ≤ j)%nat → stvec c = kernelvec_addr) ∧ ((4 ≤ j)%nat → plic_on id (plic m)).
(** What a call does not undo. *)
Definition keeps m m' : Prop := kernel_pagetable m' = kernel_pagetable m ∧ ∀ id, 0 ≤ id < NCPU → plic_on id (plic m) → plic_on id (plic m').

Lemma hart_text id : 0 ≤ id < NCPU → fine (bytes "hart %d starting" ++ [x0a]) [AInt id] = true.
Proof using Type.
  intros Hr. unfold NCPU in Hr. assert (id = 0 ∨ id = 1 ∨ id = 2 ∨ id = 3 ∨ id = 4 ∨ id = 5 ∨ id = 6 ∨ id = 7) as Hc by lia.
  repeat (destruct Hc as [->|Hc]; [vm_compute; reflexivity|]). subst id. vm_compute. reflexivity.
Qed.

Lemma hart_call id j c h m : hart_initializers spins !! j = Some c → booted m → 0 ≤ id < NCPU → idle id h → stage id j (h_csr h) m →
  wp c (enter h m) (λ _ m', booted m' ∧ keeps m m' ∧ stage id (S j) (csr (ker m')) m' ∧ ∀ code, idle id (leave m' code)).
Proof using tx_ready.
  intros Hj HB Hr Hid (S1 & S2 & S3). pose proof (enter_at m h id Hid) as Hm. pose proof Hid as [Htp Hcpu Hheld]. 
  pose proof (booted_enter h m HB) as HB'. pose proof HB as (? & ? & ? & ? & ? & ? & ? & B). pose proof (bo_print _ _ _ _ _ _ _ _ B) as Hp. pose proof (bo_plic _ _ _ _ _ _ _ _ B) as Hpr.
  assert (∀ l n ip K t c' w m', at_m false (Cfg 0 [] l n ip) K t c' w m' → tp c' = id → ∀ code, idle id (leave m' code)) as Hleave.
  { intros l n ip K t c' w m' ((Hthr & _) & _ & _ & Hc & _) Htp' code. destruct Hthr as [Hd Hh]. split; simpl; [by rewrite Hc|done|done]. }
  assert (∀ t, t = with_hw (hw (devs t)) t) as Hhw by by intros [? ? []].
  destruct j as [|[|[|[|j]]]]; [..|done]; injection Hj as <-.
  - wp_step. unfold cpuid. wp_step. wp_step. wp_step. simpl. rewrite Htp, i32_small by (unfold NCPU in Hr; lia).
    eapply on_p_wp; [exact Hm|apply printf_run; [by apply hart_text|exact Hp]|].
    intros [] ? ? ? m' [-> [u [= -> ->]]] Hm'. split; [eapply booted_keep; [exact Hm|exact HB'|done|exact Hpr|exact Hm']|]. split; [|split; [split; [lia|split; lia]|eapply Hleave; [exact Hm'|done]]].
    destruct Hm' as (_ & _ & _ & _ & Hw). injection Hw as _ _ Hw1 Hw2 _. split; [done|]. by rewrite Hw1.
  - unfold kvminithart. wp_step. wp_step. eapply on_csr_wp; [exact Hm|]. intros m' Hm'. pose proof Hm' as (_ & _ & _ & Hc & Hw). injection Hw as _ _ Hw1 Hw2 _.
    split; [rewrite (Hhw (files _)) in Hm'; eapply booted_keep; [exact Hm|exact HB'|done|exact Hpr|exact Hm']|]. split; [split; [done|by rewrite Hw1]|]. split; [|eapply Hleave; [exact Hm'|done]].
    split; [|split; lia]. intros _. by rewrite Hc, Hw2.
  - eapply on_csr_wp; [exact Hm|]. intros m' Hm'. pose proof Hm' as (_ & _ & _ & Hc & Hw). injection Hw as _ _ Hw1 Hw2 _.
    split; [rewrite (Hhw (files _)) in Hm'; eapply booted_keep; [exact Hm|exact HB'|done|exact Hpr|exact Hm']|]. split; [split; [done|by rewrite Hw1]|]. split; [|eapply Hleave; [exact Hm'|done]].
    split; [|split; [|lia]]; intros _; rewrite Hc; [|done]. rewrite Hw2. by apply S1; lia.
  - eapply on_plic_wp; [exact Hm|by apply (plicinithart_wp id)|]. intros h' m' (Hon & Hpr' & Hj) Hm'. pose proof Hm' as (_ & _ & _ & Hc & Hw). injection Hw as _ _ Hw1 Hw2 _.
    split; [rewrite (Hhw (files _)) in Hm'; eapply booted_keep; [exact Hm|exact HB'|done|by apply Hpr'|exact Hm']|]. split; [split; [done|by rewrite Hw1]|]. split; [|eapply Hleave; [exact Hm'|done]].
    split; [|split]; intros _; rewrite ?Hc, ?Hw1, ?Hw2; [apply S1; lia|apply S2; lia|done].
Qed.

(** ** All harts *)

(** Only the last call of hart 0 sets [started]. *)
Definition keeps_started {A} (c : M machine A) : Prop := ∀ m v m', c m = Ok v m' → started m' = started m.
Lemma keeps_started_bind {A B} (c : M machine A) (f : A → M machine B) : keeps_started c → (∀ a, keeps_started (f a)) → keeps_started (c ≫= f).
Proof using Type. intros Hc Hf m v m'. unfold mbind, M_bind. destruct (c m) as [a m1| | | |] eqn:E; try done. intros E'. rewrite (Hf _ _ _ _ E'). by eapply Hc. Qed.
Lemma keeps_started_zoom {S A} (get : machine → S) (put : S → machine → machine) (c : M S A) : (∀ x m, started (put x m) = started m) → keeps_started (zoom get put c).
Proof using Type. intros Hp m v m'. unfold zoom. destruct (c (get m)); try done. intros [= <- <-]. apply Hp. Qed.

Tactic Notation "each" uconstr(H) := apply list.Forall_cons_2; [exact H|].
Lemma initializers_started : Forall keeps_started (take 18 (initializers spins)).
Proof using Type.
  assert (∀ A (c : M (tst F) A), keeps_started (on_t c)) as Ht by (intros; by apply keeps_started_zoom). assert (∀ A (c : M (pst F) A), keeps_started (on_p c)) as Hp by (intros; apply Ht).
  assert (∀ A (c : M kst A), keeps_started (on_k c)) as Hk by (intros; apply Ht). assert (∀ A (c : M fsst A), keeps_started (on_fs c)) as Hf by (intros; apply Hp).
  assert (∀ c : M hart unit, keeps_started (on_plic c)) as Hl by (intros; by apply keeps_started_zoom). assert (∀ c : M (vboot V) unit, keeps_started (on_virtio c)) as Hv by (intros; by apply keeps_started_zoom).
  assert (∀ A B (c : M machine A) (f : A → M machine B), keeps_started c → (∀ a, keeps_started (f a)) → keeps_started (c ≫= f)) as Hb by (intros; by apply keeps_started_bind).
  assert (∀ r, keeps_started (modify (set_pagetable_ r) : M machine unit)) as Hm by by intros r m v m' [= <- <-].
  assert (keeps_started (gets kernel_pagetable : M machine Z)) as Hg by by intros m v m' [= <- <-].
  cbn [initializers take]. do 5 each (Hp _ _). each (Hb _ _ _ _ (Hp _ _) (λ _, Hk _ _)). each (Hb _ _ _ _ (Hk _ _) Hm). each (Hb _ _ _ _ Hg (λ _, Ht _ _)). each (Hp _ _).
  do 2 each (Ht _ _). do 2 each (Hl _). do 2 each (Hb _ _ _ _ (Hp _ _) (λ _, Hf _ _)). each (Hp _ _). each (Hb _ _ _ _ (Hp _ _) (λ _, Hv _)). each (Hp _ _).
  apply list.Forall_nil_2.
Qed.

Definition await_code : list (op (U := U) (V := V)) := Await :: (Call <$> hart_initializers spins).
(** Hart [i] waits, or goes through its initializers. *)
Definition late (i : nat) (h : hart_state) m : Prop :=
  idle (Z.of_nat i) h ∧ (h_code h = await_code ∨ ∃ j, h_code h = Call <$> drop j (hart_initializers spins) ∧ stage (Z.of_nat i) j (h_csr h) m).

(** Hart 0 is at some point of its initializers, and the others wait; or it is
    done. *)
Inductive boot_inv m0 h00 (n : nat) (y : system) : Prop :=
| inv_cold h0 done rest : length (harts y) = n → harts y !! 0%nat = Some h0 → initializers spins = done ++ rest → rest ≠ [] → h_code h0 = Call <$> rest →
    calls done (enter h00 m0) = Ok tt (enter h0 (shared y)) → started (shared y) = 0 →
    (∀ i h, i ≠ 0%nat → harts y !! i = Some h → idle (Z.of_nat i) h ∧ h_code h = await_code) → boot_inv m0 h00 n y
| inv_warm h0 : length (harts y) = n → harts y !! 0%nat = Some h0 → h_code h0 = [] → idle 0 h0 → ready 0 (h_csr h0) (shared y) → booted (shared y) →
    (∀ i h, i ≠ 0%nat → harts y !! i = Some h → late i h (shared y)) → boot_inv m0 h00 n y.

Lemma enter_leave m code : enter (leave m code) m = m.
Proof using Type. by destruct m as [[[]] ? ? ? ? ?]. Qed.
Lemma ready_keeps c m m' : ready 0 c m → keeps m m' → ready 0 c m'.
Proof using Type. intros [R1 R2 R3] [K1 K2]. split; [by rewrite K1|done|by apply K2]. Qed.
Lemma late_keeps i h m m' : 0 ≤ Z.of_nat i < NCPU → late i h m → keeps m m' → late i h m'.
Proof using Type.
  intros Hr [Hi [Hc|(j & Hc & S1 & S2 & S3)]] [K1 K2]; (split; [done|]); [by left|right]. exists j. split; [done|]. split; [|split]; [by rewrite K1|done|]. intros Hj. apply K2; auto.
Qed.

Lemma in_initializers done c rest : initializers spins = done ++ c :: rest → rest ≠ [] → keeps_started c.
Proof using Type.
  intros E Hr. assert (take 18 (initializers spins) !! length done = Some c) as Hc.
  { assert (length done < 18)%nat. { pose proof (f_equal length E) as El. rewrite length_app in El. destruct rest; [done|]. simpl in El. lia. }
    rewrite lookup_take_lt by done. rewrite E. by apply list_lookup_middle. }
  pose proof initializers_started as Hf. rewrite list.Forall_forall in Hf. apply Hf. by eapply list_elem_of_lookup_2.
Qed.

(** What is left to do. *)
Definition to_do (y : system (U := U) (V := V)) : nat := sum_list (length ∘ h_code <$> harts y).
Lemma to_do_less m l i (h h' : hart_state (U := U) (V := V)) : l !! i = Some h → (length (h_code h') < length (h_code h))%nat → (to_do (mk_system m (<[i := h']> l)) < sum_list (length ∘ h_code <$> l))%nat.
Proof using Type.
  intros Hh Hl. unfold to_do. cbn [harts]. rewrite list_fmap_insert. revert i Hh. induction l as [|x l IH]; intros [|i] Hh; try done.
  - injection Hh as ->. simpl in *. unfold compose, id in *. lia.
  - specialize (IH i Hh). simpl in *. unfold compose, id in *. by apply Nat.add_lt_mono_l.
Qed.

Section system.
Context m0 h00 (n : nat) (Hcold : cold m0) (H00 : idle 0 h00) (Hn : Z.of_nat n ≤ NCPU) (Hram : (148 < ram_pages)%nat).
Local Abbreviation inv := (boot_inv m0 h00 n).

(** Hart 0's next call returns, and its last one leaves the kernel ready. *)
Lemma cold_call h0 past c rest y : initializers spins = past ++ c :: rest → calls past (enter h00 m0) = Ok tt (enter h0 (shared y)) →
  ∃ m, c (enter h0 (shared y)) = Ok tt m ∧ calls (past ++ [c]) (enter h00 m0) = Ok tt m ∧
    (rest = [] → booted m ∧ ready 0 (csr (ker m)) m ∧ thr false 0 [] (pstate (ker m)) ∧ tp (csr (ker m)) = 0).
Proof using VirtioPresent0 tx_ready Hcold H00 Hram.
  intros E Hd. pose proof (boot_zero m0 h00 Hcold H00 Hram) as Hw. apply wp_elim in Hw as ([] & mf & Ef & Hf). rewrite E in Ef.
  rewrite calls_app in Ef. unfold mbind, M_bind in Ef. rewrite Hd in Ef. cbn [calls foldr] in Ef. unfold mbind, M_bind in Ef. destruct (c (enter h0 (shared y))) as [[] m| | | |] eqn:Ec; try done.
  exists m. split; [done|]. split; [rewrite calls_app; unfold mbind, M_bind; rewrite Hd; cbn [calls foldr]; unfold mbind, M_bind; by rewrite Ec|]. intros ->. by injection Ef as ->.
Qed.

Lemma warm_call i h j c y : booted (shared y) → i ≠ 0%nat → (i < n)%nat → idle (Z.of_nat i) h → stage (Z.of_nat i) j (h_csr h) (shared y) → hart_initializers spins !! j = Some c →
  ∃ m, c (enter h (shared y)) = Ok tt m ∧ booted m ∧ keeps (shared y) m ∧ ∀ code, idle (Z.of_nat i) (leave m code) ∧ stage (Z.of_nat i) (S j) (h_csr (leave m code)) m.
Proof using tx_ready Hn Hram.
  intros HB Hi Hlt Hid Hs Hj. assert (0 ≤ Z.of_nat i < NCPU) as Hr by lia. pose proof (hart_call _ j c h _ Hj HB Hr Hid Hs) as Hw.
  apply wp_elim in Hw as ([] & m & E & HB' & Hk & Hs' & Hid'). exists m. by split_and!.
Qed.

Lemma calls_cons (l : list (M machine unit)) (c : M machine unit) code : Call <$> l = Call c :: code → ∃ l', l = c :: l' ∧ code = Call <$> l'.
Proof using Type. destruct l as [|c' l]; [done|]. intros [= -> <-]. by exists l. Qed.

Lemma drop_cons j (l : list (M machine unit)) c l' : drop j l = c :: l' → l !! j = Some c ∧ l' = drop (S j) l.
Proof using Type.
  intros E. assert (l !! j = Some c) as Hj by (rewrite <- (Nat.add_0_r j), <- lookup_drop; by rewrite E). split; [done|]. rewrite (drop_S _ _ _ Hj) in E. by injection E.
Qed.

Lemma boot_step i y y' : inv y → hstep i y y' → inv y'.
Proof using VirtioPresent0 tx_ready Hcold H00 Hn Hram.
  intros [h0 past rest Hlen Hh0 Ein Hrest Hcode Hdone Hst Hoth|h0 Hlen Hh0 Hcode Hid Hr HB Hoth] Hstep.
  - destruct Hstep as [y h c code m Hh Hc Ec|y h code Hh Hc Hs|y h code Hh Hc Hs].
    + assert (i = 0%nat) as -> by (destruct (decide (i = 0%nat)); [done|]; destruct (Hoth i h ltac:(done) Hh) as [_ E]; by rewrite E in Hc).
      rewrite Hh0 in Hh. injection Hh as <-. rewrite Hcode in Hc. apply calls_cons in Hc as (rest' & -> & ->). destruct (cold_call h0 past c rest' y Ein Hdone) as (m' & Ec' & Hd' & Hlast).
      rewrite Ec in Ec'. injection Ec' as <-. assert (0 < length (harts y))%nat as Hlt by by eapply lookup_lt_Some. destruct (decide (rest' = [])) as [->|Hne].
      * destruct (Hlast eq_refl) as (HB & Hr & [Hd Hh] & Htp). eapply (inv_warm _ _ _ _ (leave m _)); cbn [harts shared]; [by rewrite length_insert|by apply list_lookup_insert_eq|done|by split|done|done|].
        intros k h Hk. rewrite list_lookup_insert_ne by done. intros Hkh. destruct (Hoth k h Hk Hkh). split; [done|by left].
      * eapply (inv_cold _ _ _ _ (leave m _) (past ++ [c]) rest'); cbn [harts shared]; [by rewrite length_insert|by apply list_lookup_insert_eq|by rewrite <- app_assoc|done|done|by rewrite enter_leave| |].
        { by rewrite (in_initializers past c rest' Ein Hne _ _ _ Ec). }
        intros k h Hk. rewrite list_lookup_insert_ne by done. by apply Hoth.
    + by eapply (inv_cold _ _ _ _ h0 past rest).
    + done.
  - assert (∀ k h', harts y !! k = Some h' → 0 ≤ Z.of_nat k < NCPU) as Hrange by (intros k h' Hk; apply lookup_lt_Some in Hk; lia).
    assert (i ≠ 0%nat) as Hi by (intros ->; destruct Hstep as [? ? ? ? ? Hh|? ? ? Hh|? ? ? Hh]; rewrite Hh0 in Hh; injection Hh as <-; congruence).
    destruct Hstep as [y h c code m Hh Hc Ec|y h code Hh Hc Hs|y h code Hh Hc Hs]; [|exact (inv_warm _ _ _ _ h0 Hlen Hh0 Hcode Hid Hr HB Hoth)|]; destruct (Hoth i h Hi Hh) as [Hidi [E|(j & E & Hsj)]]; rewrite E in Hc; try done.
    + apply calls_cons in Hc as (l' & El & ->). apply drop_cons in El as [Hj ->]. destruct (warm_call i h j c y HB Hi) as (m' & Ec' & HB' & Hk & Hnew); [by rewrite <- Hlen; eapply lookup_lt_Some|done..|].
      rewrite Ec in Ec'. injection Ec' as <-. eapply (inv_warm _ _ _ _ h0); cbn [harts shared]; [by rewrite length_insert|by rewrite list_lookup_insert_ne|done|done|by eapply ready_keeps|done|].
      intros k h' Hk0 [(<- & <- & _)|[_ Hk']]%list_lookup_insert_Some; [|by eapply late_keeps; [eapply Hrange|apply Hoth|]]. split; [apply Hnew|]. right. exists (S j). split; [done|apply Hnew].
    + injection Hc as <-. eapply (inv_warm _ _ _ _ h0); cbn [harts shared]; [by rewrite length_insert|by rewrite list_lookup_insert_ne|done|done|done|done|].
      intros k h' Hk0 [(<- & <- & _)|[_ Hk']]%list_lookup_insert_Some; [|by apply Hoth]. destruct Hidi. split; [by split|]. right. exists 0%nat. split; [done|]. split; [lia|split; lia].
    + by destruct (drop j (hart_initializers spins)).
Qed.

Lemma inv_progress i h y : inv y → harts y !! i = Some h → h_code h ≠ [] → (∃ y', hstep i y y' ∧ (to_do y' < to_do y)%nat) ∨ (i ≠ 0%nat ∧ started (shared y) = 0 ∧ hstep i y y).
Proof using VirtioPresent0 tx_ready Hcold H00 Hn Hram.
  assert (∀ c code m, harts y !! i = Some h → h_code h = Call c :: code → c (enter h (shared y)) = Ok tt m → ∃ y', hstep i y y' ∧ (to_do y' < to_do y)%nat) as Hcall.
  { intros c code m Hh Hc Ec. eexists. split; [by eapply step_call|]. eapply to_do_less; [done|]. rewrite Hc. simpl. lia. }
  intros [h0 past rest Hlen Hh0 Ein Hrest Hcode Hdone Hst Hoth|h0 Hlen Hh0 Hcode Hid Hr HB Hoth] Hh Hne.
  - destruct (decide (i = 0%nat)) as [->|Hi].
    + left. rewrite Hh0 in Hh. injection Hh as <-. destruct rest as [|c rest]; [done|]. destruct (cold_call h0 past c rest y Ein Hdone) as (m & Ec & _). by eapply Hcall.
    + right. split; [done|]. split; [done|]. destruct (Hoth i h Hi Hh) as [_ Hc]. by eapply step_spin.
  - left. destruct (decide (i = 0%nat)) as [->|Hi]; [by simplify_eq|]. destruct (Hoth i h Hi Hh) as [Hidi [Hc|(j & Hc & Hs)]].
    + eexists. split; [eapply step_go; [done|done|]; destruct HB as (? & ? & ? & ? & ? & ? & ? & B); by rewrite (bo_started _ _ _ _ _ _ _ _ B)|].
      eapply to_do_less; [done|]. rewrite Hc. simpl. lia.
    + destruct (drop j (hart_initializers spins)) as [|c l'] eqn:El; [by rewrite Hc in Hne|]. apply drop_cons in El as [Hj _].
      destruct (warm_call i h j c y HB Hi) as (m & Ec & _); [by rewrite <- Hlen; eapply lookup_lt_Some|done..|]. by eapply Hcall.
Qed.

(** However far they are, the harts can all come to [scheduler]. *)
Lemma inv_finishes y : inv y → ∃ y', boots y y' ∧ ∀ i h, harts y' !! i = Some h → h_code h = [].
Proof using VirtioPresent0 tx_ready Hcold H00 Hn Hram.
  remember (to_do y) as k eqn:Ek. revert y Ek. induction (lt_wf k) as [k _ IH]. intros y -> Hinv.
  destruct (decide (Forall (λ h, length (h_code h) = 0%nat) (harts y))) as [Hall|(h & Hh & Hne)%not_Forall_Exists%list.Exists_exists]; [|apply list_elem_of_lookup in Hh as [i Hi]|apply _].
  { exists y. split; [apply boots_refl|]. rewrite list.Forall_forall in Hall. intros i h Hh. specialize (Hall h (list_elem_of_lookup_2 _ _ _ Hh)). by destruct (h_code h). }
  assert (∃ i y', hstep i y y' ∧ (to_do y' < to_do y)%nat) as (j & y' & Hs & Hless).
  { assert (h_code h ≠ []) as Hc by (intros E; apply Hne; by rewrite E). destruct (inv_progress i h y Hinv Hi Hc) as [(y' & ? & ?)|(_ & Hst & _)]; [by exists i, y'|].
    destruct Hinv as [h0 past rest Hlen Hh0 Ein Hrest Hcode Hdone ? Hoth|? ? ? ? ? ? (? & ? & ? & ? & ? & ? & ? & B) ?]; [|by rewrite (bo_started _ _ _ _ _ _ _ _ B) in Hst].
    destruct (inv_progress 0%nat h0 y) as [(y' & ? & ?)|[? _]]; [by eapply inv_cold|done|rewrite Hcode; by destruct rest|by exists 0%nat, y'|done]. }
  destruct (IH _ Hless y' eq_refl (boot_step _ _ _ Hinv Hs)) as (yf & Hb & Hf). exists yf. split; [|done].
  clear -Hs Hb. induction Hb as [|k y1 y2 Hb IH Hk]; [eapply boots_step; [apply boots_refl|done]|by eapply boots_step].
Qed.
End system.

Lemma inv_boots m0 cs x0 y : cs !! 0%nat = Some x0 → (∀ i x, cs !! i = Some x → tp x.1 = Z.of_nat i ∧ at_depth false 0 x.2) → cold m0 → Z.of_nat (length cs) ≤ NCPU → (148 < ram_pages)%nat →
  boots (power_on spins m0 cs) y → boot_inv m0 (mk_hs x0.1 x0.2 [] (main spins (tp x0.1))) (length cs) y.
Proof using VirtioPresent0 tx_ready.
  intros H00 Hcs Hcold Hn Hram Hb. destruct (Hcs _ _ H00) as [Ht0 Hd0]. assert (idle 0 (mk_hs x0.1 x0.2 [] (main spins (tp x0.1)))) as Hid by by split.
  induction Hb as [|i y y' Hb IH Hs]; [|by eapply boot_step].
  assert (∀ i h, harts (power_on spins m0 cs) !! i = Some h → ∃ x, cs !! i = Some x ∧ h = mk_hs x.1 x.2 [] (main spins (tp x.1))) as Hh.
  { intros i h. cbn [harts power_on]. rewrite list_lookup_fmap. intros (x & ? & ->)%fmap_Some. by exists x. }
  eapply (inv_cold _ _ _ _ _ [] (initializers spins)); cbn [harts power_on shared]; [by rewrite length_fmap|by rewrite list_lookup_fmap, H00|done|done|by rewrite Ht0|done|by destruct Hcold as [_ _ _ (_ & _ & ?) _ _ _ _]|].
  intros i h Hi Hh'. destruct (Hh i h Hh') as (x & Hx & ->). destruct (Hcs _ _ Hx) as [Ht Hd]. split; [by split|]. cbn [h_code]. unfold main. rewrite Ht.
  apply lookup_lt_Some in Hx. rewrite i32_small by (unfold NCPU in Hn; lia). by rewrite (proj2 (Z.eqb_neq _ 0)) by lia.
Qed.

(** C2: the kernel boots.  The machine is as the loader leaves it, with at least
    149 pages of free memory, a serial line that becomes ready within [spins]
    looks, a disk that presents itself as the standard says, and up to 8 harts,
    numbered from 0, at the start of [main].  Then, however their calls are
    interleaved, no hart gets stuck or panics; a hart other than 0 does nothing
    before everything is initialized; and a hart that comes to [scheduler] finds
    the kernel initialized and itself set up.  That is: the kernel's page table,
    which maps the devices, the memory, the trampoline and every process's stack,
    is in force and intact; the process table has one process, ready to run
    [initcode] in an address space of its own; the buffer cache and the disk's
    queue are in order; the hart holds no lock, traps to [kernelvec], and receives
    the interrupts of the serial line and of the disk.  And from any point all the
    harts can come there. *)
Theorem main_boots m cs y : cold m → (148 < ram_pages)%nat → (0 < length cs)%nat → Z.of_nat (length cs) ≤ NCPU →
  (∀ i x, cs !! i = Some x → tp x.1 = Z.of_nat i ∧ at_depth false 0 x.2) → boots (power_on spins m cs) y →
  (∀ i h, harts y !! i = Some h → h_code h ≠ [] → ∃ y', hstep i y y') ∧
  (∀ i h, harts y !! i = Some h → i ≠ 0%nat → h_code h ≠ main spins (Z.of_nat i) → booted (shared y)) ∧
  (∀ i h, harts y !! i = Some h → h_code h = [] → booted (shared y) ∧ satp (h_csr h) = MAKE_SATP (kernel_pagetable (shared y)) ∧ stvec (h_csr h) = kernelvec_addr ∧
     h_held h = [] ∧ at_depth false 0 (h_cpu h) ∧ delivered (hart_view (shared y)) (Z.of_nat i) UART0_IRQ = true ∧ delivered (hart_view (shared y)) (Z.of_nat i) VIRTIO0_IRQ = true) ∧
  ∃ y', boots y y' ∧ ∀ i h, harts y' !! i = Some h → h_code h = [].
Proof using VirtioPresent0 tx_ready.
  intros Hcold Hram Hpos Hn Hcs Hb. destruct (lookup_lt_is_Some_2 _ _ Hpos) as [x0 H00]. destruct (Hcs _ _ H00) as [Ht0 Hd0].
  pose proof (inv_boots m cs x0 y H00 Hcs Hcold Hn Hram Hb) as Hinv. set (h00 := mk_hs _ _ _ _) in Hinv. assert (idle 0 h00) as Hid by by split. split_and!.
  - intros i h Hh Hne. destruct (inv_progress m h00 _ Hcold Hid Hn Hram i h y Hinv Hh Hne) as [(y' & Hs & _)|(_ & _ & Hs)]; eauto.
  - intros i h Hh Hi Hne. destruct Hinv as [h0 past rest Hlen Hh0 Ein Hrest Hcode Hdone Hst Hoth|h0 Hlen Hh0 Hcode Hid0 Hr HB Hoth]; [|done]. destruct Hne. destruct (Hoth i h Hi Hh) as [[Ht _ _] ->].
    unfold main. apply lookup_lt_Some in Hh. rewrite i32_small by (unfold NCPU in Hn; lia). by rewrite (proj2 (Z.eqb_neq _ 0)) by lia.
  - intros i h Hh Hc. destruct Hinv as [h0 past rest Hlen Hh0 Ein Hrest Hcode Hdone Hst Hoth|h0 Hlen Hh0 Hcode Hid0 Hr HB Hoth].
    { destruct (decide (i = 0%nat)) as [->|Hi]; [|by destruct (Hoth i h Hi Hh) as [_ E]; rewrite E in Hc]. rewrite Hh0 in Hh. injection Hh as <-. rewrite Hcode in Hc. by destruct rest. }
    assert (idle (Z.of_nat i) h ∧ ready (Z.of_nat i) (h_csr h) (shared y)) as [[_ Hcpu Hheld] [R1 R2 R3]].
    { destruct (decide (i = 0%nat)) as [->|Hi]; [by simplify_eq|]. destruct (Hoth i h Hi Hh) as [Hidi [E|(j & E & S1 & S2 & S3)]]; [by rewrite E in Hc|]. split; [done|].
      assert (4 ≤ j)%nat as Hj by (destruct j as [|[|[|[|j]]]]; try lia; by rewrite E in Hc). split; [apply S1; lia|apply S2; lia|by apply S3]. }
    split_and!; try done; (apply plic_delivered; [done|]; by destruct HB as (? & ? & ? & ? & ? & ? & ? & [])).
  - by eapply (inv_finishes m h00 _ Hcold Hid Hn Hram).
Qed.
End pieces.

(** ** A machine with two harts *)

(** A serial line that is always ready, and a disk by the standard. *)
Definition ready_chip : UartHw (list Z) := {| ReadReg_hw r h := (LSR_TX_IDLE, h); WriteReg_hw r v h := h |}.
Definition present_disk : VirtioHw unit := {|
  mmio_read r h := (if r =? VIRTIO_MMIO_MAGIC_VALUE then 0x74726976 else if r =? VIRTIO_MMIO_VERSION then 2 else if r =? VIRTIO_MMIO_DEVICE_ID then 2
    else if r =? VIRTIO_MMIO_VENDOR_ID then 0x554d4551 else if r =? VIRTIO_MMIO_STATUS then 11 else if r =? VIRTIO_MMIO_QUEUE_NUM_MAX then 1024 else 0, h);
  mmio_write r v h := h;
|}.
#[local] Existing Instance ready_chip.
#[local] Existing Instance present_disk.
#[local] Existing Instance demo_kernel.
#[local] Existing Instance demo_texts.
#[local] Instance present_disk_laws : VirtioPresent (λ _ : unit, True).
Proof. split; intros; try done; vm_compute; congruence. Qed.

Definition demo_machine : machine (list Z) unit :=
  mk_machine (mk_tst (mk_pst (boot_state (λ _, x00)) (replicate (Z.to_nat NPROC) blank_proc) 1 None true
    (mk_fstate (mk_fsst (mk_logst demo_bst 0 0 0 false 0 []) (replicate 50 no_inode) (mk_sb 0 0 0 0 0 0 0 0)) []
       (mk_devst (replicate 32 0) 0 0 (replicate 128 0) 0 0 0 false false [])) (mk_cpu 0 false false) []) 0 (mk_csrs 0 0 0 0 0 0 0 0))
    () demo_v0 (λ _, x00) 0 0.
Definition demo_harts : list (csrs * cpu) := (λ i, (mk_csrs 0 0 0 0 0 0 i 0, mk_cpu 0 false false)) <$> [0; 1].

Lemma demo_cold : cold (λ _ : unit, True) demo_machine.
Proof.
  split; try done.
  - by eexists.
  - by intros i q [-> _]%lookup_replicate.
  - apply demo_zeroed.
  - split; [by apply Forall_replicate|done].
  - split; [done|]. destruct demo_v0_initial as (? & ? & ? & ? & ? & ? & ? & ? & ? & ? & ? & ? & ? & ? & ? & ?). by split_and!.
Qed.

Lemma boots_length {U V} (y y' : system (U := U) (V := V)) : boots y y' → length (harts y') = length (harts y).
Proof. induction 1 as [|i y1 y2 _ IH Hs]; [done|]. rewrite <- IH. destruct Hs; cbn [harts]; by rewrite ?length_insert. Qed.

Lemma main_boots_witness : ∃ y, boots (power_on 1 demo_machine demo_harts) y ∧
  (∀ i h, harts y !! i = Some h → h_code h = []) ∧ booted (shared y).
Proof.
  pose proof (main_boots 1 (λ h : list Z, ltac:(by eexists)) (λ _ : unit, True) demo_machine demo_harts) as Hm.
  assert (∀ i x, demo_harts !! i = Some x → Syscall.tp x.1 = Z.of_nat i ∧ at_depth false 0 x.2) as Hcs.
  { intros [|[|i]] x [= <-]; by split. }
  destruct (Hm _ demo_cold ltac:(vm_compute; lia) ltac:(simpl; lia) ltac:(vm_compute; congruence) Hcs (boots_refl _)) as (_ & _ & _ & y & Hb & Hy).
  exists y. split; [exact Hb|]. split; [exact Hy|].
  destruct (Hm y demo_cold ltac:(vm_compute; lia) ltac:(simpl; lia) ltac:(vm_compute; congruence) Hcs Hb) as (_ & _ & Hdone & _).
  pose proof (boots_length _ _ Hb) as Hlen. destruct (lookup_lt_is_Some_2 (harts y) 0) as [h Hh]; [rewrite Hlen; simpl; lia|]. apply (Hdone 0%nat h Hh (Hy _ _ Hh)).
Defined.
