(* ===== verification/Ulib.v ===== *)
(** * The user library, [user/ulib.c], and the system calls programs make

    A C string is the list of its bytes: its end, or a NUL in it, terminates it.
    The memory functions work on a byte memory, as those of the kernel do.
    Programs are written against [Sys], the system calls as they see them, and
    their theorems use [SysLaws], what a program may assume of an input stream
    and of its standard output; nothing is assumed of how the kernel cuts the
    stream into the results of successive reads. *)

From S2P Require Import Prelude Mem CString.

(** ** Strings *)

Fixpoint strlen (s : list byte) : Z :=
  match s with
  | [] => 0
  | c :: s => if decide (c = x00) then 0 else 1 + strlen s
  end.

(** What [strcpy] stores, the NUL included. *)
Fixpoint strcpy (t : list byte) : list byte :=
  match t with
  | [] => [x00]
  | c :: t => if decide (c = x00) then [x00] else c :: strcpy t
  end.

Fixpoint strcmp (p q : list byte) : Z :=
  match p with
  | [] => 0 - Z_of_byte (hd x00 q)
  | a :: p =>
      if bool_decide (a ≠ x00) && bool_decide (a = hd x00 q) then strcmp p (tl q)
      else Z_of_byte a - Z_of_byte (hd x00 q)
  end.

(** The index of the first [c], if there is one. *)
Fixpoint strchr (s : list byte) (c : byte) : option nat :=
  match s with
  | [] => None
  | x :: s =>
      if decide (x = x00) then None
      else if decide (x = c) then Some 0%nat
      else S <$> strchr s c
  end.

(** [int] arithmetic wraps around. *)
Fixpoint atoi_loop (s : list byte) (n : Z) : Z :=
  match s with
  | [] => n
  | c :: s =>
      if (0x30 <=? Z_of_byte c) && (Z_of_byte c <=? 0x39)
      then atoi_loop s (i32 (n * 10 + Z_of_byte c - 0x30)) else n
  end.
Definition atoi (s : list byte) : Z := atoi_loop s 0.

(** ** Memory *)

Definition memset (m : memory) (dst c : Z) (n : nat) : memory := memset_loop n 0 dst (byte_of_Z c) m.

Definition memmove (m : memory) (dst src : Z) (n : nat) : memory :=
  if src >? dst then move_forward n dst src m
  else move_backward n (dst + Z.of_nat n) (src + Z.of_nat n) m.

Definition memcpy (m : memory) (dst src : Z) (n : nat) : memory := memmove m dst src n.

Fixpoint memcmp (n : nat) (p1 p2 : nat → byte) : Z :=
  match n with
  | O => 0
  | S n =>
      if decide (p1 0%nat ≠ p2 0%nat) then Z_of_byte (p1 0%nat) - Z_of_byte (p2 0%nat)
      else memcmp n (λ i, p1 (S i)) (λ i, p2 (S i))
  end.

(** ** System calls *)

(** [struct stat]. *)
Record ustat := mk_ustat { us_dev : Z; us_ino : Z; us_type : Z; us_nlink : Z; us_size : Z }.

(** A read gives its result and the bytes it put in the buffer. *)
Class Sys (S : Type) := {
  read : Z → Z → M S (Z * list byte);
  write : Z → list byte → M S Z;
  open : list byte → Z → M S Z;
  close : Z → M S Z;
  fstat : Z → M S (Z * ustat);
  kill : Z → M S Z;
  link : list byte → list byte → M S Z;
  unlink : list byte → M S Z;
  mkdir : list byte → M S Z;
}.

(** What a program may rely on: [input s fd] is what is left of an open stream
    and [output s] what was written to standard output. *)
Class SysLaws (S : Type) `{!Sys S} := {
  input : S → Z → option (list byte);
  output : S → list byte;
  read_input s fd n d : input s fd = Some d → 0 < n → ∃ k s',
    read fd n s = Ok (Z.of_nat k, take k d) s' ∧ (k ≤ length d)%nat ∧ Z.of_nat k ≤ n ∧ (d ≠ [] → k ≠ 0%nat) ∧
    input s' fd = Some (drop k d) ∧ output s' = output s;
  write_output s bs : ∃ s', write 1 bs s = Ok (Z.of_nat (length bs)) s' ∧
    output s' = output s ++ bs ∧ ∀ fd d, input s fd = Some d → input s' fd = Some d;
}.

Section calls.
Context {S : Type} `{!Sys S}.

(** The line read, and the bytes [gets] stores are it and a NUL. *)
Fixpoint gets_loop (fuel : nat) (max : Z) (l : list byte) : M S (list byte) :=
  match fuel with
  | O => no_fuel
  | Datatypes.S fuel =>
      if Z.of_nat (length l) + 1 <? max then
        '(cc, bs) ← read 0 1;
        if cc <? 1 then mret l
        else
          let c := hd x00 bs in
          if bool_decide (c = x0a) || bool_decide (c = x0d) then mret (l ++ [c])
          else gets_loop fuel max (l ++ [c])
      else mret l
  end.
Definition gets (max : Z) : M S (list byte) := gets_loop (Datatypes.S (Z.to_nat max)) max [].

Definition stat (n : list byte) : M S (Z * ustat) :=
  fd ← open n 0;
  if fd <? 0 then mret (-1, mk_ustat 0 0 0 0 0)
  else
    '(r, st) ← fstat fd;
    close fd;;
    mret (r, st).

End calls.

(** ** Properties *)

(** The string of a buffer. *)
Definition str (s : list byte) : list byte := take (Z.to_nat (strlen s)) s.

Lemma strlen_nonneg s : 0 ≤ strlen s.
Proof. induction s as [|c s IH]; simpl; [done|]. case_decide; lia. Qed.

Lemma str_cons c s : str (c :: s) = if decide (c = x00) then [] else c :: str s.
Proof.
  unfold str. simpl. case_decide; [done|]. pose proof (strlen_nonneg s).
  by replace (Z.to_nat (1 + strlen s)) with (S (Z.to_nat (strlen s))) by lia.
Qed.

Lemma strcpy_str t : strcpy t = str t ++ [x00].
Proof. induction t as [|c t IH]; [done|]. rewrite str_cons. simpl. case_decide; [done|]. by rewrite IH. Qed.

Lemma strcmp_zero p q : strcmp p q = 0 ↔ str p = str q.
Proof.
  revert q. induction p as [|a p IH]; intros q; simpl.
  - destruct q as [|b q]; [done|]. rewrite str_cons. simpl. pose proof (Z_of_byte_inj b x00) as Hi.
    change (str []) with (@nil byte). case_decide as Hb; [subst; done|]. split; [|done]. intros Hz. destruct Hb. apply Hi.
    change (Z_of_byte x00) with 0. lia.
  - rewrite str_cons. destruct q as [|b q]; simpl.
    + change (str []) with (@nil byte). change (Z_of_byte x00) with 0. pose proof (Z_of_byte_inj a x00) as Hi.
      case_decide as Ha; [subst; done|]. rewrite (bool_decide_eq_false_2 (a = x00)), andb_false_r by done.
      split; [|done]. intros Hz. destruct Ha. apply Hi. change (Z_of_byte x00) with 0. lia.
    + rewrite str_cons. pose proof (Z_of_byte_inj a b) as Hi. destruct (decide (a = b)) as [<-|Hab].
      * rewrite (bool_decide_eq_true_2 (a = a)), andb_true_r by done. case_bool_decide as Ha; case_decide; try done.
        -- rewrite IH. split; [congruence|]. by intros [= ->].
        -- by split; [|lia].
      * rewrite (bool_decide_eq_false_2 (a = b)), andb_false_r by done.
        split; [intros; destruct Hab; apply Hi; lia|]. repeat case_decide; congruence.
Qed.

Lemma strchr_spec s c : x00 ∉ s →
  match strchr s c with
  | Some k => ∃ l r, s = l ++ c :: r ∧ length l = k ∧ (c ∉ l)
  | None => c ∉ s
  end.
Proof.
  induction s as [|x s IH]; intros H0; simpl; [apply not_elem_of_nil|].
  apply not_elem_of_cons in H0 as [Hx H0]. rewrite decide_False by done. case_decide as Hc.
  - subst x. exists [], s. split_and!; [done|done|apply not_elem_of_nil].
  - specialize (IH H0). destruct (strchr s c) as [k|]; simpl.
    + destruct IH as (l & r & -> & <- & Hl). exists (x :: l), r. split_and!; [done|done|].
      apply not_elem_of_cons. by split.
    + apply not_elem_of_cons. by split.
Qed.

(** The direction of the copy is right for every overlap. *)
Lemma umemmove_spec m dst src n x : memmove m dst src n x = mcopy m dst src (Z.of_nat n) x.
Proof.
  unfold memmove. destruct (Z.gtb_spec src dst); [by apply move_forward_spec; lia|].
  rewrite move_backward_spec by lia. f_equal; lia.
Qed.

(** A system with one input that is delivered a byte at a time. *)
Record demo_io := mk_demo_io { demo_in : list byte; demo_out : list byte }.
#[global] Instance demo_sys : Sys demo_io := {
  read fd n := λ s, Ok (Z.of_nat (min 1 (length (demo_in s))), take 1 (demo_in s)) (mk_demo_io (drop 1 (demo_in s)) (demo_out s));
  write fd bs := λ s, Ok (Z.of_nat (length bs)) (mk_demo_io (demo_in s) (demo_out s ++ bs));
  open _ _ := mret (-1);
  close _ := mret 0;
  fstat _ := mret (-1, mk_ustat 0 0 0 0 0);
  kill _ := mret (-1);
  link _ _ := mret (-1);
  unlink _ := mret (-1);
  mkdir _ := mret (-1);
}.
#[global] Instance demo_io_laws : SysLaws demo_io.
Proof.
  refine {| input s fd := Some (demo_in s); output s := demo_out s |}.
  - intros s fd n d [= <-] Hn. exists (min 1 (length (demo_in s))), (mk_demo_io (drop 1 (demo_in s)) (demo_out s)).
    destruct s as [[|c l] o]; simpl; split_and!; try done; try lia.
  - intros s bs. eexists. split; [done|]. by split.
Defined.
