(* ===== verification/Uprintf.v ===== *)
(** * Formatted output of programs, [user/printf.c]

    Each character is a [write] of its own.  The numbers that [printint] of the
    kernel and of the user library print are read back below, by [atoi] for one. *)

From S2P Require Import Prelude Format Ulib.

Definition digits : list byte := bytes "0123456789ABCDEF".

Section printf.
Context {S : Type} `{!Sys S}.

Definition putc (fd : Z) (c : byte) : M S unit := write fd [c];; mret ().

Definition printint (fd xx base : Z) (sgn : bool) : M S unit := put_opt (putc fd) (printint_chars digits xx base sgn).
Definition printptr (fd x : Z) : M S unit := puts (putc fd) (printptr_chars digits x).

(** The string argument [s], or ["(null)"]. *)
Definition string_arg (s : option (list byte)) : list byte := match s with None => bytes "(null)" | Some s => str s end.

(** One conversion, and the arguments left. *)
Definition convert (fd : Z) (c : byte) (ap : list arg) : M S (list arg) :=
  if decide (c = x64) then
    match ap with AInt z :: ap => printint fd (i32 z) 10 true;; mret ap | _ => fault 0 end
  else if decide (c = x6c) then
    match ap with AInt z :: ap => printint fd (i32 (u64 z)) 10 false;; mret ap | _ => fault 0 end
  else if decide (c = x78) then
    match ap with AInt z :: ap => printint fd (i32 z) 16 false;; mret ap | _ => fault 0 end
  else if decide (c = x70) then
    match ap with AInt z :: ap => printptr fd (u64 z);; mret ap | _ => fault 0 end
  else if decide (c = x73) then
    match ap with AStr s :: ap => puts (putc fd) (string_arg s);; mret ap | _ => fault 0 end
  else if decide (c = x63) then
    match ap with AInt z :: ap => putc fd (byte_of_Z z);; mret ap | _ => fault 0 end
  else if decide (c = x25) then putc fd c;; mret ap
  else putc fd x25;; putc fd c;; mret ap.

(** The loop; [state] is whether a [%] came before. *)
Fixpoint vprintf_loop (fd : Z) (fmt : list byte) (state : bool) (ap : list arg) : M S unit :=
  match fmt with
  | [] => mret ()
  | c :: fmt =>
      if decide (c = x00) then mret ()
      else if state then
        ap ← convert fd c ap;
        vprintf_loop fd fmt false ap
      else if decide (c = x25) then vprintf_loop fd fmt true ap
      else putc fd c;; vprintf_loop fd fmt false ap
  end.

Definition vprintf (fd : Z) (fmt : list byte) (ap : list arg) : M S unit := vprintf_loop fd fmt false ap.
Definition fprintf (fd : Z) (fmt : list byte) (ap : list arg) : M S unit := vprintf fd fmt ap.
Definition printf (fmt : list byte) (ap : list arg) : M S unit := vprintf 1 fmt ap.

End printf.

(** ** Reading numbers back *)

(** The number that digits [l] denote after the number [acc]. *)
Fixpoint value (ds : list byte) (base : Z) (l : list byte) (acc : Z) : option Z :=
  match l with
  | [] => Some acc
  | c :: l =>
      k ← strchr ds c;
      if Z.of_nat k <? base then value ds base l (acc * base + Z.of_nat k) else None
  end.

Definition read_int (ds : list byte) (base : Z) (l : list byte) : option Z :=
  match l with
  | x2d :: l => Z.opp <$> value ds base l 0
  | _ => value ds base l 0
  end.

(** The sixteen digits of a base. *)
Definition digits_ok (ds : list byte) : Prop := NoDup ds ∧ length ds = 16%nat ∧ (x00 ∉ ds) ∧ (x2d ∉ ds).

Section numbers.
Context (ds : list byte) (ds_ok : digits_ok ds) (base : Z) (base_ok : 2 ≤ base ≤ 16).

Lemma strchr_digit d : 0 ≤ d < 16 → strchr ds (digit ds d) = Some (Z.to_nat d).
Proof using ds_ok.
  destruct ds_ok as (Hn & Hl & H0 & _). intros Hd. unfold digit.
  destruct (lookup_lt_is_Some_2 ds (Z.to_nat d)) as [c Hc]; [lia|]. rewrite nth_lookup, Hc. simpl.
  pose proof (strchr_spec ds c H0) as Hs. destruct (strchr ds c) as [k|].
  - destruct Hs as (l & r & -> & <- & Hlc). f_equal. apply (NoDup_lookup (l ++ c :: r) _ _ c Hn); [|done]. by apply list_lookup_middle.
  - destruct Hs. by eapply list_elem_of_lookup_2.
Qed.

Lemma value_app l l' acc : value ds base (l ++ l') acc = value ds base l acc ≫= value ds base l'.
Proof.
  revert acc. induction l as [|c l IH]; intros acc; simpl; [done|]. destruct (strchr ds c) as [k|]; simpl; [|done].
  by destruct (Z.of_nat k <? base).
Qed.

Lemma digit_loop_value fuel n x : (1 ≤ n ≤ fuel)%nat → 0 ≤ x < base ^ Z.of_nat n →
  ∃ l, digit_loop ds fuel x base = Some l ∧ (1 ≤ length l ≤ n)%nat ∧
    ∀ acc, value ds base (rev l) acc = Some (acc * base ^ Z.of_nat (length l) + x).
Proof using ds_ok base_ok.
  revert n x. induction fuel as [|fuel IH]; intros n x Hn Hx; [lia|]. cbn [digit_loop].
  pose proof (Z.mod_pos_bound x base ltac:(lia)) as Hm. pose proof (Z.div_pos x base ltac:(lia) ltac:(lia)) as Hp.
  pose proof (Z.div_mod x base ltac:(lia)) as Hdm.
  assert (∀ acc, value ds base [digit ds (x mod base)] acc = Some (acc * base + x mod base)) as Hd.
  { intros acc. simpl. rewrite strchr_digit by lia. simpl. rewrite Z2Nat.id by lia. by rewrite (proj2 (Z.ltb_lt _ _)) by lia. }
  destruct (Z.eqb_spec (x / base) 0) as [E|E].
  - exists [digit ds (x mod base)]. split; [done|]. split; [simpl; lia|]. intros acc. cbn [rev app]. rewrite Hd. f_equal.
    change (Z.of_nat (length [_])) with 1. rewrite Z.pow_1_r. lia.
  - destruct n as [|n]; [lia|]. rewrite Nat2Z.inj_succ, Z.pow_succ_r in Hx by lia.
    assert (x / base < base ^ Z.of_nat n) as Hlt by (apply Z.div_lt_upper_bound; lia).
    destruct (IH n (x / base)) as (l & -> & Hl & Hv); [|lia|].
    { split; [|lia]. destruct n; [simpl in Hlt; lia|lia]. }
    exists (digit ds (x mod base) :: l). split; [done|]. split; [simpl; lia|]. intros acc. cbn [rev length].
    rewrite value_app, Hv, Nat2Z.inj_succ, Z.pow_succ_r by lia. cbn [mbind option_bind]. rewrite Hd. f_equal.
    transitivity (acc * (base * base ^ Z.of_nat (length l)) + (base * (x / base) + x mod base)); [ring|lia].
Qed.
End numbers.

(** The digits of a number do not start with a minus sign. *)
Lemma value_no_minus ds base l : digits_ok ds → is_Some (value ds base l 0) → read_int ds base l = value ds base l 0.
Proof.
  intros (_ & _ & H0 & Hm) Hv. destruct l as [|c l]; [done|]. destruct (decide (c = x2d)) as [->|Hc]; [|by destruct c].
  exfalso. simpl in Hv. pose proof (strchr_spec ds x2d H0) as Hs. destruct (strchr ds x2d) as [k|]; [|by destruct Hv].
  destruct Hs as (a & r & -> & _). set_solver.
Qed.

(** [atoi] reads decimal digits, as long as the number stays in range. *)
Lemma atoi_value l acc v : 0 ≤ acc → value (bytes "0123456789") 10 l acc = Some v → v < 2 ^ 31 → atoi_loop l acc = v.
Proof.
  revert acc. induction l as [|c l IH]; intros acc Hacc Hv Hlt; cbn [atoi_loop]; [by injection Hv|].
  cbn [value] in Hv. destruct (strchr (bytes "0123456789") c) as [k|] eqn:Ek; [|done]. simpl in Hv.
  assert (Z_of_byte c = 0x30 + Z.of_nat k ∧ (k < 10)%nat) as [Hc Hk].
  { clear -Ek. destruct c; try done; injection Ek as <-; split; (reflexivity || lia). }
  rewrite (proj2 (Z.ltb_lt _ _)) in Hv by lia. rewrite Hc, (proj2 (Z.leb_le _ _)), (proj2 (Z.leb_le _ _)) by lia. cbn [andb].
  assert (acc * 10 + Z.of_nat k ≤ v) as Hle.
  { clear -Hv Hacc. assert (0 ≤ acc * 10 + Z.of_nat k) as H1 by lia. revert H1 Hv. generalize (acc * 10 + Z.of_nat k). clear.
    induction l as [|c l IH]; intros a Ha Hv; cbn [value] in Hv; [injection Hv; lia|].
    destruct (strchr (bytes "0123456789") c) as [k|]; [|done]. cbn [mbind option_bind] in Hv. destruct (Z.of_nat k <? 10); [|done].
    specialize (IH (a * 10 + Z.of_nat k) ltac:(lia) Hv). lia. }
  rewrite i32_small by lia. rewrite (IH (acc * 10 + (48 + Z.of_nat k) - 48)); [done|lia| |done]. rewrite <- Hv. f_equal. lia.
Qed.

#[global] Instance digits_ok_dec ds : Decision (digits_ok ds).
Proof. unfold digits_ok. apply _. Defined.

Lemma decimal_value l acc v : value digits 10 l acc = Some v → value (bytes "0123456789") 10 l acc = Some v.
Proof.
  revert acc. induction l as [|c l IH]; intros acc; cbn [value]; [done|].
  destruct (strchr digits c) as [k|] eqn:Ek; [|done]. cbn [mbind option_bind].
  destruct (Z.ltb_spec (Z.of_nat k) 10) as [Hk|]; [|done].
  assert (strchr (bytes "0123456789") c = Some k) as ->.
  { clear -Ek Hk. destruct c; try done; injection Ek as <-; done. }
  cbn [mbind option_bind]. rewrite (proj2 (Z.ltb_lt _ _)) by done. apply IH.
Qed.

(** The characters of an [int], read back. *)
Lemma printint_chars_value ds base sign xx : digits_ok ds → base = 10 ∨ base = 16 → - 2 ^ 31 ≤ xx < 2 ^ 31 →
  ∃ l, printint_chars ds xx base sign = Some l ∧ (1 ≤ length l ≤ 11)%nat ∧
    read_int ds base l = Some (if sign then xx else u32 xx) ∧
    (base = 10 → ds = digits → 0 ≤ xx → atoi l = xx).
Proof.
  intros Hds Hb Hx. unfold printint_chars. set (neg := sign && (xx <? 0)). set (x := if neg then u32 (- xx) else u32 xx).
  assert (∃ n, (1 ≤ n ≤ 10)%nat ∧ 0 ≤ x < base ^ Z.of_nat n) as (n & Hn & Hxb).
  { assert (0 ≤ x < 2 ^ 32) as H32 by (unfold x; destruct neg; apply u32_range). destruct Hb as [->| ->].
    - exists 10%nat. change (10 ^ Z.of_nat 10) with 10000000000. lia.
    - exists 8%nat. change (16 ^ Z.of_nat 8) with (2 ^ 32). lia. }
  destruct (digit_loop_value ds Hds base ltac:(lia) 16 n x ltac:(lia) Hxb) as (l & -> & Hl & Hv).
  simpl. specialize (Hv 0). rewrite Z.mul_0_l, Z.add_0_l in Hv.
  assert ((length (if neg then l ++ [x2d] else l) <=? 16)%nat = true) as ->.
  { apply Nat.leb_le. destruct neg; rewrite ?length_app; simpl; lia. }
  eexists. split; [done|]. rewrite length_rev. split; [destruct neg; rewrite ?length_app; simpl; lia|].
  destruct neg eqn:En; unfold x in Hv; rewrite ?rev_app_distr; cbn [rev app read_int].
  - unfold neg in En. apply andb_true_iff in En as [-> Hneg%Z.ltb_lt]. rewrite Hv. simpl. rewrite u32_small by lia.
    split; [f_equal; lia|lia].
  - rewrite value_no_minus, Hv by (done || by rewrite Hv). split.
    + destruct sign; [|done]. unfold neg in En. apply Z.ltb_ge in En. by rewrite u32_small by lia.
    + intros -> -> H0. unfold atoi. apply atoi_value; [lia| |lia]. rewrite u32_small in Hv by lia.
      by apply decimal_value.
Qed.

(** C39: what [printint] prints, in the kernel and in programs, is the number:
    in base 10 or 16, signed or not, every [int] is converted without running
    over [buf[16]], in at most eleven characters, and those characters
    read back as the number (modulo 2{^32} when unsigned); in particular [atoi]
    gives back every decimal number that is not negative. *)
Theorem printint_correct ds base sign xx : digits_ok ds → base = 10 ∨ base = 16 → - 2 ^ 31 ≤ xx < 2 ^ 31 →
  ∃ l, printint_chars ds xx base sign = Some l ∧ (1 ≤ length l ≤ 11)%nat ∧
    read_int ds base l = Some (if sign then xx else u32 xx) ∧
    (base = 10 → ds = digits → 0 ≤ xx → atoi l = xx).
Proof. apply printint_chars_value. Qed.

Lemma printint_correct_witness : ∃ l, printint_chars digits (-2147483648) 10 true = Some l ∧
  read_int digits 10 l = Some (-2147483648).
Proof.
  destruct (printint_correct digits 10 true (-2147483648)) as (l & E & _ & Hr & _);
    [apply (bool_decide_unpack (digits_ok digits)); vm_compute; exact I|by left|lia|]. by exists l.
Defined.

(** ** Formatted text on standard output *)

Section output.
Context {S : Type} `{!Sys S, !SysLaws S}.

(** The state after [t] more bytes of output. *)
Definition printed (s : S) (t : list byte) (s' : S) : Prop :=
  output s' = output s ++ t ∧ ∀ fd d, input s fd = Some d → input s' fd = Some d.

Lemma printed_nil s : printed s [] s.
Proof. split; [by rewrite app_nil_r|done]. Qed.

Lemma printed_app s s1 s2 t1 t2 : printed s t1 s1 → printed s1 t2 s2 → printed s (t1 ++ t2) s2.
Proof. intros [H1 I1] [H2 I2]. split; [by rewrite H2, H1, <- app_assoc|auto]. Qed.

Lemma write_wp s bs Q : (∀ s', printed s bs s' → Q (Z.of_nat (length bs)) s') → wp (write 1 bs) s Q.
Proof. intros HQ. destruct (write_output s bs) as (s' & E & Ho & Hi). eapply wp_Ok; [exact E|]. by apply HQ. Qed.

Lemma puts_wp s l Q : (∀ s', printed s l s' → Q tt s') → wp (puts (putc 1) l) s Q.
Proof.
  revert s. induction l as [|c l IH]; intros s HQ; cbn [puts].
  - apply wp_ret, HQ, printed_nil.
  - wp_step. unfold putc. wp_step. apply write_wp. intros s1 H1. wp_step.
    apply IH. intros s2 H2. apply HQ. exact (printed_app _ _ _ [c] l H1 H2).
Qed.

(** The text of a format. *)
Definition conversion (c : byte) (ap : list arg) : option (list byte * list arg) :=
  if decide (c = x64) then
    match ap with AInt z :: ap => (λ l, (l, ap)) <$> printint_chars digits (i32 z) 10 true | _ => None end
  else if decide (c = x73) then match ap with AStr s :: ap => Some (string_arg s, ap) | _ => None end
  else None.

Fixpoint format (fmt : list byte) (state : bool) (ap : list arg) : option (list byte) :=
  match fmt with
  | [] => Some []
  | c :: fmt =>
      if decide (c = x00) then None
      else if state then
        '(t, ap) ← conversion c ap; app t <$> format fmt false ap
      else if decide (c = x25) then format fmt true ap
      else cons c <$> format fmt false ap
  end.

Lemma format_int fmt z ap t :
  printint_chars digits (i32 z) 10 true = Some t →
  format (x25 :: x64 :: fmt) false (AInt z :: ap) = app t <$> format fmt false ap.
Proof.
  intros E. change (format (x25 :: x64 :: fmt) false (AInt z :: ap)) with
    ('(t, ap) ← (λ l, (l, ap)) <$> printint_chars digits (i32 z) 10 true; app t <$> format fmt false ap).
  by rewrite E.
Qed.
Lemma format_str fmt a ap :
  format (x25 :: x73 :: fmt) false (AStr a :: ap) = app (string_arg a) <$> format fmt false ap.
Proof. reflexivity. Qed.
Lemma format_char c fmt ap :
  c ≠ x00 → c ≠ x25 → format (c :: fmt) false ap = cons c <$> format fmt false ap.
Proof. intros. cbn [format]. by rewrite !decide_False. Qed.

Lemma convert_wp c ap t ap' s Q : conversion c ap = Some (t, ap') →
  (∀ s', printed s t s' → Q ap' s') → wp (convert 1 c ap) s Q.
Proof.
  unfold conversion, convert. intros E HQ. case_decide as Hd.
  - destruct ap as [|[z|] ap]; try done. destruct (printint_chars digits (i32 z) 10 true) as [l|] eqn:El; [|done].
    injection E as -> ->. wp_step. unfold printint. rewrite El. apply puts_wp. intros s' Hs. wp_step. by apply HQ.
  - case_decide as Hs; [|done]. subst c. destruct ap as [|[|a] ap]; try done. injection E as <- <-.
    change (wp (puts (putc 1) (string_arg a);; mret ap) s Q).
    wp_step. apply puts_wp. intros s' H'. wp_step. by apply HQ.
Qed.

Lemma vprintf_wp fmt state ap t s Q : format fmt state ap = Some t →
  (∀ s', printed s t s' → Q tt s') → wp (vprintf_loop 1 fmt state ap) s Q.
Proof.
  revert state ap t s. induction fmt as [|c fmt IH]; intros state ap t s E HQ; cbn [format vprintf_loop] in *.
  - injection E as <-. apply wp_ret, HQ, printed_nil.
  - case_decide as H0; [done|]. destruct state.
    + destruct (conversion c ap) as [[t1 ap']|] eqn:Ec; [|done]. cbn [mbind option_bind] in E.
      destruct (format fmt false ap') as [t2|] eqn:Ef; [|done]. injection E as <-.
      wp_step. eapply convert_wp; [exact Ec|]. intros s1 H1. eapply IH; [exact Ef|]. intros s2 H2.
      apply HQ. by eapply printed_app.
    + case_decide as H25; [by eapply IH|].
      destruct (format fmt false ap) as [t2|] eqn:Ef; [|done]. injection E as <-.
      wp_step. unfold putc. wp_step. apply write_wp. intros s1 H1. wp_step.
      eapply IH; [exact Ef|]. intros s2 H2. apply HQ. exact (printed_app _ _ _ [c] t2 H1 H2).
Qed.

End output.
