(* ===== verification/Sh.v ===== *)
(** * The shell, [user/sh.c]

    The parser works on the string [T] in the shell's buffer, up to its NUL; a
    pointer into the buffer is an offset, and the variable [*ps] is the state.
    A command is the tree of [struct cmd]s, its strings pairs of a start and an
    end.  [parseexec] goes on filling in the [execcmd] after [parseredirs] has
    wrapped it, so what [parseredirs] does is given back as the list of the wrappers, which
    go around the [execcmd] when its arguments are complete.  [panic] exits.

    [runcmd] is a program over the system calls it makes ([prog]); what such a
    program does to the table of open files is defined in [ShSpec].  A node is
    allocated with [malloc], whose failure the source does not consider. *)

From S2P Require Import Prelude Fcntl Ulib.

Definition MAXARGS : Z := 10.

(** A counted string: its first byte and the byte after its last. *)
Definition span : Type := nat * nat.

Inductive tree (A : Type) :=
| Exec (argv : list A)
| Redir (c : tree A) (file : A) (mode fd : Z)
| Pipe (l r : tree A)
| List (l r : tree A)
| Back (c : tree A).
Arguments Exec {A}.
Arguments Redir {A}.
Arguments Pipe {A}.
Arguments List {A}.
Arguments Back {A}.

(** [struct cmd]. *)
Definition cmd : Type := tree span.

Definition whitespace : list byte := [x20; x09; x0d; x0a; x0b].
Definition symbols : list byte := [x3c; x7c; x3e; x26; x3b; x28; x29].

(** Tokens are characters; ['a'] is a word and ['+'] is [>>]. *)
Definition tok_word : byte := x61.
Definition tok_append : byte := x2b.
Definition LT : byte := x3c.
Definition GT : byte := x3e.
Definition BAR : byte := x7c.
Definition AMP : byte := x26.
Definition SEMI : byte := x3b.
Definition LPAR : byte := x28.
Definition RPAR : byte := x29.

(** [strchr(set, c) != 0]. *)
Definition among (set : list byte) (c : byte) : bool := bool_decide (is_Some (strchr set c)).

(** The loops [while(s < es && strchr(whitespace, *s)) s++] and
    [while(s < es && !strchr(whitespace, *s) && !strchr(symbols, *s)) s++], on
    what is left of the string. *)
Fixpoint spaces (l : list byte) : nat :=
  match l with
  | c :: l => if among whitespace c then S (spaces l) else 0
  | [] => 0
  end.
Fixpoint word (l : list byte) : nat :=
  match l with
  | c :: l => if negb (among whitespace c) && negb (among symbols c) then S (word l) else 0
  | [] => 0
  end.

Section parser.
Context (T : list byte).

Definition skip_spaces (s : nat) : nat := s + spaces (drop s T).
(** [*s]; the string ends in a NUL. *)
Definition at_ (s : nat) : byte := nth s T x00.

(** The token, and [*q] and [*eq]. *)
Definition gettoken : M nat (byte * span) := λ ps,
  let s := skip_spaces ps in
  let q := s in
  let c := at_ s in
  let '(ret, s) :=
    if decide (c = x00) then (c, s)
    else if among [BAR; LPAR; RPAR; SEMI; AMP; LT] c then (c, S s)
    else if decide (c = GT) then (if decide (at_ (S s) = GT) then (tok_append, S (S s)) else (c, S s))
    else (tok_word, s + word (drop s T))%nat in
  Ok (ret, (q, s)) (skip_spaces s).

Definition peek (toks : list byte) : M nat bool := λ ps,
  let s := skip_spaces ps in
  Ok (negb (bool_decide (at_ s = x00)) && among toks (at_ s)) s.

(** Redirections in the order they are met, the last one outermost. *)
Definition redir : Type := span * Z * Z.
Definition wrap (c : cmd) (rs : list redir) : cmd := foldl (λ c '(file, mode, fd), Redir c file mode fd) c rs.

Fixpoint parseredirs (fuel : nat) : M nat (list redir) :=
  match fuel with
  | O => no_fuel
  | S fuel =>
      b ← peek [LT; GT];
      if negb b then mret []
      else
        t ← gettoken;
        w ← gettoken;
        if negb (bool_decide (w.1 = tok_word)) then panic "missing file for redirection"
        else
          rs ← parseredirs fuel;
          mret (match t.1 with
                | x3c => [(w.2, O_RDONLY, 0)]
                | x3e => [(w.2, Z.lor (Z.lor O_WRONLY O_CREATE) O_TRUNC, 1)]
                | x2b => [(w.2, Z.lor O_WRONLY O_CREATE, 1)]
                | _ => []
                end ++ rs)
  end.

(** The loop of [parseexec] over the arguments. *)
Fixpoint parseargs (fuel : nat) (argv : list span) (rs : list redir) : M nat (list span * list redir) :=
  match fuel with
  | O => no_fuel
  | S fuel =>
      b ← peek [BAR; RPAR; AMP; SEMI];
      if b : bool then mret (argv, rs)
      else
        t ← gettoken;
        if decide (t.1 = x00) then mret (argv, rs)
        else if negb (bool_decide (t.1 = tok_word)) then panic "syntax"
        else
          let argv := argv ++ [t.2] in
          if Z.of_nat (length argv) >=? MAXARGS then panic "too many args"
          else
            rs' ← parseredirs (S (length T));
            parseargs fuel argv (rs ++ rs')
  end.

(** [while(peek(ps, es, "&"))] of [parseline]. *)
Fixpoint parseback (fuel : nat) (c : cmd) : M nat cmd :=
  match fuel with
  | O => no_fuel
  | S fuel =>
      b ← peek [AMP];
      if b : bool then gettoken;; parseback fuel (Back c) else mret c
  end.

Fixpoint parseline (fuel : nat) : M nat cmd :=
  match fuel with
  | O => no_fuel
  | S fuel =>
      c ← parsepipe fuel;
      c ← parseback (S (length T)) c;
      b ← peek [SEMI];
      if b : bool then
        gettoken;;
        r ← parseline fuel;
        mret (List c r)
      else mret c
  end
with parsepipe (fuel : nat) : M nat cmd :=
  match fuel with
  | O => no_fuel
  | S fuel =>
      c ← parseexec fuel;
      b ← peek [BAR];
      if b : bool then
        gettoken;;
        r ← parsepipe fuel;
        mret (Pipe c r)
      else mret c
  end
with parseexec (fuel : nat) : M nat cmd :=
  match fuel with
  | O => no_fuel
  | S fuel =>
      b ← peek [LPAR];
      if b : bool then parseblock fuel
      else
        rs ← parseredirs (S (length T));
        r ← parseargs (S (length T)) [] rs;
        mret (wrap (Exec r.1) r.2)
  end
with parseblock (fuel : nat) : M nat cmd :=
  match fuel with
  | O => no_fuel
  | S fuel =>
      b ← peek [LPAR];
      if negb b then panic "parseblock"
      else
        gettoken;;
        c ← parseline fuel;
        b ← peek [RPAR];
        if negb b then panic "syntax - missing )"
        else
          gettoken;;
          rs ← parseredirs (S (length T));
          mret (wrap c rs)
  end.

(** A parenthesis takes four calls, and each call of [parseline] or [parsepipe]
    by itself comes after a token. *)
Definition parse_fuel : nat := 4 * length T + 4.

(** [parsecmd] before [nulterminate], with the place it stops at;
    [peek(&s, es, "")] skips spaces. *)
Definition parsecmd_tree : M nat (cmd * nat) :=
  c ← parseline parse_fuel;
  peek [];;
  s ← Prelude.gets id;
  mret (c, s).

End parser.

(** [nulterminate], on the bytes of the buffer. *)
Fixpoint nulterminate (c : cmd) (buf : list byte) : list byte :=
  match c with
  | Exec argv => foldl (λ b w, <[w.2 := x00]> b) buf argv
  | Redir c file _ _ => <[file.2 := x00]> (nulterminate c buf)
  | Pipe l r | List l r => nulterminate r (nulterminate l buf)
  | Back c => nulterminate c buf
  end.

(** [parsecmd(s)]: the tree and the buffer, or what is left over when that is
    not the end, which is printed before the panic. *)
Inductive parsed := Parsed (c : cmd) (buf : list byte) | Leftovers (s : nat).

Definition parsecmd (buf : list byte) : outcome nat parsed :=
  let T := str buf in
  match parsecmd_tree T 0%nat with
  | Ok (c, s) ps => Ok (if decide (s ≠ length T) then Leftovers s else Parsed c (nulterminate c buf)) ps
  | Panic m => Panic m
  | Fault a => Fault a
  | Sleep ch ps => Sleep ch ps
  | NoFuel => NoFuel
  end.

(** The string at a pointer. *)
Definition cstr (buf : list byte) (p : nat) : list byte := str (drop p buf).

(** ** Running commands *)

(** The system calls of a process that runs a command, each with what the
    process does after it; a call whose result the process looks at has a
    continuation for its failure. *)
Inductive prog :=
| DoExit (status : Z)
| DoExec (argv : list (list byte)) (failed : prog)
| DoWrite (fd : Z) (bs : list byte) (k : prog)
| DoClose (fd : Z) (k : prog)
| DoOpen (path : list byte) (mode : Z) (failed k : prog)
| DoDup (fd : Z) (k : prog)
| DoPipe (failed : prog) (k : Z → Z → prog)
| DoFork (failed child k : prog)
| DoWait (k : prog).

(** [panic(s)]. *)
Definition sh_panic (s : list byte) : prog := DoWrite 2 (s ++ [x0a]) (DoExit 1).

(** [fork1() == 0] with its two branches. *)
Definition fork1 (child parent : prog) : prog := DoFork (sh_panic (bytes "fork")) child parent.

Fixpoint runcmd (buf : list byte) (c : cmd) : prog :=
  match c with
  | Exec [] => DoExit 1
  | Exec (((q, _) :: _) as argv) =>
      DoExec ((λ w, cstr buf w.1) <$> argv)
        (DoWrite 2 (bytes "exec " ++ cstr buf q ++ bytes " failed" ++ [x0a]) (DoExit 0))
  | Redir c (q, _) mode fd =>
      DoClose fd
        (DoOpen (cstr buf q) mode
          (DoWrite 2 (bytes "open " ++ cstr buf q ++ bytes " failed" ++ [x0a]) (DoExit 1))
          (runcmd buf c))
  | List l r => fork1 (runcmd buf l) (DoWait (runcmd buf r))
  | Pipe l r =>
      DoPipe (sh_panic (bytes "pipe")) (λ p0 p1,
        fork1 (DoClose 1 (DoDup p1 (DoClose p0 (DoClose p1 (runcmd buf l)))))
        (fork1 (DoClose 0 (DoDup p0 (DoClose p0 (DoClose p1 (runcmd buf r)))))
        (DoClose p0 (DoClose p1 (DoWait (DoWait (DoExit 0)))))))
  | Back c => fork1 (runcmd buf c) (DoExit 0)
  end.

(** ** The main loop *)

(** [spawn p] is [fork1], the child running [p], and [wait(0)]. *)
Class ShSys (S : Type) := {
  chdir : list byte → M S Z;
  spawn : prog → M S unit;
}.

Section main.
Context {S : Type} `{!Sys S, !ShSys S}.

(** The buffer after [memset] and [gets]; [None] at the end of the input. *)
Definition getcmd (nbuf : nat) : M S (option (list byte)) :=
  write 2 (bytes "$ ");;
  l ← gets (Z.of_nat nbuf);
  let buf := l ++ replicate (nbuf - length l) x00 in
  if decide (nth 0 buf x00 = x00) then mret None else mret (Some buf).

Fixpoint open_console (fuel : nat) : M S unit :=
  match fuel with
  | O => no_fuel
  | Datatypes.S fuel =>
      fd ← open (bytes "console") O_RDWR;
      if fd >=? 0 then
        if fd >=? 3 then close fd;; mret () else open_console fuel
      else mret ()
  end.

Definition run_line (buf : list byte) : M S unit :=
  if decide (take 3 buf = bytes "cd ") then
    let buf := <[(Z.to_nat (strlen buf - 1))%nat := x00]> buf in
    r ← chdir (cstr buf 3);
    if r <? 0 then write 2 (bytes "cannot cd " ++ cstr buf 3 ++ [x0a]);; mret () else mret ()
  else
    spawn (match parsecmd buf with
           | Ok (Parsed c buf) _ => runcmd buf c
           | Ok (Leftovers s) _ => DoWrite 2 (bytes "leftovers: " ++ cstr buf s ++ [x0a]) (sh_panic (bytes "syntax"))
           | Panic m => sh_panic (bytes m)
           | _ => DoExit 1
           end).

Fixpoint main_loop (fuel : nat) : M S Z :=
  match fuel with
  | O => no_fuel
  | Datatypes.S fuel =>
      r ← getcmd 100;
      match r with
      | None => mret 0
      | Some buf => run_line buf;; main_loop fuel
      end
  end.

(** [main], for at most [fuel] commands. *)
Definition main (fuel : nat) : M S Z := open_console 4;; main_loop fuel.

End main.
