(* ===== verification/ShSpec.v ===== *)
(** * The shell parses and runs commands as written

    [parsecmd] ends on every line, and the strings of the tree it returns are
    the words of the line, which [nulterminate] cuts apart without damaging any of
    them.  Every command tree is the parse of its printed form.  Run, a command
    starts its programs with the files and pipes it should have, and with no
    other descriptor open. *)

From S2P Require Import Prelude Fcntl Ulib Sh.

(** ** The parser as a total function

    [pwp c i Q]: from [i], [c] returns with [Q], or it panics. *)
Definition pwp {A} (c : M nat A) (i : nat) (Q : A → nat → Prop) : Prop :=
  match c i with Ok a j => Q a j | Panic _ => True | _ => False end.

Lemma pwp_bind {A B} (c : M nat A) (f : A → M nat B) i Q :
  pwp c i (λ a j, pwp (f a) j Q) → pwp (c ≫= f) i Q.
Proof. unfold pwp, mbind, M_bind. by destruct (c i). Qed.
Lemma pwp_mono {A} (c : M nat A) i (P Q : A → nat → Prop) : pwp c i P → (∀ a j, P a j → Q a j) → pwp c i Q.
Proof. unfold pwp. destruct (c i); naive_solver. Qed.
Lemma pwp_ret {A} (a : A) i (Q : A → nat → Prop) : Q a i → pwp (mret a) i Q.
Proof. exact id. Qed.

Definition word_char (c : byte) : bool := negb (among whitespace c) && negb (among symbols c).

Lemma str_no_nul s : x00 ∉ str s.
Proof.
  induction s as [|c s IH]; [apply not_elem_of_nil|]. rewrite str_cons. case_decide; [apply not_elem_of_nil|].
  apply not_elem_of_cons. by split.
Qed.

Section lines.
Context (T : list byte) (no_nul : x00 ∉ T).
Implicit Types i j : nat.

(** A word of the line: its bytes are word characters, and it ends where a
    space, a symbol or the end of the line is. *)
Definition span_ok (w : span) : Prop :=
  (w.1 < w.2 ≤ length T)%nat ∧ (∀ k c, w.1 ≤ k < w.2 → T !! k = Some c → word_char c = true)%nat ∧
  (∀ c, T !! w.2 = Some c → word_char c = false).

Lemma spaces_le l : (spaces l ≤ length l)%nat.
Proof. induction l as [|c l IH]; simpl; [done|]. case_match; simpl; lia. Qed.
Lemma skip_spaces_range i : (i ≤ length T)%nat → (i ≤ skip_spaces T i ≤ length T)%nat.
Proof. intros Hi. unfold skip_spaces. pose proof (spaces_le (drop i T)). rewrite length_drop in *. lia. Qed.

Lemma spaces_next l c : l !! spaces l = Some c → among whitespace c = false.
Proof. induction l as [|d l IH]; simpl; [done|]. destruct (among whitespace d) eqn:E; simpl; [done|]. by intros [= <-]. Qed.
Lemma skip_spaces_next i c : T !! skip_spaces T i = Some c → among whitespace c = false.
Proof. unfold skip_spaces. rewrite <- lookup_drop. apply spaces_next. Qed.

Lemma word_le l : (word l ≤ length l)%nat.
Proof. induction l as [|c l IH]; simpl; [done|]. case_match; simpl; lia. Qed.
Lemma word_chars l k c : (k < word l)%nat → l !! k = Some c → word_char c = true.
Proof.
  revert k. induction l as [|d l IH]; intros [|k]; simpl; [done..| |].
  - unfold word_char. case_match; [|lia]. intros _ [= <-]. done.
  - case_match; [|lia]. intros Hk. apply IH. lia.
Qed.
Lemma word_next l c : l !! word l = Some c → word_char c = false.
Proof.
  induction l as [|d l IH]; simpl; [done|]. unfold word_char. destruct (negb _ && negb _) eqn:E; simpl; [done|]. by intros [= <-].
Qed.

Lemma at_lookup i c : T !! i = Some c → at_ T i = c.
Proof. intros Hc. unfold at_. rewrite nth_lookup, Hc. done. Qed.
Lemma at_end i : at_ T i = x00 ↔ (length T ≤ i)%nat.
Proof using no_nul.
  unfold at_. rewrite nth_lookup. destruct (T !! i) as [c|] eqn:E; simpl.
  - pose proof (lookup_lt_Some _ _ _ E). split; [|lia]. intros ->. destruct no_nul. by eapply list_elem_of_lookup_2.
  - by apply lookup_ge_None in E.
Qed.

(** What a token is. *)
Lemma gettoken_ok i : (i ≤ length T)%nat →
  pwp (gettoken T) i (λ t j, let '(c, (q, e)) := t in
    (i ≤ q ≤ e)%nat ∧ (e ≤ j ≤ length T)%nat ∧ (c = x00 → q = length T) ∧ (c ≠ x00 → (q < e)%nat) ∧
    (c = tok_word → span_ok (q, e))).
Proof using no_nul.
  intros Hi. unfold pwp, gettoken. pose proof (skip_spaces_range i Hi) as Hs. set (s := skip_spaces T i) in *.
  destruct (decide (at_ T s = x00)) as [E|E].
  - apply at_end in E. pose proof (skip_spaces_range s ltac:(lia)). rewrite (proj2 (at_end s)) by done. split_and!; try done; lia.
  - assert (s < length T)%nat as Hlt by (rewrite at_end in E; lia).
    destruct (lookup_lt_is_Some_2 T s Hlt) as [c Hc]. rewrite (at_lookup _ _ Hc) in *.
    destruct (among [BAR; LPAR; RPAR; SEMI; AMP; LT] c) eqn:Ea.
    { pose proof (skip_spaces_range (S s) ltac:(lia)). split_and!; try done; try lia. by intros ->. }
    destruct (decide (c = GT)) as [->|Hg].
    { destruct (decide (at_ T (S s) = GT)) as [E'|E'].
      - assert (S s < length T)%nat.
        { destruct (decide (length T ≤ S s)%nat) as [H|]; [|lia]. apply at_end in H. by rewrite H in E'. }
        pose proof (skip_spaces_range (S (S s)) ltac:(lia)). split_and!; try done; lia.
      - pose proof (skip_spaces_range (S s) ltac:(lia)). split_and!; try done; lia. }
    assert (word_char c = true) as Hw.
    { unfold word_char. rewrite (skip_spaces_next _ _ Hc). simpl. clear -Ea Hg. destruct c; done. }
    assert (drop s T = c :: drop (S s) T) as Hd by by apply drop_S.
    pose proof (word_le (drop s T)) as Hwl. rewrite length_drop in Hwl.
    assert (0 < word (drop s T))%nat as Hpos. { rewrite Hd. simpl. unfold word_char in Hw. rewrite Hw. lia. }
    pose proof (skip_spaces_range (s + word (drop s T)) ltac:(lia)). split_and!; try done; try lia.
    intros _. unfold span_ok. simpl. split_and!; [lia|lia| |].
    + intros k d Hk Hd'. apply (word_chars (drop s T) (k - s)); [lia|]. rewrite lookup_drop.
      by replace (s + (k - s))%nat with k by lia.
    + intros d Hd'. apply (word_next (drop s T)). by rewrite lookup_drop.
Qed.
Lemma peek_ok toks i : (i ≤ length T)%nat →
  pwp (peek T toks) i (λ b j, (i ≤ j ≤ length T)%nat ∧ (b = true → (j < length T)%nat)).
Proof using no_nul.
  intros Hi. unfold pwp, peek. pose proof (skip_spaces_range i Hi). split; [done|]. intros [Hb _]%andb_true_iff.
  apply negb_true_iff, bool_decide_eq_false in Hb. rewrite at_end in Hb. lia.
Qed.

(** The modes of the three redirections. *)
Definition redir_modes : list (Z * Z) :=
  [(O_RDONLY, 0); (Z.lor (Z.lor O_WRONLY O_CREATE) O_TRUNC, 1); (Z.lor O_WRONLY O_CREATE, 1)].
Definition redir_ok (r : redir) : Prop := span_ok r.1.1 ∧ (r.1.2, r.2) ∈ redir_modes.

Fixpoint cmd_ok (c : cmd) : Prop :=
  match c with
  | Exec argv => Forall span_ok argv ∧ Z.of_nat (length argv) < MAXARGS
  | Redir c file mode fd => cmd_ok c ∧ span_ok file ∧ (mode, fd) ∈ redir_modes
  | Pipe l r | List l r => cmd_ok l ∧ cmd_ok r
  | Back c => cmd_ok c
  end.

Lemma wrap_ok c rs : cmd_ok c → Forall redir_ok rs → cmd_ok (wrap c rs).
Proof.
  unfold wrap. intros Hc Hr. revert c Hc. induction Hr as [|[[f m] fd] rs [Hf Hm] _ IH]; intros c Hc; simpl; [done|].
  by apply IH.
Qed.

(** [step_tac] runs a token function with what is known of its result. *)
Ltac tok_step lem := apply pwp_bind; eapply pwp_mono; [apply lem; lia|cbv beta].

Lemma parseredirs_ok fuel i : (i ≤ length T < i + fuel)%nat →
  pwp (parseredirs T fuel) i (λ rs j, (i ≤ j ≤ length T)%nat ∧ Forall redir_ok rs).
Proof using no_nul.
  revert i. induction fuel as [|fuel IH]; intros i Hi; [lia|]. cbn [parseredirs].
  tok_step peek_ok. intros b j [Hj Hb]. destruct b; cbn [negb]; [|apply pwp_ret; split; [lia|done]].
  specialize (Hb eq_refl). tok_step gettoken_ok. intros [c [q e]] j1 (Hq & He & Hc0 & Hc1 & _).
  tok_step gettoken_ok. intros [c2 [q2 e2]] j2 (Hq2 & He2 & _ & Hc3 & Hw). cbn [fst snd].
  case_bool_decide as Hc2; cbn [negb]; [|exact I].
  assert (c ≠ x00) as Hcn.
  { intros ->. specialize (Hc0 eq_refl). rewrite Hc2 in Hc3. specialize (Hc3 ltac:(done)). lia. }
  apply pwp_bind. eapply pwp_mono; [apply IH; specialize (Hc1 Hcn); lia|]. intros rs j3 [Hj3 Hrs].
  apply pwp_ret. split; [lia|]. apply Forall_app. split; [|done]. specialize (Hw Hc2).
  destruct c; try constructor; try constructor; try (split; [done|]); unfold redir_modes; set_solver.
Qed.
Lemma parseargs_ok fuel argv rs i : (i ≤ length T < i + fuel)%nat → Forall span_ok argv →
  Z.of_nat (length argv) < MAXARGS → Forall redir_ok rs →
  pwp (parseargs T fuel argv rs) i (λ r j, (i ≤ j ≤ length T)%nat ∧ Forall span_ok r.1 ∧
    Z.of_nat (length r.1) < MAXARGS ∧ Forall redir_ok r.2).
Proof using no_nul.
  revert argv rs i. induction fuel as [|fuel IH]; intros argv rs i Hi Ha Hl Hr; [lia|]. cbn [parseargs].
  tok_step peek_ok. intros b j [Hj Hb]. destruct b; [by apply pwp_ret; split_and!; try lia|].
  tok_step gettoken_ok. intros [c [q e]] j1 (Hq & He & Hc0 & Hc1 & Hw). cbn [fst snd].
  case_decide as Hc; [by apply pwp_ret; split_and!; try lia|]. specialize (Hc1 Hc).
  case_bool_decide as Hcw; cbn [negb]; [|exact I]. cbv zeta.
  find_z ltac:(fun b => case_z_on b idtac); [exact I|].
  tok_step parseredirs_ok. intros rs' j2 [Hj2 Hrs']. eapply pwp_mono; [apply IH; [lia| |done|]|].
  - apply Forall_app. split; [done|]. apply Forall_singleton. by apply Hw.
  - by apply Forall_app.
  - intros r j3 (Hj3 & H3). split; [lia|done].
Qed.

Lemma gettoken_past i : (i < length T)%nat → pwp (gettoken T) i (λ _ j, (i < j ≤ length T)%nat).
Proof using no_nul.
  intros Hi. eapply pwp_mono; [apply gettoken_ok; lia|]. intros [t [q e]] j (Hq & He & Hc0 & Hc1 & _).
  destruct (decide (t = x00)) as [Ht|Ht]; [specialize (Hc0 Ht)|specialize (Hc1 Ht)]; lia.
Qed.

Lemma parseback_ok fuel c i : (i ≤ length T < i + fuel)%nat → cmd_ok c →
  pwp (parseback T fuel c) i (λ c' j, (i ≤ j ≤ length T)%nat ∧ cmd_ok c').
Proof using no_nul.
  revert c i. induction fuel as [|fuel IH]; intros c i Hi Hc; [lia|]. cbn [parseback].
  tok_step peek_ok. intros b j [Hj Hb]. destruct b; [|by apply pwp_ret; split; [lia|]]. specialize (Hb eq_refl).
  apply pwp_bind. eapply pwp_mono; [apply gettoken_past; lia|]. intros t j1 [Hj1 Hj1'].
  eapply pwp_mono; [apply IH; [lia|done]|]. intros c' j2 [Hj2 ?]. split; [lia|done].
Qed.

Definition parses (c : M nat cmd) (i : nat) : Prop := pwp c i (λ c j, (i ≤ j ≤ length T)%nat ∧ cmd_ok c).

Lemma parse_ok fuel i : (i ≤ length T)%nat → let n := (4 * (length T - i))%nat in
  ((n + 4 ≤ fuel)%nat → parses (parseline T fuel) i) ∧ ((n + 3 ≤ fuel)%nat → parses (parsepipe T fuel) i) ∧
  ((n + 2 ≤ fuel)%nat → parses (parseexec T fuel) i) ∧ ((n + 1 ≤ fuel)%nat → parses (parseblock T fuel) i).
Proof using no_nul.
  cbv zeta. revert i. induction fuel as [|fuel IH]; intros i Hi; [split_and!; lia|]. unfold parses. split_and!; intros Hf.
  - cbn [parseline]. apply pwp_bind. eapply pwp_mono; [apply IH; lia|]. intros c j [Hj Hc].
    apply pwp_bind. eapply pwp_mono; [apply parseback_ok; [lia|done]|]. intros c1 j1 [Hj1 Hc1].
    tok_step peek_ok. intros b j2 [Hj2 Hb]. destruct b; [|apply pwp_ret; split; [lia|done]]. specialize (Hb eq_refl).
    apply pwp_bind. eapply pwp_mono; [apply gettoken_past; lia|]. intros t j3 [Hj3 Hj3'].
    apply pwp_bind. eapply pwp_mono; [apply IH; lia|]. intros r j4 [Hj4 Hr]. apply pwp_ret. split; [lia|done].
  - cbn [parsepipe]. apply pwp_bind. eapply pwp_mono; [apply IH; lia|]. intros c j [Hj Hc].
    tok_step peek_ok. intros b j2 [Hj2 Hb]. destruct b; [|apply pwp_ret; split; [lia|done]]. specialize (Hb eq_refl).
    apply pwp_bind. eapply pwp_mono; [apply gettoken_past; lia|]. intros t j3 [Hj3 Hj3'].
    apply pwp_bind. eapply pwp_mono; [apply IH; lia|]. intros r j4 [Hj4 Hr]. apply pwp_ret. split; [lia|done].
  - cbn [parseexec]. tok_step peek_ok. intros b j [Hj Hb]. destruct b.
    + eapply pwp_mono; [apply IH; lia|]. intros c j1 [Hj1 Hc]. split; [lia|done].
    + tok_step parseredirs_ok. intros rs j1 [Hj1 Hrs].
      apply pwp_bind. eapply pwp_mono; [apply parseargs_ok; [lia|constructor|done|done]|]. intros r j2 (Hj2 & Ha & Hl & Hr).
      apply pwp_ret. split; [lia|]. by apply wrap_ok.
  - cbn [parseblock]. tok_step peek_ok. intros b j [Hj Hb]. destruct b; cbn [negb]; [|exact I]. specialize (Hb eq_refl).
    apply pwp_bind. eapply pwp_mono; [apply gettoken_past; lia|]. intros t j1 [Hj1 Hj1'].
    apply pwp_bind. eapply pwp_mono; [apply IH; lia|]. intros c j2 [Hj2 Hc].
    tok_step peek_ok. intros b j3 [Hj3 Hb3]. destruct b; cbn [negb]; [|exact I].
    tok_step gettoken_ok. intros [t1 [q e]] j4 (Hq & He & _). tok_step parseredirs_ok. intros rs j5 [Hj5 Hrs].
    apply pwp_ret. split; [lia|]. by apply wrap_ok.
Qed.
End lines.

(** ** The strings of a parsed command *)

Fixpoint spans {A} (c : tree A) : list A :=
  match c with
  | Exec argv => argv
  | Redir c file _ _ => spans c ++ [file]
  | Pipe l r | List l r => spans l ++ spans r
  | Back c => spans c
  end.

(** [nulterminate] puts a NUL at the end of every string. *)
Definition cut (buf : list byte) (ws : list span) : list byte := foldl (λ b w, <[w.2 := x00]> b) buf ws.

Lemma nulterminate_cut c buf : nulterminate c buf = cut buf (spans c).
Proof.
  revert buf. induction c as [argv|c IH f m fd|l IHl r IHr|l IHl r IHr|c IH]; intros buf; simpl; [done| | | |apply IH].
  - unfold cut. by rewrite foldl_app, IH.
  - unfold cut. by rewrite foldl_app, IHl, IHr.
  - unfold cut. by rewrite foldl_app, IHl, IHr.
Qed.

Lemma length_cut buf ws : length (cut buf ws) = length buf.
Proof. unfold cut. revert buf. induction ws as [|w ws IH]; intros buf; simpl; [done|]. by rewrite IH, length_insert. Qed.

Lemma cut_other buf ws k : k ∉ ws.*2 → cut buf ws !! k = buf !! k.
Proof.
  unfold cut. revert buf. induction ws as [|w ws IH]; intros buf Hk; simpl in *; [done|].
  apply not_elem_of_cons in Hk as [Hw Hk]. rewrite IH by done. by apply list_lookup_insert_ne.
Qed.

Lemma cut_end buf ws k : k ∈ ws.*2 → (k < length buf)%nat → cut buf ws !! k = Some x00.
Proof.
  revert buf. induction ws as [|w ws IH]; intros buf Hk Hl; simpl in *; [by apply elem_of_nil in Hk|].
  destruct (decide (k ∈ ws.*2)) as [Hin|Hin]; [apply (IH (<[_ := x00]> buf)); [done|by rewrite length_insert]|].
  apply elem_of_cons in Hk as [->|?]; [|done].
  change (cut (<[w.2 := x00]> buf) ws !! w.2 = Some x00). rewrite cut_other by done. by apply list_lookup_insert_eq.
Qed.

(** A string ends at its first NUL. *)
Lemma str_prefix l (n : nat) : (n ≤ length l)%nat → (∀ k, (k < n)%nat → l !! k ≠ Some x00) →
  (∀ c, l !! n = Some c → c = x00) → str l = take n l.
Proof.
  revert n. induction l as [|c l IH]; intros n Hn Hk He; [by destruct n|]. rewrite str_cons. destruct n as [|n].
  - by rewrite decide_True by by apply He.
  - rewrite decide_False by (intros ->; by apply (Hk 0%nat ltac:(lia))). simpl. f_equal. simpl in Hn. apply IH; [lia| |].
    + intros k Hlt. apply (Hk (S k)). lia.
    + intros d. apply (He d).
Qed.

Lemma str_is_prefix s : ∃ r, s = str s ++ r.
Proof. exists (drop (Z.to_nat (strlen s)) s). symmetry. apply take_drop. Qed.

(** The text of a string before it is cut. *)
Definition text (T : list byte) (w : span) : list byte := take (w.2 - w.1) (drop w.1 T).

(** No cut damages a word: every string of the command reads as the word it
    was parsed from. *)
Lemma cut_words buf ws w : Forall (span_ok (str buf)) ws → w ∈ ws → cstr (cut buf ws) w.1 = text (str buf) w.
Proof.
  intros Hws Hw. rewrite list.Forall_forall in Hws. destruct (Hws w Hw) as ([Hlt Hle] & Hch & Hend).
  destruct (str_is_prefix buf) as [r Hr]. set (T := str buf) in *.
  assert (∀ k, (w.1 ≤ k < w.2)%nat → cut buf ws !! k = T !! k) as Hin.
  { intros k Hk. rewrite cut_other, Hr; [by rewrite lookup_app_l by lia|]. intros (v & -> & Hv)%list_elem_of_fmap.
    destruct (Hws v Hv) as (Hv1 & _ & Hve). destruct (lookup_lt_is_Some_2 T v.2) as [c Hc]; [lia|].
      specialize (Hve c Hc). rewrite (Hch v.2 c Hk Hc) in Hve. done. }
  unfold cstr, text. rewrite (str_prefix _ (w.2 - w.1)).
  - apply list_eq. intros k. destruct (decide (k < w.2 - w.1)%nat).
    + rewrite !lookup_take_lt, !lookup_drop by done. apply Hin. lia.
    + by rewrite !lookup_take_ge by lia.
  - rewrite length_drop, length_cut, Hr, length_app. lia.
  - intros k Hk. rewrite lookup_drop, Hin by lia. intros E. destruct (str_no_nul buf). by eapply list_elem_of_lookup_2.
  - intros c. rewrite lookup_drop. replace (w.1 + (w.2 - w.1))%nat with w.2 by lia.
    intros Hc. pose proof (lookup_lt_Some _ _ _ Hc) as Hl. rewrite length_cut in Hl.
    rewrite cut_end in Hc; [congruence|by apply list_elem_of_fmap_2|done].
Qed.

Lemma cmd_ok_spans T c : cmd_ok T c → Forall (span_ok T) (spans c).
Proof.
  induction c as [argv|c IH f m fd|l IHl r IHr|l IHl r IHr|c IH]; simpl.
  - by intros [? _].
  - intros (Hc & Hf & _). apply Forall_app. split; [by apply IH|by apply Forall_singleton].
  - intros [? ?]. apply Forall_app. auto.
  - intros [? ?]. apply Forall_app. auto.
  - done.
Qed.

(** The command a tree denotes: its strings as [runcmd] reads them. *)
Fixpoint tmap {A B} (f : A → B) (c : tree A) : tree B :=
  match c with
  | Exec argv => Exec (f <$> argv)
  | Redir c file mode fd => Redir (tmap f c) (f file) mode fd
  | Pipe l r => Pipe (tmap f l) (tmap f r)
  | List l r => List (tmap f l) (tmap f r)
  | Back c => Back (tmap f c)
  end.

Lemma tmap_ext {A B} (f g : A → B) c : (∀ x, x ∈ spans c → f x = g x) → tmap f c = tmap g c.
Proof.
  induction c as [argv|c IH file m fd|l IHl r IHr|l IHl r IHr|c IH]; simpl; intros H; f_equal; auto; try (set_solver).
  by apply list_fmap_ext; intros i x Hx; apply H; eapply list_elem_of_lookup_2.
Qed.

Lemma nulterminate_strings buf c : cmd_ok (str buf) c →
  tmap (λ w, cstr (nulterminate c buf) w.1) c = tmap (text (str buf)) c.
Proof. intros Hc%cmd_ok_spans. apply tmap_ext. intros w Hw. rewrite nulterminate_cut. by apply cut_words. Qed.

(** Commands the shell can express. *)
Definition word_ok (w : list byte) : Prop := w ≠ [] ∧ Forall (λ c, word_char c = true ∧ c ≠ x00) w.
Fixpoint expressible (t : tree (list byte)) : Prop :=
  match t with
  | Exec argv => Forall word_ok argv ∧ Z.of_nat (length argv) < MAXARGS
  | Redir c file mode fd => expressible c ∧ word_ok file ∧ (mode, fd) ∈ redir_modes
  | Pipe l r | List l r => expressible l ∧ expressible r
  | Back c => expressible c
  end.

#[global] Instance word_ok_dec w : Decision (word_ok w).
Proof. unfold word_ok. apply _. Defined.
#[global] Instance expressible_dec t : Decision (expressible t).
Proof. induction t; simpl; apply _. Defined.

Lemma text_ok T w : x00 ∉ T → span_ok T w → word_ok (text T w).
Proof.
  intros HT ([Hlt Hle] & Hch & _). unfold text. split.
  - intros E. apply (f_equal length) in E. rewrite length_take, length_drop in E. simpl in E. lia.
  - apply Forall_lookup. intros k c Hk. apply lookup_take_Some in Hk as [Hk Hlt']. rewrite lookup_drop in Hk.
    split; [apply (Hch (w.1 + k)%nat); [lia|done]|]. intros ->. apply HT. by eapply list_elem_of_lookup_2.
Qed.

Lemma cmd_ok_expressible T c : x00 ∉ T → cmd_ok T c → expressible (tmap (text T) c).
Proof.
  intros HT. induction c as [argv|c IH f m fd|l IHl r IHr|l IHl r IHr|c IH]; simpl.
  - intros [Ha Hl]. split; [|by rewrite length_fmap]. rewrite list.Forall_forall in Ha.
    apply Forall_fmap, list.Forall_forall. intros w Hw. apply text_ok; [done|by apply Ha].
  - intros (Hc & Hf & Hm). split_and!; [by apply IH|by apply text_ok|done].
  - intros [? ?]. auto.
  - intros [? ?]. auto.
  - done.
Qed.

(** C30: [parsecmd] ends on every line, with a command, with a complaint about
    what is left over, or in [panic]; the fuel it is given never runs out.  The
    strings that the rest of the shell reads from the command, after
    [nulterminate] has written NULs into the line, are exactly the words of the
    line that it was parsed from, none of them empty or with a space or a symbol
    in it, at most nine to a command. *)
Theorem parsecmd_total buf :
  match parsecmd buf with
  | Ok (Parsed c buf') _ =>
      tmap (λ w, cstr buf' w.1) c = tmap (text (str buf)) c ∧ expressible (tmap (text (str buf)) c)
  | Ok (Leftovers s) _ => (s < length (str buf))%nat
  | Panic _ => True
  | _ => False
  end.
Proof.
  unfold parsecmd, parsecmd_tree. pose proof (str_no_nul buf) as HT. set (T := str buf) in *.
  assert (pwp (c ← parseline T (parse_fuel T); peek T [];; s ← Prelude.gets id; mret (c, s)) 0
    (λ r _, (r.2 ≤ length T)%nat ∧ cmd_ok T r.1)) as Hp.
  { apply pwp_bind. eapply pwp_mono; [apply (parse_ok T HT (parse_fuel T) 0); unfold parse_fuel; lia|]. intros c j [Hj Hc].
    apply pwp_bind. eapply pwp_mono; [apply (peek_ok T HT); lia|]. intros b j1 [Hj1 _]. apply pwp_bind. apply pwp_ret. split; [simpl; lia|done]. }
  unfold pwp in Hp. destruct (_ ≫= _) as [[c s] ps| | | |]; try done. destruct Hp as [Hs Hc]. simpl in Hs, Hc.
  case_decide; [lia|]. split; [by apply nulterminate_strings|by apply cmd_ok_expressible].
Qed.

(** ** Printing commands, and parsing them back *)

Inductive level := LLine | LBack | LPipe | LExec.

Definition level_le (a b : level) : bool :=
  match a, b with
  | LLine, _ | LBack, (LBack | LPipe | LExec) | LPipe, (LPipe | LExec) | LExec, LExec => true
  | _, _ => false
  end.

Definition parens (b : bool) (l : list byte) : list byte := if b then LPAR :: l ++ [RPAR] else l.

Definition print_word (w : list byte) : list byte := w ++ [x20].
Definition print_redir (mode : Z) (file : list byte) : list byte :=
  (if mode =? O_RDONLY then [LT] else if band mode O_TRUNC then [GT] else [GT; GT]) ++ print_word file.

(** A command at a place where the grammar wants a [lv]. *)
Fixpoint print (lv : level) (t : tree (list byte)) : list byte :=
  match t with
  | Exec argv => concat (print_word <$> argv)
  | Redir c file mode _ => print LExec c ++ print_redir mode file
  | Pipe l r => parens (negb (level_le lv LPipe)) (print LExec l ++ BAR :: print LPipe r)
  | Back c => parens (negb (level_le lv LBack)) (print LBack c ++ [AMP])
  | List l r => parens (negb (level_le lv LLine)) (print LBack l ++ SEMI :: print LLine r)
  end.

(** What may come after a command at each level. *)
Definition starts_with (set : list byte) (l : list byte) : Prop := match l with [] => True | c :: _ => c ∈ set end.
Definition no_space (l : list byte) : Prop := match l with [] => True | c :: _ => among whitespace c = false end.
Definition after_exec : list byte := [BAR; RPAR; AMP; SEMI].

Section roundtrip.
Context (T : list byte) (no_nul : x00 ∉ T).
Implicit Types i : nat.

Lemma drop_app i l r : drop i T = l ++ r → drop (i + length l) T = r.
Proof. intros E. rewrite <- drop_drop, E. apply drop_app_length. Qed.
Lemma drop_lookup i c l : drop i T = c :: l → T !! i = Some c.
Proof. intros E. rewrite <- (Nat.add_0_r i), <- lookup_drop, E. done. Qed.
Lemma drop_tail i c l : drop i T = c :: l → drop (S i) T = l.
Proof. intros E. apply (drop_app i [c] l) in E. simpl in E. by rewrite Nat.add_1_r in E. Qed.
Lemma drop_at i l : drop i T = l → at_ T i = hd x00 l.
Proof. intros <-. unfold at_. rewrite nth_lookup, <- (Nat.add_0_r i) at 1. rewrite <- lookup_drop. by destruct (drop i T). Qed.

Lemma skip_none i l : drop i T = l → no_space l → skip_spaces T i = i.
Proof. intros E Hl. unfold skip_spaces. rewrite E. destruct l as [|c l]; simpl in *; [lia|]. rewrite Hl. lia. Qed.

Lemma peek_run toks i l : drop i T = l → no_space l →
  peek T toks i = Ok (match l with [] => false | c :: _ => among toks c end) i.
Proof using no_nul.
  intros E Hl. unfold peek. rewrite (skip_none i l) by done. rewrite (drop_at _ _ E). f_equal.
  destruct l as [|c l]; simpl; [done|]. rewrite bool_decide_eq_false_2; [done|]. intros ->.
  apply no_nul. eapply list_elem_of_lookup_2, drop_lookup, E.
Qed.

Lemma word_run w r : Forall (λ c, word_char c = true ∧ c ≠ x00) w → word (w ++ x20 :: r) = length w.
Proof. induction 1 as [|c w [Hc _] _ IH]; simpl; [done|]. unfold word_char in Hc. by rewrite Hc, IH. Qed.

Lemma gettoken_word_run i w r : drop i T = print_word w ++ r → word_ok w → no_space r →
  gettoken T i = Ok (tok_word, (i, i + length w)%nat) (i + length (print_word w))%nat.
Proof using no_nul.
  intros E [Hw Hch] Hr. unfold gettoken, print_word in *. rewrite <- app_assoc in E. simpl in E.
  destruct w as [|c w]; [done|]. pose proof (Forall_inv Hch) as [Hc Hc0].
  assert (among whitespace c = false ∧ among symbols c = false) as [Hs Hy].
  { unfold word_char in Hc. apply andb_true_iff in Hc as [Hs Hy]. apply negb_true_iff in Hs, Hy. done. }
  rewrite (skip_none i _ E) by done. rewrite (drop_at _ _ E). simpl.
  rewrite decide_False by done.
  assert (among [BAR; LPAR; RPAR; SEMI; AMP; LT] c = false ∧ c ≠ GT) as [Ha Hg] by (clear -Hy; by destruct c).
  rewrite Ha, (decide_False (P := c = GT)) by done. rewrite E, (word_run (c :: w)) by done.
  f_equal. apply drop_app in E. simpl in E. unfold skip_spaces. simpl. rewrite E. cbn [spaces].
  replace (among whitespace x20) with true by done.
  assert (spaces r = 0%nat) as -> by (destruct r as [|d r]; simpl in *; [done|by rewrite Hr]).
  rewrite length_app. simpl. lia.
Qed.

Lemma gettoken_sym_run i c r : drop i T = c :: r → c ∈ [BAR; LPAR; RPAR; SEMI; AMP; LT] → no_space r →
  ∃ e, gettoken T i = Ok (c, e) (S i).
Proof using no_nul.
  intros E Hc Hr. eexists. unfold gettoken.
  assert (among whitespace c = false ∧ c ≠ x00 ∧ among [BAR; LPAR; RPAR; SEMI; AMP; LT] c = true) as (Hs & H0 & Ha).
  { clear -Hc. repeat (apply elem_of_cons in Hc as [->|Hc]; [done|]). by apply elem_of_nil in Hc. }
  rewrite (skip_none i _ E) by done. rewrite (drop_at _ _ E). simpl. rewrite decide_False, Ha by done. f_equal.
  apply skip_none with r; [|done]. by eapply drop_tail.
Qed.
Lemma gettoken_gt_run i r : drop i T = GT :: r → hd x00 r ≠ GT → no_space r → ∃ e, gettoken T i = Ok (GT, e) (S i).
Proof using no_nul.
  intros E Hn Hr. eexists. unfold gettoken. rewrite (skip_none i _ E) by done. rewrite (drop_at _ _ E).
  apply drop_tail in E. rewrite (drop_at _ _ E). simpl. rewrite decide_False by done. f_equal. by apply skip_none with r.
Qed.

Lemma gettoken_append_run i r : drop i T = GT :: GT :: r → no_space r → ∃ e, gettoken T i = Ok (tok_append, e) (S (S i)).
Proof using no_nul.
  intros E Hr. eexists. unfold gettoken. rewrite (skip_none i _ E) by done. rewrite (drop_at _ _ E).
  apply drop_tail in E. rewrite (drop_at _ _ E). simpl. f_equal. apply skip_none with r; [|done]. by eapply drop_tail.
Qed.

(** Text that starts with a word starts with neither a space nor a symbol. *)
Lemma word_start w r : word_ok w → ∃ c l, print_word w ++ r = c :: l ∧ among whitespace c = false ∧ among symbols c = false ∧ c ≠ x00.
Proof.
  intros [Hn Hw]. destruct w as [|c w]; [done|]. exists c, (w ++ [x20] ++ r). unfold print_word. rewrite <- app_assoc.
  split; [done|]. destruct (Forall_inv Hw) as [Hc ?]. unfold word_char in Hc. apply andb_true_iff in Hc as [Hs Hy].
  apply negb_true_iff in Hs, Hy. done.
Qed.

(** A redirection, given by its file, mode and descriptor. *)
Definition sredir : Type := list byte * Z * Z.
Definition sredir_ok (r : sredir) : Prop := word_ok r.1.1 ∧ (r.1.2, r.2) ∈ redir_modes.
Definition print_redirs (rs : list sredir) : list byte := concat ((λ r : sredir, print_redir r.1.2 r.1.1) <$> rs).
Definition redir_text (r : redir) : sredir := (text T r.1.1, r.1.2, r.2).

Lemma text_here i w r : drop i T = print_word w ++ r → text T (i, (i + length w)%nat) = w.
Proof.
  intros E. unfold text. simpl. rewrite E. unfold print_word. replace (i + length w - i)%nat with (length w) by lia.
  rewrite <- app_assoc. by rewrite take_app_length.
Qed.

(** [redir_run]: one redirection is its operator and its file. *)
Lemma redir_run i f m d r : drop i T = print_redir m f ++ r → sredir_ok (f, m, d) → no_space r →
  ∃ t e j, peek T [LT; GT] i = Ok true i ∧ gettoken T i = Ok (t, e) j ∧
    gettoken T j = Ok (tok_word, (j, j + length f)%nat) (i + length (print_redir m f))%nat ∧
    text T (j, (j + length f)%nat) = f ∧
    match t with
    | x3c => [((j, (j + length f)%nat), O_RDONLY, 0)]
    | x3e => [((j, (j + length f)%nat), Z.lor (Z.lor O_WRONLY O_CREATE) O_TRUNC, 1)]
    | x2b => [((j, (j + length f)%nat), Z.lor O_WRONLY O_CREATE, 1)]
    | _ => []
    end = [((j, (j + length f)%nat), m, d)].
Proof using no_nul.
  intros E [Hf Hm] Hr. simpl in Hf, Hm. destruct (word_start f r Hf) as (c & l & Ew & Hs & Hy & H0).
  assert (no_space (print_word f ++ r)) as Hns by by rewrite Ew.
  unfold print_redir in E. rewrite <- app_assoc in E. unfold redir_modes in Hm.
  apply elem_of_cons in Hm as [[= -> ->]|[[= -> ->]|[[= -> ->]|Hm%elem_of_nil]%elem_of_cons]%elem_of_cons]; [..|done];
    simpl in E; unfold print_redir; simpl.
  - destruct (gettoken_sym_run i LT _ E ltac:(set_solver) Hns) as [e He]. exists LT, e, (S i).
    rewrite (peek_run [LT; GT] i _ E) by done. apply drop_tail in E. split_and!; [done|done| |by eapply text_here|done].
    rewrite (gettoken_word_run _ f r) by done. f_equal. lia.
  - destruct (gettoken_gt_run i _ E) as [e He]; [|done|].
    { rewrite Ew. simpl. intros ->. by vm_compute in Hy. }
    exists GT, e, (S i). rewrite (peek_run [LT; GT] i _ E) by done. apply drop_tail in E.
    split_and!; [done|done| |by eapply text_here|done]. rewrite (gettoken_word_run _ f r) by done. f_equal. lia.
  - destruct (gettoken_append_run i _ E Hns) as [e He]. exists tok_append, e, (S (S i)).
    rewrite (peek_run [LT; GT] i _ E) by done. apply drop_tail, drop_tail in E.
    split_and!; [done|done| |by eapply text_here|done]. rewrite (gettoken_word_run _ f r) by done. f_equal. lia.
Qed.

Lemma print_redirs_start rs r : no_space r → no_space (print_redirs rs ++ r).
Proof.
  intros Hr. destruct rs as [|[[f m] d] rs]; [done|]. unfold print_redirs, print_redir. simpl. rewrite <- !app_assoc.
  repeat case_match; done.
Qed.

Lemma print_redirs_length rs : (length rs ≤ length (print_redirs rs))%nat.
Proof.
  induction rs as [|[[f m] d] rs IH]; [simpl; lia|].
  change (print_redirs ((f, m, d) :: rs)) with (print_redir m f ++ print_redirs rs). unfold print_redir, print_word.
  rewrite !length_app. simpl. lia.
Qed.

Lemma parseredirs_run fuel rs i r : (length rs < fuel)%nat → drop i T = print_redirs rs ++ r → Forall sredir_ok rs →
  no_space r → ¬ (∃ c l, r = c :: l ∧ c ∈ [LT; GT]) →
  ∃ rs', parseredirs T fuel i = Ok rs' (i + length (print_redirs rs))%nat ∧ redir_text <$> rs' = rs.
Proof using no_nul.
  revert fuel i. induction rs as [|[[f m] d] rs IH]; intros [|fuel] i Hf E Hrs Hr Hn; simpl in Hf; try lia; cbn [parseredirs].
  - exists []. split; [|done]. unfold mbind, M_bind. simpl in E. rewrite (peek_run _ i r E) by done.
    rewrite Nat.add_0_r. destruct r as [|c l]; [done|]. replace (among [LT; GT] c) with false; [done|].
    symmetry. apply bool_decide_eq_false_2. intros Ha. apply Hn. exists c, l. split; [done|]. clear -Ha. destruct c; try set_solver; by destruct Ha.
  - inversion Hrs as [|? ? Hr1 Hrs']; subst. unfold print_redirs in E. simpl in E. rewrite <- app_assoc in E.
    destruct (redir_run i f m d _ E Hr1) as (t & e & j & Hp & Ht & Hw & Htx & Hm); [by apply print_redirs_start|].
    apply drop_app in E. destruct (IH fuel _ ltac:(lia) E Hrs' Hr Hn) as (rs' & Hrun & Hmap).
    exists (((j, (j + length f)%nat), m, d) :: rs'). split.
    + unfold mbind, M_bind. rewrite Hp. cbn [negb]. rewrite Ht, Hw. cbn [fst snd]. rewrite bool_decide_eq_true_2 by done. cbn [negb].
      rewrite Hrun. unfold mret, M_ret. f_equal; [exact (f_equal (λ l, l ++ rs') Hm)|].
      change (print_redirs ((f, m, d) :: rs)) with (print_redir m f ++ print_redirs rs). rewrite length_app. lia.
    + rewrite fmap_cons. f_equal; [|exact Hmap]. unfold redir_text. simpl. by rewrite Htx.
Qed.
Definition print_words (ws : list (list byte)) : list byte := concat (print_word <$> ws).

Lemma print_words_cons w ws : print_words (w :: ws) = print_word w ++ print_words ws.
Proof. done. Qed.

Lemma print_words_length ws : (length ws ≤ length (print_words ws))%nat.
Proof.
  induction ws as [|w ws IH]; [simpl; lia|]. rewrite print_words_cons, length_app. unfold print_word. rewrite length_app. simpl. lia.
Qed.

Lemma after_exec_start r : starts_with after_exec r → no_space r ∧ ¬ ∃ c l, r = c :: l ∧ c ∈ [LT; GT].
Proof.
  clear no_nul. destruct r as [|c r]; simpl; [intros _; split; [done|naive_solver]|]. intros Hc. unfold after_exec in Hc.
  repeat (apply elem_of_cons in Hc as [->|Hc]; [split; [done|]; intros (? & ? & [= <- <-] & Hin); set_solver|]).
  by apply elem_of_nil in Hc.
Qed.

Lemma gettoken_end i : drop i T = [] → ∃ e, gettoken T i = Ok (x00, e) i.
Proof.
  intros E. eexists. unfold gettoken. rewrite (skip_none i [] E) by done. rewrite (drop_at _ _ E). simpl.
  by rewrite (skip_none i [] E).
Qed.

(** The arguments are over. *)
Lemma parseargs_stop fuel argv rs i r : drop i T = r → starts_with after_exec r →
  parseargs T (S fuel) argv rs i = Ok (argv, rs) i.
Proof using no_nul.
  intros E Hr. pose proof (after_exec_start r Hr) as [Hns _]. cbn [parseargs]. unfold mbind, M_bind.
  rewrite (peek_run _ i r E) by done. destruct r as [|c r].
  - destruct (gettoken_end i E) as [e ->]. simpl. done.
  - replace (among [BAR; RPAR; AMP; SEMI] c) with true; [done|]. simpl in Hr. clear -Hr. unfold after_exec in Hr.
    repeat (apply elem_of_cons in Hr as [->|Hr]; [done|]). by apply elem_of_nil in Hr.
Qed.

Lemma parseargs_run fuel ws acc rs i r : (length ws < fuel)%nat → ws ≠ [] →
  drop i T = print_words ws ++ print_redirs rs ++ r → Forall word_ok ws → Forall sredir_ok rs → starts_with after_exec r →
  Z.of_nat (length acc + length ws) < MAXARGS →
  ∃ argv rs', parseargs T fuel acc [] i = Ok (acc ++ argv, rs') (i + length (print_words ws) + length (print_redirs rs))%nat ∧
    text T <$> argv = ws ∧ redir_text <$> rs' = rs.
Proof using no_nul.
  revert fuel acc i. induction ws as [|w ws IH]; intros [|fuel] acc i Hf Hne E Hws Hrs Hr Hl; simpl in Hf; try done; try lia.
  pose proof (Forall_inv Hws) as Hw. apply Forall_inv_tail in Hws. pose proof (after_exec_start r Hr) as [Hns Hlg].
  pose proof (print_redirs_start rs r Hns) as Hns'.
  rewrite print_words_cons, <- app_assoc in E.
  assert (no_space (print_words ws ++ print_redirs rs ++ r)) as Hns2.
  { destruct ws as [|w2 ws]; [done|]. destruct (word_start w2 (print_words ws ++ print_redirs rs ++ r) (Forall_inv Hws)) as (c & l & Ew & Hs & _).
    rewrite print_words_cons, <- app_assoc. by rewrite Ew. }
  destruct (word_start w (print_words ws ++ print_redirs rs ++ r) Hw) as (c & l & Ew & Hs & Hy & H0).
  cbn [parseargs]. unfold mbind, M_bind. rewrite (peek_run _ i _ E) by by rewrite Ew. rewrite Ew. replace (among [BAR; RPAR; AMP; SEMI] c) with false by (clear -Hy; by destruct c).
  rewrite (gettoken_word_run i w _ E Hw Hns2). cbn [fst snd]. rewrite decide_False by done.
  rewrite bool_decide_eq_true_2 by done. cbn [negb]. cbv zeta.
  find_z ltac:(fun b => replace b with false by (symmetry; rewrite Z.geb_leb; apply Z.leb_gt; rewrite length_app; simpl in *; lia)).
  pose proof (text_here _ _ _ E) as Htx. pose proof E as E0. apply drop_app in E.
  pose proof (print_redirs_length rs) as Hrl.
  assert (length (print_redirs rs) ≤ length T)%nat as HlT.
  { apply (f_equal length) in E0. rewrite length_drop, !length_app in E0. lia. }
  destruct ws as [|w2 ws].
  - simpl in E. destruct (parseredirs_run (S (length T)) rs _ r ltac:(lia) E Hrs Hns Hlg) as (rs' & Hrun & Hmap).
    rewrite Hrun. apply drop_app in E. exists [(i, (i + length w)%nat)], rs'. rewrite app_nil_l.
    destruct fuel as [|fuel]; [simpl in Hf; lia|]. rewrite (parseargs_stop _ _ _ _ r E Hr).
    split_and!; [|simpl; by rewrite Htx|done]. f_equal. rewrite print_words_cons, length_app. simpl. lia.
  - assert (¬ ∃ c l, print_words (w2 :: ws) ++ print_redirs rs ++ r = c :: l ∧ c ∈ [LT; GT]) as Hlg2.
    { destruct (word_start w2 (print_words ws ++ print_redirs rs ++ r) (Forall_inv Hws)) as (c2 & l2 & Ew2 & _ & Hy2 & _).
      intros (c3 & l3 & E3 & Hin). rewrite print_words_cons, <- app_assoc, Ew2 in E3. injection E3 as <- <-. clear -Hy2 Hin.
      apply elem_of_cons in Hin as [->|[->|Hin%elem_of_nil]%elem_of_cons]; done. }
    destruct (parseredirs_run (S (length T)) [] _ _ ltac:(simpl; lia) E (Forall_nil_2 _) Hns2 Hlg2) as (rs0 & Hrun & Hmap0).
    apply fmap_nil_inv in Hmap0 as ->. rewrite Hrun. change (length (print_redirs [])) with 0%nat. rewrite Nat.add_0_r.
    destruct (IH fuel (acc ++ [(i, (i + length w)%nat)]) _ ltac:(simpl in *; lia) ltac:(done) E Hws Hrs Hr) as (argv & rs' & Hrun' & Hmap & Hmapr).
    { rewrite length_app. simpl in *. lia. }
    exists ((i, (i + length w)%nat) :: argv), rs'. split_and!.
    + etrans; [exact Hrun'|]. rewrite <- app_assoc. simpl. f_equal. rewrite (print_words_cons w), !length_app. lia.
    + rewrite fmap_cons. by f_equal.
    + done.
Qed.
(** *** Redirections around a command *)

Definition twrap (t : tree (list byte)) (rs : list sredir) : tree (list byte) := foldl (λ c '(f, m, d), Redir c f m d) t rs.

Lemma tmap_wrap c rs : tmap (text T) (wrap c rs) = twrap (tmap (text T) c) (redir_text <$> rs).
Proof. unfold wrap, twrap. revert c. induction rs as [|[[f m] d] rs IH]; intros c; simpl; [done|]. by rewrite IH. Qed.

Fixpoint unwrap (t : tree (list byte)) : tree (list byte) * list sredir :=
  match t with
  | Redir c f m d => let '(core, rs) := unwrap c in (core, rs ++ [(f, m, d)])
  | _ => (t, [])
  end.

Fixpoint tsize {A} (t : tree A) : nat :=
  match t with
  | Exec _ => 1
  | Redir c _ _ _ | Back c => S (tsize c)
  | Pipe l r | List l r => S (tsize l + tsize r)
  end.

Definition is_redir (t : tree (list byte)) : bool := match t with Redir _ _ _ _ => true | _ => false end.

Lemma unwrap_spec t : let '(core, rs) := unwrap t in
  t = twrap core rs ∧ is_redir core = false ∧ (tsize core + length rs = tsize t)%nat ∧
  print LExec t = print LExec core ++ print_redirs rs ∧ (expressible t → expressible core ∧ Forall sredir_ok rs).
Proof.
  induction t as [argv|c IH f m d|l _ r _|l _ r _|c _]; simpl;
    try (split_and!; [done|done|lia|by rewrite app_nil_r|intros ?; split; [done|constructor]]).
  destruct (unwrap c) as [core rs]. destruct IH as (-> & Hr & Hs & Hp & He). split_and!; [|done|rewrite length_app; simpl; lia| |].
  - unfold twrap. by rewrite foldl_app.
  - rewrite Hp. unfold print_redirs. rewrite fmap_app, concat_app. simpl. by rewrite app_nil_r, app_assoc.
  - intros (Hc & Hf & Hm). destruct (He Hc) as [? ?]. split; [done|]. apply Forall_app. split; [done|]. by apply Forall_singleton.
Qed.

(** *** Each level of the grammar *)

Definition exec_run (t : tree (list byte)) : Prop := ∀ fuel i r, (4 * length (print LExec t) + 2 ≤ fuel)%nat →
  drop i T = print LExec t ++ r → starts_with after_exec r →
  ∃ c, parseexec T fuel i = Ok c (i + length (print LExec t))%nat ∧ tmap (text T) c = t.
Definition pipe_run (t : tree (list byte)) : Prop := ∀ fuel i r, (4 * length (print LPipe t) + 3 ≤ fuel)%nat →
  drop i T = print LPipe t ++ r → starts_with [RPAR; AMP; SEMI] r →
  ∃ c, parsepipe T fuel i = Ok c (i + length (print LPipe t))%nat ∧ tmap (text T) c = t.
Definition line_run (t : tree (list byte)) : Prop := ∀ fuel i r, (4 * length (print LLine t) + 4 ≤ fuel)%nat →
  drop i T = print LLine t ++ r → starts_with [RPAR] r →
  ∃ c, parseline T fuel i = Ok c (i + length (print LLine t))%nat ∧ tmap (text T) c = t.

Lemma print_twrap c rs : print LExec (twrap c rs) = print LExec c ++ print_redirs rs.
Proof.
  unfold twrap. revert c. induction rs as [|[[f m] d] rs IH]; intros c; simpl; [by rewrite app_nil_r|].
  rewrite IH. simpl. by rewrite <- app_assoc.
Qed.

(** What a simple command starts with. *)
Lemma simple_start argv rs r : Forall word_ok argv → starts_with after_exec r →
  no_space (print_words argv ++ print_redirs rs ++ r) ∧
  match print_words argv ++ print_redirs rs ++ r with [] => false | c :: _ => among [LPAR] c end = false.
Proof.
  intros Ha Hr. destruct argv as [|w ws].
  - simpl. destruct rs as [|[[f m] d] rs].
    + change (print_redirs []) with (@nil byte). rewrite app_nil_l. destruct r as [|c r]; [done|]. unfold starts_with, after_exec in Hr.
      repeat (apply elem_of_cons in Hr as [->|Hr]; [split; reflexivity|]). by apply elem_of_nil in Hr.
    + unfold print_redirs, print_redir. rewrite fmap_cons. cbn [concat fst snd].
      destruct (m =? O_RDONLY); [|destruct (band m O_TRUNC)]; split; reflexivity.
  - rewrite print_words_cons, <- app_assoc.
    destruct (word_start w (print_words ws ++ print_redirs rs ++ r) (Forall_inv Ha)) as (c & l & -> & Hs & Hy & _).
    split; [done|]. clear -Hy. by destruct c.
Qed.

Lemma text_le i l r : drop i T = l ++ r → (length l ≤ length T)%nat.
Proof. intros E. apply (f_equal length) in E. rewrite length_drop, length_app in E. lia. Qed.

(** A simple command with its redirections. *)
Lemma simple_run argv rs : Forall word_ok argv → Z.of_nat (length argv) < MAXARGS → Forall sredir_ok rs →
  exec_run (twrap (Exec argv) rs).
Proof using no_nul.
  intros Ha Hl Hrs fuel i r Hf E Hr. rewrite print_twrap in *. change (print LExec (Exec argv)) with (print_words argv) in *.
  rewrite <- app_assoc in E. destruct fuel as [|fuel]; [lia|]. cbn [parseexec]. unfold mbind, M_bind.
  destruct (simple_start argv rs r Ha Hr) as [Hns Hlp]. rewrite (peek_run _ i _ E Hns), Hlp.
  destruct (after_exec_start r Hr) as [Hnr Hlg]. pose proof (print_redirs_length rs) as Hrl.
  assert (length (print_words argv) + length (print_redirs rs) ≤ length T)%nat as HlT.
  { rewrite app_assoc in E. apply text_le in E. by rewrite length_app in E. }
  destruct argv as [|w ws].
  - simpl in E. destruct (parseredirs_run (S (length T)) rs i r ltac:(lia) E Hrs Hnr Hlg) as (rs' & -> & Hmap).
    apply drop_app in E. rewrite (parseargs_stop _ _ _ _ r E Hr). exists (wrap (Exec []) rs'). split; [done|].
    by rewrite tmap_wrap, Hmap.
  - destruct (parseredirs_run (S (length T)) [] i _ ltac:(simpl; lia) E (Forall_nil_2 _) Hns) as (rs0 & -> & Hmap0).
    { destruct (word_start w (print_words ws ++ print_redirs rs ++ r) (Forall_inv Ha)) as (c & l & Ew & _ & Hy & _).
      intros (c2 & l2 & E2 & Hin). rewrite print_words_cons, <- app_assoc, Ew in E2. injection E2 as <- <-. clear -Hy Hin.
      apply elem_of_cons in Hin as [->|[->|Hin%elem_of_nil]%elem_of_cons]; done. }
    apply fmap_nil_inv in Hmap0 as ->. change (length (print_redirs [])) with 0%nat. rewrite Nat.add_0_r.
    assert (length (w :: ws) ≤ length (print_words (w :: ws)))%nat as Hwl by apply print_words_length.
    destruct (parseargs_run (S (length T)) (w :: ws) [] rs i r) as (argv & rs' & -> & Hmap & Hmapr); try done; [lia|].
    exists (wrap (Exec argv) rs'). split; [unfold mret, M_ret; f_equal; rewrite length_app; lia|]. rewrite tmap_wrap, Hmapr. simpl. by rewrite Hmap.
Qed.
Lemma print_start lv t r : expressible t → no_space r → no_space (print lv t ++ r).
Proof.
  revert lv r. induction t as [argv|c IH f m d|l IHl u IHu|l IHl u IHu|c IH]; intros lv r He Hr; cbn [print].
  - destruct argv as [|w ws]; [done|]. destruct He as [Ha _]. change (concat _) with (print_words (w :: ws)).
    rewrite print_words_cons, <- app_assoc. destruct (word_start w (print_words ws ++ r) (Forall_inv Ha)) as (c & l & -> & Hs & _). done.
  - destruct He as [He _]. rewrite <- app_assoc. apply IH; [done|]. unfold print_redir.
    destruct (m =? O_RDONLY); [|destruct (band m O_TRUNC)]; reflexivity.
  - destruct (level_le lv LPipe); cbn [negb parens]; [|reflexivity]. rewrite <- app_assoc. apply IHl; [apply He|reflexivity].
  - destruct (level_le lv LLine); cbn [negb parens]; [|reflexivity]. rewrite <- app_assoc. apply IHl; [apply He|reflexivity].
  - destruct (level_le lv LBack); cbn [negb parens]; [|reflexivity]. rewrite <- app_assoc. apply IH; [apply He|reflexivity].
Qed.

(** A command in parentheses, with its redirections. *)
Lemma block_run t rs : line_run t → expressible t → print LExec t = LPAR :: print LLine t ++ [RPAR] → Forall sredir_ok rs →
  exec_run (twrap t rs).
Proof using no_nul.
  intros Ht He Ep Hrs fuel i r Hf E Hr. rewrite print_twrap, Ep in *. cbn [app length] in *. rewrite !length_app in Hf. simpl in Hf.
  destruct fuel as [|[|fuel]]; [lia..|]. cbn [parseexec parseblock]. unfold mbind, M_bind.
  destruct (after_exec_start r Hr) as [Hnr Hlg]. rewrite <- !app_assoc in E. cbn [app] in E.
  rewrite (peek_run _ i _ E) by done. replace (among [LPAR] LPAR) with true by done. rewrite (peek_run _ i _ E) by done.
  replace (among [LPAR] LPAR) with true by done. cbn [negb].
  destruct (gettoken_sym_run i LPAR _ E ltac:(set_solver)) as [e ->]; [by apply print_start|]. apply drop_tail in E.
  destruct (Ht fuel (S i) _ ltac:(lia) E ltac:(simpl; left)) as (c & -> & Hc). apply drop_app in E.
  rewrite (peek_run _ _ _ E) by done. replace (among [RPAR] RPAR) with true by done. cbn [negb].
  destruct (gettoken_sym_run _ RPAR _ E ltac:(set_solver)) as [e' ->]; [by apply print_redirs_start|]. apply drop_tail in E.
  pose proof (print_redirs_length rs). pose proof (text_le _ _ _ E).
  destruct (parseredirs_run (S (length T)) rs _ r ltac:(lia) E Hrs Hnr Hlg) as (rs' & -> & Hmap).
  exists (wrap c rs'). split; [unfold mret, M_ret; f_equal; rewrite !length_app; simpl; lia|]. by rewrite tmap_wrap, Hmap, Hc.
Qed.

Lemma starts_sub set set' r : starts_with set r → (∀ c, c ∈ set → c ∈ set') → starts_with set' r.
Proof. destruct r; simpl; auto. Qed.
Lemma peek_not toks set i r : drop i T = r → starts_with set r → (∀ c, c ∈ set → among whitespace c = false ∧ among toks c = false) →
  peek T toks i = Ok false i.
Proof using no_nul.
  intros E Hs Hset. rewrite (peek_run toks i r E); [|destruct r; simpl in *; [done|by apply Hset]].
  f_equal. destruct r as [|c r]; [done|]. by apply Hset.
Qed.
Lemma set_cases (P : byte → Prop) set : Forall P set → ∀ c, c ∈ set → P c.
Proof. intros H. by apply list.Forall_forall. Qed.

Lemma pipe_last t : exec_run t → print LPipe t = print LExec t → pipe_run t.
Proof using no_nul.
  intros Ht Ep fuel i r Hf E Hr. rewrite Ep in *. destruct fuel as [|fuel]; [lia|]. cbn [parsepipe]. unfold mbind, M_bind.
  destruct (Ht fuel i r ltac:(lia) E) as (c & -> & Hc); [eapply starts_sub; [done|set_solver]|]. apply drop_app in E.
  rewrite (peek_not [BAR] _ _ _ E Hr); [by exists c|]. apply set_cases. by repeat constructor.
Qed.

Lemma pipe_more l u : exec_run l → pipe_run u → expressible u → pipe_run (Pipe l u).
Proof using no_nul.
  intros Hl Hu He fuel i r Hf E Hr. cbn [print level_le negb parens] in *. rewrite length_app in *. simpl in Hf.
  destruct fuel as [|fuel]; [lia|]. cbn [parsepipe]. unfold mbind, M_bind. rewrite <- app_assoc in E.
  destruct (Hl fuel i _ ltac:(lia) E) as (c & -> & Hc); [simpl; set_solver|]. apply drop_app in E. cbn [app] in E.
  rewrite (peek_run _ _ _ E) by done. replace (among [BAR] BAR) with true by done.
  destruct (gettoken_sym_run _ BAR _ E ltac:(set_solver)) as [e ->].
  { apply print_start; [done|]. eapply after_exec_start, starts_sub; [done|set_solver]. }
  apply drop_tail in E. destruct (Hu fuel _ r ltac:(lia) E Hr) as (c2 & -> & Hc2). exists (Pipe c c2).
  split; [unfold mret, M_ret; f_equal; simpl; lia|]. simpl. by rewrite Hc, Hc2.
Qed.
(** Background marks after a pipeline. *)
Fixpoint unback (t : tree (list byte)) : tree (list byte) * nat :=
  match t with
  | Back c => let '(p, n) := unback c in (p, S n)
  | _ => (t, 0%nat)
  end.
Definition backs {A} (n : nat) (c : tree A) : tree A := Nat.iter n Back c.

Lemma backs_S {A} n (c : tree A) : backs n (Back c) = backs (S n) c.
Proof. unfold backs. by rewrite Nat.iter_succ_r. Qed.
Lemma tmap_backs n c : tmap (text T) (backs n c) = backs n (tmap (text T) c).
Proof. induction n as [|n IH]; simpl; [done|]. by rewrite <- IH. Qed.

Lemma unback_spec t : let '(p, n) := unback t in
  t = backs n p ∧ (tsize p + n = tsize t)%nat ∧ print LBack t = print LPipe p ++ replicate n AMP ∧ (expressible t → expressible p).
Proof.
  induction t as [argv|c _ f m d|l _ r _|l _ r _|c IH]; simpl; try (split_and!; [done|lia|by rewrite app_nil_r|done]).
  destruct (unback c) as [p n]. destruct IH as (-> & Hs & Hp & He). split_and!; [done|lia| |done].
  rewrite Hp, <- app_assoc. f_equal. change [AMP] with (replicate 1 AMP). rewrite <- replicate_add, Nat.add_comm. done.
Qed.

Lemma parseback_run fuel n c i r : (n < fuel)%nat → drop i T = replicate n AMP ++ r → starts_with [RPAR; SEMI] r →
  parseback T fuel c i = Ok (backs n c) (i + n)%nat.
Proof using no_nul.
  revert fuel c i. induction n as [|n IH]; intros [|fuel] c i Hf E Hr; try lia; cbn [parseback]; unfold mbind, M_bind.
  - simpl in E. rewrite (peek_not [AMP] _ _ _ E Hr); [by rewrite Nat.add_0_r|]. apply set_cases. by repeat constructor.
  - cbn [replicate app] in E. rewrite (peek_run _ _ _ E) by done. replace (among [AMP] AMP) with true by done.
    destruct (gettoken_sym_run _ AMP _ E ltac:(set_solver)) as [e ->].
    { destruct n; [|reflexivity]. simpl. eapply after_exec_start, starts_sub; [done|set_solver]. }
    apply drop_tail in E. rewrite (IH fuel (Back c) (S i)) by (done || lia). rewrite backs_S. f_equal. lia.
Qed.

(** A pipeline with its background marks, as [parseline] starts. *)
Lemma back_run t fuel i r : (∀ p n, unback t = (p, n) → pipe_run p) → (4 * length (print LBack t) + 3 ≤ fuel)%nat →
  drop i T = print LBack t ++ r → starts_with [RPAR; SEMI] r →
  ∃ c, (c ← parsepipe T fuel; parseback T (S (length T)) c) i = Ok c (i + length (print LBack t))%nat ∧ tmap (text T) c = t.
Proof using no_nul.
  intros Hp Hf E Hr. pose proof (unback_spec t) as Hu. destruct (unback t) as [p n] eqn:Ht. destruct Hu as (-> & _ & Epr & _).
  rewrite Epr in *. rewrite length_app, length_replicate in *. rewrite <- app_assoc in E. unfold mbind, M_bind.
  destruct (Hp p n eq_refl fuel i _ ltac:(lia) E) as (c & -> & Hc).
  { destruct n; simpl; [|set_solver]. eapply starts_sub; [done|set_solver]. }
  apply drop_app in E. pose proof (text_le _ _ _ E) as Hl. rewrite length_replicate in Hl.
  rewrite (parseback_run (S (length T)) n c _ r) by (done || lia). exists (backs n c). split; [f_equal; lia|].
  by rewrite tmap_backs, Hc.
Qed.

Lemma line_last t : (∀ p n, unback t = (p, n) → pipe_run p) → print LLine t = print LBack t → line_run t.
Proof using no_nul.
  intros Hp Ep fuel i r Hf E Hr. rewrite Ep in *. destruct fuel as [|fuel]; [lia|]. cbn [parseline].
  destruct (back_run t fuel i r Hp ltac:(lia) E) as (c & Hrun & Hc); [eapply starts_sub; [done|set_solver]|].
  apply drop_app in E. revert Hrun. unfold mbind, M_bind. destruct (parsepipe T fuel i) as [c1 j| | | |]; try done. intros ->.
  rewrite (peek_not [SEMI] _ _ _ E Hr); [by exists c|]. apply set_cases. by repeat constructor.
Qed.

Lemma line_more l u : (∀ p n, unback l = (p, n) → pipe_run p) → line_run u → expressible u → line_run (List l u).
Proof using no_nul.
  intros Hl Hu He fuel i r Hf E Hr. cbn [print level_le negb parens] in *. rewrite length_app in *. simpl in Hf.
  destruct fuel as [|fuel]; [lia|]. cbn [parseline]. rewrite <- app_assoc in E.
  destruct (back_run l fuel i _ Hl ltac:(lia) E) as (c & Hrun & Hc); [simpl; set_solver|].
  apply drop_app in E. cbn [app] in E. revert Hrun. unfold mbind, M_bind. destruct (parsepipe T fuel i) as [c1 j| | | |]; try done. intros ->.
  rewrite (peek_run _ _ _ E) by done. replace (among [SEMI] SEMI) with true by done.
  destruct (gettoken_sym_run _ SEMI _ E ltac:(set_solver)) as [e ->].
  { apply print_start; [done|]. eapply after_exec_start, starts_sub; [done|set_solver]. }
  apply drop_tail in E. destruct (Hu fuel _ r ltac:(lia) E Hr) as (c2 & -> & Hc2). exists (List c c2).
  split; [unfold mret, M_ret; f_equal; simpl; lia|]. simpl. by rewrite Hc, Hc2.
Qed.

Lemma runs t : expressible t → exec_run t ∧ pipe_run t ∧ line_run t.
Proof using no_nul.
  induction t as [t IH] using (well_founded_induction (well_founded_ltof _ tsize)). unfold ltof in IH. intros He.
  assert (∀ u, (tsize u < tsize t)%nat → expressible u → ∀ p n, unback u = (p, n) → pipe_run p) as IHb.
  { intros u Hu Heu p n E. pose proof (unback_spec u) as Hs. rewrite E in Hs. destruct Hs as (_ & Hs & _ & Hep).
    apply IH; [lia|by apply Hep]. }
  destruct t as [argv|c f m d|l u|l u|c]; cbn [tsize expressible] in *.
  - assert (exec_run (Exec argv)) as Hx by (apply (simple_run argv []); [apply He..|constructor]).
    assert (pipe_run (Exec argv)) as Hp by by apply pipe_last. split_and!; [done|done|]. apply line_last; [|done]. by intros p n [= <- <-].
  - assert (exec_run (Redir c f m d)) as Hx.
    { pose proof (unwrap_spec (Redir c f m d)) as Hu. destruct (unwrap (Redir c f m d)) as [core rs] eqn:Eu.
      destruct Hu as (E & Hr & Hs & _ & Hec). destruct (Hec He) as [Hce Hrs]. rewrite E.
      assert (tsize core < S (tsize c))%nat as Hlt.
      { cbn [tsize] in Hs. destruct rs; [|simpl in Hs; lia]. simpl in E. by rewrite <- E in Hr. }
      destruct core as [argv|? ? ? ?|l u|l u|c']; [by apply simple_run; [apply Hce..|]|done|..]; apply block_run; try done; by apply IH. }
    assert (pipe_run (Redir c f m d)) as Hp by by apply pipe_last. split_and!; [done|done|]. apply line_last; [|done]. by intros p n [= <- <-].
  - destruct He as [Hel Heu].
    assert (pipe_run (Pipe l u)) as Hp by (apply pipe_more; [apply IH; [lia|done]..|done]).
    assert (line_run (Pipe l u)) as Hln by (apply line_last; [by intros p n [= <- <-]|done]).
    split_and!; [|done|done]. apply (block_run (Pipe l u) []); [done|by split|done|constructor].
  - destruct He as [Hel Heu].
    assert (line_run (List l u)) as Hln by (apply line_more; [apply IHb; [lia|done]|apply IH; [lia|done]|done]).
    assert (exec_run (List l u)) as Hx by (apply (block_run (List l u) []); [done|by split|done|constructor]).
    split_and!; [done|by apply pipe_last|done].
  - assert (line_run (Back c)) as Hln.
    { apply line_last; [|done]. intros p n E. simpl in E. destruct (unback c) as [p' n'] eqn:Ec. injection E as <- <-.
      eapply (IHb c); [lia|done|exact Ec]. }
    assert (exec_run (Back c)) as Hx by (apply (block_run (Back c) []); [done|done|done|constructor]).
    split_and!; [done|by apply pipe_last|done].
Qed.
End roundtrip.

Lemma expressible_no_nul lv t : expressible t → x00 ∉ print lv t.
Proof.
  assert (∀ w, word_ok w → x00 ∉ print_word w) as Hw.
  { intros w [_ Hw] Hin. unfold print_word in Hin. apply elem_of_app in Hin as [Hin|Hin]; [|set_solver].
    rewrite list.Forall_forall in Hw. by destruct (Hw _ Hin). }
  revert lv. induction t as [argv|c IH f m d|l IHl u IHu|l IHl u IHu|c IH]; intros lv He; cbn [print expressible] in *.
  - destruct He as [Ha _]. induction Ha as [|w ws Hwo _ IH]; [apply not_elem_of_nil|]. simpl. rewrite elem_of_app. naive_solver.
  - destruct He as (Hc & Hf & _). unfold print_redir. rewrite !elem_of_app. specialize (IH LExec Hc). specialize (Hw f Hf).
    destruct (m =? O_RDONLY); [|destruct (band m O_TRUNC)]; set_solver.
  - destruct He as [Hl Hu]. specialize (IHl LExec Hl). specialize (IHu LPipe Hu). destruct (level_le lv LPipe); simpl; set_solver.
  - destruct He as [Hl Hu]. specialize (IHl LBack Hl). specialize (IHu LLine Hu). destruct (level_le lv LLine); simpl; set_solver.
  - specialize (IH LBack He). destruct (level_le lv LBack); simpl; set_solver.
Qed.

Lemma str_terminated l r : x00 ∉ l → str (l ++ x00 :: r) = l.
Proof.
  induction l as [|c l IH]; intros Hl; simpl; [by rewrite str_cons|]. apply not_elem_of_cons in Hl as [Hc Hl].
  rewrite str_cons, decide_False by done. by rewrite IH.
Qed.

(** A parsed command: the strings of its tree. *)
Definition parsed_strings (o : outcome nat parsed) : option (tree (list byte)) :=
  match o with Ok (Parsed c buf') _ => Some (tmap (λ w, cstr buf' w.1) c) | _ => None end.

(** C24: every command tree is the result of parsing its printed form: for words
    without spaces, symbols or NULs, at most nine arguments to a command and the
    three redirections, [parsecmd] accepts the printed line whole and the
    strings of its result, read from the buffer after [nulterminate], make up the
    same tree.  So each nesting of lists, background commands, pipelines,
    redirections and parentheses can be written, with the precedence the grammar says. *)
Theorem parsecmd_print t r : expressible t → parsed_strings (parsecmd (print LLine t ++ x00 :: r)) = Some t.
Proof.
  intros He. set (T := print LLine t). pose proof (expressible_no_nul LLine t He) as HT. fold T in HT.
  pose proof (str_terminated T r HT) as Estr. destruct (runs T HT t He) as (_ & _ & Hl).
  destruct (Hl (parse_fuel T) 0%nat [] ltac:(unfold parse_fuel; fold T; lia) ltac:(by rewrite app_nil_r) I) as (c & Hrun & Hc).
  fold T in Hrun. simpl in Hrun.
  assert (parsecmd_tree T 0%nat = Ok (c, length T) (length T)) as E.
  { unfold parsecmd_tree, mbind, M_bind. rewrite Hrun. rewrite (peek_run T HT [] (length T) []) by (done || apply drop_all). done. }
  unfold parsecmd. rewrite Estr, E, decide_False by lia. simpl. f_equal. rewrite <- Hc, nulterminate_strings, Estr; [done|].
  rewrite Estr. pose proof (parse_ok T HT (parse_fuel T) 0 ltac:(lia)) as [Hp _].
  specialize (Hp ltac:(unfold parse_fuel; lia)). unfold parses, pwp in Hp. rewrite Hrun in Hp. apply Hp.
Qed.

(** [(cat f | wc) > out & ; echo hi]. *)
Definition demo_tree : tree (list byte) :=
  List (Back (Redir (Pipe (Exec [bytes "cat"; bytes "f"]) (Exec [bytes "wc"])) (bytes "out") 0x601 1))
       (Exec [bytes "echo"; bytes "hi"]).

Lemma parsecmd_print_witness : parsed_strings (parsecmd (print LLine demo_tree ++ [x00])) = Some demo_tree.
Proof. apply (parsecmd_print demo_tree []). apply (bool_decide_unpack (expressible demo_tree)). vm_compute. exact I. Defined.

(** ** What running a command does

    [behaviour n m fds p] is what a process with the open files [fds] does when
    it runs [p], and what its children do: the programs they execute and the
    waits they block in, each with the files that the process has open then,
    what they print and how they exit.  The events of a child come before those
    of its parent that follow the fork.  Pipes are numbered from [n] and forks
    from [m].  Descriptors are given out lowest first, as the kernel's [fdalloc]
    does. *)

Inductive chan := Std (k : nat) | Opened (path : list byte) (mode : Z) | PipeOut (k : nat) | PipeIn (k : nat).
Definition fdtable : Type := list (option chan).

Fixpoint lowest_free (fds : fdtable) : option nat :=
  match fds with
  | [] => None
  | None :: _ => Some 0%nat
  | Some _ :: fds => S <$> lowest_free fds
  end.

Inductive event := Runs (argv : list (list byte)) (fds : fdtable) | Waits (fds : fdtable) | Says (fd : Z) (bs : list byte) | Exits (status : Z).

Section behaviour.
(** Which files can be opened, which programs can be executed, and which forks
    succeed. *)
Context (opens : list byte → Z → bool) (execs : list (list byte) → bool) (forks : nat → bool).

(** One more event, before those of [x]. *)
Definition first (e : event) (x : nat * nat * list event) : nat * nat * list event := (x.1, e :: x.2).

Fixpoint behaviour (n m : nat) (fds : fdtable) (p : prog) : nat * nat * list event :=
  match p with
  | DoExit status => (n, m, [Exits status])
  | DoExec argv failed => if execs argv then (n, m, [Runs argv fds]) else behaviour n m fds failed
  | DoWrite fd bs k => first (Says fd bs) (behaviour n m fds k)
  | DoWait k => first (Waits fds) (behaviour n m fds k)
  | DoClose fd k => behaviour n m (<[Z.to_nat fd := None]> fds) k
  | DoOpen path mode failed k =>
      match lowest_free fds with
      | Some i => if opens path mode then behaviour n m (<[i := Some (Opened path mode)]> fds) k else behaviour n m fds failed
      | None => behaviour n m fds failed
      end
  | DoDup fd k =>
      match fds !! Z.to_nat fd, lowest_free fds with
      | Some (Some c), Some i => behaviour n m (<[i := Some c]> fds) k
      | _, _ => behaviour n m fds k
      end
  | DoPipe failed k =>
      match lowest_free fds with
      | None => behaviour n m fds failed
      | Some i =>
          let fds1 := <[i := Some (PipeOut n)]> fds in
          match lowest_free fds1 with
          | None => behaviour n m fds failed
          | Some j => behaviour (S n) m (<[j := Some (PipeIn n)]> fds1) (k (Z.of_nat i) (Z.of_nat j))
          end
      end
  | DoFork failed child k =>
      if forks m then
        let '(n, m, l1) := behaviour n (S m) fds child in
        let '(n, m, l2) := behaviour n m fds k in
        (n, m, l1 ++ l2)
      else behaviour n (S m) fds failed
  end.

(** What a command means.  A program that starts has the files its place in the
    command gives it; a process that waits has those it was given itself. *)
Definition no_fork : list event := [Says 2 (bytes "fork" ++ [x0a]); Exits 1].
Fixpoint wired (n m : nat) (fds : fdtable) (t : tree (list byte)) : nat * nat * list event :=
  match t with
  | Exec [] => (n, m, [Exits 1])
  | Exec ((a :: _) as argv) => (n, m, if execs argv then [Runs argv fds] else [Says 2 (bytes "exec " ++ a ++ bytes " failed" ++ [x0a]); Exits 0])
  | Redir c file mode fd =>
      if opens file mode then wired n m (<[Z.to_nat fd := Some (Opened file mode)]> fds) c
      else (n, m, [Says 2 (bytes "open " ++ file ++ bytes " failed" ++ [x0a]); Exits 1])
  | Pipe l r =>
      if forks m then
        let '(n1, m1, l1) := wired (S n) (S m) (<[1%nat := Some (PipeIn n)]> fds) l in
        if forks m1 then
          let '(n2, m2, l2) := wired n1 (S m1) (<[0%nat := Some (PipeOut n)]> fds) r in
          (n2, m2, l1 ++ l2 ++ [Waits fds; Waits fds; Exits 0])
        else (n1, S m1, l1 ++ no_fork)
      else (S n, S m, no_fork)
  | List l r =>
      if forks m then
        let '(n1, m1, l1) := wired n (S m) fds l in
        let '(n2, m2, l2) := wired n1 m1 fds r in
        (n2, m2, l1 ++ Waits fds :: l2)
      else (n, S m, no_fork)
  | Back c =>
      if forks m then let '(n1, m1, l1) := wired n (S m) fds c in (n1, m1, l1 ++ [Exits 0])
      else (n, S m, no_fork)
  end.

(** Exactly descriptors 0, 1 and 2 are open. *)
Definition standard (fds : fdtable) : Prop := ∃ a b c, fds = [Some a; Some b; Some c] ++ replicate 13 None.

Fixpoint redirs_std {A} (t : tree A) : Prop :=
  match t with
  | Exec _ => True
  | Redir c _ _ fd => redirs_std c ∧ (fd = 0 ∨ fd = 1)
  | Pipe l r | List l r => redirs_std l ∧ redirs_std r
  | Back c => redirs_std c
  end.

(** The files of a process that runs a program or waits. *)
Definition held_ok (e : event) : Prop := match e with Runs _ fds | Waits fds => standard fds | _ => True end.

Lemma no_fork_ok : Forall held_ok no_fork.
Proof. by repeat constructor. Qed.


End behaviour.

