(* ===== verification/Grep.v ===== *)
(** * Searching for patterns, [user/grep.c]

    The matcher works on C strings, here lists of bytes without NULs; [grep]
    works on a buffer that [read] fills piecemeal. *)

From S2P Require Import Prelude Fcntl Ulib.

Definition CARET : byte := x5e.
Definition DOT : byte := x2e.
Definition STAR : byte := x2a.
Definition DOLLAR : byte := x24.
Definition NEWLINE : byte := x0a.

(** ** The matcher *)

(** [matchstar(c, re, text)], given [matchhere(re, _)]. *)
Definition matchstar (here : list byte → bool) (c : byte) : list byte → bool :=
  fix matchstar text :=
    if here text then true
    else match text with
         | [] => false
         | x :: text => if bool_decide (x = c) || bool_decide (c = DOT) then matchstar text else false
         end.

Fixpoint matchhere (re text : list byte) : bool :=
  match re with
  | [] => true
  | c :: re1 =>
      match re1 with
      | x2a :: re2 => matchstar (matchhere re2) c text
      | _ =>
          if bool_decide (c = DOLLAR) && bool_decide (re1 = []) then bool_decide (text = [])
          else match text with
               | x :: text1 => if bool_decide (c = DOT) || bool_decide (c = x) then matchhere re1 text1 else false
               | [] => false
               end
      end
  end.

(** The loop of [match]. *)
Fixpoint match_loop (re text : list byte) : bool :=
  if matchhere re text then true
  else match text with
       | [] => false
       | _ :: text => match_loop re text
       end.

Definition match_ (re text : list byte) : bool :=
  match re with
  | x5e :: re => matchhere re text
  | _ => match_loop re text
  end.

(** ** The program *)

Definition sizeof_buf : Z := 1024.

Section grep.
Context {S : Type} `{!Sys S}.

(** The loop over the lines in the buffer from [p] on; what is left after the
    last newline.  [strchr] stops at a NUL. *)
Fixpoint grep_lines (fuel : nat) (pattern p : list byte) : M S (list byte) :=
  match fuel with
  | O => no_fuel
  | Datatypes.S fuel =>
      match strchr p NEWLINE with
      | None => mret p
      | Some k =>
          (if match_ pattern (take k p) then write 1 (take (k + 1) p);; mret () else mret ());;
          grep_lines fuel pattern (drop (k + 1) p)
      end
  end.

(** [buf] holds the [m] bytes of an unfinished line. *)
Fixpoint grep_loop (fuel : nat) (pattern : list byte) (fd : Z) (buf : list byte) : M S unit :=
  match fuel with
  | O => no_fuel
  | Datatypes.S fuel =>
      '(n, bs) ← read fd (sizeof_buf - Z.of_nat (length buf) - 1);
      if n >? 0 then
        let buf := buf ++ bs in
        rest ← grep_lines (Datatypes.S (length buf)) pattern buf;
        grep_loop fuel pattern fd rest
      else mret ()
  end.

(** [grep(pattern, fd)], for at most [fuel] reads. *)
Definition grep (fuel : nat) (pattern : list byte) (fd : Z) : M S unit := grep_loop fuel pattern fd [].

(** The files of the command line in turn; the exit status. *)
Fixpoint grep_files (fuel : nat) (pattern : list byte) (files : list (list byte)) : M S Z :=
  match files with
  | [] => mret 0
  | f :: files =>
      fd ← open f O_RDONLY;
      if fd <? 0 then write 1 (bytes "grep: cannot open " ++ f ++ [NEWLINE]);; mret 1
      else
        grep fuel pattern fd;;
        close fd;;
        grep_files fuel pattern files
  end.

Definition main (fuel : nat) (argv : list (list byte)) : M S Z :=
  match argv with
  | [] | [_] => write 2 (bytes "usage: grep pattern [file ...]" ++ [NEWLINE]);; mret 1
  | [_; pattern] => grep fuel pattern 0;; mret 0
  | _ :: pattern :: files => grep_files fuel pattern files
  end.

End grep.

(** ** What patterns mean *)

(** A pattern is a sequence of characters, [.] for any, each perhaps repeated,
    with an anchor at either end. *)
Inductive item := One (c : byte) | Many (c : byte).

Fixpoint items (re : list byte) : list item * bool :=
  match re with
  | [] => ([], false)
  | c :: re1 =>
      match re1 with
      | x2a :: re2 => let '(l, e) := items re2 in (Many c :: l, e)
      | _ =>
          if bool_decide (c = DOLLAR) && bool_decide (re1 = []) then ([], true)
          else let '(l, e) := items re1 in (One c :: l, e)
      end
  end.

Definition admits (c x : byte) : Prop := c = DOT ∨ c = x.

(** The strings of a sequence of items. *)
Inductive lang : list item → list byte → Prop :=
| lang_nil : lang [] []
| lang_one c x l m : admits c x → lang l m → lang (One c :: l) (x :: m)
| lang_many c xs l m : Forall (admits c) xs → lang l m → lang (Many c :: l) (xs ++ m).

(** [re] occurs in [text]. *)
Definition occurs (re text : list byte) : Prop :=
  let '(start, body) := match re with x5e :: re => (true, re) | _ => (false, re) end in
  let '(l, stop) := items body in
  ∃ a m b, text = a ++ m ++ b ∧ lang l m ∧ (start = true → a = []) ∧ (stop = true → b = []).

Definition here (re text : list byte) : Prop :=
  let '(l, stop) := items re in ∃ m b, text = m ++ b ∧ lang l m ∧ (stop = true → b = []).

Lemma matchstar_here (h : list byte → bool) c text : matchstar h c text = true ↔
  ∃ xs r, text = xs ++ r ∧ Forall (admits c) xs ∧ h r = true.
Proof.
  induction text as [|x text IH]; cbn [matchstar]; fold (matchstar h c).
  - destruct (h []) eqn:E; split; try done.
    + intros _. by exists [], [].
    + intros (xs & r & Hx & _ & Hr). destruct xs, r; simplify_eq. congruence.
  - destruct (h (x :: text)) eqn:E.
    + split; [|done]. intros _. by exists [], (x :: text).
    + destruct (bool_decide (x = c) || bool_decide (c = DOT)) eqn:Ex.
      * rewrite IH. split; intros (xs & r & Hx & Hf & Hr).
        -- exists (x :: xs), r. simpl. rewrite Hx. split_and!; [done| |done]. constructor; [|done].
           apply orb_true_iff in Ex as [Ex%bool_decide_eq_true|Ex%bool_decide_eq_true]; [by right|by left].
        -- destruct xs as [|y xs]; simpl in Hx; [subst r; congruence|]. injection Hx as <- ->. inversion Hf; subst. by exists xs, r.
      * split; [done|]. intros (xs & r & Hx & Hf & Hr). destruct xs as [|y xs]; simpl in Hx; [subst r; congruence|].
        injection Hx as <- ->. inversion Hf as [|? ? Ha]; subst. apply orb_false_iff in Ex as [E1%bool_decide_eq_false E2%bool_decide_eq_false].
        by destruct Ha.
Qed.

Lemma here_one (l : list item) (e : bool) c text : 
  (∃ m b, text = m ++ b ∧ lang (One c :: l) m ∧ (e = true → b = [])) ↔
  ∃ x text1, text = x :: text1 ∧ admits c x ∧ ∃ m b, text1 = m ++ b ∧ lang l m ∧ (e = true → b = []).
Proof.
  split.
  - intros (m & b & -> & Hl & He). inversion Hl; subst. simpl. eexists _, _. split; [done|]. split; [done|]. by eexists _, _.
  - intros (x & text1 & -> & Ha & m & b & -> & Hl & He). exists (x :: m), b. split; [done|]. split; [by constructor|done].
Qed.

Lemma here_many (l : list item) (e : bool) c text :
  (∃ m b, text = m ++ b ∧ lang (Many c :: l) m ∧ (e = true → b = [])) ↔
  ∃ xs r, text = xs ++ r ∧ Forall (admits c) xs ∧ ∃ m b, r = m ++ b ∧ lang l m ∧ (e = true → b = []).
Proof.
  split.
  - intros (m & b & -> & Hl & He). inversion Hl; subst. eexists _, _. rewrite <- app_assoc. split; [done|]. split; [done|]. by eexists _, _.
  - intros (xs & r & -> & Ha & m & b & -> & Hl & He). exists (xs ++ m), b. rewrite app_assoc. split; [done|]. split; [by constructor|done].
Qed.

(** The first item of a pattern: a repeated character, the anchor at the end,
    or a plain character. *)
Definition plain (c : byte) (re1 : list byte) : Prop := head re1 ≠ Some STAR ∧ ¬ (c = DOLLAR ∧ re1 = []).

Lemma re_cases c re1 : (∃ re2, re1 = STAR :: re2) ∨ (c = DOLLAR ∧ re1 = []) ∨ plain c re1.
Proof.
  destruct (decide (head re1 = Some STAR)) as [E|E].
  - left. destruct re1 as [|y re2]; [done|]. injection E as ->. by exists re2.
  - right. destruct (decide (c = DOLLAR ∧ re1 = [])) as [?|?]; [by left|by right].
Qed.

Lemma plain_eq {A} c re1 (f : list byte → A) (d1 d2 : A) : plain c re1 →
  match re1 with x2a :: re2 => f re2 | _ => if bool_decide (c = DOLLAR) && bool_decide (re1 = []) then d1 else d2 end = d2.
Proof.
  intros [Hs Hd]. assert (bool_decide (c = DOLLAR) && bool_decide (re1 = []) = false) as ->.
  { apply andb_false_iff. destruct (decide (c = DOLLAR)), (decide (re1 = [])); rewrite ?bool_decide_eq_false; naive_solver. }
  destruct re1 as [|y re2]; [done|]. by destruct y.
Qed.

Lemma matchhere_plain c re1 text : plain c re1 → matchhere (c :: re1) text =
  match text with x :: text1 => if bool_decide (c = DOT) || bool_decide (c = x) then matchhere re1 text1 else false | [] => false end.
Proof. intros Hp. cbn [matchhere]. by rewrite (plain_eq c re1 (λ re2, matchstar (matchhere re2) c text)). Qed.

Lemma items_plain c re1 : plain c re1 → items (c :: re1) = let '(l, e) := items re1 in (One c :: l, e).
Proof. intros Hp. cbn [items]. by rewrite (plain_eq c re1 (λ re2, let '(l, e) := items re2 in (Many c :: l, e))). Qed.

Lemma matchhere_here re text : matchhere re text = true ↔ here re text.
Proof.
  revert text. induction re as [re IH] using (well_founded_induction (well_founded_ltof _ length)); unfold ltof in IH.
  intros text. unfold here in *. destruct re as [|c re1]; [split; [intros _; exists [], text; by repeat constructor|done]|].
  destruct (re_cases c re1) as [[re2 ->]|[[-> ->]|Hp]].
  - change (matchhere (c :: STAR :: re2) text) with (matchstar (matchhere re2) c text).
    change (items (c :: STAR :: re2)) with (let '(l, e) := items re2 in (Many c :: l, e)).
    rewrite matchstar_here. specialize (IH re2 ltac:(simpl; lia)). destruct (items re2) as [l e]. rewrite here_many.
    by setoid_rewrite IH.
  - change (matchhere [DOLLAR] text) with (bool_decide (text = [])). rewrite bool_decide_eq_true. simpl. split.
    + intros ->. exists [], []. by repeat constructor.
    + intros (m & b & -> & Hl & ->); [|done]. by inversion Hl.
  - rewrite matchhere_plain, items_plain by done. specialize (IH re1 ltac:(simpl; lia)). destruct (items re1) as [l e].
    rewrite here_one. destruct text as [|x text1]; [split; [done|]; by intros (x & text1 & ? & _)|].
    destruct (bool_decide (c = DOT) || bool_decide (c = x)) eqn:Ea.
    + rewrite IH. split; [intros Hh; exists x, text1; split; [done|]; split; [|done]|].
      * by apply orb_true_iff in Ea as [?%bool_decide_eq_true|?%bool_decide_eq_true]; [left|right].
      * by intros (? & ? & [= <- <-] & _ & ?).
    + apply orb_false_iff in Ea as [E1%bool_decide_eq_false E2%bool_decide_eq_false].
      split; [done|]. by intros (? & ? & [= <- <-] & [?|?] & _).
Qed.

Lemma match_loop_here re text : match_loop re text = true ↔ ∃ a r, text = a ++ r ∧ matchhere re r = true.
Proof.
  induction text as [|x text IH]; cbn [match_loop].
  - destruct (matchhere re []) eqn:E; split; try done; [by exists [], []|].
    intros (a & r & Ha & Hr). destruct a, r; simplify_eq. congruence.
  - destruct (matchhere re (x :: text)) eqn:E; [split; [|done]; by exists [], (x :: text)|]. rewrite IH.
    split; intros (a & r & Ha & Hr).
    + exists (x :: a), r. by rewrite Ha.
    + destruct a as [|y a]; simpl in Ha; [subst r; congruence|]. injection Ha as <- ->. by exists a, r.
Qed.

Lemma match_occurs re text : match_ re text = true ↔ occurs re text.
Proof.
  assert (∀ re, (∃ a r, text = a ++ r ∧ here re r) ↔ let '(l, stop) := items re in
    ∃ a m b, text = a ++ m ++ b ∧ lang l m ∧ (false = true → a = []) ∧ (stop = true → b = [])) as Hfree.
  { intros re'. unfold here. destruct (items re') as [l e]. naive_solver. }
  assert (match_loop re text = true ↔ ∃ a r, text = a ++ r ∧ here re r) as Hloop.
  { rewrite match_loop_here. by setoid_rewrite matchhere_here. }
  unfold match_, occurs. destruct (decide (head re = Some CARET)) as [E|E].
  - destruct re as [|c re]; [done|]. injection E as ->. change (matchhere re text = true ↔ let '(l, stop) := items re in
      ∃ a m b, text = a ++ m ++ b ∧ lang l m ∧ (true = true → a = []) ∧ (stop = true → b = [])).
    rewrite matchhere_here. unfold here. destruct (items re) as [l e]. split.
    + intros (m & b & -> & Hl & He). by exists [], m, b.
    + intros (a & m & b & -> & Hl & Ha & He). rewrite Ha by done. by exists m, b.
  - assert (∀ A (f : list byte → A) (d : A), match re with x5e :: re' => f re' | _ => d end = d) as Hd.
    { intros A f d. destruct re as [|y re2]; [done|]. destruct y; try done. }
    rewrite !Hd, Hloop. apply Hfree.
Qed.

#[global] Instance occurs_dec re text : Decision (occurs re text).
Proof.
  refine (match match_ re text as b return match_ re text = b → Decision (occurs re text) with
          | true => λ E, left (proj1 (match_occurs re text) E)
          | false => λ E, right (λ H, _)
          end eq_refl).
  apply match_occurs in H. congruence.
Defined.

(** ** What the program prints *)

(** The lines of a text, without their newlines, and what comes after the last
    newline. *)
Fixpoint lines (d : list byte) : list (list byte) * list byte :=
  match d with
  | [] => ([], [])
  | c :: d =>
      let '(ls, r) := lines d in
      if decide (c = NEWLINE) then ([] :: ls, r)
      else match ls with [] => ([], c :: r) | l :: ls => ((c :: l) :: ls, r) end
  end.

Definition print_lines (ls : list (list byte)) : list byte := concat ((λ l, l ++ [NEWLINE]) <$> ls).

Lemma lines_none p : NEWLINE ∉ p → lines p = ([], p).
Proof.
  induction p as [|c p IH]; intros Hp; simpl; [done|]. apply not_elem_of_cons in Hp as [Hc Hp]. rewrite IH by done.
  by rewrite decide_False.
Qed.

Lemma lines_cons l d : NEWLINE ∉ l → lines (l ++ NEWLINE :: d) = (l :: (lines d).1, (lines d).2).
Proof.
  induction l as [|c l IH]; intros Hl; simpl.
  - by destruct (lines d).
  - apply not_elem_of_cons in Hl as [Hc Hl]. rewrite IH by done. by rewrite decide_False.
Qed.

Lemma lines_rest d : NEWLINE ∉ (lines d).2.
Proof.
  induction d as [|c d IH]; simpl; [apply not_elem_of_nil|]. destruct (lines d) as [ls r]. simpl in IH.
  case_decide; [done|]. destruct ls; simpl; [|done]. apply not_elem_of_cons. by split.
Qed.

Lemma lines_app p d : lines (p ++ d) = ((lines p).1 ++ (lines ((lines p).2 ++ d)).1, (lines ((lines p).2 ++ d)).2).
Proof.
  induction p as [|c p IH]; simpl; [by destruct (lines d)|]. rewrite IH. destruct (lines p) as [ls r]. simpl.
  case_decide as Hc; simpl; [done|]. destruct ls as [|l ls]; simpl; [|done].
  destruct (lines (r ++ d)) as [ls' r']. rewrite decide_False by done. by destruct ls'.
Qed.

Lemma rest_sub c p : c ∈ (lines p).2 → c ∈ p.
Proof.
  induction p as [|x p IH]; simpl; [done|]. destruct (lines p) as [ls r]. simpl in IH.
  case_decide; simpl; [set_solver|]. destruct ls; simpl; set_solver.
Qed.

Section output.
Context {S : Type} `{!Sys S, !SysLaws S}.

Lemma grep_lines_wp fuel pattern p s : (length p < fuel)%nat → x00 ∉ p →
  wp (grep_lines fuel pattern p) s (λ rest s', rest = (lines p).2 ∧
    output s' = output s ++ print_lines (filter (occurs pattern) (lines p).1) ∧
    ∀ fd d, input s fd = Some d → input s' fd = Some d).
Proof.
  revert p s. induction fuel as [|fuel IH]; intros p s Hf Hp; [lia|]. cbn [grep_lines].
  pose proof (strchr_spec p NEWLINE Hp) as Hs. destruct (strchr p NEWLINE) as [k|].
  - destruct Hs as (l & r & -> & <- & Hl). rewrite lines_cons by done. cbn [fst snd].
    rewrite take_app_length. replace (take (length l + 1) (l ++ NEWLINE :: r)) with (l ++ [NEWLINE])
      by (rewrite take_app; rewrite take_ge by lia; f_equal; by replace (length l + 1 - length l)%nat with 1%nat by lia).
    replace (drop (length l + 1) (l ++ NEWLINE :: r)) with r
      by (rewrite drop_app; rewrite drop_ge by lia; by replace (length l + 1 - length l)%nat with 1%nat by lia).
    rewrite length_app in Hf. simpl in Hf. assert (x00 ∉ r) as Hr by set_solver.
    destruct (match_ pattern l) eqn:Em.
    + apply match_occurs in Em. wp_step. wp_step. destruct (write_output s (l ++ [NEWLINE])) as (s1 & E1 & Ho1 & Hi1).
      eapply wp_Ok; [exact E1|]. wp_step. eapply wp_mono; [apply IH; [lia|done]|]. intros rest s' (-> & Ho & Hi).
      split; [done|]. split; [|auto]. rewrite filter_cons_True by done. rewrite Ho, Ho1. unfold print_lines. rewrite fmap_cons. simpl.
      by rewrite <- !app_assoc.
    + wp_step. wp_step. eapply wp_mono; [apply IH; [lia|done]|]. intros rest s' (-> & Ho & Hi). split; [done|]. split; [|done].
      rewrite filter_cons_False; [done|]. intros Hoc%match_occurs. congruence.
  - wp_step. rewrite lines_none by done. split; [done|]. split; [|done]. unfold print_lines. simpl. by rewrite app_nil_r.
Qed.

(** No line overflows the buffer. *)
Definition fits (d : list byte) : Prop := Forall (λ l, (length l ≤ 1022)%nat) ((lines d).2 :: (lines d).1).

Lemma lines_prefix buf d : NEWLINE ∉ buf →
  lines (buf ++ d) = match lines d with ([], r) => ([], buf ++ r) | (l :: ls, r) => ((buf ++ l) :: ls, r) end.
Proof.
  induction buf as [|c buf IH]; intros Hb; simpl; [by destruct (lines d) as [[] r]|].
  apply not_elem_of_cons in Hb as [Hc Hb]. rewrite IH by done. destruct (lines d) as [[|l ls] r]; by rewrite decide_False.
Qed.

Lemma fits_first buf d : NEWLINE ∉ buf → fits (buf ++ d) → (length buf ≤ 1022)%nat.
Proof.
  intros Hb. unfold fits. rewrite lines_prefix by done. destruct (lines d) as [[|l ls] r]; simpl; intros Hf.
  - apply Forall_inv in Hf. rewrite length_app in Hf. lia.
  - apply Forall_inv_tail, Forall_inv in Hf. rewrite length_app in Hf. lia.
Qed.

Lemma grep_loop_wp fuel pattern fd buf d s : (length d < fuel)%nat → input s fd = Some d → x00 ∉ buf ++ d →
  NEWLINE ∉ buf → fits (buf ++ d) →
  wp (grep_loop fuel pattern fd buf) s (λ _ s', output s' = output s ++ print_lines (filter (occurs pattern) (lines (buf ++ d)).1)).
Proof.
  revert buf d s. induction fuel as [|fuel IH]; intros buf d s Hf Hd H0 Hb Hfit; [lia|]. cbn [grep_loop].
  pose proof (fits_first _ _ Hb Hfit) as Hlen.
  destruct (read_input s fd (sizeof_buf - Z.of_nat (length buf) - 1) d Hd ltac:(unfold sizeof_buf; lia))
    as (k & s1 & E & Hk & _ & Hk0 & Hd1 & Ho1).
  wp_step. eapply wp_Ok; [exact E|]. cbv beta iota zeta. destruct (Z.gtb_spec (Z.of_nat k) 0) as [Hpos|Hpos].
  - wp_step. eapply wp_mono; [apply grep_lines_wp; [lia|]|].
    { intros Hin. apply H0. apply elem_of_app in Hin as [Hin|Hin]; apply elem_of_app; [by left|right].
      by eapply elem_of_take in Hin as (? & ? & _); eapply list_elem_of_lookup_2. }
    intros rest s2 (-> & Ho2 & Hi2).
    assert (buf ++ d = (buf ++ take k d) ++ drop k d) as Ed by by rewrite <- app_assoc, take_drop.
    rewrite Ed in Hfit, H0. pose proof (lines_app (buf ++ take k d) (drop k d)) as Hla.
    eapply wp_mono; [apply (IH _ (drop k d))|].
    + rewrite length_drop. lia.
    + by apply Hi2.
    + intros Hin. apply H0. apply elem_of_app in Hin as [Hin|Hin]; apply elem_of_app; [left|by right]. by apply rest_sub.
    + apply lines_rest.
    + unfold fits in *. rewrite Hla in Hfit. simpl in Hfit. inversion Hfit as [|? ? H1 H2]; subst. constructor; [done|].
      by apply Forall_app in H2 as [_ ?].
    + intros [] s' Ho. rewrite Ho, Ho2, Ho1, Ed, Hla. cbn [fst]. rewrite list.filter_app. unfold print_lines.
      by rewrite fmap_app, concat_app, <- app_assoc.
  - assert (d = []) as ->. { destruct d; [done|]. specialize (Hk0 ltac:(done)). lia. }
    wp_step. rewrite app_nil_r, lines_none by done. unfold print_lines. simpl. by rewrite app_nil_r.
Qed.

(** C28: [grep] prints exactly the lines of its input in which the pattern
    occurs, in order and whole, however the input is cut into reads: for an
    input without NULs whose lines fit the buffer it reads to the end of the
    input and adds to the output those lines, with their newlines.  That a
    pattern occurs is meant declaratively: the line splits into three parts,
    the middle one a string of the pattern's characters, [.]s and repetitions, with
    nothing before it or after it where the pattern is anchored. *)
Theorem grep_correct fuel pattern fd d s : input s fd = Some d → x00 ∉ d → fits d → (length d < fuel)%nat →
  wp (grep fuel pattern fd) s (λ _ s', output s' = output s ++ print_lines (filter (occurs pattern) (lines d).1)).
Proof. intros Hd H0 Hfit Hf. apply (grep_loop_wp fuel pattern fd [] d s Hf Hd H0 (not_elem_of_nil _) Hfit). Qed.

End output.

(** [h.*o$] in the lines [hello], [hey] and [no]. *)
Lemma grep_correct_witness :
  wp (grep 20 (bytes "h.*o$") 0) (mk_demo_io (bytes "hello" ++ NEWLINE :: bytes "hey" ++ NEWLINE :: bytes "no" ++ [NEWLINE]) [])
    (λ _ s', demo_out s' = bytes "hello" ++ [NEWLINE]).
Proof.
  eapply wp_mono; [apply (grep_correct 20 (bytes "h.*o$") 0 (bytes "hello" ++ NEWLINE :: bytes "hey" ++ NEWLINE :: bytes "no" ++ [NEWLINE]));
    [reflexivity|apply (bool_decide_unpack (_ ∉ _)); vm_compute; exact I|apply (bool_decide_unpack (Forall _ _)); vm_compute; exact I|simpl; lia]|].
  intros [] s' Ho. change (demo_out s') with (output s'). rewrite Ho. vm_compute. reflexivity.
Defined.
