(* ===== verification/Programs.v ===== *)
(** * The small programs: cat, echo, kill, ln, mkdir, rm, wc, ls, init, zombie

    Each [main] gives the exit status.  A function that may exit in the middle
    gives [Some] status then, and [None] when it returns.  A loop over an input
    has as fuel the number of reads it may make. *)

From S2P Require Import Prelude Fcntl Format Fs Ulib Uprintf.

Definition NL : byte := x0a.
Definition SLASH : byte := x2f.
Definition SPACE : byte := x20.

(** [for(i = 1; i < argc; i++)] over the arguments, until an exit. *)
Fixpoint each {S} (f : list byte → M S (option Z)) (args : list (list byte)) : M S Z :=
  match args with
  | [] => mret 0
  | a :: args =>
      r ← f a;
      match r with Some status => mret status | None => each f args end
  end.

(** ** cat.c *)

Module Cat.
Section cat.
Context {S : Type} `{!Sys S}.

Definition sizeof_buf : Z := 512.

Fixpoint cat (fuel : nat) (fd : Z) : M S (option Z) :=
  match fuel with
  | O => no_fuel
  | Datatypes.S fuel =>
      '(n, buf) ← read fd sizeof_buf;
      if n >? 0 then
        w ← write 1 buf;
        if negb (w =? n) then fprintf 2 (bytes "cat: write error" ++ [NL]) [];; mret (Some 1)
        else cat fuel fd
      else if n <? 0 then fprintf 2 (bytes "cat: read error" ++ [NL]) [];; mret (Some 1)
      else mret None
  end.

Definition cat_file (fuel : nat) (a : list byte) : M S (option Z) :=
  fd ← open a O_RDONLY;
  if fd <? 0 then fprintf 2 (bytes "cat: cannot open %s" ++ [NL]) [AStr (Some a)];; mret (Some 1)
  else
    r ← cat fuel fd;
    match r with
    | Some status => mret (Some status)
    | None => close fd;; mret None
    end.

Definition main (fuel : nat) (argv : list (list byte)) : M S Z :=
  match argv with
  | [] | [_] => r ← cat fuel 0; mret (default 0 r)
  | _ :: args => each (cat_file fuel) args
  end.

End cat.
End Cat.

(** ** echo.c *)

Module Echo.
Section echo.
Context {S : Type} `{!Sys S}.

Fixpoint echo_loop (args : list (list byte)) : M S unit :=
  match args with
  | [] => mret ()
  | a :: args =>
      write 1 (str a);;
      (match args with [] => write 1 [NL] | _ => write 1 [SPACE] end);;
      echo_loop args
  end.
Definition main (argv : list (list byte)) : M S Z := echo_loop (tl argv);; mret 0.

End echo.
End Echo.

(** ** kill.c, ln.c, mkdir.c, rm.c *)

Module Commands.
Section commands.
Context {S : Type} `{!Sys S}.

Definition kill_main (argv : list (list byte)) : M S Z :=
  if (length argv <? 2)%nat then fprintf 2 (bytes "usage: kill pid..." ++ [NL]) [];; mret 1
  else each (λ a, kill (atoi a);; mret None) (tl argv).

Definition ln_main (argv : list (list byte)) : M S Z :=
  match argv with
  | [_; old; new] =>
      r ← link old new;
      (if r <? 0 then fprintf 2 (bytes "link %s %s: failed" ++ [NL]) [AStr (Some old); AStr (Some new)]
       else mret ());;
      mret 0
  | _ => fprintf 2 (bytes "Usage: ln old new" ++ [NL]) [];; mret 1
  end.

Definition mkdir_main (argv : list (list byte)) : M S Z :=
  if (length argv <? 2)%nat then fprintf 2 (bytes "Usage: mkdir files..." ++ [NL]) [];; mret 1
  else
    each (λ a,
      r ← mkdir a;
      if r <? 0 then fprintf 2 (bytes "mkdir: %s failed to create" ++ [NL]) [AStr (Some a)];; mret (Some 0)
      else mret None) (tl argv).

Definition rm_main (argv : list (list byte)) : M S Z :=
  if (length argv <? 2)%nat then fprintf 2 (bytes "Usage: rm files..." ++ [NL]) [];; mret 1
  else
    each (λ a,
      r ← unlink a;
      if r <? 0 then fprintf 2 (bytes "rm: %s failed to delete" ++ [NL]) [AStr (Some a)];; mret (Some 0)
      else mret None) (tl argv).

End commands.
End Commands.

(** ** wc.c *)

Module Wc.

Definition sizeof_buf : Z := 512.
Definition separators : list byte := [x20; x0d; x09; x0a; x0b].

(** The counters [l], [w], [c] and [inword]. *)
Record counts := mk_counts { n_lines : Z; n_words : Z; n_chars : Z; inword : bool }.

Definition count1 (x : byte) (k : counts) : counts :=
  let l := if decide (x = NL) then i32 (n_lines k + 1) else n_lines k in
  let c := i32 (n_chars k + 1) in
  match strchr separators x with
  | Some _ => mk_counts l (n_words k) c false
  | None => if inword k then mk_counts l (n_words k) c true else mk_counts l (i32 (n_words k + 1)) c true
  end.
Definition count_buf (buf : list byte) (k : counts) : counts := foldl (λ k x, count1 x k) k buf.

Section wc.
Context {S : Type} `{!Sys S}.

Fixpoint wc_loop (fuel : nat) (fd : Z) (k : counts) : M S (Z * counts) :=
  match fuel with
  | O => no_fuel
  | Datatypes.S fuel =>
      '(n, buf) ← read fd sizeof_buf;
      if n >? 0 then wc_loop fuel fd (count_buf buf k) else mret (n, k)
  end.

Definition wc (fuel : nat) (fd : Z) (name : list byte) : M S (option Z) :=
  '(n, k) ← wc_loop fuel fd (mk_counts 0 0 0 false);
  if n <? 0 then printf (bytes "wc: read error" ++ [NL]) [];; mret (Some 1)
  else
    printf (bytes "%d %d %d %s" ++ [NL]) [AInt (n_lines k); AInt (n_words k); AInt (n_chars k); AStr (Some name)];;
    mret None.

Definition wc_file (fuel : nat) (a : list byte) : M S (option Z) :=
  fd ← open a O_RDONLY;
  if fd <? 0 then printf (bytes "wc: cannot open %s" ++ [NL]) [AStr (Some a)];; mret (Some 1)
  else
    r ← wc fuel fd a;
    match r with
    | Some status => mret (Some status)
    | None => close fd;; mret None
    end.

Definition main (fuel : nat) (argv : list (list byte)) : M S Z :=
  match argv with
  | [] | [_] => r ← wc fuel 0 []; mret (default 0 r)
  | _ :: args => each (wc_file fuel) args
  end.

End wc.
End Wc.

(** ** ls.c *)

Module Ls.

(** The first character after the last slash, and what follows. *)
Fixpoint after_slash (path acc : list byte) : list byte :=
  match path with
  | [] => acc
  | c :: path => if decide (c = SLASH) then after_slash path path else after_slash path acc
  end.

Definition fmtname (path : list byte) : list byte :=
  let p := after_slash (str path) (str path) in
  if strlen p >=? DIRSIZ then p
  else p ++ replicate (Z.to_nat (DIRSIZ - strlen p)) SPACE.

Definition sizeof_buf : Z := 512.
Definition sizeof_dirent : Z := 16.

Section ls.
Context {S : Type} `{!Sys S}.

(** The entries of an open directory, the names under [path] and a slash. *)
Fixpoint ls_entries (fuel : nat) (fd : Z) (path : list byte) : M S unit :=
  match fuel with
  | O => no_fuel
  | Datatypes.S fuel =>
      '(n, de) ← read fd sizeof_dirent;
      if n =? sizeof_dirent then
        (if le_decode (take 2 de) =? 0 then mret ()
         else
           let buf := str path ++ [SLASH] ++ str (take (Z.to_nat DIRSIZ) (drop 2 de)) in
           '(r, st) ← stat buf;
           if r <? 0 then printf (bytes "ls: cannot stat %s" ++ [NL]) [AStr (Some buf)]
           else printf (bytes "%s %d %d %d" ++ [NL])
                  [AStr (Some (fmtname buf)); AInt (us_type st); AInt (us_ino st); AInt (us_size st)]);;
        ls_entries fuel fd path
      else mret ()
  end.

Definition ls (fuel : nat) (path : list byte) : M S unit :=
  fd ← open path O_RDONLY;
  if fd <? 0 then fprintf 2 (bytes "ls: cannot open %s" ++ [NL]) [AStr (Some path)]
  else
    '(r, st) ← fstat fd;
    if r <? 0 then
      fprintf 2 (bytes "ls: cannot stat %s" ++ [NL]) [AStr (Some path)];;
      close fd;; mret ()
    else
      (if (us_type st =? T_DEVICE) || (us_type st =? T_FILE) then
         printf (bytes "%s %d %d %l" ++ [NL])
           [AStr (Some (fmtname path)); AInt (us_type st); AInt (us_ino st); AInt (us_size st)]
       else if us_type st =? T_DIR then
         if strlen path + 1 + DIRSIZ + 1 >? sizeof_buf then printf (bytes "ls: path too long" ++ [NL]) []
         else ls_entries fuel fd path
       else mret ());;
      close fd;; mret ().

Definition main (fuel : nat) (argv : list (list byte)) : M S Z :=
  if (length argv <? 2)%nat then ls fuel (bytes ".");; mret 0
  else each (λ a, ls fuel a;; mret None) (tl argv).

End ls.
End Ls.

(** ** init.c and zombie.c *)

(** The calls that make and await processes, as the calling process sees them;
    an [exec] that succeeds does not come back. *)
Class ProcSys (S : Type) := {
  fork : M S Z;
  exec : list byte → list (list byte) → M S (option Z);
  wait : M S Z;
  mknod : list byte → Z → Z → M S Z;
  dup : Z → M S Z;
  sleep : Z → M S Z;
}.

Module Init.
Definition CONSOLE : Z := 1.

Section init.
Context {S : Type} `{!Sys S, !ProcSys S}.

(** The inner loop: [None] when the shell [pid] exited. *)
Fixpoint reap (fuel : nat) (pid : Z) : M S (option Z) :=
  match fuel with
  | O => no_fuel
  | Datatypes.S fuel =>
      wpid ← wait;
      if wpid =? pid then mret None
      else if wpid <? 0 then printf (bytes "init: wait returned an error" ++ [NL]) [];; mret (Some 1)
      else reap fuel pid
  end.

(** One turn of the outer loop; [Some None] is the child that became the shell. *)
Definition start_sh (fuel : nat) : M S (option (option Z)) :=
  printf (bytes "init: starting sh" ++ [NL]) [];;
  pid ← fork;
  if pid <? 0 then printf (bytes "init: fork failed" ++ [NL]) [];; mret (Some (Some 1))
  else if pid =? 0 then
    r ← exec (bytes "sh") [bytes "sh"];
    match r with
    | None => mret (Some None)
    | Some _ => printf (bytes "init: exec sh failed" ++ [NL]) [];; mret (Some (Some 1))
    end
  else
    r ← reap fuel pid;
    mret (match r with None => None | Some status => Some (Some status) end).

Fixpoint restart (n fuel : nat) : M S (option Z) :=
  match n with
  | O => no_fuel
  | Datatypes.S n =>
      r ← start_sh fuel;
      match r with None => restart n fuel | Some e => mret e end
  end.

Definition open_console : M S unit :=
  fd ← open (bytes "console") O_RDWR;
  (if fd <? 0 then mknod (bytes "console") CONSOLE 0;; open (bytes "console") O_RDWR;; mret () else mret ());;
  dup 0;; dup 0;; mret ().

(** [main], for at most [n] shells that each outlive fewer than [fuel]
    processes left to [init]. *)
Definition main (n fuel : nat) : M S (option Z) := open_console;; restart n fuel.

End init.
End Init.

Module Zombie.
Section zombie.
Context {S : Type} `{!Sys S, !ProcSys S}.

Definition main : M S Z :=
  pid ← fork;
  (if pid >? 0 then sleep 5;; mret () else mret ());;
  mret 0.

End zombie.
End Zombie.
