(* ===== verification/ProgramsSpec.v ===== *)
(** * What the small programs print

    [cat] copies its input and [wc] counts it, however the kernel cuts the
    input into reads; [echo] prints its arguments. *)

From S2P Require Import Prelude Format Ulib Uprintf Programs.

Section output.
Context {S : Type} `{!Sys S, !SysLaws S}.
Implicit Types s : S.

(** A read of a stream: some of what is left, and nothing only at the end. *)
Lemma read_wp s fd n d Q :
  input s fd = Some d → 0 < n →
  (∀ k s', (k ≤ length d)%nat → (d ≠ [] → (0 < k)%nat) → input s' fd = Some (drop k d) →
           output s' = output s → Q (Z.of_nat k, take k d) s') →
  wp (read fd n) s Q.
Proof using All.
  intros Hd Hn HQ. destruct (read_input s fd n d Hd Hn) as (k & s' & E & Hk & _ & H0 & Hi & Ho).
  eapply wp_Ok; [exact E|]. apply HQ; [done| |done|done]. intros Hne. specialize (H0 Hne). lia.
Qed.

(** ** cat *)

Lemma cat_wp fuel fd d s :
  input s fd = Some d → (length d < fuel)%nat →
  wp (Cat.cat fuel fd) s (λ r s', r = None ∧ output s' = output s ++ d ∧ input s' fd = Some []).
Proof using All.
  revert d s. induction fuel as [|fuel IH]; intros d s Hd Hf; [lia|]. cbn [Cat.cat].
  wp_step. eapply read_wp; [exact Hd|done|]. intros k s1 Hk H0 Hi Ho. cbv beta iota zeta.
  destruct (Z.gtb_spec (Z.of_nat k) 0) as [Hpos|Hpos].
  - wp_step. apply write_wp. intros s2 [Ho2 Hi2]. rewrite length_take, Nat.min_l, Z.eqb_refl by done. simpl.
    eapply wp_mono; [apply (IH (drop k d)); [by apply Hi2|rewrite length_drop; lia]|].
    intros r s' (-> & Ho' & Hi'). split_and!; [done| |done].
    by rewrite Ho', Ho2, Ho, <- app_assoc, take_drop.
  - assert (d = []) as -> by (destruct d; [done|]; specialize (H0 ltac:(done)); lia).
    rewrite (proj2 (Z.ltb_ge _ _)) by lia. wp_step. rewrite app_nil_r, Ho, Hi. by destruct k.
Qed.

(** [cat] copies a stream: for any input, cut into reads in any way, it
    reads to the end and writes all of it to standard output, byte for byte, and
    [main] without arguments exits with status 0. *)
Theorem cat_correct fuel d s name :
  input s 0 = Some d → (length d < fuel)%nat →
  wp (Cat.main fuel [name]) s (λ status s',
    status = 0 ∧ output s' = output s ++ d ∧ input s' 0 = Some []).
Proof using All.
  intros Hd Hf. unfold Cat.main. wp_step. eapply wp_mono; [by apply (cat_wp fuel 0 d)|].
  intros r s' (-> & Ho & Hi). by wp_step.
Qed.

(** ** wc *)

(** The pieces of a text between separators; its words are those that are not empty. *)
Fixpoint fields (d : list byte) : list (list byte) :=
  match d with
  | [] => [[]]
  | x :: d =>
      if decide (x ∈ Wc.separators) then [] :: fields d
      else match fields d with
           | f :: fs => (x :: f) :: fs
           | [] => [[x]]
           end
  end.
Definition nonempty (f : list byte) : Prop := f ≠ [].
#[local] Instance nonempty_dec f : Decision (nonempty f).
Proof. unfold nonempty. apply _. Defined.
Definition words (d : list byte) : list (list byte) := filter nonempty (fields d).
Definition newlines (d : list byte) : list byte := filter (.= NL) d.

Lemma strchr_separators x : is_Some (strchr Wc.separators x) ↔ x ∈ Wc.separators.
Proof.
  assert (x00 ∉ Wc.separators) as H0 by (apply (bool_decide_unpack _); vm_compute; exact I).
  pose proof (strchr_spec Wc.separators x H0) as H. destruct (strchr Wc.separators x) as [k|].
  - destruct H as (l & r & -> & _). split; [|by eauto]. intros _. set_solver.
  - split; [by intros []|done].
Qed.

(** The count from the state [k], where a first word may go on an open one. *)
Definition counted (k : Wc.counts) (d : list byte) : Z * Z * Z :=
  (Wc.n_lines k + Z.of_nat (length (newlines d)),
   Wc.n_words k + Z.of_nat (length (filter nonempty (if Wc.inword k then tl (fields d) else fields d))),
   Wc.n_chars k + Z.of_nat (length d)).

Lemma fields_cons d : ∃ f fs, fields d = f :: fs.
Proof. destruct d as [|x d]; simpl; [by eauto|]. case_decide; [by eauto|]. destruct (fields d); by eauto. Qed.

Record small (n : Z) (k : Wc.counts) : Prop := {
  sm_lines : 0 ≤ Wc.n_lines k ≤ n;
  sm_words : 0 ≤ Wc.n_words k ≤ n;
  sm_chars : 0 ≤ Wc.n_chars k ≤ n;
}.

Lemma count1_small n x k : small n k → n + 1 < 2 ^ 31 → small (n + 1) (Wc.count1 x k).
Proof.
  intros [H1 H2 H3] Hn. unfold Wc.count1. rewrite !i32_small by lia.
  destruct (strchr Wc.separators x), (Wc.inword k); split; simpl; try case_decide; lia.
Qed.

Lemma triple_eq (a b c a' b' c' : Z) : a = a' → b = b' → c = c' → (a, b, c) = (a', b', c').
Proof. congruence. Qed.

Lemma count1_counted n x k d :
  small n k → n + 1 < 2 ^ 31 → counted (Wc.count1 x k) d = counted k (x :: d).
Proof.
  intros [H1 H2 H3] Hn. destruct (fields_cons d) as (f & fs & Ef).
  unfold counted, Wc.count1, newlines. cbn [fields length filter]. rewrite !i32_small by lia.
  pose proof (strchr_separators x) as Hs.
  assert (Z.of_nat (length (filter (.= NL) (x :: d))) =
          (if decide (x = NL) then 1 else 0) + Z.of_nat (length (filter (.= NL) d))) as ->.
  { rewrite filter_cons. case_decide; simpl; lia. }
  destruct (strchr Wc.separators x) as [j|].
  - rewrite (decide_True (P := x ∈ _)) by (apply Hs; by eauto).
    destruct (Wc.inword k); cbn [Wc.n_lines Wc.n_words Wc.n_chars Wc.inword tl];
      rewrite ?filter_cons_False by (unfold nonempty; auto); apply triple_eq; repeat case_decide; lia.
  - rewrite (decide_False (P := x ∈ _)) by (intros Hx%Hs; by destruct Hx). rewrite Ef.
    destruct (Wc.inword k); cbn [Wc.n_lines Wc.n_words Wc.n_chars Wc.inword tl];
      rewrite ?filter_cons_True by done; cbn [length]; apply triple_eq; repeat case_decide; lia.
Qed.

Lemma count_buf_counted n buf k d :
  small n k → n + Z.of_nat (length buf) < 2 ^ 31 →
  counted (Wc.count_buf buf k) d = counted k (buf ++ d) ∧ small (n + Z.of_nat (length buf)) (Wc.count_buf buf k).
Proof.
  revert n k. induction buf as [|x buf IH]; intros n k Hk Hn.
  - simpl. rewrite Z.add_0_r. done.
  - cbn [length] in *. unfold Wc.count_buf in *. cbn [foldl app].
    destruct (IH (n + 1) (Wc.count1 x k)) as [-> Hs]; [apply count1_small; [done|lia]|lia|].
    split; [apply (count1_counted n); [done|lia]|]. by replace (n + Z.of_nat (Datatypes.S (length buf))) with (n + 1 + Z.of_nat (length buf)) by lia.
Qed.

Lemma wc_loop_wp fuel fd d s n k :
  input s fd = Some d → (length d < fuel)%nat → small n k → n + Z.of_nat (length d) < 2 ^ 31 →
  wp (Wc.wc_loop fuel fd k) s (λ r s', r.1 = 0 ∧ counted r.2 [] = counted k d ∧
    small (n + Z.of_nat (length d)) r.2 ∧ output s' = output s ∧ input s' fd = Some []).
Proof using All.
  revert d s n k. induction fuel as [|fuel IH]; intros d s n k Hd Hf Hk Hn; [lia|]. cbn [Wc.wc_loop].
  wp_step. eapply read_wp; [exact Hd|done|]. intros j s1 Hj H0 Hi Ho. cbv beta iota zeta.
  destruct (Z.gtb_spec (Z.of_nat j) 0) as [Hpos|Hpos].
  - destruct (count_buf_counted n (take j d) k (drop j d) Hk) as [Hc Hs]; [rewrite length_take; lia|].
    rewrite length_take, Nat.min_l in Hs by done. rewrite take_drop in Hc.
    eapply wp_mono; [apply (IH (drop j d) s1 (n + Z.of_nat j)); [done|..]; rewrite ?length_drop; first [lia|done]|].
    intros r s' (H1 & H2 & H3 & H4 & H5). rewrite length_drop in H3.
    replace (n + Z.of_nat j + Z.of_nat (length d - j)) with (n + Z.of_nat (length d)) in H3 by lia.
    split_and!; [done|by rewrite H2|done|by rewrite H4|done].
  - assert (d = []) as -> by (destruct d; [done|]; specialize (H0 ltac:(done)); lia).
    wp_step. cbn [fst snd length]. rewrite Z.add_0_r. split_and!; [lia|done|done|done|rewrite Hi; by destruct j].
Qed.

(** [wc] counts.  For an input of less than 2{^31} bytes, cut into reads in
    any way, it reads to the end and prints one line: the number of newlines, the
    number of words, which are the non-empty pieces between separators, the
    number of bytes, and the name it was given.  The three numbers are in
    decimal, and read back as the counts. *)
Theorem wc_correct fuel fd d name s :
  input s fd = Some d → (length d < fuel)%nat → Z.of_nat (length d) < 2 ^ 31 →
  wp (Wc.wc fuel fd name) s (λ r s', r = None ∧ input s' fd = Some [] ∧ ∃ tl tw tc,
    output s' = output s ++ tl ++ SPACE :: tw ++ SPACE :: tc ++ SPACE :: str name ++ [NL] ∧
    read_int digits 10 tl = Some (Z.of_nat (length (newlines d))) ∧
    read_int digits 10 tw = Some (Z.of_nat (length (words d))) ∧
    read_int digits 10 tc = Some (Z.of_nat (length d))).
Proof using All.
  intros Hd Hf Hn. unfold Wc.wc. wp_step.
  eapply wp_mono; [apply (wc_loop_wp fuel fd d s 0); [done|done|split; simpl; lia|lia]|].
  intros [n k] s1 (Hz & Hc & [Hl Hw Hch] & Ho & Hi). cbn [fst snd] in *. subst n.
  unfold counted in Hc. cbn [Wc.inword Wc.n_lines Wc.n_words Wc.n_chars fields length newlines filter] in Hc.
  replace (length (filter nonempty (if Wc.inword k then tl [[]] else [[]]))) with 0%nat in Hc by (by destruct (Wc.inword k)).
  injection Hc as E1 E2 E3. rewrite !Z.add_0_r, !Z.add_0_l in *.
  assert (digits_ok digits) as Hds by (apply (bool_decide_unpack (digits_ok digits)); vm_compute; exact I).
  destruct (printint_chars_value digits 10 true (Wc.n_lines k)) as (tl & Etl & _ & Rtl & _); [done|by left|lia|].
  destruct (printint_chars_value digits 10 true (Wc.n_words k)) as (tw & Etw & _ & Rtw & _); [done|by left|lia|].
  destruct (printint_chars_value digits 10 true (Wc.n_chars k)) as (tc & Etc & _ & Rtc & _); [done|by left|lia|].
  rewrite (proj2 (Z.ltb_ge _ _)) by lia. wp_step. unfold printf, vprintf.
  eapply vprintf_wp.
  - rewrite <- (i32_small (Wc.n_lines k)) in Etl by lia. rewrite <- (i32_small (Wc.n_words k)) in Etw by lia.
    rewrite <- (i32_small (Wc.n_chars k)) in Etc by lia.
    change (bytes "%d %d %d %s" ++ [NL]) with
      [x25; x64; SPACE; x25; x64; SPACE; x25; x64; SPACE; x25; x73; NL].
    rewrite (format_int _ _ _ _ Etl), format_char, (format_int _ _ _ _ Etw), format_char by done.
    rewrite (format_int _ _ _ _ Etc), format_char, format_str, format_char by done. reflexivity.
  - intros s2 [Ho2 Hi2]. wp_step. split; [done|]. split; [by apply Hi2|]. exists tl, tw, tc.
    split_and!; [|by rewrite Rtl, E1|by rewrite Rtw, E2|by rewrite Rtc, E3].
    rewrite Ho2, Ho. reflexivity.
Qed.

(** ** echo *)

Lemma echo_loop_wp args s :
  wp (Echo.echo_loop args) s (λ _ s', printed s
    (match args with [] => [] | a :: args => str a ++ concat ((λ a, SPACE :: str a) <$> args) ++ [NL] end) s').
Proof using All.
  revert s. induction args as [|a args IH]; intros s; cbn [Echo.echo_loop].
  - wp_step. apply printed_nil.
  - wp_step. apply write_wp. intros s1 H1. wp_step. destruct args as [|b args].
    + apply write_wp. intros s2 H2. eapply wp_mono; [apply IH|]. intros [] s3 H3.
      exact (printed_app _ _ _ _ _ H1 (printed_app _ _ _ _ _ H2 H3)).
    + apply write_wp. intros s2 H2. eapply wp_mono; [apply IH|]. intros [] s3 H3.
      apply (printed_app _ _ _ _ _ H1). rewrite fmap_cons. simpl.
      pose proof (printed_app _ _ _ _ _ H2 H3) as H. simpl in H. by rewrite <- app_assoc.
Qed.

End output.

Lemma cat_correct_witness :
  wp (Cat.main 5 [bytes "cat"]) (mk_demo_io (bytes "abc") []) (λ status s', status = 0 ∧ demo_out s' = bytes "abc").
Proof.
  eapply wp_mono; [apply (cat_correct 5 (bytes "abc") (mk_demo_io (bytes "abc") [])); [reflexivity|simpl; lia]|].
  intros r s' (-> & Ho & _). split; [reflexivity|exact Ho].
Defined.

Lemma wc_correct_witness :
  wp (Wc.wc 9 0 (bytes "f")) (mk_demo_io (bytes "ab c" ++ [NL]) []) (λ r s', ∃ tl tw tc,
    demo_out s' = tl ++ SPACE :: tw ++ SPACE :: tc ++ SPACE :: str (bytes "f") ++ [NL] ∧
    read_int digits 10 tl = Some 1 ∧ read_int digits 10 tw = Some 2 ∧ read_int digits 10 tc = Some 5).
Proof.
  eapply wp_mono; [apply (wc_correct 9 0 (bytes "ab c" ++ [NL]) (bytes "f")); [reflexivity|simpl; lia|simpl; lia]|].
  intros r s' (_ & _ & H). exact H.
Defined.
