(* ===== verification/Umalloc.v ===== *)
(** * The allocator of programs, [user/umalloc.c]

    Pointers to [Header] are counted in units of [sizeof(Header)], sixteen
    bytes, so that the pointer arithmetic of the source is integer arithmetic.
    Every unit of memory has the two fields of a header; the units of a block in
    use, but for the first, are the caller's.  [sbrk] is the system call as the
    program sees it. *)

From S2P Require Import Prelude.

Record heap := mk_heap { ptr : Z → Z; size : Z → Z; freep : Z; brk : Z }.

Definition sizeof_Header : Z := 16.

(** The static variable [base], and whether the kernel lets the break grow from
    an address by a number of bytes. *)
Class Arena := { base : Z; grants : Z → Z → bool }.

Definition put (f : Z → Z) (a v : Z) : Z → Z := λ x, if x =? a then v else f x.
Definition set_ptr (a v : Z) (h : heap) : heap := mk_heap (put (ptr h) a v) (size h) (freep h) (brk h).
Definition set_size (a v : Z) (h : heap) : heap := mk_heap (ptr h) (put (size h) a v) (freep h) (brk h).
Definition set_freep (v : Z) (h : heap) : heap := mk_heap (ptr h) (size h) v (brk h).
Definition set_brk (v : Z) (h : heap) : heap := mk_heap (ptr h) (size h) (freep h) v.

Definition get_ptr (a : Z) : M heap Z := gets (λ h, ptr h a).
Definition get_size (a : Z) : M heap Z := gets (λ h, size h a).
Definition get_freep : M heap Z := gets freep.

Section alloc.
Context {arena : Arena}.

(** The old break, or -1.  A negative [n] shrinks the process, unless the new
    size would be negative: then [uvmdealloc] leaves it as it is. *)
Definition sbrk (n : Z) : M heap Z :=
  old ← gets brk;
  if n <? 0 then modify (set_brk (if old + n <? 0 then old else old + n));; mret old
  else if grants old n then modify (set_brk (old + n));; mret old
  else mret (-1).

(** The [for] loop of [free]. *)
Fixpoint free_loop (fuel : nat) (bp p : Z) : M heap Z :=
  match fuel with
  | O => no_fuel
  | S fuel =>
      nx ← get_ptr p;
      if (bp >? p) && (bp <? nx) then mret p
      else if (p >=? nx) && ((bp >? p) || (bp <? nx)) then mret p
      else free_loop fuel bp nx
  end.

(** The block [bp] goes in after [p], merged with its neighbours: first with
    the next block, then with [p]. *)
Definition free_right (bp p : Z) : M heap unit :=
  sb ← get_size bp;
  nx ← get_ptr p;
  if bp + sb =? nx then
    sn ← get_size nx;
    modify (set_size bp (u32 (sb + sn)));;
    nn ← get_ptr nx;
    modify (set_ptr bp nn)
  else modify (set_ptr bp nx).
Definition free_left (bp p : Z) : M heap unit :=
  sp ← get_size p;
  if p + sp =? bp then
    sb ← get_size bp;
    modify (set_size p (u32 (sp + sb)));;
    nb ← get_ptr bp;
    modify (set_ptr p nb)
  else modify (set_ptr p bp).
Definition free_link (bp p : Z) : M heap unit :=
  free_right bp p;;
  free_left bp p;;
  modify (set_freep p).

Definition free (fuel : nat) (ap : Z) : M heap unit :=
  let bp := ap - 1 in
  p ← get_freep;
  p ← free_loop fuel bp p;
  free_link bp p.

Definition morecore (fuel : nat) (nu : Z) : M heap Z :=
  let nu := if nu <? 4096 then 4096 else nu in
  p ← sbrk (i32 (nu * sizeof_Header));
  if p =? -1 then mret 0
  else
    let hp := p / sizeof_Header in
    modify (set_size hp nu);;
    free fuel (hp + 1);;
    get_freep.

(** What is cut from a block [p] that is large enough. *)
Definition malloc_take (nunits prevp p : Z) : M heap Z :=
  sp ← get_size p;
  p ←
    (if sp =? nunits then
       nx ← get_ptr p;
       modify (set_ptr prevp nx);;
       mret p
     else
       modify (set_size p (sp - nunits));;
       let p := p + (sp - nunits) in
       modify (set_size p nunits);;
       mret p);
  modify (set_freep prevp);;
  mret (p + 1).

Fixpoint malloc_loop (fuel : nat) (nunits prevp p : Z) : M heap Z :=
  match fuel with
  | O => no_fuel
  | S fuel =>
      sp ← get_size p;
      if sp >=? nunits then malloc_take nunits prevp p
      else
        fp ← get_freep;
        if p =? fp then
          p ← morecore fuel nunits;
          if p =? 0 then mret 0
          else nx ← get_ptr p; malloc_loop fuel nunits p nx
        else nx ← get_ptr p; malloc_loop fuel nunits p nx
  end.

Definition units (nbytes : Z) : Z := u32 ((nbytes + sizeof_Header - 1) / sizeof_Header + 1).

Definition malloc (fuel : nat) (nbytes : Z) : M heap Z :=
  let nunits := units nbytes in
  prevp ← get_freep;
  prevp ←
    (if prevp =? 0 then
       modify (set_ptr base base);;
       modify (set_freep base);;
       modify (set_size base 0);;
       mret base
     else mret prevp);
  p ← get_ptr prevp;
  malloc_loop fuel nunits prevp p.

End alloc.
