(* ===== verification/UmallocSpec.v ===== *)
(** * The allocator never hands out memory twice

    The free list is a ring of blocks in address order, none touching the next,
    that passes through [base]; blocks in use are disjoint from it and from each
    other.  [malloc] and [free] keep it so, return for a long enough fuel, and
    write nothing inside the blocks in use. *)

From S2P Require Import Prelude Umalloc.

(** ** Chains of blocks *)

Implicit Types (h : heap) (l bs N : list (Z * Z)).

(** From the header [a], the pointers lead through the blocks [l] to [z]. *)
Fixpoint seg h (a : Z) l (z : Z) : Prop :=
  match l with
  | [] => ptr h a = z
  | (b, s) :: l => ptr h a = b ∧ size h b = s ∧ seg h b l z
  end.

(** Blocks in address order above [lo], with a gap before each, up to [hi]. *)
Fixpoint laid (lo : Z) l (hi : Z) : Prop :=
  match l with
  | [] => lo ≤ hi
  | (a, s) :: l => lo < a ∧ 0 < s ∧ laid (a + s) l hi
  end.

Lemma seg_app h a l1 b s l2 z :
  seg h a (l1 ++ (b, s) :: l2) z ↔ seg h a l1 b ∧ size h b = s ∧ seg h b l2 z.
Proof.
  revert a. induction l1 as [|[c t] l1 IH]; intros a; simpl; [tauto|]. rewrite IH. tauto.
Qed.

Lemma seg_ext h h' a l z :
  (∀ x, x = a ∨ x ∈ l.*1 → ptr h' x = ptr h x) → (∀ x, x ∈ l.*1 → size h' x = size h x) →
  seg h a l z → seg h' a l z.
Proof.
  revert a. induction l as [|[b s] l IH]; intros a Hp Hs; simpl.
  - intros <-. apply Hp. by left.
  - intros (H1 & H2 & H3). split_and!.
    + rewrite Hp; [done|by left].
    + rewrite Hs; [done|]. simpl. by left.
    + apply IH; [| |done]; intros x Hx; [apply Hp|apply Hs]; right; simpl; [set_solver|done].
Qed.

Lemma laid_app lo l1 a s l2 hi :
  laid lo (l1 ++ (a, s) :: l2) hi ↔ laid lo l1 (a - 1) ∧ 0 < s ∧ laid (a + s) l2 hi.
Proof.
  revert lo. induction l1 as [|[b t] l1 IH]; intros lo; simpl; [split; intros; split_and!; try tauto; lia|].
  rewrite IH. tauto.
Qed.

Lemma laid_le lo l hi : laid lo l hi → lo ≤ hi.
Proof.
  revert lo. induction l as [|[a s] l IH]; intros lo; simpl; [done|]. intros (? & ? & ?%IH). lia.
Qed.

Lemma laid_weaken lo l hi lo' hi' : lo' ≤ lo → hi ≤ hi' → laid lo l hi → laid lo' l hi'.
Proof.
  revert lo lo'. induction l as [|[a s] l IH]; intros lo lo' H1 H2; simpl; [lia|].
  intros (? & ? & ?). split_and!; [lia|done|]. eapply IH; [|done..]. lia.
Qed.

Lemma laid_in lo l hi a s : laid lo l hi → (a, s) ∈ l → lo < a ∧ 0 < s ∧ a + s ≤ hi.
Proof.
  intros Hl (l1 & l2 & ->)%list_elem_of_split. apply laid_app in Hl as (H1 & H2 & H3).
  apply laid_le in H1. apply laid_le in H3. lia.
Qed.

(** The unit [u] is in a block of [l]. *)
Definition within (u : Z) (b : Z * Z) : Prop := b.1 ≤ u < b.1 + b.2.
Definition covers l (u : Z) : Prop := ∃ b, b ∈ l ∧ within u b.

Lemma covers_app l1 l2 u : covers (l1 ++ l2) u ↔ covers l1 u ∨ covers l2 u.
Proof. unfold covers. set_solver. Qed.
Lemma covers_cons b l u : covers (b :: l) u ↔ within u b ∨ covers l u.
Proof. unfold covers. set_solver. Qed.

(** Two neighbours of the list. *)
Lemma laid_lookup lo l hi i j a s b t :
  laid lo l hi → l !! i = Some (a, s) → l !! j = Some (b, t) → (i < j)%nat → a + s < b.
Proof.
  intros Hl Hi Hj Hij.
  rewrite <- (take_drop_middle l i (a, s) Hi) in Hl. apply laid_app in Hl as (_ & _ & Hl).
  assert ((b, t) ∈ drop (S i) l) as Hin.
  { apply list_elem_of_lookup. exists (j - S i)%nat. rewrite lookup_drop. rewrite <- Hj. f_equal. lia. }
  destruct (laid_in _ _ _ _ _ Hl Hin). lia.
Qed.

(** The ring: the pointer of each node leads to the next one, the last one's to
    the first. *)
Lemma seg_next h a0 s0 l i x s :
  seg h a0 l a0 → ((a0, s0) :: l) !! i = Some (x, s) →
  ∃ y t, ((a0, s0) :: l) !! (S i mod S (length l))%nat = Some (y, t) ∧ ptr h x = y.
Proof.
  intros Hseg Hi. pose proof (lookup_lt_Some _ _ _ Hi) as Hlt. simpl in Hlt.
  assert (∀ l a, seg h a l a0 → ∀ i x s, ((a, s0) :: l) !! i = Some (x, s) ∨ (i = 0%nat ∧ x = a) →
            match l !! i with Some (y, _) => ptr h x = y | None => i = length l → ptr h x = a0 end) as Hg.
  { clear. induction l as [|[b t] l IH]; intros a Hs i x s Hi; simpl in *.
    - intros _. destruct Hi as [Hi|[_ ->]]; [|done]. destruct i; simplify_eq/=; done.
    - destruct Hs as (H1 & H2 & H3). destruct i as [|i]; simpl.
      + destruct Hi as [Hi|[_ ->]]; simplify_eq/=; done.
      + destruct Hi as [Hi|[? _]]; [|done]. simpl in Hi.
        specialize (IH b H3 i x s). destruct i as [|i].
        * simpl in Hi. simplify_eq. specialize (IH (or_intror (conj eq_refl eq_refl))).
          destruct (l !! 0%nat) as [[y ?]|]; [done|]. intros E. apply IH. lia.
        * specialize (IH (or_introl Hi)). destruct (l !! S i) as [[y ?]|]; [done|]. intros E. apply IH. lia. }
  specialize (Hg l a0 Hseg i x s (or_introl Hi)).
  destruct (decide (i = length l)) as [->|Hne].
  - rewrite Nat.Div0.mod_same. exists a0, s0. split; [done|].
    rewrite lookup_ge_None_2 in Hg by done. by apply Hg.
  - rewrite Nat.mod_small by lia. simpl.
    destruct (lookup_lt_is_Some_2 l i) as [[y t] Hy]; [lia|]. rewrite Hy in Hg |- *. by exists y, t.
Qed.

(** ** The invariant *)

(** A process is smaller than 4 GB; the machine has 128 MB. *)
Class ArenaLaws {arena : Arena} : Prop := {
  base_pos : 0 < base;
  grants_limit old n : grants old n = true → old + n ≤ 2 ^ 32;
}.

Section spec.
Context {arena : Arena} {laws : ArenaLaws}.
Implicit Types A : gmap Z Z.

Definition top h : Z := brk h / sizeof_Header.

(** A free list: the ring through [bs], below [hi]. *)
Record free_list h bs (hi : Z) : Prop := {
  fl_ring : seg h base bs base;
  fl_base : size h base = 0;
  fl_laid : laid base bs hi;
}.

(** The blocks [bs] are free and the blocks [A], by header, are in use. *)
Record heap_ok h bs A : Prop := {
  ho_list : free_list h bs (top h);
  ho_freep : freep h = base ∨ freep h ∈ bs.*1;
  ho_used a n : A !! a = Some n → size h a = n ∧ base < a ∧ 0 < n ∧ a + n ≤ top h;
  ho_apart a n u : A !! a = Some n → a ≤ u < a + n → ¬ covers bs u;
  ho_disjoint a n a' n' u : A !! a = Some n → A !! a' = Some n' →
    a ≤ u < a + n → a' ≤ u < a' + n' → a = a';
  ho_brk : brk h mod sizeof_Header = 0 ∧ 0 ≤ brk h ≤ 2 ^ 32;
  ho_top : base < top h;
}.

Definition nodes bs : list (Z * Z) := (base, 0) :: bs.

Lemma nodes_order lo hi bs i j a s b t :
  laid base bs hi → lo = base → nodes bs !! i = Some (a, s) → nodes bs !! j = Some (b, t) → (i < j)%nat → a + s < b.
Proof.
  intros Hl -> Hi Hj Hij. destruct j as [|j]; [lia|]. simpl in Hj. destruct i as [|i]; simpl in Hi.
  - simplify_eq. apply list_elem_of_lookup_2 in Hj. destruct (laid_in _ _ _ _ _ Hl Hj). lia.
  - eapply laid_lookup; [done..|lia].
Qed.

(** The node after which a block [bp] goes. *)
Lemma split_below bs bp hi :
  laid base bs hi → base < bp → bp ∉ bs.*1 →
  ∃ L p sp R, nodes bs = L ++ (p, sp) :: R ∧ p < bp ∧ Forall (λ b : Z * Z, bp < b.1) R.
Proof.
  unfold nodes. generalize 0 as s. generalize base as lo. induction bs as [|[a t] bs IH]; intros lo s Hl Hlo Hno.
  - by exists [], lo, s, [].
  - simpl in Hl. destruct Hl as (H1 & H2 & H3). simpl in Hno. apply not_elem_of_cons in Hno as [Hne Hno].
    destruct (decide (a < bp)) as [Hlt|Hge].
    + destruct (IH a t) as (L & p & sp & R & E & Hp & HR); [eapply laid_weaken; [|done..]; lia|done|done|].
      exists ((lo, s) :: L), p, sp, R. by rewrite E.
    + exists [], lo, s, ((a, t) :: bs). split_and!; [done..|]. constructor; [simpl; lia|].
      apply list.Forall_forall. intros [b u] Hb. destruct (laid_in _ _ _ _ _ H3 Hb). simpl. lia.
Qed.

(** How far the node at index [i] is from the one at index [k], along the ring. *)
Definition steps (n k i : nat) : nat := if decide (i ≤ k)%nat then (k - i)%nat else (n - i + k)%nat.

(** The place of a block [bp] in the ring: after the node at index [length L]. *)
Section place.
Context h bs (hi bp : Z) (L : list (Z * Z)) (p sp : Z) (R : list (Z * Z)) (ok : free_list h bs hi) (above : base < bp).
Context (EN : nodes bs = L ++ (p, sp) :: R) (below : p < bp) (rest : Forall (λ b : Z * Z, bp < b.1) R).

Lemma place_length : length (nodes bs) = S (length L + length R).
Proof using EN. rewrite EN, length_app. simpl. lia. Qed.

Lemma place_at : nodes bs !! length L = Some (p, sp).
Proof using EN. rewrite EN. by apply list_lookup_middle. Qed.

Lemma nodes_side i a s :
  nodes bs !! i = Some (a, s) → ((i ≤ length L)%nat ∧ base ≤ a ≤ p) ∨ ((length L < i)%nat ∧ bp < a).
Proof using ok EN rest above below.
  intros Hi. assert (base ≤ a) as Hb.
  { destruct i; simpl in Hi; [simplify_eq; lia|]. apply list_elem_of_lookup_2 in Hi.
    destruct (laid_in _ _ _ _ _ (fl_laid _ _ _ ok) Hi). lia. }
  destruct (decide (i ≤ length L)%nat) as [Hd|Hd]; [left|right]; (split; [lia|]).
  - destruct (decide (i = length L)) as [->|]; [rewrite place_at in Hi; simplify_eq; lia|].
    pose proof (nodes_order base _ _ _ _ _ _ _ _ (fl_laid _ _ _ ok) eq_refl Hi place_at ltac:(lia)).
    assert (0 ≤ s); [|lia]. destruct i; simpl in Hi; [simplify_eq; lia|]. apply list_elem_of_lookup_2 in Hi.
    destruct (laid_in _ _ _ _ _ (fl_laid _ _ _ ok) Hi). lia.
  - rewrite EN, lookup_app_r in Hi by lia. destruct (i - length L)%nat as [|m] eqn:Em; [lia|]. simpl in Hi.
    rewrite list.Forall_forall in rest. apply list_elem_of_lookup_2 in Hi. by apply (rest _ Hi).
Qed.

(** The two tests of the loop, at a node [x] with the next node [y], succeed
    just at that index. *)
Lemma place_stop i x s y t :
  nodes bs !! i = Some (x, s) → nodes bs !! (S i mod length (nodes bs))%nat = Some (y, t) →
  ((bp >? x) && (bp <? y)) || ((x >=? y) && ((bp >? x) || (bp <? y))) = bool_decide (i = length L).
Proof using ok EN rest above below.
  intros Hi Hy. pose proof (lookup_lt_Some _ _ _ Hi) as Hlt. pose proof place_length as HN.
  pose proof (nodes_side _ _ _ Hi) as Hx. pose proof (nodes_side _ _ _ Hy) as Hy'.
  assert (if decide (S i = length (nodes bs)) then y = base else x < y ∧ (S i mod length (nodes bs) = S i)%nat) as Hxy.
  { case_decide as E; [rewrite E, Nat.Div0.mod_same in Hy; simpl in Hy; by simplify_eq|].
    rewrite Nat.mod_small in * by lia. split; [|done].
    pose proof (nodes_order base _ _ _ _ _ _ _ _ (fl_laid _ _ _ ok) eq_refl Hi Hy ltac:(lia)).
    assert (0 ≤ s); [|lia]. destruct i; simpl in Hi; [simplify_eq; lia|]. apply list_elem_of_lookup_2 in Hi.
    destruct (laid_in _ _ _ _ _ (fl_laid _ _ _ ok) Hi). lia. }
  case_bool_decide as Hd; case_decide as E; destruct (Z.gtb_spec bp x), (Z.ltb_spec bp y), (Z_geb_spec0 x y); simpl; try done; lia.
Qed.

Lemma ring_loop_wp fuel i x s :
  nodes bs !! i = Some (x, s) → (steps (length (nodes bs)) (length L) i < fuel)%nat →
  wp (free_loop fuel bp x) h (λ r h', r = p ∧ h' = h).
Proof using ok EN rest above below.
  revert i x s. induction fuel as [|fuel IH]; intros i x s Hi Hf; [lia|]. cbn [free_loop].
  pose proof (lookup_lt_Some _ _ _ Hi) as Hlt. pose proof place_length as HN.
  destruct (seg_next _ _ _ _ _ _ _ (fl_ring _ _ _ ok) Hi) as (y & t & Hy & Hptr).
  pose proof (place_stop _ _ _ _ _ Hi Hy) as Hstop.
  unfold get_ptr. wp_steps. rewrite Hptr.
  case_bool_decide as Hd.
  - rewrite Hd, place_at in Hi. injection Hi as <- <-.
    destruct (_ && _); [by wp_step|]. simpl in Hstop. rewrite Hstop. by wp_step.
  - apply orb_false_iff in Hstop as [-> ->]. eapply IH; [exact Hy|].
    change (S (length bs)) with (length (nodes bs)).
    unfold steps in *. destruct (decide (S i = length (nodes bs))) as [E|E].
    + rewrite E, Nat.Div0.mod_same. repeat case_decide; lia.
    + rewrite Nat.mod_small by lia. repeat case_decide; lia.
Qed.

End place.

(** ** Linking a block in *)

Lemma put_eq f a v : put f a v a = v.
Proof. unfold put. by rewrite Z.eqb_refl. Qed.
Lemma put_ne f a v x : x ≠ a → put f a v x = f x.
Proof. intros. unfold put. by rewrite (proj2 (Z.eqb_neq _ _)). Qed.

(** The blocks from [bp] on, merged with a first one that it touches. *)
Definition merge_right (bp n : Z) (R : list (Z * Z)) : Z * list (Z * Z) :=
  match R with
  | (y, sy) :: R' => if bp + n =? y then (n + sy, R') else (n, R)
  | [] => (n, [])
  end.
Definition merge_left (p sp bp n : Z) (R : list (Z * Z)) : list (Z * Z) :=
  if p + sp =? bp then (p, sp + n) :: R else (p, sp) :: (bp, n) :: R.

Lemma merge_right_laid bp n R hi lo :
  0 < n → bp + n ≤ hi → laid lo R hi → Forall (λ b : Z * Z, bp < b.1) R →
  (∀ u, bp ≤ u < bp + n → ¬ covers R u) →
  let '(n1, R1) := merge_right bp n R in
  n ≤ n1 ∧ (length R1 ≤ length R)%nat ∧ laid (bp + n1) R1 hi ∧ ∀ u, covers ((bp, n1) :: R1) u ↔ bp ≤ u < bp + n ∨ covers R u.
Proof.
  intros Hn Hhi Hl HR Hap. destruct R as [|[y sy] R]; simpl.
  - split_and!; [done..|]. intros u. rewrite covers_cons. unfold within. simpl. tauto.
  - simpl in Hl. destruct Hl as (H1 & H2 & H3). apply list.Forall_cons in HR as [Hy HR]. simpl in Hy.
    destruct (Z.eqb_spec (bp + n) y) as [E|E].
    + split_and!; [lia|lia|by replace (bp + (n + sy)) with (y + sy) by lia|].
      intros u. rewrite !covers_cons. unfold within. simpl. split; [|intros [?|[?|?]]]; try tauto; [|left; lia..].
      intros [?|?]; [|tauto]. destruct (decide (u < bp + n)); [left; lia|right; left; lia].
    + assert (bp + n < y).
      { destruct (decide (y < bp + n)); [|lia]. exfalso. apply (Hap y); [lia|].
        apply covers_cons. left. unfold within. simpl. lia. }
      split_and!; [lia|simpl; lia|done..|]. intros u. rewrite !covers_cons. unfold within. simpl. tauto.
Qed.

Lemma merge_left_laid p sp bp n R hi :
  0 ≤ sp → p + sp ≤ bp → 0 < n → laid (bp + n) R hi →
  ∃ s' rest, merge_left p sp bp n R = (p, s') :: rest ∧ sp ≤ s' ∧ laid (p + s') rest hi ∧
    (p + sp < bp → s' = sp) ∧ (length rest ≤ S (length R))%nat ∧
    ∀ u, covers ((p, s') :: rest) u ↔ within u (p, sp) ∨ covers ((bp, n) :: R) u.
Proof.
  intros Hsp Hle Hn Hl. unfold merge_left. destruct (Z.eqb_spec (p + sp) bp) as [E|E].
  - exists (sp + n), R. split_and!; [done|lia|by replace (p + (sp + n)) with (bp + n) by lia|lia|lia|].
    intros u. rewrite !covers_cons. unfold within. simpl. split; [|intros [?|[?|?]]]; try tauto; [|left; lia..].
    intros [?|?]; [|tauto]. destruct (decide (u < p + sp)); [left; lia|right; left; lia].
  - exists sp, ((bp, n) :: R). simpl. split_and!; [done|lia|lia|done|done|done|lia|].
    intros u. rewrite !covers_cons. unfold within. simpl. tauto.
Qed.

Lemma covers_nodes bs u : covers (nodes bs) u ↔ covers bs u.
Proof. unfold nodes. rewrite covers_cons. unfold within. simpl. split; [intros [?|?]; [lia|done]|tauto]. Qed.

(** The halves of [free_link]. *)
Definition only_at (x : Z) h h' : Prop :=
  freep h' = freep h ∧ brk h' = brk h ∧ ∀ y, y ≠ x → ptr h' y = ptr h y ∧ size h' y = size h y.

Lemma link_right h bp n p R hi Q :
  size h bp = n → seg h p R base → bp ≠ p → bp ∉ R.*1 → bp ≠ base →
  0 ≤ n → n + hi < 2 ^ 32 → (∀ y sy, (y, sy) ∈ R → 0 ≤ sy ≤ hi) → size h base = 0 → base < bp →
  (∀ h', only_at bp h h' → seg h' bp (merge_right bp n R).2 base → size h' bp = (merge_right bp n R).1 → Q tt h') →
  wp (free_right bp p) h Q.
Proof.
  clear laws. intros Hsz Hseg Hp HR Hb Hn Hhi Hle Hb0 Hlt HQ. unfold free_right, get_size, get_ptr. wp_steps. rewrite Hsz.
  assert (only_at bp h (set_ptr bp (ptr h p) h)) as Hframe.
  { split_and!; [done..|]. intros y Hy. simpl. by rewrite put_ne. }
  destruct R as [|[y sy] R]; cbn [seg] in Hseg.
  - rewrite Hseg in *. rewrite (proj2 (Z.eqb_neq _ _)) by lia. wp_steps. apply HQ; [done| |done].
    simpl. apply put_eq.
  - destruct Hseg as (H1 & H2 & H3). rewrite H1 in *. cbn [fmap list_fmap fst] in HR.
    apply not_elem_of_cons in HR as [HR1 HR2]. unfold merge_right in HQ.
    destruct (Z.eqb_spec (bp + n) y) as [E|E].
    + wp_steps. apply HQ.
      * split_and!; [done..|]. intros z Hz. simpl. by rewrite !put_ne.
      * cbn [snd]. destruct R as [|[z sz] R]; simpl in *.
        -- by rewrite put_eq.
        -- destruct H3 as (G1 & G2 & G3). apply not_elem_of_cons in HR2 as [HR2 HR3].
           rewrite put_eq, put_ne by done. split_and!; [done..|].
           eapply seg_ext; [| |exact G3]; intros x Hx; simpl; rewrite put_ne; set_solver.
      * simpl. rewrite put_eq, H2. apply u32_small. specialize (Hle y sy ltac:(left)). lia.
    + wp_steps. apply HQ; [done| |done]. simpl. rewrite put_eq. split_and!; [done..|].
      eapply seg_ext; [| |exact H3]; intros x Hx; simpl; [rewrite put_ne; set_solver|done].
Qed.

Lemma link_left h bp n p sp R Q :
  size h p = sp → size h bp = n → seg h bp R base → p ≠ bp → p ∉ R.*1 → 0 ≤ sp + n < 2 ^ 32 →
  (∀ h' s' rest, only_at p h h' → merge_left p sp bp n R = (p, s') :: rest → size h' p = s' →
                 seg h' p rest base → Q tt h') →
  wp (free_left bp p) h Q.
Proof.
  clear laws. intros Hsp Hsb Hseg Hne HR Hsum HQ. unfold free_left, get_size, get_ptr. wp_steps. rewrite Hsp.
  unfold merge_left in HQ. destruct (Z.eqb_spec (p + sp) bp) as [E|E].
  - wp_steps. eapply HQ; [|reflexivity| |].
    + split_and!; [done..|]. intros y Hy. simpl. by rewrite !put_ne.
    + simpl. rewrite put_eq, Hsb. by apply u32_small.
    + destruct R as [|[y sy] R]; simpl in *; [by rewrite put_eq|].
      destruct Hseg as (G1 & G2 & G3). apply not_elem_of_cons in HR as [HR1 HR2].
      rewrite put_eq, put_ne by done. split_and!; [done..|].
      eapply seg_ext; [| |exact G3]; intros x Hx; simpl; rewrite put_ne; set_solver.
  - wp_steps. eapply HQ; [|reflexivity|done|].
    + split_and!; [done..|]. intros y Hy. simpl. by rewrite !put_ne.
    + simpl. rewrite put_eq. split_and!; [done..|].
      eapply seg_ext; [| |exact Hseg]; intros x Hx; simpl; [rewrite put_ne; set_solver|done].
Qed.

Lemma free_list_covers h bs hi a s : free_list h bs hi → (a, s) ∈ bs → covers bs a.
Proof.
  intros [_ _ Hl] Hin. destruct (laid_in _ _ _ _ _ Hl Hin) as (_ & ? & _).
  exists (a, s). split; [done|]. unfold within. simpl. lia.
Qed.

Lemma free_list_above h bs hi a s : free_list h bs hi → (a, s) ∈ nodes bs → base ≤ a.
Proof.
  intros [_ _ Hl] [[= -> ->]|Hin]%elem_of_cons; [done|]. destruct (laid_in _ _ _ _ _ Hl Hin). lia.
Qed.

(** What precedes the node [p] of the ring. *)
Definition before h (L : list (Z * Z)) (p sp : Z) : Prop :=
  match L with [] => p = base ∧ sp = 0 | _ :: L' => seg h base L' p end.

Lemma free_list_split h bs hi L p sp R :
  free_list h bs hi → nodes bs = L ++ (p, sp) :: R →
  before h L p sp ∧ size h p = sp ∧ seg h p R base ∧ laid (p + sp) R hi ∧ 0 ≤ sp.
Proof.
  intros [Hr Hb Hl] EN. destruct L as [|b L]; unfold nodes in EN; simpl in EN.
  - injection EN as <- <- <-. rewrite Z.add_0_r. done.
  - injection EN as <- ->. apply seg_app in Hr as (H1 & H2 & H3). apply laid_app in Hl as (_ & H4 & H5).
    split_and!; try done. lia.
Qed.

Lemma free_list_join h h' bs hi L p sp R s' rest :
  free_list h bs hi → nodes bs = L ++ (p, sp) :: R →
  (∀ x, x ≠ p → x = base ∨ x ∈ L.*1 → ptr h' x = ptr h x ∧ size h' x = size h x) →
  size h' p = s' → seg h' p rest base → laid (p + s') rest hi → sp ≤ s' → (L = [] → s' = 0) →
  ∃ bs', free_list h' bs' hi ∧ nodes bs' = L ++ (p, s') :: rest ∧ (p = base ∨ p ∈ bs'.*1).
Proof.
  clear laws. intros Hfl EN Hext Hs Hseg Hlaid Hle H0.
  destruct (free_list_split _ _ _ _ _ _ _ Hfl EN) as (Hbef & Hsp & _).
  destruct L as [|b L]; simpl in Hbef.
  - destruct Hbef as [-> ->]. specialize (H0 eq_refl). subst s'. exists rest. rewrite H0, Z.add_0_r in *.
    split_and!; [by split|done|by left].
  - unfold nodes in EN. simpl in EN. injection EN as <- ->. destruct Hfl as [Hr Hb Hl].
    apply laid_app in Hl as (Hl1 & Hl2 & Hl3).
    assert (p ≠ base) as Hpb by (apply laid_le in Hl1; lia).
    assert (p ∉ L.*1) as HpL.
    { intros ([a s] & -> & Hin)%list_elem_of_fmap. destruct (laid_in _ _ _ _ _ Hl1 Hin). simpl in *. lia. }
    exists (L ++ (p, s') :: rest). split_and!; [split|done|right; set_solver].
    + apply seg_app. split_and!; [|done..]. eapply seg_ext; [| |exact Hbef]; intros x Hx;
        apply Hext; set_solver.
    + rewrite (proj2 (Hext base ltac:(done) ltac:(by left))). done.
    + apply laid_app. split_and!; [done|lia|done].
Qed.

Lemma free_link_wp h bs hi bp n L p sp R :
  free_list h bs hi → 0 ≤ hi < 2 ^ 31 → base < bp → size h bp = n → 0 < n → bp + n ≤ hi →
  (∀ u, bp ≤ u < bp + n → ¬ covers bs u) →
  nodes bs = L ++ (p, sp) :: R → p < bp → Forall (λ b : Z * Z, bp < b.1) R →
  wp (free_link bp p) h (λ _ h', ∃ bs',
    free_list h' bs' hi ∧ freep h' = p ∧ brk h' = brk h ∧ (p = base ∨ p ∈ bs'.*1) ∧
    (length bs' ≤ S (length bs))%nat ∧ (∀ u, covers bs' u ↔ covers bs u ∨ bp ≤ u < bp + n) ∧
    ∀ x, x ≠ bp → x ≠ p → ptr h' x = ptr h x ∧ size h' x = size h x).
Proof using laws.
  intros Hfl Hhi Hbp Hsz Hn Hend Hap EN Hp HR. pose proof base_pos as Hbase.
  destruct (free_list_split _ _ _ _ _ _ _ Hfl EN) as (Hbef & Hsp & Hseg & Hlaid & Hsp0).
  assert (∀ x s, (x, s) ∈ nodes bs → x ≠ bp) as Hnb.
  { intros x s [[= -> ->]|Hin]%elem_of_cons; [lia|]. intros ->. apply (Hap bp); [lia|]. by eapply free_list_covers. }
  assert (∀ u, covers R u → covers bs u) as HcR.
  { intros u Hu. destruct L as [|b L]; unfold nodes in EN; simpl in EN; injection EN; intros; subst.
    - done.
    - apply covers_app. right. apply covers_cons. by right. }
  assert (p + sp ≤ bp) as Hpsp.
  { destruct L as [|b L]; simpl in Hbef; [lia|]. destruct (decide (p + sp ≤ bp)); [done|]. exfalso.
    apply (Hap bp); [lia|]. unfold nodes in EN. simpl in EN. injection EN as <- ->.
    apply covers_app. right. apply covers_cons. left. unfold within. simpl. lia. }
  pose proof HR as HR'. rewrite list.Forall_forall in HR'.
  assert (bp ∉ R.*1) as HbR.
  { intros ([y sy] & E & Hin)%list_elem_of_fmap. apply HR' in Hin. simpl in *. lia. }
  assert (p ∉ R.*1) as HpR.
  { intros ([y sy] & E & Hin)%list_elem_of_fmap. apply HR' in Hin. simpl in *. lia. }
  pose proof (merge_right_laid bp n R hi (p + sp) Hn Hend Hlaid HR) as Hmr.
  specialize (Hmr ltac:(intros u Hu Hc; by apply (Hap u Hu), HcR)).
  unfold free_link. wp_step. eapply (link_right h bp n p R hi); [done|done|lia|done|lia|lia|lia| |apply Hfl|done|].
  { intros y sy Hin. destruct (laid_in _ _ _ _ _ Hlaid Hin) as (? & ? & ?). apply HR' in Hin. simpl in Hin. lia. }
  intros h1 (Hf1 & Hb1 & Ho1) Hseg1 Hsz1. destruct (merge_right bp n R) as [n1 R1] eqn:Emr. cbn [fst snd] in *.
  destruct Hmr as (Hn1 & Hlen1 & Hl1 & Hc1).
  wp_step. eapply (link_left h1 bp n1 p sp R1); [by rewrite (proj2 (Ho1 p ltac:(lia)))|done|done|lia| | |].
  { intros ([y sy] & -> & Hin)%list_elem_of_fmap. destruct (laid_in _ _ _ _ _ Hl1 Hin). simpl in *. lia. }
  { pose proof (laid_le _ _ _ Hl1). destruct L; simpl in Hbef; [lia|].
    assert (base ≤ p); [|lia]. eapply (free_list_above h bs hi); [done|]. rewrite EN. apply elem_of_app. right. left. }
  intros h2 s' rest (Hf2 & Hb2 & Ho2) Eml Hs2 Hseg2. wp_step.
  destruct (merge_left_laid p sp bp n1 R1 hi Hsp0 Hpsp ltac:(lia) Hl1) as (s2 & rest2 & E & Hle & Hl2 & Hsame & Hlen2 & Hc2).
  rewrite Eml in E. injection E as <- <-.
  destruct (free_list_join h (set_freep p h2) bs hi L p sp R s' rest) as (bs' & Hfl' & EN' & Hin'); try done.
  - intros x Hx Hin. simpl. destruct (Ho2 x Hx) as [-> ->]. apply Ho1.
    destruct Hin as [->|([y sy] & -> & Hin)%list_elem_of_fmap]; [lia|]. eapply (Hnb _ sy). rewrite EN. apply elem_of_app. by left.
  - eapply seg_ext; [| |exact Hseg2]; done.
  - intros ->. simpl in Hbef. destruct Hbef as [-> ->]. apply Hsame. lia.
  - exists bs'. split_and!; [done|done|by simpl; rewrite Hb2|done| | |].
    + apply (f_equal length) in EN, EN'. rewrite length_app in EN, EN'. simpl in *. lia.
    + intros u. rewrite <- (covers_nodes bs'), <- (covers_nodes bs), EN', EN, !covers_app, Hc2, Hc1, covers_cons. tauto.
    + intros x H1 H2. simpl. destruct (Ho2 x H2) as [-> ->]. by apply Ho1.
Qed.

(** ** [free] *)

(** The units of the blocks [A] are as they were. *)
Definition untouched A h h' : Prop :=
  ∀ a n u, A !! a = Some n → a ≤ u < a + n → ptr h' u = ptr h u ∧ size h' u = size h u.

Lemma node_index h bs A : heap_ok h bs A → ∃ i s, nodes bs !! i = Some (freep h, s).
Proof.
  intros Hok. destruct (ho_freep _ _ _ Hok) as [->|([a s] & -> & Hin)%list_elem_of_fmap].
  - by exists 0%nat, 0.
  - apply list_elem_of_lookup in Hin as [i Hi]. by exists (S i), s.
Qed.

Lemma steps_lt n k i : (k < n)%nat → (i < n)%nat → (steps n k i < n)%nat.
Proof. intros. unfold steps. case_decide; lia. Qed.

Lemma used_facts h bs A a n :
  heap_ok h bs A → A !! a = Some n → size h a = n ∧ base < a ∧ 0 < n ∧ a + n ≤ top h ∧ (a ∉ bs.*1).
Proof.
  intros Hok Ha. destruct (ho_used _ _ _ Hok a n Ha) as (H1 & H2 & H3 & H4). split_and!; [done..|].
  intros ([b s] & -> & Hin)%list_elem_of_fmap. cbn [fst] in *. apply (ho_apart _ _ _ Hok b n b Ha); [lia|].
  eapply free_list_covers; [apply Hok|done].
Qed.

Lemma top_range h bs A : heap_ok h bs A → 0 ≤ top h < 2 ^ 31.
Proof. intros Hok. destruct (ho_brk _ _ _ Hok) as [H1 H2]. unfold top, sizeof_Header in *. Z.div_mod_to_equations. lia. Qed.

Lemma free_wp h bs A bp n fuel :
  heap_ok h bs A → A !! bp = Some n → (length bs + 2 ≤ fuel)%nat →
  wp (free fuel (bp + 1)) h (λ _ h', ∃ bs',
    heap_ok h' bs' (delete bp A) ∧ (length bs' ≤ S (length bs))%nat ∧ brk h' = brk h ∧
    (∀ u, covers bs' u ↔ covers bs u ∨ bp ≤ u < bp + n) ∧ untouched (delete bp A) h h').
Proof using laws.
  intros Hok Ha Hfuel. destruct (used_facts _ _ _ _ _ Hok Ha) as (Hsz & Hlo & Hn & Hend & Hno).
  pose proof (ho_list _ _ _ Hok) as Hfl.
  destruct (split_below bs bp (top h) (fl_laid _ _ _ Hfl) Hlo Hno) as (L & p & sp & R & EN & Hp & HR).
  destruct (node_index _ _ _ Hok) as (i & s & Hi).
  unfold free, get_freep. replace (bp + 1 - 1) with bp by lia. wp_steps.
  assert (length (nodes bs) = S (length bs)) as HN by done.
  pose proof (place_length bs L p sp R EN) as HN'.
  eapply wp_mono; [eapply (ring_loop_wp h bs (top h) bp L p sp R Hfl Hlo EN Hp HR fuel i); [done|]|].
  { pose proof (steps_lt (length (nodes bs)) (length L) i). pose proof (lookup_lt_Some _ _ _ Hi). lia. }
  intros p' h' [-> ->].
  eapply wp_mono; [eapply (free_link_wp h bs (top h) bp n L p sp R Hfl (top_range _ _ _ Hok)); try done|].
  { intros u Hu. by eapply (ho_apart _ _ _ Hok bp n). }
  intros [] h' (bs' & Hfl' & Hfr & Hbrk & Hin & Hlen & Hcov & Hext).
  assert (top h' = top h) as Ht by (unfold top; by rewrite Hbrk).
  assert (untouched (delete bp A) h h') as Hun.
  { intros a m u [Hne Ha']%lookup_delete_Some Hu. apply Hext.
    - intros E. apply Hne. eapply (ho_disjoint _ _ _ Hok bp n a m u); [done|done|lia|done].
    - intros ->. assert (p ∈ (nodes bs).*1) as Hpn by (rewrite EN, fmap_app; set_solver).
      apply elem_of_cons in Hpn as [->|([b t] & -> & Hb)%list_elem_of_fmap].
      + destruct (ho_used _ _ _ Hok a m Ha'). simpl in *. lia.
      + cbn [fst] in *. apply (ho_apart _ _ _ Hok a m b Ha'); [done|]. by eapply free_list_covers. }
  exists bs'. split_and!; try done. split; [by rewrite Ht|by rewrite Hfr|..].
  - intros a m Ha'. pose proof Ha' as [Hne Ha'']%lookup_delete_Some.
    destruct (ho_used _ _ _ Hok a m Ha'') as (H1 & H2 & H3 & H4).
    rewrite Ht, (proj2 (Hun a m a Ha' ltac:(lia))). done.
  - intros a m u [Hne Ha']%lookup_delete_Some Hu [Hc|Hc]%Hcov; [by eapply (ho_apart _ _ _ Hok a m)|].
    apply Hne. by eapply (ho_disjoint _ _ _ Hok bp n a m u).
  - intros a m a' m' u [_ H1]%lookup_delete_Some [_ H2]%lookup_delete_Some. by eapply (ho_disjoint _ _ _ Hok).
  - rewrite Hbrk. apply Hok.
  - rewrite Ht. apply Hok.
Qed.

(** ** [malloc] *)

Lemma freep_pos h bs A : heap_ok h bs A → freep h ≠ 0.
Proof using laws.
  intros Hok. pose proof base_pos as Hb. destruct (ho_freep _ _ _ Hok) as [->|([a s] & -> & Hin)%list_elem_of_fmap]; [lia|].
  destruct (laid_in _ _ _ _ _ (fl_laid _ _ _ (ho_list _ _ _ Hok)) Hin). simpl. lia.
Qed.

(** The heap with [nu] units more, as a block in use. *)
Lemma grown_ok h bs A nu :
  heap_ok h bs A → 0 < nu → brk h + nu * sizeof_Header ≤ 2 ^ 32 →
  let h1 := set_size (top h) nu (set_brk (brk h + nu * sizeof_Header) h) in
  heap_ok h1 bs (<[top h := nu]> A) ∧ A !! top h = None ∧ untouched A h h1.
Proof.
  clear laws. intros Hok Hnu Hlim h1. destruct (ho_brk _ _ _ Hok) as [Hmod Hbrk]. unfold sizeof_Header in *.
  assert (top h1 = top h + nu) as Ht.
  { unfold top, sizeof_Header. simpl. rewrite Z.div_add by lia. done. }
  assert (∀ a n u, A !! a = Some n → a ≤ u < a + n → u < top h) as Hbelow.
  { intros a n u Ha Hu. destruct (ho_used _ _ _ Hok a n Ha). lia. }
  assert (∀ u, covers bs u → u < top h) as Hcb.
  { intros u ([a s] & Hin & Hu). destruct (laid_in _ _ _ _ _ (fl_laid _ _ _ (ho_list _ _ _ Hok)) Hin).
    unfold within in Hu. simpl in *. lia. }
  assert (∀ u, u < top h → ptr h1 u = ptr h u ∧ size h1 u = size h u) as Hsame.
  { intros u Hu. simpl. rewrite put_ne by lia. done. }
  assert (A !! top h = None) as HNone.
  { destruct (A !! top h) as [n|] eqn:E; [|done]. destruct (ho_used _ _ _ Hok _ n E). specialize (Hbelow _ _ (top h) E). lia. }
  pose proof (ho_top _ _ _ Hok) as Htop.
  split_and!; [|done|intros a n u Ha Hu; by eapply Hsame, Hbelow].
  split.
  - pose proof (ho_list _ _ _ Hok) as Hfl. pose proof Hfl as [Hr Hb Hl]. split.
    + apply (seg_ext h); [done| |exact Hr]. intros x ([a s] & -> & Hin)%list_elem_of_fmap. apply Hsame, Hcb.
      by eapply free_list_covers.
    + rewrite (proj2 (Hsame base Htop)). done.
    + eapply laid_weaken; [..|exact Hl]; lia.
  - apply Hok.
  - intros a n [[<- <-]|[Hne Ha]]%lookup_insert_Some; rewrite Ht.
    + simpl. rewrite put_eq. lia.
    + destruct (ho_used _ _ _ Hok a n Ha) as (H1 & H2 & H3 & H4). rewrite (proj2 (Hsame a ltac:(lia))). lia.
  - intros a n u [[<- <-]|[Hne Ha]]%lookup_insert_Some Hu Hc.
    + apply Hcb in Hc. lia.
    + by eapply (ho_apart _ _ _ Hok a n).
  - intros a n a' n' u [[<- <-]|[Hne Ha]]%lookup_insert_Some [[<- <-]|[Hne' Ha']]%lookup_insert_Some Hu Hu'.
    + done.
    + specialize (Hbelow _ _ _ Ha' Hu'). lia.
    + specialize (Hbelow _ _ _ Ha Hu). lia.
    + by eapply (ho_disjoint _ _ _ Hok a n a' n').
  - unfold sizeof_Header. simpl. rewrite Z.mod_add by lia. lia.
  - lia.
Qed.

(** What [morecore] asks for. *)
Definition core (nu : Z) : Z := if nu <? 4096 then 4096 else nu.

Lemma morecore_wp h bs A nu fuel :
  heap_ok h bs A → 0 < nu → core nu * sizeof_Header < 2 ^ 31 → (length bs + 2 ≤ fuel)%nat →
  wp (morecore fuel nu) h (λ r h',
    (r = 0 ∧ h' = h ∧ grants (brk h) (core nu * sizeof_Header) = false) ∨
    (r = freep h' ∧ r ≠ 0 ∧ ∃ bs', heap_ok h' bs' A ∧ (length bs' ≤ S (length bs))%nat ∧
      (∀ u, covers bs' u ↔ covers bs u ∨ top h ≤ u < top h + core nu) ∧ untouched A h h')).
Proof using laws.
  intros Hok Hnu Hmax Hfuel. destruct (ho_brk _ _ _ Hok) as [Hmod Hbrk]. unfold morecore. fold (core nu).
  assert (0 < core nu) as Hc by (unfold core; case_match; lia).
  rewrite i32_small by (unfold sizeof_Header in *; lia).
  unfold sbrk. wp_steps. rewrite (proj2 (Z.ltb_ge _ _)) by (unfold sizeof_Header; lia).
  destruct (grants (brk h) (core nu * sizeof_Header)) eqn:Eg; wp_steps; [|by left].
  pose proof (grants_limit _ _ Eg) as Hlim.
  rewrite (proj2 (Z.eqb_neq _ _)) by lia. wp_steps. fold (top h).
  destruct (grown_ok h bs A (core nu) Hok Hc Hlim) as (Hok1 & HNone & Hun1).
  eapply wp_mono; [eapply (free_wp _ bs _ (top h) (core nu)); [exact Hok1|apply lookup_insert_eq|done]|].
  intros [] h' (bs' & Hok' & Hlen & Hb & Hcov & Hun). rewrite delete_insert_id in * by done.
  unfold get_freep. wp_step. right. split; [done|]. split; [by eapply freep_pos|].
  exists bs'. split_and!; [done..|]. intros a n u Ha Hu.
  destruct (Hun a n u Ha Hu) as [-> ->]. by apply (Hun1 a n u).
Qed.

(** The block [p] of the free list, after the node [q]. *)
Section take.
Context h bs A (L : list (Z * Z)) (q sq p sp : Z) (R : list (Z * Z)) (n : Z).
Context (ok : heap_ok h bs A) (EN : nodes bs = L ++ (q, sq) :: (p, sp) :: R) (Hn : 0 < n) (Hfit : n ≤ sp).

Lemma take_facts :
  ptr h q = p ∧ size h q = sq ∧ size h p = sp ∧ seg h p R base ∧ base < p ∧ q < p ∧ p + sp ≤ top h ∧
  laid (q + sq) ((p, sp) :: R) (top h) ∧ (∀ x s, (x, s) ∈ R → p + sp < x) ∧ 0 ≤ sq.
Proof using ok EN.
  destruct (free_list_split _ _ _ _ _ _ _ (ho_list _ _ _ ok) EN) as (Hbef & Hsq & Hseg & Hlaid & Hsq0).
  pose proof Hseg as (H1 & H2 & H3). pose proof Hlaid as (H4 & H5 & H6).
  assert (base ≤ q) by (eapply free_list_above; [apply ok|rewrite EN; apply elem_of_app; right; left]).
  split_and!; try done; try lia.
  - eapply laid_le, H6.
  - intros x s Hin. by destruct (laid_in _ _ _ _ _ H6 Hin).
Qed.

Lemma take_before y s : (y, s) ∈ L → y + s < p.
Proof using ok EN.
  intros Hin. destruct take_facts as (_ & _ & _ & _ & Hbp & Hqp & _).
  destruct L as [|b L']; [by apply elem_of_nil in Hin|]. unfold nodes in EN. simpl in EN. injection EN as <- E.
  apply elem_of_cons in Hin as [[= -> ->]|Hin]; [lia|].
  pose proof (fl_laid _ _ _ (ho_list _ _ _ ok)) as Hl. rewrite E in Hl. apply laid_app in Hl as (Hl & _).
  destruct (laid_in _ _ _ _ _ Hl Hin). lia.
Qed.

Lemma take_covers u : within u (p, sp) → covers bs u.
Proof using EN. clear laws. intros Hu. rewrite <- covers_nodes, EN, covers_app, !covers_cons. tauto. Qed.

(** What remains of the list, and that it is apart from what was taken. *)
Lemma take_rest s' rest bs' u :
  nodes bs' = L ++ (q, sq) :: rest → (rest = R ∨ rest = (p, s') :: R ∧ s' = sp - n) →
  covers bs' u → covers bs u ∧ ¬ (p + (sp - n) ≤ u < p + sp).
Proof using ok EN Hn Hfit.
  intros EN' Hrest Hc. rewrite <- covers_nodes, EN', covers_app, covers_cons in Hc.
  destruct take_facts as (_ & _ & _ & _ & _ & Hqp & _ & Hlaid & HR & Hsq0).
  assert (covers L u ∨ within u (q, sq) → covers bs u ∧ u < p) as Hleft.
  { intros Hu. split; [rewrite <- covers_nodes, EN, covers_app, covers_cons; tauto|].
    destruct Hu as [([a s] & Hin & Hu)|Hu]; unfold within in Hu; simpl in *; [apply take_before in Hin|]; lia. }
  assert (covers R u → covers bs u ∧ p + sp ≤ u) as Hright.
  { intros Hu. split; [rewrite <- covers_nodes, EN, covers_app, !covers_cons; tauto|].
    destruct Hu as ([a s] & Hin & Hu). apply HR in Hin. unfold within in Hu. simpl in *. lia. }
  destruct Hc as [Hc|[Hc|Hc]]; [destruct Hleft; [tauto|split; [done|lia]]..|].
  destruct Hrest as [->|[-> ->]]; [destruct Hright; [tauto|split; [done|lia]]|].
  apply covers_cons in Hc as [Hc|Hc]; [|destruct Hright; [tauto|split; [done|lia]]].
  unfold within in Hc. simpl in Hc. split; [apply take_covers; unfold within; simpl; lia|lia].
Qed.

Lemma take_used a m u : A !! a = Some m → a ≤ u < a + m → (u < p ∨ p + sp ≤ u) ∧ u ≠ q.
Proof using ok EN.
  intros Ha Hu. destruct (ho_used _ _ _ ok a m Ha) as (_ & Hb & _). split.
  - destruct (decide (u < p ∨ p + sp ≤ u)); [done|]. exfalso.
    apply (ho_apart _ _ _ ok a m u Ha Hu), take_covers. unfold within. simpl. lia.
  - intros ->. assert ((q, sq) ∈ nodes bs) as [[= -> _]|Hin]%elem_of_cons
      by (rewrite EN; apply elem_of_app; right; left); [lia|].
    apply (ho_apart _ _ _ ok a m q Ha Hu). by eapply free_list_covers; [apply ok|].
Qed.

Lemma take_ok h' rest :
  freep h' = q → brk h' = brk h → size h' (p + (sp - n)) = n → size h' q = sq →
  (∀ y, y ≠ q → y ≠ p → y ≠ p + (sp - n) → ptr h' y = ptr h y ∧ size h' y = size h y) →
  seg h' q rest base → laid (q + sq) rest (top h) → (rest = R ∨ rest = (p, sp - n) :: R) →
  A !! (p + (sp - n)) = None ∧
  (∃ bs', heap_ok h' bs' (<[p + (sp - n) := n]> A)) ∧ untouched A h h'.
Proof using ok EN Hn Hfit.
  intros Hf Hb Hx Hq Hext Hseg Hlaid Hrest. set (x := p + (sp - n)) in *.
  destruct take_facts as (_ & _ & _ & _ & Hbp & Hqp & Hend & _ & _ & Hsq0).
  pose proof (ho_list _ _ _ ok) as Hfl. assert (top h' = top h) as Ht by (unfold top; by rewrite Hb).
  assert (untouched A h h') as Hun.
  { intros a m u Ha Hu. destruct (take_used a m u Ha Hu). apply Hext; lia. }
  assert (A !! x = None) as HNone.
  { destruct (A !! x) as [m|] eqn:E; [|done]. destruct (ho_used _ _ _ ok x m E). destruct (take_used x m x E); lia. }
  split_and!; [done| |done].
  destruct (free_list_join h h' bs (top h) L q sq ((p, sp) :: R) sq rest) as (bs' & Hfl' & EN' & Hin'); try done.
  { intros y Hy Hin. assert (y < p); [|apply Hext; lia].
    destruct Hin as [->|([b s] & -> & Hin)%list_elem_of_fmap]; [done|]. pose proof (take_before _ _ Hin).
    assert (0 ≤ s); [|simpl; lia]. assert ((b, s) ∈ nodes bs) as Hin2 by (rewrite EN; apply elem_of_app; by left).
    apply elem_of_cons in Hin2 as [[= -> ->]|Hin2]; [done|]. destruct (laid_in _ _ _ _ _ (fl_laid _ _ _ Hfl) Hin2). lia. }
  { intros ->. unfold nodes in EN. simpl in EN. by injection EN as _ <- _. }
  exists bs'. split.
  - by rewrite Ht.
  - by rewrite Hf.
  - intros a m [[<- <-]|[Hne Ha]]%lookup_insert_Some; rewrite Ht; [lia|].
    destruct (ho_used _ _ _ ok a m Ha) as (H1 & H2 & H3 & H4).
    rewrite (proj2 (Hun a m a Ha ltac:(lia))). done.
  - intros a m u Ha Hu Hc. eapply (take_rest (sp - n) rest) in Hc as [Hc Hno]; [|done|naive_solver].
    apply lookup_insert_Some in Ha as [[<- <-]|[Hne Ha]]; [lia|]. by eapply (ho_apart _ _ _ ok a m).
  - intros a m a' m' u [[<- <-]|[Hne Ha]]%lookup_insert_Some [[<- <-]|[Hne' Ha']]%lookup_insert_Some Hu Hu'.
    + done.
    + destruct (take_used _ _ _ Ha' Hu'). lia.
    + destruct (take_used _ _ _ Ha Hu). lia.
    + by eapply (ho_disjoint _ _ _ ok a m a' m').
  - rewrite Hb. apply ok.
  - rewrite Ht. apply ok.
Qed.

Lemma malloc_take_wp :
  wp (malloc_take n q p) h (λ r h', ∃ x bs', r = x + 1 ∧ A !! x = None ∧
    heap_ok h' bs' (<[x := n]> A) ∧ untouched A h h').
Proof using ok EN Hn Hfit.
  clear laws. destruct take_facts as (Hptr & Hsq & Hsp & Hseg & Hbp & Hqp & Hend & Hlaid & HR & Hsq0).
  destruct Hlaid as (Hl1 & Hl2 & Hl3). unfold malloc_take, get_size, get_ptr. wp_steps. rewrite Hsp.
  destruct (Z.eqb_spec sp n) as [E|E]; wp_steps.
  - edestruct (take_ok (set_freep q (set_ptr q (ptr h p) h)) R) as (HN & (bs' & Hok') & Hun).
    + done.
    + done.
    + simpl. replace (p + (sp - n)) with p by lia. congruence.
    + done.
    + intros y H1 H2 H3. simpl. by rewrite put_ne.
    + destruct R as [|[y sy] R']; simpl in *; rewrite put_eq; [done|]. destruct Hseg as (G1 & G2 & G3).
      split_and!; [done..|]. apply (seg_ext h); [|done..]. intros z Hz. simpl. rewrite put_ne; [done|].
      assert (∃ t, (z, t) ∈ (y, sy) :: R') as [t Hin] by (destruct Hz as [->|([a b] & -> & Hz)%list_elem_of_fmap]; set_solver).
      specialize (HR _ _ Hin). lia.
    + eapply laid_weaken; [..|exact Hl3]; lia.
    + by left.
    + exists (p + (sp - n)), bs'. split_and!; [lia|done..].
  - edestruct (take_ok (set_freep q (set_size (p + (sp - n)) n (set_size p (sp - n) h))) ((p, sp - n) :: R))
      as (HN & (bs' & Hok') & Hun).
    + done.
    + done.
    + simpl. apply put_eq.
    + simpl. by rewrite !put_ne by lia.
    + intros y H1 H2 H3. simpl. by rewrite !put_ne.
    + simpl. rewrite put_ne, put_eq by lia. split_and!; [done..|]. apply (seg_ext h); [done| |done].
      intros z ([a b] & -> & Hin)%list_elem_of_fmap. apply HR in Hin. simpl in *. by rewrite !put_ne by lia.
    + simpl. split_and!; [lia|lia|]. eapply laid_weaken; [..|exact Hl3]; lia.
    + by right.
    + exists (p + (sp - n)), bs'. by split_and!.
Qed.

End take.

(** ** The search *)

Lemma steps_next n k i :
  (i < n)%nat → (k < n)%nat → i ≠ k → steps n k i = S (steps n k (S i mod n)).
Proof.
  intros Hi Hk Hne. unfold steps. destruct (decide (S i = n)) as [E|E].
  - rewrite E, Nat.Div0.mod_same. repeat case_decide; lia.
  - rewrite Nat.mod_small by lia. repeat case_decide; lia.
Qed.

Lemma steps_inj n k i j : (i < n)%nat → (j < n)%nat → steps n k i = steps n k j → i = j.
Proof. unfold steps. repeat case_decide; lia. Qed.

Lemma node_size h bs hi i x s : free_list h bs hi → nodes bs !! i = Some (x, s) → size h x = s.
Proof.
  intros [Hr Hb _] Hi. apply list_elem_of_lookup_2, elem_of_cons in Hi as [[= -> ->]|(l1 & l2 & ->)%list_elem_of_split]; [done|].
  by apply seg_app in Hr as (_ & ? & _).
Qed.

Lemma node_inj h bs hi i j x s t :
  free_list h bs hi → nodes bs !! i = Some (x, s) → nodes bs !! j = Some (x, t) → i = j.
Proof.
  intros Hfl Hi Hj. assert (∀ i s, nodes bs !! i = Some (x, s) → 0 ≤ s) as Hpos.
  { intros k u [[= -> ->]|Hin]%list_elem_of_lookup_2%elem_of_cons; [done|].
    destruct (laid_in _ _ _ _ _ (fl_laid _ _ _ Hfl) Hin). lia. }
  pose proof (Hpos _ _ Hi). pose proof (Hpos _ _ Hj).
  destruct (decide (i < j)%nat); [pose proof (nodes_order base hi bs i j x s x t (fl_laid _ _ _ Hfl) eq_refl Hi Hj); lia|].
  destruct (decide (j < i)%nat); [pose proof (nodes_order base hi bs j i x t x s (fl_laid _ _ _ Hfl) eq_refl Hj Hi); lia|lia].
Qed.

(** From the node [q] at index [i] on, the search either takes a block that is
    large enough or comes back to [freep], when no block is. *)
Lemma malloc_search h bs A nunits kf sf Q :
  heap_ok h bs A → 0 < nunits → nodes bs !! kf = Some (freep h, sf) →
  (∀ L q sq p sp R, nodes bs = L ++ (q, sq) :: (p, sp) :: R → nunits ≤ sp → wp (malloc_take nunits q p) h Q) →
  ∀ d fuel i q sq p sp, nodes bs !! i = Some (q, sq) →
    nodes bs !! (S i mod length (nodes bs))%nat = Some (p, sp) →
    steps (length (nodes bs)) kf (S i mod length (nodes bs)) = d → (d < fuel)%nat →
    (∀ j x s, nodes bs !! j = Some (x, s) → (d < steps (length (nodes bs)) kf j)%nat → s < nunits) →
    ((∀ b, b ∈ bs → b.2 < nunits) → ∀ fuel', (fuel ≤ fuel' + S d)%nat →
      wp (p ← morecore fuel' nunits;
          if p =? 0 then mret 0 else nx ← get_ptr p; malloc_loop fuel' nunits p nx) h Q) →
    wp (malloc_loop fuel nunits q p) h Q.
Proof.
  intros Hok Hnu Hkf HT. pose proof (ho_list _ _ _ Hok) as Hfl. set (N := length (nodes bs)) in *.
  pose proof (lookup_lt_Some _ _ _ Hkf) as HkN. fold N in HkN.
  induction d as [d IH] using lt_wf_ind. intros fuel i q sq p sp Hi Hp Hd Hfuel Hvis Hcore.
  pose proof (lookup_lt_Some _ _ _ Hi) as HiN. pose proof (lookup_lt_Some _ _ _ Hp) as HpN. fold N in HiN, HpN.
  destruct fuel as [|fuel]; [lia|]. cbn [malloc_loop]. unfold get_size, get_freep. wp_steps.
  rewrite (node_size _ _ _ _ _ _ Hfl Hp). destruct (Z_geb_spec0 sp nunits) as [Hge|Hlt].
  - destruct (decide (S i = N)) as [E|E].
    { rewrite E, Nat.Div0.mod_same in Hp. simpl in Hp. simplify_eq. lia. }
    rewrite Nat.mod_small in Hp by lia.
    apply (HT (take i (nodes bs)) q sq p sp (drop (S (S i)) (nodes bs))); [|done].
    rewrite <- (take_drop_middle (nodes bs) i (q, sq) Hi) at 1. do 2 f_equal.
    by rewrite (drop_S _ _ _ Hp).
  - wp_steps. assert (∀ j x s, nodes bs !! j = Some (x, s) → (d ≤ steps N kf j)%nat → s < nunits) as Hvis'.
    { intros j x s Hj Hle. destruct (decide (d = steps N kf j)) as [E|E]; [|eapply Hvis; [done|lia]].
      pose proof (lookup_lt_Some _ _ _ Hj). rewrite E in Hd. apply steps_inj in Hd; [|done..]. subst j.
      rewrite Hp in Hj. by simplify_eq. }
    destruct (Z.eqb_spec p (freep h)) as [Ef|Ef].
    + apply Hcore; [|lia]. intros b [j Hj]%list_elem_of_lookup. destruct b as [x s].
      apply (Hvis' (S j) x s Hj). subst p. pose proof (node_inj _ _ _ _ _ _ _ _ Hfl Hp Hkf) as E.
      rewrite E in Hd. unfold steps in Hd at 1. rewrite decide_True in Hd by lia. lia.
    + destruct (seg_next _ _ _ _ _ _ _ (fl_ring _ _ _ Hfl) Hp) as (y & t & Hy & Hptr).
      unfold get_ptr. wp_steps. rewrite Hptr.
      assert ((S i mod N)%nat ≠ kf) as Hne by (intros E; rewrite E, Hkf in Hp; by simplify_eq).
      pose proof (steps_next N kf (S i mod N)%nat HpN HkN Hne) as Hs. rewrite Hd in Hs.
      apply (IH (steps N kf (S (S i mod N) mod N)) ltac:(lia) fuel _ _ _ _ _ Hp Hy eq_refl).
      * change (S (length bs)) with N. lia.
      * change (S (length bs)) with N. intros j x s Hj Hj'. apply (Hvis' j x s Hj). lia.
      * change (S (length bs)) with N. intros Hall fuel' Hf'. apply Hcore; [done|lia].
Qed.

(** Adjacent units of the free list are in one block. *)
Lemma covers_block lo bs hi a n :
  laid lo bs hi → 0 < n → (∀ u, a ≤ u < a + n → covers bs u) → ∃ b, b ∈ bs ∧ n ≤ b.2.
Proof.
  intros Hl Hn Hc. destruct (Hc a ltac:(lia)) as ([b s] & Hin & Hu). unfold within in Hu. simpl in Hu.
  exists (b, s). split; [done|]. simpl. destruct (decide (n ≤ s)); [done|]. exfalso.
  destruct (Hc (b + s) ltac:(lia)) as ([b' s'] & Hin' & Hu'). unfold within in Hu'. simpl in Hu'.
  apply list_elem_of_lookup in Hin as [i Hi], Hin' as [j Hj].
  destruct (decide (i = j)) as [->|]; [rewrite Hi in Hj; simplify_eq; lia|].
  destruct (decide (i < j)%nat); [pose proof (laid_lookup _ _ _ _ _ _ _ _ _ Hl Hi Hj); lia|].
  pose proof (laid_lookup _ _ _ _ _ _ _ _ _ Hl Hj Hi). lia.
Qed.

(** The search from [freep] on. *)
Lemma malloc_from_freep h bs A nunits fuel Q :
  heap_ok h bs A → 0 < nunits → (length bs < fuel)%nat →
  (∀ L q sq p sp R, nodes bs = L ++ (q, sq) :: (p, sp) :: R → nunits ≤ sp → wp (malloc_take nunits q p) h Q) →
  ((∀ b, b ∈ bs → b.2 < nunits) → ∀ fuel', (fuel ≤ fuel' + S (length bs))%nat →
    wp (p ← morecore fuel' nunits;
        if p =? 0 then mret 0 else nx ← get_ptr p; malloc_loop fuel' nunits p nx) h Q) →
  wp (malloc_loop fuel nunits (freep h) (ptr h (freep h))) h Q.
Proof.
  intros Hok Hnu Hf HT Hcore. destruct (node_index _ _ _ Hok) as (k & sf & Hk).
  destruct (seg_next _ _ _ _ _ _ _ (fl_ring _ _ _ (ho_list _ _ _ Hok)) Hk) as (y & t & Hy & ->).
  pose proof (lookup_lt_Some _ _ _ Hk) as HkN. pose proof (lookup_lt_Some _ _ _ Hy) as HyN.
  assert (length (nodes bs) = S (length bs)) as HN by done.
  pose proof (steps_lt (length (nodes bs)) k (S k mod length (nodes bs)) HkN HyN) as Hs.
  assert (∀ j, (j < length (nodes bs))%nat → (steps (length (nodes bs)) k j ≤ steps (length (nodes bs)) k (S k mod length (nodes bs)))%nat) as Hmax.
  { intros j Hj. unfold steps. destruct (decide (S k = length (nodes bs))) as [E|E].
    - rewrite E, Nat.Div0.mod_same. repeat case_decide; lia.
    - rewrite (Nat.mod_small (S k)) by lia. repeat case_decide; lia. }
  eapply (malloc_search h bs A nunits k sf Q Hok Hnu Hk HT _ fuel k _ _ _ _ Hk Hy eq_refl).
  - change (S (length bs)) with (length (nodes bs)). lia.
  - change (S (length bs)) with (length (nodes bs)). intros j x s Hj Hlt.
    specialize (Hmax j (lookup_lt_Some _ _ _ Hj)). lia.
  - change (S (length bs)) with (length (nodes bs)). intros Hall fuel' Hf'. apply Hcore; [done|lia].
Qed.

(** The outcomes of [malloc] for [n] units. *)
Definition malloc_post h bs A n (r : Z) h' : Prop :=
  untouched A h h' ∧
  ((r = 0 ∧ (∃ bs', heap_ok h' bs' A) ∧ (∀ b, b ∈ bs → b.2 < n) ∧
    grants (brk h) (core n * sizeof_Header) = false) ∨
   (∃ x bs', r = x + 1 ∧ A !! x = None ∧ heap_ok h' bs' (<[x := n]> A))).

Lemma malloc_loop_wp h bs A n fuel :
  heap_ok h bs A → 0 < n → core n * sizeof_Header < 2 ^ 31 → (2 * length bs + 4 ≤ fuel)%nat →
  wp (malloc_loop fuel n (freep h) (ptr h (freep h))) h (malloc_post h bs A n).
Proof using laws.
  intros Hok Hn Hmax Hfuel. eapply malloc_from_freep; [done|done|lia|..].
  - intros L q sq p sp R EN Hfit. eapply wp_mono; [by eapply malloc_take_wp|].
    intros r h' (x & bs' & -> & HN & Hok' & Hun). split; [done|]. right. by exists x, bs'.
  - intros Hall fuel' Hf'. wp_step. eapply wp_mono; [apply (morecore_wp h bs A); [done|done|done|lia]|].
    intros r h1 [(-> & -> & Hg)|(-> & Hr & bs1 & Hok1 & Hlen & Hcov & Hun1)].
    + simpl. wp_step. split; [by intros a m u _ _|]. left. split_and!; [done|by eauto|done|done].
    + rewrite (proj2 (Z.eqb_neq _ _)) by done. unfold get_ptr. wp_steps.
      eapply malloc_from_freep; [done|done|lia|..].
      * intros L q sq p sp R EN Hfit. eapply wp_mono; [by eapply malloc_take_wp|].
        intros r h' (x & bs' & -> & HN & Hok' & Hun). split; [|right; by exists x, bs'].
        intros a m u Ha Hu. destruct (Hun a m u Ha Hu) as [-> ->]. by apply (Hun1 a m u).
      * intros Hsmall. exfalso.
        assert (n ≤ core n) as Hc by (unfold core; case_match eqn:E; [apply Z.ltb_lt in E|]; lia).
        destruct (covers_block _ bs1 _ (top h) (core n) (fl_laid _ _ _ (ho_list _ _ _ Hok1))) as (b & Hb & Hle); [lia| |].
        -- intros u Hu. apply Hcov. by right.
        -- specialize (Hsmall b Hb). lia.
Qed.

(** A heap before the first call. *)
Definition fresh h : Prop :=
  freep h = 0 ∧ base < top h ∧ brk h mod sizeof_Header = 0 ∧ 0 ≤ brk h ≤ 2 ^ 32.

Definition first_ring h : heap := set_size base 0 (set_freep base (set_ptr base base h)).

Lemma first_ring_ok h : fresh h → heap_ok (first_ring h) [] ∅.
Proof.
  clear laws. intros (Hf & Ht & Hm & Hb). split; try done.
  - split; simpl; [apply put_eq|apply put_eq|]. unfold top in *. simpl. lia.
  - by left.
Qed.

Lemma units_range nbytes :
  0 ≤ nbytes ≤ 2 ^ 31 - 32 →
  0 < units nbytes ∧ core (units nbytes) * sizeof_Header < 2 ^ 31 ∧ nbytes ≤ (units nbytes - 1) * sizeof_Header.
Proof.
  intros Hn. unfold units, core, sizeof_Header. rewrite u32_small by (Z.div_mod_to_equations; lia).
  case_match; Z.div_mod_to_equations; lia.
Qed.

(** C15: the allocator never hands out memory twice.  For a request
    of at most 2^31 - 32 bytes, which with its header is less than 2 GB, and long
    enough fuel [malloc] returns.  It returns null only when no free
    block is large enough and the kernel refuses to grow the process.  Otherwise
    the result is one unit past a header that was not in use, of a block with room
    for the request, which is disjoint from every other block in use, from the
    free blocks and from memory beyond the break.  For a block in use [free]
    returns, the block is no longer in use, and the free memory is what it was and
    the block.  Free blocks stay sorted and coalesced, and neither function
    writes a byte of the other blocks in use.  The break is a multiple of 16, and
    the kernel, with its 128 MB, never grants one above 4 GB. *)
Theorem allocator_correct h bs A :
  heap_ok h bs A ∨ (fresh h ∧ bs = [] ∧ A = ∅) →
  (∀ nbytes fuel, 0 ≤ nbytes ≤ 2 ^ 31 - 32 → (2 * length bs + 4 ≤ fuel)%nat →
    wp (malloc fuel nbytes) h (λ r h',
      malloc_post h bs A (units nbytes) r h' ∧ nbytes ≤ (units nbytes - 1) * sizeof_Header)) ∧
  (∀ x n fuel, A !! x = Some n → (length bs + 2 ≤ fuel)%nat →
    wp (free fuel (x + 1)) h (λ _ h', ∃ bs',
      heap_ok h' bs' (delete x A) ∧ (∀ u, covers bs' u ↔ covers bs u ∨ x ≤ u < x + n) ∧
      untouched (delete x A) h h')).
Proof using laws.
  intros Hok. split.
  - intros nbytes fuel Hn Hfuel. destruct (units_range nbytes Hn) as (Hu & Hc & Hroom).
    unfold malloc, get_freep. wp_steps. destruct Hok as [Hok|(Hfr & -> & ->)].
    + rewrite (proj2 (Z.eqb_neq _ _)) by (by eapply freep_pos). unfold get_ptr. wp_steps.
      eapply wp_mono; [by apply malloc_loop_wp|]. done.
    + pose proof Hfr as (-> & _). simpl. unfold get_ptr. wp_steps. fold (first_ring h).
      eapply wp_mono; [apply (malloc_loop_wp (first_ring h) [] ∅); [by apply first_ring_ok|done..]|].
      intros r h' [Hun Hpost]. split; [|done]. split; [by intros a m u Ha|]. exact Hpost.
  - intros x n fuel Hx Hf. destruct Hok as [Hok|(_ & _ & ->)]; [|done].
    eapply wp_mono; [by apply (free_wp h bs A x n)|].
    intros [] h' (bs' & H1 & _ & _ & H2 & H3). by exists bs'.
Qed.

End spec.

(** ** A process of 64 KB on a machine of 128 MB *)

#[global] Instance demo_arena : Arena := { base := 100; grants old n := old + n <=? 2 ^ 27 }.
#[global] Instance demo_arena_laws : ArenaLaws.
Proof. split; [done|]. intros old n H. apply Z.leb_le in H. lia. Qed.

Definition demo_fresh : heap := mk_heap (λ _, 0) (λ _, 0) 0 65536.
(** One free block, of ten units at 200, and one in use, of five at 300. *)
Definition demo_heap : heap :=
  mk_heap (λ x, if x =? 100 then 200 else if x =? 200 then 100 else 0)
    (λ x, if x =? 200 then 10 else if x =? 300 then 5 else 0) 100 65536.

Lemma demo_heap_ok : heap_ok demo_heap [(200, 10)] {[300 := 5]}.
Proof.
  assert (∀ a n, ({[300 := 5]} : gmap Z Z) !! a = Some n → a = 300 ∧ n = 5) as HA
    by (intros a n [<- <-]%lookup_singleton_Some; done).
  split; try done.
  - by left.
  - intros a n [-> ->]%HA. done.
  - intros a n u [-> ->]%HA Hu ([b s] & Hin%list_elem_of_singleton & Hw). simplify_eq. unfold within in Hw. simpl in Hw. lia.
  - by intros a n a' n' u [-> ->]%HA [-> ->]%HA.
Qed.

Lemma allocator_correct_witness :
  wp (malloc 6 100) demo_heap (malloc_post demo_heap [(200, 10)] {[300 := 5]} 8) ∧
  wp (free 3 301) demo_heap (λ _ h', ∃ bs', heap_ok h' bs' (delete 300 {[300 := 5]}) ∧ covers bs' 304).
Proof.
  destruct (allocator_correct demo_heap [(200, 10)] {[300 := 5]} (or_introl demo_heap_ok)) as [Hm Hf]. split.
  - eapply wp_mono; [apply (Hm 100 6%nat); [lia|simpl; lia]|]. intros r h' [H _]. exact H.
  - eapply wp_mono; [apply (Hf 300 5 3%nat); [reflexivity|simpl; lia]|].
    intros [] h' (bs' & H1 & H2 & _). exists bs'. split; [exact H1|]. apply H2. right. lia.
Defined.

(** The bound is exact.  With one byte more the block is of 2 GB, which is
    negative as the [int] that [sbrk] takes, so the break stays where it is, and
    [malloc] returns a block that lies beyond it. *)
Lemma malloc_beyond_break :
  wp (malloc 4 (2 ^ 31 - 31)) demo_fresh (λ r h', r ≠ 0 ∧ brk h' = 65536 ∧ size h' (r - 1) = 2 ^ 27 ∧ top h' ≤ r - 1).
Proof. vm_compute. split_and!; congruence. Qed.
